(* ===== verification/_CoqProject ===== *)
-Q . S2P
Prelude.v
Floats.v
JavaArith.v
OptArith.v
IR.v
ConstFold.v
Gen.v
MulConst.v
Simplify.v
SimplifyOk.v
SimplifyDiv.v
SimplifyCmp.v
SimplifyCmpOk.v
Frame.v
FrameOk.v
Opcodes.v
OpcodesOk.v
StackOk.v
BranchOk.v
FrameSafe.v
Interp.v
JavaMachine.v
InterpOk.v
CallOk.v
LockWord.v
Threads.v
FatMonitor.v
LockTable.v
RWLock.v
Suspend.v
SuspendOk.v
SuspendRuns.v
ThinMonitor.v
Abcd.v
AbcdOk.v
AbcdGraph.v
ByteReader.v
VerTypes.v
ClassNames.v
ClassNamesOk.v
VerContext.v
Verify6.v
VerTypesOk.v
VerStepOk.v
Verify6Ok.v
VerLimits.v
Descriptors.v
ConstPool.v
Annotations.v
ClassMembers.v
MethodParse.v
ClassParse.v
ClassFileOk.v
LoaderOk.v
LoadedOk.v
LoaderRuns.v
FieldLayout.v
FieldLayoutOk.v
StaticData.v
PreparedOk.v
ClassTables.v
SubtypeOk.v
VTablesOk.v
PrepareOk.v
PrepareRuns.v
