(* ===== verification/Prelude.v ===== *)
(** * Harmony DRLVM: a verification development

    DRLVM is a Java virtual machine: a core that loads, links and verifies classes
    ([src/vm/vmcore]), an interpreter ([src/vm/interpreter]), the optimising compiler
    Jitrino ([src/vm/jitrino]), a thread manager ([src/vm/thread]) and a garbage
    collector ([src/vm/gc_gen]).  The development models the parts in which the
    program's own reasoning lies and proves what makes them correct:

    - the optimiser's arithmetic: constant folding, algebraic simplification, and
      the lowering of multiplications and divisions;
    - the elimination of bounds checks by the ABCD solver;
    - the interpreter on its frames, with static calls and exceptions;
    - the class file parser, from the bytes of a file to the methods of a class;
    - the preparation of classes: the layout of fields, static data, virtual and interface
      tables, and the tests of types that read them;
    - the Java 6 bytecode verifier, and that what it accepts does not get stuck;
    - monitors: thin locks, fat locks, the table between them and its lock;
    - the suspension of threads at safe points and in safe regions, which the collector
      and the monitors build on.

    They meet in four places.  One definition of Java's arithmetic ([JavaArith]) is the
    specification of the folder, of the simplifier and of the interpreter's opcodes,
    so the compiler and the interpreter compute the same.  One abstract machine for
    bytecode ([JavaMachine]) is refined by the interpreter and is what the verifier is
    sound for: [Verify6Ok.verified_interpreter] puts the three together.  The methods of
    a class that parses are what the verifier takes, and their descriptors have the types
    it reads ([LoadedOk.loaded_method_safe]); its fields and constants are what preparation
    lays out and stores ([PreparedOk.fields_laid_out], [PreparedOk.constants_stored]).

    ** The files

    Common.  [Prelude] (this file): machine integers as [Z] with explicit
    wrap-around, congruence modulo a power of two with its [Proper] instances,
    bit counting.  [Floats]: IEEE 754 words over [spec_float].  [JavaArith]: the
    arithmetic of the virtual machine specification.

    The optimiser ([src/vm/jitrino/src/optimizer], types in [shared/Type.h]).
    - [OptArith], for [optarithmetic.h]: powers of two, bit counts, the numbers of
      division by multiplication.
    - [IR], for [Type.h], [Opcode.h] and [Inst.h]: types, opcodes, modifiers,
      instructions; a program is the list of the instructions made so far.
    - [ConstFold], for [constantfolder.cpp].
    - [Gen], for the [gen] functions of [simplifier.cpp] and the factory of [Inst.cpp]:
      the generator monad, the meaning of instructions ([denote], [models]) and the
      weakest precondition [wp] with one rule for each generator.
    - [MulConst], for [multiplybyconstant.cpp].
    - [Simplify] with [SimplifyOk] and [SimplifyDiv], for the arithmetic half of
      [simplifier.cpp]; [SimplifyCmp] with [SimplifyCmpOk], for its comparisons,
      branches, switches and run-time checks.
    - [Abcd], [AbcdOk] and [AbcdGraph], for [abcd/classic_abcd_solver.{h,cpp}].

    The interpreter ([src/vm/interpreter/src]).
    - [Frame] and [FrameOk], for the frames of [interp_defs.h].
    - [Opcodes], for the opcodes of [interpreter.cpp] that work on the frame alone,
      with [OpcodesOk], [StackOk], [BranchOk] and [FrameSafe].
    - [Interp], for the loop, static calls, returns and the search for handlers, with
      [JavaMachine], [InterpOk] and [CallOk].

    Class files ([src/vm/vmcore/src/class_support/Class_File_Loader.cpp]).
    - [ByteReader], for [include/bytereader.h]: a monad of reads, with [Fails] for an error
      that is reported and [Wild] for what the code does not define, and a logic for it
      ([runs]: from a good reader of a small file, no [Wild]).
    - [ClassNames] and [ClassNamesOk]: UTF-8 strings, names and descriptors.
      [Descriptors]: a grammar of descriptors, what the loader accepts and what the
      verifier reads.
    - [ConstPool], for [ConstantPool] of [include/Class.h] with its parsing and checks;
      [Annotations]; [ClassMembers], for fields, handlers and the tables of methods;
      [MethodParse]; [ClassParse], for [Class::parse] and [class_extract_name].
    - [ClassFileOk], with a lemma for each of these functions; [LoaderOk] and [LoadedOk],
      with the theorems; [LoaderRuns], with class files that are parsed.

    The preparation of classes ([src/vm/vmcore/src/class_support/Prepare.cpp]).
    - [FieldLayout] and [FieldLayoutOk]: the sort of the fields and their offsets (from
      [sizeof_field_type] to [Class::assign_offsets_to_fields]), and the sizes of objects and
      arrays ([Class::calculate_array_size] of [Class.h]).
    - [StaticData], for [assign_values_to_class_static_final_fields]; [PreparedOk] puts the
      layout and the values on top of a class the loader has read.
    - [ClassTables], for steps 1 to 4, 6, 7 and 10 to 14 of [Class::prepare] with the functions
      they call, [Class::is_instanceof] and [Class::helper_get_interface_vtable] of [Class.cpp]
      and [class_is_subtype] of [jit/jit_runtime_support.cpp].  The classes are a list that does
      not change, and what preparation makes of each is a finite map that grows.
    - [SubtypeOk], for the relation of subtypes and the tests; [VTablesOk], for the slots of
      one class; [PrepareOk], for the invariant of prepared classes ([inv]) and the theorems;
      [PrepareRuns], with classes that are prepared.

    The bytecode verifier ([src/vm/vmcore/src/verifier-3363]).
    - [VerTypes], for [base/{stackmap.h,tpool.h,tpool.cpp,vf_resolve.cpp}].
    - [VerContext], for [base/{instr_props.h,context_base.*,context_x.*}] with the
      operations of [java6/context_6.h].
    - [Verify6], for [java6/context_6.cpp] and [base/ver.cpp].
    - [VerTypesOk], [VerStepOk], [Verify6Ok] and [VerLimits].

    The thread manager ([src/vm/thread/src]).
    - [LockWord], [LockTable], [RWLock] and [ThinMonitor], for
      [thread_native_thin_monitor.c]; [FatMonitor], for [thread_native_fat_monitor.c];
      [Threads], for systems of any number of threads.
    - [Suspend], for [thread_native_suspend.c] and the semaphores of
      [thread_native_semaphore.c], with the safe regions of [open/hythread_ext.h], the
      global lock of [thread_init.c], [vm_gc_lock_enum] of [C_Interface.cpp] and the stop
      callback of [thread_native_basic.c]; [SuspendOk], and [SuspendRuns] with schedules
      that are executed.

    A file whose name ends in [Ok] has the theorems of the file before it; the other
    files have their definitions first and their theorems after.

    ** How code becomes definitions

    An integer of [w] bits is a [Z] with [ux w] or [sx w] after every operation that can
    leave its type; a float is its word.  A function of C++ is a function of Rocq.  What
    it reads and changes is explicit: the program being extended (the generator monad
    [Gen]), the verifier's context (the monad [V], with the result codes of the source
    and [VUndef] for a failed assertion), the lock word, table and monitors in memory
    (the monad [M]), the frame (a partial function).  [None] is a failed assertion, a
    null pointer followed or a read out of range, so the theorems that an operation
    does not fail say that its assertions hold.  Blocking operations are cut at their
    waits and run as steps of a transition system, with any number of threads and any
    interleaving of the steps.  The suspension protocol, whose functions race by design,
    is cut finer: a step has at most one access to a shared field, and a thread is a
    stack of places in the code.  Thin monitors run without interference, apart from one
    interleaving that shows what goes wrong with it.

    ** What the theorems show

    - The folder agrees with Java on integers, comparisons and conversions
      ([ConstFold.foldConstant_java]); the exceptions are listed at the end of
      [ConstFold].
    - At the types int, long, float and double a simplification of arithmetic neither
      fails nor changes a value, whatever the program around it
      ([SimplifyOk.simplifyAdd_value] and its like, [SimplifyDiv.simplifyTauDiv_value],
      [MulConst.planMul_code]); [OptArith.getMagic_correct] is the number theory below.
      At other types folding can fail ([SimplifyOk.simplifyAdd_other_type]), and the lowest
      integer as a divisor is taken for a positive one ([SimplifyDiv.simplifyTauDiv_min]).
      A comparison and a branch decide as before ([SimplifyCmpOk.simplifyCmp_value],
      [SimplifyCmpOk.caseBranch_ok]) in programs with the three-way comparisons the
      translator makes ([gt_cmp3]); a check is removed only when it is decided
      ([SimplifyCmpOk.caseTauCheck_ok]), for null checks in programs that obey the meaning
      of the instructions that give objects ([references_ok]).
    - The ABCD search ends, and what it proves holds in every execution that obeys the
      graph, when nothing was memoised as false on the way or when a solver answers
      one question ([AbcdOk.demandProve_sound_single]); a later question can be answered
      wrongly ([AbcdGraph.stale_result]).
    - Every modelled opcode does to the frame what Java does to its stack
      ([OpcodesOk.arith_refines], [StackOk.shuffle_refines], [BranchOk.switch_refines]),
      any frame stays well formed ([FrameSafe.dispatch_safe]), and the loop refines the
      machine, calls and exceptions included ([CallOk.interpreter_refines]).
    - A method the verifier accepts does not get stuck on the machine, as long as it runs
      ([Verify6Ok.verify_method_safe]), and so no access of the interpreter fails
      ([Verify6Ok.verified_interpreter]).  The theorems are about static methods without
      handlers, of at most 32 K, made of the instructions of the machine
      ([Verify6Ok.modelled_method]), with no stack map outside the code
      ([Verify6Ok.maps_inside], which the code does not check).  [VerLimits] has methods
      outside these conditions that are accepted and get stuck, the termination of the pass
      ([VerLimits.verify_loop_fuel]) and the case in which it does not end
      ([VerLimits.verify_method_diverges]), and what the loop over the methods of a class
      leaves out ([VerLimits.skipped_methods]).
    - A class file is parsed without an access outside the file or what was allocated
      ([LoaderOk.class_parse_safe]), if it has fewer than 65534 bytes and a constant pool
      that is not empty, and its class is none of three special ones and has no dollar sign
      in its name ([ordinary]).  The code checks none of these: [LoaderOk.class_parse_wild]
      says exactly what happens without the second, and [LoaderRuns.unchecked_class_files]
      has files for the others.  The second
      parser, for the name alone, agrees with the first ([LoaderOk.extract_name_agrees]);
      a constant pool that is printed is read back ([LoaderOk.pool_roundtrip]).
    - The fields of a class do not overlap, are aligned and inside the data of the class
      ([PreparedOk.fields_laid_out]), static fields get their constants
      ([PreparedOk.constants_stored]), and the size of an array is the least one with room
      for its elements or, above an exact limit, zero ([FieldLayoutOk.array_size_exact]).
      The first two are about ordinary classes, builds in which compacted fields are sorted
      ([build_ok]), and constants of the type of their field ([settled]);
      [PreparedOk.unprepared_classes] has classes that stop the machine otherwise.
    - Preparation ends with the class prepared or the exception for a sealed method
      ([PrepareOk.prepare_total]).  A call through the virtual table reaches the method that
      lookup by name in the class and its super classes finds
      ([PrepareOk.virtual_dispatch]), a call through an interface that method or the error
      Java asks for ([PrepareOk.interface_dispatch]), and the tests of types decide the
      relation of subtypes ([SubtypeOk.class_is_subtype_spec], [SubtypeOk.is_instanceof_spec]).
      The hypotheses ([types_ok], [world_ok]) are what loading makes sure of, a bound on the
      size of the tables, and two conditions the code needs and does not check: interfaces
      of different weights, and no method hidden from another package;
      [PrepareRuns.preparation_errors] shows what happens without them.
    - A fat monitor excludes ([FatMonitor.monitor_exclusion]); the operations of thin
      monitors refine an owner with a count ([ThinMonitor.enter_refines] and its like);
      the table implements a map, keeps the monitors of live objects and reclaims the
      others in a cycle in which any was reported ([LockTable.gc_cycle_keeps_live]); its lock
      excludes as long as waits end by notification ([RWLock.rwlock_exclusion]), does not
      when one ends spuriously ([RWLock.spurious_reader]), and can starve readers
      ([RWLock.readers_starve]).
    - A thread that is held suspended does not run unsafe code
      ([SuspendOk.suspended_is_safe]), [hythread_suspend_all] stops the world
      ([SuspendOk.suspend_all_stops]) and no wake-up is lost ([SuspendOk.no_lost_wakeup]),
      all by one account of who owes whom a resume, which the two counters of a thread
      follow.  The theorems are about runs under sequential consistency without
      callbacks and without overflow of the counters ([SuspendOk.careful]); [SuspendRuns] has the schedules that break the protocol with callbacks,
      and a deadlock without ([SuspendRuns.suspend_deadlock]).

    ** Fuel

    Recursion that is not structural has fuel, and a theorem says how much is enough.
    [Abcd.prove] needs one unit more than the graph has operands
    ([AbcdOk.demandProve_total]).  The loop of [getMagic] runs at most [w] times and is
    given that ([OptArith.getMagic_correct] has the result), [shifttomakeOdd] likewise.
    [Interp.interpreter] spends a unit for each opcode, callees included: with the fuel
    of the machine's execution it has the machine's result, and more fuel does not change
    a result ([CallOk.interpreter_fuel]).  [Verify6.verify_loop] gives [None]
    when it is out of fuel; it needs at most the length of the code from where it starts
    ([VerLimits.verify_loop_fuel]).  The class file parser ends with the file at the
    latest: each loop is counted by a number it read, or takes a byte each time and has the bytes left for fuel, and
    [LoaderOk.class_parse_safe] shows it is never out of fuel.  Walks over
    descriptors take the length of the string, over class hierarchies the depth
    the parameter gives.  Preparation and the tests of types go down in a rank of the classes
    and need one unit more than there are classes ([PrepareOk.prepare_total],
    [SubtypeOk.class_is_subtype_spec]); the bubble sort needs one more than the square of the
    number of fields.  The loops of [ThinMonitor] that retry run once without
    interference; the release needs one unit for each recursive entry, at most 32.

    ** Not modelled

    Of the modelled parts: the Java 5 verifier with its data flow over subroutines, the
    class loader's check of the constraints the verifier records, the simplification of
    loads, stores, calls and type checks and the walk over the control-flow graph, the
    construction of ABCD's graphs and the insertion of pi nodes, the interpreter's
    opcodes on the heap, its virtual, interface and native calls, JVMTI and monitors.
    Resolution, the class hierarchy, exception objects and allocation are parameters,
    and so is, for thin monitors, the suspension of the owner.  Memory barriers and the
    interrupt of waiting threads are not in the model of suspension.

    Of class files, the resolution of entries of the constant pool while the machine runs
    and the creation of type descriptors of fields are left out; the interned strings of
    the source are strings, compared by their characters.

    Of preparation, the code behind an entry of a table and its patching, the properties of a
    class the collector reads, events, statistics and locks are left out; a number of methods
    is not truncated to sixteen bits, and memory is allocated without failure.  That loaded
    classes satisfy [types_ok] is a hypothesis, because class loaders are not modelled.

    Of the rest of the machine nothing is modelled: class loaders, resolution and
    initialisation of classes, JNI, JVMTI and the kernel classes, which are made of calls into each other and into the
    platform; the garbage collectors, whose state is raw memory shared by parallel
    collector threads; the execution manager; the other passes of the optimiser, the
    translator and the code generators; the porting layer and the build.  They are listed
    one by one in the manifest. *)
From Stdlib Require Export ZArith Lia.
From stdpp Require Export base option list numbers.

Open Scope Z_scope.

(** ** Machine integers

    A [w]-bit pattern is a [Z] in [0, 2^w); a [w]-bit signed integer is a [Z]
    in [-2^(w-1), 2^(w-1)).  [ux w] and [sx w] are the two C conversions to a
    [w]-bit type: reduction modulo [2^w] and two's complement reading. *)

Definition ux (w z : Z) : Z := z mod 2 ^ w.

Definition sx (w z : Z) : Z := (z + 2 ^ (w - 1)) mod 2 ^ w - 2 ^ (w - 1).

Definition is_u (w z : Z) : Prop := 0 <= z < 2 ^ w.

Definition is_s (w z : Z) : Prop := - 2 ^ (w - 1) <= z < 2 ^ (w - 1).

#[export] Instance is_u_dec w z : Decision (is_u w z).
Proof. unfold is_u. apply _. Defined.

#[export] Instance is_s_dec w z : Decision (is_s w z).
Proof. unfold is_s. apply _. Defined.

(** Congruence modulo [2^w]: the equivalence under which every arithmetic
    operation of the machine is a congruence. *)
Definition eqm (w a b : Z) : Prop := (2 ^ w | a - b).

Declare Scope word_scope.
Delimit Scope word_scope with word.
Notation "a ≡[ w ] b" := (eqm w a b)
  (at level 70, w at level 10, no associativity) : word_scope.
Open Scope word_scope.

Lemma eqm_mod w a b : a ≡[w] b <-> a mod 2 ^ w = b mod 2 ^ w.
Proof.
  unfold eqm. destruct (decide (2 ^ w = 0)) as [->|Hz].
  - rewrite !Z.mod_0_r. split; [intros ?%Z.divide_0_l; lia|]. intros ->. exists 0. lia.
  - split; intros H.
    + destruct H as [k Hk]. replace a with (b + k * 2 ^ w) by lia.
      apply Z.mod_add, Hz.
    + exists (a / 2 ^ w - b / 2 ^ w).
      pose proof (Z.div_mod a _ Hz). pose proof (Z.div_mod b _ Hz). lia.
Qed.

#[export] Instance eqm_equiv w : Equivalence (eqm w).
Proof. split; red; intros *; rewrite !eqm_mod; congruence. Qed.

#[export] Instance eqm_add w : Proper (eqm w ==> eqm w ==> eqm w) Z.add.
Proof.
  intros a a' [k Hk] b b' [l Hl]. exists (k + l). lia.
Qed.

#[export] Instance eqm_sub w : Proper (eqm w ==> eqm w ==> eqm w) Z.sub.
Proof.
  intros a a' [k Hk] b b' [l Hl]. exists (k - l). lia.
Qed.

#[export] Instance eqm_mul w : Proper (eqm w ==> eqm w ==> eqm w) Z.mul.
Proof.
  intros a a' [k Hk] b b' [l Hl]. exists (k * b + l * a'). nia.
Qed.

#[export] Instance eqm_opp w : Proper (eqm w ==> eqm w) Z.opp.
Proof. intros a a' [k Hk]. exists (- k). lia. Qed.

Lemma eq_eqm w a b : a = b -> a ≡[w] b.
Proof. by intros ->. Qed.

Lemma eqm_ux w z : ux w z ≡[w] z.
Proof. apply eqm_mod, Zmod_mod. Qed.

Lemma eqm_sx w z : sx w z ≡[w] z.
Proof.
  apply eqm_mod. unfold sx. rewrite Zminus_mod_idemp_l. f_equal. lia.
Qed.

#[export] Instance ux_proper w : Proper (eqm w ==> eq) (ux w).
Proof. intros a b H. by apply eqm_mod. Qed.

#[export] Instance sx_proper w : Proper (eqm w ==> eq) (sx w).
Proof.
  intros a b H. unfold sx. f_equal. apply eqm_mod. by rewrite H.
Qed.

Lemma eqm_sx_iff w a b : sx w a = sx w b <-> a ≡[w] b.
Proof.
  split; intros H; [|by rewrite H].
  by rewrite <- (eqm_sx w a), H, eqm_sx.
Qed.

Lemma eqm_ux_iff w a b : ux w a = ux w b <-> a ≡[w] b.
Proof. symmetry. apply eqm_mod. Qed.

Lemma eqm_add_mul w a k : a + k * 2 ^ w ≡[w] a.
Proof. exists k. lia. Qed.

Lemma pow2_pos w : 0 <= w -> 0 < 2 ^ w.
Proof. intros. apply Z.pow_pos_nonneg; lia. Qed.

Lemma pow2_half w : 0 < w -> 2 ^ w = 2 * 2 ^ (w - 1).
Proof. intros. rewrite <- Z.pow_succ_r by lia. f_equal. lia. Qed.

Lemma ux_range w z : 0 <= w -> is_u w (ux w z).
Proof. intros. apply Z.mod_pos_bound, pow2_pos; lia. Qed.

Lemma sx_range w z : 0 < w -> is_s w (sx w z).
Proof.
  intros Hw. unfold is_s, sx. rewrite (pow2_half w Hw).
  pose proof (Z.mod_pos_bound (z + 2 ^ (w - 1)) (2 * 2 ^ (w - 1))).
  pose proof (pow2_pos (w - 1)). lia.
Qed.

Lemma ux_id w z : is_u w z -> ux w z = z.
Proof. apply Z.mod_small. Qed.

Lemma sx_id w z : 0 < w -> is_s w z -> sx w z = z.
Proof.
  intros Hw Hz. unfold is_s, sx in *. rewrite Z.mod_small; [lia|].
  rewrite (pow2_half w Hw). lia.
Qed.

Lemma sx_ux w z : sx w (ux w z) = sx w z.
Proof. by rewrite eqm_ux. Qed.

Lemma ux_sx w z : ux w (sx w z) = ux w z.
Proof. by rewrite eqm_sx. Qed.

Lemma sx_sx w z : sx w (sx w z) = sx w z.
Proof. apply eqm_sx_iff, eqm_sx. Qed.

Lemma ux_ux w z : ux w (ux w z) = ux w z.
Proof. apply eqm_ux_iff, eqm_ux. Qed.

(** ** Bits of the two conversions *)

Lemma testbit_high m x i : 0 <= x < 2 ^ m -> 0 <= m <= i -> Z.testbit x i = false.
Proof.
  intros Hx Hi. destruct (decide (x = 0)) as [->|]; [apply Z.bits_0|].
  apply Z.bits_above_log2; [lia|].
  apply Z.log2_lt_pow2; [lia|]. pose proof (Z.pow_le_mono_r 2 m i). lia.
Qed.

Lemma testbit_sign w x i :
  0 < w -> is_s w x -> w - 1 <= i -> Z.testbit x i = (x <? 0).
Proof.
  intros Hw [Hlo Hhi] Hi. destruct (Z.ltb_spec x 0).
  - rewrite <- (Z.lnot_involutive x), Z.lnot_spec by lia.
    rewrite (testbit_high (w - 1)); [done| |lia]. unfold Z.lnot; lia.
  - apply (testbit_high (w - 1)); lia.
Qed.

Lemma testbit_eqm w a b i : a ≡[w] b -> 0 <= i < w -> Z.testbit a i = Z.testbit b i.
Proof.
  intros H Hi. apply eqm_mod in H.
  rewrite <- (Z.mod_pow2_bits_low a w i), <- (Z.mod_pow2_bits_low b w i) by lia.
  by rewrite H.
Qed.

Lemma testbit_ux w z i :
  0 <= w -> 0 <= i -> Z.testbit (ux w z) i = (i <? w) && Z.testbit z i.
Proof.
  intros Hw Hi. destruct (Z.ltb_spec i w); simpl.
  - apply (testbit_eqm w); [apply eqm_ux | lia].
  - apply (testbit_high w); [by apply ux_range | lia].
Qed.

Lemma testbit_sx w z i :
  0 < w -> 0 <= i -> Z.testbit (sx w z) i = Z.testbit z (Z.min i (w - 1)).
Proof.
  intros Hw Hi. destruct (Z.le_gt_cases w i).
  - rewrite Z.min_r by lia.
    rewrite <- (testbit_eqm w (sx w z) z (w - 1) (eqm_sx w z)) by lia.
    rewrite !(testbit_sign w) by first [apply sx_range; lia | lia]. done.
  - rewrite Z.min_l by lia. apply (testbit_eqm w); [apply eqm_sx | lia].
Qed.

Lemma bits_eqm w a b :
  0 <= w -> (forall i, 0 <= i < w -> Z.testbit a i = Z.testbit b i) -> a ≡[w] b.
Proof.
  intros Hw H. apply eqm_ux_iff, Z.bits_inj'. intros i Hi.
  rewrite !testbit_ux by lia. destruct (Z.ltb_spec i w); simpl; [|done].
  apply H. lia.
Qed.

Section bitwise.
Context (w : Z) (Hw : 0 < w).

Lemma sx_land a b : sx w (Z.land a b) = Z.land (sx w a) (sx w b).
Proof.
  apply Z.bits_inj'. intros i Hi.
  rewrite Z.land_spec, !testbit_sx, Z.land_spec by lia. done.
Qed.

Lemma sx_lor a b : sx w (Z.lor a b) = Z.lor (sx w a) (sx w b).
Proof.
  apply Z.bits_inj'. intros i Hi.
  rewrite Z.lor_spec, !testbit_sx, Z.lor_spec by lia. done.
Qed.

Lemma sx_lxor a b : sx w (Z.lxor a b) = Z.lxor (sx w a) (sx w b).
Proof.
  apply Z.bits_inj'. intros i Hi.
  rewrite Z.lxor_spec, !testbit_sx, Z.lxor_spec by lia. done.
Qed.

Lemma sx_lnot a : sx w (Z.lnot a) = Z.lnot (sx w a).
Proof.
  apply Z.bits_inj'. intros i Hi.
  rewrite Z.lnot_spec, !testbit_sx, Z.lnot_spec by lia. done.
Qed.

(** Signed values are closed under the bitwise operations. *)
Lemma is_s_sx a : is_s w a <-> sx w a = a.
Proof.
  split; [by apply sx_id|]. intros <-. by apply sx_range.
Qed.

Lemma is_s_land a b : is_s w a -> is_s w b -> is_s w (Z.land a b).
Proof. rewrite !is_s_sx, sx_land. congruence. Qed.

Lemma is_s_lor a b : is_s w a -> is_s w b -> is_s w (Z.lor a b).
Proof. rewrite !is_s_sx, sx_lor. congruence. Qed.

Lemma is_s_lxor a b : is_s w a -> is_s w b -> is_s w (Z.lxor a b).
Proof. rewrite !is_s_sx, sx_lxor. congruence. Qed.

Lemma is_s_lnot a : is_s w a -> is_s w (Z.lnot a).
Proof. rewrite !is_s_sx, sx_lnot. congruence. Qed.
End bitwise.

(** An arithmetic right shift keeps a signed value signed. *)
Lemma is_s_shiftr w a k : 0 < w -> 0 <= k -> is_s w a -> is_s w (Z.shiftr a k).
Proof.
  unfold is_s. intros Hw Hk [Hlo Hhi]. rewrite Z.shiftr_div_pow2 by lia.
  pose proof (pow2_pos k Hk). pose proof (pow2_pos (w - 1)).
  split.
  - apply Z.div_le_lower_bound; nia.
  - apply Z.div_lt_upper_bound; nia.
Qed.

Lemma is_s_0 w : 0 < w -> is_s w 0.
Proof. unfold is_s. pose proof (pow2_pos (w - 1)). lia. Qed.

(** A signed value widened is still in range. *)
Lemma is_s_weaken v w a : 0 < v <= w -> is_s v a -> is_s w a.
Proof.
  unfold is_s. intros Hv Ha. pose proof (Z.pow_le_mono_r 2 (v - 1) (w - 1)). lia.
Qed.

Lemma eqm_weaken v w a b : 0 <= v <= w -> a ≡[w] b -> a ≡[v] b.
Proof.
  intros Hv H. apply bits_eqm; [lia|]. intros i Hi.
  apply (testbit_eqm w); [done|lia].
Qed.

(** [ux] of a signed value, by cases on the sign. *)
Lemma ux_signed w a :
  0 < w -> is_s w a -> ux w a = if decide (a < 0) then a + 2 ^ w else a.
Proof.
  intros Hw [Hlo Hhi]. pose proof (pow2_half w Hw). unfold ux. case_decide.
  - rewrite <- (Z.mod_add a 1) by lia. rewrite Z.mod_small; lia.
  - apply Z.mod_small. lia.
Qed.

Lemma sx_unsigned w a :
  0 < w -> is_u w a -> sx w a = if decide (a < 2 ^ (w - 1)) then a else a - 2 ^ w.
Proof.
  intros Hw Ha. unfold is_u in *. pose proof (pow2_half w Hw). case_decide.
  - apply sx_id; unfold is_s; lia.
  - transitivity (sx w (a - 2 ^ w)).
    + apply eqm_sx_iff. exists 1. lia.
    + apply sx_id; unfold is_s; lia.
Qed.

Lemma sx_ux_inj w a b : 0 < w -> is_u w a -> is_u w b -> sx w a = sx w b -> a = b.
Proof.
  intros Hw Ha Hb H. apply eqm_sx_iff, eqm_ux_iff in H. by rewrite !ux_id in H.
Qed.

(** ** Digits

    [of_digits k l] is the number with the base-[2^k] digits [l], least
    significant first. *)
Definition of_digits (k : Z) (l : list Z) : Z := foldr (fun d acc => d + acc * 2 ^ k) 0 l.

(** The number of ones among the low [n] bits. *)
Fixpoint bits_set (n : nat) (x : Z) : Z :=
  match n with
  | O => 0
  | S n => Z.b2z (Z.testbit x (Z.of_nat n)) + bits_set n x
  end.

Lemma testbit_join n a b i :
  0 <= n -> is_u n a -> 0 <= i ->
  Z.testbit (a + b * 2 ^ n) i = if decide (i < n) then Z.testbit a i else Z.testbit b (i - n).
Proof.
  intros Hn Ha Hi. case_decide.
  - rewrite <- (testbit_eqm n a); [done| |lia]. symmetry. apply eqm_add_mul.
  - replace i with ((i - n) + n) at 1 by lia.
    rewrite <- Z.div_pow2_bits by lia. rewrite Z.div_add, Z.div_small by (unfold is_u in Ha; lia).
    done.
Qed.

Lemma land_join n a b m m' :
  0 <= n -> is_u n a -> is_u n m ->
  Z.land (a + b * 2 ^ n) (m + m' * 2 ^ n) = Z.land a m + Z.land b m' * 2 ^ n.
Proof.
  intros Hn Ha Hm. unfold is_u in *.
  assert (is_u n (Z.land a m)).
  { split; [apply Z.land_nonneg; lia|].
    destruct (decide (Z.land a m < 2 ^ n)); [done|].
    rewrite <- (Z.mod_small a (2 ^ n)), <- Z.land_ones by lia.
    rewrite <- Z.land_assoc, (Z.land_comm (Z.ones n)), Z.land_assoc, Z.land_ones by lia.
    apply Z.mod_pos_bound. lia. }
  apply Z.bits_inj'. intros i Hi.
  rewrite Z.land_spec, !testbit_join by done. case_decide; by rewrite Z.land_spec.
Qed.

Lemma of_digits_bound k l :
  0 <= k -> Forall (is_u k) l -> is_u (k * Z.of_nat (length l)) (of_digits k l).
Proof.
  intros Hk. induction 1 as [|d l Hd _ IH]; unfold is_u in *; simpl.
  - rewrite Z.mul_0_r. simpl. lia.
  - replace (k * Z.of_nat (S (length l))) with (k * Z.of_nat (length l) + k) by lia.
    rewrite Z.pow_add_r by lia. pose proof (pow2_pos k Hk). fold (of_digits k l). nia.
Qed.

Lemma of_digits_land k l m :
  0 <= k -> Forall (is_u k) l -> Forall (is_u k) m -> length l = length m ->
  Z.land (of_digits k l) (of_digits k m) = of_digits k (zip_with Z.land l m).
Proof.
  intros Hk Hl. revert m. induction Hl as [|d l Hd _ IH]; intros m Hm Hlen.
  - by destruct m.
  - destruct m as [|e m]; [done|]. inversion Hm; subst. simpl in *.
    rewrite land_join by done. f_equal. f_equal. apply IH; [done|lia].
Qed.

Lemma of_digits_tail k d l :
  0 <= k -> is_u k d -> Z.shiftr (of_digits k (d :: l)) k = of_digits k l.
Proof.
  intros Hk Hd. pose proof (pow2_pos k Hk). rewrite Z.shiftr_div_pow2 by done. simpl.
  rewrite Z.div_add, Z.div_small by (unfold is_u in Hd; lia). done.
Qed.

(** Every [n]-digit number has digits. *)
Lemma digits_exist k n x :
  0 <= k -> is_u (k * Z.of_nat n) x ->
  exists l, length l = n /\ Forall (is_u k) l /\ of_digits k l = x.
Proof.
  intros Hk. revert x. induction n as [|n IH]; intros x Hx; unfold is_u in Hx.
  - exists []. rewrite Z.mul_0_r in Hx. simpl in *. repeat split; [constructor|lia].
  - pose proof (pow2_pos k Hk).
    destruct (IH (x / 2 ^ k)) as (l & Hlen & Hl & Hx').
    { unfold is_u. replace (k * Z.of_nat (S n)) with (k * Z.of_nat n + k) in Hx by lia.
      rewrite Z.pow_add_r in Hx by lia.
      split; [apply Z.div_pos; lia|apply Z.div_lt_upper_bound; lia]. }
    exists (x mod 2 ^ k :: l). simpl. repeat split; [lia| |].
    + constructor; [apply Z.mod_pos_bound; lia|done].
    + fold (of_digits k l). rewrite Hx'. pose proof (Z.div_mod x (2 ^ k)). lia.
Qed.

Lemma bits_set_ext n x y :
  (forall i, 0 <= i < Z.of_nat n -> Z.testbit x i = Z.testbit y i) -> bits_set n x = bits_set n y.
Proof.
  induction n as [|n IH]; intros H; simpl; [done|].
  rewrite (H (Z.of_nat n)), IH; [done| |lia]. intros; apply H; lia.
Qed.

Lemma bits_set_join n m a b :
  is_u (Z.of_nat n) a ->
  bits_set (m + n) (a + b * 2 ^ Z.of_nat n) = bits_set n a + bits_set m b.
Proof.
  intros Ha. induction m as [|m IH]; simpl.
  - rewrite Z.add_0_r. apply bits_set_ext. intros i Hi.
    rewrite testbit_join by (done || lia). by rewrite decide_True by lia.
  - rewrite IH, testbit_join by (done || lia). rewrite decide_False by lia.
    replace (Z.of_nat (m + n) - Z.of_nat n) with (Z.of_nat m) by lia. lia.
Qed.

Lemma bits_set_digits (k : nat) l :
  Forall (is_u (Z.of_nat k)) l ->
  bits_set (length l * k) (of_digits (Z.of_nat k) l) = foldr (fun d acc => bits_set k d + acc) 0 l.
Proof.
  induction 1 as [|d l Hd _ IH]; [done|]. simpl. rewrite (Nat.add_comm k).
  rewrite bits_set_join by done. fold (of_digits (Z.of_nat k) l). lia.
Qed.

Lemma bits_set_bound n x : 0 <= bits_set n x <= Z.of_nat n.
Proof.
  induction n as [|n IH]; simpl; [lia|]. destruct (Z.testbit x (Z.of_nat n)); simpl; lia.
Qed.
