(* ===== verification/Floats.v ===== *)
(** * IEEE 754 numbers and the C operations on them

    A [float] or a [double] is a word of 32 or 64 bits ([is_u]); arithmetic
    decodes the word into the Standard Library's [spec_float] and encodes the
    result.  An operation that produces a NaN produces the one canonical
    pattern, since C leaves its payload open; copying or negating a word works
    on the bits.

    [scaled] reads a finite number as an integer multiple of the smallest
    positive one, which turns comparison and truncation into integer facts. *)
From Stdlib Require Import SpecFloat.
From S2P Require Import Prelude.

(** ** Formats *)

Record format := Format { fw : Z; prec : Z; emax : Z }.

Definition binary32 : format := Format 32 24 128.
Definition binary64 : format := Format 64 53 1024.

(** The numbers a format must satisfy; both formats do. *)
Record format_ok (F : format) : Prop := FormatOk {
  fmt_prec : 2 < prec F;
  fmt_emax : prec F < emax F;
  fmt_pow : exists k, 0 < k /\ 2 * emax F = 2 ^ k /\ fw F = prec F + k;
}.

Lemma binary32_ok : format_ok binary32.
Proof. split; [done|done|]. exists 8. done. Qed.

Lemma binary64_ok : format_ok binary64.
Proof. split; [done|done|]. exists 11. done. Qed.

Definition femin (F : format) : Z := emin (prec F) (emax F).

(** The number a word stands for, and the word of a number. *)
Definition decode (F : format) (b : Z) : spec_float :=
  let s := Z.testbit b (fw F - 1) in
  let mant := b mod 2 ^ (prec F - 1) in
  let ex := (b / 2 ^ (prec F - 1)) mod (2 * emax F) in
  if ex =? 0 then
    match mant with Zpos m => S754_finite s m (femin F) | _ => S754_zero s end
  else if ex =? 2 * emax F - 1 then
    if mant =? 0 then S754_infinity s else S754_nan
  else
    match mant + 2 ^ (prec F - 1) with
    | Zpos m => S754_finite s m (ex - 1 + femin F)
    | _ => S754_nan
    end.

Definition sign_bit (F : format) (s : bool) : Z := if s then 2 ^ (fw F - 1) else 0.

Definition encode (F : format) (f : spec_float) : Z :=
  match f with
  | S754_zero s => sign_bit F s
  | S754_infinity s => sign_bit F s + (2 * emax F - 1) * 2 ^ (prec F - 1)
  | S754_nan => (2 * emax F - 1) * 2 ^ (prec F - 1) + 2 ^ (prec F - 2)
  | S754_finite s m e =>
      if Zpos m <? 2 ^ (prec F - 1) then sign_bit F s + Zpos m
      else sign_bit F s + (e - femin F) * 2 ^ (prec F - 1) + Zpos m
  end.

(** ** Arithmetic and comparison on words *)

Definition to_word (F : format) (x : spec_float) : Z := ux (fw F) (encode F x).

Definition fbin (op : Z -> Z -> spec_float -> spec_float -> spec_float) (F : format) (a b : Z) : Z :=
  to_word F (op (prec F) (emax F) (decode F a) (decode F b)).

Definition fadd : format -> Z -> Z -> Z := fbin SFadd.
Definition fsub : format -> Z -> Z -> Z := fbin SFsub.
Definition fmul : format -> Z -> Z -> Z := fbin SFmul.
Definition fdiv : format -> Z -> Z -> Z := fbin SFdiv.

Definition fnan (F : format) (a : Z) : bool :=
  match decode F a with S754_nan => true | _ => false end.
Definition ffinite (F : format) (a : Z) : bool :=
  match decode F a with S754_nan | S754_infinity _ => false | _ => true end.
Definition feqb (F : format) (a b : Z) : bool := SFeqb (decode F a) (decode F b).
Definition fltb (F : format) (a b : Z) : bool := SFltb (decode F a) (decode F b).
Definition fleb (F : format) (a b : Z) : bool := SFleb (decode F a) (decode F b).

(** [copysign], [signbit] *)
Definition fsignbit (F : format) (a : Z) : bool := Z.testbit a (fw F - 1).
Definition fcopysign (F : format) (a b : Z) : Z :=
  if fsignbit F b then Z.lor a (2 ^ (fw F - 1)) else Z.land a (Z.ones (fw F - 1)).

(** [fmod]: the remainder of the truncated quotient, exact, with the sign of
    the dividend. *)
Definition SFfmod (F : format) (x y : spec_float) : spec_float :=
  match x, y with
  | S754_nan, _ | _, S754_nan | S754_infinity _, _ | _, S754_zero _ => S754_nan
  | S754_zero _, _ | _, S754_infinity _ => x
  | S754_finite sx mx ex, S754_finite _ my ey =>
      let ez := Z.min ex ey in
      let r := (Zpos mx * 2 ^ (ex - ez)) mod (Zpos my * 2 ^ (ey - ez)) in
      binary_normalize (prec F) (emax F) (cond_Zopp sx r) ez sx
  end.
Definition fmod (F : format) (a b : Z) : Z := to_word F (SFfmod F (decode F a) (decode F b)).

(** Conversions: a C integer to a word, between formats, and truncation. *)
Definition of_int (F : format) (n : Z) : Z :=
  to_word F (binary_normalize (prec F) (emax F) n 0 false).

Definition SFconv (F : format) (x : spec_float) : spec_float :=
  match x with
  | S754_finite s m e => binary_round (prec F) (emax F) s m e
  | _ => x
  end.
Definition fconv (F G : format) (a : Z) : Z := to_word G (SFconv G (decode F a)).

Definition SFtrunc (x : spec_float) : Z :=
  match x with
  | S754_finite s m e =>
      cond_Zopp s (if 0 <=? e then Zpos m * 2 ^ e else Zpos m / 2 ^ (- e))
  | _ => 0
  end.
Definition ftrunc (F : format) (a : Z) : Z := SFtrunc (decode F a).

(** ** Words and numbers *)

Definition valid (F : format) (x : spec_float) : bool := valid_binary (prec F) (emax F) x.


Section words.
Context (F : format) (HF : format_ok F).

Lemma format_facts : 2 < prec F /\ prec F < emax F /\ prec F < fw F /\
  2 ^ (fw F - 1) = (2 * emax F) * 2 ^ (prec F - 1) /\ 2 ^ (prec F - 1) = 2 * 2 ^ (prec F - 2) /\
  2 <= 2 ^ (prec F - 2) /\ 2 ^ prec F = 2 * 2 ^ (prec F - 1).
Proof.
  destruct HF as [Hp He (k & Hk & H2 & Hw)]. split_and!; [done|done|lia| | | |].
  - rewrite H2, <- Z.pow_add_r by lia. f_equal. lia.
  - rewrite <- Z.pow_succ_r by lia. f_equal. lia.
  - change 2 with (2 ^ 1) at 1. apply Z.pow_le_mono_r; lia.
  - rewrite <- Z.pow_succ_r by lia. f_equal. lia.
Qed.

Lemma digits2_bounds m : 2 ^ (Zpos (digits2_pos m) - 1) <= Zpos m < 2 ^ Zpos (digits2_pos m).
Proof.
  clear. induction m as [m IH|m IH|]; [| |done]; cbn [digits2_pos];
    rewrite Pos2Z.inj_succ, Z.pow_succ_r, Z.sub_succ_l by lia;
    rewrite Z.pow_succ_r by lia; lia.
Qed.

(** [digits2_pos] is determined by the powers of two around it. *)
Lemma digits2_unique m d : 2 ^ (d - 1) <= Zpos m < 2 ^ d -> Zpos (digits2_pos m) = d.
Proof.
  intros [H1 H2]. destruct (digits2_bounds m) as [H3 H4].
  assert (0 <= d) by (destruct (decide (0 <= d)); [done|rewrite Z.pow_neg_r in H2; lia]).
  assert (Zpos (digits2_pos m) - 1 < d) by (apply (Z.pow_lt_mono_r_iff 2); lia).
  assert (d - 1 < Zpos (digits2_pos m)) by (apply (Z.pow_lt_mono_r_iff 2); lia). lia.
Qed.

(** What [valid_binary] says of a finite number. *)
Lemma bounded_facts m e : bounded (prec F) (emax F) m e = true ->
  femin F <= e <= emax F - prec F /\ Zpos m < 2 ^ prec F /\
  (2 ^ (prec F - 1) <= Zpos m \/ e = femin F).
Proof.
  destruct format_facts as (Hp & He & _).
  unfold femin, bounded, canonical_mantissa, fexp. intros [Hc Hb]%andb_true_iff.
  apply Z.eqb_eq in Hc. apply Z.leb_le in Hb.
  pose proof (digits2_bounds m) as Hd.
  assert (2 ^ Zpos (digits2_pos m) <= 2 ^ prec F) by (apply Z.pow_le_mono_r; lia).
  split_and!; [lia|lia|lia|].
  destruct (decide (e = emin (prec F) (emax F))); [by right|left].
  assert (Zpos (digits2_pos m) = prec F) as <- by (unfold femin in *; lia). lia.
Qed.

Lemma bounded_intro m e : femin F <= e <= emax F - prec F -> Zpos m < 2 ^ prec F ->
  2 ^ (prec F - 1) <= Zpos m \/ e = femin F -> bounded (prec F) (emax F) m e = true.
Proof.
  intros He Hm Hn. unfold bounded, canonical_mantissa, fexp.
  apply andb_true_iff. rewrite Z.eqb_eq, Z.leb_le. split; [|lia].
  unfold femin in *. destruct (decide (2 ^ (prec F - 1) <= Zpos m)).
  - rewrite (digits2_unique m (prec F)) by lia. lia.
  - destruct Hn as [?| ->]; [lia|]. destruct (digits2_bounds m) as [H3 H4].
    destruct format_facts as (Hp & _).
    assert (Zpos (digits2_pos m) - 1 < prec F) by (apply (Z.pow_lt_mono_r_iff 2); lia). lia.
Qed.

(** A word is its sign, its exponent field and its mantissa field. *)
Definition word (s : bool) (ex mant : Z) : Z := sign_bit F s + ex * 2 ^ (prec F - 1) + mant.

Definition of_fields (s : bool) (ex mant : Z) : spec_float :=
  if ex =? 0 then
    match mant with Zpos m => S754_finite s m (femin F) | _ => S754_zero s end
  else if ex =? 2 * emax F - 1 then
    if mant =? 0 then S754_infinity s else S754_nan
  else
    match mant + 2 ^ (prec F - 1) with
    | Zpos m => S754_finite s m (ex - 1 + femin F)
    | _ => S754_nan
    end.

Lemma fields_exist b : is_u (fw F) b -> exists s ex mant,
  0 <= ex < 2 * emax F /\ is_u (prec F - 1) mant /\ b = word s ex mant.
Proof.
  destruct format_facts as (Hp & He & Hw & HW & HP & HP2 & _).
  intros Hb. unfold is_u in *. rewrite (pow2_half (fw F)) in Hb by lia.
  set (P := 2 ^ (prec F - 1)) in *. set (W := 2 ^ (fw F - 1)) in *.
  set (r := b mod W). assert (0 <= r < W) by (apply Z.mod_pos_bound; lia).
  exists (W <=? b), (r / P), (r mod P). pose proof (Z.mod_pos_bound r P).
  pose proof (Z.div_mod r P ltac:(lia)). split_and!; [| |lia|lia|].
  - apply Z.div_pos; lia.
  - apply Z.div_lt_upper_bound; lia.
  - unfold word, sign_bit. fold P W. pose proof (Z.div_mod b W ltac:(lia)).
    destruct (Z.leb_spec W b).
    + rewrite <- (Z.div_unique_pos b W 1 (b - W)) in * by lia. fold r in H2. lia.
    + rewrite (Z.div_small b W) in * by lia. fold r in H2. lia.
Qed.

Section fields.
Context (s : bool) (ex mant : Z) (Hex : 0 <= ex < 2 * emax F) (Hm : is_u (prec F - 1) mant).

Lemma word_range : is_u (fw F) (word s ex mant).
Proof.
  destruct format_facts as (Hp & He & Hw & HW & HP & HP2 & _).
  unfold is_u, word, sign_bit in *. rewrite (pow2_half (fw F)) by lia.
  assert (ex * 2 ^ (prec F - 1) <= (2 * emax F - 1) * 2 ^ (prec F - 1))
    by (apply Z.mul_le_mono_nonneg_r; lia).
  pose proof (Z.mul_nonneg_nonneg ex (2 ^ (prec F - 1)) ltac:(lia) ltac:(lia)).
  destruct s; lia.
Qed.

Lemma word_sign : Z.testbit (word s ex mant) (fw F - 1) = s.
Proof.
  destruct format_facts as (Hp & He & Hw & HW & HP & HP2 & _).
  pose proof word_range as Hr.
  assert (Hlow : is_u (fw F - 1) (ex * 2 ^ (prec F - 1) + mant)).
  { unfold is_u in *. rewrite HW.
    assert (ex * 2 ^ (prec F - 1) <= (2 * emax F - 1) * 2 ^ (prec F - 1))
      by (apply Z.mul_le_mono_nonneg_r; lia).
    pose proof (Z.mul_nonneg_nonneg ex (2 ^ (prec F - 1)) ltac:(lia) ltac:(lia)). lia. }
  replace (word s ex mant) with ((ex * 2 ^ (prec F - 1) + mant) + Z.b2z s * 2 ^ (fw F - 1))
    by (unfold word, sign_bit; destruct s; simpl Z.b2z; lia).
  rewrite testbit_join by (done || lia). rewrite decide_False, Z.sub_diag by lia. by destruct s.
Qed.

Lemma decode_word : decode F (word s ex mant) = of_fields s ex mant.
Proof.
  destruct format_facts as (Hp & He & Hw & HW & HP & HP2 & _).
  unfold decode. rewrite word_sign.
  assert (Hw' : word s ex mant = mant + (ex + Z.b2z s * (2 * emax F)) * 2 ^ (prec F - 1))
    by (unfold word, sign_bit; destruct s; simpl Z.b2z; lia).
  unfold is_u in Hm. rewrite Hw'. cbv zeta.
  rewrite Z.div_add, (Z.div_small mant), Z.add_0_l, !Z.mod_add by lia.
  by rewrite (Z.mod_small ex), (Z.mod_small mant) by lia.
Qed.

Lemma of_fields_valid : valid F (of_fields s ex mant) = true.
Proof.
  destruct format_facts as (Hp & He & Hw & HW & HP & HP2 & HP').
  unfold of_fields. destruct (Z.eqb_spec ex 0); [|destruct (Z.eqb_spec ex (2 * emax F - 1))].
  - destruct mant as [|m|m]; try done. apply bounded_intro; [unfold femin, emin; lia| |by right].
    unfold is_u in Hm. lia.
  - by case_match.
  - destruct (mant + _) as [|m|m] eqn:E; try done. unfold is_u in Hm.
    apply bounded_intro; [unfold femin, emin in *; lia|lia|left; lia].
Qed.

Lemma encode_fields :
  match of_fields s ex mant with S754_nan => True | x => encode F x = word s ex mant end.
Proof.
  destruct format_facts as (Hp & He & Hw & HW & HP & HP2 & HP'). unfold is_u in Hm.
  unfold of_fields, word. destruct (Z.eqb_spec ex 0) as [->|]; [|destruct (Z.eqb_spec ex (2 * emax F - 1)) as [->|]].
  - destruct mant as [|m|m]; unfold encode; [lia| |lia].
    destruct (Z.ltb_spec (Zpos m) (2 ^ (prec F - 1))); lia.
  - destruct (Z.eqb_spec mant 0); [|done]. unfold encode. lia.
  - destruct (mant + _) as [|m|m] eqn:E; try done. unfold encode.
    destruct (Z.ltb_spec (Zpos m) (2 ^ (prec F - 1))); [lia|].
    replace (ex - 1 + femin F - femin F) with (ex - 1) by lia. lia.
Qed.
End fields.

Lemma decode_valid b : is_u (fw F) b -> valid F (decode F b) = true.
Proof.
  intros (s & ex & mant & He & Hm & ->)%fields_exist. rewrite decode_word by done.
  by apply of_fields_valid.
Qed.

Lemma encode_decode b : is_u (fw F) b -> fnan F b = false -> encode F (decode F b) = b.
Proof.
  intros (s & ex & mant & He & Hm & ->)%fields_exist. unfold fnan.
  pose proof (encode_fields s ex mant He Hm). rewrite decode_word by done.
  by destruct (of_fields s ex mant).
Qed.

(** Every number of the format is some word's. *)
Lemma fields_of x : valid F x = true -> exists s ex mant,
  0 <= ex < 2 * emax F /\ is_u (prec F - 1) mant /\ encode F x = word s ex mant /\
  of_fields s ex mant = x.
Proof.
  destruct format_facts as (Hp & He & Hw & HW & HP & HP2 & HP').
  unfold word, is_u. destruct x as [s|s| |s m e]; intros Hv; cbn [valid valid_binary] in Hv.
  - exists s, 0, 0. split_and!; simpl; lia || done.
  - exists s, (2 * emax F - 1), 0. unfold of_fields. rewrite (proj2 (Z.eqb_neq _ 0)), Z.eqb_refl by lia.
    split_and!; simpl; lia || done.
  - exists false, (2 * emax F - 1), (2 ^ (prec F - 2)). unfold of_fields.
    rewrite (proj2 (Z.eqb_neq _ 0)), Z.eqb_refl, (proj2 (Z.eqb_neq _ 0)) by lia.
    split_and!; simpl; lia || done.
  - destruct (bounded_facts m e Hv) as (Hr & Hm & Hn). cbn [encode].
    destruct (Z.ltb_spec (Zpos m) (2 ^ (prec F - 1))).
    + exists s, 0, (Zpos m). destruct Hn as [Hn | ->]; [lia|]. split_and!; lia || done.
    + exists s, (e - femin F + 1), (Zpos m - 2 ^ (prec F - 1)).
      assert (e - femin F < 2 * emax F - 2) by (unfold femin, emin in *; lia).
      unfold of_fields. rewrite !(proj2 (Z.eqb_neq _ _)) by lia.
      rewrite Z.sub_add. split_and!; try lia. f_equal. lia.
Qed.

Lemma encode_range x : valid F x = true -> is_u (fw F) (encode F x).
Proof. intros (s & ex & mant & He & Hm & -> & _)%fields_of. by apply word_range. Qed.

Lemma decode_encode x : valid F x = true -> decode F (encode F x) = x.
Proof. intros (s & ex & mant & He & Hm & -> & <-)%fields_of. by apply decode_word. Qed.

Lemma to_word_range x : is_u (fw F) (to_word F x).
Proof. apply ux_range. destruct format_facts as (_ & _ & ? & _). destruct HF. lia. Qed.

Lemma decode_to_word x : valid F x = true -> decode F (to_word F x) = x.
Proof. intros Hv. unfold to_word. by rewrite ux_id, decode_encode by (done || by apply encode_range). Qed.
End words.

(** ** Finite numbers as integers *)

Definition finite (x : spec_float) : bool :=
  match x with S754_zero _ | S754_finite _ _ _ => true | _ => false end.

(** The multiple of the smallest positive number of the format. *)
Definition scaled (F : format) (x : spec_float) : Z :=
  match x with
  | S754_finite s m e => cond_Zopp s (Zpos m * 2 ^ (e - femin F))
  | _ => 0
  end.

(** What the number 1 is a multiple of. *)
Definition funit (F : format) : Z := 2 ^ (- femin F).

Section numbers.
Context (F : format) (HF : format_ok F).

Lemma scaled_lt m1 e1 m2 e2 :
  bounded (prec F) (emax F) m1 e1 = true -> bounded (prec F) (emax F) m2 e2 = true ->
  e1 < e2 -> Zpos m1 * 2 ^ (e1 - femin F) < Zpos m2 * 2 ^ (e2 - femin F).
Proof.
  intros H1 H2 He. destruct (format_facts F HF) as (Hp & He' & Hw & HW & HP & HP2 & HP').
  destruct (bounded_facts F HF m1 e1 H1) as (Hr1 & Hm1 & _).
  destruct (bounded_facts F HF m2 e2 H2) as (Hr2 & Hm2 & [Hn|?]); [|lia].
  apply Z.lt_le_trans with (2 ^ prec F * 2 ^ (e1 - femin F)).
  { apply Z.mul_lt_mono_pos_r; [apply pow2_pos; lia|done]. }
  replace (e2 - femin F) with ((e2 - e1 - 1) + (e1 - femin F) + 1) by lia.
  rewrite HP', !Z.pow_add_r by lia. change (2 ^ 1) with 2.
  pose proof (pow2_pos (e1 - femin F) ltac:(lia)) as Hx. pose proof (pow2_pos (e2 - e1 - 1) ltac:(lia)) as Hy.
  set (x := 2 ^ (e1 - femin F)) in *. set (y := 2 ^ (e2 - e1 - 1)) in *.
  replace (Zpos m2 * (y * x * 2)) with ((Zpos m2 * y) * (2 * x)) by ring.
  replace (2 * 2 ^ (prec F - 1) * x) with (2 ^ (prec F - 1) * (2 * x)) by ring.
  apply Z.mul_le_mono_nonneg_r; [lia|].
  apply Z.le_trans with (Zpos m2 * 1); [lia|]. apply Z.mul_le_mono_nonneg_l; lia.
Qed.

Lemma scaled_compare m1 e1 m2 e2 :
  bounded (prec F) (emax F) m1 e1 = true -> bounded (prec F) (emax F) m2 e2 = true ->
  match Z.compare e1 e2 with Lt => Lt | Gt => Gt | Eq => Pos.compare_cont Eq m1 m2 end =
  (Zpos m1 * 2 ^ (e1 - femin F) ?= Zpos m2 * 2 ^ (e2 - femin F)).
Proof.
  intros H1 H2. symmetry. destruct (Z.compare_spec e1 e2) as [->|He|He].
  - destruct (bounded_facts F HF m2 e2 H2) as (Hr2 & _).
    rewrite <- Zmult_compare_compat_r by (apply Z.lt_gt, pow2_pos; lia). done.
  - apply Z.compare_lt_iff. by apply scaled_lt.
  - apply Z.compare_gt_iff. by apply scaled_lt.
Qed.

Lemma scaled_pos m e : bounded (prec F) (emax F) m e = true -> 0 < Zpos m * 2 ^ (e - femin F).
Proof.
  intros H. destruct (bounded_facts F HF m e H) as (Hr & _).
  apply Z.mul_pos_pos; [lia|apply pow2_pos; lia].
Qed.

(** Comparison of finite numbers is comparison of integers. *)
Lemma SFcompare_scaled x y : valid F x = true -> valid F y = true ->
  finite x = true -> finite y = true -> SFcompare x y = Some (scaled F x ?= scaled F y).
Proof.
  intros Hx Hy Fx Fy. destruct x as [sx| | |sx mx ex], y as [sy| | |sy my ey]; try done;
    cbn [valid valid_binary] in Hx, Hy; cbn [SFcompare scaled]; f_equal.
  - pose proof (scaled_pos my ey Hy). destruct sy; simpl cond_Zopp; symmetry;
      [apply Z.compare_gt_iff|apply Z.compare_lt_iff]; lia.
  - pose proof (scaled_pos mx ex Hx). destruct sx; simpl cond_Zopp; symmetry;
      [apply Z.compare_lt_iff|apply Z.compare_gt_iff]; lia.
  - pose proof (scaled_pos my ey Hy). pose proof (scaled_pos mx ex Hx).
    pose proof (scaled_compare mx ex my ey Hx Hy) as Hc.
    destruct sx, sy; simpl cond_Zopp.
    + rewrite Z.compare_opp, (Z.compare_antisym (Zpos mx * 2 ^ (ex - femin F))), <- Hc.
      by destruct (ex ?= ey).
    + symmetry. apply Z.compare_lt_iff. lia.
    + symmetry. apply Z.compare_gt_iff. lia.
    + exact Hc.
Qed.

Lemma SFltb_scaled x y : valid F x = true -> valid F y = true ->
  finite x = true -> finite y = true -> SFltb x y = (scaled F x <? scaled F y).
Proof.
  intros. unfold SFltb, Z.ltb. by rewrite SFcompare_scaled.
Qed.

(** Truncation is division by the scale of 1. *)
Lemma SFtrunc_scaled x : valid F x = true -> SFtrunc x = Z.quot (scaled F x) (funit F).
Proof.
  destruct (format_facts F HF) as (Hp & He & _).
  assert (Hu : femin F < 0) by (unfold femin, emin; lia).
  destruct x as [| | |s m e]; intros Hv; try (symmetry; apply Z.quot_0_l, Z.pow_nonzero; lia).
  cbn [valid valid_binary] in Hv. destruct (bounded_facts F HF m e Hv) as (Hr & _).
  pose proof (scaled_pos m e Hv). pose proof (pow2_pos (- femin F) ltac:(lia)).
  assert (Hq : (if 0 <=? e then Zpos m * 2 ^ e else Zpos m / 2 ^ (- e)) =
               (Zpos m * 2 ^ (e - femin F)) / funit F).
  { unfold funit. destruct (Z.leb_spec 0 e).
    - replace (e - femin F) with (e + - femin F) by lia.
      rewrite Z.pow_add_r, Z.mul_assoc, Z.div_mul by lia. done.
    - replace (- femin F) with (- e + (e - femin F)) by lia.
      rewrite Z.pow_add_r by lia. symmetry.
      pose proof (pow2_pos (- e) ltac:(lia)). pose proof (pow2_pos (e - femin F) ltac:(lia)).
      apply Z.div_mul_cancel_r; lia. }
  cbn [SFtrunc scaled]. rewrite Hq, <- Z.quot_div_nonneg by (unfold funit; lia).
  destruct s; simpl cond_Zopp; [|done]. by rewrite Z.quot_opp_l by (unfold funit; lia).
Qed.

(** ** Rounding a number that the format has *)

Lemma iter_xO m d : Zpos (Pos.iter xO m d) = Zpos m * 2 ^ Zpos d.
Proof.
  induction d as [|d IH] using Pos.peano_ind; [simpl; lia|].
  rewrite Pos.iter_succ, Pos2Z.inj_xO, IH, Pos2Z.inj_succ, Z.pow_succ_r by lia. lia.
Qed.

Lemma digits2_shift m m' d : 0 <= d -> Zpos m' = Zpos m * 2 ^ d ->
  Zpos (digits2_pos m') = Zpos (digits2_pos m) + d.
Proof.
  intros Hd Hm. apply digits2_unique. rewrite Hm.
  replace (Zpos (digits2_pos m) + d - 1) with ((Zpos (digits2_pos m) - 1) + d) by lia.
  rewrite !Z.pow_add_r by lia. pose proof (digits2_bounds m). pose proof (pow2_pos d Hd).
  split; [apply Z.mul_le_mono_nonneg_r|apply Z.mul_lt_mono_pos_r]; lia.
Qed.

(** With no digit to drop, aligning and rounding change nothing. *)
Lemma binary_round_exact s m e :
  femin F <= e <= emax F - prec F -> Zpos m < 2 ^ prec F ->
  exists m' e', binary_round (prec F) (emax F) s m e = S754_finite s m' e' /\
    femin F <= e' <= e /\ Zpos m' = Zpos m * 2 ^ (e - e') /\
    bounded (prec F) (emax F) m' e' = true.
Proof.
  intros He Hm. destruct (format_facts F HF) as (Hp & He' & _).
  destruct (digits2_bounds m) as [H1 H2].
  assert (Zpos (digits2_pos m) - 1 < prec F) by (apply (Z.pow_lt_mono_r_iff 2); lia).
  unfold binary_round. set (e' := fexp (prec F) (emax F) (Zpos (digits2_pos m) + e)).
  assert (He'e : femin F <= e' <= e) by (unfold e', fexp, femin in *; lia).
  assert (Hal : exists m', shl_align m e e' = (m', e') /\ Zpos m' = Zpos m * 2 ^ (e - e')).
  { unfold shl_align. destruct (e' - e) as [|d|d] eqn:E; [|lia|].
    - exists m. replace e' with e by lia. rewrite Z.sub_diag. split; [done|lia].
    - exists (Pos.iter xO m d). rewrite iter_xO. replace (e - e') with (Zpos d) by lia. done. }
  destruct Hal as (m' & -> & Hm'). exists m', e'.
  assert (Hd : Zpos (digits2_pos m') + e' = Zpos (digits2_pos m) + e)
    by (rewrite (digits2_shift m m' (e - e')) by (done || lia); lia).
  assert (Hfe : fexp (prec F) (emax F) (Zpos (digits2_pos m') + e') = e') by (by rewrite Hd).
  assert (Hs : shr_fexp (prec F) (emax F) (Zpos m') e' loc_Exact =
               (shr_record_of_loc (Zpos m') loc_Exact, e')).
  { unfold shr_fexp. cbn [Zdigits2]. rewrite Hfe, Z.sub_diag. done. }
  split_and!; [|lia|lia|done|].
  - unfold binary_round_aux. rewrite Hs. cbn [shr_record_of_loc loc_of_shr_record shr_m round_nearest_even].
    rewrite Hs. cbn [shr_record_of_loc shr_m]. by rewrite (proj2 (Z.leb_le e' _)) by lia.
  - unfold bounded, canonical_mantissa. rewrite Hfe, Z.eqb_refl. apply Z.leb_le. lia.
Qed.

(** Integers below [2^prec] in magnitude are numbers of the format. *)
Lemma of_int_exact n : Z.abs n < 2 ^ prec F ->
  let x := binary_normalize (prec F) (emax F) n 0 false in
  valid F x = true /\ finite x = true /\ scaled F x = n * funit F.
Proof.
  destruct (format_facts F HF) as (Hp & He' & _).
  assert (femin F < 0) by (unfold femin, emin; lia).
  intros Hn. destruct n as [|m|m]; [done| |]; unfold binary_normalize, funit.
  all: match goal with |- context [binary_round _ _ ?s ?k 0] =>
    destruct (binary_round_exact s k 0) as (m1 & e1 & -> & He1 & Hm1 & Hb1); try lia end.
  all: cbn [valid valid_binary finite scaled cond_Zopp]; split_and!; try done; rewrite Hm1;
    replace (- femin F) with ((0 - e1) + (e1 - femin F)) by lia;
    rewrite Z.pow_add_r by lia; lia.
Qed.
End numbers.

(** A narrower number is a number of the wider format. *)
Lemma SFconv_exact F G x : format_ok F -> format_ok G ->
  prec F <= prec G -> femin G <= femin F -> emax F - prec F <= emax G - prec G ->
  valid F x = true ->
  valid G (SFconv G x) = true /\ finite (SFconv G x) = finite x /\
  (SFconv G x = S754_nan <-> x = S754_nan) /\
  scaled G (SFconv G x) = scaled F x * 2 ^ (femin F - femin G).
Proof.
  intros HF HG Hp Hemin Hemax Hx. destruct x as [s|s| |s m e]; try by repeat split.
  cbn [valid valid_binary] in Hx. destruct (bounded_facts F HF m e Hx) as (Hr & Hm & _).
  destruct (binary_round_exact G HG s m e) as (m' & e' & Heq & He & Hm' & Hb); [lia| |].
  { apply Z.lt_le_trans with (2 ^ prec F); [done|]. apply Z.pow_le_mono_r; lia. }
  cbn [SFconv]. rewrite Heq. cbn [valid valid_binary finite scaled].
  split; [done|]. split; [done|]. split; [done|].
  assert (Zpos m' * 2 ^ (e' - femin G) = Zpos m * 2 ^ (e - femin F) * 2 ^ (femin F - femin G)) as ->.
  { rewrite Hm', <- !Z.mul_assoc, <- !Z.pow_add_r by lia. do 2 f_equal. lia. }
  destruct s; simpl cond_Zopp; lia.
Qed.
