(* ===== verification/JavaArith.v ===== *)
(** * Java arithmetic, the specification

    What the Java virtual machine specification asks of the integer
    instructions at width [w] (32 for [int], 64 for [long]), of the
    floating-point comparisons and of the conversions.  The optimiser's folding
    and lowering and the interpreter's handlers are all proved against these
    definitions.  A value of an integer type is a signed [Z] in [is_s w]. *)
From Stdlib Require Import SpecFloat.
From S2P Require Import Prelude Floats.

(** ** Integers *)

Inductive binop := JAdd | JSub | JMul | JDiv | JRem | JAnd | JOr | JXor | JShl | JShr | JUshr.

Definition java_quot (w a b : Z) : Z := sx w (Z.quot a b).

(** [None] is the [ArithmeticException] of a zero divisor. *)
Definition java_binop (w : Z) (op : binop) (a b : Z) : option Z :=
  match op with
  | JAdd => Some (sx w (a + b))
  | JSub => Some (sx w (a - b))
  | JMul => Some (sx w (a * b))
  | JDiv => if b =? 0 then None else Some (java_quot w a b)
  | JRem => if b =? 0 then None else Some (Z.rem a b)
  | JAnd => Some (Z.land a b)
  | JOr => Some (Z.lor a b)
  | JXor => Some (Z.lxor a b)
  | JShl => Some (sx w (Z.shiftl a (Z.land b (w - 1))))
  | JShr => Some (Z.shiftr a (Z.land b (w - 1)))
  | JUshr => Some (sx w (Z.shiftr (ux w a) (Z.land b (w - 1))))
  end.

Definition java_neg (w a : Z) : Z := sx w (- a).

Definition java_cmp (a b : Z) : Z := if a <? b then -1 else if a =? b then 0 else 1.

Definition int_min (w : Z) : Z := - 2 ^ (w - 1).
Definition int_max (w : Z) : Z := 2 ^ (w - 1) - 1.

(** ** Floating point *)

(** [fcmpl], [fcmpg]: [nan] is the answer for unordered operands. *)
Definition java_fcmp (F : format) (nan a b : Z) : Z :=
  match SFcompare (decode F a) (decode F b) with
  | None => nan
  | Some Lt => -1
  | Some Eq => 0
  | Some Gt => 1
  end.

Definition clamp (lo hi n : Z) : Z := Z.max lo (Z.min hi n).

(** Narrowing to an integer type: NaN is 0, everything else is rounded towards
    zero and then brought into the range of the type. *)
Definition java_f2i (w : Z) (F : format) (a : Z) : Z :=
  match decode F a with
  | S754_nan => 0
  | S754_infinity s => if s then int_min w else int_max w
  | x => clamp (int_min w) (int_max w) (SFtrunc x)
  end.

(** ** Facts *)

Lemma quot_abs_le a b : b <> 0 -> Z.abs (Z.quot a b) <= Z.abs a.
Proof.
  intros Hb. rewrite <- Z.quot_abs by done. apply Z.quot_le_upper_bound; [lia|].
  rewrite <- (Z.mul_1_l (Z.abs a)) at 1. apply Z.mul_le_mono_nonneg_r; lia.
Qed.

(** The only quotient that leaves the type. *)
Lemma quot_overflow w a b : 0 < w -> is_s w a -> b <> 0 ->
  Z.quot a b = 2 ^ (w - 1) -> a = int_min w /\ b = -1.
Proof.
  intros Hw Ha Hb Hq. pose proof (pow2_pos (w - 1) ltac:(lia)). unfold is_s, int_min in *.
  pose proof (quot_abs_le a b Hb). assert (a = - 2 ^ (w - 1)) as -> by lia. split; [done|].
  destruct (decide (Z.abs b = 1)) as [Hb1|Hb1].
  - destruct (decide (b = 1)) as [->|]; [|lia]. rewrite Z.quot_1_r in Hq. lia.
  - assert (Hlt : Z.quot (Z.abs (- 2 ^ (w - 1))) (Z.abs b) < Z.abs (- 2 ^ (w - 1)))
      by (apply Z.quot_lt; lia).
    rewrite Z.quot_abs in Hlt by done. lia.
Qed.

Lemma quot_range w a b : 0 < w -> is_s w a -> b <> 0 -> ~ (a = int_min w /\ b = -1) ->
  is_s w (Z.quot a b).
Proof.
  intros Hw Ha Hb Hmin. pose proof (quot_abs_le a b Hb). unfold is_s in *.
  destruct (decide (Z.quot a b = 2 ^ (w - 1))) as [Hq|]; [|lia].
  destruct Hmin. by apply quot_overflow.
Qed.

Lemma quot_min w : 0 < w -> java_quot w (int_min w) (-1) = int_min w.
Proof.
  intros Hw. unfold java_quot, int_min.
  change (-1) with (- (1)). rewrite Z.quot_opp_r, Z.quot_opp_l, Z.quot_1_r, Z.opp_involutive by lia.
  transitivity (sx w (- 2 ^ (w - 1))).
  - apply eqm_sx_iff. exists 1. rewrite (pow2_half w) by lia. lia.
  - apply sx_id; [done|]. pose proof (pow2_pos (w - 1)). unfold is_s. lia.
Qed.

Lemma rem_range w a b : 0 < w -> is_s w a -> is_s w b -> b <> 0 -> is_s w (Z.rem a b).
Proof.
  intros Hw Ha Hb Hb0. unfold is_s in *. pose proof (Z.rem_bound_abs a b Hb0).
  destruct (decide (Z.rem a b = 0)) as [->|E]; [lia|].
  pose proof (Z.rem_sign_nz a b Hb0 E). lia.
Qed.

(** Every result is a value of the type. *)
Lemma java_binop_range w op a b r : 1 < w -> is_s w a -> is_s w b ->
  java_binop w op a b = Some r -> is_s w r.
Proof.
  intros Hw Ha Hb. pose proof (Z.land_nonneg b (w - 1)).
  destruct op; simpl; try case_match; intros Hr; simplify_eq;
    try (apply sx_range; lia); try (apply rem_range; lia || done);
    [apply is_s_land|apply is_s_lor|apply is_s_lxor|apply is_s_shiftr]; try lia; done.
Qed.

(** ** Saturating conversion *)

Lemma clamp_id lo hi n : lo <= n <= hi -> clamp lo hi n = n.
Proof. unfold clamp. lia. Qed.

(** A comparison with an integer the format has decides a bound on the
    truncation. *)
Lemma quot_lower u x n : 0 < u -> n * u < x -> n <= Z.quot x u.
Proof.
  intros Hu Hx. destruct (decide (0 <= x)).
  - rewrite Z.quot_div_nonneg by lia. apply Z.div_le_lower_bound; lia.
  - replace x with (- (- x)) by lia. rewrite Z.quot_opp_l by lia.
    rewrite Z.quot_div_nonneg by lia. pose proof (Z.div_le_upper_bound (- x) u (- n)). lia.
Qed.

Lemma quot_upper u x n : 0 < u -> x < n * u -> Z.quot x u <= n.
Proof.
  intros Hu Hx. pose proof (quot_lower u (- x) (- n) Hu) as H.
  rewrite Z.quot_opp_l in H by lia. lia.
Qed.

Lemma quot_le u x n : 0 < u -> 0 < n -> x < n * u -> Z.quot x u <= n - 1.
Proof.
  intros Hu Hn Hx. destruct (decide (0 <= x)).
  - rewrite Z.quot_div_nonneg by lia. pose proof (Z.div_lt_upper_bound x u n). lia.
  - pose proof (quot_upper u x 0 Hu). lia.
Qed.

Lemma quot_ge u x n : 0 < u -> n < 0 -> n * u < x -> n + 1 <= Z.quot x u.
Proof.
  intros Hu Hn Hx. pose proof (quot_le u (- x) (- n) Hu) as H.
  rewrite Z.quot_opp_l in H by lia. lia.
Qed.
