(* ===== verification/OptArith.v ===== *)
(** * Bit tricks of the optimiser: [optimizer/optarithmetic.h]

    The integer templates of the header, at a width [w] where the source is a
    template ([isPowerOf2], [getMagic], [ntz], [whichPowerOf2],
    [shifttomakeOdd]) and at 32 and 64 bits where it is a
    specialisation ([popcount], [nlz], [leftmost1]).  An [inttype] is a signed
    [Z] in [is_s w], a [uinttype] an unsigned one in [is_u w]; every C
    operation that can leave the type is followed by [sx w] or [ux w]. *)
From S2P Require Import Prelude.

(** ** Operations *)

(** [popcount<I_32, 32>] *)
Definition popcount32 (x : Z) : Z :=
  let x := sx 32 (x - Z.land (Z.shiftr x 1) 0x55555555) in
  let x := sx 32 (Z.land x 0x33333333 + Z.land (Z.shiftr x 2) 0x33333333) in
  let x := Z.land (sx 32 (x + Z.shiftr x 4)) 0x0f0f0f0f in
  let x := sx 32 (x + Z.shiftr x 8) in
  let x := sx 32 (x + Z.shiftr x 16) in
  Z.land x 0x0000003F.

(** [popcount<int64, 64>] *)
Definition popcount64 (x : Z) : Z :=
  let tmp5 := 0x55555555 in
  let tmp5 := Z.lor tmp5 (sx 64 (Z.shiftl tmp5 32)) in
  let x := sx 64 (x - Z.land (Z.shiftr x 1) tmp5) in
  let tmp3 := 0x33333333 in
  let tmp3 := Z.lor tmp3 (sx 64 (Z.shiftl tmp3 32)) in
  let x := sx 64 (Z.land x tmp3 + Z.land (Z.shiftr x 2) tmp3) in
  let tmp0f := 0x0f0f0f0f in
  let tmp0f := Z.lor tmp0f (sx 64 (Z.shiftl tmp0f 32)) in
  let x := Z.land (sx 64 (x + Z.shiftr x 4)) tmp0f in
  let x := sx 64 (x + Z.shiftr x 8) in
  let x := sx 64 (x + Z.shiftr x 16) in
  let x := sx 64 (x + Z.shiftr x 32) in
  sx 32 (Z.land x 0x0000007F).

(** The template [popcount<inttype, width>]: it has the two specialisations. *)
Definition popcount (w x : Z) : Z :=
  if decide (w = 32) then popcount32 x else popcount64 x.

Definition isPowerOf2 (w d : Z) : bool :=
  let d := if d <? 0 then sx w (- d) else d in
  (* turn trailing 0s into 1s, others become 0 *)
  let justrightzeros := Z.land (Z.lnot d) (sx w (d - 1)) in
  let bitandleftbits := Z.lnot justrightzeros in
  (* rightmost 1-bit and trailing 0s *)
  let bitandrightzeros := Z.lxor d (sx w (d - 1)) in
  let justrightbit := Z.land bitandrightzeros bitandleftbits in
  d =? justrightbit.

(** The variables that the loop of [getMagic] updates. *)
Record magic_state := MagicState { ms_p : Z; ms_q1 : Z; ms_r1 : Z; ms_q2 : Z; ms_r2 : Z }.

(** One execution of the body of the [do] loop: the new state and [delta]. *)
Definition getMagic_body (w ad anc : Z) (s : magic_state) : magic_state * Z :=
  let p' := ux w (ms_p s + 1) in
  let q1' := ux w (Z.shiftl (ms_q1 s) 1) in
  let r1' := ux w (Z.shiftl (ms_r1 s) 1) in
  let q2' := ux w (Z.shiftl (ms_q2 s) 1) in
  let r2' := ux w (Z.shiftl (ms_r2 s) 1) in
  let (q1', r1') :=
    if anc <=? r1' then (ux w (q1' + 1), ux w (r1' - anc)) else (q1', r1') in
  let (q2', r2') :=
    if ad <=? r2' then (ux w (q2' + 1), ux w (r2' - ad)) else (q2', r2') in
  let delta := ux w (ad - r2') in
  (MagicState p' q1' r1' q2' r2', delta).

(** [do body while ((q1 < delta) || ((q1 == delta) && (r1 == 0)))], at most
    [fuel] times. *)
Fixpoint getMagic_loop (fuel : nat) (w ad anc : Z) (s : magic_state) : option magic_state :=
  match fuel with
  | O => None
  | S fuel =>
      let (s, delta) := getMagic_body w ad anc s in
      if (ms_q1 s <? delta) || ((ms_q1 s =? delta) && (ms_r1 s =? 0))
      then getMagic_loop fuel w ad anc s else Some s
  end.

(** [getMagic<inttype, uinttype, width>]: the pair [( *magicNum, *shiftBy)].
    The loop runs at most [w] times ([getMagic_loop_total]). *)
Definition getMagic (w d : Z) : option (Z * Z) :=
  let hiBitSet := 2 ^ (w - 1) in
  let ad := ux w (sx w (Z.abs d)) in
  let t := ux w (hiBitSet + Z.shiftr (ux w d) (w - 1)) in
  let anc := ux w (t - 1 - t mod ad) in
  let p := ux w (w - 1) in
  let q1 := ux w (hiBitSet / anc) in
  let r1 := ux w (hiBitSet - q1 * anc) in
  let q2 := ux w (hiBitSet / ad) in
  let r2 := ux w (hiBitSet - q2 * ad) in
  match getMagic_loop (Z.to_nat w) w ad anc (MagicState p q1 r1 q2 r2) with
  | None => None
  | Some s =>
      let mag1 := sx w (ux w (ms_q2 s + 1)) in
      Some (if d <? 0 then sx w (- mag1) else mag1, sx w (ux w (ms_p s - w)))
  end.

(** [leftmost1<I_32>] and [leftmost1<int64>] *)
Definition leftmost1_32 (x : Z) : Z :=
  if x =? 1 then 1 else if x =? 0 then 0 else
  let x := Z.lor x (Z.shiftr x 1) in
  let x := Z.lor x (Z.shiftr x 2) in
  let x := Z.lor x (Z.shiftr x 4) in
  let x := Z.lor x (Z.shiftr x 8) in
  let x := Z.lor x (Z.shiftr x 16) in
  let x := Z.shiftr x 1 in
  sx 32 (x + 1).

Definition leftmost1_64 (x : Z) : Z :=
  if x =? 1 then 1 else if x =? 0 then 0 else
  let x := Z.lor x (Z.shiftr x 1) in
  let x := Z.lor x (Z.shiftr x 2) in
  let x := Z.lor x (Z.shiftr x 4) in
  let x := Z.lor x (Z.shiftr x 8) in
  let x := Z.lor x (Z.shiftr x 16) in
  let x := Z.lor x (Z.shiftr x 32) in
  let x := Z.shiftr x 1 in
  sx 64 (x + 1).

(** [nlz<I_32, 32>] and [nlz<int64, 64>]: number of leading zeros *)
Definition nlz32 (x : Z) : Z :=
  let x := Z.lor x (Z.shiftr x 1) in
  let x := Z.lor x (Z.shiftr x 2) in
  let x := Z.lor x (Z.shiftr x 4) in
  let x := Z.lor x (Z.shiftr x 8) in
  let x := Z.lor x (Z.shiftr x 16) in
  popcount32 (Z.lnot x).

Definition nlz64 (x : Z) : Z :=
  let x := Z.lor x (Z.shiftr x 1) in
  let x := Z.lor x (Z.shiftr x 2) in
  let x := Z.lor x (Z.shiftr x 4) in
  let x := Z.lor x (Z.shiftr x 8) in
  let x := Z.lor x (Z.shiftr x 16) in
  let x := Z.lor x (Z.shiftr x 32) in
  popcount64 (Z.lnot x).

(** number of trailing zeros *)
Definition ntz (w x : Z) : Z :=
  let trailingzeromask := Z.land (Z.lnot x) (sx w (x - 1)) in
  popcount w trailingzeromask.

Definition whichPowerOf2 (w d : Z) : Z :=
  let isNegative := (d <? 0) && negb (d =? sx w (- d)) in
  let d := if isNegative then sx w (- d) else d in
  let i := ntz w d in
  if isNegative then - i else i.

(** The [while] loop of [shifttomakeOdd], at most [fuel] times: [(i, d)]. *)
Fixpoint shifttomakeOdd_loop (fuel : nat) (i d : Z) : option (Z * Z) :=
  match fuel with
  | O => None
  | S fuel =>
      if Z.land d 1 =? 0 then shifttomakeOdd_loop fuel (i + 1) (Z.shiftr d 1)
      else Some (i, d)
  end.

Definition shifttomakeOdd (w d : Z) : option (Z * Z) :=
  shifttomakeOdd_loop (Z.to_nat w) 0 d.

(** ** Division by a constant: the arithmetic behind [getMagic]

    [M * ad = 2^p + e] with [e = ad - 2^p mod ad], and [nc] is the largest
    value below [t] that is congruent to [-1] modulo [ad].  When
    [nc * e < 2^p] the product [M * n / 2^p] is the quotient [n / ad]. *)
Lemma scaled_bounds a x b : 0 < a -> 0 <= a * x < a * b -> 0 <= x < b.
Proof. nia. Qed.

Section magic_quotient.
Context (ad t P M e : Z).
Context (Had : 2 <= ad) (Ht : ad <= t) (HM : M * ad = P + e).
Context (He : 0 < e <= ad) (HP : (t - 1 - t mod ad) * e < P).

Lemma magic_num_bound r n :
  0 <= n < t -> n mod ad = r -> n * e < P * (ad - r).
Proof.
  intros Hn Hr. set (nc := t - 1 - t mod ad) in *.
  pose proof (Z.div_mod n ad ltac:(lia)) as Hdn.
  pose proof (Z.div_mod t ad ltac:(lia)) as Hdt.
  pose proof (Z.mod_pos_bound n ad ltac:(lia)).
  pose proof (Z.mod_pos_bound t ad ltac:(lia)).
  assert (Hk : 1 <= t / ad) by (apply Z.div_le_lower_bound; lia).
  assert (Hnc : nc = ad * (t / ad) - 1) by lia.
  assert (Hq : n / ad <= t / ad) by (apply Z.div_le_mono; lia).
  destruct (decide (r = ad - 1)) as [->|Hne].
  - (* n is congruent to -1, so n <= nc *)
    assert (n <= nc); [|nia].
    assert (n / ad <= t / ad - 1); [|nia].
    destruct (decide (n / ad = t / ad)) as [E|]; [|lia].
    rewrite E in Hdn. nia.
  - assert (Hnc' : ad - 1 <= nc) by nia.
    assert (Hb : (r + 1) * e <= nc * e) by (apply Z.mul_le_mono_nonneg_r; lia).
    assert (0 <= nc * e) by (apply Z.mul_nonneg_nonneg; lia).
    assert (HP2 : P * 2 <= P * (ad - r)) by (apply Z.mul_le_mono_nonneg_l; lia).
    assert (Hn' : n <= nc + (r + 1)) by nia.
    assert (n * e <= (nc + (r + 1)) * e) by (apply Z.mul_le_mono_nonneg_r; lia).
    lia.
Qed.

Lemma magic_P_pos : 0 < P.
Proof.
  pose proof (Z.div_mod t ad ltac:(lia)). pose proof (Z.mod_pos_bound t ad ltac:(lia)).
  assert (1 <= t / ad) by (apply Z.div_le_lower_bound; lia).
  assert (0 <= (t - 1 - t mod ad) * e) by nia. lia.
Qed.

Lemma magic_pos n : 0 <= n < t -> (M * n) / P = n / ad.
Proof.
  intros Hn. pose proof (magic_num_bound _ n Hn eq_refl) as Hb.
  pose proof (Z.div_mod n ad ltac:(lia)) as Hdn.
  pose proof (Z.mod_pos_bound n ad ltac:(lia)).
  pose proof magic_P_pos.
  symmetry. apply Z.div_unique_pos with (r := M * n - P * (n / ad)); [|lia].
  assert (Hmul : ad * (M * n - P * (n / ad)) = P * (n mod ad) + n * e) by nia.
  apply (scaled_bounds ad); [lia|]. rewrite Hmul.
  assert (0 <= P * (n mod ad)) by nia. assert (0 <= n * e) by nia. lia.
Qed.

Lemma magic_neg m : 0 < m < t -> (M * - m) / P = - (m / ad) - 1.
Proof.
  intros Hm. pose proof (magic_num_bound _ m ltac:(lia) eq_refl) as Hb.
  pose proof (Z.div_mod m ad ltac:(lia)) as Hdn.
  pose proof (Z.mod_pos_bound m ad ltac:(lia)).
  symmetry. apply Z.div_unique_pos with (r := P * (m / ad + 1) - M * m); [|lia].
  assert (Hmul : ad * (P * (m / ad + 1) - M * m) = P * (ad - m mod ad) - m * e) by nia.
  pose proof magic_P_pos.
  apply (scaled_bounds ad); [lia|]. rewrite Hmul.
  assert (0 <= P * (m mod ad)) by nia. assert (0 < m * e) by nia. lia.
Qed.
(** The most negative dividend is [-t] itself when the divisor is positive
    ([t = 2^(w-1)]); then [P = t * 2^s] is a multiple of [t]. *)
Lemma magic_neg_top S :
  P = t * S -> 1 <= S -> e = ad - P mod ad -> (M * - t) / P = - (t / ad) - 1.
Proof.
  intros HPS HS He'. pose proof magic_P_pos.
  pose proof (Z.div_mod t ad ltac:(lia)) as Hdt.
  pose proof (Z.mod_pos_bound t ad ltac:(lia)).
  assert (1 <= t / ad) by (apply Z.div_le_lower_bound; lia).
  assert (Hb : t * e <= P * (ad - t mod ad)).
  { destruct (decide (t mod ad = ad - 1)) as [Hr|Hr].
    - rewrite Hr, HPS, <- Z.mul_assoc. apply Z.mul_le_mono_nonneg_l; [lia|].
      replace (S * (ad - (ad - 1))) with S by lia.
      destruct (decide (S < ad)); [|lia].
      assert (P mod ad = ad - S); [|lia].
      symmetry. apply (Z.mod_unique_pos _ _ ((t / ad + 1) * S - 1)); [lia|].
      rewrite HPS. replace t with (ad * (t / ad) + (ad - 1)) at 1 by lia. ring.
    - set (nc := t - 1 - t mod ad) in *.
      assert (ad * 1 <= ad * (t / ad)) by (apply Z.mul_le_mono_nonneg_l; lia).
      assert ((t mod ad + 1) * e <= nc * e) by (apply Z.mul_le_mono_nonneg_r; lia).
      assert (P * 2 <= P * (ad - t mod ad)) by (apply Z.mul_le_mono_nonneg_l; lia).
      assert (t * e = nc * e + (t mod ad + 1) * e) by (unfold nc; ring). lia. }
  symmetry. apply Z.div_unique_pos with (r := P * (t / ad + 1) - M * t); [|lia].
  assert (Hmul : ad * (P * (t / ad + 1) - M * t) = P * (ad - t mod ad) - t * e) by nia.
  apply (scaled_bounds ad); [lia|]. rewrite Hmul.
  assert (0 <= P * (t mod ad)) by nia. assert (0 < t * e) by nia. lia.
Qed.
End magic_quotient.

(** ** The loop of [getMagic] *)
Section magic_loop.
Context (w ad nc : Z).
Let W := 2 ^ (w - 1).
Context (Hw : 3 <= w) (Had : 2 <= ad < W) (Hnc : 2 <= nc <= W).

(** What the four accumulators hold when the exponent is [p]. *)
Definition magic_at (p : Z) : magic_state :=
  MagicState p (2 ^ p / nc) (2 ^ p mod nc) (2 ^ p / ad) (2 ^ p mod ad).

(** The loop condition at exponent [p]. *)
Definition magic_continue (p : Z) : Prop := 2 ^ p <= nc * (ad - 2 ^ p mod ad).

Lemma double_div_mod (m p : Z) : 0 < m -> 0 <= p ->
  let q := 2 ^ p / m in let r := 2 ^ p mod m in
  (2 ^ (p + 1) / m, 2 ^ (p + 1) mod m) =
  if m <=? 2 * r then (2 * q + 1, 2 * r - m) else (2 * q, 2 * r).
Proof.
  intros Hm Hp q r. pose proof (Z.div_mod (2 ^ p) m ltac:(lia)) as Hd.
  pose proof (Z.mod_pos_bound (2 ^ p) m Hm) as Hr.
  rewrite Z.pow_add_r by lia. fold q r in Hd, Hr |- *. change (2 ^ 1) with 2.
  destruct (Z.leb_spec m (2 * r)); f_equal; symmetry.
  - apply (Z.div_unique_pos _ _ _ (2 * r - m)); lia.
  - apply (Z.mod_unique_pos _ _ (2 * q + 1)); lia.
  - apply (Z.div_unique_pos _ _ _ (2 * r)); lia.
  - apply (Z.mod_unique_pos _ _ (2 * q)); lia.
Qed.

Lemma W_pow : 2 ^ w = 2 * W.
Proof. apply pow2_half. lia. Qed.

Lemma W_ge : 4 <= W.
Proof. change 4 with (2 ^ 2). apply Z.pow_le_mono_r; lia. Qed.

(** A continuing exponent is small. *)
Lemma magic_continue_bound p : 0 <= p -> magic_continue p -> p <= 2 * w - 3.
Proof.
  intros Hp Hc. unfold magic_continue in Hc.
  pose proof (Z.mod_pos_bound (2 ^ p) ad ltac:(lia)).
  assert (2 ^ p < 2 ^ (2 * w - 2)) as H2%Z.pow_lt_mono_r_iff by
    (replace (2 * w - 2) with ((w - 1) + (w - 1)) by lia;
     rewrite Z.pow_add_r by lia; fold W; nia); lia.
Qed.
(** [nc = 2^(w-1)] only for a negative, odd divisor. *)
Context (Hodd : nc = W -> forall k, 0 <= k -> 2 ^ k mod ad <> 0).

(** The exponents the loop goes through: the initial one, and those at which
    it continues. *)
Definition magic_live (p : Z) : Prop := p = w - 1 \/ (w <= p /\ magic_continue p).

Lemma magic_live_p p : magic_live p -> w - 1 <= p /\ p + 1 < 2 ^ w.
Proof.
  pose proof (Z.pow_gt_lin_r 2 (w - 1)) as Hlin. rewrite W_pow. fold W in Hlin.
  intros [->|[Hp Hc]]; [lia|].
  pose proof (magic_continue_bound p ltac:(lia) Hc). lia.
Qed.

Lemma magic_live_q1 p : magic_live p -> 2 * (2 ^ p / nc) + 1 < 2 * W.
Proof.
  pose proof W_ge. intros [->|[Hp Hc]].
  - fold W. assert (W / nc <= W / 2) by (apply Z.div_le_compat_l; lia).
    pose proof (Z.mul_div_le W 2). lia.
  - assert (2 ^ p / nc <= ad); [|lia].
    apply Z.div_le_upper_bound; [lia|]. unfold magic_continue in Hc.
    pose proof (Z.mod_pos_bound (2 ^ p) ad). nia.
Qed.

(** After the loop the reciprocal [q2 + 1] still fits in [w] bits. *)
Lemma magic_live_q2 p : magic_live p -> 2 ^ (p + 1) / ad <= 2 * W - 2.
Proof.
  pose proof W_ge. pose proof W_pow as HW.
  intros [->|[Hp Hc]].
  - replace (w - 1 + 1) with w by lia. rewrite HW.
    assert (2 * W / ad <= 2 * W / 2) by (apply Z.div_le_compat_l; lia).
    rewrite (Z.mul_comm 2), Z.div_mul in * by lia. lia.
  - assert (2 ^ (p + 1) < ad * (2 * W - 1)) as Hlt.
    { rewrite Z.pow_add_r by lia. change (2 ^ 1) with 2.
      unfold magic_continue in Hc.
      pose proof (Z.mod_pos_bound (2 ^ p) ad ltac:(lia)) as Hr.
      destruct (decide (nc = W)) as [E|].
      - specialize (Hodd E p ltac:(lia)). rewrite E in Hc.
        assert (W * (ad - 2 ^ p mod ad) <= W * (ad - 1))
          by (apply Z.mul_le_mono_nonneg_l; lia). lia.
      - assert (nc * (ad - 2 ^ p mod ad) <= (W - 1) * ad)
          by (apply Z.mul_le_mono_nonneg; lia). lia. }
    assert (2 ^ (p + 1) / ad < 2 * W - 1) by (apply Z.div_lt_upper_bound; lia). lia.
Qed.

Lemma getMagic_body_at p : magic_live p ->
  getMagic_body w ad nc (magic_at p) = (magic_at (p + 1), ad - 2 ^ (p + 1) mod ad).
Proof.
  intros Hlive. pose proof W_pow as HW. pose proof W_ge.
  pose proof (magic_live_p p Hlive) as [Hp Hp'].
  pose proof (magic_live_q1 p Hlive) as Hq1. pose proof (magic_live_q2 p Hlive) as Hq2.
  pose proof (double_div_mod nc p ltac:(lia) ltac:(lia)) as H1.
  pose proof (double_div_mod ad p ltac:(lia) ltac:(lia)) as H2.
  pose proof (Z.mod_pos_bound (2 ^ p) nc ltac:(lia)).
  pose proof (Z.mod_pos_bound (2 ^ p) ad ltac:(lia)).
  pose proof (Z.div_pos (2 ^ p) nc). pose proof (Z.div_pos (2 ^ p) ad).
  pose proof (Z.pow_nonneg 2 p).
  unfold getMagic_body, magic_at; cbn [ms_p ms_q1 ms_r1 ms_q2 ms_r2].
  rewrite !Z.shiftl_mul_pow2 by lia. change (2 ^ 1) with 2.
  rewrite (Z.mul_comm (2 ^ p / nc)), (Z.mul_comm (2 ^ p mod nc)),
    (Z.mul_comm (2 ^ p / ad)), (Z.mul_comm (2 ^ p mod ad)).
  cbv zeta in H1, H2.
  rewrite (ux_id w (p + 1)) by (unfold is_u; lia).
  rewrite (ux_id w (2 * (2 ^ p / nc))) by (unfold is_u; lia).
  rewrite (ux_id w (2 * (2 ^ p mod nc))) by (unfold is_u; lia).
  rewrite (ux_id w (2 * (2 ^ p mod ad))) by (unfold is_u; lia).
  destruct (Z.leb_spec nc (2 * (2 ^ p mod nc)));
    destruct (Z.leb_spec ad (2 * (2 ^ p mod ad)));
    injection H1 as H1q H1r; injection H2 as H2q H2r;
    rewrite H1q, H1r, H2q, H2r; rewrite H2q in Hq2;
    rewrite (ux_id w (2 * (2 ^ p / ad))) by (unfold is_u; lia);
    rewrite !ux_id by (unfold is_u; lia); reflexivity.
Qed.

Lemma magic_continue_bool p : 0 <= p ->
  let delta := ad - 2 ^ p mod ad in
  (2 ^ p / nc <? delta) || ((2 ^ p / nc =? delta) && (2 ^ p mod nc =? 0)) = true
  <-> magic_continue p.
Proof.
  intros Hp delta. unfold magic_continue. fold delta.
  pose proof (Z.div_mod (2 ^ p) nc ltac:(lia)).
  pose proof (Z.mod_pos_bound (2 ^ p) nc ltac:(lia)).
  rewrite orb_true_iff, andb_true_iff, Z.ltb_lt, !Z.eqb_eq.
  generalize dependent (2 ^ p / nc). generalize dependent (2 ^ p mod nc).
  intros r Hr q Hd. split.
  - intros [Hlt|[-> ->]]; [|lia].
    assert (nc * (q + 1) <= nc * delta) by (apply Z.mul_le_mono_nonneg_l; lia). lia.
  - intros Hle. destruct (decide (q < delta)); [by left|right].
    assert (nc * delta <= nc * q) by (apply Z.mul_le_mono_nonneg_l; lia).
    split; [|lia]. apply (Z.mul_reg_l _ _ nc); lia.
Qed.

(** The loop ends, at the first exponent at which it need not continue. *)
Lemma getMagic_loop_at fuel p :
  magic_live p -> 2 * w - 2 - p <= Z.of_nat fuel -> (0 < fuel)%nat ->
  exists p', getMagic_loop fuel w ad nc (magic_at p) = Some (magic_at p')
    /\ w <= p' <= 2 * w - 2 /\ magic_live (p' - 1) /\ ~ magic_continue p'.
Proof.
  revert p. induction fuel as [|fuel IH]; intros p Hlive Hf Hpos; [lia|].
  pose proof (magic_live_p p Hlive) as [Hp _].
  assert (p <= 2 * w - 3) as Hp'
    by (destruct Hlive as [->|[_ Hc]]; [lia|by apply magic_continue_bound in Hc; lia]).
  cbn [getMagic_loop]. rewrite getMagic_body_at by done.
  cbn [magic_at ms_q1 ms_r1].
  destruct (_ || _) eqn:E.
  - apply magic_continue_bool in E; [|lia].
    pose proof (magic_continue_bound (p + 1) ltac:(lia) E).
    apply IH; [right; split; [lia|done]|lia|lia].
  - exists (p + 1). split; [done|]. split; [lia|].
    replace (p + 1 - 1) with p by lia. split; [done|].
    intros Hc. apply magic_continue_bool in Hc; [|lia]. congruence.
Qed.
End magic_loop.

(** ** [getMagic] on every legal divisor *)
Section getMagic_facts.
Context (w d : Z) (Hw : 3 <= w) (Hd : is_s w d).
Context (Hmin : d <> - 2 ^ (w - 1)) (Hd1 : d < -1 \/ 1 < d).
Let W := 2 ^ (w - 1).
Let ad := Z.abs d.
Let t := if d <? 0 then W + 1 else W.
Let nc := t - 1 - t mod ad.

Lemma magic_ad_range : 2 <= ad < W.
Proof. unfold is_s in Hd. unfold ad, W in *. lia. Qed.

Lemma magic_t_ge : ad <= t.
Proof. pose proof magic_ad_range. unfold t. destruct (d <? 0); lia. Qed.

Lemma magic_nc_range : 2 <= nc <= W.
Proof.
  pose proof magic_ad_range as Had. pose proof (W_ge w Hw) as HW4. fold W in HW4.
  pose proof (Z.div_mod t ad ltac:(lia)) as Hdt.
  pose proof (Z.mod_pos_bound t ad ltac:(lia)).
  assert (W <= t <= W + 1) by (unfold t; destruct (d <? 0); lia).
  assert (ad * 1 <= ad * (t / ad)).
  { apply Z.mul_le_mono_nonneg_l; [lia|]. apply Z.div_le_lower_bound; lia. }
  unfold nc. lia.
Qed.

Lemma magic_nc_odd : nc = W -> forall k, 0 <= k -> 2 ^ k mod ad <> 0.
Proof.
  intros Hnc k Hk Hmod. pose proof magic_ad_range as Had.
  pose proof (Z.mod_pos_bound t ad ltac:(lia)).
  assert (t = W + 1 /\ t mod ad = 0) as [Ht Ht0]
    by (unfold nc, t in *; destruct (d <? 0); lia).
  apply Z.mod_divide in Ht0, Hmod; try lia. rewrite Ht in Ht0.
  (* an odd [ad] divides no power of two *)
  assert (Hg : Z.gcd ad 2 = 1).
  { pose proof (Z.gcd_nonneg ad 2). pose proof (Z.gcd_divide_l ad 2).
    pose proof (Z.gcd_divide_r ad 2).
    assert (Z.gcd ad 2 | (W + 1) - W) as Hg1.
    { apply Z.divide_sub_r; [by apply (Z.divide_trans _ ad)|].
      apply (Z.divide_trans _ 2); [done|]. exists (2 ^ (w - 2)). unfold W.
      replace (w - 1) with (Z.succ (w - 2)) by lia. rewrite Z.pow_succ_r by lia. lia. }
    replace ((W + 1) - W) with 1 in Hg1 by lia. apply Z.divide_1_r in Hg1. lia. }
  assert (Hno : forall j, 0 <= j -> ~ (ad | 2 ^ j)).
  { apply natlike_ind.
    - intros H1%Z.divide_1_r. lia.
    - intros j Hj IH Hdiv. apply IH. rewrite Z.pow_succ_r in Hdiv by lia.
      by apply (Z.gauss _ 2). }
  by apply (Hno k).
Qed.

(** [getMagic] returns: its loop ends, with the reciprocal of [|d|]. *)
Lemma getMagic_result : exists p,
  w <= p <= 2 * w - 2 /\ nc * (ad - 2 ^ p mod ad) < 2 ^ p /\
  0 < 2 ^ p / ad + 1 <= 2 * W - 1 /\
  let mag := sx w (2 ^ p / ad + 1) in
  getMagic w d = Some (if d <? 0 then sx w (- mag) else mag, p - w).
Proof.
  pose proof magic_ad_range as Had. pose proof magic_nc_range as Hnc.
  pose proof magic_nc_odd as Hodd. pose proof (W_pow w Hw) as HW2. fold W in HW2.
  pose proof (W_ge w Hw) as HW4. fold W in HW4.
  pose proof (Z.pow_gt_lin_r 2 (w - 1)) as Hlin. fold W in Hlin.
  assert (Had' : ux w (sx w (Z.abs d)) = ad).
  { rewrite sx_id by (unfold is_s; fold W; lia). apply ux_id. unfold is_u. lia. }
  assert (Hpw : 2 ^ w / W = 2).
  { rewrite HW2. apply Z.div_mul. lia. }
  assert (Ht' : ux w (2 ^ (w - 1) + Z.shiftr (ux w d) (w - 1)) = t).
  { rewrite Z.shiftr_div_pow2 by lia. rewrite (ux_signed w d) by (done || lia). fold W.
    unfold t. unfold is_s in Hd. fold W in Hd. case_decide.
    - replace (d <? 0) with true by (symmetry; apply Z.ltb_lt; lia).
      rewrite HW2. replace (d + 2 * W) with ((d + W) + 1 * W) by lia.
      rewrite Z.div_add, Z.div_small by lia. apply ux_id. unfold is_u. lia.
    - replace (d <? 0) with false by (symmetry; apply Z.ltb_ge; lia).
      rewrite Z.div_small by lia. rewrite Z.add_0_r. apply ux_id. unfold is_u. lia. }
  assert (Hanc : ux w (t - 1 - t mod ad) = nc) by (apply ux_id; unfold is_u; fold nc; lia).
  destruct (getMagic_loop_at w ad nc Hw Had Hnc Hodd (Z.to_nat w) (w - 1))
    as (p & Hrun & Hp & Hlive & Hstop); [by left|lia|lia|].
  pose proof (magic_live_q2 w ad nc Hw Had Hnc Hodd (p - 1) Hlive) as Hq2.
  replace (p - 1 + 1) with p in Hq2 by lia. fold W in Hq2.
  pose proof (Z.div_pos (2 ^ p) ad (Z.pow_nonneg 2 p ltac:(lia)) ltac:(lia)).
  exists p. split; [done|]. split; [unfold magic_continue in Hstop; lia|]. split; [lia|].
  unfold getMagic. rewrite Had', Ht', Hanc. fold W.
  assert (Hinit : MagicState (ux w (w - 1)) (ux w (W / nc)) (ux w (W - ux w (W / nc) * nc))
      (ux w (W / ad)) (ux w (W - ux w (W / ad) * ad)) = magic_at ad nc (w - 1)).
  { pose proof (Z.div_mod W nc ltac:(lia)). pose proof (Z.mod_pos_bound W nc ltac:(lia)).
    pose proof (Z.div_mod W ad ltac:(lia)). pose proof (Z.mod_pos_bound W ad ltac:(lia)).
    pose proof (Z.div_le_upper_bound W nc W ltac:(lia) ltac:(nia)).
    pose proof (Z.div_le_upper_bound W ad W ltac:(lia) ltac:(nia)).
    pose proof (Z.div_pos W nc). pose proof (Z.div_pos W ad).
    unfold magic_at. fold W.
    rewrite (ux_id w (w - 1)) by (unfold is_u; lia).
    rewrite (ux_id w (W / nc)) by (unfold is_u; lia).
    rewrite (ux_id w (W / ad)) by (unfold is_u; lia).
    f_equal; (rewrite ux_id; [|unfold is_u]); lia. }
  rewrite Hinit, Hrun. cbn [magic_at ms_q2 ms_p].
  rewrite sx_ux, (ux_id w (p - w)) by (unfold is_u; lia).
  rewrite (sx_id w (p - w)) by (unfold is_s; fold W; lia). done.
Qed.
End getMagic_facts.

(** The quotient of signed values through the absolute value of the divisor. *)
Lemma quot_abs n d : d <> 0 ->
  Z.quot n d = (if 0 <=? n then Z.abs n / Z.abs d else - (Z.abs n / Z.abs d)) * Z.sgn d.
Proof.
  intros Hd. destruct (Z.leb_spec 0 n), (Z.lt_total d 0) as [?|[?|?]]; try lia.
  - rewrite (Z.sgn_neg d), (Z.abs_eq n), (Z.abs_neq d) by lia.
    rewrite <- (Z.opp_involutive d) at 1. rewrite Z.quot_opp_r, Z.quot_div_nonneg by lia. lia.
  - rewrite (Z.sgn_pos d), (Z.abs_eq n), (Z.abs_eq d), Z.quot_div_nonneg by lia. lia.
  - rewrite (Z.sgn_neg d), (Z.abs_neq n), (Z.abs_neq d) by lia.
    rewrite <- (Z.opp_involutive d) at 1. rewrite <- (Z.opp_involutive n) at 1.
    rewrite Z.quot_opp_opp, Z.quot_div_nonneg by lia. lia.
  - rewrite (Z.sgn_pos d), (Z.abs_neq n), (Z.abs_eq d) by lia.
    rewrite <- (Z.opp_involutive n) at 1. rewrite Z.quot_opp_l, Z.quot_div_nonneg by lia. lia.
Qed.

(** The value that the code sequence built from [(m, s)] computes, step by
    step: high word of the product, correction, shift, sign correction. *)
Definition magic_hi (w m n : Z) : Z := (m * n) / 2 ^ w.

Definition magic_adjusted (w d m n : Z) : Z :=
  if (0 <? d) && (m <? 0) then magic_hi w m n + n
  else if (d <? 0) && (0 <? m) then magic_hi w m n - n
  else magic_hi w m n.

Section getMagic_correct.
Context (w d : Z) (Hw : 3 <= w) (Hd : is_s w d).
Context (Hmin : d <> - 2 ^ (w - 1)) (Hd1 : d < -1 \/ 1 < d).

(** With the correction, the magic number acts as the signed reciprocal. *)
Lemma magic_adjusted_eq M n : 0 < M <= 2 ^ w - 1 -> d <> 0 ->
  let mag := sx w M in
  magic_adjusted w d (if d <? 0 then sx w (- mag) else mag) n = (Z.sgn d * M * n) / 2 ^ w.
Proof.
  intros HM H0 mag. pose proof (pow2_half w ltac:(lia)) as HW.
  pose proof (pow2_pos (w - 1) ltac:(lia)) as HWp.
  assert (Hmag : mag = if decide (M < 2 ^ (w - 1)) then M else M - 2 ^ w).
  { apply sx_unsigned; [lia|unfold is_u; lia]. }
  unfold magic_adjusted, magic_hi. destruct (Z.ltb_spec d 0) as [Hneg|Hpos].
  - rewrite (Z.sgn_neg d) by lia. replace (0 <? d) with false by (symmetry; apply Z.ltb_ge; lia).
    cbn [andb]. destruct (decide (M <= 2 ^ (w - 1))) as [Hle|Hgt].
    + assert (Hm : sx w (- mag) = - M).
      { transitivity (sx w (- M)); [|apply sx_id; unfold is_s; lia].
        apply eqm_sx_iff. unfold mag. by rewrite eqm_sx. }
      rewrite Hm. replace (0 <? - M) with false by (symmetry; apply Z.ltb_ge; lia).
      f_equal; lia.
    + rewrite Hmag. case_decide; [lia|].
      rewrite sx_id by (unfold is_s; lia).
      replace (0 <? - (M - 2 ^ w)) with true by (symmetry; apply Z.ltb_lt; lia).
      replace (- (M - 2 ^ w) * n) with (-1 * M * n + n * 2 ^ w) by ring.
      rewrite Z.div_add by lia. lia.
  - rewrite (Z.sgn_pos d) by lia. replace (0 <? d) with true by (symmetry; apply Z.ltb_lt; lia).
    rewrite Hmag. case_decide.
    + replace (M <? 0) with false by (symmetry; apply Z.ltb_ge; lia). cbn. f_equal; lia.
    + replace (M - 2 ^ w <? 0) with true by (symmetry; apply Z.ltb_lt; lia). cbn.
      replace ((M - 2 ^ w) * n) with (1 * M * n + (- n) * 2 ^ w) by ring.
      rewrite Z.div_add by lia. lia.
Qed.

Lemma magic_adjusted_range M n : 0 < M <= 2 ^ w - 1 -> is_s w n ->
  is_s w ((Z.sgn d * M * n) / 2 ^ w).
Proof.
  intros HM Hn. unfold is_s in *. pose proof (pow2_half w ltac:(lia)) as HW.
  pose proof (pow2_pos (w - 1) ltac:(lia)) as HWp.
  set (W := 2 ^ (w - 1)) in *. rewrite HW in *.
  assert (- ((2 * W - 1) * W) <= Z.sgn d * M * n <= (2 * W - 1) * W).
  { apply Z.abs_le. rewrite !Z.abs_mul. rewrite (Z.abs_eq M) by lia.
    assert (Z.abs (Z.sgn d) <= 1) by lia.
    assert (Z.abs (Z.sgn d) * M <= 2 * W - 1) by nia.
    apply Z.mul_le_mono_nonneg; lia. }
  split.
  - apply Z.div_le_lower_bound; [lia|]. nia.
  - apply Z.div_lt_upper_bound; [lia|]. nia.
Qed.

(** [getMagic] turns a signed division by [d] into a multiplication. *)
Lemma getMagic_divides : exists m s,
  getMagic w d = Some (m, s) /\ is_s w m /\ 0 <= s <= w - 2 /\
  forall n, is_s w n ->
    let q := magic_adjusted w d m n in
    let q' := q / 2 ^ s in
    is_s w q /\
    Z.quot n d = q' + (if (if d <? 0 then q' else n) <? 0 then 1 else 0).
Proof.
  destruct (getMagic_result w d Hw Hd Hmin Hd1) as (p & Hp & Hnc & HM & Hrun).
  set (ad := Z.abs d) in *. set (M := 2 ^ p / ad + 1) in *.
  rewrite <- (pow2_half w) in HM by lia.
  eexists _, (p - w). split; [exact Hrun|]. split.
  { destruct (d <? 0); apply sx_range; lia. }
  split; [lia|]. intros n Hn. cbv zeta. rewrite magic_adjusted_eq by lia.
  split; [by apply magic_adjusted_range|].
  rewrite Z.div_div, <- Z.pow_add_r by (lia || apply pow2_pos; lia).
  replace (w + (p - w)) with p by lia.
  set (t := if d <? 0 then 2 ^ (w - 1) + 1 else 2 ^ (w - 1)) in *.
  assert (Had : 2 <= ad) by (unfold ad; lia).
  assert (Ht : ad <= t) by (by apply magic_t_ge).
  set (e := ad - 2 ^ p mod ad) in *.
  pose proof (Z.mod_pos_bound (2 ^ p) ad ltac:(lia)).
  pose proof (Z.div_mod (2 ^ p) ad ltac:(lia)).
  assert (HMe : M * ad = 2 ^ p + e) by (unfold M, e; lia).
  assert (He : 0 < e <= ad) by (unfold e; lia).
  pose proof (magic_pos ad t (2 ^ p) M e Had Ht HMe He Hnc) as Hpos.
  pose proof (magic_neg ad t (2 ^ p) M e Had Ht HMe He Hnc) as Hneg.
  rewrite quot_abs by lia. fold ad. unfold is_s in Hn.
  pose proof (Z.div_pos (Z.abs n) ad).
  assert (Hz : 0 / ad = 0) by (apply Z.div_0_l; lia).
  destruct (Z.ltb_spec d 0) as [Hdn|Hdp].
  - rewrite (Z.sgn_neg d) in * by lia. destruct (Z.leb_spec 0 n).
    + rewrite (Z.abs_eq n) by lia. destruct (decide (n = 0)) as [->|].
      { rewrite Z.mul_0_r, !Z.div_0_l by (pose proof (pow2_pos p); lia). done. }
      replace (-1 * M * n) with (M * - n) by ring. rewrite Hneg by (unfold t; lia).
      rewrite (Z.abs_eq n) in * by lia.
      replace (- (n / ad) - 1 <? 0) with true by (symmetry; apply Z.ltb_lt; lia). lia.
    + rewrite (Z.abs_neq n) in * by lia.
      replace (-1 * M * n) with (M * - n) by ring. rewrite Hpos by (unfold t; lia).
      replace (- n / ad <? 0) with false by (symmetry; apply Z.ltb_ge; lia). lia.
  - rewrite (Z.sgn_pos d) in * by lia. rewrite Z.mul_1_l. destruct (Z.leb_spec 0 n).
    + rewrite (Z.abs_eq n) in * by lia. rewrite Hpos by (unfold t; lia).
      replace (n <? 0) with false by (symmetry; apply Z.ltb_ge; lia). lia.
    + rewrite (Z.abs_neq n) in * by lia.
      replace (n <? 0) with true by (symmetry; apply Z.ltb_lt; lia).
      replace (M * n) with (M * - - n) by ring.
      destruct (decide (- n = t)) as [E|].
      * rewrite E. rewrite (magic_neg_top ad t (2 ^ p) M e Had Ht HMe He Hnc (2 ^ (p - (w - 1)))).
        -- lia.
        -- unfold t. rewrite <- Z.pow_add_r by lia. f_equal. lia.
        -- pose proof (pow2_pos (p - (w - 1))). lia.
        -- done.
      * rewrite Hneg by (unfold t in *; lia). lia.
Qed.
End getMagic_correct.

(** ** Population count

    The masked additions work on every base-16 digit separately. *)
Definition popcount_step1 (x m : Z) : Z := x - Z.land (Z.shiftr x 1) m.
Definition popcount_step2 (x m : Z) : Z := Z.land x m + Z.land (Z.shiftr x 2) m.

Lemma nibble_cases (P : Z -> Prop) :
  Forall P (seqZ 0 16) -> forall d, is_u 4 d -> P d.
Proof.
  intros H d Hd. rewrite Forall_forall in H.
  apply H, list_elem_of_In, elem_of_seqZ. unfold is_u in Hd. lia.
Qed.

(** A mask whose digits leave the top [j] bits of a digit clear hides what a
    shift by [j] brings in from the next digit. *)
Lemma shiftr_digits_land k j l m :
  0 <= j <= k -> Forall (is_u k) l -> Forall (is_u (k - j)) m -> length l = length m ->
  Z.land (Z.shiftr (of_digits k l) j) (of_digits k m) =
  of_digits k (zip_with (fun d e => Z.land (Z.shiftr d j) e) l m).
Proof.
  intros Hj Hl. revert m. induction Hl as [|d l Hd _ IH]; intros m Hm Hlen.
  - destruct m; [|done]. simpl. by rewrite Z.shiftr_0_l.
  - destruct m as [|e m]; [done|]. inversion Hm as [|? ? He Hm']; subst. simpl.
    fold (of_digits k l) (of_digits k m).
    rewrite <- IH by (done || (simpl in Hlen; lia)).
    apply Z.bits_inj'. intros i Hi.
    assert (is_u k e) by (unfold is_u in *; pose proof (Z.pow_le_mono_r 2 (k - j) k); lia).
    assert (is_u k (Z.land (Z.shiftr d j) e)) as Hde.
    { assert (E : Z.land (Z.shiftr d j) e + 0 * 2 ^ k = Z.land (Z.shiftr d j + 0 * 2 ^ k) (e + 0 * 2 ^ k)).
      { rewrite land_join; [by rewrite Z.land_0_l|lia| |done].
        unfold is_u in *. rewrite Z.shiftr_div_pow2 by lia. split; [apply Z.div_pos; lia|].
        apply Z.div_lt_upper_bound; [lia|]. pose proof (pow2_pos j). nia. }
      destruct (decide (Z.land (Z.shiftr d j) e < 2 ^ k)).
      - split; [apply Z.land_nonneg; unfold is_u in *; lia|done].
      - exfalso. assert (Z.land (Z.shiftr d j) e mod 2 ^ k = Z.land (Z.shiftr d j) e); cycle 1.
        { pose proof (Z.mod_pos_bound (Z.land (Z.shiftr d j) e) (2 ^ k)). lia. }
        rewrite <- Z.land_ones, <- Z.land_assoc, Z.land_ones by lia. f_equal.
        apply Z.mod_small. done. }
    rewrite testbit_join by (done || lia). rewrite Z.land_spec, Z.shiftr_spec by done.
    rewrite !testbit_join by (done || lia). destruct (decide (i < k)).
    + rewrite Z.land_spec, Z.shiftr_spec by lia. case_decide; [done|].
      rewrite (testbit_high (k - j) e i) by (unfold is_u in *; lia). by rewrite !andb_false_r.
    + rewrite decide_False by lia. rewrite Z.land_spec, Z.shiftr_spec by lia.
      f_equal. f_equal. lia.
  Qed.

Lemma land_mask_ux w j x m :
  0 < w -> 0 <= j <= w -> is_u (w - j) m ->
  Z.land (Z.shiftr x j) m = Z.land (Z.shiftr (ux w x) j) m.
Proof.
  intros Hw Hj Hm. apply Z.bits_inj'. intros i Hi. rewrite !Z.land_spec, !Z.shiftr_spec by done.
  destruct (decide (i < w - j)).
  - rewrite testbit_ux by lia. replace (i + j <? w) with true by (symmetry; apply Z.ltb_lt; lia).
    done.
  - rewrite (testbit_high (w - j) m) by (done || lia). by rewrite !andb_false_r.
Qed.

Lemma of_digits_sub k l m : length l = length m ->
  of_digits k l - of_digits k m = of_digits k (zip_with Z.sub l m).
Proof.
  revert m. induction l as [|d l IH]; intros [|e m] H; try done; simpl in *.
  rewrite <- IH by lia. unfold of_digits. lia.
Qed.

Lemma of_digits_add k l m : length l = length m ->
  of_digits k l + of_digits k m = of_digits k (zip_with Z.add l m).
Proof.
  revert m. induction l as [|d l IH]; intros [|e m] H; try done; simpl in *.
  rewrite <- IH by lia. unfold of_digits. lia.
Qed.

Lemma zip_with_replicate {A B C} (f : A -> B -> C) (l : list A) b :
  zip_with f l (replicate (length l) b) = (fun a => f a b) <$> l.
Proof.
  induction l as [|a l IH]; [done|]. cbn [length replicate zip_with]. by rewrite IH.
Qed.

Definition digit_ones (d : Z) : Z := popcount_step2 (popcount_step1 d 5) 3.

Lemma digit_ones_spec d : is_u 4 d ->
  is_u 4 (popcount_step1 d 5) /\ digit_ones d = bits_set 4 d /\ 0 <= digit_ones d <= 4.
Proof.
  revert d. apply nibble_cases.
  repeat (constructor; [split_and!; (reflexivity || (vm_compute; intuition discriminate))|]).
  constructor.
Qed.

(** The first two steps, on a word of [n] base-16 digits. *)
Section popcount_digits.
Context (n : nat) (Hn : (0 < n)%nat).
Let w := 4 * Z.of_nat n.
Let m1 := of_digits 4 (replicate n 5).
Let m2 := of_digits 4 (replicate n 3).

Lemma popcount_steps_digits l : length l = n -> Forall (is_u 4) l ->
  let x1 := popcount_step1 (of_digits 4 l) m1 in
  is_u w x1 /\ popcount_step2 x1 m2 = of_digits 4 (digit_ones <$> l).
Proof.
  intros Hlen Hl x1.
  assert (Hx1 : x1 = of_digits 4 ((fun d => popcount_step1 d 5) <$> l)).
  { unfold x1, popcount_step1, m1. subst n.
    rewrite (shiftr_digits_land 4 1), zip_with_replicate;
      [|lia|done|apply Forall_replicate; unfold is_u; lia|by rewrite length_replicate].
    rewrite of_digits_sub by (by rewrite length_fmap). f_equal.
    clear. induction l as [|d l IH]; [done|].
    rewrite !fmap_cons. cbn [zip_with]. by rewrite IH. }
  assert (Hd : Forall (is_u 4) ((fun d => popcount_step1 d 5) <$> l)).
  { apply Forall_fmap. eapply Forall_impl; [|exact Hl]. intros d Hd. by apply digit_ones_spec. }
  assert (Hlen1 : length ((fun d => popcount_step1 d 5) <$> l) = n) by (by rewrite length_fmap).
  split.
  - rewrite Hx1. unfold w. rewrite <- Hlen1. by apply of_digits_bound.
  - rewrite Hx1. unfold popcount_step2, m2. rewrite <- Hlen1.
    rewrite of_digits_land, (shiftr_digits_land 4 2), !zip_with_replicate;
      try (apply Forall_replicate; unfold is_u; lia); try (by rewrite length_replicate);
      try done; try lia.
    rewrite of_digits_add by (by rewrite !length_fmap). f_equal.
    clear. induction l as [|d l IH]; [done|].
    rewrite !fmap_cons. cbn [zip_with]. by rewrite IH.
Qed.

(** The same steps as the source writes them, on a signed word. *)
Lemma popcount_front x : exists l,
  length l = n /\ Forall (is_u 4) l /\ of_digits 4 l = ux w x /\
  let x1 := sx w (popcount_step1 x m1) in
  sx w (popcount_step2 x1 m2) = sx w (of_digits 4 (digit_ones <$> l)).
Proof.
  destruct (digits_exist 4 n (ux w x)) as (l & Hlen & Hl & Hx); [lia|apply ux_range; lia|].
  exists l. split_and!; [done|done|done|]. intros x1.
  destruct (popcount_steps_digits l Hlen Hl) as [Hr Heq]. rewrite <- Heq.
  assert (Hm1 : is_u (w - 1) m1 /\ is_u (w - 0) m2 /\ is_u (w - 2) m2).
  { unfold m1, m2, w. destruct n as [|k]; [lia|]. clear.
    assert (Hb : forall d j, 0 <= j <= 2 -> 0 <= d -> (d + 1) * 2 ^ j <= 16 ->
      is_u (4 * Z.of_nat (S k) - j) (of_digits 4 (replicate (S k) d))).
    { intros d j Hj Hd0 Hd. induction k as [|k IH].
      - unfold is_u. cbn [replicate of_digits foldr]. rewrite Z.mul_0_l, Z.add_0_r.
        rewrite Z.pow_sub_r by lia. change (2 ^ (4 * Z.of_nat 1)) with 16.
        split; [lia|]. apply Z.lt_le_trans with (d + 1); [lia|].
        apply Z.div_le_lower_bound; [apply pow2_pos; lia|lia].
      - cbn [replicate of_digits foldr] in IH |- *. unfold is_u in *.
        replace (4 * Z.of_nat (S (S k)) - j) with ((4 * Z.of_nat (S k) - j) + 4) by lia.
        rewrite Z.pow_add_r by lia. change (2 ^ 4) with 16 in *.
        assert (d < 16) by (pose proof (Z.pow_le_mono_r 2 0 j); nia). lia. }
    split_and!; apply Hb; lia. }
  destruct Hm1 as (Hm1 & Hm2 & Hm2'). apply eqm_sx_iff.
  assert (Hx1 : ux w x1 = popcount_step1 (of_digits 4 l) m1).
  { rewrite <- (ux_id w (popcount_step1 _ _)) by done. apply eqm_ux_iff. unfold x1.
    rewrite eqm_sx, Hx. unfold popcount_step1.
    rewrite (land_mask_ux w 1 x) by (done || lia). apply eqm_sub; [|reflexivity].
    symmetry. apply eqm_ux. }
  unfold popcount_step2 at 1.
  rewrite <- (Z.shiftr_0_r x1) at 1.
  rewrite (land_mask_ux w 0 x1), (land_mask_ux w 2 x1) by (done || lia).
  rewrite Hx1, Z.shiftr_0_r. reflexivity.
Qed.
End popcount_digits.

(** The third step: sums of adjacent digits, as base-256 digits. *)
Fixpoint digit_pairs (l : list Z) : list Z :=
  match l with
  | a :: b :: l => a + b :: digit_pairs l
  | _ => []
  end.

Fixpoint digit_adjacent (l : list Z) : list Z :=
  match l with
  | a :: b :: l => (a + b) + (b + hd 0 l) * 2 ^ 4 :: digit_adjacent l
  | _ => []
  end.

Lemma digit_adjacent_spec (n : nat) l : length l = (2 * n)%nat -> Forall (fun d => 0 <= d <= 4) l ->
  of_digits 4 l + Z.shiftr (of_digits 4 l) 4 = of_digits 8 (digit_adjacent l) /\
  Forall (is_u 8) (digit_adjacent l) /\ length (digit_adjacent l) = n /\
  (fun t => Z.land t 15) <$> digit_adjacent l = digit_pairs l /\
  Forall (fun c => 0 <= c <= 8) (digit_pairs l) /\ length (digit_pairs l) = n.
Proof.
  revert l. induction n as [|n IH]; intros l Hlen Hl.
  - destruct l; [|done]. by split_and!; repeat first [reflexivity | apply Forall_nil_2].
  - destruct l as [|a [|b l]]; try (simpl in Hlen; lia).
    apply Forall_cons_1 in Hl as [Ha Hl]. apply Forall_cons_1 in Hl as [Hb Hl].
    destruct (IH l) as (Heq & Hr & Hlen' & Hland & Hp & Hlen''); [simpl in Hlen; lia|done|].
    assert (Hu : forall c, 0 <= c <= 4 -> is_u 4 c) by (unfold is_u; lia).
    rewrite of_digits_tail by (by auto). cbn [digit_adjacent digit_pairs length].
    assert (Hhd : 0 <= hd 0 l <= 4) by (destruct Hl; simpl; lia).
    change (2 ^ 4) with 16.
    split_and!; [| |lia| |constructor; [lia|done]|lia].
    + cbn [of_digits foldr]. fold (of_digits 4 l) (of_digits 8 (digit_adjacent l)).
      rewrite <- Heq. change (2 ^ 8) with 256. change (2 ^ 4) with 16.
      assert (of_digits 4 l = hd 0 l + 16 * Z.shiftr (of_digits 4 l) 4); [|lia].
      destruct l as [|c l]; [done|]. apply Forall_cons_1 in Hl as [Hc _].
      rewrite of_digits_tail by (by auto). cbn [of_digits foldr hd].
      fold (of_digits 4 l). change (2 ^ 4) with 16. lia.
    + constructor; [unfold is_u; lia|done].
    + rewrite fmap_cons, Hland. f_equal.
      change 15 with (Z.ones 4). rewrite Z.land_ones by lia. change (2 ^ 4) with 16.
      rewrite Z.mod_add by lia. apply Z.mod_small. lia.
Qed.

Lemma digit_pairs_sum l (n : nat) : length l = (2 * n)%nat ->
  foldr Z.add 0 (digit_pairs l) = foldr Z.add 0 l.
Proof.
  revert l. induction n as [|n IH]; intros l Hlen.
  - by destruct l.
  - destruct l as [|a [|b l]]; try (simpl in Hlen; lia).
    simpl. rewrite IH by (simpl in Hlen; lia). lia.
Qed.

(** What is left before the last additions, for a word of [2 * n] digits. *)
Lemma popcount_mid (n : nat) x : (0 < n)%nat -> let w := 4 * Z.of_nat (2 * n) in
  exists c, length c = n /\ Forall (fun d => 0 <= d <= 8) c /\
    foldr Z.add 0 c = bits_set (2 * n * 4) x /\
    let x1 := sx w (popcount_step1 x (of_digits 4 (replicate (2 * n) 5))) in
    let x2 := sx w (popcount_step2 x1 (of_digits 4 (replicate (2 * n) 3))) in
    Z.land (sx w (x2 + Z.shiftr x2 4)) (of_digits 8 (replicate n 15)) = of_digits 8 c.
Proof.
  intros Hn w. destruct (popcount_front (2 * n) ltac:(lia) x) as (l & Hlen & Hl & Hx & Hsx).
  fold w in Hx, Hsx. cbv zeta in Hsx |- *. rewrite Hsx.
  set (ds := digit_ones <$> l) in *.
  assert (Hds : Forall (fun d => 0 <= d <= 4) ds).
  { apply Forall_fmap. eapply Forall_impl; [|exact Hl]. intros d Hd. by apply digit_ones_spec. }
  assert (Hlds : length ds = (2 * n)%nat) by (unfold ds; by rewrite length_fmap).
  destruct (digit_adjacent_spec n ds Hlds Hds) as (Heq & Hr & Hlen' & Hland & Hp & Hlen'').
  exists (digit_pairs ds). split_and!; [done|done| |].
  - rewrite (digit_pairs_sum ds n) by done.
    transitivity (bits_set (2 * n * 4) (ux w x)).
    + rewrite <- Hx. rewrite <- Hlen at 1.
      change (of_digits 4 l) with (of_digits (Z.of_nat 4) l). rewrite bits_set_digits by done.
      unfold ds. clear -Hl. induction Hl as [|d l Hd _ IH]; [done|].
      rewrite fmap_cons. cbn [foldr]. destruct (digit_ones_spec d Hd) as (_ & -> & _). by rewrite IH.
    + apply bits_set_ext. intros i Hi. apply (testbit_eqm w); [apply eqm_ux|unfold w; lia].
  - assert (Hsmall : is_u (w - 1) (of_digits 4 ds) /\ is_u w (of_digits 4 ds)).
    { assert (Hds' : Forall (is_u 4) ds)
        by (eapply Forall_impl; [|exact Hds]; unfold is_u; intros d Hd; lia).
      split; [|unfold w; rewrite <- Hlds; by apply of_digits_bound].
      destruct ds as [|d0 ds0] eqn:E using rev_ind; [simpl in Hlds; lia|]. clear IHds0.
      assert (Happ : of_digits 4 (ds0 ++ [d0]) = of_digits 4 ds0 + d0 * 2 ^ (4 * Z.of_nat (length ds0))).
      { clear. induction ds0 as [|c ds0 IH]; cbn -[Z.pow Z.mul]; [change (2 ^ (4 * Z.of_nat 0)) with 1; lia|].
        fold (of_digits 4 (ds0 ++ [d0])). fold (of_digits 4 ds0). rewrite IH.
        replace (4 * Z.of_nat (S (length ds0))) with (4 * Z.of_nat (length ds0) + 4) by lia.
        rewrite Z.pow_add_r by lia. lia. }
      rewrite Happ. apply Forall_app in Hds' as [Hb _]. apply Forall_app in Hds as [_ Hd0].
      apply Forall_cons_1 in Hd0 as [Hd0 _]. apply of_digits_bound in Hb; [|lia].
      rewrite length_app in Hlds. simpl in Hlds. unfold is_u in *.
      replace (w - 1) with (4 * Z.of_nat (length ds0) + 3) by (unfold w; lia).
      rewrite Z.pow_add_r by lia. change (2 ^ 3) with 8.
      set (P := 2 ^ (4 * Z.of_nat (length ds0))) in *.
      pose proof (Z.mul_le_mono_nonneg_r d0 4 P ltac:(lia) ltac:(lia)).
      pose proof (Z.mul_nonneg_nonneg d0 P ltac:(lia) ltac:(lia)). lia. }
    destruct Hsmall as [Hs1 Hs2].
    rewrite (sx_id w (of_digits 4 ds)) by (lia || unfold is_s, is_u in *; lia).
    rewrite Heq, <- Hland, <- Hlen'.
    transitivity (Z.land (of_digits 8 (digit_adjacent ds)) (of_digits 8 (replicate (length (digit_adjacent ds)) 15))).
    + rewrite <- (Z.shiftr_0_r (sx _ _)), <- (Z.shiftr_0_r (of_digits 8 (digit_adjacent ds))) at 1.
      assert (Hm : is_u (w - 0) (of_digits 8 (replicate (length (digit_adjacent ds)) 15))).
      { rewrite Hlen'. replace (w - 0) with (8 * Z.of_nat (length (replicate n 15))) 
          by (rewrite length_replicate; unfold w; lia).
        apply of_digits_bound; [lia|]. apply Forall_replicate. unfold is_u. lia. }
      rewrite (land_mask_ux w 0 (sx w _)), (land_mask_ux w 0 (of_digits 8 (digit_adjacent ds))) by (done || lia).
      by rewrite ux_sx.
    + rewrite of_digits_land, zip_with_replicate;
        try (apply Forall_replicate; unfold is_u; lia); try (by rewrite length_replicate); done.
Qed.

Lemma popcount32_spec x : popcount32 x = bits_set 32 x.
Proof.
  destruct (popcount_mid 4 x ltac:(lia)) as (c & Hlen & Hc & Hsum & Heq).
  change (2 * 4 * 4)%nat with 32%nat in Hsum. rewrite <- Hsum.
  unfold popcount32. cbv zeta in Heq |- *.
  change (4 * Z.of_nat (2 * 4)) with 32 in Heq.
  unfold popcount_step1, popcount_step2 in Heq.
  change (of_digits 4 (replicate (2 * 4) 5)) with 0x55555555 in Heq.
  change (of_digits 4 (replicate (2 * 4) 3)) with 0x33333333 in Heq.
  change (of_digits 8 (replicate 4 15)) with 0x0f0f0f0f in Heq.
  rewrite Heq. clear Heq.
  destruct c as [|c0 [|c1 [|c2 [|c3 [|]]]]]; try done.
  repeat match goal with H : Forall _ (_ :: _) |- _ => apply Forall_cons_1 in H as [? ?] end.
  change (of_digits 8 [c0; c1; c2; c3]) with (c0 + (c1 + (c2 + (c3 + 0 * 256) * 256) * 256) * 256).
  cbn [foldr]. change 0x3f with (Z.ones 6). rewrite Z.land_ones by lia.
  rewrite !Z.shiftr_div_pow2 by lia.
  change (2 ^ 8) with 256. change (2 ^ 16) with 65536. change (2 ^ 6) with 64.
  repeat match goal with |- context [sx 32 ?t] =>
    rewrite (sx_id 32 t) by first [lia | unfold is_s; change (2 ^ (32 - 1)) with 0x80000000; Z.to_euclidean_division_equations; lia] end.
  Z.to_euclidean_division_equations. lia.
Qed.

(** The last additions shift by whole base-256 digits. *)
Lemma of_digits_drop k (j : nat) l : 0 <= k -> Forall (is_u k) l ->
  Z.shiftr (of_digits k l) (k * Z.of_nat j) = of_digits k (drop j l).
Proof.
  intros Hk. revert l. induction j as [|j IH]; intros l Hl.
  - rewrite drop_0, Z.mul_0_r. apply Z.shiftr_0_r.
  - replace (k * Z.of_nat (S j)) with (k + k * Z.of_nat j) by lia.
    rewrite <- Z.shiftr_shiftr by lia. destruct l as [|d l].
    + rewrite drop_nil. change (of_digits k []) with 0. by rewrite !Z.shiftr_0_l.
    + apply Forall_cons_1 in Hl as [Hd Hl]. rewrite of_digits_tail by done. by apply IH.
Qed.

(** One addition [x = x + (x >> 8 * j)] on a word of eight such digits. *)
Lemma popcount64_fold (j : nat) c0 c1 c2 c3 c4 c5 c6 c7 :
  let l := [c0; c1; c2; c3; c4; c5; c6; c7] in
  Forall (fun c => 0 <= c <= 60) l -> (j <= 8)%nat ->
  let l' := zip_with Z.add l (drop j l ++ replicate j 0) in
  sx 64 (of_digits 8 l + Z.shiftr (of_digits 8 l) (8 * Z.of_nat j)) = of_digits 8 l'.
Proof.
  intros l Hl Hj l'.
  assert (Hu : Forall (is_u 8) l) by (eapply Forall_impl; [|exact Hl]; unfold is_u; intros; lia).
  rewrite of_digits_drop by done.
  assert (Hz : of_digits 8 (drop j l) = of_digits 8 (drop j l ++ replicate j 0)).
  { clear. generalize (drop j l). intros k. induction k as [|d k IH].
    - simpl. induction j as [|j IHj]; [done|].
      cbn [replicate of_digits foldr]. fold (of_digits 8 (replicate j 0)). by rewrite <- IHj.
    - cbn [app of_digits foldr]. fold (of_digits 8 (k ++ replicate j 0)) (of_digits 8 k). by rewrite IH. }
  rewrite Hz, of_digits_add by (rewrite length_app, length_drop, length_replicate; simpl; lia).
  fold l'. apply sx_id; [lia|].
  assert (Hb : Forall (fun c => 0 <= c <= 120) l').
  { apply Forall_lookup. intros i c Hi. unfold l' in Hi.
    apply lookup_zip_with_Some in Hi as (a & b & -> & Ha & Hb).
    assert (Hl2 : Forall (fun c => 0 <= c <= 60) (drop j l ++ replicate j 0)).
    { apply Forall_app. split; [by apply Forall_drop|]. apply Forall_replicate. lia. }
    rewrite Forall_lookup in Hl, Hl2. apply Hl in Ha. apply Hl2 in Hb. lia. }
  assert (Hlen : length l' = 8%nat)
    by (unfold l'; rewrite length_zip_with, length_app, length_drop, length_replicate; change (length l) with 8%nat; lia).
  clearbody l'. clear -Hb Hlen.
  do 9 (destruct l' as [|? l']; try done).
  repeat match goal with H : Forall _ (_ :: _) |- _ => apply Forall_cons_1 in H as [? ?] end.
  unfold is_s. cbn [of_digits foldr]. change (2 ^ 8) with 256. change (2 ^ (64 - 1)) with 0x8000000000000000.
  lia.
Qed.

Lemma popcount64_spec x : popcount64 x = bits_set 64 x.
Proof.
  destruct (popcount_mid 8 x ltac:(lia)) as (c & Hlen & Hc & Hsum & Heq).
  change (2 * 8 * 4)%nat with 64%nat in Hsum. rewrite <- Hsum.
  unfold popcount64. cbv zeta in Heq |- *.
  change (4 * Z.of_nat (2 * 8)) with 64 in Heq.
  unfold popcount_step1, popcount_step2 in Heq.
  change (Z.lor 0x55555555 _) with (of_digits 4 (replicate (2 * 8) 5)).
  change (Z.lor 0x33333333 _) with (of_digits 4 (replicate (2 * 8) 3)).
  change (Z.lor 0x0f0f0f0f _) with (of_digits 8 (replicate 8 15)).
  rewrite Heq. clear Heq.
  do 9 (destruct c as [|? c]; try done).
  repeat match goal with H : Forall _ (_ :: _) |- _ => apply Forall_cons_1 in H as [? ?] end.
  rewrite (popcount64_fold 1); [|repeat (apply Forall_cons_2; [lia|]); by apply Forall_nil_2|lia]. cbn [drop replicate app zip_with].
  rewrite (popcount64_fold 2); [|repeat (apply Forall_cons_2; [lia|]); by apply Forall_nil_2|lia]. cbn [drop replicate app zip_with].
  rewrite (popcount64_fold 4); [|repeat (apply Forall_cons_2; [lia|]); by apply Forall_nil_2|lia]. cbn [drop replicate app zip_with].
  change 0x7f with (Z.ones 7). rewrite Z.land_ones by lia.
  cbn [of_digits foldr]. change (2 ^ 8) with (2 * 2 ^ 7).
  rewrite Z.mul_assoc, Z.mod_add by lia. change (2 ^ 7) with 128.
  rewrite Z.mod_small by lia. rewrite sx_id; [lia|lia|].
  unfold is_s. change (2 ^ (32 - 1)) with 0x80000000. lia.
Qed.

(** ** Trailing zeros and powers of two *)

Lemma odd_part x : x <> 0 -> exists k m, 0 <= k /\ x = 2 ^ k * (2 * m + 1).
Proof.
  intros Hx. destruct (Z.abs x) as [|n|n] eqn:E; try lia.
  assert (exists k m, 0 <= k /\ Z.pos n = 2 ^ k * (2 * m + 1)) as (k & m & Hk & Hn).
  { clear. induction n as [n IH|n IH|].
    - exists 0, (Z.pos n). lia.
    - destruct IH as (k & m & Hk & IH). exists (k + 1), m. rewrite Z.pow_add_r by lia. lia.
    - exists 0, 0. lia. }
  destruct (Z.abs_eq_or_opp x) as [Ha|Ha]; rewrite Ha in E.
  - exists k, m. lia.
  - exists k, (- m - 1). split; [done|].
    replace x with (- Z.pos n) by lia. rewrite Hn. ring.
Qed.

(** A word that is a multiple of no more than [2^k] has few trailing zeros. *)
Lemma odd_part_bound w k m : 0 < w -> 0 <= k ->
  is_s w (2 ^ k * (2 * m + 1)) -> k <= w - 1.
Proof.
  intros Hw Hk [Hlo Hhi]. destruct (decide (k <= w - 1)); [done|].
  assert (2 * 2 ^ (w - 1) <= 2 ^ k).
  { rewrite <- pow2_half by done. apply Z.pow_le_mono_r; lia. }
  pose proof (pow2_pos (w - 1) ltac:(lia)). pose proof (pow2_pos k Hk).
  destruct (Z.le_gt_cases 0 m).
  - pose proof (Z.mul_le_mono_nonneg_l 1 (2 * m + 1) (2 ^ k) ltac:(lia) ltac:(lia)). lia.
  - pose proof (Z.mul_le_mono_nonneg_l (2 * m + 1) (-1) (2 ^ k) ltac:(lia) ltac:(lia)). lia.
Qed.

Section trailing_zeros.
Context (k m : Z) (Hk : 0 <= k).
Let x := 2 ^ k * (2 * m + 1).

Lemma lnot_odd_part : Z.lnot x = Z.ones k + (- 2 * m - 2) * 2 ^ k.
Proof. unfold x, Z.lnot. rewrite Z.ones_equiv. lia. Qed.

Lemma pred_odd_part : x - 1 = Z.ones k + (2 * m) * 2 ^ k.
Proof. unfold x. rewrite Z.ones_equiv. lia. Qed.

Lemma ones_is_u j : 0 <= j -> is_u j (Z.ones j).
Proof. intros Hj. unfold is_u. rewrite Z.ones_equiv. pose proof (pow2_pos j Hj). lia. Qed.

Lemma trailing_mask : Z.land (Z.lnot x) (x - 1) = Z.ones k.
Proof.
  rewrite lnot_odd_part, pred_odd_part, land_join by (by try apply ones_is_u).
  rewrite Z.land_diag. replace (Z.land (-2 * m - 2) (2 * m)) with 0; [lia|].
  symmetry. apply Z.bits_inj'. intros i Hi. rewrite Z.land_spec, Z.bits_0.
  replace (-2 * m - 2) with (2 * (- m - 1)) by lia.
  destruct (decide (i = 0)) as [->|]; [by rewrite Z.testbit_even_0|].
  replace i with (Z.succ (i - 1)) by lia.
  rewrite !Z.testbit_even_succ by lia. replace (- m - 1) with (Z.lnot m) by (unfold Z.lnot; lia).
  rewrite Z.lnot_spec by lia. apply andb_negb_l.
Qed.

Lemma lowest_bit : Z.land (Z.lxor x (x - 1)) (Z.lnot (Z.ones k)) = 2 ^ k.
Proof.
  apply Z.bits_inj'. intros i Hi.
  rewrite Z.land_spec, Z.lnot_spec, Z.lxor_spec, pred_odd_part by done.
  rewrite testbit_join by (by try apply ones_is_u).
  rewrite Z.testbit_ones_nonneg by done. unfold x.
  destruct (Z.ltb_spec i k); [rewrite andb_false_r, Z.pow2_bits_false by lia; done|].
  rewrite decide_False by lia. rewrite andb_true_r, Z.mul_comm, Z.mul_pow2_bits by lia.
  destruct (decide (i = k)) as [->|].
  - rewrite Z.sub_diag, Z.pow2_bits_true, Z.testbit_odd_0, Z.testbit_even_0 by lia. done.
  - rewrite Z.pow2_bits_false by lia. replace (i - k) with (Z.succ (i - k - 1)) by lia.
    rewrite Z.testbit_odd_succ, Z.testbit_even_succ by lia. apply xorb_nilpotent.
Qed.
End trailing_zeros.

Lemma bits_set_ones (n : nat) k : 0 <= k <= Z.of_nat n -> bits_set n (Z.ones k) = k.
Proof.
  revert k. induction n as [|n IH]; intros k Hk; simpl; [lia|].
  rewrite Z.testbit_ones_nonneg by lia. destruct (Z.ltb_spec (Z.of_nat n) k); simpl.
  - assert (k = Z.of_nat n + 1) as -> by lia.
    rewrite (bits_set_ext n _ (Z.ones (Z.of_nat n))); [rewrite IH; lia|].
    intros i Hi. rewrite !Z.testbit_ones_nonneg by lia.
    destruct (Z.ltb_spec i (Z.of_nat n + 1)), (Z.ltb_spec i (Z.of_nat n)); lia.
  - rewrite IH; lia.
Qed.

Lemma popcount_spec w x : w = 32 \/ w = 64 -> popcount w x = bits_set (Z.to_nat w) x.
Proof.
  unfold popcount. intros [-> | ->]; case_decide; try done; [apply popcount32_spec|apply popcount64_spec].
Qed.

(** The subtraction of one under the bit operations needs no wrap-around. *)
Lemma bits_set_sx (n : nat) w x : Z.of_nat n <= w -> 0 < w -> bits_set n (sx w x) = bits_set n x.
Proof.
  intros Hn Hw. apply bits_set_ext. intros i Hi. apply (testbit_eqm w); [apply eqm_sx|lia].
Qed.

Lemma ntz_spec w k m : w = 32 \/ w = 64 -> is_s w (2 ^ k * (2 * m + 1)) -> 0 <= k ->
  ntz w (2 ^ k * (2 * m + 1)) = k.
Proof.
  intros Hw Hx Hk. assert (0 < w) by lia.
  pose proof (odd_part_bound w k m ltac:(done) Hk Hx).
  unfold ntz. rewrite popcount_spec by done.
  rewrite <- (bits_set_sx _ w) by lia. rewrite sx_land, sx_sx, <- sx_land by done.
  rewrite bits_set_sx, trailing_mask, bits_set_ones by lia. done.
Qed.

Lemma ntz_0 w : w = 32 \/ w = 64 -> ntz w 0 = w.
Proof. by intros [-> | ->]. Qed.

(** [isPowerOf2] on a nonnegative value or the lowest one, as the code sees it
    after its negation. *)
Lemma isPowerOf2_core w k m : 0 < w -> 0 <= k ->
  let d := 2 ^ k * (2 * m + 1) in is_s w d ->
  (let justrightzeros := Z.land (Z.lnot d) (sx w (d - 1)) in
   Z.land (Z.lxor d (sx w (d - 1))) (Z.lnot justrightzeros)) = sx w (2 ^ k).
Proof.
  intros Hw Hk d Hd.
  rewrite <- (sx_id w d) by done. cbv zeta.
  assert (Hm : Z.land (Z.lnot (sx w d)) (sx w (sx w d - 1)) = sx w (Z.ones k)).
  { rewrite (sx_id w d) at 2 by done.
    rewrite <- sx_lnot, <- sx_land by done. f_equal. by apply trailing_mask. }
  rewrite Hm. rewrite (sx_id w d) at 2 by done.
  rewrite <- sx_lnot, <- sx_lxor, <- sx_land by done. f_equal. by apply lowest_bit.
Qed.

(** Every power of two of the type's magnitude is found, and the only other
    value accepted is 0. *)
Lemma isPowerOf2_spec w d : 1 < w -> is_s w d ->
  isPowerOf2 w d = true <-> d = 0 \/ exists k, 0 <= k < w /\ Z.abs d = 2 ^ k.
Proof.
  intros Hw Hd. destruct (decide (d = 0)) as [->|Hd0].
  { split; [by left|]. intros _.
    change (isPowerOf2 w 0) with
      (0 =? Z.land (Z.lxor 0 (sx w (-1))) (Z.lnot (Z.land (-1) (sx w (-1))))).
    rewrite (sx_id w (-1)) by (try lia; unfold is_s; pose proof (pow2_pos (w - 1)); lia). done. }
  unfold isPowerOf2. set (e := if d <? 0 then sx w (- d) else d).
  assert (He : is_s w e) by (unfold e; case_match; [apply sx_range; lia|done]).
  assert (Hcase : (e = Z.abs d) \/ (d = - 2 ^ (w - 1) /\ e = d)).
  { unfold e, is_s in *. destruct (Z.ltb_spec d 0); [|lia].
    destruct (decide (d = - 2 ^ (w - 1))) as [->|].
    - right. split; [done|]. rewrite Z.opp_involutive. unfold sx.
      pose proof (pow2_half w ltac:(lia)) as ->.
      replace (2 ^ (w - 1) + 2 ^ (w - 1)) with (2 * 2 ^ (w - 1)) by lia.
      rewrite Z.mod_same; [lia|]. pose proof (pow2_pos (w - 1)). lia.
    - left. rewrite sx_id; [lia|lia|unfold is_s; lia]. }
  assert (e <> 0) as He0 by (pose proof (pow2_pos (w - 1)); lia).
  destruct (odd_part e He0) as (k & m & Hk & Hem).
  pose proof (odd_part_bound w k m ltac:(lia) Hk ltac:(by rewrite <- Hem)) as Hkw.
  pose proof (isPowerOf2_core w k m ltac:(lia) Hk ltac:(by rewrite <- Hem)) as Hcore.
  cbv zeta in Hcore |- *. rewrite <- Hem in Hcore. rewrite Hcore. rewrite Z.eqb_eq.
  pose proof (pow2_pos k Hk) as Hpk. pose proof (pow2_half w ltac:(lia)) as Hhalf.
  destruct (decide (k = w - 1)) as [->|Hk'].
  - assert (sx w (2 ^ (w - 1)) = - 2 ^ (w - 1)) as ->.
    { unfold sx. rewrite Hhalf. replace (2 ^ (w - 1) + 2 ^ (w - 1)) with (2 * 2 ^ (w - 1)) by lia.
      rewrite Z.mod_same; lia. }
    assert (e = - 2 ^ (w - 1)) 
      by (unfold is_s in He; destruct (Z.le_gt_cases 0 m);
          [pose proof (Z.mul_le_mono_nonneg_l 1 (2 * m + 1) (2 ^ (w - 1)) ltac:(lia) ltac:(lia))
          |pose proof (Z.mul_le_mono_nonneg_l (2 * m + 1) (-1) (2 ^ (w - 1)) ltac:(lia) ltac:(lia))]; lia).
    split; [intros _; right; exists (w - 1); lia|lia].
  - assert (2 ^ k < 2 ^ (w - 1)) by (apply Z.pow_lt_mono_r; lia).
    rewrite sx_id by (try lia; unfold is_s; lia). split.
    + intros ->. right. exists k. lia.
    + intros [?|(j & Hj & Hdj)]; [done|]. destruct Hcase as [Hc|[Hc1 Hc2]].
      * rewrite Hc, Hdj in *. f_equal.
        assert (Hb : Z.testbit (2 ^ j) k = true).
        { rewrite Hem, Z.mul_comm, Z.mul_pow2_bits, Z.sub_diag by lia. apply Z.testbit_odd_0. }
        destruct (decide (j = k)); [done|]. rewrite Z.pow2_bits_false in Hb by lia. done.
      * exfalso. assert (Hb : Z.testbit e k = true).
        { rewrite Hem, Z.mul_comm, Z.mul_pow2_bits, Z.sub_diag by lia. apply Z.testbit_odd_0. }
        rewrite Hc2, Hc1 in Hb.
        replace (- 2 ^ (w - 1)) with ((-1) * 2 ^ (w - 1)) in Hb by lia.
        rewrite Z.mul_pow2_bits, Z.testbit_neg_r in Hb by lia. done.
Qed.

(** [whichPowerOf2] gives the exponent, negated for a negative power; the
    lowest value, which is its own negation, counts as positive. *)
Lemma whichPowerOf2_spec w d k : w = 32 \/ w = 64 -> 0 <= k < w -> is_s w d ->
  Z.abs d = 2 ^ k ->
  whichPowerOf2 w d = if (d <? 0) && negb (k =? w - 1) then - k else k.
Proof.
  intros Hw Hk Hd Habs. unfold whichPowerOf2.
  pose proof (pow2_half w ltac:(lia)) as Hhalf. pose proof (pow2_pos k ltac:(lia)).
  assert (Hn : forall m, is_s w (2 ^ k * (2 * m + 1)) -> ntz w (2 ^ k * (2 * m + 1)) = k)
    by (intros; apply ntz_spec; [done|done|lia]).
  destruct (Z.ltb_spec d 0).
  - destruct (decide (k = w - 1)) as [->|].
    + assert (d = - 2 ^ (w - 1)) as -> by lia. rewrite Z.opp_involutive.
      assert (sx w (2 ^ (w - 1)) = - 2 ^ (w - 1)) as ->.
      { unfold sx. rewrite Hhalf. replace (2 ^ (w - 1) + 2 ^ (w - 1)) with (2 * 2 ^ (w - 1)) by lia.
        rewrite Z.mod_same; lia. }
      rewrite !Z.eqb_refl. simpl. specialize (Hn (-1)).
      replace (2 ^ (w - 1) * (2 * -1 + 1)) with (- 2 ^ (w - 1)) in Hn by lia. by apply Hn.
    + assert (2 ^ k < 2 ^ (w - 1)) by (apply Z.pow_lt_mono_r; lia).
      rewrite sx_id by (try lia; unfold is_s in *; lia).
      rewrite (proj2 (Z.eqb_neq d (- d))), (proj2 (Z.eqb_neq k (w - 1))) by lia. simpl.
      specialize (Hn 0). replace (2 ^ k * (2 * 0 + 1)) with (- d) in Hn by lia.
      rewrite Hn; [done|unfold is_s in *; lia].
  - simpl. specialize (Hn 0). replace (2 ^ k * (2 * 0 + 1)) with d in Hn by lia. by apply Hn.
Qed.

(** [shifttomakeOdd] ends for every nonzero word, with the odd part. *)
Lemma shifttomakeOdd_loop_spec fuel i k m : 0 <= k < Z.of_nat fuel ->
  shifttomakeOdd_loop fuel i (2 ^ k * (2 * m + 1)) = Some (i + k, 2 * m + 1).
Proof.
  revert i k. induction fuel as [|fuel IH]; intros i k Hk; [lia|]. cbn [shifttomakeOdd_loop].
  change 1 with (Z.ones 1) at 2. rewrite Z.land_ones by lia. change (2 ^ 1) with 2.
  destruct (decide (k = 0)) as [->|].
  - change (2 ^ 0) with 1. rewrite Z.mul_1_l, Z.mul_comm, Z.add_comm, Z.mod_add by lia.
    cbn -[Z.mul Z.add]. do 2 f_equal; lia.
  - assert (Hx : 2 ^ k * (2 * m + 1) = (2 ^ (k - 1) * (2 * m + 1)) * 2).
    { replace k with ((k - 1) + 1) at 1 by lia. rewrite Z.pow_add_r by lia. lia. }
    rewrite Hx, Z.mod_mul by lia. simpl (0 =? 0). cbv iota.
    rewrite Z.shiftr_div_pow2 by lia. change (2 ^ 1) with 2. rewrite Z.div_mul by lia.
    rewrite IH by lia. do 2 f_equal; lia.
Qed.

Lemma shifttomakeOdd_spec w d : 0 < w -> is_s w d -> d <> 0 ->
  exists k m, 0 <= k < w /\ d = 2 ^ k * (2 * m + 1) /\
    shifttomakeOdd w d = Some (k, 2 * m + 1).
Proof.
  intros Hw Hd Hd0. destruct (odd_part d Hd0) as (k & m & Hk & ->).
  pose proof (odd_part_bound w k m Hw Hk Hd). exists k, m. split_and!; [lia|lia|done|].
  unfold shifttomakeOdd. rewrite shifttomakeOdd_loop_spec by lia. done.
Qed.

(** ** Leading zeros *)

(** [y] has every bit of [x] smeared over the [n] places below it. *)
Definition smeared (n x y : Z) : Prop :=
  forall i, 0 <= i -> Z.testbit y i = true <-> exists j, 0 <= j < n /\ Z.testbit x (i + j) = true.

Lemma smeared_1 x : smeared 1 x x.
Proof.
  intros i Hi. split.
  - intros H. exists 0. rewrite Z.add_0_r. split; [lia|done].
  - intros (j & Hj & H). assert (j = 0) as -> by lia. by rewrite Z.add_0_r in H.
Qed.

Lemma smeared_double n x y : 0 < n -> smeared n x y -> smeared (2 * n) x (Z.lor y (Z.shiftr y n)).
Proof.
  intros Hn H i Hi. rewrite Z.lor_spec, Z.shiftr_spec, orb_true_iff, (H i), (H (i + n)) by lia. split.
  - intros [(j & Hj & Hb)|(j & Hj & Hb)].
    + exists j. split; [lia|done].
    + exists (n + j). split; [lia|]. by rewrite Z.add_assoc.
  - intros (j & Hj & Hb). destruct (decide (j < n)).
    + left. exists j. split; [lia|done].
    + right. exists (j - n). split; [lia|]. by replace (i + n + (j - n)) with (i + j) by lia.
Qed.

(** Once a whole word is smeared, what is left is the position of the highest one. *)
Lemma smeared_word w x y : 0 < w -> is_s w x -> smeared w x y ->
  y = if x <? 0 then -1 else if x =? 0 then 0 else Z.ones (Z.log2 x + 1).
Proof.
  intros Hw Hx H. apply Z.bits_inj'. intros i Hi. apply eq_true_iff_eq. etransitivity; [exact (H i Hi)|].
  destruct (Z.ltb_spec x 0); [|destruct (Z.eqb_spec x 0) as [->|]].
  - rewrite Z.bits_m1 by done. split; [done|]. intros _. exists (w - 1). split; [lia|].
    rewrite (testbit_sign w) by (done || lia). lia.
  - rewrite Z.bits_0. split; [intros (j & _ & Hb); by rewrite Z.bits_0 in Hb|done].
  - rewrite Z.testbit_ones_nonneg by (pose proof (Z.log2_nonneg x); lia).
    destruct (Z.ltb_spec i (Z.log2 x + 1)); split; try done.
    + intros _. assert (Z.log2 x < w - 1)
        by (apply Z.log2_lt_pow2; [lia|unfold is_s in Hx; lia]).
      exists (Z.log2 x - i). split; [lia|]. replace (i + (Z.log2 x - i)) with (Z.log2 x) by lia.
      apply Z.bit_log2. lia.
    + intros (j & Hj & Hb). rewrite Z.bits_above_log2 in Hb by lia. done.
Qed.

Lemma bits_set_lnot (n : nat) x : bits_set n (Z.lnot x) = Z.of_nat n - bits_set n x.
Proof.
  induction n as [|n IH]; simpl bits_set; [done|]. rewrite IH, Z.lnot_spec by lia.
  destruct (Z.testbit x (Z.of_nat n)); simpl; lia.
Qed.

Lemma nlz_word (n : nat) x y : is_s (Z.of_nat (S n)) x -> smeared (Z.of_nat (S n)) x y ->
  bits_set (S n) (Z.lnot y) =
  if x <? 0 then 0 else if x =? 0 then Z.of_nat (S n) else Z.of_nat n - Z.log2 x.
Proof.
  intros Hx Hy. rewrite bits_set_lnot, (smeared_word (Z.of_nat (S n)) x y ltac:(lia) Hx Hy).
  destruct (Z.ltb_spec x 0); [|destruct (Z.eqb_spec x 0)].
  - rewrite (bits_set_ext _ _ (Z.ones (Z.of_nat (S n)))), bits_set_ones; [lia|lia|].
    intros i Hi. rewrite Z.bits_m1, Z.testbit_ones_nonneg by lia. symmetry. apply Z.ltb_lt. lia.
  - change 0 with (Z.ones 0) at 1. rewrite bits_set_ones; lia.
  - assert (Z.log2 x < Z.of_nat (S n) - 1) by (apply Z.log2_lt_pow2; [lia|unfold is_s in Hx; lia]).
    pose proof (Z.log2_nonneg x). rewrite bits_set_ones; lia.
Qed.

Lemma nlz32_spec x : is_s 32 x ->
  nlz32 x = if x <? 0 then 0 else if x =? 0 then 32 else 31 - Z.log2 x.
Proof.
  intros Hx. unfold nlz32. rewrite popcount32_spec. apply (nlz_word 31 x); [done|].
  apply (smeared_double 16), (smeared_double 8), (smeared_double 4), (smeared_double 2),
      (smeared_double 1), smeared_1; lia.
Qed.

Lemma nlz64_spec x : is_s 64 x ->
  nlz64 x = if x <? 0 then 0 else if x =? 0 then 64 else 63 - Z.log2 x.
Proof.
  intros Hx. unfold nlz64. rewrite popcount64_spec. apply (nlz_word 63 x); [done|].
  apply (smeared_double 32), (smeared_double 16), (smeared_double 8), (smeared_double 4),
      (smeared_double 2), (smeared_double 1), smeared_1; lia.
Qed.

Lemma leftmost1_word w x y : 1 < w -> is_s w x -> x <> 0 -> smeared w x y ->
  sx w (Z.shiftr y 1 + 1) = if x <=? 0 then 0 else 2 ^ Z.log2 x.
Proof.
  intros Hw Hx Hx0 Hy. rewrite (smeared_word w x y ltac:(lia) Hx Hy).
  destruct (Z.ltb_spec x 0), (Z.leb_spec x 0); try lia; [|destruct (Z.eqb_spec x 0); [done|]].
  - change (Z.shiftr (-1) 1 + 1) with 0. apply sx_id; [lia|apply is_s_0; lia].
  - assert (Z.log2 x < w - 1) by (apply Z.log2_lt_pow2; [lia|unfold is_s in Hx; lia]).
    pose proof (Z.log2_nonneg x).
    assert (2 ^ Z.log2 x < 2 ^ (w - 1)) by (apply Z.pow_lt_mono_r; lia).
    pose proof (pow2_pos (Z.log2 x) ltac:(lia)).
    assert (Z.shiftr (Z.ones (Z.log2 x + 1)) 1 = Z.ones (Z.log2 x)) as ->.
    { apply Z.bits_inj'. intros i Hi. rewrite Z.shiftr_spec, !Z.testbit_ones_nonneg by lia. lia. }
    rewrite Z.ones_equiv. rewrite sx_id; [lia|lia|unfold is_s; lia].
Qed.

(** [leftmost1] isolates the highest one of a positive value (and gives 0 for
    every negative one). *)
Lemma leftmost1_32_spec x : is_s 32 x ->
  leftmost1_32 x = if x <=? 0 then 0 else 2 ^ Z.log2 x.
Proof.
  intros Hx. unfold leftmost1_32.
  destruct (Z.eqb_spec x 1) as [->|]; [done|]. destruct (Z.eqb_spec x 0) as [->|]; [done|].
  apply leftmost1_word; [lia|done|done|].
  apply (smeared_double 16), (smeared_double 8), (smeared_double 4), (smeared_double 2),
      (smeared_double 1), smeared_1; lia.
Qed.

Lemma leftmost1_64_spec x : is_s 64 x ->
  leftmost1_64 x = if x <=? 0 then 0 else 2 ^ Z.log2 x.
Proof.
  intros Hx. unfold leftmost1_64.
  destruct (Z.eqb_spec x 1) as [->|]; [done|]. destruct (Z.eqb_spec x 0) as [->|]; [done|].
  apply leftmost1_word; [lia|done|done|].
  apply (smeared_double 32), (smeared_double 16), (smeared_double 8), (smeared_double 4),
      (smeared_double 2), (smeared_double 1), smeared_1; lia.
Qed.

(** ** What the bit tricks promise *)

(** C20: for every divisor but 0, 1, -1 and the lowest number, the search for the
    magic number ends, and multiplying by it, keeping the high word, adjusting
    and shifting is division, for every dividend. *)
Theorem getMagic_correct w d : w = 32 \/ w = 64 -> is_s w d ->
  d <> - 2 ^ (w - 1) -> 1 < Z.abs d ->
  exists m s, getMagic w d = Some (m, s) /\ is_s w m /\ 0 <= s <= w - 2 /\
    forall n, is_s w n ->
      let q := magic_adjusted w d m n / 2 ^ s in
      Z.quot n d = q + (if (if d <? 0 then q else n) <? 0 then 1 else 0).
Proof.
  intros Hw Hd Hmin Hd1.
  destruct (getMagic_divides w d ltac:(lia) Hd Hmin ltac:(lia)) as (m & s & Hm & Hr & Hs & Hq).
  exists m, s. do 3 (split; [done|]). intros n Hn. by apply Hq.
Qed.

Lemma getMagic_correct_witness :
  exists m s, getMagic 32 7 = Some (m, s) /\ is_s 32 m /\ 0 <= s <= 32 - 2 /\
    forall n, is_s 32 n ->
      let q := magic_adjusted 32 7 m n / 2 ^ s in
      Z.quot n 7 = q + (if (if 7 <? 0 then q else n) <? 0 then 1 else 0).
Proof. apply (getMagic_correct 32 7); [by left|by vm_compute|by vm_compute|by vm_compute]. Defined.

(** both population counts count the ones of the word. *)
Theorem popcount_counts w x : w = 32 \/ w = 64 ->
  popcount w x = bits_set (Z.to_nat w) x.
Proof. apply popcount_spec. Qed.

Lemma popcount_counts_witness : popcount 64 (-2) = 63 /\ popcount 64 (-2) = bits_set (Z.to_nat 64) (-2).
Proof. split; [by vm_compute|exact (popcount_counts 64 (-2) (or_intror eq_refl))]. Defined.

(** [isPowerOf2] accepts 0 and the numbers [2^k] and [-2^k], and
    [whichPowerOf2] finds the exponent, negated for the negative ones but the
    lowest. *)
Theorem isPowerOf2_which w d : w = 32 \/ w = 64 -> is_s w d ->
  (isPowerOf2 w d = true <-> d = 0 \/ exists k, 0 <= k < w /\ Z.abs d = 2 ^ k) /\
  (forall k, 0 <= k < w -> Z.abs d = 2 ^ k ->
     whichPowerOf2 w d = if (d <? 0) && negb (k =? w - 1) then - k else k).
Proof.
  intros Hw Hd. split; [apply isPowerOf2_spec; [lia|done]|].
  intros k Hk Hdk. by apply whichPowerOf2_spec.
Qed.

Lemma isPowerOf2_which_witness :
  (isPowerOf2 32 (-8) = true <-> -8 = 0 \/ exists k, 0 <= k < 32 /\ Z.abs (-8) = 2 ^ k) /\
  (forall k, 0 <= k < 32 -> Z.abs (-8) = 2 ^ k ->
     whichPowerOf2 32 (-8) = if (-8 <? 0) && negb (k =? 32 - 1) then - k else k).
Proof. apply (isPowerOf2_which 32 (-8)); [by left|by vm_compute]. Defined.

(** trailing and leading zeros, the highest one and the odd part of a word. *)
Theorem zero_counts w x : w = 32 \/ w = 64 -> is_s w x -> 0 < x ->
  (exists k m, x = 2 ^ k * (2 * m + 1) /\ 0 <= k < w /\ ntz w x = k /\
     shifttomakeOdd w x = Some (k, 2 * m + 1)) /\
  (if decide (w = 32) then nlz32 x else nlz64 x) = w - 1 - Z.log2 x /\
  (if decide (w = 32) then leftmost1_32 x else leftmost1_64 x) = 2 ^ Z.log2 x.
Proof.
  intros Hw Hx Hpos. split; [|split].
  - destruct (shifttomakeOdd_spec w x) as (k & m & Hk & -> & Ho); [lia|done|lia|].
    exists k, m. split_and!; try done; try lia. apply ntz_spec; [done|done|lia].
  - destruct Hw as [-> | ->]; case_decide; try done;
      [rewrite nlz32_spec by done|rewrite nlz64_spec by done];
      destruct (Z.ltb_spec x 0), (Z.eqb_spec x 0); lia.
  - destruct Hw as [-> | ->]; case_decide; try done;
      [rewrite leftmost1_32_spec by done|rewrite leftmost1_64_spec by done];
      destruct (Z.leb_spec x 0); lia.
Qed.

Lemma zero_counts_witness :
  (exists k m, 40 = 2 ^ k * (2 * m + 1) /\ 0 <= k < 64 /\ ntz 64 40 = k /\
     shifttomakeOdd 64 40 = Some (k, 2 * m + 1)) /\
  (if decide (64 = 32) then nlz32 40 else nlz64 40) = 64 - 1 - Z.log2 40 /\
  (if decide (64 = 32) then leftmost1_32 40 else leftmost1_64 40) = 2 ^ Z.log2 40.
Proof. apply (zero_counts 64 40); [by right|by vm_compute|by vm_compute]. Defined.
