(* ===== verification/IR.v ===== *)
(** * The intermediate representation of the optimiser

    Type tags ([shared/Type.h]), opcodes and modifiers ([optimizer/Opcode.h]),
    constants and instructions ([optimizer/Inst.h]).  An operand is named by
    the position of the instruction that defines it; a program is the list of
    instructions made so far, which code generation only extends. *)
From S2P Require Import Prelude.

(** ** Type tags *)

Inductive Tag :=
  (* value types *)
  | Tau | Void | Boolean | Char
  | IntPtr | Int8 | Int16 | Int32 | Int64
  | UIntPtr | UInt8 | UInt16 | UInt32 | UInt64
  | Single | Double | Float | TypedReference
  | Value | Offset | OffsetPlusHeapbase
  (* reference types *)
  | SystemObject | SystemClass | SystemString | NullObject | UnresolvedObject
  | TArray | Object | BoxedValue
  | UnmanagedPtr | ManagedPtr | MethodPtr | VTablePtr
  (* compressed references *)
  | CompressedSystemObject | CompressedSystemClass | CompressedSystemString
  | CompressedNullObject | CompressedUnresolvedObject
  | CompressedArray | CompressedObject | CompressedMethodPtr | CompressedVTablePtr
  | OrNull | VTablePtrObj | ITablePtrObj | ArrayLength | ArrayElementType | SingletonTag.

#[export] Instance Tag_eq_dec : EqDecision Tag.
Proof. solve_decision. Defined.

Definition tag_eqb (a b : Tag) : bool := bool_decide (a = b).

(** The place of a tag in the enumeration, which the range tests compare. *)
Definition tag_index (t : Tag) : nat :=
  match t with
  | Tau => 0 | Void => 1 | Boolean => 2 | Char => 3
  | IntPtr => 4 | Int8 => 5 | Int16 => 6 | Int32 => 7 | Int64 => 8
  | UIntPtr => 9 | UInt8 => 10 | UInt16 => 11 | UInt32 => 12 | UInt64 => 13
  | Single => 14 | Double => 15 | Float => 16 | TypedReference => 17
  | Value => 18 | Offset => 19 | OffsetPlusHeapbase => 20
  | SystemObject => 21 | SystemClass => 22 | SystemString => 23 | NullObject => 24
  | UnresolvedObject => 25 | TArray => 26 | Object => 27 | BoxedValue => 28
  | UnmanagedPtr => 29 | ManagedPtr => 30 | MethodPtr => 31 | VTablePtr => 32
  | CompressedSystemObject => 33 | CompressedSystemClass => 34 | CompressedSystemString => 35
  | CompressedNullObject => 36 | CompressedUnresolvedObject => 37
  | CompressedArray => 38 | CompressedObject => 39 | CompressedMethodPtr => 40
  | CompressedVTablePtr => 41
  | OrNull => 42 | VTablePtrObj => 43 | ITablePtrObj => 44 | ArrayLength => 45
  | ArrayElementType => 46 | SingletonTag => 47
  end.

Definition tag_between (lo t hi : Tag) : bool :=
  (tag_index lo <=? tag_index t)%nat && (tag_index t <=? tag_index hi)%nat.

Definition isInteger (t : Tag) : bool := tag_between IntPtr t UInt64.
Definition isSignedInteger (t : Tag) : bool := tag_between IntPtr t Int64.
Definition isUnsignedInteger (t : Tag) : bool := tag_between UIntPtr t UInt64.
Definition isFloatingPoint (t : Tag) : bool := tag_between Single t Float.
Definition isObject (t : Tag) : bool :=
  tag_between SystemObject t Object || tag_between CompressedSystemObject t CompressedObject.

(** [POINTER64] is the build's pointer size. *)
Section pointer_size.
Context (POINTER64 : bool).

Definition isIntegerOf4Signed (t : Tag) : bool :=
  if POINTER64 then tag_eqb t Int32 else tag_eqb t Int32 || tag_eqb t IntPtr.
Definition isIntegerOf4Unsigned (t : Tag) : bool :=
  if POINTER64 then tag_eqb t UInt32 else tag_eqb t UInt32 || tag_eqb t UIntPtr.
Definition isIntegerOf8Signed (t : Tag) : bool :=
  if POINTER64 then tag_eqb t Int64 || tag_eqb t IntPtr else tag_eqb t Int64.
Definition isIntegerOf8Unsigned (t : Tag) : bool :=
  if POINTER64 then tag_eqb t UInt64 || tag_eqb t UIntPtr else tag_eqb t UInt64.
Definition isIntegerOf4Bytes (t : Tag) : bool :=
  isIntegerOf4Signed t || isIntegerOf4Unsigned t.
Definition isIntegerOf8Bytes (t : Tag) : bool :=
  isIntegerOf8Signed t || isIntegerOf8Unsigned t.
End pointer_size.

(** ** Opcodes *)

Inductive Opcode :=
  | Op_Add | Op_Mul | Op_Sub | Op_TauDiv | Op_TauRem | Op_Neg | Op_MulHi
  | Op_Min | Op_Max | Op_Abs | Op_And | Op_Or | Op_Xor | Op_Not | Op_Select
  | Op_Conv | Op_ConvZE | Op_ConvUnmanaged | Op_Shladd | Op_Shl | Op_Shr
  | Op_Cmp | Op_Cmp3
  | Op_Branch | Op_Jump | Op_Switch | Op_DirectCall | Op_TauVirtualCall | Op_IndirectCall
  | Op_IndirectMemoryCall | Op_JitHelperCall | Op_VMHelperCall | Op_Return
  | Op_Catch | Op_Throw | Op_PseudoThrow | Op_ThrowSystemException | Op_ThrowLinkingException
  | Op_JSR | Op_Ret | Op_SaveRet | Op_Copy | Op_DefArg
  | Op_LdConstant | Op_LdRef | Op_LdVar | Op_LdVarAddr | Op_TauLdInd | Op_TauLdField
  | Op_LdStatic | Op_TauLdElem | Op_LdFieldAddr | Op_LdStaticAddr | Op_LdElemAddr
  | Op_TauLdVTableAddr | Op_TauLdIntfcVTableAddr | Op_TauLdVirtFunAddr
  | Op_TauLdVirtFunAddrSlot | Op_LdFunAddr | Op_LdFunAddrSlot
  | Op_GetVTableAddr | Op_GetClassObj
  | Op_TauArrayLen | Op_LdArrayBaseAddr | Op_AddScaledIndex
  | Op_StVar | Op_TauStInd | Op_TauStField | Op_TauStElem | Op_TauStStatic | Op_TauStRef
  | Op_TauCheckBounds | Op_TauCheckLowerBound | Op_TauCheckUpperBound | Op_TauCheckNull
  | Op_TauCheckZero | Op_TauCheckDivOpnds | Op_TauCheckElemType | Op_TauCheckFinite
  | Op_NewObj | Op_NewArray | Op_NewMultiArray
  | Op_TauMonitorEnter | Op_TauMonitorExit | Op_TypeMonitorEnter | Op_TypeMonitorExit
  | Op_LdLockAddr | Op_IncRecCount | Op_TauBalancedMonitorEnter | Op_BalancedMonitorExit
  | Op_TauOptimisticBalancedMonitorEnter | Op_OptimisticBalancedMonitorExit
  | Op_MonitorEnterFence | Op_MonitorExitFence
  | Op_TauStaticCast | Op_TauCast | Op_TauAsType | Op_TauInstanceOf | Op_InitType
  | Op_Label | Op_MethodEntry | Op_MethodEnd | Op_Phi | Op_TauPi
  | Op_IncCounter | Op_Prefetch | Op_UncompressRef | Op_CompressRef
  | Op_LdFieldOffset | Op_LdFieldOffsetPlusHeapbase | Op_LdArrayBaseOffset
  | Op_LdArrayBaseOffsetPlusHeapbase | Op_LdArrayLenOffset | Op_LdArrayLenOffsetPlusHeapbase
  | Op_AddOffset | Op_AddOffsetPlusHeapbase
  | Op_TauPoint | Op_TauEdge | Op_TauAnd | Op_TauUnsafe | Op_TauSafe
  | Op_TauCheckCast | Op_TauHasType | Op_TauHasExactType | Op_TauIsNonNull | Op_IdentHC.

#[export] Instance Opcode_eq_dec : EqDecision Opcode.
Proof. solve_decision. Defined.

Definition op_eqb (a b : Opcode) : bool := bool_decide (a = b).

(** ** Modifiers: bit fields of one word *)

Inductive OverflowModifier := Overflow_None | Overflow_Signed | Overflow_Unsigned.
Inductive SignedModifier := SignedOp | UnsignedOp.
Inductive ComparisonModifier :=
  | Cmp_EQ | Cmp_NE_Un | Cmp_GT | Cmp_GT_Un | Cmp_GTE | Cmp_GTE_Un | Cmp_Zero | Cmp_NonZero.
Inductive ShiftMaskModifier := ShiftMask_None | ShiftMask_Masked.

Definition overflow_bits (m : OverflowModifier) : Z :=
  match m with Overflow_None => 0x1 | Overflow_Signed => 0x2 | Overflow_Unsigned => 0x3 end.
Definition signed_bits (m : SignedModifier) : Z :=
  match m with SignedOp => Z.shiftl 0x1 2 | UnsignedOp => Z.shiftl 0x2 2 end.
Definition comparison_bits (m : ComparisonModifier) : Z :=
  Z.shiftl (match m with
            | Cmp_EQ => 0x1 | Cmp_NE_Un => 0x2 | Cmp_GT => 0x3 | Cmp_GT_Un => 0x4
            | Cmp_GTE => 0x5 | Cmp_GTE_Un => 0x6 | Cmp_Zero => 0x7 | Cmp_NonZero => 0x8
            end) 4.
Definition shiftmask_bits (m : ShiftMaskModifier) : Z :=
  match m with ShiftMask_None => Z.shiftl 0x1 8 | ShiftMask_Masked => Z.shiftl 0x2 8 end.
Definition Strict_No : Z := Z.shiftl 0x1 10.
Definition Exception_Never : Z := Z.shiftl 0x3 17.

Definition Overflow_Mask : Z := 0x3.
Definition Signed_Mask : Z := Z.shiftl 0x3 2.
Definition Cmp_Mask : Z := Z.shiftl 0xf 4.
Definition ShiftMask_Mask : Z := Z.shiftl 0x3 8.

(** A [Modifier] is the word [value]. *)
Definition Modifier : Type := Z.

Definition hasOverflowModifier (m : Modifier) : bool := negb (Z.land m Overflow_Mask =? 0).
Definition getOverflowModifier (m : Modifier) : Z := Z.land m Overflow_Mask.
Definition hasSignedModifier (m : Modifier) : bool := negb (Z.land m Signed_Mask =? 0).
Definition getSignedModifier (m : Modifier) : Z := Z.land m Signed_Mask.
Definition getComparisonModifier (m : Modifier) : Z := Z.land m Cmp_Mask.
Definition getShiftMaskModifier (m : Modifier) : Z := Z.land m ShiftMask_Mask.

Definition isSigned (m : Modifier) : bool :=
  if hasSignedModifier m then getSignedModifier m =? signed_bits SignedOp
  else if hasOverflowModifier m then
    let omod := getOverflowModifier m in
    (omod =? overflow_bits Overflow_None) || (omod =? overflow_bits Overflow_Signed)
  else false.

(** The comparison a modifier word holds. *)
Definition comparison_of (m : Modifier) : option ComparisonModifier :=
  match Z.shiftr (getComparisonModifier m) 4 with
  | 1 => Some Cmp_EQ | 2 => Some Cmp_NE_Un | 3 => Some Cmp_GT | 4 => Some Cmp_GT_Un
  | 5 => Some Cmp_GTE | 6 => Some Cmp_GTE_Un | 7 => Some Cmp_Zero | 8 => Some Cmp_NonZero
  | _ => None
  end.

(** The modifiers that generated arithmetic and shifts carry. *)
Definition mod_arith : Modifier :=
  Z.lor (Z.lor (overflow_bits Overflow_None) Exception_Never) Strict_No.
Definition mod_shift (s : SignedModifier) : Modifier :=
  Z.lor (signed_bits s) (shiftmask_bits ShiftMask_None).

(** ** Constants: a union of eight bytes *)

Definition ConstValue : Type := Z.

Definition cv_zero : ConstValue := 0.
Definition get_i4 (v : ConstValue) : Z := sx 32 v.
Definition get_i8 (v : ConstValue) : Z := sx 64 v.
Definition get_s (v : ConstValue) : Z := ux 32 v.
Definition get_d (v : ConstValue) : Z := ux 64 v.
Definition get_i (v : ConstValue) : Z := ux 64 v.

(** Writing a member of four bytes keeps the upper four. *)
Definition set_low (v x : Z) : ConstValue := ux 32 x + (v / 2 ^ 32) * 2 ^ 32.
Definition set_i4 (v : ConstValue) (x : Z) : ConstValue := set_low v x.
Definition set_s (v : ConstValue) (x : Z) : ConstValue := set_low v x.
Definition set_i8 (v : ConstValue) (x : Z) : ConstValue := ux 64 x.
Definition set_d (v : ConstValue) (x : Z) : ConstValue := ux 64 x.

Lemma eqm_set_low v x : set_low v x ≡[32] x.
Proof. unfold set_low. rewrite eqm_add_mul. apply eqm_ux. Qed.

Lemma get_set_i4 v x : get_i4 (set_i4 v x) = sx 32 x.
Proof. apply eqm_sx_iff, eqm_set_low. Qed.

Lemma get_set_s v x : get_s (set_s v x) = ux 32 x.
Proof. apply eqm_ux_iff, eqm_set_low. Qed.

Lemma get_set_i8 v x : get_i8 (set_i8 v x) = sx 64 x.
Proof. apply sx_ux. Qed.

Lemma get_set_d v x : get_d (set_d v x) = ux 64 x.
Proof. apply ux_ux. Qed.

(** ** Instructions and programs *)

Record Inst := MkInst {
  i_opcode : Opcode;
  i_mod : Modifier;
  i_type : Tag;              (* [getType()], the type of the operation *)
  i_dtype : Tag;             (* the type of the operand it defines *)
  i_srcs : list nat;
  i_value : ConstValue;      (* the member of the subclass, the value of a [ConstInst] *)
}.

Abbreviation Opnd := nat.
Abbreviation prog := (list Inst).

Definition isConst (i : Inst) : bool := op_eqb (i_opcode i) Op_LdConstant.
Definition asConstInst (i : Inst) : option Inst := if isConst i then Some i else None.
Definition getNumSrcOperands (i : Inst) : nat := length (i_srcs i).
Definition getSrc (i : Inst) (n : nat) : option Opnd := i_srcs i !! n.

(** [opnd->getInst()], [opnd->getType()->tag] *)
Definition getInst (p : prog) (o : Opnd) : option Inst := p !! o.
Definition opnd_type (p : prog) (o : Opnd) : option Tag := i_dtype <$> p !! o.
