(* ===== verification/ConstFold.v ===== *)
(** * Constant folding: [optimizer/constantfolder.cpp]

    Each folder takes the result word it writes as an argument and returns it
    with the C function's [bool].  Integer constants are signed [Z] of their
    width; a [float] or [double] constant is its word. *)
From Stdlib Require Import SpecFloat.
From S2P Require Import Prelude Floats JavaArith IR.

(** ** C conversions between floating point and integers *)

Definition minint (w : Z) : Z := - 2 ^ (w - 1).
Definition maxint (w : Z) : Z := 2 ^ (w - 1) - 1.
Definition maxuint (w : Z) : Z := 2 ^ w - 1.
(** [maxuintasfloat], a [double] literal *)
Definition maxuintasfloat (w : Z) : Z := of_int binary64 (2 ^ w - 1).

Definition zero (F : format) : Z := of_int F 0.

Definition float2int (w : Z) (F : format) (f : Z) : Z :=
  if fnan F f then 0
  else if ffinite F f && (fltb F (of_int F (minint w)) f && fltb F f (of_int F (maxint w)))
  then sx w (ftrunc F f)
  else if fltb F f (zero F) then minint w
  else maxint w.

(** A [float] is promoted to [double] to be compared with the bound. *)
Definition float2uint (w : Z) (F : format) (s : Z) : Z :=
  if fnan F s || fltb F s (zero F) then 0
  else if ffinite F s && fltb binary64 (fconv F binary64 s) (maxuintasfloat w)
  then ux w (ftrunc F s)
  else maxuint w.

Definition _chgsign (F : format) (f : Z) : Z :=
  fcopysign F f (if fsignbit F f then of_int F 1 else of_int F (-1)).

(** ** High words of products *)

(** [mulhu<uint64, U_32, 32>]: a product of two half words is computed in the
    half word's type. *)
Definition mulhu (h u v : Z) : Z :=
  let u0 := ux h u in
  let u1 := ux h (Z.shiftr u h) in
  let v0 := ux h v in
  let v1 := ux h (Z.shiftr v h) in
  let t := ux h (u0 * v0) in
  let t := ux h (u1 * v0) in
  let w1 := ux h t in
  let k := Z.shiftr t h in
  let w2 := ux h k in
  let t := ux h (ux h (u0 * v1) + w1) in
  let k := Z.shiftr t h in
  let t := ux (2 * h) (ux h (ux h (u1 * v1) + w2) + k) in
  let w2 := ux h t in
  let k := Z.shiftr t h in
  let w3 := ux h k in
  Z.lor (ux (2 * h) (Z.shiftl w3 h)) w2.

(** [mulhs<int64, uint64, 32>]: mixed products are unsigned and convert back. *)
Definition mulhs (h u v : Z) : Z :=
  let w := 2 * h in
  let halfmask := Z.shiftr (2 ^ w - 1) h in
  let u0 := ux w (Z.land (ux w u) halfmask) in
  let u1 := Z.shiftr u h in
  let v0 := ux w (Z.land (ux w v) halfmask) in
  let v1 := Z.shiftr v h in
  let w0 := ux w (u0 * v0) in
  let t := sx w (ux w (ux w (ux w u1 * v0) + Z.shiftr w0 h)) in
  let w1 := sx w (Z.land (ux w t) halfmask) in
  let w2 := Z.shiftr t h in
  let w1 := sx w (ux w (ux w (u0 * ux w v1) + ux w w1)) in
  sx w (sx w (sx w (u1 * v1) + w2) + Z.shiftr w1 h).

(** ** Binary operations *)

Definition fold8 (opc : Opcode) (c1 c2 : Z) (result : Z) (is_signed : bool) : bool * Z :=
  match opc with
  | Op_Add => (true, c1 + c2)
  | Op_Sub => (true, c1 - c2)
  | Op_And => (true, Z.land c1 c2)
  | Op_Or => (true, Z.lor c1 c2)
  | Op_Xor => (true, Z.lxor c1 c2)
  | Op_Mul => if is_signed then (true, c1 * c2) else (true, ux 8 c1 * ux 8 c2)
  | Op_TauDiv =>
      if c2 =? 0 then (false, result)
      else if is_signed then (true, Z.quot c1 c2) else (true, ux 8 c1 / ux 8 c2)
  | Op_TauRem =>
      if c2 =? 0 then (false, result)
      else if is_signed then (true, Z.rem c1 c2) else (true, ux 8 c1 mod ux 8 c2)
  | Op_MulHi => (true, sx 8 (Z.shiftr (c1 * c2) 8))
  | Op_Min => (true, Z.min c1 c2)
  | Op_Max => (true, Z.max c1 c2)
  | _ => (true, result)
  end.

Definition fold16 (opc : Opcode) (c1 c2 : Z) (result : Z) (is_signed : bool) : bool * Z :=
  match opc with
  | Op_Add => (true, c1 + c2)
  | Op_Sub => (true, c1 - c2)
  | Op_And => (true, Z.land c1 c2)
  | Op_Or => (true, Z.lor c1 c2)
  | Op_Xor => (true, Z.lxor c1 c2)
  | Op_Mul => if is_signed then (true, c1 * c2) else (true, sx 32 (ux 16 c1 * ux 16 c2))
  | Op_TauDiv =>
      if c2 =? 0 then (false, result)
      else if is_signed then (true, Z.quot c1 c2) else (true, ux 16 c1 / ux 16 c2)
  | Op_TauRem =>
      if c2 =? 0 then (false, result)
      else if is_signed then (true, Z.rem c1 c2) else (true, ux 16 c1 mod ux 16 c2)
  | Op_MulHi => (true, Z.shiftr (sx 16 (c1 * c2)) 16)
  | Op_Min => (true, Z.min c1 c2)
  | Op_Max => (true, Z.max c1 c2)
  | _ => (true, result)
  end.

Definition fold32 (opc : Opcode) (c1 c2 : Z) (result : Z) (is_signed : bool) : bool * Z :=
  match opc with
  | Op_Add => (true, sx 32 (c1 + c2))
  | Op_Sub => (true, sx 32 (c1 - c2))
  | Op_And => (true, Z.land c1 c2)
  | Op_Or => (true, Z.lor c1 c2)
  | Op_Xor => (true, Z.lxor c1 c2)
  | Op_Mul =>
      if is_signed then (true, sx 32 (c1 * c2))
      else (true, sx 32 (ux 32 (ux 32 c1 * ux 32 c2)))
  | Op_TauDiv =>
      if c2 =? 0 then (false, result)
      else if is_signed then
        if (c1 =? sx 32 0x80000000) && (c2 =? -1) then (true, c1) else (true, Z.quot c1 c2)
      else (true, sx 32 (ux 32 c1 / ux 32 c2))
  | Op_TauRem =>
      if c2 =? 0 then (false, result)
      else if is_signed then
        if (c1 =? sx 32 0x80000000) && (c2 =? -1) then (true, 0) else (true, Z.rem c1 c2)
      else (true, sx 32 (ux 32 c1 mod ux 32 c2))
  | Op_MulHi =>
      let res := c1 * c2 in
      let res2 := sx 32 (Z.shiftr res 32) in
      (true, sx 32 res2)
  | Op_Min => (true, Z.min c1 c2)
  | Op_Max => (true, Z.max c1 c2)
  | _ => (false, result)
  end.

Definition fold64 (opc : Opcode) (c1 c2 : Z) (result : Z) (is_signed : bool) : bool * Z :=
  match opc with
  | Op_Add => (true, sx 64 (c1 + c2))
  | Op_Sub => (true, sx 64 (c1 - c2))
  | Op_And => (true, Z.land c1 c2)
  | Op_Or => (true, Z.lor c1 c2)
  | Op_Xor => (true, Z.lxor c1 c2)
  | Op_Mul =>
      if is_signed then (true, sx 64 (c1 * c2))
      else (true, sx 64 (ux 64 (ux 64 c1 * ux 64 c2)))
  | Op_TauDiv =>
      if c2 =? 0 then (false, result)
      else if (c2 =? -1) && (c1 =? sx 64 (Z.shiftl 1 63)) then (true, c1)
      else if is_signed then (true, Z.quot c1 c2)
      else (true, sx 64 (ux 64 c1 / ux 64 c2))
  | Op_TauRem =>
      if c2 =? 0 then (false, result)
      else if (c2 =? -1) && (c1 =? sx 64 (Z.shiftl 1 63)) then (true, 0)
      else if is_signed then (true, Z.rem c1 c2)
      else (true, sx 64 (ux 64 c1 mod ux 64 c2))
  | Op_MulHi =>
      if is_signed then (true, mulhs 32 c1 c2)
      else (true, sx 64 (mulhu 32 (ux 64 c1) (ux 64 c2)))
  | Op_Min => (true, Z.min c1 c2)
  | Op_Max => (true, Z.max c1 c2)
  | _ => (false, result)
  end.

(** [foldSingle] and [foldDouble] are the same text at the two formats. *)
Definition fold_fp (F : format) (opc : Opcode) (c1 c2 : Z) (result : Z) : bool * Z :=
  match opc with
  | Op_Add => (true, fadd F c1 c2)
  | Op_Sub => (true, fsub F c1 c2)
  | Op_Mul => (true, fmul F c1 c2)
  | Op_TauDiv => if feqb F c2 (zero F) then (false, result) else (true, fdiv F c1 c2)
  | _ => (false, result)
  end.
Definition foldSingle : Opcode -> Z -> Z -> Z -> bool * Z := fold_fp binary32.
Definition foldDouble : Opcode -> Z -> Z -> Z -> bool * Z := fold_fp binary64.

(** ** Unary operations *)

Definition fold8_1 (opc : Opcode) (c : Z) (result : Z) : bool * Z :=
  match opc with
  | Op_Not => (true, Z.lnot c)
  | Op_Neg => (true, - c)
  | Op_Abs => (true, if c <? 0 then - c else c)
  | _ => (false, result)
  end.
Definition fold16_1 : Opcode -> Z -> Z -> bool * Z := fold8_1.

Definition fold32_1 (opc : Opcode) (c : Z) (result : Z) : bool * Z :=
  match opc with
  | Op_Not => (true, Z.lnot c)
  | Op_Neg => (true, sx 32 (- c))
  | Op_Abs => (true, if c <? 0 then sx 32 (- c) else c)
  | _ => (false, result)
  end.

Definition fold64_1 (opc : Opcode) (c : Z) (result : Z) : bool * Z :=
  match opc with
  | Op_Not => (true, Z.lnot c)
  | Op_Neg => (true, sx 64 (- c))
  | Op_Abs => (true, if c <? 0 then sx 64 (- c) else c)
  | _ => (false, result)
  end.

Definition fold_fp_1 (F : format) (opc : Opcode) (c : Z) (result : Z) : bool * Z :=
  if op_eqb Op_Neg opc then (true, _chgsign F c) else (false, result).
Definition foldSingle_1 : Opcode -> Z -> Z -> bool * Z := fold_fp_1 binary32.
Definition foldDouble_1 : Opcode -> Z -> Z -> bool * Z := fold_fp_1 binary64.

(** ** Conversions *)

Section foldConv.
Context (POINTER64 : bool).

(** [case Type::Int32], and [Type::IntPtr] with it: the macro that the
    [#ifndef] there tests, [PONTER64], is defined nowhere. *)
Definition foldConv_Int32 (fromType : Tag) (ovfm : bool) (src res : ConstValue) : bool * ConstValue :=
  if isInteger fromType then
    if isIntegerOf4Signed POINTER64 fromType then (true, set_i4 res (get_i4 src))
    else if isIntegerOf4Unsigned POINTER64 fromType then
      let res := set_i4 res (get_i4 src) in
      if ovfm && (get_i4 src <? 0) then (false, res) else (true, res)
    else if isIntegerOf8Signed POINTER64 fromType then
      let res := set_i4 res (get_i8 src) in
      if ovfm && negb (get_i8 src =? get_i4 res) then (false, res) else (true, res)
    else if isIntegerOf8Unsigned POINTER64 fromType then
      let res := set_i4 res (ux 64 (get_i8 src)) in
      if ovfm && negb (ux 64 (get_i8 src) =? ux 64 (get_i4 res)) then (false, res) else (true, res)
    else (false, res)
  else if tag_eqb fromType Single then
    let res := set_i4 res (float2int 32 binary32 (get_s src)) in
    if ovfm && negb (feqb binary32 (get_s src) (of_int binary32 (get_i4 res)))
    then (false, res) else (true, res)
  else if tag_eqb fromType Double then
    let res := set_i4 res (float2int 32 binary64 (get_d src)) in
    if ovfm && negb (feqb binary64 (get_d src) (of_int binary64 (get_i4 res)))
    then (false, res) else (true, res)
  else (false, res).

Definition foldConv_UInt32 (fromType : Tag) (ovfm : bool) (src res : ConstValue) : bool * ConstValue :=
  if isInteger fromType then
    if isIntegerOf4Bytes POINTER64 fromType then (true, set_i4 res (get_i4 src))
    else if isIntegerOf8Signed POINTER64 fromType then
      let res := set_i4 res (ux 32 (get_i8 src)) in
      if ovfm && negb (get_i8 src =? ux 32 (get_i4 res)) then (false, res) else (true, res)
    else if isIntegerOf8Unsigned POINTER64 fromType then
      let res := set_i4 res (ux 32 (ux 64 (get_i8 src))) in
      if ovfm && negb (ux 64 (get_i8 src) =? ux 32 (get_i4 res)) then (false, res) else (true, res)
    else (false, res)
  else if tag_eqb fromType Single then
    let res := set_i4 res (float2uint 32 binary32 (get_s src)) in
    if ovfm && negb (feqb binary32 (get_s src) (of_int binary32 (ux 32 (get_i4 res))))
    then (false, res) else (true, res)
  else if tag_eqb fromType Double then
    let res := set_i4 res (float2uint 32 binary64 (get_d src)) in
    if ovfm && negb (feqb binary64 (get_d src) (of_int binary64 (ux 32 (get_i4 res))))
    then (false, res) else (true, res)
  else (false, res).

Definition foldConv_Int64 (fromType : Tag) (ovfm : bool) (src res : ConstValue) : bool * ConstValue :=
  if isInteger fromType then
    if isIntegerOf4Signed POINTER64 fromType then (true, set_i8 res (get_i4 src))
    else if isIntegerOf4Unsigned POINTER64 fromType then
      let res := set_i8 res (ux 32 (get_i4 src)) in
      if ovfm && (get_i4 src <? 0) then (false, res) else (true, res)
    else if isIntegerOf8Signed POINTER64 fromType then (true, set_i8 res (get_i8 src))
    else if isIntegerOf8Unsigned POINTER64 fromType then
      let res := set_i8 res (get_i8 src) in
      if ovfm && (get_i8 src <? 0) then (false, res) else (true, res)
    else (false, res)
  else if tag_eqb fromType Single then
    let res := set_i8 res (float2int 64 binary32 (get_s src)) in
    if ovfm && negb (feqb binary32 (get_s src) (of_int binary32 (get_i8 res)))
    then (false, res) else (true, res)
  else if tag_eqb fromType Double then
    let res := set_i8 res (float2int 64 binary64 (get_d src)) in
    if ovfm && negb (feqb binary64 (get_d src) (of_int binary64 (get_i8 res)))
    then (false, res) else (true, res)
  else (false, res).

Definition foldConv_UInt64 (fromType : Tag) (ovfm : bool) (src res : ConstValue) : bool * ConstValue :=
  if isInteger fromType then
    if isIntegerOf4Signed POINTER64 fromType then
      let res := set_i8 res (ux 32 (get_i4 src)) in
      if ovfm && (get_i4 src <? 0) then (false, res) else (true, res)
    else if isIntegerOf4Unsigned POINTER64 fromType then (true, set_i8 res (ux 32 (get_i4 src)))
    else if isIntegerOf8Bytes POINTER64 fromType then (true, set_i8 res (get_i8 src))
    else (false, res)
  else if tag_eqb fromType Single then
    let res := set_i8 res (float2uint 64 binary32 (get_s src)) in
    if ovfm then (false, res) else (true, res)
  else (false, res).

Definition foldConv_Single (fromType : Tag) (ovfm : bool) (src res : ConstValue) : bool * ConstValue :=
  match fromType with
  | Int32 => (true, set_s res (of_int binary32 (get_i4 src)))
  | UInt32 => (true, set_s res (of_int binary32 (ux 32 (get_i4 src))))
  | Int64 =>
      let res := set_s res (of_int binary32 (get_i8 src)) in
      if ovfm && negb (get_i8 src =? float2int 64 binary32 (get_s res))
      then (false, res) else (true, res)
  | Single => (true, set_s res (get_s src))
  | Double =>
      let res := set_s res (fconv binary64 binary32 (get_d src)) in
      if ovfm && negb (feqb binary64 (get_d src) (fconv binary32 binary64 (get_s res)))
      then (false, res) else (true, res)
  | _ => (false, res)
  end.

Definition foldConv_Double (fromType : Tag) (src res : ConstValue) : bool * ConstValue :=
  match fromType with
  | Int32 => (true, set_d res (of_int binary64 (get_i4 src)))
  | UInt32 => (true, set_d res (of_int binary64 (ux 32 (get_i4 src))))
  | Int64 => (true, set_d res (of_int binary64 (get_i8 src)))
  | Single => (true, set_d res (fconv binary32 binary64 (get_s src)))
  | Double => (true, set_d res (get_d src))
  | _ => (false, res)
  end.

Definition foldConv (fromType toType : Tag) (mod_ : Modifier) (src res : ConstValue)
  : bool * ConstValue :=
  let ovfm := negb (getOverflowModifier mod_ =? overflow_bits Overflow_None) in
  match toType with
  | Int32 | IntPtr => foldConv_Int32 fromType ovfm src res
  | UInt32 | UIntPtr => foldConv_UInt32 fromType ovfm src res
  | Int64 => foldConv_Int64 fromType ovfm src res
  | UInt64 => foldConv_UInt64 fromType ovfm src res
  | Single => foldConv_Single fromType ovfm src res
  | Double => foldConv_Double fromType src res
  | UnmanagedPtr => (isIntegerOf4Bytes POINTER64 fromType, res)
  | _ => (false, res)
  end.
End foldConv.

(** ** Comparisons *)

Definition c_bool (b : bool) : Z := if b then 1 else 0.

(** [foldCmp32] and [foldCmp64] at their widths *)
Definition fold_cmp (w : Z) (mod_ : ComparisonModifier) (c1 c2 : Z) (result : Z) : bool * Z :=
  match mod_ with
  | Cmp_EQ => (true, c_bool (c1 =? c2))
  | Cmp_NE_Un => (true, c_bool (negb (c1 =? c2)))
  | Cmp_GT => (true, c_bool (c2 <? c1))
  | Cmp_GT_Un => (true, c_bool (ux w c2 <? ux w c1))
  | Cmp_GTE => (true, c_bool (c2 <=? c1))
  | Cmp_GTE_Un => (true, c_bool (ux w c2 <=? ux w c1))
  | _ => (false, result)
  end.
Definition foldCmp32 : ComparisonModifier -> Z -> Z -> Z -> bool * Z := fold_cmp 32.
Definition foldCmp64 : ComparisonModifier -> Z -> Z -> Z -> bool * Z := fold_cmp 64.

(** References compare as unsigned addresses. *)
Definition foldCmpRef (mod_ : ComparisonModifier) (c1 c2 : Z) (result : Z) : bool * Z :=
  match mod_ with
  | Cmp_EQ => (true, c_bool (c1 =? c2))
  | Cmp_NE_Un => (true, c_bool (negb (c1 =? c2)))
  | Cmp_GT | Cmp_GT_Un => (true, c_bool (c2 <? c1))
  | Cmp_GTE | Cmp_GTE_Un => (true, c_bool (c2 <=? c1))
  | _ => (false, result)
  end.

Definition cmp_eqb (a b : ComparisonModifier) : bool := comparison_bits a =? comparison_bits b.

(** [foldCmpSingle] and [foldCmpDouble] *)
Definition fold_cmp_fp (F : format) (mod_ : ComparisonModifier) (c1 c2 : Z) (result : Z) : bool * Z :=
  match mod_ with
  | Cmp_EQ =>
      if fnan F c1 || fnan F c2 then (true, 0) else (true, c_bool (feqb F c1 c2))
  | Cmp_NE_Un =>
      if fnan F c1 || fnan F c2 then (true, 1) else (true, c_bool (negb (feqb F c1 c2)))
  | Cmp_GT | Cmp_GT_Un =>
      if fnan F c1 || fnan F c2 then (true, c_bool (cmp_eqb mod_ Cmp_GT_Un))
      else (true, c_bool (fltb F c2 c1))
  | Cmp_GTE | Cmp_GTE_Un =>
      if fnan F c1 || fnan F c2 then (true, c_bool (cmp_eqb mod_ Cmp_GTE_Un))
      else (true, c_bool (fleb F c2 c1))
  | _ => (false, result)
  end.
Definition foldCmpSingle : ComparisonModifier -> Z -> Z -> Z -> bool * Z := fold_cmp_fp binary32.
Definition foldCmpDouble : ComparisonModifier -> Z -> Z -> Z -> bool * Z := fold_cmp_fp binary64.

(** The unary [foldCmp32], [foldCmp64] and [foldCmpRef] *)
Definition fold_cmp_1 (mod_ : ComparisonModifier) (c : Z) (result : Z) : bool * Z :=
  match mod_ with
  | Cmp_Zero => (true, c_bool (c =? 0))
  | Cmp_NonZero => (true, c_bool (negb (c =? 0)))
  | _ => (false, result)
  end.

(** Writing the result member of the caller's union. *)
Definition ret_i4 (res : ConstValue) (f : Z -> bool * Z) : bool * ConstValue :=
  let '(ok, x) := f (get_i4 res) in (ok, set_i4 res x).
Definition ret_i8 (res : ConstValue) (f : Z -> bool * Z) : bool * ConstValue :=
  let '(ok, x) := f (get_i8 res) in (ok, set_i8 res x).
Definition ret_s (res : ConstValue) (f : Z -> bool * Z) : bool * ConstValue :=
  let '(ok, x) := f (get_s res) in (ok, set_s res x).
Definition ret_d (res : ConstValue) (f : Z -> bool * Z) : bool * ConstValue :=
  let '(ok, x) := f (get_d res) in (ok, set_d res x).

Definition foldCmp_1 (cmpTypeTag : Tag) (mod_ : ComparisonModifier) (val result : ConstValue)
  : bool * ConstValue :=
  match cmpTypeTag with
  | Int32 | UInt32 => ret_i4 result (fold_cmp_1 mod_ (get_i4 val))
  | Int64 | UInt64 => ret_i4 result (fold_cmp_1 mod_ (get_i8 val))
  | _ =>
      if isObject cmpTypeTag then ret_i4 result (fold_cmp_1 mod_ (get_i val))
      else (false, result)
  end.

Definition foldCmp (cmpTypeTag : Tag) (mod_ : ComparisonModifier) (val1 val2 result : ConstValue)
  : bool * ConstValue :=
  match cmpTypeTag with
  | Int32 | UInt32 => ret_i4 result (foldCmp32 mod_ (get_i4 val1) (get_i4 val2))
  | Int64 | UInt64 => ret_i4 result (foldCmp64 mod_ (get_i8 val1) (get_i8 val2))
  | Single => ret_i4 result (foldCmpSingle mod_ (get_s val1) (get_s val2))
  | Double => ret_i4 result (foldCmpDouble mod_ (get_d val1) (get_d val2))
  | _ => (false, result)
  end.

(** ** Dispatch on the type *)

Section foldConstant.
Context (POINTER64 : bool).

Definition foldConstant (type : Tag) (opc : Opcode) (val1 val2 result : ConstValue)
  (is_signed : bool) : bool * ConstValue :=
  match type with
  | Int8 | UInt8 =>
      ret_i4 result (fun r => fold8 opc (sx 8 (get_i4 val1)) (sx 8 (get_i4 val2)) r is_signed)
  | Int16 | UInt16 =>
      ret_i4 result (fun r => fold16 opc (sx 16 (get_i4 val1)) (sx 16 (get_i4 val2)) r is_signed)
  | Int32 | UInt32 => ret_i4 result (fun r => fold32 opc (get_i4 val1) (get_i4 val2) r is_signed)
  | Int64 | UInt64 => ret_i8 result (fun r => fold64 opc (get_i8 val1) (get_i8 val2) r is_signed)
  | IntPtr | UIntPtr =>
      if POINTER64
      then ret_i8 result (fun r => fold64 opc (get_i8 val1) (get_i8 val2) r is_signed)
      else ret_i4 result (fun r => fold32 opc (get_i4 val1) (get_i4 val2) r is_signed)
  | Single => ret_s result (foldSingle opc (get_s val1) (get_s val2))
  | Double => ret_d result (foldDouble opc (get_d val1) (get_d val2))
  | _ => (false, result)
  end.

Definition foldConstant_1 (type : Tag) (opc : Opcode) (val result : ConstValue)
  : bool * ConstValue :=
  match type with
  | Int32 | UInt32 => ret_i4 result (fold32_1 opc (get_i4 val))
  | Int64 | UInt64 => ret_i8 result (fold64_1 opc (get_i8 val))
  | Single => ret_s result (foldSingle_1 opc (get_s val))
  | Double => ret_d result (foldDouble_1 opc (get_d val))
  | _ => (false, result)
  end.

(** [fold]: [None] where the code would follow a null pointer. *)
Definition fold (p : prog) (inst : Inst) (result : ConstValue) : option (bool * ConstValue) :=
  match i_srcs inst with
  | [] => Some (false, result)
  | s0 :: rest =>
      i0 ← getInst p s0;
      match asConstInst i0 with
      | None => Some (false, result)
      | Some c0 =>
          match rest with
          | [] =>
              if op_eqb (i_opcode inst) Op_Cmp then
                m ← comparison_of (i_mod inst);
                Some (foldCmp_1 (i_type c0) m (i_value c0) result)
              else Some (foldConstant_1 (i_type inst) (i_opcode inst) (i_value c0) result)
          | s1 :: rest =>
              i1 ← getInst p s1;
              match asConstInst i1 with
              | None => Some (false, result)
              | Some c1 =>
                  match rest with
                  | [] =>
                      if op_eqb (i_opcode inst) Op_Cmp then
                        m ← comparison_of (i_mod inst);
                        Some (foldCmp (i_type inst) m (i_value c0) (i_value c1) result)
                      else
                        Some (foldConstant (i_type inst) (i_opcode inst) (i_value c0)
                                (i_value c1) result (isSigned (i_mod inst)))
                  | _ => Some (false, result)
                  end
              end
          end
      end
  end.
End foldConstant.

(** ** Predicates on constants *)

Definition isConstant (p : prog) (o : Opnd) : bool :=
  match getInst p o with Some i => isConst i | None => false end.

Definition isConstantZero_inst (i : Inst) : bool :=
  let value := i_value i in
  match i_type i with
  | Int8 | UInt8 | Int16 | UInt16 | Int32 | UInt32 => get_i4 value =? 0
  | UInt64 | Int64 => get_i8 value =? 0
  | IntPtr => get_i value =? 0
  | NullObject => true
  | TArray | Object => get_i value =? 0
  | _ => false
  end.

Definition isConstantOne_inst (i : Inst) : bool :=
  match i_type i with
  | Int32 => get_i4 (i_value i) =? 1
  | Int64 => get_i8 (i_value i) =? 1
  | _ => false
  end.

Definition isConstantAllOnes_inst (i : Inst) : bool :=
  match i_type i with
  | Int32 => get_i4 (i_value i) =? -1
  | Int64 => get_i8 (i_value i) =? -1
  | _ => false
  end.

(** The tests on operands: false for an operand that is not a constant. *)
Definition const_test (f : Inst -> bool) (p : prog) (o : Opnd) : bool :=
  match getInst p o with
  | Some i => match asConstInst i with Some c => f c | None => false end
  | None => false
  end.
Definition isConstantZero : prog -> Opnd -> bool := const_test isConstantZero_inst.
Definition isConstantOne : prog -> Opnd -> bool := const_test isConstantOne_inst.
Definition isConstantAllOnes : prog -> Opnd -> bool := const_test isConstantAllOnes_inst.

(** [isConstant(Inst*, I_32&)] and its [int64] and [ConstValue] overloads *)
Definition isConstant_i4 (i : Inst) : option Z :=
  if isConst i && tag_eqb (i_type i) Int32 then Some (get_i4 (i_value i)) else None.
Definition isConstant_i8 (i : Inst) : option Z :=
  if isConst i && tag_eqb (i_type i) Int64 then Some (get_i8 (i_value i)) else None.
Definition isConstant_cv (i : Inst) : option ConstValue :=
  if isConst i then Some (i_value i) else None.

Definition hasConstant (p : prog) (i : Inst) : bool :=
  match getSrc i 0, getSrc i 1 with
  | Some a, Some b => isConstant p a || isConstant p b
  | _, _ => false
  end.

(** ** Integer folding is Java arithmetic *)

(** The folded opcodes that are Java instructions. *)
Definition jop (opc : Opcode) : option binop :=
  match opc with
  | Op_Add => Some JAdd | Op_Sub => Some JSub | Op_Mul => Some JMul
  | Op_TauDiv => Some JDiv | Op_TauRem => Some JRem
  | Op_And => Some JAnd | Op_Or => Some JOr | Op_Xor => Some JXor
  | _ => None
  end.

Lemma quot_guarded w a b : 0 < w -> is_s w a -> b <> 0 -> ~ (a = int_min w /\ b = -1) ->
  java_quot w a b = Z.quot a b.
Proof. intros. apply sx_id; [done|]. by apply quot_range. Qed.

Lemma rem_m1 a : Z.rem a (-1) = 0.
Proof. change (-1) with (- (1)). rewrite Z.rem_opp_r by done. apply Z.rem_1_r. Qed.

Definition fold_result (o : option Z) (result : Z) : bool * Z :=
  match o with Some v => (true, v) | None => (false, result) end.

Lemma fold32_java opc op c1 c2 result : jop opc = Some op -> is_s 32 c1 -> is_s 32 c2 ->
  fold32 opc c1 c2 result true = fold_result (java_binop 32 op c1 c2) result.
Proof.
  intros Hop H1 H2. destruct opc; simplify_eq/=; try done;
    destruct (Z.eqb_spec c2 0); try done;
    destruct (decide (c1 = int_min 32 /\ c2 = -1)) as [[-> ->]|Hn]; try done.
  all: assert (Hg : (c1 =? sx 32 0x80000000) && (c2 =? -1) = false)
      by (apply andb_false_iff; change (sx 32 0x80000000) with (int_min 32);
          destruct (Z.eqb_spec c1 (int_min 32)), (Z.eqb_spec c2 (-1)); tauto);
    rewrite Hg; simpl; try done.
  by rewrite quot_guarded.
Qed.

Lemma fold64_java opc op c1 c2 result : jop opc = Some op -> is_s 64 c1 -> is_s 64 c2 ->
  fold64 opc c1 c2 result true = fold_result (java_binop 64 op c1 c2) result.
Proof.
  intros Hop H1 H2. destruct opc; simplify_eq/=; try done;
    destruct (Z.eqb_spec c2 0); try done;
    destruct (decide (c1 = int_min 64 /\ c2 = -1)) as [[-> ->]|Hn]; try done.
  all: assert (Hg : (c2 =? -1) && (c1 =? sx 64 (Z.shiftl 1 63)) = false)
      by (apply andb_false_iff; change (sx 64 (Z.shiftl 1 63)) with (int_min 64);
          destruct (Z.eqb_spec c1 (int_min 64)), (Z.eqb_spec c2 (-1)); tauto);
    rewrite Hg; simpl; try done.
  by rewrite quot_guarded.
Qed.

(** ** High words *)

Section mulhs_exact.
Context (h : Z) (Hh : 1 < h).
Let w := 2 * h.
Let B := 2 ^ h.

Lemma half_base : 2 ^ w = B * B /\ 2 ^ (w - 1) = B * 2 ^ (h - 1) /\ B = 2 * 2 ^ (h - 1) /\ 2 <= 2 ^ (h - 1).
Proof.
  unfold w, B. split_and!.
  - rewrite <- Z.pow_add_r by lia. f_equal. lia.
  - rewrite <- Z.pow_add_r by lia. f_equal. lia.
  - apply pow2_half. lia.
  - change 2 with (2 ^ 1) at 1. apply Z.pow_le_mono_r; lia.
Qed.

(** The upper half word of a signed word. *)
Lemma half_high u : is_s w u -> is_s h (u / B).
Proof.
  destruct half_base as (HW & HW1 & HB & HP). intros Hu.
  unfold is_s in *.
    pose proof (Z.div_mod u B ltac:(lia)). pose proof (Z.mod_pos_bound u B ltac:(lia)).
    rewrite HW1 in Hu. set (P := 2 ^ (h - 1)) in *. set (q := u / B) in *.
    assert (B * (- P - 1) < B * q) as ?%Z.mul_lt_mono_pos_l by lia; [|lia].
    assert (B * q < B * P) as ?%Z.mul_lt_mono_pos_l by lia; lia.
Qed.

Lemma shiftr_half x : Z.shiftr x h = x / B.
Proof. by rewrite Z.shiftr_div_pow2 by lia. Qed.

Lemma land_half x : Z.land x (Z.shiftr (2 ^ w - 1) h) = x mod B.
Proof.
  destruct half_base as (HW & HW1 & HB & HP).
  assert (Z.shiftr (2 ^ w - 1) h = Z.ones h) as ->.
  { rewrite shiftr_half, HW, Z.ones_equiv. fold B.
    symmetry. apply Z.div_unique_pos with (B - 1); lia. }
  by rewrite Z.land_ones by lia.
Qed.

Lemma half_is_u x : 0 <= x < B -> is_u w x.
Proof. destruct half_base as (HW & HW1 & HB & HP). unfold is_u. rewrite HW. nia. Qed.


Lemma mulhs_spec u v : is_s w u -> is_s w v -> mulhs h u v = (u * v) / 2 ^ w.
Proof.
  destruct half_base as (HW & HW1 & HB & HP). intros Hu Hv.
  unfold mulhs. fold w. rewrite !land_half, !shiftr_half.
  assert (Hmod : forall x, ux w x mod B = x mod B).
  { intros x. apply eqm_mod, (eqm_weaken h w); [unfold w; lia|apply eqm_ux]. }
  assert (Hmod' : forall x, sx w x mod B = x mod B).
  { intros x. apply eqm_mod, (eqm_weaken h w); [unfold w; lia|apply eqm_sx]. }
  pose proof (half_high u Hu) as Hu1. pose proof (half_high v Hv) as Hv1.
  set (u1 := u / B) in *. set (v1 := v / B) in *.
  rewrite (Hmod u), (Hmod v). set (u0 := u mod B). set (v0 := v mod B).
  assert (Hu0 : 0 <= u0 < B) by (apply Z.mod_pos_bound; lia).
  assert (Hv0 : 0 <= v0 < B) by (apply Z.mod_pos_bound; lia).
  rewrite (ux_id w u0), (ux_id w v0) by (by apply half_is_u).
  set (P := 2 ^ (h - 1)) in *. unfold is_s in Hu1, Hv1. fold P in Hu1, Hv1.
  (* w0 = u0 * v0 *)
  assert (Hw0 : 0 <= u0 * v0 <= (B - 1) * (B - 1)) by (split; [|apply Z.mul_le_mono_nonneg]; lia).
  rewrite (ux_id w (u0 * v0)) by (unfold is_u; rewrite HW; lia).
  set (k0 := u0 * v0 / B).
  assert (Hk0 : 0 <= k0 < B) by (unfold k0; split; [apply Z.div_pos|apply Z.div_lt_upper_bound]; lia).
  (* t = u1 * v0 + k0 *)
  assert (Ht : sx w (ux w (ux w (ux w u1 * v0) + k0)) = u1 * v0 + k0).
  { transitivity (sx w (u1 * v0 + k0)).
    - apply eqm_sx_iff. by rewrite !eqm_ux.
    - apply sx_id; [unfold w; lia|]. unfold is_s. rewrite HW1. fold P.
      assert (- P * (B - 1) <= u1 * v0 <= (P - 1) * (B - 1)) by nia. lia. }
  rewrite Ht, Hmod.
  set (t := u1 * v0 + k0) in *. set (t0 := t mod B). set (w2 := t / B).
  assert (Ht0 : 0 <= t0 < B) by (apply Z.mod_pos_bound; lia).
  assert (Hs : forall x, 0 <= x < B -> is_s w x) by (intros x Hx; unfold is_s; rewrite HW1; nia).
  rewrite (sx_id w t0) by (unfold w; lia || by apply Hs).
  (* w1 = u0 * v1 + t0 *)
  assert (Hw1 : sx w (ux w (ux w (u0 * ux w v1) + ux w t0)) = u0 * v1 + t0).
  { transitivity (sx w (u0 * v1 + t0)).
    - apply eqm_sx_iff. by rewrite !eqm_ux.
    - apply sx_id; [unfold w; lia|]. unfold is_s. rewrite HW1. fold P.
      assert (- P * (B - 1) <= u0 * v1 <= (P - 1) * (B - 1)) by nia. lia. }
  rewrite Hw1. set (w1 := u0 * v1 + t0) in *.
  assert (Hres : u * v / 2 ^ w = u1 * v1 + w2 + w1 / B).
  { pose proof (Z.div_mod u B ltac:(lia)) as Eu. pose proof (Z.div_mod v B ltac:(lia)) as Ev.
    pose proof (Z.div_mod (u0 * v0) B ltac:(lia)) as E0. pose proof (Z.div_mod t B ltac:(lia)) as Et.
    pose proof (Z.div_mod w1 B ltac:(lia)) as E1.
    fold u1 u0 in Eu. fold v1 v0 in Ev. fold k0 in E0. fold w2 t0 in Et.
    pose proof (Z.mod_pos_bound (u0 * v0) B ltac:(lia)). pose proof (Z.mod_pos_bound w1 B ltac:(lia)).
    set (r0 := (u0 * v0) mod B) in *. set (r1 := w1 mod B) in *. set (q := w1 / B) in *.
    symmetry. apply Z.div_unique_pos with (B * r1 + r0); [rewrite HW; nia|].
    rewrite Eu, Ev, HW.
    replace ((B * u1 + u0) * (B * v1 + v0)) with
      (B * B * (u1 * v1) + B * ((t - k0) + (w1 - t0)) + u0 * v0) by (unfold t, w1; ring).
    rewrite E0, Et, E1. ring. }
  rewrite Hres. transitivity (sx w (u1 * v1 + w2 + w1 / B)).
  - apply eqm_sx_iff. by rewrite !eqm_sx.
  - rewrite <- Hres. apply sx_id; [unfold w; lia|]. unfold is_s in *. rewrite HW1 in *. rewrite HW. fold P in Hu, Hv |- *.
    set (M := B * P) in *. assert (0 <= M) by (unfold M; nia).
    assert (Hp : - (M * M) <= u * v <= M * M).
    { pose proof (Z.mul_le_mono_nonneg (Z.abs u) M (Z.abs v) M ltac:(lia) ltac:(lia) ltac:(lia) ltac:(lia)) as Ha.
      rewrite <- Z.abs_mul in Ha. lia. }
    assert (HM : M * M = P * P * (B * B)) by (unfold M; ring).
    split.
    + apply Z.div_le_lower_bound; [nia|]. unfold M in *. nia.
    + apply Z.div_lt_upper_bound; [nia|]. unfold M in *. nia.
Qed.
End mulhs_exact.

(** The exact high word fits. *)
Lemma high_word_range w u v : 0 < w -> is_s w u -> is_s w v -> is_s w ((u * v) / 2 ^ w).
Proof.
  intros Hw Hu Hv. unfold is_s in *. rewrite (pow2_half w Hw).
  pose proof (pow2_pos (w - 1) ltac:(lia)). set (P := 2 ^ (w - 1)) in *. clearbody P.
  pose proof (Z.mul_le_mono_nonneg (Z.abs u) P (Z.abs v) P ltac:(lia) ltac:(lia) ltac:(lia) ltac:(lia)) as Ha.
  rewrite <- Z.abs_mul in Ha. assert (0 < P * P) by (apply Z.mul_pos_pos; lia).
  split; [apply Z.div_le_lower_bound|apply Z.div_lt_upper_bound]; lia.
Qed.

Lemma fold32_mulhi c1 c2 result b : is_s 32 c1 -> is_s 32 c2 ->
  fold32 Op_MulHi c1 c2 result b = (true, (c1 * c2) / 2 ^ 32).
Proof.
  intros H1 H2. cbn [fold32]. rewrite sx_sx, Z.shiftr_div_pow2, sx_id; [done|done| |done].
  by apply high_word_range.
Qed.

Lemma fold64_mulhi c1 c2 result : is_s 64 c1 -> is_s 64 c2 ->
  fold64 Op_MulHi c1 c2 result true = (true, (c1 * c2) / 2 ^ 64).
Proof.
  intros H1 H2. cbn [fold64]. f_equal. by apply (mulhs_spec 32).
Qed.

(** ** Saturating conversions *)

Section float2int_java.
Context (F : format) (HF : format_ok F) (w hi : Z) (Hw : 1 < w).
Context (Hlo : decode F (of_int F (minint w)) =
               binary_normalize (prec F) (emax F) (minint w) 0 false).
Context (Hhi : decode F (of_int F (maxint w)) =
               binary_normalize (prec F) (emax F) hi 0 false).
Context (Hhi' : maxint w <= hi <= 2 ^ (w - 1)).
Context (Hp : 2 ^ (w - 1) < 2 ^ prec F \/
              (valid F (binary_normalize (prec F) (emax F) (minint w) 0 false) = true /\
               finite (binary_normalize (prec F) (emax F) (minint w) 0 false) = true /\
               scaled F (binary_normalize (prec F) (emax F) (minint w) 0 false) = minint w * funit F /\
               valid F (binary_normalize (prec F) (emax F) hi 0 false) = true /\
               finite (binary_normalize (prec F) (emax F) hi 0 false) = true /\
               scaled F (binary_normalize (prec F) (emax F) hi 0 false) = hi * funit F)).

Lemma bound_numbers : forall n, n = minint w \/ n = hi ->
  let x := binary_normalize (prec F) (emax F) n 0 false in
  valid F x = true /\ finite x = true /\ scaled F x = n * funit F.
Proof.
  pose proof (pow2_pos (w - 1) ltac:(lia)).
  destruct Hp as [Hp'|(H1 & H2 & H3 & H4 & H5 & H6)].
  - intros n Hn. apply of_int_exact; [done|]. unfold minint, maxint in *. lia.
  - intros n [-> | ->]; done.
Qed.

Lemma funit_pos : 0 < funit F.
Proof. apply pow2_pos. destruct (format_facts F HF) as (? & ? & _). unfold femin, emin. lia. Qed.

Lemma float2int_java_at f : is_u (fw F) f -> float2int w F f = java_f2i w F f.
Proof.
  intros Hf. unfold float2int, java_f2i, fnan, ffinite, fltb, ftrunc.
  rewrite Hlo, Hhi. pose proof (decode_valid F HF f Hf) as Hv.
  destruct (bound_numbers (minint w) ltac:(by left)) as (Vl & Fl & Sl).
  destruct (bound_numbers hi ltac:(by right)) as (Vh & Fh & Sh).
  pose proof funit_pos as Hu.
  assert (HP : 2 ^ 1 <= 2 ^ (w - 1)) by (apply Z.pow_le_mono_r; lia). change (2 ^ 1) with 2 in HP.
  assert (Hz : decode F (zero F) = S754_zero false).
  { unfold zero, of_int. simpl binary_normalize. by rewrite (decode_to_word F HF). }
  assert (Hfin : finite (decode F f) = true ->
    (if SFltb (binary_normalize (prec F) (emax F) (minint w) 0 false) (decode F f) &&
        SFltb (decode F f) (binary_normalize (prec F) (emax F) hi 0 false)
     then sx w (SFtrunc (decode F f))
     else if SFltb (decode F f) (decode F (zero F)) then minint w else maxint w) =
    clamp (int_min w) (int_max w) (SFtrunc (decode F f))).
  { intros Hff. rewrite !(SFltb_scaled F HF) by (rewrite ?Hz; done).
    rewrite (SFtrunc_scaled F HF) by done. rewrite Sl, Sh, Hz. cbn [scaled].
    set (x := scaled F (decode F f)) in *. set (u := funit F) in *.
    unfold minint, maxint, int_min, int_max, clamp in *.
    destruct (Z.ltb_spec (- 2 ^ (w - 1) * u) x); cbn [andb].
    - destruct (Z.ltb_spec x (hi * u)).
      + pose proof (quot_le u x hi Hu). pose proof (quot_ge u x (- 2 ^ (w - 1)) Hu).
        rewrite sx_id by (unfold is_s; lia). lia.
      + assert (hi <= Z.quot x u)
          by (rewrite Z.quot_div_nonneg by nia; apply Z.div_le_lower_bound; lia).
        destruct (Z.ltb_spec x 0); [nia|lia].
    - assert (Z.quot x u <= - 2 ^ (w - 1)).
      { replace x with (- (- x)) by lia. rewrite Z.quot_opp_l, Z.quot_div_nonneg by nia.
        pose proof (Z.div_le_lower_bound (- x) u (2 ^ (w - 1))). lia. }
      destruct (Z.ltb_spec x 0); [lia|nia]. }
  destruct (decode F f) as [s|s| |s m e]; try done.
  - by rewrite <- Hfin.
  - rewrite Hz. by destruct s.
  - by rewrite <- Hfin.
Qed.
End float2int_java.

Lemma float2int_java w F f : (w = 32 \/ w = 64) -> (F = binary32 \/ F = binary64) ->
  is_u (fw F) f -> float2int w F f = java_f2i w F f.
Proof.
  intros [-> | ->] [-> | ->] Hf.
  - apply (float2int_java_at _ binary32_ok 32 (2 ^ 31)); try done. right. by vm_compute.
  - apply (float2int_java_at _ binary64_ok 32 (2 ^ 31 - 1)); try done. by left.
  - apply (float2int_java_at _ binary32_ok 64 (2 ^ 63)); try done. right. by vm_compute.
  - apply (float2int_java_at _ binary64_ok 64 (2 ^ 63)); try done. right. by vm_compute.
Qed.

(** ** Comparisons *)

(** The relation a modifier names, on ordered numbers. *)
Definition cmp_holds (mod_ : ComparisonModifier) (c : comparison) : bool :=
  match mod_, c with
  | Cmp_EQ, Eq => true
  | Cmp_NE_Un, (Lt | Gt) => true
  | (Cmp_GT | Cmp_GT_Un), Gt => true
  | (Cmp_GTE | Cmp_GTE_Un), (Gt | Eq) => true
  | _, _ => false
  end.

Definition cmp_binary (mod_ : ComparisonModifier) : bool :=
  match mod_ with Cmp_Zero | Cmp_NonZero => false | _ => true end.

(** The [_Un] forms compare integers as unsigned and accept unordered numbers. *)
Definition cmp_un (mod_ : ComparisonModifier) : bool :=
  match mod_ with Cmp_NE_Un | Cmp_GT_Un | Cmp_GTE_Un => true | _ => false end.

Lemma SFcompare_antisym x y : SFcompare y x = CompOpp <$> SFcompare x y.
Proof.
  destruct x as [sx|sx| |sx mx ex], y as [sy|sy| |sy my ey]; simpl; try done;
    try (by destruct sx, sy); try by destruct sx; try by destruct sy.
  destruct sx, sy; simpl; try done; f_equal; rewrite (Z.compare_antisym ex ey);
    destruct (ex ?= ey); simpl; try done.
  - change (Pos.compare_cont Eq) with Pos.compare. rewrite (Pos.compare_antisym mx my). done.
  - change (Pos.compare_cont Eq) with Pos.compare. by rewrite (Pos.compare_antisym mx my).
Qed.

Lemma fold_cmp_fp_spec F mod_ c1 c2 result : cmp_binary mod_ = true ->
  fold_cmp_fp F mod_ c1 c2 result =
    (true, c_bool (match SFcompare (decode F c1) (decode F c2) with
                   | None => cmp_un mod_
                   | Some c => cmp_holds mod_ c
                   end)).
Proof.
  intros Hm. unfold fold_cmp_fp, fnan, feqb, fltb, fleb, SFeqb, SFltb, SFleb.
  assert (Hnan : SFcompare (decode F c1) (decode F c2) = None <->
    match decode F c1 with S754_nan => true | _ => false end ||
    match decode F c2 with S754_nan => true | _ => false end = true).
  { destruct (decode F c1), (decode F c2); simpl; done. }
  rewrite (SFcompare_antisym (decode F c1) (decode F c2)).
  destruct (SFcompare (decode F c1) (decode F c2)) as [c|].
  - destruct (_ || _) eqn:E; [discriminate (proj2 Hnan eq_refl)|]. by destruct mod_, c.
  - rewrite (proj1 Hnan eq_refl). by destruct mod_.
Qed.

Lemma fold_cmp_spec w mod_ c1 c2 result : 0 < w -> is_s w c1 -> is_s w c2 -> cmp_binary mod_ = true ->
  fold_cmp w mod_ c1 c2 result =
    (true, c_bool (cmp_holds mod_ (if cmp_un mod_ then ux w c1 ?= ux w c2 else c1 ?= c2))).
Proof.
  intros Hw H1 H2 Hm. assert (ux w c1 = ux w c2 <-> c1 = c2).
  { split; [|by intros ->]. intros H%eqm_ux_iff%eqm_sx_iff. by rewrite !sx_id in H. }
  destruct mod_; try done; simpl.
  - by destruct (Z.compare_spec c1 c2), (Z.eqb_spec c1 c2); try lia.
  - by destruct (Z.compare_spec (ux w c1) (ux w c2)), (Z.eqb_spec c1 c2); try (exfalso; lia); try tauto.
  - by destruct (Z.compare_spec c1 c2), (Z.ltb_spec c2 c1); try lia.
  - by destruct (Z.compare_spec (ux w c1) (ux w c2)), (Z.ltb_spec (ux w c2) (ux w c1)); try lia.
  - by destruct (Z.compare_spec c1 c2), (Z.leb_spec c2 c1); try lia.
  - by destruct (Z.compare_spec (ux w c1) (ux w c2)), (Z.leb_spec (ux w c2) (ux w c1)); try lia.
Qed.

(** ** What the folder promises *)

(** The widths of the Java integer types, and their member of the union. *)
Definition int_width (t : Tag) : option Z :=
  match t with Int32 => Some 32 | Int64 => Some 64 | _ => None end.

Definition get_int (w : Z) (v : ConstValue) : Z := sx w v.

(** C22: a constant expression over [int] or [long] folds exactly when Java
    evaluation of the same operation does not throw, and then to its value:
    wrap-around, truncated division, the most negative number over -1. *)
Theorem foldConstant_java p64 t w opc op v1 v2 res :
  int_width t = Some w -> jop opc = Some op ->
  match foldConstant p64 t opc v1 v2 res true with
  | (true, r) => java_binop w op (get_int w v1) (get_int w v2) = Some (get_int w r)
  | (false, _) => java_binop w op (get_int w v1) (get_int w v2) = None
  end.
Proof.
  intros Hw Hop. destruct t; simplify_eq/=; unfold ret_i4, ret_i8, get_i4, get_i8, get_int.
  - rewrite (fold32_java _ op) by (done || by apply sx_range).
    destruct (java_binop _ _ _ _) eqn:E; [|done]. simpl. f_equal.
    symmetry. transitivity (sx 32 z); [apply get_set_i4|].
    apply sx_id; [done|]. by eapply java_binop_range, E; try apply sx_range.
  - rewrite (fold64_java _ op) by (done || by apply sx_range).
    destruct (java_binop _ _ _ _) eqn:E; [|done]. simpl. f_equal.
    symmetry. transitivity (sx 64 z); [apply get_set_i8|].
    apply sx_id; [done|]. by eapply java_binop_range, E; try apply sx_range.
Qed.

Lemma foldConstant_java_witness :
  get_i4 (snd (foldConstant true Int32 Op_TauDiv 0x80000000 0xffffffff 0 true)) = - 2 ^ 31 /\
  match foldConstant true Int32 Op_TauDiv 0x80000000 0xffffffff 0 true with
  | (true, r) => java_binop 32 JDiv (get_int 32 0x80000000) (get_int 32 0xffffffff) = Some (get_int 32 r)
  | (false, _) => java_binop 32 JDiv (get_int 32 0x80000000) (get_int 32 0xffffffff) = None
  end.
Proof.
  split; [by vm_compute|].
  exact (foldConstant_java true Int32 32 Op_TauDiv JDiv 0x80000000 0xffffffff 0 eq_refl eq_refl).
Defined.

(** the folded high word of a product is the high word of the exact
    product, for [int] (through a 64-bit product) and for [long] (assembled
    from half words). *)
Theorem foldConstant_mulhi p64 t w v1 v2 res : int_width t = Some w ->
  exists r, foldConstant p64 t Op_MulHi v1 v2 res true = (true, r) /\
    get_int w r = (get_int w v1 * get_int w v2) / 2 ^ w.
Proof.
  intros Hw. destruct t; cbn in Hw; simplify_eq; cbn [foldConstant]; unfold ret_i4, ret_i8, get_i4, get_i8.
  - rewrite fold32_mulhi by (by apply sx_range). eexists; split; [done|].
    etransitivity; [apply get_set_i4|]. by apply sx_id, high_word_range; try apply sx_range.
  - rewrite fold64_mulhi by (by apply sx_range). eexists; split; [done|].
    etransitivity; [apply get_set_i8|]. by apply sx_id, high_word_range; try apply sx_range.
Qed.

Lemma foldConstant_mulhi_witness : exists r,
  foldConstant true Int64 Op_MulHi (2 ^ 63) (2 ^ 63) 0 true = (true, r) /\
    get_int 64 r = (get_int 64 (2 ^ 63) * get_int 64 (2 ^ 63)) / 2 ^ 64.
Proof. exact (foldConstant_mulhi true Int64 64 (2 ^ 63) (2 ^ 63) 0 eq_refl). Defined.

(** The member of the union a floating type uses. *)
Definition fp_format (t : Tag) : option format :=
  match t with Single => Some binary32 | Double => Some binary64 | _ => None end.
Definition get_fp (F : format) (v : ConstValue) : Z := ux (fw F) v.

Lemma java_f2i_range w F f : 1 < w -> is_s w (java_f2i w F f).
Proof.
  intros Hw. pose proof (pow2_pos (w - 1) ltac:(lia)).
  unfold java_f2i, clamp, int_min, int_max, is_s.
  destruct (decode F f) as [s|[]| |s m e]; lia.
Qed.

(** folding a conversion from [float] or [double] to [int] or [long] gives
    Java's conversion: NaN to 0, truncation, saturation at the bounds. *)
Theorem foldConv_float2int p64 from to F w src res :
  fp_format from = Some F -> int_width to = Some w ->
  exists r, foldConv p64 from to (overflow_bits Overflow_None) src res = (true, r) /\
    get_int w r = java_f2i w F (get_fp F src).
Proof.
  intros HF Hw. assert (Hu : is_u (fw F) (get_fp F src))
    by (destruct from; simplify_eq/=; by apply ux_range).
  assert (Hj : float2int w F (get_fp F src) = java_f2i w F (get_fp F src)).
  { apply float2int_java; [|destruct from; simplify_eq/=; tauto|done].
    destruct to; simplify_eq/=; tauto. }
  assert (Hr : sx w (java_f2i w F (get_fp F src)) = java_f2i w F (get_fp F src)).
  { destruct to; simplify_eq/=; (apply sx_id; [done|by apply java_f2i_range]). }
  rewrite <- Hr, <- Hj.
  destruct to; simplify_eq/=; destruct from; simplify_eq/=; eexists; (split; [done|]);
    first [apply get_set_i4|apply get_set_i8].
Qed.

Lemma foldConv_float2int_witness : exists r,
  foldConv true Double Int32 (overflow_bits Overflow_None) (of_int binary64 (2 ^ 40)) 0 = (true, r) /\
    get_int 32 r = java_f2i 32 binary64 (get_fp binary64 (of_int binary64 (2 ^ 40))).
Proof. exact (foldConv_float2int true Double Int32 binary64 32 _ 0 eq_refl eq_refl). Defined.

(** a folded comparison is the relation the modifier names: on integers
    signed or, for the [_Un] forms, unsigned; on floating point false for
    unordered operands, or true for the [_Un] forms. *)
Theorem foldCmp_spec t mod_ v1 v2 res : cmp_binary mod_ = true ->
  (forall w, int_width t = Some w -> exists r,
     foldCmp t mod_ v1 v2 res = (true, r) /\
     get_i4 r = c_bool (cmp_holds mod_ (if cmp_un mod_ then ux w v1 ?= ux w v2
                                        else sx w v1 ?= sx w v2))) /\
  (forall F, fp_format t = Some F -> exists r,
     foldCmp t mod_ v1 v2 res = (true, r) /\
     get_i4 r = c_bool (match SFcompare (decode F (get_fp F v1)) (decode F (get_fp F v2)) with
                        | None => cmp_un mod_
                        | Some c => cmp_holds mod_ c
                        end)).
Proof.
  intros Hm. assert (Hb : forall b, sx 32 (c_bool b) = c_bool b) by (by intros []).
  split.
  - intros w Hw. destruct t; simplify_eq/=; unfold ret_i4, foldCmp32, foldCmp64, get_i4, get_i8;
      rewrite fold_cmp_spec by (done || by apply sx_range); eexists; (split; [done|]);
      (etransitivity; [apply get_set_i4|]); by rewrite Hb, !ux_sx.
  - intros F HF. destruct t; simplify_eq/=; unfold ret_i4, foldCmpSingle, foldCmpDouble;
      rewrite fold_cmp_fp_spec by done; eexists; (split; [done|]);
      (etransitivity; [apply get_set_i4|]); apply Hb.
Qed.

Lemma foldCmp_spec_witness :
  (forall w, int_width Int32 = Some w -> exists r,
     foldCmp Int32 Cmp_GT_Un 0xffffffff 1 0 = (true, r) /\
     get_i4 r = c_bool (cmp_holds Cmp_GT_Un (if cmp_un Cmp_GT_Un then ux w 0xffffffff ?= ux w 1
                                        else sx w 0xffffffff ?= sx w 1))) /\
  (forall F, fp_format Int32 = Some F -> exists r,
     foldCmp Int32 Cmp_GT_Un 0xffffffff 1 0 = (true, r) /\
     get_i4 r = c_bool (match SFcompare (decode F (get_fp F 0xffffffff)) (decode F (get_fp F 1)) with
                        | None => cmp_un Cmp_GT_Un
                        | Some c => cmp_holds Cmp_GT_Un c
                        end)).
Proof. exact (foldCmp_spec Int32 Cmp_GT_Un 0xffffffff 1 0 eq_refl). Defined.

(** ** Divergences *)

(** The cast in [fold16] binds tighter than the shift: the high half of a
    16-bit product is always its sign. *)
Example fold16_MulHi_sign : fold16 Op_MulHi 0x4000 0x4000 0 true = (true, 0) /\
  (0x4000 * 0x4000) / 2 ^ 16 = 0x1000.
Proof. by vm_compute. Qed.

(** An unknown opcode is reported as folded by [fold8] and [fold16]. *)
Example fold8_default : fold8 Op_Shl 1 1 77 true = (true, 77) /\ fold16 Op_Shl 1 1 77 true = (true, 77).
Proof. done. Qed.

(** Unsigned division of [2^63] by [2^64 - 1] takes the signed special case. *)
Example fold64_unsigned_div :
  fold64 Op_TauDiv (- 2 ^ 63) (-1) 0 false = (true, - 2 ^ 63) /\
  ux 64 (- 2 ^ 63) / ux 64 (-1) = 0.
Proof. by vm_compute. Qed.

(** Half words are multiplied in 32 bits by [mulhu]. *)
Example mulhu_truncates : mulhu 32 (2 ^ 63) (2 ^ 63) = 0 /\ (2 ^ 63 * 2 ^ 63) / 2 ^ 64 = 2 ^ 62.
Proof. by vm_compute. Qed.

(** ** Where the folder goes wrong *)

(** The unsigned high product is folded as the signed one. *)
Lemma fold32_mulhi_unsigned r : fold32 Op_MulHi (-1) 2 r false = (true, -1) /\
  sx 32 ((ux 32 (-1) * ux 32 2) / 2 ^ 32) = 1.
Proof. by split. Qed.

(** An integer constant converted to a pointer is folded to null, whatever it is. *)
Lemma foldConv_unmanaged p64 mod_ src : foldConv p64 Int32 UnmanagedPtr mod_ src cv_zero = (true, cv_zero).
Proof. by destruct p64. Qed.
