(* ===== verification/Gen.v ===== *)
(** * Code generation and the meaning of the code

    The [gen] functions of [SimplifierWithInstFactory] ([optimizer/simplifier.cpp])
    with the [make] functions of [InstFactory] ([optimizer/Inst.cpp]) they call:
    each appends one instruction to the program and returns the operand it
    defines.  [denote] gives the value of the pure instructions; an environment
    [models] a program when every operand has a value of its type that agrees
    with its instruction.  [wp] is what a simplification is verified with: it
    runs without failing, only extends the program, and the extension computes
    what the postcondition says. *)
From Stdlib Require Import SpecFloat.
From S2P Require Import Prelude Floats JavaArith IR ConstFold.

(** ** The generator monad *)

(** [None] is a failed assertion or a null pointer followed. *)
Definition Gen (A : Type) : Type := prog -> option (prog * A).

Definition gret {A} (a : A) : Gen A := fun p => Some (p, a).
Definition gbind {A B} (m : Gen A) (f : A -> Gen B) : Gen B :=
  fun p => '(p, a) ← m p; f a p.
Definition gfail {A} : Gen A := fun _ => None.
(** Reading the program made so far. *)
Definition gget {A} (f : prog -> A) : Gen A := fun p => Some (p, f p).
Definition gopt {A} (o : option A) : Gen A := match o with Some a => gret a | None => gfail end.

Declare Scope gen_scope.
Delimit Scope gen_scope with gen.
Notation "'let*' x ':=' m 'in' k" := (gbind m (fun x => k))
  (at level 10, x name, m at level 100, k at level 200) : gen_scope.
Open Scope gen_scope.

Definition insertInst (i : Inst) : Gen Opnd := fun p => Some (p ++ [i], length p).

(** ** Instruction makers *)

Definition makeInst (opc : Opcode) (mod_ : Modifier) (type dtype : Tag) (srcs : list Opnd) : Inst :=
  MkInst opc mod_ type dtype srcs cv_zero.

Definition genAdd (type : Tag) (mod_ : Modifier) (src1 src2 : Opnd) : Gen Opnd :=
  insertInst (makeInst Op_Add mod_ type type [src1; src2]).
Definition genSub (type : Tag) (mod_ : Modifier) (src1 src2 : Opnd) : Gen Opnd :=
  insertInst (makeInst Op_Sub mod_ type type [src1; src2]).
Definition genNeg (type : Tag) (src : Opnd) : Gen Opnd :=
  insertInst (makeInst Op_Neg 0 type type [src]).
Definition genMul (type : Tag) (mod_ : Modifier) (src1 src2 : Opnd) : Gen Opnd :=
  insertInst (makeInst Op_Mul mod_ type type [src1; src2]).
Definition genMulHi (type : Tag) (mod_ : Modifier) (src1 src2 : Opnd) : Gen Opnd :=
  insertInst (makeInst Op_MulHi mod_ type type [src1; src2]).
Definition genAnd (type : Tag) (src1 src2 : Opnd) : Gen Opnd :=
  insertInst (makeInst Op_And 0 type type [src1; src2]).
Definition genConv (type toType : Tag) (ovfMod : Modifier) (src : Opnd) : Gen Opnd :=
  insertInst (makeInst Op_Conv ovfMod toType type [src]).
Definition genShladd (type : Tag) (value shiftAmount addTo : Opnd) : Gen Opnd :=
  insertInst (makeInst Op_Shladd 0 type type [value; shiftAmount; addTo]).
Definition genShl (type : Tag) (smmod : Modifier) (src1 src2 : Opnd) : Gen Opnd :=
  insertInst (makeInst Op_Shl smmod type type [src1; src2]).
Definition genShr (type : Tag) (mods : Modifier) (src1 src2 : Opnd) : Gen Opnd :=
  insertInst (makeInst Op_Shr mods type type [src1; src2]).

(** [genLdConstant], by the type of the constant: the [ConstInst] constructors
    write one member of a cleared union. *)
Definition genLdConstant (type : Tag) (val : ConstValue) : Gen Opnd :=
  insertInst (MkInst Op_LdConstant 0 type type [] val).
Definition genLdConstant_i4 (val : Z) : Gen Opnd := genLdConstant Int32 (set_i4 cv_zero val).
Definition genLdConstant_i8 (val : Z) : Gen Opnd := genLdConstant Int64 (set_i8 cv_zero val).
Definition genLdConstant_s (val : Z) : Gen Opnd := genLdConstant Single (set_s cv_zero val).
Definition genLdConstant_d (val : Z) : Gen Opnd := genLdConstant Double (set_d cv_zero val).

(** ** Values and meaning *)

(** The width of the integer types of four and eight bytes. *)
Definition arith_width (t : Tag) : option Z :=
  match t with Int32 | UInt32 => Some 32 | Int64 | UInt64 => Some 64 | _ => None end.

(** References and pointers, compressed ones too. *)
Definition is_address (t : Tag) : bool := tag_between SystemObject t CompressedVTablePtr.

Definition has_type (t : Tag) (v : Z) : Prop :=
  match t with
  | Int32 | UInt32 => is_s 32 v
  | Int64 | UInt64 => is_s 64 v
  | Single => is_u 32 v
  | Double => is_u 64 v
  | NullObject => v = 0
  | _ => if is_address t then is_u 64 v else True
  end.

Definition const_val (t : Tag) (v : ConstValue) : option Z :=
  match t with
  | Int32 | UInt32 => Some (get_i4 v)
  | Int64 | UInt64 => Some (get_i8 v)
  | Single => Some (get_s v)
  | Double => Some (get_d v)
  | _ => if is_address t then Some (get_i v) else None
  end.

(** The value of a binary operation at an integer type; the divisions only
    where they do not throw. *)
Definition int_op (w : Z) (signed : bool) (opc : Opcode) (a b : Z) : option Z :=
  match opc with
  | Op_Add => Some (sx w (a + b))
  | Op_Sub => Some (sx w (a - b))
  | Op_Mul => Some (sx w (a * b))
  | Op_And => Some (Z.land a b)
  | Op_Or => Some (Z.lor a b)
  | Op_Xor => Some (Z.lxor a b)
  | Op_Min => Some (Z.min a b)
  | Op_Max => Some (Z.max a b)
  | Op_MulHi =>
      if signed then Some ((a * b) / 2 ^ w) else Some (sx w ((ux w a * ux w b) / 2 ^ w))
  | Op_TauDiv =>
      if b =? 0 then None
      else if signed then Some (java_quot w a b) else Some (sx w (ux w a / ux w b))
  | Op_TauRem =>
      if b =? 0 then None
      else if signed then Some (Z.rem a b) else Some (sx w (ux w a mod ux w b))
  | _ => None
  end.

Definition fp_op (F : format) (opc : Opcode) (a b : Z) : option Z :=
  match opc with
  | Op_Add => Some (fadd F a b)
  | Op_Sub => Some (fsub F a b)
  | Op_Mul => Some (fmul F a b)
  | Op_TauDiv => Some (fdiv F a b)
  | _ => None
  end.

Definition int_op_1 (w : Z) (opc : Opcode) (a : Z) : option Z :=
  match opc with
  | Op_Neg => Some (sx w (- a))
  | Op_Not => Some (Z.lnot a)
  | Op_Abs => Some (if a <? 0 then sx w (- a) else a)
  | _ => None
  end.

(** The value of an operation of type [t] on operands of that type. *)
Definition binary_val (t : Tag) (signed : bool) (opc : Opcode) (a b : Z) : option Z :=
  match arith_width t with
  | Some w => int_op w signed opc a b
  | None => match fp_format t with Some F => fp_op F opc a b | None => None end
  end.

Definition unary_val (t : Tag) (opc : Opcode) (a : Z) : option Z :=
  match arith_width t with
  | Some w => int_op_1 w opc a
  | None =>
      match fp_format t, opc with Some F, Op_Neg => Some (_chgsign F a) | _, _ => None end
  end.

(** Integer conversions truncate to the target type and extend the result to
    the width of the operand that receives it. *)
Definition conv_val (from to dst : Tag) (a : Z) : option Z :=
  match arith_width from, arith_width dst with
  | Some w, Some wd =>
      match to with
      | Int8 => Some (sx 8 a) | UInt8 => Some (ux 8 a)
      | Int16 => Some (sx 16 a) | UInt16 => Some (ux 16 a)
      | Int32 => Some (sx 32 a)
      | UInt32 => Some (if wd =? 32 then sx 32 a else ux 32 a)
      | Int64 => if wd =? 32 then None else Some (if tag_eqb from UInt32 then ux 32 a else a)
      | UInt64 => if wd =? 32 then None else Some (if w =? 32 then ux 32 a else a)
      | _ => None
      end
  | _, _ => None
  end.

(** An unmasked shift has a value for amounts below the width only. *)
Definition shift_amount (w : Z) (mod_ : Modifier) (s : Z) : option Z :=
  if getShiftMaskModifier mod_ =? shiftmask_bits ShiftMask_Masked then Some (Z.land s (w - 1))
  else if (0 <=? s) && (s <? w) then Some s else None.

Definition shl_val (w : Z) (mod_ : Modifier) (a s : Z) : option Z :=
  s ← shift_amount w mod_ s; Some (sx w (Z.shiftl a s)).
Definition shr_val (w : Z) (mod_ : Modifier) (a s : Z) : option Z :=
  s ← shift_amount w mod_ s;
  Some (if isSigned mod_ then Z.shiftr a s else sx w (Z.shiftr (ux w a) s)).

(** The order of two values, [None] when they are unordered. *)
Definition ordering (t : Tag) (un : bool) (a b : Z) : option comparison :=
  match arith_width t, fp_format t with
  | Some w, _ => Some (if un then ux w a ?= ux w b else a ?= b)
  | None, Some F => SFcompare (decode F a) (decode F b)
  | None, None => Some (a ?= b)
  end.

Definition value_type (t : Tag) : bool :=
  match t with Int32 | UInt32 | Int64 | UInt64 | Single | Double => true | _ => false end.

Definition is_equality (m : ComparisonModifier) : bool :=
  match m with Cmp_EQ | Cmp_NE_Un => true | _ => false end.

(** The comparisons that have a meaning here: every one of numbers, the
    unsigned ones of addresses, equality of anything. *)
Definition cmp_ok (t : Tag) (m : ComparisonModifier) : bool :=
  cmp_binary m && (value_type t || is_equality m || (cmp_un m && is_address t)).

(** The truth of a comparison: a [_Un] form holds of unordered numbers. *)
Definition cmp_val (t : Tag) (m : ComparisonModifier) (a b : Z) : option bool :=
  if cmp_ok t m
  then Some (match ordering t (cmp_un m) a b with None => cmp_un m | Some c => cmp_holds m c end)
  else None.

Definition cmp_val_1 (m : ComparisonModifier) (a : Z) : option bool :=
  match m with Cmp_Zero => Some (a =? 0) | Cmp_NonZero => Some (negb (a =? 0)) | _ => None end.

(** The second test of a three-way comparison: for floats, exactly one of the
    two tests holds of unordered numbers. *)
Definition flip_un (t : Tag) (m : ComparisonModifier) : ComparisonModifier :=
  if isFloatingPoint t then
    match m with
    | Cmp_GT => Cmp_GT_Un | Cmp_GT_Un => Cmp_GT
    | Cmp_GTE => Cmp_GTE_Un | Cmp_GTE_Un => Cmp_GTE
    | _ => m
    end
  else m.

Definition cmp3_val (t : Tag) (m : ComparisonModifier) (a b : Z) : option Z :=
  match cmp_val t m a b, cmp_val t (flip_un t m) b a with
  | Some x, Some y => Some (if x then 1 else if y then -1 else 0)
  | _, _ => None
  end.

Definition is_binary (opc : Opcode) : bool :=
  match opc with
  | Op_Add | Op_Sub | Op_Mul | Op_MulHi | Op_TauDiv | Op_TauRem
  | Op_And | Op_Or | Op_Xor | Op_Min | Op_Max => true
  | _ => false
  end.
Definition is_unary (opc : Opcode) : bool :=
  match opc with Op_Neg | Op_Not | Op_Abs => true | _ => false end.

(** The value of a pure instruction, [None] for the others. *)
Definition denote (i : Inst) (vals : list (Tag * Z)) : option Z :=
  let t := i_type i in
  match i_opcode i, vals with
  | Op_LdConstant, [] => const_val t (i_value i)
  | Op_Conv, [(from, a)] => conv_val from t (i_dtype i) a
  | Op_Shladd, [(_, a); (_, s); (_, b)] =>
      w ← arith_width t; s ← shift_amount w 0 s; Some (sx w (sx w (Z.shiftl a s) + b))
  | Op_Shl, [(_, a); (_, s)] => w ← arith_width t; shl_val w (i_mod i) a s
  | Op_Shr, [(_, a); (_, s)] => w ← arith_width t; shr_val w (i_mod i) a s
  | Op_Copy, [(_, a)] => Some a
  | Op_TauStaticCast, (_, a) :: _ => Some a
  | Op_Cmp, [(_, a); (_, b)] => m ← comparison_of (i_mod i); x ← cmp_val t m a b; Some (c_bool x)
  | Op_Cmp3, [(_, a); (_, b)] => m ← comparison_of (i_mod i); cmp3_val t m a b
  | opc, [(_, a)] => if is_unary opc then unary_val t opc a else None
  | opc, (_, a) :: (_, b) :: _ =>
      if is_binary opc then binary_val t (isSigned (i_mod i)) opc a b else None
  | _, _ => None
  end.

(** A comparison of numbers has operands of its type, one of addresses has
    addresses, and others are not of numbers. *)
Definition cmp_typed (t a b : Tag) : bool :=
  if value_type t then tag_eqb a t && tag_eqb b t
  else if is_address t then is_address a && is_address b
  else negb (value_type a || value_type b).

(** The typing of instructions. *)
Definition inst_typed (i : Inst) (ts : list Tag) : bool :=
  let t := i_type i in
  match i_opcode i with
  | Op_LdConstant => match ts with [] => tag_eqb (i_dtype i) t | _ => false end
  | Op_Shladd => match ts with [a; _; b] => tag_eqb (i_dtype i) t && tag_eqb a t && tag_eqb b t | _ => false end
  | Op_Conv | Op_Copy => match ts with [_] => true | _ => false end
  | Op_Shl | Op_Shr => match ts with [a; _] => tag_eqb (i_dtype i) t && tag_eqb a t | _ => false end
  | Op_Cmp | Op_Cmp3 =>
      match comparison_of (i_mod i), ts with
      | Some m, [a; b] => tag_eqb (i_dtype i) Int32 && cmp_ok t m && cmp_typed t a b
      | _, _ => false
      end
  | Op_TauStaticCast =>
      match ts with a :: _ => is_address (i_dtype i) && is_address a | _ => false end
  | opc =>
      if is_unary opc then
        match ts with [a] => tag_eqb (i_dtype i) t && tag_eqb a t | _ => false end
      else if is_binary opc then
        match ts with a :: b :: _ => tag_eqb (i_dtype i) t && tag_eqb a t && tag_eqb b t | _ => false end
      else true
  end.

(** A zero-extending load has a value of the loaded width. *)
Definition load_range (i : Inst) (v : Z) : Prop :=
  i_opcode i = Op_TauLdInd ->
  match i_type i, i_dtype i with
  | UInt8, _ => is_u 8 v
  | UInt16, _ => is_u 16 v
  | UInt32, Int64 => is_u 32 v
  | _, _ => True
  end.

Abbreviation env := (list Z).

Definition opnd_val (p : prog) (e : env) (o : Opnd) : option (Tag * Z) :=
  t ← opnd_type p o; v ← e !! o; Some (t, v).

Definition src_vals (p : prog) (e : env) (i : Inst) : option (list (Tag * Z)) :=
  mapM (opnd_val p e) (i_srcs i).

Definition inst_ok (p : prog) (e : env) (i : Inst) (v : Z) : Prop :=
  exists vals, src_vals p e i = Some vals /\ has_type (i_dtype i) v /\
    inst_typed i vals.*1 = true /\ load_range i v /\
    forall r, denote i vals = Some r -> v = r.

Definition models (p : prog) (e : env) : Prop := Forall2 (inst_ok p e) p e.

(** Operand [o] has type [t] and value [v]. *)
Definition holds (p : prog) (e : env) (o : Opnd) (t : Tag) (v : Z) : Prop :=
  opnd_val p e o = Some (t, v).

(** ** Extension *)

Definition extends (p : prog) (e : env) (p' : prog) (e' : env) : Prop :=
  p `prefix_of` p' /\ e `prefix_of` e'.

Lemma extends_id p e : extends p e p e.
Proof. by split. Qed.

Lemma extends_trans p e p1 e1 p2 e2 : extends p e p1 e1 -> extends p1 e1 p2 e2 -> extends p e p2 e2.
Proof. intros [? ?] [? ?]. split; by etransitivity. Qed.

Lemma opnd_val_mono p e p' e' o x : extends p e p' e' -> opnd_val p e o = Some x -> opnd_val p' e' o = Some x.
Proof.
  intros [Hp He]. unfold opnd_val, opnd_type. intros H.
  destruct (p !! o) as [i|] eqn:Ei; [|done]. rewrite (prefix_lookup_Some p p' o i) by done.
  simpl in *. destruct (e !! o) as [v|] eqn:Ev; [|done].
  by rewrite (prefix_lookup_Some e e' o v).
Qed.

Lemma holds_mono p e p' e' o t v : extends p e p' e' -> holds p e o t v -> holds p' e' o t v.
Proof. apply opnd_val_mono. Qed.

Lemma src_vals_mono p e p' e' i vals : extends p e p' e' -> src_vals p e i = Some vals -> src_vals p' e' i = Some vals.
Proof.
  intros Hx. unfold src_vals. rewrite !mapM_Some. intros H.
  eapply Forall2_impl; [|exact H]. intros o x. by apply opnd_val_mono.
Qed.

Lemma inst_ok_mono p e p' e' i v : extends p e p' e' -> inst_ok p e i v -> inst_ok p' e' i v.
Proof.
  intros Hx (vals & Hs & H). exists vals. split; [|done]. by eapply src_vals_mono.
Qed.

Lemma models_length p e : models p e -> length p = length e.
Proof. apply Forall2_length. Qed.

Lemma models_lookup p e o i : models p e -> getInst p o = Some i ->
  exists v, holds p e o (i_dtype i) v /\ inst_ok p e i v.
Proof.
  intros Hm Hi. destruct (Forall2_lookup_l _ _ _ _ _ Hm Hi) as (v & Hv & Hok).
  exists v. split; [|done]. unfold holds, opnd_val, opnd_type, getInst in *. by rewrite Hi, Hv.
Qed.

Lemma holds_inst p e o t v : models p e -> holds p e o t v ->
  exists i, getInst p o = Some i /\ i_dtype i = t /\ inst_ok p e i v.
Proof.
  unfold holds, opnd_val, opnd_type, getInst. intros Hm H.
  destruct (p !! o) as [i|] eqn:Ei; [|done]. simpl in H. destruct (e !! o) as [v'|] eqn:Ev; [|done].
  simplify_eq/=. exists i. split_and!; [done|done|].
  by eapply Forall2_lookup_lr in Hm.
Qed.

Lemma holds_type p e o t v : models p e -> holds p e o t v -> has_type t v.
Proof. intros Hm H. by destruct (holds_inst p e o t v Hm H) as (i & _ & <- & vals & _ & Ht & _). Qed.

(** The environment of one more instruction. *)
Lemma models_snoc p e i v : models p e -> inst_ok p e i v -> models (p ++ [i]) (e ++ [v]).
Proof.
  intros Hm Hi. assert (Hx : extends p e (p ++ [i]) (e ++ [v])) by (by split; apply prefix_app_r).
  apply Forall2_app.
  - eapply Forall2_impl; [|exact Hm]. intros ??. by apply inst_ok_mono.
  - constructor; [|constructor]. by eapply inst_ok_mono.
Qed.

(** ** Running a generator *)

Definition wp {A} (m : Gen A) (p : prog) (e : env) (Q : prog -> env -> A -> Prop) : Prop :=
  exists p' e' a, m p = Some (p', a) /\ extends p e p' e' /\ models p' e' /\ Q p' e' a.

Lemma wp_ret {A} (a : A) p e Q : models p e -> Q p e a -> wp (gret a) p e Q.
Proof. intros. exists p, e, a. split; [done|]. split; [apply extends_id|done]. Qed.

Lemma wp_get {A} (f : prog -> A) p e Q : models p e -> Q p e (f p) -> wp (gget f) p e Q.
Proof. intros. exists p, e, (f p). split; [done|]. split; [apply extends_id|done]. Qed.

Lemma wp_bind {A B} (m : Gen A) (f : A -> Gen B) p e Q :
  wp m p e (fun p' e' a => extends p e p' e' -> models p' e' -> wp (f a) p' e' Q) ->
  wp (gbind m f) p e Q.
Proof.
  intros (p1 & e1 & a & Hm & Hx & Hok & HQ).
  destruct (HQ Hx Hok) as (p2 & e2 & b & Hf & Hx2 & Hok2 & HQ2).
  exists p2, e2, b. split; [unfold gbind; by rewrite Hm|].
  split; [by eapply extends_trans|done].
Qed.

Lemma wp_mono {A} (m : Gen A) p e (Q Q' : prog -> env -> A -> Prop) :
  wp m p e Q -> (forall p' e' a, extends p e p' e' -> models p' e' -> Q p' e' a -> Q' p' e' a) ->
  wp m p e Q'.
Proof.
  intros (p1 & e1 & a & Hm & Hx & Hok & HQ) H. exists p1, e1, a. split; [done|]. split; [done|]. split; [done|]. by apply H.
Qed.

Lemma wp_opt {A} (o : option A) a p e Q : o = Some a -> models p e -> Q p e a -> wp (gopt o) p e Q.
Proof. intros ->. apply wp_ret. Qed.

(** ** Rules for the generators *)

Lemma has_type_int t w v : arith_width t = Some w -> has_type t v <-> is_s w v.
Proof. destruct t; intros; simplify_eq/=; done. Qed.

Lemma arith_width_pos t w : arith_width t = Some w -> 0 < w /\ (w = 32 \/ w = 64).
Proof. destruct t; intros; simplify_eq/=; lia. Qed.

Lemma tag_eqb_refl t : tag_eqb t t = true.
Proof. by apply bool_decide_eq_true. Qed.

Lemma tag_eqb_eq a b : tag_eqb a b = true <-> a = b.
Proof. apply bool_decide_eq_true. Qed.

Lemma wp_insert i vals r p e (Q : prog -> env -> Opnd -> Prop) :
  models p e -> src_vals p e i = Some vals -> denote i vals = Some r ->
  inst_typed i vals.*1 = true -> has_type (i_dtype i) r -> i_opcode i <> Op_TauLdInd ->
  (forall p' e' o, extends p e p' e' -> getInst p' o = Some i -> holds p' e' o (i_dtype i) r -> Q p' e' o) ->
  wp (insertInst i) p e Q.
Proof.
  intros Hm Hs Hd Ht Hr Hop HQ. exists (p ++ [i]), (e ++ [r]), (length p).
  assert (Hx : extends p e (p ++ [i]) (e ++ [r])) by (split; by apply prefix_app_r).
  split; [done|]. split; [done|]. split.
  { apply models_snoc; [done|]. exists vals. split; [done|]. split; [done|]. split; [done|].
    split; [by intros ?|]. intros r' Hr'. by simplify_eq. }
  assert (Hi : (p ++ [i]) !! length p = Some i) by (by rewrite lookup_app_r, Nat.sub_diag).
  apply HQ; [done|exact Hi|]. unfold holds, opnd_val, opnd_type. rewrite Hi. simpl.
  by rewrite lookup_app_r, (models_length p e Hm), Nat.sub_diag by (by rewrite (models_length p e Hm)).
Qed.

Section gen_rules.
Context (p : prog) (e : env) (Hm : models p e) (Q : prog -> env -> Opnd -> Prop).

(** Binary instructions whose operands have the type of the result. *)
Lemma wp_binary opc mod_ t w a b va vb r :
  is_binary opc = true -> arith_width t = Some w ->
  holds p e a t va -> holds p e b t vb ->
  int_op w (isSigned mod_) opc va vb = Some r -> is_s w r ->
  (forall p' e' o, extends p e p' e' -> holds p' e' o t r -> Q p' e' o) ->
  wp (insertInst (makeInst opc mod_ t t [a; b])) p e Q.
Proof.
  intros Hop Hw Ha Hb Hr Hrs HQ.
  assert (Hden : binary_val t (isSigned mod_) opc va vb = Some r) by (unfold binary_val; by rewrite Hw).
  apply (wp_insert _ [(t, va); (t, vb)] r); simpl.
  - done.
  - unfold src_vals. simpl. unfold holds in *. by rewrite Ha, Hb.
  - unfold denote. simpl. by destruct opc.
  - unfold inst_typed. simpl. rewrite tag_eqb_refl. by destruct opc.
  - by eapply has_type_int.
  - by destruct opc.
  - intros p' e' o Hx _. by apply HQ.
Qed.

Lemma wp_genNeg t w a va :
  arith_width t = Some w -> holds p e a t va ->
  (forall p' e' o, extends p e p' e' -> holds p' e' o t (sx w (- va)) -> Q p' e' o) ->
  wp (genNeg t a) p e Q.
Proof.
  intros Hw Ha HQ. destruct (arith_width_pos t w Hw) as [Hpos _].
  apply (wp_insert _ [(t, va)] (sx w (- va))); simpl.
  - done.
  - unfold src_vals. simpl. unfold holds in *. by rewrite Ha.
  - unfold denote, unary_val. simpl. by rewrite Hw.
  - unfold inst_typed. simpl. by rewrite tag_eqb_refl.
  - eapply has_type_int; [done|]. by apply sx_range.
  - done.
  - intros p' e' o Hx _. by apply HQ.
Qed.

Lemma wp_genConv t from to ovf w a va r :
  holds p e a from va -> arith_width t = Some w -> conv_val from to t va = Some r -> is_s w r ->
  (forall p' e' o, extends p e p' e' -> holds p' e' o t r -> Q p' e' o) ->
  wp (genConv t to ovf a) p e Q.
Proof.
  intros Ha Hw Hr Hrs HQ. apply (wp_insert _ [(from, va)] r); simpl; try done.
  - unfold src_vals. simpl. unfold holds in *. by rewrite Ha.
  - by eapply has_type_int.
  - intros p' e' o Hx _. by apply HQ.
Qed.

Lemma wp_genLdConstant t v r :
  const_val t v = Some r -> has_type t r ->
  (forall p' e' o, extends p e p' e' -> getInst p' o = Some (MkInst Op_LdConstant 0 t t [] v) ->
     holds p' e' o t r -> Q p' e' o) ->
  wp (genLdConstant t v) p e Q.
Proof.
  intros Hr Hrt HQ. apply (wp_insert _ [] r); try done. unfold inst_typed. simpl. apply tag_eqb_refl.
Qed.

Lemma wp_genLdConstant_i4 v :
  (forall p' e' o, extends p e p' e' -> holds p' e' o Int32 (sx 32 v) -> Q p' e' o) ->
  wp (genLdConstant_i4 v) p e Q.
Proof.
  intros HQ. apply (wp_genLdConstant Int32 _ (sx 32 v)).
  - simpl. by rewrite get_set_i4.
  - by apply sx_range.
  - intros p' e' o Hx _. by apply HQ.
Qed.

Lemma wp_genLdConstant_i8 v :
  (forall p' e' o, extends p e p' e' -> holds p' e' o Int64 (sx 64 v) -> Q p' e' o) ->
  wp (genLdConstant_i8 v) p e Q.
Proof.
  intros HQ. apply (wp_genLdConstant Int64 _ (sx 64 v)).
  - simpl. by rewrite get_set_i8.
  - by apply sx_range.
  - intros p' e' o Hx _. by apply HQ.
Qed.

Lemma wp_genShladd t w ts a s b va vs vb :
  arith_width t = Some w -> holds p e a t va -> holds p e s ts vs -> holds p e b t vb ->
  0 <= vs < w ->
  (forall p' e' o, extends p e p' e' -> holds p' e' o t (sx w (va * 2 ^ vs + vb)) -> Q p' e' o) ->
  wp (genShladd t a s b) p e Q.
Proof.
  intros Hw Ha Hs Hb Hr HQ. destruct (arith_width_pos t w Hw) as [Hpos _].
  apply (wp_insert _ [(t, va); (ts, vs); (t, vb)] (sx w (va * 2 ^ vs + vb))); simpl.
  - done.
  - unfold src_vals. simpl. unfold holds in *. by rewrite Ha, Hs, Hb.
  - unfold denote. simpl. rewrite Hw. simpl. unfold shift_amount. simpl.
    rewrite (proj2 (Z.leb_le 0 vs)), (proj2 (Z.ltb_lt vs w)) by lia. simpl. f_equal.
    rewrite Z.shiftl_mul_pow2 by lia. apply eqm_sx_iff. by rewrite eqm_sx.
  - unfold inst_typed. simpl. by rewrite tag_eqb_refl.
  - eapply has_type_int; [done|]. by apply sx_range.
  - done.
  - intros p' e' o Hx _. by apply HQ.
Qed.

Lemma wp_genShl t w ts a s va vs :
  arith_width t = Some w -> holds p e a t va -> holds p e s ts vs -> 0 <= vs < w ->
  (forall p' e' o, extends p e p' e' -> holds p' e' o t (sx w (va * 2 ^ vs)) -> Q p' e' o) ->
  wp (genShl t (shiftmask_bits ShiftMask_None) a s) p e Q.
Proof.
  intros Hw Ha Hs Hr HQ. destruct (arith_width_pos t w Hw) as [Hpos _].
  apply (wp_insert _ [(t, va); (ts, vs)] (sx w (va * 2 ^ vs))); simpl.
  - done.
  - unfold src_vals. simpl. unfold holds in *. by rewrite Ha, Hs.
  - unfold denote, shl_val. simpl. rewrite Hw. simpl. unfold shift_amount. simpl.
    rewrite (proj2 (Z.leb_le 0 vs)), (proj2 (Z.ltb_lt vs w)) by lia. simpl. f_equal.
    by rewrite Z.shiftl_mul_pow2 by lia.
  - unfold inst_typed. simpl. by rewrite tag_eqb_refl.
  - eapply has_type_int; [done|]. by apply sx_range.
  - done.
  - intros p' e' o Hx _. by apply HQ.
Qed.

Lemma wp_genShr sg t w ts a s va vs :
  arith_width t = Some w -> holds p e a t va -> holds p e s ts vs -> 0 <= vs < w ->
  (forall p' e' o, extends p e p' e' ->
     holds p' e' o t (match sg with SignedOp => va / 2 ^ vs | UnsignedOp => sx w (ux w va / 2 ^ vs) end) ->
     Q p' e' o) ->
  wp (genShr t (mod_shift sg) a s) p e Q.
Proof.
  intros Hw Ha Hs Hr HQ. destruct (arith_width_pos t w Hw) as [Hpos _].
  pose proof (holds_type _ _ _ _ _ Hm Ha) as Hta. rewrite (has_type_int t w) in Hta by done.
  apply (wp_insert _ [(t, va); (ts, vs)]
    (match sg with SignedOp => va / 2 ^ vs | UnsignedOp => sx w (ux w va / 2 ^ vs) end)); simpl.
  - done.
  - unfold src_vals. simpl. unfold holds in *. by rewrite Ha, Hs.
  - unfold denote, shr_val. simpl. rewrite Hw. simpl.
    unfold shift_amount. rewrite (proj2 (Z.leb_le 0 vs)), (proj2 (Z.ltb_lt vs w)) by lia.
    rewrite <- !Z.shiftr_div_pow2 by lia. by destruct sg.
  - unfold inst_typed. simpl. by rewrite tag_eqb_refl.
  - eapply has_type_int; [done|]. destruct sg; [|by apply sx_range].
    rewrite <- Z.shiftr_div_pow2 by lia. apply is_s_shiftr; lia || done.
  - done.
  - intros p' e' o Hx _. by apply HQ.
Qed.
End gen_rules.

(** ** Programs of arguments and constants, for concrete runs *)

Definition arg (t : Tag) : Inst := makeInst Op_DefArg 0 t t [].
Definition const (t : Tag) (v : ConstValue) : Inst := MkInst Op_LdConstant 0 t t [] v.

Lemma models_nil : models [] [].
Proof. constructor. Qed.

Lemma models_arg p e t v : models p e -> has_type t v -> models (p ++ [arg t]) (e ++ [v]).
Proof.
  intros Hm Hv. apply models_snoc; [done|]. exists []. split; [done|]. split; [done|].
  split; [done|]. by split.
Qed.

Lemma models_const p e t cv v : models p e -> const_val t cv = Some v -> has_type t v ->
  models (p ++ [const t cv]) (e ++ [v]).
Proof.
  intros Hm Hc Hv. apply models_snoc; [done|]. exists []. split; [done|]. split; [done|].
  split; [unfold inst_typed; simpl; apply tag_eqb_refl|]. split; [done|].
  intros r Hr. unfold denote in Hr. simpl in Hr. congruence.
Qed.

Lemma models_inst p e i vals v : models p e -> src_vals p e i = Some vals -> denote i vals = Some v ->
  inst_typed i vals.*1 = true -> has_type (i_dtype i) v -> i_opcode i <> Op_TauLdInd ->
  models (p ++ [i]) (e ++ [v]).
Proof.
  intros Hm Hs Hd Ht Hty Hop. apply models_snoc; [done|]. exists vals. do 3 (split; [done|]).
  split; [by intros ?|]. intros r Hr. congruence.
Qed.

(** An instruction of any operands and opcode whose value the program does not
    determine. *)
Lemma models_opaque p e i vals v : models p e -> src_vals p e i = Some vals -> denote i vals = None ->
  inst_typed i vals.*1 = true -> has_type (i_dtype i) v -> i_opcode i <> Op_TauLdInd ->
  models (p ++ [i]) (e ++ [v]).
Proof.
  intros Hm Hs Hd Ht Hty Hop. apply models_snoc; [done|]. exists vals. do 3 (split; [done|]).
  split; [by intros ?|]. intros r Hr. congruence.
Qed.

(** Deciding that an environment models a program. *)
Definition is_sb (w v : Z) : bool := (- 2 ^ (w - 1) <=? v) && (v <? 2 ^ (w - 1)).
Definition is_ub (w v : Z) : bool := (0 <=? v) && (v <? 2 ^ w).

Definition has_typeb (t : Tag) (v : Z) : bool :=
  match t with
  | Int32 | UInt32 => is_sb 32 v
  | Int64 | UInt64 => is_sb 64 v
  | Single => is_ub 32 v
  | Double => is_ub 64 v
  | NullObject => v =? 0
  | _ => if is_address t then is_ub 64 v else true
  end.

Definition inst_okb (p : prog) (e : env) (i : Inst) (v : Z) : bool :=
  match src_vals p e i with
  | Some vals =>
      has_typeb (i_dtype i) v && inst_typed i vals.*1 && negb (op_eqb (i_opcode i) Op_TauLdInd) &&
      match denote i vals with Some r => v =? r | None => true end
  | None => false
  end.

Fixpoint modelsb_loop (p : prog) (e : env) (l : prog) (vs : env) : bool :=
  match l, vs with
  | [], [] => true
  | i :: l, v :: vs => inst_okb p e i v && modelsb_loop p e l vs
  | _, _ => false
  end.
Definition modelsb (p : prog) (e : env) : bool := modelsb_loop p e p e.

Lemma has_typeb_ok t v : has_typeb t v = true -> has_type t v.
Proof.
  unfold has_type, has_typeb, is_sb, is_ub, is_s, is_u.
  destruct t; simpl; try done; rewrite ?andb_true_iff, ?Z.leb_le, ?Z.ltb_lt, ?Z.eqb_eq; tauto.
Qed.

Lemma inst_okb_ok p e i v : inst_okb p e i v = true -> inst_ok p e i v.
Proof.
  unfold inst_okb. destruct (src_vals p e i) as [vals|] eqn:Hs; [|done].
  intros [[[Ht%has_typeb_ok Hty]%andb_true_iff Hop]%andb_true_iff Hd]%andb_true_iff.
  exists vals. do 3 (split; [done|]). split.
  - intros Hl. unfold op_eqb in Hop. by rewrite bool_decide_true in Hop.
  - intros r Hr. rewrite Hr in Hd. by apply Z.eqb_eq.
Qed.

Lemma modelsb_models p e : modelsb p e = true -> models p e.
Proof.
  unfold modelsb, models.
  assert (H : forall l vs, modelsb_loop p e l vs = true -> Forall2 (inst_ok p e) l vs); [|by apply H].
  induction l as [|i l IH]; intros [|v vs]; try done; simpl.
  intros [Hi Hr]%andb_true_iff. constructor; [by apply inst_okb_ok|by apply IH].
Qed.
