(* ===== verification/MulConst.v ===== *)
(** * Multiplication by a constant: [optimizer/multiplybyconstant.cpp]

    A [MulMethod] is a program for a stack machine, an array of operation codes
    with their inline operands.  [planMul] writes one for a multiplier, [apply]
    runs it on a number and [genCode] runs it on operands, generating
    instructions.  The planners that [planMul] no longer calls ([planMulNeg],
    [planMulFactor], [planMulLarge], [planMulCompound]) are not modelled. *)
From S2P Require Import Prelude OptArith IR ConstFold Gen.

(** ** Methods *)

Inductive MulOp :=
  | pushc | pushy | swap | dup | shladd | add | sub | neg | shiftl | dup2 | dup3.

(** The value of the enumerator, as stored in [data]. *)
Definition mulop_code (op : MulOp) : Z :=
  match op with
  | pushc => 0 | pushy => 1 | swap => 2 | dup => 3 | shladd => 4 | add => 5
  | sub => 6 | neg => 7 | shiftl => 8 | dup2 => 9 | dup3 => 10
  end.
Definition mulop_of (code : Z) : option MulOp :=
  match code with
  | 0 => Some pushc | 1 => Some pushy | 2 => Some swap | 3 => Some dup | 4 => Some shladd
  | 5 => Some add | 6 => Some sub | 7 => Some neg | 8 => Some shiftl | 9 => Some dup2
  | 10 => Some dup3 | _ => None
  end.

Definition methodLen : nat := 400.
Definition stackDepth : nat := 400.
Definition numMulOpnds (op : MulOp) : Z :=
  match op with pushc | shladd | shiftl => 1 | _ => 0 end.

Definition COST_LOADY : Z := 0.
Definition COST_NEG : Z := 1.
Definition COST_ADD : Z := 1.
Definition COST_SUB : Z := 1.

(** [data] up to [len], and [foripf]; the other members follow from it. *)
Record MulMethod := MkMulMethod { data : list Z; foripf : bool }.

Definition COST_ADDSHIFT_SMALL (m : MulMethod) : Z := if foripf m then 1 else 2.
Definition COST_SHIFT (m : MulMethod) : Z := if foripf m then 1 else 4.
Definition SMALL_SHIFT_MAXBITS (m : MulMethod) : Z := if foripf m then 4 else 3.

Definition new_MulMethod (ipf : bool) : MulMethod := MkMulMethod [] ipf.

Definition append (m : MulMethod) (op : MulOp) : MulMethod :=
  MkMulMethod (data m ++ [mulop_code op]) (foripf m).
Definition append1 (m : MulMethod) (op : MulOp) (opnd : Z) : MulMethod :=
  MkMulMethod (data m ++ [mulop_code op; opnd]) (foripf m).

(** ** Running a method on a number *)

(** The loop of [apply], at the [int] width [w = 32] there: a stack, top first,
    of values with the cycle each is ready; [None] for a failed assertion. *)
Fixpoint apply_loop (m : MulMethod) (w y : Z) (code : list Z) (st : list (Z * Z))
  : option (list (Z * Z)) :=
  match code with
  | [] => Some st
  | c :: code =>
      match mulop_of c, code, st with
      | Some pushc, k :: code, _ => apply_loop m w y code ((k, 0) :: st)
      | Some pushy, _, _ => apply_loop m w y code ((y, COST_LOADY) :: st)
      | Some swap, _, a :: b :: st => apply_loop m w y code (b :: a :: st)
      | Some dup, _, a :: st => apply_loop m w y code (a :: a :: st)
      | Some dup2, _, a :: b :: st => apply_loop m w y code (b :: a :: b :: st)
      | Some dup3, _, a :: b :: c :: st => apply_loop m w y code (c :: a :: b :: c :: st)
      | Some add, _, (a, ta) :: (b, tb) :: st =>
          apply_loop m w y code ((sx w (b + a), Z.max tb ta + COST_ADD) :: st)
      | Some sub, _, (a, ta) :: (b, tb) :: st =>
          apply_loop m w y code ((sx w (b - a), Z.max tb ta + COST_SUB) :: st)
      | Some shladd, k :: code, (a, ta) :: (b, tb) :: st =>
          if k <=? SMALL_SHIFT_MAXBITS m then
            apply_loop m w y code
              ((sx w (sx w (Z.shiftl b k) + a), Z.max tb ta + COST_ADDSHIFT_SMALL m) :: st)
          else None
      | Some neg, _, (a, ta) :: st => apply_loop m w y code ((sx w (- a), ta + COST_NEG) :: st)
      | Some shiftl, k :: code, (a, ta) :: st =>
          apply_loop m w y code ((sx w (Z.shiftl a k), ta + COST_SHIFT m) :: st)
      | _, _, _ => None
      end
  end.

(** The value left and its latency. *)
Definition apply (m : MulMethod) (y : Z) : option (Z * Z) :=
  match apply_loop m 32 y (data m) [] with Some [r] => Some r | _ => None end.

(** ** Planning *)

Definition planMulLookup (m : MulMethod) (d : Z) : option MulMethod :=
  match d with
  | 0 => Some (append1 m pushc 0)
  | 1 => Some (append m pushy)
  | 2 => let m := append m pushy in let m := append1 m pushc 0 in Some (append1 m shladd 1)
  | 3 => let m := append m pushy in let m := append m dup in Some (append1 m shladd 1)
  | 4 => let m := append m pushy in let m := append1 m pushc 0 in Some (append1 m shladd 2)
  | 5 => let m := append m pushy in let m := append m dup in Some (append1 m shladd 2)
  | 6 =>
      let m := append m pushy in let m := append m dup in let m := append1 m shladd 1 in
      let m := append1 m pushc 0 in Some (append1 m shladd 1)
  | 7 =>
      let m := append m pushy in let m := append m dup in let m := append1 m shladd 1 in
      let m := append m pushy in Some (append1 m shladd 1)
  | 8 => let m := append m pushy in let m := append1 m pushc 0 in Some (append1 m shladd 3)
  | 9 => let m := append m pushy in let m := append m dup in Some (append1 m shladd 3)
  | 10 =>
      let m := append m pushy in let m := append m dup in let m := append1 m shladd 2 in
      let m := append1 m pushc 0 in Some (append1 m shladd 1)
  | 11 =>
      let m := append m pushy in let m := append m dup in let m := append1 m shladd 2 in
      let m := append m pushy in Some (append1 m shladd 1)
  | 12 =>
      let m := append m pushy in let m := append m dup in let m := append1 m shladd 1 in
      let m := append1 m pushc 0 in Some (append1 m shladd 2)
  | 13 =>
      let m := append m pushy in let m := append m dup in let m := append1 m shladd 1 in
      let m := append m pushy in Some (append1 m shladd 2)
  | 14 =>
      let m := append m pushy in let m := append m dup in let m := append1 m shladd 1 in
      let m := append m pushy in let m := append1 m shladd 1 in
      let m := append1 m pushc 0 in Some (append1 m shladd 1)
  | 15 =>
      let m := append m pushy in let m := append m dup in let m := append1 m shladd 1 in
      let m := append m dup in Some (append1 m shladd 2)
  | 16 =>
      let m := append m pushy in
      if SMALL_SHIFT_MAXBITS m =? 4 then
        let m := append1 m pushc 0 in Some (append1 m shladd 4)
      else if SMALL_SHIFT_MAXBITS m =? 3 then Some (append1 m shiftl 4)
      else None
  | 17 =>
      let m := append m pushy in let m := append1 m pushc 0 in let m := append1 m shladd 3 in
      let m := append m pushy in Some (append1 m shladd 1)
  | 18 =>
      let m := append m pushy in let m := append m dup in let m := append1 m shladd 3 in
      let m := append1 m pushc 0 in Some (append1 m shladd 1)
  | 19 =>
      let m := append m pushy in let m := append m dup in let m := append1 m shladd 3 in
      let m := append m pushy in Some (append1 m shladd 1)
  | 20 =>
      let m := append m pushy in let m := append m dup in let m := append1 m shladd 2 in
      let m := append1 m pushc 0 in Some (append1 m shladd 2)
  | 21 =>
      let m := append m pushy in let m := append m dup in let m := append1 m shladd 2 in
      let m := append m pushy in Some (append1 m shladd 2)
  | 22 =>
      let m := append m pushy in let m := append m dup in let m := append1 m shladd 2 in
      let m := append m pushy in let m := append1 m shladd 1 in
      let m := append1 m pushc 0 in Some (append1 m shladd 1)
  | 23 =>
      let m := append m pushy in let m := append m dup in let m := append1 m shladd 2 in
      let m := append m pushy in let m := append1 m shladd 1 in
      let m := append m pushy in Some (append1 m shladd 1)
  | 24 =>
      let m := append m pushy in let m := append m dup in let m := append1 m shladd 1 in
      let m := append1 m pushc 0 in Some (append1 m shladd 3)
  | 25 =>
      let m := append m pushy in let m := append m dup in let m := append1 m shladd 1 in
      let m := append m pushy in Some (append1 m shladd 3)
  | 26 =>
      let m := append m pushy in let m := append m dup in let m := append1 m shladd 1 in
      let m := append m pushy in let m := append1 m shladd 2 in
      let m := append1 m pushc 0 in Some (append1 m shladd 1)
  | 27 =>
      let m := append m pushy in let m := append m dup in let m := append1 m shladd 1 in
      let m := append m dup in Some (append1 m shladd 3)
  | 28 =>
      let m := append m pushy in let m := append m dup in let m := append1 m shladd 1 in
      let m := append m pushy in let m := append1 m shladd 1 in
      let m := append1 m pushc 0 in Some (append1 m shladd 2)
  | 29 =>
      let m := append m pushy in let m := append m dup in let m := append1 m shladd 1 in
      let m := append m pushy in let m := append1 m shladd 1 in
      let m := append m pushy in Some (append1 m shladd 2)
  | 30 =>
      let m := append m pushy in let m := append m dup in let m := append1 m shladd 1 in
      let m := append m dup in let m := append1 m shladd 2 in
      let m := append1 m pushc 0 in Some (append1 m shladd 1)
  | 31 =>
      let m := append m pushy in let m := append m dup in let m := append1 m shladd 1 in
      let m := append m dup in let m := append1 m shladd 2 in
      let m := append m pushy in Some (append1 m shladd 1)
  | _ => None
  end.

(** [planMul<inttype, width>]; the depth only indents debugging output. *)
Definition planMul (m : MulMethod) (w d : Z) : option MulMethod :=
  if d =? -1 then let m := append m pushy in Some (append m neg)
  else if d =? 1 then Some (append m pushy)
  else if d =? 0 then Some (append1 m pushc 0)
  else if d =? sx w (- d) then
    let k := w - 1 in
    let m := append m pushy in Some (append1 m shiftl k)
  else if (d <? 32) && (0 <? d) then planMulLookup m d
  else if isPowerOf2 w d then
    let k := whichPowerOf2 w d in
    let m := append m pushy in Some (append1 m shiftl k)
  else Some m.

(** ** Generating code *)

(** The loop of [genCode]: the stack, top first, is of operands. *)
Fixpoint genCode_loop (m : MulMethod) (type : Tag) (width32 : bool) (y : Opnd)
  (code : list Z) (st : list Opnd) : Gen (list Opnd) :=
  match code with
  | [] => gret st
  | c :: code =>
      match mulop_of c, code, st with
      | Some pushc, val :: code, _ =>
          let* op := (if width32 then genLdConstant_i4 val else genLdConstant_i8 val) in
          genCode_loop m type width32 y code (op :: st)
      | Some pushy, _, _ => genCode_loop m type width32 y code (y :: st)
      | Some swap, _, a :: b :: st => genCode_loop m type width32 y code (b :: a :: st)
      | Some dup, _, a :: st => genCode_loop m type width32 y code (a :: a :: st)
      | Some dup2, _, a :: b :: st => genCode_loop m type width32 y code (b :: a :: b :: st)
      | Some dup3, _, a :: b :: c :: st =>
          genCode_loop m type width32 y code (c :: a :: b :: c :: st)
      | Some add, _, a :: b :: st =>
          let* r := genAdd type mod_arith b a in
          genCode_loop m type width32 y code (r :: st)
      | Some sub, _, a :: b :: st =>
          let* r := genSub type mod_arith b a in
          genCode_loop m type width32 y code (r :: st)
      | Some shladd, val :: code, a :: b :: st =>
          if val <=? SMALL_SHIFT_MAXBITS m then
            let* op := genLdConstant_i4 val in
            let* r := genShladd type b op a in
            genCode_loop m type width32 y code (r :: st)
          else gfail
      | Some neg, _, a :: st =>
          let* r := genNeg type a in
          genCode_loop m type width32 y code (r :: st)
      | Some shiftl, val :: code, a :: st =>
          let* op := genLdConstant_i4 val in
          let* r := genShl type (shiftmask_bits ShiftMask_None) a op in
          genCode_loop m type width32 y code (r :: st)
      | _, _, _ => gfail
      end
  end.

Definition genCode (m : MulMethod) (type : Tag) (y : Opnd) : Gen (option Opnd) :=
  let* t := gget (fun p => opnd_type p y) in
  let* tag := gopt t in
  let width32 := tag_eqb tag Int32 || tag_eqb tag UInt32 in
  match data m with
  | [] => gret None (* no reduction *)
  | _ =>
      let* st := genCode_loop m type width32 y (data m) [] in
      match st with [r] => gret (Some r) | _ => gfail end
  end.

(** [Simplifier::planMul32] and [Simplifier::planMul64] *)
Definition planMul_gen (ia32_code_gen : bool) (w multiplier : Z) (opnd : Opnd) : Gen (option Opnd) :=
  let* method := gopt (planMul (new_MulMethod (negb ia32_code_gen)) w multiplier) in
  let* t := gget (fun p => opnd_type p opnd) in
  let* type := gopt t in
  genCode method type opnd.
Definition planMul32 (ia32_code_gen : bool) : Z -> Opnd -> Gen (option Opnd) := planMul_gen ia32_code_gen 32.
Definition planMul64 (ia32_code_gen : bool) : Z -> Opnd -> Gen (option Opnd) := planMul_gen ia32_code_gen 64.

(** ** Plans compute the product *)

(** The only constant pushed is 0 and the shifts are within the width. *)
Fixpoint plain (w : Z) (code : list Z) : bool :=
  match code with
  | [] => true
  | c :: code =>
      match mulop_of c, code with
      | Some pushc, k :: code => (k =? 0) && plain w code
      | Some (shladd | shiftl), k :: code => (0 <=? k) && (k <? w) && plain w code
      | _, _ => plain w code
      end
  end.

(** The stack of the method run on [y], from the one of the method run on 1. *)
Definition times (w y : Z) (st : list (Z * Z)) : list (Z * Z) :=
  (fun vt => (sx w (vt.1 * y), vt.2)) <$> st.

(** Methods are linear. *)
Lemma apply_loop_linear m w y code st st' : 0 < w -> is_s w y ->
  plain w code = true -> apply_loop m w 1 code st = Some st' ->
  apply_loop m w y code (times w y st) = Some (times w y st').
Proof.
  intros Hw Hy. remember (length code) as n eqn:Hn. revert code Hn st st'.
  induction n as [n IH] using (well_founded_induction lt_wf). intros code Hn st st' Hp Hr.
  destruct code as [|c code]; [by simplify_eq/=|]. cbn [apply_loop plain] in *.
  assert (IH' : forall code' st0, (length code' < n)%nat -> plain w code' = true ->
    apply_loop m w 1 code' st0 = Some st' -> apply_loop m w y code' (times w y st0) = Some (times w y st')).
  { intros. eapply IH; eauto. }
  assert (Hlen : (length code < n)%nat) by (simpl in Hn; lia).
  destruct (mulop_of c) as [[]|]; try done.
  - destruct code as [|k code]; [done|]. apply andb_true_iff in Hp as [Hk%Z.eqb_eq Hp]. subst k.
    eapply (IH' code) in Hr; [|simpl in Hlen; lia|done]. rewrite <- Hr. simpl. do 3 f_equal.
    by rewrite sx_id by (done || by apply is_s_0).
  - eapply (IH' code) in Hr; [|done|done]. rewrite <- Hr. unfold times at 2. cbn [fmap list_fmap fst snd].
    by rewrite Z.mul_1_l, sx_id.
  - destruct st as [|a [|b st]]; try done. by eapply (IH' code) in Hr.
  - destruct st as [|a st]; try done. by eapply (IH' code) in Hr.
  - destruct code as [|k code]; [done|]. apply andb_true_iff in Hp as [[Hk%Z.leb_le Hk']%andb_true_iff Hp].
    destruct st as [|[a ta] [|[b tb] st]]; try done. case_match; [|done].
    eapply (IH' code) in Hr; [|simpl in Hlen; lia|done]. rewrite <- Hr.
    unfold times. cbn [fmap list_fmap fst snd]. do 3 f_equal.
    apply eqm_sx_iff. rewrite !Z.shiftl_mul_pow2 by done. rewrite !eqm_sx.
    apply eq_eqm. ring.
  - destruct st as [|[a ta] [|[b tb] st]]; try done.
    eapply (IH' code) in Hr; [|done|done]. rewrite <- Hr.
    unfold times. cbn [fmap list_fmap fst snd]. do 3 f_equal.
    apply eqm_sx_iff. rewrite !eqm_sx. apply eq_eqm. ring.
  - destruct st as [|[a ta] [|[b tb] st]]; try done.
    eapply (IH' code) in Hr; [|done|done]. rewrite <- Hr.
    unfold times. cbn [fmap list_fmap fst snd]. do 3 f_equal.
    apply eqm_sx_iff. rewrite !eqm_sx. apply eq_eqm. ring.
  - destruct st as [|[a ta] st]; try done.
    eapply (IH' code) in Hr; [|done|done]. rewrite <- Hr.
    unfold times. cbn [fmap list_fmap fst snd]. do 3 f_equal.
    apply eqm_sx_iff. rewrite !eqm_sx. apply eq_eqm. ring.
  - destruct code as [|k code]; [done|]. apply andb_true_iff in Hp as [[Hk%Z.leb_le Hk']%andb_true_iff Hp].
    destruct st as [|[a ta] st]; try done.
    eapply (IH' code) in Hr; [|simpl in Hlen; lia|done]. rewrite <- Hr.
    unfold times. cbn [fmap list_fmap fst snd]. do 3 f_equal.
    apply eqm_sx_iff. rewrite !Z.shiftl_mul_pow2 by done. rewrite !eqm_sx. apply eq_eqm. ring.
  - destruct st as [|a [|b st]]; try done. by eapply (IH' code) in Hr.
  - destruct st as [|a [|b [|d st]]]; try done. by eapply (IH' code) in Hr.
Qed.

(** What a finished plan is: nothing, or a plain method for the multiplier. *)
Definition plan_ok (w d : Z) (m : MulMethod) : Prop :=
  data m = [] \/ (plain w (data m) = true /\
                  exists t, apply_loop m w 1 (data m) [] = Some [(sx w d, t)]).

Definition plan_okb (w d : Z) (m : MulMethod) : bool :=
  plain w (data m) &&
  match apply_loop m w 1 (data m) [] with Some [(v, _)] => v =? sx w d | _ => false end.

Lemma plan_okb_ok w d m : plan_okb w d m = true -> plan_ok w d m.
Proof.
  unfold plan_okb. intros [Hp H]%andb_true_iff. right. split; [done|].
  destruct (apply_loop _ _ _ _ _) as [[|[v t] [|]]|]; try done.
  apply Z.eqb_eq in H as ->. by exists t.
Qed.

(** The table is right at every entry, for both targets and widths. *)
Lemma planMulLookup_ok ipf w d : w = 32 \/ w = 64 -> 0 <= d < 32 ->
  exists m, planMulLookup (new_MulMethod ipf) d = Some m /\ plan_ok w d m.
Proof.
  intros Hw Hd.
  set (good := fun (ipf : bool) (w : Z) (d : nat) =>
    match planMulLookup (new_MulMethod ipf) (Z.of_nat d) with
    | Some m => plan_okb w (Z.of_nat d) m | None => false end).
  assert (Hall : Forall (fun d => good ipf w d = true) (seq 0 32)).
  { apply Forall_lookup. intros i x Hx.
    assert (Hb : forallb (good ipf w) (seq 0 32) = true) by (by destruct Hw as [-> | ->], ipf; vm_compute).
    rewrite forallb_forall in Hb. apply Hb. apply list_elem_of_In. by eapply list_elem_of_lookup_2. }
  rewrite Forall_lookup in Hall. specialize (Hall (Z.to_nat d) (Z.to_nat d)).
  rewrite lookup_seq in Hall. specialize (Hall ltac:(lia)). unfold good in Hall.
  rewrite Z2Nat.id in Hall by lia. destruct (planMulLookup _ _) as [m|]; [|done].
  exists m. split; [done|]. by apply plan_okb_ok.
Qed.

(** A negative power of two other than the lowest number. *)
Definition neg_power (w d : Z) : Prop := exists k, 0 < k < w - 1 /\ d = - 2 ^ k.

Lemma plan_shift_ok w k m : 0 <= k < w -> data m = [1; 8; k] -> plan_ok w (2 ^ k) m.
Proof.
  intros Hk Hd. right. rewrite Hd. split.
  - simpl. rewrite (proj2 (Z.leb_le 0 k)), (proj2 (Z.ltb_lt k w)) by lia. done.
  - eexists. simpl. by rewrite Z.shiftl_mul_pow2, Z.mul_1_l by lia.
Qed.

Lemma planMul_ok ipf w d : w = 32 \/ w = 64 -> is_s w d -> ~ neg_power w d ->
  exists m, planMul (new_MulMethod ipf) w d = Some m /\ plan_ok w d m.
Proof.
  intros Hw Hd Hn. unfold planMul.
  assert (Hpos : 0 < w) by lia. pose proof (pow2_half w Hpos) as Hhalf.
  destruct (Z.eqb_spec d (-1)) as [->|].
  { eexists; split; [done|]. apply plan_okb_ok. by destruct Hw as [-> | ->]. }
  destruct (Z.eqb_spec d 1) as [->|].
  { eexists; split; [done|]. apply plan_okb_ok. by destruct Hw as [-> | ->]. }
  destruct (Z.eqb_spec d 0) as [->|].
  { eexists; split; [done|]. apply plan_okb_ok. by destruct Hw as [-> | ->]. }
  destruct (Z.eqb_spec d (sx w (- d))) as [He|He].
  { eexists; split; [done|].
    assert (d = - 2 ^ (w - 1)) as ->.
    { assert (H2 : d ≡[w] - d) by (rewrite He at 1; apply eqm_sx).
      destruct H2 as [q Hq]. unfold is_s in Hd. rewrite Hhalf in Hq.
      pose proof (pow2_pos (w - 1) ltac:(lia)). set (P := 2 ^ (w - 1)) in *.
      assert (d = q * P) as Hdq by lia. assert (-2 < q < 2) by nia.
      assert (q = -1 \/ q = 0 \/ q = 1) as [-> | [-> | ->]] by lia; lia. }
    destruct (plan_shift_ok w (w - 1) (MkMulMethod [1; 8; w - 1] ipf) ltac:(lia) eq_refl)
      as [?|[Hpl (t & Ht)]]; [done|].
    right. split; [exact Hpl|]. exists t. etransitivity; [exact Ht|]. do 3 f_equal.
    apply eqm_sx_iff. exists 1. rewrite Hhalf. lia. }
  destruct (Z.ltb_spec d 32), (Z.ltb_spec 0 d); cbn [andb];
    [apply planMulLookup_ok; [done|lia]| | |].
  all: destruct (isPowerOf2 w d) eqn:Hp; [|eexists; split; [done|by left]].
  all: apply isPowerOf2_spec in Hp as [?|(k & Hk & Hdk)]; [lia| |lia|done].
  all: rewrite (whichPowerOf2_spec w d k) by done.
  - destruct (Z.ltb_spec d 0); [|lia]. exfalso. apply Hn. exists k. split; [|lia].
    destruct (decide (k = 0)) as [->|]; [change (2 ^ 0) with 1 in Hdk; lia|].
    destruct (decide (k = w - 1)) as [->|]; [|lia].
    exfalso. apply He. replace d with (- 2 ^ (w - 1)) by lia. rewrite Z.opp_involutive.
    transitivity (sx w (- 2 ^ (w - 1))).
    + symmetry. apply sx_id; [done|]. unfold is_s. pose proof (pow2_pos (w - 1)). lia.
    + apply eqm_sx_iff. exists (-1). rewrite Hhalf. lia.
  - destruct (Z.ltb_spec d 0); [lia|]. simpl. eexists; split; [done|].
    rewrite Z.abs_eq in Hdk by lia. subst d. by apply plan_shift_ok.
  - lia.
Qed.

(** ** Generated code computes what the method computes *)

Lemma int_width_arith t w : int_width t = Some w -> arith_width t = Some w.
Proof. by destruct t. Qed.

Definition stack_holds (p : prog) (e : env) (t : Tag) : list Opnd -> list (Z * Z) -> Prop :=
  Forall2 (fun o vt => holds p e o t vt.1).

Lemma stack_holds_mono p e p' e' t ops st : extends p e p' e' ->
  stack_holds p e t ops st -> stack_holds p' e' t ops st.
Proof. intros Hx H. eapply Forall2_impl; [|exact H]. intros ??. by apply holds_mono. Qed.

Lemma is_s_small w k : 0 <= k < w -> w = 32 \/ w = 64 -> sx 32 k = k.
Proof. intros Hk Hw. apply sx_id; [done|]. unfold is_s. change (2 ^ (32 - 1)) with 0x80000000. lia. Qed.

Lemma genCode_loop_ok m t w y vy code p e ops st st' :
  int_width t = Some w -> models p e -> holds p e y t vy -> plain w code = true ->
  apply_loop m w vy code st = Some st' -> stack_holds p e t ops st ->
  wp (genCode_loop m t (w =? 32) y code ops) p e (fun p' e' ops' => stack_holds p' e' t ops' st').
Proof.
  intros Ht Hm Hy Hp Hr Hst. pose proof (int_width_arith t w Ht) as Hw.
  destruct (arith_width_pos t w Hw) as [Hpos Hw'].
  remember (length code) as n eqn:Hn. revert code Hn p e ops st Hm Hy Hp Hr Hst.
  induction n as [n IH] using (well_founded_induction lt_wf).
  intros code Hn p e ops st Hm Hy Hp Hr Hst.
  destruct code as [|c code]; [simplify_eq/=; by apply wp_ret|]. cbn [apply_loop plain genCode_loop] in *.
  assert (IH' : forall code' p' e' ops0 st0, (length code' < n)%nat -> extends p e p' e' ->
    models p' e' -> plain w code' = true -> apply_loop m w vy code' st0 = Some st' ->
    stack_holds p' e' t ops0 st0 ->
    wp (genCode_loop m t (w =? 32) y code' ops0) p' e' (fun p'' e'' ops' => stack_holds p'' e'' t ops' st')).
  { intros code' p' e' ops0 st0 Hl Hx Hm' Hp' Hr' Hst'.
    eapply (IH (length code')); try done. by eapply holds_mono. }
  assert (Hlen : (length code < n)%nat) by (simpl in Hn; lia).
  pose proof (extends_id p e) as Hid.
  (* the stack of operands has the shape of the stack of values *)
  assert (Hstep : forall (g : Gen Opnd) code' ops0 st0 v tm,
    (length code' < n)%nat -> plain w code' = true -> stack_holds p e t ops0 st0 ->
    apply_loop m w vy code' ((v, tm) :: st0) = Some st' ->
    wp g p e (fun p' e' o => holds p' e' o t v) ->
    wp (let* r := g in genCode_loop m t (w =? 32) y code' (r :: ops0)) p e
       (fun p' e' ops' => stack_holds p' e' t ops' st')).
  { intros g code' ops0 st0 v tm Hl Hpl Hs Hrun Hg. apply wp_bind.
    eapply wp_mono; [exact Hg|]. intros p' e' o _ _ Ho Hx Hm'.
    eapply IH'; try done. constructor; [done|]. by eapply stack_holds_mono. }
  unfold stack_holds in Hst.
  destruct (mulop_of c) as [[]|]; try done.
  - destruct code as [|k code]; [done|]. apply andb_true_iff in Hp as [Hk%Z.eqb_eq Hp]. subst k.
    eapply Hstep; [simpl in Hlen; lia|done|done|exact Hr|].
    destruct t; simplify_eq/=; [apply wp_genLdConstant_i4|apply wp_genLdConstant_i8]; try done.
  - eapply IH'; try done. by constructor.
  - destruct Hst as [|a [va ta] ops1 st1 Ha [|b [vb tb] ops2 st2 Hb Hst]]; try done.
    eapply IH'; try done. by repeat constructor.
  - destruct Hst as [|a [va ta] ops1 st1 Ha Hst]; try done.
    eapply IH'; try done. by repeat constructor.
  - destruct code as [|k code]; [done|].
    apply andb_true_iff in Hp as [[Hk%Z.leb_le Hk'%Z.ltb_lt]%andb_true_iff Hp].
    destruct Hst as [|a [va ta] ops1 st1 Ha [|b [vb tb] ops2 st2 Hb Hst]]; try done. case_match; [|done].
    apply wp_bind, wp_genLdConstant_i4; [done|]. intros p1 e1 o Hx1 Ho _ Hm1.
    rewrite (is_s_small w k) in Ho by (done || lia).
    apply wp_bind. eapply (wp_genShladd p1 e1 Hm1 _ t w Int32 b o a vb k va); try done;
      [by eapply holds_mono..|]. intros p2 e2 r Hx2 Hr2 _ Hm2.
    eapply IH'; [simpl in Hlen; lia|by eapply extends_trans|done|done|exact Hr|].
    constructor.
    + simpl. replace (sx w (sx w (Z.shiftl vb k) + va)) with (sx w (vb * 2 ^ k + va)); [done|].
      apply eqm_sx_iff. by rewrite eqm_sx, Z.shiftl_mul_pow2.
    + apply (stack_holds_mono p e); [by eapply extends_trans|done].
  - destruct Hst as [|a [va ta] ops1 st1 Ha [|b [vb tb] ops2 st2 Hb Hst]]; try done.
    eapply Hstep; [done|done|done|exact Hr|].
    eapply (wp_binary p e Hm _ Op_Add); try done. by apply sx_range.
  - destruct Hst as [|a [va ta] ops1 st1 Ha [|b [vb tb] ops2 st2 Hb Hst]]; try done.
    eapply Hstep; [done|done|done|exact Hr|].
    eapply (wp_binary p e Hm _ Op_Sub); try done. by apply sx_range.
  - destruct Hst as [|a [va ta] ops1 st1 Ha Hst]; try done.
    eapply Hstep; [done|done|done|exact Hr|]. by eapply wp_genNeg.
  - destruct code as [|k code]; [done|].
    apply andb_true_iff in Hp as [[Hk%Z.leb_le Hk'%Z.ltb_lt]%andb_true_iff Hp].
    destruct Hst as [|a [va ta] ops1 st1 Ha Hst]; try done.
    apply wp_bind, wp_genLdConstant_i4; [done|]. intros p1 e1 o Hx1 Ho _ Hm1.
    rewrite (is_s_small w k) in Ho by (done || lia).
    apply wp_bind. eapply (wp_genShl p1 e1 Hm1 _ t w Int32 a o va k); try done;
      [by eapply holds_mono..|]. intros p2 e2 r Hx2 Hr2 _ Hm2.
    eapply IH'; [simpl in Hlen; lia|by eapply extends_trans|done|done|exact Hr|].
    constructor.
    + simpl. by rewrite Z.shiftl_mul_pow2.
    + apply (stack_holds_mono p e); [by eapply extends_trans|done].
  - destruct Hst as [|a [va ta] ops1 st1 Ha [|b [vb tb] ops2 st2 Hb Hst]]; try done.
    eapply IH'; try done. by repeat constructor.
  - destruct Hst as [|a [va ta] ops1 st1 Ha [|b [vb tb] ops2 st2 Hb [|d [vd td] ops3 st3 Hd Hst]]]; try done.
    eapply IH'; try done. by repeat constructor.
Qed.

(** A multiplication planned and generated: the operand, when there is one,
    has the value of the product. *)
Lemma planMul_gen_ok ia32 t w y vy d p e :
  int_width t = Some w -> models p e -> holds p e y t vy -> is_s w d -> ~ neg_power w d ->
  wp (planMul_gen ia32 w d y) p e
    (fun p' e' r => match r with None => True | Some o => holds p' e' o t (sx w (d * vy)) end).
Proof.
  intros Ht Hm Hy Hd Hn. destruct (arith_width_pos t w (int_width_arith t w Ht)) as [Hpos Hw'].
  pose proof (holds_type p e y t vy Hm Hy) as Hty. rewrite (has_type_int t w) in Hty by (by apply int_width_arith).
  destruct (planMul_ok (negb ia32) w d Hw' Hd Hn) as (m & Hplan & Hok).
  assert (Hot : opnd_type p y = Some t).
  { unfold holds, opnd_val in Hy. destruct (opnd_type p y); [|done]. simpl in Hy.
    destruct (e !! y); by simplify_eq/=. }
  unfold planMul_gen, genCode. rewrite Hplan.
  apply wp_bind, wp_ret; [done|]. intros _ _. apply wp_bind, wp_get; [done|]. intros _ _.
  rewrite Hot. apply wp_bind, wp_ret; [done|]. intros _ _. apply wp_bind, wp_get; [done|]. intros _ _.
  rewrite Hot. apply wp_bind, wp_ret; [done|]. intros _ _.
  destruct Hok as [-> | (Hpl & tm & Hrun)]; [by apply wp_ret|].
  destruct (data m) as [|c code] eqn:Ed; [by apply wp_ret|]. rewrite <- Ed in *.
  apply (apply_loop_linear m w vy) in Hrun; [|done|done|done].
  assert (H32 : tag_eqb t Int32 || tag_eqb t UInt32 = (w =? 32)) by (by destruct t; simplify_eq/=).
  rewrite H32. apply wp_bind.
  eapply wp_mono; [eapply genCode_loop_ok; try done; constructor|].
  intros p' e' ops _ _ Hst _ Hm'. unfold stack_holds, times in Hst. simpl in Hst.
  apply Forall2_cons_inv_r in Hst as (o & l & Ho & Hl & ->).
  apply Forall2_nil_inv_r in Hl as ->. apply wp_ret; [done|]. simpl in Ho.
  replace (sx w (d * vy)) with (sx w (sx w d * vy)); [done|]. apply eqm_sx_iff. by rewrite eqm_sx.
Qed.

(** ** What multiplication by a constant promises *)

(** C38: the method planned for a multiplier, when there is one, fits its array
    and run on any [int] gives the wrapped product; the exceptions are the
    negative powers of two. *)
Theorem planMul_apply ipf d y : is_s 32 d -> is_s 32 y -> ~ neg_power 32 d ->
  exists m, planMul (new_MulMethod ipf) 32 d = Some m /\
    (data m <> [] -> exists latency, apply m y = Some (sx 32 (d * y), latency)).
Proof.
  intros Hd Hy Hn. destruct (planMul_ok ipf 32 d ltac:(by left) Hd Hn) as (m & Hm & Hok).
  exists m. split; [done|]. intros Hne. destruct Hok as [?|(Hp & t & Hr)]; [done|].
  apply (apply_loop_linear m 32 y) in Hr; [|done|done|done].
  exists t. unfold apply. change (times 32 y []) with (@nil (Z * Z)) in Hr. rewrite Hr.
  simpl. do 2 f_equal. apply eqm_sx_iff. by rewrite eqm_sx.
Qed.

Lemma planMul_apply_witness :
  exists m, planMul (new_MulMethod false) 32 29 = Some m /\
    (data m <> [] -> exists latency, apply m 1000000000 = Some (sx 32 (29 * 1000000000), latency)).
Proof.
  apply (planMul_apply false 29 1000000000); [by vm_compute|by vm_compute|].
  intros (k & Hk & Hd). pose proof (pow2_pos k ltac:(lia)). lia.
Defined.

(** multiplication of an operand by a constant generates, when it generates
    anything, instructions whose result is the wrapped product, at both
    widths and for both targets. *)
Theorem planMul_code ia32 t w y vy d p e :
  int_width t = Some w -> models p e -> holds p e y t vy -> is_s w d -> ~ neg_power w d ->
  exists p' e' r, planMul_gen ia32 w d y p = Some (p', r) /\ extends p e p' e' /\ models p' e' /\
    match r with None => True | Some o => holds p' e' o t (sx w (d * vy)) end.
Proof. intros. by eapply planMul_gen_ok. Qed.

Lemma planMul_code_witness :
  exists p' e' r, planMul_gen true 64 31 0 [arg Int64] = Some (p', r) /\
    extends [arg Int64] [2 ^ 60] p' e' /\ models p' e' /\
    match r with None => True | Some o => holds p' e' o Int64 (sx 64 (31 * 2 ^ 60)) end.
Proof.
  apply (planMul_code true Int64 64 0%nat (2 ^ 60) 31 [arg Int64] [2 ^ 60]); [done| |done|by vm_compute|].
  - apply (models_arg [] []); [apply models_nil|by vm_compute].
  - intros (k & Hk & Hd). pose proof (pow2_pos k ltac:(lia)). lia.
Defined.

(** ** Divergence *)

(** for a negative power of two [planMul] plans a left shift by the negated
    exponent, which is no shift at all, instead of a shift and a negation. *)
Theorem planMul_neg_power ipf w k : w = 32 \/ w = 64 -> 0 < k < w - 1 ->
  planMul (new_MulMethod ipf) w (- 2 ^ k) = Some (MkMulMethod [1; 8; - k] ipf).
Proof.
  intros Hw Hk. pose proof (pow2_half w ltac:(lia)) as Hhalf.
  assert (2 ^ k < 2 ^ (w - 1)) by (apply Z.pow_lt_mono_r; lia).
  assert (2 ^ 1 <= 2 ^ k) by (apply Z.pow_le_mono_r; lia). change (2 ^ 1) with 2 in *.
  assert (Hd : is_s w (- 2 ^ k)) by (unfold is_s; lia).
  unfold planMul. rewrite Z.opp_involutive, (sx_id w (2 ^ k)) by (lia || unfold is_s; lia).
  rewrite !(proj2 (Z.eqb_neq _ _)) by lia. rewrite (proj2 (Z.ltb_ge 0 (- 2 ^ k))) by lia.
  rewrite andb_false_r, (proj2 (isPowerOf2_spec w (- 2 ^ k) ltac:(lia) Hd)) by (right; exists k; lia).
  rewrite (whichPowerOf2_spec w _ k) by (done || lia).
  rewrite (proj2 (Z.ltb_lt _ _)), (proj2 (Z.eqb_neq k _)) by lia. done.
Qed.

Lemma planMul_neg_power_witness :
  planMul (new_MulMethod false) 32 (-8) = Some (MkMulMethod [1; 8; -3] false).
Proof. exact (planMul_neg_power false 32 3 (or_introl eq_refl) (conj eq_refl eq_refl)). Defined.
