(* ===== verification/Simplify.v ===== *)
(** * Algebraic simplification: [optimizer/simplifier.cpp]

    The arithmetic, logical, conversion and shift simplifications.  Each
    [simplify] function returns the operand that can stand for the operation,
    or [None], the source's [NULL]; it may extend the program.  A failed
    assertion or a [NULL] operand passed on is the failure of the generator.
    The [Reassociate] object of the reassociation pass is absent
    ([theReassociate == NULL]), as in the simplification passes. *)
From Stdlib Require Import SpecFloat.
From S2P Require Import Prelude Floats JavaArith OptArith IR ConstFold Gen MulConst.

(** ** Looking at operands *)

Definition inst_of (o : Opnd) : Gen Inst := fun p => i ← getInst p o; Some (p, i).
Definition src_of (i : Inst) (n : nat) : Gen Opnd := gopt (getSrc i n).
Definition type_of (o : Opnd) : Gen Tag := fun p => t ← opnd_type p o; Some (p, t).

Definition isNeg (i : Inst) : bool := op_eqb (i_opcode i) Op_Neg.
Definition isAdd (i : Inst) : bool := op_eqb (i_opcode i) Op_Add.
Definition isSub (i : Inst) : bool := op_eqb (i_opcode i) Op_Sub.
Definition isAddWithConstant (p : prog) (i : Inst) : bool :=
  op_eqb (i_opcode i) Op_Add && hasConstant p i.
Definition isSubWithConstant (p : prog) (i : Inst) : bool :=
  op_eqb (i_opcode i) Op_Sub && hasConstant p i.
Definition isMultiplyByConstant (p : prog) (i : Inst) : bool :=
  op_eqb (i_opcode i) Op_Mul && hasConstant p i.

(** [assert] *)
Definition gassert (b : bool) : Gen unit := if b then gret tt else gfail.

(** The optimiser's flags that the modelled code reads. *)
Record OptimizerFlags := MkFlags {
  do_sxt : bool;
  lower_divconst : bool;
  use_mulhi : bool;
  ia32_code_gen : bool;
}.

Section simplifier.
Context (POINTER64 : bool) (flags : OptimizerFlags).

(** ** Folding *)

(** The constant of a folded value, by the type. *)
Definition genFolded (type : Tag) (res : ConstValue) : Gen (option Opnd) :=
  match type with
  | Int32 => let* o := genLdConstant_i4 (get_i4 res) in gret (Some o)
  | Int64 => let* o := genLdConstant_i8 (get_i8 res) in gret (Some o)
  | Single => let* o := genLdConstant_s (get_s res) in gret (Some o)
  | Double => let* o := genLdConstant_d (get_d res) in gret (Some o)
  | _ => gfail
  end.

Definition fold_unary (op : Opcode) (type : Tag) (srcInst : Inst) : Gen (option Opnd) :=
  let '(ok, res) := foldConstant_1 type op (i_value srcInst) cv_zero in
  if ok then genFolded type res else gret None.

Definition fold_binary (op : Opcode) (type : Tag) (srcInst1 srcInst2 : Inst) (is_signed : bool)
  : Gen (option Opnd) :=
  let '(ok, res) := foldConstant POINTER64 type op (i_value srcInst1) (i_value srcInst2) cv_zero is_signed in
  if ok then genFolded type res else gret None.

(** The same where the source passes the operand on without a test. *)
Definition fold_binary_opnd (op : Opcode) (type : Tag) (c1 c2 : Inst) : Gen Opnd :=
  let* r := fold_binary op type c1 c2 true in gopt r.
Definition fold_unary_opnd (op : Opcode) (type : Tag) (c : Inst) : Gen Opnd :=
  let* r := fold_unary op type c in gopt r.

(** The constant operand of a commutative instruction, and the other one. *)
Definition split_const (i : Inst) : Gen (Inst * Opnd) :=
  let* s0 := src_of i 0 in
  let* s1 := src_of i 1 in
  let* c0 := gget (fun p => isConstant p s0) in
  if c0 then let* otherConstInst := inst_of s0 in gret (otherConstInst, s1)
  else let* otherConstInst := inst_of s1 in gret (otherConstInst, s0).

Definition foldConstByAddingToAddWithConstant (type : Tag) (constInst addInst : Inst) : Gen Opnd :=
  let* _ := gassert (tag_eqb type (i_type addInst)) in
  let* co := split_const addInst in
  let* constSrc := fold_binary_opnd Op_Add type constInst co.1 in
  genAdd type mod_arith constSrc co.2.

Definition foldConstByAddingToSubWithConstant (type : Tag) (constInst subInst : Inst) : Gen Opnd :=
  let* _ := gassert (tag_eqb type (i_type subInst)) in
  let* s0 := src_of subInst 0 in
  let* s1 := src_of subInst 1 in
  let* c0 := gget (fun p => isConstant p s0) in
  if c0 then
    (* C2 - s *)
    let* otherConstInst := inst_of s0 in
    let* foldedConst := fold_binary_opnd Op_Add type constInst otherConstInst in
    genSub type mod_arith foldedConst s1
  else
    (* s - C2 *)
    let* otherConstInst := inst_of s1 in
    let* foldedConst := fold_binary_opnd Op_Sub type constInst otherConstInst in
    genAdd type mod_arith s0 foldedConst.

(** The operand [constInst->getDst()] of a constant is passed with it. *)
Definition foldConstMultiplyByAddWithConstant (type : Tag) (constOpnd : Opnd) (constInst addInst : Inst)
  : Gen Opnd :=
  let* _ := gassert (tag_eqb type (i_type addInst)) in
  let* co := split_const addInst in
  let* constSrc := fold_binary_opnd Op_Mul type constInst co.1 in
  let* finalMulByConst := genMul type mod_arith constOpnd co.2 in
  genAdd type mod_arith constSrc finalMulByConst.

Definition foldConstMultiplyBySubWithConstant (type : Tag) (constOpnd : Opnd) (constInst subInst : Inst)
  : Gen Opnd :=
  let* _ := gassert (tag_eqb type (i_type subInst)) in
  let* s0 := src_of subInst 0 in
  let* s1 := src_of subInst 1 in
  let* c0 := gget (fun p => isConstant p s0) in
  if c0 then
    (* c2 - s *)
    let* otherConstInst := inst_of s0 in
    let* foldedConst := fold_binary_opnd Op_Mul type constInst otherConstInst in
    let* negC1 := fold_unary_opnd Op_Neg type constInst in
    let* finalMulByConst := genMul type mod_arith negC1 s1 in
    genAdd type mod_arith foldedConst finalMulByConst
  else
    (* s - c2 *)
    let* otherConstInst := inst_of s1 in
    let res := snd (foldConstant POINTER64 type Op_Mul (i_value constInst) (i_value otherConstInst) cv_zero true) in
    let negRes := snd (foldConstant_1 type Op_Neg res cv_zero) in
    let* negFoldedConst :=
      (match type with
       | Int32 => genLdConstant_i4 (get_i4 negRes)
       | Int64 => genLdConstant_i8 (get_i8 negRes)
       | _ => gfail
       end) in
    let* finalMulByConst := genMul type mod_arith constOpnd s0 in
    genAdd type mod_arith negFoldedConst finalMulByConst.

Definition foldConstMultiplyByMulWithConstant (type : Tag) (constInst mulInst : Inst) : Gen Opnd :=
  let* _ := gassert (tag_eqb type (i_type mulInst)) in
  let* co := split_const mulInst in
  let* constSrc := fold_binary_opnd Op_Mul type constInst co.1 in
  genMul type mod_arith constSrc co.2.

(** ** Inversion and reassociation *)

Definition simplifyAddWithNeg (modifier : Modifier) (type : Tag) (src1 src2 : Opnd) : Gen (option Opnd) :=
  let* inst2 := inst_of src2 in
  if isNeg inst2 && tag_eqb (i_type inst2) type then
    let* s3 := src_of inst2 0 in
    let* r := genSub type modifier src1 s3 in
    gret (Some r)
  else gret None.

Definition simplifySubWithNeg (modifier : Modifier) (type : Tag) (src1 src2 : Opnd) : Gen (option Opnd) :=
  let* inst2 := inst_of src2 in
  if isNeg inst2 && tag_eqb (i_type inst2) type then
    let* s3 := src_of inst2 0 in
    let* r := genAdd type modifier src1 s3 in
    gret (Some r)
  else
    let* inst1 := inst_of src1 in
    if isNeg inst1 && tag_eqb (i_type inst1) type then
      let* s3 := src_of inst1 0 in
      let* addOpnd := genAdd type modifier s3 src2 in
      let* r := genNeg type addOpnd in
      gret (Some r)
    else gret None.

(** [src2] is constant. *)
Definition simplifySubViaReassociation_const2 (type : Tag) (src1 src2 : Opnd) : Gen (option (option Opnd)) :=
  let* constInst2 := inst_of src2 in
  let* srcInst1 := inst_of src1 in
  if negb (tag_eqb (i_type srcInst1) type) then gret (Some None)
  else
    let* sub_c := gget (fun p => isSubWithConstant p srcInst1) in
    if sub_c then
      let* s0 := src_of srcInst1 0 in
      let* s1 := src_of srcInst1 1 in
      let* c0 := gget (fun p => isConstant p s0) in
      if c0 then
        (* (C1 - s1) - C2 *)
        let* constInst1 := inst_of s0 in
        let* constSrc := fold_binary_opnd Op_Sub type constInst1 constInst2 in
        let* r := genSub type mod_arith constSrc s1 in
        gret (Some (Some r))
      else
        (* (s1 - C1) - C2 *)
        let* constInst1 := inst_of s1 in
        let* constSrc := fold_binary_opnd Op_Add type constInst2 constInst1 in
        let* constSrcInst := inst_of constSrc in
        let* constSrcNeg := fold_unary_opnd Op_Neg type constSrcInst in
        let* r := genAdd type mod_arith s0 constSrcNeg in
        gret (Some (Some r))
    else
      let* add_c := gget (fun p => isAddWithConstant p srcInst1) in
      if add_c then
        let* co := split_const srcInst1 in
        let* constSrc := fold_binary_opnd Op_Sub type co.1 constInst2 in
        let* r := genAdd type mod_arith co.2 constSrc in
        gret (Some (Some r))
      else gret None.

(** [src1] is constant. *)
Definition simplifySubViaReassociation_const1 (type : Tag) (src1 src2 : Opnd) : Gen (option Opnd) :=
  let* constInst1 := inst_of src1 in
  let* nonConstInst := inst_of src2 in
  if negb (tag_eqb (i_type nonConstInst) type) then gret None
  else
    let* sub_c := gget (fun p => isSubWithConstant p nonConstInst) in
    if sub_c then
      let* s0 := src_of nonConstInst 0 in
      let* s1 := src_of nonConstInst 1 in
      let* c0 := gget (fun p => isConstant p s0) in
      if c0 then
        let* constInst2 := inst_of s0 in
        let* constSrc := fold_binary_opnd Op_Sub type constInst1 constInst2 in
        let* r := genAdd type mod_arith constSrc s1 in
        gret (Some r)
      else
        let* constInst2 := inst_of s1 in
        let* constSrc := fold_binary_opnd Op_Add type constInst1 constInst2 in
        let* r := genSub type mod_arith constSrc s0 in
        gret (Some r)
    else
      let* add_c := gget (fun p => isAddWithConstant p nonConstInst) in
      if add_c then
        let* co := split_const nonConstInst in
        let* constSrc := fold_binary_opnd Op_Sub type constInst1 co.1 in
        let* r := genSub type mod_arith constSrc co.2 in
        gret (Some r)
      else gret None.

(** [None] from the first part: go on with the second. *)
Definition simplifySubViaReassociation (type : Tag) (src1 src2 : Opnd) : Gen (option Opnd) :=
  let* c2 := gget (fun p => isConstant p src2) in
  let* first := (if c2 then simplifySubViaReassociation_const2 type src1 src2 else gret None) in
  match first with
  | Some r => gret r
  | None =>
      let* c1 := gget (fun p => isConstant p src1) in
      if c1 then simplifySubViaReassociation_const1 type src1 src2 else gret None
  end.

Definition simplifyAddViaReassociation (type : Tag) (src1 src2 : Opnd) : Gen (option Opnd) :=
  let* c1 := gget (fun p => isConstant p src1) in
  if c1 then
    let* constInst := inst_of src1 in
    let* srcInst2 := inst_of src2 in
    if negb (tag_eqb (i_type srcInst2) type) then gret None
    else
      let* add_c := gget (fun p => isAddWithConstant p srcInst2) in
      if add_c then
        let* r := foldConstByAddingToAddWithConstant type constInst srcInst2 in gret (Some r)
      else
        let* sub_c := gget (fun p => isSubWithConstant p srcInst2) in
        if sub_c then
          let* r := foldConstByAddingToSubWithConstant type constInst srcInst2 in gret (Some r)
        else gret None
  else gret None.

Definition simplifyMulWithNeg (type : Tag) (src1 src2 : Opnd) : Gen (option Opnd) :=
  let* inst2 := inst_of src2 in
  if isNeg inst2 && tag_eqb (i_type inst2) type then
    let* src3 := src_of inst2 0 in
    let* mulRes := genMul type mod_arith src1 src3 in
    let* r := genNeg type mulRes in
    gret (Some r)
  else gret None.

Definition simplifyMulViaReassociation (type : Tag) (src1 src2 : Opnd) : Gen (option Opnd) :=
  let* c1 := gget (fun p => isConstant p src1) in
  if c1 then
    let* constInst := inst_of src1 in
    let* srcInst2 := inst_of src2 in
    let* add_c := gget (fun p => isAddWithConstant p srcInst2) in
    if add_c then
      let* r := foldConstMultiplyByAddWithConstant type src1 constInst srcInst2 in gret (Some r)
    else
      let* mul_c := gget (fun p => isMultiplyByConstant p srcInst2) in
      if mul_c then
        let* r := foldConstMultiplyByMulWithConstant type constInst srcInst2 in gret (Some r)
      else
        let* sub_c := gget (fun p => isSubWithConstant p srcInst2) in
        if sub_c then
          let* r := foldConstMultiplyBySubWithConstant type src1 constInst srcInst2 in gret (Some r)
        else gret None
  else gret None.

(** ** Arithmetic and logic *)

(** Trying one simplification and then the next. *)
Definition or_else (m1 m2 : Gen (option Opnd)) : Gen (option Opnd) :=
  let* r := m1 in match r with Some o => gret (Some o) | None => m2 end.

(** [ConstantFolder::isConstant(src1) && ConstantFolder::isConstant(src2)], with
    the instructions. *)
Definition both_constant (src1 src2 : Opnd) : Gen bool :=
  gget (fun p => isConstant p src1 && isConstant p src2).

Definition fold_sources (op : Opcode) (type : Tag) (src1 src2 : Opnd) (is_signed : bool) : Gen (option Opnd) :=
  let* i1 := inst_of src1 in
  let* i2 := inst_of src2 in
  fold_binary op type i1 i2 is_signed.

Definition overflow_none (m : Modifier) : bool := getOverflowModifier m =? overflow_bits Overflow_None.

Definition simplifyAdd (type : Tag) (modifier : Modifier) (src1 src2 : Opnd) : Gen (option Opnd) :=
  let* z1 := gget (fun p => isConstantZero p src1) in
  if z1 then gret (Some src2) else
  let* z2 := gget (fun p => isConstantZero p src2) in
  if z2 then gret (Some src1) else
  if negb (overflow_none modifier) then gret None else
  let* cc := both_constant src1 src2 in
  if cc then fold_sources Op_Add type src1 src2 true else
  match type with
  | Int32 | Int64 | UInt32 | UInt64 =>
      or_else (simplifyAddWithNeg modifier type src1 src2)
      (or_else (simplifyAddWithNeg modifier type src2 src1)
      (or_else (simplifyAddViaReassociation type src1 src2)
               (simplifyAddViaReassociation type src2 src1)))
  | _ => gret None
  end.

Definition simplifySub (type : Tag) (modifier : Modifier) (src1 src2 : Opnd) : Gen (option Opnd) :=
  let* z2 := gget (fun p => isConstantZero p src2) in
  if z2 then gret (Some src1) else
  let* cc := both_constant src1 src2 in
  if cc then fold_sources Op_Sub type src1 src2 true else
  match type with
  | Int32 | Int64 | UInt32 | UInt64 =>
      let* z1 := gget (fun p => isConstantZero p src1) in
      if z1 then let* r := genNeg type src2 in gret (Some r) else
      if (src1 =? src2)%nat then
        match type with
        | Int32 => let* r := genLdConstant_i4 0 in gret (Some r)
        | Int64 => let* r := genLdConstant_i8 0 in gret (Some r)
        | _ => gfail
        end
      else
      if negb (overflow_none modifier) then gret None else
      or_else (simplifySubWithNeg modifier type src1 src2)
              (simplifySubViaReassociation type src1 src2)
  | _ => gret None
  end.

Definition simplifyNeg (type : Tag) (src : Opnd) : Gen (option Opnd) :=
  let* i := inst_of src in
  if isConst i then fold_unary Op_Neg type i else
  if isNeg i then let* s := src_of i 0 in gret (Some s) else
  gret None.

Definition simplifyNot (theType : Tag) (src1 : Opnd) : Gen (option Opnd) :=
  let* i := inst_of src1 in
  if isConst i then fold_unary Op_Not theType i else gret None.

Definition simplifyOr (theType : Tag) (src1 src2 : Opnd) : Gen (option Opnd) :=
  if (src1 =? src2)%nat then gret (Some src1) else
  let* z1 := gget (fun p => isConstantZero p src1) in
  if z1 then gret (Some src2) else
  let* z2 := gget (fun p => isConstantZero p src2) in
  if z2 then gret (Some src1) else
  let* o1 := gget (fun p => isConstantAllOnes p src1) in
  if o1 then gret (Some src1) else
  let* o2 := gget (fun p => isConstantAllOnes p src2) in
  if o2 then gret (Some src2) else
  let* cc := both_constant src1 src2 in
  if cc then fold_sources Op_Or theType src1 src2 true else gret None.

Definition simplifyXor (theType : Tag) (src1 src2 : Opnd) : Gen (option Opnd) :=
  let* z1 := gget (fun p => isConstantZero p src1) in
  if z1 then gret (Some src2) else
  let* z2 := gget (fun p => isConstantZero p src2) in
  if z2 then gret (Some src1) else
  let* o1 := gget (fun p => isConstantAllOnes p src1) in
  if o1 then simplifyNot theType src2 else
  let* o2 := gget (fun p => isConstantAllOnes p src2) in
  if o2 then simplifyNot theType src1 else
  let* cc := both_constant src1 src2 in
  if cc then fold_sources Op_Xor theType src1 src2 true else gret None.

(** [(typeTag == Int8 && val <= 0xff) || (typeTag == Int16 && val <= 0xffff) ||
    (typeTag == Int32 && val <= 0xffffffff)], on the unsigned value *)
Definition and_covers (typeTag : Tag) (val : Z) : bool :=
  (tag_eqb typeTag Int8 && (val <=? 0xff)) ||
  (tag_eqb typeTag Int16 && (val <=? 0xffff)) ||
  (tag_eqb typeTag Int32 && (val <=? 0xffffffff)).

(** The same for zero-extending loads and the full masks. *)
Definition and_full (typeTag : Tag) (val : Z) : bool :=
  (tag_eqb typeTag UInt8 && (val =? 0xff)) ||
  (tag_eqb typeTag UInt16 && (val =? 0xffff)) ||
  (tag_eqb typeTag UInt32 && (val =? 0xffffffff)).

(** [isConstant(inst, val) && opc && covers(tag, (unsigned) val)] *)
Definition const_mask (c : option Z) (w : Z) (opc : Opcode) (i : Inst) (test : Tag -> Z -> bool) : bool :=
  match c with
  | Some val => op_eqb (i_opcode i) opc && test (i_type i) (ux w val)
  | None => false
  end.

(** The conversion under an [And] is dropped when its source has the type of
    its result. *)
Definition and_drop_conv (theType : Tag) (conv other : Opnd) (convInst : Inst) (conv_first : bool)
  : Gen (option Opnd) :=
  let* src := src_of convInst 0 in
  let* t1 := type_of src in
  let* t2 := type_of conv in
  if tag_eqb t1 t2 then
    let* r := (if conv_first then genAnd theType src other else genAnd theType other src) in
    gret (Some r)
  else gret None.

(** The last part of [simplifyAnd]: masks of loads. *)
Definition simplifyAnd_load (theType : Tag) (src1 src2 : Opnd) (inst1 inst2 : Inst) : Gen (option Opnd) :=
  if const_mask (isConstant_i8 inst1) 64 Op_TauLdInd inst2 and_full then
    let* t := type_of src2 in if tag_eqb theType t then gret (Some src2) else gret None
  else if const_mask (isConstant_i8 inst2) 64 Op_TauLdInd inst1 and_full then
    let* t := type_of src1 in if tag_eqb theType t then gret (Some src1) else gret None
  else if const_mask (isConstant_i4 inst1) 32 Op_TauLdInd inst2 and_full then
    let* t := type_of src2 in if tag_eqb theType t then gret (Some src2) else gret None
  else if const_mask (isConstant_i4 inst2) 32 Op_TauLdInd inst1 and_full then
    let* t := type_of src1 in if tag_eqb theType t then gret (Some src1) else gret None
  else gret None.

Definition simplifyAnd (theType : Tag) (src1 src2 : Opnd) : Gen (option Opnd) :=
  if (src1 =? src2)%nat then gret (Some src1) else
  let* z1 := gget (fun p => isConstantZero p src1) in
  if z1 then gret (Some src1) else
  let* z2 := gget (fun p => isConstantZero p src2) in
  if z2 then gret (Some src2) else
  let* o1 := gget (fun p => isConstantAllOnes p src1) in
  if o1 then gret (Some src2) else
  let* o2 := gget (fun p => isConstantAllOnes p src2) in
  if o2 then gret (Some src1) else
  let* cc := both_constant src1 src2 in
  if cc then fold_sources Op_And theType src1 src2 true else
  let* c1 := gget (fun p => isConstant p src1) in
  let* c2 := gget (fun p => isConstant p src2) in
  if do_sxt flags && (c1 || c2) then
    let* inst2 := inst_of src2 in
    let* inst1 := inst_of src1 in
    or_else
      (if const_mask (isConstant_i8 inst1) 64 Op_Conv inst2 and_covers
       then and_drop_conv theType src2 src1 inst2 false
       else if const_mask (isConstant_i8 inst2) 64 Op_Conv inst1 and_covers
       then and_drop_conv theType src1 src2 inst1 true
       else if const_mask (isConstant_i4 inst1) 32 Op_Conv inst2 and_covers
       then and_drop_conv theType src2 src1 inst2 false
       else if const_mask (isConstant_i4 inst2) 32 Op_Conv inst1 and_covers
       then and_drop_conv theType src1 src2 inst1 true
       else gret None)
      (simplifyAnd_load theType src1 src2 inst1 inst2)
  else gret None.

(** The reduction of a multiplication with one constant operand. *)
Definition mul_by_constant (type : Tag) (c src : Opnd) : Gen (option Opnd) :=
  let* i := inst_of c in
  match type with
  | Int32 | UInt32 =>
      let* multiplier := gopt (isConstant_i4 i) in
      planMul32 (ia32_code_gen flags) multiplier src
  | _ =>
      let* multiplier := gopt (isConstant_i8 i) in
      planMul64 (ia32_code_gen flags) multiplier src
  end.

Definition simplifyMul (type : Tag) (modifier : Modifier) (src1 src2 : Opnd) : Gen (option Opnd) :=
  let* src1isConstant := gget (fun p => isConstant p src1) in
  let* src2isConstant := gget (fun p => isConstant p src2) in
  let* one1 := gget (fun p => isConstantOne p src1) in
  if src1isConstant && one1 then gret (Some src2) else
  let* one2 := gget (fun p => isConstantOne p src2) in
  if src2isConstant && one2 then gret (Some src1) else
  let* z1 := gget (fun p => isConstantZero p src1) in
  if negb (isFloatingPoint type) && (src1isConstant && z1) then gret (Some src1) else
  let* z2 := gget (fun p => isConstantZero p src2) in
  if negb (isFloatingPoint type) && (src2isConstant && z2) then gret (Some src2) else
  if negb (overflow_none modifier) then gret None else
  if src1isConstant && src2isConstant then fold_sources Op_Mul type src1 src2 true else
  match type with
  | Int32 | Int64 | UInt32 | UInt64 =>
      if src1isConstant || src2isConstant then
        if src1isConstant then mul_by_constant type src1 src2
        else mul_by_constant type src2 src1
      else
        or_else (simplifyMulWithNeg type src1 src2)
        (or_else (simplifyMulViaReassociation type src1 src2)
                 (simplifyMulViaReassociation type src2 src1))
  | _ => gret None
  end.

(** [simplifyMin] and [simplifyMax] *)
Definition simplify_minmax (op : Opcode) (dstType : Tag) (src1 src2 : Opnd) : Gen (option Opnd) :=
  let* cc := both_constant src1 src2 in
  if cc then fold_sources op dstType src1 src2 true else
  if (src1 =? src2)%nat then gret (Some src1) else gret None.
Definition simplifyMin : Tag -> Opnd -> Opnd -> Gen (option Opnd) := simplify_minmax Op_Min.
Definition simplifyMax : Tag -> Opnd -> Opnd -> Gen (option Opnd) := simplify_minmax Op_Max.

Definition simplifyAbs (dstType : Tag) (src1 : Opnd) : Gen (option Opnd) :=
  let* i := inst_of src1 in
  if isConst i then fold_unary Op_Abs dstType i else gret None.

(** ** Division by a constant *)

(** A constant of the width of the operation, as the two branches load it. *)
Definition genLdConstant_w (w val : Z) : Gen Opnd :=
  if w =? 32 then genLdConstant_i4 val else genLdConstant_i8 val.

(** A power of two: the [Int32] branch at [w = 32], the [Int64] one at 64. *)
Definition tauDiv_pow2 (w : Z) (dstType : Tag) (denom : Z) (src1 : Opnd) : Gen Opnd :=
  let absdenom := if denom <? 0 then sx w (- denom) else denom in
  let k := whichPowerOf2 w absdenom in
  let* kminus1 := genLdConstant_w w (k - 1) in
  (* make k-1 copies of the sign bit *)
  let* shiftTheSign := genShr dstType (mod_shift SignedOp) src1 kminus1 in
  (* w-k zeros in on left to put copies of sign on right *)
  let* twminusk := genLdConstant_w w (w - k) in
  (* if (n<0), this is 2^k-1, else 0 *)
  let* kminus1ones := genShr dstType (mod_shift UnsignedOp) shiftTheSign twminusk in
  let* added := genAdd dstType mod_arith src1 kminus1ones in
  let* kOpnd := genLdConstant_w w k in
  let* res := genShr dstType (mod_shift SignedOp) added kOpnd in
  if denom =? absdenom then gret res else genNeg dstType res.

(** The high word of the product with the magic number: one instruction, or a
    64-bit product. *)
Definition tauDiv_mulhi (dstType : Tag) (magicNum : Z) (src1 : Opnd) : Gen Opnd :=
  if use_mulhi flags then
    let* magicOpnd := genLdConstant_i4 magicNum in
    genMulHi dstType (signed_bits SignedOp) magicOpnd src1
  else
    let* magicOpnd := genLdConstant_i8 magicNum in
    let* src64 := genConv Int64 Int64 mod_arith src1 in
    let* mulRes64 := genMul Int64 mod_arith magicOpnd src64 in
    let* constant32 := genLdConstant_i4 32 in
    let* mulRes64h := genShr Int64 (mod_shift SignedOp) mulRes64 constant32 in
    genConv dstType Int32 mod_arith mulRes64h.

Definition tauDiv_magic (dstType : Tag) (denom : Z) (src1 : Opnd) : Gen Opnd :=
  let* ms := gopt (getMagic 32 denom) in
  let '(magicNum, shiftBy) := ms in
  let* mulRes := tauDiv_mulhi dstType magicNum src1 in
  (* adjust for overflow in magicNum *)
  let* mulRes :=
    (if (0 <? denom) && (magicNum <? 0) then genAdd dstType mod_arith mulRes src1
     else if (denom <? 0) && (0 <? magicNum) then genSub dstType mod_arith mulRes src1
     else gret mulRes) in
  let* shiftByOpnd := genLdConstant_i4 shiftBy in
  let* mulRes := genShr dstType (mod_shift SignedOp) mulRes shiftByOpnd in
  let* thirtyOne := genLdConstant_i4 31 in
  let* oneIfNegative :=
    genShr dstType (mod_shift UnsignedOp) (if denom <? 0 then mulRes else src1) thirtyOne in
  genAdd dstType mod_arith mulRes oneIfNegative.

(** [simplifyTauDivOfMul] *)
Definition simplifyTauDivOfMul : Gen (option Opnd) := gret None.

Definition simplifyTauDiv (dstType : Tag) (mod_ : Modifier) (src1 src2 : Opnd) : Gen (option Opnd) :=
  let* cc := both_constant src1 src2 in
  if cc then fold_sources Op_TauDiv dstType src1 src2 (isSigned mod_) else
  match dstType with
  | Int32 | Int64 =>
      let* i2 := inst_of src2 in
      match isConstant_cv i2 with
      | None => gret None
      | Some value2 =>
          let denom := if tag_eqb dstType Int32 then get_i4 value2 else get_i8 value2 in
          if denom =? 1 then gret (Some src1) else
          if denom =? 0 then gret (Some src1) else
          or_else simplifyTauDivOfMul
          (if lower_divconst flags && isSigned mod_ then
             let w := if tag_eqb dstType Int32 then 32 else 64 in
             if denom =? -1 then let* res := genNeg dstType src1 in gret (Some res)
             else if isPowerOf2 w denom then
               let* res := tauDiv_pow2 w dstType denom src1 in gret (Some res)
             else if tag_eqb dstType Int32 then
               let* res := tauDiv_magic dstType denom src1 in gret (Some res)
             else gret None
           else gret None)
      end
  | _ => gret None
  end.

Definition simplifyTauRem (dstType : Tag) (mod_ : Modifier) (src1 src2 : Opnd) : Gen (option Opnd) :=
  let* cc := both_constant src1 src2 in
  if cc then fold_sources Op_TauRem dstType src1 src2 (isSigned mod_) else
  match dstType with
  | Int32 | Int64 | UInt32 | UInt64 =>
      let* c2 := gget (fun p => isConstant p src2) in
      if c2 then
        let* one2 := gget (fun p => isConstantOne p src2) in
        if one2 then
          match dstType with
          | Int32 => let* r := genLdConstant_i4 0 in gret (Some r)
          | Int64 => let* r := genLdConstant_i8 0 in gret (Some r)
          | _ => gfail
          end
        else
        let* z2 := gget (fun p => isConstantZero p src2) in
        if z2 then gret None else
        let* src2inst := inst_of src2 in
        let is_unit denom := (denom =? -1) || (denom =? 1) in
        if (match isConstant_i4 src2inst with Some denom => is_unit denom | None => false end)
        then let* r := genLdConstant_i4 0 in gret (Some r)
        else if (match isConstant_i4 src2inst, isConstant_i8 src2inst with
                 | None, Some denom => is_unit denom | _, _ => false end)
        then let* r := genLdConstant_i8 0 in gret (Some r)
        else
          (* convert other cases: just use div *)
          let* tryDiv := simplifyTauDiv dstType mod_ src1 src2 in
          match tryDiv with
          | Some q =>
              let* divProduct := genMul dstType mod_arith q src2 in
              let* remOpnd := genSub dstType mod_arith src1 divProduct in
              gret (Some remOpnd)
          | None => gret None
          end
      else gret None
  | _ => gret None
  end.

(** ** High multiplication *)

(** One constant operand at [Int32] and [UInt32]: the product of the operand
    extended to 64 bits is planned; a plan that gives no operand is passed on. *)
Definition mulhi_by_constant (type : Tag) (isSigned_ : bool) (c src src1 : Opnd) : Gen (option Opnd) :=
  let* i := inst_of c in
  let* multiplier := gopt (isConstant_i4 i) in
  let* src_64 := genConv Int64 (if isSigned_ then Int64 else UInt64) mod_arith src in
  let* product := planMul32 (ia32_code_gen flags) multiplier src_64 in
  let* thirtytwo := genLdConstant_i4 32 in
  let* product := gopt product in
  let* shifted := genShr Int64 (mod_shift UnsignedOp) product thirtytwo in
  let* t1 := type_of src1 in
  let* res := genConv t1 Int32 mod_arith shifted in
  gret (Some res).

Definition simplifyMulHi (type : Tag) (modifier : Modifier) (src1 src2 : Opnd) : Gen (option Opnd) :=
  let* src1isConstant := gget (fun p => isConstant p src1) in
  let* src2isConstant := gget (fun p => isConstant p src2) in
  if src1isConstant && src2isConstant
  then fold_sources Op_MulHi type src1 src2 (isSignedInteger type) else
  let* one1 := gget (fun p => isConstantOne p src1) in
  let* one2 := gget (fun p => isConstantOne p src2) in
  if (src1isConstant && one1) || (src2isConstant && one2) then
    if isSigned modifier then gret None
    else match type with
         | Int32 | UInt32 => let* r := genLdConstant_i4 0 in gret (Some r)
         | Int64 | UInt64 => let* r := genLdConstant_i8 0 in gret (Some r)
         | _ => gret None
         end
  else
  let* z1 := gget (fun p => isConstantZero p src1) in
  if src1isConstant && z1 then gret (Some src1) else
  let* z2 := gget (fun p => isConstantZero p src2) in
  if src2isConstant && z2 then gret (Some src2) else
  if src1isConstant || src2isConstant then
    match type with
    | Int32 | UInt32 =>
        if src1isConstant then mulhi_by_constant type (tag_eqb type Int32) src1 src2 src1
        else mulhi_by_constant type (tag_eqb type Int32) src2 src1 src1
    | _ => gret None
    end
  else gret None.

(** ** Conversions, shifts and selection *)

(** The part common to the three conversions: a redundant one, or a constant. *)
Definition conv_common (dstType toType : Tag) (ovfmod : Modifier) (src : Opnd)
  (rest : Inst -> Tag -> Gen (option Opnd)) : Gen (option Opnd) :=
  let* opndInst := inst_of src in
  let* srcType := type_of src in
  if tag_eqb toType (i_type opndInst) && tag_eqb dstType srcType then gret (Some src) else
  match asConstInst opndInst with
  | Some cinst =>
      let '(ok, res) := foldConv POINTER64 (i_type opndInst) toType ovfmod (i_value cinst) cv_zero in
      if ok && tag_eqb dstType toType then
        let* r := genLdConstant dstType res in gret (Some r)
      else rest opndInst srcType
  | None => rest opndInst srcType
  end.

(** The mask tests of [simplifyConv]: [u16] and [i16] are the bounds used for
    [UInt16] and [Int16]. *)
Definition conv_mask (u16 i16 : Z) (toType : Tag) (val : Z) : bool :=
  (tag_eqb toType UInt8 && (val <=? 0xff)) ||
  (tag_eqb toType Int8 && (val <=? 0x7f)) ||
  (tag_eqb toType UInt16 && (val <=? u16)) ||
  (tag_eqb toType Int16 && (val <=? i16)) ||
  (tag_eqb toType UInt32 && (val <=? 0xffffffff)) ||
  (tag_eqb toType Int32 && (val <=? 0x7fffffff)).

Definition mask_test (c : option Z) (w : Z) (test : Z -> bool) : bool :=
  match c with Some val => test (ux w val) | None => false end.

Definition simplifyConv (dstType toType : Tag) (ovfmod : Modifier) (src : Opnd) : Gen (option Opnd) :=
  conv_common dstType toType ovfmod src (fun opndInst srcType =>
    if do_sxt flags && op_eqb (i_opcode opndInst) Op_And then
      let* src0 := src_of opndInst 0 in
      let* src1 := src_of opndInst 1 in
      let* i0 := inst_of src0 in
      let* i1 := inst_of src1 in
      let same := tag_eqb dstType srcType in
      if (if mask_test (isConstant_i8 i0) 64 (conv_mask 0x7fff 0xffff toType) then same
          else mask_test (isConstant_i8 i1) 64 (conv_mask 0xffff 0x7fff toType) && same)
      then gret (Some src)
      else if (if mask_test (isConstant_i4 i0) 32 (conv_mask 0xffff 0x7fff toType) then same
               else mask_test (isConstant_i4 i1) 32 (conv_mask 0xffff 0x7fff toType) && same)
      then gret (Some src)
      else gret None
    else gret None).

(** [simplifyConvZE] and [simplifyConvUnmanaged] *)
Definition simplifyConvZE (dstType toType : Tag) (ovfmod : Modifier) (src : Opnd) : Gen (option Opnd) :=
  conv_common dstType toType ovfmod src (fun _ _ => gret None).
Definition simplifyConvUnmanaged : Tag -> Tag -> Modifier -> Opnd -> Gen (option Opnd) := simplifyConvZE.

Definition simplifyShladd (dstType : Tag) (value shiftAmount addto : Opnd) : Gen (option Opnd) :=
  let* z := gget (fun p => isConstantZero p shiftAmount) in
  if z then let* r := genAdd dstType mod_arith value addto in gret (Some r) else gret None.

(** [simplifyShl] and [simplifyShr] *)
Definition simplifyShl (dstType : Tag) (mod_ : Modifier) (value shiftAmount : Opnd) : Gen (option Opnd) :=
  let* z := gget (fun p => isConstantZero p shiftAmount) in
  if z then gret (Some value) else gret None.
Definition simplifyShr : Tag -> Modifier -> Opnd -> Opnd -> Gen (option Opnd) := simplifyShl.

Definition simplifySelect (dstType : Tag) (src1 src2 src3 : Opnd) : Gen (option Opnd) :=
  let* c1 := gget (fun p => isConstant p src1) in
  if c1 then
    let* z1 := gget (fun p => isConstantZero p src1) in
    if z1 then gret (Some src3) else gret (Some src2)
  else
  if (src2 =? src3)%nat then gret (Some src2) else
  let* i1 := inst_of src1 in
  let* one2 := gget (fun p => isConstantOne p src2) in
  let* z3 := gget (fun p => isConstantZero p src3) in
  if op_eqb (i_opcode i1) Op_Cmp && (one2 && z3) then gret (Some src1) else gret None.
End simplifier.
