(* ===== verification/SimplifyOk.v ===== *)
(** * Simplifications preserve values

    Every simplification of [Simplify.v], run in a program whose operands have
    values, does not fail and returns no operand or one with the value of the
    operation it stands for. *)
From Stdlib Require Import SpecFloat.
From S2P Require Import Prelude Floats JavaArith OptArith IR ConstFold Gen MulConst Simplify.

(** ** What instructions say about values *)

(** The types at which simplification is verified. *)
Definition simplified_type (t : Tag) : bool :=
  match t with Int32 | Int64 | Single | Double => true | _ => false end.

(** The result of a simplification that stands for an operation of value [val]. *)
Definition result_ok (t : Tag) (val : option Z) (p : prog) (e : env) (r : option Opnd) : Prop :=
  match r with
  | Some o => forall x, val = Some x -> holds p e o t x
  | None => True
  end.

Section inspect.
Context (p : prog) (e : env) (Hm : models p e).

Lemma wp_inst_of o i Q : getInst p o = Some i -> Q p e i -> wp (inst_of o) p e Q.
Proof.
  intros Hi HQ. exists p, e, i. split; [unfold inst_of; by rewrite Hi|].
  split; [apply extends_id|done].
Qed.

Lemma wp_type_of o t v Q : holds p e o t v -> Q p e t -> wp (type_of o) p e Q.
Proof.
  intros Ho HQ. exists p, e, t. split; [|split; [apply extends_id|done]].
  unfold type_of, holds, opnd_val in *. destruct (opnd_type p o); [|done]. simpl in *.
  destruct (e !! o); by simplify_eq/=.
Qed.

Lemma holds_getInst o t v : holds p e o t v -> exists i, getInst p o = Some i.
Proof. intros H. destruct (holds_inst p e o t v Hm H) as (i & Hi & _). by exists i. Qed.

(** Types and values are functions of the operand. *)
Lemma holds_fun o t v t' v' : holds p e o t v -> holds p e o t' v' -> t = t' /\ v = v'.
Proof. unfold holds. intros H1 H2. rewrite H1 in H2. by simplify_eq. Qed.

Lemma const_holds o t v i : holds p e o t v -> getInst p o = Some i -> isConst i = true ->
  i_type i = t /\ (forall x, const_val t (i_value i) = Some x -> v = x).
Proof.
  intros Ho Hi Hc. destruct (holds_inst p e o t v Hm Ho) as (i' & Hi' & <- & vals & Hs & _ & Ht & _ & Hd).
  simplify_eq. unfold isConst, op_eqb in Hc. apply bool_decide_eq_true in Hc.
  unfold inst_typed in Ht. rewrite Hc in Ht. destruct vals as [|x0 vals]; [|done].
  apply tag_eqb_eq in Ht. split; [done|].
  intros x Hx. apply Hd. unfold denote. by rewrite Hc, <- Ht.
Qed.

Lemma isConstant_inst o : isConstant p o = true -> exists i, getInst p o = Some i /\ isConst i = true.
Proof. unfold isConstant. intros H. destruct (getInst p o) as [i|]; [by exists i|done]. Qed.

Lemma const_test_inst f o : const_test f p o = true ->
  exists i, getInst p o = Some i /\ isConst i = true /\ f i = true.
Proof.
  unfold const_test, asConstInst. intros H. destruct (getInst p o) as [i|]; [|done].
  destruct (isConst i) eqn:E; [by exists i|done].
Qed.

Lemma isConstantZero_val o t v w : holds p e o t v -> arith_width t = Some w ->
  isConstantZero p o = true -> v = 0.
Proof.
  intros Ho Hw (i & Hi & Hc & Hf)%const_test_inst.
  destruct (const_holds o t v i Ho Hi Hc) as [Ht Hv]. unfold isConstantZero_inst in Hf. rewrite Ht in Hf.
  destruct t; simplify_eq/=; apply Z.eqb_eq in Hf; by apply Hv; rewrite Hf.
Qed.

Lemma isConstantZero_fp o t v : holds p e o t v -> arith_width t = None -> simplified_type t = true ->
  isConstantZero p o = false.
Proof.
  intros Ho Hw Ht. destruct (isConstantZero p o) eqn:E; [|done].
  apply const_test_inst in E as (i & Hi & Hc & Hf). destruct (const_holds o t v i Ho Hi Hc) as [Ht' _].
  unfold isConstantZero_inst in Hf. rewrite Ht' in Hf. by destruct t.
Qed.

Lemma isConstantOne_val o t v : holds p e o t v -> simplified_type t = true ->
  isConstantOne p o = true -> v = 1 /\ exists w, arith_width t = Some w.
Proof.
  intros Ho Hw (i & Hi & Hc & Hf)%const_test_inst.
  destruct (const_holds o t v i Ho Hi Hc) as [Ht Hv]. unfold isConstantOne_inst in Hf. rewrite Ht in Hf.
  destruct t; simplify_eq/=; apply Z.eqb_eq in Hf; (split; [by apply Hv; rewrite Hf|by eexists]).
Qed.

Lemma isConstantAllOnes_val o t v : holds p e o t v -> simplified_type t = true ->
  isConstantAllOnes p o = true -> v = -1.
Proof.
  intros Ho Hw (i & Hi & Hc & Hf)%const_test_inst.
  destruct (const_holds o t v i Ho Hi Hc) as [Ht Hv]. unfold isConstantAllOnes_inst in Hf. rewrite Ht in Hf.
  destruct t; simplify_eq/=; apply Z.eqb_eq in Hf; by apply Hv; rewrite Hf.
Qed.

(** The operands of a binary instruction. *)
Lemma binary_holds o i t v w : holds p e o t v -> getInst p o = Some i ->
  is_binary (i_opcode i) = true -> arith_width (i_type i) = Some w ->
  i_type i = t /\ exists a b rest va vb, i_srcs i = a :: b :: rest /\ holds p e a t va /\ holds p e b t vb /\
    (forall x, int_op w (isSigned (i_mod i)) (i_opcode i) va vb = Some x -> v = x).
Proof.
  intros Ho Hi Hop Hw. destruct (holds_inst p e o t v Hm Ho) as (i' & Hi' & <- & vals & Hs & _ & Ht & _ & Hd).
  simplify_eq. unfold inst_typed in Ht.
  assert (Ht' : match vals.*1 with a :: b :: _ => tag_eqb (i_dtype i) (i_type i) && tag_eqb a (i_type i) && tag_eqb b (i_type i) | _ => false end = true)
    by (by destruct (i_opcode i)).
  destruct vals as [|[ta va] [|[tb vb] vals]]; try done. simpl in Ht'.
  apply andb_true_iff in Ht' as [[H1%tag_eqb_eq H2%tag_eqb_eq]%andb_true_iff H3%tag_eqb_eq]. subst ta tb.
  split; [done|]. unfold src_vals in Hs. apply mapM_Some in Hs.
  inversion Hs as [|a xa sa la Ha Hs1 Ea]; subst. inversion Hs1 as [|b xb sb lb Hb Hs2 Eb]; subst.
  exists a, b, sb, va, vb. split; [done|]. rewrite H1. split; [done|]. split; [done|].
  intros x Hx. apply Hd. unfold denote, binary_val. rewrite Hw. by destruct (i_opcode i).
Qed.

Lemma unary_holds o i t v : holds p e o t v -> getInst p o = Some i -> is_unary (i_opcode i) = true ->
  i_type i = t /\ exists a va, i_srcs i = [a] /\ holds p e a t va /\
    (forall x, unary_val t (i_opcode i) va = Some x -> v = x).
Proof.
  intros Ho Hi Hop. destruct (holds_inst p e o t v Hm Ho) as (i' & Hi' & <- & vals & Hs & _ & Ht & _ & Hd).
  simplify_eq. unfold inst_typed in Ht.
  assert (Ht' : match vals.*1 with [a] => tag_eqb (i_dtype i) (i_type i) && tag_eqb a (i_type i) | _ => false end = true)
    by (by destruct (i_opcode i)).
  destruct vals as [|[ta va] [|]]; try done. simpl in Ht'.
  apply andb_true_iff in Ht' as [H1%tag_eqb_eq H2%tag_eqb_eq]. subst ta.
  split; [done|]. unfold src_vals in Hs. apply mapM_Some in Hs.
  inversion Hs as [|a xa sa la Ha Hs1 Ea]; subst. inversion Hs1; subst.
  exists a, va. split; [done|]. rewrite H1. split; [done|].
  intros x Hx. apply Hd. unfold denote. by destruct (i_opcode i).
Qed.
End inspect.

(** ** Folding *)

Lemma int_op_range w op a b x : 1 < w -> is_s w a -> is_s w b ->
  int_op w true op a b = Some x -> is_s w x.
Proof.
  intros Hw Ha Hb. assert (0 < w) by lia. unfold int_op.
  destruct op; try done; try (destruct (Z.eqb_spec b 0); [done|]); intros Hx; simplify_eq;
    try (by apply sx_range); try (by apply rem_range); try (by apply high_word_range);
    try (by apply is_s_land); try (by apply is_s_lor); try (by apply is_s_lxor);
    unfold is_s in *; lia.
Qed.

Lemma fold32_int_op op a b r : is_binary op = true -> is_s 32 a -> is_s 32 b ->
  fold32 op a b r true = fold_result (int_op 32 true op a b) r.
Proof.
  intros Hop Ha Hb. destruct (jop op) as [j|] eqn:Hj.
  - rewrite (fold32_java op j) by done. by destruct op; simplify_eq/=.
  - destruct op; try done. by apply fold32_mulhi.
Qed.

Lemma fold64_int_op op a b r : is_binary op = true -> is_s 64 a -> is_s 64 b ->
  fold64 op a b r true = fold_result (int_op 64 true op a b) r.
Proof.
  intros Hop Ha Hb. destruct (jop op) as [j|] eqn:Hj.
  - rewrite (fold64_java op j) by done. by destruct op; simplify_eq/=.
  - destruct op; try done. by apply fold64_mulhi.
Qed.

(** The value a folded constant stands for. *)
Definition folded (t : Tag) (o : option Z) : bool * option Z :=
  match o with Some x => (true, Some x) | None => (false, None) end.

Lemma const_val_set t x : simplified_type t = true -> has_type t x -> const_val t
  (match t with Int32 => set_i4 cv_zero x | Int64 => set_i8 cv_zero x
              | Single => set_s cv_zero x | _ => set_d cv_zero x end) = Some x.
Proof.
  intros Ht Hx. destruct t; try done; simpl; f_equal.
  - rewrite get_set_i4. by apply sx_id.
  - rewrite get_set_i8. by apply sx_id.
  - rewrite get_set_s. by apply ux_id.
  - rewrite get_set_d. by apply ux_id.
Qed.

Lemma simplified_value t : simplified_type t = true -> value_type t = true.
Proof. by destruct t. Qed.

Lemma const_val_type t cv x : value_type t = true -> const_val t cv = Some x -> has_type t x.
Proof.
  destruct t; intros; simplify_eq/=; (by apply sx_range) || (by apply ux_range).
Qed.

Lemma fp_op_range F op a b x : format_ok F -> fp_op F op a b = Some x -> is_u (fw F) x.
Proof. intros HF. destruct op; intros; simplify_eq/=; by apply to_word_range. Qed.

Lemma binary_val_type t op a b x : simplified_type t = true -> has_type t a -> has_type t b ->
  binary_val t true op a b = Some x -> has_type t x.
Proof.
  intros Ht Ha Hb Hx. destruct t; try done; simpl in *; unfold binary_val in Hx; simpl in Hx.
  - by apply (int_op_range 32) in Hx.
  - by apply (int_op_range 64) in Hx.
  - by apply (fp_op_range _ _ _ _ _ binary32_ok) in Hx.
  - by apply (fp_op_range _ _ _ _ _ binary64_ok) in Hx.
Qed.

(** Folding a binary operation: the value, or no folding. *)
Lemma foldConstant_val P t op cv1 cv2 v1 v2 ok res :
  simplified_type t = true -> is_binary op = true ->
  const_val t cv1 = Some v1 -> const_val t cv2 = Some v2 ->
  foldConstant P t op cv1 cv2 cv_zero true = (ok, res) ->
  (ok = true -> exists x, binary_val t true op v1 v2 = Some x /\ const_val t res = Some x) /\
  (ok = false -> arith_width t <> None -> binary_val t true op v1 v2 = None).
Proof.
  intros Ht Hop H1 H2 Hf.
  pose proof (const_val_type _ _ _ (simplified_value t Ht) H1) as T1. pose proof (const_val_type _ _ _ (simplified_value t Ht) H2) as T2.
  pose proof (binary_val_type t op v1 v2) as Hty.
  destruct t; try done; simpl in H1, H2; simplify_eq; unfold foldConstant, binary_val in *; simpl in *.
  - unfold ret_i4 in Hf. rewrite fold32_int_op in Hf by done.
    destruct (int_op _ _ _ _ _) as [x|]; simplify_eq/=; split; intros; try done.
    exists x. split; [done|]. apply (const_val_set Int32); [done|]. by apply Hty.
  - unfold ret_i8 in Hf. rewrite fold64_int_op in Hf by done.
    destruct (int_op _ _ _ _ _) as [x|]; simplify_eq/=; split; intros; try done.
    exists x. split; [done|]. apply (const_val_set Int64); [done|]. by apply Hty.
  - unfold ret_s, foldSingle, fold_fp in Hf. split; [intros ->|done].
    destruct op; simpl in Hf; try destruct (feqb _ _ _); simplify_eq; eexists; (split; [done|]);
      by apply (const_val_set Single), Hty.
  - unfold ret_d, foldDouble, fold_fp in Hf. split; [intros ->|done].
    destruct op; simpl in Hf; try destruct (feqb _ _ _); simplify_eq; eexists; (split; [done|]);
      by apply (const_val_set Double), Hty.
Qed.

Section fold_ok.
Context (P : bool) (p : prog) (e : env) (Hm : models p e).

(** A constant instruction of a known value. *)
Definition const_inst (p : prog) (o : Opnd) (t : Tag) (x : Z) : Prop :=
  exists c, getInst p o = Some c /\ isConst c = true /\ const_val t (i_value c) = Some x.

Lemma wp_genFolded t res x Q : simplified_type t = true -> const_val t res = Some x ->
  (forall p' e' o, extends p e p' e' -> models p' e' -> holds p' e' o t x -> const_inst p' o t x -> Q p' e' (Some o)) ->
  wp (genFolded t res) p e Q.
Proof.
  intros Ht Hx HQ. pose proof (const_val_type _ _ _ (simplified_value t Ht) Hx) as Hty.
  assert (Hgen : forall cv, const_val t cv = Some x ->
    wp (let* o := genLdConstant t cv in gret (Some o)) p e Q).
  { intros cv Hcv. apply wp_bind. apply (wp_genLdConstant p e Hm _ t cv x); [done|done|].
    intros p' e' o Hx' Hi Ho _ Hm'. apply wp_ret; [done|]. apply HQ; [done|done|done|]. by eexists. }
  pose proof (const_val_set t x Ht Hty) as Hset.
  destruct t; try done; simpl in Hx; simplify_eq; by apply Hgen.
Qed.

Lemma wp_fold_binary op t i1 i2 v1 v2 : simplified_type t = true -> is_binary op = true ->
  const_val t (i_value i1) = Some v1 -> const_val t (i_value i2) = Some v2 ->
  wp (fold_binary P op t i1 i2 true) p e (result_ok t (binary_val t true op v1 v2)).
Proof.
  intros Ht Hop H1 H2. unfold fold_binary.
  destruct (foldConstant P t op (i_value i1) (i_value i2) cv_zero true) as [ok res] eqn:Hf.
  destruct (foldConstant_val P t op _ _ v1 v2 ok res Ht Hop H1 H2 Hf) as [Hok _].
  destruct ok; [|by apply wp_ret]. destruct (Hok eq_refl) as (x & Hx & Hres).
  apply (wp_genFolded t res x); [done|done|].
  intros p' e' o _ _ Ho _ y Hy. rewrite Hx in Hy. by simplify_eq.
Qed.

(** At the integer types the operand is there whenever the operation has a value. *)
Lemma wp_fold_binary_opnd op t w i1 i2 v1 v2 x Q : int_width t = Some w -> is_binary op = true ->
  const_val t (i_value i1) = Some v1 -> const_val t (i_value i2) = Some v2 ->
  int_op w true op v1 v2 = Some x ->
  (forall p' e' o, extends p e p' e' -> models p' e' -> holds p' e' o t x -> const_inst p' o t x -> Q p' e' o) ->
  wp (fold_binary_opnd P op t i1 i2) p e Q.
Proof.
  intros Hw Hop H1 H2 Hx HQ. unfold fold_binary_opnd, fold_binary.
  assert (Ht : simplified_type t = true) by (by destruct t).
  assert (Hbv : binary_val t true op v1 v2 = Some x)
    by (unfold binary_val; by rewrite (int_width_arith t w Hw)).
  destruct (foldConstant P t op (i_value i1) (i_value i2) cv_zero true) as [ok res] eqn:Hf.
  destruct (foldConstant_val P t op _ _ v1 v2 ok res Ht Hop H1 H2 Hf) as [Hok Hno].
  destruct ok.
  - destruct (Hok eq_refl) as (y & Hy & Hres). rewrite Hbv in Hy. simplify_eq.
    apply wp_bind. apply (wp_genFolded t res y); [done|done|].
    intros p' e' o Hx' _ Ho Hc _ Hm'. apply wp_ret; [done|]. by apply HQ.
  - rewrite Hno in Hbv; [done|done|]. by rewrite (int_width_arith t w Hw).
Qed.

(** Unary operations. *)
Lemma is_u_bits w a : 0 <= w -> is_u w a <-> ux w a = a.
Proof. intros Hw. split; [apply ux_id|]. intros <-. by apply ux_range. Qed.

Lemma is_u_lor w a b : 0 <= w -> is_u w a -> is_u w b -> is_u w (Z.lor a b).
Proof.
  intros Hw. rewrite !is_u_bits by done. intros Ha Hb. apply Z.bits_inj'. intros i Hi.
  rewrite testbit_ux, Z.lor_spec by done. rewrite <- Ha, <- Hb, !testbit_ux by done.
  by destruct (i <? w).
Qed.

Lemma is_u_land w a b : 0 <= w -> is_u w a -> is_u w (Z.land a b).
Proof.
  intros Hw. rewrite !is_u_bits by done. intros Ha. apply Z.bits_inj'. intros i Hi.
  rewrite testbit_ux, Z.land_spec by done. rewrite <- Ha, !testbit_ux by done.
  by destruct (i <? w).
Qed.

Lemma chgsign_range F a : format_ok F -> is_u (fw F) a -> is_u (fw F) (_chgsign F a).
Proof.
  intros HF Ha. destruct (format_facts F HF) as (Hp & He & Hw & _).
  unfold _chgsign, fcopysign. destruct (fsignbit _ _).
  - apply is_u_lor; [lia|done|]. unfold is_u. split; [apply Z.pow_nonneg; lia|].
    apply Z.pow_lt_mono_r; lia.
  - apply is_u_land; [lia|done].
Qed.

Lemma unary_val_type t op a x : simplified_type t = true -> has_type t a ->
  unary_val t op a = Some x -> has_type t x.
Proof.
  intros Ht Ha Hx. destruct t; try done; unfold unary_val in Hx; simpl in *.
  - destruct op; simplify_eq/=; try case_match; try (by apply sx_range); try done; by apply is_s_lnot.
  - destruct op; simplify_eq/=; try case_match; try (by apply sx_range); try done; by apply is_s_lnot.
  - destruct op; simplify_eq/=. by apply (chgsign_range binary32 a binary32_ok).
  - destruct op; simplify_eq/=. by apply (chgsign_range binary64 a binary64_ok).
Qed.

Lemma wp_fold_unary op t i v Q : simplified_type t = true -> is_unary op = true ->
  const_val t (i_value i) = Some v ->
  (forall x, unary_val t op v = Some x -> forall p' e' o, extends p e p' e' -> models p' e' ->
     holds p' e' o t x -> const_inst p' o t x -> Q p' e' (Some o)) ->
  (unary_val t op v = None -> Q p e None) ->
  wp (fold_unary op t i) p e Q.
Proof.
  intros Ht Hop Hv HQ HQ'. pose proof (const_val_type _ _ _ (simplified_value t Ht) Hv) as Hty. unfold fold_unary.
  assert (Hf : foldConstant_1 t op (i_value i) cv_zero =
    match unary_val t op v with
    | Some x => (true, match t with Int32 => set_i4 cv_zero x | Int64 => set_i8 cv_zero x
                            | Single => set_s cv_zero x | _ => set_d cv_zero x end)
    | None => (false, match t with Int32 => set_i4 cv_zero (get_i4 cv_zero) | Int64 => set_i8 cv_zero (get_i8 cv_zero)
                            | Single => set_s cv_zero (get_s cv_zero) | _ => set_d cv_zero (get_d cv_zero) end)
    end).
  { destruct t; try done; simpl in Hv; simplify_eq; by destruct op. }
  rewrite Hf. destruct (unary_val t op v) as [x|] eqn:Hx; [|apply wp_ret; auto].
  apply (wp_genFolded t _ x); [done| |].
  - apply const_val_set; [done|]. by eapply unary_val_type.
  - intros p' e' o. by apply HQ.
Qed.
End fold_ok.

(** ** Steps *)

Lemma holds_eq p e o t v v' : holds p e o t v -> v = v' -> holds p e o t v'.
Proof. by intros ? <-. Qed.

Lemma wp_or_else t val m1 m2 p e :
  wp m1 p e (result_ok t val) ->
  (forall p' e', extends p e p' e' -> models p' e' -> wp m2 p' e' (result_ok t val)) ->
  wp (or_else m1 m2) p e (result_ok t val).
Proof.
  intros H1 H2. apply wp_bind. eapply wp_mono; [exact H1|].
  intros p' e' r _ _ Hr Hx Hm. destruct r as [o|]; [by apply wp_ret|]. by apply H2.
Qed.

Lemma wp_src_of p e i n a Q : models p e -> i_srcs i !! n = Some a -> Q p e a -> wp (src_of i n) p e Q.
Proof. intros Hm Ha HQ. unfold src_of, getSrc. rewrite Ha. by apply wp_ret. Qed.

Ltac step_get := apply wp_bind, wp_get; [assumption|]; intros _ _.
Ltac step_inst H := apply wp_bind; eapply wp_inst_of; [eassumption|exact H|]; intros _ _.
(** Equality of wrapped values. *)
Ltac wrap := apply eqm_sx_iff; rewrite ?eqm_sx; apply eq_eqm; ring.

(** An operand keeps its value as the program grows. *)
Ltac hold :=
  match goal with
  | H : holds ?p ?e ?o _ _ |- holds ?p ?e ?o _ _ => exact H
  | H : holds ?p ?e ?o _ _, X : extends ?p ?e ?p' ?e' |- holds ?p' ?e' ?o _ _ =>
      exact (holds_mono _ _ _ _ _ _ _ X H)
  | H : holds ?p ?e ?o _ _, X : extends ?p ?e ?p1 ?e1, Y : extends ?p1 ?e1 ?p' ?e'
    |- holds ?p' ?e' ?o _ _ => exact (holds_mono _ _ _ _ _ _ _ (extends_trans _ _ _ _ _ _ X Y) H)
  end.

(** A linear operation of the type: what [Op_Add], [Op_Sub] and [Op_Mul] share. *)
Definition lin_op (opc : Opcode) : option (Z -> Z -> Z) :=
  match opc with Op_Add => Some Z.add | Op_Sub => Some Z.sub | Op_Mul => Some Z.mul | _ => None end.

Lemma lin_op_val w b opc f x y : lin_op opc = Some f -> int_op w b opc x y = Some (sx w (f x y)).
Proof. by destruct opc; intros; simplify_eq/=. Qed.

Lemma lin_op_binary opc f : lin_op opc = Some f -> is_binary opc = true.
Proof. by destruct opc. Qed.

Section simplify_ok.
Context (P : bool) (flags : OptimizerFlags).

(** Generated linear operations, by the value wanted. *)
Lemma wp_lin opc f mod_ t w a b va vb r p e (Q : prog -> env -> Opnd -> Prop) :
  lin_op opc = Some f -> models p e -> arith_width t = Some w ->
  holds p e a t va -> holds p e b t vb -> sx w (f va vb) = r ->
  (forall p' e' o, extends p e p' e' -> models p' e' -> holds p' e' o t r -> Q p' e' o) ->
  wp (insertInst (makeInst opc mod_ t t [a; b])) p e Q.
Proof.
  intros Hf Hm Hw Ha Hb <- HQ. destruct (arith_width_pos t w Hw) as [Hpos _].
  eapply (wp_mono _ _ _ (fun p' e' o => holds p' e' o t (sx w (f va vb)))); [|auto].
  eapply (wp_binary p e Hm _ opc mod_ t w a b va vb); try done.
  - by eapply lin_op_binary.
  - by apply lin_op_val.
  - by apply sx_range.
Qed.

Lemma wp_lin_some opc f mod_ t w a b va vb r p e :
  lin_op opc = Some f -> models p e -> arith_width t = Some w ->
  holds p e a t va -> holds p e b t vb -> sx w (f va vb) = r ->
  wp (let* o := insertInst (makeInst opc mod_ t t [a; b]) in gret (Some o)) p e (result_ok t (Some r)).
Proof.
  intros Hf Hm Hw Ha Hb Hr. apply wp_bind. eapply wp_lin; [exact Hf|exact Hm|exact Hw|exact Ha|exact Hb|exact Hr|].
  intros p' e' o _ Hm' Ho _ _. apply wp_ret; [done|]. intros x ?. by simplify_eq.
Qed.

Lemma wp_neg_some t w a va r p e :
  models p e -> arith_width t = Some w -> holds p e a t va -> sx w (- va) = r ->
  wp (let* o := genNeg t a in gret (Some o)) p e (result_ok t (Some r)).
Proof.
  intros Hm Hw Ha <-. apply wp_bind. eapply wp_genNeg; [done|exact Hw|exact Ha|].
  intros p' e' o _ Ho _ Hm'. apply wp_ret; [done|]. intros x ?. by simplify_eq.
Qed.

(** The operand under a negation. *)
Lemma isNeg_holds p e o i t v w : models p e -> holds p e o t v -> getInst p o = Some i ->
  isNeg i = true -> arith_width t = Some w ->
  exists a va, i_srcs i = [a] /\ holds p e a t va /\ v = sx w (- va).
Proof.
  intros Hm Ho Hi Hn Hw. unfold isNeg, op_eqb in Hn. apply bool_decide_eq_true in Hn.
  destruct (unary_holds p e Hm o i t v Ho Hi) as (Ht & a & va & Hs & Ha & Hv); [by rewrite Hn|].
  exists a, va. split_and!; [done|done|]. apply Hv. rewrite Hn. unfold unary_val. by rewrite Hw.
Qed.

(** The operands of a linear operation. *)
Lemma lin_holds p e o i t v w opc f : models p e -> holds p e o t v -> getInst p o = Some i ->
  i_opcode i = opc -> lin_op opc = Some f -> arith_width t = Some w ->
  i_type i = t /\ exists a b rest va vb, i_srcs i = a :: b :: rest /\
    holds p e a t va /\ holds p e b t vb /\ v = sx w (f va vb).
Proof.
  intros Hm Ho Hi Hop Hf Hw.
  assert (Ht : i_type i = t).
  { destruct (holds_inst p e o t v Hm Ho) as (i' & Hi' & <- & vals & _ & _ & Ht & _).
    simplify_eq. unfold inst_typed in Ht.
    destruct (i_opcode i); try done; simpl in Ht; destruct vals.*1 as [|? [|? ?]]; try done;
      apply andb_true_iff in Ht as [[H1%tag_eqb_eq _]%andb_true_iff _]; done. }
  split; [done|].
  destruct (binary_holds p e Hm o i t v w Ho Hi) as (_ & a & b & rest & va & vb & Hs & Ha & Hb & Hv).
  - rewrite Hop. by eapply lin_op_binary.
  - by rewrite Ht.
  - exists a, b, rest, va, vb. split_and!; try done. apply Hv. rewrite Hop. by apply lin_op_val.
Qed.

(** A constant operand and the other one of a linear operation. *)
Lemma wp_split_const opc f p e o i t v w (Q : prog -> env -> Inst * Opnd -> Prop) :
  models p e -> holds p e o t v -> getInst p o = Some i -> i_opcode i = opc ->
  lin_op opc = Some f -> (forall x y, f x y = f y x) -> int_width t = Some w -> hasConstant p i = true ->
  (forall c s vc vs, const_val t (i_value c) = Some vc -> holds p e s t vs -> v = sx w (f vc vs) ->
     Q p e (c, s)) ->
  wp (split_const i) p e Q.
Proof.
  intros Hm Ho Hi Hop Hf Hcomm Hw Hc HQ.
  destruct (lin_holds p e o i t v w opc f) as (_ & a & b & rest & va & vb & Hs & Ha & Hb & ->);
    try done; [by apply int_width_arith|].
  unfold hasConstant, getSrc in Hc. rewrite Hs in Hc. simpl in Hc. unfold split_const.
  apply wp_bind. eapply (wp_src_of _ _ _ _ a); [done|by rewrite Hs|]. intros _ _.
  apply wp_bind. eapply (wp_src_of _ _ _ _ b); [done|by rewrite Hs|]. intros _ _.
  assert (Hcv : forall o' v' c, holds p e o' t v' -> getInst p o' = Some c -> isConst c = true ->
    const_val t (i_value c) = Some v').
  { intros o' v' c Ho' Hi' Hc'. destruct (const_holds p e Hm o' t v' c Ho' Hi' Hc') as [_ Hv].
    destruct t; simplify_eq/=; f_equal; symmetry; by apply Hv. }
  step_get. destruct (isConstant p a) eqn:Ea.
  - apply isConstant_inst in Ea as (c & Hci & Hcc). step_inst Hci. apply wp_ret; [done|].
    apply (HQ c b va vb); [by apply (Hcv a)|done|done].
  - simpl in Hc. apply isConstant_inst in Hc as (c & Hci & Hcc). step_inst Hci. apply wp_ret; [done|].
    apply (HQ c a vb va); [by apply (Hcv b)|done|]. by rewrite Hcomm.
Qed.

(** The operands of a subtraction with a constant operand. *)
Lemma const_operand p e o t v c : models p e -> int_width t <> None ->
  holds p e o t v -> getInst p o = Some c -> isConst c = true -> const_val t (i_value c) = Some v.
Proof.
  intros Hm Ht Ho Hi Hc. destruct (const_holds p e Hm o t v c Ho Hi Hc) as [_ Hv].
  destruct t; try done; simpl; f_equal; symmetry; by apply Hv.
Qed.

(** ** Addition and subtraction *)

Section at_point.
Context (t : Tag) (w : Z) (Ht : int_width t = Some w).
Let Hw : arith_width t = Some w := int_width_arith t w Ht.

Lemma simplifyAddWithNeg_ok mod_ p e a b va vb :
  models p e -> holds p e a t va -> holds p e b t vb ->
  wp (simplifyAddWithNeg mod_ t a b) p e (result_ok t (Some (sx w (va + vb)))).
Proof.
  intros Hm Ha Hb. destruct (holds_getInst p e Hm b t vb Hb) as [i Hi].
  unfold simplifyAddWithNeg. step_inst Hi. destruct (isNeg i) eqn:Hn; [|by apply wp_ret].
  destruct (tag_eqb _ _); [|by apply wp_ret].
  destruct (isNeg_holds p e b i t vb w Hm Hb Hi Hn Hw) as (c & vc & Hs & Hc & ->).
  apply wp_bind. eapply (wp_src_of _ _ _ _ c); [done|by rewrite Hs|]. intros _ _.
  eapply wp_lin_some with (f := Z.sub); try done. wrap.
Qed.

Lemma simplifySubWithNeg_ok mod_ p e a b va vb :
  models p e -> holds p e a t va -> holds p e b t vb ->
  wp (simplifySubWithNeg mod_ t a b) p e (result_ok t (Some (sx w (va - vb)))).
Proof.
  intros Hm Ha Hb. destruct (holds_getInst p e Hm b t vb Hb) as [i Hi].
  destruct (holds_getInst p e Hm a t va Ha) as [j Hj].
  unfold simplifySubWithNeg. step_inst Hi. destruct (isNeg i && _) eqn:Hn.
  - apply andb_true_iff in Hn as [Hn _].
    destruct (isNeg_holds p e b i t vb w Hm Hb Hi Hn Hw) as (c & vc & Hs & Hc & ->).
    apply wp_bind. eapply (wp_src_of _ _ _ _ c); [done|by rewrite Hs|]. intros _ _.
    eapply wp_lin_some with (f := Z.add); try done. wrap.
  - step_inst Hj. destruct (isNeg j && _) eqn:Hn'; [|by apply wp_ret].
    apply andb_true_iff in Hn' as [Hn' _].
    destruct (isNeg_holds p e a j t va w Hm Ha Hj Hn' Hw) as (c & vc & Hs & Hc & ->).
    apply wp_bind. eapply (wp_src_of _ _ _ _ c); [done|by rewrite Hs|]. intros _ _.
    apply wp_bind. eapply (wp_lin Op_Add Z.add _ t w c b); try done.
    intros p1 e1 o Hx1 Hm1 Ho _ _. eapply wp_neg_some; try done. wrap.
Qed.

(** Folding the constants of a linear operation and using the result. *)
Lemma wp_fold_lin opc f c1 c2 v1 v2 r p e Q : lin_op opc = Some f -> models p e ->
  const_val t (i_value c1) = Some v1 -> const_val t (i_value c2) = Some v2 -> sx w (f v1 v2) = r ->
  (forall p' e' o, extends p e p' e' -> models p' e' -> holds p' e' o t r -> const_inst p' o t r -> Q p' e' o) ->
  wp (fold_binary_opnd P opc t c1 c2) p e Q.
Proof.
  intros Hf Hm H1 H2 <- HQ. eapply wp_fold_binary_opnd; [done|exact Ht| |exact H1|exact H2| |exact HQ].
  - by eapply lin_op_binary.
  - by apply lin_op_val.
Qed.

Lemma lin_type_assert p e o i v opc f : models p e -> holds p e o t v -> getInst p o = Some i ->
  i_opcode i = opc -> lin_op opc = Some f -> tag_eqb t (i_type i) = true.
Proof. intros. destruct (lin_holds p e o i t v w opc f) as [<- _]; try done. apply tag_eqb_refl. Qed.

Lemma isOpConst_split p i opc : op_eqb (i_opcode i) opc && hasConstant p i = true ->
  i_opcode i = opc /\ hasConstant p i = true.
Proof. intros [H1%bool_decide_eq_true H2]%andb_true_iff. done. Qed.

(** Generating a linear operation of the value [r]. *)
Ltac lin_step r := eapply (wp_lin _ _ _ _ _ _ _ _ _ r); [reflexivity|assumption|exact Hw|hold|hold|wrap|].
Ltac fold_step r := eapply (wp_fold_lin _ _ _ _ _ _ r); [reflexivity|assumption|eassumption|eassumption|wrap|].

Lemma foldConstByAddingToAdd_ok p e c o i vc v : models p e ->
  const_val t (i_value c) = Some vc -> holds p e o t v -> getInst p o = Some i ->
  isAddWithConstant p i = true ->
  wp (foldConstByAddingToAddWithConstant P t c i) p e (fun p' e' r => holds p' e' r t (sx w (vc + v))).
Proof.
  intros Hm Hc Ho Hi [Hop Hhc]%isOpConst_split. unfold foldConstByAddingToAddWithConstant, gassert.
  rewrite (lin_type_assert p e o i v Op_Add Z.add) by done. apply wp_bind, wp_ret; [done|]. intros _ _.
  apply wp_bind. eapply (wp_split_const Op_Add Z.add p e o i t v w); try done; [apply Z.add_comm|].
  intros c' s vc' vs Hc' Hs -> _ _. simpl.
  apply wp_bind. fold_step (sx w (vc + vc')). intros p1 e1 o1 Hx1 Hm1 Ho1 _ _ _.
  lin_step (sx w (vc + sx w (vc' + vs))). done.
Qed.

(** Both operands of a subtraction, and which one is constant. *)
Lemma sub_operands p e o i v : models p e -> holds p e o t v -> getInst p o = Some i ->
  isSubWithConstant p i = true ->
  i_type i = t /\ exists a b va vb, i_srcs i !! 0%nat = Some a /\ i_srcs i !! 1%nat = Some b /\
    holds p e a t va /\ holds p e b t vb /\ v = sx w (va - vb) /\
    (exists c, if isConstant p a then getInst p a = Some c /\ const_val t (i_value c) = Some va
               else getInst p b = Some c /\ const_val t (i_value c) = Some vb).
Proof.
  intros Hm Ho Hi [Hop Hhc]%isOpConst_split.
  destruct (lin_holds p e o i t v w Op_Sub Z.sub) as (Hty & a & b & rest & va & vb & Hs & Ha & Hb & ->); try done.
  split; [done|]. exists a, b, va, vb. rewrite Hs. split_and!; try done.
  unfold hasConstant, getSrc in Hhc. rewrite Hs in Hhc. simpl in Hhc.
  destruct (isConstant p a) eqn:Ea; simpl in Hhc.
  - apply isConstant_inst in Ea as (c & Hc & Hcc). exists c. split; [done|].
    eapply const_operand; try done. by rewrite Ht.
  - apply isConstant_inst in Hhc as (c & Hc & Hcc). exists c. split; [done|].
    eapply const_operand; try done. by rewrite Ht.
Qed.

Lemma foldConstByAddingToSub_ok p e c o i vc v : models p e ->
  const_val t (i_value c) = Some vc -> holds p e o t v -> getInst p o = Some i ->
  isSubWithConstant p i = true ->
  wp (foldConstByAddingToSubWithConstant P t c i) p e (fun p' e' r => holds p' e' r t (sx w (vc + v))).
Proof.
  intros Hm Hc Ho Hi Hsub. unfold foldConstByAddingToSubWithConstant, gassert.
  destruct (sub_operands p e o i v Hm Ho Hi Hsub) as (Hty & a & b & va & vb & Hs0 & Hs1 & Ha & Hb & -> & c' & Hc').
  rewrite Hty, tag_eqb_refl. apply wp_bind, wp_ret; [done|]. intros _ _.
  apply wp_bind. eapply wp_src_of; [done|done|]. intros _ _.
  apply wp_bind. eapply wp_src_of; [done|done|]. intros _ _. step_get.
  destruct (isConstant p a); destruct Hc' as [Hi' Hc']; step_inst Hi'; apply wp_bind.
  - fold_step (sx w (vc + va)). intros p1 e1 o1 Hx1 Hm1 Ho1 _ _ _.
    lin_step (sx w (vc + sx w (va - vb))). done.
  - fold_step (sx w (vc - vb)). intros p1 e1 o1 Hx1 Hm1 Ho1 _ _ _.
    lin_step (sx w (vc + sx w (va - vb))). done.
Qed.

Lemma result_some p e o v v' : holds p e o t v' -> v = Some v' -> result_ok t v p e (Some o).
Proof. intros H ->. intros x ?. by simplify_eq. Qed.

(** A returned operand. *)
Lemma wp_some m p e v : wp m p e (fun p' e' r => holds p' e' r t v) ->
  wp (let* r := m in gret (Some r)) p e (result_ok t (Some v)).
Proof.
  intros H. apply wp_bind. eapply wp_mono; [exact H|]. intros p' e' r _ _ Hr _ Hm.
  apply wp_ret; [done|]. eapply result_some; [exact Hr|done].
Qed.

Lemma const_src p e o v : models p e -> holds p e o t v -> isConstant p o = true ->
  exists c, getInst p o = Some c /\ isConst c = true /\ const_val t (i_value c) = Some v.
Proof.
  intros Hm Ho (c & Hi & Hc)%isConstant_inst. exists c. split_and!; [done|done|].
  eapply const_operand; try done. by rewrite Ht.
Qed.

Lemma simplifyAddViaReassociation_ok p e a b va vb :
  models p e -> holds p e a t va -> holds p e b t vb ->
  wp (simplifyAddViaReassociation P t a b) p e (result_ok t (Some (sx w (va + vb)))).
Proof.
  intros Hm Ha Hb. unfold simplifyAddViaReassociation. step_get.
  destruct (isConstant p a) eqn:Ea; [|by apply wp_ret].
  destruct (const_src p e a va Hm Ha Ea) as (c & Hci & _ & Hc). step_inst Hci.
  destruct (holds_getInst p e Hm b t vb Hb) as [i Hi]. step_inst Hi.
  destruct (tag_eqb (i_type i) t); simpl; [|by apply wp_ret]. step_get.
  destruct (isAddWithConstant p i) eqn:Hadd.
  - apply wp_some. by eapply foldConstByAddingToAdd_ok.
  - step_get. destruct (isSubWithConstant p i) eqn:Hsub; [|by apply wp_ret].
    apply wp_some. by eapply foldConstByAddingToSub_ok.
Qed.

(** The negation of a constant. *)
Lemma wp_fold_neg c v r p e Q : models p e -> const_val t (i_value c) = Some v -> sx w (- v) = r ->
  (forall p' e' o, extends p e p' e' -> models p' e' -> holds p' e' o t r -> const_inst p' o t r -> Q p' e' o) ->
  wp (fold_unary_opnd Op_Neg t c) p e Q.
Proof.
  intros Hm Hc <- HQ. unfold fold_unary_opnd. apply wp_bind.
  assert (Hv : unary_val t Op_Neg v = Some (sx w (- v))) by (unfold unary_val; by rewrite Hw).
  eapply wp_fold_unary; [done|by destruct t|done|exact Hc| |by rewrite Hv].
  rewrite Hv. intros x [= <-] p' e' o Hx Hm' Ho Hci _ _. apply wp_ret; [done|]. by apply HQ.
Qed.

Lemma simplifySubViaReassociation_const2_ok p e a b va vb :
  models p e -> holds p e a t va -> holds p e b t vb -> isConstant p b = true ->
  wp (simplifySubViaReassociation_const2 P t a b) p e (fun p' e' r =>
    match r with Some r' => result_ok t (Some (sx w (va - vb))) p' e' r' | None => True end).
Proof.
  intros Hm Ha Hb Eb. unfold simplifySubViaReassociation_const2.
  destruct (const_src p e b vb Hm Hb Eb) as (c2 & Hc2i & _ & Hc2). step_inst Hc2i.
  destruct (holds_getInst p e Hm a t va Ha) as [i Hi]. step_inst Hi.
  destruct (tag_eqb (i_type i) t); simpl; [|by apply wp_ret]. step_get.
  destruct (isSubWithConstant p i) eqn:Hsub.
  - destruct (sub_operands p e a i va Hm Ha Hi Hsub)
      as (_ & x & y & vx & vy & Hs0 & Hs1 & Hx & Hy & -> & c' & Hc').
    apply wp_bind. eapply wp_src_of; [done|done|]. intros _ _.
    apply wp_bind. eapply wp_src_of; [done|done|]. intros _ _. step_get.
    destruct (isConstant p x); destruct Hc' as [Hi' Hc']; step_inst Hi'; apply wp_bind.
    + fold_step (sx w (vx - vb)). intros p1 e1 o1 Hx1 Hm1 Ho1 _ _ _. apply wp_bind.
      lin_step (sx w (sx w (vx - vy) - vb)). intros p2 e2 o2 _ _ Ho2 _ Hm2.
      apply wp_ret; [done|]. by eapply result_some.
    + fold_step (sx w (vb + vy)). intros p1 e1 o1 Hx1 Hm1 Ho1 (cs & Hcsi & _ & Hcs) _ _.
      step_inst Hcsi. apply wp_bind.
      eapply (wp_fold_neg cs _ (sx w (- (vb + vy)))); [done|exact Hcs|wrap|].
      intros p2 e2 o2 Hx2 Hm2 Ho2 _ _ _. apply wp_bind.
      lin_step (sx w (sx w (vx - vy) - vb)). intros p3 e3 o3 _ _ Ho3 _ Hm3.
      apply wp_ret; [done|]. by eapply result_some.
  - step_get. destruct (isAddWithConstant p i) eqn:Hadd; [|by apply wp_ret].
    apply isOpConst_split in Hadd as [Hop Hhc].
    apply wp_bind. eapply (wp_split_const Op_Add Z.add p e a i t va w); try done; [apply Z.add_comm|].
    intros c' s vc' vs Hc' Hs -> _ _. simpl. apply wp_bind. fold_step (sx w (vc' - vb)).
    intros p1 e1 o1 Hx1 Hm1 Ho1 _ _ _. apply wp_bind.
    lin_step (sx w (sx w (vc' + vs) - vb)). intros p2 e2 o2 _ _ Ho2 _ Hm2.
    apply wp_ret; [done|]. by eapply result_some.
Qed.

Lemma simplifySubViaReassociation_const1_ok p e a b va vb :
  models p e -> holds p e a t va -> holds p e b t vb -> isConstant p a = true ->
  wp (simplifySubViaReassociation_const1 P t a b) p e (result_ok t (Some (sx w (va - vb)))).
Proof.
  intros Hm Ha Hb Ea. unfold simplifySubViaReassociation_const1.
  destruct (const_src p e a va Hm Ha Ea) as (c1 & Hc1i & _ & Hc1). step_inst Hc1i.
  destruct (holds_getInst p e Hm b t vb Hb) as [i Hi]. step_inst Hi.
  destruct (tag_eqb (i_type i) t); simpl; [|by apply wp_ret]. step_get.
  destruct (isSubWithConstant p i) eqn:Hsub.
  - destruct (sub_operands p e b i vb Hm Hb Hi Hsub)
      as (_ & x & y & vx & vy & Hs0 & Hs1 & Hx & Hy & -> & c' & Hc').
    apply wp_bind. eapply wp_src_of; [done|done|]. intros _ _.
    apply wp_bind. eapply wp_src_of; [done|done|]. intros _ _. step_get.
    destruct (isConstant p x); destruct Hc' as [Hi' Hc']; step_inst Hi'; apply wp_bind.
    + fold_step (sx w (va - vx)). intros p1 e1 o1 Hx1 Hm1 Ho1 _ _ _. apply wp_some.
      lin_step (sx w (va - sx w (vx - vy))). done.
    + fold_step (sx w (va + vy)). intros p1 e1 o1 Hx1 Hm1 Ho1 _ _ _. apply wp_some.
      lin_step (sx w (va - sx w (vx - vy))). done.
  - step_get. destruct (isAddWithConstant p i) eqn:Hadd; [|by apply wp_ret].
    apply isOpConst_split in Hadd as [Hop Hhc].
    apply wp_bind. eapply (wp_split_const Op_Add Z.add p e b i t vb w); try done; [apply Z.add_comm|].
    intros c' s vc' vs Hc' Hs -> _ _. simpl. apply wp_bind. fold_step (sx w (va - vc')).
    intros p1 e1 o1 Hx1 Hm1 Ho1 _ _ _. apply wp_some.
    lin_step (sx w (va - sx w (vc' + vs))). done.
Qed.

Lemma simplifySubViaReassociation_ok p e a b va vb :
  models p e -> holds p e a t va -> holds p e b t vb ->
  wp (simplifySubViaReassociation P t a b) p e (result_ok t (Some (sx w (va - vb)))).
Proof.
  intros Hm Ha Hb. unfold simplifySubViaReassociation. step_get. apply wp_bind.
  assert (Hrest : forall p' e', models p' e' -> holds p' e' a t va -> holds p' e' b t vb ->
    wp (let* c1 := gget (fun p => isConstant p a) in
        if c1 then simplifySubViaReassociation_const1 P t a b else gret None) p' e'
      (result_ok t (Some (sx w (va - vb))))).
  { intros p' e' Hm' Ha' Hb'. step_get. destruct (isConstant p' a) eqn:Ea; [|by apply wp_ret].
    by apply simplifySubViaReassociation_const1_ok. }
  destruct (isConstant p b) eqn:Eb.
  - eapply wp_mono; [by apply simplifySubViaReassociation_const2_ok|].
    intros p' e' [r|] Hx Hm' Hr _ _; [by apply wp_ret|]. apply Hrest; [done|hold|hold].
  - apply wp_ret; [done|]. intros _ _. by apply Hrest.
Qed.
End at_point.

Lemma simplified_type_cases t : simplified_type t = true ->
  (exists w, int_width t = Some w) \/ (int_width t = None /\ arith_width t = None).
Proof. destruct t; intros; simplify_eq/=; eauto. Qed.

Lemma value_const p e o t v i : models p e -> simplified_type t = true -> holds p e o t v ->
  getInst p o = Some i -> isConst i = true -> const_val t (i_value i) = Some v.
Proof.
  intros Hm Ht Ho Hi Hc. destruct (const_holds p e Hm o t v i Ho Hi Hc) as [_ Hv].
  destruct t; try done; simpl; f_equal; symmetry; by apply Hv.
Qed.

(** Folding two constant sources. *)
Lemma wp_fold_sources op t a b va vb p e : simplified_type t = true -> is_binary op = true ->
  models p e -> holds p e a t va -> holds p e b t vb -> isConstant p a && isConstant p b = true ->
  wp (fold_sources P op t a b true) p e (result_ok t (binary_val t true op va vb)).
Proof.
  intros Ht Hop Hm Ha Hb [(i1 & Hi1 & Hc1)%isConstant_inst (i2 & Hi2 & Hc2)%isConstant_inst]%andb_true_iff.
  unfold fold_sources. step_inst Hi1. step_inst Hi2. eapply wp_fold_binary; [done|done|done| |].
  - exact (value_const p e a t va i1 Hm Ht Ha Hi1 Hc1).
  - exact (value_const p e b t vb i2 Hm Ht Hb Hi2 Hc2).
Qed.

(** The operand returned is one of the sources. *)
Lemma wp_same p e o t v val : models p e -> holds p e o t v -> (forall x, val = Some x -> v = x) ->
  wp (gret (Some o)) p e (result_ok t val).
Proof. intros Hm Ho Hv. apply wp_ret; [done|]. intros x Hx. by rewrite <- (Hv x Hx). Qed.

Lemma int_type_range p e o t w v : models p e -> int_width t = Some w -> holds p e o t v ->
  0 < w /\ is_s w v.
Proof.
  intros Hm Hw Ho. pose proof (holds_type p e o t v Hm Ho) as H.
  rewrite (has_type_int t w) in H by (by apply int_width_arith).
  split; [|done]. by destruct (arith_width_pos t w (int_width_arith t w Hw)).
Qed.

Lemma binary_val_int t w b op x y : int_width t = Some w -> binary_val t b op x y = int_op w b op x y.
Proof. intros Hw. unfold binary_val. by rewrite (int_width_arith t w Hw). Qed.

(** A step that tests an operand for the constant zero. *)
Ltac zero_step Hw :=
  step_get; match goal with |- context[isConstantZero ?p ?o] =>
    let E := fresh "Hz" in destruct (isConstantZero p o) eqn:E;
    [match goal with H : holds p _ o _ _ |- _ =>
       eapply isConstantZero_val in E; [|eassumption|exact H|apply int_width_arith; exact Hw] end|]
  end.

Lemma simplifyAdd_ok t mod_ p e a b va vb : simplified_type t = true ->
  models p e -> holds p e a t va -> holds p e b t vb ->
  wp (simplifyAdd P t mod_ a b) p e (result_ok t (binary_val t true Op_Add va vb)).
Proof.
  intros Ht Hm Ha Hb. unfold simplifyAdd.
  destruct (simplified_type_cases t Ht) as [[w Hw]|[Hw Hw']].
  - destruct (int_type_range p e a t w va Hm Hw Ha) as [Hpos Hra].
    destruct (int_type_range p e b t w vb Hm Hw Hb) as [_ Hrb].
    zero_step Hw; [|zero_step Hw].
    + eapply wp_same; [done|exact Hb|]. rewrite (binary_val_int t w), Hz by done.
      intros x [= <-]. by rewrite sx_id.
    + eapply wp_same; [done|exact Ha|]. rewrite (binary_val_int t w), Hz0 by done.
      intros x [= <-]. by rewrite Z.add_0_r, sx_id.
    + destruct (overflow_none mod_); simpl; [|by apply wp_ret]. step_get.
      destruct (isConstant p a && _) eqn:Ecc; [by apply wp_fold_sources|].
      rewrite (binary_val_int t w) by done. change (int_op w true Op_Add va vb) with (Some (sx w (va + vb))).
      assert (Hcomm : sx w (va + vb) = sx w (vb + va)) by (by rewrite Z.add_comm).
      destruct t; try done; (apply wp_or_else; [by apply simplifyAddWithNeg_ok|]; intros p1 e1 Hx1 Hm1;
        rewrite Hcomm; apply wp_or_else; [apply simplifyAddWithNeg_ok; try done; hold|];
        intros p2 e2 Hx2 Hm2; rewrite <- Hcomm; apply wp_or_else;
        [apply simplifyAddViaReassociation_ok; try done; hold|]; intros p3 e3 Hx3 Hm3; rewrite Hcomm;
        pose proof (extends_trans _ _ _ _ _ _ Hx1 (extends_trans _ _ _ _ _ _ Hx2 Hx3));
        apply simplifyAddViaReassociation_ok; try done; hold).
  - step_get. rewrite (isConstantZero_fp p e Hm a t va) by done.
    step_get. rewrite (isConstantZero_fp p e Hm b t vb) by done.
    destruct (overflow_none mod_); simpl; [|by apply wp_ret]. step_get.
    destruct (isConstant p a && _) eqn:Ecc; [by apply wp_fold_sources|].
    destruct t; by try apply wp_ret.
Qed.

(** Changing the sign twice. *)
Lemma chgsign_testbit F a i : F = binary32 \/ F = binary64 -> is_u (fw F) a -> 0 <= i ->
  Z.testbit (_chgsign F a) i = if i =? fw F - 1 then negb (Z.testbit a i) else Z.testbit a i.
Proof.
  intros HF Ha Hi.
  assert (Hs : fsignbit F (of_int F 1) = false /\ fsignbit F (of_int F (-1)) = true /\ 0 < fw F)
    by (by destruct HF as [-> | ->]).
  destruct Hs as (H1 & H2 & Hw). unfold _chgsign, fcopysign.
  assert (Hhi : fw F <= i -> Z.testbit a i = false) by (intros; apply (testbit_high (fw F)); [done|lia]).
  destruct (fsignbit F a) eqn:Es; rewrite ?H1, ?H2; unfold fsignbit in Es.
  - rewrite Z.land_spec. destruct (Z.eqb_spec i (fw F - 1)) as [->|Hne].
    + rewrite Es, Z.ones_spec_high by lia. done.
    + destruct (Z.ltb_spec i (fw F - 1)).
      * rewrite Z.ones_spec_low by lia. apply andb_true_r.
      * rewrite Hhi by lia. done.
  - rewrite Z.lor_spec, Z.pow2_bits_eqb by lia. rewrite (Z.eqb_sym (fw F - 1)).
    destruct (Z.eqb_spec i (fw F - 1)) as [->|Hne]; [by rewrite Es|apply orb_false_r].
Qed.

Lemma chgsign_involutive F a : F = binary32 \/ F = binary64 -> is_u (fw F) a ->
  _chgsign F (_chgsign F a) = a.
Proof.
  intros HF Ha. assert (HF' : format_ok F) by (destruct HF as [-> | ->]; [exact binary32_ok|exact binary64_ok]).
  apply Z.bits_inj'. intros i Hi.
  rewrite !chgsign_testbit by (done || by apply chgsign_range).
  destruct (i =? fw F - 1); [apply negb_involutive|done].
Qed.

Lemma simplifySub_ok t mod_ p e a b va vb : simplified_type t = true ->
  models p e -> holds p e a t va -> holds p e b t vb ->
  wp (simplifySub P t mod_ a b) p e (result_ok t (binary_val t true Op_Sub va vb)).
Proof.
  intros Ht Hm Ha Hb. unfold simplifySub.
  destruct (simplified_type_cases t Ht) as [[w Hw]|[Hw Hw']].
  - destruct (int_type_range p e a t w va Hm Hw Ha) as [Hpos Hra].
    destruct (int_type_range p e b t w vb Hm Hw Hb) as [_ Hrb].
    zero_step Hw.
    + eapply wp_same; [done|exact Ha|]. rewrite (binary_val_int t w), Hz by done.
      intros x [= <-]. by rewrite Z.sub_0_r, sx_id.
    + step_get. destruct (isConstant p a && _) eqn:Ecc; [by apply wp_fold_sources|].
      rewrite (binary_val_int t w) by done. change (int_op w true Op_Sub va vb) with (Some (sx w (va - vb))).
      assert (Hself : (a =? b)%nat = true -> sx w (va - vb) = 0).
      { intros ->%Nat.eqb_eq. destruct (holds_fun p e b t va t vb Ha Hb) as [_ ->].
        rewrite Z.sub_diag. apply sx_id; [done|by apply is_s_0]. }
      assert (H : forall ld, (forall Q : prog -> env -> Opnd -> Prop, (forall p' e' o, extends p e p' e' -> holds p' e' o t 0 -> Q p' e' o) -> wp ld p e Q) ->
        wp (let* z1 := gget (fun p => isConstantZero p a) in
            if z1 then let* r := genNeg t b in gret (Some r) else
            if (a =? b)%nat then let* r := ld in gret (Some r) else
            if negb (overflow_none mod_) then gret None else
            or_else (simplifySubWithNeg mod_ t a b) (simplifySubViaReassociation P t a b)) p e
          (result_ok t (Some (sx w (va - vb))))).
      { intros ld Hld. zero_step Hw.
        { eapply wp_neg_some; [done|by apply int_width_arith|exact Hb|]. by rewrite Hz0. }
        destruct (a =? b)%nat.
        { apply wp_bind, Hld. intros p1 e1 o Hx1 Ho _ Hm1. apply wp_ret; [done|].
          eapply result_some; [exact Ho|]. by rewrite Hself. }
        destruct (negb _); [by apply wp_ret|].
        apply wp_or_else; [by apply simplifySubWithNeg_ok|]. intros p1 e1 Hx1 Hm1.
        apply simplifySubViaReassociation_ok; try done; hold. }
      destruct t; try done; apply H; intros Q HQ.
      * apply wp_genLdConstant_i4; [done|]. intros p' e' o. by apply HQ.
      * apply wp_genLdConstant_i8; [done|]. intros p' e' o. by apply HQ.
  - step_get. rewrite (isConstantZero_fp p e Hm b t vb) by done. step_get.
    destruct (isConstant p a && _) eqn:Ecc; [by apply wp_fold_sources|].
    destruct t; by try apply wp_ret.
Qed.

(** The value under a negation. *)
Lemma simplifyNeg_ok t p e a va : simplified_type t = true -> models p e -> holds p e a t va ->
  wp (simplifyNeg t a) p e (result_ok t (unary_val t Op_Neg va)).
Proof.
  intros Ht Hm Ha. unfold simplifyNeg. destruct (holds_getInst p e Hm a t va Ha) as [i Hi]. step_inst Hi.
  destruct (isConst i) eqn:Hc.
  - pose proof (value_const p e a t va i Hm Ht Ha Hi Hc) as Hv.
    eapply wp_fold_unary; [done|done|done|exact Hv| |done].
    intros x Hx p' e' o _ _ Ho _. by eapply result_some.
  - destruct (isNeg i) eqn:Hn; [|by apply wp_ret].
    unfold isNeg, op_eqb in Hn. apply bool_decide_eq_true in Hn.
    destruct (unary_holds p e Hm a i t va Ha Hi) as (_ & s & vs & Hs & Hvs & Hval); [by rewrite Hn|].
    apply wp_bind. eapply wp_src_of; [done|by rewrite Hs|]. intros _ _.
    eapply wp_same; [done|exact Hvs|]. rewrite Hn in Hval. intros x Hx.
    pose proof (holds_type p e s t vs Hm Hvs) as Hty.
    destruct (simplified_type_cases t Ht) as [[w Hw]|[Hw Hw']].
    + destruct (int_type_range p e s t w vs Hm Hw Hvs) as [Hpos Hr].
      unfold unary_val in *. rewrite (int_width_arith t w Hw) in *.
      rewrite (Hval _ eq_refl) in Hx. injection Hx as <-. rewrite <- (sx_id w vs) at 1 by done. wrap.
    + unfold unary_val in *. rewrite Hw' in *.
      destruct t; try done; simpl in *; rewrite (Hval _ eq_refl) in Hx; injection Hx as <-;
        symmetry; apply chgsign_involutive; auto.
Qed.

(** ** Logical operations *)

Lemma isConstant_i4_val p e o t v i m : models p e -> holds p e o t v -> getInst p o = Some i ->
  isConstant_i4 i = Some m -> t = Int32 /\ v = m.
Proof.
  intros Hm Ho Hi. unfold isConstant_i4. destruct (isConst i) eqn:Hc; [|done].
  destruct (tag_eqb _ _) eqn:Ht; simpl; [|done]. intros [= <-]. apply tag_eqb_eq in Ht.
  destruct (const_holds p e Hm o t v i Ho Hi Hc) as [<- Hv]. split; [done|].
  rewrite Ht in Hv. by apply Hv.
Qed.

Lemma isConstant_i8_val p e o t v i m : models p e -> holds p e o t v -> getInst p o = Some i ->
  isConstant_i8 i = Some m -> t = Int64 /\ v = m.
Proof.
  intros Hm Ho Hi. unfold isConstant_i8. destruct (isConst i) eqn:Hc; [|done].
  destruct (tag_eqb _ _) eqn:Ht; simpl; [|done]. intros [= <-]. apply tag_eqb_eq in Ht.
  destruct (const_holds p e Hm o t v i Ho Hi Hc) as [<- Hv]. split; [done|].
  rewrite Ht in Hv. by apply Hv.
Qed.

(** The value of a conversion. *)
Lemma conv_holds p e o i t v : models p e -> holds p e o t v -> getInst p o = Some i ->
  i_opcode i = Op_Conv ->
  exists s from vs, i_srcs i = [s] /\ holds p e s from vs /\
    (forall x, conv_val from (i_type i) t vs = Some x -> v = x).
Proof.
  intros Hm Ho Hi Hop. destruct (holds_inst p e o t v Hm Ho) as (i' & Hi' & <- & vals & Hs & _ & Ht & _ & Hd).
  simplify_eq. unfold inst_typed in Ht. rewrite Hop in Ht.
  destruct vals as [|[from vs] [|]]; try done. unfold src_vals in Hs. apply mapM_Some in Hs.
  inversion Hs as [|s x sa la Ha Hs1 Ea]; subst. inversion Hs1; subst.
  exists s, from, vs. split_and!; [done|done|]. intros x Hx. apply Hd. unfold denote. by rewrite Hop.
Qed.

Lemma land_sx_mask w n a m : 0 < n <= w -> is_s w a -> is_s w m -> (n < w -> ux w m < 2 ^ n) ->
  Z.land (sx n a) m = Z.land a m.
Proof.
  intros Hn Ha Hm Hmask. destruct (decide (n = w)) as [->|Hne]; [by rewrite sx_id by (done || lia)|].
  specialize (Hmask ltac:(lia)). assert (0 < w) by lia.
  assert (Hlt : 2 ^ n <= 2 ^ (w - 1)) by (apply Z.pow_le_mono_r; lia).
  assert (Hm0 : 0 <= m < 2 ^ n).
  { pose proof (ux_range w m ltac:(lia)) as Hu. rewrite ux_signed in Hmask by done.
    pose proof (pow2_half w ltac:(lia)). unfold is_s, is_u in *. case_decide; lia. }
  apply Z.bits_inj'. intros i Hi. rewrite !Z.land_spec. destruct (Z.ltb_spec i n).
  - f_equal. apply (testbit_eqm n); [apply eqm_sx|lia].
  - rewrite (testbit_high n m i), !andb_false_r by lia. done.
Qed.

Section logic_at.
Context (t : Tag) (w : Z) (Ht : int_width t = Some w).
Let Hw : arith_width t = Some w := int_width_arith t w Ht.

Lemma int_logic op x y r : int_op w true op x y = Some r -> binary_val t true op x y = Some r.
Proof. intros <-. by apply binary_val_int. Qed.

Lemma wp_land a b va vb r p e : models p e -> holds p e a t va -> holds p e b t vb ->
  Z.land va vb = r -> wp (genAnd t a b) p e (fun p' e' o => holds p' e' o t r).
Proof.
  intros Hm Ha Hb <-. destruct (int_type_range p e a t w va Hm Ht Ha) as [Hpos Hra].
  destruct (int_type_range p e b t w vb Hm Ht Hb) as [_ Hrb].
  eapply (wp_binary p e Hm _ Op_And 0 t w a b va vb); try done. by apply is_s_land.
Qed.

(** The width the conversion keeps is covered by the mask. *)
Lemma and_drop_conv_ok first conv other i m vc p e :
  models p e -> holds p e conv t vc -> holds p e other t m -> getInst p conv = Some i ->
  i_opcode i = Op_Conv -> and_covers (i_type i) (ux w m) = true ->
  wp (and_drop_conv t conv other i first) p e (result_ok t (Some (Z.land vc m))).
Proof.
  intros Hm Hc Hmk Hi Hop Hcov. unfold and_drop_conv.
  destruct (conv_holds p e conv i t vc Hm Hc Hi Hop) as (s & from & vs & Hs & Hvs & Hv).
  destruct (int_type_range p e other t w m Hm Ht Hmk) as [Hpos Hrm].
  apply wp_bind. eapply wp_src_of; [done|by rewrite Hs|]. intros _ _.
  apply wp_bind. eapply wp_type_of; [done|exact Hvs|]. intros _ _.
  apply wp_bind. eapply wp_type_of; [done|exact Hc|]. intros _ _.
  destruct (tag_eqb from t) eqn:Hf; [|by apply wp_ret]. apply tag_eqb_eq in Hf. subst from.
  destruct (int_type_range p e s t w vs Hm Ht Hvs) as [_ Hrs].
  assert (Hland : Z.land vc m = Z.land vs m).
  { assert (Hn : exists n, 0 < n <= 32 /\ ux w m < 2 ^ n /\ conv_val t (i_type i) t vs = Some (sx n vs)).
    { unfold and_covers in Hcov. unfold conv_val. rewrite Hw.
      apply orb_true_iff in Hcov as [[Hcov|Hcov]%orb_true_iff|Hcov];
        apply andb_true_iff in Hcov as [->%tag_eqb_eq Hle%Z.leb_le];
        [exists 8|exists 16|exists 32]; (split; [lia|split; [lia|done]]). }
    destruct Hn as (n & Hn & Hmn & Hcv). rewrite (Hv _ Hcv).
    apply (land_sx_mask w); try done. destruct t; simplify_eq/=; lia. }
  apply wp_some. rewrite Hland. destruct first; (eapply wp_land; [done|done|done|]); [done|apply Z.land_comm].
Qed.

Lemma const_mask_i8 p e o v i j opc test : models p e -> holds p e o t v -> getInst p o = Some i ->
  const_mask (isConstant_i8 i) 64 opc j test = true ->
  i_opcode j = opc /\ test (i_type j) (ux w v) = true.
Proof.
  intros Hm Ho Hi. unfold const_mask. destruct (isConstant_i8 i) as [m|] eqn:E; [|done].
  destruct (isConstant_i8_val p e o t v i m) as [-> ->]; try done. simpl in Ht. simplify_eq.
  intros [H1%bool_decide_eq_true H2]%andb_true_iff. done.
Qed.

Lemma const_mask_i4 p e o v i j opc test : models p e -> holds p e o t v -> getInst p o = Some i ->
  const_mask (isConstant_i4 i) 32 opc j test = true ->
  i_opcode j = opc /\ test (i_type j) (ux w v) = true.
Proof.
  intros Hm Ho Hi. unfold const_mask. destruct (isConstant_i4 i) as [m|] eqn:E; [|done].
  destruct (isConstant_i4_val p e o t v i m) as [-> ->]; try done. simpl in Ht. simplify_eq.
  intros [H1%bool_decide_eq_true H2]%andb_true_iff. done.
Qed.

(** A full mask of a zero-extending load changes nothing. *)
Lemma load_mask p e o i v m : models p e -> holds p e o t v -> getInst p o = Some i -> is_s w m ->
  i_opcode i = Op_TauLdInd -> and_full (i_type i) (ux w m) = true -> Z.land v m = v.
Proof.
  intros Hm Ho Hi Hrm Hop Hfull. destruct (int_type_range p e o t w v Hm Ht Ho) as [Hpos Hr].
  destruct (holds_inst p e o t v Hm Ho) as (i' & Hi' & Hd & vals & _ & _ & _ & Hl & _).
  rewrite Hi in Hi'. injection Hi' as <-. specialize (Hl Hop). rewrite Hd in Hl. unfold and_full in Hfull.
  assert (Hall : forall n, 0 <= n -> n < w -> ux w m = 2 ^ n - 1 -> is_u n v -> Z.land v m = v).
  { intros n Hn Hnw Hmn Hv. assert (Hlt : 2 ^ n <= 2 ^ (w - 1)) by (apply Z.pow_le_mono_r; lia).
    assert (0 < 2 ^ n) by (by apply pow2_pos).
    assert (m = Z.ones n) as ->.
    { rewrite ux_signed in Hmn by done. rewrite Z.ones_equiv. pose proof (pow2_half w Hpos).
      unfold is_s in Hrm. case_decide; lia. }
    rewrite Z.land_ones by done. apply Z.mod_small. exact Hv. }
  assert (w = 32 \/ w = 64) as Hww by (destruct t; simplify_eq/=; auto).
  apply orb_true_iff in Hfull as [[Hf|Hf]%orb_true_iff|Hf];
    apply andb_true_iff in Hf as [Hty%tag_eqb_eq Heq%Z.eqb_eq]; rewrite Hty in Hl.
  - apply (Hall 8); try done; lia.
  - apply (Hall 16); try done; lia.
  - destruct (decide (w = 32)) as [->|].
    + assert (m = -1) as ->; [|apply Z.land_m1_r].
      rewrite ux_signed in Heq by done. unfold is_s in Hrm. case_decide; lia.
    + apply (Hall 32); try lia. by destruct t; simplify_eq/=.
Qed.

Lemma simplifyAnd_load_ok p e a b i j va vb :
  models p e -> holds p e a t va -> holds p e b t vb -> getInst p a = Some i -> getInst p b = Some j ->
  wp (simplifyAnd_load t a b i j) p e (result_ok t (Some (Z.land va vb))).
Proof.
  intros Hm Ha Hb Hi Hj. destruct (int_type_range p e a t w va Hm Ht Ha) as [_ Hra].
  destruct (int_type_range p e b t w vb Hm Ht Hb) as [_ Hrb].
  assert (H : forall o v m, holds p e o t v -> v = m ->
    wp (let* t' := type_of o in if tag_eqb t t' then gret (Some o) else gret None) p e (result_ok t (Some m))).
  { intros o v m Ho ->. apply wp_bind. eapply wp_type_of; [done|exact Ho|]. intros _ _.
    destruct (tag_eqb t t); apply wp_ret; try done. by eapply result_some. }
  unfold simplifyAnd_load.
  destruct (const_mask _ 64 _ j _) eqn:E1.
  { destruct (const_mask_i8 p e a va i j _ _ Hm Ha Hi E1) as [Hop Hf].
    apply (H b vb); [done|]. rewrite Z.land_comm. symmetry. by eapply load_mask. }
  destruct (const_mask _ 64 _ i _) eqn:E2.
  { destruct (const_mask_i8 p e b vb j i _ _ Hm Hb Hj E2) as [Hop Hf].
    apply (H a va); [done|]. symmetry. by eapply load_mask. }
  destruct (const_mask _ 32 _ j _) eqn:E3.
  { destruct (const_mask_i4 p e a va i j _ _ Hm Ha Hi E3) as [Hop Hf].
    apply (H b vb); [done|]. rewrite Z.land_comm. symmetry. by eapply load_mask. }
  destruct (const_mask _ 32 _ i _) eqn:E4; [|by apply wp_ret].
  destruct (const_mask_i4 p e b vb j i _ _ Hm Hb Hj E4) as [Hop Hf].
  apply (H a va); [done|]. symmetry. by eapply load_mask.
Qed.

(** Tests of an operand for the constants zero and minus one. *)
Ltac ones_step :=
  step_get; match goal with |- context[isConstantAllOnes ?p ?o] =>
    let E := fresh "Ho" in destruct (isConstantAllOnes p o) eqn:E;
    [match goal with H : holds p _ o _ _ |- _ =>
       eapply isConstantAllOnes_val in E; [|eassumption|exact H|destruct t; done] end|]
  end.
Ltac same_src H := eapply wp_same; [assumption|exact H|]; rewrite (binary_val_int t w) by exact Ht;
  simpl; intros ? [= <-]; subst.

Lemma same_operand p e a b va vb : holds p e a t va -> holds p e b t vb -> (a =? b)%nat = true -> va = vb.
Proof. intros Ha Hb ->%Nat.eqb_eq. by destruct (holds_fun p e b t va t vb Ha Hb). Qed.

Lemma simplifyAnd_ok p e a b va vb : models p e -> holds p e a t va -> holds p e b t vb ->
  wp (simplifyAnd P flags t a b) p e (result_ok t (binary_val t true Op_And va vb)).
Proof.
  intros Hm Ha Hb. unfold simplifyAnd. destruct (a =? b)%nat eqn:Eab.
  { same_src Ha. rewrite (same_operand p e a b va vb) by done. symmetry. apply Z.land_diag. }
  zero_step Ht; [same_src Ha; by rewrite Z.land_0_l|].
  zero_step Ht; [same_src Hb; by rewrite Z.land_0_r|].
  ones_step; [same_src Hb; by rewrite Z.land_m1_l|].
  ones_step; [same_src Ha; by rewrite Z.land_m1_r|].
  step_get. destruct (isConstant p a && _) eqn:Ecc.
  { apply wp_fold_sources; try done. by destruct t. }
  rewrite (int_logic Op_And va vb (Z.land va vb)) by done. step_get. step_get.
  destruct (do_sxt flags && _); [|by apply wp_ret].
  destruct (holds_getInst p e Hm a t va Ha) as [i Hi]. destruct (holds_getInst p e Hm b t vb Hb) as [j Hj].
  step_inst Hj. step_inst Hi. apply wp_or_else.
  - assert (H1 : forall x y vx vy k l, holds p e x t vx -> holds p e y t vy -> getInst p y = Some k ->
      i_opcode k = Op_Conv /\ and_covers (i_type k) (ux w vx) = true ->
      wp (and_drop_conv t y x k l) p e (result_ok t (Some (Z.land vy vx)))).
    { intros x y vx vy k l Hx Hy Hk [Hop Hcov]. by eapply and_drop_conv_ok. }
    destruct (const_mask _ 64 _ j _) eqn:E1.
    { rewrite Z.land_comm. eapply H1; [exact Ha|exact Hb|done|by eapply const_mask_i8]. }
    destruct (const_mask _ 64 _ i _) eqn:E2.
    { eapply H1; [exact Hb|exact Ha|done|by eapply const_mask_i8]. }
    destruct (const_mask _ 32 _ j _) eqn:E3.
    { rewrite Z.land_comm. eapply H1; [exact Ha|exact Hb|done|by eapply const_mask_i4]. }
    destruct (const_mask _ 32 _ i _) eqn:E4; [|by apply wp_ret].
    eapply H1; [exact Hb|exact Ha|done|by eapply const_mask_i4].
  - intros p1 e1 Hx Hm1. assert (Hpre : p `prefix_of` p1) by apply Hx.
    apply simplifyAnd_load_ok; try done; try hold; by eapply prefix_lookup_Some.
Qed.

Lemma simplifyOr_ok p e a b va vb : models p e -> holds p e a t va -> holds p e b t vb ->
  wp (simplifyOr P t a b) p e (result_ok t (binary_val t true Op_Or va vb)).
Proof.
  intros Hm Ha Hb. unfold simplifyOr. destruct (a =? b)%nat eqn:Eab.
  { same_src Ha. rewrite (same_operand p e a b va vb) by done. symmetry. apply Z.lor_diag. }
  zero_step Ht; [same_src Hb; by rewrite Z.lor_0_l|].
  zero_step Ht; [same_src Ha; by rewrite Z.lor_0_r|].
  ones_step; [same_src Ha; by rewrite Z.lor_m1_l|].
  ones_step; [same_src Hb; by rewrite Z.lor_m1_r|].
  step_get. destruct (isConstant p a && _) eqn:Ecc; [|by apply wp_ret].
  apply wp_fold_sources; try done. by destruct t.
Qed.

Lemma simplifyNot_ok p e a va : models p e -> holds p e a t va ->
  wp (simplifyNot t a) p e (result_ok t (unary_val t Op_Not va)).
Proof.
  intros Hm Ha. assert (Hvt : simplified_type t = true) by (by destruct t).
  unfold simplifyNot. destruct (holds_getInst p e Hm a t va Ha) as [i Hi]. step_inst Hi.
  destruct (isConst i) eqn:Hc; [|by apply wp_ret].
  eapply wp_fold_unary; [done|done|done|exact (value_const p e a t va i Hm Hvt Ha Hi Hc)| |done].
  intros x Hx p' e' o _ _ Ho _. by eapply result_some.
Qed.

Lemma simplifyXor_ok p e a b va vb : models p e -> holds p e a t va -> holds p e b t vb ->
  wp (simplifyXor P t a b) p e (result_ok t (binary_val t true Op_Xor va vb)).
Proof.
  intros Hm Ha Hb. unfold simplifyXor.
  assert (Hnot : forall x, unary_val t Op_Not x = Some (Z.lnot x)) by (intros; unfold unary_val; by rewrite Hw).
  zero_step Ht; [same_src Hb; by rewrite Z.lxor_0_l|].
  zero_step Ht; [same_src Ha; by rewrite Z.lxor_0_r|].
  ones_step.
  { subst va. rewrite (int_logic Op_Xor (-1) vb (Z.lnot vb)), <- Hnot by (simpl; by rewrite Z.lxor_m1_l).
    by apply simplifyNot_ok. }
  ones_step.
  { subst vb. rewrite (int_logic Op_Xor va (-1) (Z.lnot va)), <- Hnot by (simpl; by rewrite Z.lxor_m1_r).
    by apply simplifyNot_ok. }
  step_get. destruct (isConstant p a && _) eqn:Ecc; [|by apply wp_ret].
  apply wp_fold_sources; try done. by destruct t.
Qed.
End logic_at.

(** ** Multiplication, extrema, shifts *)

Lemma simplify_minmax_ok op t p e a b va vb : simplified_type t = true -> op = Op_Min \/ op = Op_Max ->
  models p e -> holds p e a t va -> holds p e b t vb ->
  wp (simplify_minmax P op t a b) p e (result_ok t (binary_val t true op va vb)).
Proof.
  intros Ht Hop Hm Ha Hb. unfold simplify_minmax. step_get.
  destruct (isConstant p a && _) eqn:Ecc; [apply wp_fold_sources; try done; by destruct Hop as [-> | ->]|].
  destruct (a =? b)%nat eqn:Eab; [|by apply wp_ret]. apply Nat.eqb_eq in Eab. subst b.
  destruct (holds_fun p e a t va t vb Ha Hb) as [_ <-]. eapply wp_same; [done|exact Ha|].
  intros x Hx. destruct t, Hop as [-> | ->]; try done; injection Hx as <-; by rewrite ?Z.min_id, ?Z.max_id.
Qed.

Lemma simplifyAbs_ok t p e a va : simplified_type t = true -> models p e -> holds p e a t va ->
  wp (simplifyAbs t a) p e (result_ok t (unary_val t Op_Abs va)).
Proof.
  intros Ht Hm Ha. unfold simplifyAbs. destruct (holds_getInst p e Hm a t va Ha) as [i Hi]. step_inst Hi.
  destruct (isConst i) eqn:Hc; [|by apply wp_ret].
  eapply wp_fold_unary; [done|done|done|exact (value_const p e a t va i Hm Ht Ha Hi Hc)| |done].
  intros x Hx p' e' o _ _ Ho _. by eapply result_some.
Qed.

Section shift_at.
Context (t : Tag) (w : Z) (Ht : int_width t = Some w).
Let Hw : arith_width t = Some w := int_width_arith t w Ht.

(** A shift by zero leaves the value, whatever the masking. *)
Lemma shift_amount_0 mod_ : shift_amount w mod_ 0 = Some 0.
Proof.
  unfold shift_amount. rewrite Z.land_0_l. destruct (arith_width_pos t w Hw) as [Hpos _].
  rewrite (proj2 (Z.ltb_lt 0 w)) by done. by destruct (_ =? _).
Qed.

Lemma simplifyShift_ok mod_ p e a s ts ws va vs : models p e -> holds p e a t va -> holds p e s ts vs ->
  arith_width ts = Some ws ->
  wp (simplifyShl t mod_ a s) p e (fun p' e' r =>
    result_ok t (shl_val w mod_ va vs) p' e' r /\ result_ok t (shr_val w mod_ va vs) p' e' r).
Proof.
  intros Hm Ha Hs Hws. unfold simplifyShl. step_get.
  destruct (isConstantZero p s) eqn:Ez; [|by apply wp_ret].
  apply (isConstantZero_val p e Hm s ts vs ws Hs Hws) in Ez. subst vs.
  destruct (int_type_range p e a t w va Hm Ht Ha) as [Hpos Hra].
  apply wp_ret; [done|]. unfold shl_val, shr_val. rewrite !shift_amount_0. simpl. split; intros x [= <-].
  - by rewrite Z.shiftl_0_r, sx_id.
  - rewrite !Z.shiftr_0_r, sx_ux. rewrite sx_id by done. by destruct (isSigned mod_).
Qed.

(** [Op_Shladd] *)
Definition shladd_val (w a s b : Z) : option Z :=
  s ← shift_amount w 0 s; Some (sx w (sx w (Z.shiftl a s) + b)).

Lemma simplifyShladd_ok p e a s b ts ws va vs vb : models p e ->
  holds p e a t va -> holds p e s ts vs -> holds p e b t vb -> arith_width ts = Some ws ->
  wp (simplifyShladd t a s b) p e (result_ok t (shladd_val w va vs vb)).
Proof.
  intros Hm Ha Hs Hb Hws. unfold simplifyShladd. step_get.
  destruct (isConstantZero p s) eqn:Ez; [|by apply wp_ret].
  apply (isConstantZero_val p e Hm s ts vs ws Hs Hws) in Ez. subst vs.
  unfold shladd_val. rewrite shift_amount_0. simpl. rewrite Z.shiftl_0_r.
  eapply wp_lin_some; [|done|exact Hw|exact Ha|exact Hb|]; [done|wrap].
Qed.

(** *** Multiplication by a constant *)

Lemma mul_by_constant_ok p e c s vc vs : models p e -> holds p e c t vc -> holds p e s t vs ->
  isConstant p c = true -> ~ neg_power w vc ->
  wp (mul_by_constant flags t c s) p e (result_ok t (Some (sx w (vc * vs)))).
Proof.
  intros Hm Hc Hs Hcc Hn. apply isConstant_inst in Hcc as (i & Hi & Hic).
  assert (Hvt : simplified_type t = true) by (by destruct t).
  pose proof (value_const p e c t vc i Hm Hvt Hc Hi Hic) as Hv.
  destruct (const_holds p e Hm c t vc i Hc Hi Hic) as [Hty _].
  destruct (int_type_range p e c t w vc Hm Ht Hc) as [Hpos Hrc].
  assert (Hplan : wp (planMul_gen (ia32_code_gen flags) w vc s) p e (result_ok t (Some (sx w (vc * vs))))).
  { eapply wp_mono; [by apply (planMul_gen_ok (ia32_code_gen flags) t w s vs vc)|].
    intros p' e' [o|] _ _ Hr; [|done]. by eapply result_some. }
  unfold mul_by_constant. step_inst Hi.
  assert (Hcst : (match t with Int32 => isConstant_i4 i | _ => isConstant_i8 i end) = Some vc).
  { clear Hplan Hm Hc. unfold isConstant_i4, isConstant_i8. destruct t; try done;
      rewrite Hic, Hty; simpl in *; by simplify_eq. }
  destruct t; try done; apply wp_bind; (eapply wp_opt; [exact Hcst|done|]); intros _ _; simpl in Ht;
    injection Ht as <-; exact Hplan.
Qed.

(** The product with a constant, distributed. *)
Lemma foldConstMultiplyByAdd_ok p e k c o i vc v : models p e ->
  holds p e k t vc -> const_val t (i_value c) = Some vc -> holds p e o t v -> getInst p o = Some i ->
  isAddWithConstant p i = true ->
  wp (foldConstMultiplyByAddWithConstant P t k c i) p e (fun p' e' r => holds p' e' r t (sx w (vc * v))).
Proof.
  intros Hm Hk Hc Ho Hi [Hop Hhc]%isOpConst_split. unfold foldConstMultiplyByAddWithConstant, gassert.
  rewrite (lin_type_assert t w Ht p e o i v Op_Add Z.add) by done. apply wp_bind, wp_ret; [done|]. intros _ _.
  apply wp_bind. eapply (wp_split_const Op_Add Z.add p e o i t v w); try done; [apply Z.add_comm|].
  intros c' s vc' vs Hc' Hs -> _ _. simpl. apply wp_bind.
  eapply (wp_fold_lin t w Ht Op_Mul _ _ _ _ _ (sx w (vc * vc'))); try done.
  intros p1 e1 o1 Hx1 Hm1 Ho1 _ _ _. apply wp_bind.
  eapply (wp_lin Op_Mul Z.mul _ t w k s vc vs (sx w (vc * vs))); try done; try hold.
  intros p2 e2 o2 Hx2 Hm2 Ho2 _ _.
  eapply (wp_lin Op_Add Z.add _ t w o1 o2 _ _ (sx w (vc * sx w (vc' + vs)))); try done; [hold|wrap].
Qed.

Lemma foldConstMultiplyByMul_ok p e c o i vc v : models p e ->
  const_val t (i_value c) = Some vc -> holds p e o t v -> getInst p o = Some i ->
  isMultiplyByConstant p i = true ->
  wp (foldConstMultiplyByMulWithConstant P t c i) p e (fun p' e' r => holds p' e' r t (sx w (vc * v))).
Proof.
  intros Hm Hc Ho Hi [Hop Hhc]%isOpConst_split. unfold foldConstMultiplyByMulWithConstant, gassert.
  rewrite (lin_type_assert t w Ht p e o i v Op_Mul Z.mul) by done. apply wp_bind, wp_ret; [done|]. intros _ _.
  apply wp_bind. eapply (wp_split_const Op_Mul Z.mul p e o i t v w); try done; [apply Z.mul_comm|].
  intros c' s vc' vs Hc' Hs -> _ _. simpl. apply wp_bind.
  eapply (wp_fold_lin t w Ht Op_Mul _ _ _ _ _ (sx w (vc * vc'))); try done.
  intros p1 e1 o1 Hx1 Hm1 Ho1 _ _ _.
  eapply (wp_lin Op_Mul Z.mul _ t w o1 s _ _ (sx w (vc * sx w (vc' * vs)))); try done; [hold|wrap].
Qed.

(** The negated product of two constants, as it is folded in place. *)
Lemma neg_fold_mul c1 c2 v1 v2 : const_val t (i_value c1) = Some v1 -> const_val t (i_value c2) = Some v2 ->
  const_val t (snd (foldConstant_1 t Op_Neg
    (snd (foldConstant P t Op_Mul (i_value c1) (i_value c2) cv_zero true)) cv_zero)) = Some (sx w (- (v1 * v2))).
Proof.
  intros H1 H2. destruct (foldConstant P t Op_Mul (i_value c1) (i_value c2) cv_zero true) as [ok res] eqn:Hf.
  assert (Hvt : simplified_type t = true) by (by destruct t).
  destruct (foldConstant_val P t Op_Mul _ _ v1 v2 ok res Hvt eq_refl H1 H2 Hf) as [Hok Hno].
  assert (Hbv : binary_val t true Op_Mul v1 v2 = Some (sx w (v1 * v2))) by (by rewrite (binary_val_int t w)).
  rewrite Hbv in *. destruct ok; [|by specialize (Hno eq_refl ltac:(by rewrite Hw))].
  destruct (Hok eq_refl) as (x & [= <-] & Hres). simpl.
  replace (sx w (- (v1 * v2))) with (sx w (- sx w (v1 * v2))) by wrap.
  destruct t; try done; simpl in *; simplify_eq; rewrite Hres; f_equal;
    [rewrite get_set_i4|rewrite get_set_i8]; wrap.
Qed.

(** Loading the integer of a constant of the type. *)
Lemma wp_ldc r x p e Q : models p e -> const_val t r = Some x -> sx w x = x ->
  (forall p' e' o, extends p e p' e' -> models p' e' -> holds p' e' o t x -> Q p' e' o) ->
  wp (match t with
      | Int32 => genLdConstant_i4 (get_i4 r)
      | Int64 => genLdConstant_i8 (get_i8 r)
      | _ => gfail end) p e Q.
Proof.
  intros Hm Hr Hx HQ. eapply (wp_mono _ _ _ (fun p' e' o => holds p' e' o t x)); [|auto].
  destruct t; try done; simpl in Hr, Ht; injection Hr as ->; injection Ht as <-;
    [apply wp_genLdConstant_i4|apply wp_genLdConstant_i8]; try done; intros ???; by rewrite Hx.
Qed.

Lemma foldConstMultiplyBySub_ok p e k c o i vc v : models p e ->
  holds p e k t vc -> const_val t (i_value c) = Some vc -> holds p e o t v -> getInst p o = Some i ->
  isSubWithConstant p i = true ->
  wp (foldConstMultiplyBySubWithConstant P t k c i) p e (fun p' e' r => holds p' e' r t (sx w (vc * v))).
Proof.
  intros Hm Hk Hc Ho Hi Hsub. unfold foldConstMultiplyBySubWithConstant, gassert.
  destruct (sub_operands t w Ht p e o i v Hm Ho Hi Hsub)
    as (Hty & a & b & va & vb & Hs0 & Hs1 & Ha & Hb & -> & c' & Hc').
  rewrite Hty, tag_eqb_refl. apply wp_bind, wp_ret; [done|]. intros _ _.
  apply wp_bind. eapply wp_src_of; [done|done|]. intros _ _.
  apply wp_bind. eapply wp_src_of; [done|done|]. intros _ _. step_get.
  destruct (isConstant p a); destruct Hc' as [Hi' Hc']; step_inst Hi'; apply wp_bind.
  - eapply (wp_fold_lin t w Ht Op_Mul _ _ _ _ _ (sx w (vc * va))); try done.
    intros p1 e1 o1 Hx1 Hm1 Ho1 _ _ _. apply wp_bind.
    eapply (wp_fold_neg t w Ht c vc (sx w (- vc))); try done.
    intros p2 e2 o2 Hx2 Hm2 Ho2 _ _ _. apply wp_bind.
    eapply (wp_lin Op_Mul Z.mul _ t w o2 b _ _ (sx w (- (vc * vb)))); try done; [hold|wrap|].
    intros p3 e3 o3 Hx3 Hm3 Ho3 _ _.
    eapply (wp_lin Op_Add Z.add _ t w o1 o3 _ _ (sx w (vc * sx w (va - vb)))); try done; [hold|wrap].
  - apply (wp_ldc _ (sx w (- (vc * vb)))); [done|by apply neg_fold_mul|by apply sx_sx|].
    intros p1 e1 o1 Hx1 Hm1 Ho1 _ _. apply wp_bind.
    eapply (wp_lin Op_Mul Z.mul _ t w k a _ _ (sx w (vc * va))); try done; try hold.
    intros p2 e2 o2 Hx2 Hm2 Ho2 _ _.
    eapply (wp_lin Op_Add Z.add _ t w o1 o2 _ _ (sx w (vc * sx w (va - vb)))); try done; [hold|wrap].
Qed.

Lemma simplifyMulWithNeg_ok p e a b va vb : models p e -> holds p e a t va -> holds p e b t vb ->
  wp (simplifyMulWithNeg t a b) p e (result_ok t (Some (sx w (va * vb)))).
Proof.
  intros Hm Ha Hb. destruct (holds_getInst p e Hm b t vb Hb) as [i Hi].
  unfold simplifyMulWithNeg. step_inst Hi. destruct (isNeg i) eqn:Hn; [|by apply wp_ret].
  destruct (tag_eqb _ _); [|by apply wp_ret].
  destruct (isNeg_holds p e b i t vb w Hm Hb Hi Hn Hw) as (c & vc & Hs & Hc & ->).
  apply wp_bind. eapply (wp_src_of _ _ _ _ c); [done|by rewrite Hs|]. intros _ _. apply wp_bind.
  eapply (wp_lin Op_Mul Z.mul _ t w a c va vc (sx w (va * vc))); try done.
  intros p1 e1 o1 _ Hm1 Ho1 _ _. eapply wp_neg_some; [done|exact Hw|exact Ho1|wrap].
Qed.

Lemma simplifyMulViaReassociation_ok p e a b va vb :
  models p e -> holds p e a t va -> holds p e b t vb ->
  wp (simplifyMulViaReassociation P t a b) p e (result_ok t (Some (sx w (va * vb)))).
Proof.
  intros Hm Ha Hb. unfold simplifyMulViaReassociation. step_get.
  destruct (isConstant p a) eqn:Ea; [|by apply wp_ret].
  destruct (const_src t w Ht p e a va Hm Ha Ea) as (c & Hci & _ & Hc). step_inst Hci.
  destruct (holds_getInst p e Hm b t vb Hb) as [i Hi]. step_inst Hi. step_get.
  destruct (isAddWithConstant p i) eqn:Hadd.
  { apply wp_some. by eapply foldConstMultiplyByAdd_ok. }
  step_get. destruct (isMultiplyByConstant p i) eqn:Hmul.
  { apply wp_some. by eapply foldConstMultiplyByMul_ok. }
  step_get. destruct (isSubWithConstant p i) eqn:Hsub; [|by apply wp_ret].
  apply wp_some. by eapply foldConstMultiplyBySub_ok.
Qed.
End shift_at.

Lemma simplifyMul_ok t mod_ p e a b va vb : simplified_type t = true ->
  models p e -> holds p e a t va -> holds p e b t vb ->
  (forall w, int_width t = Some w -> ~ neg_power w va /\ ~ neg_power w vb) ->
  wp (simplifyMul P flags t mod_ a b) p e (result_ok t (binary_val t true Op_Mul va vb)).
Proof.
  intros Ht Hm Ha Hb Hnp. unfold simplifyMul. do 2 step_get.
  assert (Hone : forall o v, holds p e o t v -> isConstantOne p o = true -> v = 1 /\ exists w, int_width t = Some w).
  { intros o v Ho H1. destruct (isConstantOne_val p e Hm o t v Ho Ht H1) as [-> [w Hw]]. split; [done|].
    destruct t; try done; by eexists. }
  step_get. destruct (isConstant p a && isConstantOne p a) eqn:E1.
  { apply andb_true_iff in E1 as [_ E1]. destruct (Hone a va Ha E1) as [-> [w Hw]].
    destruct (int_type_range p e b t w vb Hm Hw Hb) as [Hpos Hr].
    eapply wp_same; [done|exact Hb|]. rewrite (binary_val_int t w) by done. intros x [= <-].
    by rewrite Z.mul_1_l, sx_id. }
  step_get. destruct (isConstant p b && isConstantOne p b) eqn:E2.
  { apply andb_true_iff in E2 as [_ E2]. destruct (Hone b vb Hb E2) as [-> [w Hw]].
    destruct (int_type_range p e a t w va Hm Hw Ha) as [Hpos Hr].
    eapply wp_same; [done|exact Ha|]. rewrite (binary_val_int t w) by done. intros x [= <-].
    by rewrite Z.mul_1_r, sx_id. }
  assert (Hzero : forall o v, holds p e o t v -> negb (isFloatingPoint t) && (isConstant p o && isConstantZero p o) = true ->
    v = 0 /\ binary_val t true Op_Mul va vb = Some (sx (match int_width t with Some w => w | None => 0 end) (va * vb)) /\
    exists w, int_width t = Some w).
  { intros o v Ho [Hf [_ Hz]%andb_true_iff]%andb_true_iff. destruct (simplified_type_cases t Ht) as [[w Hw]|[Hw _]].
    - split; [|rewrite Hw; split; [by rewrite (binary_val_int t w)|by eexists]].
      eapply isConstantZero_val; [exact Hm|exact Ho|by apply int_width_arith|done].
    - by destruct t. }
  step_get. destruct (negb _ && (isConstant p a && _)) eqn:E3.
  { destruct (Hzero a va Ha E3) as (-> & -> & w & Hw). rewrite Hw.
    eapply wp_same; [done|exact Ha|]. intros x [= <-]. rewrite Z.mul_0_l.
    destruct (int_type_range p e a t w 0 Hm Hw Ha) as [Hpos Hr]. by rewrite sx_id. }
  step_get. destruct (negb _ && (isConstant p b && _)) eqn:E4.
  { destruct (Hzero b vb Hb E4) as (-> & -> & w & Hw). rewrite Hw.
    eapply wp_same; [done|exact Hb|]. intros x [= <-]. rewrite Z.mul_0_r.
    destruct (int_type_range p e b t w 0 Hm Hw Hb) as [Hpos Hr]. by rewrite sx_id. }
  destruct (overflow_none mod_); simpl; [|by apply wp_ret].
  destruct (isConstant p a && isConstant p b) eqn:Ecc; [by apply wp_fold_sources|].
  destruct (simplified_type_cases t Ht) as [[w Hw]|[Hw Hw']]; [|by destruct t; try apply wp_ret].
  destruct (Hnp w Hw) as [Hna Hnb]. rewrite (binary_val_int t w) by done.
  change (int_op w true Op_Mul va vb) with (Some (sx w (va * vb))).
  assert (Hcomm : sx w (va * vb) = sx w (vb * va)) by (by rewrite Z.mul_comm).
  assert (Hmain : wp (if isConstant p a || isConstant p b then
      if isConstant p a then mul_by_constant flags t a b else mul_by_constant flags t b a
    else or_else (simplifyMulWithNeg t a b)
        (or_else (simplifyMulViaReassociation P t a b) (simplifyMulViaReassociation P t b a))) p e
    (result_ok t (Some (sx w (va * vb))))).
  { destruct (isConstant p a) eqn:Ea; [by apply mul_by_constant_ok|].
    destruct (isConstant p b) eqn:Eb; simpl; [rewrite Hcomm; by apply mul_by_constant_ok|].
    apply wp_or_else; [by apply simplifyMulWithNeg_ok|]. intros p1 e1 Hx1 Hm1.
    apply wp_or_else; [apply simplifyMulViaReassociation_ok; try done; hold|]. intros p2 e2 Hx2 Hm2.
    rewrite Hcomm. apply simplifyMulViaReassociation_ok; try done; hold. }
  by destruct t.
Qed.

Lemma nonzero_const t w o v p e : int_width t = Some w -> models p e -> holds p e o t v ->
  isConstant p o = true -> isConstantZero p o = false -> v <> 0.
Proof.
  intros Hw Hm Ho Hc Hz ->. destruct (const_src t w Hw p e o 0 Hm Ho Hc) as (i & Hi & Hcst & Hv).
  unfold isConstantZero, const_test, asConstInst, isConstantZero_inst in Hz. rewrite Hi, Hcst in Hz.
  destruct (const_holds p e Hm o t 0 i Ho Hi Hcst) as [Hty _]. rewrite Hty in Hz.
  destruct t; try done; simpl in Hv; injection Hv as Hv; by rewrite Hv in Hz.
Qed.

(** The selection's condition is an integer; a comparison is 0 or 1. *)
Lemma simplifySelect_ok t tc w c a b vc va vb p e : models p e ->
  int_width tc = Some w -> holds p e c tc vc -> holds p e a t va -> holds p e b t vb ->
  simplified_type t = true ->
  (forall i, getInst p c = Some i -> i_opcode i = Op_Cmp -> t = tc /\ (vc = 0 \/ vc = 1)) ->
  wp (simplifySelect t c a b) p e (result_ok t (Some (if vc =? 0 then vb else va))).
Proof.
  intros Hm Hw Hc Ha Hb Hvt Hcmp. unfold simplifySelect.
  destruct (holds_getInst p e Hm c tc vc Hc) as [i Hi]. step_get.
  destruct (isConstant p c) eqn:Ecc.
  - step_get. destruct (isConstantZero p c) eqn:Ez.
    + apply (isConstantZero_val p e Hm c tc vc w Hc (int_width_arith tc w Hw)) in Ez. subst vc.
      eapply wp_same; [done|exact Hb|]. by intros x [= <-].
    + pose proof (nonzero_const tc w c vc p e Hw Hm Hc Ecc Ez) as Hvc.
      rewrite (proj2 (Z.eqb_neq vc 0)) by done. eapply wp_same; [done|exact Ha|]. by intros x [= <-].
  - destruct (a =? b)%nat eqn:Eab.
    { apply Nat.eqb_eq in Eab. subst b. destruct (holds_fun p e a t va t vb Ha Hb) as [_ <-].
      eapply wp_same; [done|exact Ha|]. intros x [= <-]. by destruct (vc =? 0). }
    step_inst Hi. do 2 step_get.
    destruct (op_eqb (i_opcode i) Op_Cmp && _) eqn:E; [|by apply wp_ret].
    apply andb_true_iff in E as [Hop%bool_decide_eq_true [H1 H0]%andb_true_iff].
    destruct (Hcmp i Hi Hop) as [<- Hv].
    destruct (isConstantOne_val p e Hm a t va Ha Hvt H1) as [-> _].
    apply (isConstantZero_val p e Hm b t vb w Hb (int_width_arith t w Hw)) in H0. subst vb.
    eapply wp_same; [done|exact Hc|]. intros x [= <-]. by destruct Hv as [-> | ->].
Qed.
End simplify_ok.

(** ** The simplifications *)

(** The programs of the concrete runs: [(x + 5)], [7], [-x] and [-8 & 255]. *)
Definition sample : prog :=
  [arg Int32; const Int32 (set_i4 cv_zero 5); makeInst Op_Add mod_arith Int32 Int32 [0; 1]%nat;
   const Int32 (set_i4 cv_zero 7); makeInst Op_Neg 0 Int32 Int32 [0]%nat;
   makeInst Op_Conv 0 Int8 Int32 [0]%nat; const Int32 (set_i4 cv_zero 255)].
Definition sample_env (x : Z) : env := [x; 5; sx 32 (x + 5); 7; sx 32 (- x); sx 8 x; 255].

Lemma sample_models x : is_s 32 x -> models sample (sample_env x).
Proof.
  intros Hx.
  apply (models_const ([arg Int32] ++ [_] ++ [_] ++ [_] ++ [_] ++ [_]) ([x] ++ [_] ++ [_] ++ [_] ++ [_] ++ [_])); [|done|done].
  apply (models_inst ([arg Int32] ++ [_] ++ [_] ++ [_] ++ [_]) ([x] ++ [_] ++ [_] ++ [_] ++ [_]) _ [(Int32, x)]); try done.
  2: { simpl. apply (is_s_weaken 8); [lia|by apply sx_range]. }
  apply (models_inst ([arg Int32] ++ [_] ++ [_] ++ [_]) ([x] ++ [_] ++ [_] ++ [_]) _ [(Int32, x)]); try done; [|by apply sx_range].
  apply (models_const ([arg Int32] ++ [_] ++ [_]) ([x] ++ [_] ++ [_])); [|done|done].
  apply (models_inst ([arg Int32] ++ [_]) ([x] ++ [_]) _ [(Int32, x); (Int32, 5)]); try done; [|by apply sx_range].
  apply (models_const [arg Int32] [x]); [|done|done].
  apply (models_arg [] []); [apply models_nil|done].
Qed.

(** C16: Simplifying an addition at the types Int32, Int64, Single and Double, in a program
    whose operands have values: it does not fail and keeps the program made so far, and an
    operand it returns has the value of the sum. At other types two constants fail the
    assertion of fold ([SimplifyOk.simplifyAdd_other_type]). *)
Theorem simplifyAdd_value P t mod_ p e a b va vb : simplified_type t = true ->
  models p e -> holds p e a t va -> holds p e b t vb ->
  wp (simplifyAdd P t mod_ a b) p e (result_ok t (binary_val t true Op_Add va vb)).
Proof. apply simplifyAdd_ok. Qed.

Lemma simplifyAdd_value_witness :
  wp (simplifyAdd true Int32 mod_arith 3%nat 2%nat) sample (sample_env 100)
    (result_ok Int32 (Some 112)).
Proof. by apply (simplifyAdd_value true Int32 mod_arith sample (sample_env 100) 3 2 7 105); [|apply sample_models| |]. Defined.

(** At another type: the constants 1 and 2 are folded, and the assertion behind the fold fails. *)
Lemma simplifyAdd_other_type t : t = UInt32 \/ t = UIntPtr ->
  simplifyAdd true t mod_arith 0%nat 1%nat [const t (set_i4 cv_zero 1); const t (set_i4 cv_zero 2)] = None.
Proof. intros [-> | ->]; by vm_compute. Qed.

Example simplifyAdd_reassociates : simplifyAdd true Int32 mod_arith 3%nat 2%nat sample =
  Some (sample ++ [const Int32 (set_i4 cv_zero 12); makeInst Op_Add mod_arith Int32 Int32 [7; 0]%nat], Some 8%nat).
Proof. by vm_compute. Qed.

(** the same for a subtraction. *)
Theorem simplifySub_value P t mod_ p e a b va vb : simplified_type t = true ->
  models p e -> holds p e a t va -> holds p e b t vb ->
  wp (simplifySub P t mod_ a b) p e (result_ok t (binary_val t true Op_Sub va vb)).
Proof. apply simplifySub_ok. Qed.

Lemma simplifySub_value_witness :
  wp (simplifySub true Int32 mod_arith 3%nat 2%nat) sample (sample_env (- 2 ^ 31))
    (result_ok Int32 (Some (- 2 ^ 31 + 2))).
Proof.
  by apply (simplifySub_value true Int32 mod_arith sample (sample_env (- 2 ^ 31)) 3 2 7 (- 2 ^ 31 + 5)); [|apply sample_models| |].
Defined.

(** a multiplication, unless an operand is one of the negative powers of two
    for which the planned shift is wrong. *)
Theorem simplifyMul_value P flags t mod_ p e a b va vb : simplified_type t = true ->
  models p e -> holds p e a t va -> holds p e b t vb ->
  (forall w, int_width t = Some w -> ~ neg_power w va /\ ~ neg_power w vb) ->
  wp (simplifyMul P flags t mod_ a b) p e (result_ok t (binary_val t true Op_Mul va vb)).
Proof. apply simplifyMul_ok. Qed.

Lemma simplifyMul_value_witness :
  wp (simplifyMul true (MkFlags true true true true) Int32 mod_arith 3%nat 2%nat) sample (sample_env 2147483600)
    (result_ok Int32 (Some (sx 32 (7 * 2147483605)))).
Proof.
  apply (simplifyMul_value true _ Int32 mod_arith sample (sample_env 2147483600) 3 2 7 2147483605); [done|by apply sample_models|done|done|].
  intros w [= <-]. by split; intros (k & Hk & ?); pose proof (pow2_pos k); lia.
Defined.

(** negation, integer and floating point: a constant is folded and a double
    negation is undone. *)
Theorem simplifyNeg_value t p e a va : simplified_type t = true -> models p e -> holds p e a t va ->
  wp (simplifyNeg t a) p e (result_ok t (unary_val t Op_Neg va)).
Proof. apply simplifyNeg_ok. Qed.

Lemma simplifyNeg_value_witness :
  wp (simplifyNeg Int32 4%nat) sample (sample_env (- 2 ^ 31)) (result_ok Int32 (Some (- 2 ^ 31))).
Proof.
  apply (simplifyNeg_value Int32 sample (sample_env (- 2 ^ 31)) 4 (- 2 ^ 31)); [done|by apply sample_models|by vm_compute].
Defined.

(** the logical operations, with the masks that make a narrowing conversion
    or a zero-extending load redundant. *)
Theorem simplifyLogic_value P flags t w p e a b va vb : int_width t = Some w ->
  models p e -> holds p e a t va -> holds p e b t vb ->
  wp (simplifyAnd P flags t a b) p e (result_ok t (binary_val t true Op_And va vb)) /\
  wp (simplifyOr P t a b) p e (result_ok t (binary_val t true Op_Or va vb)) /\
  wp (simplifyXor P t a b) p e (result_ok t (binary_val t true Op_Xor va vb)) /\
  wp (simplifyNot t a) p e (result_ok t (unary_val t Op_Not va)).
Proof.
  intros. split_and!; [by eapply simplifyAnd_ok|by eapply simplifyOr_ok|by eapply simplifyXor_ok|by eapply simplifyNot_ok].
Qed.

Lemma simplifyLogic_value_witness :
  wp (simplifyAnd true (MkFlags true true true true) Int32 5%nat 6%nat) sample (sample_env 1000)
    (result_ok Int32 (Some (Z.land (sx 8 1000) 255))) /\
  wp (simplifyOr true Int32 5%nat 6%nat) sample (sample_env 1000) (result_ok Int32 (Some (Z.lor (sx 8 1000) 255))) /\
  wp (simplifyXor true Int32 5%nat 6%nat) sample (sample_env 1000) (result_ok Int32 (Some (Z.lxor (sx 8 1000) 255))) /\
  wp (simplifyNot Int32 5%nat) sample (sample_env 1000) (result_ok Int32 (Some (Z.lnot (sx 8 1000)))).
Proof.
  by apply (simplifyLogic_value true (MkFlags true true true true) Int32 32 sample (sample_env 1000) 5 6 (sx 8 1000) 255); [|apply sample_models| |].
Defined.

Example simplifyAnd_drops_conversion :
  simplifyAnd true (MkFlags true true true true) Int32 5%nat 6%nat sample =
  Some (sample ++ [makeInst Op_And 0 Int32 Int32 [0; 6]%nat], Some 7%nat).
Proof. by vm_compute. Qed.

(** a shift by zero is dropped, and a shifted addition by zero is an
    addition; the results are those of the shifts, masked or not. *)
Theorem simplifyShift_value t w mod_ p e a s b ts ws va vs vb : int_width t = Some w -> models p e ->
  holds p e a t va -> holds p e s ts vs -> holds p e b t vb -> arith_width ts = Some ws ->
  wp (simplifyShl t mod_ a s) p e (result_ok t (shl_val w mod_ va vs)) /\
  wp (simplifyShr t mod_ a s) p e (result_ok t (shr_val w mod_ va vs)) /\
  wp (simplifyShladd t a s b) p e (result_ok t (shladd_val w va vs vb)).
Proof.
  intros Ht Hm Ha Hs Hb Hws. pose proof (simplifyShift_ok t w Ht mod_ p e a s ts ws va vs Hm Ha Hs Hws) as H.
  split; [|split; [|by eapply simplifyShladd_ok]]; (eapply wp_mono; [exact H|]); by intros p' e' r _ _ [??].
Qed.

Lemma simplifyShift_value_witness :
  wp (simplifyShl Int32 0 0%nat 1%nat) [arg Int32; const Int32 cv_zero] [-7; 0] (result_ok Int32 (Some (-7))) /\
  wp (simplifyShr Int32 0 0%nat 1%nat) [arg Int32; const Int32 cv_zero] [-7; 0] (result_ok Int32 (shr_val 32 0 (-7) 0)) /\
  wp (simplifyShladd Int32 0%nat 1%nat 0%nat) [arg Int32; const Int32 cv_zero] [-7; 0] (result_ok Int32 (Some (-14))).
Proof.
  apply (simplifyShift_value Int32 32 0 [arg Int32; const Int32 cv_zero] [-7; 0] 0 1 0 Int32 32 (-7) 0 (-7)); try done.
  apply (models_const [arg Int32] [-7]); [|done|done]. apply (models_arg [] []); [apply models_nil|done].
Defined.

(** a selection, where its type is that of the condition when the condition
    is a comparison, which is then 0 or 1. *)
Theorem simplifySelect_value t tc w c a b vc va vb p e : models p e ->
  int_width tc = Some w -> holds p e c tc vc -> holds p e a t va -> holds p e b t vb ->
  simplified_type t = true ->
  (forall i, getInst p c = Some i -> i_opcode i = Op_Cmp -> t = tc /\ (vc = 0 \/ vc = 1)) ->
  wp (simplifySelect t c a b) p e (result_ok t (Some (if vc =? 0 then vb else va))).
Proof. apply simplifySelect_ok. Qed.

Lemma simplifySelect_value_witness :
  wp (simplifySelect Int32 3%nat 2%nat 4%nat) sample (sample_env 6) (result_ok Int32 (Some 11)).
Proof.
  apply (simplifySelect_value Int32 Int32 32 3 2 4 7 11 (-6) sample (sample_env 6)); try done.
  - by apply sample_models.
  - by intros i [= <-].
Defined.

(** A comparison selecting between 1 and 0 at [Int64] is replaced by the
    comparison, an [Int32]. *)
Example simplifySelect_type :
  simplifySelect Int64 0%nat 1%nat 2%nat
    [makeInst Op_Cmp 0 Int32 Int32 []; const Int64 (set_i8 cv_zero 1); const Int64 cv_zero] =
  Some ([makeInst Op_Cmp 0 Int32 Int32 []; const Int64 (set_i8 cv_zero 1); const Int64 cv_zero], Some 0%nat).
Proof. by vm_compute. Qed.
