(* ===== verification/SimplifyDiv.v ===== *)
(** * Division by a constant

    [simplifyTauDiv] and [simplifyTauRem] ([Simplify.v]) replace a signed
    division by a constant by shifts and additions, or by a multiplication with
    the number of [getMagic]; the code generated computes Java's quotient and
    remainder. *)
From Stdlib Require Import SpecFloat.
From S2P Require Import Prelude Floats JavaArith OptArith IR ConstFold Gen MulConst Simplify SimplifyOk.

(** ** Arithmetic *)

Lemma quot_neg_div n d : n < 0 -> 0 < d -> Z.quot n d = (n + (d - 1)) / d.
Proof.
  intros Hn Hd. apply Z.div_unique with (r := n + (d - 1) - d * Z.quot n d); [|lia].
  pose proof (Z.quot_rem' n d). pose proof (Z.rem_bound_pos_neg n d ltac:(lia) ltac:(lia)). lia.
Qed.

(** The ones that round a division by [2^k] towards zero. *)
Definition round_ones (k n : Z) : Z := if n <? 0 then 2 ^ k - 1 else 0.

Lemma round_ones_shifts w k n : 0 < k < w -> is_s w n ->
  ux w (n / 2 ^ (k - 1)) / 2 ^ (w - k) = round_ones k n.
Proof.
  intros Hk Hn. unfold round_ones, is_s in *.
  pose proof (pow2_pos (k - 1) ltac:(lia)). pose proof (pow2_pos (w - k) ltac:(lia)).
  assert (Hw1 : 2 ^ (w - 1) = 2 ^ (w - k) * 2 ^ (k - 1)) by (rewrite <- Z.pow_add_r by lia; f_equal; lia).
  assert (Hw : 2 ^ w = 2 ^ k * 2 ^ (w - k)) by (rewrite <- Z.pow_add_r by lia; f_equal; lia).
  assert (Hs : - 2 ^ (w - k) <= n / 2 ^ (k - 1) < 2 ^ (w - k)).
  { split; [apply Z.div_le_lower_bound; lia|apply Z.div_lt_upper_bound; lia]. }
  unfold ux. rewrite Hw. pose proof (pow2_pos k ltac:(lia)).
  assert (2 ^ (w - k) <= 2 ^ k * 2 ^ (w - k)) by (clear - H0 H1; nia).
  destruct (Z.ltb_spec n 0) as [Hneg|Hpos].
  - assert (n / 2 ^ (k - 1) < 0) by (apply Z.div_lt_upper_bound; lia).
    rewrite <- (Z.mod_add _ 1), Z.mod_small by lia. rewrite Z.mul_1_l, Z.div_add by lia.
    rewrite <- (Z.div_unique (n / 2 ^ (k - 1)) (2 ^ (w - k)) (-1) (n / 2 ^ (k - 1) + 2 ^ (w - k))); lia.
  - assert (0 <= n / 2 ^ (k - 1)) by (apply Z.div_pos; lia).
    rewrite Z.mod_small by lia. apply Z.div_small. lia.
Qed.

Lemma round_ones_quot w k n : 0 < k < w -> is_s w n ->
  is_s w (n + round_ones k n) /\ (n + round_ones k n) / 2 ^ k = Z.quot n (2 ^ k).
Proof.
  intros Hk Hn. unfold round_ones, is_s in *. pose proof (pow2_pos k ltac:(lia)).
  assert (2 ^ k <= 2 ^ (w - 1)) by (apply Z.pow_le_mono_r; lia).
  destruct (Z.ltb_spec n 0).
  - split; [lia|]. symmetry. apply quot_neg_div; lia.
  - split; [lia|]. rewrite Z.add_0_r. symmetry. apply Z.quot_div_nonneg; lia.
Qed.

Lemma round_ones_range w k n : 0 < k < w -> is_s w (round_ones k n).
Proof.
  intros Hk. pose proof (pow2_pos k ltac:(lia)). pose proof (pow2_pos (w - 1) ltac:(lia)).
  assert (2 ^ k <= 2 ^ (w - 1)) by (apply Z.pow_le_mono_r; lia).
  unfold round_ones, is_s. destruct (n <? 0); lia.
Qed.

(** ** The generated code *)

Section div_at.
Context (flags : OptimizerFlags) (t : Tag) (w : Z) (Ht : int_width t = Some w).
Let Hw : arith_width t = Some w := int_width_arith t w Ht.

Lemma width_cases : w = 32 \/ w = 64.
Proof. destruct t; try done; simpl in Ht; injection Ht as <-; auto. Qed.

(** A loaded shift amount. *)
Lemma wp_amount v p e Q : models p e -> 0 <= v < 128 ->
  (forall p' e' o ts, extends p e p' e' -> models p' e' -> holds p' e' o ts v -> Q p' e' o) ->
  wp (genLdConstant_w w v) p e Q.
Proof.
  intros Hm Hv HQ. unfold genLdConstant_w.
  destruct (w =? 32).
  - eapply wp_mono; [apply (wp_genLdConstant_i4 p e Hm (fun p' e' o => holds p' e' o Int32 v))|].
    + intros p' e' o _. rewrite sx_id; [done|done|unfold is_s; lia].
    + intros p' e' o Hx Hm' Ho. exact (HQ _ _ _ _ Hx Hm' Ho).
  - eapply wp_mono; [apply (wp_genLdConstant_i8 p e Hm (fun p' e' o => holds p' e' o Int64 v))|].
    + intros p' e' o _. rewrite sx_id; [done|done|unfold is_s; lia].
    + intros p' e' o Hx Hm' Ho. exact (HQ _ _ _ _ Hx Hm' Ho).
Qed.

Lemma wp_shr_signed a s ts va vs p e (Q : prog -> env -> Opnd -> Prop) : models p e ->
  holds p e a t va -> holds p e s ts vs -> 0 <= vs < w ->
  (forall p' e' o, extends p e p' e' -> models p' e' -> holds p' e' o t (va / 2 ^ vs) -> Q p' e' o) ->
  wp (genShr t (mod_shift SignedOp) a s) p e Q.
Proof.
  intros Hm Ha Hs Hr HQ. eapply (wp_mono _ _ _ (fun p' e' o => holds p' e' o t (va / 2 ^ vs))); [|auto].
  by eapply (wp_genShr p e Hm _ SignedOp t w ts a s va vs).
Qed.

Lemma wp_shr_unsigned a s ts va vs p e (Q : prog -> env -> Opnd -> Prop) : models p e ->
  holds p e a t va -> holds p e s ts vs -> 0 <= vs < w ->
  (forall p' e' o, extends p e p' e' -> models p' e' -> holds p' e' o t (sx w (ux w va / 2 ^ vs)) -> Q p' e' o) ->
  wp (genShr t (mod_shift UnsignedOp) a s) p e Q.
Proof.
  intros Hm Ha Hs Hr HQ. eapply (wp_mono _ _ _ (fun p' e' o => holds p' e' o t (sx w (ux w va / 2 ^ vs)))); [|auto].
  by eapply (wp_genShr p e Hm _ UnsignedOp t w ts a s va vs).
Qed.

Lemma abs_power d k : is_s w d -> Z.abs d = 2 ^ k -> d <> int_min w ->
  (if d <? 0 then sx w (- d) else d) = 2 ^ k.
Proof.
  intros Hd Hk Hmin. unfold int_min, is_s in *. destruct width_cases; destruct (Z.ltb_spec d 0); try lia;
    (rewrite sx_id; [lia|lia|unfold is_s; lia]).
Qed.

(** Division by [2^k] and [-2^k]. *)
Lemma tauDiv_pow2_ok d k a va p e : models p e -> holds p e a t va -> is_s w d ->
  0 < k < w -> Z.abs d = 2 ^ k -> d <> int_min w ->
  wp (tauDiv_pow2 w t d a) p e (fun p' e' o => holds p' e' o t (java_quot w va d)).
Proof.
  intros Hm Ha Hd Hk Habs Hmin. destruct (int_type_range p e a t w va Hm Ht Ha) as [Hpos Hra].
  pose proof width_cases as Hww. pose proof (pow2_pos k ltac:(lia)) as Hk0.
  assert (Hk' : k < w - 1).
  { destruct (decide (k < w - 1)); [done|]. assert (k = w - 1) as -> by lia. unfold is_s, int_min in *. lia. }
  assert (Hkr : is_s w (2 ^ k)).
  { pose proof (Z.pow_lt_mono_r 2 k (w - 1)). unfold is_s. lia. }
  unfold tauDiv_pow2. rewrite (abs_power d k) by done.
  rewrite (whichPowerOf2_spec w (2 ^ k) k) by (try done; lia).
  rewrite (proj2 (Z.ltb_ge (2 ^ k) 0)) by lia. simpl.
  destruct (round_ones_quot w k va ltac:(lia) Hra) as [Hsum Hquot].
  apply wp_bind, wp_amount; [done|lia|]. intros p1 e1 o1 t1 Hx1 Hm1 Ho1 _ _.
  apply wp_bind. eapply (wp_shr_signed a o1 t1 va (k - 1)); [done|hold|done|lia|].
  intros p2 e2 o2 Hx2 Hm2 Ho2 _ _. apply wp_bind, wp_amount; [done|lia|]. intros p3 e3 o3 t3 Hx3 Hm3 Ho3 _ _.
  apply wp_bind. eapply (wp_shr_unsigned o2 o3 t3 _ (w - k)); [done|hold|done|lia|].
  intros p4 e4 o4 Hx4 Hm4 Ho4 _ _. rewrite round_ones_shifts in Ho4 by (done || lia).
  rewrite sx_id in Ho4 by (done || apply round_ones_range; lia).
  assert (Ha4 : holds p4 e4 a t va).
  { eapply holds_mono; [|exact Ha]. eapply extends_trans; [exact Hx1|].
    eapply extends_trans; [exact Hx2|]. eapply extends_trans; [exact Hx3|exact Hx4]. }
  apply wp_bind. eapply (wp_lin Op_Add Z.add _ t w a o4 _ _ (va + round_ones k va)); try done; [by apply sx_id|].
  intros p5 e5 o5 Hx5 Hm5 Ho5 _ _. apply wp_bind, wp_amount; [done|lia|]. intros p6 e6 o6 t6 Hx6 Hm6 Ho6 _ _.
  apply wp_bind. eapply (wp_shr_signed o5 o6 t6 _ k); [done|hold|done|lia|].
  intros p7 e7 o7 Hx7 Hm7 Ho7 _ _. rewrite Hquot in Ho7. unfold java_quot.
  destruct (int_type_range p7 e7 o7 t w _ Hm7 Ht Ho7) as [_ Hrq].
  destruct (Z.eqb_spec d (2 ^ k)) as [->|Hne].
  - apply wp_ret; [done|]. by rewrite sx_id.
  - assert (d = - 2 ^ k) as -> by lia. rewrite Z.quot_opp_r by lia.
    eapply (wp_genNeg p7 e7 Hm7 _ t w o7 (Z.quot va (2 ^ k))); try done.
Qed.
End div_at.

(** Multiplication with the magic number, at [Int32]. *)
Section magic.
Context (flags : OptimizerFlags).

Lemma tauDiv_mulhi_ok m a va p e (Q : prog -> env -> Opnd -> Prop) : models p e -> holds p e a Int32 va -> is_s 32 m ->
  (forall p' e' o, extends p e p' e' -> models p' e' -> holds p' e' o Int32 (magic_hi 32 m va) -> Q p' e' o) ->
  wp (tauDiv_mulhi flags Int32 m a) p e Q.
Proof.
  intros Hm Ha Hmr HQ. destruct (int_type_range p e a Int32 32 va Hm eq_refl Ha) as [_ Hra].
  assert (Hhi : is_s 32 (magic_hi 32 m va)) by (by apply high_word_range).
  eapply (wp_mono _ _ _ (fun p' e' o => holds p' e' o Int32 (magic_hi 32 m va))); [|auto].
  unfold tauDiv_mulhi. destruct (use_mulhi flags).
  - apply wp_bind, wp_genLdConstant_i4; [done|]. intros p1 e1 o1 Hx1 Ho1 _ Hm1. rewrite sx_id in Ho1 by done.
    eapply (wp_binary p1 e1 Hm1 _ Op_MulHi _ Int32 32 o1 a m va); try done. hold.
  - apply wp_bind, wp_genLdConstant_i8; [done|]. intros p1 e1 o1 Hx1 Ho1 _ Hm1.
    assert (Hm64 : is_s 64 m) by (by apply (is_s_weaken 32)). rewrite sx_id in Ho1 by done.
    assert (Ha64 : is_s 64 va) by (by apply (is_s_weaken 32)).
    apply wp_bind. eapply (wp_genConv p1 e1 Hm1 _ Int64 Int32 Int64 _ 64 a va va); try done; [hold|].
    intros p2 e2 o2 Hx2 Ho2 _ Hm2. apply wp_bind.
    assert (Hprod : sx 64 (m * va) = m * va).
    { apply sx_id; [done|]. unfold is_s in *. change (2 ^ (32 - 1)) with 2147483648 in *.
      change (2 ^ (64 - 1)) with 9223372036854775808. clear - Hra Hmr. nia. }
    eapply (wp_lin Op_Mul Z.mul _ Int64 64 o1 o2 _ _ (m * va)); try done; [hold|].
    intros p3 e3 o3 Hx3 Hm3 Ho3 _ _.
    apply wp_bind, wp_genLdConstant_i4; [done|]. intros p4 e4 o4 Hx4 Ho4 _ Hm4.
    apply wp_bind. eapply (wp_shr_signed Int64 64 eq_refl o3 o4 Int32 (m * va) 32); [done|hold|exact Ho4|done|].
    intros p5 e5 o5 Hx5 Hm5 Ho5 _ _.
    eapply (wp_genConv p5 e5 Hm5 _ Int32 Int64 Int32 _ 32 o5 _ (magic_hi 32 m va)); try done.
    change (Some (sx 32 (magic_hi 32 m va)) = Some (magic_hi 32 m va)). by rewrite sx_id.
Qed.

Lemma tauDiv_magic_ok d a va p e : models p e -> holds p e a Int32 va -> is_s 32 d ->
  1 < Z.abs d -> d <> int_min 32 ->
  wp (tauDiv_magic flags Int32 d a) p e (fun p' e' o => holds p' e' o Int32 (java_quot 32 va d)).
Proof.
  intros Hm Ha Hd Hd1 Hmin. destruct (int_type_range p e a Int32 32 va Hm eq_refl Ha) as [_ Hra].
  destruct (getMagic_divides 32 d ltac:(lia) Hd Hmin ltac:(lia)) as (m & s & Hmag & Hmr & Hs & Hq).
  destruct (Hq va Hra) as [Hqr Hquot]. unfold tauDiv_magic. rewrite Hmag. simpl.
  apply wp_bind, wp_ret; [done|]. intros _ _. apply wp_bind, tauDiv_mulhi_ok with (va := va); [done|done|done|].
  intros p1 e1 o1 Hx1 Hm1 Ho1 _ _. apply wp_bind.
  eapply (wp_mono _ _ _ (fun p' e' o => holds p' e' o Int32 (magic_adjusted 32 d m va))).
  { unfold magic_adjusted in *. destruct ((0 <? d) && (m <? 0)); [|destruct ((d <? 0) && (0 <? m))].
    - eapply (wp_lin Op_Add Z.add _ Int32 32 o1 a); [done|done|done|done|hold|by apply sx_id|done].
    - eapply (wp_lin Op_Sub Z.sub _ Int32 32 o1 a); [done|done|done|done|hold|by apply sx_id|done].
    - by apply wp_ret. }
  intros p2 e2 o2 Hx2 Hm2 Ho2 _ _. apply wp_bind, wp_genLdConstant_i4; [done|].
  intros p3 e3 o3 Hx3 Ho3 _ Hm3. rewrite sx_id in Ho3 by (done || unfold is_s; lia).
  apply wp_bind. eapply (wp_shr_signed Int32 32 eq_refl o2 o3 Int32 _ s); [done|hold|exact Ho3|lia|].
  intros p4 e4 o4 Hx4 Hm4 Ho4 _ _. apply wp_bind, wp_genLdConstant_i4; [done|].
  intros p5 e5 o5 Hx5 Ho5 _ Hm5. set (q := magic_adjusted 32 d m va / 2 ^ s) in *.
  assert (Ha5 : holds p5 e5 a Int32 va).
  { eapply holds_mono; [|exact Ha]. eapply extends_trans; [exact Hx1|]. eapply extends_trans; [exact Hx2|].
    eapply extends_trans; [exact Hx3|]. eapply extends_trans; [exact Hx4|exact Hx5]. }
  assert (H4' : holds p5 e5 o4 Int32 q) by hold.
  destruct (int_type_range p5 e5 o4 Int32 32 q Hm5 eq_refl H4') as [_ Hqs].
  assert (Hsign : forall x, is_s 32 x -> sx 32 (ux 32 x / 2 ^ 31) = if x <? 0 then 1 else 0).
  { intros x Hx. pose proof (round_ones_shifts 32 1 x ltac:(lia) Hx) as H. unfold round_ones in H.
    change (2 ^ (1 - 1)) with 1 in H. rewrite Z.div_1_r in H. change (32 - 1) with 31 in H. rewrite H.
    by destruct (x <? 0). }
  apply wp_bind. eapply (wp_shr_unsigned Int32 32 eq_refl _ o5 Int32 (if d <? 0 then q else va) 31);
    [done|by destruct (d <? 0)|exact Ho5|lia|].
  intros p6 e6 o6 Hx6 Hm6 Ho6 _ _. rewrite Hsign in Ho6 by (by destruct (d <? 0)).
  eapply (wp_lin Op_Add Z.add _ Int32 32 o4 o6 _ _ (java_quot 32 va d)); [done|done|done|hold|done| |done].
  unfold java_quot. by rewrite Hquot.
Qed.
End magic.

(** ** Division and remainder *)

Section tau.
Context (P : bool) (flags : OptimizerFlags).

Lemma java_quot_unit w a : 0 < w -> is_s w a ->
  java_quot w a 1 = a /\ java_quot w a (-1) = sx w (- a).
Proof.
  intros Hw Ha. unfold java_quot. rewrite Z.quot_1_r. split; [by apply sx_id|].
  change (-1) with (- (1)). rewrite Z.quot_opp_r, Z.quot_1_r by lia. done.
Qed.

Lemma div_val t w va vb : int_width t = Some w -> vb <> 0 ->
  binary_val t true Op_TauDiv va vb = Some (java_quot w va vb).
Proof. intros Hw Hb. rewrite (binary_val_int t w) by done. simpl. by rewrite (proj2 (Z.eqb_neq vb 0)). Qed.

(** The lowered divisions. *)
Lemma lowered_div_ok t w mod_ a b i va vb p e : int_width t = Some w -> models p e ->
  holds p e a t va -> holds p e b t vb -> isSigned mod_ = true -> vb <> int_min w -> vb <> 0 -> vb <> 1 ->
  wp (if lower_divconst flags && isSigned mod_ then
        let w := if tag_eqb t Int32 then 32 else 64 in
        if vb =? -1 then let* res := genNeg t a in gret (Some res)
        else if isPowerOf2 w vb then let* res := tauDiv_pow2 w t vb a in gret (Some res)
        else if tag_eqb t Int32 then let* res := tauDiv_magic flags t vb a in gret (Some res)
        else gret None
      else gret None) p e (fun p' e' r => result_ok t (Some (java_quot w va vb)) p' e' r /\
        (lower_divconst flags = true -> i = Int32 -> t = i -> r <> None)).
Proof.
  intros Hw Hm Ha Hb Hmod Hmin H0 H1. destruct (int_type_range p e a t w va Hm Hw Ha) as [Hpos Hra].
  destruct (int_type_range p e b t w vb Hm Hw Hb) as [_ Hrb]. rewrite Hmod, andb_true_r.
  assert (Hsome : forall m, wp m p e (fun p' e' o => holds p' e' o t (java_quot w va vb)) ->
    wp (let* r := m in gret (Some r)) p e (fun p' e' r => result_ok t (Some (java_quot w va vb)) p' e' r /\
        (lower_divconst flags = true -> i = Int32 -> t = i -> r <> None))).
  { intros m H. apply wp_bind. eapply wp_mono; [exact H|]. intros p' e' o _ _ Ho _ Hm'.
    apply wp_ret; [done|]. split; [|done]. eapply result_some; [exact Ho|done]. }
  destruct (lower_divconst flags); [|by apply wp_ret].
  assert (Hwt : (if tag_eqb t Int32 then 32 else 64) = w) by (destruct t; try done; simpl in Hw; by injection Hw).
  cbv zeta. rewrite Hwt. destruct (Z.eqb_spec vb (-1)) as [->|Hm1].
  { apply Hsome. eapply (wp_genNeg p e Hm _ t w a va); [by apply int_width_arith|done|].
    intros p' e' o _ Ho. by rewrite (proj2 (java_quot_unit w va Hpos Hra)). }
  destruct (isPowerOf2 w vb) eqn:Hp2.
  - pose proof (width_cases t w Hw).
    apply (isPowerOf2_spec w vb ltac:(lia) Hrb) in Hp2 as [?|(k & Hk & Habs)]; [done|].
    assert (k <> 0) by (intros ->; lia).
    apply Hsome. apply (tauDiv_pow2_ok t w Hw vb k a va); try done. lia.
  - destruct (tag_eqb t Int32) eqn:E32.
    + apply tag_eqb_eq in E32. subst t. injection Hw as <-. apply Hsome. apply tauDiv_magic_ok; try done. lia.
    + apply wp_ret; [done|]. split; [done|]. intros _ -> ->. by rewrite tag_eqb_refl in E32.
Qed.

Lemma simplifyTauDiv_ok t mod_ p e a b va vb : simplified_type t = true ->
  models p e -> holds p e a t va -> holds p e b t vb -> isSigned mod_ = true ->
  (forall w, int_width t = Some w -> vb <> int_min w) ->
  wp (simplifyTauDiv P flags t mod_ a b) p e (result_ok t (binary_val t true Op_TauDiv va vb)).
Proof.
  intros Ht Hm Ha Hb Hmod Hmin. unfold simplifyTauDiv. step_get.
  destruct (isConstant p a && _) eqn:Ecc; [rewrite Hmod; by apply wp_fold_sources|].
  destruct (simplified_type_cases t Ht) as [[w Hw]|[Hw _]]; [|by destruct t; try apply wp_ret].
  destruct (int_type_range p e a t w va Hm Hw Ha) as [Hpos Hra].
  destruct (holds_getInst p e Hm b t vb Hb) as [i Hi]. specialize (Hmin w Hw).
  assert (Hmain : forall denom, (forall c, isConst i = true -> const_val t (i_value i) = Some c -> denom = c) ->
    wp (if isConst i then
          if denom =? 1 then gret (Some a) else if denom =? 0 then gret (Some a) else
          or_else simplifyTauDivOfMul
          (if lower_divconst flags && isSigned mod_ then
             let w := if tag_eqb t Int32 then 32 else 64 in
             if denom =? -1 then let* res := genNeg t a in gret (Some res)
             else if isPowerOf2 w denom then let* res := tauDiv_pow2 w t denom a in gret (Some res)
             else if tag_eqb t Int32 then let* res := tauDiv_magic flags t denom a in gret (Some res)
             else gret None
           else gret None)
        else gret None) p e (result_ok t (binary_val t true Op_TauDiv va vb))).
  { intros denom Hden. destruct (isConst i) eqn:Hc; [|by apply wp_ret].
    rewrite (Hden vb eq_refl (value_const p e b t vb i Hm Ht Hb Hi Hc)).
    destruct (Z.eqb_spec vb 1) as [->|H1].
    { eapply wp_same; [done|exact Ha|]. rewrite (div_val t w) by done. intros x [= <-].
      by rewrite (proj1 (java_quot_unit w va Hpos Hra)). }
    destruct (Z.eqb_spec vb 0) as [->|H0].
    { eapply wp_same; [done|exact Ha|]. by rewrite (binary_val_int t w). }
    rewrite (div_val t w) by done. apply wp_or_else; [by apply wp_ret|]. intros p1 e1 Hx1 Hm1.
    eapply wp_mono; [apply (lowered_div_ok t w mod_ a b t va vb); try done; hold|]. by intros p' e' r _ _ [H _]. }
  unfold isConstant_cv. destruct t; try done; step_inst Hi;
    [specialize (Hmain (get_i4 (i_value i)))|specialize (Hmain (get_i8 (i_value i)))]; simpl in Hmain;
    (destruct (isConst i); [apply Hmain; by intros c _ [= <-]|by apply wp_ret]).
Qed.

Lemma rem_of_quot w a b : 0 < w -> is_s w a -> is_s w b -> b <> 0 ->
  sx w (a - sx w (java_quot w a b * b)) = Z.rem a b.
Proof.
  intros Hw Ha Hb H0. rewrite <- (sx_id w (Z.rem a b)) by (done || by apply rem_range).
  apply eqm_sx_iff. unfold java_quot. rewrite !eqm_sx. apply eq_eqm.
  pose proof (Z.quot_rem' a b). lia.
Qed.

Lemma rem_val t w va vb : int_width t = Some w -> vb <> 0 ->
  binary_val t true Op_TauRem va vb = Some (Z.rem va vb).
Proof. intros Hw Hb. rewrite (binary_val_int t w) by done. simpl. by rewrite (proj2 (Z.eqb_neq vb 0)). Qed.

(** The remainder from the quotient. *)
Lemma rem_from_div_ok t w mod_ a b va vb p e : int_width t = Some w -> models p e ->
  holds p e a t va -> holds p e b t vb -> isSigned mod_ = true -> vb <> int_min w -> vb <> 0 ->
  wp (let* tryDiv := simplifyTauDiv P flags t mod_ a b in
      match tryDiv with
      | Some q => let* divProduct := genMul t mod_arith q b in
                  let* remOpnd := genSub t mod_arith a divProduct in gret (Some remOpnd)
      | None => gret None end) p e (result_ok t (Some (Z.rem va vb))).
Proof.
  intros Hw Hm Ha Hb Hmod Hmin H0. destruct (int_type_range p e a t w va Hm Hw Ha) as [Hpos Hra].
  destruct (int_type_range p e b t w vb Hm Hw Hb) as [_ Hrb]. pose proof (int_width_arith t w Hw) as Haw.
  apply wp_bind. eapply wp_mono.
  { eapply (simplifyTauDiv_ok t mod_ p e a b va vb); try done; [by destruct t|]. intros w' Hw'. by simplify_eq. }
  rewrite (div_val t w) by done. intros p1 e1 [q|] Hx1 Hm1 Hr _ _; [|by apply wp_ret].
  specialize (Hr _ eq_refl). apply wp_bind.
  eapply (wp_lin Op_Mul Z.mul _ t w q b _ _ _); [done|done|done|exact Hr|hold|reflexivity|].
  intros p2 e2 o2 Hx2 Hm2 Ho2 _ _.
  eapply wp_lin_some; [|done|exact Haw|hold|exact Ho2|]; [done|]. by apply rem_of_quot.
Qed.

Lemma rem_unit a b : b = 1 \/ b = -1 -> Z.rem a b = 0.
Proof. intros [-> | ->]; [apply Z.rem_1_r|]. change (-1) with (- (1)). by rewrite Z.rem_opp_r, Z.rem_1_r. Qed.

(** A loaded zero. *)
Lemma wp_zero t val p e : models p e -> (forall x, val = Some x -> x = 0) -> t = Int32 \/ t = Int64 ->
  wp (match t with
      | Int32 => let* r := genLdConstant_i4 0 in gret (Some r)
      | Int64 => let* r := genLdConstant_i8 0 in gret (Some r)
      | _ => gfail end) p e (result_ok t val).
Proof.
  intros Hm Hval Ht. destruct Ht as [-> | ->]; apply wp_bind;
    [apply wp_genLdConstant_i4|apply wp_genLdConstant_i8]; try done; intros p1 e1 o Hx Ho _ Hm1;
    (apply wp_ret; [done|]); intros x Hx0; by rewrite (Hval x Hx0).
Qed.

Lemma simplifyTauRem_ok t w mod_ p e a b va vb : int_width t = Some w ->
  models p e -> holds p e a t va -> holds p e b t vb -> isSigned mod_ = true -> vb <> int_min w ->
  wp (simplifyTauRem P flags t mod_ a b) p e (result_ok t (binary_val t true Op_TauRem va vb)).
Proof.
  intros Hw Hm Ha Hb Hmod Hmin. assert (Hvt : simplified_type t = true) by (by destruct t).
  assert (Htt : t = Int32 \/ t = Int64) by (destruct t; simplify_eq/=; auto).
  unfold simplifyTauRem. step_get. destruct (isConstant p a && _) eqn:Ecc; [rewrite Hmod; by apply wp_fold_sources|].
  destruct (holds_getInst p e Hm b t vb Hb) as [i Hi].
  assert (Hunit : vb = 1 \/ vb = -1 -> forall x, binary_val t true Op_TauRem va vb = Some x -> x = 0).
  { intros Hu x. rewrite (rem_val t w) by (done || lia). intros [= <-]. by apply rem_unit. }
  assert (Hmain : wp (let* c2 := gget (fun p => isConstant p b) in
      if c2 then
        let* one2 := gget (fun p => isConstantOne p b) in
        if one2 then match t with
          | Int32 => let* r := genLdConstant_i4 0 in gret (Some r)
          | Int64 => let* r := genLdConstant_i8 0 in gret (Some r)
          | _ => gfail end
        else
        let* z2 := gget (fun p => isConstantZero p b) in
        if z2 then gret None else
        let* src2inst := inst_of b in
        let is_unit denom := (denom =? -1) || (denom =? 1) in
        if (match isConstant_i4 src2inst with Some denom => is_unit denom | None => false end)
        then let* r := genLdConstant_i4 0 in gret (Some r)
        else if (match isConstant_i4 src2inst, isConstant_i8 src2inst with
                 | None, Some denom => is_unit denom | _, _ => false end)
        then let* r := genLdConstant_i8 0 in gret (Some r)
        else
          let* tryDiv := simplifyTauDiv P flags t mod_ a b in
          match tryDiv with
          | Some q => let* divProduct := genMul t mod_arith q b in
                      let* remOpnd := genSub t mod_arith a divProduct in gret (Some remOpnd)
          | None => gret None end
      else gret None) p e (result_ok t (binary_val t true Op_TauRem va vb))).
  { step_get. destruct (isConstant p b) eqn:Ec; [|by apply wp_ret]. step_get.
    destruct (isConstantOne p b) eqn:E1.
    { destruct (isConstantOne_val p e Hm b t vb Hb Hvt E1) as [-> _]. apply wp_zero; auto. }
    step_get. destruct (isConstantZero p b) eqn:Ez; [by apply wp_ret|]. step_inst Hi. cbv zeta.
    pose proof (nonzero_const t w b vb p e Hw Hm Hb Ec Ez) as H0.
    assert (Hdiv := rem_from_div_ok t w mod_ a b va vb p e Hw Hm Ha Hb Hmod Hmin H0).
    rewrite <- (rem_val t w) in Hdiv by done.
    assert (Hone : forall d, (d =? -1) || (d =? 1) = true -> d = 1 \/ d = -1)
      by (intros d [?%Z.eqb_eq|?%Z.eqb_eq]%orb_true_iff; auto).
    destruct (isConstant_i4 i) as [d|] eqn:E4; [|destruct (isConstant_i8 i) as [d|] eqn:E8; [|done]].
    - destruct (isConstant_i4_val p e b t vb i d Hm Hb Hi E4) as [-> ->].
      destruct (_ || _) eqn:Eu; [|done]. apply (wp_zero Int32); [done| |by left]. by apply Hunit, Hone.
    - destruct (isConstant_i8_val p e b t vb i d Hm Hb Hi E8) as [-> ->].
      destruct (_ || _) eqn:Eu; [|done]. apply (wp_zero Int64); [done| |by right]. by apply Hunit, Hone. }
  by destruct t.
Qed.
End tau.

(** ** The simplifications *)

(** C25: Simplifying a signed division at Int32, Int64, Single or Double by a divisor that
    is not the lowest integer of its type: it does not fail, and an operand it returns has
    Java's quotient, by whichever reduction: a constant, the dividend, a negation, shifts,
    or the multiplication by a magic number. For the lowest integer as divisor the
    quotient can be wrong ([SimplifyDiv.simplifyTauDiv_min]). *)
Theorem simplifyTauDiv_value P flags t mod_ p e a b va vb : simplified_type t = true ->
  models p e -> holds p e a t va -> holds p e b t vb -> isSigned mod_ = true ->
  (forall w, int_width t = Some w -> vb <> int_min w) ->
  wp (simplifyTauDiv P flags t mod_ a b) p e (result_ok t (binary_val t true Op_TauDiv va vb)).
Proof. apply simplifyTauDiv_ok. Qed.

Definition div_sample (d : Z) : prog := [arg Int32; const Int32 (set_i4 cv_zero d)].

Lemma div_sample_models d x : is_s 32 x -> is_s 32 d -> models (div_sample d) [x; d].
Proof.
  intros Hx Hd. apply (models_const [arg Int32] [x]); [|simpl; by rewrite get_set_i4, sx_id|done].
  apply (models_arg [] []); [apply models_nil|done].
Qed.

Lemma simplifyTauDiv_value_witness :
  wp (simplifyTauDiv true (MkFlags true true false true) Int32 (signed_bits SignedOp) 0%nat 1%nat)
    (div_sample (-7)) [- 2 ^ 31; -7] (result_ok Int32 (Some 306783378)).
Proof.
  apply (simplifyTauDiv_value true (MkFlags true true false true) Int32 (signed_bits SignedOp)
    (div_sample (-7)) [- 2 ^ 31; -7] 0 1 (- 2 ^ 31) (-7)); try done; [by apply div_sample_models|].
  by intros w [= <-].
Defined.

(** with the lowering on, a division of a variable by an [Int32] constant
    other than the lowest is always replaced. *)
Theorem simplifyTauDiv_lowers P flags mod_ p e a b va vb :
  models p e -> holds p e a Int32 va -> holds p e b Int32 vb ->
  isConstant p a = false -> isConstant p b = true ->
  isSigned mod_ = true -> lower_divconst flags = true -> vb <> 0 -> vb <> int_min 32 ->
  wp (simplifyTauDiv P flags Int32 mod_ a b) p e
    (fun p' e' r => exists o, r = Some o /\ holds p' e' o Int32 (java_quot 32 va vb)).
Proof.
  intros Hm Ha Hb Ea Eb Hmod Hl H0 Hmin.
  pose proof Eb as (i & Hi & Hc)%isConstant_inst.
  destruct (int_type_range p e a Int32 32 va Hm eq_refl Ha) as [_ Hra].
  pose proof (value_const p e b Int32 vb i Hm eq_refl Hb Hi Hc) as Hv. injection Hv as Hv.
  unfold simplifyTauDiv. step_get. rewrite Ea. cbn [andb]. step_inst Hi. unfold isConstant_cv. rewrite Hc.
  cbv zeta. rewrite tag_eqb_refl, Hv.
  destruct (Z.eqb_spec vb 1) as [->|H1].
  { apply wp_ret; [done|]. exists a. split; [done|]. by rewrite (proj1 (java_quot_unit 32 va eq_refl Hra)). }
  rewrite (proj2 (Z.eqb_neq vb 0)) by done. unfold or_else, simplifyTauDivOfMul.
  apply wp_bind, wp_ret; [done|]. intros _ _.
  eapply wp_mono; [apply (lowered_div_ok flags Int32 32 mod_ a b Int32 va vb); done|].
  intros p1 e1 [o|] _ _ [Hr Hn]; [|by destruct (Hn Hl eq_refl eq_refl)].
  exists o. split; [done|]. by apply Hr.
Qed.

Lemma simplifyTauDiv_lowers_witness :
  wp (simplifyTauDiv true (MkFlags true true true true) Int32 (signed_bits SignedOp) 0%nat 1%nat)
    (div_sample 10) [2147483647; 10] (fun p' e' r => exists o, r = Some o /\ holds p' e' o Int32 214748364).
Proof.
  apply (simplifyTauDiv_lowers true (MkFlags true true true true) (signed_bits SignedOp)
    (div_sample 10) [2147483647; 10] 0 1 2147483647 10); try done. by apply div_sample_models.
Defined.

(** the remainder by a constant other than the lowest integer. *)
Theorem simplifyTauRem_value P flags t w mod_ p e a b va vb : int_width t = Some w ->
  models p e -> holds p e a t va -> holds p e b t vb -> isSigned mod_ = true -> vb <> int_min w ->
  wp (simplifyTauRem P flags t mod_ a b) p e (result_ok t (binary_val t true Op_TauRem va vb)).
Proof. apply simplifyTauRem_ok. Qed.

Lemma simplifyTauRem_value_witness :
  wp (simplifyTauRem true (MkFlags true true true true) Int32 (signed_bits SignedOp) 0%nat 1%nat)
    (div_sample 8) [-13; 8] (result_ok Int32 (Some (-5))).
Proof.
  apply (simplifyTauRem_value true (MkFlags true true true true) Int32 32 (signed_bits SignedOp)
    (div_sample 8) [-13; 8] 0 1 (-13) 8); try done. by apply div_sample_models.
Defined.

(** the lowest integer as the divisor is taken for [2^31]: the code for a
    division by it computes [-1] for the dividend equal to it, where the
    quotient is [1]. *)
Theorem simplifyTauDiv_min :
  wp (simplifyTauDiv true (MkFlags true true true true) Int32 (signed_bits SignedOp) 0%nat 1%nat)
    (div_sample (int_min 32)) [int_min 32; int_min 32]
    (fun p' e' r => exists o, r = Some o /\ holds p' e' o Int32 (-1)) /\
  java_quot 32 (int_min 32) (int_min 32) = 1.
Proof.
  split; [|by vm_compute].
  eexists _, ([int_min 32; int_min 32] ++ [30; -2; 1; 2147483647; -1; 31; -1]), _.
  split; [by vm_compute|]. split; [split; eexists; reflexivity|].
  split; [apply modelsb_models; by vm_compute|]. exists 8%nat. by split; vm_compute.
Qed.

(** ** Conversions under masks *)

Definition conv_sample : prog :=
  [arg Int64; const Int64 (set_i8 cv_zero 65535); makeInst Op_And 0 Int64 Int64 [1; 0]%nat].

(** with the mask as first operand the bounds of [UInt16] and [Int16] are
    exchanged: a conversion to [Int16] under the mask [0xffff] is dropped, and the
    value 65535 stays where the conversion gives -1. *)
Theorem simplifyConv_int16 flags : do_sxt flags = true ->
  models conv_sample [-1; 65535; 65535] /\
  simplifyConv true flags Int64 Int16 0 2%nat conv_sample = Some (conv_sample, Some 2%nat) /\
  holds conv_sample [-1; 65535; 65535] 2%nat Int64 65535 /\
  conv_val Int64 Int16 Int64 65535 = Some (-1).
Proof.
  intros H. split; [apply modelsb_models; by vm_compute|]. split; [|by split; vm_compute].
  destruct flags as [[] lower mulhi ia32]; [by vm_compute|done].
Qed.

Lemma simplifyConv_int16_witness :
  models conv_sample [-1; 65535; 65535] /\
  simplifyConv true (MkFlags true true true true) Int64 Int16 0 2%nat conv_sample = Some (conv_sample, Some 2%nat) /\
  holds conv_sample [-1; 65535; 65535] 2%nat Int64 65535 /\
  conv_val Int64 Int16 Int64 65535 = Some (-1).
Proof. exact (simplifyConv_int16 (MkFlags true true true true) eq_refl). Defined.
