(* ===== verification/SimplifyCmp.v ===== *)
(** * Comparisons, branches and checks: [optimizer/simplifier.cpp]

    The second half of the simplifier: comparisons of two and three ways,
    branches and switches on them, and the run-time checks with the removal of
    those that are decided.  The conventions are those of [Simplify.v].  The
    label of a branch, like the type of a [TypeInst], the exception of a
    [TokenInst] and the helper of a [VMHelperCallInst], is kept in [i_value].  The
    block of the source disabled by [if (0)] is left out, with it the case of a
    new comparison of one operand, and so is the logging. *)
From Stdlib Require Import SpecFloat.
From S2P Require Import Prelude Floats IR ConstFold Gen Simplify.

(** A comparison that can stand for another one: the reference parameters
    [newInstType], [newmod], [newSrc1] and [newSrc2]. *)
Record NewCmp := MkNewCmp {
  newInstType : Tag;
  newmod : ComparisonModifier;
  newSrc1 : Opnd;
  newSrc2 : Opnd;
}.

(** ** Generators *)

Definition genCmp (type insttype : Tag) (mod_ : ComparisonModifier) (src1 src2 : Opnd) : Gen Opnd :=
  insertInst (makeInst Op_Cmp (comparison_bits mod_) insttype type [src1; src2]).

(** A branch and its target label; it defines no operand. *)
Definition makeBranch (mod_ : ComparisonModifier) (type : Tag) (srcs : list Opnd) (label : Z) : Inst :=
  MkInst Op_Branch (comparison_bits mod_) type Void srcs label.
Definition genBranch (insttype : Tag) (mod_ : ComparisonModifier) (label : Z) (src1 src2 : Opnd) : Gen unit :=
  let* _ := insertInst (makeBranch mod_ insttype [src1; src2] label) in gret tt.
Definition genBranch_1 (insttype : Tag) (mod_ : ComparisonModifier) (label : Z) (src1 : Opnd) : Gen unit :=
  let* _ := insertInst (makeBranch mod_ insttype [src1] label) in gret tt.

Definition comparison_mod (i : Inst) : Gen ComparisonModifier := gopt (comparison_of (i_mod i)).

Definition cmp_is (a b : ComparisonModifier) : bool := cmp_eqb a b.

Section simplify_cmp.
Context (POINTER64 elim_cmp3 : bool).

Definition foldComparison (mod_ : ComparisonModifier) (cmpType : Tag) (srcInst1 srcInst2 : Inst)
  : Gen (option Opnd) :=
  let '(ok, res) := foldCmp cmpType mod_ (i_value srcInst1) (i_value srcInst2) cv_zero in
  if ok then let* r := genLdConstant_i4 (get_i4 res) in gret (Some r) else gret None.

(** ** A three-way comparison that can have one or two of its results *)

Definition simplifyCmp3ByResult (cmp3Opnd : Opnd) (canbe_1 canbe0 canbe1 : bool) : Gen (option NewCmp) :=
  let* cmp3Inst := inst_of cmp3Opnd in
  let* _ := gassert (op_eqb (i_opcode cmp3Inst) Op_Cmp3) in
  let* orgMod := comparison_mod cmp3Inst in
  let instType := i_type cmp3Inst in
  let* src1 := src_of cmp3Inst 0 in
  let* src2 := src_of cmp3Inst 1 in
  let fp := isFloatingPoint instType in
  let yes m a b := gret (Some (MkNewCmp instType m a b)) in
  match canbe_1, canbe0, canbe1 with
  | false, false, _ => yes orgMod src1 src2                       (* 0 0 1 *)
  | false, true, false =>                                         (* 0 1 0 *)
      match orgMod with
      | Cmp_EQ => yes Cmp_NE_Un src1 src2
      | Cmp_GT | Cmp_GT_Un => yes Cmp_EQ src1 src2
      | Cmp_GTE | Cmp_GTE_Un => yes Cmp_NE_Un src1 src1
      | _ => gret None
      end
  | false, true, true =>                                          (* 0 1 1 *)
      match orgMod with
      | Cmp_EQ => yes Cmp_EQ src1 src1
      | Cmp_NE_Un => yes Cmp_NE_Un src1 src1
      | Cmp_GT => yes Cmp_GTE src1 src2
      | Cmp_GT_Un => yes Cmp_GTE_Un src1 src2
      | Cmp_GTE => yes orgMod src1 src2
      | Cmp_GTE_Un => yes orgMod src1 src2
      | _ => gret None
      end
  | true, false, false =>                                         (* 1 0 0 *)
      match orgMod with
      | Cmp_EQ => gret None
      | Cmp_NE_Un => yes Cmp_NE_Un src1 src1
      | _ =>
          if fp then
            match orgMod with
            | Cmp_GT => yes Cmp_GT_Un src2 src1
            | Cmp_GT_Un => yes Cmp_GT src2 src1
            | Cmp_GTE => yes Cmp_GTE_Un src2 src1
            | Cmp_GTE_Un => yes Cmp_GTE_Un src2 src1
            | _ => gfail
            end
          else yes orgMod src2 src1
      end
  | true, _, true =>                                              (* 1 0 1 *)
      match orgMod with
      | Cmp_GT | Cmp_GT_Un => yes Cmp_NE_Un src1 src2
      | Cmp_GTE | Cmp_GTE_Un => yes Cmp_NE_Un src1 src1
      | Cmp_NE_Un | Cmp_EQ => yes orgMod src1 src2
      | _ => gfail
      end
  | true, true, false =>                                          (* 1 1 0 *)
      match orgMod with
      | Cmp_EQ => yes Cmp_NE_Un src2 src1
      | Cmp_NE_Un => yes Cmp_EQ src2 src1
      | Cmp_GT => yes (if fp then Cmp_GTE_Un else Cmp_GTE) src2 src1
      | Cmp_GT_Un => yes (if fp then Cmp_GTE else Cmp_GTE_Un) src2 src1
      | Cmp_GTE => yes (if fp then Cmp_GT_Un else Cmp_GT) src2 src1
      | Cmp_GTE_Un => yes (if fp then Cmp_GT else Cmp_GT_Un) src2 src1
      | _ => gfail
      end
  end.

(** The comparison of another one's operands, or its negation. *)
Definition cloneComparison (negateIt : bool) (orgCmp : Opnd) : Gen NewCmp :=
  let* orgInst := inst_of orgCmp in
  let* orgMod := comparison_mod orgInst in
  let* src1 := src_of orgInst 0 in
  let* src2 := src_of orgInst 1 in
  let t := i_type orgInst in
  let new m := gret (MkNewCmp t m src2 src1) in
  if negateIt then
    if isFloatingPoint t then
      match orgMod with
      | Cmp_GT => new Cmp_GTE_Un | Cmp_GT_Un => new Cmp_GTE
      | Cmp_GTE => new Cmp_GT_Un | Cmp_GTE_Un => new Cmp_GT
      | Cmp_EQ => new Cmp_NE_Un | Cmp_NE_Un => new Cmp_EQ
      | _ => gfail
      end
    else
      match orgMod with
      | Cmp_GT => new Cmp_GTE | Cmp_GT_Un => new Cmp_GTE_Un
      | Cmp_GTE => new Cmp_GT | Cmp_GTE_Un => new Cmp_GT_Un
      | Cmp_EQ => new Cmp_NE_Un | Cmp_NE_Un => new Cmp_EQ
      | _ => gfail
      end
  else gret (MkNewCmp t orgMod src1 src2).

(** ** Comparisons of comparisons with a constant *)

(** The results of a three-way comparison for which it compares so with [val],
    on its right or on its left, as far as the source lists them. *)
Definition cmp3_results_r (mod_ : ComparisonModifier) (val : Z) : option (bool * bool * bool) :=
  let m_is := cmp_is mod_ in
  if ((val =? 0) && m_is Cmp_GT) || ((val =? 1) && (m_is Cmp_GTE || m_is Cmp_EQ))
  then Some (false, false, true)
  else if (val =? 0) && m_is Cmp_EQ then Some (false, true, false)
  else if ((val =? 0) && m_is Cmp_GTE) || ((val =? -1) && m_is Cmp_GT) then Some (false, true, true)
  else if ((val =? -1) && m_is Cmp_EQ) || (m_is Cmp_GTE_Un && ((val <? -1) || (2 <=? val)))
          || (m_is Cmp_GT_Un && ((val <? -2) || (1 <=? val)))
  then Some (true, false, false)
  else if (val =? 0) && (m_is Cmp_GT_Un || m_is Cmp_NE_Un) then Some (true, false, true)
  else if (val =? 1) && m_is Cmp_NE_Un then Some (true, true, false)
  else if (val =? -1) && m_is Cmp_NE_Un then Some (false, true, true)
  else None.

Definition cmp3_results_l (mod_ : ComparisonModifier) (val : Z) : option (bool * bool * bool) :=
  let m_is := cmp_is mod_ in
  if (val =? 1) && m_is Cmp_EQ then Some (false, false, true)
  else if ((val =? 0) && m_is Cmp_EQ) || ((val =? 1) && m_is Cmp_GT_Un) then Some (false, true, false)
  else if (m_is Cmp_GT_Un && ((val <=? -1) || (1 <=? val))) &&
          (m_is Cmp_GTE_Un && ((val <? -1) || (1 <? val))) &&
          ((val =? -1) && m_is Cmp_NE_Un)
  then Some (false, true, true)
  else if ((val =? 0) && m_is Cmp_GT) || ((val =? -1) && (m_is Cmp_GTE || m_is Cmp_EQ))
  then Some (true, false, false)
  else if (val =? 0) && m_is Cmp_NE_Un then Some (true, false, true)
  else if ((val =? 1) && m_is Cmp_NE_Un) || ((val =? 0) && m_is Cmp_GTE) then Some (true, true, false)
  else None.

Definition byResult (cmp3Opnd : Opnd) (r : option (bool * bool * bool)) : Gen (option NewCmp) :=
  match r with
  | Some (canbe_1, canbe0, canbe1) => simplifyCmp3ByResult cmp3Opnd canbe_1 canbe0 canbe1
  | None => gret None
  end.

Definition simplifyCmpOfCmp3 (mod_ : ComparisonModifier) (src1 src2 : Opnd) : Gen (option NewCmp) :=
  let* i1 := inst_of src1 in
  let* i2 := inst_of src2 in
  if op_eqb (i_opcode i1) Op_Cmp3 then
    match isConstant_cv i2 with
    | Some valC => byResult src1 (cmp3_results_r mod_ (get_i4 valC))
    | None => gret None
    end
  else if op_eqb (i_opcode i2) Op_Cmp3 then
    match isConstant_cv i1 with
    | Some valC => byResult src2 (cmp3_results_l mod_ (get_i4 valC))
    | None => gret None
    end
  else gret None.

Definition simplifyCmpOfCmp (mod_ : ComparisonModifier) (src1 src2 : Opnd) : Gen (option NewCmp) :=
  let m_is := cmp_is mod_ in
  let clone negateIt o := let* c := cloneComparison negateIt o in gret (Some c) in
  let* i1 := inst_of src1 in
  let* i2 := inst_of src2 in
  match isConstant_cv i1, isConstant_cv i2 with
  | Some valC, _ =>
      let val := get_i4 valC in
      if ((val =? 0) && m_is Cmp_NE_Un) || ((val =? 1) && m_is Cmp_EQ) then clone false src2
      else if ((val =? 0) && (m_is Cmp_EQ || m_is Cmp_GTE || m_is Cmp_GTE_Un)) ||
              ((val =? 1) && (m_is Cmp_NE_Un || m_is Cmp_GT || m_is Cmp_GT_Un))
      then clone true src2
      else gret None
  | None, Some valC =>
      let val := get_i4 valC in
      if ((val =? 0) && (m_is Cmp_GT || m_is Cmp_NE_Un || m_is Cmp_GT_Un)) ||
         ((val =? 1) && (m_is Cmp_GTE || m_is Cmp_EQ || m_is Cmp_GTE_Un))
      then clone false src1
      else if ((val =? 0) && m_is Cmp_EQ) || ((val =? 1) && m_is Cmp_NE_Un) then clone true src1
      else gret None
  | None, None => gret None
  end.

(** ** Comparisons of sums and differences with a constant

    Nothing calls these: [simplifyCmpToCmp] does not try them. *)
Definition isComparisonModifierSigned (mod_ : ComparisonModifier) : Gen bool :=
  match mod_ with
  | Cmp_EQ | Cmp_GT | Cmp_GTE => gret true
  | Cmp_NE_Un | Cmp_GT_Un | Cmp_GTE_Un => gret false
  | _ => gfail
  end.

Definition haveSameSignedTypes (op1 op2 op3 : Opnd) (addMod : Modifier) (cmpMod : ComparisonModifier)
  : Gen bool :=
  let* type1 := type_of op1 in
  if negb (isSignedInteger type1) then gret false else
  if negb (isSigned addMod) then gret false else
  let* s := isComparisonModifierSigned cmpMod in
  if negb s then gret false else
  let* type2 := type_of op2 in
  let* type3 := type_of op3 in
  gret (tag_eqb type1 type2 && tag_eqb type1 type3).

(** The comparison of [other] with the changed operand, on the left unless [swapped]. *)
Definition newcmp (swapped : bool) (t : Tag) (m : ComparisonModifier) (changed other : Opnd) : NewCmp :=
  if swapped then MkNewCmp t m other changed else MkNewCmp t m changed other.

(** What a comparison with [x + 1] becomes without the 1, and with [x - 1]. *)
Definition drop_plus_one (mod_ : ComparisonModifier) (swapped : bool) : option ComparisonModifier :=
  if cmp_is mod_ Cmp_GT && negb swapped then Some Cmp_GTE
  else if cmp_is mod_ Cmp_GTE && swapped then Some Cmp_GT else None.
Definition drop_minus_one (mod_ : ComparisonModifier) (swapped : bool) : option ComparisonModifier :=
  if cmp_is mod_ Cmp_GTE && negb swapped then Some Cmp_GT
  else if cmp_is mod_ Cmp_GT && swapped then Some Cmp_GTE else None.

(** [simplifyCmpOfAddC] with [Op_Sub] for folding and the two tables in this
    order, [simplifyCmpOfSubC] with [Op_Add] and the other order. *)
Definition cmp_of_constant_sum (foldOp : Opcode) (one ones : option ComparisonModifier) (swapped : bool)
  (instType : Tag) (mod_ : ComparisonModifier) (sumOpnd otherOpnd constOpnd restOpnd : Opnd)
  : Gen (option NewCmp) :=
  let* oc := gget (fun p => isConstant p otherOpnd) in
  if oc then
    let* type2 := type_of sumOpnd in
    let* oi := inst_of otherOpnd in
    let* ci := inst_of constOpnd in
    let* newOpnd := fold_binary_opnd POINTER64 foldOp type2 oi ci in
    gret (Some (newcmp swapped instType mod_ restOpnd newOpnd))
  else
  let pick m := gret (option_map (fun m => newcmp swapped instType m restOpnd otherOpnd) m) in
  let* c1 := gget (fun p => isConstantOne p constOpnd) in
  if c1 then pick one else
  let* ca := gget (fun p => isConstantAllOnes p constOpnd) in
  if ca then pick ones else gret None.

Definition simplifyCmpOfAddC (instType : Tag) (mod_ : ComparisonModifier) (addOpnd otherOpnd : Opnd)
  (swapped : bool) : Gen (option NewCmp) :=
  let* addInst := inst_of addOpnd in
  let* _ := gassert (getNumSrcOperands addInst =? 2)%nat in
  let* addOp1 := src_of addInst 0 in
  let* addOp2 := src_of addInst 1 in
  let* same := haveSameSignedTypes addOpnd otherOpnd addOp1 (getOverflowModifier (i_mod addInst)) mod_ in
  if same then
    let* c1 := gget (fun p => isConstant p addOp1) in
    cmp_of_constant_sum Op_Sub (drop_plus_one mod_ swapped) (drop_minus_one mod_ swapped) swapped
      instType mod_ addOpnd otherOpnd (if c1 then addOp1 else addOp2) (if c1 then addOp2 else addOp1)
  else gret None.

Definition simplifyCmpOfSubC (instType : Tag) (mod_ : ComparisonModifier) (subOpnd otherOpnd : Opnd)
  (swapped : bool) : Gen (option NewCmp) :=
  let* subInst := inst_of subOpnd in
  let* _ := gassert (getNumSrcOperands subInst =? 2)%nat in
  let* subOp1 := src_of subInst 0 in
  let* subOp2 := src_of subInst 1 in
  let* same := haveSameSignedTypes subOpnd otherOpnd subOp1 (getOverflowModifier (i_mod subInst)) mod_ in
  if same then
    let* c2 := gget (fun p => isConstant p subOp2) in
    if c2 then
      cmp_of_constant_sum Op_Add (drop_minus_one mod_ swapped) (drop_plus_one mod_ swapped) swapped
        instType mod_ subOpnd otherOpnd subOp2 subOp1
    else gret None
  else gret None.

Definition simplifyCmpOfAddOrSubC (instType : Tag) (mod_ : ComparisonModifier) (src1 src2 : Opnd)
  : Gen (option NewCmp) :=
  let try o other swapped :=
    let* i := inst_of o in
    let* a := gget (fun p => isAddWithConstant p i) in
    if a then simplifyCmpOfAddC instType mod_ o other swapped else
    let* s := gget (fun p => isSubWithConstant p i) in
    if s then simplifyCmpOfSubC instType mod_ o other swapped else gret None in
  let* r1 := try src1 src2 false in
  match r1 with
  | Some c => gret (Some c)
  | None => try src2 src1 true
  end.

(** ** Comparisons *)

Definition simplifyCmpToCmp (instType : Tag) (mod_ : ComparisonModifier) (src1 src2 : Opnd)
  : Gen (option NewCmp) :=
  let* r := (if elim_cmp3 && tag_eqb instType Int32 then simplifyCmpOfCmp3 mod_ src1 src2 else gret None) in
  match r with
  | Some c => gret (Some c)
  | None =>
      let* i1 := inst_of src1 in
      let* i2 := inst_of src2 in
      if op_eqb (i_opcode i1) Op_Cmp || op_eqb (i_opcode i2) Op_Cmp
      then simplifyCmpOfCmp mod_ src1 src2 else gret None
  end.

(** Of one operand: a cast is looked through. *)
Definition simplifyCmpToCmp_1 (instType : Tag) (mod_ : ComparisonModifier) (src1 : Opnd)
  : Gen (option (Tag * ComparisonModifier * Opnd)) :=
  let* srci := inst_of src1 in
  if op_eqb (i_opcode srci) Op_TauStaticCast then
    let* s := src_of srci 0 in gret (Some (instType, mod_, s))
  else gret None.

(** The comparison of an operand that is not a float with itself. *)
Definition identical_cmp (mod_ : ComparisonModifier) : Gen (option Opnd) :=
  match mod_ with
  | Cmp_EQ | Cmp_GTE | Cmp_GTE_Un => let* r := genLdConstant_i4 1 in gret (Some r)
  | Cmp_NE_Un | Cmp_GT | Cmp_GT_Un => let* r := genLdConstant_i4 0 in gret (Some r)
  | _ => gfail
  end.

Definition simplifyCmp (dstType instType : Tag) (mod_ : ComparisonModifier) (src1 src2 : Opnd)
  : Gen (option Opnd) :=
  let rest :=
    if (src1 =? src2)%nat && negb (isFloatingPoint instType) then identical_cmp mod_ else
    let* n := simplifyCmpToCmp instType mod_ src1 src2 in
    match n with
    | Some c =>
        let* res := genCmp dstType (newInstType c) (newmod c) (newSrc1 c) (newSrc2 c) in
        gret (Some res)
    | None => gret None
    end in
  let* c1 := gget (fun p => isConstant p src1) in
  let* c2 := gget (fun p => isConstant p src2) in
  let* z1 := gget (fun p => isConstantZero p src1) in
  let* z2 := gget (fun p => isConstantZero p src2) in
  if c1 then
    if c2 then
      let* i1 := inst_of src1 in
      let* i2 := inst_of src2 in
      foldComparison mod_ instType i1 i2
    else if z1 && cmp_is mod_ Cmp_GT_Un && tag_eqb dstType Int32
    then let* r := genLdConstant_i4 0 in gret (Some r)
    else rest
  else if z2 && cmp_is mod_ Cmp_GTE_Un && tag_eqb dstType Int32
  then let* r := genLdConstant_i4 1 in gret (Some r)
  else rest.

Definition simplifyCmp3 (dstType instType : Tag) (mod_ : ComparisonModifier) (src1 src2 : Opnd)
  : Gen (option Opnd) :=
  let rest :=
    if (src1 =? src2)%nat && negb (isFloatingPoint instType) then identical_cmp mod_ else gret None in
  let* c1 := gget (fun p => isConstant p src1) in
  let* c2 := gget (fun p => isConstant p src2) in
  if c1 && c2 then
    let* i1 := inst_of src1 in
    let* i2 := inst_of src2 in
    let '(ok, res) := foldCmp instType mod_ (i_value i1) (i_value i2) cv_zero in
    if ok then
      if negb (get_i4 res =? 0) then let* r := genLdConstant_i4 1 in gret (Some r) else
      let mod2 :=
        if isFloatingPoint instType then
          match mod_ with
          | Cmp_GT => Cmp_GT_Un | Cmp_GT_Un => Cmp_GT
          | Cmp_GTE => Cmp_GTE_Un | Cmp_GTE_Un => Cmp_GTE
          | _ => mod_
          end
        else mod_ in
      let '(ok2, res2) := foldCmp instType mod2 (i_value i2) (i_value i1) res in
      if ok2 then
        if negb (ux 32 (get_i4 res2) =? 0) then let* r := genLdConstant_i4 (-1) in gret (Some r)
        else let* r := genLdConstant_i4 0 in gret (Some r)
      else rest
    else rest
  else rest.

(** ** Branches *)

Definition isNonNullObject (inst : Inst) : bool :=
  match i_opcode inst with
  | Op_NewObj | Op_NewArray | Op_NewMultiArray | Op_LdRef | Op_Catch => true
  | _ => false
  end.

Definition isVTablePtr (t : Tag) : bool := tag_eqb t VTablePtr || tag_eqb t CompressedVTablePtr.

Definition propagateCopy (o : Opnd) : Gen Opnd :=
  let* i := inst_of o in
  if op_eqb (i_opcode i) Op_Copy then src_of i 0 else gret o.

(** [canFoldBranch] gives [isTaken] when it can.  [unresolved] is
    [isUnresolvedType] of the types, which are numbers. *)
Definition canFoldBranch (unresolved : Z -> bool) (instType : Tag) (mod_ : ComparisonModifier)
  (src1 src2 : Opnd) : Gen (option bool) :=
  let* i1 := inst_of src1 in
  let* i2 := inst_of src2 in
  match isConstant_cv i1, isConstant_cv i2 with
  | Some val1, Some val2 =>
      let '(ok, result) := foldCmp instType mod_ val1 val2 cv_zero in
      gret (if ok then Some (negb (get_i4 result =? 0)) else None)
  | _, _ =>
      if (src1 =? src2)%nat then
        let* t := type_of src1 in
        if isFloatingPoint t then gret None else
        gret (match mod_ with
              | Cmp_EQ | Cmp_GTE | Cmp_GTE_Un => Some true
              | Cmp_NE_Un | Cmp_GT | Cmp_GT_Un => Some false
              | _ => None
              end)
      else if isVTablePtr instType then
        let* o1 := propagateCopy src1 in
        let* o2 := propagateCopy src2 in
        let* d1 := inst_of o1 in
        let* d2 := inst_of o2 in
        if op_eqb (i_opcode d1) Op_GetVTableAddr && op_eqb (i_opcode d2) Op_GetVTableAddr &&
           negb (unresolved (i_value d1)) && negb (unresolved (i_value d2))
        then
          let same := i_value d1 =? i_value d2 in
          gret (Some ((same && cmp_is mod_ Cmp_EQ) || (negb same && cmp_is mod_ Cmp_NE_Un)))
        else gret None
      else gret None
  end.

Definition canFoldBranch_1 (instType : Tag) (mod_ : ComparisonModifier) (src : Opnd) : Gen (option bool) :=
  let* i := inst_of src in
  match isConstant_cv i with
  | Some val =>
      let '(ok, result) := foldCmp_1 instType mod_ val cv_zero in
      gret (if ok then Some (negb (get_i4 result =? 0)) else None)
  | None => gret (if isNonNullObject i then Some (negb (cmp_is mod_ Cmp_Zero)) else None)
  end.

Definition simplifyBranch (instType : Tag) (mod_ : ComparisonModifier) (label : Z) (src1 src2 : Opnd)
  : Gen bool :=
  let* n := simplifyCmpToCmp instType mod_ src1 src2 in
  match n with
  | Some c =>
      let* _ := genBranch (newInstType c) (newmod c) label (newSrc1 c) (newSrc2 c) in gret true
  | None => gret false
  end.

Definition simplifyBranch_1 (instType : Tag) (mod_ : ComparisonModifier) (label : Z) (src1 : Opnd)
  : Gen bool :=
  let* n := simplifyCmpToCmp_1 instType mod_ src1 in
  match n with
  | Some (t, m, s) => let* _ := genBranch_1 t m label s in gret true
  | None => gret false
  end.

(** What becomes of a branch: it stays, its block keeps one of its edges, or
    the branch inserted before it takes its place. *)
Inductive BranchOutcome := BranchKept | BranchFolded (isTaken : bool) | BranchReplaced.

Definition caseBranch (unresolved : Z -> bool) (inst : Inst) : Gen BranchOutcome :=
  let type := i_type inst in
  let* mod_ := comparison_mod inst in
  match i_srcs inst with
  | [s] =>
      let* f := canFoldBranch_1 type mod_ s in
      match f with
      | Some isTaken => gret (BranchFolded isTaken)
      | None =>
          let* r := simplifyBranch_1 type mod_ (i_value inst) s in
          gret (if r then BranchReplaced else BranchKept)
      end
  | [s1; s2] =>
      let* f := canFoldBranch unresolved type mod_ s1 s2 in
      match f with
      | Some isTaken => gret (BranchFolded isTaken)
      | None =>
          let* r := simplifyBranch type mod_ (i_value inst) s1 s2 in
          gret (if r then BranchReplaced else BranchKept)
      end
  | _ => gret BranchKept
  end.

(** ** Switches: their labels, the default one and the index *)

Definition simplifySwitch (labels : list Z) (src : Opnd) : Gen bool :=
  match labels with
  | [] => gfail
  | label1 :: rest =>
      if forallb (fun l => l =? label1) rest then
        let* numTargets := genLdConstant_i4 (Z.of_nat (length labels)) in
        let* _ := genBranch Int32 Cmp_GT_Un label1 numTargets src in
        gret true
      else gret false
  end.

(** The target [FlowGraph::foldSwitch] leaves: the index is unsigned. *)
Definition foldSwitch (labels : list Z) (defaultTarget : Z) (index : Z) : Z :=
  if index <? Z.of_nat (length labels) then default defaultTarget (labels !! Z.to_nat index)
  else defaultTarget.

Inductive SwitchOutcome := SwitchKept | SwitchFolded (target : Z) | SwitchReplaced.

Definition caseSwitch (labels : list Z) (defaultTarget : Z) (index : Opnd) : Gen SwitchOutcome :=
  let* i := inst_of index in
  match isConstant_i4 i with
  | Some value => gret (SwitchFolded (foldSwitch labels defaultTarget (ux 32 value)))
  | None =>
      let* r := simplifySwitch labels index in
      gret (if r then SwitchReplaced else SwitchKept)
  end.
End simplify_cmp.

(** ** Run-time checks

    A check is left with the proof that it passes, with one that it does not, or
    as it is; [alwaysThrows] tells the two proofs apart.  The operands of the
    proofs are made once, in the entry block.  [prevInst] is the last
    instruction inserted before the check. *)
Record Checks := MkChecks {
  tauSafeOpnd : option Opnd;
  tauUnsafeOpnd : option Opnd;
  prevInst : option Inst;
}.

Definition Check (A : Type) : Type := Checks -> Gen (Checks * A).
Definition cret {A} (a : A) : Check A := fun st => gret (st, a).
Definition cbind {A B} (m : Check A) (f : A -> Check B) : Check B :=
  fun st => let* r := m st in f r.2 r.1.
Definition clift {A} (m : Gen A) : Check A := fun st => let* a := m in gret (st, a).

Notation "'let+' x ':=' m 'in' k" := (cbind m (fun x => k))
  (at level 10, x name, m at level 100, k at level 200) : gen_scope.

Definition genTauSafe : Check Opnd := fun st =>
  match tauSafeOpnd st with
  | Some o => gret (st, o)
  | None =>
      let* o := insertInst (makeInst Op_TauSafe 0 Tau Tau []) in
      gret (MkChecks (Some o) (tauUnsafeOpnd st) (prevInst st), o)
  end.

Definition genTauUnsafe : Check Opnd := fun st =>
  match tauUnsafeOpnd st with
  | Some o => gret (st, o)
  | None =>
      let* o := insertInst (makeInst Op_TauUnsafe 0 Tau Tau []) in
      gret (MkChecks (tauSafeOpnd st) (Some o) (prevInst st), o)
  end.

Definition insert_before (i : Inst) : Check Opnd := fun st =>
  let* o := insertInst i in gret (MkChecks (tauSafeOpnd st) (tauUnsafeOpnd st) (Some i), o).

Definition genTauIsNonNull (src : Opnd) : Check Opnd :=
  insert_before (makeInst Op_TauIsNonNull 0 Tau Tau [src]).

(** [SystemExceptionId] *)
Definition Exception_NullPointer : Z := 0.
Definition Exception_ArrayIndexOutOfBounds : Z := 1.
Definition Exception_DivideByZero : Z := 3.

Definition genThrowSystemException (exceptionId : Z) : Check unit :=
  let+ _ := insert_before (MkInst Op_ThrowSystemException 0 Void Void [] exceptionId) in cret tt.

(** [alwaysThrows] with the result. *)
Abbreviation CheckResult := (bool * option Opnd)%type.

Definition check_passes : Check CheckResult := let+ o := genTauSafe in cret (false, Some o).
Definition check_throws (exceptionId : Z) : Check CheckResult :=
  let+ _ := genThrowSystemException exceptionId in
  let+ o := genTauUnsafe in cret (true, Some o).
(** Without an instruction that throws. *)
Definition check_fails : Check CheckResult := let+ o := genTauUnsafe in cret (true, Some o).
Definition check_unknown : Check CheckResult := cret (false, None).

Definition NonNullThisArg : Z := Z.shiftl 0x2 12.
Definition DefArg_Mask : Z := Z.shiftl 0x7 12.

Definition isNonNullParameter (inst : Inst) : bool :=
  op_eqb (i_opcode inst) Op_DefArg && (Z.land (i_mod inst) DefArg_Mask =? NonNullThisArg).

Definition isNullObject (type : Tag) (inst : Inst) : bool :=
  isObject type && op_eqb (i_opcode inst) Op_LdConstant.

Definition simplifyTauCheckNull (opnd : Opnd) : Check CheckResult :=
  let+ i := clift (inst_of opnd) in
  if isNonNullObject i then check_passes
  else if isNonNullParameter i then let+ o := genTauIsNonNull opnd in cret (false, Some o)
  else
  let+ t := clift (type_of opnd) in
  if isNullObject t i then check_throws Exception_NullPointer else check_unknown.

(** The two constants of a check and the comparison of them that decides it. *)
Definition check_constants (a b : Opnd) (mod_ : ComparisonModifier) (a_first : bool)
  (decide : bool -> Check CheckResult) : Check CheckResult :=
  let+ ia := clift (inst_of a) in
  let+ ib := clift (inst_of b) in
  match asConstInst ia, asConstInst ib with
  | Some ca, Some cb =>
      let va := get_i4 (i_value ca) in
      let vb := get_i4 (i_value cb) in
      let '(ok, result) := if a_first then foldCmp32 mod_ va vb 0 else foldCmp32 mod_ vb va 0 in
      if ok then decide (result =? 1) else check_unknown
  | _, _ => check_unknown
  end.

Definition out_of_bounds : Check CheckResult := check_throws Exception_ArrayIndexOutOfBounds.

Definition simplifyTauCheckBounds (arrayLen index : Opnd) : Check CheckResult :=
  check_constants arrayLen index Cmp_GT_Un true (fun r => if r then check_passes else out_of_bounds).
Definition simplifyTauCheckLowerBound (lb idx : Opnd) : Check CheckResult :=
  check_constants lb idx Cmp_GT true (fun r => if r then out_of_bounds else check_passes).
Definition simplifyTauCheckUpperBound (idx ub : Opnd) : Check CheckResult :=
  check_constants idx ub Cmp_GT false (fun r => if r then check_passes else out_of_bounds).

Definition simplifyTauCheckZero (opnd : Opnd) : Check CheckResult :=
  let+ i := clift (inst_of opnd) in
  match isConstant_i4 i with
  | Some value => if negb (value =? 0) then check_passes else check_throws Exception_DivideByZero
  | None => check_unknown
  end.

(** The tests of [simplifyTauCheckDivOpnds] on the constants of one width:
    [Some true] when overflow cannot happen, [Some false] when it will. *)
Definition div_overflow (w : Z) (c1 c2 : option Z) : option bool :=
  match c1 with
  | Some v =>
      if negb (ux w v =? 2 ^ (w - 1)) then Some true
      else match c2 with Some v2 => if v2 =? -1 then Some false else None | None => None end
  | None => match c2 with Some v2 => if negb (v2 =? -1) then Some true else None | None => None end
  end.

Definition simplifyTauCheckDivOpnds (src1 src2 : Opnd) : Check CheckResult :=
  let+ i1 := clift (inst_of src1) in
  let+ i2 := clift (inst_of src2) in
  match div_overflow 32 (isConstant_i4 i1) (isConstant_i4 i2) with
  | Some true => check_passes
  | Some false => check_fails
  | None =>
      match div_overflow 64 (isConstant_i8 i1) (isConstant_i8 i2) with
      | Some true => check_passes
      | Some false => check_fails
      | None => check_unknown
      end
  end.

Definition simplifyTauCheckFinite (opnd : Opnd) : Check CheckResult :=
  let+ opType := clift (type_of opnd) in
  let+ i := clift (inst_of opnd) in
  match isConstant_cv i with
  | Some value =>
      match opType with
      | Single => if negb (ffinite binary32 (get_s value)) then check_fails else check_passes
      | Double => if negb (ffinite binary64 (get_d value)) then check_fails else check_passes
      | _ => check_unknown
      end
  | None => check_unknown
  end.

(** The [caseTauCheck] functions of [simplifier.h]: the check is removed with
    [FlowGraph::eliminateCheck], which asserts that an instruction before one
    that always throws throws. *)
Definition VM_RT_THROW_LAZY : Z := 201.
Definition isThrow (i : Inst) : bool :=
  match i_opcode i with
  | Op_Throw | Op_ThrowSystemException | Op_ThrowLinkingException => true
  | Op_VMHelperCall => i_value i =? VM_RT_THROW_LAZY
  | _ => false
  end.

Definition eliminateCheck (st : Checks) (alwaysThrows : bool) : Gen unit :=
  if alwaysThrows then gassert (match prevInst st with Some i => isThrow i | None => false end)
  else gret tt.

Definition caseTauCheck (simplify : Check CheckResult) (st : Checks) : Gen (Checks * CheckResult) :=
  let* r := simplify st in
  match r.2.2 with
  | Some o => let* _ := eliminateCheck r.1 r.2.1 in gret r
  | None => gret r
  end.
