(* ===== verification/SimplifyCmpOk.v ===== *)
(** * Simplified comparisons, branches and checks mean the same

    A comparison of operands has a truth value ([compares]); each
    simplification of [SimplifyCmp.v] keeps it.  Three-way comparisons are those
    the front end makes, with [Cmp_GT] or [Cmp_GT_Un]; for the other modifiers
    the rules are wrong, as an example shows. *)
From Stdlib Require Import SpecFloat.
From S2P Require Import Prelude Floats JavaArith IR ConstFold Gen Simplify SimplifyOk SimplifyCmp.

(** ** Truth of comparisons *)

Lemma comparison_of_bits m : comparison_of (comparison_bits m) = Some m.
Proof. by destruct m. Qed.

Lemma cmp_is_eq a b : cmp_is a b = true <-> a = b.
Proof. by destruct a, b. Qed.

(** Comparing the other way round turns the order round. *)
Lemma ordering_antisym t un a b : ordering t un b a = CompOpp <$> ordering t un a b.
Proof.
  unfold ordering. destruct (arith_width t) as [w|].
  - destruct un; simpl; f_equal; apply Z.compare_antisym.
  - destruct (fp_format t) as [F|]; [apply SFcompare_antisym|]. simpl. f_equal. apply Z.compare_antisym.
Qed.

(** Only floats are unordered, and only their comparisons need the flip. *)
Lemma fp_width t F : fp_format t = Some F -> arith_width t = None /\ isFloatingPoint t = true.
Proof. by destruct t. Qed.

Lemma ordering_fp t un un' a b : isFloatingPoint t = true -> value_type t = true ->
  ordering t un a b = ordering t un' a b.
Proof. by destruct t. Qed.

Lemma ordering_int t un a b : isFloatingPoint t = false -> exists c, ordering t un a b = Some c.
Proof. destruct t; try done; by eexists. Qed.

(** Equality does not depend on how integers are read. *)
Lemma ordering_eq t un a b : has_type t a -> has_type t b ->
  ordering t un a b = Some Eq <-> ordering t false a b = Some Eq.
Proof.
  intros Ha Hb. destruct un; [|done]. unfold ordering.
  destruct (arith_width t) as [w|] eqn:Hw; [|by destruct (fp_format t)].
  rewrite (has_type_int t w) in Ha, Hb by done. destruct (arith_width_pos t w Hw) as [Hp _].
  split; intros [= H%Z.compare_eq]; f_equal; apply Z.compare_eq_iff.
  - apply eqm_ux_iff, eqm_sx_iff in H. by rewrite !sx_id in H.
  - by rewrite H.
Qed.

(** The signed and the unsigned order: the same for floats, of the same equality
    for integers. *)
Definition orders_agree (fp : bool) (os ou : option comparison) : Prop :=
  if fp then os = ou else exists c c', os = Some c /\ ou = Some c' /\ (c = Eq <-> c' = Eq).

Lemma ordering_agree t a b : (value_type t = true -> has_type t a /\ has_type t b) ->
  orders_agree (isFloatingPoint t) (ordering t false a b) (ordering t true a b).
Proof.
  intros Hty. destruct (isFloatingPoint t) eqn:Hf; simpl; [by destruct t|].
  destruct (ordering_int t false a b Hf) as [c Hc], (ordering_int t true a b Hf) as [c' Hc'].
  exists c, c'. do 2 (split; [done|]).
  assert (Heq : ordering t true a b = Some Eq <-> ordering t false a b = Some Eq).
  { destruct (value_type t) eqn:Hv; [destruct (Hty eq_refl); by apply ordering_eq|]. by destruct t. }
  rewrite Hc, Hc' in Heq. split; intros ->; [pose proof (proj2 Heq eq_refl)|pose proof (proj1 Heq eq_refl)]; congruence.
Qed.

(** The negation [cloneComparison] makes. *)
Definition negation (t : Tag) (m : ComparisonModifier) : ComparisonModifier :=
  let un := isFloatingPoint t in
  match m with
  | Cmp_EQ => Cmp_NE_Un | Cmp_NE_Un => Cmp_EQ
  | Cmp_GT => if un then Cmp_GTE_Un else Cmp_GTE
  | Cmp_GT_Un => if un then Cmp_GTE else Cmp_GTE_Un
  | Cmp_GTE => if un then Cmp_GT_Un else Cmp_GT
  | Cmp_GTE_Un => if un then Cmp_GT else Cmp_GT_Un
  | _ => m
  end.

Lemma cmp_val_negate t m a b x :
  (value_type t = true -> has_type t a /\ has_type t b) ->
  cmp_val t m a b = Some x -> cmp_val t (negation t m) b a = Some (negb x).
Proof.
  intros Hty%ordering_agree. unfold cmp_val. destruct (cmp_ok t m) eqn:Hok; [|done]. intros [= <-].
  assert (Hneg : cmp_ok t (negation t m) = true) by (destruct t, m; done). rewrite Hneg, ordering_antisym.
  f_equal. unfold negation. destruct (isFloatingPoint t) eqn:Hf; simpl in Hty.
  - destruct m; try done; simpl; rewrite <- ?Hty; destruct (ordering t false a b) as [[]|]; done.
  - destruct Hty as (c & c' & H1 & H2 & Hc).
    destruct m; try done; simpl; rewrite ?H1, ?H2; destruct c, c'; simpl; try done; exfalso;
      (discriminate (proj1 Hc eq_refl) || discriminate (proj2 Hc eq_refl)).
Qed.

(** The result of a three-way comparison: the sign of the order. *)
Definition cmp3_sign (m : ComparisonModifier) (o : option comparison) : Z :=
  match o with
  | Some Gt => 1 | Some Eq => 0 | Some Lt => -1
  | None => if cmp_un m then 1 else -1
  end.

Definition is_gt (m : ComparisonModifier) : bool :=
  match m with Cmp_GT | Cmp_GT_Un => true | _ => false end.

Lemma cmp3_val_sign t m a b : is_gt m = true -> cmp_ok t m = true ->
  cmp3_val t m a b = Some (cmp3_sign m (ordering t (cmp_un m) a b)).
Proof.
  intros Hm Hok. unfold cmp3_val, cmp_val.
  assert (Hok' : cmp_ok t (flip_un t m) = true) by (destruct t, m; done). rewrite Hok, Hok'.
  assert (Ho : ordering t (cmp_un (flip_un t m)) b a = CompOpp <$> ordering t (cmp_un m) a b).
  { rewrite (ordering_antisym t _ a b). f_equal. destruct (isFloatingPoint t) eqn:Hf.
    - apply ordering_fp; [done|]. by destruct t, m.
    - unfold flip_un. by rewrite Hf. }
  rewrite Ho. f_equal. destruct (isFloatingPoint t) eqn:Hf.
  - unfold flip_un. rewrite Hf. destruct m; try done; destruct (ordering _ _ a b) as [[]|]; done.
  - destruct (ordering_int t (cmp_un m) a b Hf) as [c ->]. unfold flip_un. rewrite Hf.
    destruct m; try done; by destruct c.
Qed.

(** ** Comparisons of operands *)

Lemma cmp_typed_comm t a b : cmp_typed t a b = cmp_typed t b a.
Proof.
  unfold cmp_typed. destruct (value_type t); [apply andb_comm|].
  destruct (is_address t); [apply andb_comm|f_equal; apply orb_comm].
Qed.

(** The comparison [m] of type [t] of two operands has the truth value [x]. *)
Definition compares (p : prog) (e : env) (t : Tag) (m : ComparisonModifier) (s1 s2 : Opnd) (x : bool) : Prop :=
  exists t1 v1 t2 v2, holds p e s1 t1 v1 /\ holds p e s2 t2 v2 /\
    cmp_typed t t1 t2 = true /\ cmp_val t m v1 v2 = Some x.

Lemma compares_mono p e p' e' t m s1 s2 x : extends p e p' e' ->
  compares p e t m s1 s2 x -> compares p' e' t m s1 s2 x.
Proof.
  intros Hx (t1 & v1 & t2 & v2 & H1 & H2 & H). exists t1, v1, t2, v2.
  split; [by eapply holds_mono|]. by split; [eapply holds_mono|].
Qed.

Section instructions.
Context (p : prog) (e : env) (Hm : models p e).

(** The types of compared numbers. *)
Lemma comparison_types t s1 s2 t1 v1 t2 v2 : holds p e s1 t1 v1 -> holds p e s2 t2 v2 ->
  cmp_typed t t1 t2 = true -> value_type t = true ->
  t1 = t /\ t2 = t /\ has_type t v1 /\ has_type t v2.
Proof.
  intros H1 H2 Ht Hv. unfold cmp_typed in Ht. rewrite Hv in Ht.
  apply andb_true_iff in Ht as [->%tag_eqb_eq ->%tag_eqb_eq].
  do 2 (split; [done|]). by split; eapply holds_type.
Qed.

(** What a comparison instruction says of the operand it defines. *)
Lemma cmp_holds_inst o i t v : holds p e o t v -> getInst p o = Some i ->
  i_opcode i = Op_Cmp \/ i_opcode i = Op_Cmp3 ->
  t = Int32 /\ exists m s1 s2 x, comparison_of (i_mod i) = Some m /\ i_srcs i = [s1; s2] /\
    compares p e (i_type i) m s1 s2 x /\
    (i_opcode i = Op_Cmp -> v = c_bool x) /\
    (i_opcode i = Op_Cmp3 -> is_gt m = true -> exists t1 v1 t2 v2,
       holds p e s1 t1 v1 /\ holds p e s2 t2 v2 /\ cmp_typed (i_type i) t1 t2 = true /\
       cmp_ok (i_type i) m = true /\
       v = cmp3_sign m (ordering (i_type i) (cmp_un m) v1 v2)).
Proof.
  intros Ho Hi Hop. destruct (holds_inst p e o t v Hm Ho) as (i' & Hi' & <- & vals & Hs & _ & Ht & _ & Hd).
  simplify_eq. unfold src_vals in Hs. apply mapM_Some in Hs.
  assert (Hty : exists m ta va tb vb, comparison_of (i_mod i) = Some m /\ vals = [(ta, va); (tb, vb)] /\
    i_dtype i = Int32 /\ cmp_ok (i_type i) m = true /\ cmp_typed (i_type i) ta tb = true).
  { unfold inst_typed in Ht. destruct Hop as [Hop|Hop]; rewrite Hop in Ht;
      (destruct (comparison_of (i_mod i)) as [m|]; [|done]);
      destruct vals as [|[ta va] [|[tb vb] [|]]]; try done; simpl in Ht;
      apply andb_true_iff in Ht as [[->%tag_eqb_eq ?]%andb_true_iff ?]; by exists m, ta, va, tb, vb. }
  destruct Hty as (m & ta & va & tb & vb & Hmod & -> & -> & Hok & Hct). split; [done|].
  inversion Hs as [|s1 x1 l1 l2 H1 Hs1 E1]; subst. inversion Hs1 as [|s2 x2 l3 l4 H2 Hs2 E2]; subst.
  inversion Hs2; subst.
  assert (Hcv : exists x, cmp_val (i_type i) m va vb = Some x) by (unfold cmp_val; rewrite Hok; by eexists).
  destruct Hcv as [x Hx]. exists m, s1, s2, x. do 2 (split; [done|]).
  split; [by exists ta, va, tb, vb|]. split.
  - intros Hc. apply Hd. unfold denote. by rewrite Hc, Hmod; simpl; rewrite Hx.
  - intros Hc Hg. exists ta, va, tb, vb. do 4 (split; [done|]). apply Hd. unfold denote.
    rewrite Hc, Hmod. simpl. by apply cmp3_val_sign.
Qed.

(** Constants of type [Int32], as the rules for comparisons of comparisons read them. *)
Lemma const_i4_holds o i v cv : holds p e o Int32 v -> getInst p o = Some i ->
  isConstant_cv i = Some cv -> v = get_i4 cv.
Proof.
  intros Ho Hi Hc. unfold isConstant_cv in Hc. destruct (isConst i) eqn:E; [|done]. simplify_eq.
  destruct (const_holds p e Hm o Int32 v i Ho Hi E) as [Ht Hv]. by apply Hv.
Qed.
End instructions.

(** The new comparison has the truth value of the old one. *)
Definition newcmp_ok (x : bool) (p : prog) (e : env) (r : option NewCmp) : Prop :=
  match r with
  | Some c => compares p e (newInstType c) (newmod c) (newSrc1 c) (newSrc2 c) x
  | None => True
  end.

(** ** Three-way comparisons that can have some of their results *)

(** Whether a result is one of those. *)
Definition can_be (canbe_1 canbe0 canbe1 : bool) (v : Z) : bool :=
  if v =? -1 then canbe_1 else if v =? 0 then canbe0 else canbe1.

(** The comparisons the source asks for: not all three results. *)
Definition proper_set (canbe_1 canbe0 canbe1 : bool) : bool :=
  (canbe_1 || canbe0 || canbe1) && negb (canbe_1 && canbe0 && canbe1).

Definition gt_cmp3 (p : prog) : Prop := forall o i m, getInst p o = Some i -> i_opcode i = Op_Cmp3 ->
  comparison_of (i_mod i) = Some m -> is_gt m = true.

Lemma simplifyCmp3ByResult_ok p e o i t v b_1 b0 b1 : models p e -> gt_cmp3 p ->
  holds p e o t v -> getInst p o = Some i -> i_opcode i = Op_Cmp3 -> proper_set b_1 b0 b1 = true ->
  wp (simplifyCmp3ByResult o b_1 b0 b1) p e (newcmp_ok (can_be b_1 b0 b1 v)).
Proof.
  intros Hm Hgt Ho Hi Hop Hset.
  destruct (cmp_holds_inst p e Hm o i t v Ho Hi (or_intror Hop)) as (-> & m & s1 & s2 & x & Hmod & Hs & _ & _ & H3).
  pose proof (Hgt o i m Hi Hop Hmod) as Hg.
  destruct (H3 Hop Hg) as (t1 & v1 & t2 & v2 & H1 & H2 & Hct & Hok & Hv).
  assert (Hct' : cmp_typed (i_type i) t2 t1 = true).
  { by rewrite cmp_typed_comm. }
  assert (Hy : forall m' (sw : bool), cmp_ok (i_type i) m' = true ->
    match ordering (i_type i) (cmp_un m') v1 v2 with
    | None => cmp_un m'
    | Some c => cmp_holds m' (if sw then CompOpp c else c)
    end = can_be b_1 b0 b1 v ->
    wp (gret (Some (MkNewCmp (i_type i) m' (if sw then s2 else s1) (if sw then s1 else s2)))) p e
      (newcmp_ok (can_be b_1 b0 b1 v))).
  { intros m' sw Hok' Hval. apply wp_ret; [done|]. simpl. unfold compares, cmp_val. destruct sw.
    - exists t2, v2, t1, v1. do 3 (split; [done|]). rewrite Hok', ordering_antisym. f_equal.
      rewrite <- Hval. by destruct (ordering (i_type i) (cmp_un m') v1 v2).
    - exists t1, v1, t2, v2. do 3 (split; [done|]). rewrite Hok'. by f_equal. }
  unfold simplifyCmp3ByResult. apply wp_bind. apply (wp_inst_of p e Hm o i); [done|]. intros _ _.
  apply wp_bind. unfold gassert, op_eqb. rewrite bool_decide_true by done. apply wp_ret; [done|]. intros _ _.
  apply wp_bind. apply (wp_opt _ m); [done|done|]. intros _ _.
  apply wp_bind. apply (wp_opt _ s1); [unfold getSrc; by rewrite Hs|done|]. intros _ _.
  apply wp_bind. apply (wp_opt _ s2); [unfold getSrc; by rewrite Hs|done|]. intros _ _.
  assert (Hord : exists os ou, ordering (i_type i) false v1 v2 = os /\ ordering (i_type i) true v1 v2 = ou /\
    orders_agree (isFloatingPoint (i_type i)) os ou).
  { do 2 eexists. do 2 (split; [done|]). apply ordering_agree. intros Hvt.
    by destruct (comparison_types p e Hm _ _ _ _ _ _ _ H1 H2 Hct Hvt) as (_ & _ & ? & ?). }
  destruct Hord as (os & ou & Hos & Hou & Hag). rewrite Hv in *. clear Hv v.
  assert (Hfact : forall m' sw, cmp_ok (i_type i) m' = true ->
    match (if cmp_un m' then ou else os) with
    | None => cmp_un m'
    | Some c => cmp_holds m' (if (sw : bool) then CompOpp c else c)
    end = can_be b_1 b0 b1 (cmp3_sign m (if cmp_un m then ou else os)) ->
    wp (gret (Some (MkNewCmp (i_type i) m' (if sw then s2 else s1) (if sw then s1 else s2)))) p e
      (newcmp_ok (can_be b_1 b0 b1 (cmp3_sign m (ordering (i_type i) (cmp_un m) v1 v2))))).
  { intros m' sw Hok' Hval. apply Hy; [done|]. by destruct (cmp_un m'), (cmp_un m); rewrite ?Hos, ?Hou in *. }
  assert (Hoks : forall m', (m' = Cmp_EQ \/ m' = Cmp_NE_Un \/ cmp_un m' = cmp_un m \/ isFloatingPoint (i_type i) = true) ->
    cmp_binary m' = true -> cmp_ok (i_type i) m' = true).
  { intros m'. destruct m; try done; destruct (i_type i); try done; destruct m'; try done; simpl; intuition discriminate. }
  clear Hy Hos Hou Hgt Hmod.
  destruct m; try done; destruct (isFloatingPoint (i_type i)) eqn:Hfp; simpl in Hag;
    destruct b_1, b0, b1; try done;
    (apply (Hfact _ false) || apply (Hfact _ true)); try (apply Hoks; simpl; tauto); simpl;
    try (subst ou; by destruct os as [[]|]).
  all: destruct Hag as (c & c' & -> & -> & Hc); destruct c, c'; simpl; try done; exfalso;
    (discriminate (proj1 Hc eq_refl) || discriminate (proj2 Hc eq_refl)).
Qed.

(** ** Comparisons with a constant *)

(** The value of a comparison of two [Int32] operands. *)
Lemma compares_i4 p e m s1 s2 x t1 v1 t2 v2 : holds p e s1 t1 v1 -> holds p e s2 t2 v2 ->
  compares p e Int32 m s1 s2 x -> t1 = Int32 /\ t2 = Int32 /\ cmp_val Int32 m v1 v2 = Some x.
Proof.
  intros H1 H2 (t1' & v1' & t2' & v2' & H1' & H2' & Ht & Hx).
  destruct (holds_fun p e _ _ _ _ _ H1 H1') as [-> ->], (holds_fun p e _ _ _ _ _ H2 H2') as [-> ->].
  unfold cmp_typed in Ht. simpl in Ht. by apply andb_true_iff in Ht as [->%tag_eqb_eq ->%tag_eqb_eq].
Qed.

(** The truth of a comparison of machine integers, by arithmetic. *)
Lemma cmp_val_i4 m a b : cmp_binary m = true ->
  cmp_val Int32 m a b = Some (match m with
    | Cmp_EQ => a =? b | Cmp_NE_Un => negb (ux 32 a =? ux 32 b)
    | Cmp_GT => b <? a | Cmp_GT_Un => ux 32 b <? ux 32 a
    | Cmp_GTE => b <=? a | _ => ux 32 b <=? ux 32 a
    end).
Proof.
  intros Hb. unfold cmp_val, ordering. destruct m; try done; simpl; f_equal.
  - by destruct (Z.compare_spec a b), (Z.eqb_spec a b); try lia.
  - by destruct (Z.compare_spec (ux 32 a) (ux 32 b)), (Z.eqb_spec (ux 32 a) (ux 32 b)); try lia.
  - by destruct (Z.compare_spec a b), (Z.ltb_spec b a); try lia.
  - by destruct (Z.compare_spec (ux 32 a) (ux 32 b)), (Z.ltb_spec (ux 32 b) (ux 32 a)); try lia.
  - by destruct (Z.compare_spec a b), (Z.leb_spec b a); try lia.
  - by destruct (Z.compare_spec (ux 32 a) (ux 32 b)), (Z.leb_spec (ux 32 b) (ux 32 a)); try lia.
Qed.

Definition sign_value (v : Z) : Prop := v = -1 \/ v = 0 \/ v = 1.

Lemma cmp3_sign_value m o : sign_value (cmp3_sign m o).
Proof. unfold sign_value. destruct o as [[]|]; simpl; auto. destruct (cmp_un m); auto. Qed.

Lemma ux32_small a : 0 <= a < 2 ^ 31 -> ux 32 a = a.
Proof. intros. apply ux_id. unfold is_u. lia. Qed.

Lemma ux32_neg a : - 2 ^ 31 <= a < 0 -> ux 32 a = a + 2 ^ 32.
Proof. intros. unfold ux. symmetry. apply (Z.mod_unique _ _ (-1)); lia. Qed.

(** Reading a test on a constant as arithmetic. *)
Ltac const_cases :=
  repeat match goal with
  | H : (_ && _) = true |- _ => apply andb_true_iff in H as [? ?]
  | H : (_ || _) = true |- _ => apply orb_true_iff in H as [? | ?]
  | H : cmp_is ?m _ = true |- _ => apply cmp_is_eq in H; subst m
  | H : (_ =? _) = true |- _ => apply Z.eqb_eq in H
  end; try discriminate.

(** A comparison of integers by their values, [v] one of the results of a
    three-way comparison and [val] any constant. *)
Ltac sign_cases Hv val :=
  rewrite cmp_val_i4 by done; f_equal; destruct Hv as [-> | [-> | ->]]; 
  destruct (Z.lt_ge_cases val 0); rewrite ?(ux32_neg val), ?(ux32_small val) by lia;
  rewrite ?(ux32_neg (-1)), ?(ux32_small 0), ?(ux32_small 1) by lia; unfold can_be;
  change (-1 =? -1) with true; change (0 =? -1) with false; change (1 =? -1) with false;
  change (0 =? 0) with true; change (1 =? 0) with false; cbv iota; lia.

(** The two tables list the results for which the comparison holds. *)
Lemma cmp3_results_r_ok m val b_1 b0 b1 v : is_s 32 val -> sign_value v ->
  cmp3_results_r m val = Some (b_1, b0, b1) ->
  proper_set b_1 b0 b1 = true /\ cmp_val Int32 m v val = Some (can_be b_1 b0 b1 v).
Proof.
  unfold is_s. simpl. intros Hr Hv Hres. unfold cmp3_results_r in Hres.
  repeat case_match; simplify_eq; (split; [done|]); const_cases; sign_cases Hv val.
Qed.

Lemma cmp3_results_l_ok m val b_1 b0 b1 v : is_s 32 val -> sign_value v ->
  cmp3_results_l m val = Some (b_1, b0, b1) ->
  proper_set b_1 b0 b1 = true /\ cmp_val Int32 m val v = Some (can_be b_1 b0 b1 v).
Proof.
  unfold is_s. simpl. intros Hr Hv Hres. unfold cmp3_results_l in Hres.
  repeat case_match; simplify_eq; (split; [done|]); const_cases; sign_cases Hv val.
Qed.

(** Looking at the operands of a comparison. *)
Lemma compares_insts p e t m s1 s2 x : models p e -> compares p e t m s1 s2 x ->
  exists i1 i2, getInst p s1 = Some i1 /\ getInst p s2 = Some i2.
Proof.
  intros Hm (t1 & v1 & t2 & v2 & H1 & H2 & _).
  destruct (holds_getInst p e Hm s1 t1 v1 H1) as [i1 ?], (holds_getInst p e Hm s2 t2 v2 H2) as [i2 ?].
  by exists i1, i2.
Qed.

Lemma is_op i o : op_eqb (i_opcode i) o = true -> i_opcode i = o.
Proof. apply bool_decide_eq_true. Qed.

Lemma get_i4_range cv : is_s 32 (get_i4 cv).
Proof. by apply sx_range. Qed.

Section compare_constants.
Context (p : prog) (e : env) (Hm : models p e).

Lemma simplifyCmpOfCmp3_ok m s1 s2 x : gt_cmp3 p -> compares p e Int32 m s1 s2 x ->
  wp (simplifyCmpOfCmp3 m s1 s2) p e (newcmp_ok x).
Proof.
  intros Hgt Hc. destruct (compares_insts p e _ _ _ _ _ Hm Hc) as (i1 & i2 & Hi1 & Hi2).
  pose proof Hc as (t1 & v1 & t2 & v2 & H1 & H2 & _).
  destruct (compares_i4 p e m s1 s2 x t1 v1 t2 v2 H1 H2 Hc) as (-> & -> & Hx).
  unfold simplifyCmpOfCmp3. apply wp_bind. apply (wp_inst_of p e Hm s1 i1); [done|]. intros _ _.
  apply wp_bind. apply (wp_inst_of p e Hm s2 i2); [done|]. intros _ _.
  assert (Hsign : forall o i v, holds p e o Int32 v -> getInst p o = Some i -> op_eqb (i_opcode i) Op_Cmp3 = true ->
    sign_value v).
  { intros o i v Ho Hi Hop%is_op.
    destruct (cmp_holds_inst p e Hm o i _ v Ho Hi (or_intror Hop)) as (_ & m' & ? & ? & ? & Hm' & _ & _ & _ & H3).
    destruct (H3 Hop (Hgt o i m' Hi Hop Hm')) as (? & ? & ? & ? & _ & _ & _ & _ & ->). apply cmp3_sign_value. }
  destruct (op_eqb (i_opcode i1) Op_Cmp3) eqn:E1; [|destruct (op_eqb (i_opcode i2) Op_Cmp3) eqn:E2; [|by apply wp_ret]].
  - destruct (isConstant_cv i2) as [cv|] eqn:Hcv; [|by apply wp_ret].
    rewrite (const_i4_holds p e Hm s2 i2 v2 cv H2 Hi2 Hcv) in Hx.
    destruct (cmp3_results_r m (get_i4 cv)) as [[[b_1 b0] b1]|] eqn:Hr; [|by apply wp_ret].
    destruct (cmp3_results_r_ok m _ b_1 b0 b1 v1 (get_i4_range cv) (Hsign _ _ _ H1 Hi1 E1) Hr) as [Hp Hv].
    rewrite Hv in Hx. simplify_eq. by apply (simplifyCmp3ByResult_ok p e s1 i1 Int32); [| | | |apply is_op|].
  - destruct (isConstant_cv i1) as [cv|] eqn:Hcv; [|by apply wp_ret].
    rewrite (const_i4_holds p e Hm s1 i1 v1 cv H1 Hi1 Hcv) in Hx.
    destruct (cmp3_results_l m (get_i4 cv)) as [[[b_1 b0] b1]|] eqn:Hr; [|by apply wp_ret].
    destruct (cmp3_results_l_ok m _ b_1 b0 b1 v2 (get_i4_range cv) (Hsign _ _ _ H2 Hi2 E2) Hr) as [Hp Hv].
    rewrite Hv in Hx. simplify_eq. by apply (simplifyCmp3ByResult_ok p e s2 i2 Int32); [| | | |apply is_op|].
Qed.

(** The truth of a comparison of 0 or 1 with 0 or 1. *)
Ltac clone_case Hx Hok y :=
  match goal with H : get_i4 _ = _ |- _ => rewrite H in Hx end;
  destruct y; vm_compute in Hx; simplify_eq; exact Hok.

Lemma wp_clone (neg : bool) o i t v (x : bool) Q : holds p e o t v -> getInst p o = Some i -> i_opcode i = Op_Cmp ->
  v = c_bool x ->
  (forall c : NewCmp, newcmp_ok (if neg then negb x else x) p e (Some c) -> Q p e c) ->
  wp (cloneComparison neg o) p e Q.
Proof.
  intros Ho Hi Hop Hv HQ.
  destruct (cmp_holds_inst p e Hm o i t v Ho Hi (or_introl Hop)) as (-> & m & s1 & s2 & y & Hmod & Hs & Hy & Hvy & _).
  assert (y = x) as -> by (rewrite (Hvy Hop) in Hv; by destruct x, y).
  unfold cloneComparison. apply wp_bind. apply (wp_inst_of p e Hm o i); [done|]. intros _ _.
  apply wp_bind. apply (wp_opt _ m); [done|done|]. intros _ _.
  apply wp_bind. apply (wp_opt _ s1); [unfold getSrc; by rewrite Hs|done|]. intros _ _.
  apply wp_bind. apply (wp_opt _ s2); [unfold getSrc; by rewrite Hs|done|]. intros _ _.
  destruct neg; [|apply wp_ret; [done|by apply HQ]].
  assert (Hneg : newcmp_ok (negb x) p e (Some (MkNewCmp (i_type i) (negation (i_type i) m) s2 s1))).
  { destruct Hy as (t1 & v1 & t2 & v2 & H1 & H2 & Ht & Hx). exists t2, v2, t1, v1. do 2 (split; [done|]). split.
    - simpl. by rewrite cmp_typed_comm.
    - apply cmp_val_negate; [|done]. intros Hvt.
      by destruct (comparison_types p e Hm _ _ _ _ _ _ _ H1 H2 Ht Hvt) as (_ & _ & ? & ?). }
  assert (Hb : cmp_binary m = true).
  { destruct Hy as (? & ? & ? & ? & _ & _ & _ & Hx). unfold cmp_val in Hx. by destruct m. }
  unfold negation in Hneg.
  destruct (isFloatingPoint (i_type i)); destruct m; try done; apply wp_ret; auto.
Qed.

(** The tests of [simplifyCmpOfCmp] on a comparison's value 0 or 1 and a constant. *)
Lemma simplifyCmpOfCmp_ok m s1 s2 x i1 i2 : compares p e Int32 m s1 s2 x ->
  getInst p s1 = Some i1 -> getInst p s2 = Some i2 ->
  op_eqb (i_opcode i1) Op_Cmp || op_eqb (i_opcode i2) Op_Cmp = true ->
  wp (simplifyCmpOfCmp m s1 s2) p e (newcmp_ok x).
Proof.
  intros Hc Hi1 Hi2 Hops.
  pose proof Hc as (t1 & v1 & t2 & v2 & H1 & H2 & _).
  destruct (compares_i4 p e m s1 s2 x t1 v1 t2 v2 H1 H2 Hc) as (-> & -> & Hx).
  assert (Hbool : forall o i v, holds p e o Int32 v -> getInst p o = Some i -> i_opcode i = Op_Cmp ->
    exists y : bool, v = c_bool y).
  { intros o i v Ho Hi Hop. destruct (cmp_holds_inst p e Hm o i _ v Ho Hi (or_introl Hop)) as (_ & ? & ? & ? & y & _ & _ & _ & Hy & _).
    exists y. by apply Hy. }
  assert (Hcc : forall i cv, isConstant_cv i = Some cv -> i_opcode i <> Op_Cmp).
  { intros i cv Hcv Hop. unfold isConstant_cv, isConst, op_eqb in Hcv. by rewrite Hop in Hcv. }
  unfold simplifyCmpOfCmp. apply wp_bind. apply (wp_inst_of p e Hm s1 i1); [done|]. intros _ _.
  apply wp_bind. apply (wp_inst_of p e Hm s2 i2); [done|]. intros _ _.
  apply orb_true_iff in Hops.
  destruct (isConstant_cv i1) as [cv|] eqn:Hcv1; [|destruct (isConstant_cv i2) as [cv|] eqn:Hcv2; [|by apply wp_ret]].
  - assert (Hop : i_opcode i2 = Op_Cmp) by (destruct Hops as [E%is_op|E%is_op]; [by destruct (Hcc i1 cv)|done]).
    destruct (Hbool s2 i2 v2 H2 Hi2 Hop) as [y Hy]. rewrite (const_i4_holds p e Hm s1 i1 v1 cv H1 Hi1 Hcv1) in Hx.
    assert (Hx' := Hx). rewrite Hy in Hx'. rewrite Hy in H2.
    repeat case_match; try (by apply wp_ret); apply wp_bind;
      apply (wp_clone _ s2 i2 Int32 _ y _ H2 Hi2 Hop eq_refl); intros c Hok _ _; (apply wp_ret; [done|]);
      const_cases; clone_case Hx' Hok y.
  - assert (Hop : i_opcode i1 = Op_Cmp) by (destruct Hops as [E%is_op|E%is_op]; [done|by destruct (Hcc i2 cv)]).
    destruct (Hbool s1 i1 v1 H1 Hi1 Hop) as [y Hy]. rewrite (const_i4_holds p e Hm s2 i2 v2 cv H2 Hi2 Hcv2) in Hx.
    assert (Hx' := Hx). rewrite Hy in Hx'. rewrite Hy in H1.
    repeat case_match; try (by apply wp_ret); apply wp_bind;
      apply (wp_clone _ s1 i1 Int32 _ y _ H1 Hi1 Hop eq_refl); intros c Hok _ _; (apply wp_ret; [done|]);
      const_cases; clone_case Hx' Hok y.
Qed.
End compare_constants.

(** ** Comparisons *)

Lemma cmp_typed_i4 t a b : cmp_typed t a b = true -> a = Int32 \/ b = Int32 -> t = Int32.
Proof.
  unfold cmp_typed. destruct (value_type t) eqn:Hv.
  - intros [->%tag_eqb_eq ->%tag_eqb_eq]%andb_true_iff. tauto.
  - destruct (is_address t); intros H [-> | ->]; rewrite ?andb_false_r, ?orb_true_r in H; done.
Qed.

(** Folding two constants. *)
Lemma get_i4_bool res b : get_i4 (set_i4 res (c_bool b)) = c_bool b.
Proof. rewrite get_set_i4. by destruct b. Qed.

Lemma foldCmp_val t m cv1 cv2 res v1 v2 x : const_val t cv1 = Some v1 -> const_val t cv2 = Some v2 ->
  cmp_val t m v1 v2 = Some x ->
  forall r, foldCmp t m cv1 cv2 res = (true, r) -> get_i4 r = c_bool x.
Proof.
  intros H1 H2 Hx r Hf. assert (Hb : cmp_binary m = true) by (unfold cmp_val in Hx; by destruct m).
  assert (Hv : value_type t = true) by (destruct t; try done; discriminate Hf).
  pose proof (const_val_type _ _ _ Hv H1) as T1. pose proof (const_val_type _ _ _ Hv H2) as T2.
  unfold cmp_val, ordering in Hx. destruct (cmp_ok t m); [|done].
  destruct t; try done; simpl in *; simplify_eq; unfold ret_i4 in Hf;
    unfold foldCmp32, foldCmp64, foldCmpSingle, foldCmpDouble in Hf;
    rewrite ?(fold_cmp_spec 32), ?(fold_cmp_spec 64), ?fold_cmp_fp_spec in Hf by done;
    simplify_eq; by rewrite get_i4_bool.
Qed.

Lemma wp_genCmp p e t m s1 s2 x : models p e -> compares p e t m s1 s2 x ->
  wp (genCmp Int32 t m s1 s2) p e (fun p' e' o => holds p' e' o Int32 (c_bool x)).
Proof.
  intros Hm (t1 & v1 & t2 & v2 & H1 & H2 & Ht & Hx). unfold genCmp.
  assert (Hok : cmp_ok t m = true) by (unfold cmp_val in Hx; by destruct (cmp_ok t m)).
  apply (wp_insert _ [(t1, v1); (t2, v2)] (c_bool x)); try done.
  - unfold src_vals. simpl. unfold holds in *. by rewrite H1, H2.
  - unfold denote. simpl. rewrite comparison_of_bits. simpl. by rewrite Hx.
  - unfold inst_typed. simpl. by rewrite comparison_of_bits, Hok, Ht.
  - simpl. by destruct x.
Qed.

Section simplify_comparisons.
Context (P elim_cmp3 : bool) (p : prog) (e : env) (Hm : models p e).

Lemma simplifyCmpToCmp_ok t m s1 s2 x : gt_cmp3 p -> compares p e t m s1 s2 x ->
  wp (simplifyCmpToCmp elim_cmp3 t m s1 s2) p e (newcmp_ok x).
Proof.
  intros Hgt Hc. unfold simplifyCmpToCmp. apply wp_bind.
  assert (H3 : wp (if elim_cmp3 && tag_eqb t Int32 then simplifyCmpOfCmp3 m s1 s2 else gret None) p e (newcmp_ok x)).
  { destruct (elim_cmp3 && tag_eqb t Int32) eqn:E; [|by apply wp_ret].
    apply andb_true_iff in E as [_ ->%tag_eqb_eq]. by apply simplifyCmpOfCmp3_ok. }
  eapply wp_mono; [exact H3|]. intros p' e' r Hx Hm' Hr _ _.
  destruct r as [c|]; [by apply wp_ret|]. apply (compares_mono _ _ _ _ _ _ _ _ _ Hx) in Hc.
  destruct (compares_insts p' e' _ _ _ _ _ Hm' Hc) as (i1 & i2 & Hi1 & Hi2).
  apply wp_bind. apply (wp_inst_of p' e' Hm' s1 i1); [done|]. intros _ _.
  apply wp_bind. apply (wp_inst_of p' e' Hm' s2 i2); [done|]. intros _ _.
  destruct (op_eqb (i_opcode i1) Op_Cmp || op_eqb (i_opcode i2) Op_Cmp) eqn:Hops; [|by apply wp_ret].
  assert (t = Int32) as ->; [|by apply (simplifyCmpOfCmp_ok p' e' Hm' m s1 s2 x i1 i2)].
  destruct Hc as (t1 & v1 & t2 & v2 & H1 & H2 & Ht & _).
  assert (Hv : t1 = Int32 \/ t2 = Int32).
  { apply orb_true_iff in Hops as [E%is_op|E%is_op].
    - destruct (cmp_holds_inst p' e' Hm' s1 i1 t1 v1 H1 Hi1 (or_introl E)) as [-> _]. by left.
    - destruct (cmp_holds_inst p' e' Hm' s2 i2 t2 v2 H2 Hi2 (or_introl E)) as [-> _]. by right. }
  by apply (cmp_typed_i4 t t1 t2).
Qed.

(** The constant zero is below every number as an unsigned one. *)
Lemma isConstantZero_cmp o t v : holds p e o t v -> value_type t || is_address t = true ->
  isConstantZero p o = true -> v = 0 /\ isFloatingPoint t = false.
Proof.
  intros Ho Ht Hz. pose proof Hz as (i & Hi & Hc & Hf)%const_test_inst.
  destruct (const_holds p e Hm o t v i Ho Hi Hc) as [Hty Hv]. unfold isConstantZero_inst in Hf. rewrite Hty in Hf.
  pose proof (holds_type p e o t v Hm Ho) as Ht'.
  destruct t; try done; simpl in *; (split; [|done]); try done; apply Hv; f_equal; by apply Z.eqb_eq.
Qed.

Lemma ordering_zero t v : isFloatingPoint t = false -> (arith_width t = None -> 0 <= v) ->
  exists c, ordering t true 0 v = Some c /\ c <> Gt.
Proof.
  intros Hf Hv. unfold ordering. destruct (arith_width t) as [w|] eqn:Hw.
  - eexists. split; [done|]. destruct (arith_width_pos t w Hw) as [Hp _].
    pose proof (ux_range w v ltac:(lia)) as [Hr _]. rewrite (ux_id w 0) by (unfold is_u; pose proof (pow2_pos w); lia).
    by apply Z.compare_le_iff.
  - destruct (fp_format t) as [F|] eqn:HF; [by destruct (fp_width t F HF) as [_ ?]; congruence|].
    eexists. split; [done|]. apply Z.compare_le_iff. by apply Hv.
Qed.

(** The type of an operand compared at type [t], a number's or an address's. *)
Definition compared (t t' : Tag) : Prop :=
  if value_type t then t' = t else is_address t = true /\ is_address t' = true.

Lemma cmp_typed_compared t m a b : cmp_ok t m = true -> cmp_un m = true -> is_equality m = false ->
  cmp_typed t a b = true -> compared t a /\ compared t b.
Proof.
  unfold compared, cmp_typed. intros Hok Hu He Ht. destruct (value_type t) eqn:Hv.
  - by apply andb_true_iff in Ht as [->%tag_eqb_eq ->%tag_eqb_eq].
  - assert (Ha : is_address t = true) by (unfold cmp_ok in Hok; rewrite Hv, He, Hu in Hok; by destruct (cmp_binary m)).
    rewrite Ha in *. by apply andb_true_iff in Ht as [-> ->].
Qed.

Lemma compared_nonneg t o t' v : holds p e o t' v -> compared t t' -> arith_width t = None ->
  isFloatingPoint t = false -> 0 <= v.
Proof.
  unfold compared. intros Ho Hc Hw Hf. pose proof (holds_type p e _ _ _ Hm Ho) as Hty.
  destruct (value_type t) eqn:E; [by destruct t|]. destruct Hc as [_ Ha].
  destruct t'; try done; simpl in Hty; unfold is_u in Hty; lia.
Qed.

Lemma compared_zero t o t' v : holds p e o t' v -> compared t t' -> isConstantZero p o = true ->
  v = 0 /\ isFloatingPoint t = false.
Proof.
  unfold compared. intros Ho Hc Hz.
  destruct (isConstantZero_cmp o t' v Ho) as [-> Hfp]; [|done|split; [done|]].
  - destruct (value_type t) eqn:E; [by rewrite Hc, E|destruct Hc as [_ ->]; apply orb_true_r].
  - destruct (value_type t); [by rewrite <- Hc|by destruct t, Hc].
Qed.

Lemma zero_below t m s1 s2 x : compares p e t m s1 s2 x ->
  (m = Cmp_GT_Un -> isConstantZero p s1 = true -> x = false) /\
  (m = Cmp_GTE_Un -> isConstantZero p s2 = true -> x = true).
Proof.
  intros (t1 & v1 & t2 & v2 & H1 & H2 & Ht & Hx). unfold cmp_val in Hx.
  destruct (cmp_ok t m) eqn:Hok; [|done]. simplify_eq.
  split; intros -> Hzero; destruct (cmp_typed_compared t _ _ _ Hok eq_refl eq_refl Ht) as [K1 K2]; simpl.
  - destruct (compared_zero t s1 t1 v1 H1 K1 Hzero) as [-> Hfp].
    destruct (ordering_zero t v2 Hfp) as (c & -> & Hc); [|by destruct c].
    intros Hw. by eapply compared_nonneg.
  - destruct (compared_zero t s2 t2 v2 H2 K2 Hzero) as [-> Hfp]. rewrite ordering_antisym.
    destruct (ordering_zero t v1 Hfp) as (c & -> & Hc); [|by destruct c].
    intros Hw. by eapply compared_nonneg.
Qed.

(** A comparison of an operand with itself. *)
Lemma ordering_refl t un v : fp_format t = None -> ordering t un v v = Some Eq.
Proof.
  intros Hf. unfold ordering. rewrite Hf.
  destruct (arith_width t); [destruct un|]; by rewrite Z.compare_refl.
Qed.

Lemma identical_cmp_ok t m s x : isFloatingPoint t = false -> compares p e t m s s x ->
  wp (identical_cmp m) p e (result_ok Int32 (Some (c_bool x))).
Proof.
  intros Hf (t1 & v1 & t2 & v2 & H1 & H2 & _ & Hx). destruct (holds_fun p e _ _ _ _ _ H1 H2) as [-> ->].
  assert (Ho : forall un, ordering t un v2 v2 = Some Eq).
  { intros un. apply ordering_refl. by destruct t. }
  unfold cmp_val in Hx. destruct (cmp_ok t m) eqn:Hok; [|done]. rewrite Ho in Hx. simplify_eq.
  unfold identical_cmp.
  destruct m; try (by destruct t); apply wp_bind; apply wp_genLdConstant_i4; try done;
    intros p' e' o Hx Hh _ Hm'; apply wp_ret; try done; intros ? [= <-]; done.
Qed.

(** Two constant operands: the fold of their values. *)
Lemma foldCmp_compares t m s1 s2 i1 i2 x res r : compares p e t m s1 s2 x ->
  getInst p s1 = Some i1 -> getInst p s2 = Some i2 -> isConst i1 = true -> isConst i2 = true ->
  foldCmp t m (i_value i1) (i_value i2) res = (true, r) -> get_i4 r = c_bool x.
Proof.
  intros (t1 & v1 & t2 & v2 & H1 & H2 & Ht & Hx) Hi1 Hi2 Hc1 Hc2 Hf.
  destruct (const_holds p e Hm s1 t1 v1 i1 H1 Hi1 Hc1) as [_ C1].
  destruct (const_holds p e Hm s2 t2 v2 i2 H2 Hi2 Hc2) as [_ C2].
  assert (Hvt : value_type t = true) by (destruct t; try done; discriminate Hf).
  destruct (comparison_types p e Hm _ _ _ _ _ _ _ H1 H2 Ht Hvt) as (-> & -> & _).
  assert (Hcv : forall cv, exists y, const_val t cv = Some y) by (destruct t; try done; by eexists).
  destruct (Hcv (i_value i1)) as [y1 Y1], (Hcv (i_value i2)) as [y2 Y2].
  rewrite (C1 _ Y1), (C2 _ Y2) in Hx. exact (foldCmp_val t m _ _ res _ _ x Y1 Y2 Hx r Hf).
Qed.

Lemma wp_constant v b Q : (forall p' e' o, extends p e p' e' -> models p' e' -> holds p' e' o Int32 (sx 32 v) -> Q p' e' (Some o)) ->
  b = v -> wp (let* r := genLdConstant_i4 b in gret (Some r)) p e Q.
Proof.
  intros HQ ->. apply wp_bind. apply wp_genLdConstant_i4; [done|].
  intros p' e' o Hx Ho _ Hm'. apply wp_ret; [done|]. by apply HQ.
Qed.

(** A constant is the result when it is the value. *)
Lemma wp_result v y : sx 32 v = y ->
  wp (let* r := genLdConstant_i4 v in gret (Some r)) p e (result_ok Int32 (Some y)).
Proof. intros <-. apply (wp_constant v); [|done]. intros p' e' o _ _ Ho z Hz. by simplify_eq. Qed.

Lemma foldComparison_ok t m s1 s2 i1 i2 x : compares p e t m s1 s2 x ->
  getInst p s1 = Some i1 -> getInst p s2 = Some i2 -> isConst i1 = true -> isConst i2 = true ->
  wp (foldComparison m t i1 i2) p e (result_ok Int32 (Some (c_bool x))).
Proof.
  intros Hc Hi1 Hi2 Hc1 Hc2. unfold foldComparison.
  destruct (foldCmp t m (i_value i1) (i_value i2) cv_zero) as [ok res] eqn:Hf.
  destruct ok; [|by apply wp_ret]. apply wp_result.
  rewrite (foldCmp_compares t m s1 s2 i1 i2 x cv_zero res); [by destruct x|done..].
Qed.

(** C23: Simplifying a comparison of numbers or of addresses, in a program whose operands
    have values and whose three-way comparisons all have a greater-than modifier, as the
    translator makes them: it does not fail, and the operand it returns has the truth
    value of the comparison; comparisons of comparisons and of such three-way comparisons
    with constants are included. With a three-way comparison of another modifier the truth
    value can change ([SimplifyCmpOk.cmp3_gte_wrong]). *)
Theorem simplifyCmp_value t m s1 s2 x : gt_cmp3 p -> compares p e t m s1 s2 x ->
  wp (simplifyCmp elim_cmp3 Int32 t m s1 s2) p e (result_ok Int32 (Some (c_bool x))).
Proof.
  intros Hgt Hc. destruct (compares_insts p e _ _ _ _ _ Hm Hc) as (i1 & i2 & Hi1 & Hi2). unfold simplifyCmp.
  do 4 (apply wp_bind; apply wp_get; [done|]; intros _ _).
  match goal with |- wp (if _ then _ else if _ then _ else ?k) _ _ _ =>
    assert (Hrest : wp k p e (result_ok Int32 (Some (c_bool x)))) end.
  { destruct ((s1 =? s2)%nat && negb (isFloatingPoint t)) eqn:E.
    - apply andb_true_iff in E as [->%Nat.eqb_eq Hf%negb_true_iff]. by eapply identical_cmp_ok.
    - apply wp_bind. eapply wp_mono; [by apply (simplifyCmpToCmp_ok t m s1 s2 x)|].
      intros p' e' [c|] _ Hm' Hr _ _; [|by apply wp_ret].
      apply wp_bind. eapply wp_mono; [by apply (wp_genCmp _ _ _ _ _ _ x)|]. intros p2 e2 o _ Hm2 Ho _ _.
      apply wp_ret; [done|]. intros ? [= <-]. done. }
  destruct (zero_below t m s1 s2 x Hc) as [Z1 Z2].
  destruct (isConstant p s1) eqn:C1.
  - destruct (isConstant p s2) eqn:C2.
    + apply wp_bind. apply (wp_inst_of p e Hm s1 i1); [done|]. intros _ _.
      apply wp_bind. apply (wp_inst_of p e Hm s2 i2); [done|]. intros _ _.
      unfold isConstant in C1, C2. rewrite Hi1 in C1. rewrite Hi2 in C2. by eapply foldComparison_ok.
    + destruct (isConstantZero p s1 && _ && _) eqn:E; [|done].
      apply andb_true_iff in E as [[Hz ->%cmp_is_eq]%andb_true_iff _].
      rewrite (Z1 eq_refl Hz). by apply wp_result.
  - destruct (isConstantZero p s2 && _ && _) eqn:E; [|done].
    apply andb_true_iff in E as [[Hz ->%cmp_is_eq]%andb_true_iff _].
    rewrite (Z2 eq_refl Hz). by apply wp_result.
Qed.

(** A three-way comparison of operands, with any modifier. *)
Definition compares3 (t : Tag) (m : ComparisonModifier) (s1 s2 : Opnd) (y : Z) : Prop :=
  exists x1 x2, compares p e t m s1 s2 x1 /\ compares p e t (flip_un t m) s2 s1 x2 /\
    y = (if (x1 : bool) then 1 else if (x2 : bool) then -1 else 0).

Lemma compares_fun t m s1 s2 x x' : compares p e t m s1 s2 x -> compares p e t m s1 s2 x' -> x = x'.
Proof.
  intros (t1 & v1 & t2 & v2 & H1 & H2 & _ & Hx) (t1' & v1' & t2' & v2' & H1' & H2' & _ & Hx').
  destruct (holds_fun p e _ _ _ _ _ H1 H1') as [-> ->], (holds_fun p e _ _ _ _ _ H2 H2') as [-> ->]. congruence.
Qed.

Theorem simplifyCmp3_value t m s1 s2 y : compares3 t m s1 s2 y ->
  wp (simplifyCmp3 Int32 t m s1 s2) p e (result_ok Int32 (Some y)).
Proof.
  intros (x1 & x2 & Hc1 & Hc2 & ->). destruct (compares_insts p e _ _ _ _ _ Hm Hc1) as (i1 & i2 & Hi1 & Hi2).
  unfold simplifyCmp3. do 2 (apply wp_bind; apply wp_get; [done|]; intros _ _).
  match goal with |- wp (if _ then _ else ?k) _ _ ?Q => assert (Hrest : wp k p e Q) end.
  { destruct ((s1 =? s2)%nat && negb (isFloatingPoint t)) eqn:E; [|by apply wp_ret].
    apply andb_true_iff in E as [->%Nat.eqb_eq Hf%negb_true_iff].
    unfold flip_un in Hc2. rewrite Hf in Hc2. rewrite (compares_fun t m s2 s2 x2 x1 Hc2 Hc1).
    replace (if x1 then 1 else if x1 then -1 else 0) with (c_bool x1) by (by destruct x1).
    by eapply identical_cmp_ok. }
  destruct (isConstant p s1 && isConstant p s2) eqn:Hcc; [|done].
  apply andb_true_iff in Hcc as [C1 C2]. unfold isConstant in C1, C2. rewrite Hi1 in C1. rewrite Hi2 in C2.
  apply wp_bind. apply (wp_inst_of p e Hm s1 i1); [done|]. intros _ _.
  apply wp_bind. apply (wp_inst_of p e Hm s2 i2); [done|]. intros _ _.
  destruct (foldCmp t m (i_value i1) (i_value i2) cv_zero) as [ok res] eqn:Hf. destruct ok; [|done].
  rewrite (foldCmp_compares t m s1 s2 i1 i2 x1 cv_zero res) by done.
  destruct x1; simpl; [by apply wp_result|].
  destruct (foldCmp t _ (i_value i2) (i_value i1) res) as [ok2 res2] eqn:Hf2. destruct ok2; [|done].
  rewrite (foldCmp_compares t (flip_un t m) s2 s1 i2 i1 x2 res res2) by done.
  destruct x2; simpl; by apply wp_result.
Qed.
End simplify_comparisons.

(** The three-way comparisons of Java. *)
Lemma cmp3_java a b :
  cmp3_val Int64 Cmp_GT a b = Some (java_cmp a b) /\
  (forall t F, fp_format t = Some F ->
     cmp3_val t Cmp_GT a b = Some (java_fcmp F (-1) a b) /\ cmp3_val t Cmp_GT_Un a b = Some (java_fcmp F 1 a b)).
Proof.
  split.
  - rewrite cmp3_val_sign by done. unfold java_cmp, ordering. simpl. f_equal.
    by destruct (Z.compare_spec a b), (Z.ltb_spec a b), (Z.eqb_spec a b); try lia.
  - intros t F HF. rewrite !cmp3_val_sign by (by destruct t). unfold ordering.
    destruct (fp_width t F HF) as [-> _]. rewrite HF. unfold java_fcmp.
    by destruct (SFcompare _ _) as [[]|].
Qed.

(** ** Branches *)

(** The condition of a branch has the truth value [x]. *)
Definition branch_cond (p : prog) (e : env) (t : Tag) (m : ComparisonModifier) (srcs : list Opnd) (x : bool) : Prop :=
  match srcs with
  | [s] => exists t' v, holds p e s t' v /\ cmp_val_1 m v = Some x /\
      (if value_type t then t' = t /\ isFloatingPoint t = false else is_address t' = true)
  | [s1; s2] => compares p e t m s1 s2 x
  | _ => False
  end.

(** The operands that [isNonNullObject] accepts are not null. *)
Definition nonnull_ok (p : prog) (e : env) : Prop := forall o i t v,
  getInst p o = Some i -> isNonNullObject i = true -> holds p e o t v -> v <> 0.

(** Types have their own virtual tables. *)
Definition vtable_ok (unresolved : Z -> bool) (p : prog) (e : env) : Prop := exists address : Z -> Z,
  (forall o i t v, getInst p o = Some i -> i_opcode i = Op_GetVTableAddr -> holds p e o t v ->
     v = address (i_value i)) /\
  (forall a b, unresolved a = false -> unresolved b = false -> address a = address b -> a = b).

Section branches.
Context (elim_cmp3 : bool) (unresolved : Z -> bool) (p : prog) (e : env) (Hm : models p e).

Definition decided (x : bool) (p' : prog) (e' : env) (r : option bool) : Prop :=
  p' = p /\ e' = e /\ forall b, r = Some b -> b = x.

Lemma decided_ret x r : (forall b, r = Some b -> b = x) -> wp (gret r) p e (decided x).
Proof. intros H. by apply wp_ret. Qed.

Lemma bool_of_i4 x : negb (c_bool x =? 0) = x.
Proof. by destruct x. Qed.

Lemma wp_propagateCopy o i t v Q : holds p e o t v -> getInst p o = Some i ->
  (forall o' t', holds p e o' t' v -> Q p e o') -> wp (propagateCopy o) p e Q.
Proof.
  intros Ho Hi HQ. unfold propagateCopy. apply wp_bind. apply (wp_inst_of p e Hm o i); [done|]. intros _ _.
  destruct (op_eqb (i_opcode i) Op_Copy) eqn:E; [|apply wp_ret; [done|by eapply HQ]].
  apply is_op in E. destruct (holds_inst p e o t v Hm Ho) as (i' & Hi' & <- & vals & Hs & _ & Ht & _ & Hd).
  simplify_eq. unfold src_vals in Hs. apply mapM_Some in Hs. unfold denote in Hd. rewrite E in Hd.
  assert (Hlen : exists x, vals = [x]).
  { unfold inst_typed in Ht. rewrite E in Ht. destruct vals as [|x0 [|]]; try done. by exists x0. }
  destruct Hlen as [[ta va] ->]. inversion Hs as [|s x0 l1 l2 H1 Hs1 E1]; subst. inversion Hs1; subst.
  apply (wp_opt _ s); [unfold getSrc; by rewrite <- E1|done|].
  apply (HQ s ta). by rewrite (Hd va eq_refl).
Qed.

Lemma canFoldBranch_ok t m s1 s2 x : vtable_ok unresolved p e -> (isVTablePtr t = true -> is_equality m = true) ->
  compares p e t m s1 s2 x ->
  wp (canFoldBranch unresolved t m s1 s2) p e (decided x).
Proof.
  intros (address & Hvt & Hinj) Heq Hc. destruct (compares_insts p e _ _ _ _ _ Hm Hc) as (i1 & i2 & Hi1 & Hi2).
  unfold canFoldBranch. apply wp_bind. apply (wp_inst_of p e Hm s1 i1); [done|]. intros _ _.
  apply wp_bind. apply (wp_inst_of p e Hm s2 i2); [done|]. intros _ _.
  assert (Hfold : forall cv1 cv2, isConstant_cv i1 = Some cv1 -> isConstant_cv i2 = Some cv2 ->
    wp (let '(ok, result) := foldCmp t m cv1 cv2 cv_zero in
        gret (if ok then Some (negb (get_i4 result =? 0)) else None)) p e (decided x)).
  { intros cv1 cv2 C1 C2. unfold isConstant_cv in C1, C2.
    destruct (isConst i1) eqn:K1; [|done]. destruct (isConst i2) eqn:K2; [|done]. simplify_eq.
    destruct (foldCmp t m (i_value i1) (i_value i2) cv_zero) as [ok res] eqn:Hf. apply decided_ret.
    destruct ok; [|done]. intros b [= <-].
    rewrite (foldCmp_compares p e Hm t m s1 s2 i1 i2 x cv_zero res) by done. apply bool_of_i4. }
  match goal with |- wp (match _ with Some v => match _ with Some w => _ | None => ?k end | None => _ end) _ _ _ =>
    assert (Hrest : wp k p e (decided x)) end.
  2: { destruct (isConstant_cv i1) as [cv1|]; [|done]. destruct (isConstant_cv i2) as [cv2|]; [|done]. by apply Hfold. }
  clear Hfold. destruct Hc as (t1 & v1 & t2 & v2 & H1 & H2 & Ht & Hx).
  destruct (Nat.eqb_spec s1 s2) as [->|Hne].
  - apply wp_bind. apply (wp_type_of p e Hm s2 t1 v1); [done|]. intros _ _.
    destruct (isFloatingPoint t1) eqn:Hf; [by apply decided_ret|]. apply decided_ret. intros b Hb.
    destruct (holds_fun p e _ _ _ _ _ H1 H2) as [-> ->].
    assert (Hft : fp_format t = None).
    { unfold cmp_typed in Ht. destruct t; try done; by apply andb_true_iff in Ht as [->%tag_eqb_eq _]. }
    unfold cmp_val in Hx. rewrite ordering_refl in Hx by done. destruct (cmp_ok t m); [|done].
    by destruct m; simplify_eq/=.
  - destruct (isVTablePtr t) eqn:Hv; [|by apply decided_ret].
    apply wp_bind. apply (wp_propagateCopy s1 i1 t1 v1); [done|done|]. intros o1 t1' Ho1 _ _.
    apply wp_bind. apply (wp_propagateCopy s2 i2 t2 v2); [done|done|]. intros o2 t2' Ho2 _ _.
    destruct (holds_getInst p e Hm o1 t1' v1 Ho1) as [d1 Hd1], (holds_getInst p e Hm o2 t2' v2 Ho2) as [d2 Hd2].
    apply wp_bind. apply (wp_inst_of p e Hm o1 d1); [done|]. intros _ _.
    apply wp_bind. apply (wp_inst_of p e Hm o2 d2); [done|]. intros _ _.
    destruct (_ && _ && _ && _) eqn:E; [|by apply decided_ret]. apply decided_ret. intros b [= <-].
    apply andb_true_iff in E as [[[E1%is_op E2%is_op]%andb_true_iff U1%negb_true_iff]%andb_true_iff U2%negb_true_iff].
    rewrite (Hvt o1 d1 t1' v1 Hd1 E1 Ho1), (Hvt o2 d2 t2' v2 Hd2 E2 Ho2) in Hx.
    specialize (Heq eq_refl). unfold cmp_val, ordering in Hx. destruct (cmp_ok t m); [|done].
    assert (arith_width t = None /\ fp_format t = None) as [Ew Ef] by (by destruct t).
    rewrite Ew, Ef in Hx. simplify_eq.
    destruct (Z.eqb_spec (i_value d1) (i_value d2)) as [->|Hd].
    + rewrite Z.compare_refl. by destruct m.
    + destruct (Z.compare_spec (address (i_value d1)) (address (i_value d2))) as [Ha| |].
      * by destruct Hd; apply Hinj.
      * by destruct m.
      * by destruct m.
Qed.

Lemma canFoldBranch_1_ok t m s x : nonnull_ok p e -> branch_cond p e t m [s] x ->
  wp (canFoldBranch_1 t m s) p e (decided x).
Proof.
  intros Hnn (t' & v & Ho & Hx & Ht). destruct (holds_getInst p e Hm s t' v Ho) as [i Hi].
  unfold canFoldBranch_1. apply wp_bind. apply (wp_inst_of p e Hm s i); [done|]. intros _ _.
  destruct (isConstant_cv i) as [cv|] eqn:C.
  - destruct (foldCmp_1 t m cv cv_zero) as [ok r] eqn:Hf. apply decided_ret. destruct ok; [|done]. intros b [= <-].
    unfold isConstant_cv in C. destruct (isConst i) eqn:K; [|done]. simplify_eq.
    destruct (const_holds p e Hm s t' v i Ho Hi K) as [_ Hv].
    assert (Hfold : foldCmp_1 t m (i_value i) cv_zero = ret_i4 cv_zero (fold_cmp_1 m v)).
    { destruct (value_type t) eqn:Hvt.
      - destruct Ht as [-> Hfp]. destruct t; try done; simpl in *; by rewrite (Hv _ eq_refl).
      - assert (Hva : v = get_i (i_value i)) by (apply Hv; by destruct t').
        destruct t; try done; unfold foldCmp_1; simpl; by rewrite Hva. }
    rewrite Hfold in Hf. unfold ret_i4 in Hf.
    assert (Hb : fold_cmp_1 m v (get_i4 cv_zero) = (true, c_bool x)) by (destruct m; simplify_eq/=; done).
    rewrite Hb in Hf. simplify_eq. by rewrite get_i4_bool, bool_of_i4.
  - destruct (isNonNullObject i) eqn:Hn; apply decided_ret; [|done]. intros b [= <-].
    pose proof (Hnn s i t' v Hi Hn Ho) as Hv. destruct m; simplify_eq/=; by rewrite (proj2 (Z.eqb_neq v 0) Hv).
Qed.

(** A branch, appended to the program. *)
Lemma branch_cond_mono p' e' t m srcs x : extends p e p' e' ->
  branch_cond p e t m srcs x -> branch_cond p' e' t m srcs x.
Proof.
  intros Hx. destruct srcs as [|s1 [|s2 [|]]]; try done.
  - intros (t' & v & H & H'). exists t', v. split; [by eapply holds_mono|done].
  - by apply compares_mono.
Qed.

Lemma wp_branch t m srcs label x (Q : prog -> env -> Opnd -> Prop) : branch_cond p e t m srcs x ->
  (forall p' e' o, (exists l, p' = l ++ [makeBranch m t srcs label]) -> branch_cond p' e' t m srcs x -> Q p' e' o) ->
  wp (insertInst (makeBranch m t srcs label)) p e Q.
Proof.
  intros Hc HQ. assert (Hx : extends p e (p ++ [makeBranch m t srcs label]) (e ++ [0])) by (split; by apply prefix_app_r).
  exists (p ++ [makeBranch m t srcs label]), (e ++ [0]), (length p). split; [done|]. split; [done|]. split.
  - assert (Hv : exists vals, src_vals p e (makeBranch m t srcs label) = Some vals).
    { unfold src_vals. simpl. destruct srcs as [|s1 [|s2 [|]]]; try done.
      - destruct Hc as (t' & v & H & _). unfold holds in H. simpl. rewrite H. by eexists.
      - destruct Hc as (t1 & v1 & t2 & v2 & H1 & H2 & _). unfold holds in *. simpl. rewrite H1, H2. by eexists. }
    destruct Hv as [vals Hv]. eapply (models_opaque p e _ vals); try done.
    unfold denote. simpl. destruct vals as [|[? ?] [|[? ?] ?]]; done.
  - apply HQ; [by eexists|]. by eapply branch_cond_mono.
Qed.
End branches.

(** What [caseBranch] leaves decides as the branch did. *)
Definition branch_outcome_ok (label : Z) (x : bool) (p : prog) (e : env) (r : BranchOutcome) : Prop :=
  match r with
  | BranchKept => True
  | BranchFolded isTaken => isTaken = x
  | BranchReplaced => exists l t m srcs, p = l ++ [makeBranch m t srcs label] /\ branch_cond p e t m srcs x
  end.

Lemma simplifyBranch_1_ok p e t m s x label : models p e -> branch_cond p e t m [s] x ->
  wp (simplifyBranch_1 t m label s) p e (fun p' e' r => extends p e p' e' -> models p' e' ->
    wp (gret (if r then BranchReplaced else BranchKept)) p' e' (branch_outcome_ok label x)).
Proof.
  intros Hm (t' & v & Ho & Hx & Ht). destruct (holds_getInst p e Hm s t' v Ho) as [i Hi].
  unfold simplifyBranch_1, simplifyCmpToCmp_1. apply wp_bind. apply wp_bind.
  apply (wp_inst_of p e Hm s i); [done|]. intros _ _.
  destruct (op_eqb (i_opcode i) Op_TauStaticCast) eqn:E; [|apply wp_ret; [done|]; intros _ _;
    apply wp_ret; [done|]; intros _ _; by apply wp_ret].
  apply is_op in E. destruct (holds_inst p e s t' v Hm Ho) as (i' & Hi' & <- & vals & Hs & _ & Hty & _ & Hd).
  simplify_eq. unfold inst_typed in Hty. rewrite E in Hty. unfold denote in Hd. rewrite E in Hd.
  destruct vals as [|[ta va] vals]; [done|]. simpl in Hty. apply andb_true_iff in Hty as [Hta1 Hta2].
  unfold src_vals in Hs. apply mapM_Some in Hs. inversion Hs as [|s' x0 l1 l2 H1 Hs1 E1]; subst.
  assert (Hc' : branch_cond p e t m [s'] x).
  { exists ta, v. rewrite (Hd va) in * by (by destruct vals as [|[? ?] [|]]). split; [done|]. split; [done|].
    destruct (value_type t) eqn:Hv; [|done]. destruct Ht as [Ht _]. rewrite <- Ht in Hv. by destruct (i_dtype i). }
  apply wp_bind. apply (wp_opt _ s'); [unfold getSrc; by rewrite <- E1|done|]. intros _ _.
  apply wp_ret; [done|]. intros _ _. apply wp_bind. unfold genBranch_1. apply wp_bind.
  apply (wp_branch p e Hm _ _ _ _ x); [exact Hc'|]. intros p2 e2 o Hp2 Hc2 _ Hm2.
  apply wp_ret; [done|]. intros _ _. apply wp_ret; [done|]. intros _ _. apply wp_ret; [done|].
  destruct Hp2 as [l ->]. by exists l, t, m, [s'].
Qed.

(** a simplified branch decides as before: it is folded to the edge its
    condition chooses, or replaced by a branch to the same label under a condition
    of the same truth value. *)
Theorem caseBranch_ok elim_cmp3 unresolved p e inst m x : models p e ->
  gt_cmp3 p -> nonnull_ok p e -> vtable_ok unresolved p e ->
  comparison_of (i_mod inst) = Some m -> (isVTablePtr (i_type inst) = true -> is_equality m = true) ->
  branch_cond p e (i_type inst) m (i_srcs inst) x ->
  wp (caseBranch elim_cmp3 unresolved inst) p e (branch_outcome_ok (i_value inst) x).
Proof.
  intros Hm Hgt Hnn Hvt Hmod Heq Hc. unfold caseBranch, comparison_mod. rewrite Hmod.
  apply wp_bind. apply wp_ret; [done|]. intros _ _.
  destruct (i_srcs inst) as [|s1 [|s2 [|]]] eqn:Es; try done; apply wp_bind.
  - eapply wp_mono; [by apply (canFoldBranch_1_ok p e Hm _ m s1 x)|].
    intros p' e' r _ _ (-> & -> & Hr) _ _. destruct r as [b|]; [apply wp_ret; [done|]; by apply Hr|].
    apply wp_bind. by apply (simplifyBranch_1_ok p e _ m s1 x _ Hm).
  - eapply wp_mono; [by apply (canFoldBranch_ok unresolved p e Hm _ m s1 s2 x)|].
    intros p' e' r _ _ (-> & -> & Hr) _ _. destruct r as [b|]; [apply wp_ret; [done|]; by apply Hr|].
    apply wp_bind. unfold simplifyBranch. apply wp_bind.
    eapply wp_mono; [by apply (simplifyCmpToCmp_ok elim_cmp3 p e Hm _ m s1 s2 x)|].
    intros p' e' [c|] _ Hm' Hn _ _; [|by apply wp_ret; [|intros _ _; apply wp_ret]].
    apply wp_bind. unfold genBranch. apply wp_bind. 
    apply (wp_branch p' e' Hm' _ _ _ _ x); [exact Hn|]. intros p2 e2 o Hp2 Hc2 _ Hm2.
    apply wp_ret; [done|]. intros _ _. apply wp_ret; [done|]. intros _ _. apply wp_ret; [done|].
    destruct Hp2 as [l ->]. by exists l, (newInstType c), (newmod c), [newSrc1 c; newSrc2 c].
Qed.

(** ** Switches *)

(** The target of a switch: the index is read as an unsigned number. *)
Definition switch_target (labels : list Z) (defaultTarget v : Z) : Z :=
  default defaultTarget (labels !! Z.to_nat (ux 32 v)).

Definition switch_outcome_ok (labels : list Z) (defaultTarget v : Z) (p : prog) (e : env) (r : SwitchOutcome) : Prop :=
  let target := switch_target labels defaultTarget v in
  match r with
  | SwitchKept => True
  | SwitchFolded t => t = target
  | SwitchReplaced => exists l t m srcs label x, p = l ++ [makeBranch m t srcs label] /\
      branch_cond p e t m srcs x /\ (if (x : bool) then label else defaultTarget) = target
  end.

Lemma same_labels (labels : list Z) (l : Z) i : forallb (fun l' => l' =? l) labels = true ->
  (i < length labels)%nat -> labels !! i = Some l.
Proof.
  intros H Hi. destruct (lookup_lt_is_Some_2 labels i Hi) as [l' Hl]. rewrite Hl.
  rewrite forallb_forall in H. f_equal. apply Z.eqb_eq, H, list_elem_of_In. by eapply list_elem_of_lookup_2.
Qed.

Theorem caseSwitch_ok labels defaultTarget index v p e : models p e ->
  holds p e index Int32 v -> labels <> [] -> Z.of_nat (length labels) < 2 ^ 32 ->
  wp (caseSwitch labels defaultTarget index) p e (switch_outcome_ok labels defaultTarget v).
Proof.
  intros Hm Hv Hne Hlen. destruct (holds_getInst p e Hm index Int32 v Hv) as [i Hi].
  unfold caseSwitch. apply wp_bind. apply (wp_inst_of p e Hm index i); [done|]. intros _ _.
  pose proof (ux_range 32 v ltac:(lia)) as Hu. unfold is_u in Hu.
  destruct (isConstant_i4 i) as [value|] eqn:Hc.
  - apply wp_ret; [done|]. simpl.
    assert (value = v) as ->.
    { unfold isConstant_i4 in Hc. destruct (isConst i) eqn:K; [|done]. simpl in Hc.
      destruct (tag_eqb (i_type i) Int32); [|done]. simplify_eq.
      destruct (const_holds p e Hm index Int32 v i Hv Hi K) as [_ Hx]. symmetry. by apply Hx. }
    unfold foldSwitch, switch_target. destruct (Z.ltb_spec (ux 32 v) (Z.of_nat (length labels))) as [|Hge]; [done|].
    by rewrite lookup_ge_None_2 by lia.
  - destruct labels as [|label1 rest]; [done|]. unfold simplifySwitch.
    destruct (forallb (fun l => l =? label1) rest) eqn:Hall;
      [|apply wp_bind; apply wp_ret; [done|]; intros _ _; by apply wp_ret].
    do 2 apply wp_bind. apply wp_genLdConstant_i4; [done|]. intros p1 e1 o Hx Ho _ Hm1.
    apply wp_bind. unfold genBranch. apply wp_bind.
    set (n := Z.of_nat (length (label1 :: rest))) in *.
    apply (wp_branch p1 e1 Hm1 _ _ _ _ (ux 32 v <? n)).
    { exists Int32, (sx 32 n), Int32, v. split; [done|]. split; [by eapply holds_mono|]. split; [done|].
      rewrite cmp_val_i4 by done. rewrite ux_sx by lia. rewrite (ux_id 32 n) by (unfold is_u; lia). done. }
    intros p2 e2 o2 [l Hp2] Hc2 _ Hm2. do 2 (apply wp_ret; [done|]; intros _ _). apply wp_ret; [done|].
    exists l, Int32, Cmp_GT_Un, [o; index], label1, (ux 32 v <? n). split; [done|]. split; [done|].
    unfold switch_target. destruct (Z.ltb_spec (ux 32 v) n) as [Hlt|Hge].
    + rewrite (same_labels (label1 :: rest) label1); [done| |lia]. simpl. by rewrite Z.eqb_refl.
    + by rewrite lookup_ge_None_2 by lia.
Qed.

(** ** Checks *)

(** The remembered operands are what they should be. *)
Definition is_tau (p : prog) (op : Opcode) (o : Opnd) : Prop :=
  exists i, getInst p o = Some i /\ i_opcode i = op.

Definition checks_ok (p : prog) (st : Checks) : Prop :=
  (forall o, tauSafeOpnd st = Some o -> is_tau p Op_TauSafe o) /\
  (forall o, tauUnsafeOpnd st = Some o -> is_tau p Op_TauUnsafe o).

(** The result for a check that passes when [pass] holds. *)
Definition check_ok (pass : bool) (p : prog) (e : env) (r : Checks * CheckResult) : Prop :=
  checks_ok p r.1 /\
  match r.2 with
  | (false, Some o) => pass = true /\ (is_tau p Op_TauSafe o \/ is_tau p Op_TauIsNonNull o)
  | (true, Some o) => pass = false /\ is_tau p Op_TauUnsafe o
  | (b, None) => b = false
  end.

Lemma is_tau_mono p e p' e' op o : extends p e p' e' -> is_tau p op o -> is_tau p' op o.
Proof. intros [Hp _] (i & Hi & Hop). exists i. split; [|done]. by eapply prefix_lookup_Some. Qed.

Lemma checks_ok_mono p e p' e' st : extends p e p' e' -> checks_ok p st -> checks_ok p' st.
Proof. intros Hx [Hs Hu]. by split; intros o Ho; eapply is_tau_mono; auto. Qed.

Section checks.
Context (p : prog) (e : env) (Hm : models p e).

Lemma wp_insert_opaque i vals v (Q : prog -> env -> Opnd -> Prop) :
  src_vals p e i = Some vals -> denote i vals = None -> inst_typed i vals.*1 = true ->
  has_type (i_dtype i) v -> i_opcode i <> Op_TauLdInd ->
  (forall p' e' o, extends p e p' e' -> models p' e' -> getInst p' o = Some i -> Q p' e' o) ->
  wp (insertInst i) p e Q.
Proof.
  intros Hs Hd Ht Hty Hop HQ.
  assert (Hx : extends p e (p ++ [i]) (e ++ [v])) by (split; by apply prefix_app_r).
  assert (Hm' : models (p ++ [i]) (e ++ [v])) by (by eapply models_opaque).
  exists (p ++ [i]), (e ++ [v]), (length p). do 3 (split; [done|]). apply HQ; [done|done|].
  unfold getInst. by rewrite lookup_app_r, Nat.sub_diag.
Qed.

Lemma wp_cbind {A B} (m : Check A) (f : A -> Check B) st Q :
  wp (m st) p e (fun p' e' r => extends p e p' e' -> models p' e' -> wp (f r.2 r.1) p' e' Q) ->
  wp (cbind m f st) p e Q.
Proof. apply wp_bind. Qed.

Lemma wp_clift {A B} (m : Gen A) (f : A -> Check B) st Q :
  wp m p e (fun p' e' a => extends p e p' e' -> models p' e' -> wp (f a st) p' e' Q) ->
  wp (cbind (clift m) f st) p e Q.
Proof.
  intros H. apply wp_cbind. unfold clift. apply wp_bind. eapply wp_mono; [exact H|].
  intros p' e' a Hx Hm' Ha _ _. apply wp_ret; [done|]. intros _ _. by apply Ha.
Qed.

Lemma wp_cret {A} (a : A) st Q : Q p e (st, a) -> wp (cret a st) p e Q.
Proof. by apply wp_ret. Qed.
End checks.

Section tau_generators.
Context (p : prog) (e : env) (Hm : models p e) (st : Checks) (Hst : checks_ok p st).

Lemma wp_genTauSafe Q :
  (forall p' e' st' o, extends p e p' e' -> models p' e' -> checks_ok p' st' -> prevInst st' = prevInst st ->
     is_tau p' Op_TauSafe o -> Q p' e' (st', o)) ->
  wp (genTauSafe st) p e Q.
Proof.
  intros HQ. unfold genTauSafe. destruct (tauSafeOpnd st) as [o|] eqn:Ho.
  - apply wp_ret; [done|]. apply HQ; [apply extends_id|done|done|done|by apply Hst].
  - apply wp_bind. eapply (wp_insert_opaque p e Hm _ [] 0); try done.
    intros p' e' o Hx Hm' Hi _ _. apply wp_ret; [done|]. destruct (checks_ok_mono _ _ _ _ _ Hx Hst) as [Hs Hu].
    assert (Ht : is_tau p' Op_TauSafe o) by (by eexists).
    apply HQ; try done. split; [|done]. simpl. by intros o' [= <-].
Qed.

Lemma wp_genTauUnsafe Q :
  (forall p' e' st' o, extends p e p' e' -> models p' e' -> checks_ok p' st' -> prevInst st' = prevInst st ->
     is_tau p' Op_TauUnsafe o -> Q p' e' (st', o)) ->
  wp (genTauUnsafe st) p e Q.
Proof.
  intros HQ. unfold genTauUnsafe. destruct (tauUnsafeOpnd st) as [o|] eqn:Ho.
  - apply wp_ret; [done|]. apply HQ; [apply extends_id|done|done|done|by apply Hst].
  - apply wp_bind. eapply (wp_insert_opaque p e Hm _ [] 0); try done.
    intros p' e' o Hx Hm' Hi _ _. apply wp_ret; [done|]. destruct (checks_ok_mono _ _ _ _ _ Hx Hst) as [Hs Hu].
    assert (Ht : is_tau p' Op_TauUnsafe o) by (by eexists).
    apply HQ; try done. split; [done|]. simpl. by intros o' [= <-].
Qed.
End tau_generators.

(** A check can be removed: one that always throws has been replaced by a throw. *)
Definition removable (r : Checks * CheckResult) : Prop :=
  r.2.1 = true -> exists i, prevInst r.1 = Some i /\ isThrow i = true.

Lemma wp_caseTauCheck simplify st p e Q : models p e ->
  wp (simplify st) p e (fun p' e' r => Q p' e' r /\ removable r) -> wp (caseTauCheck simplify st) p e Q.
Proof.
  intros Hm H. unfold caseTauCheck. apply wp_bind. eapply wp_mono; [exact H|].
  intros p' e' [st' [[] [o|]]] _ Hm' [HQ Hr] _ _; simpl; try by apply wp_ret.
  destruct (Hr eq_refl) as (i & Hi & Hthrow). simpl in Hi. rewrite Hi, Hthrow.
  apply wp_bind. apply wp_ret; [done|]. intros _ _. by apply wp_ret.
Qed.

Section check_results.
Context (p : prog) (e : env) (Hm : models p e) (st : Checks) (Hst : checks_ok p st).

Definition check_done (pass : bool) (p' : prog) (e' : env) (r : Checks * CheckResult) : Prop :=
  check_ok pass p' e' r /\ removable r.

Lemma wp_check_passes : wp (check_passes st) p e (check_done true).
Proof.
  apply wp_cbind. apply wp_genTauSafe; [done|done|]. intros p' e' st' o Hx Hm' Hst' _ Ht _ _.
  apply wp_cret; [done|]. split; [|done]. split; [done|]. split; [done|]. by left.
Qed.

Lemma wp_check_throws exc : wp (check_throws exc st) p e (check_done false).
Proof.
  apply wp_cbind. unfold genThrowSystemException. apply wp_cbind. unfold insert_before. apply wp_bind.
  eapply (wp_insert_opaque p e Hm _ [] 0); try done. intros p1 e1 o1 Hx1 Hm1 _ _ _. apply wp_ret; [done|].
  intros _ _. apply wp_cret; [done|]. intros _ _. simpl. apply wp_cbind.
  apply wp_genTauUnsafe; [done| |].
  { by apply (checks_ok_mono p e p1 e1 st). }
  intros p2 e2 st2 o Hx2 Hm2 Hst2 Hprev Ht _ _. apply wp_cret; [done|]. split.
  - by split.
  - intros _. simpl. rewrite Hprev. by eexists.
Qed.

Lemma wp_check_fails : wp (check_fails st) p e (fun p' e' r => check_ok false p' e' r /\ prevInst r.1 = prevInst st).
Proof.
  apply wp_cbind. apply wp_genTauUnsafe; [done|done|]. intros p' e' st' o Hx Hm' Hst' Hprev Ht _ _.
  apply wp_cret; [done|]. split; [|done]. by split.
Qed.

Lemma wp_check_unknown pass : wp (check_unknown st) p e (check_done pass).
Proof. apply wp_cret; [done|]. by split. Qed.

(** The comparison of two constants that decides a check. *)
Lemma wp_check_constants a b m first decide va vb pass : holds p e a Int32 va -> holds p e b Int32 vb ->
  (let '(ok, result) := if (first : bool) then foldCmp32 m va vb 0 else foldCmp32 m vb va 0 in
   ok = true -> wp (decide (result =? 1) st) p e (check_done pass)) ->
  wp (check_constants a b m first decide st) p e (check_done pass).
Proof.
  intros Ha Hb HQ. destruct (holds_getInst p e Hm a Int32 va Ha) as [ia Hia].
  destruct (holds_getInst p e Hm b Int32 vb Hb) as [ib Hib].
  unfold check_constants. apply wp_clift. apply (wp_inst_of p e Hm a ia); [done|]. intros _ _.
  apply wp_clift. apply (wp_inst_of p e Hm b ib); [done|]. intros _ _.
  unfold asConstInst. destruct (isConst ia) eqn:Ka; [|apply wp_check_unknown].
  destruct (isConst ib) eqn:Kb; [|apply wp_check_unknown].
  destruct (const_holds p e Hm a Int32 va ia Ha Hia Ka) as [_ Ca].
  destruct (const_holds p e Hm b Int32 vb ib Hb Hib Kb) as [_ Cb].
  rewrite <- (Ca _ eq_refl), <- (Cb _ eq_refl).
  destruct first; destruct (foldCmp32 _ _ _ _) as [ok result]; (destruct ok; [by apply HQ|apply wp_check_unknown]).
Qed.
End check_results.

(** The constants of one width: their value, and nothing for others. *)
Lemma constant_i4_val p e o t v i y : models p e -> holds p e o t v -> getInst p o = Some i ->
  isConstant_i4 i = Some y -> t = Int32 /\ y = v.
Proof.
  intros Hm Ho Hi Hc. unfold isConstant_i4 in Hc. destruct (isConst i) eqn:K; [|done]. simpl in Hc.
  destruct (tag_eqb (i_type i) Int32) eqn:E; [|done]. apply tag_eqb_eq in E. simplify_eq.
  destruct (const_holds p e Hm o t v i Ho Hi K) as [Ht Hv]. assert (t = Int32) as -> by congruence.
  split; [done|]. symmetry. by apply Hv.
Qed.

Lemma constant_i8_val p e o t v i y : models p e -> holds p e o t v -> getInst p o = Some i ->
  isConstant_i8 i = Some y -> t = Int64 /\ y = v.
Proof.
  intros Hm Ho Hi Hc. unfold isConstant_i8 in Hc. destruct (isConst i) eqn:K; [|done]. simpl in Hc.
  destruct (tag_eqb (i_type i) Int64) eqn:E; [|done]. apply tag_eqb_eq in E. simplify_eq.
  destruct (const_holds p e Hm o t v i Ho Hi K) as [Ht Hv]. assert (t = Int64) as -> by congruence.
  split; [done|]. symmetry. by apply Hv.
Qed.

(** Overflow of a division: the smallest number by -1. *)
Definition div_fits (w a b : Z) : bool := negb ((a =? minint w) && (b =? -1)).

Lemma div_overflow_ok w c1 c2 a b r : 0 < w -> is_s w a ->
  (forall y, c1 = Some y -> y = a) -> (forall y, c2 = Some y -> y = b) ->
  div_overflow w c1 c2 = Some r -> div_fits w a b = r.
Proof.
  intros Hw Ha H1 H2 Hr. unfold div_overflow in Hr. unfold div_fits.
  assert (Hmin : ux w a = 2 ^ (w - 1) -> a = minint w).
  { intros E. unfold minint. pose proof (sx_ux w a) as Es. rewrite E, (sx_id w a Hw Ha) in Es.
    rewrite <- Es. rewrite <- (sx_id w (- 2 ^ (w - 1)) Hw).
    - apply eqm_sx_iff. exists 1. rewrite (pow2_half w Hw). lia.
    - unfold is_s. pose proof (pow2_pos (w - 1)). lia. }
  assert (Hmin' : a = minint w -> ux w a = 2 ^ (w - 1)).
  { intros ->. unfold minint, ux. pose proof (pow2_pos (w - 1) ltac:(lia)). rewrite (pow2_half w Hw).
    symmetry. apply (Z.mod_unique _ _ (-1)); lia. }
  destruct c1 as [y|].
  - rewrite (H1 y eq_refl) in Hr. destruct (Z.eqb_spec (ux w a) (2 ^ (w - 1))) as [E|E]; simpl in Hr.
    + destruct c2 as [y2|]; [|done]. rewrite (H2 y2 eq_refl) in Hr.
      destruct (b =? -1); [|done]. simplify_eq. rewrite (Hmin E), Z.eqb_refl. done.
    + simplify_eq. destruct (Z.eqb_spec a (minint w)); [by destruct E; apply Hmin'|done].
  - destruct c2 as [y2|]; [|done]. rewrite (H2 y2 eq_refl) in Hr.
    destruct (b =? -1); simpl in Hr; [done|]. simplify_eq. by rewrite andb_false_r.
Qed.

(** The instructions whose result is an object whenever there is one: an allocation
    succeeds or throws, a literal is resolved to a string or a class, a handler is
    entered with the exception that was thrown, and the receiver of a call is an object;
    [Op_DefArg] marks the receiver in bits 12 to 14 of its modifier. *)
Inductive gives_object (i : Inst) : Prop :=
  | new_object : i_opcode i = Op_NewObj -> gives_object i
  | new_array : i_opcode i = Op_NewArray -> gives_object i
  | new_multi_array : i_opcode i = Op_NewMultiArray -> gives_object i
  | literal : i_opcode i = Op_LdRef -> gives_object i
  | caught : i_opcode i = Op_Catch -> gives_object i
  | receiver : i_opcode i = Op_DefArg -> (i_mod i / 2 ^ 12) mod 2 ^ 3 = 2 -> gives_object i.
(** The references of a program: what these instructions give is not null, and the
    only constant of an object type is null. *)
Record references_ok (p : prog) (e : env) : Prop := {
  ro_object : forall o i t v, getInst p o = Some i -> holds p e o t v -> gives_object i -> v <> 0;
  ro_constant : forall o i, getInst p o = Some i -> i_opcode i = Op_LdConstant -> isObject (i_type i) = true -> get_i (i_value i) = 0;
}.

Lemma receiver_bits m : Z.land m DefArg_Mask = NonNullThisArg -> (m / 2 ^ 12) mod 2 ^ 3 = 2.
Proof.
  intros H. rewrite <- Z.shiftr_div_pow2, <- Z.land_ones by lia.
  assert (E : Z.shiftr (Z.land m DefArg_Mask) 12 = 2) by (by rewrite H). rewrite Z.shiftr_land in E. exact E.
Qed.
Lemma non_null_gives i : isNonNullObject i || isNonNullParameter i = true -> gives_object i.
Proof.
  intros [H|[H1%bool_decide_eq_true H2%Z.eqb_eq]%andb_true_iff]%orb_true_iff.
  - unfold isNonNullObject in H. destruct (i_opcode i) eqn:E; try discriminate H;
      [by apply caught|by apply literal|by apply new_object|by apply new_array|by apply new_multi_array].
  - apply receiver; [done|]. by apply receiver_bits.
Qed.

Section checks_ok.
Context (p : prog) (e : env) (Hm : models p e) (st : Checks) (Hst : checks_ok p st).

(** A constant of an object type has the value of the instruction, which is null. *)
Lemma null_constant o i t v : references_ok p e -> getInst p o = Some i -> holds p e o t v -> isNullObject t i = true -> v = 0.
Proof.
  intros Href Hi Ho [Hobj Hop%is_op]%andb_true_iff.
  assert (K : isConst i = true) by (unfold isConst, op_eqb; by apply bool_decide_eq_true).
  destruct (const_holds p e Hm o t v i Ho Hi K) as [Ht Hv].
  pose proof (ro_constant _ _ Href o i Hi Hop ltac:(by rewrite Ht)) as H0. rewrite <- H0. apply Hv.
  destruct t; try discriminate Hobj; reflexivity.
Qed.
Lemma simplifyTauCheckNull_ok o t v : references_ok p e -> holds p e o t v ->
  wp (simplifyTauCheckNull o st) p e (check_done (negb (v =? 0))).
Proof.
  intros Href Ho. destruct (holds_getInst p e Hm o t v Ho) as [i Hi].
  assert (Hnn : isNonNullObject i || isNonNullParameter i = true -> v <> 0) by (intros H; by eapply ro_object, non_null_gives).
  assert (Hnull : isNullObject t i = true -> v = 0) by (by apply (null_constant o i t v)).
  assert (Hne : isNonNullObject i || isNonNullParameter i = true -> negb (v =? 0) = true).
  { intros H. apply negb_true_iff, Z.eqb_neq. auto. }
  unfold simplifyTauCheckNull. apply wp_clift. apply (wp_inst_of p e Hm o i); [done|]. intros _ _.
  destruct (isNonNullObject i) eqn:E1; [rewrite Hne by done; by apply wp_check_passes|].
  destruct (isNonNullParameter i) eqn:E2.
  - rewrite Hne by done. apply wp_cbind. unfold genTauIsNonNull, insert_before. apply wp_bind.
    eapply (wp_insert_opaque p e Hm _ [(t, v)] 0); try done.
    { unfold src_vals, holds in *. simpl. by rewrite Ho. }
    intros p' e' o' Hx Hm' Hi' _ _. apply wp_ret; [done|]. intros _ _. apply wp_cret; [done|].
    split; [|done]. split; [by apply (checks_ok_mono p e p' e' st)|]. split; [done|]. right. by eexists.
  - apply wp_clift. apply (wp_type_of p e Hm o t v); [done|]. intros _ _.
    destruct (isNullObject t i) eqn:E3; [|by apply wp_check_unknown].
    rewrite (Hnull eq_refl). by apply wp_check_throws.
Qed.

Lemma check_cases (b pass : bool) (good bad : Check CheckResult) : pass = b ->
  wp (good st) p e (check_done true) -> wp (bad st) p e (check_done false) ->
  wp ((if b then good else bad) st) p e (check_done pass).
Proof. intros ->. by destruct b. Qed.

Lemma simplifyTauCheckBounds_ok len idx vl vi : holds p e len Int32 vl -> holds p e idx Int32 vi -> 0 <= vl ->
  wp (simplifyTauCheckBounds len idx st) p e (check_done ((0 <=? vi) && (vi <? vl))).
Proof.
  intros Hl Hi Hn. apply (wp_check_constants p e Hm st Hst _ _ _ _ _ vl vi); [done|done|].
  intros _. apply check_cases; [|by apply wp_check_passes|by apply wp_check_throws].
  pose proof (holds_type p e _ _ _ Hm Hl) as Tl. pose proof (holds_type p e _ _ _ Hm Hi) as Ti.
  simpl in Tl, Ti. unfold is_s in Tl, Ti. simpl in Tl, Ti. rewrite (ux32_small vl) by lia.
  destruct (Z.lt_ge_cases vi 0); [rewrite ux32_neg by lia|rewrite ux32_small by lia];
    unfold c_bool; case_match; lia.
Qed.

Lemma simplifyTauCheckLowerBound_ok lb idx vl vi : holds p e lb Int32 vl -> holds p e idx Int32 vi ->
  wp (simplifyTauCheckLowerBound lb idx st) p e (check_done (vl <=? vi)).
Proof.
  intros Hl Hi. apply (wp_check_constants p e Hm st Hst _ _ _ _ _ vl vi); [done|done|].
  intros _. destruct (Z.leb_spec vl vi).
  - rewrite (proj2 (Z.ltb_ge vi vl)) by lia. by apply wp_check_passes.
  - rewrite (proj2 (Z.ltb_lt vi vl)) by lia. by apply wp_check_throws.
Qed.

Lemma simplifyTauCheckUpperBound_ok idx ub vi vu : holds p e idx Int32 vi -> holds p e ub Int32 vu ->
  wp (simplifyTauCheckUpperBound idx ub st) p e (check_done (vi <? vu)).
Proof.
  intros Hi Hu. apply (wp_check_constants p e Hm st Hst _ _ _ _ _ vi vu); [done|done|].
  intros _. apply check_cases; [|by apply wp_check_passes|by apply wp_check_throws].
  unfold c_bool; case_match; lia.
Qed.

Lemma simplifyTauCheckZero_ok o t v : holds p e o t v ->
  wp (simplifyTauCheckZero o st) p e (check_done (negb (v =? 0))).
Proof.
  intros Ho. destruct (holds_getInst p e Hm o t v Ho) as [i Hi].
  unfold simplifyTauCheckZero. apply wp_clift. apply (wp_inst_of p e Hm o i); [done|]. intros _ _.
  destruct (isConstant_i4 i) as [y|] eqn:Hc; [|by apply wp_check_unknown].
  destruct (constant_i4_val p e o t v i y Hm Ho Hi Hc) as [_ ->].
  apply check_cases; [done|by apply wp_check_passes|by apply wp_check_throws].
Qed.

(** The checks of other languages: their results are right, but nothing throws
    before one that always throws. *)
Definition unthrown (pass : bool) (p' : prog) (e' : env) (r : Checks * CheckResult) : Prop :=
  check_ok pass p' e' r /\ (r.2.1 = true -> prevInst r.1 = prevInst st).

Lemma unthrown_cases (b pass : bool) : pass = b ->
  wp ((if b then check_passes else check_fails) st) p e (unthrown pass).
Proof.
  intros ->. destruct b.
  - eapply wp_mono; [by apply wp_check_passes|]. intros p' e' [st' [[] o]] _ _ [Hok _]; split; try done.
    by destruct o as [o|]; destruct Hok as [_ Hok]; [destruct Hok|].
  - eapply wp_mono; [by apply wp_check_fails|]. intros p' e' r _ _ [Hok Hp]. by split.
Qed.

Lemma simplifyTauCheckDivOpnds_ok a b t w va vb : int_width t = Some w -> holds p e a t va -> holds p e b t vb ->
  wp (simplifyTauCheckDivOpnds a b st) p e (unthrown (div_fits w va vb)).
Proof.
  intros Hw Ha Hb. destruct (holds_getInst p e Hm a t va Ha) as [ia Hia].
  destruct (holds_getInst p e Hm b t vb Hb) as [ib Hib].
  unfold simplifyTauCheckDivOpnds. apply wp_clift. apply (wp_inst_of p e Hm a ia); [done|]. intros _ _.
  apply wp_clift. apply (wp_inst_of p e Hm b ib); [done|]. intros _ _.
  assert (Hr : forall (d : option bool) k, (forall r, d = Some r -> div_fits w va vb = r) ->
    wp (k st) p e (unthrown (div_fits w va vb)) ->
    wp (match d with Some true => check_passes | Some false => check_fails | None => k end st) p e
      (unthrown (div_fits w va vb))).
  { intros [r|] k Hd Hk; [|done]. pose proof (unthrown_cases r _ (Hd r eq_refl)). by destruct r. }
  pose proof (holds_type p e a t va Hm Ha) as Ta.
  assert (H4 : t = Int64 -> isConstant_i4 ia = None /\ isConstant_i4 ib = None).
  { intros ->. split; [destruct (isConstant_i4 ia) eqn:E|destruct (isConstant_i4 ib) eqn:E]; try done;
      [by destruct (constant_i4_val p e a _ va ia _ Hm Ha Hia E)|by destruct (constant_i4_val p e b _ vb ib _ Hm Hb Hib E)]. }
  assert (H8 : t = Int32 -> isConstant_i8 ia = None /\ isConstant_i8 ib = None).
  { intros ->. split; [destruct (isConstant_i8 ia) eqn:E|destruct (isConstant_i8 ib) eqn:E]; try done;
      [by destruct (constant_i8_val p e a _ va ia _ Hm Ha Hia E)|by destruct (constant_i8_val p e b _ vb ib _ Hm Hb Hib E)]. }
  apply Hr; [|apply Hr; [|by apply wp_cret; [|split; [split|]]]]; intros r Hd.
  - destruct t; try done; simpl in Hw; simplify_eq.
    + apply (div_overflow_ok 32 (isConstant_i4 ia) (isConstant_i4 ib) va vb r); [done|done| | |exact Hd];
        intros y Hy; [by destruct (constant_i4_val p e a _ va ia y Hm Ha Hia Hy)|by destruct (constant_i4_val p e b _ vb ib y Hm Hb Hib Hy)].
    + destruct (H4 eq_refl) as [E1 E2]. by rewrite E1, E2 in Hd.
  - destruct t; try done; simpl in Hw; simplify_eq.
    + destruct (H8 eq_refl) as [E1 E2]. by rewrite E1, E2 in Hd.
    + apply (div_overflow_ok 64 (isConstant_i8 ia) (isConstant_i8 ib) va vb r); [done|done| | |exact Hd];
        intros y Hy; [by destruct (constant_i8_val p e a _ va ia y Hm Ha Hia Hy)|by destruct (constant_i8_val p e b _ vb ib y Hm Hb Hib Hy)].
Qed.

Lemma simplifyTauCheckFinite_ok o t F v : fp_format t = Some F -> holds p e o t v ->
  wp (simplifyTauCheckFinite o st) p e (unthrown (ffinite F v)).
Proof.
  intros HF Ho. destruct (holds_getInst p e Hm o t v Ho) as [i Hi].
  unfold simplifyTauCheckFinite. apply wp_clift. apply (wp_type_of p e Hm o t v); [done|]. intros _ _.
  apply wp_clift. apply (wp_inst_of p e Hm o i); [done|]. intros _ _.
  assert (Hunk : wp (check_unknown st) p e (unthrown (ffinite F v))) by (apply wp_cret; [done|]; by split).
  unfold isConstant_cv. destruct (isConst i) eqn:K; [|done].
  destruct (const_holds p e Hm o t v i Ho Hi K) as [_ Hv].
  assert (Hc : forall b, ffinite F v = b -> wp ((if negb b then check_fails else check_passes) st) p e (unthrown (ffinite F v))).
  { intros b Hb. pose proof (unthrown_cases b _ Hb). by destruct b. }
  destruct t; simplify_eq/=; apply Hc; by rewrite (Hv _ eq_refl).
Qed.
End checks_ok.

(** C24: A null, bounds, lower-bound, upper-bound or zero check is removed as passed only
    if it passes, and as failed only if it fails, and then a throw stands before it. For a
    null check, in a program in which allocations, literals, caught exceptions and
    receivers are not null and constants of object types are; for a bounds check, with a
    length that is not negative; bounds and indices are of type Int32. *)
Theorem caseTauCheck_ok p e st : models p e -> checks_ok p st ->
  (forall o t v, references_ok p e -> holds p e o t v ->
     wp (caseTauCheck (simplifyTauCheckNull o) st) p e (check_ok (negb (v =? 0)))) /\
  (forall len idx vl vi, holds p e len Int32 vl -> holds p e idx Int32 vi -> 0 <= vl ->
     wp (caseTauCheck (simplifyTauCheckBounds len idx) st) p e (check_ok ((0 <=? vi) && (vi <? vl)))) /\
  (forall lb idx vl vi, holds p e lb Int32 vl -> holds p e idx Int32 vi ->
     wp (caseTauCheck (simplifyTauCheckLowerBound lb idx) st) p e (check_ok (vl <=? vi))) /\
  (forall idx ub vi vu, holds p e idx Int32 vi -> holds p e ub Int32 vu ->
     wp (caseTauCheck (simplifyTauCheckUpperBound idx ub) st) p e (check_ok (vi <? vu))) /\
  (forall o t v, holds p e o t v ->
     wp (caseTauCheck (simplifyTauCheckZero o) st) p e (check_ok (negb (v =? 0)))).
Proof.
  intros Hm Hst. split_and!; intros; apply wp_caseTauCheck; try done.
  - by eapply simplifyTauCheckNull_ok.
  - by apply simplifyTauCheckBounds_ok.
  - by apply simplifyTauCheckLowerBound_ok.
  - by apply simplifyTauCheckUpperBound_ok.
  - by eapply simplifyTauCheckZero_ok.
Qed.

(** ** Where the rules would be wrong *)

(** A three-way comparison with [Cmp_GTE], which no front end makes: equal
    numbers give 1, but the test for -1 is turned into one that holds of them. *)
Definition cmp3_gte : prog :=
  [arg Int32; makeInst Op_Cmp3 (comparison_bits Cmp_GTE) Int32 Int32 [0%nat; 0%nat]; const Int32 (set_i4 cv_zero (-1))].

Lemma cmp3_gte_wrong v : is_s 32 v ->
  models cmp3_gte [v; 1; -1] /\
  (exists c, simplifyCmpToCmp true Int32 Cmp_EQ 1%nat 2%nat cmp3_gte = Some (cmp3_gte, Some c) /\
     compares cmp3_gte [v; 1; -1] (newInstType c) (newmod c) (newSrc1 c) (newSrc2 c) true) /\
  compares cmp3_gte [v; 1; -1] Int32 Cmp_EQ 1%nat 2%nat false.
Proof.
  intros Hv. split; [|split].
  - apply (models_snoc [arg Int32; _] [v; 1]); [apply (models_snoc [arg Int32] [v])|].
    + exact (models_arg [] [] Int32 v models_nil Hv).
    + assert (Hval : cmp3_val Int32 Cmp_GTE v v = Some 1).
      { unfold cmp3_val, cmp_val, ordering. simpl. by rewrite Z.compare_refl. }
      exists [(Int32, v); (Int32, v)]. do 4 (split; [done|]). intros r Hr.
      change (cmp3_val Int32 Cmp_GTE v v = Some r) in Hr. congruence.
    + exists []. do 4 (split; [done|]). intros r. vm_compute. congruence.
  - exists (MkNewCmp Int32 Cmp_GTE 0%nat 0%nat). split; [done|]. exists Int32, v, Int32, v. do 3 (split; [done|]).
    unfold cmp_val, ordering. simpl. by rewrite Z.compare_refl.
  - by exists Int32, 1, Int32, (-1).
Qed.

(** The rules for sums with a constant, which nothing calls: they take no
    account of overflow. *)
Definition sum_sample : prog :=
  [arg Int32; const Int32 (set_i4 cv_zero 1); makeInst Op_Add mod_arith Int32 Int32 [0%nat; 1%nat];
   const Int32 (set_i4 cv_zero 5); arg Int32].
Definition sum_env : env := [maxint 32; 1; minint 32; 5; 0].

Lemma cmp_of_sum_wrong :
  models sum_sample sum_env /\
  (exists p c, simplifyCmpOfAddOrSubC true Int32 Cmp_GTE 2%nat 3%nat sum_sample = Some (p, Some c) /\
     compares p (sum_env ++ [4]) (newInstType c) (newmod c) (newSrc1 c) (newSrc2 c) true) /\
  compares sum_sample sum_env Int32 Cmp_GTE 2%nat 3%nat false /\
  (exists c, simplifyCmpOfAddOrSubC true Int32 Cmp_GT 2%nat 4%nat sum_sample = Some (sum_sample, Some c) /\
     compares sum_sample sum_env (newInstType c) (newmod c) (newSrc1 c) (newSrc2 c) true) /\
  compares sum_sample sum_env Int32 Cmp_GT 2%nat 4%nat false.
Proof.
  split; [by apply modelsb_models; vm_compute|]. split; [|split; [|split]].
  - do 2 eexists. split; [by vm_compute|]. by exists Int32, (maxint 32), Int32, 4.
  - by exists Int32, (minint 32), Int32, 5.
  - eexists. split; [by vm_compute|]. by exists Int32, (maxint 32), Int32, 0.
  - by exists Int32, (minint 32), Int32, 0.
Qed.

(** A check found to fail without a throw cannot be removed. *)
Lemma unthrown_stuck simplify p e st : wp (simplify st) p e (unthrown st false) ->
  (forall i, prevInst st = Some i -> isThrow i = false) ->
  forall r p', simplify st p = Some (p', r) -> r.2.2 <> None -> caseTauCheck simplify st p = None.
Proof.
  intros (p1 & e1 & r1 & Hrun & _ & _ & [[_ Hok] Hprev]) Hnt r p' Hr Hsome.
  unfold caseTauCheck, gbind. rewrite Hrun in *. simplify_eq.
  destruct r as [st' [[] [o|]]]; simpl in *; try done; [|by destruct Hok].
  specialize (Hprev eq_refl). rewrite Hprev. by destruct (prevInst st) as [i|]; [rewrite (Hnt i eq_refl)|].
Qed.

(** checks that insert no throw: when they are found to fail, removing them fails
    the assertion of [eliminateCheck]. *)
Theorem unthrown_checks p e st : models p e -> checks_ok p st ->
  (forall i, prevInst st = Some i -> isThrow i = false) ->
  (forall a b t w va vb, int_width t = Some w -> holds p e a t va -> holds p e b t vb ->
     wp (simplifyTauCheckDivOpnds a b st) p e (unthrown st (div_fits w va vb)) /\
     (div_fits w va vb = false -> forall r p', simplifyTauCheckDivOpnds a b st p = Some (p', r) ->
        r.2.2 <> None -> caseTauCheck (simplifyTauCheckDivOpnds a b) st p = None)) /\
  (forall o t F v, fp_format t = Some F -> holds p e o t v ->
     wp (simplifyTauCheckFinite o st) p e (unthrown st (ffinite F v)) /\
     (ffinite F v = false -> forall r p', simplifyTauCheckFinite o st p = Some (p', r) ->
        r.2.2 <> None -> caseTauCheck (simplifyTauCheckFinite o) st p = None)).
Proof.
  intros Hm Hst Hnt. split.
  - intros a b t w va vb Hw Ha Hb. pose proof (simplifyTauCheckDivOpnds_ok p e Hm st Hst a b t w va vb Hw Ha Hb) as H.
    split; [done|]. intros Hd. rewrite Hd in H. by eapply unthrown_stuck.
  - intros o t F v HF Ho. pose proof (simplifyTauCheckFinite_ok p e Hm st Hst o t F v HF Ho) as H.
    split; [done|]. intros Hd. rewrite Hd in H. by eapply unthrown_stuck.
Qed.

(** ** Witnesses *)

(** Java's [lcmp] of two arguments, compared with zero. *)
Definition lcmp_sample : prog :=
  [arg Int64; arg Int64; makeInst Op_Cmp3 (comparison_bits Cmp_GT) Int64 Int32 [0%nat; 1%nat];
   const Int32 cv_zero; const Int64 (set_i8 cv_zero 7); const Int64 (set_i8 cv_zero 9)].
Definition lcmp_env : env := [5; 3; 1; 0; 7; 9].

Lemma lcmp_models : models lcmp_sample lcmp_env.
Proof. apply modelsb_models. by vm_compute. Qed.

Lemma lcmp_gt : gt_cmp3 lcmp_sample.
Proof.
  intros o i m Hi Hop Hmod. do 6 (destruct o as [|o]; [by vm_compute in Hi; simplify_eq; vm_compute in Hmod; simplify_eq|]). done.
Qed.

Lemma simplifyCmp_value_witness :
  wp (simplifyCmp true Int32 Int32 Cmp_GT 2%nat 3%nat) lcmp_sample lcmp_env (result_ok Int32 (Some 1)).
Proof.
  apply (simplifyCmp_value true lcmp_sample lcmp_env lcmp_models Int32 Cmp_GT 2%nat 3%nat true lcmp_gt).
  by exists Int32, 1, Int32, 0.
Defined.

Lemma simplifyCmp3_value_witness :
  wp (simplifyCmp3 Int32 Int64 Cmp_GT 4%nat 5%nat) lcmp_sample lcmp_env (result_ok Int32 (Some (-1))).
Proof.
  apply (simplifyCmp3_value lcmp_sample lcmp_env lcmp_models Int64 Cmp_GT 4%nat 5%nat (-1)).
  exists false, true. split_and!; [by exists Int64, 7, Int64, 9|by exists Int64, 9, Int64, 7|done].
Defined.

Lemma caseBranch_ok_witness :
  wp (caseBranch true (fun _ => true) (makeBranch Cmp_GT Int32 [2%nat; 3%nat] 77)) lcmp_sample lcmp_env
    (branch_outcome_ok 77 true).
Proof.
  apply (caseBranch_ok true (fun _ => true) lcmp_sample lcmp_env (makeBranch Cmp_GT Int32 [2%nat; 3%nat] 77) Cmp_GT true);
    [exact lcmp_models|exact lcmp_gt| | |done|done|].
  - intros o i t v Hi Hn _. do 6 (destruct o as [|o]; [by vm_compute in Hi; simplify_eq|]). done.
  - exists (fun a => a). split; [|done]. intros o i t v Hi Hop _. do 6 (destruct o as [|o]; [by vm_compute in Hi; simplify_eq|]). done.
  - by exists Int32, 1, Int32, 0.
Defined.

(** The branch is replaced by one on the operands of [lcmp]. *)
Example lcmp_branch :
  caseBranch true (fun _ => true) (makeBranch Cmp_GT Int32 [2%nat; 3%nat] 77) lcmp_sample =
  Some (lcmp_sample ++ [makeBranch Cmp_GT Int64 [0%nat; 1%nat] 77], BranchReplaced).
Proof. by vm_compute. Qed.

Lemma caseSwitch_ok_witness :
  wp (caseSwitch [8; 8; 8] 9 2%nat) lcmp_sample lcmp_env (switch_outcome_ok [8; 8; 8] 9 1).
Proof.
  apply (caseSwitch_ok [8; 8; 8] 9 2%nat 1 lcmp_sample lcmp_env lcmp_models); done.
Defined.

Definition check_sample : prog :=
  [const Int32 (set_i4 cv_zero 4); const Int32 (set_i4 cv_zero 3); const Int32 (set_i4 cv_zero (-1));
   const Int32 (set_i4 cv_zero (- 2 ^ 31)); const NullObject cv_zero].
Definition check_env : env := [4; 3; -1; - 2 ^ 31; 0].
Definition no_checks : Checks := MkChecks None None None.

Lemma check_models : models check_sample check_env.
Proof. apply modelsb_models. by vm_compute. Qed.

(** An array of three elements, the null reference, and a receiver. *)
Definition reference_sample : prog :=
  [const Int32 (set_i4 cv_zero 3); MkInst Op_NewArray 0 TArray TArray [0%nat] cv_zero; const NullObject cv_zero; MkInst Op_DefArg NonNullThisArg Object Object [] cv_zero].
Definition reference_env : env := [3; 4096; 0; 8192].
Lemma reference_models : models reference_sample reference_env /\ references_ok reference_sample reference_env.
Proof.
  split; [apply modelsb_models; by vm_compute|]. split.
  - intros o i t v Hi Hv Hg. do 4 (destruct o as [|o]; [cbv in Hi, Hv; simplify_eq; try done; by destruct Hg|]). discriminate Hi.
  - intros o i Hi Hop Ho. do 4 (destruct o as [|o]; [cbv in Hi; simplify_eq; try done|]). discriminate Hi.
Qed.
Lemma caseTauCheck_ok_witness :
  wp (caseTauCheck (simplifyTauCheckBounds 0%nat 1%nat) no_checks) check_sample check_env (check_ok true) /\
  wp (caseTauCheck (simplifyTauCheckBounds 0%nat 2%nat) no_checks) check_sample check_env (check_ok false) /\
  wp (caseTauCheck (simplifyTauCheckNull 1%nat) no_checks) reference_sample reference_env (check_ok true) /\
  wp (caseTauCheck (simplifyTauCheckNull 2%nat) no_checks) reference_sample reference_env (check_ok false) /\
  wp (caseTauCheck (simplifyTauCheckNull 3%nat) no_checks) reference_sample reference_env (check_ok true).
Proof.
  destruct (caseTauCheck_ok check_sample check_env no_checks check_models) as (_ & H & _); [done|].
  destruct reference_models as [Hm Hr]. destruct (caseTauCheck_ok reference_sample reference_env no_checks Hm) as (Hn & _); [done|].
  split_and!; [by apply (H _ _ 4 3)|by apply (H _ _ 4 (-1))|by apply (Hn _ TArray 4096)|by apply (Hn _ NullObject 0)|by apply (Hn _ Object 8192)].
Defined.

Lemma unthrown_checks_witness :
  caseTauCheck (simplifyTauCheckDivOpnds 3%nat 2%nat) no_checks check_sample = None.
Proof.
  destruct (unthrown_checks check_sample check_env no_checks check_models) as (H & _); [done|done|].
  destruct (H 3%nat 2%nat Int32 32 (- 2 ^ 31) (-1)) as [_ H2]; [done|done|done|].
  eapply H2; [done|by vm_compute|done].
Defined.
