(* ===== verification/Frame.v ===== *)
(** * Interpreter frames: [interpreter/src/interp_defs.h]

    The operand stack and the locals of a frame with 32-bit elements (the
    [VAL32] configuration): every element has a value and a tag that says
    whether it is an object reference.  A [long] or [double] takes two elements.
    Operations are partial: [None] is a failed assertion.  The bytecode is a
    list of bytes and [ip] an offset into it; the pending exception of the
    thread is kept with the frame. *)
From stdpp Require Import strings.
From S2P Require Import Prelude.

(** ** Values *)

(** A [Value] is its 32 bits; [.i] is the signed reading of them, [.u], [.f] and
    [.ref] are the bits. *)
Definition val_i (v : Z) : Z := sx 32 v.
Definition of_i (i : Z) : Z := ux 32 i.

(** A [Value2]: two values, the low word first; [.i64] and [.d]. *)
Definition Value2 : Type := Z * Z.
Definition v2_u64 (v : Value2) : Z := v.1 + v.2 * 2 ^ 32.
Definition v2_i64 (v : Value2) : Z := sx 64 (v2_u64 v).
Definition of_u64 (u : Z) : Value2 := (ux 32 u, ux 32 (u / 2 ^ 32)).
Definition of_i64 (i : Z) : Value2 := of_u64 (ux 64 i).

Definition FLAG_NONE : Z := 0.
Definition FLAG_RET_ADDR : Z := 2.
Definition FLAG_OBJECT : Z := 3.

(** The positions of the words of a [Value2] on the stack, where values lie in
    reverse, and in the locals. *)
Definition s0 : Z := 1.
Definition s1 : Z := 0.
Definition l0 : Z := 0.
Definition l1 : Z := 1.

Record Stack := MkStack { data : list Z; refs : list Z; index : Z }.
Record Locals := MkLocals { vars : list Z; lrefs : list Z }.

(** The fields of [StackFrame] the modelled code uses, and the exception
    pending in the thread. *)
Record StackFrame := MkFrame {
  ip : Z;
  stack : Stack;
  locals : Locals;
  exn : option string;
}.

(** ** Operations of [Stack] *)

Definition size (s : Stack) : Z := Z.of_nat (length (data s)).

(** [init] and [clear] *)
Definition Stack_init (mem : list Z) : Stack := MkStack mem (replicate (length mem) FLAG_NONE) (-1).
Definition Stack_clear (s : Stack) : Stack := MkStack (data s) (replicate (length (refs s)) FLAG_NONE) (-1).
Definition Locals_init (mem : list Z) : Locals := MkLocals mem (replicate (length mem) FLAG_NONE).

(** The element [offset] below the top; [assert(index - offset >= 0)]. *)
Definition at_offset (s : Stack) (offset : Z) : option nat :=
  if 0 <=? index s - offset then Some (Z.to_nat (index s - offset)) else None.

Definition pick (s : Stack) (offset : Z) : option Z := i ← at_offset s offset; data s !! i.
Definition ref (s : Stack) (offset : Z) : option Z := i ← at_offset s offset; refs s !! i.

(** Assigning through the reference [pick] and [ref] return. *)
Definition set_pick (s : Stack) (offset v : Z) : option Stack :=
  i ← at_offset s offset; _ ← data s !! i;
  Some (MkStack (<[i := v]> (data s)) (refs s) (index s)).
Definition set_ref (s : Stack) (offset t : Z) : option Stack :=
  i ← at_offset s offset; _ ← refs s !! i;
  Some (MkStack (data s) (<[i := t]> (refs s)) (index s)).

Definition push (s : Stack) (n : Z) : option Stack :=
  if index s + n <? size s then Some (MkStack (data s) (refs s) (index s + n)) else None.
Definition pop (s : Stack) (n : Z) : option Stack :=
  if -1 <=? index s - n then Some (MkStack (data s) (refs s) (index s - n)) else None.

(** [popClearRef] *)
Fixpoint clear_refs (s : Stack) (i : Z) (n : nat) : option Stack :=
  match n with
  | O => Some s
  | S n => s ← set_ref s i FLAG_NONE; clear_refs s (i + 1) n
  end.
Definition popClearRef (s : Stack) (n : Z) : option Stack :=
  if -1 <=? index s - n then s ← clear_refs s 0 (Z.to_nat n); pop s n else None.

Definition getLong (s : Stack) (idx : Z) : option Value2 :=
  a ← pick s (idx + s0); b ← pick s (idx + s1); Some (a, b).
Definition setLong (s : Stack) (idx : Z) (v : Value2) : option Stack :=
  s ← set_pick s (idx + s0) v.1; set_pick s (idx + s1) v.2.

(** ** Operations of [Locals] *)

Definition varNum (l : Locals) : Z := Z.of_nat (length (vars l)).

Definition local (l : Locals) (id : Z) : option Z :=
  if (0 <=? id) && (id <? varNum l) then vars l !! Z.to_nat id else None.
Definition local_ref (l : Locals) (id : Z) : option Z :=
  if (0 <=? id) && (id <? varNum l) then lrefs l !! Z.to_nat id else None.
Definition set_local (l : Locals) (id v : Z) : option Locals :=
  if (0 <=? id) && (id <? varNum l) then Some (MkLocals (<[Z.to_nat id := v]> (vars l)) (lrefs l)) else None.
Definition set_local_ref (l : Locals) (id t : Z) : option Locals :=
  if (0 <=? id) && (id <? varNum l) then Some (MkLocals (vars l) (<[Z.to_nat id := t]> (lrefs l))) else None.

Definition Locals_setLong (l : Locals) (idx : Z) (v : Value2) : option Locals :=
  l ← set_local l (idx + l0) v.1; set_local l (idx + l1) v.2.
Definition Locals_getLong (l : Locals) (idx : Z) : option Value2 :=
  a ← local l (idx + l0); b ← local l (idx + l1); Some (a, b).

(** ** The monad of the opcodes *)

Definition Op (A : Type) : Type := StackFrame -> option (StackFrame * A).

Definition oret {A} (a : A) : Op A := fun f => Some (f, a).
Definition obind {A B} (m : Op A) (k : A -> Op B) : Op B := fun f => '(f, a) ← m f; k a f.
Definition ofail {A} : Op A := fun _ => None.

Declare Scope op_scope.
Delimit Scope op_scope with op.
Notation "'do*' x ':=' m 'in' k" := (obind m (fun x => k))
  (at level 10, x name, m at level 100, k at level 200) : op_scope.
Notation "m ;;* k" := (obind m (fun _ => k)) (at level 100, right associativity) : op_scope.
Open Scope op_scope.

(** Reading a part of the frame, and replacing one. *)
Definition oread {A} (r : StackFrame -> option A) : Op A := fun f => a ← r f; Some (f, a).
Definition on_stack (g : Stack -> option Stack) : Op unit := fun f =>
  s ← g (stack f); Some (MkFrame (ip f) s (locals f) (exn f), tt).
Definition on_locals (g : Locals -> option Locals) : Op unit := fun f =>
  l ← g (locals f); Some (MkFrame (ip f) (stack f) l (exn f), tt).

Definition o_pick (off : Z) : Op Z := oread (fun f => pick (stack f) off).
Definition o_ref (off : Z) : Op Z := oread (fun f => ref (stack f) off).
Definition o_getLong (idx : Z) : Op Value2 := oread (fun f => getLong (stack f) idx).
Definition o_local (id : Z) : Op Z := oread (fun f => local (locals f) id).
Definition o_local_ref (id : Z) : Op Z := oread (fun f => local_ref (locals f) id).
Definition o_set_pick (off v : Z) : Op unit := on_stack (fun s => set_pick s off v).
Definition o_set_ref (off t : Z) : Op unit := on_stack (fun s => set_ref s off t).
Definition o_push (n : Z) : Op unit := on_stack (fun s => push s n).
Definition o_pop (n : Z) : Op unit := on_stack (fun s => pop s n).
Definition o_setLong (idx : Z) (v : Value2) : Op unit := on_stack (fun s => setLong s idx v).
Definition o_set_local (id v : Z) : Op unit := on_locals (fun l => set_local l id v).
Definition o_set_local_ref (id t : Z) : Op unit := on_locals (fun l => set_local_ref l id t).

Definition get_ip : Op Z := oread (fun f => Some (ip f)).
Definition set_ip (i : Z) : Op unit := fun f => Some (MkFrame i (stack f) (locals f) (exn f), tt).
(** [frame.ip += n] *)
Definition add_ip (n : Z) : Op unit := fun f => Some (MkFrame (ip f + n) (stack f) (locals f) (exn f), tt).
(** [interp_throw_exception] *)
Definition interp_throw_exception (name : string) : Op unit := fun f =>
  Some (MkFrame (ip f) (stack f) (locals f) (Some name), tt).

(** ** Reading the bytecode *)

Section code.
Context (code : list Z).

Definition byte (addr : Z) : option Z := if 0 <=? addr then code !! Z.to_nat addr else None.
Definition read_uint8 (addr : Z) : option Z := byte addr.
Definition read_int8 (addr : Z) : option Z := b ← byte addr; Some (sx 8 b).
Definition read_int16 (addr : Z) : option Z :=
  b0 ← byte addr; b1 ← byte (addr + 1); Some (sx 16 (sx 8 b0 * 2 ^ 8 + b1)).
Definition read_uint16 (addr : Z) : option Z :=
  b0 ← byte addr; b1 ← byte (addr + 1); Some (ux 16 (sx 16 (b0 * 2 ^ 8 + b1))).
Definition read_int32 (addr : Z) : option Z :=
  b0 ← byte addr; b1 ← byte (addr + 1); b2 ← byte (addr + 2); b3 ← byte (addr + 3);
  Some (sx 32 (b0 * 2 ^ 24 + b1 * 2 ^ 16 + b2 * 2 ^ 8 + b3)).

Definition o_read (r : Z -> option Z) (off : Z) : Op Z := oread (fun f => r (ip f + off)).
End code.
