(* ===== verification/FrameOk.v ===== *)
(** * Operand stacks as lists of cells

    A well-formed stack is [canon cells junk]: the live elements with their
    tags, top first, and above them free elements without tags.  [owp] is the
    weakest precondition of an opcode, with a rule for every stack and locals
    operation on canonical stacks.  Java values take one or two cells; [rep]
    relates a frame to the values on its stack and is the invariant the opcodes
    keep. *)
From stdpp Require Import strings.
From S2P Require Import Prelude Frame.

(** A value and its tag. *)
Abbreviation cell := (Z * Z)%type.

Definition canon (cells : list cell) (junk : list Z) : Stack :=
  MkStack (reverse cells.*1 ++ junk) (reverse cells.*2 ++ replicate (length junk) FLAG_NONE)
    (Z.of_nat (length cells) - 1).

Section canon.
Context (cells : list cell) (junk : list Z).

Lemma at_offset_canon k : at_offset (canon cells junk) (Z.of_nat k) =
  if decide (k < length cells)%nat then Some (length cells - S k)%nat else None.
Proof.
  unfold at_offset. simpl. destruct (Z.leb_spec 0 (Z.of_nat (length cells) - 1 - Z.of_nat k));
    case_decide; try lia; [|done]. f_equal. lia.
Qed.

Lemma lookup_live {A} (l : list A) junk' k : (k < length l)%nat ->
  (reverse l ++ junk') !! (length l - S k)%nat = l !! k.
Proof.
  intros Hk. rewrite lookup_app_l by (rewrite length_reverse; lia).
  rewrite reverse_lookup by lia. f_equal. lia.
Qed.

Lemma insert_live {A} (l : list A) junk' k x : (k < length l)%nat ->
  <[(length l - S k)%nat := x]> (reverse l ++ junk') = reverse (<[k := x]> l) ++ junk'.
Proof.
  intros Hk. apply list_eq. intros i.
  destruct (decide (i < length l)%nat) as [Hi|Hi].
  - destruct (decide (i = length l - S k)%nat) as [->|Hne].
    + rewrite list_lookup_insert_eq by (rewrite length_app, length_reverse; lia).
      rewrite lookup_app_l by (rewrite length_reverse, length_insert; lia).
      rewrite reverse_lookup by (rewrite length_insert; lia). rewrite length_insert.
      replace (length l - S (length l - S k))%nat with k by lia. by rewrite list_lookup_insert_eq.
    + rewrite list_lookup_insert_ne by done. rewrite !lookup_app_l by (rewrite length_reverse, ?length_insert; lia).
      rewrite !reverse_lookup by (rewrite ?length_insert; lia). rewrite length_insert.
      rewrite list_lookup_insert_ne by lia. done.
  - rewrite list_lookup_insert_ne by lia.
    rewrite !lookup_app_r by (rewrite length_reverse, ?length_insert; lia).
    by rewrite !length_reverse, length_insert.
Qed.

Lemma pick_canon k c : cells !! k = Some c -> pick (canon cells junk) (Z.of_nat k) = Some c.1.
Proof.
  intros Hc. pose proof (lookup_lt_Some _ _ _ Hc). unfold pick. rewrite at_offset_canon, decide_True by done.
  simpl. rewrite <- (length_fmap fst), lookup_live, list_lookup_fmap by (by rewrite length_fmap). by rewrite Hc.
Qed.

Lemma ref_canon k c : cells !! k = Some c -> ref (canon cells junk) (Z.of_nat k) = Some c.2.
Proof.
  intros Hc. pose proof (lookup_lt_Some _ _ _ Hc). unfold ref. rewrite at_offset_canon, decide_True by done.
  simpl. rewrite <- (length_fmap snd), lookup_live, list_lookup_fmap by (by rewrite length_fmap). by rewrite Hc.
Qed.

Lemma set_pick_canon k c v : cells !! k = Some c ->
  set_pick (canon cells junk) (Z.of_nat k) v = Some (canon (<[k := (v, c.2)]> cells) junk).
Proof.
  intros Hc. pose proof (lookup_lt_Some _ _ _ Hc) as Hk. unfold set_pick. rewrite at_offset_canon, decide_True by done.
  simpl. assert (Hl : length cells.*1 = length cells) by apply length_fmap.
  rewrite <- Hl, lookup_live, list_lookup_fmap, Hc by (by rewrite Hl). simpl.
  rewrite insert_live by (by rewrite Hl). unfold canon. rewrite Hl, length_insert. do 3 f_equal.
  - by rewrite list_fmap_insert.
  - rewrite list_fmap_insert. simpl. rewrite list_insert_id; [done|]. by rewrite list_lookup_fmap, Hc.
Qed.

Lemma set_ref_canon k c t : cells !! k = Some c ->
  set_ref (canon cells junk) (Z.of_nat k) t = Some (canon (<[k := (c.1, t)]> cells) junk).
Proof.
  intros Hc. pose proof (lookup_lt_Some _ _ _ Hc) as Hk. unfold set_ref. rewrite at_offset_canon, decide_True by done.
  simpl. assert (Hl : length cells.*2 = length cells) by apply length_fmap.
  rewrite <- Hl, lookup_live, list_lookup_fmap, Hc by (by rewrite Hl). simpl.
  rewrite insert_live by (by rewrite Hl). unfold canon. rewrite Hl, length_insert. do 3 f_equal.
  - rewrite list_fmap_insert. simpl. rewrite list_insert_id; [done|]. by rewrite list_lookup_fmap, Hc.
  - by rewrite list_fmap_insert.
Qed.

Lemma size_canon : size (canon cells junk) = Z.of_nat (length cells + length junk).
Proof. unfold size. simpl. by rewrite length_app, length_reverse, length_fmap. Qed.
End canon.

(** Pushing takes free elements, popping untagged elements frees them. *)
Lemma canon_push1 cells j junk : push (canon cells (j :: junk)) 1 = Some (canon ((j, FLAG_NONE) :: cells) junk).
Proof.
  unfold push. rewrite size_canon. simpl length. simpl index.
  rewrite (proj2 (Z.ltb_lt _ _)) by lia. unfold canon. f_equal. simpl fmap. rewrite !reverse_cons, <- !app_assoc.
  simpl. f_equal. lia.
Qed.

Lemma canon_pop1 cells v junk : pop (canon ((v, FLAG_NONE) :: cells) junk) 1 = Some (canon cells (v :: junk)).
Proof.
  unfold pop. simpl index. rewrite (proj2 (Z.leb_le _ _)) by lia. unfold canon. f_equal.
  simpl fmap. rewrite !reverse_cons, <- !app_assoc. simpl. f_equal. lia.
Qed.

(** More than one at a time. *)
Lemma push_add s n m : 0 <= n -> 0 <= m -> (s' ← push s n; push s' m) = push s (n + m).
Proof.
  intros Hn Hm. unfold push, size. destruct (Z.ltb_spec (index s + n) (Z.of_nat (length (data s)))); simpl.
  - by rewrite Z.add_assoc.
  - rewrite (proj2 (Z.ltb_ge _ _)); [done|]. lia.
Qed.

Lemma pop_add s n m : 0 <= n -> 0 <= m -> (s' ← pop s n; pop s' m) = pop s (n + m).
Proof.
  intros Hn Hm. unfold pop. destruct (Z.leb_spec (-1) (index s - n)); simpl.
  - by rewrite Z.sub_add_distr.
  - rewrite (proj2 (Z.leb_gt _ _)); [done|]. lia.
Qed.

(** ** Weakest preconditions *)

Definition fr (i : Z) (cells : list cell) (junk : list Z) (l : Locals) (x : option string) : StackFrame :=
  MkFrame i (canon cells junk) l x.

Definition owp {A} (m : Op A) (f : StackFrame) (Q : StackFrame -> A -> Prop) : Prop :=
  match m f with Some (f', a) => Q f' a | None => False end.

Lemma owp_ret {A} (a : A) f (Q : StackFrame -> A -> Prop) : Q f a -> owp (oret a) f Q.
Proof. done. Qed.

Lemma owp_bind {A B} (m : Op A) (k : A -> Op B) f Q :
  owp m f (fun f' a => owp (k a) f' Q) -> owp (obind m k) f Q.
Proof. unfold owp, obind. by destruct (m f) as [[f' a]|]. Qed.

Lemma owp_mono {A} (m : Op A) f (Q Q' : StackFrame -> A -> Prop) :
  owp m f Q -> (forall f' a, Q f' a -> Q' f' a) -> owp m f Q'.
Proof. unfold owp. destruct (m f) as [[f' a]|]; [auto|done]. Qed.

Section rules.
Context (i : Z) (cells : list cell) (junk : list Z) (l : Locals) (x : option string).
Abbreviation F := (fr i cells junk l x).

Lemma owp_pick off k c (Q : StackFrame -> Z -> Prop) :
  off = Z.of_nat k -> cells !! k = Some c -> Q F c.1 -> owp (o_pick off) F Q.
Proof. intros -> Hc HQ. unfold owp, o_pick, oread. simpl. by rewrite (pick_canon _ _ k c Hc). Qed.

Lemma owp_ref off k c (Q : StackFrame -> Z -> Prop) :
  off = Z.of_nat k -> cells !! k = Some c -> Q F c.2 -> owp (o_ref off) F Q.
Proof. intros -> Hc HQ. unfold owp, o_ref, oread. simpl. by rewrite (ref_canon _ _ k c Hc). Qed.

Lemma owp_set_pick off v k c (Q : StackFrame -> unit -> Prop) :
  off = Z.of_nat k -> cells !! k = Some c -> Q (fr i (<[k := (v, c.2)]> cells) junk l x) tt -> owp (o_set_pick off v) F Q.
Proof. intros -> Hc HQ. unfold owp, o_set_pick, on_stack. simpl. by rewrite (set_pick_canon _ _ k c v Hc). Qed.

Lemma owp_set_ref off t k c (Q : StackFrame -> unit -> Prop) :
  off = Z.of_nat k -> cells !! k = Some c -> Q (fr i (<[k := (c.1, t)]> cells) junk l x) tt -> owp (o_set_ref off t) F Q.
Proof. intros -> Hc HQ. unfold owp, o_set_ref, on_stack. simpl. by rewrite (set_ref_canon _ _ k c t Hc). Qed.

Lemma owp_getLong off k a b (Q : StackFrame -> Value2 -> Prop) :
  off = Z.of_nat k -> cells !! S k = Some a -> cells !! k = Some b -> Q F (a.1, b.1) -> owp (o_getLong off) F Q.
Proof.
  intros -> Ha Hb HQ. unfold owp, o_getLong, oread, getLong, s0, s1. simpl.
  replace (Z.of_nat k + 1) with (Z.of_nat (S k)) by lia. rewrite Z.add_0_r.
  by rewrite (pick_canon _ _ _ a Ha), (pick_canon _ _ _ b Hb).
Qed.

Lemma owp_setLong v a b rest (Q : StackFrame -> unit -> Prop) :
  cells = a :: b :: rest -> Q (fr i ((v.2, a.2) :: (v.1, b.2) :: rest) junk l x) tt -> owp (o_setLong 0 v) F Q.
Proof.
  intros -> HQ. unfold owp, o_setLong, on_stack, setLong, s0, s1. simpl stack.
  change (0 + 1) with (Z.of_nat 1). rewrite (set_pick_canon _ _ 1 b) by done.
  cbn [mbind option_bind]. change (0 + 0) with (Z.of_nat 0). by rewrite (set_pick_canon _ _ 0 a).
Qed.

Lemma owp_add_ip n (Q : StackFrame -> unit -> Prop) : Q (fr (i + n) cells junk l x) tt -> owp (add_ip n) F Q.
Proof. done. Qed.
Lemma owp_set_ip n (Q : StackFrame -> unit -> Prop) : Q (fr n cells junk l x) tt -> owp (set_ip n) F Q.
Proof. done. Qed.
Lemma owp_get_ip (Q : StackFrame -> Z -> Prop) : Q F i -> owp get_ip F Q.
Proof. done. Qed.
Lemma owp_read r off v (Q : StackFrame -> Z -> Prop) : r (i + off) = Some v -> Q F v -> owp (o_read r off) F Q.
Proof. intros Hr HQ. unfold owp, o_read, oread. simpl. by rewrite Hr. Qed.
Lemma owp_oread (o : option Z) v (Q : StackFrame -> Z -> Prop) : o = Some v -> Q F v -> owp (oread (fun _ => o)) F Q.
Proof. intros -> HQ. done. Qed.
Lemma owp_throw name (Q : StackFrame -> unit -> Prop) :
  Q (fr i cells junk l (Some name)) tt -> owp (interp_throw_exception name) F Q.
Proof. done. Qed.

Lemma owp_local id v (Q : StackFrame -> Z -> Prop) : local l id = Some v -> Q F v -> owp (o_local id) F Q.
Proof. intros Hl HQ. unfold owp, o_local, oread. simpl. by rewrite Hl. Qed.
Lemma owp_local_ref id v (Q : StackFrame -> Z -> Prop) : local_ref l id = Some v -> Q F v -> owp (o_local_ref id) F Q.
Proof. intros Hl HQ. unfold owp, o_local_ref, oread. simpl. by rewrite Hl. Qed.
Lemma owp_set_local id v l' (Q : StackFrame -> unit -> Prop) :
  set_local l id v = Some l' -> Q (fr i cells junk l' x) tt -> owp (o_set_local id v) F Q.
Proof. intros Hl HQ. unfold owp, o_set_local, on_locals. simpl. by rewrite Hl. Qed.
Lemma owp_set_local_ref id t l' (Q : StackFrame -> unit -> Prop) :
  set_local_ref l id t = Some l' -> Q (fr i cells junk l' x) tt -> owp (o_set_local_ref id t) F Q.
Proof. intros Hl HQ. unfold owp, o_set_local_ref, on_locals. simpl. by rewrite Hl. Qed.
End rules.

Lemma owp_push1 i cells j junk l x (Q : StackFrame -> unit -> Prop) :
  Q (fr i ((j, FLAG_NONE) :: cells) junk l x) tt -> owp (o_push 1) (fr i cells (j :: junk) l x) Q.
Proof. intros HQ. unfold owp, o_push, on_stack. simpl stack. by rewrite canon_push1. Qed.

Lemma owp_push2 i cells j k junk l x (Q : StackFrame -> unit -> Prop) :
  Q (fr i ((k, FLAG_NONE) :: (j, FLAG_NONE) :: cells) junk l x) tt -> owp (o_push 2) (fr i cells (j :: k :: junk) l x) Q.
Proof.
  intros HQ. unfold owp, o_push, on_stack. simpl stack. change 2 with (1 + 1). rewrite <- push_add by lia.
  rewrite canon_push1. cbn [mbind option_bind]. by rewrite canon_push1.
Qed.

Lemma owp_pop1 i cells v junk l x (Q : StackFrame -> unit -> Prop) :
  Q (fr i cells (v :: junk) l x) tt -> owp (o_pop 1) (fr i ((v, FLAG_NONE) :: cells) junk l x) Q.
Proof. intros HQ. unfold owp, o_pop, on_stack. simpl stack. by rewrite canon_pop1. Qed.

Lemma owp_pop2 i cells u v junk l x (Q : StackFrame -> unit -> Prop) :
  Q (fr i cells (v :: u :: junk) l x) tt ->
  owp (o_pop 2) (fr i ((u, FLAG_NONE) :: (v, FLAG_NONE) :: cells) junk l x) Q.
Proof.
  intros HQ. unfold owp, o_pop, on_stack. simpl stack. change 2 with (1 + 1). rewrite <- pop_add by lia.
  rewrite canon_pop1. cbn [mbind option_bind]. by rewrite canon_pop1.
Qed.

Lemma owp_pop3 i cells t u v junk l x (Q : StackFrame -> unit -> Prop) :
  Q (fr i cells (v :: u :: t :: junk) l x) tt ->
  owp (o_pop 3) (fr i ((t, FLAG_NONE) :: (u, FLAG_NONE) :: (v, FLAG_NONE) :: cells) junk l x) Q.
Proof.
  intros HQ. unfold owp, o_pop, on_stack. simpl stack. change 3 with (1 + (1 + 1)).
  rewrite <- !pop_add by lia. rewrite canon_pop1. cbn [mbind option_bind]. rewrite <- pop_add by lia.
  rewrite canon_pop1. cbn [mbind option_bind]. by rewrite canon_pop1.
Qed.

(** One step of an opcode on a canonical stack. *)
Ltac op_step :=
  lazymatch goal with |- owp _ _ _ => idtac end; first
    [ apply owp_bind
    | match goal with |- owp (o_pick ?o) _ _ =>
        let k := eval cbv in (Z.to_nat o) in eapply (owp_pick _ _ _ _ _ o k); [reflexivity|reflexivity|] end
    | match goal with |- owp (o_ref ?o) _ _ =>
        let k := eval cbv in (Z.to_nat o) in eapply (owp_ref _ _ _ _ _ o k); [reflexivity|reflexivity|] end
    | match goal with |- owp (o_set_pick ?o _) _ _ =>
        let k := eval cbv in (Z.to_nat o) in eapply (owp_set_pick _ _ _ _ _ o _ k); [reflexivity|reflexivity|] end
    | match goal with |- owp (o_set_ref ?o _) _ _ =>
        let k := eval cbv in (Z.to_nat o) in eapply (owp_set_ref _ _ _ _ _ o _ k); [reflexivity|reflexivity|] end
    | match goal with |- owp (o_getLong ?o) _ _ =>
        let k := eval cbv in (Z.to_nat o) in eapply (owp_getLong _ _ _ _ _ o k); [reflexivity|reflexivity|reflexivity|] end
    | eapply owp_setLong; [reflexivity|]
    | eapply owp_push1 | eapply owp_push2 | eapply owp_pop1 | eapply owp_pop2 | eapply owp_pop3
    | eapply owp_add_ip | eapply owp_set_ip | eapply owp_get_ip | eapply owp_throw
    | eapply owp_ret ]; cbn [insert list_insert fst snd].
Ltac op_steps := repeat op_step.

(** ** Java values *)

Inductive jval :=
  | VInt (i : Z) | VFloat (b : Z) | VLong (i : Z) | VDouble (b : Z)
  | VRef (r : Z) | VRet (a : Z).

Definition val_ok (v : jval) : Prop :=
  match v with
  | VInt i => is_s 32 i
  | VFloat b => is_u 32 b
  | VLong i => is_s 64 i
  | VDouble b => is_u 64 b
  | VRef r => is_u 32 r
  | VRet a => is_u 32 a
  end.

Definition cells2 (v : Value2) : list cell := [(v.2, FLAG_NONE); (v.1, FLAG_NONE)].

(** The cells of a value, top first. *)
Definition cells_of (v : jval) : list cell :=
  match v with
  | VInt i => [(of_i i, FLAG_NONE)]
  | VFloat b => [(b, FLAG_NONE)]
  | VLong i => cells2 (of_i64 i)
  | VDouble b => cells2 (of_u64 b)
  | VRef r => [(r, FLAG_OBJECT)]
  | VRet a => [(a, FLAG_RET_ADDR)]
  end.

Definition cells_of_stack (vs : list jval) : list cell := flat_map cells_of vs.

(** The frame's stack holds the values [vs]. *)
Definition rep (f : StackFrame) (vs : list jval) : Prop :=
  Forall val_ok vs /\ exists junk, stack f = canon (cells_of_stack vs) junk.

(** The number of elements the values take. *)
Definition depth (vs : list jval) : nat := length (cells_of_stack vs).

(** *** Words and values *)

Lemma val_of_i i : is_s 32 i -> val_i (of_i i) = i.
Proof. intros Hi. unfold val_i, of_i. rewrite sx_ux. by apply sx_id. Qed.

Lemma of_i_sx z : of_i (sx 32 z) = of_i z.
Proof. apply ux_sx. Qed.

Lemma val_i_range v : is_s 32 (val_i v).
Proof. by apply sx_range. Qed.

Lemma of_val_i v : is_u 32 v -> of_i (val_i v) = v.
Proof. intros Hv. unfold of_i, val_i. rewrite ux_sx. by apply ux_id. Qed.

Lemma v2_of_u64 u : is_u 64 u -> v2_u64 (of_u64 u) = u.
Proof.
  intros Hu. unfold v2_u64, of_u64. simpl. unfold ux, is_u in *.
  change (2 ^ 64) with (2 ^ 32 * 2 ^ 32) in Hu.
  rewrite (Z.mod_small (u / 2 ^ 32)).
  - pose proof (Z.div_mod u (2 ^ 32) ltac:(lia)). lia.
  - split; [apply Z.div_pos; lia|apply Z.div_lt_upper_bound; lia].
Qed.

Lemma v2_of_i64 i : is_s 64 i -> v2_i64 (of_i64 i) = i.
Proof.
  intros Hi. unfold v2_i64, of_i64. rewrite v2_of_u64 by (by apply ux_range).
  rewrite sx_ux. by apply sx_id.
Qed.

Lemma v2_u64_of_i64 i : v2_u64 (of_i64 i) = ux 64 i.
Proof. apply v2_of_u64. by apply ux_range. Qed.

Lemma of_i64_sx z : of_i64 (sx 64 z) = of_i64 z.
Proof. unfold of_i64. by rewrite ux_sx. Qed.
