(* ===== verification/Opcodes.v ===== *)
(** * Opcodes that work on the frame alone: [interpreter/src/interpreter.cpp]

    Constants, loads and stores, arithmetic, conversions, comparisons, stack
    manipulation, branches, switches and subroutines: one definition for every
    [Opcode_] function, the macros that define families of them as
    definitions with the macro's expression as parameter.  Thread suspension
    points are left out. *)
From Stdlib Require Import SpecFloat.
From stdpp Require Import strings.
From S2P Require Import Prelude Floats Frame.

Section opcodes.
Context (code : list Z) (EM64T : bool).

(** ** Constants *)

Definition Opcode_NOP : Op unit := add_ip 1.

Definition Opcode_ACONST_NULL : Op unit :=
  o_push 1;;* o_set_pick 0 0;;* o_set_ref 0 FLAG_OBJECT;;* add_ip 1.

Definition DEF_OPCODE_CONST32_N (v : Z) : Op unit := o_push 1;;* o_set_pick 0 v;;* add_ip 1.
Definition Opcode_ICONST_M1 := DEF_OPCODE_CONST32_N (of_i (-1)).
Definition Opcode_ICONST_0 := DEF_OPCODE_CONST32_N (of_i 0).
Definition Opcode_ICONST_1 := DEF_OPCODE_CONST32_N (of_i 1).
Definition Opcode_ICONST_2 := DEF_OPCODE_CONST32_N (of_i 2).
Definition Opcode_ICONST_3 := DEF_OPCODE_CONST32_N (of_i 3).
Definition Opcode_ICONST_4 := DEF_OPCODE_CONST32_N (of_i 4).
Definition Opcode_ICONST_5 := DEF_OPCODE_CONST32_N (of_i 5).
Definition Opcode_FCONST_0 := DEF_OPCODE_CONST32_N (of_int binary32 0).
Definition Opcode_FCONST_1 := DEF_OPCODE_CONST32_N (of_int binary32 1).
Definition Opcode_FCONST_2 := DEF_OPCODE_CONST32_N (of_int binary32 2).

Definition DEF_OPCODE_CONST64_N (v : Value2) : Op unit := o_push 2;;* o_setLong 0 v;;* add_ip 1.
Definition Opcode_LCONST_0 := DEF_OPCODE_CONST64_N (of_i64 0).
Definition Opcode_LCONST_1 := DEF_OPCODE_CONST64_N (of_i64 1).
Definition Opcode_DCONST_0 := DEF_OPCODE_CONST64_N (of_u64 (of_int binary64 0)).
Definition Opcode_DCONST_1 := DEF_OPCODE_CONST64_N (of_u64 (of_int binary64 1)).

Definition Opcode_BIPUSH : Op unit :=
  o_push 1;;* do* v := o_read (read_int8 code) 1 in o_set_pick 0 (of_i v);;* add_ip 2.
Definition Opcode_SIPUSH : Op unit :=
  o_push 1;;* do* v := o_read (read_int16 code) 1 in o_set_pick 0 (of_i v);;* add_ip 3.

(** ** Loads and stores: the variable and the length of the instruction *)

Definition aload (varId len : Z) : Op unit :=
  do* val := o_local varId in
  o_push 1;;* o_set_pick 0 val;;*
  do* t := o_local_ref varId in o_set_ref 0 t;;* add_ip len.
Definition Opcode_ALOAD : Op unit := do* varId := o_read (read_uint8 code) 1 in aload varId 2.
Definition Opcode_WIDE_ALOAD : Op unit := do* varId := o_read (read_uint16 code) 2 in aload varId 4.
(** [Opcode_ALOAD_0] to [Opcode_ALOAD_3] *)
Definition DEF_OPCODE_ALOAD_N (N : Z) : Op unit :=
  do* val := o_local N in
  o_push 1;;* o_set_pick 0 val;;* o_set_ref 0 FLAG_OBJECT;;*
  do* t := o_local_ref N in o_set_ref 0 t;;* add_ip 1.

Definition iload (varId len : Z) : Op unit :=
  do* val := o_local varId in o_push 1;;* o_set_pick 0 val;;* add_ip len.
Definition Opcode_ILOAD : Op unit := do* varId := o_read (read_uint8 code) 1 in iload varId 2.
Definition Opcode_WIDE_ILOAD : Op unit := do* varId := o_read (read_uint16 code) 2 in iload varId 4.
Definition DEF_OPCODE_ILOAD_N (N : Z) : Op unit := iload N 1.

Definition lload (varId len : Z) : Op unit :=
  o_push 2;;*
  do* v1 := o_local (varId + l1) in o_set_pick s1 v1;;*
  do* v0 := o_local (varId + l0) in o_set_pick s0 v0;;* add_ip len.
Definition Opcode_LLOAD : Op unit := do* varId := o_read (read_uint8 code) 1 in lload varId 2.
Definition Opcode_WIDE_LLOAD : Op unit := do* varId := o_read (read_uint16 code) 2 in lload varId 4.
Definition DEF_OPCODE_LLOAD_N (N : Z) : Op unit := lload N 1.

Definition astore (varId len : Z) : Op unit :=
  do* val := o_pick 0 in
  o_set_local varId val;;*
  do* t := o_ref 0 in o_set_local_ref varId t;;*
  o_set_ref 0 FLAG_NONE;;* o_pop 1;;* add_ip len.
Definition Opcode_ASTORE : Op unit := do* varId := o_read (read_uint8 code) 1 in astore varId 2.
Definition Opcode_WIDE_ASTORE : Op unit := do* varId := o_read (read_uint16 code) 2 in astore varId 4.
Definition DEF_OPCODE_ASTORE_N (N : Z) : Op unit := astore N 1.

Definition istore (varId len : Z) : Op unit :=
  do* val := o_pick 0 in
  o_set_local varId val;;* o_set_local_ref varId FLAG_NONE;;* o_pop 1;;* add_ip len.
Definition Opcode_ISTORE : Op unit := do* varId := o_read (read_uint8 code) 1 in istore varId 2.
Definition Opcode_WIDE_ISTORE : Op unit := do* varId := o_read (read_uint16 code) 2 in istore varId 4.
Definition DEF_OPCODE_ISTORE_N (N : Z) : Op unit := istore N 1.

Definition lstore (varId len : Z) : Op unit :=
  do* v1 := o_pick s1 in o_set_local (varId + l1) v1;;*
  do* v0 := o_pick s0 in o_set_local (varId + l0) v0;;*
  o_set_local_ref (varId + 0) FLAG_NONE;;* o_set_local_ref (varId + 1) FLAG_NONE;;*
  o_pop 2;;* add_ip len.
Definition Opcode_LSTORE : Op unit := do* varId := o_read (read_uint8 code) 1 in lstore varId 2.
Definition Opcode_WIDE_LSTORE : Op unit := do* varId := o_read (read_uint16 code) 2 in lstore varId 4.
Definition DEF_OPCODE_LSTORE_N (N : Z) : Op unit := lstore N 1.

(** ** Arithmetic *)

(** [if (a > b) return 1; if (a == b) return 0; return -1;] and its mirror *)
Definition cmpl (F : format) (a b : Z) : Z := if fltb F b a then 1 else if feqb F a b then 0 else -1.
Definition cmpg (F : format) (a b : Z) : Z := if fltb F a b then -1 else if feqb F a b then 0 else 1.
Definition fcmpl : Z -> Z -> Z := cmpl binary32.
Definition fcmpg : Z -> Z -> Z := cmpg binary32.
Definition dcmpl : Z -> Z -> Z := cmpl binary64.
Definition dcmpg : Z -> Z -> Z := cmpg binary64.

(** The negation of a floating-point number flips its sign bit. *)
Definition fneg (F : format) (a : Z) : Z := Z.lxor a (2 ^ (fw F - 1)).

(** The macros, with the expression of the arguments. *)
Definition DEF_OPCODE_MATH_32_32_TO_32 (expr : Z -> Z -> Z) : Op unit :=
  do* arg0 := o_pick 0 in do* arg1 := o_pick 1 in
  o_set_pick 1 (expr arg1 arg0);;* o_pop 1;;* add_ip 1.
Definition DEF_OPCODE_MATH_32_TO_32 (expr : Z -> Z) : Op unit :=
  do* arg := o_pick 0 in o_set_pick 0 (expr arg);;* add_ip 1.
Definition DEF_OPCODE_MATH_32_TO_64 (expr : Z -> Value2) : Op unit :=
  do* arg := o_pick 0 in o_push 1;;* o_setLong 0 (expr arg);;* add_ip 1.
Definition DEF_OPCODE_MATH_64_TO_64 (expr : Value2 -> Value2) : Op unit :=
  do* arg := o_getLong 0 in o_setLong 0 (expr arg);;* add_ip 1.
Definition DEF_OPCODE_MATH_64_64_TO_64 (expr : Value2 -> Value2 -> Value2) : Op unit :=
  do* arg0 := o_getLong 0 in do* arg1 := o_getLong 2 in
  o_pop 2;;* o_setLong 0 (expr arg1 arg0);;* add_ip 1.
Definition DEF_OPCODE_MATH_64_64_TO_32 (expr : Value2 -> Value2 -> Z) : Op unit :=
  do* arg0 := o_getLong 0 in do* arg1 := o_getLong 2 in
  o_pop 3;;* o_set_pick 0 (expr arg1 arg0);;* add_ip 1.
Definition DEF_OPCODE_MATH_64_TO_32 (expr : Value2 -> Z) : Op unit :=
  do* arg := o_getLong 0 in o_pop 1;;* o_set_pick 0 (expr arg);;* add_ip 1.
Definition DEF_OPCODE_MATH_64_32_TO_64 (expr : Value2 -> Z -> Value2) : Op unit :=
  do* arg0 := o_pick 0 in do* arg1 := o_getLong 1 in
  o_pop 1;;* o_setLong 0 (expr arg1 arg0);;* add_ip 1.

(** The expressions on [.i], [.i64], [.f] and [.d]. *)
Definition on_i (f : Z -> Z -> Z) (a b : Z) : Z := of_i (f (val_i a) (val_i b)).
Definition on_i64 (f : Z -> Z -> Z) (a b : Value2) : Value2 := of_i64 (f (v2_i64 a) (v2_i64 b)).
Definition on_d (f : Z -> Z -> Z) (a b : Value2) : Value2 := of_u64 (f (v2_u64 a) (v2_u64 b)).

Definition Opcode_IADD := DEF_OPCODE_MATH_32_32_TO_32 (on_i Z.add).
Definition Opcode_ISUB := DEF_OPCODE_MATH_32_32_TO_32 (on_i Z.sub).
Definition Opcode_IMUL := DEF_OPCODE_MATH_32_32_TO_32 (on_i Z.mul).
Definition Opcode_IOR := DEF_OPCODE_MATH_32_32_TO_32 (on_i Z.lor).
Definition Opcode_IAND := DEF_OPCODE_MATH_32_32_TO_32 (on_i Z.land).
Definition Opcode_IXOR := DEF_OPCODE_MATH_32_32_TO_32 (on_i Z.lxor).
Definition Opcode_ISHL := DEF_OPCODE_MATH_32_32_TO_32 (on_i (fun a s => Z.shiftl a (Z.land s 0x1f))).
Definition Opcode_ISHR := DEF_OPCODE_MATH_32_32_TO_32 (on_i (fun a s => Z.shiftr a (Z.land s 0x1f))).
Definition Opcode_IUSHR := DEF_OPCODE_MATH_32_32_TO_32 (on_i (fun a s => Z.shiftr (ux 32 a) (Z.land s 0x1f))).

Definition Opcode_FADD := DEF_OPCODE_MATH_32_32_TO_32 (fadd binary32).
Definition Opcode_FSUB := DEF_OPCODE_MATH_32_32_TO_32 (fsub binary32).
Definition Opcode_FMUL := DEF_OPCODE_MATH_32_32_TO_32 (fmul binary32).
Definition Opcode_FDIV := DEF_OPCODE_MATH_32_32_TO_32 (fdiv binary32).
Definition Opcode_FREM := DEF_OPCODE_MATH_32_32_TO_32 (fmod binary32).

Definition Opcode_LADD := DEF_OPCODE_MATH_64_64_TO_64 (on_i64 Z.add).
Definition Opcode_LSUB := DEF_OPCODE_MATH_64_64_TO_64 (on_i64 Z.sub).
Definition Opcode_LMUL := DEF_OPCODE_MATH_64_64_TO_64 (on_i64 Z.mul).
Definition Opcode_LOR := DEF_OPCODE_MATH_64_64_TO_64 (on_i64 Z.lor).
Definition Opcode_LAND := DEF_OPCODE_MATH_64_64_TO_64 (on_i64 Z.land).
Definition Opcode_LXOR := DEF_OPCODE_MATH_64_64_TO_64 (on_i64 Z.lxor).

Definition Opcode_DADD := DEF_OPCODE_MATH_64_64_TO_64 (on_d (fadd binary64)).
Definition Opcode_DSUB := DEF_OPCODE_MATH_64_64_TO_64 (on_d (fsub binary64)).
Definition Opcode_DMUL := DEF_OPCODE_MATH_64_64_TO_64 (on_d (fmul binary64)).
Definition Opcode_DDIV := DEF_OPCODE_MATH_64_64_TO_64 (on_d (fdiv binary64)).
Definition Opcode_DREM := DEF_OPCODE_MATH_64_64_TO_64 (on_d (fmod binary64)).

Definition Opcode_LSHL := DEF_OPCODE_MATH_64_32_TO_64 (fun a s =>
  of_i64 (Z.shiftl (v2_i64 a) (Z.land (val_i s) 0x3f))).
Definition Opcode_LSHR := DEF_OPCODE_MATH_64_32_TO_64 (fun a s =>
  of_i64 (Z.shiftr (v2_i64 a) (Z.land (val_i s) 0x3f))).
Definition Opcode_LUSHR := DEF_OPCODE_MATH_64_32_TO_64 (fun a s =>
  of_i64 (Z.shiftr (ux 64 (v2_i64 a)) (Z.land (val_i s) 0x3f))).

Definition Opcode_FCMPL := DEF_OPCODE_MATH_32_32_TO_32 (fun a b => of_i (fcmpl a b)).
Definition Opcode_FCMPG := DEF_OPCODE_MATH_32_32_TO_32 (fun a b => of_i (fcmpg a b)).
Definition Opcode_DCMPL := DEF_OPCODE_MATH_64_64_TO_32 (fun a b => of_i (dcmpl (v2_u64 a) (v2_u64 b))).
Definition Opcode_DCMPG := DEF_OPCODE_MATH_64_64_TO_32 (fun a b => of_i (dcmpg (v2_u64 a) (v2_u64 b))).

Definition Opcode_INEG := DEF_OPCODE_MATH_32_TO_32 (fun a => of_i (- val_i a)).
Definition Opcode_FNEG := DEF_OPCODE_MATH_32_TO_32 (fneg binary32).
Definition Opcode_LNEG := DEF_OPCODE_MATH_64_TO_64 (fun a => of_i64 (- v2_i64 a)).
Definition Opcode_DNEG := DEF_OPCODE_MATH_64_TO_64 (fun a => of_u64 (fneg binary64 (v2_u64 a))).

(** ** Conversions *)

Definition Opcode_I2F := DEF_OPCODE_MATH_32_TO_32 (fun a => of_int binary32 (val_i a)).
Definition Opcode_I2B := DEF_OPCODE_MATH_32_TO_32 (fun a => of_i (sx 8 (val_i a))).
Definition Opcode_I2S := DEF_OPCODE_MATH_32_TO_32 (fun a => of_i (sx 16 (val_i a))).
Definition Opcode_I2C := DEF_OPCODE_MATH_32_TO_32 (fun a => of_i (ux 16 (val_i a))).
Definition Opcode_I2L := DEF_OPCODE_MATH_32_TO_64 (fun a => of_i64 (val_i a)).
Definition Opcode_I2D := DEF_OPCODE_MATH_32_TO_64 (fun a => of_u64 (of_int binary64 (val_i a))).
Definition Opcode_F2D := DEF_OPCODE_MATH_32_TO_64 (fun a => of_u64 (fconv binary32 binary64 a)).
Definition Opcode_L2D := DEF_OPCODE_MATH_64_TO_64 (fun a => of_u64 (of_int binary64 (v2_i64 a))).
Definition Opcode_D2F := DEF_OPCODE_MATH_64_TO_32 (fun a => fconv binary64 binary32 (v2_u64 a)).
Definition Opcode_L2F := DEF_OPCODE_MATH_64_TO_32 (fun a => of_int binary32 (v2_i64 a)).
Definition Opcode_L2I := DEF_OPCODE_MATH_64_TO_32 (fun a => of_i (sx 32 (v2_i64 a))).

(** The common body of the conversions to integers: [val] is the argument read
    as an integer, [emask] and [max_exp] select and bound its exponent. *)
Definition to_integer (w : Z) (F : format) (emask max_exp : Z) (val arg : Z) : Z :=
  let exponent := Z.land val emask in
  if exponent <? max_exp then ftrunc F arg
  else if fnan F arg then 0
  else if fltb F (of_int F 0) arg then 2 ^ (w - 1) - 1
  else - 2 ^ (w - 1).

Definition d2i (arg : Value2) : Z :=
  to_integer 32 binary64 (Z.shiftl 0x7FF 52) (Z.shiftl (0x3FF + 31) 52) (v2_i64 arg) (v2_u64 arg).
Definition f2i (arg : Z) : Z :=
  to_integer 32 binary32 (Z.shiftl 0xFF 23) (Z.shiftl (0x7F + 31) 23) (val_i arg) arg.
Definition d2l (arg : Value2) : Z :=
  to_integer 64 binary64 (Z.shiftl 0x7FF 52) (Z.shiftl (0x3FF + 63) 52) (v2_i64 arg) (v2_u64 arg).
Definition f2l (arg : Z) : Z :=
  to_integer 64 binary32 (Z.shiftl 0xFF 23) (Z.shiftl (0x7F + 63) 23) (val_i arg) arg.

Definition Opcode_D2I : Op unit := DEF_OPCODE_MATH_64_TO_32 (fun a => of_i (d2i a)).
Definition Opcode_F2I : Op unit := DEF_OPCODE_MATH_32_TO_32 (fun a => of_i (f2i a)).
Definition Opcode_D2L : Op unit := DEF_OPCODE_MATH_64_TO_64 (fun a => of_i64 (d2l a)).
Definition Opcode_F2L : Op unit := DEF_OPCODE_MATH_32_TO_64 (fun a => of_i64 (f2l a)).

(** ** Division *)

Definition ArithmeticException : string := "java/lang/ArithmeticException".

Definition DEF_OPCODE_DIV_32_32_TO_32 (expr : Z -> Z -> Z) : Op unit :=
  do* arg0 := o_pick 0 in
  if val_i arg0 =? 0 then interp_throw_exception ArithmeticException else
  do* arg1 := o_pick 1 in
  o_set_pick 1 (expr arg1 arg0);;* o_pop 1;;* add_ip 1.
Definition Opcode_IDIV := DEF_OPCODE_DIV_32_32_TO_32 (on_i (fun a b => sx 32 (Z.quot a b))).
Definition Opcode_IREM := DEF_OPCODE_DIV_32_32_TO_32 (on_i (fun a b => sx 32 (Z.rem a b))).

(** A 64-bit division whose quotient overflows is undefined unless the
    build has the test of [_EM64T_]; [guarded] is the value it stores. *)
Definition div_64 (guarded : Z -> Z) (expr : Z -> Z -> Z) : Op unit :=
  do* arg0 := o_getLong 0 in
  if v2_i64 arg0 =? 0 then interp_throw_exception ArithmeticException else
  do* arg1 := o_getLong 2 in
  o_pop 2;;*
  if EM64T && (v2_i64 arg1 =? sx 64 (- v2_i64 arg1)) && (v2_i64 arg0 =? -1)
  then o_setLong 0 (of_i64 (guarded (v2_i64 arg1)));;* add_ip 1
  else if (v2_i64 arg1 =? - 2 ^ 63) && (v2_i64 arg0 =? -1) then ofail
  else o_setLong 0 (of_i64 (expr (v2_i64 arg1) (v2_i64 arg0)));;* add_ip 1.
Definition Opcode_LDIV : Op unit := div_64 (fun a => a) Z.quot.
Definition Opcode_LREM : Op unit := div_64 (fun _ => 0) Z.rem.

Definition Opcode_LCMP : Op unit :=
  do* v1 := o_getLong 0 in
  do* v0 := o_getLong 2 in
  let res := if v2_i64 v0 <? v2_i64 v1 then -1 else if v2_i64 v0 =? v2_i64 v1 then 0 else 1 in
  o_pop 3;;* o_set_pick 0 (of_i res);;* add_ip 1.

(** ** Stack manipulation *)

(** [frame.stack.pick(d) = frame.stack.pick(s)], and the same for [ref] *)
Definition copy_pick (d s : Z) : Op unit := do* v := o_pick s in o_set_pick d v.
Definition copy_ref (d s : Z) : Op unit := do* t := o_ref s in o_set_ref d t.

Definition Opcode_POP : Op unit := o_set_ref 0 FLAG_NONE;;* o_pop 1;;* add_ip 1.
Definition Opcode_POP2 : Op unit :=
  o_set_ref 0 FLAG_NONE;;* o_set_ref 1 FLAG_NONE;;* o_pop 2;;* add_ip 1.
Definition Opcode_SWAP : Op unit :=
  do* tmp := o_pick 0 in copy_pick 0 1;;* o_set_pick 1 tmp;;*
  do* r := o_ref 0 in copy_ref 0 1;;* o_set_ref 1 r;;* add_ip 1.
Definition Opcode_DUP : Op unit := o_push 1;;* copy_pick 0 1;;* copy_ref 0 1;;* add_ip 1.
Definition Opcode_DUP2 : Op unit :=
  o_push 2;;* copy_pick 0 2;;* copy_pick 1 3;;* copy_ref 0 2;;* copy_ref 1 3;;* add_ip 1.
Definition Opcode_DUP_X1 : Op unit :=
  o_push 1;;* copy_pick 0 1;;* copy_pick 1 2;;* copy_pick 2 0;;*
  copy_ref 0 1;;* copy_ref 1 2;;* copy_ref 2 0;;* add_ip 1.
Definition Opcode_DUP_X2 : Op unit :=
  o_push 1;;* copy_pick 0 1;;* copy_pick 1 2;;* copy_pick 2 3;;* copy_pick 3 0;;*
  copy_ref 0 1;;* copy_ref 1 2;;* copy_ref 2 3;;* copy_ref 3 0;;* add_ip 1.
Definition Opcode_DUP2_X1 : Op unit :=
  o_push 2;;* copy_pick 0 2;;* copy_pick 1 3;;* copy_pick 2 4;;* copy_pick 3 0;;* copy_pick 4 1;;*
  copy_ref 0 2;;* copy_ref 1 3;;* copy_ref 2 4;;* copy_ref 3 0;;* copy_ref 4 1;;* add_ip 1.
Definition Opcode_DUP2_X2 : Op unit :=
  o_push 2;;* copy_pick 0 2;;* copy_pick 1 3;;* copy_pick 2 4;;* copy_pick 3 5;;* copy_pick 4 0;;* copy_pick 5 1;;*
  copy_ref 0 2;;* copy_ref 1 3;;* copy_ref 2 4;;* copy_ref 3 5;;* copy_ref 4 0;;* copy_ref 5 1;;* add_ip 1.

Definition iinc (varNum incr len : Z) : Op unit :=
  do* v := o_local varNum in o_set_local varNum (of_i (val_i v + incr));;* add_ip len.
Definition Opcode_IINC : Op unit :=
  do* varNum := o_read (read_uint8 code) 1 in do* incr := o_read (read_int8 code) 2 in iinc varNum incr 3.
Definition Opcode_WIDE_IINC : Op unit :=
  do* varNum := o_read (read_uint16 code) 2 in do* incr := o_read (read_int16 code) 4 in iinc varNum incr 6.

(** ** Branches *)

Definition branch (taken : bool) : Op unit :=
  if taken then do* off := o_read (read_int16 code) 1 in add_ip off else add_ip 3.

Definition DEF_OPCODE_CMP (check : Z -> bool) : Op unit :=
  do* v := o_pick 0 in
  o_set_ref 0 FLAG_NONE;;* branch (check (val_i v));;* o_pop 1.
Definition Opcode_IFEQ := DEF_OPCODE_CMP (fun v => v =? 0).
Definition Opcode_IFNE := DEF_OPCODE_CMP (fun v => negb (v =? 0)).
Definition Opcode_IFGE := DEF_OPCODE_CMP (fun v => 0 <=? v).
Definition Opcode_IFGT := DEF_OPCODE_CMP (fun v => 0 <? v).
Definition Opcode_IFLE := DEF_OPCODE_CMP (fun v => v <=? 0).
Definition Opcode_IFLT := DEF_OPCODE_CMP (fun v => v <? 0).

Definition DEF_OPCODE_IF_ICMPXX (cmp : Z -> Z -> bool) : Op unit :=
  do* val0 := o_pick 1 in do* val1 := o_pick 0 in
  o_set_ref 1 FLAG_NONE;;* o_set_ref 0 FLAG_NONE;;*
  branch (cmp (val_i val0) (val_i val1));;* o_pop 2.
Definition Opcode_IF_ICMPEQ := DEF_OPCODE_IF_ICMPXX Z.eqb.
Definition Opcode_IF_ICMPNE := DEF_OPCODE_IF_ICMPXX (fun a b => negb (a =? b)).
Definition Opcode_IF_ICMPGE := DEF_OPCODE_IF_ICMPXX (fun a b => b <=? a).
Definition Opcode_IF_ICMPGT := DEF_OPCODE_IF_ICMPXX (fun a b => b <? a).
Definition Opcode_IF_ICMPLE := DEF_OPCODE_IF_ICMPXX Z.leb.
Definition Opcode_IF_ICMPLT := DEF_OPCODE_IF_ICMPXX Z.ltb.

Definition Opcode_GOTO : Op unit := do* off := o_read (read_int16 code) 1 in add_ip off.
Definition Opcode_GOTO_W : Op unit := do* off := o_read (read_int32 code) 1 in add_ip off.

(** ** Switches *)

(** The operands begin at the next multiple of four of the code's offset. *)
Definition switch_operands (oldip : Z) : Z := Z.land (oldip + 1 + 3) (-4).

Definition Opcode_TABLESWITCH : Op unit :=
  do* oldip := get_ip in
  let ip := switch_operands oldip in
  do* deflt := oread (fun _ => read_int32 code ip) in
  do* low := oread (fun _ => read_int32 code (ip + 4)) in
  do* high := oread (fun _ => read_int32 code (ip + 8)) in
  do* val := o_pick 0 in
  o_pop 1;;*
  if (val_i val <? low) || (high <? val_i val) then set_ip (oldip + deflt)
  else
    do* off := oread (fun _ => read_int32 code (ip + 12 + sx 32 (Z.shiftl (sx 32 (val_i val - low)) 2))) in
    set_ip (oldip + off).

(** The loop of [Opcode_LOOKUPSWITCH] over the pairs left. *)
Fixpoint lookup_loop (oldip ip deflt val : Z) (i : Z) (n : nat) : Op unit :=
  match n with
  | O => set_ip (oldip + deflt)
  | S n =>
      do* key := oread (fun _ => read_int32 code (ip + 8 + i * 8)) in
      if val =? key then
        do* off := oread (fun _ => read_int32 code (ip + 12 + i * 8)) in set_ip (oldip + off)
      else lookup_loop oldip ip deflt val (i + 1) n
  end.

Definition Opcode_LOOKUPSWITCH : Op unit :=
  do* oldip := get_ip in
  let ip := switch_operands oldip in
  do* deflt := oread (fun _ => read_int32 code ip) in
  do* num := oread (fun _ => read_int32 code (ip + 4)) in
  do* val := o_pick 0 in
  o_pop 1;;* lookup_loop oldip ip deflt (val_i val) 0 (Z.to_nat num).

(** ** Subroutines *)

Definition jsr (len : Z) (read : Z -> option Z) : Op unit :=
  do* ip := get_ip in
  let retAddr := ux 32 (ip + len) in
  o_push 1;;* o_set_pick 0 retAddr;;* o_set_ref 0 FLAG_RET_ADDR;;*
  do* off := o_read read 1 in add_ip off.
Definition Opcode_JSR : Op unit := jsr 3 (read_int16 code).
Definition Opcode_JSR_W : Op unit := jsr 5 (read_int32 code).

Definition Opcode_RET : Op unit :=
  do* varNum := o_read (read_uint8 code) 1 in
  do* retAddr := o_local varNum in
  do* t := o_local_ref varNum in
  if t =? FLAG_RET_ADDR then set_ip retAddr else ofail.
Definition Opcode_WIDE_RET : Op unit :=
  do* varNum := o_read (read_uint16 code) 2 in
  do* retAddr := o_local varNum in set_ip retAddr.
(** ** Dispatch

    The cases of [interpreter]'s switch for these opcodes, by the opcode
    number; [None] for the opcodes that are not of this file. *)
Definition dispatch_wide : Op unit :=
  do* op := o_read (byte code) 1 in
  match op with
  | 21 | 23 => Opcode_WIDE_ILOAD
  | 22 | 24 => Opcode_WIDE_LLOAD
  | 25 => Opcode_WIDE_ALOAD
  | 54 | 56 => Opcode_WIDE_ISTORE
  | 55 | 57 => Opcode_WIDE_LSTORE
  | 58 => Opcode_WIDE_ASTORE
  | 132 => Opcode_WIDE_IINC
  | 169 => Opcode_WIDE_RET
  | _ => ofail
  end.

Definition dispatch (op : Z) : option (Op unit) :=
  match op with
  | 0 => Some Opcode_NOP
  | 1 => Some Opcode_ACONST_NULL
  | 2 => Some Opcode_ICONST_M1
  | 3 => Some Opcode_ICONST_0
  | 4 => Some Opcode_ICONST_1
  | 5 => Some Opcode_ICONST_2
  | 6 => Some Opcode_ICONST_3
  | 7 => Some Opcode_ICONST_4
  | 8 => Some Opcode_ICONST_5
  | 9 => Some Opcode_LCONST_0
  | 10 => Some Opcode_LCONST_1
  | 11 => Some Opcode_FCONST_0
  | 12 => Some Opcode_FCONST_1
  | 13 => Some Opcode_FCONST_2
  | 14 => Some Opcode_DCONST_0
  | 15 => Some Opcode_DCONST_1
  | 16 => Some Opcode_BIPUSH
  | 17 => Some Opcode_SIPUSH
  | 21 => Some Opcode_ILOAD
  | 22 => Some Opcode_LLOAD
  | 23 => Some Opcode_ILOAD
  | 24 => Some Opcode_LLOAD
  | 25 => Some Opcode_ALOAD
  | 26 => Some (DEF_OPCODE_ILOAD_N 0)
  | 27 => Some (DEF_OPCODE_ILOAD_N 1)
  | 28 => Some (DEF_OPCODE_ILOAD_N 2)
  | 29 => Some (DEF_OPCODE_ILOAD_N 3)
  | 30 => Some (DEF_OPCODE_LLOAD_N 0)
  | 31 => Some (DEF_OPCODE_LLOAD_N 1)
  | 32 => Some (DEF_OPCODE_LLOAD_N 2)
  | 33 => Some (DEF_OPCODE_LLOAD_N 3)
  | 34 => Some (DEF_OPCODE_ILOAD_N 0)
  | 35 => Some (DEF_OPCODE_ILOAD_N 1)
  | 36 => Some (DEF_OPCODE_ILOAD_N 2)
  | 37 => Some (DEF_OPCODE_ILOAD_N 3)
  | 38 => Some (DEF_OPCODE_LLOAD_N 0)
  | 39 => Some (DEF_OPCODE_LLOAD_N 1)
  | 40 => Some (DEF_OPCODE_LLOAD_N 2)
  | 41 => Some (DEF_OPCODE_LLOAD_N 3)
  | 42 => Some (DEF_OPCODE_ALOAD_N 0)
  | 43 => Some (DEF_OPCODE_ALOAD_N 1)
  | 44 => Some (DEF_OPCODE_ALOAD_N 2)
  | 45 => Some (DEF_OPCODE_ALOAD_N 3)
  | 54 => Some Opcode_ISTORE
  | 55 => Some Opcode_LSTORE
  | 56 => Some Opcode_ISTORE
  | 57 => Some Opcode_LSTORE
  | 58 => Some Opcode_ASTORE
  | 59 => Some (DEF_OPCODE_ISTORE_N 0)
  | 60 => Some (DEF_OPCODE_ISTORE_N 1)
  | 61 => Some (DEF_OPCODE_ISTORE_N 2)
  | 62 => Some (DEF_OPCODE_ISTORE_N 3)
  | 63 => Some (DEF_OPCODE_LSTORE_N 0)
  | 64 => Some (DEF_OPCODE_LSTORE_N 1)
  | 65 => Some (DEF_OPCODE_LSTORE_N 2)
  | 66 => Some (DEF_OPCODE_LSTORE_N 3)
  | 67 => Some (DEF_OPCODE_ISTORE_N 0)
  | 68 => Some (DEF_OPCODE_ISTORE_N 1)
  | 69 => Some (DEF_OPCODE_ISTORE_N 2)
  | 70 => Some (DEF_OPCODE_ISTORE_N 3)
  | 71 => Some (DEF_OPCODE_LSTORE_N 0)
  | 72 => Some (DEF_OPCODE_LSTORE_N 1)
  | 73 => Some (DEF_OPCODE_LSTORE_N 2)
  | 74 => Some (DEF_OPCODE_LSTORE_N 3)
  | 75 => Some (DEF_OPCODE_ASTORE_N 0)
  | 76 => Some (DEF_OPCODE_ASTORE_N 1)
  | 77 => Some (DEF_OPCODE_ASTORE_N 2)
  | 78 => Some (DEF_OPCODE_ASTORE_N 3)
  | 87 => Some Opcode_POP
  | 88 => Some Opcode_POP2
  | 89 => Some Opcode_DUP
  | 90 => Some Opcode_DUP_X1
  | 91 => Some Opcode_DUP_X2
  | 92 => Some Opcode_DUP2
  | 93 => Some Opcode_DUP2_X1
  | 94 => Some Opcode_DUP2_X2
  | 95 => Some Opcode_SWAP
  | 96 => Some Opcode_IADD
  | 97 => Some Opcode_LADD
  | 98 => Some Opcode_FADD
  | 99 => Some Opcode_DADD
  | 100 => Some Opcode_ISUB
  | 101 => Some Opcode_LSUB
  | 102 => Some Opcode_FSUB
  | 103 => Some Opcode_DSUB
  | 104 => Some Opcode_IMUL
  | 105 => Some Opcode_LMUL
  | 106 => Some Opcode_FMUL
  | 107 => Some Opcode_DMUL
  | 108 => Some Opcode_IDIV
  | 109 => Some Opcode_LDIV
  | 110 => Some Opcode_FDIV
  | 111 => Some Opcode_DDIV
  | 112 => Some Opcode_IREM
  | 113 => Some Opcode_LREM
  | 114 => Some Opcode_FREM
  | 115 => Some Opcode_DREM
  | 116 => Some Opcode_INEG
  | 117 => Some Opcode_LNEG
  | 118 => Some Opcode_FNEG
  | 119 => Some Opcode_DNEG
  | 120 => Some Opcode_ISHL
  | 121 => Some Opcode_LSHL
  | 122 => Some Opcode_ISHR
  | 123 => Some Opcode_LSHR
  | 124 => Some Opcode_IUSHR
  | 125 => Some Opcode_LUSHR
  | 126 => Some Opcode_IAND
  | 127 => Some Opcode_LAND
  | 128 => Some Opcode_IOR
  | 129 => Some Opcode_LOR
  | 130 => Some Opcode_IXOR
  | 131 => Some Opcode_LXOR
  | 132 => Some Opcode_IINC
  | 133 => Some Opcode_I2L
  | 134 => Some Opcode_I2F
  | 135 => Some Opcode_I2D
  | 136 => Some Opcode_L2I
  | 137 => Some Opcode_L2F
  | 138 => Some Opcode_L2D
  | 139 => Some Opcode_F2I
  | 140 => Some Opcode_F2L
  | 141 => Some Opcode_F2D
  | 142 => Some Opcode_D2I
  | 143 => Some Opcode_D2L
  | 144 => Some Opcode_D2F
  | 145 => Some Opcode_I2B
  | 146 => Some Opcode_I2C
  | 147 => Some Opcode_I2S
  | 148 => Some Opcode_LCMP
  | 149 => Some Opcode_FCMPL
  | 150 => Some Opcode_FCMPG
  | 151 => Some Opcode_DCMPL
  | 152 => Some Opcode_DCMPG
  | 153 => Some Opcode_IFEQ
  | 154 => Some Opcode_IFNE
  | 155 => Some Opcode_IFLT
  | 156 => Some Opcode_IFGE
  | 157 => Some Opcode_IFGT
  | 158 => Some Opcode_IFLE
  | 159 => Some Opcode_IF_ICMPEQ
  | 160 => Some Opcode_IF_ICMPNE
  | 161 => Some Opcode_IF_ICMPLT
  | 162 => Some Opcode_IF_ICMPGE
  | 163 => Some Opcode_IF_ICMPGT
  | 164 => Some Opcode_IF_ICMPLE
  | 165 => Some Opcode_IF_ICMPEQ
  | 166 => Some Opcode_IF_ICMPNE
  | 167 => Some Opcode_GOTO
  | 168 => Some Opcode_JSR
  | 169 => Some Opcode_RET
  | 170 => Some Opcode_TABLESWITCH
  | 171 => Some Opcode_LOOKUPSWITCH
  | 196 => Some dispatch_wide
  | 198 => Some Opcode_IFEQ
  | 199 => Some Opcode_IFNE
  | 200 => Some Opcode_GOTO_W
  | 201 => Some Opcode_JSR_W
  | _ => None
  end.
End opcodes.
