(* ===== verification/OpcodesOk.v ===== *)
(** * The frame opcodes against the Java virtual machine specification

    [java_arith] and [java_shuffle] say what the instructions do to a stack of
    Java values; the opcodes of [Opcodes.v] do the same to the cells of a frame
    that holds them, keep the tags right and advance the instruction pointer. *)
From Stdlib Require Import SpecFloat.
From stdpp Require Import strings.
From S2P Require Import Prelude Floats JavaArith Frame FrameOk Opcodes.

(** ** Specification of the arithmetic instructions *)

Inductive fop := FAdd | FSub | FMul | FDiv | FRem.

Definition java_fop (F : format) (op : fop) : Z -> Z -> Z :=
  match op with
  | FAdd => fadd F | FSub => fsub F | FMul => fmul F | FDiv => fdiv F | FRem => fmod F
  end.

(** The targets of the conversions. *)
Inductive prim := PByte | PChar | PShort | PInt | PLong | PFloat | PDouble.

Definition java_conv (v : jval) (to : prim) : option jval :=
  match v, to with
  | VInt i, PByte => Some (VInt (sx 8 i))
  | VInt i, PChar => Some (VInt (ux 16 i))
  | VInt i, PShort => Some (VInt (sx 16 i))
  | VInt i, PLong => Some (VLong i)
  | VInt i, PFloat => Some (VFloat (of_int binary32 i))
  | VInt i, PDouble => Some (VDouble (of_int binary64 i))
  | VLong i, PInt => Some (VInt (sx 32 i))
  | VLong i, PFloat => Some (VFloat (of_int binary32 i))
  | VLong i, PDouble => Some (VDouble (of_int binary64 i))
  | VFloat b, PInt => Some (VInt (java_f2i 32 binary32 b))
  | VFloat b, PLong => Some (VLong (java_f2i 64 binary32 b))
  | VFloat b, PDouble => Some (VDouble (fconv binary32 binary64 b))
  | VDouble b, PInt => Some (VInt (java_f2i 32 binary64 b))
  | VDouble b, PLong => Some (VLong (java_f2i 64 binary64 b))
  | VDouble b, PFloat => Some (VFloat (fconv binary64 binary32 b))
  | _, _ => None
  end.

Inductive ainstr :=
  | AInt (op : binop) | ALong (op : binop) | ALongShift (op : binop)
  | AFloat (op : fop) | ADouble (op : fop)
  | ANeg | ALcmp | AFcmp (nan : Z) | AConv (to : prim).

Definition is_shift (op : binop) : bool :=
  match op with JShl | JShr | JUshr => true | _ => false end.

(** The stack after the instruction; [Some None] is an [ArithmeticException],
    [None] an instruction that does not apply to the types on the stack. *)
Definition java_arith (a : ainstr) (st : list jval) : option (option (list jval)) :=
  match a, st with
  | AInt op, VInt b :: VInt a :: st => Some (r ← java_binop 32 op a b; Some (VInt r :: st))
  | ALong op, VLong b :: VLong a :: st => Some (r ← java_binop 64 op a b; Some (VLong r :: st))
  | ALongShift op, VInt b :: VLong a :: st => Some (r ← java_binop 64 op a b; Some (VLong r :: st))
  | AFloat op, VFloat b :: VFloat a :: st => Some (Some (VFloat (java_fop binary32 op a b) :: st))
  | ADouble op, VDouble b :: VDouble a :: st => Some (Some (VDouble (java_fop binary64 op a b) :: st))
  | ANeg, VInt a :: st => Some (Some (VInt (java_neg 32 a) :: st))
  | ANeg, VLong a :: st => Some (Some (VLong (java_neg 64 a) :: st))
  | ANeg, VFloat a :: st => Some (Some (VFloat (fneg binary32 a) :: st))
  | ANeg, VDouble a :: st => Some (Some (VDouble (fneg binary64 a) :: st))
  | ALcmp, VLong b :: VLong a :: st => Some (Some (VInt (java_cmp a b) :: st))
  | AFcmp nan, VFloat b :: VFloat a :: st => Some (Some (VInt (java_fcmp binary32 nan a b) :: st))
  | AFcmp nan, VDouble b :: VDouble a :: st => Some (Some (VInt (java_fcmp binary64 nan a b) :: st))
  | AConv to, v :: st => r ← java_conv v to; Some (Some (r :: st))
  | _, _ => None
  end.

(** The arithmetic instructions by their opcodes, with the type of the topmost
    operand. *)
Inductive ty := TyInt | TyLong | TyFloat | TyDouble.

Definition type_of (v : jval) : option ty :=
  match v with
  | VInt _ => Some TyInt | VLong _ => Some TyLong | VFloat _ => Some TyFloat | VDouble _ => Some TyDouble
  | _ => None
  end.

Definition arith_table : list (Z * (ty * ainstr)) :=
  [(0x60, (TyInt, AInt JAdd)); (0x61, (TyLong, ALong JAdd)); (0x62, (TyFloat, AFloat FAdd)); (0x63, (TyDouble, ADouble FAdd));
   (0x64, (TyInt, AInt JSub)); (0x65, (TyLong, ALong JSub)); (0x66, (TyFloat, AFloat FSub)); (0x67, (TyDouble, ADouble FSub));
   (0x68, (TyInt, AInt JMul)); (0x69, (TyLong, ALong JMul)); (0x6a, (TyFloat, AFloat FMul)); (0x6b, (TyDouble, ADouble FMul));
   (0x6c, (TyInt, AInt JDiv)); (0x6d, (TyLong, ALong JDiv)); (0x6e, (TyFloat, AFloat FDiv)); (0x6f, (TyDouble, ADouble FDiv));
   (0x70, (TyInt, AInt JRem)); (0x71, (TyLong, ALong JRem)); (0x72, (TyFloat, AFloat FRem)); (0x73, (TyDouble, ADouble FRem));
   (0x74, (TyInt, ANeg)); (0x75, (TyLong, ANeg)); (0x76, (TyFloat, ANeg)); (0x77, (TyDouble, ANeg));
   (0x78, (TyInt, AInt JShl)); (0x79, (TyInt, ALongShift JShl)); (0x7a, (TyInt, AInt JShr)); (0x7b, (TyInt, ALongShift JShr));
   (0x7c, (TyInt, AInt JUshr)); (0x7d, (TyInt, ALongShift JUshr));
   (0x7e, (TyInt, AInt JAnd)); (0x7f, (TyLong, ALong JAnd)); (0x80, (TyInt, AInt JOr)); (0x81, (TyLong, ALong JOr));
   (0x82, (TyInt, AInt JXor)); (0x83, (TyLong, ALong JXor));
   (0x85, (TyInt, AConv PLong)); (0x86, (TyInt, AConv PFloat)); (0x87, (TyInt, AConv PDouble));
   (0x88, (TyLong, AConv PInt)); (0x89, (TyLong, AConv PFloat)); (0x8a, (TyLong, AConv PDouble));
   (0x8b, (TyFloat, AConv PInt)); (0x8c, (TyFloat, AConv PLong)); (0x8d, (TyFloat, AConv PDouble));
   (0x8e, (TyDouble, AConv PInt)); (0x8f, (TyDouble, AConv PLong)); (0x90, (TyDouble, AConv PFloat));
   (0x91, (TyInt, AConv PByte)); (0x92, (TyInt, AConv PChar)); (0x93, (TyInt, AConv PShort));
   (0x94, (TyLong, ALcmp)); (0x95, (TyFloat, AFcmp (-1))); (0x96, (TyFloat, AFcmp 1));
   (0x97, (TyDouble, AFcmp (-1))); (0x98, (TyDouble, AFcmp 1))].

(** ** The macros *)

(** The opcode replaces the values [vs] on top of the stack by [vs'], goes to
    the next byte and changes nothing else. *)
Definition replaces (m : Op unit) (vs vs' : list jval) : Prop :=
  forall rest i junk l x, (depth (vs' ++ rest) <= depth (vs ++ rest) + length junk)%nat ->
  owp m (fr i (cells_of_stack (vs ++ rest)) junk l x) (fun f' _ =>
    exists junk', f' = fr (i + 1) (cells_of_stack (vs' ++ rest)) junk' l x).

Lemma cells_app vs ws : cells_of_stack (vs ++ ws) = cells_of_stack vs ++ cells_of_stack ws.
Proof. apply flat_map_app. Qed.

Lemma depth_app vs ws : depth (vs ++ ws) = (depth vs + depth ws)%nat.
Proof. unfold depth. by rewrite cells_app, length_app. Qed.

(** A value of one untagged element, or of two. *)
Definition word_val (v : jval) (a : Z) : Prop := cells_of v = [(a, FLAG_NONE)].
Definition long_val (v : jval) (a : Value2) : Prop := cells_of v = cells2 a.

Ltac replaces_start :=
  intros rest i junk l x Hroom; rewrite !cells_app; unfold cells_of_stack; cbn [flat_map];
  repeat match goal with H : word_val _ _ |- _ => unfold word_val in H; rewrite ?H
    | H : long_val _ _ |- _ => unfold long_val in H; rewrite ?H end;
  unfold cells2; cbn [app].
Ltac replaces_done := op_steps; eexists; reflexivity.

Section macros.
Context (u v r : jval).

Lemma math_32_32_to_32 expr a b : word_val v b -> word_val u a -> word_val r (expr a b) ->
  replaces (DEF_OPCODE_MATH_32_32_TO_32 expr) [v; u] [r].
Proof. intros Hv Hu Hr. replaces_start. unfold DEF_OPCODE_MATH_32_32_TO_32. replaces_done. Qed.

Lemma math_32_to_32 expr a : word_val v a -> word_val r (expr a) ->
  replaces (DEF_OPCODE_MATH_32_TO_32 expr) [v] [r].
Proof. intros Hv Hr. replaces_start. unfold DEF_OPCODE_MATH_32_TO_32. replaces_done. Qed.

Lemma math_32_to_64 expr a : word_val v a -> long_val r (expr a) ->
  replaces (DEF_OPCODE_MATH_32_TO_64 expr) [v] [r].
Proof.
  intros Hv Hr. replaces_start. unfold DEF_OPCODE_MATH_32_TO_64.
  destruct junk as [|j junk].
  { exfalso. rewrite !depth_app in Hroom. unfold depth, cells_of_stack in Hroom. simpl in Hroom.
    rewrite Hv, Hr in Hroom. simpl in Hroom. lia. }
  replaces_done.
Qed.

Lemma math_64_to_64 expr a : long_val v a -> long_val r (expr a) ->
  replaces (DEF_OPCODE_MATH_64_TO_64 expr) [v] [r].
Proof. intros Hv Hr. destruct a. replaces_start. unfold DEF_OPCODE_MATH_64_TO_64. replaces_done. Qed.

Lemma math_64_64_to_64 expr a b : long_val v b -> long_val u a -> long_val r (expr a b) ->
  replaces (DEF_OPCODE_MATH_64_64_TO_64 expr) [v; u] [r].
Proof. intros Hv Hu Hr. destruct a, b. replaces_start. unfold DEF_OPCODE_MATH_64_64_TO_64. replaces_done. Qed.

Lemma math_64_64_to_32 expr a b : long_val v b -> long_val u a -> word_val r (expr a b) ->
  replaces (DEF_OPCODE_MATH_64_64_TO_32 expr) [v; u] [r].
Proof. intros Hv Hu Hr. destruct a, b. replaces_start. unfold DEF_OPCODE_MATH_64_64_TO_32. replaces_done. Qed.

Lemma math_64_to_32 expr a : long_val v a -> word_val r (expr a) ->
  replaces (DEF_OPCODE_MATH_64_TO_32 expr) [v] [r].
Proof. intros Hv Hr. destruct a. replaces_start. unfold DEF_OPCODE_MATH_64_TO_32. replaces_done. Qed.

Lemma math_64_32_to_64 expr a b : word_val v b -> long_val u a -> long_val r (expr a b) ->
  replaces (DEF_OPCODE_MATH_64_32_TO_64 expr) [v; u] [r].
Proof. intros Hv Hu Hr. destruct a. replaces_start. unfold DEF_OPCODE_MATH_64_32_TO_64. replaces_done. Qed.
End macros.

(** ** Floating-point comparison and narrowing *)

Lemma SFcompare_swap x y : SFcompare y x = CompOpp <$> SFcompare x y.
Proof.
  destruct x as [|s1| |s1 m1 e1], y as [|s2| |s2 m2 e2]; try done; simpl; try (by destruct s1); try (by destruct s2);
    try (by destruct s1, s2).
  assert (Pos.compare_cont Eq m2 m1 = CompOpp (Pos.compare_cont Eq m1 m2)) as ->
    by (by rewrite Pos.compare_cont_antisym).
  rewrite (Z.compare_antisym e1 e2).
  by destruct s1, s2, (e1 ?= e2), (Pos.compare_cont Eq m1 m2).
Qed.

Lemma cmpl_java F a b : cmpl F a b = java_fcmp F (-1) a b.
Proof.
  unfold cmpl, java_fcmp, fltb, feqb, SFltb, SFeqb.
  rewrite (SFcompare_swap (decode F a)). by destruct (SFcompare _ _) as [[]|].
Qed.

Lemma cmpg_java F a b : cmpg F a b = java_fcmp F 1 a b.
Proof. unfold cmpg, java_fcmp, fltb, feqb, SFltb, SFeqb. by destruct (SFcompare _ _) as [[]|]. Qed.

Lemma java_fcmp_range F nan a b : nan = -1 \/ nan = 1 -> is_s 32 (java_fcmp F nan a b).
Proof. intros Hn. unfold java_fcmp. destruct (SFcompare _ _) as [[]|]; by destruct Hn as [-> | ->]. Qed.

(** The exponent field under its mask. *)
Lemma land_field w a k n : 0 <= k -> 0 <= n -> k + n <= w ->
  Z.land (sx w a) (Z.shiftl (Z.ones n) k) = Z.shiftl ((a / 2 ^ k) mod 2 ^ n) k.
Proof.
  intros Hk Hn Hw. apply Z.bits_inj'. intros i Hi. rewrite Z.land_spec, !Z.shiftl_spec by lia.
  destruct (Z.ltb_spec i k).
  { rewrite !(Z.testbit_neg_r _ (i - k)) by lia. apply andb_false_r. }
  rewrite <- Z.land_ones, Z.land_spec, <- Z.shiftr_div_pow2, Z.shiftr_spec by lia.
  rewrite Z.sub_add. destruct (Z.ltb_spec (i - k) n).
  - rewrite (testbit_eqm w (sx w a) a) by (apply eqm_sx || lia). done.
  - rewrite Z.ones_spec_high by lia. by rewrite !andb_false_r.
Qed.

Lemma exponent_field F s ex mant : format_ok F -> 0 <= ex < 2 * emax F -> is_u (prec F - 1) mant ->
  Z.land (sx (fw F) (word F s ex mant)) (Z.shiftl (2 * emax F - 1) (prec F - 1)) = ex * 2 ^ (prec F - 1).
Proof.
  intros HF He Hm. destruct (format_facts F HF) as (Hp & Hpe & Hw & HW & HP & HP2 & _).
  assert (Hn : 2 * emax F = 2 ^ (fw F - prec F)).
  { apply (Z.mul_cancel_r _ _ (2 ^ (prec F - 1))); [lia|]. rewrite <- HW, <- Z.pow_add_r by lia. f_equal. lia. }
  replace (2 * emax F - 1) with (Z.ones (fw F - prec F)) by (rewrite Z.ones_equiv; lia).
  rewrite land_field by lia. rewrite Z.shiftl_mul_pow2 by lia. f_equal. rewrite <- Hn.
  assert (Hword : word F s ex mant = mant + (ex + Z.b2z s * (2 * emax F)) * 2 ^ (prec F - 1))
    by (unfold word, sign_bit; destruct s; simpl Z.b2z; lia).
  unfold is_u in Hm. rewrite Hword, Z.div_add, (Z.div_small mant), Z.add_0_l, Z.mod_add by lia.
  by apply Z.mod_small.
Qed.

(** The magnitude of a truncated number. *)
Definition trunc_abs (m e : Z) : Z := if 0 <=? e then m * 2 ^ e else m / 2 ^ (- e).

Lemma trunc_abs_upper m e p n : 0 <= m < 2 ^ p -> 0 <= p -> e + p <= n -> 0 <= n -> 0 <= trunc_abs m e < 2 ^ n.
Proof.
  intros Hm Hp He Hn. unfold trunc_abs. destruct (Z.leb_spec 0 e).
  - pose proof (pow2_pos e ltac:(lia)). split; [apply Z.mul_nonneg_nonneg; lia|].
    apply Z.lt_le_trans with (2 ^ p * 2 ^ e); [apply Z.mul_lt_mono_pos_r; lia|].
    rewrite <- Z.pow_add_r by lia. apply Z.pow_le_mono_r; lia.
  - pose proof (pow2_pos (- e) ltac:(lia)). split; [apply Z.div_pos; lia|].
    apply Z.div_lt_upper_bound; [lia|]. rewrite <- Z.pow_add_r by lia.
    apply Z.lt_le_trans with (2 ^ p); [lia|]. apply Z.pow_le_mono_r; lia.
Qed.

Lemma trunc_abs_lower m e p n : 2 ^ p <= m -> 0 <= p -> n <= e + p -> 0 <= n -> 2 ^ n <= trunc_abs m e.
Proof.
  intros Hm Hp He Hn. unfold trunc_abs. destruct (Z.leb_spec 0 e).
  - pose proof (pow2_pos e ltac:(lia)). apply Z.le_trans with (2 ^ p * 2 ^ e); [|apply Z.mul_le_mono_nonneg_r; lia].
    rewrite <- Z.pow_add_r by lia. apply Z.pow_le_mono_r; lia.
  - pose proof (pow2_pos (- e) ltac:(lia)). apply Z.div_le_lower_bound; [lia|]. rewrite <- Z.pow_add_r by lia.
    apply Z.le_trans with (2 ^ p); [|lia]. apply Z.pow_le_mono_r; lia.
Qed.

Lemma SFtrunc_abs s m e : SFtrunc (S754_finite s m e) = cond_Zopp s (trunc_abs (Zpos m) e).
Proof. done. Qed.

(** The interpreter's test of the exponent gives Java's conversion. *)
Lemma to_integer_java w F arg : F = binary32 \/ F = binary64 -> w = 32 \/ w = 64 -> is_u (fw F) arg ->
  to_integer w F (Z.shiftl (2 * emax F - 1) (prec F - 1)) (Z.shiftl (emax F - 1 + (w - 1)) (prec F - 1))
    (sx (fw F) arg) arg = java_f2i w F arg.
Proof.
  intros HF Hw Harg.
  assert (HF' : format_ok F) by (destruct HF as [-> | ->]; [exact binary32_ok|exact binary64_ok]).
  assert (Hemax : 128 <= emax F) by (by destruct HF as [-> | ->]).
  assert (Hzero : decode F (of_int F 0) = S754_zero false) by (by destruct HF as [-> | ->]).
  destruct (format_facts F HF') as (Hp & Hpe & Hfw & HW & HP & HP2 & HP3).
  destruct (fields_exist F HF' arg Harg) as (s & ex & mant & He & Hm & ->).
  unfold to_integer, ftrunc, fnan, fltb, java_f2i. rewrite Hzero, decode_word, exponent_field by done. cbv zeta.
  rewrite Z.shiftl_mul_pow2 by lia.
  assert (Hlt : (ex * 2 ^ (prec F - 1) <? (emax F - 1 + (w - 1)) * 2 ^ (prec F - 1)) = (ex <? emax F - 1 + (w - 1))).
  { apply eq_true_iff_eq. rewrite !Z.ltb_lt. symmetry. apply Z.mul_lt_mono_pos_r. lia. }
  rewrite Hlt. unfold of_fields, int_min, int_max. unfold is_u in Hm.
  pose proof (pow2_pos (w - 1) ltac:(lia)) as Hpw.
  assert (Hin : forall m e p, 0 <= Zpos m < 2 ^ p -> 0 <= p -> e + p <= w - 1 ->
    SFtrunc (S754_finite s m e) = clamp (- 2 ^ (w - 1)) (2 ^ (w - 1) - 1) (SFtrunc (S754_finite s m e))).
  { intros m e p Hmp Hp0 Hep. symmetry. apply clamp_id. rewrite SFtrunc_abs.
    pose proof (trunc_abs_upper (Zpos m) e p (w - 1) Hmp Hp0 Hep ltac:(lia)). destruct s; simpl cond_Zopp; lia. }
  destruct (Z.eqb_spec ex 0) as [->|Hex0].
  { rewrite (proj2 (Z.ltb_lt 0 _)) by lia. destruct mant as [|m|m]; try lia.
    - unfold clamp. simpl SFtrunc. lia.
    - apply (Hin m (femin F) (prec F - 1)); unfold femin, emin; lia. }
  destruct (Z.eqb_spec ex (2 * emax F - 1)) as [->|Hinf].
  { rewrite (proj2 (Z.ltb_ge _ _)) by lia. destruct (mant =? 0); [|done]. by destruct s. }
  destruct (mant + 2 ^ (prec F - 1)) as [|m|m] eqn:Em; try lia.
  destruct (Z.ltb_spec ex (emax F - 1 + (w - 1))) as [Hsmall|Hbig].
  - apply (Hin m _ (prec F)); unfold femin, emin; lia.
  - rewrite SFtrunc_abs. cbn [SFltb SFcompare].
    pose proof (trunc_abs_lower (Zpos m) (ex - 1 + femin F) (prec F - 1) (w - 1) ltac:(lia) ltac:(lia)
      ltac:(unfold femin, emin; lia) ltac:(lia)).
    unfold SFltb. simpl SFcompare. unfold clamp. destruct s; simpl cond_Zopp; lia.
Qed.

(** ** The effect of an opcode *)

(** The opcode throws and changes nothing else. *)
Definition throws (m : Op unit) (vs : list jval) : Prop :=
  forall i junk l x, owp m (fr i (cells_of_stack vs) junk l x) (fun f' _ =>
    f' = fr i (cells_of_stack vs) junk l (Some ArithmeticException)).

Definition effect (m : Op unit) (vs : list jval) (r : option (list jval)) : Prop :=
  match r with
  | Some vs' => exists top top' rest, vs = top ++ rest /\ vs' = top' ++ rest /\
      replaces m top top' /\ Forall val_ok top'
  | None => throws m vs
  end.

(** What an effect means for a frame. *)
Lemma effect_frame m f vs r : rep f vs -> effect m vs r ->
  match r with Some vs' => (depth vs' <= Z.to_nat (size (stack f)))%nat | None => True end ->
  owp m f (fun f' _ =>
    match r with
    | Some vs' => rep f' vs' /\ ip f' = ip f + 1 /\ locals f' = locals f /\ exn f' = exn f
    | None => f' = MkFrame (ip f) (stack f) (locals f) (Some ArithmeticException)
    end).
Proof.
  intros [Hok [junk Hst]] He Hroom. destruct f as [i s l x]. simpl in *. subst s.
  change (MkFrame i (canon (cells_of_stack vs) junk) l x) with (fr i (cells_of_stack vs) junk l x).
  destruct r as [vs'|]; [|apply He].
  destruct He as (top & top' & rest & -> & -> & Hrep & Hok').
  eapply owp_mono; [apply Hrep; rewrite size_canon, Nat2Z.id in Hroom; exact Hroom|].
  intros f' _ [junk' ->]. simpl. split; [|done]. split; [|by eexists].
  apply Forall_app in Hok as [_ Hrest]. by apply Forall_app.
Qed.

Lemma effect_replaces m top top' rest : replaces m top top' -> Forall val_ok top' ->
  effect m (top ++ rest) (Some (top' ++ rest)).
Proof. intros. by exists top, top', rest. Qed.

Lemma effect_1 m v r rest : replaces m [v] [r] -> val_ok r -> effect m (v :: rest) (Some (r :: rest)).
Proof. intros. apply (effect_replaces m [v] [r]); [done|]. by apply Forall_singleton. Qed.

Lemma effect_2 m v u r rest : replaces m [v; u] [r] -> val_ok r -> effect m (v :: u :: rest) (Some (r :: rest)).
Proof. intros. apply (effect_replaces m [v; u] [r]); [done|]. by apply Forall_singleton. Qed.

(** *** Integer arithmetic *)

Lemma on_i_of f a b : is_s 32 a -> is_s 32 b -> on_i f (of_i a) (of_i b) = of_i (f a b).
Proof. intros. unfold on_i. by rewrite !val_of_i. Qed.

Lemma on_i64_of f a b : is_s 64 a -> is_s 64 b -> on_i64 f (of_i64 a) (of_i64 b) = of_i64 (f a b).
Proof. intros. unfold on_i64. by rewrite !v2_of_i64. Qed.

Definition is_div (op : binop) : bool := match op with JDiv | JRem => true | _ => false end.

Lemma binop_total w op a b : is_div op = false -> exists r, java_binop w op a b = Some r.
Proof. destruct op; intros; try done; by eexists. Qed.

Lemma int_effect op f vs r : is_div op = false ->
  (forall a b c, java_binop 32 op a b = Some c -> of_i (f a b) = of_i c) ->
  Forall val_ok vs -> java_arith (AInt op) vs = Some r ->
  effect (DEF_OPCODE_MATH_32_32_TO_32 (on_i f)) vs r.
Proof.
  intros Hd Hf Hok Hr. destruct vs as [|[b| | | | |] [|[a| | | | |] rest]]; try done. simpl in Hr.
  apply Forall_cons_1 in Hok as [Hb [Ha _]%Forall_cons_1]. destruct (binop_total 32 op a b Hd) as [c Hc].
  rewrite Hc in Hr. injection Hr as <-. simpl in *. apply effect_2.
  - apply math_32_32_to_32 with (a := of_i a) (b := of_i b); [done|done|].
    unfold word_val. simpl. by rewrite on_i_of, (Hf a b c Hc).
  - simpl. by apply (java_binop_range 32 op a b c).
Qed.

Lemma long_effect op f vs r : is_div op = false ->
  (forall a b c, java_binop 64 op a b = Some c -> of_i64 (f a b) = of_i64 c) ->
  Forall val_ok vs -> java_arith (ALong op) vs = Some r ->
  effect (DEF_OPCODE_MATH_64_64_TO_64 (on_i64 f)) vs r.
Proof.
  intros Hd Hf Hok Hr. destruct vs as [|[| |b| | |] [|[| |a| | |] rest]]; try done. simpl in Hr.
  apply Forall_cons_1 in Hok as [Hb [Ha _]%Forall_cons_1]. destruct (binop_total 64 op a b Hd) as [c Hc].
  rewrite Hc in Hr. injection Hr as <-. simpl in *. apply effect_2.
  - apply math_64_64_to_64 with (a := of_i64 a) (b := of_i64 b); [done|done|].
    unfold long_val. simpl. by rewrite on_i64_of, (Hf a b c Hc).
  - simpl. by apply (java_binop_range 64 op a b c).
Qed.

Lemma java_shift_range op a b c : is_shift op = true -> is_s 64 a ->
  java_binop 64 op a b = Some c -> is_s 64 c.
Proof.
  intros Hop Ha. assert (0 <= Z.land b 63) by (apply Z.land_nonneg; by right).
  destruct op; try done; intros [= <-]; try (by apply sx_range). by apply is_s_shiftr.
Qed.

Lemma shift_effect op f vs r : is_shift op = true ->
  (forall a b c, java_binop 64 op a b = Some c -> of_i64 (f a b) = of_i64 c) ->
  Forall val_ok vs -> java_arith (ALongShift op) vs = Some r ->
  effect (DEF_OPCODE_MATH_64_32_TO_64 (fun a s => of_i64 (f (v2_i64 a) (val_i s)))) vs r.
Proof.
  intros Hd Hf Hok Hr. destruct vs as [|[b| | | | |] [|[| |a| | |] rest]]; try done. simpl in Hr.
  apply Forall_cons_1 in Hok as [Hb [Ha _]%Forall_cons_1].
  destruct (binop_total 64 op a b) as [c Hc]; [by destruct op|].
  rewrite Hc in Hr. injection Hr as <-. simpl in *. apply effect_2.
  - apply math_64_32_to_64 with (a := of_i64 a) (b := of_i b); [done|done|].
    unfold long_val. simpl. by rewrite v2_of_i64, val_of_i, (Hf a b c Hc).
  - simpl. by apply (java_shift_range op a b c).
Qed.

(** Division, with its exception. *)
Lemma int_div_effect op f vs r : is_div op = true ->
  (forall a b c, java_binop 32 op a b = Some c -> of_i (f a b) = of_i c) ->
  Forall val_ok vs -> java_arith (AInt op) vs = Some r ->
  effect (DEF_OPCODE_DIV_32_32_TO_32 (on_i f)) vs r.
Proof.
  intros Hd Hf Hok Hr. destruct vs as [|[b| | | | |] [|[a| | | | |] rest]]; try done. simpl in Hr.
  apply Forall_cons_1 in Hok as [Hb [Ha _]%Forall_cons_1]. simpl in *.
  destruct (java_binop 32 op a b) as [c|] eqn:Hc; simpl in Hr; injection Hr as <-.
  - assert (Hz : b <> 0) by (intros ->; by destruct op). apply effect_2.
    + clear rest. replaces_start. unfold DEF_OPCODE_DIV_32_32_TO_32. simpl. op_step. op_step.
      rewrite val_of_i, (proj2 (Z.eqb_neq b 0)) by done. op_steps.
      eexists. unfold cells_of_stack. simpl. by rewrite on_i_of, (Hf a b c Hc).
    + simpl. by apply (java_binop_range 32 op a b c).
  - assert (b = 0) as ->.
    { destruct op; try done; simpl in Hc; destruct (Z.eqb_spec b 0); done. }
    intros i junk l x. unfold DEF_OPCODE_DIV_32_32_TO_32, cells_of_stack. simpl. op_step. op_step.
    simpl. op_steps. done.
Qed.

Lemma long_div_effect op g f vs r : is_div op = true ->
  (forall a b c, java_binop 64 op a b = Some c ->
    of_i64 (if (a =? sx 64 (- a)) && (b =? -1) then g a else f a b) = of_i64 c) ->
  Forall val_ok vs -> java_arith (ALong op) vs = Some r ->
  effect (div_64 true g f) vs r.
Proof.
  intros Hd Hf Hok Hr. destruct vs as [|[| |b| | |] [|[| |a| | |] rest]]; try done. simpl in Hr.
  apply Forall_cons_1 in Hok as [Hb [Ha _]%Forall_cons_1]. simpl in Ha, Hb.
  destruct (java_binop 64 op a b) as [c|] eqn:Hc; simpl in Hr; injection Hr as <-.
  - assert (Hz : b <> 0) by (intros ->; by destruct op). apply effect_2.
    + clear rest. replaces_start. unfold div_64, cells_of. unfold cells2. cbn [app]. op_step. op_step.
      assert (Hpa : forall v : Value2, (v.1, v.2) = v) by (by intros []).
      rewrite Hpa, v2_of_i64, (proj2 (Z.eqb_neq b 0)) by done. op_step. op_step. op_step. op_step.
      rewrite Hpa, v2_of_i64 by done.
      assert (Hmin : (a =? sx 64 (- a)) && (b =? -1) = false -> (a =? - 2 ^ 63) && (b =? -1) = false).
      { intros H. destruct (b =? -1); [|by rewrite andb_false_r]. rewrite andb_true_r in *.
        apply Z.eqb_neq. intros ->. done. }
      cbn [andb]. specialize (Hf a b c Hc).
      destruct ((a =? sx 64 (- a)) && (b =? -1)); [|rewrite Hmin by done];
        op_steps; eexists; unfold cells_of_stack; cbn [flat_map cells_of app]; by rewrite Hf.
    + simpl. by apply (java_binop_range 64 op a b c).
  - assert (b = 0) as ->.
    { destruct op; try done; simpl in Hc; destruct (Z.eqb_spec b 0); done. }
    intros i junk l x. unfold div_64, cells_of_stack. simpl. op_step. op_step.
    simpl. op_steps. done.
Qed.

(** *** Floating point, comparisons and conversions *)

Lemma fbin_range op F a b : format_ok F -> is_u (fw F) a -> is_u (fw F) (java_fop F op a b).
Proof. intros HF Ha. destruct op; by apply to_word_range. Qed.

Lemma fneg_range F a : format_ok F -> is_u (fw F) a -> is_u (fw F) (fneg F a).
Proof.
  intros HF Ha. destruct (format_facts F HF) as (Hp & He & Hw & _).
  assert (H : ux (fw F) (fneg F a) = fneg F a); [|rewrite <- H; apply ux_range; lia].
  apply Z.bits_inj'. intros i Hi. unfold fneg. rewrite testbit_ux, Z.lxor_spec, Z.pow2_bits_eqb by lia.
  destruct (Z.ltb_spec i (fw F)); [done|].
  rewrite (testbit_high (fw F) a i), (proj2 (Z.eqb_neq _ _)) by (done || lia). done.
Qed.

Lemma float_effect op vs r : Forall val_ok vs -> java_arith (AFloat op) vs = Some r ->
  effect (DEF_OPCODE_MATH_32_32_TO_32 (java_fop binary32 op)) vs r.
Proof.
  intros Hok Hr. destruct vs as [|[|b| | | |] [|[|a| | | |] rest]]; try done. injection Hr as <-.
  apply Forall_cons_1 in Hok as [Hb [Ha _]%Forall_cons_1]. apply effect_2.
  - by apply math_32_32_to_32 with (a := a) (b := b).
  - by apply (fbin_range op binary32 a b binary32_ok).
Qed.

Lemma double_effect op vs r : Forall val_ok vs -> java_arith (ADouble op) vs = Some r ->
  effect (DEF_OPCODE_MATH_64_64_TO_64 (on_d (java_fop binary64 op))) vs r.
Proof.
  intros Hok Hr. destruct vs as [|[| | |b| |] [|[| | |a| |] rest]]; try done. injection Hr as <-.
  apply Forall_cons_1 in Hok as [Hb [Ha _]%Forall_cons_1]. simpl in Ha, Hb. apply effect_2.
  - apply math_64_64_to_64 with (a := of_u64 a) (b := of_u64 b); [done|done|].
    unfold long_val, on_d. by rewrite !v2_of_u64.
  - by apply (fbin_range op binary64 a b binary64_ok).
Qed.

(** Operations on one value, by the shape of the value and the result. *)
Lemma effect_32_32 expr v a r rest : word_val v a -> word_val r (expr a) -> val_ok r ->
  effect (DEF_OPCODE_MATH_32_TO_32 expr) (v :: rest) (Some (r :: rest)).
Proof. intros. apply effect_1; [|done]. by apply math_32_to_32 with (a := a). Qed.
Lemma effect_32_64 expr v a r rest : word_val v a -> long_val r (expr a) -> val_ok r ->
  effect (DEF_OPCODE_MATH_32_TO_64 expr) (v :: rest) (Some (r :: rest)).
Proof. intros. apply effect_1; [|done]. by apply math_32_to_64 with (a := a). Qed.
Lemma effect_64_64 expr v a r rest : long_val v a -> long_val r (expr a) -> val_ok r ->
  effect (DEF_OPCODE_MATH_64_TO_64 expr) (v :: rest) (Some (r :: rest)).
Proof. intros. apply effect_1; [|done]. by apply math_64_to_64 with (a := a). Qed.
Lemma effect_64_32 expr v a r rest : long_val v a -> word_val r (expr a) -> val_ok r ->
  effect (DEF_OPCODE_MATH_64_TO_32 expr) (v :: rest) (Some (r :: rest)).
Proof. intros. apply effect_1; [|done]. by apply math_64_to_32 with (a := a). Qed.

(** The narrowing functions of the interpreter. *)
Lemma f2i_java b : is_u 32 b -> f2i b = java_f2i 32 binary32 b.
Proof. intros Hb. by apply (to_integer_java 32 binary32); [left|left|]. Qed.
Lemma f2l_java b : is_u 32 b -> f2l b = java_f2i 64 binary32 b.
Proof. intros Hb. by apply (to_integer_java 64 binary32); [left|right|]. Qed.
Lemma d2i_java b : is_u 64 b -> d2i (of_u64 b) = java_f2i 32 binary64 b.
Proof.
  intros Hb. unfold d2i, v2_i64. rewrite v2_of_u64 by done. by apply (to_integer_java 32 binary64); [right|left|].
Qed.
Lemma d2l_java b : is_u 64 b -> d2l (of_u64 b) = java_f2i 64 binary64 b.
Proof.
  intros Hb. unfold d2l, v2_i64. rewrite v2_of_u64 by done. by apply (to_integer_java 64 binary64); [right|right|].
Qed.

Lemma java_f2i_ok w F b : w = 32 \/ w = 64 -> is_s w (java_f2i w F b).
Proof.
  intros Hw. pose proof (pow2_pos (w - 1) ltac:(lia)). unfold java_f2i, int_min, int_max, is_s, clamp.
  destruct (decode F b) as [|[]| |]; lia.
Qed.

Lemma of_int_u F n : format_ok F -> is_u (fw F) (of_int F n).
Proof. intros. by apply to_word_range. Qed.
Lemma fconv_u F G b : format_ok G -> is_u (fw G) (fconv F G b).
Proof. intros. by apply to_word_range. Qed.

(** The instructions on one value: the value on top has the type [t], and what
    the conversion or negation of every such value gives. *)
Lemma unary_effect m t a vs r :
  (forall v, val_ok v -> type_of v = Some t -> exists v', 
     (forall rest, java_arith a (v :: rest) = Some (Some (v' :: rest))) /\ val_ok v' /\ replaces m [v] [v']) ->
  Forall val_ok vs -> (exists v rest, vs = v :: rest /\ type_of v = Some t) -> java_arith a vs = Some r ->
  effect m vs r.
Proof.
  intros H Hok (v & rest & -> & Hty) Hr. apply Forall_cons_1 in Hok as [Hv _].
  destruct (H v Hv Hty) as (v' & Ha & Hv' & Hm). rewrite Ha in Hr. injection Hr as <-.
  by apply effect_1.
Qed.

Ltac int_case := intros [i| | | | |] Hv Hty; try done; simpl in Hv; eexists; split; [intros; reflexivity|].
Ltac long_case := intros [| |i| | |] Hv Hty; try done; simpl in Hv; eexists; split; [intros; reflexivity|].
Ltac float_case := intros [|b| | | |] Hv Hty; try done; simpl in Hv; eexists; split; [intros; reflexivity|].
Ltac double_case := intros [| | |b| |] Hv Hty; try done; simpl in Hv; eexists; split; [intros; reflexivity|].

Section unary.
Context (vs : list jval) (r : option (list jval)) (Hok : Forall val_ok vs).
Let top (t : ty) : Prop := exists v rest, vs = v :: rest /\ type_of v = Some t.

Lemma ineg_effect : top TyInt -> java_arith ANeg vs = Some r -> effect Opcode_INEG vs r.
Proof.
  apply unary_effect; [|done]. int_case. split; [by apply sx_range|].
  apply math_32_to_32 with (a := of_i i); [done|]. unfold word_val, java_neg. simpl.
  by rewrite val_of_i, of_i_sx.
Qed.
Lemma lneg_effect : top TyLong -> java_arith ANeg vs = Some r -> effect Opcode_LNEG vs r.
Proof.
  apply unary_effect; [|done]. long_case. split; [by apply sx_range|].
  apply math_64_to_64 with (a := of_i64 i); [done|]. unfold long_val, java_neg, cells_of.
  by rewrite v2_of_i64, of_i64_sx.
Qed.
Lemma fneg_effect : top TyFloat -> java_arith ANeg vs = Some r -> effect Opcode_FNEG vs r.
Proof.
  apply unary_effect; [|done]. float_case. split; [by apply (fneg_range binary32 b binary32_ok)|].
  by apply math_32_to_32 with (a := b).
Qed.
Lemma dneg_effect : top TyDouble -> java_arith ANeg vs = Some r -> effect Opcode_DNEG vs r.
Proof.
  apply unary_effect; [|done]. double_case. split; [by apply (fneg_range binary64 b binary64_ok)|].
  apply math_64_to_64 with (a := of_u64 b); [done|]. unfold long_val. by rewrite v2_of_u64.
Qed.

Lemma i2l_effect : top TyInt -> java_arith (AConv PLong) vs = Some r -> effect Opcode_I2L vs r.
Proof.
  apply unary_effect; [|done]. int_case. split; [by apply (is_s_weaken 32)|].
  apply math_32_to_64 with (a := of_i i); [done|]. unfold long_val. by rewrite val_of_i.
Qed.
Lemma i2f_effect : top TyInt -> java_arith (AConv PFloat) vs = Some r -> effect Opcode_I2F vs r.
Proof.
  apply unary_effect; [|done]. int_case. split; [by apply (of_int_u binary32 i binary32_ok)|].
  apply math_32_to_32 with (a := of_i i); [done|]. unfold word_val. by rewrite val_of_i.
Qed.
Lemma i2d_effect : top TyInt -> java_arith (AConv PDouble) vs = Some r -> effect Opcode_I2D vs r.
Proof.
  apply unary_effect; [|done]. int_case. split; [by apply (of_int_u binary64 i binary64_ok)|].
  apply math_32_to_64 with (a := of_i i); [done|]. unfold long_val. by rewrite val_of_i.
Qed.
Lemma i2b_effect : top TyInt -> java_arith (AConv PByte) vs = Some r -> effect Opcode_I2B vs r.
Proof.
  apply unary_effect; [|done]. int_case. split; [apply (is_s_weaken 8); [lia|by apply (sx_range _ i)]|].
  apply math_32_to_32 with (a := of_i i); [done|]. unfold word_val. by rewrite val_of_i.
Qed.
Lemma i2s_effect : top TyInt -> java_arith (AConv PShort) vs = Some r -> effect Opcode_I2S vs r.
Proof.
  apply unary_effect; [|done]. int_case. split; [apply (is_s_weaken 16); [lia|by apply (sx_range _ i)]|].
  apply math_32_to_32 with (a := of_i i); [done|]. unfold word_val. by rewrite val_of_i.
Qed.
Lemma i2c_effect : top TyInt -> java_arith (AConv PChar) vs = Some r -> effect Opcode_I2C vs r.
Proof.
  apply unary_effect; [|done]. int_case. split.
  - pose proof (ux_range 16 i ltac:(lia)) as H. unfold is_u in H. simpl. unfold is_s.
    change (2 ^ 16) with 65536 in H. change (2 ^ (32 - 1)) with 2147483648. lia.
  - apply math_32_to_32 with (a := of_i i); [done|]. unfold word_val. by rewrite val_of_i.
Qed.
Lemma l2i_effect : top TyLong -> java_arith (AConv PInt) vs = Some r -> effect Opcode_L2I vs r.
Proof.
  apply unary_effect; [|done]. long_case. split; [by apply sx_range|].
  apply math_64_to_32 with (a := of_i64 i); [done|]. unfold word_val. by rewrite v2_of_i64.
Qed.
Lemma l2f_effect : top TyLong -> java_arith (AConv PFloat) vs = Some r -> effect Opcode_L2F vs r.
Proof.
  apply unary_effect; [|done]. long_case. split; [by apply (of_int_u binary32 i binary32_ok)|].
  apply math_64_to_32 with (a := of_i64 i); [done|]. unfold word_val. by rewrite v2_of_i64.
Qed.
Lemma l2d_effect : top TyLong -> java_arith (AConv PDouble) vs = Some r -> effect Opcode_L2D vs r.
Proof.
  apply unary_effect; [|done]. long_case. split; [by apply (of_int_u binary64 i binary64_ok)|].
  apply math_64_to_64 with (a := of_i64 i); [done|]. unfold long_val. by rewrite v2_of_i64.
Qed.
Lemma f2i_effect : top TyFloat -> java_arith (AConv PInt) vs = Some r -> effect Opcode_F2I vs r.
Proof.
  apply unary_effect; [|done]. float_case. split; [apply java_f2i_ok; auto|].
  apply math_32_to_32 with (a := b); [done|]. unfold word_val. by rewrite f2i_java.
Qed.
Lemma f2l_effect : top TyFloat -> java_arith (AConv PLong) vs = Some r -> effect Opcode_F2L vs r.
Proof.
  apply unary_effect; [|done]. float_case. split; [apply java_f2i_ok; auto|].
  apply math_32_to_64 with (a := b); [done|]. unfold long_val. by rewrite f2l_java.
Qed.
Lemma f2d_effect : top TyFloat -> java_arith (AConv PDouble) vs = Some r -> effect Opcode_F2D vs r.
Proof.
  apply unary_effect; [|done]. float_case. split; [by apply (fconv_u binary32 binary64 b binary64_ok)|].
  by apply math_32_to_64 with (a := b).
Qed.
Lemma d2i_effect : top TyDouble -> java_arith (AConv PInt) vs = Some r -> effect Opcode_D2I vs r.
Proof.
  apply unary_effect; [|done]. double_case. split; [apply java_f2i_ok; auto|].
  apply math_64_to_32 with (a := of_u64 b); [done|]. unfold word_val. by rewrite d2i_java.
Qed.
Lemma d2l_effect : top TyDouble -> java_arith (AConv PLong) vs = Some r -> effect Opcode_D2L vs r.
Proof.
  apply unary_effect; [|done]. double_case. split; [apply java_f2i_ok; auto|].
  apply math_64_to_64 with (a := of_u64 b); [done|]. unfold long_val. by rewrite d2l_java.
Qed.
Lemma d2f_effect : top TyDouble -> java_arith (AConv PFloat) vs = Some r -> effect Opcode_D2F vs r.
Proof.
  apply unary_effect; [|done]. double_case. split; [by apply (fconv_u binary64 binary32 b binary32_ok)|].
  apply math_64_to_32 with (a := of_u64 b); [done|]. unfold word_val. by rewrite v2_of_u64.
Qed.
End unary.

(** Comparisons. *)
Lemma fcmp_effect nan expr vs r : nan = -1 \/ nan = 1 ->
  (forall a b, expr a b = java_fcmp binary32 nan a b) ->
  (exists v rest, vs = v :: rest /\ type_of v = Some TyFloat) ->
  Forall val_ok vs -> java_arith (AFcmp nan) vs = Some r ->
  effect (DEF_OPCODE_MATH_32_32_TO_32 (fun a b => of_i (expr a b))) vs r.
Proof.
  intros Hn He (v & rest & -> & Hty) Hok Hr. destruct v; try done.
  destruct rest as [|[|a| | | |] rest]; try done. injection Hr as <-. apply effect_2.
  - apply math_32_32_to_32 with (a := a) (b := b); [done|done|]. unfold word_val. by rewrite He.
  - by apply java_fcmp_range.
Qed.

Lemma dcmp_effect nan expr vs r : nan = -1 \/ nan = 1 ->
  (forall a b, expr a b = java_fcmp binary64 nan a b) ->
  (exists v rest, vs = v :: rest /\ type_of v = Some TyDouble) ->
  Forall val_ok vs -> java_arith (AFcmp nan) vs = Some r ->
  effect (DEF_OPCODE_MATH_64_64_TO_32 (fun a b => of_i (expr (v2_u64 a) (v2_u64 b)))) vs r.
Proof.
  intros Hn He (v & rest & -> & Hty) Hok Hr. destruct v; try done.
  destruct rest as [|[| | |a| |] rest]; try done. injection Hr as <-.
  apply Forall_cons_1 in Hok as [Hb [Ha _]%Forall_cons_1]. apply effect_2.
  - apply math_64_64_to_32 with (a := of_u64 a) (b := of_u64 b); [done|done|].
    unfold word_val. by rewrite !v2_of_u64, He.
  - by apply java_fcmp_range.
Qed.

Lemma lcmp_effect vs r : Forall val_ok vs -> java_arith ALcmp vs = Some r -> effect Opcode_LCMP vs r.
Proof.
  intros Hok Hr. destruct vs as [|[| |b| | |] [|[| |a| | |] rest]]; try done. injection Hr as <-.
  apply Forall_cons_1 in Hok as [Hb [Ha _]%Forall_cons_1]. simpl in Ha, Hb. apply effect_2.
  - clear rest. replaces_start. unfold Opcode_LCMP, cells_of, cells2. cbn [app].
    assert (Hpa : forall v : Value2, (v.1, v.2) = v) by (by intros []).
    op_steps. rewrite !Hpa, !v2_of_i64 by done. op_steps. eexists. reflexivity.
  - unfold val_ok, java_cmp. by destruct (a <? b), (a =? b).
Qed.

(** *** The table *)

Lemma int_op_ok op f vs r : Forall val_ok vs -> java_arith (AInt op) vs = Some r ->
  is_div op = false -> (forall a b, java_binop 32 op a b = Some (sx 32 (f a b)) \/ java_binop 32 op a b = Some (f a b)) ->
  effect (DEF_OPCODE_MATH_32_32_TO_32 (on_i f)) vs r.
Proof.
  intros Hok Hr Hd Hf. apply (int_effect op); [done| |done|done].
  intros a b c Hc. destruct (Hf a b) as [H|H]; rewrite H in Hc; injection Hc as <-; by rewrite ?of_i_sx.
Qed.

Lemma long_op_ok op f vs r : Forall val_ok vs -> java_arith (ALong op) vs = Some r ->
  is_div op = false -> (forall a b, java_binop 64 op a b = Some (sx 64 (f a b)) \/ java_binop 64 op a b = Some (f a b)) ->
  effect (DEF_OPCODE_MATH_64_64_TO_64 (on_i64 f)) vs r.
Proof.
  intros Hok Hr Hd Hf. apply (long_effect op); [done| |done|done].
  intros a b c Hc. destruct (Hf a b) as [H|H]; rewrite H in Hc; injection Hc as <-; by rewrite ?of_i64_sx.
Qed.

Lemma shift_op_ok op f vs r : Forall val_ok vs -> java_arith (ALongShift op) vs = Some r ->
  is_shift op = true -> (forall a b, java_binop 64 op a b = Some (sx 64 (f a b)) \/ java_binop 64 op a b = Some (f a b)) ->
  effect (DEF_OPCODE_MATH_64_32_TO_64 (fun a s => of_i64 (f (v2_i64 a) (val_i s)))) vs r.
Proof.
  intros Hok Hr Hd Hf. apply (shift_effect op); [done| |done|done].
  intros a b c Hc. destruct (Hf a b) as [H|H]; rewrite H in Hc; injection Hc as <-; by rewrite ?of_i64_sx.
Qed.

Lemma idiv_effect vs r : Forall val_ok vs -> java_arith (AInt JDiv) vs = Some r -> effect Opcode_IDIV vs r.
Proof.
  intros. apply (int_div_effect JDiv); [done| |done|done]. intros a b c. simpl.
  destruct (b =? 0); [done|]. by intros [= <-].
Qed.
Lemma irem_effect vs r : Forall val_ok vs -> java_arith (AInt JRem) vs = Some r -> effect Opcode_IREM vs r.
Proof.
  intros. apply (int_div_effect JRem); [done| |done|done]. intros a b c. simpl.
  destruct (b =? 0); [done|]. intros [= <-]. by rewrite of_i_sx.
Qed.

(** The guard of the 64-bit division holds for the minimum and zero only. *)
Lemma neg_fixed a : is_s 64 a -> a = sx 64 (- a) -> a = 0 \/ a = - 2 ^ 63.
Proof.
  intros Ha H. unfold is_s in Ha. change (2 ^ (64 - 1)) with (2 ^ 63) in Ha.
  assert (Hm : eqm 64 a (- a)) by (rewrite H at 1; apply eqm_sx; lia).
  apply eqm_sx_iff in Hm as _. destruct (decide (a = - 2 ^ 63)) as [|Hne]; [by right|]. left.
  rewrite sx_id in H by (unfold is_s; change (2 ^ (64 - 1)) with (2 ^ 63); lia). lia.
Qed.

Lemma ldiv_effect vs r : Forall val_ok vs -> java_arith (ALong JDiv) vs = Some r -> effect (Opcode_LDIV true) vs r.
Proof.
  intros Hok Hr. apply (long_div_effect JDiv); [done| |done|done]. intros a b c. simpl.
  destruct (b =? 0); [done|]. intros [= <-]. unfold java_quot. rewrite of_i64_sx.
  destruct (Z.eqb_spec b (-1)) as [->|]; [|by rewrite andb_false_r].
  rewrite andb_true_r. destruct (Z.eqb_spec a (sx 64 (- a))) as [Ha|]; [|done].
  rewrite <- (of_i64_sx (Z.quot a (-1))). f_equal. rewrite Ha at 1. f_equal.
  change (-1) with (- (1)). by rewrite Z.quot_opp_r, Z.quot_1_r by done.
Qed.
Lemma lrem_effect vs r : Forall val_ok vs -> java_arith (ALong JRem) vs = Some r -> effect (Opcode_LREM true) vs r.
Proof.
  intros Hok Hr. apply (long_div_effect JRem); [done| |done|done]. intros a b c. simpl.
  destruct (b =? 0); [done|]. intros [= <-].
  destruct (Z.eqb_spec b (-1)) as [->|]; [|by rewrite andb_false_r].
  rewrite andb_true_r. destruct (a =? sx 64 (- a)); [|done].
  change (-1) with (- (1)). by rewrite Z.rem_opp_r, Z.rem_1_r by done.
Qed.


Ltac math_op := intros; simpl; auto.
Ltac effect_solve :=
  match goal with Hr : java_arith ?a _ = Some _, Hok : Forall val_ok _, Hty : type_of _ = Some ?t |- _ =>
  lazymatch a with
  | AInt JDiv => exact (idiv_effect _ _ Hok Hr)
  | AInt JRem => exact (irem_effect _ _ Hok Hr)
  | AInt _ => refine (int_op_ok _ _ _ _ Hok Hr eq_refl _); math_op
  | ALong JDiv => exact (ldiv_effect _ _ Hok Hr)
  | ALong JRem => exact (lrem_effect _ _ Hok Hr)
  | ALong _ => refine (long_op_ok _ _ _ _ Hok Hr eq_refl _); math_op
  | ALongShift _ => refine (shift_op_ok _ _ _ _ Hok Hr eq_refl _); math_op
  | AFloat _ => exact (float_effect _ _ _ Hok Hr)
  | ADouble _ => exact (double_effect _ _ _ Hok Hr)
  | ALcmp => exact (lcmp_effect _ _ Hok Hr)
  | AFcmp _ => lazymatch t with
      | TyFloat => refine (fcmp_effect _ _ _ _ _ _ _ Hok Hr)
      | _ => refine (dcmp_effect _ _ _ _ _ _ _ Hok Hr)
      end; [by auto|by intros; (apply cmpl_java || apply cmpg_java)|by eauto]
  | _ => lazymatch goal with |- effect ?m _ _ =>
      lazymatch m with
      | Opcode_INEG => eapply ineg_effect | Opcode_LNEG => eapply lneg_effect
      | Opcode_FNEG => eapply fneg_effect | Opcode_DNEG => eapply dneg_effect
      | Opcode_I2L => eapply i2l_effect | Opcode_I2F => eapply i2f_effect | Opcode_I2D => eapply i2d_effect
      | Opcode_I2B => eapply i2b_effect | Opcode_I2S => eapply i2s_effect | Opcode_I2C => eapply i2c_effect
      | Opcode_L2I => eapply l2i_effect | Opcode_L2F => eapply l2f_effect | Opcode_L2D => eapply l2d_effect
      | Opcode_F2I => eapply f2i_effect | Opcode_F2L => eapply f2l_effect | Opcode_F2D => eapply f2d_effect
      | Opcode_D2I => eapply d2i_effect | Opcode_D2L => eapply d2l_effect | Opcode_D2F => eapply d2f_effect
      end; eauto end
  end end.


(** Every instruction of the table is an opcode of the switch with the effect the
    specification gives it. *)
Lemma table_effect code op t a v vs r : (op, (t, a)) ∈ arith_table ->
  Forall val_ok (v :: vs) -> type_of v = Some t -> java_arith a (v :: vs) = Some r ->
  exists m, dispatch code true op = Some m /\ effect m (v :: vs) r.
Proof.
  intros Hin Hok Hty Hr. unfold arith_table in Hin.
  repeat (apply elem_of_cons in Hin as [[= -> -> ->]|Hin]; [eexists; split; [reflexivity|]; effect_solve|]).
  by apply elem_of_nil in Hin.
Qed.

(** C26: the 57 arithmetic, conversion and comparison opcodes implement the Java
    virtual machine's instructions.  In a frame whose operand stack represents the
    Java values [v :: vs], with [v] of the type the instruction takes, the opcode
    runs without a failed assertion; when the specification gives a result the
    frame represents the new stack, the instruction pointer moves to the next
    byte, the locals are untouched and nothing is thrown; when the divisor is zero
    an [ArithmeticException] is raised and the frame is unchanged. *)
Theorem arith_refines code op t a f v vs r :
  (op, (t, a)) ∈ arith_table -> rep f (v :: vs) -> type_of v = Some t ->
  java_arith a (v :: vs) = Some r ->
  match r with Some vs' => (depth vs' <= Z.to_nat (size (stack f)))%nat | None => True end ->
  exists m, dispatch code true op = Some m /\
    owp m f (fun f' _ =>
      match r with
      | Some vs' => rep f' vs' /\ ip f' = ip f + 1 /\ locals f' = locals f /\ exn f' = exn f
      | None => f' = MkFrame (ip f) (stack f) (locals f) (Some ArithmeticException)
      end).
Proof.
  intros Hin Hrep Hty Hr Hroom. destruct (table_effect code op t a v vs r Hin) as (m & Hd & He); [by apply Hrep|done|done|].
  exists m. split; [done|]. by apply (effect_frame m f (v :: vs) r).
Qed.

(** [Long.MIN_VALUE / -1], below an [int] on the stack. *)
Definition frame_ldiv : StackFrame :=
  fr 10 (cells_of_stack [VLong (-1); VLong (int_min 64); VInt 7]) [9; 9] (Locals_init []) None.

Lemma arith_refines_witness : exists m, dispatch [] true 0x6d = Some m /\
  owp m frame_ldiv (fun f' _ => rep f' [VLong (int_min 64); VInt 7] /\ ip f' = 11 /\ locals f' = Locals_init [] /\ exn f' = None).
Proof.
  apply (arith_refines [] 0x6d TyLong (ALong JDiv) frame_ldiv (VLong (-1)) [VLong (int_min 64); VInt 7]
    (Some [VLong (int_min 64); VInt 7])).
  - vm_compute. repeat constructor.
  - split; [repeat constructor; done|by exists [9; 9]].
  - reflexivity.
  - reflexivity.
  - apply Nat.leb_le. vm_compute. reflexivity.
Defined.

(** Without [_EM64T_] the same operands reach the division of the host, which
    does not define it. *)
Example ldiv_unguarded : Opcode_LDIV false frame_ldiv = None.
Proof. vm_compute. reflexivity. Qed.
