(* ===== verification/StackOk.v ===== *)
(** * Stack manipulation, constants, loads and stores

    The opcodes that move values, against their specification on Java values
    with their categories: the forms of [dup] and its relatives, the constants,
    and the loads and stores with their [wide] and short encodings. *)
From Stdlib Require Import SpecFloat.
From stdpp Require Import strings.
From S2P Require Import Prelude Floats Frame FrameOk Opcodes OpcodesOk.

(** ** Stack manipulation *)

(** [long] and [double] are the values of category 2. *)
Definition cat2 (v : jval) : bool :=
  match v with VLong _ | VDouble _ => true | _ => false end.

Inductive sinstr := SPop | SPop2 | SDup | SDupX1 | SDupX2 | SDup2 | SDup2X1 | SDup2X2 | SSwap.

(** The forms of the instructions, by the categories of the values on top. *)
Definition java_shuffle (s : sinstr) (st : list jval) : option (list jval) :=
  match s, st with
  | SPop, v1 :: st => if cat2 v1 then None else Some st
  | SPop2, v1 :: st =>
      if cat2 v1 then Some st else
      match st with v2 :: st => if cat2 v2 then None else Some st | _ => None end
  | SDup, v1 :: st => if cat2 v1 then None else Some (v1 :: v1 :: st)
  | SDupX1, v1 :: v2 :: st => if cat2 v1 || cat2 v2 then None else Some (v1 :: v2 :: v1 :: st)
  | SDupX2, v1 :: v2 :: st =>
      if cat2 v1 then None else if cat2 v2 then Some (v1 :: v2 :: v1 :: st) else
      match st with v3 :: st => if cat2 v3 then None else Some (v1 :: v2 :: v3 :: v1 :: st) | _ => None end
  | SDup2, v1 :: st =>
      if cat2 v1 then Some (v1 :: v1 :: st) else
      match st with v2 :: st => if cat2 v2 then None else Some (v1 :: v2 :: v1 :: v2 :: st) | _ => None end
  | SDup2X1, v1 :: v2 :: st =>
      if cat2 v2 then None else if cat2 v1 then Some (v1 :: v2 :: v1 :: st) else
      match st with v3 :: st => if cat2 v3 then None else Some (v1 :: v2 :: v3 :: v1 :: v2 :: st) | _ => None end
  | SDup2X2, v1 :: v2 :: st =>
      match cat2 v1, cat2 v2, st with
      | true, true, _ => Some (v1 :: v2 :: v1 :: st)
      | true, false, v3 :: st => if cat2 v3 then None else Some (v1 :: v2 :: v3 :: v1 :: st)
      | false, false, v3 :: st =>
          if cat2 v3 then Some (v1 :: v2 :: v3 :: v1 :: v2 :: st) else
          match st with
          | v4 :: st => if cat2 v4 then None else Some (v1 :: v2 :: v3 :: v4 :: v1 :: v2 :: st)
          | _ => None
          end
      | _, _, _ => None
      end
  | SSwap, v1 :: v2 :: st => if cat2 v1 || cat2 v2 then None else Some (v2 :: v1 :: st)
  | _, _ => None
  end.

Definition shuffle_table : list (Z * sinstr) :=
  [(0x57, SPop); (0x58, SPop2); (0x59, SDup); (0x5a, SDupX1); (0x5b, SDupX2); (0x5c, SDup2); (0x5d, SDup2X1);
   (0x5e, SDup2X2); (0x5f, SSwap)].

Lemma cells_cat1 v : cat2 v = false -> exists a t, cells_of v = [(a, t)].
Proof. destruct v; try done; by eexists _, _. Qed.
Lemma cells_cat2 v : cat2 v = true -> exists a b, cells_of v = [(a, FLAG_NONE); (b, FLAG_NONE)].
Proof. destruct v; try done; by eexists _, _. Qed.

(** Make the cells of the values explicit, by their category. *)
Ltac cells_explicit :=
  repeat match goal with
  | H : cat2 ?v = false |- _ => apply cells_cat1 in H as (? & ? & H)
  | H : cat2 ?v = true |- _ => apply cells_cat2 in H as (? & ? & H)
  end;
  repeat match goal with H : cells_of ?v = _ |- _ => rewrite ?H in *; clear H end.

(** [replaces] for opcodes that grow the stack by up to two elements. *)
Ltac junk_explicit :=
  match goal with H : (_ <= _ + length ?junk)%nat |- _ =>
    unfold depth, cells_of_stack in H; rewrite ?flat_map_app in H; cbn [flat_map app length] in H;
    rewrite ?length_app in H;
    try (destruct junk as [|? junk]; cbn [length] in H; [exfalso; lia|]);
    try (destruct junk as [|? junk]; cbn [length] in H; [exfalso; lia|]); clear H
  end.


(** One form of an instruction: the values on top are explicit. *)
Ltac shuffle_form :=
  match goal with |- replaces ?m _ _ =>
    intros ? ? ? ? ? ?; rewrite ?cells_app; unfold cells_of_stack; cbn [flat_map app];
    match goal with H : (depth _ <= _)%nat |- _ => rewrite !depth_app in H; unfold depth, cells_of_stack in H; cbn [flat_map app] in H end;
    cells_explicit; cbn [app length] in *; junk_explicit; unfold m, copy_pick, copy_ref;
    op_steps; eexists; reflexivity
  end.


(** Take the instruction apart into its forms. *)
Ltac split_forms :=
  repeat match goal with
  | H : java_shuffle _ ?vs = Some _ |- _ => is_var vs; destruct vs as [|? vs]; [done|]; cbn [java_shuffle] in H
  | H : match ?vs with _ => _ end = Some _ |- _ => is_var vs; destruct vs as [|? vs]; [done|]
  | H : (if ?b then _ else _) = Some _ |- _ => destruct b eqn:?; try done
  | H : context [match cat2 ?v with _ => _ end] |- _ => destruct (cat2 v) eqn:?; try done
  end;
  repeat match goal with H : _ || _ = false |- _ => apply orb_false_iff in H as [??] end.


(** The values of a list in front of its variable tail. *)
Ltac front_of l :=
  lazymatch l with
  | ?v :: ?l' => let r := front_of l' in constr:(v :: r)
  | _ => constr:(@nil jval)
  end.

Ltac effect_form :=
  match goal with |- effect ?m ?vs (Some ?vs') =>
    let top := front_of vs in let top' := front_of vs' in
    apply (effect_replaces m top top'); [shuffle_form|by repeat constructor]
  end.

Lemma shuffle_effect code op s vs vs' : (op, s) ∈ shuffle_table -> java_shuffle s vs = Some vs' -> Forall val_ok vs ->
  exists m, dispatch code true op = Some m /\ effect m vs (Some vs').
Proof.
  intros Hin Hs Hok. unfold shuffle_table in Hin.
  repeat (apply elem_of_cons in Hin as [[= -> ->]|Hin]; [eexists; split; [reflexivity|]|]).
  all: try by apply elem_of_nil in Hin.
  all: split_forms; injection Hs as <-; repeat (apply Forall_cons_1 in Hok as [? Hok]); effect_form.
Qed.

(** C27: On a frame that represents a stack of Java values with room for the result, pop,
    pop2, swap and the six dup instructions do what the Java virtual machine specifies, in
    every form the specification has for values of one and of two words: the frame
    represents the rearranged values, tags of references and of return addresses go with
    the values, and the program counter moves by one. Build with [_EM64T_]. *)
Theorem shuffle_refines code op s f vs vs' : (op, s) ∈ shuffle_table -> rep f vs -> java_shuffle s vs = Some vs' ->
  (depth vs' <= Z.to_nat (size (stack f)))%nat ->
  exists m, dispatch code true op = Some m /\
    owp m f (fun f' _ => rep f' vs' /\ ip f' = ip f + 1 /\ locals f' = locals f /\ exn f' = exn f).
Proof.
  intros Hin Hrep Hs Hroom. destruct (shuffle_effect code op s vs vs' Hin Hs) as (m & Hd & He); [by apply Hrep|].
  exists m. split; [done|]. by apply (effect_frame m f vs (Some vs')).
Qed.

(** [dup2_x2] on an [int] and a reference above a [long]. *)
Definition frame_dup : StackFrame :=
  fr 3 (cells_of_stack [VInt 5; VRef 77; VLong (-2)]) [0; 0; 0] (Locals_init []) None.

Lemma shuffle_refines_witness : exists m, dispatch [] true 0x5e = Some m /\
  owp m frame_dup (fun f' _ => rep f' [VInt 5; VRef 77; VLong (-2); VInt 5; VRef 77] /\ ip f' = 4 /\
    locals f' = Locals_init [] /\ exn f' = None).
Proof.
  apply (shuffle_refines [] 0x5e SDup2X2 frame_dup [VInt 5; VRef 77; VLong (-2)]).
  - vm_compute. repeat constructor.
  - split; [repeat constructor; done|by exists [0; 0; 0]].
  - reflexivity.
  - apply Nat.leb_le. vm_compute. reflexivity.
Defined.

(** ** Constants *)

(** The value an instruction pushes and its length. *)
Definition java_const (code : list Z) (pc : Z) : option (jval * Z) :=
  op ← byte code pc;
  match op with
  | 1 => Some (VRef 0, 1)
  | 9 => Some (VLong 0, 1) | 10 => Some (VLong 1, 1)
  | 11 => Some (VFloat 0, 1) | 12 => Some (VFloat 0x3F800000, 1) | 13 => Some (VFloat 0x40000000, 1)
  | 14 => Some (VDouble 0, 1) | 15 => Some (VDouble 0x3FF0000000000000, 1)
  | 16 => b ← byte code (pc + 1); Some (VInt (sx 8 b), 2)
  | 17 => b0 ← byte code (pc + 1); b1 ← byte code (pc + 2); Some (VInt (sx 16 (b0 * 2 ^ 8 + b1)), 3)
  | _ => if (2 <=? op) && (op <=? 8) then Some (VInt (op - 3), 1) else None
  end.

Lemma byte_range code pc b : Forall (is_u 8) code -> byte code pc = Some b -> is_u 8 b.
Proof. intros Hc. unfold byte. destruct (0 <=? pc); [|done]. intros Hb. by apply (Forall_lookup_1 _ _ _ _ Hc Hb). Qed.

Lemma read_int16_eq code pc b0 b1 : byte code pc = Some b0 -> byte code (pc + 1) = Some b1 ->
  read_int16 code pc = Some (sx 16 (b0 * 2 ^ 8 + b1)).
Proof.
  intros H0 H1. unfold read_int16. rewrite H0. cbn [mbind option_bind]. rewrite H1. cbn [mbind option_bind]. f_equal.
  apply eqm_sx_iff. pose proof (eqm_sx 8 b0) as [k Hk]. exists k. change (2 ^ 16) with 65536. change (2 ^ 8) with 256 in *. lia.
Qed.

(** The opcode pushes [v] and goes on by [len] bytes. *)
Definition pushes (m : Op unit) (i : Z) (v : jval) (len : Z) : Prop :=
  forall rest junk l x, (depth [v] <= length junk)%nat ->
  owp m (fr i (cells_of_stack rest) junk l x) (fun f' _ =>
    exists junk', f' = fr (i + len) (cells_of_stack (v :: rest)) junk' l x).

Lemma const32_pushes v a i : cells_of v = [(a, FLAG_NONE)] -> pushes (DEF_OPCODE_CONST32_N a) i v 1.
Proof.
  intros Hv rest junk l x Hroom. unfold depth, cells_of_stack in *. cbn [flat_map] in *. rewrite Hv in *. cbn [app length] in *.
  destruct junk as [|j junk]; cbn [length] in Hroom; [lia|].
  unfold DEF_OPCODE_CONST32_N. op_steps. eexists. reflexivity.
Qed.

Lemma const64_pushes v a i : cells_of v = cells2 a -> pushes (DEF_OPCODE_CONST64_N a) i v 1.
Proof.
  intros Hv rest junk l x Hroom. unfold depth, cells_of_stack in *. cbn [flat_map] in *. rewrite Hv in *. unfold cells2 in *.
  cbn [app length] in *. destruct junk as [|j [|k junk]]; cbn [length] in Hroom; try lia.
  unfold DEF_OPCODE_CONST64_N. op_steps. eexists. reflexivity.
Qed.


(** The instructions without operands. *)
Ltac const_simple :=
  match goal with |- pushes _ _ ?v _ =>
    match v with
    | VLong _ => apply const64_pushes; vm_compute; reflexivity
    | VDouble _ => apply const64_pushes; vm_compute; reflexivity
    | _ => apply const32_pushes; vm_compute; reflexivity
    end end.

(** The operand of an immediate instruction. *)
Lemma imm_pushes read len n i :
  read (i + 1) = Some n -> pushes (o_push 1;;* do* v := o_read read 1 in o_set_pick 0 (of_i v);;* add_ip len) i (VInt n) len.
Proof.
  intros Hr rest junk l x Hroom. unfold depth, cells_of_stack in *. cbn [flat_map cells_of app length] in *.
  destruct junk as [|j junk]; cbn [length] in Hroom; [lia|].
  op_step. op_step. op_step. eapply owp_read; [exact Hr|]. op_steps. eexists. reflexivity.
Qed.

Lemma null_pushes i : pushes Opcode_ACONST_NULL i (VRef 0) 1.
Proof.
  intros rest junk l x Hroom. unfold depth, cells_of_stack in *. cbn [flat_map cells_of app length] in *.
  destruct junk as [|j junk]; cbn [length] in Hroom; [lia|].
  unfold Opcode_ACONST_NULL. op_steps. eexists. reflexivity.
Qed.

Lemma const_opcode code i v len : Forall (is_u 8) code -> java_const code i = Some (v, len) ->
  exists op m, byte code i = Some op /\ dispatch code true op = Some m /\ pushes m i v len /\ val_ok v.
Proof.
  intros Hcode H. unfold java_const in H. destruct (byte code i) as [op|] eqn:Hop; [|done]. cbn [mbind option_bind] in H.
  exists op.
  assert (Hcases : op = 1 \/ op = 2 \/ op = 3 \/ op = 4 \/ op = 5 \/ op = 6 \/ op = 7 \/ op = 8 \/ op = 9 \/ op = 10 \/
    op = 11 \/ op = 12 \/ op = 13 \/ op = 14 \/ op = 15 \/ op = 16 \/ op = 17 \/ op < 1 \/ 17 < op) by lia.
  repeat destruct Hcases as [->|Hcases].
  { injection H as <- <-. eexists. split; [done|]. split; [reflexivity|]. split; [apply null_pushes|done]. }
  all: try (injection H as <- <-; eexists; split; [done|]; split; [reflexivity|]; split; [const_simple|by vm_compute]).
  - destruct (byte code (i + 1)) as [b|] eqn:Hb; [|done]. injection H as <- <-.
    eexists. split; [done|]. split; [reflexivity|]. split; [|by apply (is_s_weaken 8), sx_range].
    apply imm_pushes. unfold read_int8. by rewrite Hb.
  - destruct (byte code (i + 1)) as [b0|] eqn:Hb0; [|done]. cbn [mbind option_bind] in H.
    destruct (byte code (i + 2)) as [b1|] eqn:Hb1; [|done]. injection H as <- <-.
    eexists. split; [done|]. split; [reflexivity|]. split; [|by apply (is_s_weaken 16), sx_range].
    apply imm_pushes. apply read_int16_eq; [done|]. by replace (i + 1 + 1) with (i + 2) by lia.
  - exfalso. revert H. assert ((2 <=? op) && (op <=? 8) = false) as ->.
    { destruct Hcases; [rewrite (proj2 (Z.leb_gt 2 op)) by lia|rewrite (proj2 (Z.leb_gt op 8)) by lia; rewrite andb_false_r]; done. }
    destruct op as [|p|p]; [done| |done]. do 5 (destruct p as [p|p|]; try done; try lia).
Qed.

(** every constant instruction pushes the value the specification gives it
    and moves the instruction pointer past its operands: the null reference, the
    small [int], [long], [float] and [double] constants, and the sign-extended
    immediates of [bipush] and [sipush]. *)
Theorem const_refines code f vs v len : Forall (is_u 8) code -> java_const code (ip f) = Some (v, len) ->
  rep f vs -> (depth (v :: vs) <= Z.to_nat (size (stack f)))%nat ->
  exists op m, byte code (ip f) = Some op /\ dispatch code true op = Some m /\
    owp m f (fun f' _ => rep f' (v :: vs) /\ ip f' = ip f + len /\ locals f' = locals f /\ exn f' = exn f).
Proof.
  intros Hcode Hc [Hok [junk Hst]] Hroom.
  destruct (const_opcode code (ip f) v len Hcode Hc) as (op & m & Hop & Hm & Hp & Hv).
  exists op, m. split; [done|]. split; [done|]. destruct f as [i s l x]. simpl in *. subst s.
  rewrite size_canon, Nat2Z.id in Hroom. change (v :: vs) with ([v] ++ vs) in Hroom. rewrite depth_app in Hroom.
  eapply owp_mono; [apply Hp; unfold depth in *; lia|].
  intros f' _ [junk' ->]. simpl. split; [|done]. split; [by constructor|by eexists].
Qed.

Lemma const_refines_witness : exists op m, byte [0x11; 0xff; 0x38] 0 = Some op /\
  dispatch [0x11; 0xff; 0x38] true op = Some m /\
  owp m (fr 0 [] [0; 0] (Locals_init []) None) (fun f' _ => rep f' [VInt (-200)] /\ ip f' = 0 + 3 /\
    locals f' = Locals_init [] /\ exn f' = None).
Proof.
  apply (const_refines [0x11; 0xff; 0x38] (fr 0 [] [0; 0] (Locals_init []) None) [] (VInt (-200)) 3).
  - repeat constructor; done.
  - reflexivity.
  - split; [by constructor|by exists [0; 0]].
  - apply Nat.leb_le. vm_compute. reflexivity.
Defined.

(** ** Loads and stores *)

Inductive kind := KInt | KLong | KFloat | KDouble | KRef.

Definition kind_of (n : Z) : option kind :=
  match n with 0 => Some KInt | 1 => Some KLong | 2 => Some KFloat | 3 => Some KDouble | 4 => Some KRef | _ => None end.

(** The kind of value, the variable and the length of the load or store at [pc]:
    [base] is the first opcode with an index byte, after its five follow the short
    forms. *)
Definition local_instr (base short : Z) (code : list Z) (pc : Z) : option (kind * Z * Z) :=
  op ← byte code pc;
  if (base <=? op) && (op <? base + 5) then
    k ← kind_of (op - base); n ← byte code (pc + 1); Some (k, n, 2)
  else if (short <=? op) && (op <? short + 20) then
    k ← kind_of ((op - short) / 4); Some (k, (op - short) mod 4, 1)
  else if op =? 0xc4 then
    op ← byte code (pc + 1);
    if (base <=? op) && (op <? base + 5) then
      k ← kind_of (op - base); b0 ← byte code (pc + 2); b1 ← byte code (pc + 3); Some (k, b0 * 2 ^ 8 + b1, 4)
    else None
  else None.
Definition java_load : list Z -> Z -> option (kind * Z * Z) := local_instr 21 26.
Definition java_store : list Z -> Z -> option (kind * Z * Z) := local_instr 54 59.

(** The values an instruction of a kind takes; [astore] takes return addresses too. *)
Definition has_kind (v : jval) (k : kind) (store : bool) : bool :=
  match v, k with
  | VInt _, KInt | VLong _, KLong | VFloat _, KFloat | VDouble _, KDouble | VRef _, KRef => true
  | VRet _, KRef => store
  | _, _ => false
  end.

(** A local variable, or a pair of them, holds a value. *)
Definition local_holds (l : Locals) (n : Z) (v : jval) : Prop :=
  match cells_of v with
  | [(a, t)] => local l n = Some a /\ local_ref l n = Some t
  | [(hi, _); (lo, _)] => local l n = Some lo /\ local l (n + 1) = Some hi /\
      local_ref l n = Some FLAG_NONE /\ local_ref l (n + 1) = Some FLAG_NONE
  | _ => False
  end.
Definition width (v : jval) : Z := if cat2 v then 2 else 1.

Definition locals_ok (l : Locals) : Prop := length (lrefs l) = length (vars l).

(** [l'] is [l] with [v] stored at [n]: the variables that do not overlap keep
    their values. *)
Definition stored (l : Locals) (n : Z) (v : jval) (l' : Locals) : Prop :=
  locals_ok l' /\ varNum l' = varNum l /\ local_holds l' n v /\
  forall m u, local_holds l m u -> m + width u <= n \/ n + width v <= m -> local_holds l' m u.

Section set.
Context (l l' : Locals) (n a : Z) (Hok : locals_ok l).

Lemma set_local_exists : 0 <= n < varNum l -> exists l1, set_local l n a = Some l1.
Proof.
  intros Hn. unfold set_local. rewrite (proj2 (Z.leb_le _ _)), (proj2 (Z.ltb_lt _ _)) by lia. by eexists.
Qed.
Lemma set_local_ref_exists : 0 <= n < varNum l -> exists l1, set_local_ref l n a = Some l1.
Proof.
  intros Hn. unfold set_local_ref. rewrite (proj2 (Z.leb_le _ _)), (proj2 (Z.ltb_lt _ _)) by lia. by eexists.
Qed.

Lemma lookup_set_local (H : set_local l n a = Some l') m :
  varNum l' = varNum l /\ locals_ok l' /\ local l' m = (if m =? n then Some a else local l m) /\
  local_ref l' m = local_ref l m.
Proof.
  unfold set_local in H. destruct (_ && _) eqn:Hr; [|done]. injection H as <-.
  apply andb_true_iff in Hr as [Hn0 Hn]. apply Z.leb_le in Hn0. apply Z.ltb_lt in Hn.
  unfold locals_ok, local, local_ref, varNum in *. simpl. rewrite length_insert. repeat split; try done.
  destruct (Z.eqb_spec m n) as [->|Hne].
  - rewrite (proj2 (Z.leb_le _ _)), (proj2 (Z.ltb_lt _ _)) by lia. simpl. rewrite list_lookup_insert_eq; [done|lia].
  - destruct ((0 <=? m) && _) eqn:Hm; [|done]. apply andb_true_iff in Hm as [Hm ?]. apply Z.leb_le in Hm.
    rewrite list_lookup_insert_ne; [done|lia].
Qed.

Lemma lookup_set_local_ref (H : set_local_ref l n a = Some l') m :
  varNum l' = varNum l /\ locals_ok l' /\ local l' m = local l m /\
  local_ref l' m = (if m =? n then Some a else local_ref l m).
Proof.
  unfold set_local_ref in H. destruct (_ && _) eqn:Hr; [|done]. injection H as <-.
  apply andb_true_iff in Hr as [Hn0 Hn]. apply Z.leb_le in Hn0. apply Z.ltb_lt in Hn.
  unfold locals_ok, local, local_ref, varNum in *. simpl. rewrite length_insert. repeat split; try done.
  destruct (Z.eqb_spec m n) as [->|Hne].
  - rewrite (proj2 (Z.leb_le _ _)), (proj2 (Z.ltb_lt _ _)) by lia. simpl. rewrite list_lookup_insert_eq; [done|lia].
  - destruct ((0 <=? m) && _) eqn:Hm; [|done]. apply andb_true_iff in Hm as [Hm ?]. apply Z.leb_le in Hm.
    rewrite list_lookup_insert_ne; [done|lia].
Qed.
End set.

Lemma stored_intro l n v l' : locals_ok l' -> varNum l' = varNum l -> local_holds l' n v ->
  (forall m, m < n \/ n + width v <= m -> local l' m = local l m /\ local_ref l' m = local_ref l m) ->
  stored l n v l'.
Proof.
  intros Hok Hn Hv Hm. do 3 (split; [done|]). intros m u Hu Hdis. unfold local_holds in *. unfold width in Hdis at 1.
  destruct (cat2 u) eqn:Hc.
  - apply cells_cat2 in Hc as (a & b & Hc). rewrite Hc in *.
    destruct (Hm m ltac:(lia)) as [-> ->], (Hm (m + 1) ltac:(lia)) as [-> ->]. done.
  - apply cells_cat1 in Hc as (a & b & Hc). rewrite Hc in *. destruct (Hm m ltac:(lia)) as [-> ->]. done.
Qed.

Lemma store1 l n v a t : locals_ok l -> 0 <= n -> n + width v <= varNum l -> cells_of v = [(a, t)] ->
  exists l1 l2, set_local l n a = Some l1 /\ set_local_ref l1 n t = Some l2 /\ stored l n v l2.
Proof.
  intros Hok Hn Hw Hv.
  assert (width v = 1) as Hwv by (unfold width; destruct v; done). rewrite Hwv in Hw.
  destruct (set_local_exists l n a ltac:(lia)) as [l1 H1].
  pose proof (lookup_set_local l l1 n a Hok H1) as L1. destruct (L1 n) as (Hn1 & Hok1 & _).
  destruct (set_local_ref_exists l1 n t ltac:(lia)) as [l2 H2].
  pose proof (lookup_set_local_ref l1 l2 n t Hok1 H2) as L2. destruct (L2 n) as (Hn2 & Hok2 & _).
  exists l1, l2. split; [done|]. split; [done|]. apply stored_intro; [done|lia| |].
  - unfold local_holds. rewrite Hv. destruct (L1 n) as (_ & _ & E1 & _), (L2 n) as (_ & _ & E2 & E3).
    rewrite Z.eqb_refl in *. by rewrite E2, E3.
  - intros m Hm. rewrite Hwv in Hm. destruct (L1 m) as (_ & _ & E1 & E1'), (L2 m) as (_ & _ & E2 & E2').
    rewrite (proj2 (Z.eqb_neq m n)) in * by lia. split; congruence.
Qed.

Lemma store2 l n v hi lo : locals_ok l -> 0 <= n -> n + width v <= varNum l ->
  cells_of v = [(hi, FLAG_NONE); (lo, FLAG_NONE)] ->
  exists l1 l2 l3 l4, set_local l (n + 1) hi = Some l1 /\ set_local l1 (n + 0) lo = Some l2 /\
    set_local_ref l2 (n + 0) FLAG_NONE = Some l3 /\ set_local_ref l3 (n + 1) FLAG_NONE = Some l4 /\ stored l n v l4.
Proof.
  intros Hok Hn Hw Hv. rewrite Z.add_0_r.
  assert (width v = 2) as Hwv by (unfold width; destruct v; done). rewrite Hwv in Hw.
  destruct (set_local_exists l (n + 1) hi ltac:(lia)) as [l1 H1].
  pose proof (lookup_set_local l l1 (n + 1) hi Hok H1) as L1. destruct (L1 n) as (Hn1 & Hok1 & _).
  destruct (set_local_exists l1 n lo ltac:(lia)) as [l2 H2].
  pose proof (lookup_set_local l1 l2 n lo Hok1 H2) as L2. destruct (L2 n) as (Hn2 & Hok2 & _).
  destruct (set_local_ref_exists l2 n FLAG_NONE ltac:(lia)) as [l3 H3].
  pose proof (lookup_set_local_ref l2 l3 n _ Hok2 H3) as L3. destruct (L3 n) as (Hn3 & Hok3 & _).
  destruct (set_local_ref_exists l3 (n + 1) FLAG_NONE ltac:(lia)) as [l4 H4].
  pose proof (lookup_set_local_ref l3 l4 (n + 1) _ Hok3 H4) as L4. destruct (L4 n) as (Hn4 & Hok4 & _).
  exists l1, l2, l3, l4. do 4 (split; [done|]).
  assert (Hall : forall m, local l4 m = (if m =? n then Some lo else if m =? n + 1 then Some hi else local l m) /\
    local_ref l4 m = (if (m =? n) || (m =? n + 1) then Some FLAG_NONE else local_ref l m)).
  { intros m. destruct (L1 m) as (_ & _ & E1 & F1), (L2 m) as (_ & _ & E2 & F2), (L3 m) as (_ & _ & E3 & F3),
      (L4 m) as (_ & _ & E4 & F4). rewrite E4, E3, E2, E1, F4, F3, F2, F1. split; [done|].
    destruct (m =? n), (m =? n + 1); done. }
  apply stored_intro; [done|lia| |].
  - unfold local_holds. rewrite Hv. destruct (Hall n) as [-> ->], (Hall (n + 1)) as [-> ->].
    rewrite !Z.eqb_refl, (proj2 (Z.eqb_neq (n + 1) n)) by lia. done.
  - intros m Hm. rewrite Hwv in Hm. destruct (Hall m) as [-> ->].
    by rewrite (proj2 (Z.eqb_neq m n)), (proj2 (Z.eqb_neq m (n + 1))) by lia.
Qed.

(** *** Behaviour of the opcodes *)

Definition loads (m : Op unit) (i : Z) (k : kind) (n len : Z) : Prop :=
  forall v rest junk l x, has_kind v k false = true -> local_holds l n v -> (depth [v] <= length junk)%nat ->
  owp m (fr i (cells_of_stack rest) junk l x) (fun f' _ =>
    exists junk', f' = fr (i + len) (cells_of_stack (v :: rest)) junk' l x).

Definition stores (m : Op unit) (i : Z) (k : kind) (n len : Z) : Prop :=
  forall v rest junk l x, has_kind v k true = true -> locals_ok l -> n + width v <= varNum l ->
  owp m (fr i (cells_of_stack (v :: rest)) junk l x) (fun f' _ =>
    exists junk' l', f' = fr (i + len) (cells_of_stack rest) junk' l' x /\ stored l n v l').

(** The cell of a value of category 1 by its kind. *)
Lemma iload_loads i k n len : k = KInt \/ k = KFloat -> loads (iload n len) i k n len.
Proof.
  intros Hk v rest junk l x Hv Hl Hroom.
  assert (exists a, cells_of v = [(a, FLAG_NONE)]) as [a Ha] by (destruct Hk as [-> | ->], v; try done; by eexists).
  unfold local_holds in Hl. unfold depth, cells_of_stack in *. cbn [flat_map] in *. rewrite Ha in *.
  cbn [app length] in *. destruct junk as [|j junk]; cbn [length] in Hroom; [lia|].
  unfold iload. op_step. eapply owp_local; [apply Hl|]. op_steps. eexists. reflexivity.
Qed.

Lemma aload_loads i n len : loads (aload n len) i KRef n len.
Proof.
  intros v rest junk l x Hv Hl Hroom. destruct v; try done.
  unfold local_holds, depth, cells_of_stack in *. cbn [flat_map cells_of app length] in *.
  destruct junk as [|j junk]; cbn [length] in Hroom; [lia|]. destruct Hl as [Hl Hr].
  unfold aload. op_step. eapply owp_local; [exact Hl|]. op_step. op_step. op_step. op_step. op_step.
  eapply owp_local_ref; [exact Hr|]. op_steps. eexists. reflexivity.
Qed.

Lemma aload_n_loads i n : loads (DEF_OPCODE_ALOAD_N n) i KRef n 1.
Proof.
  intros v rest junk l x Hv Hl Hroom. destruct v; try done.
  unfold local_holds, depth, cells_of_stack in *. cbn [flat_map cells_of app length] in *.
  destruct junk as [|j junk]; cbn [length] in Hroom; [lia|]. destruct Hl as [Hl Hr].
  unfold DEF_OPCODE_ALOAD_N. op_step. eapply owp_local; [exact Hl|]. do 7 op_step.
  eapply owp_local_ref; [exact Hr|]. op_steps. eexists. reflexivity.
Qed.

Lemma lload_loads i k n len : k = KLong \/ k = KDouble -> loads (lload n len) i k n len.
Proof.
  intros Hk v rest junk l x Hv Hl Hroom.
  assert (exists a b, cells_of v = [(a, FLAG_NONE); (b, FLAG_NONE)]) as (a & b & Ha)
    by (destruct Hk as [-> | ->], v; try done; by eexists _, _).
  unfold local_holds in Hl. unfold depth, cells_of_stack in *. cbn [flat_map] in *. rewrite Ha in *.
  cbn [app length] in *. destruct junk as [|j [|j' junk]]; cbn [length] in Hroom; try lia.
  destruct Hl as (H0 & H1 & _). unfold lload, l0, l1, s0, s1. rewrite Z.add_0_r. op_step. op_step. op_step.
  eapply owp_local; [exact H1|]. op_step. op_step. op_step. eapply owp_local; [exact H0|]. op_steps.
  eexists. reflexivity.
Qed.

Lemma istore_stores i k n len : k = KInt \/ k = KFloat -> 0 <= n -> stores (istore n len) i k n len.
Proof.
  intros Hk Hn v rest junk l x Hv Hok Hw.
  assert (exists a, cells_of v = [(a, FLAG_NONE)]) as [a Ha] by (destruct Hk as [-> | ->], v; try done; by eexists).
  destruct (store1 l n v a FLAG_NONE Hok Hn Hw Ha) as (l1 & l2 & H1 & H2 & Hs).
  unfold cells_of_stack. cbn [flat_map]. rewrite Ha. cbn [app].
  unfold istore. do 3 op_step. eapply owp_set_local; [exact H1|]. op_step.
  eapply owp_set_local_ref; [exact H2|]. op_steps. eexists _, l2. by split.
Qed.

Lemma astore_stores i n len : 0 <= n -> stores (astore n len) i KRef n len.
Proof.
  intros Hn v rest junk l x Hv Hok Hw.
  assert (exists a t, cells_of v = [(a, t)]) as (a & t & Ha) by (destruct v; try done; by eexists _, _).
  destruct (store1 l n v a t Hok Hn Hw Ha) as (l1 & l2 & H1 & H2 & Hs).
  unfold cells_of_stack. cbn [flat_map]. rewrite Ha. cbn [app].
  unfold astore. do 3 op_step. eapply owp_set_local; [exact H1|]. do 3 op_step.
  eapply owp_set_local_ref; [exact H2|]. op_steps. eexists _, l2. by split.
Qed.

Lemma lstore_stores i k n len : k = KLong \/ k = KDouble -> 0 <= n -> stores (lstore n len) i k n len.
Proof.
  intros Hk Hn v rest junk l x Hv Hok Hw.
  assert (exists a b, cells_of v = [(a, FLAG_NONE); (b, FLAG_NONE)]) as (a & b & Ha)
    by (destruct Hk as [-> | ->], v; try done; by eexists _, _).
  destruct (store2 l n v a b Hok Hn Hw Ha) as (m1 & m2 & m3 & m4 & H1 & H2 & H3 & H4 & Hs).
  unfold cells_of_stack. cbn [flat_map]. rewrite Ha. cbn [app].
  unfold lstore, l0, l1, s0, s1. do 3 op_step. eapply owp_set_local; [exact H1|]. do 3 op_step.
  eapply owp_set_local; [exact H2|]. op_step. eapply owp_set_local_ref; [exact H3|]. op_step.
  eapply owp_set_local_ref; [exact H4|]. op_steps. eexists _, m4. by split.
Qed.

(** *** Decoding *)

Lemma read_uint16_eq code pc b0 b1 : Forall (is_u 8) code -> byte code pc = Some b0 -> byte code (pc + 1) = Some b1 ->
  read_uint16 code pc = Some (b0 * 2 ^ 8 + b1).
Proof.
  intros Hc H0 H1. unfold read_uint16. rewrite H0. cbn [mbind option_bind]. rewrite H1. cbn [mbind option_bind].
  f_equal. rewrite ux_sx. apply ux_id. pose proof (byte_range _ _ _ Hc H0). pose proof (byte_range _ _ _ Hc H1).
  unfold is_u in *. change (2 ^ 16) with 65536. change (2 ^ 8) with 256 in *. lia.
Qed.

Lemma loads_read read off h i a k n len : read (i + off) = Some a -> loads (h a) i k n len ->
  loads (do* v := o_read read off in h v) i k n len.
Proof.
  intros Hr Hl v rest junk l x Hv Hh Hroom. op_step. eapply owp_read; [exact Hr|]. by apply (Hl v).
Qed.
Lemma stores_read read off h i a k n len : read (i + off) = Some a -> stores (h a) i k n len ->
  stores (do* v := o_read read off in h v) i k n len.
Proof.
  intros Hr Hl v rest junk l x Hv Hh Hroom. op_step. eapply owp_read; [exact Hr|]. by apply (Hl v).
Qed.

(** The opcode of an index byte, of a short form and of a wide form. *)
Lemma short_range a b m : (a <=? m) && (m <? a + b) = true -> a <= m < a + b.
Proof. intros [H1 H2]%andb_true_iff. apply Z.leb_le in H1. apply Z.ltb_lt in H2. lia. Qed.

Ltac cases_of op lo n :=
  lazymatch n with
  | O => lia
  | S ?n => destruct (decide (op = lo)) as [->|]; [|let lo' := eval vm_compute in (lo + 1) in cases_of op lo' n]
  end.

Ltac decode_index :=
  match goal with H : (k ← kind_of ?e; n ← byte ?c ?p; _) = Some _ |- _ =>
    let k := eval vm_compute in (kind_of e) in change (kind_of e) with k in H; cbn [mbind option_bind] in H;
    destruct (byte c p) as [b|] eqn:Hb; [|done]; injection H as <- <- <- end.

Ltac decode_wide :=
  match goal with H : (k ← kind_of ?e; _) = Some _ |- _ =>
    let k := eval vm_compute in (kind_of e) in change (kind_of e) with k in H; cbn [mbind option_bind] in H end;
  match goal with H : (b0 ← byte ?c ?p; b1 ← byte ?c ?q; _) = Some _ |- _ =>
    destruct (byte c p) as [b0|] eqn:Hb0; [|done]; cbn [mbind option_bind] in H;
    destruct (byte c q) as [b1|] eqn:Hb1; [|done]; injection H as <- <- <- end.

Ltac decode_short :=
  match goal with H : (k ← kind_of ?e; Some (k, ?n, 1)) = Some _ |- _ =>
    let k := eval vm_compute in (kind_of e) in change (kind_of e) with k in H;
    let m := eval vm_compute in n in change n with m in H;
    cbn [mbind option_bind] in H; injection H as <- <- <- end.

Ltac by_kind ti tl ta :=
  lazymatch goal with
  | |- _ _ _ KInt _ _ => ti | |- _ _ _ KFloat _ _ => ti
  | |- _ _ _ KRef _ _ => ta
  | |- _ => tl
  end.

Lemma load_opcode code i k n len : Forall (is_u 8) code -> java_load code i = Some (k, n, len) ->
  exists op m, byte code i = Some op /\ dispatch code true op = Some m /\ loads m i k n len.
Proof.
  intros Hcode H. unfold java_load, local_instr in H. destruct (byte code i) as [op|] eqn:Hop; [|done].
  cbn [mbind option_bind] in H. exists op.
  destruct ((21 <=? op) && (op <? 21 + 5)) eqn:H5; [|destruct ((26 <=? op) && (op <? 26 + 20)) eqn:H20].
  - apply short_range in H5. cases_of op 21 5%nat; decode_index.
    all: eexists; split; [done|]; split; [reflexivity|]; eapply (loads_read (read_uint8 code) 1); [exact Hb|].
    all: by_kind ltac:(apply iload_loads; by auto) ltac:(apply lload_loads; by auto) ltac:(apply aload_loads).
  - apply short_range in H20. cases_of op 26 20%nat; decode_short.
    all: eexists; split; [done|]; split; [reflexivity|].
    all: by_kind ltac:(apply iload_loads; by auto) ltac:(apply lload_loads; by auto) ltac:(apply aload_n_loads).
  - destruct (Z.eqb_spec op 0xc4) as [->|]; [|done]. destruct (byte code (i + 1)) as [op|] eqn:Hop1; [|done].
    cbn [mbind option_bind] in H. destruct ((21 <=? op) && (op <? 21 + 5)) eqn:Hw; [|done].
    exists (dispatch_wide code). split; [done|]. split; [reflexivity|].
    apply short_range in Hw. apply (loads_read (byte code) 1 _ _ op); [done|].
    cases_of op 21 5%nat; decode_wide.
    all: eapply (loads_read (read_uint16 code) 2);
      [apply read_uint16_eq; [done|exact Hb0|by replace (i + 2 + 1) with (i + 3) by lia]|].
    all: by_kind ltac:(apply iload_loads; by auto) ltac:(apply lload_loads; by auto) ltac:(apply aload_loads).
Qed.

Lemma byte_nonneg code pc b : Forall (is_u 8) code -> byte code pc = Some b -> 0 <= b.
Proof. intros Hc Hb. by apply (byte_range code pc). Qed.
#[local] Hint Resolve byte_nonneg : core.

Lemma store_opcode code i k n len : Forall (is_u 8) code -> java_store code i = Some (k, n, len) ->
  exists op m, byte code i = Some op /\ dispatch code true op = Some m /\ stores m i k n len.
Proof.
  intros Hcode H. unfold java_store, local_instr in H. destruct (byte code i) as [op|] eqn:Hop; [|done].
  cbn [mbind option_bind] in H. exists op.
  destruct ((54 <=? op) && (op <? 54 + 5)) eqn:H5; [|destruct ((59 <=? op) && (op <? 59 + 20)) eqn:H20].
  - apply short_range in H5. cases_of op 54 5%nat; decode_index.
    all: eexists; split; [done|]; split; [reflexivity|]; eapply (stores_read (read_uint8 code) 1); [exact Hb|].
    all: by_kind ltac:(apply istore_stores; by eauto) ltac:(apply lstore_stores; by eauto) ltac:(apply astore_stores; by eauto).
  - apply short_range in H20. cases_of op 59 20%nat; decode_short.
    all: eexists; split; [done|]; split; [reflexivity|].
    all: unfold DEF_OPCODE_ISTORE_N, DEF_OPCODE_LSTORE_N, DEF_OPCODE_ASTORE_N.
    all: by_kind ltac:(apply istore_stores; [by auto|lia]) ltac:(apply lstore_stores; [by auto|lia]) ltac:(apply astore_stores; lia).
  - destruct (Z.eqb_spec op 0xc4) as [->|]; [|done]. destruct (byte code (i + 1)) as [op|] eqn:Hop1; [|done].
    cbn [mbind option_bind] in H. destruct ((54 <=? op) && (op <? 54 + 5)) eqn:Hw; [|done].
    exists (dispatch_wide code). split; [done|]. split; [reflexivity|].
    apply short_range in Hw. apply (stores_read (byte code) 1 _ _ op); [done|].
    assert (Hi3 : i + 2 + 1 = i + 3) by lia. cases_of op 54 5%nat; decode_wide.
    all: eapply (stores_read (read_uint16 code) 2);
      [apply read_uint16_eq; [done|exact Hb0|rewrite Hi3; exact Hb1]|].
    all: pose proof (byte_nonneg _ _ _ Hcode Hb0); pose proof (byte_nonneg _ _ _ Hcode Hb1).
    all: assert (0 <= b0 * 2 ^ 8 + b1) by lia.
    all: unfold DEF_OPCODE_ISTORE_N, DEF_OPCODE_LSTORE_N, DEF_OPCODE_ASTORE_N.
    all: by_kind ltac:(apply istore_stores; [by auto|lia]) ltac:(apply lstore_stores; [by auto|lia]) ltac:(apply astore_stores; lia).
Qed.

(** a load, in its indexed, short or [wide] form, copies the variable's value
    of its kind to the top of the stack, with its tag, and leaves the variables
    alone. *)
Theorem load_refines code f vs k n len v : Forall (is_u 8) code -> java_load code (ip f) = Some (k, n, len) ->
  rep f vs -> has_kind v k false = true -> val_ok v -> local_holds (locals f) n v ->
  (depth (v :: vs) <= Z.to_nat (size (stack f)))%nat ->
  exists op m, byte code (ip f) = Some op /\ dispatch code true op = Some m /\
    owp m f (fun f' _ => rep f' (v :: vs) /\ ip f' = ip f + len /\ locals f' = locals f /\ exn f' = exn f).
Proof.
  intros Hcode Hc [Hok [junk Hst]] Hk Hv Hl Hroom.
  destruct (load_opcode code (ip f) k n len Hcode Hc) as (op & m & Hop & Hm & Hp).
  exists op, m. split; [done|]. split; [done|]. destruct f as [i s l x]. simpl in *. subst s.
  rewrite size_canon, Nat2Z.id in Hroom. change (v :: vs) with ([v] ++ vs) in Hroom. rewrite depth_app in Hroom.
  eapply owp_mono; [apply (Hp v); [done|done|unfold depth in *; lia]|].
  intros f' _ [junk' ->]. simpl. split; [|done]. split; [by constructor|by eexists].
Qed.

(** a store moves the value on top of the stack into its variable or pair of
    variables, with its tag; every variable the value does not overlap keeps its
    value. *)
Theorem store_refines code f vs k n len v : Forall (is_u 8) code -> java_store code (ip f) = Some (k, n, len) ->
  rep f (v :: vs) -> has_kind v k true = true -> locals_ok (locals f) -> n + width v <= varNum (locals f) ->
  exists op m, byte code (ip f) = Some op /\ dispatch code true op = Some m /\
    owp m f (fun f' _ => rep f' vs /\ ip f' = ip f + len /\ stored (locals f) n v (locals f') /\ exn f' = exn f).
Proof.
  intros Hcode Hc [Hok [junk Hst]] Hk Hl Hn.
  destruct (store_opcode code (ip f) k n len Hcode Hc) as (op & m & Hop & Hm & Hp).
  exists op, m. split; [done|]. split; [done|]. destruct f as [i s l x]. simpl in *. subst s.
  eapply owp_mono; [by apply (Hp v)|].
  intros f' _ (junk' & l' & -> & Hs). simpl. split; [|done]. apply Forall_cons_1 in Hok as [_ Hok].
  split; [done|by eexists].
Qed.

(** A [double] in the variables 256 and 257, loaded and stored by [wide] instructions. *)
Definition locals_wide : Locals := MkLocals (replicate 256 0 ++ [7; 0x40000000; 0]) (replicate 259 FLAG_NONE).

Lemma load_refines_witness : exists op m, byte [0xc4; 0x18; 1; 0] 0 = Some op /\
  dispatch [0xc4; 0x18; 1; 0] true op = Some m /\
  owp m (fr 0 [] [0; 0] locals_wide None) (fun f' _ => rep f' [VDouble 0x4000000000000007] /\ ip f' = 0 + 4 /\
    locals f' = locals_wide /\ exn f' = None).
Proof.
  apply (load_refines [0xc4; 0x18; 1; 0] (fr 0 [] [0; 0] locals_wide None) [] KDouble 256 4).
  - repeat constructor; done.
  - reflexivity.
  - split; [by constructor|by exists [0; 0]].
  - reflexivity.
  - done.
  - vm_compute. done.
  - apply Nat.leb_le. vm_compute. reflexivity.
Defined.

Lemma store_refines_witness : exists op m, byte [0xc4; 0x39; 1; 0] 0 = Some op /\
  dispatch [0xc4; 0x39; 1; 0] true op = Some m /\
  owp m (fr 0 (cells_of_stack [VDouble 5; VInt 1]) [0] locals_wide None) (fun f' _ => rep f' [VInt 1] /\ ip f' = 0 + 4 /\
    stored locals_wide 256 (VDouble 5) (locals f') /\ exn f' = None).
Proof.
  apply (store_refines [0xc4; 0x39; 1; 0] (fr 0 (cells_of_stack [VDouble 5; VInt 1]) [0] locals_wide None) [VInt 1] KDouble 256 4
    (VDouble 5)).
  - repeat constructor; done.
  - reflexivity.
  - split; [repeat constructor; done|by exists [0]].
  - reflexivity.
  - vm_compute. reflexivity.
  - vm_compute. discriminate.
Defined.
