(* ===== verification/BranchOk.v ===== *)
(** * Branches, switches and subroutines

    The opcodes that set the instruction pointer, against the targets the Java
    virtual machine specification gives them. *)
From Stdlib Require Import SpecFloat.
From stdpp Require Import strings.
From S2P Require Import Prelude Floats Frame FrameOk Opcodes OpcodesOk StackOk.

(** ** Conditional branches *)

(** The condition of a comparison opcode, with its operands in the order of the
    stack: equal, not equal, less, greater or equal, greater, less or equal. *)
Definition java_cond (c : Z) (a b : Z) : option bool :=
  match c with
  | 0 => Some (a =? b) | 1 => Some (negb (a =? b)) | 2 => Some (a <? b)
  | 3 => Some (b <=? a) | 4 => Some (b <? a) | 5 => Some (a <=? b)
  | _ => None
  end.

(** Whether the branch instruction [op] is taken, and the stack it leaves. *)
Definition java_taken (op : Z) (st : list jval) : option (bool * list jval) :=
  match st with
  | VInt b :: st' =>
      if (0x99 <=? op) && (op <=? 0x9e) then t ← java_cond (op - 0x99) b 0; Some (t, st')
      else match st' with
        | VInt a :: st' => if (0x9f <=? op) && (op <=? 0xa4) then t ← java_cond (op - 0x9f) a b; Some (t, st') else None
        | _ => None
        end
  | VRef b :: st' =>
      if (0xc6 <=? op) && (op <=? 0xc7) then t ← java_cond (op - 0xc6) b 0; Some (t, st')
      else match st' with
        | VRef a :: st' => if (0xa5 <=? op) && (op <=? 0xa6) then t ← java_cond (op - 0xa5) a b; Some (t, st') else None
        | _ => None
        end
  | _ => None
  end.

(** The next instruction and the stack after a branch, [goto] included. *)
Definition java_branch (code : list Z) (pc : Z) (st : list jval) : option (Z * list jval) :=
  op ← byte code pc;
  if op =? 0xc8 then off ← read_int32 code (pc + 1); Some (pc + off, st) else
  b0 ← byte code (pc + 1); b1 ← byte code (pc + 2);
  let target := pc + sx 16 (b0 * 2 ^ 8 + b1) in
  if op =? 0xa7 then Some (target, st) else
  '(t, st') ← java_taken op st; Some (if t : bool then target else pc + 3, st').

(** The opcode goes to [pc'] and replaces the stack. *)
Definition jumps (m : Op unit) (i : Z) (vs : list jval) (pc' : Z) (vs' : list jval) : Prop :=
  forall junk l x, owp m (fr i (cells_of_stack vs) junk l x) (fun f' _ =>
    exists junk', f' = fr pc' (cells_of_stack vs') junk' l x).

Lemma owp_branch code i cells junk l x t off (Q : StackFrame -> unit -> Prop) :
  read_int16 code (i + 1) = Some off ->
  Q (fr (if t : bool then i + off else i + 3) cells junk l x) tt -> owp (branch code t) (fr i cells junk l x) Q.
Proof.
  intros Hr HQ. unfold branch. destruct t; [|done]. op_step. eapply owp_read; [exact Hr|]. by op_step.
Qed.

Section conditions.
Context (code : list Z) (i off : Z) (Hoff : read_int16 code (i + 1) = Some off).
Let target (t : bool) : Z := if t then i + off else i + 3.

Lemma cmp_jumps check v a r rest : cells_of v = [(a, r)] ->
  jumps (DEF_OPCODE_CMP code check) i (v :: rest) (target (check (val_i a))) rest.
Proof.
  intros Hv junk l x. unfold cells_of_stack. cbn [flat_map]. rewrite Hv. cbn [app].
  unfold DEF_OPCODE_CMP. do 4 op_step. eapply owp_bind, owp_branch; [exact Hoff|]. op_steps. by eexists.
Qed.

Lemma icmp_jumps cmp v u a b r s rest : cells_of v = [(b, s)] -> cells_of u = [(a, r)] ->
  jumps (DEF_OPCODE_IF_ICMPXX code cmp) i (v :: u :: rest) (target (cmp (val_i a) (val_i b))) rest.
Proof.
  intros Hv Hu junk l x. unfold cells_of_stack. cbn [flat_map]. rewrite Hv, Hu. cbn [app].
  unfold DEF_OPCODE_IF_ICMPXX. do 8 op_step. eapply owp_bind, owp_branch; [exact Hoff|]. op_steps. by eexists.
Qed.
End conditions.

(** References are compared as signed words, which is the same. *)
Lemma val_i_eqb a b : is_u 32 a -> is_u 32 b -> (val_i a =? val_i b) = (a =? b).
Proof.
  intros Ha Hb. apply eq_true_iff_eq. rewrite !Z.eqb_eq. split; [|by intros ->].
  intros H. by rewrite <- (of_val_i a), <- (of_val_i b), H.
Qed.

Lemma range_case a b m : (a <=? m) && (m <=? b) = true -> a <= m <= b.
Proof. intros [H1%Z.leb_le H2%Z.leb_le]%andb_true_iff. lia. Qed.

Ltac cond_case :=
  match goal with H : (_ ← java_cond ?e _ _; _) = Some _ |- _ =>
    let c := eval vm_compute in e in change e with c in H; cbn [java_cond mbind option_bind] in H; injection H as <- <- end;
  eexists; split; [reflexivity|]; intros off Hoff.

Lemma taken_opcode code i op t vs vs' : Forall val_ok vs -> java_taken op vs = Some (t, vs') ->
  exists m, dispatch code true op = Some m /\ forall off, read_int16 code (i + 1) = Some off ->
    jumps m i vs (if t then i + off else i + 3) vs'.
Proof.
  intros Hok H. unfold java_taken in H. destruct vs as [|v vs]; [done|]. apply Forall_cons_1 in Hok as [Hv Hok].
  destruct v as [b| | | |b|]; try done; cbn [val_ok] in Hv.
  - destruct ((0x99 <=? op) && (op <=? 0x9e)) eqn:Hr.
    + apply range_case in Hr. cases_of op 153 6%nat; cond_case.
      all: match goal with |- jumps (_ ?code) _ _ _ _ =>
        rewrite <- (val_of_i b) at 2 by done;
        refine (cmp_jumps code i off Hoff _ (VInt b) (of_i b) _ _ eq_refl) end.
    + destruct vs as [|[a| | | | |] vs]; try done. destruct ((0x9f <=? op) && (op <=? 0xa4)) eqn:Hr2; [|done].
      apply Forall_cons_1 in Hok as [Ha _]. cbn [val_ok] in Ha.
      apply range_case in Hr2. cases_of op 159 6%nat; cond_case.
      all: rewrite <- (val_of_i a) at 2 by done; rewrite <- (val_of_i b) at 2 by done;
        refine (icmp_jumps code i off Hoff _ (VInt b) (VInt a) (of_i a) (of_i b) _ _ _ eq_refl eq_refl).
  - destruct ((0xc6 <=? op) && (op <=? 0xc7)) eqn:Hr.
    + apply range_case in Hr. assert (H0 : (b =? 0) = (val_i b =? 0)) by (symmetry; by apply (val_i_eqb b 0)).
      cases_of op 198 2%nat; cond_case; rewrite H0.
      all: refine (cmp_jumps code i off Hoff _ (VRef b) b _ _ eq_refl).
    + destruct vs as [|[| | | |a|] vs]; try done. destruct ((0xa5 <=? op) && (op <=? 0xa6)) eqn:Hr2; [|done].
      apply Forall_cons_1 in Hok as [Ha _]. cbn [val_ok] in Ha.
      apply range_case in Hr2. cases_of op 165 2%nat; cond_case; rewrite <- (val_i_eqb a b) by done.
      all: refine (icmp_jumps code i off Hoff _ (VRef b) (VRef a) a b _ _ _ eq_refl eq_refl).
Qed.

Lemma jumps_frame m f vs pc' vs' : rep f vs -> Forall val_ok vs' -> jumps m (ip f) vs pc' vs' ->
  owp m f (fun f' _ => rep f' vs' /\ ip f' = pc' /\ locals f' = locals f /\ exn f' = exn f).
Proof.
  intros [_ [junk Hst]] Hok Hj. destruct f as [i s l x]. simpl in *. subst s.
  eapply owp_mono; [apply Hj|]. intros f' _ [junk' ->]. simpl. split; [|done]. split; [done|by eexists].
Qed.

Lemma goto_jumps read i off vs : read (i + 1) = Some off ->
  jumps (do* off := o_read read 1 in add_ip off) i vs (i + off) vs.
Proof. intros Hr junk l x. op_step. eapply owp_read; [exact Hr|]. op_steps. by eexists. Qed.

Lemma java_taken_ok op t vs vs' : java_taken op vs = Some (t, vs') -> Forall val_ok vs -> Forall val_ok vs'.
Proof.
  intros H Hok. assert (exists top, vs = top ++ vs') as [top ->]; [|by apply Forall_app in Hok as [_ Hok]].
  unfold java_taken in H. destruct vs as [|v vs]; [done|].
  destruct v; try done; case_match; try done.
  all: try (destruct (java_cond _ _ _); [|done]; injection H as _ <-; by eexists [_]).
  all: destruct vs as [|w vs]; [done|]; destruct w; try done; case_match; try done.
  all: destruct (java_cond _ _ _); [|done]; injection H as _ <-; by eexists [_; _].
Qed.

Lemma branch_opcode code i vs pc' vs' : Forall val_ok vs -> java_branch code i vs = Some (pc', vs') ->
  exists op m, byte code i = Some op /\ dispatch code true op = Some m /\ jumps m i vs pc' vs' /\ Forall val_ok vs'.
Proof.
  intros Hok H. unfold java_branch in H. destruct (byte code i) as [op|] eqn:Hop; [|done].
  cbn [mbind option_bind] in H. exists op. destruct (Z.eqb_spec op 0xc8) as [->|].
  { destruct (read_int32 code (i + 1)) as [off|] eqn:Hoff; [|done]. injection H as <- <-.
    eexists. split; [done|]. split; [reflexivity|]. split; [|done]. by apply goto_jumps. }
  destruct (byte code (i + 1)) as [b0|] eqn:H0; [|done]. cbn [mbind option_bind] in H.
  destruct (byte code (i + 2)) as [b1|] eqn:H1; [|done]. cbn [mbind option_bind] in H.
  assert (Hoff : read_int16 code (i + 1) = Some (sx 16 (b0 * 2 ^ 8 + b1)))
    by (apply read_int16_eq; [done|by replace (i + 1 + 1) with (i + 2) by lia]).
  destruct (Z.eqb_spec op 0xa7) as [->|].
  { injection H as <- <-. eexists. split; [done|]. split; [reflexivity|]. split; [|done]. by apply goto_jumps. }
  destruct (java_taken op vs) as [[t st]|] eqn:Ht; [|done]. cbn [mbind option_bind] in H. injection H as <- ->.
  destruct (taken_opcode code i op t vs vs' Hok Ht) as (m & Hm & Hj). exists m. split; [done|]. split; [done|].
  split; [by apply Hj|by apply (java_taken_ok op t vs)].
Qed.

(** the branches on an [int], on two [int]s, on two references and on null, with
    [goto] and [goto_w], leave the stack without their operands and go to the
    target when the condition of the specification holds, to the next instruction
    otherwise; references are compared as words. *)
Theorem branch_refines code f vs pc' vs' : rep f vs -> java_branch code (ip f) vs = Some (pc', vs') ->
  exists op m, byte code (ip f) = Some op /\ dispatch code true op = Some m /\
    owp m f (fun f' _ => rep f' vs' /\ ip f' = pc' /\ locals f' = locals f /\ exn f' = exn f).
Proof.
  intros Hrep Hb. destruct (branch_opcode code (ip f) vs pc' vs') as (op & m & Hop & Hm & Hj & Hok); [by apply Hrep|done|].
  exists op, m. do 2 (split; [done|]). by apply (jumps_frame m f vs).
Qed.

(** [if_icmplt] backwards. *)
Lemma branch_refines_witness : exists op m, byte [0; 0; 0; 0xa1; 0xff; 0xfd] 3 = Some op /\
  dispatch [0; 0; 0; 0xa1; 0xff; 0xfd] true op = Some m /\
  owp m (fr 3 (cells_of_stack [VInt 4; VInt (-1)]) [] (Locals_init []) None) (fun f' _ => rep f' [] /\ ip f' = 0 /\
    locals f' = Locals_init [] /\ exn f' = None).
Proof.
  apply (branch_refines [0; 0; 0; 0xa1; 0xff; 0xfd] (fr 3 (cells_of_stack [VInt 4; VInt (-1)]) [] (Locals_init []) None)
    [VInt 4; VInt (-1)]).
  - split; [repeat constructor; done|by exists []].
  - reflexivity.
Defined.

(** ** Switches *)

(** The operands of [lookupswitch] and [tableswitch]: the default, and the pairs of
    match and offset or the offsets from [low]. *)
Fixpoint read_pairs (code : list Z) (pc : Z) (n : nat) : option (list (Z * Z)) :=
  match n with
  | O => Some []
  | S n => k ← read_int32 code pc; o ← read_int32 code (pc + 4); ps ← read_pairs code (pc + 8) n; Some ((k, o) :: ps)
  end.
Fixpoint read_offsets (code : list Z) (pc : Z) (n : nat) : option (list Z) :=
  match n with
  | O => Some []
  | S n => o ← read_int32 code pc; os ← read_offsets code (pc + 4) n; Some (o :: os)
  end.

(** The padding brings the operands to a multiple of four. *)
Definition padded (pc : Z) : Z := pc + 1 + (- (pc + 1)) mod 4.

(** The offset for a key: the first pair that matches. *)
Definition java_lookup (ps : list (Z * Z)) (deflt key : Z) : Z :=
  match find (fun p => p.1 =? key) ps with Some p => p.2 | None => deflt end.
Definition java_table (os : list Z) (low deflt key : Z) : Z :=
  if decide (low <= key < low + Z.of_nat (length os)) then default deflt (os !! Z.to_nat (key - low)) else deflt.

Definition java_switch (code : list Z) (pc : Z) (key : Z) : option Z :=
  op ← byte code pc;
  let p := padded pc in
  deflt ← read_int32 code p;
  if op =? 0xaa then
    low ← read_int32 code (p + 4); high ← read_int32 code (p + 8);
    os ← read_offsets code (p + 12) (Z.to_nat (high - low + 1));
    Some (pc + java_table os low deflt key)
  else if op =? 0xab then
    n ← read_int32 code (p + 4); ps ← read_pairs code (p + 8) (Z.to_nat n);
    Some (pc + java_lookup ps deflt key)
  else None.

Lemma padded_operands pc : switch_operands pc = padded pc.
Proof.
  unfold switch_operands, padded. change (-4) with (Z.lnot (Z.ones 2)).
  rewrite <- Z.ldiff_land, Z.ldiff_ones_r, Z.shiftl_mul_pow2, Z.shiftr_div_pow2 by lia. change (2 ^ 2) with 4.
  pose proof (Z.div_mod (pc + 1 + 3) 4 ltac:(lia)). pose proof (Z.mod_pos_bound (pc + 1 + 3) 4 ltac:(lia)).
  assert ((- (pc + 1)) mod 4 = 3 - (pc + 1 + 3) mod 4); [|lia].
  symmetry. apply (Zmod_unique _ _ (- ((pc + 1 + 3) / 4))); lia.
Qed.

Lemma lookup_loop_spec code oldip p deflt key ps cells junk l x (Q : StackFrame -> unit -> Prop) i0 : forall n i,
  read_pairs code (p + 8 + i * 8) n = Some ps ->
  Q (fr (oldip + java_lookup ps deflt key) cells junk l x) tt ->
  owp (lookup_loop code oldip p deflt key i n) (fr i0 cells junk l x) Q.
Proof.
  revert ps. intros ps n. revert ps. induction n as [|n IH]; intros ps i Hps HQ; simpl in Hps.
  - injection Hps as <-. op_steps. exact HQ.
  - destruct (read_int32 code (p + 8 + i * 8)) as [k|] eqn:Hk; [|done]. cbn [mbind option_bind] in Hps.
    destruct (read_int32 code (p + 8 + i * 8 + 4)) as [o|] eqn:Ho; [|done]. cbn [mbind option_bind] in Hps.
    destruct (read_pairs code _ n) as [ps'|] eqn:Hr; [|done]. injection Hps as <-.
    simpl lookup_loop. op_step. eapply owp_oread; [exact Hk|]. unfold java_lookup in HQ. simpl in HQ.
    rewrite Z.eqb_sym. destruct (k =? key).
    + op_step. eapply owp_oread; [replace (p + 12 + i * 8) with (p + 8 + i * 8 + 4) by lia; exact Ho|]. op_steps. exact HQ.
    + apply (IH ps'); [|done]. by replace (p + 8 + (i + 1) * 8) with (p + 8 + i * 8 + 8) by lia.
Qed.

Lemma byte_bound code pc b : byte code pc = Some b -> 0 <= pc < Z.of_nat (length code).
Proof.
  unfold byte. destruct (Z.leb_spec 0 pc); [|done]. intros Hl%lookup_lt_Some. lia.
Qed.

Lemma read_offsets_lookup code : forall n pc os k o, read_offsets code pc n = Some os -> os !! k = Some o ->
  read_int32 code (pc + 4 * Z.of_nat k) = Some o.
Proof.
  induction n as [|n IH]; intros pc os k o Hos Hk; simpl in Hos; [by simplify_eq|].
  destruct (read_int32 code pc) as [o0|] eqn:Ho; [|done]. cbn [mbind option_bind] in Hos.
  destruct (read_offsets code (pc + 4) n) as [os'|] eqn:Hr; [|done]. injection Hos as <-.
  destruct k as [|k]; simpl in Hk; [simplify_eq; by rewrite Z.add_0_r|].
  replace (pc + 4 * Z.of_nat (S k)) with (pc + 4 + 4 * Z.of_nat k) by lia. by apply (IH _ os').
Qed.

Lemma read_offsets_length code : forall n pc os, read_offsets code pc n = Some os -> length os = n.
Proof.
  induction n as [|n IH]; intros pc os Hos; simpl in Hos; [by simplify_eq|].
  destruct (read_int32 code pc) as [o0|] eqn:Ho; [|done]. cbn [mbind option_bind] in Hos.
  destruct (read_offsets code (pc + 4) n) as [os'|] eqn:Hr; [|done]. injection Hos as <-. simpl. by rewrite (IH _ _ Hr).
Qed.

Lemma read_int32_bound code pc v : read_int32 code pc = Some v -> 0 <= pc < Z.of_nat (length code).
Proof. unfold read_int32. destruct (byte code pc) as [b|] eqn:Hb; [|done]. intros _. by apply (byte_bound _ _ b). Qed.

Lemma switch_jumps code i key rest pc' : Z.of_nat (length code) < 2 ^ 31 -> is_s 32 key ->
  java_switch code i key = Some pc' ->
  exists op m, byte code i = Some op /\ dispatch code true op = Some m /\ jumps m i (VInt key :: rest) pc' rest.
Proof.
  intros Hlen Hkey H. unfold java_switch in H. destruct (byte code i) as [op|] eqn:Hop; [|done].
  cbn [mbind option_bind] in H. exists op. destruct (read_int32 code (padded i)) as [deflt|] eqn:Hd; [|done].
  cbn [mbind option_bind] in H. destruct (Z.eqb_spec op 0xaa) as [->|]; [|destruct (Z.eqb_spec op 0xab) as [->|]; [|done]].
  - destruct (read_int32 code (padded i + 4)) as [low|] eqn:Hlow; [|done]. cbn [mbind option_bind] in H.
    destruct (read_int32 code (padded i + 8)) as [high|] eqn:Hhigh; [|done]. cbn [mbind option_bind] in H.
    destruct (read_offsets code (padded i + 12) _) as [os|] eqn:Hos; [|done]. injection H as <-.
    eexists. split; [done|]. split; [reflexivity|]. intros junk l x. unfold Opcode_TABLESWITCH.
    unfold cells_of_stack. cbn [flat_map cells_of app].
    op_step. op_step. rewrite padded_operands. op_step. eapply owp_oread; [exact Hd|]. op_step. eapply owp_oread; [exact Hlow|].
    op_step. eapply owp_oread; [exact Hhigh|]. op_step. op_step. op_step. op_step. rewrite val_of_i by done.
    pose proof (read_offsets_length _ _ _ _ Hos) as Hn. unfold java_table.
    destruct (Z.ltb_spec key low); [|destruct (Z.ltb_spec high key)]; cbn [orb].
    1,2: rewrite decide_False by lia; op_steps; by eexists.
    rewrite decide_True by lia.
    destruct (os !! Z.to_nat (key - low)) as [o|] eqn:Ho; [|apply lookup_ge_None in Ho; lia].
    pose proof (read_offsets_lookup _ _ _ _ _ _ Hos Ho) as Hr. rewrite Z2Nat.id in Hr by lia.
    pose proof (read_int32_bound _ _ _ Hr). pose proof (read_int32_bound _ _ _ Hlow).
    rewrite (sx_id 32 (key - low)) by (unfold is_s; lia). rewrite Z.shiftl_mul_pow2 by lia.
    rewrite sx_id by (unfold is_s; lia). op_step. eapply owp_oread.
    { replace (padded i + 12 + (key - low) * 2 ^ 2) with (padded i + 12 + 4 * (key - low)) by lia. exact Hr. }
    op_steps. by eexists.
  - destruct (read_int32 code (padded i + 4)) as [npairs|] eqn:Hn; [|done]. cbn [mbind option_bind] in H.
    destruct (read_pairs code (padded i + 8) _) as [ps|] eqn:Hps; [|done]. injection H as <-.
    eexists. split; [done|]. split; [reflexivity|]. intros junk l x. unfold Opcode_LOOKUPSWITCH.
    unfold cells_of_stack. cbn [flat_map cells_of app].
    op_step. op_step. rewrite padded_operands. op_step. eapply owp_oread; [exact Hd|]. op_step. eapply owp_oread; [exact Hn|].
    op_step. op_step. op_step. op_step. rewrite val_of_i by done.
    eapply lookup_loop_spec; [by rewrite Z.mul_0_l, Z.add_0_r; exact Hps|]. by eexists.
Qed.

(** C37: [tableswitch] and [lookupswitch] take the offset of the key: the entry of the
    table when the key is between the bounds, the first pair that matches, the
    default otherwise; the operands begin at the next multiple of four.  The code is
    shorter than 2^31 bytes, so the index of the table does not wrap. *)
Theorem switch_refines code f key vs pc' : Z.of_nat (length code) < 2 ^ 31 -> rep f (VInt key :: vs) ->
  java_switch code (ip f) key = Some pc' ->
  exists op m, byte code (ip f) = Some op /\ dispatch code true op = Some m /\
    owp m f (fun f' _ => rep f' vs /\ ip f' = pc' /\ locals f' = locals f /\ exn f' = exn f).
Proof.
  intros Hlen Hrep Hs. destruct Hrep as [Hok Hst]. pose proof (Forall_cons_1 _ _ _ Hok) as [Hkey Hvs].
  destruct (switch_jumps code (ip f) key vs pc' Hlen Hkey Hs) as (op & m & Hop & Hm & Hj).
  exists op, m. do 2 (split; [done|]). by apply (jumps_frame m f (VInt key :: vs)).
Qed.

(** [lookupswitch] at offset 2 with a duplicate key, padded by one byte. *)
Definition code_lookup : list Z :=
  [0; 0; 0xab; 0; 0; 0; 0; 40; 0; 0; 0; 3;  0; 0; 0; 5; 0; 0; 0; 10;  0xff; 0xff; 0xff; 0xff; 0; 0; 0; 20;  0xff; 0xff; 0xff; 0xff; 0; 0; 0; 30].

Lemma switch_refines_witness : exists op m, byte code_lookup 2 = Some op /\ dispatch code_lookup true op = Some m /\
  owp m (fr 2 (cells_of_stack [VInt (-1); VInt 3]) [] (Locals_init []) None) (fun f' _ => rep f' [VInt 3] /\ ip f' = 22 /\
    locals f' = Locals_init [] /\ exn f' = None).
Proof.
  apply (switch_refines code_lookup (fr 2 (cells_of_stack [VInt (-1); VInt 3]) [] (Locals_init []) None) (-1) [VInt 3]).
  - reflexivity.
  - split; [repeat constructor; done|by exists []].
  - vm_compute. reflexivity.
Defined.
