(* ===== verification/FrameSafe.v ===== *)
(** * Every opcode keeps the frame well formed

    Whatever the contents of a frame, an opcode that does not fail an assertion
    leaves the index of the stack inside it, as many tags as elements, and the
    sizes of the stack and of the locals as they were. *)
From stdpp Require Import strings.
From S2P Require Import Prelude Floats Frame FrameOk Opcodes OpcodesOk StackOk.

Definition frame_ok (f : StackFrame) : Prop :=
  length (refs (stack f)) = length (data (stack f)) /\ -1 <= index (stack f) < size (stack f) /\ locals_ok (locals f).

Definition same_shape (f f' : StackFrame) : Prop :=
  size (stack f') = size (stack f) /\ varNum (locals f') = varNum (locals f).

#[export] Instance same_shape_preorder : PreOrder same_shape.
Proof. split; [done|]. intros f g h [? ?] [? ?]. split; congruence. Qed.

Definition keeps {A} (m : Op A) : Prop :=
  forall f f' a, m f = Some (f', a) -> frame_ok f -> frame_ok f' /\ same_shape f f'.

Lemma keeps_bind {A B} (m : Op A) (k : A -> Op B) : keeps m -> (forall a, keeps (k a)) -> keeps (obind m k).
Proof.
  intros Hm Hk f f' b H Hok. unfold obind in H. destruct (m f) as [[g a]|] eqn:Hg; [|done].
  destruct (Hm f g a Hg Hok) as [Hok' S1]. destruct (Hk a g f' b H Hok') as [? S2]. split; [done|by etrans].
Qed.

Lemma keeps_ret {A} (a : A) : keeps (oret a).
Proof. intros f f' b [= <- <-] ?. by split. Qed.
Lemma keeps_fail {A} : keeps (ofail (A := A)).
Proof. by intros f f' b. Qed.

Lemma keeps_oread {A} (r : StackFrame -> option A) : keeps (oread r).
Proof. intros f f' a H Hok. unfold oread in H. destruct (r f); [|done]. injection H as <- <-. by split. Qed.
Lemma keeps_set_ip i : keeps (set_ip i).
Proof. intros f f' a [= <-] Hok. by split. Qed.
Lemma keeps_add_ip i : keeps (add_ip i).
Proof. intros f f' a [= <-] Hok. by split. Qed.
Lemma keeps_throw e : keeps (interp_throw_exception e).
Proof. intros f f' a [= <-] Hok. by split. Qed.

(** A stack operation keeps the frame if it keeps the stack. *)
Definition keeps_stack (g : Stack -> option Stack) : Prop := forall s s', g s = Some s' ->
  length (refs s) = length (data s) -> -1 <= index s < size s ->
  length (refs s') = length (data s') /\ -1 <= index s' < size s' /\ size s' = size s.

Lemma keeps_on_stack g : keeps_stack g -> keeps (on_stack g).
Proof.
  intros Hg f f' a H (Hl & Hi & Hok). unfold on_stack in H. destruct (g (stack f)) as [s|] eqn:Hs; [|done].
  injection H as <- <-. destruct (Hg _ _ Hs Hl Hi) as (? & [? ?] & ?). by repeat split.
Qed.

Lemma keeps_set_pick off v : keeps_stack (fun s => set_pick s off v).
Proof.
  intros s s' H Hl Hi. unfold set_pick in H. destruct (at_offset s off); [|done]. cbn [mbind option_bind] in H.
  destruct (data s !! n); [|done]. injection H as <-. unfold size in *. simpl. by rewrite length_insert.
Qed.
Lemma keeps_set_ref off v : keeps_stack (fun s => set_ref s off v).
Proof.
  intros s s' H Hl Hi. unfold set_ref in H. destruct (at_offset s off); [|done]. cbn [mbind option_bind] in H.
  destruct (refs s !! n); [|done]. injection H as <-. unfold size in *. simpl. by rewrite length_insert.
Qed.
Lemma keeps_stack_bind g h : keeps_stack g -> keeps_stack h -> keeps_stack (fun s => s ← g s; h s).
Proof.
  intros Hg Hh s s' H Hl Hi. destruct (g s) as [t|] eqn:Ht; [|done].
  destruct (Hg _ _ Ht Hl Hi) as (Hl' & Hi' & <-). by apply Hh.
Qed.
Lemma keeps_setLong idx v : keeps_stack (fun s => setLong s idx v).
Proof.
  unfold setLong. apply (keeps_stack_bind (fun s => set_pick s (idx + s0) v.1) (fun s => set_pick s (idx + s1) v.2));
    apply keeps_set_pick.
Qed.
(** Pushing and popping stay inside for amounts that are not negative. *)
Lemma keeps_push n : 0 <= n -> keeps_stack (fun s => push s n).
Proof.
  intros Hn s s' H Hl Hi. unfold push in H. destruct (Z.ltb_spec (index s + n) (size s)); [|done]. injection H as <-.
  unfold size in *. simpl. lia.
Qed.
Lemma keeps_pop n : 0 <= n -> keeps_stack (fun s => pop s n).
Proof.
  intros Hn s s' H Hl Hi. unfold pop in H. destruct (Z.leb_spec (-1) (index s - n)); [|done]. injection H as <-.
  unfold size in *. simpl. lia.
Qed.

Lemma keeps_set_local id v : keeps (o_set_local id v).
Proof.
  intros f f' a H (Hl & [Hi0 Hi] & Hok). unfold o_set_local, on_locals in H.
  destruct (set_local (locals f) id v) as [l|] eqn:E; [|done]. injection H as <- <-.
  destruct (lookup_set_local _ _ _ _ Hok E 0) as (? & ? & _). by repeat split.
Qed.
Lemma keeps_set_local_ref id v : keeps (o_set_local_ref id v).
Proof.
  intros f f' a H (Hl & [Hi0 Hi] & Hok). unfold o_set_local_ref, on_locals in H.
  destruct (set_local_ref (locals f) id v) as [l|] eqn:E; [|done]. injection H as <- <-.
  destruct (lookup_set_local_ref _ _ _ _ Hok E 0) as (? & ? & _). by repeat split.
Qed.

Lemma keeps_o_read r off : keeps (o_read r off).
Proof. apply keeps_oread. Qed.
Lemma keeps_o_push n : 0 <= n -> keeps (o_push n).
Proof. intros. by apply keeps_on_stack, keeps_push. Qed.
Lemma keeps_o_pop n : 0 <= n -> keeps (o_pop n).
Proof. intros. by apply keeps_on_stack, keeps_pop. Qed.
Lemma keeps_o_set_pick off v : keeps (o_set_pick off v).
Proof. apply keeps_on_stack, keeps_set_pick. Qed.
Lemma keeps_o_set_ref off v : keeps (o_set_ref off v).
Proof. apply keeps_on_stack, keeps_set_ref. Qed.
Lemma keeps_o_setLong idx v : keeps (o_setLong idx v).
Proof. apply keeps_on_stack, keeps_setLong. Qed.

Create HintDb frame_safe.
#[export] Hint Resolve keeps_ret keeps_fail keeps_oread keeps_set_ip keeps_add_ip keeps_throw keeps_set_local
  keeps_set_local_ref keeps_o_read keeps_o_push keeps_o_pop keeps_o_set_pick keeps_o_set_ref keeps_o_setLong : frame_safe.

(** One opcode: its primitives in order. *)
Ltac keeps_op :=
  repeat match goal with
  | |- keeps (obind _ _) => apply keeps_bind; [|intros ?]
  | |- keeps (if ?b then _ else _) => destruct b
  | |- keeps (o_push _) => apply keeps_o_push; lia
  | |- keeps (o_pop _) => apply keeps_o_pop; lia
  | |- keeps (o_pick _) => apply keeps_oread
  | |- keeps (o_ref _) => apply keeps_oread
  | |- keeps (o_getLong _) => apply keeps_oread
  | |- keeps (o_local _) => apply keeps_oread
  | |- keeps (o_local_ref _) => apply keeps_oread
  | |- keeps get_ip => apply keeps_oread
  | |- keeps _ => solve [eauto with frame_safe]
  end.

Lemma keeps_lookup_loop code oldip p deflt key n : forall i, keeps (lookup_loop code oldip p deflt key i n).
Proof. induction n as [|n IH]; intros i; simpl; keeps_op. Qed.
#[export] Hint Resolve keeps_lookup_loop : frame_safe.

(** Unfold an opcode down to its primitives. *)
Ltac head_of t := lazymatch t with ?f _ => head_of f | _ => t end.
Ltac keeps_opcode :=
  repeat (keeps_op; try match goal with |- keeps ?m => let h := head_of m in progress unfold h end).

Lemma keeps_wide code : keeps (dispatch_wide code).
Proof.
  unfold dispatch_wide. apply keeps_bind; [apply keeps_o_read|]. intros op.
  repeat case_match; keeps_opcode.
Qed.
#[export] Hint Resolve keeps_wide : frame_safe.

Lemma dispatch_keeps code EM64T op m : dispatch code EM64T op = Some m -> keeps m.
Proof.
  unfold dispatch. intros H. repeat (case_match; try done).
  all: injection H as <-; keeps_opcode.
Qed.

(** no opcode can leave the stack or the locals of its frame: from any well-formed
    frame, with any values and tags in it, an opcode of the switch that does not
    fail an assertion ends in a well-formed frame with the same sizes. *)
Theorem dispatch_safe code EM64T op m f f' : dispatch code EM64T op = Some m -> frame_ok f -> m f = Some (f', tt) ->
  frame_ok f' /\ same_shape f f'.
Proof. intros Hm Hok H. by apply (dispatch_keeps code EM64T op m Hm f f' tt). Qed.

(** A reference where [pop2] expects a [long]. *)
Definition frame_odd : StackFrame := MkFrame 0 (MkStack [5; 6; 7] [FLAG_OBJECT; FLAG_OBJECT; FLAG_NONE] 1) (Locals_init [1]) None.
Lemma dispatch_safe_witness : frame_ok (MkFrame 1 (MkStack [5; 6; 7] [0; 0; 0] (-1)) (Locals_init [1]) None) /\
  same_shape frame_odd (MkFrame 1 (MkStack [5; 6; 7] [0; 0; 0] (-1)) (Locals_init [1]) None).
Proof.
  apply (dispatch_safe [] true 88 Opcode_POP2 frame_odd); [reflexivity| |vm_compute; reflexivity].
  split; [reflexivity|]. split; [by vm_compute|reflexivity].
Defined.
