(* ===== verification/Interp.v ===== *)
(** * The interpreter loop: [interpreter/src/interpreter.cpp]

    Methods run by [interpreter]: the loop over the opcodes of [Opcodes.v], the
    search for an exception handler, static calls with their arguments and
    results, and returns.  Resolution, exception objects and the contents of
    fresh frames are parameters.  Monitors, JVMTI events, native methods and the
    test for stack overflow are left out, as are the opcodes of other files: the
    loop is stuck on them.  [fuel] bounds the opcodes run, callees included. *)
From stdpp Require Import strings.
From S2P Require Import Prelude Frame Opcodes.

(** [Handler] of [vmcore/include/class_member.h] *)
Record Handler := MkHandler { start_pc : Z; end_pc : Z; handler_pc : Z; catch_type_index : Z }.

Inductive Java_Type :=
  | JAVA_TYPE_BYTE | JAVA_TYPE_CHAR | JAVA_TYPE_DOUBLE | JAVA_TYPE_FLOAT | JAVA_TYPE_INT | JAVA_TYPE_LONG
  | JAVA_TYPE_SHORT | JAVA_TYPE_BOOLEAN | JAVA_TYPE_CLASS | JAVA_TYPE_ARRAY | JAVA_TYPE_VOID | JAVA_TYPE_STRING.

(** The parts of a [Method] the interpreter uses. *)
Record Method := MkMethod {
  byte_code : list Z;
  bc_exception_handlers : list Handler;
  max_stack : nat;
  max_locals : nat;
  num_arg_slots : nat;
  return_java_type : Java_Type;
}.

(** What running a method ends with: its frame, with the exception that leaves it
    if there is one; a failed assertion; no more fuel. *)
Inductive result := RDone (f : StackFrame) | RStuck | RFuel.

Section interpreter.
(** [interp_resolve_static_method] and class initialisation: a method, or the class
    of the exception they throw; whether an exception of a class is caught by the
    class of an index ([interp_resolve_class] and [vm_instanceof]), [None] when
    resolution fails; the reference of a new exception object; the memory of a
    new frame; whether the virtual machine shuts down. *)
Context (EM64T : bool) (resolve : Z -> Method + string) (catches : string -> Z -> option bool)
  (exn_ref : string -> Z) (alloc : nat -> list Z) (IsVmShutdowning : bool).

(** ** Exceptions *)

(** The loop over the handlers of a method. *)
Fixpoint find_handler (pc : Z) (e : string) (hs : list Handler) : option Handler :=
  match hs with
  | [] => None
  | h :: hs =>
      if pc <? start_pc h then find_handler pc e hs
      else if end_pc h <=? pc then find_handler pc e hs
      else if catch_type_index h =? 0 then Some h
      else match catches e (catch_type_index h) with
        | None => None
        | Some true => Some h
        | Some false => find_handler pc e hs
        end
  end.
(** The loop of the shutdown stage, over the handlers of every exception. *)
Fixpoint find_finally (pc : Z) (hs : list Handler) : option Handler :=
  match hs with
  | [] => None
  | h :: hs =>
      if (catch_type_index h =? 0) && (start_pc h <=? pc) && (pc <? end_pc h) then Some h
      else find_finally pc hs
  end.
Definition findExceptionHandler (m : Method) (pc : Z) (e : string) : option Handler :=
  if IsVmShutdowning then find_finally pc (bc_exception_handlers m)
  else find_handler pc e (bc_exception_handlers m).

Definition processExceptionHandler (m : Method) (f : StackFrame) (e : string) : option StackFrame :=
  h ← findExceptionHandler m (ip f) e;
  Some (MkFrame (handler_pc h) (stack f) (locals f) (exn f)).

(** The handler begins with the exception alone on the stack. *)
Definition catch_exception (f : StackFrame) (e : string) : option StackFrame :=
  s ← push (Stack_clear (stack f)) 1;
  s ← set_pick s 0 (exn_ref e);
  s ← set_ref s 0 FLAG_OBJECT;
  Some (MkFrame (ip f) s (locals f) None).

(** ** Static calls *)

(** [for (int i = args-1; i >= 0; --i)] copy the argument and its tag. *)
Fixpoint copy_args (s : Stack) (args : Z) (n : nat) (l : Locals) : option Locals :=
  match n with
  | O => Some l
  | S i =>
      v ← pick s (args - 1 - Z.of_nat i); l ← set_local l (Z.of_nat i) v;
      t ← ref s (args - 1 - Z.of_nat i); l ← set_local_ref l (Z.of_nat i) t;
      copy_args s args i l
  end.

(** The frame of a callee: [SETUP_LOCALS_AND_STACK] and its arguments. *)
Definition new_frame (m : Method) (prev : Stack) : option StackFrame :=
  l ← copy_args prev (Z.of_nat (num_arg_slots m)) (num_arg_slots m) (Locals_init (alloc (max_locals m)));
  Some (MkFrame 0 (Stack_init (alloc (max_stack m))) l None).

(** The result goes from the callee's stack to the caller's. *)
Definition push_result (t : Java_Type) (prev s : Stack) : option Stack :=
  match t with
  | JAVA_TYPE_VOID => Some prev
  | JAVA_TYPE_CLASS | JAVA_TYPE_ARRAY | JAVA_TYPE_STRING =>
      prev ← push prev 1; v ← pick s 0; prev ← set_pick prev 0 v; set_ref prev 0 FLAG_OBJECT
  | JAVA_TYPE_FLOAT | JAVA_TYPE_BOOLEAN | JAVA_TYPE_BYTE | JAVA_TYPE_CHAR | JAVA_TYPE_SHORT | JAVA_TYPE_INT =>
      prev ← push prev 1; v ← pick s 0; set_pick prev 0 v
  | JAVA_TYPE_LONG | JAVA_TYPE_DOUBLE =>
      prev ← push prev 2; v ← pick s s0; prev ← set_pick prev s0 v; v ← pick s s1; set_pick prev s1 v
  end.

(** The end of [interpreterInvokeStatic], when the callee has left [cf]. *)
Definition finish_call (m : Method) (prev cf : StackFrame) : option StackFrame :=
  s ← popClearRef (stack prev) (Z.of_nat (num_arg_slots m));
  match exn cf with
  | Some e => Some (MkFrame (ip prev) s (locals prev) (Some e))
  | None => s ← push_result (return_java_type m) s (stack cf); Some (MkFrame (ip prev) s (locals prev) None)
  end.

Definition OPCODE_IRETURN : Z := 172.
Definition OPCODE_RETURN : Z := 177.
Definition OPCODE_INVOKESTATIC : Z := 184.

(** ** The loop *)

Fixpoint interpreter (fuel : nat) (m : Method) (f : StackFrame) : result :=
  match fuel with
  | O => RFuel
  | S fuel =>
      (* check_exception: the next opcode, a handler, or the end of the method *)
      let check_exception (f : StackFrame) : result :=
        match exn f with
        | None => interpreter fuel m f
        | Some e =>
            match processExceptionHandler m f e with
            | Some f' =>
                match catch_exception f' e with Some f' => interpreter fuel m f' | None => RStuck end
            | None => RDone f
            end
        end in
      match byte (byte_code m) (ip f) with
      | None => RStuck
      | Some op =>
          if (OPCODE_IRETURN <=? op) && (op <=? OPCODE_RETURN) then RDone f
          else if op =? OPCODE_INVOKESTATIC then
            match read_uint16 (byte_code m) (ip f + 1) with
            | None => RStuck
            | Some methodId =>
                match resolve methodId with
                | inr e => check_exception (MkFrame (ip f) (stack f) (locals f) (Some e))
                | inl callee =>
                    match new_frame callee (stack f) with
                    | None => RStuck
                    | Some cf =>
                        match interpreter fuel callee cf with
                        | RDone cf =>
                            match finish_call callee f cf with
                            | None => RStuck
                            | Some f' =>
                                match exn f' with
                                | Some _ => check_exception f'
                                | None => interpreter fuel m (MkFrame (ip f' + 3) (stack f') (locals f') None)
                                end
                            end
                        | r => r
                        end
                    end
                end
            end
          else
            match dispatch (byte_code m) EM64T op with
            | None => RStuck
            | Some opcode =>
                match opcode f with
                | None => RStuck
                | Some (f', _) => check_exception f'
                end
            end
      end
  end.
End interpreter.
