(* ===== verification/JavaMachine.v ===== *)
(** * A machine for Java bytecode, the specification of the interpreter

    States are the program counter, the local variables as a partial map from
    their numbers to values, and the operand stack as a list of values; a
    [long] or [double] is one value.  [java_step] runs one instruction by the
    specifications of the groups of instructions; [java_exec] runs methods with
    static calls and exception handlers. *)
From Stdlib Require Import SpecFloat.
From stdpp Require Import strings.
From S2P Require Import Prelude Floats JavaArith Frame FrameOk Opcodes OpcodesOk StackOk BranchOk Interp.

Record jstate := JState { jpc : Z; jvars : Z -> option jval; jstack : list jval }.

Inductive jout := JNext (s : jstate) | JThrow (e : string).

(** A variable is assigned; the values it overlaps are gone. *)
Definition assign (L : Z -> option jval) (n : Z) (v : jval) : Z -> option jval := fun m =>
  if m =? n then Some v
  else u ← L m; if decide (m + width u <= n \/ n + width v <= m) then Some u else None.

(** ** One instruction *)

(** The number, increment and length of [iinc]. *)
Definition java_iinc (code : list Z) (pc : Z) : option (Z * Z * Z) :=
  op ← byte code pc;
  if op =? 0x84 then n ← byte code (pc + 1); c ← byte code (pc + 2); Some (n, sx 8 c, 3)
  else if op =? 0xc4 then
    op ← byte code (pc + 1);
    if op =? 0x84 then
      n0 ← byte code (pc + 2); n1 ← byte code (pc + 3); c0 ← byte code (pc + 4); c1 ← byte code (pc + 5);
      Some (n0 * 2 ^ 8 + n1, sx 16 (c0 * 2 ^ 8 + c1), 6)
    else None
  else None.

(** The variable of [ret] and [wide ret]. *)
Definition java_ret (code : list Z) (pc : Z) : option Z :=
  op ← byte code pc;
  if op =? 0xa9 then byte code (pc + 1)
  else if op =? 0xc4 then
    op ← byte code (pc + 1);
    if op =? 0xa9 then b0 ← byte code (pc + 2); b1 ← byte code (pc + 3); Some (b0 * 2 ^ 8 + b1) else None
  else None.

(** The target and the return address of [jsr] and [jsr_w]. *)
Definition java_jsr (code : list Z) (pc : Z) : option (Z * Z) :=
  op ← byte code pc;
  if op =? 0xa8 then b0 ← byte code (pc + 1); b1 ← byte code (pc + 2); Some (pc + sx 16 (b0 * 2 ^ 8 + b1), pc + 3)
  else if op =? 0xc9 then off ← read_int32 code (pc + 1); Some (pc + off, pc + 5)
  else None.

(** The entry of a table with unique opcodes. *)
Fixpoint assoc {A} (op : Z) (t : list (Z * A)) : option A :=
  match t with [] => None | (o, a) :: t => if op =? o then Some a else assoc op t end.

#[export] Instance ty_eq_dec : EqDecision ty.
Proof. solve_decision. Defined.

Section step.
Context (code : list Z) (max_locals max_stack : nat) (s : jstate).

Definition next (pc : Z) (st : list jval) : option jout := Some (JNext (JState pc (jvars s) st)).

Definition step_nop : option jout := op ← byte code (jpc s); if op =? 0 then next (jpc s + 1) (jstack s) else None.
Definition step_const : option jout := '(v, len) ← java_const code (jpc s); next (jpc s + len) (v :: jstack s).
Definition step_load : option jout :=
  '(k, n, len) ← java_load code (jpc s); v ← jvars s n;
  if has_kind v k false then next (jpc s + len) (v :: jstack s) else None.
Definition step_store : option jout :=
  '(k, n, len) ← java_store code (jpc s);
  match jstack s with
  | v :: st =>
      if has_kind v k true && (n + width v <=? Z.of_nat max_locals)
      then Some (JNext (JState (jpc s + len) (assign (jvars s) n v) st)) else None
  | [] => None
  end.
Definition step_arith : option jout :=
  op ← byte code (jpc s); '(t, a) ← assoc op arith_table; v ← head (jstack s);
  if decide (type_of v = Some t) then
    r ← java_arith a (jstack s);
    match r with Some st => next (jpc s + 1) st | None => Some (JThrow ArithmeticException) end
  else None.
Definition step_shuffle : option jout :=
  op ← byte code (jpc s); i ← assoc op shuffle_table; st ← java_shuffle i (jstack s); next (jpc s + 1) st.
Definition step_branch : option jout := '(pc, st) ← java_branch code (jpc s) (jstack s); next pc st.
Definition step_switch : option jout :=
  match jstack s with VInt k :: st => pc ← java_switch code (jpc s) k; next pc st | _ => None end.
Definition step_iinc : option jout :=
  '(n, c, len) ← java_iinc code (jpc s);
  match jvars s n with
  | Some (VInt i) => Some (JNext (JState (jpc s + len) (assign (jvars s) n (VInt (sx 32 (i + c)))) (jstack s)))
  | _ => None
  end.
Definition step_jsr : option jout := '(pc, ra) ← java_jsr code (jpc s); next pc (VRet ra :: jstack s).
Definition step_ret : option jout :=
  n ← java_ret code (jpc s); match jvars s n with Some (VRet ra) => next ra (jstack s) | _ => None end.

Definition orelse (a b : option jout) : option jout := match a with Some _ => a | None => b end.

(** The instruction at the program counter; [None] when its operands have other
    types, when it has none of the groups, or when its result is deeper than
    [max_stack]. *)
Definition java_step : option jout :=
  o ← orelse step_nop (orelse step_const (orelse step_load (orelse step_store (orelse step_arith (orelse step_shuffle
        (orelse step_branch (orelse step_switch (orelse step_iinc (orelse step_jsr step_ret)))))))));
  match o with
  | JNext s' => if decide (depth (jstack s') <= max_stack)%nat then Some o else None
  | JThrow _ => Some o
  end.
End step.

(** ** Methods *)

Inductive jres := JReturn (v : option jval) | JThrown (e : string) | JFuel | JUndef.

(** The value a return instruction gives back, of the type of the method. *)
Definition returned (op : Z) (t : Java_Type) (st : list jval) : option (option jval) :=
  match op, t, st with
  | 177, JAVA_TYPE_VOID, _ => Some None
  | 172, (JAVA_TYPE_BOOLEAN | JAVA_TYPE_BYTE | JAVA_TYPE_CHAR | JAVA_TYPE_SHORT | JAVA_TYPE_INT), VInt i :: _ => Some (Some (VInt i))
  | 173, JAVA_TYPE_LONG, VLong i :: _ => Some (Some (VLong i))
  | 174, JAVA_TYPE_FLOAT, VFloat b :: _ => Some (Some (VFloat b))
  | 175, JAVA_TYPE_DOUBLE, VDouble b :: _ => Some (Some (VDouble b))
  | 176, (JAVA_TYPE_CLASS | JAVA_TYPE_ARRAY | JAVA_TYPE_STRING), VRef r :: _ => Some (Some (VRef r))
  | _, _, _ => None
  end.

(** The arguments on top of the stack, the first one deepest, that take [slots]
    elements, and the rest. *)
Fixpoint take_args (st : list jval) (slots : nat) : option (list jval * list jval) :=
  match slots with
  | O => Some ([], st)
  | _ =>
      match st with
      | [] => None
      | v :: st =>
          if decide (depth [v] <= slots)%nat then
            '(args, rest) ← take_args st (slots - depth [v])%nat; Some (args ++ [v], rest)
          else None
      end
  end.

(** The arguments in the variables of the callee. *)
Fixpoint layout (n : Z) (args : list jval) : Z -> option jval :=
  match args with
  | [] => fun _ => None
  | v :: args => fun m => if m =? n then Some v else layout (n + width v) args m
  end.

Section exec.
Context (resolve : Z -> Method + string) (catches : string -> Z -> option bool) (exn_ref : string -> Z)
  (IsVmShutdowning : bool).

(** The handler of an exception: the first one that covers the instruction and does
    not fail to catch; none if its class cannot be resolved, and only the handlers
    of every exception while the virtual machine shuts down. *)
Definition java_handler (m : Method) (pc : Z) (e : string) : option Handler :=
  let covers h := (start_pc h <=? pc) && (pc <? end_pc h) in
  let any h := catch_type_index h =? 0 in
  if IsVmShutdowning then find (fun h => covers h && any h) (bc_exception_handlers m)
  else
    h ← find (fun h => covers h && (any h || negb (bool_decide (catches e (catch_type_index h) = Some false))))
          (bc_exception_handlers m);
    if any h || bool_decide (catches e (catch_type_index h) = Some true) then Some h else None.

Fixpoint java_exec (fuel : nat) (m : Method) (s : jstate) : jres :=
  match fuel with
  | O => JFuel
  | S fuel =>
      let throw (st : list jval) (e : string) : jres :=
        match java_handler m (jpc s) e with
        | Some h => if decide (1 <= max_stack m)%nat
            then java_exec fuel m (JState (handler_pc h) (jvars s) [VRef (exn_ref e)]) else JUndef
        | None => JThrown e
        end in
      match byte (byte_code m) (jpc s) with
      | None => JUndef
      | Some op =>
          if (172 <=? op) && (op <=? 177) then
            match returned op (return_java_type m) (jstack s) with Some v => JReturn v | None => JUndef end
          else if op =? 184 then
            match read_uint16 (byte_code m) (jpc s + 1) with
            | None => JUndef
            | Some methodId =>
                match resolve methodId with
                | inr e => throw (jstack s) e
                | inl callee =>
                    match take_args (jstack s) (num_arg_slots callee) with
                    | None => JUndef
                    | Some (args, rest) =>
                        if decide (num_arg_slots callee <= max_locals callee)%nat then
                          match java_exec fuel callee (JState 0 (layout 0 args) []) with
                          | JReturn v =>
                              let st := match v with Some v => v :: rest | None => rest end in
                              if decide (depth st <= max_stack m)%nat
                              then java_exec fuel m (JState (jpc s + 3) (jvars s) st) else JUndef
                          | JThrown e => throw rest e
                          | r => r
                          end
                        else JUndef
                    end
                end
            end
          else
            match java_step (byte_code m) (max_locals m) (max_stack m) s with
            | Some (JNext s') => java_exec fuel m s'
            | Some (JThrow e) => throw (jstack s) e
            | None => JUndef
            end
      end
  end.
End exec.
