(* ===== verification/InterpOk.v ===== *)
(** * The interpreter runs Java bytecode

    [frame_rep] relates a frame to a state of [JavaMachine.v].  Every opcode
    simulates one step of the machine, and the loop, with its calls, returns and
    exceptions, a whole execution. *)
From Stdlib Require Import SpecFloat.
From stdpp Require Import strings.
From S2P Require Import Prelude Floats JavaArith Frame FrameOk Opcodes OpcodesOk StackOk BranchOk FrameSafe Interp JavaMachine.

(** ** The relation *)

Definition locals_rep (l : Locals) (L : Z -> option jval) : Prop :=
  locals_ok l /\ forall n v, L n = Some v -> val_ok v /\ local_holds l n v.

Definition frame_rep (f : StackFrame) (s : jstate) : Prop :=
  rep f (jstack s) /\ ip f = jpc s /\ locals_rep (locals f) (jvars s) /\ exn f = None.

(** The sizes of the frame of a method. *)
Definition sized (nl ms : nat) (f : StackFrame) : Prop :=
  size (stack f) = Z.of_nat ms /\ varNum (locals f) = Z.of_nat nl.

Lemma local_holds_bound l n v : local_holds l n v -> n + width v <= varNum l.
Proof.
  assert (H1 : forall m a, local l m = Some a -> m + 1 <= varNum l).
  { intros m a. unfold local. destruct ((0 <=? m) && (m <? varNum l)) eqn:E; [|done].
    apply andb_true_iff in E as [_ E%Z.ltb_lt]. lia. }
  unfold local_holds, width. destruct (cat2 v) eqn:Hc.
  - apply cells_cat2 in Hc as (a & b & ->). intros (_ & H & _). apply H1 in H. lia.
  - apply cells_cat1 in Hc as (a & b & ->). intros [H _]. by apply H1 in H.
Qed.

Lemma rep_frame_ok f s : frame_rep f s -> frame_ok f.
Proof.
  intros ([_ [junk Hs]] & _ & [Hl _] & _). unfold frame_ok. rewrite Hs, size_canon. simpl.
  rewrite !length_app, !length_reverse, !length_fmap, length_replicate. split; [done|]. split; [lia|done].
Qed.

Lemma locals_rep_assign l L n v l' : locals_rep l L -> val_ok v -> stored l n v l' -> locals_rep l' (assign L n v).
Proof.
  intros [Hok HL] Hv (Hok' & _ & Hn' & Hkeep). split; [done|]. intros m u Hm. unfold assign in Hm.
  destruct (Z.eqb_spec m n) as [->|]; [by injection Hm as <-|].
  destruct (L m) as [w|] eqn:Hw; [|done]. cbn [mbind option_bind] in Hm. case_decide; [|done]. injection Hm as ->.
  destruct (HL m u Hw) as (Hu & Hh). split; [done|]. by apply Hkeep.
Qed.

(** ** One step *)

(** The opcode at the instruction pointer has the outcome of the machine. *)
Definition post (f : StackFrame) (o : jout) (f' : StackFrame) : Prop :=
  match o with
  | JNext s' => frame_rep f' s'
  | JThrow e => f' = MkFrame (ip f) (stack f) (locals f) (Some e)
  end.

Definition simulates (code : list Z) (f : StackFrame) (o : jout) : Prop :=
  exists op m, byte code (ip f) = Some op /\ dispatch code true op = Some m /\ owp m f (fun f' _ => post f o f').

Section step.
Context (code : list Z) (nl ms : nat) (f : StackFrame) (s : jstate).
Context (Hcode : Forall (is_u 8) code) (Hlen : Z.of_nat (length code) < 2 ^ 31).
Context (Hrep : frame_rep f s) (Hsize : sized nl ms f).

(** An opcode that leaves the locals alone. *)
Lemma simulates_next op m pc st : byte code (ip f) = Some op -> dispatch code true op = Some m ->
  owp m f (fun f' _ => rep f' st /\ ip f' = pc /\ locals f' = locals f /\ exn f' = exn f) ->
  simulates code f (JNext (JState pc (jvars s) st)).
Proof.
  intros Hop Hm Ho. exists op, m. split; [done|]. split; [done|]. eapply owp_mono; [exact Ho|].
  intros f' _ (Hr & Hi & Hl & Hx). destruct Hrep as (_ & _ & HL & Hx0). unfold post, frame_rep. simpl.
  rewrite Hl, Hx. done.
Qed.

Lemma owp_fr (m : Op unit) Q : (forall junk, stack f = canon (cells_of_stack (jstack s)) junk ->
    owp m (fr (jpc s) (cells_of_stack (jstack s)) junk (locals f) None) Q) -> owp m f Q.
Proof.
  clear Hsize Hlen Hcode. intros H. destruct Hrep as ([_ [junk Hs]] & Hi & _ & Hx). specialize (H junk Hs). destruct f as [i s0 l x].
  simpl in *. by subst.
Qed.

Lemma room junk v : stack f = canon (cells_of_stack (jstack s)) junk -> (depth (v :: jstack s) <= ms)%nat ->
  (depth [v] <= length junk)%nat.
Proof.
  clear Hlen Hcode. intros Hs Hd. destruct Hsize as [Hz _]. rewrite Hs, size_canon in Hz.
  change (v :: jstack s) with ([v] ++ jstack s) in Hd. rewrite depth_app in Hd. unfold depth in *. lia.
Qed.

Lemma rep_push (m : Op unit) v pc : val_ok v -> (depth (v :: jstack s) <= ms)%nat ->
  (forall junk, (depth [v] <= length junk)%nat ->
    owp m (fr (jpc s) (cells_of_stack (jstack s)) junk (locals f) None) (fun f' _ =>
      exists junk', f' = fr pc (cells_of_stack (v :: jstack s)) junk' (locals f) None)) ->
  owp m f (fun f' _ => rep f' (v :: jstack s) /\ ip f' = pc /\ locals f' = locals f /\ exn f' = exn f).
Proof.
  intros Hv Hd H. apply owp_fr. intros junk Hs. eapply owp_mono; [by apply H, room|].
  intros f' _ [junk' ->]. simpl. destruct Hrep as ([Hok _] & _ & _ & ->). split; [|done]. split; [by constructor|by eexists].
Qed.
End step.

Section groups.
Context (code : list Z) (nl ms : nat) (f : StackFrame) (s : jstate).
Context (Hcode : Forall (is_u 8) code) (Hlen : Z.of_nat (length code) < 2 ^ 31).
Context (Hrep : frame_rep f s) (Hsize : sized nl ms f).
Let fits (o : jout) : Prop := match o with JNext s' => (depth (jstack s') <= ms)%nat | JThrow _ => True end.

Lemma ip_pc : ip f = jpc s.
Proof. apply Hrep. Qed.
Lemma stack_ok : Forall val_ok (jstack s).
Proof. apply Hrep. Qed.

Lemma nop_sound o : step_nop code s = Some o -> fits o -> simulates code f o.
Proof.
  intros H Hf. unfold step_nop in H. destruct (byte code (jpc s)) as [op|] eqn:Hop; [|done]. cbn [mbind option_bind] in H.
  destruct (Z.eqb_spec op 0) as [->|]; [|done]. injection H as <-. rewrite <- ip_pc in Hop.
  apply (simulates_next code f s Hrep 0 Opcode_NOP); [done|done|]. destruct Hrep as (? & Hi & _).
  unfold owp, Opcode_NOP, add_ip. rewrite <- Hi. done.
Qed.

Lemma const_sound o : step_const code s = Some o -> fits o -> simulates code f o.
Proof.
  intros H Hf. unfold step_const in H. destruct (java_const code (jpc s)) as [[v len]|] eqn:Hc; [|done].
  injection H as <-. destruct (const_opcode code (jpc s) v len Hcode Hc) as (op & m & Hop & Hm & Hp & Hv).
  rewrite <- ip_pc in Hop. apply (simulates_next code f s Hrep op m); [done|done|].
  apply (rep_push nl ms f s Hrep Hsize); [done|done|]. intros junk Hj. by apply Hp.
Qed.

Lemma load_sound o : step_load code s = Some o -> fits o -> simulates code f o.
Proof.
  intros H Hf. unfold step_load in H. destruct (java_load code (jpc s)) as [[[k n] len]|] eqn:Hc; [|done].
  cbn [mbind option_bind] in H. destruct (jvars s n) as [v|] eqn:Hv; [|done]. cbn [mbind option_bind] in H.
  destruct (has_kind v k false) eqn:Hk; [|done]. injection H as <-.
  destruct (load_opcode code (jpc s) k n len Hcode Hc) as (op & m & Hop & Hm & Hp).
  rewrite <- ip_pc in Hop. apply (simulates_next code f s Hrep op m); [done|done|].
  pose proof Hrep as (_ & _ & [_ HL] & _). destruct (HL n v Hv) as (Hvok & Hh).
  apply (rep_push nl ms f s Hrep Hsize); [done|done|]. intros junk Hj. by apply (Hp v).
Qed.

Lemma store_sound o : step_store code nl s = Some o -> fits o -> simulates code f o.
Proof.
  intros H Hf. unfold step_store in H. destruct (java_store code (jpc s)) as [[[k n] len]|] eqn:Hc; [|done].
  cbn [mbind option_bind] in H. pose proof stack_ok as Hok. destruct (jstack s) as [|v st] eqn:Hst; [done|].
  destruct (has_kind v k true && _) eqn:Hk; [|done]. injection H as <-. apply andb_true_iff in Hk as [Hk Hn%Z.leb_le].
  destruct (store_opcode code (jpc s) k n len Hcode Hc) as (op & m & Hop & Hm & Hp).
  rewrite <- ip_pc in Hop. exists op, m. split; [done|]. split; [done|]. apply (owp_fr f s Hrep). intros junk Hs.
  pose proof Hrep as (_ & _ & [Hlok HL] & _). rewrite Hst. apply Forall_cons_1 in Hok as [Hv Hok].
  eapply owp_mono; [apply (Hp v st); [done|done|]|].
  { destruct Hsize as [_ Hz]. lia. }
  intros f' _ (junk' & l' & -> & Hstored). split; [split; [done|by eexists]|]. split; [done|]. split; [|done].
  by apply (locals_rep_assign (locals f)).
Qed.

Lemma assoc_elem {A} op (t : list (Z * A)) a : assoc op t = Some a -> (op, a) ∈ t.
Proof.
  induction t as [|[o b] t IH]; [done|]. simpl. destruct (Z.eqb_spec op o) as [->|].
  - intros [= ->]. by left.
  - intros. right. by apply IH.
Qed.

Lemma effect_sound op m r : byte code (jpc s) = Some op -> dispatch code true op = Some m -> effect m (jstack s) r ->
  match r with Some st => (depth st <= ms)%nat | None => True end ->
  simulates code f (match r with Some st => JNext (JState (jpc s + 1) (jvars s) st) | None => JThrow ArithmeticException end).
Proof.
  intros Hop Hm He Hd. rewrite <- ip_pc in Hop. pose proof Hrep as (Hr & Hi & _ & Hx).
  assert (Ho := effect_frame m f (jstack s) r Hr He). destruct r as [st|].
  - apply (simulates_next code f s Hrep op m); [done|done|]. rewrite <- Hi. apply Ho.
    destruct Hsize as [-> _]. by rewrite Nat2Z.id.
  - exists op, m. split; [done|]. split; [done|]. by apply Ho.
Qed.

Lemma arith_sound o : step_arith code s = Some o -> fits o -> simulates code f o.
Proof.
  intros H Hf. unfold step_arith in H. destruct (byte code (jpc s)) as [op|] eqn:Hop; [|done]. cbn [mbind option_bind] in H.
  destruct (assoc op arith_table) as [[t a]|] eqn:Ha; [|done]. cbn [mbind option_bind] in H.
  pose proof stack_ok as Hok. destruct (jstack s) as [|v st] eqn:Hst; [done|]. cbn [head mbind option_bind] in H.
  case_decide as Ht; [|done]. destruct (java_arith a (v :: st)) as [r|] eqn:Hr; [|done]. cbn [mbind option_bind] in H.
  destruct (table_effect code op t a v st r (assoc_elem _ _ _ Ha) Hok Ht Hr) as (m & Hm & He). rewrite <- Hst in He.
  destruct r as [st'|]; injection H as <-; by apply (effect_sound op m _ Hop Hm He).
Qed.

Lemma shuffle_sound o : step_shuffle code s = Some o -> fits o -> simulates code f o.
Proof.
  intros H Hf. unfold step_shuffle in H. destruct (byte code (jpc s)) as [op|] eqn:Hop; [|done]. cbn [mbind option_bind] in H.
  destruct (assoc op shuffle_table) as [i|] eqn:Ha; [|done]. cbn [mbind option_bind] in H.
  destruct (java_shuffle i (jstack s)) as [st|] eqn:Hs; [|done]. injection H as <-.
  destruct (shuffle_effect code op i _ _ (assoc_elem _ _ _ Ha) Hs stack_ok) as (m & Hm & He).
  by apply (effect_sound op m (Some st) Hop Hm He).
Qed.

Lemma branch_sound o : step_branch code s = Some o -> simulates code f o.
Proof.
  intros H. unfold step_branch in H. destruct (java_branch code (jpc s) (jstack s)) as [[pc st]|] eqn:Hb; [|done].
  injection H as <-. destruct (branch_opcode code (jpc s) (jstack s) pc st stack_ok Hb) as (op & m & Hop & Hm & Hj & Hok).
  rewrite <- ip_pc in Hop, Hj. apply (simulates_next code f s Hrep op m); [done|done|].
  apply (jumps_frame m f (jstack s)); [apply Hrep|done|done].
Qed.

Lemma switch_sound o : step_switch code s = Some o -> simulates code f o.
Proof.
  intros H. unfold step_switch in H. pose proof Hrep as (Hr & _). pose proof stack_ok as Hok.
  destruct (jstack s) as [|[k| | | | |] st]; try done. destruct (java_switch code (jpc s) k) as [pc|] eqn:Hs; [|done].
  injection H as <-. apply Forall_cons_1 in Hok as [Hk Hok].
  destruct (switch_jumps code (jpc s) k st pc Hlen Hk Hs) as (op & m & Hop & Hm & Hj).
  rewrite <- ip_pc in Hop, Hj. apply (simulates_next code f s Hrep op m); [done|done|].
  by apply (jumps_frame m f (VInt k :: st)).
Qed.
End groups.

Lemma iinc_stored l n i c : locals_ok l -> is_s 32 i -> local_holds l n (VInt i) ->
  exists l', set_local l n (of_i (val_i (of_i i) + c)) = Some l' /\ stored l n (VInt (sx 32 (i + c))) l'.
Proof.
  intros Hok Hi Hh. pose proof (local_holds_bound _ _ _ Hh) as Hn. unfold width in Hn. simpl in Hn.
  destruct Hh as [Hl Hr]. assert (0 <= n).
  { unfold local in Hl. destruct (Z.leb_spec 0 n); done. }
  rewrite val_of_i by done. destruct (set_local_exists l n (of_i (i + c)) ltac:(lia)) as [l' H']. exists l'. split; [done|].
  pose proof (lookup_set_local l l' n _ Hok H') as L. destruct (L n) as (Hvn & Hok' & E & Er).
  apply stored_intro; [done|done| |].
  - unfold local_holds. cbn [cells_of]. rewrite Z.eqb_refl in E. rewrite E, Er, of_i_sx. done.
  - intros m Hm. unfold width in Hm. simpl in Hm. destruct (L m) as (_ & _ & -> & ->).
    by rewrite (proj2 (Z.eqb_neq m n)) by lia.
Qed.

(** What [iinc] does, whatever its encoding. *)
Lemma owp_iinc n c len i cells junk l x (Q : StackFrame -> unit -> Prop) l' a : local l n = Some a ->
  set_local l n (of_i (val_i a + c)) = Some l' -> Q (fr (i + len) cells junk l' x) tt ->
  owp (iinc n c len) (fr i cells junk l x) Q.
Proof.
  intros Hl Hs HQ. unfold iinc. op_step. eapply owp_local; [exact Hl|]. op_step.
  eapply owp_set_local; [exact Hs|]. by op_steps.
Qed.

(** Reads at an offset, in sequence. *)
Ltac op_reads := repeat (op_step; eapply owp_read; [eassumption|]).

Section more_groups.
Context (code : list Z) (nl ms : nat) (f : StackFrame) (s : jstate).
Context (Hcode : Forall (is_u 8) code) (Hlen : Z.of_nat (length code) < 2 ^ 31).
Context (Hrep : frame_rep f s) (Hsize : sized nl ms f).

Lemma iinc_sound o : step_iinc code s = Some o -> simulates code f o.
Proof.
  intros H. unfold step_iinc in H. destruct (java_iinc code (jpc s)) as [[[n c] len]|] eqn:Hi; [|done].
  cbn [mbind option_bind] in H. destruct (jvars s n) as [[i| | | | |]|] eqn:Hv; try done. injection H as <-.
  pose proof Hrep as (Hr & Hpc & [Hlok HL] & Hx). destruct (HL n _ Hv) as (Hiok & Hh).
  destruct (iinc_stored _ _ _ c Hlok Hiok Hh) as (l' & Hset & Hst). destruct Hh as [Hl _].
  assert (Hfin : forall junk, post f (JNext (JState (jpc s + len) (assign (jvars s) n (VInt (sx 32 (i + c)))) (jstack s)))
    (fr (jpc s + len) (cells_of_stack (jstack s)) junk l' None)).
  { intros junk. split; [split; [apply Hr|by eexists]|]. split; [done|]. split; [|done].
    apply (locals_rep_assign (locals f)); [done|by apply sx_range|done]. }
  unfold java_iinc in Hi. destruct (byte code (jpc s)) as [op|] eqn:Hop; [|done]. cbn [mbind option_bind] in Hi.
  exists op. rewrite Hpc. destruct (Z.eqb_spec op 0x84) as [->|].
  - destruct (byte code (jpc s + 1)) as [b|] eqn:Hb; [|done]. cbn [mbind option_bind] in Hi.
    destruct (byte code (jpc s + 2)) as [b1|] eqn:Hb1; [|done]. injection Hi as -> <- <-.
    eexists. split; [done|]. split; [reflexivity|]. apply (owp_fr f s Hrep). intros junk _.
    assert (Hc : read_int8 code (jpc s + 2) = Some (sx 8 b1)) by (unfold read_int8; by rewrite Hb1).
    unfold Opcode_IINC, read_uint8. op_reads. eapply owp_iinc; [exact Hl|exact Hset|]. apply Hfin.
  - destruct (Z.eqb_spec op 0xc4) as [->|]; [|done].
    destruct (byte code (jpc s + 1)) as [op|] eqn:Hop1; [|done]. cbn [mbind option_bind] in Hi.
    destruct (Z.eqb_spec op 0x84) as [->|]; [|done].
    destruct (byte code (jpc s + 2)) as [d0|] eqn:Hd0; [|done]. cbn [mbind option_bind] in Hi.
    destruct (byte code (jpc s + 3)) as [d1|] eqn:Hd1; [|done]. cbn [mbind option_bind] in Hi.
    destruct (byte code (jpc s + 4)) as [c0|] eqn:Hc0; [|done]. cbn [mbind option_bind] in Hi.
    destruct (byte code (jpc s + 5)) as [c1|] eqn:Hc1; [|done]. injection Hi as <- <- <-.
    eexists. split; [done|]. split; [reflexivity|]. apply (owp_fr f s Hrep). intros junk _.
    unfold dispatch_wide. op_reads. unfold Opcode_WIDE_IINC.
    assert (Hc : read_int16 code (jpc s + 4) = Some (sx 16 (c0 * 2 ^ 8 + c1)))
      by (apply read_int16_eq; [done|by replace (jpc s + 4 + 1) with (jpc s + 5) by lia]).
    assert (Hn : read_uint16 code (jpc s + 2) = Some (d0 * 2 ^ 8 + d1))
      by (apply read_uint16_eq; [done|done|by replace (jpc s + 2 + 1) with (jpc s + 3) by lia]).
    op_reads. eapply owp_iinc; [exact Hl|exact Hset|]. apply Hfin.
Qed.

Lemma jsr_owp len read off junk : 0 <= jpc s + len < 2 ^ 32 -> read (jpc s + 1) = Some off -> (1 <= length junk)%nat ->
  owp (jsr len read) (fr (jpc s) (cells_of_stack (jstack s)) junk (locals f) None) (fun f' _ =>
    exists junk', f' = fr (jpc s + off) (cells_of_stack (VRet (jpc s + len) :: jstack s)) junk' (locals f) None).
Proof.
  clear Hsize Hlen Hcode. intros Hra Hr Hj. destruct junk as [|j junk]; cbn [length] in Hj; [lia|]. unfold jsr. do 8 op_step.
  op_step. eapply owp_read; [exact Hr|]. op_steps. eexists. unfold cells_of_stack. cbn [flat_map cells_of app].
  by rewrite ux_id.
Qed.

Lemma jsr_sound o : step_jsr code s = Some o -> match o with JNext s' => (depth (jstack s') <= ms)%nat | _ => True end ->
  simulates code f o.
Proof.
  intros H Hf. unfold step_jsr in H. destruct (java_jsr code (jpc s)) as [[pc ra]|] eqn:Hj; [|done]. injection H as <-.
  pose proof Hrep as (Hr & Hpc & _). unfold java_jsr in Hj.
  destruct (byte code (jpc s)) as [op|] eqn:Hop; [|done]. cbn [mbind option_bind] in Hj.
  pose proof (byte_bound _ _ _ Hop) as Hb.
  destruct (Z.eqb_spec op 0xa8) as [->|]; [|destruct (Z.eqb_spec op 0xc9) as [->|]; [|done]].
  - destruct (byte code (jpc s + 1)) as [b0|] eqn:H0; [|done]. cbn [mbind option_bind] in Hj.
    destruct (byte code (jpc s + 2)) as [b1|] eqn:H1; [|done]. injection Hj as <- <-.
    rewrite <- Hpc in Hop. apply (simulates_next code f s Hrep 0xa8 (Opcode_JSR code)); [done|done|].
    assert (Hra : is_u 32 (jpc s + 3)) by (unfold is_u; lia).
    apply (rep_push nl ms f s Hrep Hsize); [done|done|]. intros junk Hd. apply jsr_owp; [done| |done].
    apply read_int16_eq; [done|by replace (jpc s + 1 + 1) with (jpc s + 2) by lia].
  - destruct (read_int32 code (jpc s + 1)) as [off|] eqn:Ho; [|done]. injection Hj as <- <-.
    rewrite <- Hpc in Hop. apply (simulates_next code f s Hrep 0xc9 (Opcode_JSR_W code)); [done|done|].
    assert (Hra : is_u 32 (jpc s + 5)) by (unfold is_u; lia).
    apply (rep_push nl ms f s Hrep Hsize); [done|done|]. intros junk Hd. by apply jsr_owp.
Qed.

Lemma ret_sound o : step_ret code s = Some o -> simulates code f o.
Proof.
  intros H. unfold step_ret in H. destruct (java_ret code (jpc s)) as [n|] eqn:Hn; [|done]. cbn [mbind option_bind] in H.
  destruct (jvars s n) as [[| | | | |ra]|] eqn:Hv; try done. injection H as <-.
  pose proof Hrep as (Hr & Hpc & [_ HL] & Hx). destruct (HL n _ Hv) as (_ & Hl & Ht).
  assert (Hfin : forall junk, rep (fr ra (cells_of_stack (jstack s)) junk (locals f) None) (jstack s))
    by (intros junk; split; [apply Hr|by eexists]).
  unfold java_ret in Hn. destruct (byte code (jpc s)) as [op|] eqn:Hop; [|done]. cbn [mbind option_bind] in Hn.
  rewrite <- Hpc in Hop. apply (fun m => simulates_next code f s Hrep op m ra (jstack s) Hop) with
    (m := if op =? 0xa9 then Opcode_RET code else dispatch_wide code).
  { destruct (Z.eqb_spec op 0xa9) as [->|]; [done|]. by destruct (Z.eqb_spec op 0xc4) as [->|]. }
  rewrite Hx. apply (owp_fr f s Hrep). intros junk _. destruct (Z.eqb_spec op 0xa9) as [->|].
  - unfold Opcode_RET, read_uint8. op_reads. op_step. eapply owp_local; [exact Hl|]. op_step.
    eapply owp_local_ref; [exact Ht|]. op_steps. by split.
  - destruct (Z.eqb_spec op 0xc4) as [->|]; [|done].
    destruct (byte code (jpc s + 1)) as [op|] eqn:Hop1; [|done]. cbn [mbind option_bind] in Hn.
    destruct (Z.eqb_spec op 0xa9) as [->|]; [|done].
    destruct (byte code (jpc s + 2)) as [b0|] eqn:H0; [|done]. cbn [mbind option_bind] in Hn.
    destruct (byte code (jpc s + 3)) as [b1|] eqn:H1; [|done]. injection Hn as <-.
    assert (Hn : read_uint16 code (jpc s + 2) = Some (b0 * 2 ^ 8 + b1))
      by (apply read_uint16_eq; [done|done|by replace (jpc s + 2 + 1) with (jpc s + 3) by lia]).
    unfold dispatch_wide. op_reads. unfold Opcode_WIDE_RET. op_reads. op_step. eapply owp_local; [exact Hl|].
    op_steps. by split.
Qed.
End more_groups.

Lemma orelse_some a b o : orelse a b = Some o -> a = Some o \/ b = Some o.
Proof. destruct a; simpl; auto. Qed.

Lemma step_sound code nl ms f s o : Forall (is_u 8) code -> Z.of_nat (length code) < 2 ^ 31 ->
  frame_rep f s -> sized nl ms f -> java_step code nl ms s = Some o ->
  exists op m, byte code (ip f) = Some op /\ dispatch code true op = Some m /\
    owp m f (fun f' _ => post f o f' /\ sized nl ms f').
Proof.
  intros Hcode Hlen Hrep Hsize H. unfold java_step in H.
  destruct (orelse _ _) as [o'|] eqn:Ho; [|done]. cbn [mbind option_bind] in H.
  assert (o' = o /\ match o with JNext s' => (depth (jstack s') <= ms)%nat | JThrow _ => True end) as [-> Hf].
  { destruct o' as [s'|e]; [case_decide; [|done]|]; by injection H as <-. }
  assert (Hsim : simulates code f o).
  { repeat (apply orelse_some in Ho as [Ho|Ho]).
    - by eapply nop_sound.
    - by eapply const_sound.
    - by eapply load_sound.
    - by eapply store_sound.
    - by eapply arith_sound.
    - by eapply shuffle_sound.
    - by eapply branch_sound.
    - by eapply switch_sound.
    - by eapply iinc_sound.
    - by eapply jsr_sound.
    - by eapply ret_sound. }
  destruct Hsim as (op & m & Hop & Hm & Hw). exists op, m. split; [done|]. split; [done|].
  unfold owp in *. destruct (m f) as [[f' []]|] eqn:Hrun; [|done]. split; [done|].
  destruct (dispatch_keeps code true op m Hm f f' tt Hrun (rep_frame_ok f s Hrep)) as [_ [E1 E2]].
  unfold sized. by rewrite E1, E2.
Qed.
