(* ===== verification/CallOk.v ===== *)
(** * Calls and exceptions: whole executions of the interpreter

    What the handler search, the frame of a callee and the end of a call do to
    represented stacks, and the refinement of the machine's executions by the
    interpreter's loop. *)
From Stdlib Require Import SpecFloat.
From stdpp Require Import strings.
From S2P Require Import Prelude Floats JavaArith Frame FrameOk Opcodes OpcodesOk StackOk BranchOk FrameSafe Interp JavaMachine InterpOk.

(** ** The search for a handler *)

Lemma find_handler_spec catches pc e hs : find_handler catches pc e hs =
  (h ← find (fun h => (start_pc h <=? pc) && (pc <? end_pc h) &&
     ((catch_type_index h =? 0) || negb (bool_decide (catches e (catch_type_index h) = Some false)))) hs;
   if (catch_type_index h =? 0) || bool_decide (catches e (catch_type_index h) = Some true) then Some h else None).
Proof.
  induction hs as [|h hs IH]; [done|]. simpl.
  destruct (Z.ltb_spec pc (start_pc h)); [rewrite (proj2 (Z.leb_gt (start_pc h) pc)) by lia; done|].
  rewrite (proj2 (Z.leb_le (start_pc h) pc)) by lia.
  destruct (Z.leb_spec (end_pc h) pc); [rewrite (proj2 (Z.ltb_ge pc (end_pc h))) by lia; done|].
  rewrite (proj2 (Z.ltb_lt pc (end_pc h))) by lia. cbn [andb].
  destruct (catch_type_index h =? 0) eqn:E; cbn [orb]; [by cbn [mbind option_bind]; rewrite E|].
  destruct (catches e (catch_type_index h)) as [[]|] eqn:Ec; simpl; rewrite ?E, ?Ec; done.
Qed.

Lemma find_finally_spec pc hs : find_finally pc hs =
  find (fun h => (start_pc h <=? pc) && (pc <? end_pc h) && (catch_type_index h =? 0)) hs.
Proof.
  induction hs as [|h hs IH]; [done|]. simpl. rewrite IH.
  by destruct (catch_type_index h =? 0), (start_pc h <=? pc), (pc <? end_pc h).
Qed.

Lemma handler_spec catches shut m pc e :
  findExceptionHandler catches shut m pc e = java_handler catches shut m pc e.
Proof. unfold findExceptionHandler, java_handler. destruct shut; [apply find_finally_spec|apply find_handler_spec]. Qed.

(** the interpreter enters the first handler, in the order of the table, that
    covers the instruction and catches the exception: one of every exception, or
    one whose class the exception is an instance of; a class that cannot be resolved
    ends the search, and while the virtual machine shuts down only handlers of every
    exception count. *)
Theorem findExceptionHandler_first catches shut m pc e : findExceptionHandler catches shut m pc e =
  if shut then find (fun h => (start_pc h <=? pc) && (pc <? end_pc h) && (catch_type_index h =? 0)) (bc_exception_handlers m)
  else
    h ← find (fun h => (start_pc h <=? pc) && (pc <? end_pc h) &&
          ((catch_type_index h =? 0) || negb (bool_decide (catches e (catch_type_index h) = Some false)))) (bc_exception_handlers m);
    if (catch_type_index h =? 0) || bool_decide (catches e (catch_type_index h) = Some true) then Some h else None.
Proof. apply handler_spec. Qed.

(** The frame at the handler. *)
Lemma catch_rep exn_ref f s e pc nl ms : frame_rep f s -> sized nl ms f -> (1 <= ms)%nat -> is_u 32 (exn_ref e) ->
  exists f', catch_exception exn_ref (MkFrame pc (stack f) (locals f) (Some e)) e = Some f' /\
    frame_rep f' (JState pc (jvars s) [VRef (exn_ref e)]) /\ sized nl ms f'.
Proof.
  intros Hrep [Hsz Hvn] Hms Href. pose proof (rep_frame_ok f s Hrep) as (Hl & _ & _).
  unfold catch_exception. simpl. set (s0 := Stack_clear (stack f)).
  assert (Hs0 : s0 = canon [] (data (stack f))) by (unfold s0, Stack_clear, canon; simpl; by rewrite Hl).
  rewrite Hs0. unfold size in Hsz. destruct (data (stack f)) as [|j junk]; cbn [length] in Hsz; [lia|].
  rewrite canon_push1. cbn [mbind option_bind]. change 0 with (Z.of_nat 0) at 1 2.
  rewrite (set_pick_canon _ _ 0 (j, FLAG_NONE)) by done. cbn [mbind option_bind insert list_insert snd].
  rewrite (set_ref_canon _ _ 0 (exn_ref e, FLAG_NONE)) by done. cbn [mbind option_bind insert list_insert fst].
  eexists. split; [done|]. split.
  - destruct Hrep as (_ & _ & HL & _). split; [|done]. split; [by apply Forall_singleton|by exists junk].
  - split; [|done]. simpl. rewrite size_canon. simpl length. lia.
Qed.

(** ** The arguments of a call *)

Lemma copy_args_spec cells junk a : forall n l, locals_ok l -> (n <= a)%nat -> (a <= length cells)%nat ->
  Z.of_nat n <= varNum l ->
  exists l', copy_args (canon cells junk) (Z.of_nat a) n l = Some l' /\ locals_ok l' /\ varNum l' = varNum l /\
    (forall i, (i < n)%nat -> local l' (Z.of_nat i) = fst <$> cells !! (a - 1 - i)%nat /\
                       local_ref l' (Z.of_nat i) = snd <$> cells !! (a - 1 - i)%nat) /\
    (forall i, Z.of_nat n <= i -> local l' i = local l i /\ local_ref l' i = local_ref l i).
Proof.
  induction n as [|n IH]; intros l Hok Hna Hac Hn; simpl copy_args.
  { exists l. split; [done|]. split; [done|]. split; [done|]. split; [lia|done]. }
  destruct (lookup_lt_is_Some_2 cells (a - 1 - n)%nat ltac:(lia)) as [c Hc].
  replace (Z.of_nat a - 1 - Z.of_nat n) with (Z.of_nat (a - 1 - n)) by lia.
  rewrite (pick_canon _ _ _ c Hc). cbn [mbind option_bind].
  destruct (set_local_exists l (Z.of_nat n) c.1 ltac:(lia)) as [l1 H1]. rewrite H1. cbn [mbind option_bind].
  rewrite (ref_canon _ _ _ c Hc). cbn [mbind option_bind].
  pose proof (lookup_set_local _ _ _ _ Hok H1) as L1. destruct (L1 0) as (Hv1 & Hok1 & _).
  destruct (set_local_ref_exists l1 (Z.of_nat n) c.2 ltac:(lia)) as [l2 H2]. rewrite H2. cbn [mbind option_bind].
  pose proof (lookup_set_local_ref _ _ _ _ Hok1 H2) as L2. destruct (L2 0) as (Hv2 & Hok2 & _).
  destruct (IH l2 Hok2 ltac:(lia) Hac ltac:(lia)) as (l' & Hl' & Hok' & Hv' & Hlow & Hhigh).
  exists l'. split; [done|]. split; [done|]. split; [lia|].
  assert (Hset : forall m, local l2 m = (if m =? Z.of_nat n then Some c.1 else local l m) /\
      local_ref l2 m = (if m =? Z.of_nat n then Some c.2 else local_ref l m)).
  { intros m. destruct (L1 m) as (_ & _ & E1 & F1), (L2 m) as (_ & _ & E2 & F2). by rewrite E2, E1, F2, F1. }
  split.
  - intros i Hi. destruct (decide (i = n)) as [->|]; [|by apply Hlow; lia].
    destruct (Hhigh (Z.of_nat n) ltac:(lia)) as [-> ->]. destruct (Hset (Z.of_nat n)) as [-> ->].
    by rewrite Z.eqb_refl, Hc.
  - intros i Hi. destruct (Hhigh i ltac:(lia)) as [-> ->]. destruct (Hset i) as [-> ->].
    by rewrite (proj2 (Z.eqb_neq _ _)) by lia.
Qed.

Lemma take_args_spec : forall st slots args rest, take_args st slots = Some (args, rest) ->
  st = rev args ++ rest /\ depth (rev args) = slots.
Proof.
  induction st as [|v st IH]; intros slots args rest H; destruct slots as [|n]; cbn [take_args] in H;
    try (injection H as <- <-; done); [done|].
  case_decide as Hd; [|done]. destruct (take_args st (S n - depth [v])) as [[args' rest']|] eqn:Ha; [|done].
  injection H as <- <-. destruct (IH _ _ _ Ha) as [-> Hdep]. rewrite rev_app_distr. simpl rev. split; [done|].
  change ([v] ++ rev args') with ([v] ++ rev args') in *. rewrite depth_app. lia.
Qed.

Lemma depth_width v : Z.of_nat (depth [v]) = width v.
Proof. by destruct v. Qed.

Lemma layout_holds l' a : forall args off rest,
  Z.of_nat a = Z.of_nat (depth (rev args)) + Z.of_nat off ->
  (forall i, (i < a)%nat -> local l' (Z.of_nat i) = fst <$> cells_of_stack (rev args ++ rest) !! (a - 1 - i)%nat /\
                       local_ref l' (Z.of_nat i) = snd <$> cells_of_stack (rev args ++ rest) !! (a - 1 - i)%nat) ->
  forall n v, layout (Z.of_nat off) args n = Some v -> v ∈ args /\ local_holds l' n v.
Proof.
  induction args as [|v args IH]; intros off rest Ha Hl n u Hu; simpl in Hu; [done|].
  simpl rev in *. rewrite depth_app in Ha. pose proof (depth_width v) as Hw.
  rewrite <- app_assoc in Hl. cbn [app] in Hl.
  destruct (Z.eqb_spec n (Z.of_nat off)) as [->|Hne].
  - injection Hu as <-. split; [by left|]. rewrite cells_app in Hl.
    assert (Hlen : length (cells_of_stack (rev args)) = depth (rev args)) by done.
    unfold cells_of_stack at 2 4 in Hl. cbn [flat_map] in Hl. unfold local_holds. unfold width in Hw.
    destruct (cat2 v) eqn:Hc.
    + apply cells_cat2 in Hc as (hi & lo & Hc). rewrite Hc in *.
      destruct (Hl off ltac:(lia)) as [-> ->]. replace (Z.of_nat off + 1) with (Z.of_nat (S off)) by lia.
      destruct (Hl (S off) ltac:(lia)) as [-> ->].
      rewrite (lookup_app_r _ _ (a - 1 - off)%nat), (lookup_app_r _ _ (a - 1 - S off)%nat) by lia. rewrite Hlen.
      replace (a - 1 - off - depth (rev args))%nat with 1%nat by lia.
      replace (a - 1 - S off - depth (rev args))%nat with 0%nat by lia. done.
    + apply cells_cat1 in Hc as (x & t & Hc). rewrite Hc in *.
      destruct (Hl off ltac:(lia)) as [-> ->]. rewrite !lookup_app_r by lia. rewrite Hlen.
      replace (a - 1 - off - depth (rev args))%nat with 0%nat by lia. done.
  - rewrite <- Hw, <- Nat2Z.inj_add in Hu.
    destruct (IH (off + depth [v])%nat (v :: rest) ltac:(lia) Hl n u Hu). split; [by right|done].
Qed.

(** The callee's frame represents its state at the call. *)
Lemma new_frame_rep alloc callee st args rest junk : (forall n, length (alloc n) = n) -> Forall val_ok st ->
  take_args st (num_arg_slots callee) = Some (args, rest) -> (num_arg_slots callee <= max_locals callee)%nat ->
  exists cf, new_frame alloc callee (canon (cells_of_stack st) junk) = Some cf /\
    frame_rep cf (JState 0 (layout 0 args) []) /\ sized (max_locals callee) (max_stack callee) cf.
Proof.
  intros Halloc Hok Ha Hmax. destruct (take_args_spec _ _ _ _ Ha) as [-> Hd]. unfold new_frame.
  set (l0 := Locals_init _).
  assert (Hl0 : locals_ok l0) by (unfold locals_ok, l0; simpl; by rewrite length_replicate).
  assert (Hv0 : varNum l0 = Z.of_nat (max_locals callee)) by (unfold varNum, l0; simpl; by rewrite Halloc).
  destruct (copy_args_spec (cells_of_stack (rev args ++ rest)) junk (num_arg_slots callee) (num_arg_slots callee) l0)
    as (l' & -> & Hok' & Hv' & Hl' & _); [done|lia| |lia|].
  { rewrite cells_app, length_app. unfold depth in Hd. lia. }
  cbn [mbind option_bind]. eexists. split; [done|]. split.
  - split; [split; [done|]|split; [done|split; [|done]]].
    + exists (alloc (max_stack callee)). done.
    + split; [done|]. intros n v Hn.
      destruct (layout_holds l' (num_arg_slots callee) args 0 rest ltac:(lia) Hl' n v Hn) as [Hin Hh].
      split; [|done]. apply Forall_app in Hok as [Hok _]. rewrite Forall_forall in Hok. apply Hok.
      rewrite <- in_rev. by apply list_elem_of_In.
  - split; [|simpl; lia]. unfold size. simpl. by rewrite Halloc.
Qed.

(** ** The end of a call *)

Definition untagged (c : cell) : cell := (c.1, FLAG_NONE).

Lemma clear_refs_canon junk rest : forall cs pre,
  clear_refs (canon (pre ++ cs ++ rest) junk) (Z.of_nat (length pre)) (length cs) =
  Some (canon (pre ++ (untagged <$> cs) ++ rest) junk).
Proof.
  induction cs as [|c cs IH]; intros pre; [done|]. cbn [clear_refs length].
  rewrite (set_ref_canon _ _ (length pre) c) by (rewrite lookup_app_r, Nat.sub_diag by lia; done).
  cbn [mbind option_bind]. rewrite insert_app_r_alt, Nat.sub_diag by lia. cbn [app insert list_insert].
  specialize (IH (pre ++ [untagged c])). rewrite length_app in IH. simpl length in IH.
  rewrite <- !app_assoc in IH. cbn [app] in IH. replace (Z.of_nat (length pre) + 1) with (Z.of_nat (length pre + 1)) by lia.
  exact IH.
Qed.

Lemma pop_untagged junk rest cs :
  pop (canon ((untagged <$> cs) ++ rest) junk) (Z.of_nat (length cs)) = Some (canon rest (reverse cs.*1 ++ junk)).
Proof.
  assert (E1 : (untagged <$> cs).*1 = cs.*1) by (rewrite <- list_fmap_compose; by apply list_fmap_ext).
  assert (E2 : reverse (untagged <$> cs).*2 = replicate (length cs) FLAG_NONE).
  { rewrite <- list_fmap_compose. clear. induction cs as [|c cs IH]; [done|].
    rewrite fmap_cons, reverse_cons, IH. simpl length. change (S (length cs)) with (1 + length cs)%nat.
    by rewrite Nat.add_comm, replicate_add. }
  unfold pop. cbn [index canon]. rewrite length_app, length_fmap. rewrite (proj2 (Z.leb_le _ _)) by lia.
  unfold canon. cbn [data refs index]. rewrite !fmap_app, !reverse_app, E1, E2, <- !app_assoc. do 2 f_equal; [|lia].
  f_equal. by rewrite length_app, length_reverse, length_fmap, replicate_add.
Qed.

Lemma popClearRef_canon junk rest cs :
  popClearRef (canon (cs ++ rest) junk) (Z.of_nat (length cs)) = Some (canon rest (reverse cs.*1 ++ junk)).
Proof.
  unfold popClearRef. simpl index. rewrite length_app, (proj2 (Z.leb_le _ _)) by lia.
  pose proof (clear_refs_canon junk rest cs []) as E. cbn [app length] in E. change (Z.of_nat 0) with 0 in E.
  rewrite Nat2Z.id, E. cbn [mbind option_bind]. apply pop_untagged.
Qed.

(** The first two elements. *)
Lemma set_pick0 c cells junk v : set_pick (canon (c :: cells) junk) 0 v = Some (canon ((v, c.2) :: cells) junk).
Proof. by apply (set_pick_canon (c :: cells) junk 0 c). Qed.
Lemma set_pick1 c d cells junk v : set_pick (canon (c :: d :: cells) junk) 1 v = Some (canon (c :: (v, d.2) :: cells) junk).
Proof. by apply (set_pick_canon (c :: d :: cells) junk 1 d). Qed.
Lemma set_ref0 c cells junk t : set_ref (canon (c :: cells) junk) 0 t = Some (canon ((c.1, t) :: cells) junk).
Proof. by apply (set_ref_canon (c :: cells) junk 0 c). Qed.

(** A value moves from one stack to the other. *)
Lemma push_word cells j junk v a (s : Stack) : cells_of v = [(a, FLAG_NONE)] -> pick s 0 = Some a ->
  (s' ← push (canon cells (j :: junk)) 1; v ← pick s 0; set_pick s' 0 v) = Some (canon (cells_of v ++ cells) junk).
Proof.
  intros Hv Hp. rewrite canon_push1. cbn [mbind option_bind]. rewrite Hp. cbn [mbind option_bind].
  by rewrite set_pick0, Hv.
Qed.

Lemma pick_rep f v vs k c : rep f (v :: vs) -> cells_of v !! k = Some c -> pick (stack f) (Z.of_nat k) = Some c.1.
Proof.
  intros [_ [junk ->]] Hk. apply pick_canon. unfold cells_of_stack. simpl flat_map. by apply lookup_app_l_Some.
Qed.

Lemma push_result_rep t op st v cells junk cf : returned op t st = Some v -> rep cf st ->
  (match v with Some v => depth [v] | None => 0 end <= length junk)%nat ->
  exists junk', push_result t (canon cells junk) (stack cf) =
      Some (canon (match v with Some v => cells_of v | None => [] end ++ cells) junk') /\
    (length junk' + match v with Some v => depth [v] | None => 0 end = length junk)%nat.
Proof.
  intros Hret Hrep Hroom.
  destruct v as [v|].
  - assert (exists vs, st = v :: vs) as [vs ->].
    { unfold returned in Hret. repeat case_match; try done; simplify_eq; by eexists. }
    assert (Hcases : (exists a, cells_of v = [(a, FLAG_NONE)] /\
        forall p s, push_result t p s = (p ← push p 1; v ← pick s 0; set_pick p 0 v)) \/
      (exists a, cells_of v = [(a, FLAG_OBJECT)] /\ forall p s, push_result t p s =
        (p ← push p 1; v ← pick s 0; p ← set_pick p 0 v; set_ref p 0 FLAG_OBJECT)) \/
      (exists hi lo, cells_of v = [(hi, FLAG_NONE); (lo, FLAG_NONE)] /\ forall p s, push_result t p s =
        (p ← push p 2; v ← pick s s0; p ← set_pick p s0 v; v ← pick s s1; set_pick p s1 v))).
    { unfold returned in Hret. repeat case_match; try done; simplify_eq;
        first [left; eexists; split; [reflexivity|done] | right; left; eexists; split; [reflexivity|done]
              | right; right; eexists _, _; split; [reflexivity|done]]. }
    unfold depth, cells_of_stack in *. simpl flat_map in *. rewrite app_nil_r in *.
    destruct Hcases as [(a & Hv & Hp)|[(a & Hv & Hp)|(hi & lo & Hv & Hp)]]; rewrite Hp; rewrite Hv in Hroom |- *;
      cbn [length] in *.
    + destruct junk as [|j junk]; cbn [length] in *; [lia|]. exists junk. split; [|lia].
      rewrite (push_word _ _ _ v a); [by rewrite Hv|done|].
      by apply (pick_rep cf v vs 0 (a, FLAG_NONE)); [|rewrite Hv].
    + destruct junk as [|j junk]; cbn [length] in *; [lia|]. exists junk. split; [|lia].
      rewrite canon_push1. cbn [mbind option_bind].
      assert (pick (stack cf) 0 = Some a) as -> by (apply (pick_rep cf v vs 0 (a, FLAG_OBJECT)); [done|by rewrite Hv]).
      cbn [mbind option_bind]. rewrite set_pick0. cbn [mbind option_bind snd]. by rewrite set_ref0.
    + destruct junk as [|j [|k junk]]; cbn [length] in *; try lia. exists junk. split; [|lia].
      change 2 with (1 + 1). rewrite <- push_add by lia. rewrite canon_push1. cbn [mbind option_bind].
      rewrite canon_push1. cbn [mbind option_bind]. unfold s0, s1.
      assert (pick (stack cf) 1 = Some lo) as -> by (apply (pick_rep cf v vs 1 (lo, FLAG_NONE)); [done|by rewrite Hv]).
      assert (pick (stack cf) 0 = Some hi) as -> by (apply (pick_rep cf v vs 0 (hi, FLAG_NONE)); [done|by rewrite Hv]).
      cbn [mbind option_bind]. rewrite set_pick1. cbn [mbind option_bind snd]. by rewrite set_pick0.
  - exists junk. split; [|lia]. unfold returned in Hret. repeat case_match; done.
Qed.

Lemma popped cells args rest junk a : cells = cells_of_stack (rev args ++ rest) -> depth (rev args) = a ->
  popClearRef (canon cells junk) (Z.of_nat a) =
    Some (canon (cells_of_stack rest) (reverse (cells_of_stack (rev args)).*1 ++ junk)).
Proof. intros -> <-. rewrite cells_app. apply popClearRef_canon. Qed.

(** The caller after the call, with the result or with the exception. *)
Lemma finish_call_rep callee f s cf args rest nl ms : frame_rep f s -> sized nl ms f ->
  take_args (jstack s) (num_arg_slots callee) = Some (args, rest) ->
  match exn cf with
  | Some e => exists f', finish_call callee f cf = Some f' /\ exn f' = Some e /\ ip f' = ip f /\
      frame_rep (MkFrame (ip f') (stack f') (locals f') None) (JState (jpc s) (jvars s) rest) /\ sized nl ms f'
  | None => forall op st v, returned op (return_java_type callee) st = Some v -> rep cf st -> Forall val_ok st ->
      let st' := match v with Some v => v :: rest | None => rest end in (depth st' <= ms)%nat ->
      exists f', finish_call callee f cf = Some f' /\ exn f' = None /\ ip f' = ip f /\
        frame_rep f' (JState (jpc s) (jvars s) st') /\ sized nl ms f'
  end.
Proof.
  intros ((Hok & junk & Hs) & Hip & HL & Hx) [Hsz Hvn] Ha. destruct (take_args_spec _ _ _ _ Ha) as [Hst Hd].
  assert (Hrest : Forall val_ok rest) by (rewrite Hst in Hok; by apply Forall_app in Hok as [_ ?]).
  pose proof (popped (cells_of_stack (jstack s)) args rest junk _ (f_equal _ Hst) Hd) as Hpop. rewrite <- Hs in Hpop.
  unfold finish_call. rewrite Hpop. cbn [mbind option_bind].
  assert (Hsz' : (length (cells_of_stack rest) + length (reverse (cells_of_stack (rev args)).*1 ++ junk) = ms)%nat).
  { rewrite Hs, size_canon, Hst, cells_app, length_app in Hsz. rewrite length_app, length_reverse, length_fmap. lia. }
  set (junk1 := reverse _ ++ junk) in *.
  destruct (exn cf) as [e|].
  - eexists. split; [done|]. simpl. split; [done|]. split; [done|]. split.
    + split; [split; [done|by exists junk1]|done].
    + split; [|done]. simpl. rewrite size_canon. lia.
  - intros op st v Hret Hrep Hstok. cbv zeta. set (st' := match v with Some _ => _ | None => _ end). intros Hroom.
    destruct (push_result_rep _ op st v (cells_of_stack rest) junk1 cf Hret Hrep) as (junk2 & -> & Hj).
    { subst st'. destruct v as [v|]; [|lia]. change (v :: rest) with ([v] ++ rest) in Hroom. rewrite depth_app in Hroom.
      unfold depth in *. lia. }
    cbn [mbind option_bind]. eexists. split; [done|]. simpl. split; [done|]. split; [done|]. split.
    + split; [split|done].
      * subst st'. simpl. destruct v as [v|]; [|done]. constructor; [|done].
        assert (exists vs, st = v :: vs) as [vs ->] by (unfold returned in Hret; repeat case_match; try done; simplify_eq; by eexists).
        by apply Forall_cons_1 in Hstok as [? _].
      * exists junk2. simpl. f_equal. by destruct v.
    + split; [|done]. simpl. rewrite size_canon, length_app. destruct v as [v|]; [|simpl in *; lia].
      unfold depth, cells_of_stack in Hj. simpl flat_map in Hj. rewrite app_nil_r in Hj. unfold cells_of_stack in *. lia.
Qed.

(** ** Executions *)

Section exec.
Context (resolve : Z -> Method + string) (catches : string -> Z -> option bool) (exn_ref : string -> Z)
  (alloc : nat -> list Z) (shut : bool).

(** The bytecode of a method, as the class file format bounds it. *)
Definition method_ok (m : Method) : Prop :=
  Forall (is_u 8) (byte_code m) /\ Z.of_nat (length (byte_code m)) < 2 ^ 31.

Context (Hres : forall id m, resolve id = inl m -> method_ok m) (Halloc : forall n, length (alloc n) = n)
  (Href : forall e, is_u 32 (exn_ref e)).

(** What the interpreter does when the machine has the result. *)
Definition agrees (m : Method) (r : jres) (i : result) : Prop :=
  match r with
  | JReturn v => exists f op st, i = RDone f /\ exn f = None /\ rep f st /\ returned op (return_java_type m) st = Some v
  | JThrown e => exists f, i = RDone f /\ exn f = Some e
  | JFuel => i = RFuel
  | JUndef => True
  end.

Abbreviation run := (interpreter true resolve catches exn_ref alloc shut).
Abbreviation exec := (java_exec resolve catches exn_ref shut).
Abbreviation fits m := (sized (max_locals m) (max_stack m)).

(** Entering a handler, or leaving with the exception. *)
Lemma throw_agrees n m f s e :
  (forall m f s, method_ok m -> frame_rep f s -> fits m f -> agrees m (exec n m s) (run n m f)) ->
  method_ok m -> frame_rep f s -> fits m f ->
  agrees m
    (match java_handler catches shut m (jpc s) e with
     | Some h => if decide (1 <= max_stack m)%nat
         then exec n m (JState (handler_pc h) (jvars s) [VRef (exn_ref e)]) else JUndef
     | None => JThrown e
     end)
    (match processExceptionHandler catches shut m (MkFrame (ip f) (stack f) (locals f) (Some e)) e with
     | Some f' => match catch_exception exn_ref f' e with Some f' => run n m f' | None => RStuck end
     | None => RDone (MkFrame (ip f) (stack f) (locals f) (Some e))
     end).
Proof.
  intros IH Hm Hrep Hsz. unfold processExceptionHandler. rewrite handler_spec.
  pose proof Hrep as (_ & Hip & _). cbn [ip]. rewrite Hip.
  destruct (java_handler catches shut m (jpc s) e) as [h|]; cbn [mbind option_bind]; [|by eexists].
  case_decide; [|done]. cbn [stack locals exn].
  destruct (catch_rep exn_ref f s e (handler_pc h) _ _ Hrep Hsz ltac:(lia) (Href e)) as (f' & -> & Hrep' & Hsz').
  by apply IH.
Qed.

(** After an opcode: the next state, or the exception. *)
Lemma check_agrees n m f o f' :
  (forall m f s, method_ok m -> frame_rep f s -> fits m f -> agrees m (exec n m s) (run n m f)) ->
  method_ok m -> fits m f -> post f o f' -> fits m f' -> forall s, frame_rep f s ->
  agrees m
    (match o with
     | JNext s' => exec n m s'
     | JThrow e =>
         match java_handler catches shut m (jpc s) e with
         | Some h => if decide (1 <= max_stack m)%nat
             then exec n m (JState (handler_pc h) (jvars s) [VRef (exn_ref e)]) else JUndef
         | None => JThrown e
         end
     end)
    (match exn f' with
     | None => run n m f'
     | Some e =>
         match processExceptionHandler catches shut m f' e with
         | Some f' => match catch_exception exn_ref f' e with Some f' => run n m f' | None => RStuck end
         | None => RDone f'
         end
     end).
Proof.
  intros IH Hm Hsz Hpost Hsz' s Hrep. destruct o as [s'|e]; simpl in Hpost.
  - pose proof Hpost as (_ & _ & _ & ->). by apply IH.
  - rewrite Hpost. cbn [exn]. by apply throw_agrees.
Qed.

Lemma exec_agrees : forall n m f s, method_ok m -> frame_rep f s -> fits m f -> agrees m (exec n m s) (run n m f).
Proof.
  induction n as [|n IH]; intros m f s Hm Hrep Hsz; [done|]. cbn [java_exec interpreter].
  pose proof Hrep as ([Hok [junk Hs]] & Hip & HL & Hx). rewrite Hip.
  destruct (byte (byte_code m) (jpc s)) as [op|] eqn:Hop; [|done]. unfold OPCODE_IRETURN, OPCODE_RETURN, OPCODE_INVOKESTATIC.
  destruct ((172 <=? op) && (op <=? 177)) eqn:Hret.
  { destruct (returned op (return_java_type m) (jstack s)) as [v|] eqn:Hv; [|done].
    exists f, op, (jstack s). split; [done|]. split; [done|]. split; [by split; [|eexists]|done]. }
  destruct (Z.eqb_spec op 184) as [->|].
  - destruct (read_uint16 (byte_code m) (jpc s + 1)) as [id|]; [|done].
    destruct (resolve id) as [callee|e] eqn:Hr; [|pose proof (throw_agrees n m f s e IH Hm Hrep Hsz) as H; by rewrite Hip in H].
    destruct (take_args (jstack s) (num_arg_slots callee)) as [[args rest]|] eqn:Ha; [|done].
    case_decide as Hmax; [|done].
    destruct (new_frame_rep alloc callee (jstack s) args rest junk Halloc Hok Ha Hmax) as (cf & Hcf & Hcrep & Hcsz).
    rewrite Hs, Hcf. pose proof (IH callee cf _ (Hres _ _ Hr) Hcrep Hcsz) as Hcall.
    destruct (exec n callee (JState 0 (layout 0 args) [])) as [v|e| |]; [| | |done].
    + destruct Hcall as (cf' & op & st & -> & Hcx & Hst & Hv).
      pose proof (finish_call_rep callee f s cf' args rest _ _ Hrep Hsz Ha) as Hfin. rewrite Hcx in Hfin.
      case_decide as Hroom; [|done].
      destruct (Hfin op st v Hv Hst (proj1 Hst) Hroom) as (f' & -> & Hfx & Hfi & Hfr & Hfs). rewrite Hfx.
      apply IH; [done| |done]. destruct Hfr as (? & Hp & HL' & _). split; [done|]. split; [simpl in *; lia|done].
    + destruct Hcall as (cf' & -> & Hcx).
      pose proof (finish_call_rep callee f s cf' args rest _ _ Hrep Hsz Ha) as Hfin. rewrite Hcx in Hfin.
      destruct Hfin as (f' & -> & Hfx & Hfi & Hfr & Hfs). rewrite Hfx.
      pose proof (throw_agrees n m (MkFrame (ip f') (stack f') (locals f') None) _ e IH Hm Hfr Hfs) as H. simpl in H.
      destruct f' as [i' s' l' x']. simpl in *. by rewrite Hfx.
    + by rewrite Hcall.
  - destruct Hm as [Hcode Hlen] eqn:Hmeq. clear Hmeq.
    destruct (java_step (byte_code m) (max_locals m) (max_stack m) s) as [o|] eqn:Hstep; [|done].
    destruct (step_sound _ _ _ f s o Hcode Hlen Hrep Hsz Hstep) as (op' & mm & Hop' & Hmm & Hw).
    rewrite Hip, Hop in Hop'. injection Hop' as <-. rewrite Hmm. unfold owp in Hw.
    destruct (mm f) as [[f' []]|]; [|done]. destruct Hw as [Hpost Hsz'].
    pose proof (check_agrees n m f o f' IH Hm Hsz Hpost Hsz' s Hrep) as H. by destruct o.
Qed.
End exec.

(** C1: the interpreter runs methods as the Java machine does.  If a frame represents
    a state, the loop with the same fuel ends as the machine's execution from the
    state: with the value the machine returns on top of the stack, with the
    exception it leaves with, or with no fuel left.  Executions include nested
    static calls, their arguments and results of every type, exceptions thrown by
    division or resolution, their handlers, and exceptions that leave callees. *)
Theorem interpreter_refines resolve catches exn_ref alloc shut :
  (forall id m, resolve id = inl m -> method_ok m) -> (forall n, length (alloc n) = n) ->
  (forall e, is_u 32 (exn_ref e)) -> forall fuel m f s, method_ok m -> frame_rep f s ->
  sized (max_locals m) (max_stack m) f ->
  agrees m (java_exec resolve catches exn_ref shut fuel m s) (interpreter true resolve catches exn_ref alloc shut fuel m f).
Proof. intros Hres Halloc Href fuel m f s. by apply exec_agrees. Qed.

(** [try { return div(5, 0); } catch (ArithmeticException e) { return -1; }] *)
Definition method_div : Method := MkMethod [0x1a; 0x1b; 0x6c; 0xac] [] 2 2 2 JAVA_TYPE_INT.
Definition method_try : Method :=
  MkMethod [8; 3; 0xb8; 0; 0; 0xac; 0x57; 2; 0xac] [MkHandler 0 5 6 7] 2 0 0 JAVA_TYPE_INT.
Definition catch_arithmetic (e : string) (i : Z) : option bool := Some (bool_decide (e = ArithmeticException)).
Definition frame_try : StackFrame := MkFrame 0 (Stack_init [1; 2]) (Locals_init []) None.
Definition resolve_div (id : Z) : Method + string := inl method_div.

Lemma interpreter_refines_witness :
  java_exec resolve_div catch_arithmetic (fun _ => 64) false 20 method_try (JState 0 (fun _ => None) []) = JReturn (Some (VInt (-1))) /\
  agrees method_try (java_exec resolve_div catch_arithmetic (fun _ => 64) false 20 method_try (JState 0 (fun _ => None) []))
    (interpreter true resolve_div catch_arithmetic (fun _ => 64) (fun n => replicate n 9) false 20 method_try frame_try).
Proof.
  split; [vm_compute; reflexivity|].
  apply (interpreter_refines resolve_div catch_arithmetic (fun _ => 64) (fun n => replicate n 9) false).
  - intros id m [= <-]. split; [repeat constructor; done|reflexivity].
  - intros n. apply length_replicate.
  - intros e. split; [discriminate|reflexivity].
  - split; [repeat constructor; done|reflexivity].
  - split; [split; [constructor|by exists [1; 2]]|]. split; [reflexivity|]. split; [|reflexivity].
    split; [reflexivity|]. intros n v Hn. discriminate Hn.
  - split; reflexivity.
Defined.

(** ** Fuel *)

Section fuel.
Context (EM64T : bool) (resolve : Z -> Method + string) (catches : string -> Z -> option bool) (exn_ref : string -> Z)
  (alloc : nat -> list Z) (shut : bool).
Abbreviation run := (interpreter EM64T resolve catches exn_ref alloc shut).

(** the fuel does not decide what the interpreter does: once an execution ends,
    with a result or a failed assertion, every larger amount of fuel gives the same
    end. *)
Theorem interpreter_fuel n k m f : interpreter EM64T resolve catches exn_ref alloc shut n m f <> RFuel ->
  interpreter EM64T resolve catches exn_ref alloc shut (n + k) m f =
  interpreter EM64T resolve catches exn_ref alloc shut n m f.
Proof.
  revert m f. induction n as [|n IH]; intros m f Hn; [done|]. simpl Nat.add. cbn [interpreter] in *.
  assert (Hcheck : forall g, let check r := match exn g with
      | None => r m g
      | Some e => match processExceptionHandler catches shut m g e with
         | Some f' => match catch_exception exn_ref f' e with Some f' => r m f' | None => RStuck end
         | None => RDone g end end in
    check (run n) <> RFuel -> check (run (n + k)%nat) = check (run n)).
  { intros g. cbv zeta. repeat case_match; try done; apply IH. }
  cbv zeta in Hcheck. destruct (byte (byte_code m) (ip f)) as [op|]; [|done]. destruct (_ && _); [done|].
  destruct (op =? OPCODE_INVOKESTATIC).
  - destruct (read_uint16 _ _) as [id|]; [|done]. destruct (resolve id) as [callee|e]; [|by apply Hcheck].
    destruct (new_frame alloc callee (stack f)) as [cf|]; [|done].
    assert (run n callee cf <> RFuel) by (intros E; by rewrite E in Hn). rewrite IH by done.
    destruct (run n callee cf) as [cf'| |]; try done. destruct (finish_call callee f cf') as [f'|]; [|done].
    destruct (exn f') eqn:Hx; [|by apply IH]. specialize (Hcheck f'). rewrite Hx in Hcheck. by apply Hcheck.
  - destruct (dispatch _ _ _) as [opcode|]; [|done]. destruct (opcode f) as [[f' []]|]; [|done]. by apply Hcheck.
Qed.
End fuel.

Lemma interpreter_fuel_witness :
  interpreter true resolve_div catch_arithmetic (fun _ => 64) (fun n => replicate n 9) false (12 + 1000) method_try frame_try =
  interpreter true resolve_div catch_arithmetic (fun _ => 64) (fun n => replicate n 9) false 12 method_try frame_try.
Proof. apply interpreter_fuel. vm_compute. discriminate. Defined.
