(* ===== verification/LockWord.v ===== *)
(** * The lock word: [thread/src/thread_native_thin_monitor.c]

    The 32-bit word of an object that holds a thin lock (owner, recursion,
    reservation bit, hash code) or the number of a fat lock.  The macros of the
    file are definitions on words; [thin] and [fat] build words from fields, and
    every operation is characterised on them. *)
From S2P Require Import Prelude.

Definition THREAD_ID (lockword : Z) : Z := Z.shiftr lockword 16.
Definition IS_FAT_LOCK (lockword : Z) : bool := negb (Z.shiftr lockword 31 =? 0).
Definition HY_FAT_LOCK_ID_OFFSET : Z := 11.
Definition HY_FAT_LOCK_ID_MASK : Z := 0xFFFFF.
Definition FAT_LOCK_ID (lockword : Z) : Z := Z.land (Z.shiftr lockword HY_FAT_LOCK_ID_OFFSET) HY_FAT_LOCK_ID_MASK.
Definition RESERVED_BITMASK : Z := Z.shiftl 1 10.
Definition IS_RESERVED (lockword : Z) : bool := 0 =? Z.land lockword RESERVED_BITMASK.
Definition RECURSION (lockword : Z) : Z := Z.land (Z.shiftr lockword 11) 31.
Definition RECURSION_INC (lockword : Z) : Z := ux 32 (lockword + Z.shiftl 1 11).
Definition RECURSION_DEC (lockword : Z) : Z := ux 32 (lockword - Z.shiftl 1 11).
Definition MAX_RECURSION : Z := 31.

(** [hythread_owns_thin_lock]; [None] is the failed assertion. *)
Definition hythread_owns_thin_lock (this_id lockword : Z) : option bool :=
  if IS_FAT_LOCK lockword then None
  else Some ((THREAD_ID lockword =? this_id) && (negb (IS_RESERVED lockword) || negb (RECURSION lockword =? 0))).

(** [set_fat_lock_id] and [get_fat_lock_id], for a table of [size] entries. *)
Definition set_fat_lock_id (size lockword monitor_id : Z) : option Z :=
  if IS_RESERVED lockword then None
  else if ux 32 monitor_id <? size then
    Some (ux 32 (Z.lor (Z.land lockword 0x7FF) (Z.lor (Z.shiftl monitor_id 11) 0x80000000)))
  else None.
Definition get_fat_lock_id (size lockword : Z) : option Z :=
  if Z.land lockword 0x80000000 =? 0 then None
  else
    let id := Z.shiftr (Z.land lockword 0x7fFFffFF) 11 in
    if id <? size then Some id else None.

(** [hythread_thin_monitor_create]: everything but the hash code is cleared. *)
Definition hythread_thin_monitor_create (lockword : Z) : Z := Z.land lockword 0x3FF.

(** ** Words from fields *)

Definition thin (tid rec : Z) (unres : bool) (hash : Z) : Z :=
  tid * 2 ^ 16 + rec * 2 ^ 11 + Z.b2z unres * 2 ^ 10 + hash.
Definition fat (id low : Z) : Z := 2 ^ 31 + id * 2 ^ 11 + low.

Definition thin_ok (tid rec hash : Z) : Prop := 0 <= tid < 2 ^ 15 /\ 0 <= rec < 32 /\ 0 <= hash < 2 ^ 10.
Definition fat_ok (id low : Z) : Prop := 0 <= id < 2 ^ 20 /\ 0 <= low < 2 ^ 11.

Lemma land_bit a k : 0 <= k -> Z.land a (2 ^ k) = (a / 2 ^ k) mod 2 * 2 ^ k.
Proof.
  intros Hk. apply Z.bits_inj'. intros i Hi. rewrite Z.land_spec, Z.pow2_bits_eqb by done.
  rewrite <- Z.shiftr_div_pow2, <- Z.bit0_mod by done. rewrite Z.shiftr_spec, Z.add_0_l by done.
  rewrite <- Z.shiftl_mul_pow2, Z.shiftl_spec by done.
  destruct (Z.eqb_spec k i) as [->|Hne].
  - rewrite Z.sub_diag, andb_true_r. by destruct (Z.testbit a i).
  - rewrite andb_false_r. destruct (decide (k < i)).
    + symmetry. apply (testbit_high 1); [destruct (Z.testbit a k); simpl; lia|lia].
    + by rewrite Z.testbit_neg_r by lia.
Qed.

Lemma lor_bit a k : 0 <= k -> Z.lor a (2 ^ k) = a + 2 ^ k - (a / 2 ^ k) mod 2 * 2 ^ k.
Proof. intros Hk. rewrite <- land_bit by done. pose proof (Z.add_lor_land a (2 ^ k)). lia. Qed.

(** Low bits beside a multiple of a power of two. *)
Lemma lor_low a b k : 0 <= k -> 0 <= a < 2 ^ k -> Z.lor a (b * 2 ^ k) = a + b * 2 ^ k.
Proof.
  intros Hk Ha. assert (Z.land a (b * 2 ^ k) = 0) as H; [|pose proof (Z.add_lor_land a (b * 2 ^ k)); lia].
  apply Z.bits_inj'. intros i Hi. rewrite Z.land_spec, Z.testbit_0_l, <- Z.shiftl_mul_pow2, Z.shiftl_spec by done.
  destruct (decide (i < k)); [by rewrite (Z.testbit_neg_r b), andb_false_r by lia|].
  by rewrite (testbit_high k) by lia.
Qed.

Lemma land_ones a k : 0 <= k -> Z.land a (2 ^ k - 1) = a mod 2 ^ k.
Proof. intros. rewrite <- Z.land_ones by done. f_equal. rewrite Z.ones_equiv. lia. Qed.

Ltac word_bounds :=
  unfold thin_ok, fat_ok, is_u in *; change (2 ^ 15) with 32768 in *; change (2 ^ 10) with 1024 in *;
  change (2 ^ 20) with 1048576 in *; change (2 ^ 11) with 2048 in *; change (2 ^ 16) with 65536 in *;
  change (2 ^ 31) with 2147483648 in *; change (2 ^ 32) with 4294967296 in *; change (2 ^ 21) with 2097152 in *.

(** Every lock word has one of the two forms. *)
Lemma lockword_cases w : is_u 32 w ->
  (exists tid rec unres hash, w = thin tid rec unres hash /\ thin_ok tid rec hash) \/
  (exists id low, w = fat id low /\ fat_ok id low).
Proof.
  intros Hw. destruct (decide (w < 2 ^ 31)) as [Ht|Hf].
  - left. exists (w / 2 ^ 16), (w / 2 ^ 11 mod 32), (negb (w / 2 ^ 10 mod 2 =? 0)), (w mod 2 ^ 10).
    unfold thin. word_bounds. destruct (Z.eqb_spec (w / 1024 mod 2) 0); simpl; Z.to_euclidean_division_equations; lia.
  - right. exists ((w - 2 ^ 31) / 2 ^ 11), (w mod 2 ^ 11). unfold fat. word_bounds. Z.to_euclidean_division_equations; lia.
Qed.

Section thin.
Context (tid rec : Z) (unres : bool) (hash : Z) (Hok : thin_ok tid rec hash).
Abbreviation w := (thin tid rec unres hash).

Lemma thin_is_u : is_u 32 w.
Proof. unfold thin. word_bounds. destruct unres; simpl; lia. Qed.

Lemma thin_THREAD_ID : THREAD_ID w = tid.
Proof.
  unfold THREAD_ID, thin. rewrite Z.shiftr_div_pow2 by lia. symmetry. word_bounds.
  apply (Z.div_unique_pos _ _ _ (rec * 2048 + Z.b2z unres * 1024 + hash)); destruct unres; simpl; lia.
Qed.

Lemma thin_IS_FAT_LOCK : IS_FAT_LOCK w = false.
Proof.
  unfold IS_FAT_LOCK. rewrite Z.shiftr_div_pow2 by lia. rewrite Z.div_small; [done|].
  unfold thin. word_bounds. destruct unres; simpl; lia.
Qed.

Lemma thin_IS_RESERVED : IS_RESERVED w = negb unres.
Proof.
  unfold IS_RESERVED, RESERVED_BITMASK. rewrite Z.shiftl_1_l, land_bit by lia.
  assert (w / 2 ^ 10 = tid * 64 + rec * 2 + Z.b2z unres) as ->.
  { symmetry. unfold thin. word_bounds. apply (Z.div_unique_pos _ _ _ hash); lia. }
  replace (tid * 64 + rec * 2 + Z.b2z unres) with (Z.b2z unres + (tid * 32 + rec) * 2) by lia.
  rewrite Z.mod_add by lia. by destruct unres.
Qed.

Lemma thin_RECURSION : RECURSION w = rec.
Proof.
  unfold RECURSION. change 31 with (2 ^ 5 - 1). rewrite land_ones, Z.shiftr_div_pow2 by lia.
  assert (w / 2 ^ 11 = tid * 32 + rec) as ->.
  { symmetry. unfold thin. word_bounds. apply (Z.div_unique_pos _ _ _ (Z.b2z unres * 1024 + hash)); destruct unres; simpl; lia. }
  change (2 ^ 5) with 32. rewrite Z.add_comm, Z.mod_add by lia. apply Z.mod_small. word_bounds. lia.
Qed.

Lemma thin_RECURSION_INC : rec < 31 -> RECURSION_INC w = thin tid (rec + 1) unres hash.
Proof.
  intros Hr. unfold RECURSION_INC. rewrite Z.shiftl_1_l, ux_id.
  - unfold thin. lia.
  - unfold thin. word_bounds. destruct unres; simpl; lia.
Qed.

Lemma thin_RECURSION_DEC : 0 < rec -> RECURSION_DEC w = thin tid (rec - 1) unres hash.
Proof.
  intros Hr. unfold RECURSION_DEC. rewrite Z.shiftl_1_l, ux_id.
  - unfold thin. lia.
  - unfold thin. word_bounds. destruct unres; simpl; lia.
Qed.

(** Clearing the owner and the reservation. *)
Lemma thin_low : Z.land w 0xffff = thin 0 rec unres hash.
Proof.
  change 0xffff with (2 ^ 16 - 1). rewrite land_ones by lia. symmetry. unfold thin.
  apply (Z.mod_unique_pos _ _ tid); word_bounds; destruct unres; simpl; lia.
Qed.

Lemma thin_unreserve : Z.lor w RESERVED_BITMASK = thin tid rec true hash.
Proof.
  unfold RESERVED_BITMASK. rewrite Z.shiftl_1_l, lor_bit by lia.
  assert (w / 2 ^ 10 = tid * 64 + rec * 2 + Z.b2z unres) as ->.
  { symmetry. unfold thin. word_bounds. apply (Z.div_unique_pos _ _ _ hash); lia. }
  replace (tid * 64 + rec * 2 + Z.b2z unres) with (Z.b2z unres + (tid * 32 + rec) * 2) by lia.
  rewrite Z.mod_add by lia. unfold thin. destruct unres; cbn [Z.b2z]; [change (1 mod 2) with 1|change (0 mod 2) with 0]; lia.
Qed.

Lemma thin_owns this_id : hythread_owns_thin_lock this_id w =
  Some ((tid =? this_id) && (unres || negb (rec =? 0))).
Proof.
  unfold hythread_owns_thin_lock. rewrite thin_IS_FAT_LOCK, thin_THREAD_ID, thin_IS_RESERVED, thin_RECURSION.
  by rewrite negb_involutive.
Qed.

Lemma thin_create : hythread_thin_monitor_create w = thin 0 0 false hash.
Proof.
  unfold hythread_thin_monitor_create. change 0x3FF with (2 ^ 10 - 1). rewrite land_ones by lia. symmetry. unfold thin.
  apply (Z.mod_unique_pos _ _ (tid * 64 + rec * 2 + Z.b2z unres)); word_bounds; simpl; lia.
Qed.

Lemma thin_set_fat size id : 0 <= id < 2 ^ 20 -> id < size -> unres = true ->
  set_fat_lock_id size w id = Some (fat id (2 ^ 10 + hash)).
Proof.
  intros Hid Hsize Hu. unfold set_fat_lock_id. rewrite thin_IS_RESERVED. replace (negb unres) with false by (by rewrite Hu).
  rewrite ux_id by (word_bounds; lia). rewrite (proj2 (Z.ltb_lt _ _)) by done. f_equal.
  change 0x7FF with (2 ^ 11 - 1). rewrite land_ones by lia.
  assert (Hlow : w mod 2 ^ 11 = 2 ^ 10 + hash).
  { symmetry. unfold thin. apply (Z.mod_unique_pos _ _ (tid * 32 + rec)); word_bounds; rewrite ?Hu; simpl; lia. }
  rewrite Hlow, Z.shiftl_mul_pow2 by lia. change 0x80000000 with (2 ^ 20 * 2 ^ 11).
  rewrite <- !Z.shiftl_mul_pow2, <- Z.shiftl_lor, !Z.shiftl_mul_pow2 by lia.
  replace (2 ^ 20) with (1 * 2 ^ 20) by lia. rewrite lor_low by (word_bounds; lia). rewrite lor_low by (word_bounds; lia).
  rewrite ux_id by (word_bounds; lia). unfold fat. word_bounds. lia.
Qed.
End thin.

Section fat.
Context (id low : Z) (Hok : fat_ok id low).

Lemma fat_is_u : is_u 32 (fat id low).
Proof. unfold fat. word_bounds. lia. Qed.
Lemma fat_IS_FAT_LOCK : IS_FAT_LOCK (fat id low) = true.
Proof.
  unfold IS_FAT_LOCK. rewrite Z.shiftr_div_pow2 by lia.
  assert (fat id low / 2 ^ 31 = 1) as ->; [|done].
  symmetry. unfold fat. apply (Z.div_unique_pos _ _ _ (id * 2048 + low)); word_bounds; lia.
Qed.
Lemma fat_THREAD_ID : 2 ^ 15 <= THREAD_ID (fat id low).
Proof.
  unfold THREAD_ID. rewrite Z.shiftr_div_pow2 by lia. apply Z.div_le_lower_bound; [lia|]. unfold fat. word_bounds. lia.
Qed.
Lemma fat_FAT_LOCK_ID : FAT_LOCK_ID (fat id low) = id.
Proof.
  unfold FAT_LOCK_ID, HY_FAT_LOCK_ID_OFFSET, HY_FAT_LOCK_ID_MASK. change 0xFFFFF with (2 ^ 20 - 1).
  rewrite land_ones, Z.shiftr_div_pow2 by lia.
  assert (fat id low / 2 ^ 11 = id + 1 * 2 ^ 20) as ->.
  { symmetry. unfold fat. apply (Z.div_unique_pos _ _ _ low); word_bounds; lia. }
  rewrite Z.mod_add by lia. apply Z.mod_small. word_bounds. lia.
Qed.
Lemma fat_get size : id < size -> get_fat_lock_id size (fat id low) = Some id.
Proof.
  intros Hs. unfold get_fat_lock_id. change 0x80000000 with (2 ^ 31). rewrite land_bit by lia.
  assert (fat id low / 2 ^ 31 = 1) as ->.
  { symmetry. unfold fat. apply (Z.div_unique_pos _ _ _ (id * 2048 + low)); word_bounds; lia. }
  cbn [Z.eqb]. change 0x7fFFffFF with (2 ^ 31 - 1). rewrite land_ones, Z.shiftr_div_pow2 by lia.
  assert (fat id low mod 2 ^ 31 / 2 ^ 11 = id) as ->.
  { assert (fat id low mod 2 ^ 31 = id * 2048 + low) as ->.
    { symmetry. unfold fat. apply (Z.mod_unique_pos _ _ 1); word_bounds; lia. }
    symmetry. apply (Z.div_unique_pos _ _ _ low); word_bounds; lia. }
  simpl. by rewrite (proj2 (Z.ltb_lt _ _)) by done.
Qed.
End fat.
