(* ===== verification/Threads.v ===== *)
(** * Threads of a transition system

    A system of threads is a finite map from thread numbers to what each thread is
    doing; invariants count the threads in a given situation. *)
From stdpp Require Import gmap.
From S2P Require Import Prelude.

Section count.
Context {A : Type}.
Implicit Types (P : A -> bool) (ts : gmap Z A).

(** How many threads are as [P] says. *)
Definition count P ts : Z := Z.of_nat (base.size (filter (fun p : Z * A => P p.2 = true) ts)).

Lemma count_nonneg P ts : 0 <= count P ts.
Proof. unfold count. lia. Qed.

Lemma count_empty P : count P ∅ = 0.
Proof. done. Qed.

Lemma count_pos P ts t s : ts !! t = Some s -> P s = true -> 1 <= count P ts.
Proof.
  intros Hs HP. unfold count. assert (base.size (filter (fun p : Z * A => P p.2 = true) ts) <> 0%nat); [|lia].
  intros Hz. apply map_size_empty_inv in Hz.
  assert (filter (fun p : Z * A => P p.2 = true) ts !! t = Some s) as Hf by (by apply map_lookup_filter_Some).
  by rewrite Hz, lookup_empty in Hf.
Qed.

(** A thread that changes its state is counted out and in. *)
Lemma count_insert P ts t s s' : ts !! t = Some s ->
  count P (<[t := s']> ts) = count P ts - Z.b2z (P s) + Z.b2z (P s').
Proof.
  intros Hs. pose proof (count_pos P ts t s Hs) as Hpos. unfold count in *.
  set (Q := fun p : Z * A => P p.2 = true) in *.
  assert (Hold : filter Q ts !! t = if P s then Some s else None).
  { destruct (P s) eqn:E; [by apply map_lookup_filter_Some|].
    apply map_lookup_filter_None_2. right. intros x Hx. unfold Q. simpl. rewrite Hs in Hx. injection Hx as <-. by rewrite E. }
  destruct (P s') eqn:E'.
  - rewrite map_filter_insert_True by (unfold Q; done). rewrite map_size_insert, Hold. destruct (P s); simpl; lia.
  - rewrite map_filter_insert_False by (unfold Q; simpl; congruence). rewrite map_filter_delete, map_size_delete, Hold.
    destruct (P s) eqn:E; simpl; [specialize (Hpos eq_refl)|]; lia.
Qed.

(** Two threads counted at most once are the same. *)
Lemma count_unique P ts t u a b : ts !! t = Some a -> ts !! u = Some b -> P a = true -> P b = true ->
  count P ts <= 1 -> t = u.
Proof.
  intros Ha Hb HPa HPb Hc. unfold count in Hc. destruct (decide (t = u)) as [|Hne]; [done|exfalso].
  set (Q := fun p : Z * A => P p.2 = true) in *.
  assert (Hfa : filter Q ts !! t = Some a) by (by apply map_lookup_filter_Some).
  assert (Hfb : filter Q ts !! u = Some b) by (by apply map_lookup_filter_Some).
  pose proof (map_size_delete t (filter Q ts)) as Hd. rewrite Hfa in Hd. simpl in Hd.
  assert (base.size (delete t (filter Q ts)) <> 0%nat); [|lia].
  intros Hz. apply map_size_empty_inv in Hz.
  assert (delete t (filter Q ts) !! u = Some b) as H' by (by rewrite lookup_delete_ne).
  by rewrite Hz, lookup_empty in H'.
Qed.

(** Threads that all start in the same state. *)
Lemma count_gset P (ids : gset Z) a : P a = false -> count P (gset_to_gmap a ids) = 0.
Proof.
  intros Ha. unfold count. rewrite (proj2 (map_empty_filter _ _)); [done|].
  intros t x Hx. apply lookup_gset_to_gmap_Some in Hx as [_ <-]. simpl. by rewrite Ha.
Qed.

Lemma count_none P ts t s : count P ts = 0 -> ts !! t = Some s -> P s = false.
Proof. intros Hc Hs. destruct (P s) eqn:E; [|done]. pose proof (count_pos P ts t s Hs E). lia. Qed.
End count.

(** Sums over the threads. *)
Section total.
Context {A : Type}.
Implicit Types (f : Z -> A -> Z) (ts : gmap Z A).

Definition total f ts : Z := map_fold (fun t a z => f t a + z) 0 ts.

Lemma total_delete f ts t a : ts !! t = Some a -> total f ts = f t a + total f (delete t ts).
Proof. intros H. unfold total. apply (map_fold_delete_L (fun t a z => f t a + z)); [intros; lia|done]. Qed.

(** A thread that changes its state is taken out of the sum and put back. *)
Lemma total_insert f ts t a b : ts !! t = Some a -> total f (<[t := b]> ts) = total f ts - f t a + f t b.
Proof.
  intros H. rewrite (total_delete f ts t a H), (total_delete f (<[t := b]> ts) t b) by apply lookup_insert_eq.
  rewrite delete_insert_eq. lia.
Qed.

Lemma total_nonneg f ts : (forall t a, ts !! t = Some a -> 0 <= f t a) -> 0 <= total f ts.
Proof.
  unfold total. induction ts as [|t a ts Hts Hf IH] using map_first_key_ind; intros H; [done|].
  rewrite map_fold_insert_first_key by done.
  pose proof (H t a (lookup_insert_eq _ _ _)). enough (0 <= map_fold (fun t a z => f t a + z) 0 ts) by lia.
  apply IH. intros u b Hu. apply H. rewrite lookup_insert_ne; [done|]. congruence.
Qed.

Lemma total_mono f g ts : (forall t a, ts !! t = Some a -> f t a <= g t a) -> total f ts <= total g ts.
Proof.
  unfold total. induction ts as [|t a ts Hts Hf IH] using map_first_key_ind; intros H; [done|].
  rewrite !map_fold_insert_first_key by done. pose proof (H t a (lookup_insert_eq _ _ _)).
  enough (map_fold (fun t a z => f t a + z) 0 ts <= map_fold (fun t a z => g t a + z) 0 ts) by lia.
  apply IH. intros u b Hu. apply H. rewrite lookup_insert_ne; [done|]. congruence.
Qed.

(** One thread counts for no more than all of them, when none counts negatively. *)
Lemma total_le f ts t a : (forall u b, ts !! u = Some b -> 0 <= f u b) -> ts !! t = Some a -> f t a <= total f ts.
Proof.
  intros H Ht. rewrite (total_delete f ts t a Ht). enough (0 <= total f (delete t ts)) by lia.
  apply total_nonneg. intros u b Hu. apply lookup_delete_Some in Hu as [_ Hu]. by apply H.
Qed.

Lemma total_gset f (ids : gset Z) a : (forall t, f t a = 0) -> total f (gset_to_gmap a ids) = 0.
Proof.
  intros Ha. assert (0 <= total f (gset_to_gmap a ids) /\ 0 <= total (fun t b => - f t b) (gset_to_gmap a ids)) as [H1 H2].
  { split; apply total_nonneg; intros t b Hb; apply lookup_gset_to_gmap_Some in Hb as [_ <-]; rewrite Ha; lia. }
  enough (total (fun t b => - f t b) (gset_to_gmap a ids) = - total f (gset_to_gmap a ids)) by lia.
  clear. unfold total. generalize (gset_to_gmap a ids). intros m.
  induction m as [|t b m Hm Hf IH] using map_first_key_ind; [done|]. rewrite !map_fold_insert_first_key by done. lia.
Qed.

(** Some thread counts when the sum is not zero. *)
Lemma total_witness f ts : (forall u b, ts !! u = Some b -> 0 <= f u b) -> 0 < total f ts ->
  exists t a, ts !! t = Some a /\ 0 < f t a.
Proof.
  unfold total. induction ts as [|t a ts Hts Hf IH] using map_first_key_ind; intros H Hp; [done|].
  rewrite map_fold_insert_first_key in Hp by done.
  pose proof (H t a (lookup_insert_eq _ _ _)). destruct (Z.lt_ge_cases 0 (f t a)) as [Hlt|Hge].
  - exists t, a. by rewrite lookup_insert_eq.
  - destruct IH as (u & b & Hu & Hb); [|lia|].
    + intros u b Hu. apply H. rewrite lookup_insert_ne; [done|]. congruence.
    + exists u, b. split; [|done]. rewrite lookup_insert_ne; [done|]. congruence.
Qed.
End total.
