(* ===== verification/FatMonitor.v ===== *)
(** * Fat monitors: [thread/src/thread_native_fat_monitor.c]

    A monitor over an operating-system mutex and condition variable: owner and
    recursion count, the number of waiting threads and of notifications not yet
    consumed.  Every operation is a function of the calling thread and the monitor;
    a thread that blocks has no result until the mutex is free.  [monitor_wait_impl]
    is cut at its two blocking points.  The transition system of any number of
    threads has the invariant that the owner holds the mutex, that at most one
    thread is inside, and that notifications never outnumber waiting threads.

    Threads are their numbers, 0 is no thread. *)
From stdpp Require Import gmap.
From S2P Require Import Prelude Threads.

Inductive tm_status := TM_ERROR_NONE | TM_ERROR_ILLEGAL_STATE | TM_ERROR_EBUSY | TM_ERROR_OUT_OF_MEMORY | TM_ERROR_INTERRUPT
  | TM_ERROR_TIMEOUT.
#[export] Instance tm_status_eq_dec : EqDecision tm_status.
Proof. solve_decision. Defined.

(** The nested mutex: its holder and how often it is locked. *)
Record osmutex := Mutex { holder : Z; locks : Z }.

Record HyThreadMonitor := MkMonitor {
  mutex : osmutex;
  recursion_count : Z;
  owner : Z;
  wait_count : Z;
  notify_count : Z;
}.

(** [port_mutex_trylock] and [port_mutex_unlock]; [port_mutex_lock] blocks while
    the attempt fails. *)
Definition port_mutex_trylock (self : Z) (m : osmutex) : option osmutex :=
  if holder m =? 0 then Some (Mutex self 1)
  else if holder m =? self then Some (Mutex self (locks m + 1))
  else None.
Definition port_mutex_unlock (m : osmutex) : osmutex :=
  if locks m =? 1 then Mutex 0 0 else Mutex (holder m) (locks m - 1).

(** ** Operations *)

(** [hythread_monitor_init] *)
Definition hythread_monitor_init : HyThreadMonitor := MkMonitor (Mutex 0 0) 0 0 0 0.

Definition set_lock (m : HyThreadMonitor) (x : osmutex) (self : Z) : HyThreadMonitor :=
  MkMonitor x (recursion_count m) self (wait_count m) (notify_count m).
Definition set_recursion (m : HyThreadMonitor) (n : Z) : HyThreadMonitor :=
  MkMonitor (mutex m) n (owner m) (wait_count m) (notify_count m).
Definition set_counts (m : HyThreadMonitor) (w n : Z) : HyThreadMonitor :=
  MkMonitor (mutex m) (recursion_count m) (owner m) w n.

(** What an operation ends with: a status, a thread that blocks and leaves the
    monitor alone, or a failed assertion. *)
Inductive outcome := Done (m : HyThreadMonitor) (s : tm_status) | Blocked | Failed.

Definition hythread_monitor_enter (self : Z) (m : HyThreadMonitor) : outcome :=
  if negb (owner m =? self) then
    match port_mutex_trylock self (mutex m) with
    | Some x => Done (set_lock m x self) TM_ERROR_NONE
    | None => Blocked
    end
  else if recursion_count m <? 0 then Failed
  else Done (set_recursion m (recursion_count m + 1)) TM_ERROR_NONE.

Definition hythread_monitor_try_enter (self : Z) (m : HyThreadMonitor) : outcome :=
  if negb (owner m =? self) then
    match port_mutex_trylock self (mutex m) with
    | Some x => Done (set_lock m x self) TM_ERROR_NONE
    | None => Done m TM_ERROR_EBUSY
    end
  else if recursion_count m <? 0 then Failed
  else Done (set_recursion m (recursion_count m + 1)) TM_ERROR_NONE.

Definition hythread_monitor_exit (self : Z) (m : HyThreadMonitor) : outcome :=
  if recursion_count m <? 0 then Failed
  else if negb (owner m =? self) then Done m TM_ERROR_ILLEGAL_STATE
  else if recursion_count m =? 0 then
    Done (MkMonitor (port_mutex_unlock (mutex m)) (recursion_count m) 0 (wait_count m) (notify_count m)) TM_ERROR_NONE
  else Done (set_recursion m (recursion_count m - 1)) TM_ERROR_NONE.

(** [monitor_wait_impl] up to the wait on the condition variable, which releases
    the mutex; the recursion count is saved for the end. *)
Definition monitor_wait_begin (self : Z) (m : HyThreadMonitor) : outcome * Z :=
  if negb (owner m =? self) then (Done m TM_ERROR_ILLEGAL_STATE, 0)
  else
    let saved_recursion := recursion_count m in
    if saved_recursion <? 0 then (Failed, 0)
    else if (notify_count m <? 0) || (wait_count m + 1 <=? notify_count m) then (Failed, 0)
    else (Done (MkMonitor (port_mutex_unlock (mutex m)) 0 0 (wait_count m + 1) (notify_count m)) TM_ERROR_NONE, saved_recursion).

(** The wait on the condition variable ends with [status], with the mutex locked
    again: the thread waits again, or leaves the wait and, when another thread has a
    request for it, unlocks the mutex to reach a safe point. *)
Inductive woken := WaitAgain (m : HyThreadMonitor) | Relock (m : HyThreadMonitor) | Owns (m : HyThreadMonitor) | WaitBlocked | WaitFailed.

Definition monitor_wait_wake (self : Z) (status : tm_status) (request : bool) (saved_recursion : Z) (m : HyThreadMonitor) : woken :=
  match port_mutex_trylock self (mutex m) with
  | None => WaitBlocked
  | Some x =>
      if bool_decide (status = TM_ERROR_NONE) && (notify_count m =? 0) then
        if wait_count m <=? notify_count m then WaitFailed else WaitAgain m
      else
        let n := if (0 <? notify_count m) && (bool_decide (status = TM_ERROR_NONE) || (notify_count m =? wait_count m))
          then notify_count m - 1 else notify_count m in
        let w := wait_count m - 1 in
        if w <? n then WaitFailed
        else if request then Relock (set_counts m w n)
        else Owns (MkMonitor x saved_recursion self w n)
  end.

(** The end of [monitor_wait_impl] after the safe point. *)
Definition monitor_wait_relock (self saved_recursion : Z) (m : HyThreadMonitor) : outcome :=
  match port_mutex_trylock self (mutex m) with
  | Some x => Done (MkMonitor x saved_recursion self (wait_count m) (notify_count m)) TM_ERROR_NONE
  | None => Blocked
  end.

Definition hythread_monitor_notify (self : Z) (m : HyThreadMonitor) : outcome :=
  if negb (owner m =? self) then Done m TM_ERROR_ILLEGAL_STATE
  else if notify_count m <? wait_count m then Done (set_counts m (wait_count m) (notify_count m + 1)) TM_ERROR_NONE
  else Done m TM_ERROR_NONE.
Definition hythread_monitor_notify_all (self : Z) (m : HyThreadMonitor) : outcome :=
  if negb (owner m =? self) then Done m TM_ERROR_ILLEGAL_STATE
  else Done (set_counts m (wait_count m) (wait_count m)) TM_ERROR_NONE.

(** [hythread_monitor_destroy]: whether the monitor is freed. *)
Definition hythread_monitor_destroy (m : HyThreadMonitor) : tm_status :=
  if negb (owner m =? 0) || (0 <? wait_count m) then TM_ERROR_ILLEGAL_STATE else TM_ERROR_NONE.

(** ** Threads on one monitor *)

(** A thread runs, having entered the monitor [n] times, or is in one of the two
    blocking points of a wait. *)
Inductive tstate := Running (n : Z) | Waiting (saved : Z) | Relocking (saved : Z).

Record sys := Sys { mon : HyThreadMonitor; threads : gmap Z tstate }.

Inductive step : sys -> sys -> Prop :=
  | step_enter t n m m' ts : ts !! t = Some (Running n) -> hythread_monitor_enter t m = Done m' TM_ERROR_NONE ->
      step (Sys m ts) (Sys m' (<[t := Running (n + 1)]> ts))
  | step_try t n m m' s ts : ts !! t = Some (Running n) -> hythread_monitor_try_enter t m = Done m' s ->
      step (Sys m ts) (Sys m' (<[t := Running (if decide (s = TM_ERROR_NONE) then n + 1 else n)]> ts))
  | step_exit t n m m' s ts : ts !! t = Some (Running n) -> hythread_monitor_exit t m = Done m' s ->
      step (Sys m ts) (Sys m' (<[t := Running (if decide (s = TM_ERROR_NONE) then n - 1 else n)]> ts))
  | step_wait t n m m' saved s ts : ts !! t = Some (Running n) -> monitor_wait_begin t m = (Done m' s, saved) ->
      step (Sys m ts) (Sys m' (<[t := if decide (s = TM_ERROR_NONE) then Waiting saved else Running n]> ts))
  | step_again t saved m m' s r ts : ts !! t = Some (Waiting saved) -> monitor_wait_wake t s r saved m = WaitAgain m' ->
      step (Sys m ts) (Sys m' ts)
  | step_woken t saved m m' s r ts : ts !! t = Some (Waiting saved) -> monitor_wait_wake t s r saved m = Owns m' ->
      step (Sys m ts) (Sys m' (<[t := Running (saved + 1)]> ts))
  | step_request t saved m m' s r ts : ts !! t = Some (Waiting saved) -> monitor_wait_wake t s r saved m = Relock m' ->
      step (Sys m ts) (Sys m' (<[t := Relocking saved]> ts))
  | step_relock t saved m m' ts : ts !! t = Some (Relocking saved) -> monitor_wait_relock t saved m = Done m' TM_ERROR_NONE ->
      step (Sys m ts) (Sys m' (<[t := Running (saved + 1)]> ts))
  | step_notify t n m m' s ts : ts !! t = Some (Running n) -> hythread_monitor_notify t m = Done m' s ->
      step (Sys m ts) (Sys m' ts)
  | step_notify_all t n m m' s ts : ts !! t = Some (Running n) -> hythread_monitor_notify_all t m = Done m' s ->
      step (Sys m ts) (Sys m' ts).


(** ** The invariant *)

Definition is_waiting (s : tstate) : bool := match s with Waiting _ => true | _ => false end.
Definition thread_ok (m : HyThreadMonitor) (t : Z) (s : tstate) : Prop :=
  0 < t /\
  match s with
  | Running n => n = if decide (owner m = t) then recursion_count m + 1 else 0
  | Waiting saved | Relocking saved => 0 <= saved /\ owner m <> t
  end.

Record inv (s : sys) : Prop := {
  inv_notify : 0 <= notify_count (mon s) <= wait_count (mon s);
  inv_waiting : wait_count (mon s) = count is_waiting (threads s);
  inv_recursion : 0 <= recursion_count (mon s);
  inv_free : owner (mon s) = 0 -> recursion_count (mon s) = 0;
  inv_mutex : mutex (mon s) = if decide (owner (mon s) = 0) then Mutex 0 0 else Mutex (owner (mon s)) 1;
  inv_threads : map_Forall (thread_ok (mon s)) (threads s);
}.

(** The mutex is free exactly when nobody owns the monitor. *)
Lemma trylock_free s t : inv s -> owner (mon s) <> t -> t <> 0 ->
  port_mutex_trylock t (mutex (mon s)) = if decide (owner (mon s) = 0) then Some (Mutex t 1) else None.
Proof.
  intros Hinv Hne Ht. rewrite (inv_mutex _ Hinv). unfold port_mutex_trylock. case_decide as E; simpl; [done|].
  rewrite (proj2 (Z.eqb_neq _ 0)), (proj2 (Z.eqb_neq _ t)) by done. done.
Qed.

(** A thread other than the owner of the new monitor keeps what it knows. *)
Lemma threads_insert m m' (ts : gmap Z tstate) t s' : map_Forall (thread_ok m) ts -> thread_ok m' t s' ->
  (forall u, 0 < u -> u <> t -> (owner m = u <-> owner m' = u) /\ (owner m = u -> recursion_count m = recursion_count m')) ->
  map_Forall (thread_ok m') (<[t := s']> ts).
Proof.
  intros Hts Hs' Hother u su Hu. destruct (decide (u = t)) as [->|Hne].
  - rewrite lookup_insert_eq in Hu. by injection Hu as <-.
  - rewrite lookup_insert_ne in Hu by done. destruct (Hts u su Hu) as [Hpos Hok]. split; [done|].
    destruct (Hother u Hpos Hne) as [Ho Hr]. destruct su as [n|saved|saved].
    + rewrite Hok. destruct (decide (owner m = u)) as [E|E].
      * rewrite decide_True by (by apply Ho). by rewrite Hr.
      * rewrite decide_False; [done|]. intros E'. by apply E, Ho.
    + destruct Hok as [? Hno]. split; [done|]. intros E'. by apply Hno, Ho.
    + destruct Hok as [? Hno]. split; [done|]. intros E'. by apply Hno, Ho.
Qed.

(** What a step by [t] has to show. *)
Lemma inv_insert m m' ts t s s' : inv (Sys m ts) -> ts !! t = Some s ->
  0 <= notify_count m' <= wait_count m' ->
  wait_count m' = wait_count m - Z.b2z (is_waiting s) + Z.b2z (is_waiting s') ->
  0 <= recursion_count m' -> (owner m' = 0 -> recursion_count m' = 0) ->
  mutex m' = (if decide (owner m' = 0) then Mutex 0 0 else Mutex (owner m') 1) ->
  thread_ok m' t s' ->
  (forall u, 0 < u -> u <> t -> (owner m = u <-> owner m' = u) /\ (owner m = u -> recursion_count m = recursion_count m')) ->
  inv (Sys m' (<[t := s']> ts)).
Proof.
  intros Hinv Hs Hn Hw Hr Hf Hm Ht Ho. split; simpl; try done.
  - rewrite (count_insert _ _ _ s) by done. pose proof (inv_waiting _ Hinv). simpl in *. lia.
  - by apply (threads_insert m); [apply (inv_threads _ Hinv)| |].
Qed.

(** A step by a running thread, or the end of a wait, that does not take or release
    the mutex. *)
Ltac thread_facts :=
  match goal with Hinv : inv (Sys ?m ?ts), Ht : ?ts !! ?t = Some _ |- _ =>
    let Hp := fresh "Hpos" in let Hk := fresh "Hok" in
    destruct (inv_threads _ Hinv t _ Ht) as [Hp Hk]; simpl in Hp, Hk;
    pose proof (inv_notify _ Hinv) as Hnot; pose proof (inv_waiting _ Hinv) as Hwait;
    pose proof (inv_recursion _ Hinv) as Hrec; pose proof (inv_mutex _ Hinv) as Hmut; pose proof (inv_free _ Hinv) as Hfree;
    pose proof (trylock_free (Sys m ts) t Hinv) as Htry; simpl in Hnot, Hwait, Hrec, Hmut, Hfree, Htry
  end.

Ltac step_inv :=
  eapply inv_insert; [eassumption..|simpl|simpl|simpl|simpl|simpl|unfold thread_ok; simpl|simpl];
  repeat case_decide; subst; simpl; repeat split; intros; try done; try congruence; try lia.

(** Entering, by a free mutex or by recursion. *)
Lemma enter_inv t n m m' ts : inv (Sys m ts) -> ts !! t = Some (Running n) ->
  hythread_monitor_enter t m = Done m' TM_ERROR_NONE -> inv (Sys m' (<[t := Running (n + 1)]> ts)).
Proof.
  intros Hinv Ht H. thread_facts. unfold hythread_monitor_enter in H.
  destruct (Z.eqb_spec (owner m) t) as [E|E]; simpl in H.
  - destruct (Z.ltb_spec (recursion_count m) 0); [done|]. injection H as <-. step_inv.
  - rewrite Htry in H by (done || lia). destruct (decide (owner m = 0)) as [E0|E0]; [|done]. injection H as <-. step_inv.
Qed.

Lemma try_inv t n m m' s ts : inv (Sys m ts) -> ts !! t = Some (Running n) -> hythread_monitor_try_enter t m = Done m' s ->
  inv (Sys m' (<[t := Running (if decide (s = TM_ERROR_NONE) then n + 1 else n)]> ts)).
Proof.
  intros Hinv Ht H. destruct (decide (s = TM_ERROR_NONE)) as [->|Hs].
  - apply (enter_inv _ _ m); [done..|]. revert H. unfold hythread_monitor_try_enter, hythread_monitor_enter.
    destruct (negb (owner m =? t)), (port_mutex_trylock t (mutex m)); done.
  - rewrite insert_id by done. revert H. unfold hythread_monitor_try_enter.
    destruct (negb (owner m =? t)), (port_mutex_trylock t (mutex m)), (recursion_count m <? 0); intros [= <- <-]; done.
Qed.

Lemma exit_inv t n m m' s ts : inv (Sys m ts) -> ts !! t = Some (Running n) -> hythread_monitor_exit t m = Done m' s ->
  inv (Sys m' (<[t := Running (if decide (s = TM_ERROR_NONE) then n - 1 else n)]> ts)).
Proof.
  intros Hinv Ht H. thread_facts. unfold hythread_monitor_exit in H.
  destruct (Z.ltb_spec (recursion_count m) 0); [done|].
  destruct (Z.eqb_spec (owner m) t) as [E|E]; simpl in H.
  - rewrite Hmut, decide_False in H by lia. unfold port_mutex_unlock in H. simpl in H.
    destruct (Z.eqb_spec (recursion_count m) 0); injection H as <- <-; step_inv.
  - injection H as <- <-. by rewrite decide_False, insert_id by done.
Qed.

Lemma wait_begin_inv t n m m' saved s ts : inv (Sys m ts) -> ts !! t = Some (Running n) ->
  monitor_wait_begin t m = (Done m' s, saved) ->
  inv (Sys m' (<[t := if decide (s = TM_ERROR_NONE) then Waiting saved else Running n]> ts)).
Proof.
  intros Hinv Ht H. thread_facts. unfold monitor_wait_begin in H.
  destruct (Z.eqb_spec (owner m) t) as [E|E]; simpl in H.
  - destruct (Z.ltb_spec (recursion_count m) 0); [done|].
    destruct ((notify_count m <? 0) || (wait_count m + 1 <=? notify_count m)); [done|].
    rewrite Hmut, decide_False in H by lia. unfold port_mutex_unlock in H. simpl in H. injection H as <- <- <-. step_inv.
  - injection H as <- <- <-. by rewrite decide_False, insert_id by done.
Qed.

(** The counters when a thread leaves a wait. *)
Lemma wake_inv t saved m s r ts : inv (Sys m ts) -> ts !! t = Some (Waiting saved) ->
  match monitor_wait_wake t s r saved m with
  | WaitAgain m' => inv (Sys m' ts)
  | Owns m' => inv (Sys m' (<[t := Running (saved + 1)]> ts))
  | Relock m' => inv (Sys m' (<[t := Relocking saved]> ts))
  | WaitBlocked => owner m <> 0
  | WaitFailed => False
  end.
Proof.
  intros Hinv Ht. thread_facts. destruct Hok as [Hsaved Hne]. unfold monitor_wait_wake. rewrite Htry by (done || lia).
  assert (Hw : 1 <= wait_count m).
  { rewrite Hwait. by apply (count_pos _ _ t _ Ht). }
  destruct (decide (owner m = 0)) as [E0|E0]; [|done].
  destruct (bool_decide (s = TM_ERROR_NONE) && (notify_count m =? 0)) eqn:E1.
  { apply andb_prop in E1 as [_ E1%Z.eqb_eq]. by rewrite (proj2 (Z.leb_gt _ _)) by lia. }
  destruct ((0 <? notify_count m) && (bool_decide (s = TM_ERROR_NONE) || (notify_count m =? wait_count m))) eqn:E2.
  - apply andb_prop in E2 as [E2%Z.ltb_lt _]. rewrite (proj2 (Z.ltb_ge _ _)) by lia. destruct r; step_inv.
  - assert (notify_count m < wait_count m).
    { destruct (decide (notify_count m = wait_count m)) as [E|]; [|lia]. exfalso.
      rewrite (proj2 (Z.ltb_lt 0 _)), (proj2 (Z.eqb_eq _ _) E), orb_true_r in E2 by lia. done. }
    rewrite (proj2 (Z.ltb_ge _ _)) by lia. destruct r; step_inv.
Qed.

Lemma relock_inv t saved m m' ts : inv (Sys m ts) -> ts !! t = Some (Relocking saved) ->
  monitor_wait_relock t saved m = Done m' TM_ERROR_NONE -> inv (Sys m' (<[t := Running (saved + 1)]> ts)).
Proof.
  intros Hinv Ht H. thread_facts. unfold monitor_wait_relock in H. rewrite Htry in H by (lia || by destruct Hok).
  destruct (decide (owner m = 0)) as [E0|E0]; [|done]. injection H as <-. step_inv.
Qed.

Lemma notify_inv t n m m' s ts : inv (Sys m ts) -> ts !! t = Some (Running n) ->
  hythread_monitor_notify t m = Done m' s \/ hythread_monitor_notify_all t m = Done m' s -> inv (Sys m' ts).
Proof.
  intros Hinv Ht H. thread_facts. rewrite <- (insert_id ts t _ Ht).
  unfold hythread_monitor_notify, hythread_monitor_notify_all in H.
  destruct (owner m =? t); simpl in H; [destruct (Z.ltb_spec (notify_count m) (wait_count m)) in H|];
    destruct H as [[= <- <-]|[= <- <-]]; try (rewrite insert_id by done; done); step_inv.
Qed.

Create HintDb monitor.
#[export] Hint Resolve enter_inv try_inv exit_inv wait_begin_inv relock_inv notify_inv : monitor.

Lemma step_inv_preserved s s' : inv s -> step s s' -> inv s'.
Proof.
  intros Hinv Hs. destruct Hs as [| | | |t saved m m' s r ts Ht H|t saved m m' s r ts Ht H|t saved m m' s r ts Ht H| | |];
    eauto with monitor; pose proof (wake_inv t saved m s r ts Hinv Ht) as W; by rewrite H in W.
Qed.

(** A new monitor and threads that have not entered it. *)
Definition initial (ids : gset Z) : sys := Sys hythread_monitor_init (gset_to_gmap (Running 0) ids).

Lemma initial_inv ids : (forall t, t ∈ ids -> 0 < t) -> inv (initial ids).
Proof.
  intros Hids. split; simpl; [lia| |lia|done|done|].
  - by rewrite count_gset.
  - intros t x Hx. apply lookup_gset_to_gmap_Some in Hx as [Hin <-]. specialize (Hids t Hin). split; [done|].
    simpl. rewrite decide_False by lia. done.
Qed.

(** The number of times a thread has entered and not yet left; a thread in a wait
    is outside. *)
Definition inside (s : tstate) : Z := match s with Running n => n | _ => 0 end.

(** C17: In every state that any number of threads can reach from a new monitor by
    entering, trying to enter, leaving, waiting with any wake-up (notified, timed out,
    interrupted, spurious), relocking after a safe point and notifying: two threads
    are never inside the monitor at once, a thread inside is the owner, has entered one
    time more than the recursion count and holds the operating system mutex; and
    notifications pending never outnumber the waiting threads. *)
Theorem monitor_exclusion ids s : (forall t, t ∈ ids -> 0 < t) -> rtc step (initial ids) s ->
  (forall t u a b, threads s !! t = Some a -> threads s !! u = Some b -> 0 < inside a -> 0 < inside b -> t = u) /\
  (forall t a, threads s !! t = Some a -> 0 < inside a ->
     owner (mon s) = t /\ inside a = recursion_count (mon s) + 1 /\ mutex (mon s) = Mutex t 1) /\
  0 <= notify_count (mon s) <= count is_waiting (threads s).
Proof.
  intros Hids Hr. assert (Hinv : inv s).
  { apply initial_inv in Hids. revert Hids. induction Hr; eauto using step_inv_preserved. }
  assert (Hin : forall t a, threads s !! t = Some a -> 0 < inside a ->
     0 < t /\ owner (mon s) = t /\ inside a = recursion_count (mon s) + 1).
  { intros t a Ha Hpos. destruct (inv_threads _ Hinv t a Ha) as [Ht Hok]. split; [done|].
    destruct a as [n| |]; simpl in *; [|lia..]. subst n. by case_decide. }
  split; [|split].
  - intros t u a b Ha Hb Hpa Hpb. apply Hin in Ha as (_ & <- & _), Hb as (_ & <- & _); done.
  - intros t a Ha Hpa. destruct (Hin t a Ha Hpa) as (Hpos & Ho & Hr'). split; [done|]. split; [done|].
    rewrite (inv_mutex _ Hinv), decide_False by lia. by rewrite Ho.
  - rewrite <- (inv_waiting _ Hinv). apply (inv_notify _ Hinv).
Qed.

(** Thread 2 waits, thread 1 is inside and has notified it. *)
Lemma monitor_exclusion_witness : exists s, rtc step (initial {[1; 2]}) s /\
  threads s !! 1 = Some (Running 1) /\ threads s !! 2 = Some (Waiting 0) /\ notify_count (mon s) = 1 /\
  0 <= notify_count (mon s) <= count is_waiting (threads s).
Proof.
  eexists. match goal with |- ?A /\ _ => assert (Hr : A) end.
  { eapply rtc_l; [eapply (step_enter 2 0); reflexivity|].
    eapply rtc_l; [eapply (step_wait 2 1); reflexivity|].
    eapply rtc_l; [eapply (step_enter 1 0); reflexivity|].
    eapply rtc_l; [eapply (step_notify 1 1); reflexivity|]. apply rtc_refl. }
  split; [exact Hr|].
  refine ((fun H => conj _ (conj _ (conj _ (proj2 (proj2 H))))) (monitor_exclusion _ _ _ Hr)); [by vm_compute..|].
  intros t Ht. apply elem_of_union in Ht as [Ht|Ht]; apply elem_of_singleton in Ht; lia.
Defined.
