(* ===== verification/LockTable.v ===== *)
(** * The fat lock table: [thread/src/thread_native_thin_monitor.c]

    The table that maps the lock numbers kept in inflated lock words to monitors,
    in chunks that are added as it fills, with one mark per entry for the collection
    of dead monitors.  An operation is a function of the table; the locks around it
    are in [RWLock].  [entries] is the map the table stands for, and every operation
    is an operation on that map.  Monitors are their addresses, 0 is [NULL]. *)
From stdpp Require Import gmap.
From S2P Require Import Prelude LockWord.

Definition HY_FAT_TABLE_ENTRIES : Z := 16 * 1024.
Definition HY_MAX_FAT_LOCKS : Z := HY_FAT_LOCK_ID_MASK + 1.

Record HyFatLockTable := MkTable {
  tables : list (list Z);
  live_objs : list bool;
  size : Z;
  array_cursor : Z;
  live_objs_were_reported : bool;
}.

(** [FAT_LOCK(x)] as a value and as the target of an assignment; no value is a read
    outside the chunks that are allocated. *)
Definition FAT_LOCK (t : HyFatLockTable) (x : Z) : option Z :=
  tables t !! Z.to_nat (x / HY_FAT_TABLE_ENTRIES) ≫= fun chunk => chunk !! Z.to_nat (x mod HY_FAT_TABLE_ENTRIES).
Definition set_FAT_LOCK (t : HyFatLockTable) (x p : Z) : HyFatLockTable :=
  MkTable (alter (<[Z.to_nat (x mod HY_FAT_TABLE_ENTRIES) := p]>) (Z.to_nat (x / HY_FAT_TABLE_ENTRIES)) (tables t))
    (live_objs t) (size t) (array_cursor t) (live_objs_were_reported t).
Definition set_cursor (t : HyFatLockTable) (c : Z) : HyFatLockTable :=
  MkTable (tables t) (live_objs t) (size t) c (live_objs_were_reported t).
Definition set_live (t : HyFatLockTable) (x : Z) (b : bool) : HyFatLockTable :=
  MkTable (tables t) (<[Z.to_nat x := b]> (live_objs t)) (size t) (array_cursor t) (live_objs_were_reported t).
Definition set_reported (t : HyFatLockTable) (b : bool) : HyFatLockTable :=
  MkTable (tables t) (live_objs t) (size t) (array_cursor t) b.

(** The table [init_group_list] allocates. *)
Definition new_chunk : list Z := replicate (Z.to_nat HY_FAT_TABLE_ENTRIES) 0.
Definition init_lock_table : HyFatLockTable :=
  MkTable [new_chunk] (replicate (Z.to_nat HY_FAT_TABLE_ENTRIES) false) HY_FAT_TABLE_ENTRIES 0 false.

Definition locktable_get_fat_monitor (t : HyFatLockTable) (lock_id : Z) : option Z :=
  if (0 <=? lock_id) && (ux 32 lock_id <? size t) then FAT_LOCK t lock_id else None.

(** The search loop of [locktable_put_fat_monitor]: [n] entries are left to try. *)
Fixpoint find_slot (n : nat) (t : HyFatLockTable) (mon_index : Z) : option Z :=
  match n with
  | O => None
  | S n =>
      let mon_index := if mon_index =? size t then 0 else mon_index in
      if bool_decide (FAT_LOCK t mon_index = Some 0) then Some mon_index else find_slot n t (mon_index + 1)
  end.

(** A table with one chunk more, which starts with [p]. *)
Definition grow (t : HyFatLockTable) (p : Z) : HyFatLockTable :=
  MkTable (tables t ++ [<[0%nat := p]> new_chunk]) (live_objs t ++ replicate (Z.to_nat HY_FAT_TABLE_ENTRIES) false)
    (size t + HY_FAT_TABLE_ENTRIES) (array_cursor t) (live_objs_were_reported t).

Inductive put_result := Put (mon_index : Z) (t : HyFatLockTable) | Asserted | Died.

Definition locktable_put_fat_monitor (t : HyFatLockTable) (fat_monitor : Z) : put_result :=
  match find_slot (Z.to_nat (size t)) t (array_cursor t) with
  | Some mon_index =>
      if bool_decide (live_objs t !! Z.to_nat mon_index = Some false) then
        Put mon_index (set_cursor (set_FAT_LOCK t mon_index fat_monitor) (mon_index + 1))
      else Asserted
  | None =>
      if HY_MAX_FAT_LOCKS <=? size t then Died
      else Put (size t) (set_cursor (grow t fat_monitor) (size t + 1))
  end.

(** [hythread_native_resource_is_live]: the word of an object that the collector keeps. *)
Definition hythread_native_resource_is_live (t : HyFatLockTable) (lockword : Z) : option HyFatLockTable :=
  index ← get_fat_lock_id (size t) lockword; Some (set_reported (set_live t index true) true).

(** The loop of [hythread_reclaim_resources] over the entries from [i]: the table
    and the monitors it destroys, or a failed assertion. *)
Fixpoint reclaim_loop (n : nat) (i : Z) (t : HyFatLockTable) : option (HyFatLockTable * list Z) :=
  match n with
  | O => Some (t, [])
  | S n =>
      live ← live_objs t !! Z.to_nat i;
      p ← FAT_LOCK t i;
      if (live : bool) then
        if p =? 0 then None else reclaim_loop n (i + 1) (set_live t i false)
      else if p =? 0 then reclaim_loop n (i + 1) t
      else r ← reclaim_loop n (i + 1) (set_FAT_LOCK t i 0); Some (r.1, p :: r.2)
  end.
Definition hythread_reclaim_resources (t : HyFatLockTable) : option (HyFatLockTable * list Z) :=
  if live_objs_were_reported t then reclaim_loop (Z.to_nat (size t)) 0 (set_reported t false) else Some (t, []).

(** ** The invariant *)

Record table_ok (t : HyFatLockTable) : Prop := {
  ok_size : size t = HY_FAT_TABLE_ENTRIES * Z.of_nat (length (tables t));
  ok_max : 0 < size t <= HY_MAX_FAT_LOCKS;
  ok_chunks : Forall (fun c => length c = Z.to_nat HY_FAT_TABLE_ENTRIES) (tables t);
  ok_marks : length (live_objs t) = Z.to_nat (size t);
  ok_cursor : 0 <= array_cursor t <= size t;
  ok_live : forall i, 0 <= i -> live_objs t !! Z.to_nat i = Some true -> FAT_LOCK t i <> Some 0;
}.
#[global] Opaque HY_FAT_TABLE_ENTRIES.

Lemma entries_pos : 0 < HY_FAT_TABLE_ENTRIES.
Proof. done. Qed.

Section table.
Context (t : HyFatLockTable) (Hok : table_ok t).

Lemma FAT_LOCK_some i : 0 <= i < size t -> is_Some (FAT_LOCK t i).
Proof.
  intros Hi. pose proof entries_pos. rewrite (ok_size _ Hok) in Hi. unfold FAT_LOCK.
  pose proof (Z.div_mod i HY_FAT_TABLE_ENTRIES ltac:(lia)).
  pose proof (Z.mod_pos_bound i HY_FAT_TABLE_ENTRIES ltac:(lia)).
  assert (0 <= i / HY_FAT_TABLE_ENTRIES < Z.of_nat (length (tables t))) by nia.
  destruct (lookup_lt_is_Some_2 (tables t) (Z.to_nat (i / HY_FAT_TABLE_ENTRIES))) as [c Hc]; [lia|].
  rewrite Hc. simpl. apply lookup_lt_is_Some_2. rewrite (Forall_lookup_1 _ _ _ _ (ok_chunks _ Hok) Hc). lia.
Qed.

Lemma FAT_LOCK_none i : size t <= i -> FAT_LOCK t i = None.
Proof.
  intros Hi. pose proof entries_pos. rewrite (ok_size _ Hok) in Hi. unfold FAT_LOCK.
  rewrite lookup_ge_None_2; [done|].
  assert (Z.of_nat (length (tables t)) <= i / HY_FAT_TABLE_ENTRIES); [apply Z.div_le_lower_bound; lia|lia].
Qed.

Lemma FAT_LOCK_set i j p : 0 <= i < size t -> 0 <= j ->
  FAT_LOCK (set_FAT_LOCK t i p) j = if decide (i = j) then Some p else FAT_LOCK t j.
Proof.
  intros Hi Hj. pose proof entries_pos. destruct (FAT_LOCK_some i Hi) as [q Hq]. unfold FAT_LOCK, set_FAT_LOCK in *. simpl.
  pose proof (Z.div_mod i HY_FAT_TABLE_ENTRIES ltac:(lia)).
  pose proof (Z.div_mod j HY_FAT_TABLE_ENTRIES ltac:(lia)).
  pose proof (Z.mod_pos_bound i HY_FAT_TABLE_ENTRIES ltac:(lia)).
  pose proof (Z.mod_pos_bound j HY_FAT_TABLE_ENTRIES ltac:(lia)).
  destruct (tables t !! Z.to_nat (i / HY_FAT_TABLE_ENTRIES)) as [c|] eqn:Ec; [simpl in Hq|done].
  case_decide as E.
  - subst j. rewrite list_lookup_alter_eq, Ec. simpl. apply list_lookup_insert_eq, lookup_lt_is_Some_1. eauto.
  - pose proof (Z.div_pos i HY_FAT_TABLE_ENTRIES). pose proof (Z.div_pos j HY_FAT_TABLE_ENTRIES).
    destruct (decide (i / HY_FAT_TABLE_ENTRIES = j / HY_FAT_TABLE_ENTRIES)) as [E'|E'].
    + rewrite <- E', list_lookup_alter_eq, Ec. simpl. apply list_lookup_insert_ne. nia.
    + rewrite list_lookup_alter_ne by lia. done.
Qed.
End table.

(** ** The map of monitors *)

(** The monitor with number [i], if there is one. *)
Definition entry (t : HyFatLockTable) (i : Z) : option Z := p ← FAT_LOCK t i; if p =? 0 then None else Some p.

Lemma entry_none_0 t i : table_ok t -> 0 <= i < size t -> entry t i = None -> FAT_LOCK t i = Some 0.
Proof.
  intros Hok Hi. unfold entry. destruct (FAT_LOCK_some t Hok i Hi) as [p ->]. simpl.
  by destruct (Z.eqb_spec p 0) as [->|].
Qed.

Lemma find_slot_some n t c k : table_ok t -> 0 <= c <= size t -> find_slot n t c = Some k ->
  0 <= k < size t /\ FAT_LOCK t k = Some 0.
Proof.
  intros Hok. pose proof (ok_max _ Hok). revert c. induction n as [|n IH]; intros c Hc Hf; [done|]. simpl in Hf.
  assert (0 <= (if c =? size t then 0 else c) < size t) as Hm by (destruct (Z.eqb_spec c (size t)); lia).
  case_bool_decide; [by injection Hf as <-|]. eapply IH; [|exact Hf]; lia.
Qed.

(** The search wraps around and misses no entry. *)
Lemma find_slot_none n t c : table_ok t -> 0 <= c <= size t -> find_slot n t c = None ->
  forall j, 0 <= j < Z.of_nat n -> FAT_LOCK t ((c + j) mod size t) <> Some 0.
Proof.
  intros Hok. pose proof (ok_max _ Hok) as Hmax. revert c. induction n as [|n IH]; intros c Hc Hf j Hj; [lia|].
  simpl in Hf. set (c' := if c =? size t then 0 else c) in Hf.
  assert (0 <= c' < size t /\ c mod size t = c') as [Hc' Hmod].
  { unfold c'. destruct (Z.eqb_spec c (size t)) as [->|]; [rewrite Z.mod_same by lia; lia|].
    rewrite Z.mod_small by lia. lia. }
  clearbody c'. case_bool_decide as Hne; [done|]. destruct (decide (j = 0)) as [->|Hj0].
  - by rewrite Z.add_0_r, Hmod.
  - rewrite <- Zplus_mod_idemp_l, Hmod. replace (c' + j) with (c' + 1 + (j - 1)) by lia. apply IH; [lia|done|lia].
Qed.

Lemma find_slot_full t c : table_ok t -> 0 <= c <= size t -> find_slot (Z.to_nat (size t)) t c = None ->
  forall i, 0 <= i < size t -> is_Some (entry t i).
Proof.
  intros Hok Hc Hf i Hi. destruct (entry t i) eqn:E; [done|].
  apply entry_none_0 in E; [|done..]. exfalso.
  apply (find_slot_none _ _ _ Hok Hc Hf ((i - c) mod size t)).
  - pose proof (Z.mod_pos_bound (i - c) (size t)). lia.
  - rewrite Zplus_mod_idemp_r. replace (c + (i - c)) with i by lia. by rewrite Z.mod_small.
Qed.

(** Storing a monitor in a free entry. *)
Lemma set_ok t i p c : table_ok t -> 0 <= i < size t -> FAT_LOCK t i = Some 0 -> p <> 0 -> 0 <= c <= size t ->
  table_ok (set_cursor (set_FAT_LOCK t i p) c).
Proof.
  intros Hok Hi H0 Hp Hc. destruct Hok as [Hsize Hmax Hchunks Hmarks Hcur Hlive]. split; simpl; try done.
  - by rewrite length_alter.
  - apply Forall_alter; [done|]. intros x _ Hx. by rewrite length_insert.
  - intros j Hj Hl. change (FAT_LOCK (set_FAT_LOCK t i p) j <> Some 0).
    rewrite FAT_LOCK_set by done. case_decide; [congruence|]. by apply Hlive.
Qed.

Lemma grow_FAT_LOCK t p i : table_ok t -> 0 <= i ->
  FAT_LOCK (grow t p) i =
    if decide (i < size t) then FAT_LOCK t i
    else if decide (i < size t + HY_FAT_TABLE_ENTRIES) then Some (if decide (i = size t) then p else 0) else None.
Proof.
  intros Hok Hi. pose proof entries_pos as HE. pose proof (ok_size _ Hok) as Hs. unfold FAT_LOCK, grow. simpl.
  set (n := length (tables t)) in *. set (E := HY_FAT_TABLE_ENTRIES) in *.
  pose proof (Z.div_mod i E ltac:(lia)) as Hdm. pose proof (Z.mod_pos_bound i E ltac:(lia)) as Hm.
  case_decide as H1; [|case_decide as H2].
  - rewrite lookup_app_l; [done|]. assert (0 <= i / E < Z.of_nat n) by nia. lia.
  - assert (i / E = Z.of_nat n) as Hq by nia. rewrite lookup_app_r by lia.
    rewrite Hq, Nat2Z.id, Nat.sub_diag. simpl. assert (i mod E = i - size t) as Hr by nia.
    unfold new_chunk. case_decide as H3.
    + rewrite Hr. replace (i - size t) with 0 by lia. apply list_lookup_insert_eq. rewrite length_replicate. fold E. lia.
    + rewrite list_lookup_insert_ne by lia. apply lookup_replicate_2. fold E. lia.
  - assert (Z.of_nat n + 1 <= i / E) by nia. rewrite lookup_app_r by lia.
    by rewrite (lookup_ge_None_2 [_]) by (simpl; lia).
Qed.

Lemma max_chunks : HY_MAX_FAT_LOCKS = HY_FAT_TABLE_ENTRIES * 64.
Proof. done. Qed.

Lemma grow_ok t p c : table_ok t -> p <> 0 -> size t < HY_MAX_FAT_LOCKS -> 0 <= c <= size t + HY_FAT_TABLE_ENTRIES ->
  table_ok (set_cursor (grow t p) c).
Proof.
  intros Hok Hp Hlt Hc. pose proof entries_pos. pose proof max_chunks. pose proof (grow_FAT_LOCK t p) as Hg.
  destruct Hok as [Hsize Hmax Hchunks Hmarks Hcur Hlive] eqn:Eok. clear Eok. split; simpl.
  - rewrite length_app. simpl. lia.
  - assert (Z.of_nat (length (tables t)) < 64); nia.
  - apply Forall_app. split; [done|]. constructor; [|done]. unfold new_chunk. by rewrite length_insert, length_replicate.
  - rewrite length_app, length_replicate. lia.
  - lia.
  - intros i Hi Hl. change (FAT_LOCK (grow t p) i <> Some 0).
    destruct (decide (i < size t)).
    + rewrite lookup_app_l in Hl by lia. rewrite Hg by (done || lia). rewrite decide_True by lia. by apply Hlive.
    + rewrite lookup_app_r in Hl by lia. apply lookup_replicate in Hl as [? _]. done.
Qed.

Lemma entry_set t i j p c : table_ok t -> 0 <= i < size t -> 0 <= j ->
  entry (set_cursor (set_FAT_LOCK t i p) c) j = if decide (i = j) then (if p =? 0 then None else Some p) else entry t j.
Proof.
  intros Hok Hi Hj. unfold entry. change (FAT_LOCK (set_cursor ?a c)) with (FAT_LOCK a).
  rewrite FAT_LOCK_set by done. by case_decide.
Qed.

Lemma put_spec t p : table_ok t -> p <> 0 ->
  (exists id t', locktable_put_fat_monitor t p = Put id t' /\ table_ok t' /\ size t <= size t' /\ 0 <= id < size t' /\
     entry t id = None /\ (forall i, 0 <= i -> entry t' i = if decide (i = id) then Some p else entry t i)) \/
  (locktable_put_fat_monitor t p = Died /\ forall i, 0 <= i < HY_MAX_FAT_LOCKS -> is_Some (entry t i)).
Proof.
  intros Hok Hp. pose proof (ok_max _ Hok). pose proof (ok_cursor _ Hok) as Hc. unfold locktable_put_fat_monitor.
  rewrite <- Z.eqb_neq in Hp. destruct (find_slot _ t (array_cursor t)) as [k|] eqn:Hf.
  - apply find_slot_some in Hf as [Hk H0]; [|done..].
    assert (live_objs t !! Z.to_nat k = Some false) as Hl.
    { destruct (lookup_lt_is_Some_2 (live_objs t) (Z.to_nat k)) as [b Hb]; [rewrite (ok_marks _ Hok); lia|].
      destruct b; [|done]. by apply (ok_live _ Hok) in Hb; [|lia]. }
    rewrite bool_decide_true by done. left. do 2 eexists. split_and!; [done| |simpl; lia..| |].
    + apply set_ok; [done..|by apply Z.eqb_neq|lia].
    + unfold entry. by rewrite H0.
    + intros i Hi. rewrite entry_set, Hp by done. repeat case_decide; congruence.
  - pose proof (find_slot_full _ _ Hok Hc Hf) as Hfull. destruct (Z.leb_spec HY_MAX_FAT_LOCKS (size t)).
    + right. split; [done|]. intros i Hi. apply Hfull. lia.
    + pose proof entries_pos. left. do 2 eexists. split_and!; [done| |simpl; lia..| |].
      * apply grow_ok; [done|by apply Z.eqb_neq|done|lia].
      * unfold entry. by rewrite FAT_LOCK_none by (done || lia).
      * intros i Hi. unfold entry. change (FAT_LOCK (set_cursor ?a _)) with (FAT_LOCK a). rewrite grow_FAT_LOCK by done.
        case_decide; [by rewrite decide_False by lia|].
        rewrite (FAT_LOCK_none t Hok i) by lia. case_decide; [|by rewrite decide_False by lia].
        case_decide; simpl; [by rewrite Hp|done].
Qed.

(** C35: Putting a monitor into a well-formed table of fat locks. Either the monitor gets a
    number that was free and is inside the table it leaves, which is well formed, no
    smaller, and has at every other number the monitor it had, so that no live monitor is
    overwritten and no number moves; or the process dies, and then all 2^20 numbers are
    taken. The assertion about leftover marks does not fail. *)
Theorem put_refines t p : table_ok t -> p <> 0 ->
  (exists id t', locktable_put_fat_monitor t p = Put id t' /\ table_ok t' /\ size t <= size t' /\ 0 <= id < size t' /\
     entry t id = None /\ (forall i, 0 <= i -> entry t' i = if decide (i = id) then Some p else entry t i)) \/
  (locktable_put_fat_monitor t p = Died /\ forall i, 0 <= i < HY_MAX_FAT_LOCKS -> is_Some (entry t i)).
Proof. apply put_spec. Qed.

(** The word of an inflated lock finds its monitor. *)
Lemma set_fat_lock_id_spec t id p w : table_ok t -> 0 <= id < size t -> entry t id = Some p ->
  is_u 32 w -> IS_FAT_LOCK w = false -> IS_RESERVED w = false ->
  exists w', set_fat_lock_id (size t) w id = Some w' /\ IS_FAT_LOCK w' = true /\ get_fat_lock_id (size t) w' = Some id /\
    locktable_get_fat_monitor t (FAT_LOCK_ID w') = Some p /\ w' mod 2 ^ 11 = w mod 2 ^ 11.
Proof.
  intros Hok Hid Hp Hw Hfat Hres. pose proof (ok_max _ Hok) as Hmax. change HY_MAX_FAT_LOCKS with (2 ^ 20) in Hmax.
  destruct (lockword_cases w Hw) as [(tid & rec & unres & hash & -> & Hw')|(fid & low & -> & Hw')];
    [|by rewrite fat_IS_FAT_LOCK in Hfat].
  rewrite thin_IS_RESERVED in Hres by done. apply negb_false_iff in Hres as ->.
  assert (Hf : fat_ok id (2 ^ 10 + hash)) by (word_bounds; lia).
  exists (fat id (2 ^ 10 + hash)). rewrite thin_set_fat by (done || lia).
  rewrite fat_IS_FAT_LOCK, (fat_get _ _ Hf), fat_FAT_LOCK_ID by (done || lia). split_and!; [done..| |].
  - unfold locktable_get_fat_monitor. rewrite ux_id by (word_bounds; lia).
    rewrite (proj2 (Z.leb_le _ _)), (proj2 (Z.ltb_lt _ _)) by lia. simpl. unfold entry in Hp.
    destruct (FAT_LOCK t id) as [q|]; [|done]. simpl in Hp. by destruct (q =? 0).
  - transitivity (2 ^ 10 + hash).
    + symmetry. unfold fat. apply (Z.mod_unique_pos _ _ (2 ^ 20 + id)); word_bounds; lia.
    + unfold thin. apply (Z.mod_unique_pos _ _ (tid * 32 + rec)); word_bounds; simpl; lia.
Qed.

(** Inflation's last two steps, putting the new monitor into the table and writing
    its number into the lock word, round trip: the word is fat, keeps its hash code,
    both decoders give the number back and the table gives the monitor back for it;
    every other fat word still finds the monitor it found before. *)
Theorem inflated_word_roundtrip t p id t' w : table_ok t -> p <> 0 -> locktable_put_fat_monitor t p = Put id t' ->
  is_u 32 w -> IS_FAT_LOCK w = false -> IS_RESERVED w = false ->
  (exists w', set_fat_lock_id (size t') w id = Some w' /\ IS_FAT_LOCK w' = true /\ get_fat_lock_id (size t') w' = Some id /\
    locktable_get_fat_monitor t' (FAT_LOCK_ID w') = Some p /\ w' mod 2 ^ 11 = w mod 2 ^ 11) /\
  (forall i q, locktable_get_fat_monitor t i = Some q -> q <> 0 -> locktable_get_fat_monitor t' i = Some q).
Proof.
  intros Hok Hp Hput Hw Hfat Hres.
  destruct (put_spec t p Hok Hp) as [(id' & u & Hput' & Hok' & Hsz & Hid & Hnone & Hent)|[Hd _]]; [|congruence].
  rewrite Hput in Hput'. injection Hput' as <- <-. split.
  - apply set_fat_lock_id_spec; try done. rewrite Hent by lia. by rewrite decide_True by done.
  - intros i q Hq Hq0. unfold locktable_get_fat_monitor in *. destruct (Z.leb_spec 0 i); [|done].
    destruct (Z.ltb_spec (ux 32 i) (size t)) in Hq; [|done]. simpl in *. rewrite (proj2 (Z.ltb_lt _ _)) by lia.
    specialize (Hent i ltac:(done)). unfold entry in *. rewrite Hq in Hent. simpl in Hent.
    rewrite (proj2 (Z.eqb_neq q 0)) in Hent by done. rewrite decide_False in Hent.
    + destruct (FAT_LOCK t' i) as [q'|]; [|done]. simpl in Hent. destruct (q' =? 0); congruence.
    + intros ->. rewrite Hq in Hnone. simpl in Hnone. rewrite (proj2 (Z.eqb_neq q 0)) in Hnone; done.
Qed.

Lemma init_ok : table_ok init_lock_table.
Proof.
  split; simpl.
  - done.
  - done.
  - constructor; [|done]. unfold new_chunk. by rewrite length_replicate.
  - by rewrite length_replicate.
  - done.
  - intros i Hi Hl. by apply lookup_replicate in Hl as [? _].
Qed.

Lemma put_refines_witness : exists t', locktable_put_fat_monitor init_lock_table 77 = Put 0 t' /\ entry t' 0 = Some 77.
Proof.
  destruct (put_refines init_lock_table 77 init_ok ltac:(done)) as [(id & t' & Hput & _ & _ & _ & _ & He)|[Hd _]].
  - assert (id = 0) as ->; [|exists t'; split; [done|exact (He 0 ltac:(lia))]].
    revert Hput. unfold locktable_put_fat_monitor. vm_compute (find_slot _ _ _). simpl.
    case_bool_decide; [|done]. intros [= <- _]. done.
  - exfalso. revert Hd. unfold locktable_put_fat_monitor. vm_compute (find_slot _ _ _). simpl. by case_bool_decide.
Defined.

Lemma inflated_word_roundtrip_witness : exists id t' w', locktable_put_fat_monitor init_lock_table 77 = Put id t' /\
  set_fat_lock_id (size t') 0x00050cab id = Some w' /\ locktable_get_fat_monitor t' (FAT_LOCK_ID w') = Some 77.
Proof.
  destruct (put_spec init_lock_table 77 init_ok ltac:(done)) as [(id & t' & Hput & _)|[Hd _]].
  - destruct (inflated_word_roundtrip init_lock_table 77 id t' 0x00050cab init_ok ltac:(done) Hput) as [(w' & Hw & _ & _ & Hg & _) _];
      [split; vm_compute; congruence|vm_compute; reflexivity..|].
    exists id, t', w'. split_and!; [exact Hput|exact Hw|exact Hg].
  - exfalso. revert Hd. unfold locktable_put_fat_monitor. vm_compute (find_slot _ _ _). simpl. by case_bool_decide.
Defined.

(** ** Collection of dead monitors *)

Definition is_live (t : HyFatLockTable) (i : Z) : bool := bool_decide (live_objs t !! Z.to_nat i = Some true).

(** The monitor with number [i] when its mark is missing. *)
Definition dead (t : HyFatLockTable) (i : Z) : option Z := if is_live t i then None else entry t i.

Lemma mark_some t i : table_ok t -> 0 <= i < size t -> live_objs t !! Z.to_nat i = Some (is_live t i).
Proof.
  intros Hok Hi. unfold is_live. destruct (lookup_lt_is_Some_2 (live_objs t) (Z.to_nat i)) as [b Hb].
  { rewrite (ok_marks _ Hok). lia. }
  rewrite Hb. destruct b; [by rewrite bool_decide_true|by rewrite bool_decide_false].
Qed.

Lemma is_live_set t i j b : table_ok t -> 0 <= i < size t -> 0 <= j ->
  is_live (set_live t i b) j = if decide (i = j) then b else is_live t j.
Proof.
  intros Hok Hi Hj. unfold is_live. simpl. case_decide as E.
  - subst j. rewrite list_lookup_insert_eq by (rewrite (ok_marks _ Hok); lia). destruct b; [by rewrite bool_decide_true|].
    by rewrite bool_decide_false.
  - by rewrite list_lookup_insert_ne by lia.
Qed.

Lemma unmark_ok t i : table_ok t -> 0 <= i < size t -> table_ok (set_live t i false).
Proof.
  intros Hok Hi. pose proof (ok_marks _ Hok) as Hm. pose proof (ok_live _ Hok) as Hl.
  destruct Hok. split; simpl; try done; [by rewrite length_insert|].
  intros j Hj. destruct (decide (i = j)) as [<-|Hne].
  - rewrite list_lookup_insert_eq by lia. done.
  - rewrite list_lookup_insert_ne by lia. by apply Hl.
Qed.

Lemma mark_ok t i : table_ok t -> 0 <= i < size t -> FAT_LOCK t i <> Some 0 -> table_ok (set_live t i true).
Proof.
  intros Hok Hi H0. pose proof (ok_marks _ Hok) as Hm. pose proof (ok_live _ Hok) as Hl.
  destruct Hok. split; simpl; try done; [by rewrite length_insert|].
  intros j Hj. destruct (decide (i = j)) as [<-|Hne]; [done|]. rewrite list_lookup_insert_ne by lia. by apply Hl.
Qed.

Lemma free_ok t i : table_ok t -> 0 <= i < size t -> is_live t i = false -> table_ok (set_FAT_LOCK t i 0).
Proof.
  intros Hok Hi Hlive. pose proof (ok_live _ Hok) as Hl. pose proof (FAT_LOCK_set t Hok i) as Hset.
  destruct Hok. split; simpl; try done.
  - by rewrite length_alter.
  - apply Forall_alter; [done|]. intros x _ Hx. by rewrite length_insert.
  - intros j Hj Hlj. rewrite Hset by done. case_decide as E; [|by apply Hl]. subst j.
    unfold is_live in Hlive. by rewrite bool_decide_true in Hlive.
Qed.

Lemma reported_ok t b : table_ok t -> table_ok (set_reported t b).
Proof. intros []. by split. Qed.

(** What the loop leaves in the entries it has passed. *)
Definition reclaimed (t : HyFatLockTable) (i : Z) (t' : HyFatLockTable) : Prop :=
  table_ok t' /\ size t' = size t /\
  (forall j, 0 <= j -> entry t' j = if decide (i <= j) then (if is_live t j then entry t j else None) else entry t j) /\
  (forall j, 0 <= j -> is_live t' j = if decide (i <= j) then false else is_live t j).

Lemma entry_none t i : table_ok t -> size t <= i -> entry t i = None.
Proof. intros Hok Hi. unfold entry. by rewrite FAT_LOCK_none. Qed.

Lemma is_live_none t i : table_ok t -> 0 < size t <= i -> is_live t i = false.
Proof.
  intros Hok Hi. unfold is_live. rewrite bool_decide_false; [done|].
  rewrite lookup_ge_None_2; [done|]. rewrite (ok_marks _ Hok). lia.
Qed.

(** One turn of the loop: only entry [i] changes. *)
Definition passed (t : HyFatLockTable) (i : Z) (t1 : HyFatLockTable) : Prop :=
  table_ok t1 /\ size t1 = size t /\
  (forall j, 0 <= j -> entry t1 j = if decide (i = j) then (if is_live t i then entry t i else None) else entry t j) /\
  (forall j, 0 <= j -> is_live t1 j = if decide (i = j) then false else is_live t j).

Lemma reclaimed_cons t i t1 t' : 0 <= i -> passed t i t1 -> reclaimed t1 (i + 1) t' -> reclaimed t i t'.
Proof.
  intros Hi (_ & Hs1 & He1 & Hl1) (Hok' & Hs' & He' & Hl'). split_and!; [done|congruence|..]; intros j Hj.
  - rewrite He', He1, Hl1 by done. destruct (decide (i = j)) as [<-|].
    + by rewrite decide_False, decide_True by lia.
    + destruct (decide (i <= j)); [by rewrite decide_True by lia|by rewrite decide_False by lia].
  - rewrite Hl', Hl1 by done. destruct (decide (i = j)) as [<-|].
    + by rewrite decide_False, decide_True by lia.
    + destruct (decide (i <= j)); [by rewrite decide_True by lia|by rewrite decide_False by lia].
Qed.

Lemma dead_passed t i t1 n : 0 <= i -> passed t i t1 -> omap (dead t1) (seqZ (i + 1) n) = omap (dead t) (seqZ (i + 1) n).
Proof.
  intros Hi (_ & _ & He1 & Hl1). apply list_omap_ext, Forall_Forall2_diag, Forall_forall. intros j Hj.
  apply list_elem_of_In, elem_of_seqZ in Hj. unfold dead. rewrite He1, Hl1 by lia. by rewrite !decide_False by lia.
Qed.

Lemma reclaim_loop_spec n i t : table_ok t -> 0 <= i -> i + Z.of_nat n = size t ->
  exists t', reclaim_loop n i t = Some (t', omap (dead t) (seqZ i (Z.of_nat n))) /\ reclaimed t i t'.
Proof.
  revert i t. induction n as [|n IH]; intros i t Hok Hi Hn; pose proof (ok_max _ Hok) as Hmax.
  { exists t. split; [done|]. split_and!; [done..| |]; intros j Hj; case_decide as E; try done.
    - rewrite entry_none by (done || lia). by destruct (is_live t j).
    - apply is_live_none; [done|lia]. }
  rewrite seqZ_cons by lia. replace (Z.pred (Z.of_nat (S n))) with (Z.of_nat n) by lia. cbn [reclaim_loop].
  rewrite mark_some by (done || lia). destruct (FAT_LOCK_some t Hok i ltac:(lia)) as [p Hp]. rewrite Hp. cbn.
  assert (Hp0 : is_live t i = true -> p <> 0).
  { intros Hl ->. apply (ok_live _ Hok i Hi); [|done]. rewrite mark_some by (done || lia). by rewrite Hl. }
  assert (He : entry t i = if p =? 0 then None else Some p) by (unfold entry; by rewrite Hp).
  assert (Hrest : forall t1, passed t i t1 -> exists t', reclaim_loop n (i + 1) t1 =
    Some (t', omap (dead t) (seqZ (i + 1) (Z.of_nat n))) /\ reclaimed t i t').
  { intros t1 Ht1. destruct (IH (i + 1) t1) as (t' & -> & Hr); [apply Ht1|lia|destruct Ht1 as (_ & -> & _); lia|].
    exists t'. rewrite (dead_passed t) by done. split; [done|]. by apply (reclaimed_cons t i t1). }
  unfold dead at 1. change (Z.succ i) with (i + 1). rewrite He.
  destruct (is_live t i) eqn:Hl; destruct (Z.eqb_spec p 0) as [->|Hne].
  - by exfalso; apply Hp0.
  - apply Hrest. split_and!; [by apply unmark_ok; [|lia]|done| |]; intros j Hj.
    + rewrite Hl. by case_decide; subst.
    + by rewrite is_live_set by (done || lia).
  - apply Hrest. split_and!; [done..| |]; intros j Hj; rewrite ?Hl; by case_decide; subst.
  - destruct (Hrest (set_FAT_LOCK t i 0)) as (t' & -> & Hr).
    + split_and!; [by apply free_ok; [|lia|]|done| |]; intros j Hj.
      * pose proof (entry_set t i j 0 (array_cursor t) Hok) as Hset. rewrite Hl. apply Hset; [lia|done].
      * change (is_live (set_FAT_LOCK t i 0) j) with (is_live t j). case_decide; congruence.
    + exists t'. done.
Qed.

(** Reclaiming after a collection that reported its live objects frees exactly the
    monitors whose numbers were not reported: they are destroyed once each, in the
    order of their numbers, their entries become free, reported entries keep their
    monitors, every mark is reset for the next collection, and no assertion fails.
    Without a report nothing changes. *)
Theorem reclaim_refines t : table_ok t ->
  exists t', hythread_reclaim_resources t =
    Some (t', if live_objs_were_reported t then omap (dead t) (seqZ 0 (size t)) else []) /\ table_ok t' /\
  (forall i, 0 <= i -> entry t' i = if live_objs_were_reported t && negb (is_live t i) then None else entry t i) /\
  (live_objs_were_reported t = true -> forall i, 0 <= i -> is_live t' i = false).
Proof.
  intros Hok. pose proof (ok_max _ Hok). unfold hythread_reclaim_resources. destruct (live_objs_were_reported t); [|by exists t].
  destruct (reclaim_loop_spec (Z.to_nat (size t)) 0 (set_reported t false)) as (t' & -> & Hok' & _ & He & Hl);
    [by apply reported_ok|done|simpl; lia|].
  exists t'. split_and!; [|done| |].
  - rewrite Z2Nat.id by lia. done.
  - intros i Hi. rewrite He by done. rewrite decide_True by done.
    change (is_live (set_reported t false) i) with (is_live t i). by destruct (is_live t i).
  - intros _ i Hi. rewrite Hl by done. by rewrite decide_True.
Qed.

(** A collection cycle: every live object's word is reported, then the dead monitors
    are reclaimed. *)
Definition gc_cycle (t : HyFatLockTable) (live : list Z) : option (HyFatLockTable * list Z) :=
  t' ← foldr (fun w o => t ← o; hythread_native_resource_is_live t w) (Some t) live;
  hythread_reclaim_resources t'.

Definition marks (t : HyFatLockTable) (live : list Z) (t' : HyFatLockTable) : Prop :=
  table_ok t' /\ size t' = size t /\ (forall i, entry t' i = entry t i) /\
  live_objs_were_reported t' = live_objs_were_reported t || bool_decide (live <> []) /\
  forall i, 0 <= i -> is_live t' i = is_live t i || bool_decide (Exists (fun w => get_fat_lock_id (size t) w = Some i) live).

(** A word that finds a monitor. *)
Definition resolves (t : HyFatLockTable) (w : Z) : Prop :=
  exists i p, get_fat_lock_id (size t) w = Some i /\ 0 <= i < size t /\ entry t i = Some p.

Lemma mark_spec t live : table_ok t -> Forall (resolves t) live ->
  exists t', foldr (fun w o => t ← o; hythread_native_resource_is_live t w) (Some t) live = Some t' /\ marks t live t'.
Proof.
  intros Hok. induction live as [|w live IH]; intros Hf.
  - exists t. split; [done|]. split_and!; [done..| |].
    + by rewrite bool_decide_false, orb_false_r by (intros H; by apply H).
    + intros i _. rewrite bool_decide_false, orb_false_r; [done|]. intros H. inversion H.
  - apply Forall_cons_1 in Hf as [(k & p & Hk & Hkr & Hp) Hf].
    destruct (IH Hf) as (t1 & Heq & Hok1 & Hs1 & He1 & Hr1 & Hl1). clear IH.
    assert (Hk1 : FAT_LOCK t1 k <> Some 0).
    { specialize (He1 k). rewrite Hp in He1. unfold entry in He1. intros H0. by rewrite H0 in He1. }
    exists (set_reported (set_live t1 k true) true). cbn [foldr]. rewrite Heq. cbn. unfold hythread_native_resource_is_live.
    rewrite Hs1, Hk. split; [done|]. split_and!.
    + by apply reported_ok, mark_ok; [|lia|].
    + done.
    + intros i. apply (He1 i).
    + rewrite (bool_decide_true (w :: live <> [])) by congruence. by rewrite orb_true_r.
    + intros i Hi. change (is_live (set_reported ?a true) i) with (is_live a i). rewrite is_live_set by (done || lia).
      rewrite Hl1 by done. case_decide as E.
      * subst i. rewrite (bool_decide_true (Exists _ (w :: live))) by (by left). by rewrite orb_true_r.
      * f_equal. apply bool_decide_ext. rewrite Exists_cons, Hk. split; [by right|]. intros [[= ?]|?]; done.
Qed.

(** Some object that stays alive has the monitor of the entry. *)
Definition reports (t : HyFatLockTable) (live : list Z) (i : Z) : Prop := Exists (fun w => get_fat_lock_id (size t) w = Some i) live.
#[export] Instance reports_dec t live i : Decision (reports t live i).
Proof. unfold reports. apply _. Defined.
(** C34: A collection cycle, from a table without marks, over the lock words of the objects
    that stay alive, each of which finds a monitor. No assertion fails and the marks are
    reset. If there is such a word, or one was reported before, every word still finds the
    monitor it found, every other entry is free, and the monitors of the freed entries are
    destroyed, once each, in the order of their numbers. If nothing was reported, nothing
    changes and nothing is destroyed, although every monitor is then dead. *)
Theorem gc_cycle_keeps_live t live : table_ok t -> (forall i, 0 <= i -> is_live t i = false) -> Forall (resolves t) live ->
  let reported := live_objs_were_reported t || bool_decide (live <> []) in
  exists t', gc_cycle t live =
      Some (t', if reported then omap (fun i => if bool_decide (reports t live i) then None else entry t i) (seqZ 0 (size t)) else []) /\
    table_ok t' /\ (forall i, 0 <= i -> is_live t' i = false) /\
    forall i, 0 <= i -> entry t' i = if reported && negb (bool_decide (reports t live i)) then None else entry t i.
Proof.
  intros Hok Hnone Hf reported. destruct (mark_spec t live Hok Hf) as (t1 & Heq & Hok1 & Hs1 & He1 & Hr1 & Hl1). fold reported in Hr1.
  destruct (reclaim_refines t1 Hok1) as (t' & Hrec & Hok' & He & Hl). rewrite Hr1, Hs1 in *.
  assert (Hlive : forall i, 0 <= i -> is_live t1 i = bool_decide (reports t live i)) by (intros i Hi; by rewrite Hl1, Hnone).
  exists t'. unfold gc_cycle. rewrite Heq. cbn [mbind option_bind]. rewrite Hrec. split; [|split; [done|split]].
  - do 2 f_equal. destruct reported; [|done]. apply list_omap_ext, Forall_Forall2_diag, Forall_forall. intros i Hi.
    apply list_elem_of_In, elem_of_seqZ in Hi. unfold dead. rewrite Hlive, He1 by lia. by destruct (bool_decide _).
  - intros i Hi. destruct reported eqn:E; [by apply Hl|]. unfold reported in E. apply orb_false_iff in E as [_ E].
    apply bool_decide_eq_false in E. assert (live = []) as -> by (destruct live; [done|by destruct E]).
    simpl in Heq. injection Heq as <-. unfold hythread_reclaim_resources in Hrec. rewrite Hr1 in Hrec. injection Hrec as <-. by apply Hnone.
  - intros i Hi. rewrite He, Hlive, He1 by done. done.
Qed.

(** A table with monitors 77 and 88 under the numbers 0 and 1. *)
Definition two_monitors : HyFatLockTable :=
  set_cursor (set_FAT_LOCK (set_cursor (set_FAT_LOCK init_lock_table 0 77) 1) 1 88) 2.

Lemma init_entry i : 0 <= i < HY_FAT_TABLE_ENTRIES -> FAT_LOCK init_lock_table i = Some 0.
Proof.
  intros Hi. unfold FAT_LOCK. rewrite Z.div_small, Z.mod_small by done. simpl. apply lookup_replicate_2. lia.
Qed.

Lemma two_monitors_ok : table_ok two_monitors /\ (forall i, 0 <= i -> is_live two_monitors i = false) /\
  entry two_monitors 0 = Some 77 /\ entry two_monitors 1 = Some 88.
Proof.
  pose proof entries_pos. assert (E2 : 2 < HY_FAT_TABLE_ENTRIES) by done.
  assert (Hok1 : table_ok (set_cursor (set_FAT_LOCK init_lock_table 0 77) 1)).
  { apply set_ok; [apply init_ok|simpl; lia|apply init_entry; lia|done|simpl; lia]. }
  assert (H1 : FAT_LOCK (set_cursor (set_FAT_LOCK init_lock_table 0 77) 1) 1 = Some 0).
  { change (FAT_LOCK (set_FAT_LOCK init_lock_table 0 77) 1 = Some 0).
    rewrite FAT_LOCK_set by (apply init_ok || simpl; lia). rewrite decide_False by done. apply init_entry. lia. }
  split_and!.
  - apply set_ok; [done|simpl; lia|done..|simpl; lia].
  - intros i Hi. unfold is_live. simpl. apply bool_decide_false. intros Hl. by apply lookup_replicate in Hl as [? _].
  - unfold two_monitors. rewrite entry_set by (done || simpl; lia). rewrite decide_False by done.
    rewrite entry_set by (apply init_ok || simpl; lia). done.
  - unfold two_monitors. rewrite entry_set by (done || simpl; lia). done.
Qed.

Lemma reclaim_refines_witness : exists t', hythread_reclaim_resources (set_reported two_monitors true) = Some (t', omap (dead two_monitors) (seqZ 0 HY_FAT_TABLE_ENTRIES)) /\
  entry t' 0 = None /\ entry t' 1 = None.
Proof.
  destruct two_monitors_ok as (Hok & Hl & _ & _).
  destruct (reclaim_refines (set_reported two_monitors true) (reported_ok _ _ Hok)) as (t' & Heq & _ & He & _).
  exists t'. split_and!; [exact Heq|rewrite He by done..].
  - change (is_live (set_reported two_monitors true) 0) with (is_live two_monitors 0). by rewrite Hl.
  - change (is_live (set_reported two_monitors true) 1) with (is_live two_monitors 1). by rewrite Hl.
Defined.

Lemma gc_cycle_keeps_live_witness : exists t' ds, gc_cycle two_monitors [fat 1 0x2ab] = Some (t', ds) /\
  entry t' 0 = None /\ entry t' 1 = Some 88.
Proof.
  destruct two_monitors_ok as (Hok & Hl & H0 & H1). assert (E2 : 2 < HY_FAT_TABLE_ENTRIES) by done.
  assert (Hg : get_fat_lock_id (size two_monitors) (fat 1 0x2ab) = Some 1).
  { apply fat_get; [split; lia|simpl; lia]. }
  destruct (gc_cycle_keeps_live two_monitors [fat 1 0x2ab] Hok Hl) as (t' & Heq & _ & _ & He).
  - repeat constructor. exists 1, 88. split_and!; [done|lia|simpl; lia|done].
  - do 2 eexists. split; [exact Heq|]. pose proof (He 0 ltac:(lia)) as He0. pose proof (He 1 ltac:(lia)) as He1. clear He Heq.
    rewrite (bool_decide_true ([fat 1 0x2ab] <> [])), orb_true_r in He0, He1 by congruence. split.
    + rewrite He0, bool_decide_false; [reflexivity|]. unfold reports. rewrite Exists_cons, Hg, Exists_nil. by intros [?|?].
    + rewrite He1, bool_decide_true; [exact H1|]. by left.
Defined.
