(* ===== verification/RWLock.v ===== *)
(** * The reader-writer lock of the lock table: [thread/src/thread_native_thin_monitor.c]

    Each of the four functions runs under the mutex, and [hycond_wait_timed_raw]
    releases it, so a thread takes a step for the part of a function up to the wait
    and another for the part after it.  A wait ends when the thread is notified; a
    notification that finds no thread waiting is lost.  Which waiting thread is
    notified is open.  A condition variable may also end a wait for no reason
    ([os_cond_timedwait] is the system's), and the code does not look again at what it
    waited for: the steps are with or without such spurious ends.  [None] is a failed
    assertion. *)
From stdpp Require Import gmap.
From S2P Require Import Prelude Threads.

Inductive hythread_locktable_state := HYTHREAD_LOCKTABLE_IDLE | HYTHREAD_LOCKTABLE_READING | HYTHREAD_LOCKTABLE_WRITING.
#[export] Instance locktable_state_eq_dec : EqDecision hythread_locktable_state.
Proof. solve_decision. Defined.

Record rwlock := RW {
  readers_reading : Z;
  readers_waiting : Z;
  writers_waiting : Z;
  rw_state : hythread_locktable_state;
}.
Definition init_rwlock : rwlock := RW 0 0 0 HYTHREAD_LOCKTABLE_IDLE.

(** What a thread is doing: outside, inside a section, waiting on a condition, or
    notified and about to take the mutex again. *)
Inductive who := Out | Reading | Writing | WaitRead | WaitWrite | WokenRead | WokenWrite.
#[export] Instance who_eq_dec : EqDecision who.
Proof. solve_decision. Defined.

(** The notifications a function sends. *)
Inductive signal := NoSignal | NotifyWrite | NotifyAllRead.

(** [locktable_reader_enter] before and after its wait. *)
Definition locktable_reader_enter (l : rwlock) : rwlock * who :=
  if bool_decide (rw_state l = HYTHREAD_LOCKTABLE_IDLE)
     || (bool_decide (rw_state l = HYTHREAD_LOCKTABLE_READING) && (writers_waiting l =? 0)) then
    (RW (readers_reading l + 1) (readers_waiting l) (writers_waiting l) HYTHREAD_LOCKTABLE_READING, Reading)
  else (RW (readers_reading l) (readers_waiting l + 1) (writers_waiting l) (rw_state l), WaitRead).
Definition locktable_reader_woken (l : rwlock) : option rwlock :=
  if bool_decide (rw_state l = HYTHREAD_LOCKTABLE_READING) then Some l else None.

Definition locktable_reader_exit (l : rwlock) : rwlock * signal :=
  let r := readers_reading l - 1 in
  if r =? 0 then
    if 0 <? writers_waiting l then (RW r (readers_waiting l) (writers_waiting l) HYTHREAD_LOCKTABLE_WRITING, NotifyWrite)
    else (RW r (readers_waiting l) (writers_waiting l) HYTHREAD_LOCKTABLE_IDLE, NoSignal)
  else (RW r (readers_waiting l) (writers_waiting l) (rw_state l), NoSignal).

(** [locktable_writer_enter] before and after its wait. *)
Definition locktable_writer_enter (l : rwlock) : rwlock * who :=
  if negb (bool_decide (rw_state l = HYTHREAD_LOCKTABLE_IDLE)) then
    (RW (readers_reading l) (readers_waiting l) (writers_waiting l + 1) (rw_state l), WaitWrite)
  else (RW (readers_reading l) (readers_waiting l) (writers_waiting l) HYTHREAD_LOCKTABLE_WRITING, Writing).
Definition locktable_writer_woken (l : rwlock) : option rwlock :=
  if bool_decide (rw_state l = HYTHREAD_LOCKTABLE_WRITING) then
    Some (RW (readers_reading l) (readers_waiting l) (writers_waiting l - 1) (rw_state l))
  else None.

Definition locktable_writer_exit (l : rwlock) : rwlock * signal :=
  if 0 <? readers_reading l then
    (RW (readers_waiting l) 0 (writers_waiting l) HYTHREAD_LOCKTABLE_READING, NotifyAllRead)
  else if 0 <? writers_waiting l then (l, NotifyWrite)
  else (RW (readers_reading l) (readers_waiting l) (writers_waiting l) HYTHREAD_LOCKTABLE_IDLE, NoSignal).

(** ** Threads *)

Inductive notify : signal -> gmap Z who -> gmap Z who -> Prop :=
  | notify_none ts : notify NoSignal ts ts
  | notify_one t ts : ts !! t = Some WaitWrite -> notify NotifyWrite ts (<[t := WokenWrite]> ts)
  | notify_lost ts : (forall t, ts !! t <> Some WaitWrite) -> notify NotifyWrite ts ts
  | notify_readers ts : notify NotifyAllRead ts ((fun s => if decide (s = WaitRead) then WokenRead else s) <$> ts).

Record rwsys := RWSys { lock : rwlock; who_is : gmap Z who }.

Section rwstep.
(** Whether waits may end for no reason. *)
Variable spurious : bool.

Inductive rwstep : rwsys -> rwsys -> Prop :=
  | rw_reader_spurious t l ts : spurious = true -> ts !! t = Some WaitRead -> rwstep (RWSys l ts) (RWSys l (<[t := WokenRead]> ts))
  | rw_writer_spurious t l ts : spurious = true -> ts !! t = Some WaitWrite -> rwstep (RWSys l ts) (RWSys l (<[t := WokenWrite]> ts))
  | rw_reader_enter t l l' s ts : ts !! t = Some Out -> locktable_reader_enter l = (l', s) ->
      rwstep (RWSys l ts) (RWSys l' (<[t := s]> ts))
  | rw_reader_woken t l l' ts : ts !! t = Some WokenRead -> locktable_reader_woken l = Some l' ->
      rwstep (RWSys l ts) (RWSys l' (<[t := Reading]> ts))
  | rw_reader_exit t l l' g ts ts' : ts !! t = Some Reading -> locktable_reader_exit l = (l', g) ->
      notify g (<[t := Out]> ts) ts' -> rwstep (RWSys l ts) (RWSys l' ts')
  | rw_writer_enter t l l' s ts : ts !! t = Some Out -> locktable_writer_enter l = (l', s) ->
      rwstep (RWSys l ts) (RWSys l' (<[t := s]> ts))
  | rw_writer_woken t l l' ts : ts !! t = Some WokenWrite -> locktable_writer_woken l = Some l' ->
      rwstep (RWSys l ts) (RWSys l' (<[t := Writing]> ts))
  | rw_writer_exit t l l' g ts ts' : ts !! t = Some Writing -> locktable_writer_exit l = (l', g) ->
      notify g (<[t := Out]> ts) ts' -> rwstep (RWSys l ts) (RWSys l' ts').
End rwstep.

(** ** The invariant *)

Definition doing (a s : who) : bool := bool_decide (s = a).
Definition count_of (ts : gmap Z who) (a : who) : Z := count (doing a) ts.

Lemma count_of_insert ts t s s' a : ts !! t = Some s ->
  count_of (<[t := s']> ts) a = count_of ts a - Z.b2z (bool_decide (s = a)) + Z.b2z (bool_decide (s' = a)).
Proof. apply (count_insert (doing a)). Qed.

(** The numbers of the record count threads, and the state says who is inside: a
    writer that was handed the lock counts as inside. *)
Record rw_inv (s : rwsys) : Prop := {
  rw_reading : readers_reading (lock s) = count_of (who_is s) Reading;
  rw_waiting_r : readers_waiting (lock s) = count_of (who_is s) WaitRead;
  rw_waiting_w : writers_waiting (lock s) = count_of (who_is s) WaitWrite + count_of (who_is s) WokenWrite;
  rw_woken_r : count_of (who_is s) WokenRead = 0;
  rw_mode : let writers := count_of (who_is s) Writing + count_of (who_is s) WokenWrite in
    match rw_state (lock s) with
    | HYTHREAD_LOCKTABLE_IDLE => readers_reading (lock s) = 0 /\ writers_waiting (lock s) = 0 /\ writers = 0
    | HYTHREAD_LOCKTABLE_READING => 0 < readers_reading (lock s) /\ writers = 0
    | HYTHREAD_LOCKTABLE_WRITING => readers_reading (lock s) = 0 /\ writers = 1
    end;
}.

Ltac count_facts ts :=
  let rec go l := lazymatch l with
    | cons ?a ?l => pose proof (count_nonneg (doing a) ts : 0 <= count_of ts a); go l
    | nil => idtac end in
  go constr:([Reading; WaitRead; WaitWrite; WokenRead; WokenWrite; Writing]).

(** The facts about the state before a step by a thread that is [s]. *)
Ltac rw_facts :=
  match goal with Hinv : rw_inv (RWSys ?l ?ts), Ht : ?ts !! ?t = Some ?s |- _ =>
    let Hp := fresh "Hp" in
    pose proof (count_pos (doing s) ts t s Ht) as Hp; change (count (doing s) ts) with (count_of ts s) in Hp;
    try (specialize (Hp (bool_decide_true _ eq_refl)));
    count_facts ts;
    destruct Hinv as [Hreading Hwr Hww Hwokr Hmode]; simpl in Hreading, Hwr, Hww, Hwokr, Hmode
  end.

(** The counts after the step, one thread at a time. *)
Ltac rw_solve :=
  split; simpl; erewrite ?count_of_insert by (rewrite ?lookup_insert_eq; eassumption || reflexivity); simpl; repeat split; try done; lia.

Lemma reader_enter_inv t l l' s ts : rw_inv (RWSys l ts) -> ts !! t = Some Out ->
  locktable_reader_enter l = (l', s) -> rw_inv (RWSys l' (<[t := s]> ts)).
Proof.
  intros Hinv Ht H. rw_facts. unfold locktable_reader_enter in H.
  destruct (rw_state l) eqn:E; simpl in *; [|destruct (Z.eqb_spec (writers_waiting l) 0)|];
    injection H as <- <-; rw_solve.
Qed.

Lemma reader_woken_inv t l l' ts : rw_inv (RWSys l ts) -> ts !! t = Some WokenRead ->
  locktable_reader_woken l = Some l' -> rw_inv (RWSys l' (<[t := Reading]> ts)).
Proof. intros Hinv Ht H. rw_facts. lia. Qed.

Lemma writer_enter_inv t l l' s ts : rw_inv (RWSys l ts) -> ts !! t = Some Out ->
  locktable_writer_enter l = (l', s) -> rw_inv (RWSys l' (<[t := s]> ts)).
Proof.
  intros Hinv Ht H. rw_facts. unfold locktable_writer_enter in H.
  destruct (rw_state l) eqn:E; simpl in *; injection H as <- <-; rw_solve.
Qed.

Lemma writer_woken_inv t l l' ts : rw_inv (RWSys l ts) -> ts !! t = Some WokenWrite ->
  locktable_writer_woken l = Some l' -> rw_inv (RWSys l' (<[t := Writing]> ts)).
Proof.
  intros Hinv Ht H. rw_facts. unfold locktable_writer_woken in H.
  destruct (rw_state l) eqn:E; simpl in *; try done; injection H as <-; rw_solve.
Qed.

(** A writer waits when the numbers say so, so the notification is not lost. *)
Lemma notify_write ts t ts' : ts !! t = Some Out -> 0 < count_of ts WaitWrite -> notify NotifyWrite ts ts' ->
  exists u, ts !! u = Some WaitWrite /\ ts' = <[u := WokenWrite]> ts.
Proof.
  intros Ht Hc H. inversion H as [|u ? Hu|? Hnone|]; subst; [by exists u|]. exfalso.
  assert (count_of ts' WaitWrite = 0); [|lia]. unfold count_of, count.
  rewrite (proj2 (map_empty_filter _ _)); [done|]. intros u x Hx. simpl. unfold doing.
  rewrite bool_decide_false; [done|]. intros ->. by apply (Hnone u).
Qed.

Lemma reader_exit_inv t l l' g ts ts' : rw_inv (RWSys l ts) -> ts !! t = Some Reading ->
  locktable_reader_exit l = (l', g) -> notify g (<[t := Out]> ts) ts' -> rw_inv (RWSys l' ts').
Proof.
  intros Hinv Ht H Hn. rw_facts. unfold locktable_reader_exit in H.
  destruct (rw_state l) eqn:E; simpl in *; [lia| |lia].
  destruct (Z.eqb_spec (readers_reading l - 1) 0); [destruct (Z.ltb_spec 0 (writers_waiting l))|]; injection H as <- <-.
  - apply (notify_write _ t) in Hn as (u & Hu & ->); [|apply lookup_insert_eq|].
    + split; simpl; rewrite !(count_of_insert _ _ _ _ _ Hu), !(count_of_insert _ _ _ _ _ Ht); simpl; lia.
    + rewrite (count_of_insert _ _ _ _ _ Ht). simpl. lia.
  - inversion Hn; subst. rw_solve.
  - inversion Hn; subst. rw_solve.
Qed.

Lemma writer_exit_inv t l l' g ts ts' : rw_inv (RWSys l ts) -> ts !! t = Some Writing ->
  locktable_writer_exit l = (l', g) -> notify g (<[t := Out]> ts) ts' -> rw_inv (RWSys l' ts').
Proof.
  intros Hinv Ht H Hn. rw_facts. unfold locktable_writer_exit in H.
  destruct (rw_state l) eqn:E; simpl in *; [lia|lia|].
  destruct (Z.ltb_spec 0 (readers_reading l)); [lia|].
  destruct (Z.ltb_spec 0 (writers_waiting l)); injection H as <- <-.
  - apply (notify_write _ t) in Hn as (u & Hu & ->); [|apply lookup_insert_eq|].
    + split; simpl; rewrite ?E, !(count_of_insert _ _ _ _ _ Hu), !(count_of_insert _ _ _ _ _ Ht); simpl; lia.
    + rewrite (count_of_insert _ _ _ _ _ Ht). simpl. lia.
  - inversion Hn; subst. rw_solve.
Qed.

Create HintDb rwlock.
#[export] Hint Resolve reader_enter_inv reader_woken_inv reader_exit_inv writer_enter_inv writer_woken_inv writer_exit_inv : rwlock.

Definition rw_initial (ids : gset Z) : rwsys := RWSys init_rwlock (gset_to_gmap Out ids).

Lemma rw_initial_inv ids : rw_inv (rw_initial ids).
Proof. split; simpl; unfold count_of; rewrite !count_gset by done; done. Qed.

Lemma rw_reachable_inv ids s : rtc (rwstep false) (rw_initial ids) s -> rw_inv s.
Proof.
  generalize (rw_initial_inv ids). generalize (rw_initial ids). intros s0 Hinv Hr.
  induction Hr as [|x y z Hxy _ IH]; [done|]. apply IH. destruct Hxy; done || eauto with rwlock.
Qed.

(** C36: As long as a wait ends only by a notification: in every reachable state of any
    number of threads a thread in the write section is alone in it and nobody is in the
    read section, the three numbers of the lock are the numbers of threads reading,
    waiting to read and waiting to write, and a notified writer finds the state its
    assertion expects. With spurious ends of waits, after which the code does not look
    again, the lock does not exclude ([RWLock.spurious_reader]). *)
Theorem rwlock_exclusion ids s : rtc (rwstep false) (rw_initial ids) s ->
  (forall t u a, who_is s !! t = Some Writing -> who_is s !! u = Some a -> a = Writing \/ a = Reading -> t = u) /\
  readers_reading (lock s) = count_of (who_is s) Reading /\ readers_waiting (lock s) = count_of (who_is s) WaitRead /\
  writers_waiting (lock s) = count_of (who_is s) WaitWrite + count_of (who_is s) WokenWrite /\
  (forall t, who_is s !! t = Some WokenWrite -> is_Some (locktable_writer_woken (lock s))).
Proof.
  intros Hr. apply rw_reachable_inv in Hr. destruct s as [l ts].
  assert (Hmode : forall t a, a = Writing \/ a = WokenWrite -> ts !! t = Some a ->
    rw_state l = HYTHREAD_LOCKTABLE_WRITING /\ count_of ts Writing <= 1 /\ count_of ts Reading = 0).
  { intros t a Ha Ht. destruct Ha as [->| ->]; rw_facts; destruct (rw_state l); lia || (split; [done|lia]). }
  split_and!; try apply Hr; simpl.
  - intros t u a Ht Hu Ha. destruct (Hmode t _ (or_introl eq_refl) Ht) as (_ & Hw & Hrd). destruct Ha as [-> | ->].
    + by apply (count_unique (doing Writing) ts t u Writing Writing).
    + exfalso. by pose proof (count_none (doing Reading) ts u Reading Hrd Hu).
  - intros t Ht. destruct (Hmode t _ (or_intror eq_refl) Ht) as (Hst & _). unfold locktable_writer_woken.
    by rewrite bool_decide_true.
Qed.

(** A writer that leaves finds no reader reading. *)
Lemma writer_exit_signal t l l' g ts : rw_inv (RWSys l ts) -> ts !! t = Some Writing ->
  locktable_writer_exit l = (l', g) -> g <> NotifyAllRead.
Proof.
  intros Hinv Ht H. rw_facts. unfold locktable_writer_exit in H.
  destruct (Z.ltb_spec 0 (readers_reading l)); [destruct (rw_state l); lia|]. repeat case_match; congruence.
Qed.

(** No reader that waits is ever notified. *)
Lemma reader_waits s s' t : rw_inv s -> rwstep false s s' -> who_is s !! t = Some WaitRead -> who_is s' !! t = Some WaitRead.
Proof.
  intros Hinv Hs Hw.
  assert (Hne : forall u a b (ts : gmap Z who), ts !! t = Some WaitRead -> ts !! u = Some a -> a <> WaitRead -> (<[u := b]> ts) !! t = Some WaitRead).
  { intros u a b ts Ht Hu Ha. rewrite lookup_insert_ne; [done|]. congruence. }
  assert (Hno : forall g ts ts', g <> NotifyAllRead -> notify g ts ts' -> ts !! t = Some WaitRead -> ts' !! t = Some WaitRead).
  { intros g ts ts' Hg Hn Ht. destruct Hn; try done. by apply (Hne _ WaitWrite). }
  destruct Hs as [u l ts E Hu|u l ts E Hu|u l l' a ts Hu H|u l l' ts Hu H|u l l' g ts ts' Hu H Hn|u l l' a ts Hu H|u l l' ts Hu H|u l l' g ts ts' Hu H Hn];
    simpl in *; try discriminate E; try by eapply Hne.
  - eapply Hno; [|done|by eapply Hne]. unfold locktable_reader_exit in H. repeat case_match; congruence.
  - eapply Hno; [by eapply writer_exit_signal|done|by eapply Hne].
Qed.

(** [locktable_writer_exit] asks whether readers are reading where it has to ask
    whether they are waiting, which is never so while a writer is inside: a reader
    that had to wait is never let in again, in any continuation of any reachable
    state, however many writers come and go. *)
Theorem readers_starve ids s s' t : rtc (rwstep false) (rw_initial ids) s -> who_is s !! t = Some WaitRead ->
  rtc (rwstep false) s s' -> who_is s' !! t = Some WaitRead.
Proof.
  intros Hr Ht Hr'. revert Hr Ht. induction Hr' as [|x y z Hxy _ IH]; [done|]. intros Hr Ht. apply IH.
  - by eapply rtc_r.
  - apply (reader_waits x); [by eapply rw_reachable_inv|done|done].
Qed.

(** With spurious ends of waits the lock does not exclude.  A reader reads, a writer waits
    and a second reader with it; the wait of the second reader ends while the first one
    reads, so that its assertion holds, but nobody counts it; the first reader leaves,
    hands the lock to the writer, and the writer is inside together with the second reader. *)
Theorem spurious_reader : exists s, rtc (rwstep true) (rw_initial {[1; 2; 3]}) s /\ who_is s !! 3 = Some Reading /\ who_is s !! 2 = Some Writing.
Proof.
  eexists. split; [|split].
  - eapply rtc_l; [eapply (rw_reader_enter _ 1); reflexivity|].
    eapply rtc_l; [eapply (rw_writer_enter _ 2); reflexivity|].
    eapply rtc_l; [eapply (rw_reader_enter _ 3); reflexivity|].
    eapply rtc_l; [eapply (rw_reader_spurious _ 3); reflexivity|].
    eapply rtc_l; [eapply (rw_reader_woken _ 3); reflexivity|].
    eapply rtc_l; [eapply (rw_reader_exit _ 1); [reflexivity..|by apply (notify_one 2)]|].
    eapply rtc_l; [eapply (rw_writer_woken _ 2); reflexivity|]. apply rtc_refl.
  - by vm_compute.
  - by vm_compute.
Qed.

(** One writer inside, a reader comes and waits, the writer leaves and nobody is left
    inside: the reader still waits. *)
Lemma readers_starve_witness : exists s', rtc (rwstep false) (rw_initial {[1; 2]}) s' /\ who_is s' !! 1 = Some Out /\
  rw_state (lock s') = HYTHREAD_LOCKTABLE_IDLE /\ who_is s' !! 2 = Some WaitRead.
Proof.
  assert (exists s, rtc (rwstep false) (rw_initial {[1; 2]}) s /\ who_is s !! 2 = Some WaitRead /\ exists s', rtc (rwstep false) s s' /\
    who_is s' !! 1 = Some Out /\ rw_state (lock s') = HYTHREAD_LOCKTABLE_IDLE) as (s & Hs & H2 & s' & Hs' & H1 & Hi).
  { eexists. split; [|split; [|eexists; split]].
    - eapply rtc_l; [eapply (rw_writer_enter _ 1); reflexivity|].
      eapply rtc_l; [eapply (rw_reader_enter _ 2); reflexivity|]. apply rtc_refl.
    - reflexivity.
    - eapply rtc_l; [eapply (rw_writer_exit _ 1); [reflexivity..|apply notify_none]|]. apply rtc_refl.
    - by vm_compute. }
  exists s'. split; [by transitivity s|]. split; [exact H1|]. split; [exact Hi|].
  exact (readers_starve {[1; 2]} s s' 2 Hs H2 Hs').
Defined.

Lemma rwlock_exclusion_witness : exists s, rtc (rwstep false) (rw_initial {[1; 2]}) s /\ who_is s !! 1 = Some Writing /\
  writers_waiting (lock s) = 1 /\ writers_waiting (lock s) = count_of (who_is s) WaitWrite + count_of (who_is s) WokenWrite.
Proof.
  eexists. match goal with |- ?A /\ _ => assert (Hr : A) end.
  { eapply rtc_l; [eapply (rw_writer_enter _ 1); reflexivity|].
    eapply rtc_l; [eapply (rw_writer_enter _ 2); reflexivity|]. apply rtc_refl. }
  split; [exact Hr|]. destruct (rwlock_exclusion _ _ Hr) as (_ & _ & _ & Hw & _).
  split; [by vm_compute|]. split; [by vm_compute|exact Hw].
Defined.
