(* ===== verification/Suspend.v ===== *)
(** * Safe suspension: [thread/src/thread_native_suspend.c]

    A thread that runs code that cannot be interrupted has a non-zero
    [disable_count]; another thread suspends it by counting up its [suspend_count] and
    [request] and waiting until it sees the [disable_count] at zero.  The thread itself
    looks at the counts when it ends its safe region and at its safe points, and sleeps
    on its [resume_event] while there are suspensions.

    The model is a system of threads with one shared memory, sequentially consistent.
    A [frame] is a place in a function with the locals that are live there; a thread has
    a stack of frames and [exec] runs the top one, with at most one access to a shared
    field.  Calls push frames, a thread whose stack is empty, or stands at a callback,
    is in the code of its client and may call any function of the interface.  [None]
    from [exec] is a thread that is blocked.  [hythread_yield] and the tracing do
    nothing to the state. *)
From stdpp Require Import gmap gmultiset functions.
From S2P Require Import Prelude Threads.

(** ** The semaphore, [thread_native_semaphore.c]

    Each function runs under the mutex of the semaphore, and a wait looks at the
    count again when it wakes up, so a call is one step.  The wait is not interruptible
    and has no time limit: [hycond_wait] inside it resets and restores a
    [disable_count] that is zero here already. *)
Record HySemaphore := Sem { sem_count : Z; max_count : Z }.

Definition hysem_create (initial_count max : Z) : HySemaphore := Sem initial_count max.
Definition hysem_wait (s : HySemaphore) : option HySemaphore :=
  if sem_count s <=? 0 then None else Some (Sem (sem_count s - 1) (max_count s)).

Inductive sem_status := TM_ERROR_NONE | TM_ERROR_ILLEGAL_STATE.
Definition hysem_post (s : HySemaphore) : HySemaphore * sem_status :=
  if max_count s <=? sem_count s then (s, TM_ERROR_ILLEGAL_STATE)
  else (Sem (sem_count s + 1) (max_count s), TM_ERROR_NONE).
Definition hysem_set (s : HySemaphore) (n : Z) : HySemaphore * sem_status :=
  if max_count s <? n then (s, TM_ERROR_ILLEGAL_STATE) else (Sem n (max_count s), TM_ERROR_NONE).

(** ** The fields of a thread that others may look at

    [unclaimed] is not a field of the code: it is how many of the thread's suspensions
    of itself nobody has answered with a resume yet. *)
Record HyThread := Thr {
  request : Z;                 (* U_32 *)
  suspend_count : Z;           (* U_32 *)
  disable_count : Z;           (* int16 *)
  resume_event : HySemaphore;
  state_suspended : bool;      (* TM_THREAD_STATE_SUSPENDED in [state] *)
  safepoint_callback : bool;   (* not NULL *)
  unclaimed : Z;
}.

Definition hythread_struct_init : HyThread := Thr 0 0 0 (hysem_create 0 1) false false 0.

Definition apr_atomic_inc32 (x : Z) : Z := ux 32 (x + 1).
Definition apr_atomic_dec32 (x : Z) : Z := ux 32 (x - 1).

Definition set_request f (h : HyThread) : HyThread :=
  Thr (f (request h)) (suspend_count h) (disable_count h) (resume_event h) (state_suspended h) (safepoint_callback h) (unclaimed h).
Definition set_suspend_count f (h : HyThread) : HyThread :=
  Thr (request h) (f (suspend_count h)) (disable_count h) (resume_event h) (state_suspended h) (safepoint_callback h) (unclaimed h).
Definition set_disable_count n (h : HyThread) : HyThread :=
  Thr (request h) (suspend_count h) (sx 16 n) (resume_event h) (state_suspended h) (safepoint_callback h) (unclaimed h).
Definition set_resume_event e (h : HyThread) : HyThread :=
  Thr (request h) (suspend_count h) (disable_count h) e (state_suspended h) (safepoint_callback h) (unclaimed h).
Definition set_suspended b (h : HyThread) : HyThread :=
  Thr (request h) (suspend_count h) (disable_count h) (resume_event h) b (safepoint_callback h) (unclaimed h).
Definition set_callback b (h : HyThread) : HyThread :=
  Thr (request h) (suspend_count h) (disable_count h) (resume_event h) (state_suspended h) b (unclaimed h).
Definition set_unclaimed f (h : HyThread) : HyThread :=
  Thr (request h) (suspend_count h) (disable_count h) (resume_event h) (state_suspended h) (safepoint_callback h) (f (unclaimed h)).

(** A mutex that its owner may lock again: who has it and how often. *)
Definition nested := option (Z * Z).
Definition mutex_lock (t : Z) (m : nested) : option nested :=
  match m with
  | None => Some (Some (t, 1))
  | Some (o, d) => if o =? t then Some (Some (t, d + 1)) else None
  end.
Definition mutex_unlock (m : nested) : nested :=
  match m with
  | Some (o, d) => if d =? 1 then None else Some (o, d - 1)
  | None => None
  end.

Record world := World { mem : Z -> HyThread; TM_LOCK : nested; vm_gc_lock : nested }.
Definition on (t : Z) (g : HyThread -> HyThread) (w : world) : world := World (alter g t (mem w)) (TM_LOCK w) (vm_gc_lock w).

(** ** Places in the code *)

(** Who waits in [wait_safe_region_event]. *)
Inductive waiter := SuspendOther | SuspendAll.

Inductive frame :=
  (* thread_safe_point_impl *)
  | SafePoint | SafePoint_save | SafePoint_wait (gc_disable_count : Z) | SafePoint_loop (gc_disable_count : Z)
  (* hythread_set_suspend_disable, hythread_suspend_disable *)
  | SetDisable (count : Z) | SetDisable_check (count : Z) | Disable_check
  (* hythread_send_suspend_request to another thread and to oneself *)
  | Send (u : Z) | Send_request (u : Z) | Send_self | Send_self_request | Suspend_state
  (* wait_safe_region_event *)
  | WaitRegion (u : Z) (k : waiter) | WaitRegion_self (u : Z) (k : waiter) | WaitRegion_state (u : Z) (k : waiter)
  (* hythread_resume *)
  | Resume (u : Z) | Resume_cas (u count : Z) | Resume_request (u : Z) | Resume_check (u : Z)
  | Resume_state (u : Z) | Resume_post (u : Z)
  (* hythread_global_lock, hythread_global_unlock *)
  | GlobalLock | GlobalLock_check | GlobalLock_unlock | GlobalUnlock
  (* the loops of hythread_suspend_all and hythread_resume_all *)
  | SuspendAll_send (us : list Z) | SuspendAll_wait (us : list Z) | SuspendAll_return (group : list Z) | ResumeAll (us : list Z)
  (* vm_gc_lock_enum *)
  | GcLock (count : Z) | GcLock_set (count : Z) | GcLock_check (count : Z) | GcLock_unlock (count : Z) | GcLock_zero (count : Z)
  (* hythread_exception_safe_point *)
  | Exception | Exception_disable | Exception_clear (gc_disable_count : Z) | Exception_request (gc_disable_count : Z)
  | Exception_call (gc_disable_count : Z)
  (* hythread_set_safepoint_callback, hythread_set_thread_stop_callback *)
  | SetCallback (u : Z) | SetCallback_request (u : Z) | Stop (u : Z) | Stop_count (u : Z) | Stop_request (u : Z).

(** What [exec] gives: the shared state, the frames to run next, and the thread the
    frame has made sure is suspended, if any. *)
Definition outcome := (world * list frame * list Z)%type.
Definition goes (w : world) (fs : list frame) : option outcome := Some (w, fs, []).

Section exec.
Context (t : Z) (w : world).
Let self := mem w t.

Definition exec_safe_point (f : frame) : option outcome :=
  match f with
  | SafePoint => if suspend_count self =? 0 then goes w [] else goes w [SafePoint_save]
  | SafePoint_save => goes (on t (set_disable_count 0) w) [SafePoint_wait (disable_count self)]
  | SafePoint_wait gc =>
      e ← hysem_wait (resume_event self); goes (on t (set_resume_event e) w) [SafePoint_loop gc]
  | SafePoint_loop gc => if suspend_count self =? 0 then goes w [SetDisable gc] else goes w [SafePoint_wait gc]
  | _ => None
  end.

Definition exec_set_disable (f : frame) : option outcome :=
  match f with
  | SetDisable n => goes (on t (set_disable_count n) w) [SetDisable_check n]
  | SetDisable_check n => if negb (n =? 0) && negb (suspend_count self =? 0) then goes w [SafePoint] else goes w []
  | _ => None
  end.
(** [hythread_suspend_disable] after its increment. *)
Definition exec_disable : option outcome :=
  if negb (request self =? 0) && (disable_count self =? 1) then goes w [SafePoint] else goes w [].

Definition exec_send (f : frame) : option outcome :=
  match f with
  | Send u => goes (on u (set_suspend_count apr_atomic_inc32) w) [Send_request u]
  | Send_request u => goes (on u (set_request apr_atomic_inc32) w) []
  | Send_self => goes (on t (set_suspend_count apr_atomic_inc32) w) [Send_self_request]
  | Send_self_request => goes (on t (set_unclaimed Z.succ) (on t (set_request apr_atomic_inc32) w)) []
  | _ => None
  end.
(** [hythread_suspend] after it has sent itself the request. *)
Definition exec_suspend_state : option outcome := goes (on t (set_suspended true) w) [SafePoint].

(** What [hythread_suspend_other] does with the result is part of it. *)
Definition exec_wait_region (f : frame) : option outcome :=
  match f with
  | WaitRegion u k => if disable_count (mem w u) =? 0 then goes w [WaitRegion_state u k] else goes w [WaitRegion_self u k]
  | WaitRegion_self u k =>
      if request self =? 0 then goes w [WaitRegion u k]
      else match k with
           | SuspendOther => goes w [Resume u]                        (* TM_ERROR_EBUSY *)
           | SuspendAll => goes w [SafePoint; WaitRegion u k]
           end
  | WaitRegion_state u k => Some (on u (set_suspended true) w, [], [u])  (* TM_ERROR_NONE *)
  | _ => None
  end.

Definition exec_resume (f : frame) : option outcome :=
  match f with
  | Resume u => let count := suspend_count (mem w u) in if count =? 0 then goes w [] else goes w [Resume_cas u count]
  | Resume_cas u count =>
      if suspend_count (mem w u) =? count then goes (on u (set_suspend_count (fun _ => count - 1)) w) [Resume_request u]
      else goes w [Resume u]
  | Resume_request u => goes (on u (set_request apr_atomic_dec32) w) [Resume_check u]
  | Resume_check u => if suspend_count (mem w u) =? 0 then goes w [Resume_state u] else goes w []
  | Resume_state u => goes (on u (set_suspended false) w) [Resume_post u]
  | Resume_post u => goes (on u (set_resume_event (hysem_post (resume_event (mem w u))).1) w) []
  | _ => None
  end.

Definition exec_global_lock (f : frame) : option outcome :=
  match f with
  | GlobalLock => m ← mutex_lock t (TM_LOCK w); goes (World (mem w) m (vm_gc_lock w)) [GlobalLock_check]
  | GlobalLock_check => if suspend_count self =? 0 then goes w [] else goes w [GlobalLock_unlock]
  | GlobalLock_unlock => goes (World (mem w) (mutex_unlock (TM_LOCK w)) (vm_gc_lock w)) [SafePoint; GlobalLock]
  | GlobalUnlock => goes (World (mem w) (mutex_unlock (TM_LOCK w)) (vm_gc_lock w)) []
  | _ => None
  end.

Definition exec_suspend_all (f : frame) : option outcome :=
  match f with
  | SuspendAll_send [] | SuspendAll_wait [] => goes w []
  | SuspendAll_send (u :: us) => goes w (if u =? t then [SuspendAll_send us] else [Send u; SuspendAll_send us])
  | SuspendAll_wait (u :: us) => goes w (if u =? t then [SuspendAll_wait us] else [WaitRegion u SuspendAll; SuspendAll_wait us])
  | SuspendAll_return _ => goes (World (mem w) (mutex_unlock (TM_LOCK w)) (vm_gc_lock w)) []
  | _ => None
  end.
Definition exec_resume_all (us : list Z) : option outcome :=
  match us with
  | [] => goes w []
  | u :: us => goes w (if u =? t then [ResumeAll us] else [Resume u; ResumeAll us])
  end.

Definition exec_gc_lock (f : frame) : option outcome :=
  match f with
  | GcLock n => m ← mutex_lock t (vm_gc_lock w); goes (World (mem w) (TM_LOCK w) m) [GcLock_set n]
  | GcLock_set n => goes (on t (set_disable_count n) w) [GcLock_check n]
  | GcLock_check n => if negb (n =? 0) && negb (suspend_count self =? 0) then goes w [GcLock_unlock n] else goes w []
  | GcLock_unlock n => goes (World (mem w) (TM_LOCK w) (mutex_unlock (vm_gc_lock w))) [GcLock_zero n]
  | GcLock_zero n => goes (on t (set_disable_count 0) w) [SafePoint; GcLock n]
  | _ => None
  end.

(** [Exception_call] is the callback, which is left by [return_callback] below. *)
Definition exec_exception (f : frame) : option outcome :=
  match f with
  | Exception => if safepoint_callback self then goes w [Exception_disable] else goes w []
  | Exception_disable => goes (on t (set_disable_count 1) w) [Exception_clear (disable_count self)]
  | Exception_clear gc => goes (on t (set_callback false) w) [Exception_request gc]
  | Exception_request gc => goes (on t (set_request apr_atomic_dec32) w) [Exception_call gc]
  | _ => None
  end.
(** The interrupt for a waiting target does nothing to these fields. *)
Definition exec_set_callback (f : frame) : option outcome :=
  match f with
  | SetCallback u =>
      if safepoint_callback (mem w u) then goes w [SafePoint; SetCallback u]
      else goes (on u (set_callback true) w) [SetCallback_request u]
  | SetCallback_request u => goes (on u (set_request apr_atomic_inc32) w) (if u =? t then [Exception] else [])
  | _ => None
  end.
Definition exec_stop (f : frame) : option outcome :=
  match f with
  | Stop u => if 0 <? suspend_count (mem w u) then goes w [Stop_count u] else goes w [Resume_post u]
  | Stop_count u => goes (on u (set_suspend_count apr_atomic_dec32) w) [Stop_request u]
  | Stop_request u => goes (on u (set_request apr_atomic_dec32) w) [Stop u]
  | _ => None
  end.

Definition exec (f : frame) : option outcome :=
  match f with
  | SafePoint | SafePoint_save | SafePoint_wait _ | SafePoint_loop _ => exec_safe_point f
  | SetDisable _ | SetDisable_check _ => exec_set_disable f
  | Disable_check => exec_disable
  | Send _ | Send_request _ | Send_self | Send_self_request => exec_send f
  | Suspend_state => exec_suspend_state
  | WaitRegion _ _ | WaitRegion_self _ _ | WaitRegion_state _ _ => exec_wait_region f
  | Resume _ | Resume_cas _ _ | Resume_request _ | Resume_check _ | Resume_state _ | Resume_post _ => exec_resume f
  | GlobalLock | GlobalLock_check | GlobalLock_unlock | GlobalUnlock => exec_global_lock f
  | SuspendAll_send _ | SuspendAll_wait _ | SuspendAll_return _ => exec_suspend_all f
  | ResumeAll us => exec_resume_all us
  | GcLock _ | GcLock_set _ | GcLock_check _ | GcLock_unlock _ | GcLock_zero _ => exec_gc_lock f
  | Exception | Exception_disable | Exception_clear _ | Exception_request _ | Exception_call _ => exec_exception f
  | SetCallback _ | SetCallback_request _ => exec_set_callback f
  | Stop _ | Stop_count _ | Stop_request _ => exec_stop f
  end.
End exec.

(** ** The interface *)

(** What a thread may call from the code of its client, and how far the call gets
    before its first look at a shared field that is not its own.  [others] are the
    other members of the group of a [_all] function. *)
Inductive call :=
  | hythread_suspend_enable | hythread_suspend_disable | hythread_safe_point
  | hythread_reset_suspend_disable | hythread_set_suspend_disable (count : Z)
  | hythread_suspend | hythread_suspend_other (u : Z) | hythread_resume (u : Z)
  | hythread_suspend_all (group : list Z) | hythread_resume_all (group : list Z)
  | hythread_global_lock | hythread_global_unlock | vm_gc_lock_enum | vm_gc_unlock_enum
  | hythread_exception_safe_point | hythread_set_safepoint_callback (u : Z) | hythread_set_thread_stop_callback (u : Z).

Definition suspend_self : list frame := [Send_self; Suspend_state].

Definition enter (t : Z) (w : world) (c : call) : world * list frame :=
  let dc := disable_count (mem w t) in
  match c with
  | hythread_suspend_enable => (on t (set_disable_count (dc - 1)) w, [])
  | hythread_suspend_disable => (on t (set_disable_count (dc + 1)) w, [Disable_check])
  | hythread_safe_point => (w, [SafePoint])
  | hythread_reset_suspend_disable => (on t (set_disable_count 0) w, [])
  | hythread_set_suspend_disable n => (w, [SetDisable n])
  | hythread_suspend => (w, suspend_self)
  | hythread_suspend_other u => (w, if u =? t then suspend_self else [Send u; WaitRegion u SuspendOther])
  | hythread_resume u => (w, [Resume u])
  | hythread_suspend_all g =>
      (w, [SafePoint; GlobalLock; GlobalLock; SuspendAll_send g; SuspendAll_wait g; SuspendAll_return g])
  | hythread_resume_all g => (w, [GlobalLock; ResumeAll g; GlobalUnlock; GlobalUnlock])
  | hythread_global_lock => (w, [GlobalLock])
  | hythread_global_unlock => (w, [GlobalUnlock])
  | vm_gc_lock_enum => (on t (set_disable_count 0) w, [GcLock dc])
  | vm_gc_unlock_enum => (World (mem w) (TM_LOCK w) (mutex_unlock (vm_gc_lock w)), [])
  | hythread_exception_safe_point => (w, [Exception])
  | hythread_set_safepoint_callback u => (w, [SetCallback u])
  | hythread_set_thread_stop_callback u => (w, [SetCallback u; Stop u])
  end.

(** ** The system

    [holds] are the threads a thread has suspended and not resumed: what its client
    knows from the results of its calls.  A client only resumes what it holds, or takes
    it upon itself to answer a thread that has suspended itself. *)
Record thread := Local { code : list frame; holds : gmultiset Z }.
Record sys := Sys { shared : world; locals : gmap Z thread }.

Definition at_client (k : list frame) : bool := match k with [] | Exception_call _ :: _ => true | _ => false end.

(** The members of a group a thread suspends and resumes: all but itself. *)
Definition others (t : Z) (g : list Z) : gmultiset Z := list_to_set_disj (filter (fun u => u <> t) g).

Section step.
(** Whether callbacks are used. *)
Variable callbacks : bool.

(** The assertions of the code and the client's discipline: what a call takes from
    [holds] and what from [unclaimed]. *)
Definition allowed (t : Z) (w : world) (h : gmultiset Z) (c : call) (h' : gmultiset Z) (w' : world) : Prop :=
  match c with
  | hythread_suspend_enable => 0 < disable_count (mem w t) /\ h' = h /\ w' = w
  | hythread_set_suspend_disable n => 0 <= n /\ h' = h /\ w' = w
  | hythread_resume u =>
      (u ∈ h /\ h' = h ∖ {[+ u +]} /\ w' = w) \/
      (0 < unclaimed (mem w u) /\ h' = h /\ w' = on u (set_unclaimed Z.pred) w)
  | hythread_suspend_all g => disable_count (mem w t) = 0 /\ h' = h /\ w' = w
  | hythread_resume_all g => disable_count (mem w t) = 0 /\ others t g ⊆ h /\ h' = h ∖ others t g /\ w' = w
  | hythread_global_lock => disable_count (mem w t) = 0 /\ h' = h /\ w' = w
  | hythread_global_unlock => disable_count (mem w t) = 0 /\ (exists d, TM_LOCK w = Some (t, d)) /\ h' = h /\ w' = w
  | vm_gc_unlock_enum => (exists d, vm_gc_lock w = Some (t, d)) /\ h' = h /\ w' = w
  | hythread_exception_safe_point | hythread_set_safepoint_callback _ | hythread_set_thread_stop_callback _ =>
      callbacks = true /\ h' = h /\ w' = w
  | _ => h' = h /\ w' = w
  end.

Inductive step : sys -> sys -> Prop :=
  | step_exec t f k h w ls w' fs hs : ls !! t = Some (Local (f :: k) h) -> exec t w f = Some (w', fs, hs) ->
      step (Sys w ls) (Sys w' (<[t := Local (fs ++ k) (h ⊎ list_to_set_disj hs)]> ls))
  | step_call t k h w ls c h' w1 w2 fs : ls !! t = Some (Local k h) -> at_client k = true ->
      allowed t w h c h' w1 -> enter t w1 c = (w2, fs) ->
      step (Sys w ls) (Sys w2 (<[t := Local (fs ++ k) h']> ls))
  | step_return_callback t gc k h w ls : ls !! t = Some (Local (Exception_call gc :: k) h) ->
      step (Sys w ls) (Sys (on t (set_disable_count gc) w) (<[t := Local k h]> ls)).
End step.

Definition initial (ids : gset Z) : sys :=
  Sys (World (fun _ => hythread_struct_init) None None) (gset_to_gmap (Local [] ∅) ids).
