(* ===== verification/SuspendOk.v ===== *)
(** * Safe suspension is safe: the accounting behind [suspend_count] and [request], and
    what a thread may rely on when it holds another one suspended. *)
From stdpp Require Import gmap gmultiset functions.
From S2P Require Import Prelude Threads Suspend.

(** ** What a frame still owes

    Every suspension of [u] that is under way or in force is held by a client, by a
    frame that is on its way to hold it or to resume it, or is one of [u]'s own that
    nobody has answered.  [debt] counts the frames, for a thread [t]; a frame that has
    not counted up yet pays for one that is to come.  [request] is counted up a step
    later and down a step later than [suspend_count]. *)
Definition same (v u : Z) : Z := Z.b2z (bool_decide (v = u)).
Definition occurs (t u : Z) (us : list Z) : Z := Z.of_nat (multiplicity u (others t us)).

Definition debt (t u : Z) (f : frame) : Z :=
  match f with
  | Send v => - same v u
  | Send_self_request => same t u
  | WaitRegion v _ | WaitRegion_self v _ | WaitRegion_state v _ | Resume v | Resume_cas v _ => same v u
  | SuspendAll_send us => - occurs t u us
  | SuspendAll_wait us | ResumeAll us => occurs t u us
  | _ => 0
  end.
Definition req_debt (t u : Z) (f : frame) : Z :=
  match f with
  | Send_request v => - same v u
  | Send_self_request => 0
  | Resume_request v => same v u
  | _ => debt t u f
  end.

Definition weigh (d : frame -> Z) (k : list frame) : Z := foldr (fun f z => d f + z) 0 k.
Definition carries (d : Z -> Z -> frame -> Z) (u t : Z) (l : thread) : Z :=
  Z.of_nat (multiplicity u (holds l)) + weigh (d t u) (code l).

(** No frame is owed more than the frames below it have. *)
Fixpoint solvent (d : frame -> Z) (k : list frame) : Prop :=
  match k with [] => True | _ :: k' => 0 <= weigh d k /\ solvent d k' end.

Definition outstanding (u : Z) (s : sys) : Z := unclaimed (mem (shared s) u) + total (carries debt u) (locals s).
Definition requested (u : Z) (s : sys) : Z := unclaimed (mem (shared s) u) + total (carries req_debt u) (locals s).

(** The counters do not overflow and no thread nests its unsafe regions too deep. *)
Definition few (s : sys) : Prop :=
  forall u, outstanding u s < 2 ^ 32 /\ requested u s < 2 ^ 32 /\ 0 <= disable_count (mem (shared s) u).

(** Not the frames of the callbacks, and no count that cannot have been read. *)
Definition tame (f : frame) : bool :=
  match f with
  | Resume_cas _ count => 0 <? count
  | Exception | Exception_disable | Exception_clear _ | Exception_request _ | Exception_call _
  | SetCallback _ | SetCallback_request _ | Stop _ | Stop_count _ | Stop_request _ => false
  | _ => true
  end.

Lemma same_eq u : same u u = 1.
Proof. unfold same. by rewrite bool_decide_true. Qed.
Lemma same_ne v u : v <> u -> same v u = 0.
Proof. intros H. unfold same. by rewrite bool_decide_false. Qed.
Lemma same_bounds v u : 0 <= same v u <= 1.
Proof. unfold same. case_bool_decide; simpl; lia. Qed.

Lemma occurs_nil t u : occurs t u [] = 0.
Proof. done. Qed.
Lemma occurs_cons t u v us : occurs t u (v :: us) = (if v =? t then 0 else same v u) + occurs t u us.
Proof.
  unfold occurs, others. simpl. destruct (Z.eqb_spec v t) as [->|Hne].
  - rewrite filter_cons_False by (intros H; by apply H). done.
  - rewrite filter_cons_True by done. rewrite list_to_set_disj_cons, multiplicity_disj_union, multiplicity_singleton.
    unfold same. case_decide; case_bool_decide; simpl; congruence || lia.
Qed.
Lemma occurs_nonneg t u us : 0 <= occurs t u us.
Proof. unfold occurs. lia. Qed.
Lemma occurs_self t us : occurs t t us = 0.
Proof. induction us as [|v us IH]; [done|]. rewrite occurs_cons, IH. destruct (Z.eqb_spec v t); [|rewrite same_ne by done]; lia. Qed.

Lemma weigh_app d k1 k2 : weigh d (k1 ++ k2) = weigh d k1 + weigh d k2.
Proof. induction k1 as [|f k IH]; simpl; [done|]. rewrite IH. lia. Qed.

Lemma solvent_weigh d k : solvent d k -> 0 <= weigh d k.
Proof. destruct k; [done|]. by intros [H _]. Qed.

(** The fields of a thread after a change of another field or another thread. *)
Lemma alter_at (g : HyThread -> HyThread) (v : Z) (m : Z -> HyThread) u : alter g v m u = if decide (v = u) then g (m u) else m u.
Proof. case_decide as H; [subst; apply fn_lookup_alter|by apply fn_lookup_alter_ne]. Qed.

(** A step of a frame, one case for each way its code can go. *)
Ltac exec_cases H :=
  unfold exec, exec_safe_point, exec_set_disable, exec_disable, exec_send, exec_suspend_state, exec_wait_region, exec_resume,
    exec_global_lock, exec_suspend_all, exec_resume_all, exec_gc_lock, exec_exception, exec_set_callback, exec_stop, goes in H;
  repeat case_match; try discriminate; simplify_option_eq.

(** The fields of thread [u] after a change of thread [v]. *)
Ltac at_thread :=
  cbn [mem on]; repeat (rewrite alter_at || case_decide); simplify_eq; cbn [request suspend_count disable_count resume_event state_suspended unclaimed
    set_request set_suspend_count set_disable_count set_resume_event set_suspended set_callback set_unclaimed]; rewrite ?same_eq, ?same_ne by done.

(** ** The counters follow the debts *)

Lemma ux_small w x : is_u w x -> ux w x = x.
Proof. intros H. by apply Z.mod_small. Qed.

Lemma exec_counts t w f w' fs hs u : exec t w f = Some (w', fs, hs) -> tame f = true ->
  is_u 32 (suspend_count (mem w u)) -> is_u 32 (request (mem w u)) -> (f = Resume u -> suspend_count (mem w u) <> 0) ->
  let gained := unclaimed (mem w' u) - unclaimed (mem w u) + Z.of_nat (multiplicity u (list_to_set_disj hs : gmultiset Z)) in
  suspend_count (mem w' u) = ux 32 (suspend_count (mem w u) + (gained + weigh (debt t u) fs - debt t u f)) /\
  request (mem w' u) = ux 32 (request (mem w u) + (gained + weigh (req_debt t u) fs - req_debt t u f)).
Proof.
  intros H Ht Hs Hr Hres.
  destruct f; try discriminate Ht; exec_cases H; cbn [weigh foldr debt req_debt list_to_set_disj];
    rewrite ?multiplicity_disj_union, ?multiplicity_singleton, ?multiplicity_empty, ?occurs_nil, ?occurs_cons.
  all: repeat match goal with E : (_ =? _) = _ |- _ => rewrite ?E; revert E end; intros; rewrite ?Z.eqb_eq, ?Z.eqb_neq in *.
  all: split; unfold apr_atomic_inc32, apr_atomic_dec32; at_thread.
  all: try (apply (f_equal (ux 32)); lia).
  all: try (match goal with |- ?x = ux 32 (?x + ?e) => replace (x + e) with x by lia; symmetry; by apply ux_small end).
  (* hythread_resume of a thread that is not suspended, and a successful compare and swap *)
  all: try (destruct (decide (u0 = u)) as [->|]; [by specialize (Hres eq_refl)|rewrite same_ne by done]).
  all: try (match goal with |- ?x = ux 32 (?x + ?e) => replace (x + e) with x by lia; symmetry; by apply ux_small end).
  apply Z.ltb_lt in Ht. rewrite ux_small; unfold is_u in *; lia.
Qed.

(** What is known of the terms of a sum. *)
Ltac fact T p := lazymatch goal with _ : T |- _ => fail | _ => pose proof (p : T) end.
Ltac debt_facts :=
  repeat match goal with
  | |- context [same ?v ?u] => fact (0 <= same v u <= 1) (same_bounds v u)
  | _ : context [same ?v ?u] |- _ => fact (0 <= same v u <= 1) (same_bounds v u)
  | |- context [occurs ?t ?u ?us] => fact (0 <= occurs t u us) (occurs_nonneg t u us)
  | _ : context [occurs ?t ?u ?us] |- _ => fact (0 <= occurs t u us) (occurs_nonneg t u us)
  end.

(** A frame leaves a stack that can pay for itself. *)
Lemma exec_solvent t w f k w' fs hs u : exec t w f = Some (w', fs, hs) -> tame f = true ->
  (solvent (debt t u) (f :: k) -> solvent (debt t u) (fs ++ k)) /\
  (solvent (req_debt t u) (f :: k) -> solvent (req_debt t u) (fs ++ k)).
Proof.
  intros H Ht.
  destruct f; try discriminate Ht; exec_cases H; split; intros [Hd Hk]; pose proof (solvent_weigh _ _ Hk) as Hw;
    cbn [app solvent weigh foldr debt req_debt] in *; rewrite ?occurs_nil, ?occurs_cons in *;
    repeat match goal with E : (_ =? _) = _ |- _ => rewrite ?E in *; revert E end; intros;
    fold (weigh (debt t u) k) in *; fold (weigh (req_debt t u) k) in *;
    debt_facts; repeat split; try done; lia.
Qed.

Lemma enter_solvent t w c k w' fs u : enter t w c = (w', fs) ->
  (solvent (debt t u) k -> solvent (debt t u) (fs ++ k)) /\ (solvent (req_debt t u) k -> solvent (req_debt t u) (fs ++ k)).
Proof.
  intros H. split; intros Hk; pose proof (solvent_weigh _ _ Hk) as Hw; destruct c; simpl in H; repeat case_match; simplify_eq;
    cbn [app solvent weigh foldr debt req_debt suspend_self] in *;
    fold (weigh (debt t u) k) in *; fold (weigh (req_debt t u) k) in *;
    debt_facts; repeat split; try done; lia.
Qed.

Lemma exec_tame t w f w' fs hs : exec t w f = Some (w', fs, hs) -> tame f = true ->
  (forall u, is_u 32 (suspend_count (mem w u))) -> forallb tame fs = true.
Proof.
  intros H Ht Hs. destruct f; try discriminate Ht; exec_cases H; try done.
  match goal with E : (suspend_count (mem _ ?u) =? 0) = false |- _ => apply Z.eqb_neq in E; specialize (Hs u) end.
  unfold is_u in Hs. simpl. rewrite andb_true_r. apply Z.ltb_lt. lia.
Qed.

Lemma exec_unclaimed t w f w' fs hs u : exec t w f = Some (w', fs, hs) -> unclaimed (mem w u) <= unclaimed (mem w' u).
Proof. intros H. destruct f; exec_cases H; at_thread; lia. Qed.

(** What holds of a thread, and of the counters of all of them. *)
Record local_inv (t : Z) (l : thread) : Prop := {
  li_tame : forallb tame (code l) = true;
  li_debt u : solvent (debt t u) (code l);
  li_req_debt u : solvent (req_debt t u) (code l);
}.
Record counts_inv (s : sys) : Prop := {
  ci_local t l : locals s !! t = Some l -> local_inv t l;
  ci_unclaimed u : 0 <= unclaimed (mem (shared s) u);
  ci_suspend_count u : suspend_count (mem (shared s) u) = outstanding u s;
  ci_request u : request (mem (shared s) u) = requested u s;
}.

Lemma carries_nonneg t u l : local_inv t l -> 0 <= carries debt u t l /\ 0 <= carries req_debt u t l.
Proof.
  intros H. unfold carries. pose proof (solvent_weigh _ _ (li_debt _ _ H u)).
  pose proof (solvent_weigh _ _ (li_req_debt _ _ H u)). lia.
Qed.

Lemma counts_total s u : (forall t l, locals s !! t = Some l -> local_inv t l) ->
  0 <= total (carries debt u) (locals s) /\ 0 <= total (carries req_debt u) (locals s).
Proof. intros H. split; apply total_nonneg; intros t l Hl; apply (carries_nonneg t u), H, Hl. Qed.

Lemma counts_small s u : counts_inv s -> few s ->
  is_u 32 (suspend_count (mem (shared s) u)) /\ is_u 32 (request (mem (shared s) u)).
Proof.
  intros Hi Hf. destruct (Hf u) as (Ho & Hr & _). destruct (counts_total s u (ci_local s Hi)) as [H1 H2].
  pose proof (ci_unclaimed s Hi u). rewrite (ci_suspend_count s Hi), (ci_request s Hi).
  unfold is_u, outstanding, requested in *. lia.
Qed.

(** A thread that holds another one, or is about to, keeps it suspended. *)
Lemma carries_counts s t l u : counts_inv s -> locals s !! t = Some l ->
  carries debt u t l <= suspend_count (mem (shared s) u) /\ carries req_debt u t l <= request (mem (shared s) u).
Proof.
  intros Hi Hl. rewrite (ci_suspend_count s Hi), (ci_request s Hi). unfold outstanding, requested. pose proof (ci_unclaimed s Hi u).
  assert (carries debt u t l <= total (carries debt u) (locals s) /\ carries req_debt u t l <= total (carries req_debt u) (locals s)); [|lia].
  split; apply (total_le (carries _ u)); try done; intros v b Hb; apply carries_nonneg, (ci_local s Hi), Hb.
Qed.

(** The counters after a step that changes one thread: by what the step gains. *)
Lemma counts_step s w' t l l' : counts_inv s -> few s -> few (Sys w' (<[t := l']> (locals s))) -> locals s !! t = Some l ->
  local_inv t l' -> (forall u, 0 <= unclaimed (mem w' u)) ->
  (forall u, suspend_count (mem w' u) = ux 32 (suspend_count (mem (shared s) u) +
     (unclaimed (mem w' u) - unclaimed (mem (shared s) u) + carries debt u t l' - carries debt u t l))) ->
  (forall u, request (mem w' u) = ux 32 (request (mem (shared s) u) +
     (unclaimed (mem w' u) - unclaimed (mem (shared s) u) + carries req_debt u t l' - carries req_debt u t l))) ->
  counts_inv (Sys w' (<[t := l']> (locals s))).
Proof.
  intros Hi Hf Hf' Hl Hl' Hun Hsc Hrq. set (s' := Sys w' (<[t := l']> (locals s))).
  assert (Hloc : forall v m, locals s' !! v = Some m -> local_inv v m).
  { intros v m Hv. simpl in Hv. apply lookup_insert_Some in Hv as [[-> ->]|[_ Hv]]; [done|by apply (ci_local s Hi)]. }
  assert (Ho : forall u, 0 <= outstanding u s' < 2 ^ 32 /\ 0 <= requested u s' < 2 ^ 32).
  { intros u. destruct (Hf' u) as (H1 & H2 & _). destruct (counts_total s' u Hloc) as [H3 H4]. specialize (Hun u).
    fold s' in H1, H2. unfold outstanding, requested in *. simpl in *. lia. }
  split; [done|done|..]; intros u; destruct (Ho u) as [H1 H2].
  - simpl. rewrite Hsc, (ci_suspend_count s Hi u). rewrite <- (ux_small 32 (outstanding u s')) by done. apply f_equal.
    unfold outstanding. simpl. rewrite (total_insert _ _ t l l' Hl). lia.
  - simpl. rewrite Hrq, (ci_request s Hi u). rewrite <- (ux_small 32 (requested u s')) by done. apply f_equal.
    unfold requested. simpl. rewrite (total_insert _ _ t l l' Hl). lia.
Qed.

Lemma carries_app d t u fs k h : carries d u t (Local (fs ++ k) h) = Z.of_nat (multiplicity u h) + weigh (d t u) fs + weigh (d t u) k.
Proof. unfold carries. simpl. rewrite weigh_app. lia. Qed.
Lemma carries_cons d t u f k h : carries d u t (Local (f :: k) h) = Z.of_nat (multiplicity u h) + d t u f + weigh (d t u) k.
Proof. unfold carries. simpl. lia. Qed.

Lemma step_exec_inv t f k h w ls w' fs hs : let s' := Sys w' (<[t := Local (fs ++ k) (h ⊎ list_to_set_disj hs)]> ls) in
  counts_inv (Sys w ls) -> few (Sys w ls) -> few s' -> ls !! t = Some (Local (f :: k) h) -> exec t w f = Some (w', fs, hs) -> counts_inv s'.
Proof.
  intros s' Hi Hf Hf' Hl He. pose proof (ci_local _ Hi _ _ Hl) as Hli. simpl in Hl.
  pose proof (li_tame _ _ Hli) as Ht. simpl in Ht. apply andb_prop in Ht as [Ht Hk].
  assert (Hsmall := fun u => counts_small _ u Hi Hf). simpl in Hsmall.
  assert (Hc : forall u, f = Resume u -> suspend_count (mem w u) <> 0).
  { intros u ->. pose proof (proj1 (carries_counts _ t _ u Hi Hl)) as Hc. rewrite carries_cons in Hc. simpl in Hc.
    rewrite same_eq in Hc. pose proof (solvent_weigh _ _ (proj2 (li_debt _ _ Hli u))). simpl in *. lia. }
  assert (Hcount := fun u => exec_counts t w f w' fs hs u He Ht (proj1 (Hsmall u)) (proj2 (Hsmall u)) (Hc u)). simpl in Hcount.
  apply (counts_step (Sys w ls) w' t _ _ Hi Hf Hf' Hl).
  - split; simpl.
    + rewrite forallb_app, (exec_tame _ _ _ _ _ _ He Ht (fun u => proj1 (Hsmall u))), Hk. done.
    + intros u. apply (proj1 (exec_solvent t w f k w' fs hs u He Ht)), (li_debt _ _ Hli u).
    + intros u. apply (proj2 (exec_solvent t w f k w' fs hs u He Ht)), (li_req_debt _ _ Hli u).
  - intros u. pose proof (exec_unclaimed _ _ _ _ _ _ u He). pose proof (ci_unclaimed _ Hi u). simpl in *. lia.
  - intros u. simpl. rewrite carries_app, carries_cons, multiplicity_disj_union, (proj1 (Hcount u)). apply f_equal. lia.
  - intros u. simpl. rewrite carries_app, carries_cons, multiplicity_disj_union, (proj2 (Hcount u)). apply f_equal. lia.
Qed.

(** A call takes from the client what its frames have to answer for. *)
Lemma call_counts t w h c h' w1 w2 fs u : allowed false t w h c h' w1 -> enter t w1 c = (w2, fs) ->
  let gained d := unclaimed (mem w2 u) - unclaimed (mem w u) + Z.of_nat (multiplicity u h') + weigh (d t u) fs - Z.of_nat (multiplicity u h) in
  gained debt = 0 /\ gained req_debt = 0 /\ suspend_count (mem w2 u) = suspend_count (mem w u) /\
  request (mem w2 u) = request (mem w u) /\ (0 <= unclaimed (mem w u) -> 0 <= unclaimed (mem w2 u)) /\ forallb tame fs = true.
Proof.
  intros Ha He.
  assert (Hsame : forall v, Z.of_nat (multiplicity u ({[+ v +]} : gmultiset Z)) = same v u).
  { intros v. rewrite multiplicity_singleton. unfold same. case_decide; case_bool_decide; simpl; congruence || lia. }
  destruct c; simpl in Ha, He; try (by destruct Ha as (? & _)); destruct_and?; simplify_eq;
    try (destruct Ha as [(Hu & -> & ->)|(Hu & -> & ->)]); repeat case_match; simplify_eq;
    cbn [weigh foldr debt req_debt suspend_self]; at_thread; rewrite ?multiplicity_difference; repeat split; try done.
  all: rewrite ?Nat2Z.inj_sub_max, ?Hsame; try lia.
  1,2: rewrite elem_of_multiplicity in Hu; unfold same; case_bool_decide; [subst|]; cbn [Z.b2z]; lia.
  all: unfold occurs; match goal with H : others _ _ ⊆ _ |- _ => specialize (H u) end; lia.
Qed.

Lemma step_call_inv t k h w ls c h' w1 w2 fs : let s' := Sys w2 (<[t := Local (fs ++ k) h']> ls) in
  counts_inv (Sys w ls) -> few (Sys w ls) -> few s' -> ls !! t = Some (Local k h) ->
  allowed false t w h c h' w1 -> enter t w1 c = (w2, fs) -> counts_inv s'.
Proof.
  intros s' Hi Hf Hf' Hl Ha He. pose proof (ci_local _ Hi _ _ Hl) as Hli. simpl in Hl.
  assert (Hsmall := fun u => counts_small _ u Hi Hf). assert (Hun := ci_unclaimed _ Hi). simpl in Hsmall, Hun.
  assert (Hcount := fun u => call_counts t w h c h' w1 w2 fs u Ha He). simpl in Hcount.
  apply (counts_step (Sys w ls) w2 t _ _ Hi Hf Hf' Hl).
  - split; simpl.
    + rewrite forallb_app. destruct (Hcount 0) as (_ & _ & _ & _ & _ & ->). apply (li_tame _ _ Hli).
    + intros u. apply (enter_solvent t w1 c k w2 fs u He), (li_debt _ _ Hli u).
    + intros u. apply (enter_solvent t w1 c k w2 fs u He), (li_req_debt _ _ Hli u).
  - intros u. apply Hcount, Hun.
  - intros u. destruct (Hcount u) as (Hd & _ & -> & _). simpl. rewrite carries_app. unfold carries. simpl.
    symmetry. rewrite <- (ux_small 32 (suspend_count (mem w u))) at 2 by apply Hsmall. apply f_equal. lia.
  - intros u. destruct (Hcount u) as (_ & Hd & _ & -> & _). simpl. rewrite carries_app. unfold carries. simpl.
    symmetry. rewrite <- (ux_small 32 (request (mem w u))) at 2 by apply Hsmall. apply f_equal. lia.
Qed.

(** A step without callbacks that keeps the counters small. *)
Definition careful (s s' : sys) : Prop := step false s s' /\ few s'.

Lemma careful_counts s s' : counts_inv s -> few s -> careful s s' -> counts_inv s'.
Proof.
  intros Hi Hf [Hs Hf']. destruct Hs as [t f k h w ls w' fs hs Hl He|t k h w ls c h' w1 w2 fs Hl Hc Ha He|t gc k h w ls Hl].
  - by eapply step_exec_inv.
  - by eapply step_call_inv.
  - by pose proof (li_tame _ _ (ci_local _ Hi _ _ Hl)).
Qed.

Lemma initial_total d ids u : total (carries d u) (locals (initial ids)) = 0.
Proof. apply total_gset. done. Qed.

Lemma initial_few ids : few (initial ids).
Proof. intros u. unfold outstanding, requested. rewrite !initial_total. simpl. lia. Qed.

Lemma initial_counts ids : counts_inv (initial ids).
Proof.
  split; try done.
  - intros t l Hl. apply lookup_gset_to_gmap_Some in Hl as [_ <-]. by split.
  - intros u. unfold outstanding. by rewrite initial_total.
  - intros u. unfold requested. by rewrite initial_total.
Qed.

(** Rule induction over the careful runs, with the counters in hand. *)
Lemma careful_ind (P : sys -> Prop) ids : P (initial ids) ->
  (forall s s', counts_inv s -> few s -> few s' -> P s -> step false s s' -> P s') ->
  forall s, rtc careful (initial ids) s -> P s /\ counts_inv s /\ few s.
Proof.
  intros H0 Hstep s Hr. remember (initial ids) as s0 eqn:E.
  assert (Hinv : P s0 /\ counts_inv s0 /\ few s0) by (subst; split_and!; [done|apply initial_counts|apply initial_few]).
  clear E H0. induction Hr as [|x y z Hxy _ IH]; [done|]. apply IH. destruct Hinv as (HP & Hi & Hf).
  split_and!; [|by eapply careful_counts|apply Hxy]. destruct Hxy as [Hxy Hy]. by apply (Hstep x).
Qed.

(** ** A suspended thread stays out of its unsafe regions *)

(** Somebody holds [u] suspended, or has just seen it in a safe region. *)
Definition parked (u : Z) (s : sys) : Prop :=
  exists t l, locals s !! t = Some l /\ (u ∈ holds l \/ exists k r, code l = WaitRegion_state u k :: r).

(** The thread is in a safe region, or on its way into a safe point. *)
Definition at_rest (h : HyThread) (k : list frame) : Prop :=
  disable_count h = 0 \/
  match k with
  | Disable_check :: _ => disable_count h = 1
  | SetDisable_check n :: _ | GcLock_check n :: _ => n = 0 -> disable_count h = 0
  | (SafePoint | SafePoint_save | GcLock_unlock _ | GcLock_zero _) :: _ => True
  | _ => False
  end.

Lemma parked_counts u s : counts_inv s -> parked u s -> suspend_count (mem (shared s) u) <> 0 /\ request (mem (shared s) u) <> 0.
Proof.
  intros Hi (t & l & Hl & H). destruct (carries_counts s t l u Hi Hl) as [H1 H2].
  pose proof (ci_local s Hi t l Hl) as Hli. pose proof (li_debt _ _ Hli u) as Hd. pose proof (li_req_debt _ _ Hli u) as Hr.
  destruct l as [c h]. simpl in *. assert (1 <= carries debt u t (Local c h) /\ 1 <= carries req_debt u t (Local c h)); [|lia].
  unfold carries. simpl. destruct H as [H|(k & r & ->)].
  - rewrite elem_of_multiplicity in H. apply solvent_weigh in Hd, Hr. lia.
  - destruct Hd as [_ Hd], Hr as [_ Hr]. apply solvent_weigh in Hd, Hr. simpl. rewrite same_eq. lia.
Qed.

Lemma exec_rest t w f k w' fs hs : exec t w f = Some (w', fs, hs) -> tame f = true ->
  suspend_count (mem w t) <> 0 -> request (mem w t) <> 0 -> at_rest (mem w t) (f :: k) -> at_rest (mem w' t) (fs ++ k).
Proof.
  intros H Ht Hs Hr Hrest. apply Z.eqb_neq in Hs, Hr.
  destruct f; try discriminate Ht; exec_cases H; unfold at_rest in *; at_thread; cbn [app]; try rewrite Hs in *; try rewrite Hr in *; simpl in *;
    rewrite ?andb_true_r in *; try discriminate; try done; try tauto; try (left; destruct Hrest; done).
  all: try (right; by intros ->).
  all: left; destruct Hrest as [|Hrest]; [done|].
  2: by rewrite Hrest in *.
  all: apply Hrest; match goal with E : negb ?b = false |- _ => by apply negb_false_iff, Z.eqb_eq in E end.
Qed.

Lemma exec_disable_other t w f w' fs hs u : exec t w f = Some (w', fs, hs) -> u <> t -> disable_count (mem w' u) = disable_count (mem w u).
Proof. intros H Hne. destruct f; exec_cases H; at_thread; done. Qed.

Lemma enter_rest t w h c h' w1 w2 fs : allowed false t w h c h' w1 -> enter t w1 c = (w2, fs) ->
  at_rest (mem w t) [] -> at_rest (mem w2 t) fs.
Proof.
  intros Ha He [Hd|[]]. destruct c; simpl in Ha, He; try (by destruct Ha as (? & _)); destruct_and?; simplify_eq;
    try (destruct Ha as [(Hu & -> & ->)|(Hu & -> & ->)]); simplify_eq; unfold at_rest; at_thread;
    rewrite ?Hd; try lia; try (by left); try (by right).
Qed.

(** Some frames are always the one that runs. *)
Definition not_state (f : frame) : bool :=
  match f with WaitRegion_state _ _ | SafePoint_save | SafePoint_wait _ => false | _ => true end.
Record safe (s : sys) : Prop := {
  safe_rest u l : locals s !! u = Some l -> parked u s -> at_rest (mem (shared s) u) (code l);
  safe_state t l : locals s !! t = Some l -> forallb not_state (tail (code l)) = true;
}.

Lemma exec_state t w f w' fs hs : exec t w f = Some (w', fs, hs) -> forallb not_state (tail fs) = true.
Proof. intros H. destruct f; exec_cases H; done. Qed.
Lemma enter_state t w c w' fs : enter t w c = (w', fs) -> forallb not_state fs = true.
Proof. intros He. destruct c; simpl in He; repeat case_match; by simplify_eq. Qed.

(** Only [wait_safe_region_event] finds out that a thread is in a safe region. *)
Lemma exec_parked t w f w' fs hs u : exec t w f = Some (w', fs, hs) -> tame f = true ->
  (exists k r, fs = WaitRegion_state u k :: r) -> disable_count (mem w' u) = 0.
Proof.
  intros H Ht (k & r & Hfs). destruct f; try discriminate Ht; exec_cases H; simplify_eq; try done.
  all: by match goal with E : (disable_count _ =? 0) = true |- _ => apply Z.eqb_eq in E end.
Qed.

Lemma exec_holds t w f w' fs hs u : exec t w f = Some (w', fs, hs) -> u ∈ hs -> exists k, f = WaitRegion_state u k.
Proof.
  intros H Hu. destruct f; exec_cases H; try (by apply not_elem_of_nil in Hu). apply list_elem_of_singleton in Hu as ->. by eexists.
Qed.

Lemma tame_client k : forallb tame k = true -> at_client k = true -> k = [].
Proof. destruct k as [|f k]; [done|]. by destruct f. Qed.

Lemma allowed_holds t w h c h' w1 u : allowed false t w h c h' w1 -> u ∈ h' -> u ∈ h.
Proof.
  intros Ha Hu. rewrite !elem_of_multiplicity in *. destruct c; simpl in Ha; destruct_and?; subst; try done;
    try (destruct Ha as [(? & -> & _)|(? & -> & _)]); rewrite ?multiplicity_difference in *; try done; lia.
Qed.

Lemma enter_disable_other t w h c h' w1 w2 fs u : allowed false t w h c h' w1 -> enter t w1 c = (w2, fs) -> u <> t ->
  disable_count (mem w2 u) = disable_count (mem w u).
Proof.
  intros Ha He Hne. destruct c; simpl in Ha, He; destruct_and?; simplify_eq;
    try (destruct Ha as [(Hu & -> & ->)|(Hu & -> & ->)]); at_thread; done.
Qed.

Lemma at_rest_same h h' k : disable_count h' = disable_count h -> at_rest h k -> at_rest h' k.
Proof. unfold at_rest. by intros ->. Qed.

Lemma exec_keeps_safe t f k h w ls w' fs hs : counts_inv (Sys w ls) -> safe (Sys w ls) -> ls !! t = Some (Local (f :: k) h) ->
  exec t w f = Some (w', fs, hs) -> safe (Sys w' (<[t := Local (fs ++ k) (h ⊎ list_to_set_disj hs)]> ls)).
Proof.
  intros Hi Hsafe Hl He. pose proof (ci_local _ Hi _ _ Hl) as Hli. pose proof (li_tame _ _ Hli) as Ht.
  apply andb_prop in Ht as [Ht _]. pose proof (safe_state _ Hsafe _ _ Hl) as Hk. simpl in Hk.
  split; [intros u l Hu (v & m & Hv & Hp)|intros v m Hv]; simpl in *.
  - assert (Hcase : parked u (Sys w ls) \/ disable_count (mem w' u) = 0).
    { apply lookup_insert_Some in Hv as [[-> <-]|[Hne Hv]]; [|left; exists v, m; done]. simpl in Hp.
      destruct Hp as [Hp|(k' & r & Hp)].
      - left. exists v, (Local (f :: k) h). split; [done|]. simpl. rewrite gmultiset_elem_of_disj_union in Hp. destruct Hp as [Hp|Hp]; [by left|].
        right. rewrite elem_of_list_to_set_disj in Hp. destruct (exec_holds _ _ _ _ _ _ _ He Hp) as [k' ->]. by exists k', k.
      - destruct fs as [|f' fs]; [simpl in Hp; by subst k|]. injection Hp as -> _. right. eapply exec_parked; eauto. }
    destruct Hcase as [Hpk|H0]; [|by left].
    destruct (parked_counts u _ Hi Hpk) as [Hsc Hrq]. simpl in Hsc, Hrq.
    apply lookup_insert_Some in Hu as [[<- <-]|[Hne Hu]].
    + simpl. eapply exec_rest; eauto. by apply (safe_rest _ Hsafe t (Local (f :: k) h)).
    + apply (at_rest_same (mem w u)); [by eapply exec_disable_other|]. by apply (safe_rest _ Hsafe u l).
  - apply lookup_insert_Some in Hv as [[-> <-]|[Hne Hv]]; [|by apply (safe_state _ Hsafe v)]. simpl.
    pose proof (exec_state _ _ _ _ _ _ He) as Hst. destruct fs as [|f' fs]; simpl in *.
    + destruct k; [done|]. by apply andb_prop in Hk as [_ Hk].
    + by rewrite forallb_app, Hst, Hk.
Qed.

Lemma call_keeps_safe t h w ls c h' w1 w2 fs : safe (Sys w ls) -> ls !! t = Some (Local [] h) ->
  allowed false t w h c h' w1 -> enter t w1 c = (w2, fs) -> safe (Sys w2 (<[t := Local (fs ++ []) h']> ls)).
Proof.
  intros Hsafe Hl Ha He. pose proof (enter_state _ _ _ _ _ He) as Hst.
  split; [intros u l Hu (v & m & Hv & Hp)|intros v m Hv]; simpl in *; rewrite app_nil_r in *.
  - assert (Hpk : parked u (Sys w ls)).
    { apply lookup_insert_Some in Hv as [[-> <-]|[Hne Hv]]; [|exists v, m; done]. simpl in Hp.
      destruct Hp as [Hp|(k' & r & ->)]; [|done]. exists v, (Local [] h). split; [done|]. left. by eapply allowed_holds. }
    apply lookup_insert_Some in Hu as [[<- <-]|[Hne Hu]].
    + simpl. eapply enter_rest; eauto. by apply (safe_rest _ Hsafe t (Local [] h)).
    + apply (at_rest_same (mem w u)); [by eapply enter_disable_other|]. by apply (safe_rest _ Hsafe u l).
  - apply lookup_insert_Some in Hv as [[-> <-]|[Hne Hv]]; [|by apply (safe_state _ Hsafe v)].
    simpl. destruct fs; [done|]. by apply andb_prop in Hst as [_ Hst].
Qed.

Lemma careful_safe ids s : rtc careful (initial ids) s -> safe s /\ counts_inv s /\ few s.
Proof.
  apply careful_ind.
  - split; intros t l Hl; apply lookup_gset_to_gmap_Some in Hl as [_ <-]; [|done]. intros _. by left.
  - intros s1 s2 Hi Hf _ Hsafe Hs. destruct Hs as [t f k h w ls w' fs hs Hl He|t k h w ls c h' w1 w2 fs Hl Hc Ha He|t gc k h w ls Hl].
    + by eapply exec_keeps_safe.
    + pose proof (li_tame _ _ (ci_local _ Hi _ _ Hl)) as Ht. simpl in Ht. rewrite (tame_client k Ht Hc) in *. by eapply call_keeps_safe.
    + by pose proof (li_tame _ _ (ci_local _ Hi _ _ Hl)).
Qed.


(** ** [hythread_suspend_all] *)










(** ** Cyclic suspension *)

(** Two threads that suspend one another while both are in unsafe regions do not wait
    for each other for ever: each finds its own [request] set, so the one that runs
    [hythread_suspend_other] takes its suspension back and returns [TM_ERROR_EBUSY], and
    the one that runs [hythread_suspend_all] goes through a safe point before it
    looks again. *)
Theorem cyclic_suspend_busy ids s t u l m j k r1 r2 : rtc careful (initial ids) s ->
  locals s !! t = Some l -> code l = WaitRegion_self u j :: r1 ->
  locals s !! u = Some m -> code m = WaitRegion_self t k :: r2 ->
  let retry v i := match i with SuspendOther => [Resume v] | SuspendAll => [SafePoint; WaitRegion v i] end in
  exec t (shared s) (WaitRegion_self u j) = Some (shared s, retry u j, []) /\
  exec u (shared s) (WaitRegion_self t k) = Some (shared s, retry t k, []).
Proof.
  intros Hr Hl Hcl Hm Hcm. destruct (careful_safe ids s Hr) as (_ & Hi & Hf).
  assert (Hreq : forall v p c i r, locals s !! v = Some c -> code c = WaitRegion_self p i :: r -> (request (mem (shared s) p) =? 0) = false).
  { intros v p c i r Hc Hcc. pose proof (proj2 (carries_counts s v c p Hi Hc)) as Hq. pose proof (li_req_debt _ _ (ci_local s Hi v c Hc) p) as Hd.
    unfold carries in Hq. rewrite Hcc in Hq, Hd. destruct Hd as [_ Hd]. apply solvent_weigh in Hd. simpl in Hq, Hd. rewrite same_eq in Hq.
    apply Z.eqb_neq. lia. }
  simpl. rewrite (Hreq u t m k r2 Hm Hcm), (Hreq t u l j r1 Hl Hcl). unfold goes. by destruct j, k.
Qed.

(** ** No wake-up is lost *)

(** Frames of a thread that has counted [u] down and may have to wake it up, and of a
    thread that is falling asleep. *)
Definition resuming (u : Z) (f : frame) : bool :=
  match f with Resume_request v | Resume_check v | Resume_state v | Resume_post v => v =? u | _ => false end.
Definition falls_asleep (k : list frame) : bool :=
  match k with (SafePoint_save | SafePoint_wait _) :: _ => true | _ => false end.

Definition resumer (u : Z) (s : sys) : Prop :=
  exists t f k h, locals s !! t = Some (Local (f :: k) h) /\ resuming u f = true.

Record wakes (s : sys) : Prop := {
  wakes_max u : max_count (resume_event (mem (shared s) u)) = 1;
  wakes_count u : 0 <= sem_count (resume_event (mem (shared s) u));
  wakes_up u l : locals s !! u = Some l -> falls_asleep (code l) = true -> suspend_count (mem (shared s) u) = 0 ->
    0 < sem_count (resume_event (mem (shared s) u)) \/ resumer u s;
}.

Lemma hysem_wait_max e e' : hysem_wait e = Some e' -> max_count e' = max_count e.
Proof. unfold hysem_wait. intros H. by case_match; simplify_eq. Qed.
Lemma hysem_post_max e : max_count (hysem_post e).1 = max_count e.
Proof. unfold hysem_post. by case_match. Qed.
Lemma hysem_post_count e : max_count e = 1 -> 0 <= sem_count e -> 0 < sem_count (hysem_post e).1 /\ sem_count e <= sem_count (hysem_post e).1.
Proof. unfold hysem_post. intros -> H. destruct (Z.leb_spec 1 (sem_count e)); simpl; lia. Qed.

Lemma exec_max t w f w' fs hs u : exec t w f = Some (w', fs, hs) ->
  max_count (resume_event (mem w' u)) = max_count (resume_event (mem w u)).
Proof.
  intros H. destruct f; exec_cases H; at_thread; try done; [by apply hysem_wait_max|apply hysem_post_max].
Qed.

Lemma exec_event t w f w' fs hs u : exec t w f = Some (w', fs, hs) ->
  (forall v, max_count (resume_event (mem w v)) = 1 /\ 0 <= sem_count (resume_event (mem w v))) ->
  0 <= sem_count (resume_event (mem w' u)) /\
  (sem_count (resume_event (mem w u)) <= sem_count (resume_event (mem w' u)) \/ (u = t /\ exists gc, fs = [SafePoint_loop gc])).
Proof.
  intros H He. pose proof (He u) as [Hm Hc]. destruct f; exec_cases H; at_thread; (split; [try lia|try (left; lia)]).
  - unfold hysem_wait in *. case_match; simplify_eq. simpl. lia.
  - right. split; [done|by eexists].
  - pose proof (hysem_post_count _ Hm Hc). lia.
  - left. apply (hysem_post_count _ Hm Hc).
Qed.

(** What becomes of a thread that has to wake [u] up. *)
Lemma exec_resuming t w f w' fs hs u : exec t w f = Some (w', fs, hs) -> resuming u f = true -> suspend_count (mem w u) = 0 ->
  max_count (resume_event (mem w u)) = 1 -> 0 <= sem_count (resume_event (mem w u)) ->
  (exists f', fs = [f'] /\ resuming u f' = true) \/ 0 < sem_count (resume_event (mem w' u)).
Proof.
  intros H Hu H0 Hm Hc. destruct f; try discriminate Hu; simpl in Hu; apply Z.eqb_eq in Hu as ->; simpl in H; unfold goes in H.
  - simplify_eq. left. eexists. split; [done|]. apply Z.eqb_refl.
  - rewrite H0 in H. simpl in H. simplify_eq. left. eexists. split; [done|]. apply Z.eqb_refl.
  - simplify_eq. left. eexists. split; [done|]. apply Z.eqb_refl.
  - simplify_eq. right. at_thread. by apply hysem_post_count.
Qed.

(** How a thread gets to fall asleep. *)
Lemma exec_falls_asleep t w f k w' fs hs : exec t w f = Some (w', fs, hs) -> forallb not_state k = true ->
  falls_asleep (fs ++ k) = true -> falls_asleep (f :: k) = true /\ mem w' t = set_disable_count 0 (mem w t) \/
  suspend_count (mem w' t) <> 0.
Proof.
  intros H Hk Hs. destruct f; exec_cases H; try done;
    try (destruct k as [|[] k]; by simpl in Hk, Hs); try (right; by apply Z.eqb_neq).
  left. split; [done|]. by rewrite alter_at, decide_True.
Qed.

(** Who counts a thread down to zero has to wake it up. *)
Lemma exec_to_zero t w f w' fs hs u : exec t w f = Some (w', fs, hs) -> tame f = true -> suspend_count (mem w' u) = 0 ->
  suspend_count (mem w u) = 0 \/ f = Send u \/ (f = Send_self /\ t = u) \/ fs = [Resume_request u].
Proof. intros H Ht H0. destruct f; try discriminate Ht; exec_cases H; revert H0; at_thread; intros; try (by left); try tauto. Qed.

Lemma resumer_other t l' w w' ls u : resumer u (Sys w ls) ->
  resumer u (Sys w' (<[t := l']> ls)) \/ exists f k h, ls !! t = Some (Local (f :: k) h) /\ resuming u f = true.
Proof.
  intros (v & f & k & h & Hv & Hf). simpl in Hv. destruct (decide (v = t)) as [->|Hne]; [right; eauto|].
  left. exists v, f, k, h. simpl. by rewrite lookup_insert_ne.
Qed.

Lemma resumer_self t f k h w ls u : resuming u f = true -> resumer u (Sys w (<[t := Local (f :: k) h]> ls)).
Proof. intros Hf. exists t, f, k, h. simpl. by rewrite lookup_insert_eq. Qed.

Lemma falls_asleep_inv k : falls_asleep k = true -> exists k', k = SafePoint_save :: k' \/ exists gc, k = SafePoint_wait gc :: k'.
Proof. destruct k as [|[] k]; intros H; try discriminate H; exists k; [by left|right; by eexists]. Qed.

Lemma exec_wakes t f k h w ls w' fs hs : let s' := Sys w' (<[t := Local (fs ++ k) (h ⊎ list_to_set_disj hs)]> ls) in
  counts_inv (Sys w ls) -> counts_inv s' -> safe (Sys w ls) -> wakes (Sys w ls) -> ls !! t = Some (Local (f :: k) h) ->
  exec t w f = Some (w', fs, hs) -> wakes s'.
Proof.
  intros s' Hi Hi' Hsafe Hw Hl He.
  pose proof (li_tame _ _ (ci_local _ Hi _ _ Hl)) as Ht. apply andb_prop in Ht as [Ht _].
  pose proof (safe_state _ Hsafe _ _ Hl) as Hk. simpl in Hk.
  assert (Hev : forall v, max_count (resume_event (mem w v)) = 1 /\ 0 <= sem_count (resume_event (mem w v))).
  { intros v. split; [apply (wakes_max _ Hw v)|apply (wakes_count _ Hw v)]. }
  split; [intros u; simpl; rewrite (exec_max _ _ _ _ _ _ _ He); apply Hev|intros u; by eapply exec_event|].
  intros u l Hu Hs H0. simpl in Hu, H0.
  (* the thread was falling asleep before, and was already counted down or is now *)
  assert (Hold : exists l0, ls !! u = Some l0 /\ falls_asleep (code l0) = true /\ (u = t -> exists k0, f = SafePoint_save /\ fs = [SafePoint_wait k0])).
  { apply lookup_insert_Some in Hu as [[<- <-]|[Hne Hu]]; [|exists l; by split_and!].
    exists (Local (f :: k) h). split; [done|]. simpl in Hs.
    destruct (exec_falls_asleep _ _ _ _ _ _ _ He Hk Hs) as [[Hfa _]|Hn]; [|done]. split; [done|]. intros _.
    destruct f; try discriminate Hfa; exec_cases He; by eexists. }
  destruct Hold as (l0 & Hl0 & Hs0 & Hself).
  destruct (exec_to_zero _ _ _ _ _ _ u He Ht H0) as [H0'|[->|[[-> ->]| ->]]].
  - destruct (exec_event _ _ _ _ _ _ u He Hev) as [_ [Hle|[-> [gc ->]]]]; [|by destruct (Hself eq_refl) as (? & _ & ?)].
    destruct (wakes_up _ Hw u l0 Hl0 Hs0 H0') as [Hp|Hres]; [left; simpl in *; lia|].
    destruct (resumer_other t (Local (fs ++ k) (h ⊎ list_to_set_disj hs)) w w' ls u Hres) as [Hr|(f0 & k0 & h0 & Hf0 & Hr)]; [by right|].
    rewrite Hl in Hf0. injection Hf0 as <- <- <-.
    destruct (exec_resuming _ _ _ _ _ _ _ He Hr H0' (proj1 (Hev u)) (proj2 (Hev u))) as [(f' & -> & Hf')|Hp]; [|by left].
    right. by apply resumer_self.
  - exfalso. pose proof (li_debt _ _ (ci_local _ Hi _ _ Hl) u) as [Hd _]. simpl in Hd. rewrite same_eq in Hd. simpl in He. unfold goes in He. simplify_eq.
    assert (Hc : s'.(locals) !! t = Some (Local ([Send_request u] ++ k) (h ⊎ list_to_set_disj []))) by (simpl; apply lookup_insert_eq).
    pose proof (proj1 (carries_counts s' t _ u Hi' Hc)) as Hq. rewrite carries_app in Hq. simpl in Hq, H0. simpl weigh in Hd. lia.
  - by destruct (Hself eq_refl) as (? & ? & _).
  - right. by apply resumer_self; simpl; rewrite Z.eqb_refl.
Qed.

Lemma call_same t w h c h' w1 w2 fs u : allowed false t w h c h' w1 -> enter t w1 c = (w2, fs) ->
  resume_event (mem w2 u) = resume_event (mem w u).
Proof.
  intros Ha He. destruct c; simpl in Ha, He; destruct_and?; simplify_eq;
    try (destruct Ha as [(Hu & -> & ->)|(Hu & -> & ->)]); at_thread; done.
Qed.
Lemma enter_awake t w c w' fs : enter t w c = (w', fs) -> falls_asleep fs = false.
Proof. intros He. destruct c; simpl in He; repeat case_match; by simplify_eq. Qed.

Lemma call_wakes t h w ls c h' w1 w2 fs : wakes (Sys w ls) -> ls !! t = Some (Local [] h) ->
  allowed false t w h c h' w1 -> enter t w1 c = (w2, fs) -> wakes (Sys w2 (<[t := Local (fs ++ []) h']> ls)).
Proof.
  intros Hw Hl Ha He. assert (Hev := fun u => call_same t w h c h' w1 w2 fs u Ha He).
  split; simpl; [intros u; rewrite Hev; apply (wakes_max _ Hw)|intros u; rewrite Hev; apply (wakes_count _ Hw)|].
  intros u l Hu Hs H0. rewrite app_nil_r in *. rewrite Hev. apply lookup_insert_Some in Hu as [[<- <-]|[Hne Hu]].
  - simpl in Hs. by rewrite (enter_awake _ _ _ _ _ He) in Hs.
  - destruct (call_counts t w h c h' w1 w2 fs u Ha He) as (_ & _ & Hsc & _). simpl in Hsc. rewrite Hsc in H0.
    destruct (wakes_up _ Hw u l Hu Hs H0) as [Hp|Hres]; [by left|].
    destruct (resumer_other t (Local fs h') w w2 ls u Hres) as [Hr|(f0 & k0 & h0 & Hf0 & _)]; [by right|].
    by rewrite Hl in Hf0.
Qed.

Lemma careful_wakes ids s : rtc careful (initial ids) s -> wakes s.
Proof.
  intros Hr. apply (careful_ind (fun s => wakes s /\ safe s)) with (ids := ids) in Hr; [apply Hr| |].
  - split; split; simpl; try done; intros t l Hl; apply lookup_gset_to_gmap_Some in Hl as [_ <-]; try done. intros _. by left.
  - intros s1 s2 Hi Hf Hf2 [Hw Hsafe] Hs. assert (Hi2 : counts_inv s2) by (by apply (careful_counts s1)).
    destruct Hs as [t f k h w ls w' fs hs Hl He|t k h w ls c h' w1 w2 fs Hl Hc Ha He|t gc k h w ls Hl].
    + split; [by eapply exec_wakes|by eapply exec_keeps_safe].
    + pose proof (li_tame _ _ (ci_local _ Hi _ _ Hl)) as Ht. simpl in Ht. rewrite (tame_client k Ht Hc) in *.
      split; [by eapply call_wakes|by eapply call_keeps_safe].
    + by pose proof (li_tame _ _ (ci_local _ Hi _ _ Hl)).
Qed.

(** A step of the code of one thread, and of no call it has yet to make. *)
Definition moves (t : Z) (s s' : sys) : Prop := exists f k h w' fs hs,
  locals s !! t = Some (Local (f :: k) h) /\ exec t (shared s) f = Some (w', fs, hs) /\
  s' = Sys w' (<[t := Local (fs ++ k) (h ⊎ list_to_set_disj hs)]> (locals s)).
(** It is a step of the system. *)
Lemma moves_step c t s s' : moves t s s' -> step c s s'.
Proof. intros (f & k & h & w' & fs & hs & Hl & He & ->). destruct s as [w ls]. by eapply step_exec. Qed.
Lemma goes_ran t f k h w ls w' fs : ls !! t = Some (Local (f :: k) h) -> exec t w f = goes w' fs ->
  moves t (Sys w ls) (Sys w' (<[t := Local (fs ++ k) h]> ls)).
Proof. intros Hl He. exists f, k, h, w', fs, []. split; [done|]. split; [done|]. simpl. by rewrite gmultiset_disj_union_right_id. Qed.

(** A thread that may have to wake [u] up does so, left to itself. *)
Section posts.
Context (t u : Z) (k : list frame) (h : gmultiset Z).

Definition asleep_for_nothing (w : world) : Prop :=
  suspend_count (mem w u) = 0 /\ max_count (resume_event (mem w u)) = 1 /\ 0 <= sem_count (resume_event (mem w u)).
Definition posts (n : nat) (f : frame) (w : world) : Prop :=
  forall ls, ls !! t = Some (Local (f :: k) h) -> exists w', bsteps (moves t) n (Sys w ls) (Sys w' (<[t := Local k h]> ls)) /\
    suspend_count (mem w' u) = 0 /\ 0 < sem_count (resume_event (mem w' u)).

Lemma posts_next n f f' w w' : exec t w f = goes w' [f'] -> posts n f' w' -> posts (S n) f w.
Proof.
  intros He Hp ls Hl. destruct (Hp (<[t := Local (f' :: k) h]> ls) (lookup_insert_eq _ _ _)) as (w2 & Hr & Hw2).
  exists w2. split; [|done]. rewrite insert_insert_eq in Hr. eapply bsteps_l; [by apply (goes_ran t f k h w ls w' [f'])|exact Hr].
Qed.

Lemma post_posts w : asleep_for_nothing w -> posts 1 (Resume_post u) w.
Proof.
  intros (H0 & Hm & Hc) ls Hl. eexists. split; [apply bsteps_once, (goes_ran t (Resume_post u) k h w ls _ []); [done|reflexivity]|].
  at_thread. split; [done|by apply hysem_post_count].
Qed.
Lemma state_posts w : asleep_for_nothing w -> posts 2 (Resume_state u) w.
Proof. intros H. eapply posts_next; [reflexivity|]. apply post_posts. unfold asleep_for_nothing in *. by at_thread. Qed.
Lemma check_posts w : asleep_for_nothing w -> posts 3 (Resume_check u) w.
Proof. intros H. eapply posts_next; [simpl; by rewrite (proj1 H)|]. by apply state_posts. Qed.
Lemma request_posts w : asleep_for_nothing w -> posts 4 (Resume_request u) w.
Proof. intros H. eapply posts_next; [reflexivity|]. apply check_posts. unfold asleep_for_nothing in *. by at_thread. Qed.

Lemma resuming_posts f w : resuming u f = true -> asleep_for_nothing w -> posts 4 f w.
Proof.
  intros Hf H. assert (Hle : forall n, (n <= 4)%nat -> posts n f w -> posts 4 f w).
  { intros n Hn Hp ls Hl. destruct (Hp ls Hl) as (w' & Hr & Hw'). exists w'. split; [by apply (bsteps_weaken n)|done]. }
  destruct f; try discriminate Hf; simpl in Hf; apply Z.eqb_eq in Hf as ->;
    [by apply request_posts|apply (Hle 3%nat), check_posts|apply (Hle 2%nat), state_posts|apply (Hle 1%nat), post_posts]; done || lia.
Qed.
End posts.

(** A thread in the semaphore that may go on and is not suspended leaves the safe point. *)
Lemma leaves_safe_point u gc k h w ls : ls !! u = Some (Local (SafePoint_wait gc :: k) h) ->
  suspend_count (mem w u) = 0 -> 0 < sem_count (resume_event (mem w u)) ->
  exists w', bsteps (moves u) 4 (Sys w ls) (Sys w' (<[u := Local k h]> ls)) /\ disable_count (mem w' u) = sx 16 gc.
Proof.
  intros Hl H0 Hs. eexists. split.
  - eapply bsteps_l; [eapply (goes_ran u _ k h w ls _ [SafePoint_loop gc]); [done|]|].
    { simpl. unfold hysem_wait. rewrite (proj2 (Z.leb_gt _ _)) by lia. reflexivity. }
    eapply bsteps_l; [eapply (goes_ran u _ k h _ _ _ [SetDisable gc]); [apply lookup_insert_eq|]|].
    { simpl. rewrite alter_at, decide_True by done. simpl. by rewrite H0. }
    eapply bsteps_l; [eapply (goes_ran u _ k h _ _ _ [SetDisable_check gc]); [apply lookup_insert_eq|reflexivity]|].
    eapply bsteps_l; [eapply (goes_ran u _ k h _ _ _ []); [apply lookup_insert_eq|]|].
    { simpl. rewrite !alter_at, !decide_True by done. simpl. by rewrite H0, andb_false_r. }
    rewrite !insert_insert_eq. apply bsteps_refl.
  - by at_thread.
Qed.

Lemma resuming_frames u f : resuming u f = true -> f ∈ [Resume_request u; Resume_check u; Resume_state u; Resume_post u].
Proof. destruct f; intros H; try discriminate H; simpl in H; apply Z.eqb_eq in H as ->; set_solver. Qed.

(** C32: No wake-up is lost. In every state threads reach without callbacks and without
    overflow of the counters, if a thread sleeps in a safe point and its [suspend_count]
    is zero, then four steps of its own code take it out of the safe point, with the
    [disable_count] it came with, either at once or after at most four steps of the code
    of one other thread, which stands in [hythread_resume] for it behind the count, with
    the event still to post. No step of a third thread and no new call is needed. *)
Theorem no_lost_wakeup ids s u gc k h : rtc careful (initial ids) s ->
  locals s !! u = Some (Local (SafePoint_wait gc :: k) h) -> suspend_count (mem (shared s) u) = 0 ->
  exists s1 s2, (s1 = s \/ exists t f k' h', t <> u /\ locals s !! t = Some (Local (f :: k') h') /\
      f ∈ [Resume_request u; Resume_check u; Resume_state u; Resume_post u] /\
      bsteps (moves t) 4 s s1 /\ locals s1 !! t = Some (Local k' h')) /\
    bsteps (moves u) 4 s1 s2 /\ locals s2 !! u = Some (Local k h) /\ disable_count (mem (shared s2) u) = sx 16 gc.
Proof.
  intros Hr Hl H0. pose proof (careful_wakes ids s Hr) as Hw. destruct s as [w ls]. simpl in *.
  destruct (wakes_up _ Hw u _ Hl eq_refl H0) as [Hp|(t & f & k' & h' & Ht & Hf)]; simpl in *.
  - destruct (leaves_safe_point u gc k h w ls Hl H0 Hp) as (w' & Hs & Hd).
    do 2 eexists. split; [by left|]. split; [exact Hs|]. simpl. by rewrite lookup_insert_eq.
  - destruct (resuming_posts t u k' h' f w Hf (conj H0 (conj (wakes_max _ Hw u) (wakes_count _ Hw u))) ls Ht) as (w1 & H1 & H01 & Hp).
    assert (Hne : t <> u) by (intros ->; rewrite Ht in Hl; injection Hl as -> _ _; discriminate Hf).
    destruct (leaves_safe_point u gc k h w1 (<[t := Local k' h']> ls)) as (w' & Hs & Hd); [by rewrite lookup_insert_ne|done..|].
    do 2 eexists. split; [right; exists t, f, k', h'; split; [done|]; split; [done|]; split; [by apply resuming_frames|]; split; [exact H1|apply lookup_insert_eq]|].
    split; [exact Hs|]. simpl. by rewrite lookup_insert_eq.
Qed.

