(* ===== verification/SuspendRuns.v ===== *)
(** * Runs of the suspension protocol: schedules that are executed, the witnesses of the
    theorems, and the schedules on which the protocol does not keep its promises. *)
From stdpp Require Import gmap gmultiset functions.
From S2P Require Import Prelude Threads Suspend SuspendOk.

#[export] Instance waiter_eq_dec : EqDecision waiter.
Proof. solve_decision. Defined.
#[export] Instance frame_eq_dec : EqDecision frame.
Proof. solve_decision. Defined.
#[export] Instance thread_eq_dec : EqDecision thread.
Proof. solve_decision. Defined.

(** ** Schedules *)

Inductive action := Run (t : Z) | Call (t : Z) (c : call) | Return (t : Z).

Section act.
Context (callbacks : bool).

(** What a call takes from the client, when it is allowed. *)
Definition take (t : Z) (w : world) (h : gmultiset Z) (c : call) : option (gmultiset Z * world) :=
  let keep (b : bool) := if b then Some (h, w) else None in
  let enabled := disable_count (mem w t) =? 0 in
  let owned (m : nested) := match m with Some (o, _) => o =? t | None => false end in
  match c with
  | hythread_suspend_enable => keep (0 <? disable_count (mem w t))
  | hythread_set_suspend_disable n => keep (0 <=? n)
  | hythread_resume u =>
      if bool_decide (u ∈ h) then Some (h ∖ {[+ u +]}, w)
      else if 0 <? unclaimed (mem w u) then Some (h, on u (set_unclaimed Z.pred) w) else None
  | hythread_suspend_all _ | hythread_global_lock => keep enabled
  | hythread_resume_all g => if enabled && bool_decide (others t g ⊆ h) then Some (h ∖ others t g, w) else None
  | hythread_global_unlock => keep (enabled && owned (TM_LOCK w))
  | vm_gc_unlock_enum => keep (owned (vm_gc_lock w))
  | hythread_exception_safe_point | hythread_set_safepoint_callback _ | hythread_set_thread_stop_callback _ => keep callbacks
  | _ => keep true
  end.

Definition act (a : action) (s : sys) : option sys :=
  let 'Sys w ls := s in
  match a with
  | Run t => match ls !! t with
             | Some (Local (f :: k) h) => '(w', fs, hs) ← exec t w f; Some (Sys w' (<[t := Local (fs ++ k) (h ⊎ list_to_set_disj hs)]> ls))
             | _ => None
             end
  | Call t c => match ls !! t with
                | Some (Local k h) =>
                    if at_client k then '(h', w1) ← take t w h c; let '(w2, fs) := enter t w1 c in
                      Some (Sys w2 (<[t := Local (fs ++ k) h']> ls))
                    else None
                | None => None
                end
  | Return t => match ls !! t with
                | Some (Local (Exception_call gc :: k) h) => Some (Sys (on t (set_disable_count gc) w) (<[t := Local k h]> ls))
                | _ => None
                end
  end.

Lemma take_allowed t w h c h' w1 : take t w h c = Some (h', w1) -> allowed callbacks t w h c h' w1.
Proof.
  intros H. destruct c; simpl in *; repeat case_match; simplify_eq; rewrite ?andb_true_iff, ?bool_decide_eq_true in *; destruct_and?;
    rewrite ?Z.ltb_lt, ?Z.leb_le, ?Z.eqb_eq in *; subst; try done; eauto 10.
Qed.

Lemma act_step a s s' : act a s = Some s' -> step callbacks s s'.
Proof.
  destruct s as [w ls], a as [t|t c|t]; simpl; intros H.
  - destruct (ls !! t) as [[[|f k] h]|] eqn:E; try done. destruct (exec t w f) as [[[w' fs] hs]|] eqn:Ex; simpl in H; [|done].
    simplify_eq. by eapply step_exec.
  - destruct (ls !! t) as [[k h]|] eqn:E; [|done]. destruct (at_client k) eqn:Ek; [|done].
    destruct (take t w h c) as [[h' w1]|] eqn:Et; simpl in H; [|done]. destruct (enter t w1 c) as [w2 fs] eqn:Ee. simplify_eq.
    eapply step_call; [done|done|by apply take_allowed|done].
  - destruct (ls !! t) as [[[|[] k] h]|] eqn:E; try done. simplify_eq. by apply step_return_callback.
Qed.
End act.

(** ** Careful schedules

    [few] speaks of every thread number; the threads outside [D] are never touched, and
    the debts are bounded by the size of the frames. *)
Definition frame_target (f : frame) : list Z :=
  match f with
  | Send u | Send_request u | WaitRegion u _ | WaitRegion_self u _ | WaitRegion_state u _ | Resume u | Resume_cas u _
  | Resume_request u | Resume_check u | Resume_state u | Resume_post u | SetCallback u | SetCallback_request u
  | Stop u | Stop_count u | Stop_request u => [u]
  | _ => []
  end.
Definition frame_size (f : frame) : Z :=
  match f with
  | Send_request _ => 0
  | SuspendAll_wait us | ResumeAll us => Z.of_nat (length us)
  | _ => 1
  end.
Definition local_size (l : thread) : Z := Z.of_nat (size (holds l)) + foldr (fun f z => frame_size f + z) 0 (code l).

Definition action_targets (a : action) (s : sys) : list Z :=
  match a with
  | Run t => t :: match locals s !! t with Some (Local (f :: _) _) => frame_target f | _ => [] end
  | Call t (hythread_resume u) => [t; u]
  | Call t _ | Return t => [t]
  end.

Section careful.
Context (D : list Z).

Definition few_check (s : sys) : bool :=
  let most := total (fun _ l => local_size l) (locals s) in
  forallb (fun u => (unclaimed (mem (shared s) u) + most <? 2 ^ 32) && (0 <=? disable_count (mem (shared s) u))) D && (most <? 2 ^ 32).

Definition untouched (s : sys) : Prop := forall u, u ∉ D -> mem (shared s) u = hythread_struct_init.

Lemma multiplicity_size (u : Z) (h : gmultiset Z) : (multiplicity u h <= size h)%nat.
Proof.
  induction h as [|x h IH] using gmultiset_ind; [done|].
  rewrite gmultiset_size_disj_union, gmultiset_size_singleton, multiplicity_disj_union, multiplicity_singleton. case_decide; lia.
Qed.

Lemma occurs_length t u us : occurs t u us <= Z.of_nat (length us).
Proof.
  induction us as [|v us IH]; [done|]. rewrite occurs_cons. simpl. pose proof (same_bounds v u). destruct (v =? t); lia.
Qed.

Lemma frame_size_debt t u f : debt t u f <= frame_size f /\ req_debt t u f <= frame_size f.
Proof.
  destruct f; simpl; debt_facts; try lia; try (match goal with |- context [occurs ?t ?u ?us] => pose proof (occurs_length t u us) end; lia).
Qed.

Lemma local_size_carries t u l : carries debt u t l <= local_size l /\ carries req_debt u t l <= local_size l.
Proof.
  unfold carries, local_size. pose proof (multiplicity_size u (holds l)).
  assert (forall k, weigh (debt t u) k <= foldr (fun f z => frame_size f + z) 0 k /\ weigh (req_debt t u) k <= foldr (fun f z => frame_size f + z) 0 k).
  { intros k. induction k as [|f k IH]; simpl; [done|]. pose proof (frame_size_debt t u f). lia. }
  specialize (H0 (code l)). lia.
Qed.

Lemma few_check_few s : untouched s -> few_check s = true -> few s.
Proof.
  intros Hu Hc u. unfold few_check in Hc. apply andb_prop in Hc as [Hc Hmost]. rewrite forallb_forall in Hc. apply Z.ltb_lt in Hmost.
  assert (Ht : total (carries debt u) (locals s) <= total (fun _ l => local_size l) (locals s) /\
               total (carries req_debt u) (locals s) <= total (fun _ l => local_size l) (locals s)).
  { split; apply total_mono; intros t l _; apply local_size_carries. }
  unfold outstanding, requested. destruct (decide (u ∈ D)) as [Hin|Hout].
  - specialize (Hc u (proj1 (list_elem_of_In _ _) Hin)). apply andb_prop in Hc as [Hc Hd]. apply Z.ltb_lt in Hc. apply Z.leb_le in Hd. lia.
  - rewrite (Hu u Hout). simpl. lia.
Qed.

Lemma exec_touches t w f w' fs hs u : exec t w f = Some (w', fs, hs) -> u <> t -> u ∉ frame_target f -> mem w' u = mem w u.
Proof.
  intros H Hne Hu. destruct f; exec_cases H; simpl in Hu; rewrite ?list_elem_of_singleton in Hu; cbn [mem on];
    rewrite ?alter_at, ?decide_False by congruence; done.
Qed.

Lemma call_touches b t w h c h' w1 w2 fs u : allowed b t w h c h' w1 -> enter t w1 c = (w2, fs) -> u <> t ->
  (forall v, c = hythread_resume v -> u <> v) -> mem w2 u = mem w u.
Proof.
  intros Ha He Hne Hr. destruct c as [| | | | | | |v| | | | | | | | |]; simpl in Ha, He; destruct_and?; simplify_eq;
    try (destruct Ha as [(Hu & -> & ->)|(Hu & -> & ->)]; [|specialize (Hr v eq_refl)]); cbn [mem on];
    rewrite ?alter_at, ?decide_False by congruence; done.
Qed.

Lemma act_untouched b a s s' : act b a s = Some s' -> forallb (fun u => bool_decide (u ∈ D)) (action_targets a s) = true ->
  untouched s -> untouched s'.
Proof.
  destruct s as [w ls]. intros H Ht Hu u Hnu. rewrite forallb_forall in Ht. rewrite <- (Hu u Hnu). simpl.
  assert (Hn : forall v, v ∈ action_targets a (Sys w ls) -> u <> v).
  { intros v Hv ->. apply Hnu. apply list_elem_of_In in Hv. by specialize (Ht v Hv); apply bool_decide_eq_true in Ht. }
  destruct a as [t|t c|t]; simpl in H, Hn.
  - destruct (ls !! t) as [[[|f k] h]|] eqn:E; try done. destruct (exec t w f) as [[[w' fs] hs]|] eqn:Ex; simpl in H; [|done].
    simplify_eq. simpl. eapply exec_touches; [exact Ex|apply Hn; by left|]. intros Hin. by apply (Hn u); [right|].
  - destruct (ls !! t) as [[k h]|] eqn:E; [|done]. destruct (at_client k) eqn:Ek; [|done].
    assert (Hne : u <> t) by (apply Hn; destruct c; by left).
    destruct (take b t w h c) as [[h' w1]|] eqn:Et; simpl in H; [|done]. destruct (enter t w1 c) as [w2 fs] eqn:Ee. simplify_eq.
    apply take_allowed in Et. eapply call_touches; [exact Et|exact Ee|exact Hne|].
    intros v ->. apply Hn. right. by left.
  - destruct (ls !! t) as [[[|[] k] h]|] eqn:E; try done. simplify_eq. cbn [mem on shared]. rewrite alter_at, decide_False; [done|]. symmetry. apply Hn. by left.
Qed.
Fixpoint careful_run (acts : list action) (s : sys) : option sys :=
  match acts with
  | [] => Some s
  | a :: acts =>
      if forallb (fun u => bool_decide (u ∈ D)) (action_targets a s) then
        s' ← act false a s; if few_check s' then careful_run acts s' else None
      else None
  end.

Lemma careful_run_careful acts s s' : untouched s -> careful_run acts s = Some s' -> rtc careful s s'.
Proof.
  revert s. induction acts as [|a acts IH]; simpl; intros s Hu H; [by simplify_eq|].
  destruct (forallb _ _) eqn:Et; [|done]. destruct (act false a s) as [s1|] eqn:Ea; simpl in H; [|done].
  destruct (few_check s1) eqn:Ef; [|done]. pose proof (act_untouched _ _ _ _ Ea Et Hu) as Hu1.
  eapply rtc_l; [|by apply IH]. split; [by apply (act_step false a)|by apply few_check_few].
Qed.
End careful.

(** A schedule that ends in a state with the given property. *)
Definition ends (D : list Z) (acts : list action) (P : sys -> bool) : bool :=
  match careful_run D acts (initial (list_to_set D)) with Some s => P s | None => false end.

Lemma ends_reaches D acts P : ends D acts P = true -> exists s, rtc careful (initial (list_to_set D)) s /\ P s = true.
Proof.
  unfold ends. destruct (careful_run D acts _) as [s|] eqn:E; [|done]. intros HP. exists s. split; [|done].
  by apply (careful_run_careful D acts).
Qed.

(** The code of a thread and what it holds, as a test. *)
Definition is_at (t : Z) (k : list frame) (h : gmultiset Z) (s : sys) : bool := bool_decide (locals s !! t = Some (Local k h)).


(** ** Schedules on which the protocol works *)

Fixpoint runs (n : nat) (t : Z) : list action := match n with O => [] | S n => Run t :: runs n t end.

(** Thread 2 is in an unsafe region, thread 1 suspends it, thread 2 comes to a safe point. *)
Definition suspends_2 : list action :=
  Call 2 hythread_suspend_disable :: Run 2 :: Call 1 (hythread_suspend_other 2) :: runs 4 1 ++
  Call 2 hythread_safe_point :: runs 2 2 ++ runs 2 1.

Lemma is_at_local t k h s : is_at t k h s = true -> locals s !! t = Some (Local k h).
Proof. apply bool_decide_eq_true. Qed.




(** Both threads are in unsafe regions and suspend each other. *)
Definition suspend_each_other : list action :=
  Call 1 hythread_suspend_disable :: Run 1 :: Call 2 hythread_suspend_disable :: Run 2 ::
  Call 1 (hythread_suspend_other 2) :: Call 2 (hythread_suspend_other 1) :: runs 3 1 ++ runs 3 2.

Lemma cyclic_suspend_busy_witness : exists s, locals s !! 1 = Some (Local [WaitRegion_self 2 SuspendOther] ∅) /\
  locals s !! 2 = Some (Local [WaitRegion_self 1 SuspendOther] ∅) /\
  exec 1 (shared s) (WaitRegion_self 2 SuspendOther) = Some (shared s, [Resume 2], []).
Proof.
  destruct (ends_reaches [1; 2] suspend_each_other
    (fun s => is_at 1 [WaitRegion_self 2 SuspendOther] ∅ s && is_at 2 [WaitRegion_self 1 SuspendOther] ∅ s)) as (s & Hr & HP).
  { by vm_compute. }
  apply andb_prop in HP as [H1 H2]. apply is_at_local in H1, H2. exists s. split; [done|]. split; [done|].
  exact (proj1 (cyclic_suspend_busy (list_to_set [1; 2]) s 1 2 _ _ SuspendOther SuspendOther [] [] Hr H1 eq_refl H2 eq_refl)).
Defined.

(** Thread 1 has counted thread 2 down and has not woken it up yet. *)
Lemma no_lost_wakeup_witness : exists s, locals s !! 2 = Some (Local [SafePoint_wait 1] ∅) /\
  locals s !! 1 = Some (Local [Resume_request 2] ∅) /\
  exists s1 s2, (s1 = s \/ exists t f k' h', t <> 2 /\ locals s !! t = Some (Local (f :: k') h') /\
      f ∈ [Resume_request 2; Resume_check 2; Resume_state 2; Resume_post 2] /\
      bsteps (moves t) 4 s s1 /\ locals s1 !! t = Some (Local k' h')) /\
    bsteps (moves 2) 4 s1 s2 /\ locals s2 !! 2 = Some (Local [] ∅) /\ disable_count (mem (shared s2) 2) = 1.
Proof.
  destruct (ends_reaches [1; 2] (suspends_2 ++ Call 1 (hythread_resume 2) :: runs 2 1)
    (fun s => is_at 1 [Resume_request 2] ∅ s && is_at 2 [SafePoint_wait 1] ∅ s && (suspend_count (mem (shared s) 2) =? 0))) as (s & Hr & HP).
  { by vm_compute. }
  apply andb_prop in HP as [HP H0]. apply andb_prop in HP as [H1 H2]. apply is_at_local in H1, H2. apply Z.eqb_eq in H0.
  exists s. split; [done|]. split; [done|].
  exact (no_lost_wakeup (list_to_set [1; 2]) s 2 1 [] ∅ Hr H2 H0).
Defined.

(** ** Schedules on which it does not *)

(** A state in which no thread can move. *)
Definition blocked (w : world) (p : Z * thread) : bool :=
  match code p.2 with
  | [] | Exception_call _ :: _ => false
  | f :: _ => bool_decide (exec p.1 w f = None)
  end.

Lemma blocked_step c s s' : forallb (blocked (shared s)) (map_to_list (locals s)) = true -> ~ step c s s'.
Proof.
  intros Hb Hs. rewrite forallb_forall in Hb.
  assert (Hall : forall t l, locals s !! t = Some l -> blocked (shared s) (t, l) = true).
  { intros t l Hl. apply Hb, list_elem_of_In, elem_of_map_to_list, Hl. }
  destruct Hs as [t f k h w ls w' fs hs Hl He|t k h w ls c0 h' w1 w2 fs Hl Hc Ha He|t gc k h w ls Hl]; specialize (Hall t _ Hl);
    unfold blocked in Hall; simpl in Hall.
  - destruct f; try discriminate Hall; apply bool_decide_eq_true in Hall; congruence.
  - destruct k as [|[] k]; discriminate.
  - done.
Qed.

(** Thread 1 stops thread 2 in a safe region; thread 2, still there, suspends thread 1,
    which is in a safe region as well, and goes on to the end of its own; then thread 1
    wants to resume everybody. *)
Definition stopped_by_stopped : list action :=
  Call 1 (hythread_suspend_all [1; 2]) :: runs 16 1 ++ Call 2 (hythread_suspend_other 1) :: runs 4 2 ++
  Call 2 hythread_suspend_disable :: runs 3 2 ++ Call 1 (hythread_resume_all [1; 2]) :: runs 5 1.

(** C33: [wait_safe_region_event] looks for a cycle only while its target is in an unsafe
    region, so two threads in safe regions can suspend one another, and then the caller of
    [hythread_resume_all] goes into a safe point inside [hythread_global_lock] before it
    resumes anybody: a state is reachable where both threads sleep and no step of any
    thread is possible.  The sleeper still has the global lock, which
    [hythread_global_lock] gives up once where it was taken twice. *)
Theorem suspend_deadlock : exists s, rtc careful (initial (list_to_set [1; 2])) s /\
  (exists k h, locals s !! 1 = Some (Local (SafePoint_wait 0 :: GlobalLock :: ResumeAll [1; 2] :: k) h)) /\
  (exists h, locals s !! 2 = Some (Local [SafePoint_wait 1] h)) /\
  TM_LOCK (shared s) = Some (1, 1) /\ forall c s', ~ step c s s'.
Proof.
  destruct (ends_reaches [1; 2] stopped_by_stopped
    (fun s => is_at 1 [SafePoint_wait 0; GlobalLock; ResumeAll [1; 2]; GlobalUnlock; GlobalUnlock] ∅ s && is_at 2 [SafePoint_wait 1] {[+ 1 +]} s &&
       bool_decide (TM_LOCK (shared s) = Some (1, 1)) && forallb (blocked (shared s)) (map_to_list (locals s)))) as (s & Hr & HP).
  { by vm_compute. }
  apply andb_prop in HP as [HP Hb]. apply andb_prop in HP as [HP Hlock]. apply andb_prop in HP as [H1 H2].
  apply is_at_local in H1, H2. apply bool_decide_eq_true in Hlock. exists s. split_and!; eauto. intros c s'. by apply blocked_step.
Qed.

(** A resume that is overtaken: thread 3 suspends thread 2 and marks it
    [TM_THREAD_STATE_SUSPENDED], and thread 1, which had counted thread 2 down to zero
    before, takes the mark away. *)
Lemma suspended_without_mark : exists s, rtc careful (initial (list_to_set [1; 2; 3])) s /\
  locals s !! 3 = Some (Local [] {[+ 2 +]}) /\ state_suspended (mem (shared s) 2) = false.
Proof.
  destruct (ends_reaches [1; 2; 3] (Call 1 (hythread_suspend_other 2) :: runs 4 1 ++ Call 1 (hythread_resume 2) :: runs 4 1 ++
     Call 3 (hythread_suspend_other 2) :: runs 4 3 ++ [Run 1])
    (fun s => is_at 3 [] {[+ 2 +]} s && negb (state_suspended (mem (shared s) 2)))) as (s & Hr & HP).
  { by vm_compute. }
  apply andb_prop in HP as [H3 Hm]. apply is_at_local in H3. exists s. split_and!; [done|done|by apply negb_true_iff].
Qed.

(** ** Callbacks *)

Fixpoint run (acts : list action) (s : sys) : option sys :=
  match acts with [] => Some s | a :: acts => s' ← act true a s; run acts s' end.

Lemma run_steps acts s s' : run acts s = Some s' -> rtc (step true) s s'.
Proof.
  revert s. induction acts as [|a acts IH]; simpl; intros s H; [by simplify_eq|].
  destruct (act true a s) as [s1|] eqn:Ea; simpl in H; [|done]. eapply rtc_l; [by eapply act_step|by apply IH].
Qed.

Definition run_ends (D : list Z) (acts : list action) (P : sys -> bool) : bool :=
  match run acts (initial (list_to_set D)) with Some s => P s | None => false end.

Lemma run_ends_reaches D acts P : run_ends D acts P = true -> exists s, rtc (step true) (initial (list_to_set D)) s /\ P s = true.
Proof.
  unfold run_ends. destruct (run acts _) as [s|] eqn:E; [|done]. intros HP. exists s. split; [by eapply run_steps|done].
Qed.

(** [hythread_exception_safe_point] sets [disable_count] to 1 without a look at
    [suspend_count]: a thread that was suspended in a safe region runs its callback as
    unsafe code while it is held. *)
Lemma callback_while_suspended : exists s, rtc (step true) (initial (list_to_set [1; 2])) s /\
  locals s !! 1 = Some (Local [] {[+ 2 +]}) /\ locals s !! 2 = Some (Local [Exception_call 0] ∅) /\
  disable_count (mem (shared s) 2) = 1.
Proof.
  destruct (run_ends_reaches [1; 2] (Call 1 (hythread_set_safepoint_callback 2) :: runs 2 1 ++ Call 1 (hythread_suspend_other 2) :: runs 4 1 ++
     Call 2 hythread_exception_safe_point :: runs 4 2)
    (fun s => is_at 1 [] {[+ 2 +]} s && is_at 2 [Exception_call 0] ∅ s && (disable_count (mem (shared s) 2) =? 1))) as (s & Hr & HP).
  { by vm_compute. }
  apply andb_prop in HP as [HP Hd]. apply andb_prop in HP as [H1 H2]. apply is_at_local in H1, H2. apply Z.eqb_eq in Hd. by exists s.
Qed.

(** [hythread_set_safepoint_callback] publishes the callback before it counts up
    [request]; when the target is faster its own count down cancels the next
    suspension's, and [hythread_suspend_disable] lets it into an unsafe region while it
    is held. *)
Lemma request_cancelled : exists s, rtc (step true) (initial (list_to_set [1; 2; 3])) s /\
  locals s !! 3 = Some (Local [] {[+ 2 +]}) /\ locals s !! 2 = Some (Local [] ∅) /\
  disable_count (mem (shared s) 2) = 1 /\ suspend_count (mem (shared s) 2) = 1 /\ request (mem (shared s) 2) = 0.
Proof.
  destruct (run_ends_reaches [1; 2; 3] (Call 1 (hythread_set_safepoint_callback 2) :: Run 1 ::
     Call 2 hythread_exception_safe_point :: runs 4 2 ++ Return 2 :: Call 3 (hythread_suspend_other 2) :: runs 4 3 ++
     Call 2 hythread_suspend_disable :: runs 1 2)
    (fun s => is_at 3 [] {[+ 2 +]} s && is_at 2 [] ∅ s && bool_decide (disable_count (mem (shared s) 2) = 1 /\
       suspend_count (mem (shared s) 2) = 1 /\ request (mem (shared s) 2) = 0))) as (s & Hr & HP).
  { by vm_compute. }
  apply andb_prop in HP as [HP Hd]. apply andb_prop in HP as [H3 H2]. apply is_at_local in H3, H2. apply bool_decide_eq_true in Hd.
  exists s. by split_and!; try apply Hd.
Qed.

(** [hythread_set_thread_stop_callback] tests and counts down in two steps: a resume
    between them takes the [suspend_count] of a thread nobody holds below zero, which is
    more than four thousand million suspensions. *)
Lemma stop_underflow : exists s, rtc (step true) (initial (list_to_set [1; 2; 3])) s /\
  (forall t l, locals s !! t = Some l -> holds l = ∅) /\ suspend_count (mem (shared s) 2) = 2 ^ 32 - 1.
Proof.
  destruct (run_ends_reaches [1; 2; 3] (Call 3 (hythread_suspend_other 2) :: runs 4 3 ++ Call 1 (hythread_set_thread_stop_callback 2) :: runs 3 1 ++
     Call 3 (hythread_resume 2) :: runs 4 3 ++ [Run 1])
    (fun s => forallb (fun p => bool_decide (holds p.2 = ∅)) (map_to_list (locals s)) && (suspend_count (mem (shared s) 2) =? 2 ^ 32 - 1))) as (s & Hr & HP).
  { by vm_compute. }
  apply andb_prop in HP as [Hh Hc]. apply Z.eqb_eq in Hc. exists s. split_and!; [done| |done]. intros t l Hl.
  rewrite forallb_forall in Hh. specialize (Hh (t, l)). apply bool_decide_eq_true in Hh; [done|]. by apply list_elem_of_In, elem_of_map_to_list.
Qed.
