(* ===== verification/ThinMonitor.v ===== *)
(** * Thin monitors: [thread/src/thread_native_thin_monitor.c]

    The monitor of an object: a lock word that is free, reserved, owned or inflated,
    and behind an inflated word the table and a fat monitor.  The operations are
    programs of a small state monad over the word, the table and the monitors in
    memory, run without interference; the word is the memory that compare-and-swap
    sees.  [abs] forgets the representation and keeps the owner and how often it has
    entered, and every operation implements its specification on that.

    Parameters: [malloc], the address [calloc] gives for a new monitor, if it does;
    [get_thread], whether a thread with an identifier exists and, if so, whether
    [hythread_unreserve_lock] finds it in one of the states it lists; [suspend_other],
    the status of [hythread_suspend_other] for it. *)
From stdpp Require Import gmap.
From S2P Require Import Prelude LockWord Threads FatMonitor LockTable.

Record world := World { word : Z; table : HyFatLockTable; heap : gmap Z HyThreadMonitor }.

(** A result, a thread that blocks, a spin that has not ended, a failed assertion or
    [DIE]. *)
Inductive res (A : Type) := Ret (a : A) (w : world) | Blocks | Spins | Fails.
Arguments Ret {A}.
Arguments Blocks {A}.
Arguments Spins {A}.
Arguments Fails {A}.

Definition M (A : Type) : Type := world -> res A.
#[export] Instance M_ret : MRet M := fun A a w => Ret a w.
#[export] Instance M_bind : MBind M := fun A B f m w =>
  match m w with Ret a w' => f a w' | Blocks => Blocks | Spins => Spins | Fails => Fails end.

Definition get_word : M Z := fun w => Ret (word w) w.
Definition put_word (x : Z) : M unit := fun w => Ret tt (World x (table w) (heap w)).
Definition get_table : M HyFatLockTable := fun w => Ret (table w) w.
Definition put_table (t : HyFatLockTable) : M unit := fun w => Ret tt (World (word w) t (heap w)).
Definition fails {A} : M A := fun _ => Fails.
Definition blocks {A} : M A := fun _ => Blocks.
Definition spins {A} : M A := fun _ => Spins.
Definition massert (b : bool) : M unit := if b then mret tt else fails.
Definition of_option {A} (o : option A) : M A := match o with Some a => mret a | None => fails end.

(** [apr_atomic_cas32] on the lock word, which returns what it found. *)
Definition cas32 (new old : Z) : M Z :=
  x ← get_word; if x =? old then _ ← put_word new; mret x else mret x.
(** [port_atomic_cas16] on its upper half. *)
Definition cas16_upper (new old : Z) : M Z :=
  x ← get_word;
  if Z.shiftr x 16 =? old then _ ← put_word (Z.lor (Z.shiftl new 16) (Z.land x 0xffff)); mret old
  else mret (Z.shiftr x 16).

(** A monitor in memory. *)
Definition get_monitor (p : Z) : M HyThreadMonitor := fun w =>
  match heap w !! p with Some m => Ret m w | None => Fails end.
Definition put_monitor (p : Z) (m : HyThreadMonitor) : M unit := fun w =>
  Ret tt (World (word w) (table w) (<[p := m]> (heap w))).
Definition run (op : HyThreadMonitor -> outcome) (p : Z) : M tm_status :=
  m ← get_monitor p;
  match op m with
  | Done m' s => _ ← put_monitor p m'; mret s
  | Blocked => blocks
  | Failed => fails
  end.

Definition fat_monitor_of (lockword : Z) : M Z :=
  t ← get_table; of_option (locktable_get_fat_monitor t (FAT_LOCK_ID lockword)).

Definition SPIN_COUNT : nat := 5.

Section ops.
Context (malloc : gmap Z HyThreadMonitor -> option Z).
Context (get_thread : Z -> option bool) (suspend_other : Z -> tm_status) (use_soft_unreservation : bool).

Definition unreserve_self_lock (this_id : Z) : M unit :=
  lockword ← get_word;
  _ ← massert (this_id =? THREAD_ID lockword);
  _ ← massert (negb (IS_FAT_LOCK lockword));
  _ ← massert (IS_RESERVED lockword);
  let lockword_new := Z.lor lockword RESERVED_BITMASK in
  _ ← (if negb (RECURSION lockword_new =? 0) then put_word (RECURSION_DEC lockword_new)
       else put_word (Z.land lockword_new 0x0000ffff));
  x ← get_word; massert (negb (IS_RESERVED x)).

(** The compare-and-swap loop of [hythread_unreserve_lock]. *)
Fixpoint unreserve_loop (fuel : nat) (append lockword : Z) : M unit :=
  match fuel with
  | O => spins
  | S fuel =>
      if IS_RESERVED lockword then
        _ ← massert (negb (IS_FAT_LOCK lockword));
        let lockword_new :=
          if negb (RECURSION lockword =? 0) then RECURSION_DEC (Z.lor lockword RESERVED_BITMASK)
          else Z.land (Z.lor lockword append) 0x0000ffff in
        x ← cas32 lockword_new lockword;
        if lockword =? x then mret tt else x ← get_word; unreserve_loop fuel append x
      else mret tt
  end.

Definition hythread_unreserve_lock (fuel : nat) (this_id : Z) : M tm_status :=
  lockword ← get_word;
  if IS_FAT_LOCK lockword then mret TM_ERROR_NONE
  else
    let lock_id := THREAD_ID lockword in
    let owner := get_thread lock_id in
    if negb (IS_RESERVED lockword) || IS_FAT_LOCK lockword then mret TM_ERROR_NONE
    else
      _ ← massert (negb (bool_decide (is_Some owner) && (lock_id =? this_id)));
      if bool_decide (is_Some owner) && negb (bool_decide (suspend_other lock_id = TM_ERROR_NONE)) then mret (suspend_other lock_id)
      else
        let append := match owner with Some true | None => 0 | Some false => RESERVED_BITMASK end in
        let append := if negb use_soft_unreservation then RESERVED_BITMASK else append in
        _ ← unreserve_loop fuel append lockword; mret TM_ERROR_NONE.

(** [for (i = n; i > 0; i--) hythread_monitor_enter(fat_monitor)] *)
Fixpoint enter_times (this_id : Z) (n : nat) (p : Z) : M unit :=
  match n with
  | O => mret tt
  | S n => s ← run (hythread_monitor_enter this_id) p; _ ← massert (bool_decide (s = TM_ERROR_NONE)); enter_times this_id n p
  end.

(** [NULL] is [None]. *)
Definition hythread_inflate_lock (this_id : Z) : M (option Z) :=
  lockword ← get_word;
  if IS_FAT_LOCK lockword then p ← fat_monitor_of lockword; mret (Some p)
  else
    _ ← (if IS_RESERVED lockword then unreserve_self_lock this_id else mret tt);
    lockword ← get_word;
    _ ← massert (negb (IS_RESERVED lockword));
    _ ← massert (bool_decide (hythread_owns_thin_lock this_id lockword = Some true));
    alloc ← (fun w => Ret (malloc (heap w)) w);
    match alloc with
    | None => mret None
    | Some p =>
        _ ← put_monitor p hythread_monitor_init;
        status ← run (hythread_monitor_enter this_id) p;
        if negb (bool_decide (status = TM_ERROR_NONE)) then mret None
        else
          _ ← enter_times this_id (Z.to_nat (RECURSION lockword)) p;
          t ← get_table;
          match locktable_put_fat_monitor t p with
          | Put fat_monitor_id t' =>
              _ ← put_table t';
              x ← get_word; x ← of_option (set_fat_lock_id (size t') x fat_monitor_id);
              _ ← put_word x; _ ← massert (negb (IS_RESERVED x)); mret (Some p)
          | Asserted | Died => fails
          end
    end.

(** The spin of [hythread_thin_monitor_try_enter] with [i] turns left; [again] is the
    call of the function itself. *)
Fixpoint spin (fuel : nat) (again : M tm_status) (this_id : Z) (i : nat) (lockword : Z) : M tm_status :=
  match i with
  | O => mret TM_ERROR_EBUSY
  | S i =>
      let continue := x ← get_word; spin fuel again this_id i x in
      if THREAD_ID lockword =? 0 then
        _ ← massert (RECURSION lockword <? 1);
        _ ← massert ((0 <? this_id) && (this_id <? 0x8000));
        old ← cas16_upper this_id 0;
        if negb (old =? 0) then continue
        else
          _ ← (if IS_RESERVED lockword then x ← get_word; put_word (RECURSION_INC x) else mret tt);
          mret TM_ERROR_NONE
      else if IS_FAT_LOCK lockword then
        p ← fat_monitor_of lockword;
        status ← run (hythread_monitor_try_enter this_id) p;
        if bool_decide (status = TM_ERROR_EBUSY) then continue else mret status
      else if IS_RESERVED lockword then
        status ← hythread_unreserve_lock fuel this_id;
        if negb (bool_decide (status = TM_ERROR_NONE)) then
          if bool_decide (status = TM_ERROR_EBUSY) then continue else mret status
        else again
      else continue
  end.

Fixpoint hythread_thin_monitor_try_enter (fuel : nat) (this_id : Z) : M tm_status :=
  match fuel with
  | O => spins
  | S fuel =>
      lockword ← get_word;
      if THREAD_ID lockword =? this_id then
        if RECURSION lockword =? MAX_RECURSION then
          fat_monitor ← hythread_inflate_lock this_id;
          match fat_monitor with
          | None => mret TM_ERROR_OUT_OF_MEMORY
          | Some p => run (hythread_monitor_try_enter this_id) p
          end
        else _ ← put_word (RECURSION_INC lockword); mret TM_ERROR_NONE
      else spin fuel (hythread_thin_monitor_try_enter fuel this_id) this_id (S SPIN_COUNT) lockword
  end.

(** The depth of the calls of [hythread_thin_monitor_try_enter]: [try_enter_refines]
    shows that two are enough. *)
Definition CALLS : nat := 2.

(** The loop of [hythread_thin_monitor_enter], which tries until the monitor is not
    busy; a busy inflated monitor is entered by blocking.  [true] is the end of the
    function, [false] the end of the loop. *)
Fixpoint enter_loop (fuel : nat) (this_id : Z) : M (bool * tm_status) :=
  match fuel with
  | O => spins
  | S fuel' =>
      status ← hythread_thin_monitor_try_enter CALLS this_id;
      if bool_decide (status = TM_ERROR_EBUSY) then
        x ← get_word;
        if IS_FAT_LOCK x then
          p ← fat_monitor_of x; s ← run (hythread_monitor_enter this_id) p; mret (true, s)
        else enter_loop fuel' this_id
      else mret (false, status)
  end.

Definition hythread_thin_monitor_enter (fuel : nat) (this_id : Z) : M tm_status :=
  status ← hythread_thin_monitor_try_enter CALLS this_id;
  if bool_decide (status = TM_ERROR_NONE) then mret TM_ERROR_NONE
  else
    r ← enter_loop fuel this_id;
    if (r.1 : bool) then mret r.2
    else
      x ← get_word;
      if IS_FAT_LOCK x then mret TM_ERROR_NONE
      else p ← hythread_inflate_lock this_id;
        mret (match p with None => TM_ERROR_OUT_OF_MEMORY | Some _ => TM_ERROR_NONE end).

Definition hythread_thin_monitor_exit (this_id : Z) : M tm_status :=
  lockword ← get_word;
  _ ← massert ((0 <? this_id) && (this_id <? 0xffff));
  if THREAD_ID lockword =? this_id then
    if RECURSION lockword =? 0 then
      if IS_RESERVED lockword then mret TM_ERROR_ILLEGAL_STATE
      else _ ← put_word (Z.land lockword 0xffff); mret TM_ERROR_NONE
    else _ ← put_word (RECURSION_DEC lockword); mret TM_ERROR_NONE
  else if IS_FAT_LOCK lockword then
    p ← fat_monitor_of lockword; run (hythread_monitor_exit this_id) p
  else mret TM_ERROR_ILLEGAL_STATE.

(** The owner, 0 for none, and the recursion count. *)
Definition hythread_thin_monitor_get_owner : M Z :=
  lockword ← get_word;
  if IS_FAT_LOCK lockword then p ← fat_monitor_of lockword; m ← get_monitor p; mret (owner m)
  else if THREAD_ID lockword =? 0 then mret 0
  else if (RECURSION lockword =? 0) && IS_RESERVED lockword then mret 0
  else mret (THREAD_ID lockword).
Definition hythread_thin_monitor_get_recursion : M Z :=
  lockword ← get_word;
  if IS_FAT_LOCK lockword then p ← fat_monitor_of lockword; m ← get_monitor p; mret (recursion_count m + 1)
  else if THREAD_ID lockword =? 0 then mret 0
  else if IS_RESERVED lockword then mret (RECURSION lockword)
  else mret (RECURSION lockword + 1).

(** [while (RECURSION(lockword)) RECURSION_DEC] *)
Fixpoint release_loop (fuel : nat) (lockword : Z) : M Z :=
  match fuel with
  | O => spins
  | S fuel =>
      if negb (RECURSION lockword =? 0) then
        _ ← put_word (RECURSION_DEC lockword); x ← get_word; release_loop fuel x
      else mret lockword
  end.

Definition hythread_thin_monitor_release (fuel : nat) (this_id : Z) : M tm_status :=
  lockword ← get_word;
  o ← hythread_thin_monitor_get_owner;
  if negb (this_id =? o) then mret TM_ERROR_NONE
  else if IS_FAT_LOCK lockword then
    p ← fat_monitor_of lockword;
    m ← get_monitor p;
    _ ← put_monitor p (MkMonitor (port_mutex_unlock (mutex m)) 0 (owner m) (wait_count m) (notify_count m));
    mret TM_ERROR_NONE
  else
    x ← release_loop fuel lockword; _ ← put_word (Z.land x 0xffff); mret TM_ERROR_NONE.

(** [thin_monitor_wait_impl] up to the wait on the condition variable; the count to
    restore after it. *)
Definition thin_monitor_wait_impl (this_id : Z) : M (tm_status * Z) :=
  lockword ← get_word;
  let wait p :=
    m ← get_monitor p;
    match monitor_wait_begin this_id m with
    | (Done m' s, saved) => _ ← put_monitor p m'; mret (s, saved)
    | (Blocked, _) => blocks
    | (Failed, _) => fails
    end in
  if negb (IS_FAT_LOCK lockword) then
    if negb (bool_decide (hythread_owns_thin_lock this_id lockword = Some true)) then mret (TM_ERROR_ILLEGAL_STATE, 0)
    else
      fat_monitor ← hythread_inflate_lock this_id;
      match fat_monitor with None => mret (TM_ERROR_OUT_OF_MEMORY, 0) | Some p => wait p end
  else p ← fat_monitor_of lockword; wait p.

Definition hythread_thin_monitor_notify (this_id : Z) : M tm_status :=
  lockword ← get_word;
  if IS_FAT_LOCK lockword then p ← fat_monitor_of lockword; run (hythread_monitor_notify this_id) p
  else if negb (bool_decide (hythread_owns_thin_lock this_id lockword = Some true)) then mret TM_ERROR_ILLEGAL_STATE
  else mret TM_ERROR_NONE.
Definition hythread_thin_monitor_notify_all (this_id : Z) : M tm_status :=
  lockword ← get_word;
  if IS_FAT_LOCK lockword then p ← fat_monitor_of lockword; run (hythread_monitor_notify_all this_id) p
  else if negb (bool_decide (hythread_owns_thin_lock this_id lockword = Some true)) then mret TM_ERROR_ILLEGAL_STATE
  else mret TM_ERROR_NONE.
End ops.

(** ** The monitor a world stands for *)

(** Nobody, or an owner and how often it has entered. *)
Definition abs_monitor (m : HyThreadMonitor) : option (Z * Z) :=
  if owner m =? 0 then None else Some (owner m, recursion_count m + 1).
Definition abs_thin (tid rec : Z) (unres : bool) : option (Z * Z) :=
  if tid =? 0 then None
  else if unres then Some (tid, rec + 1)
  else if rec =? 0 then None else Some (tid, rec).
Definition abs (w : world) : option (Z * Z) :=
  if IS_FAT_LOCK (word w) then
    p ← locktable_get_fat_monitor (table w) (FAT_LOCK_ID (word w)); m ← heap w !! p; abs_monitor m
  else abs_thin (THREAD_ID (word w)) (RECURSION (word w)) (negb (IS_RESERVED (word w))).

Record mon_ok (m : HyThreadMonitor) : Prop := {
  mon_notify : 0 <= notify_count m <= wait_count m;
  mon_recursion : 0 <= recursion_count m;
  mon_free : owner m = 0 -> recursion_count m = 0;
  mon_mutex : mutex m = if decide (owner m = 0) then Mutex 0 0 else Mutex (owner m) 1;
}.

Record world_ok (w : world) : Prop := {
  ok_word : is_u 32 (word w);
  ok_table : table_ok (table w);
  ok_heap : forall i p, 0 <= i -> entry (table w) i = Some p -> exists m, heap w !! p = Some m /\ mon_ok m;
  ok_thin : IS_FAT_LOCK (word w) = false -> THREAD_ID (word w) = 0 -> RECURSION (word w) = 0;
  ok_fat : IS_FAT_LOCK (word w) = true -> is_Some (entry (table w) (FAT_LOCK_ID (word w)));
}.

Lemma entry_get t i p : table_ok t -> 0 <= i -> entry t i = Some p -> locktable_get_fat_monitor t i = Some p /\ i < size t.
Proof.
  intros Hok Hi He. pose proof (ok_max _ Hok) as Hmax. change HY_MAX_FAT_LOCKS with (2 ^ 20) in Hmax.
  assert (i < size t) as Hlt.
  { destruct (decide (i < size t)); [done|]. rewrite entry_none in He by (done || lia). done. }
  split; [|done]. unfold locktable_get_fat_monitor. rewrite ux_id by (word_bounds; lia).
  rewrite (proj2 (Z.leb_le _ _)), (proj2 (Z.ltb_lt _ _)) by lia. simpl. unfold entry in He.
  destruct (FAT_LOCK t i) as [q|]; [|done]. simpl in He. by destruct (q =? 0).
Qed.

(** A world is thin or fat. *)
Inductive view : world -> Prop :=
  | view_thin tid rec unres hash t h : thin_ok tid rec hash -> (tid = 0 -> rec = 0) ->
      view (World (thin tid rec unres hash) t h)
  | view_fat id low t h p m : fat_ok id low -> entry t id = Some p -> h !! p = Some m -> mon_ok m ->
      view (World (fat id low) t h).

Lemma world_view w : world_ok w -> view w.
Proof.
  intros Hok. destruct w as [x t h]. pose proof (ok_word _ Hok) as Hx. pose proof (ok_thin _ Hok) as Hthin.
  pose proof (ok_fat _ Hok) as Hfat. pose proof (ok_heap _ Hok) as Hheap. simpl in *.
  destruct (lockword_cases x Hx) as [(tid & rec & unres & hash & -> & Hx')|(id & low & -> & Hx')].
  - rewrite thin_IS_FAT_LOCK, thin_THREAD_ID, thin_RECURSION in Hthin by done. constructor; [done|auto].
  - rewrite fat_IS_FAT_LOCK, fat_FAT_LOCK_ID in Hfat by done. destruct (Hfat eq_refl) as [p Hp].
    destruct (Hheap id p ltac:(apply Hx') Hp) as (m & Hm & Hok'). by apply (view_fat _ _ _ _ p m).
Qed.

Lemma abs_thin_world tid rec unres hash t h : thin_ok tid rec hash ->
  abs (World (thin tid rec unres hash) t h) = abs_thin tid rec unres.
Proof.
  intros Hok. unfold abs. cbn [word table heap]. rewrite thin_IS_FAT_LOCK, thin_THREAD_ID, thin_RECURSION, thin_IS_RESERVED by done.
  by rewrite negb_involutive.
Qed.

Lemma abs_fat_world id low t h p m : table_ok t -> fat_ok id low -> entry t id = Some p -> h !! p = Some m ->
  abs (World (fat id low) t h) = abs_monitor m.
Proof.
  intros Ht Hok He Hm. unfold abs. cbn [word table heap]. rewrite fat_IS_FAT_LOCK, fat_FAT_LOCK_ID by done.
  destruct (entry_get t id p Ht ltac:(apply Hok) He) as [-> _]. simpl. by rewrite Hm.
Qed.

(** A new thin word, or a new state of the monitor of a fat word. *)
Lemma thin_world_ok x t h tid rec unres hash : world_ok (World x t h) -> thin_ok tid rec hash -> (tid = 0 -> rec = 0) ->
  world_ok (World (thin tid rec unres hash) t h).
Proof.
  intros [Hx Ht Hh _ _] Hok H0. split; simpl in *; try done.
  - by apply thin_is_u.
  - by rewrite thin_THREAD_ID, thin_RECURSION.
  - by rewrite thin_IS_FAT_LOCK.
Qed.

Lemma fat_world_ok x t h p m : world_ok (World x t h) -> mon_ok m -> world_ok (World x t (<[p := m]> h)).
Proof.
  intros [Hx Ht Hh H1 H2] Hm. split; simpl in *; try done.
  intros i q Hi Hq. destruct (decide (p = q)) as [<-|Hne].
  - exists m. by rewrite lookup_insert_eq.
  - rewrite lookup_insert_ne by done. by apply (Hh i).
Qed.

Ltac mred :=
  cbv [mbind mret M_bind M_ret get_word put_word get_table put_table massert of_option fails blocks get_monitor put_monitor]; cbn [word table heap].

Lemma fat_monitor_of_spec id low t h x p : table_ok t -> fat_ok id low -> entry t id = Some p ->
  fat_monitor_of (fat id low) (World x t h) = Ret p (World x t h).
Proof.
  intros Ht Hok He. unfold fat_monitor_of. mred. rewrite fat_FAT_LOCK_ID by done.
  by destruct (entry_get t id p Ht ltac:(apply Hok) He) as [-> _].
Qed.

Lemma run_spec op p x t h m : h !! p = Some m ->
  run op p (World x t h) = match op m with
    | Done m' s => Ret s (World x t (<[p := m']> h)) | Blocked => Blocks | Failed => Fails end.
Proof. intros Hm. unfold run. mred. rewrite Hm. by destruct (op m). Qed.

(** Entering and leaving a monitor that is in order. *)
Lemma trylock_ok m t : mon_ok m -> owner m <> t -> t <> 0 ->
  port_mutex_trylock t (mutex m) = if decide (owner m = 0) then Some (Mutex t 1) else None.
Proof.
  intros Hok Hne Ht. rewrite (mon_mutex _ Hok). unfold port_mutex_trylock. case_decide as E; simpl; [done|].
  by rewrite (proj2 (Z.eqb_neq _ 0)), (proj2 (Z.eqb_neq _ t)) by done.
Qed.

(** ** Specifications *)

Definition entered (a : option (Z * Z)) (t : Z) : option (Z * Z) :=
  match a with None => Some (t, 1) | Some (u, n) => if u =? t then Some (t, n + 1) else None end.

Definition spec_try_enter (t : Z) (a : option (Z * Z)) : tm_status * option (Z * Z) :=
  match entered a t with Some x => (TM_ERROR_NONE, Some x) | None => (TM_ERROR_EBUSY, a) end.

Definition spec_exit (t : Z) (a : option (Z * Z)) : tm_status * option (Z * Z) :=
  match a with
  | Some (u, n) =>
      if u =? t then (TM_ERROR_NONE, if n =? 1 then None else Some (u, n - 1)) else (TM_ERROR_ILLEGAL_STATE, a)
  | None => (TM_ERROR_ILLEGAL_STATE, a)
  end.

Lemma monitor_try_enter_spec m t : mon_ok m -> 0 < t ->
  exists m' s, hythread_monitor_try_enter t m = Done m' s /\ mon_ok m' /\
    (s, abs_monitor m') = spec_try_enter t (abs_monitor m).
Proof.
  intros Hok Ht. pose proof Hok as [Hn Hr Hf Hm]. unfold hythread_monitor_try_enter, spec_try_enter, entered, abs_monitor.
  destruct (Z.eqb_spec (owner m) t) as [E|E]; simpl.
  - rewrite (proj2 (Z.ltb_ge _ _)) by done. do 2 eexists. split; [done|]. subst t. simpl.
    rewrite (proj2 (Z.eqb_neq (owner m) 0)), Z.eqb_refl by lia. split; [|by repeat f_equal; lia].
    split; simpl; [done|lia|lia|done].
  - rewrite trylock_ok by (done || lia). destruct (Z.eqb_spec (owner m) 0) as [E0|E0].
    + rewrite decide_True by done. do 2 eexists. split; [done|]. simpl. rewrite (proj2 (Z.eqb_neq t 0)), Hf by (done || lia).
      split; [|done]. split; simpl; [done|lia..|]. by rewrite decide_False by lia.
    + rewrite decide_False by done. do 2 eexists. split; [done|]. split; [done|].
      by rewrite (proj2 (Z.eqb_neq _ _)), (proj2 (Z.eqb_neq _ t)) by done.
Qed.

Lemma monitor_exit_spec m t : mon_ok m -> 0 < t ->
  exists m' s, hythread_monitor_exit t m = Done m' s /\ mon_ok m' /\ (s, abs_monitor m') = spec_exit t (abs_monitor m).
Proof.
  intros Hok Ht. pose proof Hok as [Hn Hr Hf Hm]. unfold hythread_monitor_exit, spec_exit, abs_monitor.
  rewrite (proj2 (Z.ltb_ge _ _)) by done. destruct (Z.eqb_spec (owner m) t) as [E|E]; simpl.
  - rewrite Hm, decide_False by lia. rewrite (proj2 (Z.eqb_neq (owner m) 0)), E, Z.eqb_refl by lia.
    destruct (Z.eqb_spec (recursion_count m) 0) as [E0|E0].
    + rewrite E0. do 2 eexists. split; [done|]. split; [|done]. by split; simpl.
    + do 2 eexists. split; [done|]. simpl. rewrite E, (proj2 (Z.eqb_neq t 0)) by lia.
      rewrite (proj2 (Z.eqb_neq (recursion_count m + 1) 1)) by lia. split; [|by repeat f_equal; lia].
      split; simpl; rewrite ?E; [done|lia|lia|]. rewrite Hm, decide_False by lia. by rewrite decide_False, E by lia.
  - do 2 eexists. split; [done|]. split; [done|]. destruct (owner m =? 0); [done|]. by rewrite (proj2 (Z.eqb_neq _ t)).
Qed.

(** Entering a monitor one owns, [n] times. *)
Lemma enter_times_spec t n p x tb h m : h !! p = Some m -> owner m = t -> 0 <= recursion_count m ->
  enter_times t n p (World x tb h) = Ret tt (World x tb (<[p := set_recursion m (recursion_count m + Z.of_nat n)]> h)).
Proof.
  revert h m. induction n as [|n IH]; intros h m Hm Ho Hr; simpl.
  - unfold mret, M_ret. do 2 f_equal. symmetry. apply insert_id. rewrite Hm. destruct m. unfold set_recursion. simpl. do 2 f_equal. lia.
  - mred. rewrite (run_spec _ _ _ _ _ _ Hm). unfold hythread_monitor_enter. rewrite Ho, Z.eqb_refl. simpl.
    rewrite (proj2 (Z.ltb_ge _ _)) by done. mred. simpl. erewrite IH; [|apply lookup_insert_eq|done|simpl; lia].
    rewrite insert_insert_eq. unfold set_recursion. simpl. do 4 f_equal. lia.
Qed.

(** Lock words are rewritten by what they are made of. *)
Ltac thin_rw :=
  rewrite ?thin_IS_FAT_LOCK, ?thin_THREAD_ID, ?thin_IS_RESERVED, ?thin_RECURSION, ?thin_owns, ?negb_involutive by done.

Ltac thin_steps := repeat (progress (thin_rw; cbn [negb word table heap andb orb])).

Lemma unreserve_self_spec tid rec hash t h : thin_ok tid rec hash -> (tid = 0 -> rec = 0) ->
  unreserve_self_lock tid (World (thin tid rec false hash) t h) =
    Ret tt (World (if rec =? 0 then thin 0 0 true hash else thin tid (rec - 1) true hash) t h).
Proof.
  intros Hok H0. unfold unreserve_self_lock. mred. thin_rw. rewrite Z.eqb_refl. cbn [negb].
  rewrite thin_unreserve by done. rewrite thin_RECURSION by done. destruct (Z.eqb_spec rec 0) as [->|Hr]; cbn [negb word table heap].
  - rewrite thin_low by done. rewrite thin_IS_RESERVED; [done|]. unfold thin_ok in *. lia.
  - rewrite thin_RECURSION_DEC by (done || unfold thin_ok in *; lia). rewrite thin_IS_RESERVED; [done|]. unfold thin_ok in *. lia.
Qed.

Lemma fat_unreserved id hash : fat_ok id (2 ^ 10 + hash) -> 0 <= hash < 2 ^ 10 -> IS_RESERVED (fat id (2 ^ 10 + hash)) = false.
Proof.
  intros Hok Hh. unfold IS_RESERVED, RESERVED_BITMASK. rewrite Z.shiftl_1_l, land_bit by lia.
  assert (fat id (2 ^ 10 + hash) / 2 ^ 10 = 1 + (2 ^ 20 + id) * 2) as ->.
  { symmetry. unfold fat. apply (Z.div_unique_pos _ _ _ hash); word_bounds; lia. }
  by rewrite Z.mod_add by lia.
Qed.

Definition not_full (t : HyFatLockTable) : Prop := exists i, 0 <= i < HY_MAX_FAT_LOCKS /\ entry t i = None.

Section spec.
Context (malloc : gmap Z HyThreadMonitor -> option Z).
(** [calloc] gives an address that is not null and not in use. *)
Context (Hmalloc : forall h p, malloc h = Some p -> p <> 0 /\ h !! p = None).

(** Inflation of an unreserved word by its owner. *)
Lemma inflate_unreserved tid rec hash t h : world_ok (World (thin tid rec true hash) t h) -> thin_ok tid rec hash -> 0 < tid ->
  not_full t -> forall p, malloc h = Some p ->
  exists id t' m, let w' := World (fat id (2 ^ 10 + hash)) t' (<[p := m]> h) in
    hythread_inflate_lock malloc tid (World (thin tid rec true hash) t h) = Ret (Some p) w' /\ world_ok w' /\
    fat_ok id (2 ^ 10 + hash) /\ entry t' id = Some p /\ abs_monitor m = Some (tid, rec + 1) /\ mon_ok m.
Proof.
  intros Hw Hok Htid (i & Hi & Hfree) p Hp. destruct (Hmalloc h p Hp) as [Hp0 Hnew]. pose proof (ok_table _ Hw) as Ht. simpl in Ht.
  destruct (put_spec t p Ht Hp0) as [(id & t' & Hput & Ht' & Hsz & Hid & Hnone & Hent)|[_ Hall]];
    [|destruct (Hall i Hi); congruence].
  pose proof (ok_max _ Ht') as Hmax. change HY_MAX_FAT_LOCKS with (2 ^ 20) in Hmax.
  set (m := MkMonitor (Mutex tid 1) rec tid 0 0).
  assert (Hm : mon_ok m) by (split; simpl; [lia|unfold thin_ok in *; lia|lia|by rewrite decide_False by lia]).
  assert (Hf : fat_ok id (2 ^ 10 + hash)) by (word_bounds; lia).
  exists id, t', m. cbv zeta. split_and!; [| |done|rewrite Hent by lia; by rewrite decide_True| |done].
  - unfold hythread_inflate_lock. mred. thin_steps. rewrite Z.eqb_refl. cbn [negb orb andb].
    rewrite bool_decide_true by done. cbn [word table heap]. rewrite Hp. thin_steps. cbn [word table heap].
    erewrite run_spec by apply lookup_insert_eq. unfold hythread_monitor_enter. cbn [owner hythread_monitor_init].
    rewrite (proj2 (Z.eqb_neq 0 tid)) by lia. cbn [negb port_mutex_trylock mutex hythread_monitor_init holder Z.eqb].
    rewrite bool_decide_true by done. cbn [negb word table heap].
    erewrite enter_times_spec; [|apply lookup_insert_eq|done|done].
    rewrite !insert_insert_eq. cbn [word table heap]. rewrite Hput. cbn [word table heap].
    rewrite thin_set_fat by (done || lia). cbn [word table heap]. rewrite fat_unreserved by (done || apply Hok). cbn [negb word table heap].
    unfold set_recursion, set_lock, m. cbn. rewrite Z2Nat.id by (unfold thin_ok in *; lia). done.
  - pose proof (ok_heap _ Hw) as Hheap. split; simpl; [by apply fat_is_u|done| |by rewrite fat_IS_FAT_LOCK|].
    + intros j q Hj Hq. rewrite Hent in Hq by done. destruct (decide (j = id)) as [->|Hne].
      * injection Hq as <-. exists m. by rewrite lookup_insert_eq.
      * destruct (Hheap j q Hj Hq) as (mq & Hmq & Hokq). exists mq. split; [|done]. simpl in Hmq.
        rewrite lookup_insert_ne; [done|]. congruence.
    + intros _. rewrite fat_FAT_LOCK_ID by done. rewrite Hent by lia. by rewrite decide_True by done.
  - unfold abs_monitor, m. simpl. by rewrite (proj2 (Z.eqb_neq tid 0)) by lia.
Qed.

(** A reserved word is unreserved first. *)
Lemma inflate_reserved tid rec hash t h : thin_ok tid rec hash -> 0 < tid -> rec <> 0 ->
  hythread_inflate_lock malloc tid (World (thin tid rec false hash) t h) =
  hythread_inflate_lock malloc tid (World (thin tid (rec - 1) true hash) t h).
Proof.
  intros Hok Htid Hr. assert (Hok' : thin_ok tid (rec - 1) hash) by (unfold thin_ok in *; lia).
  unfold hythread_inflate_lock. mred. thin_steps. rewrite unreserve_self_spec by (done || lia).
  rewrite (proj2 (Z.eqb_neq rec 0)) by done. thin_steps. reflexivity.
Qed.

(** Inflation by the owner: the monitor keeps its owner and count. *)
Lemma inflate_spec tid rec unres hash t h : world_ok (World (thin tid rec unres hash) t h) -> thin_ok tid rec hash -> 0 < tid ->
  (unres = false -> rec <> 0) -> not_full t ->
  (exists w', hythread_inflate_lock malloc tid (World (thin tid rec unres hash) t h) = Ret None w' /\ world_ok w' /\
     malloc h = None /\ abs w' = abs_thin tid rec unres) \/
  (exists id t' h' p m, let w' := World (fat id (2 ^ 10 + hash)) t' h' in
     hythread_inflate_lock malloc tid (World (thin tid rec unres hash) t h) = Ret (Some p) w' /\ world_ok w' /\
     fat_ok id (2 ^ 10 + hash) /\ entry t' id = Some p /\ h' !! p = Some m /\ mon_ok m /\
     abs_monitor m = abs_thin tid rec unres).
Proof.
  intros Hw Hok Htid Hr Hfull.
  assert (exists rec', thin_ok tid rec' hash /\ abs_thin tid rec unres = Some (tid, rec' + 1) /\
    hythread_inflate_lock malloc tid (World (thin tid rec unres hash) t h) =
    hythread_inflate_lock malloc tid (World (thin tid rec' true hash) t h)) as (rec' & Hok' & -> & ->).
  { unfold abs_thin. rewrite (proj2 (Z.eqb_neq tid 0)) by lia. destruct unres; [by exists rec|].
    specialize (Hr eq_refl). rewrite (proj2 (Z.eqb_neq rec 0)) by done. exists (rec - 1).
    split_and!; [unfold thin_ok in *; lia|do 2 f_equal; lia|by apply inflate_reserved]. }
  apply (thin_world_ok _ _ _ tid rec' true hash) in Hw; [|done|lia].
  destruct (malloc h) as [p|] eqn:Hp.
  - right. destruct (inflate_unreserved tid rec' hash t h Hw Hok' Htid Hfull p Hp) as (id & t' & m & Heq & Hw' & Hf & He & Ha & Hm).
    exists id, t', (<[p := m]> h), p, m. cbv zeta. by rewrite lookup_insert_eq.
  - left. eexists. split_and!; [|exact Hw|done|].
    + unfold hythread_inflate_lock. mred. thin_steps. rewrite Z.eqb_refl. cbn [negb orb andb].
      rewrite bool_decide_true by done. cbn [word table heap]. by rewrite Hp.
    + rewrite abs_thin_world by done. unfold abs_thin. by rewrite (proj2 (Z.eqb_neq tid 0)) by lia.
Qed.
End spec.

(** Unreserving a word that another thread has reserved: the owner keeps its count,
    and without one the word is free. *)
Lemma unreserve_lock_spec get_thread suspend_other soft fuel this tid rec hash t h :
  thin_ok tid rec hash -> tid <> this ->
  (forall i, suspend_other i = TM_ERROR_NONE \/ suspend_other i = TM_ERROR_EBUSY) ->
  let W := World (thin tid rec false hash) t h in
  (exists u, hythread_unreserve_lock get_thread suspend_other soft (S fuel) this W =
    Ret TM_ERROR_NONE (World (if rec =? 0 then thin 0 0 u hash else thin tid (rec - 1) true hash) t h)) \/
  (hythread_unreserve_lock get_thread suspend_other soft (S fuel) this W = Ret TM_ERROR_EBUSY W /\
   suspend_other tid = TM_ERROR_EBUSY).
Proof.
  intros Hok Hne Hs W. unfold hythread_unreserve_lock, W. mred. thin_steps.
  rewrite (proj2 (Z.eqb_neq tid this)), andb_false_r by done. cbn [negb].
  destruct (bool_decide (is_Some (get_thread tid)) && negb (bool_decide (suspend_other tid = TM_ERROR_NONE))) eqn:E.
  { right. apply andb_prop in E as [_ E]. destruct (Hs tid) as [Hs'|Hs']; [by rewrite bool_decide_true in E|].
    by rewrite Hs'. }
  left. cbn [unreserve_loop]. thin_steps. set (append := if negb soft then _ else _).
  assert (Ha : append = 0 \/ append = RESERVED_BITMASK).
  { unfold append. destruct soft, (get_thread tid) as [[]|]; auto. }
  unfold cas32. mred. destruct (Z.eqb_spec rec 0) as [->|Hr]; cbn [negb].
  - assert (exists u, Z.land (Z.lor (thin tid 0 false hash) append) 0x0000ffff = thin 0 0 u hash) as [u Hu].
    { destruct Ha as [-> | ->]; [exists false; rewrite Z.lor_0_r|exists true; rewrite thin_unreserve by done]; by apply thin_low. }
    exists u. rewrite Hu, Z.eqb_refl. cbn [word table heap]. by rewrite Z.eqb_refl.
  - exists true. rewrite thin_unreserve, thin_RECURSION_DEC by (done || unfold thin_ok in *; lia).
    rewrite Z.eqb_refl. cbn [word table heap]. by rewrite Z.eqb_refl.
Qed.

(** ** Entering *)

Section enter.
Context (malloc : gmap Z HyThreadMonitor -> option Z).
Context (Hmalloc : forall h p, malloc h = Some p -> p <> 0 /\ h !! p = None).
Context (get_thread : Z -> option bool) (suspend_other : Z -> tm_status) (soft : bool).
(** [hythread_suspend_other] has two results. *)
Context (Hsuspend : forall i, suspend_other i = TM_ERROR_NONE \/ suspend_other i = TM_ERROR_EBUSY).
Abbreviation try_enter := (hythread_thin_monitor_try_enter malloc get_thread suspend_other soft).
Abbreviation spin' := (spin get_thread suspend_other soft).

(** An attempt that ends as the specification says. *)
Definition tries (this : Z) (a : option (Z * Z)) (r : res tm_status) : Prop :=
  exists s w', r = Ret s w' /\ world_ok w' /\ (s, abs w') = spec_try_enter this a.

(** What an attempt to enter promises. *)
Definition tried (this : Z) (w : world) (r : res tm_status) : Prop :=
  exists s w', r = Ret s w' /\ world_ok w' /\
    ((s, abs w') = spec_try_enter this (abs w) \/
     (abs w' = abs w /\ (s = TM_ERROR_OUT_OF_MEMORY /\ malloc (heap w) = None \/
                         s = TM_ERROR_EBUSY /\ suspend_other (THREAD_ID (word w)) = TM_ERROR_EBUSY))).

(** A thread that finds the word taken spins to the end. *)
Lemma spin_unreserved fuel again this i tid rec hash t h : thin_ok tid rec hash -> tid <> 0 ->
  let W := World (thin tid rec true hash) t h in
  spin' fuel again this i (thin tid rec true hash) W = Ret TM_ERROR_EBUSY W.
Proof.
  intros Hok Hne W. induction i as [|i IH]; [done|]. cbn [spin]. thin_steps. by rewrite (proj2 (Z.eqb_neq tid 0)) by done.
Qed.

Lemma spin_suspend fuel again this i tid rec hash t h : thin_ok tid rec hash -> tid <> 0 -> tid <> this ->
  let W := World (thin tid rec false hash) t h in
  hythread_unreserve_lock get_thread suspend_other soft fuel this W = Ret TM_ERROR_EBUSY W ->
  spin' fuel again this i (thin tid rec false hash) W = Ret TM_ERROR_EBUSY W.
Proof.
  intros Hok Hne Ht W Hu. induction i as [|i IH]; [done|]. cbn [spin]. thin_steps.
  rewrite (proj2 (Z.eqb_neq tid 0)) by done. mred. rewrite Hu. rewrite bool_decide_false by done. cbn [negb].
  rewrite bool_decide_true by done. apply IH.
Qed.

Lemma spin_fat fuel again this i id low t h p m : table_ok t -> fat_ok id low -> entry t id = Some p -> h !! p = Some m ->
  hythread_monitor_try_enter this m = Done m TM_ERROR_EBUSY ->
  let W := World (fat id low) t h in spin' fuel again this i (fat id low) W = Ret TM_ERROR_EBUSY W.
Proof.
  intros Ht Hok He Hm Hb W. induction i as [|i IH]; [done|]. cbn [spin].
  pose proof (fat_THREAD_ID id low Hok). rewrite (proj2 (Z.eqb_neq _ 0)) by lia. rewrite fat_IS_FAT_LOCK by done. mred.
  unfold W. rewrite (fat_monitor_of_spec id low t h _ p) by done. rewrite (run_spec _ _ _ _ _ _ Hm), Hb, insert_id by done.
  rewrite bool_decide_true by done. apply IH.
Qed.

(** A monitor that refuses is unchanged. *)
Lemma busy_same m this m' : hythread_monitor_try_enter this m = Done m' TM_ERROR_EBUSY -> m' = m.
Proof.
  unfold hythread_monitor_try_enter. destruct (negb (owner m =? this)), (port_mutex_trylock this (mutex m)), (recursion_count m <? 0);
    intros [= <-]; done.
Qed.

Lemma try_fat_run fuel this id low t h p m m' s : table_ok t -> this < 2 ^ 15 -> fat_ok id low -> entry t id = Some p -> h !! p = Some m ->
  hythread_monitor_try_enter this m = Done m' s -> s <> TM_ERROR_EBUSY ->
  try_enter (S fuel) this (World (fat id low) t h) = Ret s (World (fat id low) t (<[p := m']> h)).
Proof.
  intros Ht Hthis Hok He Hm Heq Hns. pose proof (fat_THREAD_ID id low Hok).
  cbn [hythread_thin_monitor_try_enter]. mred. rewrite (proj2 (Z.eqb_neq _ this)) by lia.
  cbn [spin]. rewrite (proj2 (Z.eqb_neq _ 0)) by lia. rewrite fat_IS_FAT_LOCK by done. mred.
  rewrite (fat_monitor_of_spec id low t h _ p) by done. rewrite (run_spec _ _ _ _ _ _ Hm), Heq.
  by rewrite bool_decide_false by done.
Qed.

Lemma try_fat fuel this id low t h p m : world_ok (World (fat id low) t h) -> 0 < this < 2 ^ 15 -> fat_ok id low ->
  entry t id = Some p -> h !! p = Some m -> mon_ok m -> tried this (World (fat id low) t h) (try_enter (S fuel) this (World (fat id low) t h)).
Proof.
  intros Hw Hthis Hok He Hm Hmok. pose proof (ok_table _ Hw) as Ht. simpl in Ht.
  destruct (monitor_try_enter_spec m this Hmok ltac:(lia)) as (m' & s & Heq & Hmok' & Hs).
  assert (Habs : abs (World (fat id low) t h) = abs_monitor m) by (by apply abs_fat_world with p).
  destruct (decide (s = TM_ERROR_EBUSY)) as [->|Hns].
  - pose proof (busy_same _ _ _ Heq) as ->. pose proof (fat_THREAD_ID id low Hok). exists TM_ERROR_EBUSY, (World (fat id low) t h).
    cbn [hythread_thin_monitor_try_enter]. mred. rewrite (proj2 (Z.eqb_neq _ this)) by lia.
    rewrite (spin_fat _ _ _ _ id low t h p m) by done. split; [done|]. split; [done|]. left. by rewrite Habs.
  - exists s, (World (fat id low) t (<[p := m']> h)). rewrite (try_fat_run _ _ _ _ _ _ p m m' s) by (done || lia).
    split; [done|]. split; [by apply fat_world_ok|].
    left. rewrite Habs, <- Hs. f_equal. apply abs_fat_world with p; [done..|apply lookup_insert_eq].
Qed.

Lemma abs_thin_entered tid rec unres : 0 < tid -> 0 <= rec ->
  spec_try_enter tid (abs_thin tid rec unres) = (TM_ERROR_NONE, abs_thin tid (rec + 1) unres).
Proof.
  intros Ht Hr. unfold abs_thin, spec_try_enter, entered. rewrite (proj2 (Z.eqb_neq tid 0)) by lia.
  rewrite (proj2 (Z.eqb_neq (rec + 1) 0)) by lia.
  destruct unres; [by rewrite Z.eqb_refl|]. destruct (Z.eqb_spec rec 0) as [->|]; [done|by rewrite Z.eqb_refl].
Qed.

Lemma try_own fuel this rec unres hash t h : world_ok (World (thin this rec unres hash) t h) -> 0 < this ->
  thin_ok this rec hash -> not_full t ->
  tried this (World (thin this rec unres hash) t h) (try_enter (S fuel) this (World (thin this rec unres hash) t h)).
Proof.
  intros Hw Hthis Hok Hfull. assert (Habs : abs (World (thin this rec unres hash) t h) = abs_thin this rec unres) by (by apply abs_thin_world).
  assert (0 <= rec) as Hrec by (unfold thin_ok in *; lia).
  cbn [hythread_thin_monitor_try_enter]. mred. thin_steps. rewrite Z.eqb_refl. unfold MAX_RECURSION.
  destruct (Z.eqb_spec rec 31) as [->|Hr].
  - destruct (inflate_spec malloc Hmalloc this 31 unres hash t h Hw Hok Hthis ltac:(done) Hfull)
      as [(w' & Heq & Hw' & Hnone & Habs')|(id & t' & h' & p & m & Heq & Hw' & Hf & He & Hm & Hmok & Ha)].
    + rewrite Heq. exists TM_ERROR_OUT_OF_MEMORY, w'. split_and!; [done..|]. right. split; [by rewrite Habs'|by left].
    + cbv zeta in Heq. rewrite Heq. destruct (monitor_try_enter_spec m this Hmok Hthis) as (m' & s & Hs & Hmok' & Hspec).
      rewrite (run_spec _ _ _ _ _ _ Hm), Hs. exists s, (World (fat id (2 ^ 10 + hash)) t' (<[p := m']> h')).
      split_and!; [done|by apply fat_world_ok|]. left. rewrite Habs, <- Ha, <- Hspec. f_equal.
      apply abs_fat_world with p; [apply Hw'|done..|apply lookup_insert_eq].
  - assert (thin_ok this (rec + 1) hash) as Hok' by (unfold thin_ok in *; lia).
    rewrite thin_RECURSION_INC by (done || unfold thin_ok in *; lia).
    exists TM_ERROR_NONE, (World (thin this (rec + 1) unres hash) t h). split_and!; [done| |].
    + eapply thin_world_ok; [exact Hw|done|lia].
    + left. by rewrite Habs, abs_thin_entered, abs_thin_world by done.
Qed.

Lemma cas16_free this rec unres hash t h : thin_ok 0 rec hash -> 0 < this < 2 ^ 15 ->
  cas16_upper this 0 (World (thin 0 rec unres hash) t h) = Ret 0 (World (thin this rec unres hash) t h).
Proof.
  intros Hok Hthis. unfold cas16_upper. mred. change (Z.shiftr ?x 16) with (THREAD_ID x). thin_steps. cbn [Z.eqb].
  rewrite thin_low, Z.lor_comm, Z.shiftl_mul_pow2, lor_low by (done || unfold thin; word_bounds; destruct unres; simpl; lia).
  unfold thin. do 2 f_equal. lia.
Qed.

(** A free word is taken; whoever takes a reserved one reserves it. *)
Lemma try_free fuel this unres hash t h : world_ok (World (thin 0 0 unres hash) t h) -> 0 < this < 2 ^ 15 ->
  thin_ok 0 0 hash ->
  tries this None (try_enter (S fuel) this (World (thin 0 0 unres hash) t h)).
Proof.
  intros Hw Hthis Hok.
  cbn [hythread_thin_monitor_try_enter]. mred. thin_steps. rewrite (proj2 (Z.eqb_neq 0 this)) by lia.
  assert (thin_ok this 0 hash) as Hok' by (unfold thin_ok in *; lia).
  cbn [spin]. thin_steps. rewrite (proj2 (Z.ltb_lt 0 this)), (proj2 (Z.ltb_lt this 0x8000)) by lia. mred. cbn [andb Z.eqb Z.ltb Z.compare].
  rewrite cas16_free by done. cbn [Z.eqb negb].
  exists TM_ERROR_NONE. destruct unres; cbn [negb].
  - exists (World (thin this 0 true hash) t h). split_and!; [done|by eapply thin_world_ok|].
    rewrite abs_thin_world by done. unfold abs_thin, spec_try_enter, entered. by rewrite (proj2 (Z.eqb_neq this 0)) by lia.
  - exists (World (thin this 1 false hash) t h). assert (thin_ok this 1 hash) by (unfold thin_ok in *; lia).
    cbn [word table heap]. rewrite thin_RECURSION_INC by (done || lia). split_and!; [done|eapply thin_world_ok; [done..|lia]|].
    rewrite abs_thin_world by done. unfold abs_thin, spec_try_enter, entered. by rewrite (proj2 (Z.eqb_neq this 0)) by lia.
Qed.

Lemma tries_tried this w r : tries this (abs w) r -> tried this w r.
Proof. intros (s & w' & Hr & Hw' & H). exists s, w'. auto. Qed.

(** The word of another thread that is not reserved stays busy. *)
Lemma try_busy fuel this tid rec hash t h : world_ok (World (thin tid rec true hash) t h) -> thin_ok tid rec hash ->
  tid <> 0 -> tid <> this ->
  tries this (Some (tid, rec + 1)) (try_enter (S fuel) this (World (thin tid rec true hash) t h)).
Proof.
  intros Hw Hok H0 Hne. exists TM_ERROR_EBUSY, (World (thin tid rec true hash) t h). split_and!; [|done|].
  - cbn [hythread_thin_monitor_try_enter]. mred. thin_steps. rewrite (proj2 (Z.eqb_neq tid this)) by done. by apply spin_unreserved.
  - rewrite abs_thin_world by done. unfold abs_thin, spec_try_enter, entered.
    by rewrite (proj2 (Z.eqb_neq tid 0)), (proj2 (Z.eqb_neq tid this)) by done.
Qed.

(** The word another thread has reserved is unreserved, then tried again. *)
Lemma try_reserved fuel this tid rec hash t h : world_ok (World (thin tid rec false hash) t h) -> thin_ok tid rec hash ->
  tid <> 0 -> tid <> this -> 0 < this < 2 ^ 15 ->
  tried this (World (thin tid rec false hash) t h) (try_enter (S (S fuel)) this (World (thin tid rec false hash) t h)).
Proof.
  intros Hw Hok H0 Hne Hthis. remember (S fuel) as f eqn:Ef. cbn [hythread_thin_monitor_try_enter]. mred. thin_steps.
  rewrite (proj2 (Z.eqb_neq tid this)) by done.
  destruct (unreserve_lock_spec get_thread suspend_other soft fuel this tid rec hash t h Hok Hne Hsuspend) as [[u Hu]|[Hu Hbusy]];
    rewrite <- Ef in Hu.
  - assert (Hagain : forall r, spin' f r this (S SPIN_COUNT) (thin tid rec false hash) (World (thin tid rec false hash) t h)
        = r (World (if rec =? 0 then thin 0 0 u hash else thin tid (rec - 1) true hash) t h)).
    { intros r. cbn [spin]. thin_steps. rewrite (proj2 (Z.eqb_neq tid 0)) by done. mred. rewrite Hu.
      by rewrite bool_decide_true. }
    rewrite Hagain, Ef. apply tries_tried. rewrite abs_thin_world by done. unfold abs_thin.
    rewrite (proj2 (Z.eqb_neq tid 0)) by done. destruct (Z.eqb_spec rec 0) as [->|Hr].
    + assert (thin_ok 0 0 hash) by (unfold thin_ok in *; lia). apply try_free; [by eapply thin_world_ok|done..].
    + assert (thin_ok tid (rec - 1) hash) by (unfold thin_ok in *; lia).
      pose proof (try_busy fuel this tid (rec - 1) hash t h) as Hb. replace (rec - 1 + 1) with rec in Hb by lia.
      apply Hb; [by eapply thin_world_ok|done..].
  - exists TM_ERROR_EBUSY, (World (thin tid rec false hash) t h). split_and!; [by apply spin_suspend|done|].
    right. split; [done|]. right. cbn [word]. by thin_rw.
Qed.

Lemma try_enter_spec fuel this w : world_ok w -> 0 < this < 2 ^ 15 -> (THREAD_ID (word w) = this -> not_full (table w)) ->
  tried this w (try_enter (S (S fuel)) this w).
Proof.
  intros Hw Hthis Hfull. destruct (world_view w Hw) as [tid rec unres hash t h Hok H0|id low t h p m Hok He Hm Hmok]; simpl in Hfull.
  - destruct (decide (tid = this)) as [->|Hne]; [apply try_own; [done|lia|done|]; apply Hfull; by thin_rw|].
    destruct (decide (tid = 0)) as [->|Hn0].
    + rewrite H0 in * by done. apply tries_tried. rewrite abs_thin_world by done. by apply try_free.
    + destruct unres; [|by apply try_reserved]. apply tries_tried. rewrite abs_thin_world by done.
      unfold abs_thin. rewrite (proj2 (Z.eqb_neq tid 0)) by done. by apply try_busy.
  - by apply (try_fat _ _ _ _ _ _ p m).
Qed.

(** C15: Trying to enter a thin, reserved, recursive or inflated monitor, whoever
    holds it, does what trying to enter a monitor means: a free monitor is taken, the
    owner's count grows by one, also where the recursion field overflows and the lock
    is inflated, and a monitor someone else is in is reported busy and unchanged.
    Two calls deep is enough.  The only other outcomes leave the monitor as it was:
    out of memory when no monitor can be allocated, busy when the thread that has the
    word reserved could not be suspended. *)
Theorem try_enter_refines fuel this w : world_ok w -> 0 < this < 2 ^ 15 -> not_full (table w) ->
  exists s w', hythread_thin_monitor_try_enter malloc get_thread suspend_other soft (2 + fuel) this w = Ret s w' /\ world_ok w' /\
    ((s, abs w') = spec_try_enter this (abs w) \/
     (abs w' = abs w /\ (s = TM_ERROR_OUT_OF_MEMORY /\ malloc (heap w) = None \/
                         s = TM_ERROR_EBUSY /\ suspend_other (THREAD_ID (word w)) = TM_ERROR_EBUSY))).
Proof. intros Hw Hthis Hfull. by apply try_enter_spec. Qed.
End enter.


Section enter_blocking.
Context (malloc : gmap Z HyThreadMonitor -> option Z).
Context (Hmalloc : forall h p, malloc h = Some p -> p <> 0 /\ h !! p = None).
Context (Hmemory : forall h, malloc h <> None).
Context (get_thread : Z -> option bool) (suspend_other : Z -> tm_status) (soft : bool).
Context (Hsuspend : forall i, suspend_other i = TM_ERROR_NONE).

Lemma try_enter_exact this w : world_ok w -> 0 < this < 2 ^ 15 -> (THREAD_ID (word w) = this -> not_full (table w)) ->
  tries this (abs w) (hythread_thin_monitor_try_enter malloc get_thread suspend_other soft CALLS this w).
Proof.
  intros Hw Hthis Hfull.
  destruct (try_enter_spec malloc Hmalloc get_thread suspend_other soft (fun i => or_introl (Hsuspend i)) 0 this w Hw Hthis Hfull)
    as (s & w' & Hr & Hw' & [H|[_ [[_ H]|[_ H]]]]).
  - by exists s, w'.
  - by apply Hmemory in H.
  - by rewrite Hsuspend in H.
Qed.

(** While another thread is inside the loop goes on or blocks in the fat monitor. *)
Lemma enter_loop_busy fuel this w u n : world_ok w -> 0 < this < 2 ^ 15 -> abs w = Some (u, n) -> u <> this -> u <> 0 ->
  let r := enter_loop malloc get_thread suspend_other soft fuel this w in r = Blocks \/ r = Spins.
Proof.
  intros Hw Hthis Ha Hne Hn0. revert w Hw Ha. induction fuel as [|fuel IH]; intros w Hw Ha; [by right|]. cbn [enter_loop]. mred.
  assert (Hother : THREAD_ID (word w) <> this).
  { intros Ht. destruct (world_view w Hw) as [tid rec unres hash t h Hok H0|id low t h p m Hok He Hm Hmok].
    - rewrite abs_thin_world in Ha by done. cbn [word] in Ht. rewrite thin_THREAD_ID in Ht by done. subst tid.
      unfold abs_thin in Ha. repeat case_match; congruence.
    - cbn [word] in Ht. pose proof (fat_THREAD_ID id low Hok). lia. }
  destruct (try_enter_exact this w Hw Hthis ltac:(done)) as (s & w' & -> & Hw' & Hs).
  rewrite Ha in Hs. unfold spec_try_enter, entered in Hs. rewrite (proj2 (Z.eqb_neq u this)) in Hs by done.
  injection Hs as -> Ha'. rewrite bool_decide_true by done.
  destruct (world_view w' Hw') as [tid rec unres hash t h Hok H0|id low t h p m Hok He Hm Hmok]; cbn [word].
  - rewrite thin_IS_FAT_LOCK by done. by apply IH.
  - rewrite fat_IS_FAT_LOCK by done. rewrite (fat_monitor_of_spec id low t h _ p) by (apply Hw' || done).
    rewrite (run_spec _ _ _ _ _ _ Hm). rewrite (abs_fat_world id low t h p m) in Ha' by (apply Hw' || done).
    unfold abs_monitor in Ha'. destruct (Z.eqb_spec (owner m) 0); [done|]. injection Ha' as Ho _.
    unfold hythread_monitor_enter. rewrite (proj2 (Z.eqb_neq _ this)) by congruence. cbn [negb].
    rewrite trylock_ok, decide_False by (done || lia || congruence). by left.
Qed.

(** Entering succeeds at once, with the count one higher, when the monitor is
    free or the caller is inside, in every representation the lock word can have; and
    while another thread is inside it does not return, however long it tries: it spins
    on a thin lock and blocks in an inflated one.  Memory and suspension are taken not
    to fail. *)
Theorem enter_refines fuel this w : world_ok w -> 0 < this < 2 ^ 15 -> not_full (table w) ->
  let r := hythread_thin_monitor_enter malloc get_thread suspend_other soft fuel this w in
  match abs w with
  | Some (u, n) =>
      if decide (u = this) then exists w', r = Ret TM_ERROR_NONE w' /\ world_ok w' /\ abs w' = Some (this, n + 1)
      else r = Blocks \/ r = Spins
  | None => exists w', r = Ret TM_ERROR_NONE w' /\ world_ok w' /\ abs w' = Some (this, 1)
  end.
Proof.
  intros Hw Hthis Hfull r. unfold r, hythread_thin_monitor_enter. mred.
  destruct (try_enter_exact this w Hw Hthis ltac:(done)) as (s & w' & -> & Hw' & Hs).
  unfold spec_try_enter, entered in Hs. destruct (abs w) as [[u n]|] eqn:Ha.
  - destruct (Z.eqb_spec u this) as [->|Hne]; injection Hs as -> Ha'.
    + rewrite decide_True, bool_decide_true by done. by exists w'.
    + rewrite decide_False, bool_decide_false by done.
      assert (u <> 0) as Hu0.
      { destruct (world_view w Hw) as [tid rec unres hash t h Hok H0|id low t h p m Hok He Hm Hmok].
        - rewrite abs_thin_world in Ha by done. unfold abs_thin in Ha.
          destruct (Z.eqb_spec tid 0); [done|]. repeat case_match; congruence.
        - rewrite (abs_fat_world id low t h p m) in Ha by (apply Hw || done). unfold abs_monitor in Ha.
          destruct (Z.eqb_spec (owner m) 0); congruence. }
      by destruct (enter_loop_busy fuel this w' u n Hw' Hthis Ha' Hne Hu0) as [-> | ->]; [left|right].
  - injection Hs as -> Ha'. rewrite bool_decide_true by done. by exists w'.
Qed.
End enter_blocking.

(** ** Leaving, and the questions *)

Lemma exit_spec this w : world_ok w -> 0 < this < 2 ^ 15 ->
  exists s w', hythread_thin_monitor_exit this w = Ret s w' /\ world_ok w' /\ (s, abs w') = spec_exit this (abs w).
Proof.
  intros Hw Hthis. unfold hythread_thin_monitor_exit. mred.
  rewrite (proj2 (Z.ltb_lt 0 this)), (proj2 (Z.ltb_lt this 0xffff)) by lia. cbn [andb word].
  destruct (world_view w Hw) as [tid rec unres hash t h Hok H0|id low t h p m Hok He Hm Hmok].
  - rewrite abs_thin_world by done. thin_steps. destruct (Z.eqb_spec tid this) as [->|Hne].
    + unfold abs_thin, spec_exit. rewrite (proj2 (Z.eqb_neq this 0)) by lia. destruct (Z.eqb_spec rec 0) as [->|Hr].
      * destruct unres; cbn [negb];
          [|do 2 eexists; split; [done|]; split; [done|]; rewrite abs_thin_world by done; unfold abs_thin; by rewrite (proj2 (Z.eqb_neq this 0)) by lia].
        rewrite Z.eqb_refl. do 2 eexists. split; [done|]. cbn [word table heap]. rewrite thin_low by done.
        assert (thin_ok 0 0 hash) by (unfold thin_ok in *; lia). split; [by eapply thin_world_ok|]. by rewrite abs_thin_world.
      * assert (thin_ok this (rec - 1) hash) by (unfold thin_ok in *; lia). do 2 eexists. split; [done|]. cbn [word table heap].
        rewrite thin_RECURSION_DEC by (done || unfold thin_ok in *; lia). split; [by eapply thin_world_ok; [..|lia]|].
        rewrite abs_thin_world by done. unfold abs_thin. rewrite (proj2 (Z.eqb_neq this 0)) by lia.
        destruct unres; rewrite Z.eqb_refl; [rewrite (proj2 (Z.eqb_neq (rec + 1) 1)) by lia; repeat f_equal; lia|].
        destruct (Z.eqb_spec (rec - 1) 0), (Z.eqb_spec rec 1); lia || done.
    + rewrite ?thin_IS_FAT_LOCK by done. do 2 eexists. split; [done|]. split; [done|]. rewrite abs_thin_world by done. unfold spec_exit, abs_thin.
      destruct (tid =? 0); [done|]. destruct unres; [by rewrite (proj2 (Z.eqb_neq tid this))|].
      destruct (rec =? 0); [done|]. by rewrite (proj2 (Z.eqb_neq tid this)).
  - pose proof (fat_THREAD_ID id low Hok). cbn [word]. rewrite (proj2 (Z.eqb_neq _ this)) by lia. rewrite fat_IS_FAT_LOCK by done.
    rewrite (fat_monitor_of_spec id low t h _ p) by (apply Hw || done). rewrite (run_spec _ _ _ _ _ _ Hm).
    destruct (monitor_exit_spec m this Hmok ltac:(lia)) as (m' & s & -> & Hmok' & Hs).
    do 2 eexists. split; [done|]. split; [by apply fat_world_ok|].
    rewrite (abs_fat_world id low t h p m) by (apply Hw || done).
    rewrite (abs_fat_world id low t (<[p := m']> h) p m'); [done|apply Hw|done..|apply lookup_insert_eq].
Qed.

(** C21: Leaving a monitor, in every representation, takes one from the owner's count
    and frees the monitor at the last; a thread that is not inside gets the status
    for an illegal monitor state, also one that only has the word reserved, and
    changes nothing. *)
Theorem exit_refines this w : world_ok w -> 0 < this < 2 ^ 15 ->
  exists s w', hythread_thin_monitor_exit this w = Ret s w' /\ world_ok w' /\ (s, abs w') = spec_exit this (abs w).
Proof. apply exit_spec. Qed.

Lemma owner_spec w : world_ok w ->
  hythread_thin_monitor_get_owner w = Ret (match abs w with Some (u, _) => u | None => 0 end) w /\
  exists n, hythread_thin_monitor_get_recursion w = Ret n w /\ (forall u k, abs w = Some (u, k) -> n = k).
Proof.
  intros Hw. unfold hythread_thin_monitor_get_owner, hythread_thin_monitor_get_recursion. mred.
  destruct (world_view w Hw) as [tid rec unres hash t h Hok H0|id low t h p m Hok He Hm Hmok].
  - rewrite abs_thin_world by done. thin_steps. unfold abs_thin.
    destruct (Z.eqb_spec tid 0); [split; [done|by eexists]|].
    destruct unres; cbn [negb]; [rewrite andb_false_r; split; [done|eexists; split; [done|]]; by intros ?? [= <- <-]|].
    rewrite andb_true_r. destruct (rec =? 0); (split; [done|eexists; split; [done|]]); [done|by intros ?? [= <- <-]].
  - cbn [word]. rewrite fat_IS_FAT_LOCK by done. rewrite (fat_monitor_of_spec id low t h _ p) by (apply Hw || done).
    cbn [heap]. rewrite Hm. rewrite (abs_fat_world id low t h p m) by (apply Hw || done). unfold abs_monitor.
    destruct (Z.eqb_spec (owner m) 0) as [E|E]; [rewrite E|]; (split; [done|eexists; split; [done|]]); [done|by intros ?? [= <- <-]].
Qed.

(** The owner and the recursion count that the code reports are those of the
    monitor the word stands for, and 0 when nobody is inside; asking changes nothing. *)
Theorem owner_and_recursion w : world_ok w ->
  hythread_thin_monitor_get_owner w = Ret (match abs w with Some (u, _) => u | None => 0 end) w /\
  exists n, hythread_thin_monitor_get_recursion w = Ret n w /\ (forall u k, abs w = Some (u, k) -> n = k).
Proof. apply owner_spec. Qed.

(** ** Waiting and notifying *)

Definition spec_wait (this : Z) (a : option (Z * Z)) : (tm_status * Z) * option (Z * Z) :=
  match a with
  | Some (u, n) => if u =? this then (TM_ERROR_NONE, n - 1, None) else (TM_ERROR_ILLEGAL_STATE, 0, a)
  | None => (TM_ERROR_ILLEGAL_STATE, 0, a)
  end.
Definition spec_notify (this : Z) (a : option (Z * Z)) : tm_status :=
  match a with Some (u, _) => if u =? this then TM_ERROR_NONE else TM_ERROR_ILLEGAL_STATE | None => TM_ERROR_ILLEGAL_STATE end.

Lemma monitor_wait_spec m this : mon_ok m -> 0 < this ->
  exists m' s saved, monitor_wait_begin this m = (Done m' s, saved) /\ mon_ok m' /\ (s, saved, abs_monitor m') = spec_wait this (abs_monitor m).
Proof.
  intros [Hn Hr Hf Hm] Hthis. unfold monitor_wait_begin, spec_wait, abs_monitor.
  destruct (Z.eqb_spec (owner m) this) as [E|E]; cbn [negb].
  - rewrite (proj2 (Z.ltb_ge _ _)) by done. rewrite (proj2 (Z.ltb_ge (notify_count m) 0)), (proj2 (Z.leb_gt _ _)) by lia.
    cbn [orb]. rewrite Hm, decide_False, (proj2 (Z.eqb_neq (owner m) 0)), E, Z.eqb_refl by lia.
    do 3 eexists. split; [done|]. split; [|by repeat f_equal; lia]. split; simpl; try done; lia.
  - do 3 eexists. split; [done|]. split; [done|]. destruct (owner m =? 0); [done|]. by rewrite (proj2 (Z.eqb_neq _ this)).
Qed.

Lemma monitor_notify_spec m this op : mon_ok m -> 0 < this -> op = hythread_monitor_notify \/ op = hythread_monitor_notify_all ->
  exists m', op this m = Done m' (spec_notify this (abs_monitor m)) /\ mon_ok m' /\ abs_monitor m' = abs_monitor m.
Proof.
  intros [Hn Hr Hf Hm] Hthis Hop.
  assert (Hs : spec_notify this (abs_monitor m) = if owner m =? this then TM_ERROR_NONE else TM_ERROR_ILLEGAL_STATE).
  { unfold spec_notify, abs_monitor. destruct (Z.eqb_spec (owner m) 0) as [->|]; [|done]. by rewrite (proj2 (Z.eqb_neq 0 this)) by lia. }
  rewrite Hs. destruct Hop as [-> | ->]; unfold hythread_monitor_notify, hythread_monitor_notify_all;
    destruct (owner m =? this); cbn [negb]; [destruct (Z.ltb_spec (notify_count m) (wait_count m))| | |];
    eexists; (split; [done|]); split; try done; split; simpl; try done; lia.
Qed.

(** Owning a thin lock. *)
Lemma owns_spec this tid rec unres hash : thin_ok tid rec hash -> 0 < this ->
  bool_decide (hythread_owns_thin_lock this (thin tid rec unres hash) = Some true) =
  match abs_thin tid rec unres with Some (u, _) => u =? this | None => false end.
Proof.
  intros Hok Hthis. rewrite thin_owns by done. unfold abs_thin. destruct (Z.eqb_spec tid this) as [->|Hne]; cbn [andb].
  - rewrite (proj2 (Z.eqb_neq this 0)) by lia. destruct unres; cbn [orb]; [by rewrite Z.eqb_refl|].
    destruct (rec =? 0); cbn [negb]; [done|by rewrite Z.eqb_refl].
  - rewrite bool_decide_false by done. destruct (tid =? 0), unres, (rec =? 0); try done; by rewrite (proj2 (Z.eqb_neq _ _)).
Qed.

(** Waiting inflates the lock if need be, lets go of the monitor however often it
    was entered, and keeps the count to restore; whoever is not inside gets the status
    for an illegal monitor state and changes nothing. *)
Theorem wait_releases malloc this w : (forall h p, malloc h = Some p -> p <> 0 /\ h !! p = None) ->
  world_ok w -> 0 < this < 2 ^ 15 -> not_full (table w) ->
  exists r w', thin_monitor_wait_impl malloc this w = Ret r w' /\ world_ok w' /\
    ((r, abs w') = spec_wait this (abs w) \/
     (abs w' = abs w /\ r = (TM_ERROR_OUT_OF_MEMORY, 0) /\ malloc (heap w) = None)).
Proof.
  intros Hmalloc Hw Hthis Hfull. unfold thin_monitor_wait_impl. mred.
  destruct (world_view w Hw) as [tid rec unres hash t h Hok H0|id low t h p m Hok He Hm Hmok].
  - rewrite abs_thin_world by done. cbn [word]. rewrite thin_IS_FAT_LOCK by done. cbn [negb]. rewrite owns_spec by (done || lia).
    destruct (abs_thin tid rec unres) as [[u n]|] eqn:Ha; [destruct (Z.eqb_spec u this) as [->|Hne]|]; cbn [negb].
    + assert (tid = this /\ (unres = false -> rec <> 0)) as [-> Hr].
      { unfold abs_thin in Ha. destruct (tid =? 0), unres, (Z.eqb_spec rec 0); simplify_eq; done. }
      destruct (inflate_spec malloc Hmalloc this rec unres hash t h Hw Hok ltac:(lia) Hr Hfull)
        as [(w' & Heq & Hw' & Hnone & Habs')|(id & t' & h' & p & m & Heq & Hw' & Hf & He & Hm & Hmok & Ha')].
      * rewrite Heq. do 2 eexists. split; [done|]. split; [done|]. right. split; [congruence|done].
      * cbv zeta in Heq. rewrite Heq. cbn [word table heap]. rewrite Hm.
        destruct (monitor_wait_spec m this Hmok ltac:(lia)) as (m' & s & saved & -> & Hmok' & Hs).
        do 2 eexists. split; [done|]. split; [by apply fat_world_ok|]. left. rewrite <- Ha, <- Ha', <- Hs. f_equal.
        apply abs_fat_world with p; [apply Hw'|done..|apply lookup_insert_eq].
    + do 2 eexists. split; [done|]. split; [done|]. left. rewrite abs_thin_world, Ha by done. cbn. by rewrite (proj2 (Z.eqb_neq u this)).
    + do 2 eexists. split; [done|]. split; [done|]. left. by rewrite abs_thin_world, Ha.
  - cbn [word]. rewrite fat_IS_FAT_LOCK by done. cbn [negb]. rewrite (fat_monitor_of_spec id low t h _ p) by (apply Hw || done).
    cbn [word table heap]. rewrite Hm. destruct (monitor_wait_spec m this Hmok ltac:(lia)) as (m' & s & saved & -> & Hmok' & Hs).
    do 2 eexists. split; [done|]. split; [by apply fat_world_ok|]. left.
    rewrite (abs_fat_world id low t h p m) by (apply Hw || done). rewrite <- Hs. f_equal.
    apply abs_fat_world with p; [apply Hw|done..|apply lookup_insert_eq].
Qed.

(** Notifying needs ownership and changes nobody's count. *)
Lemma notify_refines this w op : world_ok w -> 0 < this < 2 ^ 15 ->
  op = hythread_thin_monitor_notify \/ op = hythread_thin_monitor_notify_all ->
  exists w', op this w = Ret (spec_notify this (abs w)) w' /\ world_ok w' /\ abs w' = abs w.
Proof.
  intros Hw Hthis Hop.
  destruct (world_view w Hw) as [tid rec unres hash t h Hok H0|id low t h p m Hok He Hm Hmok].
  - exists (World (thin tid rec unres hash) t h). split; [|done]. pose proof (owns_spec this tid rec unres hash Hok ltac:(lia)) as Ho.
    destruct Hop as [-> | ->]; unfold hythread_thin_monitor_notify, hythread_thin_monitor_notify_all; mred; rewrite thin_IS_FAT_LOCK by done;
      rewrite Ho, abs_thin_world by done; unfold spec_notify; destruct (abs_thin _ _ _) as [[u ?]|]; [|done| |done]; by destruct (u =? this).
  - rewrite (abs_fat_world id low t h p m) by (apply Hw || done).
    assert (exists op', (op' = hythread_monitor_notify \/ op' = hythread_monitor_notify_all) /\
      op this (World (fat id low) t h) = run (op' this) p (World (fat id low) t h)) as (op' & Hop' & ->).
    { destruct Hop as [-> | ->]; [exists hythread_monitor_notify|exists hythread_monitor_notify_all]; (split; [auto|]);
        unfold hythread_thin_monitor_notify, hythread_thin_monitor_notify_all; mred; rewrite fat_IS_FAT_LOCK by done;
        by rewrite (fat_monitor_of_spec id low t h _ p) by (apply Hw || done). }
    destruct (monitor_notify_spec m this op' Hmok ltac:(lia) Hop') as (m' & Heq & Hmok' & Ha).
    rewrite (run_spec _ _ _ _ _ _ Hm), Heq. eexists. split; [done|]. split; [by apply fat_world_ok|]. rewrite <- Ha.
    apply abs_fat_world with p; [apply Hw|done..|apply lookup_insert_eq].
Qed.

(** ** Concrete worlds *)

(** An allocator that always finds an address, and one that never does. *)
Definition any_address (h : gmap Z HyThreadMonitor) : option Z := Some (fresh (dom h ∪ {[0]})).
Definition no_memory (h : gmap Z HyThreadMonitor) : option Z := None.

Lemma any_address_ok h p : any_address h = Some p -> p <> 0 /\ h !! p = None.
Proof.
  unfold any_address. intros [= <-]. pose proof (is_fresh (dom h ∪ {[0]})) as Hf. split.
  - set_solver.
  - apply not_elem_of_dom. set_solver.
Qed.

Lemma init_not_full : not_full init_lock_table.
Proof. exists 0. split; [done|]. unfold entry. rewrite init_entry; [done|]. pose proof entries_pos. lia. Qed.

(** A world with a thin word and an empty table. *)
Definition thin_start (tid rec : Z) (unres : bool) (hash : Z) : world := World (thin tid rec unres hash) init_lock_table ∅.

Lemma thin_start_ok tid rec unres hash : thin_ok tid rec hash -> (tid = 0 -> rec = 0) -> world_ok (thin_start tid rec unres hash).
Proof.
  intros Hok H0. split; cbn [word table heap thin_start].
  - by apply thin_is_u.
  - apply init_ok.
  - intros i p Hi He. destruct (decide (i < HY_FAT_TABLE_ENTRIES)).
    + unfold entry in He. by rewrite init_entry in He.
    + rewrite entry_none in He; [done|apply init_ok|]. cbn [size init_lock_table]. lia.
  - by rewrite thin_THREAD_ID, thin_RECURSION by done.
  - by rewrite thin_IS_FAT_LOCK by done.
Qed.

Abbreviation every_thread := (fun _ : Z => Some false).
Abbreviation suspends := (fun _ : Z => TM_ERROR_NONE).

(** The 33rd entry of a thread overflows the recursion field and inflates the lock. *)
Lemma try_enter_refines_witness : exists w', 
  hythread_thin_monitor_try_enter any_address every_thread suspends false 2 7 (thin_start 7 31 true 5) = Ret TM_ERROR_NONE w' /\
  abs (thin_start 7 31 true 5) = Some (7, 32) /\ abs w' = Some (7, 33).
Proof.
  destruct (try_enter_refines any_address any_address_ok every_thread suspends false (fun _ => or_introl eq_refl) 0 7 (thin_start 7 31 true 5))
    as (s & w' & Hr & _ & [H|[_ [[_ H]|[_ H]]]]);
    [apply thin_start_ok; [unfold thin_ok; lia|done]|lia|apply init_not_full| |discriminate H|discriminate H].
  assert (Ha : abs (thin_start 7 31 true 5) = Some (7, 32)) by reflexivity. rewrite Ha in H. injection H as -> H.
  exists w'. split; [exact Hr|split; [exact Ha|exact H]].
Defined.

(** Thread 7 takes a lock word that thread 9 has reserved; thread 9 is inside another. *)
Lemma enter_refines_witness :
  (exists w', hythread_thin_monitor_enter any_address every_thread suspends false 100 7 (thin_start 9 0 false 5) = Ret TM_ERROR_NONE w' /\
     abs w' = Some (7, 1)) /\
  (let r := hythread_thin_monitor_enter any_address every_thread suspends false 100 7 (thin_start 9 3 false 5) in r = Blocks \/ r = Spins).
Proof.
  split.
  - pose proof (enter_refines any_address any_address_ok ltac:(discriminate) every_thread suspends false (fun _ => eq_refl) 100 7
      (thin_start 9 0 false 5)) as H.
    destruct H as (w' & Hr & _ & Ha); [apply thin_start_ok; [unfold thin_ok; lia|done]|lia|apply init_not_full|].
    exists w'. split; [exact Hr|exact Ha].
  - pose proof (enter_refines any_address any_address_ok ltac:(discriminate) every_thread suspends false (fun _ => eq_refl) 100 7
      (thin_start 9 3 false 5)) as H.
    apply H; [apply thin_start_ok; [unfold thin_ok; lia|done]|lia|apply init_not_full].
Defined.

Lemma exit_refines_witness : exists w', hythread_thin_monitor_exit 7 (thin_start 7 2 true 5) = Ret TM_ERROR_NONE w' /\ abs w' = Some (7, 2).
Proof.
  destruct (exit_refines 7 (thin_start 7 2 true 5)) as (s & w' & Hr & _ & H); [apply thin_start_ok; [unfold thin_ok; lia|done]|lia|].
  assert (Ha : abs (thin_start 7 2 true 5) = Some (7, 3)) by reflexivity. rewrite Ha in H. injection H as -> H.
  exists w'. split; [exact Hr|exact H].
Defined.

Lemma owner_and_recursion_witness : hythread_thin_monitor_get_owner (thin_start 7 2 false 5) = Ret 7 (thin_start 7 2 false 5).
Proof.
  exact (proj1 (owner_and_recursion (thin_start 7 2 false 5) ltac:(apply thin_start_ok; [unfold thin_ok; lia|done]))).
Defined.

Lemma wait_releases_witness : exists w', thin_monitor_wait_impl any_address 7 (thin_start 7 2 true 5) = Ret (TM_ERROR_NONE, 2) w' /\ abs w' = None.
Proof.
  destruct (wait_releases any_address 7 (thin_start 7 2 true 5) any_address_ok) as (r & w' & Hr & _ & [H|(_ & _ & H)]);
    [apply thin_start_ok; [unfold thin_ok; lia|done]|lia|apply init_not_full| |discriminate H].
  assert (Ha : abs (thin_start 7 2 true 5) = Some (7, 3)) by reflexivity. rewrite Ha in H. injection H as -> H.
  exists w'. split; [exact Hr|exact H].
Defined.

(** ** Where the code does not do what it means *)

(** [hythread_thin_monitor_try_enter] decides whether to reserve the lock by the
    word it read before the compare-and-swap, which looks at the owner alone.  Thread 1
    reads a free, reservable word; thread 2 enters and leaves, thread 3 enters, for
    which the lock is unreserved, and leaves; thread 1 goes on and has entered twice
    by entering once, so that it still holds the monitor after leaving it. *)
Theorem stale_reservation t h :
  let try_enter := hythread_thin_monitor_try_enter any_address every_thread suspends false 2 in
  let w0 := World (thin 0 0 false 5) t h in
  exists w1 w2 w3 w4 w5 w6,
    try_enter 2 w0 = Ret TM_ERROR_NONE w1 /\ hythread_thin_monitor_exit 2 w1 = Ret TM_ERROR_NONE w2 /\
    try_enter 3 w2 = Ret TM_ERROR_NONE w3 /\ hythread_thin_monitor_exit 3 w3 = Ret TM_ERROR_NONE w4 /\ abs w4 = None /\
    spin every_thread suspends false 1 (try_enter 1) 1 (S SPIN_COUNT) (word w0) w4 = Ret TM_ERROR_NONE w5 /\ abs w5 = Some (1, 2) /\
    hythread_thin_monitor_exit 1 w5 = Ret TM_ERROR_NONE w6 /\ abs w6 = Some (1, 1) /\
    try_enter 2 w6 = Ret TM_ERROR_EBUSY w6.
Proof.
  intros try_enter w0. do 6 eexists.
  split; [reflexivity|]. split; [reflexivity|]. split; [reflexivity|]. split; [reflexivity|]. split; [reflexivity|].
  split; [reflexivity|]. split; [reflexivity|]. split; [reflexivity|]. split; reflexivity.
Qed.

(** When the recursion field of a reserved lock overflows and there is no memory for
    a fat monitor, the first attempt of [hythread_thin_monitor_enter] fails but leaves
    the lock unreserved with room for one more, the second succeeds, and the function
    goes on to inflate and reports out of memory for a monitor it has entered. *)
Lemma enter_out_of_memory t h :
  let w := World (thin 5 31 false 3) t h in
  exists w', hythread_thin_monitor_enter no_memory every_thread suspends false 2 5 w = Ret TM_ERROR_OUT_OF_MEMORY w' /\
    abs w = Some (5, 31) /\ abs w' = Some (5, 32).
Proof. intros w. eexists. split; [reflexivity|]. split; reflexivity. Qed.

(** ** Releasing *)

Lemma release_loop_spec fuel tid rec unres hash t h : thin_ok tid rec hash -> (Z.to_nat rec < fuel)%nat ->
  release_loop fuel (thin tid rec unres hash) (World (thin tid rec unres hash) t h) =
  Ret (thin tid 0 unres hash) (World (thin tid 0 unres hash) t h).
Proof.
  revert rec. induction fuel as [|fuel IH]; intros rec Hok Hf; [lia|]. cbn [release_loop]. rewrite thin_RECURSION by done.
  destruct (Z.eqb_spec rec 0) as [->|Hr]; cbn [negb]; [done|]. mred.
  rewrite thin_RECURSION_DEC by (done || unfold thin_ok in *; lia). apply IH; unfold thin_ok in *; lia.
Qed.

(** Releasing a thin lock frees the monitor however often its owner has entered,
    with fuel for the recursions a lock word can count. *)
Theorem release_thin fuel this w n : world_ok w -> 0 < this < 2 ^ 15 -> IS_FAT_LOCK (word w) = false -> (32 <= fuel)%nat ->
  abs w = Some (this, n) ->
  exists w', hythread_thin_monitor_release fuel this w = Ret TM_ERROR_NONE w' /\ world_ok w' /\ abs w' = None.
Proof.
  intros Hw Hthis Hthin Hfuel Ha. pose proof (owner_spec w Hw) as Ho. rewrite Ha in Ho. destruct Ho as [Ho _].
  destruct (world_view w Hw) as [tid rec unres hash t h Hok H0|id low t h p m Hok He Hm Hmok];
    [|cbn [word] in Hthin; by rewrite fat_IS_FAT_LOCK in Hthin].
  unfold hythread_thin_monitor_release. cbv [mbind M_bind get_word]. rewrite Ho. rewrite Z.eqb_refl. cbn [negb word].
  rewrite thin_IS_FAT_LOCK by done. mred. rewrite release_loop_spec by (done || unfold thin_ok in *; lia). cbn [word table heap].
  assert (thin_ok tid 0 hash /\ thin_ok 0 0 hash) as [? ?] by (unfold thin_ok in *; lia).
  rewrite thin_low by done. eexists. split; [done|]. split; [by eapply thin_world_ok|]. by rewrite abs_thin_world.
Qed.

(** Releasing an inflated lock unlocks the mutex of its monitor but leaves the
    thread its owner: the thread is still reported as inside, enters again without
    the mutex, and another thread that tries to enter then succeeds too. *)
Theorem release_fat_keeps_owner fuel this other w n : world_ok w -> 0 < this < 2 ^ 15 -> 0 < other < 2 ^ 15 -> other <> this ->
  IS_FAT_LOCK (word w) = true -> abs w = Some (this, n) ->
  exists w' w1 w2, hythread_thin_monitor_release fuel this w = Ret TM_ERROR_NONE w' /\ abs w' = Some (this, 1) /\
    hythread_thin_monitor_try_enter any_address every_thread suspends false 2 this w' = Ret TM_ERROR_NONE w1 /\ abs w1 = Some (this, 2) /\
    hythread_thin_monitor_try_enter any_address every_thread suspends false 2 other w1 = Ret TM_ERROR_NONE w2.
Proof.
  intros Hw Hthis Hother Hne Hfat Ha. pose proof (owner_spec w Hw) as Ho. rewrite Ha in Ho. destruct Ho as [Ho _].
  destruct (world_view w Hw) as [tid rec unres hash t h Hok H0|id low t h p m Hok He Hm Hmok];
    [cbn [word] in Hfat; by rewrite thin_IS_FAT_LOCK in Hfat|].
  pose proof (ok_table _ Hw) as Ht. cbn [table] in Ht. rewrite (abs_fat_world id low t h p m) in Ha by done.
  assert (owner m = this) as Eo by (unfold abs_monitor in Ha; destruct (owner m =? 0); simplify_eq; done).
  set (m' := MkMonitor (Mutex 0 0) 0 this (wait_count m) (notify_count m)).
  set (m1 := MkMonitor (Mutex 0 0) 1 this (wait_count m) (notify_count m)).
  set (m2 := MkMonitor (Mutex other 1) 1 other (wait_count m) (notify_count m)).
  assert (Habs : forall m h, abs_monitor m = Some (this, recursion_count m + 1) -> abs (World (fat id low) t (<[p := m]> h)) = Some (this, recursion_count m + 1)).
  { intros mm hh <-. apply abs_fat_world with p; [done..|apply lookup_insert_eq]. }
  exists (World (fat id low) t (<[p := m']> h)), (World (fat id low) t (<[p := m1]> h)), (World (fat id low) t (<[p := m2]> h)).
  split_and!.
  - unfold hythread_thin_monitor_release. cbv [mbind M_bind get_word]. rewrite Ho. rewrite Z.eqb_refl. cbn [negb word].
    rewrite fat_IS_FAT_LOCK by done. mred. rewrite (fat_monitor_of_spec id low t h _ p) by done. cbn [heap word table]. rewrite Hm.
    rewrite (mon_mutex _ Hmok), decide_False, Eo by lia. done.
  - apply (Habs m'). unfold abs_monitor. cbn. by rewrite (proj2 (Z.eqb_neq this 0)) by lia.
  - rewrite (try_fat_run _ _ _ _ _ _ id low t _ p m' m1 TM_ERROR_NONE); [by rewrite insert_insert_eq|done|lia|done..|apply lookup_insert_eq| |done].
    unfold hythread_monitor_try_enter. cbn. by rewrite Z.eqb_refl.
  - apply (Habs m1). unfold abs_monitor. cbn. by rewrite (proj2 (Z.eqb_neq this 0)) by lia.
  - rewrite (try_fat_run _ _ _ _ _ _ id low t _ p m1 m2 TM_ERROR_NONE); [by rewrite insert_insert_eq|done|lia|done..|apply lookup_insert_eq| |done].
    unfold hythread_monitor_try_enter. cbn. by rewrite (proj2 (Z.eqb_neq this other)) by done.
Qed.

Lemma release_thin_witness : exists w', hythread_thin_monitor_release 40 7 (thin_start 7 31 false 5) = Ret TM_ERROR_NONE w' /\ abs w' = None.
Proof.
  destruct (release_thin 40 7 (thin_start 7 31 false 5) 31) as (w' & Hr & _ & Ha);
    [apply thin_start_ok; [unfold thin_ok; lia|done]|lia|reflexivity|lia|reflexivity|].
  exists w'. split; [exact Hr|exact Ha].
Defined.

(** A world with an inflated lock that thread 7 has entered. *)
Definition fat_start : world :=
  World (fat 0 (2 ^ 10 + 5)) two_monitors (<[77 := MkMonitor (Mutex 7 1) 0 7 0 0]> (<[88 := hythread_monitor_init]> ∅)).

Lemma two_monitors_entry i p : 0 <= i -> entry two_monitors i = Some p -> p = 77 \/ p = 88.
Proof.
  intros Hi. unfold two_monitors. pose proof entries_pos. assert (E2 : 2 < HY_FAT_TABLE_ENTRIES) by done.
  pose proof (set_ok init_lock_table 0 77 1 init_ok) as Hok1.
  rewrite entry_set; [|apply Hok1; [cbn; lia|apply init_entry; lia|done|cbn; lia]|cbn; lia|done].
  case_decide; [intros [= <-]; by right|]. rewrite entry_set by (apply init_ok || cbn; lia).
  case_decide; [intros [= <-]; by left|]. intros He. destruct (decide (i < HY_FAT_TABLE_ENTRIES)).
  - unfold entry in He. by rewrite init_entry in He.
  - rewrite entry_none in He; [done|apply init_ok|cbn; lia].
Qed.

Lemma fat_start_ok : world_ok fat_start.
Proof.
  destruct two_monitors_ok as (Hok & _ & H0 & _). split; cbn [word table heap fat_start].
  - apply fat_is_u. word_bounds. lia.
  - done.
  - intros i p Hi He. destruct (two_monitors_entry i p Hi He) as [-> | ->]; (eexists; split; [reflexivity|]); by split.
  - by rewrite fat_IS_FAT_LOCK by (word_bounds; lia).
  - intros _. rewrite fat_FAT_LOCK_ID by (word_bounds; lia). by rewrite H0.
Qed.

Lemma release_fat_keeps_owner_witness : exists w' w1 w2, hythread_thin_monitor_release 1 7 fat_start = Ret TM_ERROR_NONE w' /\
  abs w1 = Some (7, 2) /\ hythread_thin_monitor_try_enter any_address every_thread suspends false 2 9 w1 = Ret TM_ERROR_NONE w2.
Proof.
  destruct (release_fat_keeps_owner 1 7 9 fat_start 1 fat_start_ok) as (w' & w1 & w2 & Hr & _ & _ & Ha & H9);
    [lia|lia|lia|reflexivity| |].
  - destruct two_monitors_ok as (Hok & _ & H0 & _). unfold fat_start.
    rewrite (abs_fat_world 0 _ two_monitors _ 77 (MkMonitor (Mutex 7 1) 0 7 0 0)); [reflexivity|exact Hok|word_bounds; lia|exact H0|reflexivity].
  - exists w', w1, w2. split; [exact Hr|split; [exact Ha|exact H9]].
Defined.
