(* ===== verification/Abcd.v ===== *)
(** * The ABCD solver: [jitrino/src/optimizer/abcd/classic_abcd_solver.{h,cpp}]

    Bounds-check elimination asks whether the difference of two operands is bounded,
    by a search of the inequality graph from the destination back to the source with
    memoised results.  The graph, its two states, the chart of memoised bounds and the
    search are translated here; [AbcdOk] has the theorems.

    Operands are their identifiers: the graph asserts that two operands with one
    identifier are one operand.  [None] is a failed assertion or, in the search, fuel
    that has run out. *)
From stdpp Require Import gmap.
From S2P Require Import Prelude.

(** ** Operands and edges *)

Record IOpnd := MkOpnd {
  opnd_id : Z;
  is_phi : bool;
  constant_value : option Z;
}.
#[export] Instance IOpnd_eq_dec : EqDecision IOpnd.
Proof. solve_decision. Defined.

(** [IOpnd(id, is_phi)] and [setConstant]. *)
Definition new_IOpnd (id : Z) (phi : bool) : IOpnd := MkOpnd id phi None.
Definition setConstant (o : IOpnd) (v : Z) : IOpnd := MkOpnd (opnd_id o) (is_phi o) (Some v).

Record IneqEdge := MkEdge { edge_src : Z; edge_dst : Z; edge_length : Z }.

(** The edges into or out of an operand that are visible in both states or in one. *)
Record TwoStateEdgeList := MkEdgeList {
  permanent : list IneqEdge;
  lower : list IneqEdge;
  upper_edges : list IneqEdge;
  list_is_lower : bool;
}.
Definition new_TwoStateEdgeList : TwoStateEdgeList := MkEdgeList [] [] [] false.

Definition list_addEdge (l : TwoStateEdgeList) (e : IneqEdge) : TwoStateEdgeList :=
  MkEdgeList (permanent l ++ [e]) (lower l) (upper_edges l) (list_is_lower l).
Definition list_addEdgeSingleState (l : TwoStateEdgeList) (e : IneqEdge) (is_lower : bool) : TwoStateEdgeList :=
  if is_lower then MkEdgeList (permanent l) (lower l ++ [e]) (upper_edges l) (list_is_lower l)
  else MkEdgeList (permanent l) (lower l) (upper_edges l ++ [e]) (list_is_lower l).
Definition list_setState (l : TwoStateEdgeList) (is_lower : bool) : TwoStateEdgeList :=
  MkEdgeList (permanent l) (lower l) (upper_edges l) is_lower.

(** What the iterators from [begin] to [end] run over. *)
Definition list_edges (l : TwoStateEdgeList) : list IneqEdge :=
  permanent l ++ (if list_is_lower l then lower l else upper_edges l).

(** [TwoStateOpndToEdgeListMap]; a list that is made later starts in the upper state. *)
Definition edge_map : Type := gmap Z TwoStateEdgeList.
Definition map_setState (m : edge_map) (is_lower : bool) : edge_map := (fun l => list_setState l is_lower) <$> m.
Definition map_addEdge (m : edge_map) (id : Z) (e : IneqEdge) : edge_map :=
  match m !! id with
  | None => <[id := list_addEdge new_TwoStateEdgeList e]> m
  | Some l => <[id := list_addEdge l e]> m
  end.
Definition map_addEdgeSingleState (m : edge_map) (id : Z) (e : IneqEdge) (is_lower : bool) : edge_map :=
  match m !! id with
  | None => <[id := list_addEdgeSingleState new_TwoStateEdgeList e is_lower]> m
  | Some l => <[id := list_addEdgeSingleState l e is_lower]> m
  end.
Definition eList (m : edge_map) (id : Z) : list IneqEdge := from_option list_edges [] (m !! id).

(** ** The inequality graph *)

Record InequalityGraph := MkGraph {
  id_to_opnd_map : gmap Z IOpnd;
  edges : list IneqEdge;
  inedges : edge_map;
  outedges : edge_map;
  is_lower : bool;
}.
Definition new_InequalityGraph : InequalityGraph := MkGraph ∅ [] ∅ ∅ false.

Definition has_other_opnd_with_same_id (m : gmap Z IOpnd) (o : IOpnd) : bool :=
  match m !! opnd_id o with Some o' => negb (bool_decide (o' = o)) | None => false end.

Definition setState (g : InequalityGraph) (is_lower : bool) : InequalityGraph :=
  MkGraph (id_to_opnd_map g) (edges g) (map_setState (inedges g) is_lower) (map_setState (outedges g) is_lower) is_lower.

Definition addOpnd (g : InequalityGraph) (o : IOpnd) : option InequalityGraph :=
  if has_other_opnd_with_same_id (id_to_opnd_map g) o then None
  else Some (MkGraph (<[opnd_id o := o]> (id_to_opnd_map g)) (edges g) (inedges g) (outedges g) (is_lower g)).

Definition addEdge (g : InequalityGraph) (from to : IOpnd) (distance : Z) : option InequalityGraph :=
  if has_other_opnd_with_same_id (id_to_opnd_map g) from || has_other_opnd_with_same_id (id_to_opnd_map g) to then None
  else
    let e := MkEdge (opnd_id from) (opnd_id to) distance in
    Some (MkGraph (<[opnd_id to := to]> (<[opnd_id from := from]> (id_to_opnd_map g))) (edges g ++ [e])
      (map_addEdge (inedges g) (opnd_id to) e) (map_addEdge (outedges g) (opnd_id from) e) (is_lower g)).

Definition addEdgeSingleState (g : InequalityGraph) (from to : IOpnd) (distance : Z) (state : bool) : option InequalityGraph :=
  if has_other_opnd_with_same_id (id_to_opnd_map g) from || has_other_opnd_with_same_id (id_to_opnd_map g) to then None
  else
    let e := MkEdge (opnd_id from) (opnd_id to) distance in
    Some (MkGraph (<[opnd_id to := to]> (<[opnd_id from := from]> (id_to_opnd_map g))) (edges g ++ [e])
      (map_addEdgeSingleState (inedges g) (opnd_id to) e state) (map_addEdgeSingleState (outedges g) (opnd_id from) e state) (is_lower g)).

(** [findOpnd] and [getOpndById]: without the operand the first gives [NULL], the second fails. *)
Definition findOpnd (g : InequalityGraph) (id : Z) : option IOpnd := id_to_opnd_map g !! id.

Definition addEdge_ids (g : InequalityGraph) (id_from id_to distance : Z) : option InequalityGraph :=
  from ← findOpnd g id_from; to ← findOpnd g id_to; addEdge g from to distance.
Definition addEdgeSingleState_ids (g : InequalityGraph) (id_from id_to distance : Z) (state : bool) : option InequalityGraph :=
  from ← findOpnd g id_from; to ← findOpnd g id_to; addEdgeSingleState g from to distance state.

Definition inEdges (g : InequalityGraph) (id : Z) : list IneqEdge := eList (inedges g) id.
Definition outEdges (g : InequalityGraph) (id : Z) : list IneqEdge := eList (outedges g) id.

(** ** Bounds *)

(** The upper bound [d <= b] or the lower bound [d >= b] of a distance. *)
Record Bound := MkBound { bound_value : Z; isUpper : bool }.

Definition create_inc1 (b : Bound) : Bound :=
  MkBound (sx 32 (if isUpper b then bound_value b + 1 else bound_value b - 1)) (isUpper b).
Definition create_dec1 (b : Bound) : Bound :=
  MkBound (sx 32 (if isUpper b then bound_value b - 1 else bound_value b + 1)) (isUpper b).
Definition create_dec_const (b : Bound) (cnst : Z) : Bound := MkBound (sx 32 (bound_value b - cnst)) (isUpper b).

Definition int32_leq (value : Z) (b : Bound) : bool := if isUpper b then value <=? bound_value b else value >=? bound_value b.
Definition leq_int32 (b : Bound) (value : Z) : bool := if isUpper b then bound_value b <=? value else bound_value b >=? value.
Definition leq (b1 b2 : Bound) : bool := int32_leq (bound_value b1) b2.
Definition const_distance_leq (src_val dst_val : Z) (b : Bound) : bool := int32_leq (sx 32 (dst_val - src_val)) b.

(** Comparisons of pointers that may be [NULL]: [eq], and the guards [p && leq(p, b)]
    and [p && leq(b, p)]. *)
Definition eq (b1 b2 : option Bound) : bool :=
  match b1, b2 with Some b1, Some b2 => leq b1 b2 && leq b2 b1 | _, _ => false end.
Definition some_leq (p : option Bound) (b : Bound) : bool := from_option (fun x => leq x b) false p.
Definition leq_some (b : Bound) (p : option Bound) : bool := from_option (leq b) false p.
(** [!p || ...], [p && q && leq(p, q)]. *)
Definition null_or_leq (p q : option Bound) : bool :=
  match p, q with Some p, Some q => leq p q | _, _ => true end.
Definition both_leq (p q : option Bound) : bool :=
  match p, q with Some p, Some q => leq p q | _, _ => false end.

Inductive ProveResult := PFalse | PReduced | PTrue.
#[export] Instance ProveResult_eq_dec : EqDecision ProveResult.
Proof. solve_decision. Defined.

Definition result_rank (r : ProveResult) : Z := match r with PFalse => 0 | PReduced => 1 | PTrue => 2 end.
Definition meetBest (r1 r2 : ProveResult) : ProveResult := if result_rank r1 <? result_rank r2 then r2 else r1.
Definition meetWorst (r1 r2 : ProveResult) : ProveResult := if result_rank r2 <? result_rank r1 then r2 else r1.

(** ** Memoised bounds of one operand *)

Record TrueReducedFalseChart := MkChart {
  max_false : option Bound;
  min_true : option Bound;
  min_reduced : option Bound;
}.
Definition empty_TRFChart : TrueReducedFalseChart := MkChart None None None.

Definition clearRedundantReduced (c : TrueReducedFalseChart) : TrueReducedFalseChart :=
  let r := if both_leq (min_true c) (min_reduced c) && negb (eq (min_true c) (min_reduced c)) then None else min_reduced c in
  let r := if both_leq r (max_false c) && negb (eq r (max_false c)) then None else r in
  MkChart (max_false c) (min_true c) r.

Definition addFalse (c : TrueReducedFalseChart) (f_bound : Bound) : option TrueReducedFalseChart :=
  let f := if null_or_leq (max_false c) (Some f_bound) then Some f_bound else max_false c in
  let r := if eq f (min_reduced c) then create_inc1 <$> min_reduced c else min_reduced c in
  let t := if eq f (min_true c) then create_inc1 <$> min_true c else min_true c in
  let r := if eq r t then None else r in
  let c := clearRedundantReduced (MkChart f t r) in
  if null_or_leq (max_false c) (min_true c) && null_or_leq (max_false c) (min_reduced c) then Some c else None.

Definition addReduced (c : TrueReducedFalseChart) (r_bound : Bound) : option TrueReducedFalseChart :=
  let r := if null_or_leq (Some r_bound) (min_reduced c) then Some r_bound else min_reduced c in
  let t := if eq r (min_true c) then create_inc1 <$> min_true c else min_true c in
  let f := if eq r (max_false c) then create_dec1 <$> max_false c else max_false c in
  if null_or_leq r t && null_or_leq f r then Some (MkChart f t r) else None.

Definition addTrue (c : TrueReducedFalseChart) (t_bound : Bound) : option TrueReducedFalseChart :=
  let t := if null_or_leq (Some t_bound) (min_true c) then Some t_bound else min_true c in
  let r := if eq t (min_reduced c) then create_dec1 <$> min_reduced c else min_reduced c in
  let f := if eq t (max_false c) then create_dec1 <$> max_false c else max_false c in
  let r := if eq f r then None else r in
  let c := clearRedundantReduced (MkChart f t r) in
  if null_or_leq (min_reduced c) (min_true c) && null_or_leq (max_false c) (min_reduced c) then Some c else None.

Definition hasBoundResult (c : TrueReducedFalseChart) (b : Bound) : option bool :=
  if eq (min_true c) (max_false c) || eq (min_true c) (min_reduced c) || eq (max_false c) (min_reduced c) then None
  else Some (leq_some b (max_false c) || some_leq (min_reduced c) b || some_leq (min_true c) b).

Definition getBoundResult (c : TrueReducedFalseChart) (b : Bound) : option ProveResult :=
  h ← hasBoundResult c b;
  if negb h then None
  else if leq_some b (max_false c) then Some PFalse
  else if some_leq (min_true c) b then Some PTrue
  else if some_leq (min_reduced c) b then Some PReduced
  else None.

(** ** The search *)

(** [MemoizedDistances] and [ActiveOpnds]. *)
Record solver := MkSolver { mem_distance : gmap Z TrueReducedFalseChart; active : gmap Z Bound }.

Definition chart (s : solver) (id : Z) : TrueReducedFalseChart := default empty_TRFChart (mem_distance s !! id).
Definition initOpnd (s : solver) (id : Z) : solver :=
  match mem_distance s !! id with
  | None => MkSolver (<[id := empty_TRFChart]> (mem_distance s)) (active s)
  | Some _ => s
  end.
Definition updateLeqBound (s : solver) (dest : Z) (b : Bound) (res : ProveResult) : option solver :=
  let s := initOpnd s dest in
  c ← (match res with
       | PFalse => addFalse (chart s dest) b
       | PTrue => addTrue (chart s dest) b
       | PReduced => addReduced (chart s dest) b
       end);
  Some (MkSolver (<[dest := c]> (mem_distance s)) (active s)).
Definition hasLeqBoundResult (s : solver) (dest : Z) (b : Bound) : option bool :=
  match mem_distance s !! dest with None => Some false | Some c => hasBoundResult c b end.
Definition getLeqBoundResult (s : solver) (dest : Z) (b : Bound) : option ProveResult :=
  h ← hasLeqBoundResult s dest b; if negb h then None else c ← mem_distance s !! dest; getBoundResult c b.
Definition setBound (s : solver) (dest : Z) (b : Bound) : solver := MkSolver (mem_distance s) (<[dest := b]> (active s)).
Definition clearOpnd (s : solver) (dest : Z) : solver := MkSolver (mem_distance s) (delete dest (active s)).

Section search.
Context (g : InequalityGraph) (source : IOpnd).

(** The loop of [updateMemDistanceWithPredecessors] after the first edge: [prove] is
    the search, [best] tells [meetBest] from [meetWorst]. *)
Fixpoint preds (prove : Z -> Bound -> solver -> option (ProveResult * solver)) (best : bool) (b : Bound)
    (es : list IneqEdge) (res : ProveResult) (s : solver) : option (ProveResult * solver) :=
  match es with
  | [] => Some (res, s)
  | e :: es =>
      if (negb (bool_decide (res = PFalse)) && best) || (bool_decide (res = PFalse) && negb best) then Some (res, s)
      else
        r ← prove (edge_src e) (create_dec_const b (edge_length e)) s;
        preds prove best b es ((if best then meetBest else meetWorst) res r.1) r.2
  end.

Definition updateMemDistanceWithPredecessors (prove : Z -> Bound -> solver -> option (ProveResult * solver))
    (dest : Z) (b : Bound) (best : bool) (s : solver) : option solver :=
  match inEdges g dest with
  | [] => None
  | e :: es =>
      h ← hasLeqBoundResult s dest b;
      if (h : bool) || negb (edge_dst e =? dest) then None
      else
        r ← prove (edge_src e) (create_dec_const b (edge_length e)) s;
        r ← preds prove best b es r.1 r.2;
        updateLeqBound r.2 dest b r.1
  end.

Fixpoint prove (fuel : nat) (dest : Z) (b : Bound) (s : solver) : option (ProveResult * solver) :=
  match fuel with
  | O => None
  | S fuel =>
      d ← findOpnd g dest;
      let s := initOpnd s dest in
      if some_leq (min_true (chart s dest)) b then Some (PTrue, s)
      else if leq_some b (max_false (chart s dest)) then Some (PFalse, s)
      else if some_leq (min_reduced (chart s dest)) b then Some (PReduced, s)
      else if (dest =? opnd_id source) && int32_leq 0 b then Some (PTrue, s)
      else
        match constant_value d, constant_value source with
        | Some dv, Some sv => Some (if const_distance_leq sv dv b then PTrue else PFalse, s)
        | _, _ =>
            match inEdges g dest with
            | [] => Some (PFalse, s)
            | _ :: _ =>
                match active s !! dest with
                | Some a => Some (if leq a b then PReduced else PFalse, s)
                | None =>
                    s ← updateMemDistanceWithPredecessors (prove fuel) dest b (negb (is_phi d)) (setBound s dest b);
                    let s := clearOpnd s dest in
                    res ← getLeqBoundResult s dest b;
                    Some (res, s)
                end
            end
        end
  end.

(** What is memoised when the search ends is kept for the theorems. *)
Definition demandProve_run (fuel : nat) (dest bound_int : Z) (prove_upper_bound : bool) : option (ProveResult * solver) :=
  prove fuel dest (MkBound bound_int prove_upper_bound) (MkSolver ∅ ∅).
Definition demandProve (fuel : nat) (dest bound_int : Z) (prove_upper_bound : bool) : option bool :=
  r ← demandProve_run fuel dest bound_int prove_upper_bound; Some (negb (bool_decide (r.1 = PFalse))).
End search.
