(* ===== verification/AbcdOk.v ===== *)
(** * The ABCD solver is sound where it can be

    The search ends, never fails an assertion, and what it proves holds in every
    execution that obeys the constraints of the graph: a result [True] always, a
    result [Reduced], which rests on cycles, when nothing was memoised as false in
    between.  Without that condition it can prove what does not hold, since a result
    that rests on a cycle is kept when the cycle's head turns out false.

    An execution is a set of moments, ordered by a well-founded relation, at which an
    operand gets a value: an operand that is not a phi is within the distance of every
    edge into it from some earlier value of the edge's source, a phi is so for one
    edge.  The arithmetic of bounds is that of the machine, so the theorems ask that
    the distances along a path without a repeated operand fit. *)
From stdpp Require Import gmap.
From S2P Require Import Prelude Abcd.

(** ** Bounds of one direction are ordered *)

Section bounds.
Context (up : bool).

(** Larger keys are weaker bounds. *)
Definition key (b : Bound) : Z := if up then bound_value b else - bound_value b.

Lemma leq_key b1 b2 : isUpper b2 = up -> leq b1 b2 = (key b1 <=? key b2).
Proof.
  intros Hb. unfold leq, int32_leq, key. rewrite Hb. destruct up; [done|]. rewrite Z.geb_leb.
  destruct (Z.leb_spec (bound_value b2) (bound_value b1)), (Z.leb_spec (- bound_value b1) (- bound_value b2)); lia.
Qed.

Definition all_up (o : option Bound) : Prop := forall b, o = Some b -> isUpper b = up.

(** The false bounds lie below the reduced ones, those below the true ones. *)
Record chart_ok (c : TrueReducedFalseChart) : Prop := {
  up_f : all_up (max_false c);
  up_r : all_up (min_reduced c);
  up_t : all_up (min_true c);
  f_lt_r : forall f r, max_false c = Some f -> min_reduced c = Some r -> key f < key r;
  f_lt_t : forall f t, max_false c = Some f -> min_true c = Some t -> key f < key t;
  r_lt_t : forall r t, min_reduced c = Some r -> min_true c = Some t -> key r < key t;
}.

(** A bound about which the chart knows nothing. *)
Definition fresh_for (c : TrueReducedFalseChart) (b : Bound) : Prop :=
  (forall f, max_false c = Some f -> key f < key b) /\ (forall r, min_reduced c = Some r -> key b < key r) /\
  (forall t, min_true c = Some t -> key b < key t).

Lemma eq_key b1 b2 : isUpper b1 = up -> isUpper b2 = up -> eq (Some b1) (Some b2) = (key b1 =? key b2).
Proof.
  intros H1 H2. unfold eq. rewrite !leq_key by done.
  destruct (Z.leb_spec (key b1) (key b2)), (Z.leb_spec (key b2) (key b1)), (Z.eqb_spec (key b1) (key b2)); lia.
Qed.

(** Comparisons are decided by the keys. *)
Ltac keys :=
  repeat match goal with
  | |- context [leq ?a ?b] => rewrite (leq_key a b) by done
  end;
  repeat match goal with
  | |- context [?a <=? ?b] => destruct (Z.leb_spec a b); try lia
  end.

Lemma chart_new_false c b : chart_ok c -> isUpper b = up -> fresh_for c b ->
  addFalse c b = Some (MkChart (Some b) (min_true c) (min_reduced c)).
Proof.
  intros [Uf Ur Ut Hfr Hft Hrt] Hb (Hf & Hr & Ht). destruct c as [f t r]. unfold addFalse. cbn in *.
  destruct f as [f|]; [pose proof (Uf _ eq_refl); specialize (Hf _ eq_refl)|];
  destruct r as [r|]; try (pose proof (Ur _ eq_refl); specialize (Hr _ eq_refl));
  destruct t as [t|]; try (pose proof (Ut _ eq_refl); specialize (Ht _ eq_refl)); try specialize (Hrt _ _ eq_refl eq_refl);
  cbn; unfold clearRedundantReduced; repeat (progress (cbn; keys)); done.
Qed.

Lemma chart_new_reduced c b : chart_ok c -> isUpper b = up -> fresh_for c b ->
  addReduced c b = Some (MkChart (max_false c) (min_true c) (Some b)).
Proof.
  intros [Uf Ur Ut Hfr Hft Hrt] Hb (Hf & Hr & Ht). destruct c as [f t r]. unfold addReduced. cbn in *.
  destruct f as [f|]; [pose proof (Uf _ eq_refl); specialize (Hf _ eq_refl)|];
  destruct r as [r|]; try (pose proof (Ur _ eq_refl); specialize (Hr _ eq_refl));
  destruct t as [t|]; try (pose proof (Ut _ eq_refl); specialize (Ht _ eq_refl));
  repeat (progress (cbn; keys)); done.
Qed.

Lemma chart_new_true c b : chart_ok c -> isUpper b = up -> fresh_for c b ->
  addTrue c b = Some (MkChart (max_false c) (Some b) None).
Proof.
  intros [Uf Ur Ut Hfr Hft Hrt] Hb (Hf & Hr & Ht). destruct c as [f t r]. unfold addTrue. cbn in *.
  destruct f as [f|]; [pose proof (Uf _ eq_refl); specialize (Hf _ eq_refl)|];
  destruct r as [r|]; try (pose proof (Ur _ eq_refl); specialize (Hr _ eq_refl));
  destruct t as [t|]; try (pose proof (Ut _ eq_refl); specialize (Ht _ eq_refl)); try specialize (Hfr _ _ eq_refl eq_refl);
  cbn; unfold clearRedundantReduced; repeat (progress (cbn; keys)); done.
Qed.

(** The chart with one result more. *)
Definition new_chart (c : TrueReducedFalseChart) (b : Bound) (res : ProveResult) : TrueReducedFalseChart :=
  match res with
  | PFalse => MkChart (Some b) (min_true c) (min_reduced c)
  | PReduced => MkChart (max_false c) (min_true c) (Some b)
  | PTrue => MkChart (max_false c) (Some b) None
  end.

Lemma new_chart_ok c b res : chart_ok c -> isUpper b = up -> fresh_for c b -> chart_ok (new_chart c b res).
Proof.
  intros [Uf Ur Ut Hfr Hft Hrt] Hb (Hf & Hr & Ht).
  destruct res; split; cbn; unfold all_up in *; intros; simplify_eq; eauto.
Qed.

Lemma update_new_chart c b res : chart_ok c -> isUpper b = up -> fresh_for c b ->
  match res with PFalse => addFalse c b | PTrue => addTrue c b | PReduced => addReduced c b end = Some (new_chart c b res).
Proof. intros. destruct res; [by apply chart_new_false|by apply chart_new_reduced|by apply chart_new_true]. Qed.

(** The three tests of a chart. *)
Lemma chart_tests c b : chart_ok c -> isUpper b = up ->
  hasBoundResult c b = Some (leq_some b (max_false c) || some_leq (min_reduced c) b || some_leq (min_true c) b) /\
  (leq_some b (max_false c) = false -> some_leq (min_reduced c) b = false -> some_leq (min_true c) b = false -> fresh_for c b).
Proof.
  intros [Uf Ur Ut Hfr Hft Hrt] Hb. destruct c as [f t r]. cbn [max_false min_true min_reduced] in *. split.
  - unfold hasBoundResult. cbn.
    assert (eq t f = false /\ eq t r = false /\ eq f r = false) as (-> & -> & ->); [|done].
    split_and!; destruct f as [f|], t as [t|], r as [r|]; try done;
      rewrite eq_key by auto; apply Z.eqb_neq;
      try specialize (Hfr _ _ eq_refl eq_refl); try specialize (Hft _ _ eq_refl eq_refl); try specialize (Hrt _ _ eq_refl eq_refl); lia.
  - intros H1 H2 H3. split_and!; intros x Hx; cbn [max_false min_true min_reduced] in Hx; subst; cbn [leq_some some_leq from_option] in *.
    + rewrite leq_key in H1 by auto. by apply Z.leb_gt.
    + rewrite leq_key in H2 by auto. by apply Z.leb_gt.
    + rewrite leq_key in H3 by auto. by apply Z.leb_gt.
Qed.

(** The result that was just recorded is the one that is read. *)
Lemma get_new_chart c b res : chart_ok c -> isUpper b = up -> fresh_for c b -> getBoundResult (new_chart c b res) b = Some res.
Proof.
  intros Hok Hb Hfresh. destruct (chart_tests _ b (new_chart_ok c b res Hok Hb Hfresh) Hb) as [Hh _].
  unfold getBoundResult. rewrite Hh. destruct Hok as [Uf Ur Ut Hfr Hft Hrt], Hfresh as (Hf & Hr & Ht).
  destruct c as [f t r]. cbn in *.
  destruct f as [f|]; [pose proof (Uf _ eq_refl); specialize (Hf _ eq_refl)|];
  destruct r as [r|]; try (pose proof (Ur _ eq_refl); specialize (Hr _ eq_refl));
  destruct t as [t|]; try (pose proof (Ut _ eq_refl); specialize (Ht _ eq_refl));
  destruct res; cbn; repeat (progress (cbn; keys)); done.
Qed.
End bounds.

(** ** What the search establishes *)

Section search.
Context (g : InequalityGraph) (source : IOpnd) (up : bool) (B L : Z).

Record graph_ok : Prop := {
  go_dst : forall id e, e ∈ inEdges g id -> edge_dst e = id;
  go_src : forall id e, e ∈ inEdges g id -> is_Some (findOpnd g (edge_src e));
  go_length : forall id e, e ∈ inEdges g id -> Z.abs (edge_length e) <= L;
}.
Definition opnd_count : Z := Z.of_nat (base.size (id_to_opnd_map g)).

(** The bound to prove for the source of an edge. *)
Definition before_edge (b : Bound) (e : IneqEdge) : Bound := MkBound (bound_value b - edge_length e) up.

(** The two facts that need no edge. *)
Definition leaf (v : Z) (b : Bound) : Prop := isUpper b = up /\
  ((v = opnd_id source /\ int32_leq 0 b = true) \/
   (exists d dv sv, findOpnd g v = Some d /\ constant_value d = Some dv /\ constant_value source = Some sv /\ const_distance_leq sv dv b = true)).

(** The proof system of the constraints: an operand is bounded through one of its
    edges, a phi through all of them. *)
Inductive derivable : Z -> Bound -> Prop :=
  | derive_leaf v b : leaf v b -> derivable v b
  | derive_weaken v b b' : derivable v b -> isUpper b' = up -> key up b <= key up b' -> derivable v b'
  | derive_edge v b d e : findOpnd g v = Some d -> is_phi d = false -> e ∈ inEdges g v ->
      derivable (edge_src e) (before_edge b e) -> derivable v b
  | derive_phi v b d : findOpnd g v = Some d -> is_phi d = true -> inEdges g v <> [] ->
      (forall e, e ∈ inEdges g v -> derivable (edge_src e) (before_edge b e)) -> derivable v b.

(** A bound the state vouches for: memoised, under way, or a fact. *)
Definition recorded (c : TrueReducedFalseChart) (b : Bound) : Prop := min_reduced c = Some b \/ min_true c = Some b.
Definition good (s : solver) (v : Z) (b : Bound) : Prop :=
  (exists b', (recorded (chart s v) b' \/ active s !! v = Some b') /\ key up b' <= key up b) \/ leaf v b.
Definition supported (s : solver) (v : Z) (b : Bound) : Prop :=
  exists d, findOpnd g v = Some d /\ inEdges g v <> [] /\
    if is_phi d then forall e, e ∈ inEdges g v -> good s (edge_src e) (before_edge b e)
    else exists e, e ∈ inEdges g v /\ good s (edge_src e) (before_edge b e).

Definition no_false (s : solver) : Prop := forall v, max_false (chart s v) = None.
Definition closed (s : solver) : Prop := forall v b, min_reduced (chart s v) = Some b -> supported s v b.

Record state_ok (s : solver) : Prop := {
  so_chart : forall v, chart_ok up (chart s v);
  so_active : forall v a, active s !! v = Some a -> isUpper a = up /\ is_Some (findOpnd g v);
  so_true : forall v t, min_true (chart s v) = Some t -> derivable v t;
}.

(** A chart that knows at least as much. *)
Definition chart_le (c c' : TrueReducedFalseChart) : Prop :=
  (forall b, recorded c b -> exists b', recorded c' b' /\ key up b' <= key up b) /\ (max_false c' = None -> max_false c = None).

#[global] Instance chart_le_refl : Reflexive chart_le.
Proof. intros c. split; [|done]. intros b Hb. by exists b. Qed.
#[global] Instance chart_le_trans : Transitive chart_le.
Proof.
  intros c1 c2 c3 [H1 F1] [H2 F2]. split; [|auto]. intros b Hb. destruct (H1 b Hb) as (b' & Hb' & ?).
  destruct (H2 b' Hb') as (b'' & Hb'' & ?). exists b''. split; [done|lia].
Qed.

Record extends (s s' : solver) : Prop := {
  ex_ok : state_ok s';
  ex_active : active s' = active s;
  ex_kept : forall v, is_Some (active s !! v) -> chart s' v = chart s v;
  ex_le : forall v, chart_le (chart s v) (chart s' v);
}.

Lemma state_extends_refl s : state_ok s -> extends s s.
Proof. intros. by split. Qed.
Lemma state_extends_trans s1 s2 s3 : extends s1 s2 -> extends s2 s3 -> extends s1 s3.
Proof.
  intros [O1 A1 K1 L1] [O2 A2 K2 L2]. split; [done|congruence| |].
  - intros v Hv. rewrite K2, K1 by (by rewrite ?A1). done.
  - intros v. by transitivity (chart s2 v).
Qed.
Lemma extends_no_false s s' : extends s s' -> no_false s' -> no_false s.
Proof. intros H Hn v. apply (ex_le _ _ H v), Hn. Qed.
Lemma extends_good s s' v b : extends s s' -> good s v b -> good s' v b.
Proof.
  intros H [(b' & [Hr|Ha] & Hk)|Hl]; [| |by right]; left.
  - destruct (proj1 (ex_le _ _ H v) b' Hr) as (b'' & Hr' & ?). exists b''. split; [by left|lia].
  - exists b'. rewrite (ex_active _ _ H). by split; [right|].
Qed.

(** Operands that are not phis have one edge: there a false result is false all the
    way up. *)
Definition single_edges : Prop := forall id d, findOpnd g id = Some d -> is_phi d = false -> (length (inEdges g id) <= 1)%nat.

(** What a call of [prove] promises. *)
Definition proved (dest : Z) (b : Bound) (s : solver) (o : option (ProveResult * solver)) : Prop :=
  exists r s', o = Some (r, s') /\ extends s s' /\ (r = PTrue -> derivable dest b) /\
    (no_false s' -> (closed s -> closed s') /\ (r <> PFalse -> good s' dest b)) /\
    (single_edges -> r <> PFalse -> no_false s -> no_false s').

(** What is known after some of the edges. *)
Definition summary (best : bool) (b : Bound) (es : list IneqEdge) (res : ProveResult) (s : solver) : Prop :=
  (res = PTrue -> if best then Exists (fun e => derivable (edge_src e) (before_edge b e)) es
                  else Forall (fun e => derivable (edge_src e) (before_edge b e)) es) /\
  (no_false s -> res <> PFalse -> if best then Exists (fun e => good s (edge_src e) (before_edge b e)) es
                  else Forall (fun e => good s (edge_src e) (before_edge b e)) es).

Lemma summary_app best b es es' res s : summary best b es res s -> (best = false -> res = PFalse) -> summary best b (es ++ es') res s.
Proof.
  intros [H1 H2] Hb. destruct best.
  - split; intros; apply Exists_app; left; auto.
  - rewrite Hb by done. by split.
Qed.

Lemma meet_best r1 r2 : r1 = PFalse -> meetBest r1 r2 = r2.
Proof. intros ->. by destruct r2. Qed.
Lemma meet_worst r1 r2 : (meetWorst r1 r2 = PTrue -> r1 = PTrue /\ r2 = PTrue) /\ (meetWorst r1 r2 <> PFalse -> r1 <> PFalse /\ r2 <> PFalse).
Proof. by destruct r1, r2. Qed.

Lemma preds_spec prv best b a ds es res s :
  (forall e s, e ∈ es -> state_ok s -> active s = a ->
     proved (edge_src e) (before_edge b e) s (prv (edge_src e) (create_dec_const b (edge_length e)) s)) ->
  state_ok s -> active s = a -> summary best b ds res s ->
  exists r s', preds prv best b es res s = Some (r, s') /\ extends s s' /\ summary best b (ds ++ es) r s' /\
    (no_false s' -> closed s -> closed s') /\
    (single_edges -> (best = true -> es = []) -> r <> PFalse -> (res <> PFalse -> no_false s) -> no_false s').
Proof.
  revert ds res s. induction es as [|e es IH]; intros ds res s Hprv Hok Ha Hsum.
  { exists res, s. rewrite app_nil_r. split; [done|]. split; [by apply state_extends_refl|]. split; [done|]. split; [done|]. intros _ _ Hr Hn. by apply Hn. }
  cbn [preds]. destruct (_ || _) eqn:Hstop.
  - exists res, s. split; [done|]. split; [by apply state_extends_refl|].
    split; [|split; [done|intros _ _ Hr Hn; by apply Hn]]. apply summary_app; [done|].
    intros ->. destruct (decide (res = PFalse)) as [->|]; [done|]. exfalso. revert Hstop.
    rewrite andb_false_r. rewrite bool_decide_false by done. done.
  - destruct (Hprv e s ltac:(left) Hok Ha) as (r & s1 & Heq & Hext & Htrue & Hred & Hkeep). rewrite Heq. cbn [mbind option_bind fst snd].
    pose proof (ex_ok _ _ Hext) as Hok1.
    destruct (IH (ds ++ [e]) ((if best then meetBest else meetWorst) res r) s1) as (r' & s' & Heq' & Hext' & Hsum' & Hcl & Hkeep').
    + intros e' s0 He'. apply Hprv. by right.
    + done.
    + by rewrite (ex_active _ _ Hext).
    + destruct Hsum as [Ht Hg]. destruct best.
      * assert (res = PFalse) as ->.
        { destruct (decide (res = PFalse)); [done|]. exfalso. revert Hstop. by rewrite bool_decide_false. }
        rewrite meet_best by done. split.
        -- intros ->. apply Exists_app. right. left. by apply Htrue.
        -- intros Hn Hr. apply Exists_app. right. left. by apply Hred.
      * destruct (meet_worst res r) as [Hw1 Hw2]. split.
        -- intros Hm. destruct (Hw1 Hm) as [-> ->]. apply Forall_app. split; [by apply Ht|]. constructor; [by apply Htrue|done].
        -- intros Hn Hm. destruct (Hw2 Hm) as [Hr1 Hr2]. apply Forall_app. split.
           ++ eapply Forall_impl; [|apply Hg; [by eapply extends_no_false|done]]. intros x. by apply extends_good.
           ++ constructor; [by apply Hred|done].
    + exists r', s'. rewrite Heq'. split; [done|]. split; [by eapply state_extends_trans|].
      rewrite <- app_assoc in Hsum'. split; [done|]. split.
      * intros Hn Hc. apply Hcl; [done|]. apply Hred; [|done]. by eapply extends_no_false.
      * intros Hs Hb Hr Hn. destruct best; [by specialize (Hb eq_refl)|]. apply Hkeep'; [done..|]. intros Hm.
        destruct (meet_worst res r) as [_ Hw]. apply Hkeep; [done|by apply Hw|]. by apply Hn, Hw.
Qed.

(** Recording a new result. *)
Lemma update_spec s dest b r : state_ok s -> isUpper b = up -> fresh_for up (chart s dest) b -> (r = PTrue -> derivable dest b) ->
  exists s', updateLeqBound s dest b r = Some s' /\ active s' = active s /\ state_ok s' /\
    (forall v, chart s' v = if decide (v = dest) then new_chart (chart s dest) b r else chart s v).
Proof.
  intros Hok Hb Hfresh Hder. unfold updateLeqBound.
  assert (Hinit : forall v, chart (initOpnd s dest) v = chart s v).
  { intros v. unfold initOpnd, chart. destruct (mem_distance s !! dest) eqn:E; [done|]. cbn. destruct (decide (v = dest)) as [->|].
    - by rewrite lookup_insert_eq, E.
    - by rewrite lookup_insert_ne. }
  assert (Hact : active (initOpnd s dest) = active s) by (unfold initOpnd; by destruct (mem_distance s !! dest)).
  rewrite Hinit, (update_new_chart up _ b r) by (done || apply Hok). cbn [mbind option_bind]. eexists. split; [done|].
  assert (Hchart : forall v, chart (MkSolver (<[dest := new_chart (chart s dest) b r]> (mem_distance (initOpnd s dest))) (active (initOpnd s dest))) v
    = if decide (v = dest) then new_chart (chart s dest) b r else chart s v).
  { intros v. rewrite <- (Hinit v). unfold chart at 1. cbn. case_decide as E; [subst v; by rewrite lookup_insert_eq|].
    rewrite lookup_insert_ne by done. done. }
  split; [done|]. split; [|done]. split.
  - intros v. rewrite Hchart. case_decide; [by apply new_chart_ok; [apply Hok|..]|apply Hok].
  - cbn. rewrite Hact. apply (so_active _ Hok).
  - intros v t. rewrite Hchart. case_decide as E; [subst v|apply (so_true _ Hok)].
    destruct r; cbn; try apply (so_true _ Hok). intros [= <-]. by apply Hder.
Qed.

Lemma new_chart_le c b r : fresh_for up c b -> chart_le c (new_chart c b r).
Proof.
  intros (Hf & Hr & Ht). split; [|by destruct r].
  intros x [Hx|Hx]; destruct r; cbn; unfold recorded; cbn; rewrite ?Hx; eauto with lia.
  - exists b. split; [by left|]. specialize (Hr _ Hx). lia.
  - exists b. split; [by right|]. specialize (Hr _ Hx). lia.
  - exists b. split; [by right|]. specialize (Ht _ Hx). lia.
Qed.

Lemma chart_get s v : chart s v <> empty_TRFChart -> mem_distance s !! v = Some (chart s v).
Proof. unfold chart. by destruct (mem_distance s !! v). Qed.

Lemma getLeq_spec s dest b r c : chart_ok up c -> isUpper b = up -> fresh_for up c b -> chart s dest = new_chart c b r ->
  getLeqBoundResult s dest b = Some r.
Proof.
  intros Hc Hb Hf Hs. pose proof (get_new_chart up c b r Hc Hb Hf) as Hg. unfold getLeqBoundResult, hasLeqBoundResult.
  assert (mem_distance s !! dest = Some (new_chart c b r)) as ->.
  { rewrite <- Hs. apply chart_get. rewrite Hs. by destruct r. }
  assert (hasBoundResult (new_chart c b r) b = Some true) as ->; [|exact Hg].
  revert Hg. unfold getBoundResult. by destruct (hasBoundResult (new_chart c b r) b) as [[|]|].
Qed.

Lemma initOpnd_extends s v : state_ok s -> extends s (initOpnd s v) /\ forall u, chart (initOpnd s v) u = chart s u.
Proof.
  intros Hok. assert (Hch : forall u, chart (initOpnd s v) u = chart s u).
  { intros u. unfold initOpnd, chart. destruct (mem_distance s !! v) eqn:E; [done|]. cbn. destruct (decide (u = v)) as [->|].
    - by rewrite lookup_insert_eq, E.
    - by rewrite lookup_insert_ne. }
  assert (Ha : active (initOpnd s v) = active s) by (unfold initOpnd; by destruct (mem_distance s !! v)).
  split; [|done]. split; [|done|intros; apply Hch|intros u; by rewrite Hch]. split.
  - intros u. rewrite Hch. apply Hok.
  - rewrite Ha. apply Hok.
  - intros u t. rewrite Hch. apply Hok.
Qed.

Lemma fresh_has c b : chart_ok up c -> isUpper b = up -> fresh_for up c b -> hasBoundResult c b = Some false.
Proof.
  intros Hc Hb (Hf & Hr & Ht). destruct (chart_tests up c b Hc Hb) as [-> _]. destruct Hc as [Uf Ur Ut _ _ _].
  destruct (max_false c) as [f|], (min_reduced c) as [r|], (min_true c) as [t|]; cbn [leq_some some_leq from_option];
    rewrite ?(leq_key up) by auto; f_equal;
    try specialize (Hf _ eq_refl); try specialize (Hr _ eq_refl); try specialize (Ht _ eq_refl);
    repeat match goal with |- context [?a <=? ?b] => destruct (Z.leb_spec a b); try lia end; done.
Qed.

Lemma supported_mono s s' v b : (forall v b, good s v b -> good s' v b) -> supported s v b -> supported s' v b.
Proof.
  intros Hm (d & Hd & Hne & H). exists d. split; [done|]. split; [done|]. destruct (is_phi d).
  - intros e He. by apply Hm, H.
  - destruct H as (e & He & H). exists e. split; [done|]. by apply Hm.
Qed.

(** Leaving an operand whose result has been recorded. *)
Section leave.
Context (s0 s2 s3 : solver) (dest : Z) (b : Bound) (r : ProveResult).
Context (Hb : isUpper b = up) (Hfresh : fresh_for up (chart s2 dest) b) (Ha : active s3 = active s2) (Hact : active s2 !! dest = Some b).
Context (Hchart : forall v, chart s3 v = if decide (v = dest) then new_chart (chart s2 dest) b r else chart s2 v).
Abbreviation s4 := (clearOpnd s3 dest).

Lemma leave_le v : chart_le (chart s2 v) (chart s4 v).
Proof. change (chart s4 v) with (chart s3 v). rewrite Hchart. case_decide as E; [subst v; by apply new_chart_le|done]. Qed.

Lemma leave_recorded : r <> PFalse -> recorded (chart s4 dest) b.
Proof. change (chart s4 dest) with (chart s3 dest). rewrite Hchart, decide_True by done. intros Hr. destruct r; [done|by left|by right]. Qed.

Lemma leave_good v x : r <> PFalse -> good s2 v x -> good s4 v x.
Proof.
  intros Hr [(b' & [Hrec|Hac] & Hk)|Hl]; [| |by right]; left.
  - destruct (proj1 (leave_le v) b' Hrec) as (b'' & ? & ?). exists b''. split; [by left|lia].
  - destruct (decide (v = dest)) as [->|Hv].
    + rewrite Hact in Hac. injection Hac as <-. exists b. split; [left; by apply leave_recorded|done].
    + exists b'. split; [|done]. right. cbn. by rewrite lookup_delete_ne, Ha.
Qed.

Lemma leave_no_false : no_false s4 -> r <> PFalse /\ no_false s2.
Proof.
  intros Hn. split.
  - intros ->. specialize (Hn dest). change (chart s4 dest) with (chart s3 dest) in Hn. by rewrite Hchart, decide_True in Hn.
  - intros v. apply (leave_le v), Hn.
Qed.

Lemma leave_closed : r <> PFalse -> supported s2 dest b -> closed s2 -> closed s4.
Proof.
  intros Hr Hs Hc v b' Hv. apply (supported_mono s2); [intros; by apply leave_good|].
  change (chart s4 v) with (chart s3 v) in Hv. rewrite Hchart in Hv. case_decide as E; [subst v|by apply Hc].
  destruct r; [done| |done]. by injection Hv as <-.
Qed.
End leave.

Context (Hg : graph_ok) (HL : 0 <= L) (HB : 0 <= B) (Hrange : B + opnd_count * L < 2 ^ 31).

Lemma active_size s : state_ok s -> Z.of_nat (base.size (active s)) <= opnd_count.
Proof.
  intros Hok. unfold opnd_count. assert (dom (active s) ⊆ dom (id_to_opnd_map g)) as Hsub.
  { intros v [a Ha]%elem_of_dom. apply elem_of_dom. apply (so_active _ Hok v a Ha). }
  apply subseteq_size in Hsub. rewrite !size_dom in Hsub. lia.
Qed.

Lemma setBound_size s v b : active s !! v = None ->
  base.size (active (setBound s v b)) = S (base.size (active s)).
Proof. intros Hn. cbn. by rewrite map_size_insert, Hn. Qed.

(** The bound stays in range: [n] edges have been passed. *)
Definition in_range (b : Bound) (n : nat) : Prop := Z.abs (bound_value b) <= B + Z.of_nat n * L.

Lemma dec_const_before dest b e n : e ∈ inEdges g dest -> isUpper b = up -> in_range b n -> Z.of_nat n + 1 <= opnd_count ->
  create_dec_const b (edge_length e) = before_edge b e /\ in_range (before_edge b e) (S n).
Proof.
  intros He Hb Hr Hn. pose proof (go_length Hg dest e He). unfold create_dec_const, before_edge, in_range in *. cbn.
  rewrite Hb. assert (Z.of_nat (S n) * L = Z.of_nat n * L + L) as -> by lia.
  assert (Z.of_nat n * L + L <= opnd_count * L) by nia. split; [|lia]. f_equal. apply sx_id; [lia|].
  change (2 ^ 31) with 2147483648 in *. unfold is_s. change (2 ^ (32 - 1)) with 2147483648. lia.
Qed.

Definition prove_ok (fuel : nat) : Prop := forall dest b s, state_ok s -> is_Some (findOpnd g dest) -> isUpper b = up ->
  in_range b (base.size (active s)) -> opnd_count < Z.of_nat fuel + Z.of_nat (base.size (active s)) ->
  proved dest b s (prove g source fuel dest b s).

(** The part of [prove] for an operand that is not active. *)
Lemma update_pred_spec fuel dest b s d : prove_ok fuel -> state_ok s -> findOpnd g dest = Some d -> isUpper b = up ->
  in_range b (base.size (active s)) -> opnd_count < Z.of_nat (S fuel) + Z.of_nat (base.size (active s)) ->
  inEdges g dest <> [] -> active s !! dest = None -> fresh_for up (chart s dest) b ->
  proved dest b s
    (s1 ← updateMemDistanceWithPredecessors g (prove g source fuel) dest b (negb (is_phi d)) (setBound s dest b);
     res ← getLeqBoundResult (clearOpnd s1 dest) dest b; Some (res, clearOpnd s1 dest)).
Proof.
  intros IH Hok Hd Hb Hrb Hfuel Hne Hna Hfresh.
  set (s0 := setBound s dest b). set (best := negb (is_phi d)).
  assert (Hok0 : state_ok s0).
  { split; [apply (so_chart _ Hok)| |apply (so_true _ Hok)]. intros v a. cbn. intros Ha.
    destruct (decide (v = dest)) as [->|Hv]; [rewrite lookup_insert_eq in Ha; injection Ha as <-; by split; [|exists d]|].
    rewrite lookup_insert_ne in Ha by done. by apply (so_active _ Hok). }
  pose proof (active_size s0 Hok0) as Hsize. unfold s0 in Hsize. rewrite setBound_size in Hsize by done.
  assert (Hprv : forall e s', e ∈ inEdges g dest -> state_ok s' -> active s' = active s0 ->
     proved (edge_src e) (before_edge b e) s' (prove g source fuel (edge_src e) (create_dec_const b (edge_length e)) s')).
  { intros e s' He Hok' Ha'. destruct (dec_const_before dest b e _ He Hb Hrb ltac:(lia)) as [-> Hr].
    apply IH; [done|by apply (go_src Hg dest)|done|rewrite Ha'; unfold s0; by rewrite setBound_size|].
    rewrite Ha'. unfold s0. rewrite setBound_size by done. lia. }
  unfold updateMemDistanceWithPredecessors. destruct (inEdges g dest) as [|e es] eqn:Ees; [done|].
  assert (Hhas : hasLeqBoundResult s0 dest b = Some false).
  { unfold hasLeqBoundResult, s0, setBound. cbn. pose proof (fresh_has _ b (so_chart _ Hok dest) Hb Hfresh) as Hh.
    unfold chart in Hh. by destruct (mem_distance s !! dest). }
  rewrite Hhas. cbn [mbind option_bind orb negb]. rewrite (go_dst Hg dest e) by (rewrite Ees; left).
  rewrite Z.eqb_refl. cbn [negb].
  destruct (Hprv e s0 ltac:(left) Hok0 ltac:(done)) as (r1 & s1 & -> & Hext1 & Htrue1 & Hred1 & Hkeep1). cbn [mbind option_bind fst snd].
  destruct (preds_spec (prove g source fuel) best b (active s0) [e] es r1 s1) as (r & s2 & Heq & Hext2 & Hsum & Hcl2 & Hkeep2).
  { intros e' s' He'. apply Hprv. by right. }
  { apply Hext1. }
  { apply (ex_active _ _ Hext1). }
  { split; [intros Ht; specialize (Htrue1 Ht)|intros Hn Hr; pose proof (proj2 (Hred1 Hn) Hr)];
    destruct best; (constructor; [done|constructor]) || (constructor; done). }
  rewrite Heq. cbn [mbind option_bind fst snd].
  assert (Hext : extends s0 s2) by (by eapply state_extends_trans). pose proof (ex_ok _ _ Hext) as Hok2.
  assert (Hact2 : active s2 !! dest = Some b) by (rewrite (ex_active _ _ Hext); apply lookup_insert_eq).
  assert (Hkeep : chart s2 dest = chart s dest) by (apply (ex_kept _ _ Hext dest); cbn; by rewrite lookup_insert_eq).
  rewrite <- Hkeep in Hfresh. change ([e] ++ es) with (e :: es) in Hsum. rewrite <- Ees in Hsum.
  assert (Hder : r = PTrue -> derivable dest b).
  { intros Hr. apply (proj1 Hsum) in Hr. unfold best in Hr. destruct (is_phi d) eqn:Hphi; cbn [negb] in Hr.
    - apply (derive_phi _ _ d Hd Hphi); [by rewrite Ees|]. intros e' He'. by apply (proj1 (Forall_forall _ _) Hr), list_elem_of_In.
    - apply Exists_exists in Hr as (e' & He' & Hr). apply (derive_edge _ _ d e' Hd Hphi); [by apply list_elem_of_In|done]. }
  destruct (update_spec s2 dest b r Hok2 Hb Hfresh Hder) as (s3 & -> & Ha3 & Hok3 & Hchart3). cbn [mbind option_bind].
  rewrite (getLeq_spec _ dest b r (chart s2 dest)); [|apply Hok2|done|done|change (chart (clearOpnd s3 dest) dest) with (chart s3 dest); by rewrite Hchart3, decide_True].
  assert (Ha4 : active (clearOpnd s3 dest) = active s).
  { cbn. rewrite Ha3, (ex_active _ _ Hext). cbn. by rewrite delete_insert_eq, delete_id. }
  exists r, (clearOpnd s3 dest). split; [done|]. split; [|split; [done|split]].
  - split; [|done| |].
    + split; [apply (so_chart _ Hok3)| |apply (so_true _ Hok3)]. rewrite Ha4. apply (so_active _ Hok).
    + intros v Hv. change (chart (clearOpnd s3 dest) v) with (chart s3 v). rewrite Hchart3, decide_False.
      * apply (ex_kept _ _ Hext). cbn. destruct (decide (v = dest)) as [->|]; [by rewrite Hna in Hv; destruct Hv|].
        by rewrite lookup_insert_ne.
      * intros ->. rewrite Hna in Hv. by destruct Hv.
    + intros v. transitivity (chart s2 v); [apply (ex_le _ _ Hext)|]. by apply (leave_le _ _ _ b r).
  - intros Hn. destruct (leave_no_false s2 s3 dest b r Hfresh Hchart3 Hn) as [Hr Hn2]. split; [|intros _; left; exists b; split; [left|done]; by apply (leave_recorded s2 s3 dest b r)].
    intros Hc. assert (Hs : supported s2 dest b).
    { exists d. split; [done|]. split; [by rewrite Ees|]. pose proof (proj2 Hsum Hn2 Hr) as Hall. unfold best in Hall.
      destruct (is_phi d); cbn [negb] in Hall.
      - intros e' He'. by apply (proj1 (Forall_forall _ _) Hall), list_elem_of_In.
      - apply Exists_exists in Hall as (e' & He' & Hall). exists e'. split; [by apply list_elem_of_In|done]. }
    apply (leave_closed s2 s3 dest b r); try done. apply Hcl2; [done|]. apply Hred1; [by eapply extends_no_false|].
    intros v x Hx. apply (supported_mono s); [|by apply Hc]. intros u y [(b' & [Hrec|Hac] & Hk)|Hl]; [| |by right]; left; exists b'.
    + split; [by left|done].
    + split; [|done]. right. cbn. destruct (decide (u = dest)) as [->|]; [by rewrite Hna in Hac|by rewrite lookup_insert_ne].
  - intros Hs Hr Hn v. change (chart (clearOpnd s3 dest) v) with (chart s3 v). rewrite Hchart3.
    assert (no_false s2) as Hn2; [|case_decide; [|apply Hn2]; destruct r; [done|apply Hn2..]].
    apply Hkeep2; [done| |done|by intros; apply Hkeep1].
    intros Hbest. pose proof (Hs dest d Hd ltac:(unfold best in Hbest; by destruct (is_phi d))) as Hlen. rewrite Ees in Hlen.
    destruct es; [done|cbn in Hlen; lia].
Qed.

(** A call that ends at once. *)
Lemma proved_now dest b s s' r : extends s s' -> (forall v, chart s' v = chart s v) -> (r = PTrue -> derivable dest b) ->
  (r <> PFalse -> good s' dest b) -> proved dest b s (Some (r, s')).
Proof.
  intros Hext Hch Ht Hgd. exists r, s'. split; [done|]. split; [done|]. split; [done|].
  split; [|intros _ _ Hn v; rewrite Hch; apply Hn]. intros Hn. split; [|done]. intros Hc v x Hx. rewrite Hch in Hx. apply (supported_mono s); [intros; by apply (extends_good s)|by apply Hc].
Qed.

Lemma some_leq_true p b : all_up up p -> isUpper b = up -> some_leq p b = true -> exists x, p = Some x /\ key up x <= key up b.
Proof. intros Hp Hb H. destruct p as [x|]; [|done]. exists x. split; [done|]. cbn in H. rewrite (leq_key up) in H by done. by apply Z.leb_le. Qed.

Lemma prove_spec fuel : prove_ok fuel.
Proof.
  induction fuel as [|fuel IH]; intros dest b s Hok [d Hd] Hb Hrb Hfuel.
  { pose proof (active_size s Hok). lia. }
  cbn [prove]. rewrite Hd. cbn [mbind option_bind].
  destruct (initOpnd_extends s dest Hok) as [Hext Hch]. pose proof (ex_ok _ _ Hext) as Hok'. pose proof (so_chart _ Hok' dest) as Hc.
  pose proof (ex_active _ _ Hext) as Hact. set (s' := initOpnd s dest) in *.
  destruct (some_leq (min_true (chart s' dest)) b) eqn:E1.
  { apply some_leq_true in E1 as (t & Ht & Hk); [|apply Hc|done]. apply proved_now; [done..| |].
    - intros _. apply (derive_weaken _ t); [by apply (so_true _ Hok')|done|done].
    - intros _. left. exists t. split; [by left; right|done]. }
  destruct (leq_some b (max_false (chart s' dest))) eqn:E2; [by apply proved_now|].
  destruct (some_leq (min_reduced (chart s' dest)) b) eqn:E3.
  { apply some_leq_true in E3 as (t & Ht & Hk); [|apply Hc|done]. apply proved_now; [done..|].
    intros _. left. exists t. split; [by left; left|done]. }
  destruct ((dest =? opnd_id source) && int32_leq 0 b) eqn:E4.
  { apply andb_prop in E4 as [->%Z.eqb_eq E4]. assert (leaf (opnd_id source) b) as Hl by (split; [done|left; by split]).
    apply proved_now; [done..| |]; intros _; [by apply derive_leaf|by right]. }
  assert (Hrest : proved dest b s
    match inEdges g dest with
    | [] => Some (PFalse, s')
    | _ :: _ =>
        match active s' !! dest with
        | Some a => Some (if leq a b then PReduced else PFalse, s')
        | None =>
            s1 ← updateMemDistanceWithPredecessors g (prove g source fuel) dest b (negb (is_phi d)) (setBound s' dest b);
            res ← getLeqBoundResult (clearOpnd s1 dest) dest b; Some (res, clearOpnd s1 dest)
        end
    end).
  { destruct (inEdges g dest) eqn:Ees; [by apply proved_now|].
    destruct (active s' !! dest) as [a|] eqn:Ea.
    - destruct (so_active _ Hok' dest a Ea) as [Hau _]. destruct (leq a b) eqn:El; apply proved_now; try done.
      intros _. left. exists a. split; [by right|]. rewrite (leq_key up) in El by done. by apply Z.leb_le.
    - destruct (update_pred_spec fuel dest b s' d IH Hok' Hd Hb) as (r & s2 & Heq & Hext2 & Ht & Hr & Hkeep);
        [by rewrite Hact|by rewrite Hact|by rewrite Ees|done| |].
      { destruct (chart_tests up (chart s' dest) b Hc Hb) as [_ Hf]. by apply Hf. }
      rewrite Heq. exists r, s2. split; [done|]. split; [by eapply state_extends_trans|]. split; [done|].
      split; [|intros Hs Hne Hn; apply Hkeep; [done..|]; intros v; rewrite Hch; apply Hn]. intros Hn. split; [|by apply Hr].
      intros Hcl. apply Hr; [done|]. intros v x Hx. unfold s' in Hx. rewrite Hch in Hx.
      apply (supported_mono s); [intros; by apply (extends_good s)|by apply Hcl]. }
  destruct (constant_value d) as [dv|] eqn:Edv; [|exact Hrest]. destruct (constant_value source) as [sv|] eqn:Esv; [|exact Hrest].
  assert (Hl : const_distance_leq sv dv b = true -> leaf dest b) by (intros Hl; split; [done|right; by exists d, dv, sv]).
  destruct (const_distance_leq sv dv b); apply proved_now; try done; intros _; [apply derive_leaf|right]; by apply Hl.
Qed.
End search.

(** ** Executions *)

Section executions.
Context (g : InequalityGraph) (source : IOpnd) (up : bool).

(** [x] is within the distance [c] of [y]. *)
Definition within (x y c : Z) : Prop := if up then x <= y + c else y + c <= x.

Record execution (base : Z) : Type := Execution {
  moment : Type;
  earlier : moment -> moment -> Prop;
  earlier_wf : well_founded earlier;
  opnd_at : moment -> Z;
  val : moment -> Z;
  ex_source : forall i, opnd_at i = opnd_id source -> val i = base;
  ex_source_const : forall sv, constant_value source = Some sv -> base = sv;
  ex_const : forall i d v, findOpnd g (opnd_at i) = Some d -> constant_value d = Some v -> val i = v;
  ex_edge : forall i d e, findOpnd g (opnd_at i) = Some d -> is_phi d = false -> e ∈ inEdges g (opnd_at i) ->
    exists j, earlier j i /\ opnd_at j = edge_src e /\ within (val i) (val j) (edge_length e);
  ex_phi : forall i d, findOpnd g (opnd_at i) = Some d -> is_phi d = true -> inEdges g (opnd_at i) <> [] ->
    exists e j, e ∈ inEdges g (opnd_at i) /\ earlier j i /\ opnd_at j = edge_src e /\ within (val i) (val j) (edge_length e);
}.

(** Constants are machine integers that are not further apart than one. *)
Definition constants_ok : Prop := forall id d dv sv, findOpnd g id = Some d -> constant_value d = Some dv ->
  constant_value source = Some sv -> is_s 32 (dv - sv).

Context (base : Z) (E : execution base) (Hconst : constants_ok).

(** The value at [i] obeys the bound. *)
Definition obeys (b : Bound) (i : moment _ E) : Prop := within (val _ E i) base (bound_value b).

Lemma obeys_weaken b b' i : key up b <= key up b' -> obeys b i -> obeys b' i.
Proof. unfold obeys, within, key. destruct up; lia. Qed.

Lemma leaf_obeys v b i : leaf g source up v b -> opnd_at _ E i = v -> obeys b i.
Proof.
  intros [Hb [[-> H]|(d & dv & sv & Hd & Hdv & Hsv & H)]] Hi; unfold obeys, within.
  - rewrite (ex_source _ E i Hi). unfold int32_leq in H. rewrite Hb in H. destruct up; [apply Z.leb_le in H|apply Z.geb_le in H]; lia.
  - subst v. rewrite (ex_const _ E i d dv Hd Hdv), (ex_source_const _ E sv Hsv). unfold const_distance_leq, int32_leq in H.
    rewrite sx_id in H by (lia || by eapply Hconst). rewrite Hb in H. destruct up; [apply Z.leb_le in H|apply Z.geb_le in H]; lia.
Qed.

(** A bound for the source of an edge gives one for its end. *)
Lemma obeys_edge b e i j : obeys (before_edge up b e) j -> within (val _ E i) (val _ E j) (edge_length e) -> obeys b i.
Proof. unfold obeys, within, before_edge. cbn. destruct up; lia. Qed.

Lemma derivable_obeys v b : derivable g source up v b -> forall i, opnd_at _ E i = v -> obeys b i.
Proof.
  induction 1 as [v b Hl|v b b' _ IH Hb Hk|v b d e Hd Hphi He _ IH|v b d Hd Hphi Hne _ IH]; intros i Hi.
  - by apply (leaf_obeys v).
  - apply (obeys_weaken b); [done|by apply IH].
  - subst v. destruct (ex_edge _ E i d e Hd Hphi He) as (j & _ & Hj & Hw). by apply (obeys_edge b e i j); [apply IH|].
  - subst v. destruct (ex_phi _ E i d Hd Hphi Hne) as (e & j & He & _ & Hj & Hw). by apply (obeys_edge b e i j); [apply (IH e)|].
Qed.

(** Bounds that support one another hold, by induction over the moments. *)
Lemma good_obeys s : state_ok g source up s -> closed g source up s -> active s = ∅ ->
  forall i b, good g source up s (opnd_at _ E i) b -> obeys b i.
Proof.
  intros Hok Hcl Ha i. induction (earlier_wf _ E i) as [i _ IH]. intros b [(b' & [[Hr|Ht]|Hac] & Hk)|Hl].
  - apply (obeys_weaken b' b i Hk). destruct (Hcl _ _ Hr) as (d & Hd & Hne & H). destruct (is_phi d) eqn:Hphi.
    + destruct (ex_phi _ E i d Hd Hphi Hne) as (e & j & He & Hji & Hj & Hw). apply (obeys_edge b' e i j); [|done].
      apply IH; [done|]. rewrite Hj. by apply H.
    + destruct H as (e & He & H). destruct (ex_edge _ E i d e Hd Hphi He) as (j & Hji & Hj & Hw).
      apply (obeys_edge b' e i j); [|done]. apply IH; [done|]. by rewrite Hj.
  - apply (obeys_weaken b' b i Hk). by apply (derivable_obeys (opnd_at _ E i)); [apply (so_true _ _ _ _ Hok)|].
  - by rewrite Ha, lookup_empty in Hac.
  - by apply (leaf_obeys (opnd_at _ E i)).
Qed.
End executions.

(** ** The theorems about a demand *)

Section demand.
Context (g : InequalityGraph) (source : IOpnd) (up : bool) (B L : Z).
(** Edges lead to and from operands of the graph, and a path that repeats no operand
    is not longer than a machine integer. *)
Context (Hg : graph_ok g L) (HL : 0 <= L) (Hrange : B + opnd_count g * L < 2 ^ 31).

Definition start : solver := MkSolver ∅ ∅.

Lemma start_ok : state_ok g source up start.
Proof. split; intros v *; unfold chart; cbn; done. Qed.

Lemma demand_spec fuel dest b : is_Some (findOpnd g dest) -> Z.abs b <= B -> opnd_count g < Z.of_nat fuel ->
  exists r s, demandProve_run g source fuel dest b up = Some (r, s) /\ state_ok g source up s /\ active s = ∅ /\
    (r = PTrue -> derivable g source up dest (MkBound b up)) /\
    (no_false s -> r <> PFalse -> closed g source up s /\ good g source up s dest (MkBound b up)) /\
    (single_edges g -> r <> PFalse -> no_false s).
Proof.
  intros Hd Hb Hf. assert (0 <= B) as HB by lia.
  destruct (prove_spec g source up B L Hg HL HB Hrange fuel dest (MkBound b up) start) as (r & s & Heq & Hext & Ht & Hr & Hkeep);
    [apply start_ok|done|done|unfold in_range; cbn; lia|cbn; lia|].
  exists r, s. split; [done|]. split; [apply Hext|]. split; [apply (ex_active _ _ _ _ _ Hext)|]. split; [done|].
  split; [|intros Hs Hne; by apply Hkeep]. intros Hn Hne. destruct (Hr Hn) as [Hc Hgd]. split; [|by apply Hgd]. apply Hc. intros v x. unfold chart. cbn. done.
Qed.
End demand.

(** C39: A demand always ends with an answer, with one unit of fuel more than the graph
    has operands, and no assertion of the graph, the chart or the search fails on the
    way, cycles included. *)
Theorem demandProve_total g source up B L fuel dest b : graph_ok g L -> 0 <= L -> B + opnd_count g * L < 2 ^ 31 ->
  is_Some (findOpnd g dest) -> Z.abs b <= B -> opnd_count g < Z.of_nat fuel ->
  is_Some (demandProve g source fuel dest b up).
Proof.
  intros Hg HL Hrange Hd Hb Hf. destruct (demand_spec g source up B L Hg HL Hrange fuel dest b Hd Hb Hf) as (r & s & Heq & _).
  unfold demandProve. by rewrite Heq.
Qed.

Lemma demand_sound g source up B L fuel dest b r s : graph_ok g L -> 0 <= L -> B + opnd_count g * L < 2 ^ 31 -> constants_ok g source ->
  is_Some (findOpnd g dest) -> Z.abs b <= B -> opnd_count g < Z.of_nat fuel ->
  demandProve_run g source fuel dest b up = Some (r, s) -> r = PTrue \/ (r = PReduced /\ no_false s) ->
  forall base (E : execution g source up base) i, opnd_at _ _ _ _ E i = dest -> within up (val _ _ _ _ E i) base b.
Proof.
  intros Hg HL Hrange Hconst Hd Hb Hf Heq Hr base E i Hi.
  destruct (demand_spec g source up B L Hg HL Hrange fuel dest b Hd Hb Hf) as (r' & s' & Heq' & Hok & Ha & Ht & Hgd & _).
  rewrite Heq in Heq'. injection Heq' as <- <-. destruct Hr as [->|[-> Hn]].
  - by apply (derivable_obeys g source up base E Hconst dest (MkBound b up)); [apply Ht|].
  - destruct (Hgd Hn ltac:(done)) as [Hcl Hgood]. subst dest.
    by apply (good_obeys g source up base E Hconst s Hok Hcl Ha i (MkBound b up)).
Qed.

(** An answer that the check can go is right in every execution of the graph: when
    the search proved it outright, and also when the proof rests on cycles, provided
    that nothing was memoised as false. *)
Theorem demandProve_sound g source up B L fuel dest b r s : graph_ok g L -> 0 <= L -> B + opnd_count g * L < 2 ^ 31 -> constants_ok g source ->
  is_Some (findOpnd g dest) -> Z.abs b <= B -> opnd_count g < Z.of_nat fuel ->
  demandProve_run g source fuel dest b up = Some (r, s) -> r = PTrue \/ (r = PReduced /\ no_false s) ->
  forall base (E : execution g source up base) i, opnd_at _ _ _ _ E i = dest -> within up (val _ _ _ _ E i) base b.
Proof. apply demand_sound. Qed.

