(* ===== verification/AbcdGraph.v ===== *)
(** * Building inequality graphs, and demands on them

    A graph is what its clients build by a list of additions and changes of state; its
    edges in a state are the additions that are visible in it, in their order, and it
    meets what the search asks of a graph.  The self-tests of
    [classic_abcd_solver.cpp] run on the model, and a small graph shows the search
    proving what does not hold. *)
From stdpp Require Import gmap.
From S2P Require Import Prelude Abcd AbcdOk.

Inductive command :=
  | CmdOpnd (o : IOpnd)
  | CmdEdge (from to : IOpnd) (distance : Z)
  | CmdSingle (from to : IOpnd) (distance : Z) (state : bool)
  | CmdState (state : bool).

Definition apply_command (g : InequalityGraph) (c : command) : option InequalityGraph :=
  match c with
  | CmdOpnd o => addOpnd g o
  | CmdEdge from to d => addEdge g from to d
  | CmdSingle from to d st => addEdgeSingleState g from to d st
  | CmdState st => Some (setState g st)
  end.
Definition build (cs : list command) : option InequalityGraph :=
  foldl (fun og c => g ← og; apply_command g c) (Some new_InequalityGraph) cs.

(** The edges that the commands ask for. *)
Definition command_permanent (c : command) : list IneqEdge :=
  match c with CmdEdge from to d => [MkEdge (opnd_id from) (opnd_id to) d] | _ => [] end.
Definition command_single (st : bool) (c : command) : list IneqEdge :=
  match c with CmdSingle from to d st' => if bool_decide (st = st') then [MkEdge (opnd_id from) (opnd_id to) d] else [] | _ => [] end.
Definition visible (st : bool) (at_end : IneqEdge -> Z) (cs : list command) (v : Z) : list IneqEdge :=
  filter (fun e => at_end e = v) (mjoin (command_permanent <$> cs)) ++
  filter (fun e => at_end e = v) (mjoin (command_single st <$> cs)).

(** ** The lists of a map *)

Definition lists (m : edge_map) (v : Z) : TwoStateEdgeList := default new_TwoStateEdgeList (m !! v).

Lemma lists_addEdge m id e v : lists (map_addEdge m id e) v = if decide (v = id) then list_addEdge (lists m v) e else lists m v.
Proof.
  unfold lists, map_addEdge, edge_map in *. destruct (m !! id) eqn:E; case_decide as Ev; try subst v;
    by rewrite ?lookup_insert_eq, ?E, ?lookup_insert_ne by congruence.
Qed.
Lemma lists_addSingle m id e st v :
  lists (map_addEdgeSingleState m id e st) v = if decide (v = id) then list_addEdgeSingleState (lists m v) e st else lists m v.
Proof.
  unfold lists, map_addEdgeSingleState, edge_map in *. destruct (m !! id) eqn:E; case_decide as Ev; try subst v;
    by rewrite ?lookup_insert_eq, ?E, ?lookup_insert_ne by congruence.
Qed.
Lemma eList_setState m st v : eList (map_setState m st) v =
  permanent (lists m v) ++ (if st then lower (lists m v) else upper_edges (lists m v)).
Proof. unfold eList, map_setState, lists, edge_map in *. rewrite lookup_fmap. destruct (m !! v); [done|by destruct st]. Qed.

(** What a map holds after some commands: [at_end] is the end of an edge under which
    it is filed. *)
Definition files (at_end : IneqEdge -> Z) (m : edge_map) (cs : list command) : Prop := forall v,
  permanent (lists m v) = filter (fun e => at_end e = v) (mjoin (command_permanent <$> cs)) /\
  lower (lists m v) = filter (fun e => at_end e = v) (mjoin (command_single true <$> cs)) /\
  upper_edges (lists m v) = filter (fun e => at_end e = v) (mjoin (command_single false <$> cs)).

Lemma join_snoc (f : command -> list IneqEdge) cs c : mjoin (f <$> (cs ++ [c])) = mjoin (f <$> cs) ++ f c.
Proof. rewrite fmap_app, join_app. simpl. by rewrite app_nil_r. Qed.

Lemma files_other at_end m cs c : files at_end m cs -> command_permanent c = [] -> (forall st, command_single st c = []) ->
  files at_end m (cs ++ [c]).
Proof. intros H Hp Hs v. rewrite !join_snoc, Hp, !Hs, !app_nil_r. apply H. Qed.

Lemma filter_one (at_end : IneqEdge -> Z) e v : filter (fun e => at_end e = v) [e] = if decide (v = at_end e) then [e] else [].
Proof. rewrite list.filter_cons, list.filter_nil. case_decide; [by rewrite decide_True|by rewrite decide_False by congruence]. Qed.

Lemma files_permanent at_end m cs from to d : files at_end m cs ->
  let e := MkEdge (opnd_id from) (opnd_id to) d in files at_end (map_addEdge m (at_end e) e) (cs ++ [CmdEdge from to d]).
Proof.
  intros H e v. rewrite !join_snoc. cbn [command_permanent command_single]. fold e.
  rewrite !app_nil_r, lists_addEdge, list.filter_app, filter_one.
  destruct (H v) as (Hp & Hl & Hu). case_decide; cbn [list_addEdge permanent lower upper_edges]; rewrite Hp, Hl, Hu; [done|by rewrite app_nil_r].
Qed.

Lemma files_single at_end m cs from to d st : files at_end m cs ->
  let e := MkEdge (opnd_id from) (opnd_id to) d in files at_end (map_addEdgeSingleState m (at_end e) e st) (cs ++ [CmdSingle from to d st]).
Proof.
  intros H e v. rewrite !join_snoc. cbn [command_permanent command_single]. fold e.
  rewrite !app_nil_r, lists_addSingle, !list.filter_app. destruct (H v) as (Hp & Hl & Hu).
  destruct st; change (bool_decide (true = true)) with true; change (bool_decide (false = false)) with true;
    change (bool_decide (true = false)) with false; change (bool_decide (false = true)) with false; cbn match;
    rewrite filter_one, ?list.filter_nil, ?app_nil_r;
    case_decide; cbn [list_addEdgeSingleState permanent lower upper_edges]; rewrite Hp, Hl, Hu; rewrite ?app_nil_r; done.
Qed.

Lemma files_setState at_end m cs st st' : files at_end m cs -> files at_end (map_setState m st) (cs ++ [CmdState st']).
Proof.
  intros H. apply files_other; [|done..]. intros v. destruct (H v) as (Hp & Hl & Hu).
  unfold lists, map_setState, edge_map in *. rewrite lookup_fmap. by destruct (m !! v).
Qed.

(** Every edge connects operands that are in the graph. *)
Definition connected (g : InequalityGraph) (cs : list command) : Prop := forall e,
  e ∈ mjoin (command_permanent <$> cs) \/ (exists st, e ∈ mjoin (command_single st <$> cs)) ->
  is_Some (findOpnd g (edge_src e)) /\ is_Some (findOpnd g (edge_dst e)).

Lemma build_snoc cs c : build (cs ++ [c]) = (g ← build cs; apply_command g c).
Proof. unfold build. by rewrite foldl_app. Qed.

(** Operands stay, and those of a new edge are added. *)
Lemma connected_edge g cs c from to (M : gmap Z IOpnd) es i o st : connected g cs ->
  M = <[opnd_id to := to]> (<[opnd_id from := from]> (id_to_opnd_map g)) ->
  (forall e, e ∈ command_permanent c \/ (exists st, e ∈ command_single st c) -> edge_src e = opnd_id from /\ edge_dst e = opnd_id to) ->
  connected (MkGraph M es i o st) (cs ++ [c]).
Proof.
  intros Hcon -> Hc.
  assert (Hin : forall x, is_Some (findOpnd g x) \/ x = opnd_id from \/ x = opnd_id to ->
    is_Some ((<[opnd_id to := to]> (<[opnd_id from := from]> (id_to_opnd_map g))) !! x)).
  { intros x Hx. rewrite !lookup_insert_is_Some'. unfold findOpnd in Hx. destruct Hx as [Hx|[->| ->]]; auto. }
  assert (Hall : forall e, (e ∈ mjoin (command_permanent <$> cs) \/ exists st, e ∈ mjoin (command_single st <$> cs)) \/
    (edge_src e = opnd_id from /\ edge_dst e = opnd_id to) ->
    is_Some (findOpnd (MkGraph (<[opnd_id to := to]> (<[opnd_id from := from]> (id_to_opnd_map g))) es i o st) (edge_src e)) /\
    is_Some (findOpnd (MkGraph (<[opnd_id to := to]> (<[opnd_id from := from]> (id_to_opnd_map g))) es i o st) (edge_dst e))).
  { intros e [He|[-> ->]]; split; apply Hin; auto; left; by apply Hcon. }
  intros e He. apply Hall. destruct He as [He|[st' He]]; rewrite join_snoc in He; apply elem_of_app in He as [He|He]; eauto.
Qed.

Lemma connected_same g g' cs c : connected g cs -> (forall x, is_Some (findOpnd g x) -> is_Some (findOpnd g' x)) ->
  command_permanent c = [] -> (forall st, command_single st c = []) -> connected g' (cs ++ [c]).
Proof.
  intros Hcon Hm Hp Hs e He. rewrite join_snoc, Hp, app_nil_r in He.
  assert (is_Some (findOpnd g (edge_src e)) /\ is_Some (findOpnd g (edge_dst e))) as [H1 H2]; [|split; by apply Hm].
  apply Hcon. destruct He as [He|[st He]]; [by left|]. rewrite join_snoc, Hs, app_nil_r in He. eauto.
Qed.

Lemma build_files cs : forall g, build cs = Some g -> files edge_dst (inedges g) cs /\ files edge_src (outedges g) cs /\ connected g cs.
Proof.
  induction cs as [|c cs IH] using rev_ind; intros g Hb.
  { injection Hb as <-. split_and!; [done..|]. intros e [H|[st H]]; by apply elem_of_nil in H. }
  rewrite build_snoc in Hb. destruct (build cs) as [g0|] eqn:E; [|done]. cbn [mbind option_bind] in Hb.
  destruct (IH g0 eq_refl) as (Hin & Hout & Hcon). destruct c as [o|from to d|from to d st|st]; cbn [apply_command] in Hb.
  - unfold addOpnd in Hb. case_match; [done|]. injection Hb as <-. split_and!; [by apply files_other..|].
    apply (connected_same g0); [done| |done..]. intros x Hx. cbn. apply lookup_insert_is_Some'. by right.
  - unfold addEdge in Hb. case_match; [done|]. injection Hb as <-. split_and!; [apply (files_permanent edge_dst _ cs from to d Hin)|apply (files_permanent edge_src _ cs from to d Hout)|].
    apply (connected_edge g0 _ _ from to); [done..|]. intros e [He|[st He]]; cbn in He;
      [apply list_elem_of_singleton in He as ->; done|by apply elem_of_nil in He].
  - unfold addEdgeSingleState in Hb. case_match; [done|]. injection Hb as <-. split_and!; [apply (files_single edge_dst _ cs from to d st Hin)|apply (files_single edge_src _ cs from to d st Hout)|].
    apply (connected_edge g0 _ _ from to); [done..|]. intros e [He|[st' He]]; cbn in He; [by apply elem_of_nil in He|].
    case_bool_decide; [apply list_elem_of_singleton in He as ->; done|by apply elem_of_nil in He].
  - injection Hb as <-. split_and!; [by apply files_setState..|]. by apply (connected_same g0).
Qed.

Lemma build_spec cs g st L : build cs = Some g ->
  (forall v, inEdges (setState g st) v = visible st edge_dst cs v) /\ (forall v, outEdges (setState g st) v = visible st edge_src cs v) /\
  (Forall (fun c => match c with CmdEdge _ _ d | CmdSingle _ _ d _ => Z.abs d <= L | _ => True end) cs -> graph_ok (setState g st) L).
Proof.
  intros Hb. destruct (build_files cs g Hb) as (Hin & Hout & Hcon).
  assert (Hv : forall at_end m, files at_end m cs -> forall v, eList (map_setState m st) v = visible st at_end cs v).
  { intros at_end m Hf v. rewrite eList_setState. destruct (Hf v) as (-> & Hl & Hu). unfold visible. f_equal. by destruct st. }
  assert (Hi : forall v, inEdges (setState g st) v = visible st edge_dst cs v) by (intros v; by apply Hv).
  split; [done|]. split; [intros v; by apply Hv|]. intros HL.
  assert (Hall : forall v e, e ∈ visible st edge_dst cs v -> edge_dst e = v /\
    (e ∈ mjoin (command_permanent <$> cs) \/ exists st, e ∈ mjoin (command_single st <$> cs))).
  { intros v e He. unfold visible in He. apply elem_of_app in He as [He|He]; apply list_elem_of_filter in He as [? ?]; eauto. }
  split; intros v e He; rewrite Hi in He; destruct (Hall v e He) as [Hd Hm]; [done|by apply Hcon|].
  rewrite Forall_forall in HL.
  destruct Hm as [Hm|[st' Hm]]; apply list_elem_of_join in Hm as (es & He' & Hes); apply list_elem_of_fmap in Hes as (c & -> & Hc);
    apply list_elem_of_In in Hc; specialize (HL c Hc); destruct c; cbn in He'; try by apply elem_of_nil in He'.
  - by apply list_elem_of_singleton in He' as ->.
  - case_bool_decide; [by apply list_elem_of_singleton in He' as ->|by apply elem_of_nil in He'].
Qed.

(** In the state [st] the edges into an operand, and those out of it, are the
    edges that were added for both states and then those that were added for [st],
    each in the order of their addition, whatever was added for the other state and
    however often the state was changed in between; and with edges no longer than [L]
    the graph meets what the search asks of it. *)
Theorem build_edges cs g st L : build cs = Some g ->
  (forall v, inEdges (setState g st) v = visible st edge_dst cs v) /\ (forall v, outEdges (setState g st) v = visible st edge_src cs v) /\
  (Forall (fun c => match c with CmdEdge _ _ d | CmdSingle _ _ d _ => Z.abs d <= L | _ => True end) cs -> graph_ok (setState g st) L).
Proof. apply build_spec. Qed.

(** ** The self-tests of the source *)

Abbreviation var id := (new_IOpnd id false).
Abbreviation phi id := (new_IOpnd id true).
Abbreviation const id v := (setConstant (new_IOpnd id false) v).

(** A demand on a graph that was built, from one of its operands. *)
Definition demand (cs : list command) (source dest bound : Z) (upper : bool) : option bool :=
  g ← build cs; s ← findOpnd g source; demandProve g s 40 dest bound upper.

(** [testSimpleIGraph]: [for (i = c; i < A.length; i++) check(-1 < i && i < A.length)]. *)
Definition simple_graph (c : Z) : list command :=
  [CmdOpnd (const 6 (-1)); CmdEdge (var 0) (phi 1) 0; CmdEdge (phi 1) (var 3) 0; CmdEdge (var 3) (var 2) 1; CmdEdge (var 2) (phi 1) 0;
   CmdEdge (var 5) (var 3) (-1); CmdEdge (const 4 c) (var 0) 0].

Example testSimpleIGraph : (demand (simple_graph 5) 5 3 (-1) true, demand (simple_graph 5) 6 3 1 false,
    demand (simple_graph (-5)) 6 3 1 false, demand (simple_graph 0) 6 3 1 false, demand (simple_graph (-1)) 6 3 1 false)
  = (Some true, Some true, Some false, Some true, Some false).
Proof. vm_compute. reflexivity. Qed.

(** [testPaperIGraph]: two nested loops that move two limits. *)
Definition paper_graph : list command :=
  [CmdEdge (const 66 (-1)) (var 10) 0; CmdEdge (var 10) (phi 11) 0; CmdEdge (phi 11) (var 12) 0; CmdEdge (var 12) (var 13) 1;
   CmdEdge (var 13) (phi 11) 0; CmdEdge (var 13) (var 20) 0; CmdEdge (var 2) (var 12) (-1); CmdEdge (var 55) (var 0) 0;
   CmdEdge (var 0) (phi 1) 0; CmdEdge (phi 1) (var 2) 0; CmdEdge (var 2) (var 3) (-1); CmdEdge (var 3) (phi 1) 0;
   CmdEdge (var 3) (var 4) 0; CmdEdge (var 4) (var 22) (-1); CmdEdge (var 20) (phi 21) 0; CmdEdge (phi 21) (var 22) 0;
   CmdEdge (var 22) (var 23) 0; CmdEdge (var 23) (var 24) 1; CmdEdge (var 24) (phi 21) 0; CmdEdge (var 23) (var 30) 1;
   CmdEdge (var 55) (var 23) (-1); CmdEdge (var 30) (var 31) 0].

Example testPaperIGraph : (demand paper_graph 55 22 (-1) true, demand paper_graph 55 30 (-1) true, demand paper_graph 66 4 1 false,
    demand paper_graph 2 23 0 false) = (Some true, Some true, Some false, Some true).
Proof. vm_compute. reflexivity. Qed.

(** [testOverflow], which the source leaves out since it fails: the search is right
    about the graph, whose edge says that a sum is the larger for a large summand, but
    the machine's sum wraps around. *)
Definition overflow_graph : list command :=
  [CmdOpnd (const 22 0); CmdEdge (const 20 25) (var 0) 0; CmdEdge (var 0) (phi 1) 0; CmdEdge (phi 1) (var 2) 0;
   CmdEdge (var 2) (var 3) (2 ^ 31 - 1 - 5); CmdEdge (var 3) (phi 1) 0; CmdEdge (var 21) (var 2) (-1)].
Example testOverflow : demand overflow_graph 22 2 0 false = Some true.
Proof. vm_compute. reflexivity. Qed.

(** ** A result that rests on a cycle that fails *)

(** [v = phi(w, z); w = v; r <= v; r <= w], and nothing is known of [z]. *)
Definition stale_graph : list command :=
  [CmdOpnd (var 0); CmdEdge (var 2) (phi 1) 0; CmdEdge (var 3) (phi 1) 0; CmdEdge (phi 1) (var 2) 0;
   CmdEdge (phi 1) (var 4) 0; CmdEdge (var 2) (var 4) 0].

Definition stale_g : InequalityGraph := default new_InequalityGraph (build stale_graph).

(** [z], [v], [w] and [r] get the value 1000 one after the other; the source is 0. *)
Definition stale_at (i : nat) : Z := match i with 0%nat => 3 | 1%nat => 1 | 2%nat => 2 | 3%nat => 4 | _ => 0 end.
Definition stale_val (i : nat) : Z := match i with 0%nat | 1%nat | 2%nat | 3%nat => 1000 | _ => 0 end.

(** Five moments to look at. *)
Ltac moments i := destruct i as [|[|[|[|i]]]].

Lemma stale_no_const i d : findOpnd stale_g (stale_at i) = Some d -> constant_value d = None.
Proof. moments i; vm_compute; intros [= <-]; done. Qed.

Definition stale_execution : execution stale_g (var 0) true 0.
Proof.
  refine (Execution stale_g (var 0) true 0 nat lt lt_wf stale_at stale_val _ _ _ _ _).
  - intros i. moments i; by vm_compute.
  - done.
  - intros i d v Hd Hv. by rewrite (stale_no_const i d Hd) in Hv.
  - intros i d e. moments i; vm_compute; intros [= <-] Hphi He; try done; apply list_elem_of_In in He; simpl in He.
    + done.
    + destruct He as [<-|[]]. by exists 1%nat.
    + destruct He as [<-|[<-|[]]]; [exists 1%nat|exists 2%nat]; (split; [lia|done]).
    + done.
  - intros i d. moments i; vm_compute; intros [= <-] Hphi Hne; try done.
    eexists _, 0%nat. split; [right; left|]. split; [lia|done].
Defined.

(** The search can prove what does not hold: the bound of [w], which rests on the
    cycle through [v] while [v] is under way, stays memoised when [v] turns out to be
    unbounded, and is then taken for [r].  The demand whether [r] is at most the
    source is answered yes, although in an execution the source is 0 and [r] is 1000. *)
Theorem stale_result : demandProve stale_g (var 0) 10 4 0 true = Some true /\
  exists (E : execution stale_g (var 0) true 0) i, opnd_at _ _ _ _ E i = 4 /\ val _ _ _ _ E i = 1000.
Proof. split; [by vm_compute|]. by exists stale_execution, 3%nat. Qed.

(** ** The theorems at work *)

(** The body of a counting loop. *)
Definition loop_g : InequalityGraph := default new_InequalityGraph (build (simple_graph 5)).

Lemma loop_ok st : graph_ok (setState loop_g st) 1 /\ opnd_count (setState loop_g st) = 7.
Proof.
  split; [|by destruct st; vm_compute].
  assert (Hb : build (simple_graph 5) = Some loop_g) by (by vm_compute).
  apply (proj2 (proj2 (build_spec _ _ st 1 Hb))). repeat constructor; simpl; lia.
Qed.

(** What the theorems ask of a graph, operand by operand. *)
Definition const_near (source d : IOpnd) : bool :=
  match constant_value d, constant_value source with Some dv, Some sv => bool_decide (is_s 32 (dv - sv)) | _, _ => true end.
Lemma constants_ok_dec g source : map_Forall (fun _ d => const_near source d = true) (id_to_opnd_map g) -> constants_ok g source.
Proof.
  intros H id d dv sv Hd Hdv Hsv. specialize (H id d Hd). unfold const_near in H. rewrite Hdv, Hsv in H. by apply bool_decide_eq_true_1 in H.
Qed.

Lemma loop_constants : constants_ok (setState loop_g true) (const 6 (-1)).
Proof. apply constants_ok_dec, (bool_decide_eq_true_1 _). vm_compute. reflexivity. Qed.

(** Nothing is false in the memory of a search. *)
Lemma no_false_dec s : map_Forall (fun _ c => max_false c = None) (mem_distance s) -> no_false s.
Proof. intros H v. unfold chart. destruct (mem_distance s !! v) eqn:E; [|done]. by apply (H v). Qed.

(** The lower bound of the index of the loop rests on the loop's cycle. *)
Lemma loop_lower : exists s, demandProve_run (setState loop_g true) (const 6 (-1)) 40 3 1 false = Some (PReduced, s) /\ no_false s.
Proof.
  eexists. split; [vm_compute; reflexivity|]. apply no_false_dec.
  apply (bool_decide_eq_true_1 _). vm_compute. reflexivity.
Qed.

Lemma demandProve_sound_witness : exists s, demandProve_run (setState loop_g true) (const 6 (-1)) 40 3 1 false = Some (PReduced, s) /\
  forall base (E : execution (setState loop_g true) (const 6 (-1)) false base) i, opnd_at _ _ _ _ E i = 3 -> base + 1 <= val _ _ _ _ E i.
Proof.
  destruct loop_lower as (s & Hrun & Hn). destruct (loop_ok true) as [Hg Hc]. exists s. split; [exact Hrun|]. intros base E i Hi.
  exact (demandProve_sound (setState loop_g true) (const 6 (-1)) false 1 1 40 3 1 PReduced s Hg ltac:(lia) ltac:(rewrite Hc; lia)
    loop_constants ltac:(by vm_compute; eexists) ltac:(lia) ltac:(rewrite Hc; lia) Hrun (or_intror (conj eq_refl Hn)) base E i Hi).
Defined.

Lemma demandProve_total_witness : is_Some (demandProve (setState loop_g false) (var 5) 8 3 (-1) true).
Proof.
  destruct (loop_ok false) as [Hg Hc].
  exact (demandProve_total (setState loop_g false) (var 5) true 1 1 8 3 (-1) Hg ltac:(lia) ltac:(rewrite Hc; lia)
    ltac:(by vm_compute; eexists) ltac:(lia) ltac:(rewrite Hc; lia)).
Defined.





Lemma build_edges_witness : inEdges (setState loop_g true) 1 = [MkEdge 0 1 0; MkEdge 2 1 0] /\ graph_ok (setState loop_g true) 1.
Proof.
  assert (Hb : build (simple_graph 5) = Some loop_g) by (by vm_compute).
  destruct (build_edges (simple_graph 5) loop_g true 1 Hb) as (Hin & _ & Hok). split.
  - rewrite Hin. vm_compute. reflexivity.
  - apply Hok. repeat constructor; simpl; lia.
Defined.
