(* ===== verification/ByteReader.v ===== *)
(** * Reading a class file: [vmcore/include/bytereader.h]

    A reader is a place in an array of bytes.  A function that returns whether there was
    no error gives [Fails] for [false]; [Wild] is what the code does not define: an
    access outside the array, or a failed assertion. *)
From Stdlib Require Import Ascii.
From stdpp Require Import strings.
From S2P Require Import Prelude.

Definition byte_of (c : ascii) : Z := Z.of_N (N_of_ascii c).

Lemma byte_of_range c : 0 <= byte_of c < 256.
Proof. unfold byte_of. pose proof (N_ascii_bounded c). lia. Qed.
Lemma byte_of_inj c d : byte_of c = byte_of d -> c = d.
Proof.
  unfold byte_of. intros H. apply N2Z.inj in H. rewrite <- (ascii_N_embedding c), <- (ascii_N_embedding d). by rewrite H.
Qed.

Record ByteReader := Reader { bytebuffer : list ascii; start : Z; end_ : Z; curr : Z }.
Definition new_reader (bytecode : list ascii) (offset len : Z) : ByteReader := Reader bytecode offset (offset + len) offset.
Definition move (r : ByteReader) (n : Z) : ByteReader := Reader (bytebuffer r) (start r) (end_ r) (curr r + n).

(** The buffer is as long as it was said to be. *)
Record reader_ok (r : ByteReader) : Prop := {
  ok_start : 0 <= start r <= curr r;
  ok_curr : curr r <= end_ r;
  ok_end : end_ r <= Z.of_nat (length (bytebuffer r));
}.

Inductive outcome (A : Type) := Done (a : A) (r : ByteReader) | Fails | Wild.
Arguments Done {A}. Arguments Fails {A}. Arguments Wild {A}.
Definition R (A : Type) : Type := ByteReader -> outcome A.
#[export] Instance R_ret : MRet R := fun A a r => Done a r.
#[export] Instance R_bind : MBind R := fun A B k m r =>
  match m r with Done a r' => k a r' | Fails => Fails | Wild => Wild end.
Definition fail {A} : R A := fun _ => Fails.
Definition wild {A} : R A := fun _ => Wild.
(** Returns [false] unless. *)
Definition require (b : bool) : R unit := if b then mret tt else fail.
(** The result of a call whose failure the caller does not pass on. *)
Definition attempt {A} (m : R A) : R (option A) := fun r =>
  match m r with Done a r' => Done (Some a) r' | Fails => Done None r | Wild => Wild end.
(** A value computed from others, which may be undefined. *)
Definition value {A} (o : option A) : R A := fun r => match o with Some a => Done a r | None => Wild end.

(** Only [have] is asked about numbers of bytes that an [int] cannot hold. *)
Definition have (num_bytes : Z) (r : ByteReader) : bool :=
  let n := sx 32 num_bytes in negb (end_ r <? curr r + n) && negb (curr r + n <? start r).
Definition skip (num_bytes : Z) : R unit := fun r => if have num_bytes r then Done tt (move r (sx 32 num_bytes)) else Fails.
Definition get_offset (r : ByteReader) : Z := curr r.
Definition go_to_offset (offset : Z) : R unit := fun r => skip (offset - get_offset r) r.

(** [*curr++] *)
Definition next_byte : R Z := fun r =>
  match bytebuffer r !! Z.to_nat (curr r) with
  | Some c => if 0 <=? curr r then Done (byte_of c) (move r 1) else Wild
  | None => Wild
  end.
Fixpoint read_be (w : Z) (n : nat) (result : Z) : R Z :=
  match n with
  | O => mret result
  | S n => x ← next_byte; read_be w n (ux w (ux w (Z.shiftl result 8) + x))
  end.
Definition parse_u4_be : R Z := fun r => if have 4 r then read_be 32 4 0 r else Fails.
Definition parse_u2_be : R Z := fun r => if have 2 r then read_be 16 2 0 r else Fails.
Definition parse_u1 : R Z := fun r => if have 1 r then next_byte r else Fails.
(** The little-endian reads move first and take the bytes from the last one. *)
Fixpoint read_le (w : Z) (n : nat) (curr_byte : Z) (result : Z) (r : ByteReader) : outcome Z :=
  match n with
  | O => Done result r
  | S n =>
      match bytebuffer r !! Z.to_nat (curr_byte - 1) with
      | Some c => if 1 <=? curr_byte then read_le w n (curr_byte - 1) (ux w (ux w (Z.shiftl result 8) + byte_of c)) r else Wild
      | None => Wild
      end
  end.
Definition parse_u4_le : R Z := fun r => if have 4 r then let r := move r 4 in read_le 32 4 (curr r) 0 r else Fails.
Definition parse_u2_le : R Z := fun r => if have 2 r then let r := move r 2 in read_le 16 2 (curr r) 0 r else Fails.
(** The bytes [get_and_skip] points at. *)
Definition get_and_skip (len : Z) : R (list ascii) := fun r =>
  if have len r then Done (take (Z.to_nat len) (drop (Z.to_nat (curr r)) (bytebuffer r))) (move r (sx 32 len)) else Fails.

(** ** Loops *)

Fixpoint times {A} (n : nat) (m : R A) : R (list A) :=
  match n with O => mret [] | S n => a ← m; l ← times n m; mret (a :: l) end.
(** A body that changes a state, [n] times. *)
Fixpoint iterate {A} (n : nat) (body : A -> R A) (s : A) : R A :=
  match n with O => mret s | S n => s ← body s; iterate n body s end.
(** What a function has read when it returns, as a [U_32]. *)
Definition measured {A} (m : R A) : R (A * Z) := fun r =>
  match m r with Done a r' => Done (a, ux 32 (get_offset r' - get_offset r)) r' | Fails => Fails | Wild => Wild end.
(** The caller takes a length of zero for a failure. *)
Definition measured_ok {A} (m : R A) : R (A * Z) := '(a, read_len) ← measured m; if read_len =? 0 then fail else mret (a, read_len).

(** ** What the functions do on a good reader *)

(** The bytes that are left. *)
Definition rest (r : ByteReader) : list ascii := take (Z.to_nat (end_ r - curr r)) (drop (Z.to_nat (curr r)) (bytebuffer r)).

(** A computation that keeps a good reader good and moves it forward only. *)
Definition advances {A} (m : R A) : Prop := forall r, reader_ok r ->
  match m r with
  | Done _ r' => reader_ok r' /\ bytebuffer r' = bytebuffer r /\ start r' = start r /\ end_ r' = end_ r /\ curr r <= curr r'
  | Fails => True
  | Wild => False
  end.

Lemma rest_length r : reader_ok r -> Z.of_nat (length (rest r)) = end_ r - curr r.
Proof. intros [[H1 H2] H3 H4]. unfold rest. rewrite length_take, length_drop. lia. Qed.

Lemma have_rest r n : reader_ok r -> 0 <= n < 2 ^ 31 -> have n r = (n <=? Z.of_nat (length (rest r))).
Proof.
  intros Hr Hn. rewrite (rest_length r Hr). destruct Hr as [[H1 H2] H3 H4]. unfold have. rewrite sx_id by (unfold is_s; simpl; lia).
  destruct (Z.ltb_spec (end_ r) (curr r + n)), (Z.leb_spec n (end_ r - curr r)), (Z.ltb_spec (curr r + n) (start r)); done || lia.
Qed.

Lemma move_ok r n : reader_ok r -> 0 <= n <= Z.of_nat (length (rest r)) -> reader_ok (move r n).
Proof. intros Hr Hn. rewrite (rest_length r Hr) in Hn. destruct Hr as [[H1 H2] H3 H4]. split; simpl; lia. Qed.

Lemma rest_move r n : reader_ok r -> 0 <= n <= Z.of_nat (length (rest r)) -> rest (move r n) = drop (Z.to_nat n) (rest r).
Proof.
  intros Hr Hn. rewrite (rest_length r Hr) in Hn. destruct Hr as [[H1 H2] H3 H4]. unfold rest, move. simpl.
  rewrite skipn_firstn_comm, drop_drop. f_equal; [lia|]. f_equal. lia.
Qed.

Lemma move_move r a b : move (move r a) b = move r (a + b).
Proof. unfold move. simpl. f_equal. lia. Qed.

Lemma move_back r a b : curr (move r a) - curr r = b -> move (move r a) (- b) = r.
Proof. destruct r. unfold move. simpl. intros H. f_equal. lia. Qed.

Lemma skip_rest r n : reader_ok r -> 0 <= n < 2 ^ 31 ->
  skip n r = if n <=? Z.of_nat (length (rest r)) then Done tt (move r n) else Fails.
Proof. intros Hr Hn. unfold skip. rewrite have_rest by done. rewrite sx_id by (unfold is_s; simpl; lia). done. Qed.

Lemma next_byte_rest r c l : reader_ok r -> rest r = c :: l -> next_byte r = Done (byte_of c) (move r 1) /\ reader_ok (move r 1) /\ rest (move r 1) = l.
Proof.
  intros Hr Hl. assert (Hlen : 1 <= Z.of_nat (length (rest r))) by (rewrite Hl; simpl; lia).
  split_and!; [|by apply move_ok; [|lia]|rewrite rest_move by (done || lia); by rewrite Hl].
  unfold next_byte. assert (Hc : bytebuffer r !! Z.to_nat (curr r) = Some c).
  { assert (rest r !! O = Some c) as H0 by (by rewrite Hl). unfold rest in H0. apply lookup_take_Some in H0 as [H0 _].
    rewrite lookup_drop in H0. by rewrite Nat.add_0_r in H0. }
  rewrite Hc. by rewrite (proj2 (Z.leb_le 0 (curr r)) (proj1 (conj (Z.le_trans _ _ _ (proj1 (ok_start r Hr)) (proj2 (ok_start r Hr))) I))).
Qed.

(** The number the bytes stand for. *)
Definition be (l : list ascii) : Z := fold_left (fun z c => z * 256 + byte_of c) l 0.

Lemma read_be_rest w l k z r : reader_ok r -> rest r = l ++ k -> 0 <= w -> 0 <= z -> (z + 1) * 256 ^ Z.of_nat (length l) <= 2 ^ w ->
  read_be w (length l) z r = Done (fold_left (fun z c => z * 256 + byte_of c) l z) (move r (Z.of_nat (length l))).
Proof.
  revert z r. induction l as [|c l IH]; intros z r Hr Hl Hw Hz Hb.
  - simpl. unfold mret, R_ret, move. f_equal. destruct r. simpl. f_equal. lia.
  - destruct (next_byte_rest r c (l ++ k) Hr Hl) as (Hn & Hr1 & H1). pose proof (byte_of_range c) as Hc.
    assert (Hpow : 256 ^ Z.of_nat (length (c :: l)) = 256 * 256 ^ Z.of_nat (length l)).
    { simpl length. rewrite Nat2Z.inj_succ, Z.pow_succ_r by lia. done. }
    assert (0 < 256 ^ Z.of_nat (length l)) by (apply Z.pow_pos_nonneg; lia).
    assert (Hbyte : ux w (ux w (Z.shiftl z 8) + byte_of c) = z * 256 + byte_of c).
    { rewrite Z.shiftl_mul_pow2 by lia. change (2 ^ 8) with 256. rewrite !ux_id; unfold is_u; try done; try nia. rewrite ux_id; unfold is_u; nia. }
    simpl read_be. unfold mbind, R_bind. rewrite Hn, Hbyte, IH; try done; try nia.
    rewrite move_move. simpl. f_equal. f_equal. lia.
Qed.

Lemma parse_u1_rest r : reader_ok r -> parse_u1 r = match rest r with c :: _ => Done (byte_of c) (move r 1) | [] => Fails end.
Proof.
  intros Hr. unfold parse_u1. rewrite have_rest by (done || lia). destruct (rest r) as [|c l] eqn:E; [done|].
  rewrite (proj2 (Z.leb_le _ _)) by (simpl; lia). by apply (next_byte_rest r c l).
Qed.

Lemma parse_u2_rest r : reader_ok r ->
  parse_u2_be r = match rest r with c :: d :: _ => Done (be [c; d]) (move r 2) | _ => Fails end.
Proof.
  intros Hr. unfold parse_u2_be. rewrite have_rest by (done || lia). destruct (rest r) as [|c [|d l]] eqn:E; [done..|].
  rewrite (proj2 (Z.leb_le _ _)) by (simpl; lia). by apply (read_be_rest 16 [c; d] l 0 r).
Qed.

Lemma parse_u4_rest r : reader_ok r ->
  parse_u4_be r = match rest r with c :: d :: e :: f :: _ => Done (be [c; d; e; f]) (move r 4) | _ => Fails end.
Proof.
  intros Hr. unfold parse_u4_be. rewrite have_rest by (done || lia). destruct (rest r) as [|c [|d [|e [|f l]]]] eqn:E; [done..|].
  rewrite (proj2 (Z.leb_le _ _)) by (simpl; lia). by apply (read_be_rest 32 [c; d; e; f] l 0 r).
Qed.

(** The byte at a place among those that are left. *)
Lemma rest_byte r i c : reader_ok r -> rest r !! i = Some c -> bytebuffer r !! Z.to_nat (curr r + Z.of_nat i) = Some c.
Proof.
  intros [[H1 H2] H3 H4] H. unfold rest in H. apply lookup_take_Some in H as [H _]. rewrite lookup_drop in H.
  rewrite <- H. f_equal. lia.
Qed.
Lemma read_le_rest w l k z r q : reader_ok r -> rest r = l ++ k -> bytebuffer q = bytebuffer r -> 0 <= w -> 0 <= z ->
  (z + 1) * 256 ^ Z.of_nat (length l) <= 2 ^ w ->
  read_le w (length l) (curr r + Z.of_nat (length l)) z q = Done (fold_left (fun z c => z * 256 + byte_of c) (rev l) z) q.
Proof.
  revert k z. induction l as [|c l IH] using rev_ind; intros k z Hr Hl Hq Hw Hz Hb; [done|].
  rewrite length_app, Nat.add_1_r. cbn [read_le]. rewrite rev_app_distr. cbn [rev app fold_left].
  replace (curr r + Z.of_nat (S (length l)) - 1) with (curr r + Z.of_nat (length l)) by lia. rewrite Hq.
  rewrite (rest_byte r (length l) c Hr) by (rewrite Hl, <- app_assoc; by apply list_lookup_middle).
  rewrite (proj2 (Z.leb_le _ _)) by (destruct Hr as [[H1 H2] H3 H4]; lia). pose proof (byte_of_range c) as Hc.
  rewrite length_app, Nat.add_1_r, Nat2Z.inj_succ, Z.pow_succ_r in Hb by lia.
  assert (0 < 256 ^ Z.of_nat (length l)) by (apply Z.pow_pos_nonneg; lia).
  assert (Hbyte : ux w (ux w (Z.shiftl z 8) + byte_of c) = z * 256 + byte_of c).
  { rewrite Z.shiftl_mul_pow2 by lia. change (2 ^ 8) with 256. rewrite !ux_id; unfold is_u; try done; try nia. rewrite ux_id; unfold is_u; nia. }
  rewrite Hbyte. apply (IH (c :: k)); try done; try nia. by rewrite Hl, <- app_assoc.
Qed.
Lemma parse_u2_le_rest r : reader_ok r ->
  parse_u2_le r = match rest r with c :: d :: _ => Done (be [d; c]) (move r 2) | _ => Fails end.
Proof.
  intros Hr. unfold parse_u2_le. rewrite have_rest by (done || lia). destruct (rest r) as [|c [|d l]] eqn:E; [done..|].
  rewrite (proj2 (Z.leb_le _ _)) by (simpl; lia). by apply (read_le_rest 16 [c; d] l 0 r (move r 2)).
Qed.
Lemma parse_u4_le_rest r : reader_ok r ->
  parse_u4_le r = match rest r with c :: d :: e :: f :: _ => Done (be [f; e; d; c]) (move r 4) | _ => Fails end.
Proof.
  intros Hr. unfold parse_u4_le. rewrite have_rest by (done || lia). destruct (rest r) as [|c [|d [|e [|f l]]]] eqn:E; [done..|].
  rewrite (proj2 (Z.leb_le _ _)) by (simpl; lia). by apply (read_le_rest 32 [c; d; e; f] l 0 r (move r 4)).
Qed.

Lemma be2_range c d : 0 <= be [c; d] < 2 ^ 16.
Proof. unfold be. simpl. pose proof (byte_of_range c). pose proof (byte_of_range d). lia. Qed.
Lemma be4_range c d e f : 0 <= be [c; d; e; f] < 2 ^ 32.
Proof. unfold be. simpl. pose proof (byte_of_range c). pose proof (byte_of_range d). pose proof (byte_of_range e). pose proof (byte_of_range f). lia. Qed.

(** ** Composition *)

Lemma advances_done {A} (m : R A) r a r' : advances m -> reader_ok r -> m r = Done a r' ->
  reader_ok r' /\ bytebuffer r' = bytebuffer r /\ start r' = start r /\ end_ r' = end_ r /\ curr r <= curr r'.
Proof. intros Hm Hr H. specialize (Hm r Hr). by rewrite H in Hm. Qed.

Lemma advances_ret {A} (a : A) : advances (mret a).
Proof. intros r Hr. simpl. split_and!; done || lia. Qed.
Lemma advances_fail {A} : advances (@fail A).
Proof. intros r Hr. done. Qed.
Lemma advances_require b : advances (require b).
Proof. destruct b; [apply advances_ret|apply advances_fail]. Qed.
Lemma advances_bind {A B} (m : R A) (k : A -> R B) : advances m -> (forall a, advances (k a)) -> advances (m ≫= k).
Proof.
  intros Hm Hk r Hr. specialize (Hm r Hr). unfold mbind, R_bind. destruct (m r) as [a r'| |]; [|done..].
  destruct Hm as (Hr' & Hb & Hs & He & Hc). specialize (Hk a r' Hr'). destruct (k a r') as [b r2| |]; [|done..].
  destruct Hk as (Hr2 & Hb2 & Hs2 & He2 & Hc2). split_and!; [done|congruence..|lia].
Qed.

Lemma move_advances r n : reader_ok r -> 0 <= n <= Z.of_nat (length (rest r)) ->
  reader_ok (move r n) /\ bytebuffer (move r n) = bytebuffer r /\ start (move r n) = start r /\ end_ (move r n) = end_ r /\ curr r <= curr (move r n).
Proof. intros Hr Hn. split; [by apply move_ok|]. simpl. split_and!; done || lia. Qed.

Lemma advances_u1 : advances parse_u1.
Proof. intros r Hr. rewrite parse_u1_rest by done. destruct (rest r) eqn:E; [done|]. apply move_advances; [done|]. rewrite E. simpl. lia. Qed.
Lemma advances_u2 : advances parse_u2_be.
Proof. intros r Hr. rewrite parse_u2_rest by done. destruct (rest r) as [|c [|d l]] eqn:E; [done..|]. apply move_advances; [done|]. rewrite E. simpl. lia. Qed.
Lemma advances_u4 : advances parse_u4_be.
Proof.
  intros r Hr. rewrite parse_u4_rest by done. destruct (rest r) as [|c [|d [|e [|f l]]]] eqn:E; [done..|].
  apply move_advances; [done|]. rewrite E. simpl. lia.
Qed.
Lemma advances_skip n : 0 <= n < 2 ^ 31 -> advances (skip n).
Proof.
  intros Hn r Hr. rewrite skip_rest by done. destruct (Z.leb_spec n (Z.of_nat (length (rest r)))); [|done]. apply move_advances; [done|lia].
Qed.

Create HintDb reader.
#[export] Hint Resolve advances_ret advances_fail advances_require advances_u1 advances_u2 advances_u4 : reader.

(** ** Safety

    [m] runs on every good reader of a small file: it fails, or returns what satisfies [Q]
    with a good reader of the file. *)

Definition SMALL : Z := 65534.
Definition same_file (r r' : ByteReader) : Prop := bytebuffer r' = bytebuffer r /\ start r' = start r /\ end_ r' = end_ r.
Definition runs {A} (m : R A) (Q : A -> Prop) : Prop := forall r, reader_ok r -> end_ r - start r < SMALL ->
  match m r with
  | Done a r' => reader_ok r' /\ same_file r r' /\ Q a
  | Fails => True
  | Wild => False
  end.

Lemma same_file_refl r : same_file r r.
Proof. done. Qed.
Lemma same_file_trans r r' r2 : same_file r r' -> same_file r' r2 -> same_file r r2.
Proof. intros (H1 & H2 & H3) (H4 & H5 & H6). split_and!; congruence. Qed.

Lemma runs_mono {A} (m : R A) (P Q : A -> Prop) : runs m P -> (forall a, P a -> Q a) -> runs m Q.
Proof. intros Hm HPQ r Hr Hs. specialize (Hm r Hr Hs). destruct (m r); [|done..]. destruct Hm as (? & ? & ?). eauto. Qed.
Lemma runs_ret {A} (a : A) (Q : A -> Prop) : Q a -> runs (mret a) Q.
Proof. intros H r Hr Hs. split_and!; [done|apply same_file_refl|done]. Qed.
Lemma runs_bind {A B} (m : R A) (k : A -> R B) (P : A -> Prop) (Q : B -> Prop) :
  runs m P -> (forall a, P a -> runs (k a) Q) -> runs (m ≫= k) Q.
Proof.
  intros Hm Hk r Hr Hs. specialize (Hm r Hr Hs). unfold mbind, R_bind. destruct (m r) as [a r'| |]; [|done..].
  destruct Hm as (Hr' & Hsame & Ha). assert (end_ r' - start r' < SMALL) as Hs' by (destruct Hsame as (_ & -> & ->); done).
  specialize (Hk a Ha r' Hr' Hs'). destruct (k a r') as [b r2| |]; [|done..]. destruct Hk as (Hr2 & Hsame2 & Hb).
  split_and!; [done|by eapply same_file_trans|done].
Qed.
Lemma runs_fail {A} (Q : A -> Prop) : runs fail Q.
Proof. done. Qed.
Lemma runs_require b (Q : unit -> Prop) : (b = true -> Q tt) -> runs (require b) Q.
Proof. intros H. destruct b; [apply runs_ret; auto|apply runs_fail]. Qed.
Lemma runs_value {A} (o : option A) (Q : A -> Prop) a : o = Some a -> Q a -> runs (value o) Q.
Proof. intros -> H. by apply runs_ret. Qed.
Lemma runs_if {A} (b : bool) (m n : R A) (Q : A -> Prop) : (b = true -> runs m Q) -> (b = false -> runs n Q) -> runs (if b then m else n) Q.
Proof. destruct b; auto. Qed.

Lemma runs_advances {A} (m : R A) : advances m -> runs m (fun _ => True).
Proof.
  intros Hm r Hr Hs. specialize (Hm r Hr). destruct (m r); [|done..]. destruct Hm as (? & ? & ? & ? & ?). by split_and!.
Qed.
Lemma runs_u1 : runs parse_u1 (fun n => 0 <= n < 256).
Proof.
  intros r Hr Hs. pose proof (advances_u1 r Hr) as H. rewrite parse_u1_rest in H |- * by done. destruct (rest r) as [|c l]; [done|].
  destruct H as (? & ? & ? & ? & ?). split_and!; try done; apply byte_of_range.
Qed.
Lemma runs_u2 : runs parse_u2_be (fun n => 0 <= n < 2 ^ 16).
Proof.
  intros r Hr Hs. pose proof (advances_u2 r Hr) as H. rewrite parse_u2_rest in H |- * by done. destruct (rest r) as [|c [|d l]]; [done..|].
  destruct H as (? & ? & ? & ? & ?). split_and!; try done; apply be2_range.
Qed.
Lemma runs_u4 : runs parse_u4_be (fun n => 0 <= n < 2 ^ 32).
Proof.
  intros r Hr Hs. pose proof (advances_u4 r Hr) as H. rewrite parse_u4_rest in H |- * by done. destruct (rest r) as [|c [|d [|e [|f l]]]]; [done..|].
  destruct H as (? & ? & ? & ? & ?). split_and!; try done; apply be4_range.
Qed.

(** [skip] goes back as well, to the beginning of the file at most. *)
Lemma runs_skip n (Q : unit -> Prop) : Q tt -> runs (skip n) Q.
Proof.
  intros HQ r Hr Hs. unfold skip. destruct (have n r) eqn:Eh; [|done]. unfold have in Eh. apply andb_prop in Eh as [H1 H2].
  apply negb_true_iff, Z.ltb_ge in H1, H2. destruct Hr as [[Ha Hb] Hc Hd]. split_and!; [split; simpl; lia|done|done].
Qed.
Lemma runs_go_to n (Q : unit -> Prop) : Q tt -> runs (go_to_offset n) Q.
Proof. intros HQ r Hr Hs. exact (runs_skip (n - get_offset r) Q HQ r Hr Hs). Qed.
Lemma runs_look {A} (f : ByteReader -> A) (Q : A -> Prop) : (forall r, reader_ok r -> Q (f r)) -> runs (fun r => Done (f r) r) Q.
Proof. intros HQ r Hr Hs. split_and!; [done|apply same_file_refl|by apply HQ]. Qed.

Lemma runs_times {A} n (m : R A) (Q : A -> Prop) : runs m Q -> runs (times n m) (fun l => length l = n /\ Forall Q l).
Proof.
  intros Hm. induction n as [|n IH]; simpl; [by apply runs_ret|]. eapply runs_bind; [exact Hm|]. intros a Ha.
  eapply runs_bind; [exact IH|]. intros l [Hl HQ]. apply runs_ret. simpl. split; [lia|by constructor].
Qed.
Lemma runs_iterate {A} n (body : A -> R A) (I : A -> Prop) s : (forall a, I a -> runs (body a) I) -> I s -> runs (iterate n body s) I.
Proof.
  intros Hb. revert s. induction n as [|n IH]; intros s Hs; simpl; [by apply runs_ret|]. eapply runs_bind; [by apply Hb|]. apply IH.
Qed.
Lemma runs_measured {A} (m : R A) (Q : A -> Prop) : runs m Q -> runs (measured_ok m) (fun x => Q x.1).
Proof.
  intros Hm r Hr Hs. specialize (Hm r Hr Hs). unfold measured_ok, measured, mbind, R_bind. destruct (m r) as [a r'| |]; [|done..].
  by destruct (ux 32 _ =? 0).
Qed.
