(* ===== verification/VerTypes.v ===== *)
(** * Verification types: [verifier-3363/base/{stackmap.h,tpool.h,tpool.cpp,vf_resolve.cpp}]

    The types of the bytecode verifier as tagged words, the pool that numbers the
    names of classes, the test for assignability and the parts of the constant pool
    the verifier reads.  The class hierarchy and the resolution of fields and methods
    are a parameter.  [None] is a failed assertion.  The caches of the pool, which
    remember what it answers anyway, are left out. *)
From Stdlib Require Import Ascii.
From stdpp Require Import gmap strings.
From S2P Require Import Prelude.
Open Scope Z_scope.

(** ** [SmConstant] *)

Abbreviation SmConstant := Z (only parsing).

Definition SM_NONE : SmConstant := 0.
Definition SM_LOW_WORD : SmConstant := 1.
Definition SM_REF_OR_UNINIT_OR_RETADR : SmConstant := 3.
Definition SM_REF_OR_UNINIT : SmConstant := 5.
Definition SM_THISUNINIT : SmConstant := 7.
Definition SM_ANYARRAY : SmConstant := 9.
Definition SM_NULL : SmConstant := 11.
Definition SM_HIGH_WORD : SmConstant := 13.
Definition SM_INTEGER : SmConstant := 15.
Definition SM_FLOAT : SmConstant := 17.
Definition SM_BOGUS : SmConstant := 19.
Definition SM_LONG : SmConstant := 21.
Definition SM_DOUBLE : SmConstant := 23.

Definition TYPE_RETADDR : Z := 0x2000000.
Definition TYPE_REFERENCE : Z := 0x4000000.
Definition TYPE_NEWOBJECT : Z := 0x8000000.

Definition isRetAddr (c : SmConstant) : bool := negb (Z.land c TYPE_RETADDR =? 0).
Definition isReference (c : SmConstant) : bool := negb (Z.land c TYPE_REFERENCE =? 0).
Definition isNewObject (c : SmConstant) : bool := negb (Z.land c TYPE_NEWOBJECT =? 0).
Definition isPrimitive (c : SmConstant) : bool :=
  Z.land c (Z.lor TYPE_NEWOBJECT (Z.lor TYPE_REFERENCE TYPE_RETADDR)) =? 0.
Definition isLongOrDouble (c : SmConstant) : bool := (c =? SM_LONG) || (c =? SM_DOUBLE).

(** The index of a reference, the address of the [new] and of the subroutine; the
    complement of the tag is taken in 32 bits. *)
Definition untag (c tag : Z) : Z := Z.shiftr (Z.land c (ux 32 (Z.lnot tag))) 1.
Definition getReferenceIdx (c : SmConstant) : option Z := if isReference c then Some (untag c TYPE_REFERENCE) else None.
Definition getNewInstr (c : SmConstant) : option Z := if isNewObject c then Some (ux 16 (untag c TYPE_NEWOBJECT)) else None.
Definition getRetInstr (c : SmConstant) : option Z := if isRetAddr c then Some (ux 16 (untag c TYPE_RETADDR)) else None.

Definition getNewObject (instr : Z) : SmConstant := Z.lor (Z.shiftl instr 1) (Z.lor TYPE_NEWOBJECT 1).
Definition getRetAddr (instr : Z) : SmConstant := Z.lor (Z.shiftl instr 1) (Z.lor TYPE_RETADDR 1).
Definition getReference (idx : Z) : SmConstant := Z.lor (Z.shiftl idx 1) (Z.lor TYPE_REFERENCE 1).

(** ** Names *)

(** A character of a C string, which ends with NUL. *)
Definition char_at (s : string) (i : nat) : ascii := default "000"%char (String.get i s).
Definition is_char (a b : ascii) : bool := Ascii.eqb a b.
Definition str_from (s : string) (n : nat) : string := String.substring n (String.length s - n) s.
Definition str_take (s : string) (n : nat) : string := String.substring 0 n s.

(** [while (name[ptr] == '[') ptr++], and the same on two names at once. *)
Fixpoint count_brackets (s : string) : nat :=
  match s with String c s => if is_char c "["%char then S (count_brackets s) else O | EmptyString => O end.
Fixpoint common_brackets (s t : string) : nat :=
  match s, t with
  | String a s, String b t => if is_char a "["%char && is_char b "["%char then S (common_brackets s t) else O
  | _, _ => O
  end.

(** ** The world outside *)

(** The entries of a constant pool, by their tags. *)
Inductive cp_entry :=
  | CP_Utf8 (bytes : string) | CP_Integer | CP_Float | CP_Long | CP_Double
  | CP_Class (name_index : Z) | CP_String
  | CP_Fieldref (class_index name_and_type_index : Z)
  | CP_Methodref (class_index name_and_type_index : Z)
  | CP_InterfaceMethodref (class_index name_and_type_index : Z)
  | CP_NameAndType (name_index descriptor_index : Z)
  | CP_Unknown.

(** What the verifier asks the virtual machine: the class under verification with its
    constant pool and version, classes by their handles, and for the field or the
    method of a constant pool entry, when it resolves, what it is. *)
Record VM := MkVM {
  k_class : Z;
  k_major : Z;
  cp : list cp_entry;
  class_get_name : Z -> string;
  class_is_interface : Z -> bool;
  class_get_super_class : Z -> option Z;
  class_loader_lookup_class : string -> option Z;
  class_get_extended_class : Z -> string -> option Z;
  class_is_same_package : Z -> Z -> bool;
  nonstatic_field_is_protected : Z -> option bool;
  virtual_method : Z -> option (bool * string);
  hierarchy_depth : nat;
}.

(** ** The type pool *)

(** The class of a name: not asked for yet, [CLASS_NOT_LOADED], or a handle. *)
Inductive cls_state := Unasked | NotLoaded | Loaded (c : Z).
Record vf_ValidType := MkValidType { cls : cls_state; name : string }.

(** [hash] gives the index of a name that has one, [validTypes] begins with the entry
    of index 1; the constraints are pairs of a source and a target. *)
Record pool := MkPool {
  hash : gmap string Z;
  validTypes : list vf_ValidType;
  class_constraints : list (string * string);
}.
Definition new_pool : pool := MkPool ∅ [] [].
Definition validTypesTableSz (p : pool) : Z := 1 + Z.of_nat (length (validTypes p)).

(** Computations on the pool. *)
Definition P (A : Type) : Type := pool -> option (A * pool).
#[export] Instance P_ret : MRet P := fun A a p => Some (a, p).
#[export] Instance P_bind : MBind P := fun A B k m p => '(a, p) ← m p; k a p.
Definition passert (b : bool) : P unit := fun p => if b then Some (tt, p) else None.
Definition pfail {A} : P A := fun _ => None.
Definition plift {A} (o : option A) : P A := fun p => a ← o; Some (a, p).

Definition getVaildType (index : Z) : P vf_ValidType := fun p =>
  if (0 <? index) && (index <? validTypesTableSz p) then t ← validTypes p !! Z.to_nat (index - 1); Some (t, p) else None.
Definition set_cls (index : Z) (c : cls_state) : P unit := fun p =>
  Some (tt, MkPool (hash p) (alter (fun t => MkValidType c (name t)) (Z.to_nat (index - 1)) (validTypes p)) (class_constraints p)).

(** [check_table] and the initialisation of the new entry. *)
Definition check_table (nm : string) : P Z := fun p =>
  Some (validTypesTableSz p, MkPool (hash p) (validTypes p ++ [MkValidType Unasked nm]) (class_constraints p)).
Definition set_data_index (nm : string) (index : Z) : P unit := fun p =>
  Some (tt, MkPool (<[nm := index]> (hash p)) (validTypes p) (class_constraints p)).

Definition is_bool_array_conv_needed (type_name : string) (length : nat) : bool :=
  (1 <? length)%nat && is_char (char_at type_name (length - 1)) "Z"%char && is_char (char_at type_name (length - 2)) "["%char.

(** A name that is not in the pool gets the next index. *)
Definition new_ref_type (nm : string) : P Z := index ← check_table nm; _ ← set_data_index nm index; mret index.

(** [get_ref_type]: an array of booleans shares the type of the array of bytes; the name
    of the latter does not end in [Z], so that its own call does not go further. *)
Definition get_ref_type (type_name : string) (length : nat) : P SmConstant := fun p =>
  let nm := str_take type_name length in
  match hash p !! nm with
  | Some index => Some (getReference index, p)
  | None =>
      (if is_bool_array_conv_needed type_name length then
         let new_name := String.append (str_take type_name (length - 1)) "B" in
         '(index, p) ← (match hash p !! new_name with Some index => Some (index, p) | None => new_ref_type new_name p end);
         '(_, p) ← set_data_index nm index p; Some (getReference index, p)
       else '(index, p) ← new_ref_type nm p; Some (getReference index, p))
  end.
Definition ref_type (nm : string) : P SmConstant := get_ref_type nm (String.length nm).

Definition get_primitive_type (type_char : ascii) : option SmConstant :=
  if existsb (is_char type_char) ["I"; "B"; "Z"; "C"; "S"]%char then Some SM_INTEGER
  else if is_char type_char "J"%char then Some SM_LONG
  else if is_char type_char "F"%char then Some SM_FLOAT
  else if is_char type_char "V"%char then Some SM_BOGUS
  else if is_char type_char "D"%char then Some SM_DOUBLE
  else None.

(** [get_type] of a name and a length, and of a whole name. *)
Definition get_type_len (type_name : string) (name_len : nat) : P SmConstant :=
  if (1 <? name_len)%nat then
    if is_char (char_at type_name 0) "["%char then get_ref_type type_name name_len
    else if is_char (char_at type_name 0) "L"%char then get_ref_type (str_from type_name 1) (name_len - 2)
    else mret SM_BOGUS
  else plift (get_primitive_type (char_at type_name 0)).
Definition get_type (type_name : string) : P SmConstant := get_type_len type_name (String.length type_name).

Definition sm_get_refname (c : SmConstant) : P string :=
  index ← plift (getReferenceIdx c); t ← getVaildType index; mret (name t).

Definition get_ref_from_array (element : SmConstant) : P SmConstant :=
  if element =? SM_NULL then mret SM_NULL
  else
    nm ← sm_get_refname element;
    _ ← passert (is_char (char_at nm 0) "["%char);
    get_type (str_from nm 1).

Definition sm_get_const_object : P SmConstant := ref_type "java/lang/Object".
Definition sm_get_const_class : P SmConstant := ref_type "java/lang/Class".
Definition sm_get_const_string : P SmConstant := ref_type "java/lang/String".
Definition sm_get_const_throwable : P SmConstant := ref_type "java/lang/Throwable".
Definition sm_get_const_arrayref_of_bb : P SmConstant := ref_type "[B".
Definition sm_get_const_arrayref_of_char : P SmConstant := ref_type "[C".
Definition sm_get_const_arrayref_of_double : P SmConstant := ref_type "[D".
Definition sm_get_const_arrayref_of_float : P SmConstant := ref_type "[F".
Definition sm_get_const_arrayref_of_integer : P SmConstant := ref_type "[I".
Definition sm_get_const_arrayref_of_long : P SmConstant := ref_type "[J".
Definition sm_get_const_arrayref_of_short : P SmConstant := ref_type "[S".
Definition sm_get_const_arrayref_of_object : P SmConstant := ref_type "[Ljava/lang/Object;".
Definition sm_get_const_arrayref (see_spec : Z) : P SmConstant :=
  match see_spec with
  | 4 | 8 => sm_get_const_arrayref_of_bb
  | 5 => sm_get_const_arrayref_of_char
  | 6 => sm_get_const_arrayref_of_float
  | 7 => sm_get_const_arrayref_of_double
  | 9 => sm_get_const_arrayref_of_short
  | 10 => sm_get_const_arrayref_of_integer
  | 11 => sm_get_const_arrayref_of_long
  | _ => pfail
  end.

(** [NewConstraint]: a pair is recorded once. *)
Definition NewConstraint (available required : string) : P unit := fun p =>
  if bool_decide ((available, required) ∈ class_constraints p) then Some (tt, p)
  else Some (tt, MkPool (hash p) (validTypes p) ((available, required) :: class_constraints p)).

Section tpool.
Context (vm : VM).

Definition sm_get_const_this : P SmConstant := ref_type (class_get_name vm (k_class vm)).
Definition sm_get_const_super : P SmConstant :=
  super ← plift (class_get_super_class vm (k_class vm)); ref_type (class_get_name vm super).

(** [vf_is_extending]: [fuel] bounds the depth of the hierarchy. *)
Fixpoint is_extending_loop (fuel : nat) (from to : Z) : option bool :=
  match fuel with
  | O => None
  | S fuel =>
      if from =? to then Some true
      else match class_get_super_class vm from with None => Some false | Some super => is_extending_loop fuel super to end
  end.
Definition vf_is_extending (from to : Z) : option bool := is_extending_loop (hierarchy_depth vm) from to.

(** The class of an index, looked up the first time. *)
Definition resolve_cls (index : Z) : P (option Z) :=
  t ← getVaildType index;
  match cls t with
  | Loaded c => mret (Some c)
  | NotLoaded => mret None
  | Unasked =>
      match class_loader_lookup_class vm (name t) with
      | Some c => _ ← set_cls index (Loaded c); mret (Some c)
      | None => _ ← set_cls index NotLoaded; mret None
      end
  end.

(** [ref_mustbe_assignable]; the names get shorter in the calls, [fuel] is more than
    the length of the second name. *)
Fixpoint ref_assignable_loop (fuel : nat) (from to : SmConstant) : P bool :=
  match fuel with
  | O => pfail
  | S fuel =>
      object ← sm_get_const_object;
      if to =? object then mret true
      else
        to_idx ← plift (getReferenceIdx to); to_type ← getVaildType to_idx;
        from_idx ← plift (getReferenceIdx from); from_type ← getVaildType from_idx;
        let to_name := name to_type in
        let from_name := name from_type in
        let to_array := is_char (char_at to_name 0) "["%char in
        let from_array := is_char (char_at from_name 0) "["%char in
        if to_array && negb from_array then mret false
        else if to_array && from_array then
          let dim := common_brackets to_name from_name in
          let dim :=
            if negb (is_char (char_at from_name dim) "L"%char) && negb (is_char (char_at from_name dim) "["%char)
            then (dim - 1)%nat else dim in
          if negb (is_char (char_at to_name dim) "L"%char) then mret false
          else if is_char (char_at from_name dim) "L"%char then
            to' ← get_type (str_from to_name dim); from' ← get_type (str_from from_name dim);
            ref_assignable_loop fuel from' to'
          else
            to' ← get_type (str_from to_name dim); object ← sm_get_const_object;
            ref_assignable_loop fuel object to'
        else if from_array then
          _ ← passert (negb (from =? to));
          object ← sm_get_const_object;
          mret ((to =? object) || bool_decide (to_name = "java/lang/Cloneable") || bool_decide (to_name = "java/io/Serializable"))
        else
          to_cls ← resolve_cls to_idx;
          match to_cls with
          | None => _ ← NewConstraint from_name to_name; mret true
          | Some to_cls =>
              if class_is_interface vm to_cls then mret true
              else
                from_cls ← resolve_cls from_idx;
                match from_cls with
                | None => _ ← NewConstraint from_name to_name; mret true
                | Some from_cls => plift (vf_is_extending from_cls to_cls)
                end
          end
  end.
Definition ref_mustbe_assignable (from to : SmConstant) : P bool := fun p =>
  let len := match sm_get_refname to p with Some (to_name, _) => String.length to_name | None => O end in
  ref_assignable_loop (S (S len)) from to p.

Definition mustbe_assignable (from to : SmConstant) : P bool :=
  if (from =? to) || (to =? SM_NONE) || (to =? SM_BOGUS) then mret true
  else if from =? SM_BOGUS then mret false
  else if isReference to then
    if from =? SM_NULL then mret true
    else if isReference from then ref_mustbe_assignable from to
    else mret false
  else if negb (isPrimitive to) then mret false
  else
    _ ← passert (forallb (fun c => negb (from =? c))
          [SM_NONE; SM_LOW_WORD; SM_REF_OR_UNINIT_OR_RETADR; SM_REF_OR_UNINIT; SM_ANYARRAY; SM_BOGUS]);
    if to =? SM_LOW_WORD then mret (negb (from =? SM_HIGH_WORD))
    else if to =? SM_REF_OR_UNINIT_OR_RETADR then mret ((from =? SM_NULL) || (from =? SM_THISUNINIT) || negb (isPrimitive from))
    else if to =? SM_REF_OR_UNINIT then mret ((from =? SM_NULL) || (from =? SM_THISUNINIT) || isNewObject from || isReference from)
    else if to =? SM_ANYARRAY then
      if from =? SM_NULL then mret true
      else if isReference from then nm ← sm_get_refname from; mret (is_char (char_at nm 0) "["%char)
      else mret false
    else if existsb (Z.eqb to) [SM_THISUNINIT; SM_HIGH_WORD; SM_INTEGER; SM_FLOAT; SM_LONG; SM_DOUBLE; SM_BOGUS] then mret false
    else pfail.

(** ** Access to protected members *)

Definition checkSuperAndPackage (expected_ref : SmConstant) : P bool :=
  index ← plift (getReferenceIdx expected_ref);
  expected_type ← getVaildType index;
  referred ← resolve_cls index;
  let check c := if class_is_same_package vm (k_class vm) c then mret false else plift (vf_is_extending (k_class vm) c) in
  match referred with
  | Some c => check c
  | None =>
      match class_get_extended_class vm (k_class vm) (name expected_type) with
      | Some k => _ ← set_cls index (Loaded k); check k
      | None => mret false
      end
  end.

Inductive FieldAndMethodCheck := C_FALSE | C_CLONE | C_TRUE.

Definition checkVirtualAccess (expected_ref : SmConstant) (method_idx : Z) : P FieldAndMethodCheck :=
  b ← checkSuperAndPackage expected_ref;
  if negb b then mret C_FALSE
  else match virtual_method vm method_idx with
    | None => mret C_FALSE
    | Some (protected, nm) =>
        mret (if negb protected then C_FALSE else if bool_decide (nm = "clone") then C_CLONE else C_TRUE)
    end.
Definition checkFieldAccess (expected_ref : SmConstant) (field_idx : Z) : P FieldAndMethodCheck :=
  b ← checkSuperAndPackage expected_ref;
  if negb b then mret C_FALSE
  else match nonstatic_field_is_protected vm field_idx with
    | Some true => mret C_TRUE
    | _ => mret C_FALSE
    end.

(** ** The constant pool *)

Definition k_cp_length : Z := Z.of_nat (length (cp vm)).
(** An entry with a valid index; the bytes of a string, asserted to be one. *)
Definition cp_get (cp_idx : Z) : option cp_entry :=
  if (0 <? cp_idx) && (cp_idx <? k_cp_length) then cp vm !! Z.to_nat cp_idx else None.
Definition class_cp_get_utf8_bytes (idx : Z) : option string :=
  match cp_get idx with Some (CP_Utf8 s) => Some s | _ => None end.

Definition cpool_get_ldcarg (cp_idx : Z) : P SmConstant :=
  match cp_get cp_idx with
  | Some CP_String => sm_get_const_string
  | Some CP_Integer => mret SM_INTEGER
  | Some CP_Float => mret SM_FLOAT
  | Some (CP_Class _) => if k_major vm <? 49 then mret SM_BOGUS else sm_get_const_class
  | _ => mret SM_BOGUS
  end.
Definition cpool_get_ldc2arg (cp_idx : Z) : SmConstant :=
  match cp_get cp_idx with Some CP_Double => SM_DOUBLE | Some CP_Long => SM_LONG | _ => SM_BOGUS end.
Definition cpool_is_reftype (cp_idx : Z) : bool :=
  match cp_get cp_idx with Some (CP_Class _) => true | _ => false end.

(** The name of a class entry; [Some None] is the failure the code tests for. *)
Definition class_name (cp_idx : Z) : option (option string) :=
  match cp_get cp_idx with
  | Some (CP_Class name_idx) =>
      if k_cp_length <=? name_idx then Some None else s ← class_cp_get_utf8_bytes name_idx; Some (Some s)
  | _ => Some None
  end.

(** [want] is whether the caller passes a place for the type. *)
Definition cpool_get_class (cp_idx : Z) (want : bool) (expected_dim : Z) : P (option SmConstant) :=
  nm ← plift (class_name cp_idx);
  match nm with
  | None => mret None
  | Some nm =>
      let ptr := Z.of_nat (count_brackets nm) in
      if (ptr <? expected_dim) || (255 <? ptr) then mret None
      else if negb (ptr =? 0) && (expected_dim =? -1) then mret None
      else if want then c ← ref_type nm; mret (Some c) else mret (Some SM_NONE)
  end.

Definition cpool_get_array (cp_idx : Z) : P (option SmConstant) :=
  nm ← plift (class_name cp_idx);
  match nm with
  | None => mret None
  | Some nm =>
      if 254 <? Z.of_nat (count_brackets nm) then mret None
      else
        c ← ref_type (if is_char (char_at nm 0) "["%char then String "[" nm else String "[" (String "L" (String.append nm ";")));
        mret (Some c)
  end.

(** The indices of the name and of the descriptor of a [NameAndType] entry. *)
Definition name_and_type (idx : Z) : option (Z * Z) :=
  match cp_get idx with Some (CP_NameAndType n d) => Some (n, d) | _ => None end.

Definition cpool_get_field (cp_idx : Z) (want_ref : bool) : P (option (SmConstant * SmConstant)) :=
  match cp_get cp_idx with
  | Some (CP_Fieldref class_idx name_and_type_idx) =>
      ref ← cpool_get_class class_idx want_ref 0;
      match ref with
      | None => mret None
      | Some ref =>
          match name_and_type name_and_type_idx with
          | None => mret None
          | Some (_, type_idx) =>
              match class_cp_get_utf8_bytes type_idx with
              | None => mret None
              | Some type => value ← get_type type; mret (Some (ref, value))
              end
          end
      end
  | _ => mret None
  end.

(** The descriptor, the class of the receiver and the index of the name of a method. *)
Definition cpool_method_start (cp_idx : Z) (is_interface has_class : bool) : P (option (string * SmConstant * Z)) :=
  let start class_idx name_and_type_idx :=
    ref ← cpool_get_class class_idx has_class 0;
    match ref with
    | None => mret None
    | Some ref =>
        objectref ← (if has_class then mret ref else sm_get_const_object);
        match name_and_type name_and_type_idx with
        | None => mret None
        | Some (name_idx, type_idx) =>
            match class_cp_get_utf8_bytes name_idx, class_cp_get_utf8_bytes type_idx with
            | Some _, Some descriptor => mret (Some (descriptor, objectref, name_idx))
            | _, _ => mret None
            end
        end
    end in
  match cp_get cp_idx with
  | Some (CP_InterfaceMethodref c n) => if is_interface then start c n else mret None
  | Some (CP_Methodref c n) => if is_interface then mret None else start c n
  | _ => mret None
  end.

(** The loop that counts the words of the arguments: the count and what follows the
    parenthesis. *)
Fixpoint count_args (previous : ascii) (on : bool) (s : string) (args_sz : Z) : option (Z * string) :=
  match s with
  | EmptyString => None
  | String current s =>
      if is_char current ")"%char then Some (args_sz, s)
      else
        let on := if is_char current "L"%char then false else on in
        let on := if is_char current ";"%char then true else on in
        let args_sz :=
          if on && negb (is_char current "["%char) then
            if (is_char current "J"%char || is_char current "D"%char) && negb (is_char previous "["%char)
            then args_sz + 2 else args_sz + 1
          else args_sz in
        count_args current on s args_sz
  end.

(** The return type, the number of words of the arguments and the first argument, if
    there is one. *)
Definition cpool_method_get_rettype (state : string) : P (option (SmConstant * Z * option string)) :=
  match state with
  | String c s =>
      if negb (is_char c "("%char) then mret None
      else match count_args c true s 0 with
        | None => mret None
        | Some (args_sz, ret) =>
            rettype ← get_type ret;
            mret (Some (rettype, args_sz, if is_char (char_at s 0) ")"%char then None else Some s))
        end
  | EmptyString => mret None
  end.

(** The position of the first [;] from [i] on. *)
Fixpoint find_semicolon (s : string) (i : nat) (fuel : nat) : option nat :=
  match fuel with
  | O => None
  | S fuel => if is_char (char_at s i) ";"%char then Some i else find_semicolon s (S i) fuel
  end.

(** The type of the argument [state] begins with and the next argument. *)
Definition cpool_method_next_arg (state : string) : P (SmConstant * option string) :=
  let len := count_brackets state in
  len ← plift (if is_char (char_at state len) "L"%char then find_semicolon state (S len) (String.length state) else Some len);
  let len := S len in
  argument ← get_type_len state len;
  mret (argument, if is_char (char_at state len) ")"%char then None else Some (str_from state len)).

Definition cpool_method_is_constructor_call (name_idx : Z) : option bool :=
  s ← class_cp_get_utf8_bytes name_idx; Some (bool_decide (s = "<init>")).
End tpool.
