(* ===== verification/ClassNames.v ===== *)
(** * Names and descriptors of class files: [class_support/Class_File_Loader.cpp]

    The bytes of [CONSTANT_Utf8] entries, and the checks of names and descriptors.  A
    string of the pool of strings ends with NUL; a pointer into it is the rest of the
    string.  Two strings of the pool are the same when their contents are.  [None] is a
    failed assertion or a read after the NUL. *)
From Stdlib Require Import Ascii.
From stdpp Require Import strings.
From S2P Require Import Prelude ByteReader VerTypes.

(** ** [class_file_parse_utf8data] *)

Definition HIGH_NONZERO_BIT : Z := 0x80.
Definition HIGH_TWO_NONZERO_BITS : Z := 0xc0.
Definition HIGH_THREE_NONZERO_BITS : Z := 0xe0.
Definition HIGH_FOUR_NONZERO_BITS : Z := 0xf0.

Definition is_cont (b : Z) : bool := Z.land b HIGH_TWO_NONZERO_BITS =? HIGH_NONZERO_BIT.

(** The loop over [utf8data]; [read_len] is a [uint16].  It runs at most [len] times. *)
Fixpoint utf8_loop (fuel : nat) (utf8data : Z -> option Z) (len i read_len : Z) : option bool :=
  match fuel with
  | O => Some true
  | S fuel =>
      if len <=? i then Some true
      else
        b ← utf8data i;
        if Z.land b HIGH_NONZERO_BIT =? 0 then
          if b =? 0 then Some false else utf8_loop fuel utf8data len (i + 1) (ux 16 (read_len + 1))
        else if Z.land b HIGH_THREE_NONZERO_BITS =? HIGH_TWO_NONZERO_BITS then
          let read_len := ux 16 (read_len + 2) in
          if len <? read_len then Some false
          else
            c ← utf8data (i + 1);
            if negb (is_cont c) then Some false else utf8_loop fuel utf8data len (i + 2) read_len
        else if Z.land b HIGH_FOUR_NONZERO_BITS =? HIGH_THREE_NONZERO_BITS then
          let read_len := ux 16 (read_len + 3) in
          if len <? read_len then Some false
          else
            c ← utf8data (i + 1);
            if negb (is_cont c) then Some false
            else
              d ← utf8data (i + 2);
              if negb (is_cont d) then Some false else utf8_loop fuel utf8data len (i + 3) read_len
        else Some false
  end.

Definition class_file_parse_utf8data (len : Z) : R string := fun r =>
  if negb (have len r) then Fails
  else
    match get_and_skip len r with
    | Done bytes r' =>
        match utf8_loop (Z.to_nat len) (fun i => byte_of <$> bytebuffer r !! Z.to_nat (curr r + i)) len 0 0 with
        | Some true => Done (String.string_of_list_ascii bytes) r'
        | Some false => Fails
        | None => Wild
        end
    | Fails => Fails
    | Wild => Wild
    end.
Definition class_file_parse_utf8 : R string := len ← parse_u2_be; class_file_parse_utf8data len.

(** ** Names *)

Section names.
(** ICU's tests of characters. *)
Context (u_isalpha u_isalnum : Z -> bool).

(** [name[i]], which may be the NUL. *)
Definition name_byte (name : string) (i : nat) : option Z :=
  if (i <=? String.length name)%nat then Some (byte_of (char_at name i)) else None.

Fixpoint identifier_loop (fuel : nat) (name : string) (len i : nat) : option bool :=
  match fuel with
  | O => Some true
  | S fuel =>
      if (len <=? i)%nat then Some true
      else
        x ← name_byte name i;
        '(u_ch, ch_len) ← (
          if negb (Z.land x 0x80 =? 0) then
            if Z.land x 0x40 =? 0 then None
            else if negb (Z.land x 0x20 =? 0) then
              y ← name_byte name (i + 1); z ← name_byte name (i + 2);
              Some (Z.shiftl (Z.land 0x0f x) 12 + Z.shiftl (Z.land 0x3f y) 6 + Z.land 0x3f z, 3%nat)
            else y ← name_byte name (i + 1); Some (Z.shiftl (Z.land 0x1f x) 6 + Z.land 0x3f y, 2%nat)
          else Some (x, 1%nat));
        let ok := (if (i =? 0)%nat then u_isalpha u_ch else u_isalnum u_ch) || (u_ch =? 36) || (u_ch =? 95) in
        if negb ok then Some false else identifier_loop fuel name len (i + ch_len)
  end.
Definition is_identifier (name : string) (len : nat) : option bool := identifier_loop len name len 0.

Fixpoint member_name_loop (fuel : nat) (name : string) (len i : nat) (is_method : bool) : option bool :=
  match fuel with
  | O => Some true
  | S fuel =>
      if (len <=? i)%nat then Some true
      else
        x ← name_byte name i;
        if Z.land x 0x80 =? 0 then
          let c := char_at name i in
          if existsb (is_char c) ["."; ";"; "["; "/"]%char then Some false
          else if is_method && existsb (is_char c) ["<"; ">"]%char then Some false
          else member_name_loop fuel name len (i + 1) is_method
        else if Z.land x 0x40 =? 0 then None
        else if negb (Z.land x 0x20 =? 0) then
          if (len <? i + 3)%nat then Some false else member_name_loop fuel name len (i + 3) is_method
        else if (len <? i + 2)%nat then Some false else member_name_loop fuel name len (i + 2) is_method
  end.
Definition is_valid_member_name (name : string) (len : nat) (old_version is_method : bool) : option bool :=
  if old_version then is_identifier name len else member_name_loop len name len 0 is_method.

(** ** Descriptors *)

(** The name of a class up to the semicolon, part by part: what follows it. *)
Fixpoint class_descriptor (descriptor : string) (id_len : nat) (iterator : string) (old_version : bool) : option (option string) :=
  match iterator with
  | EmptyString => Some None
  | String c next =>
      if is_char c ";"%char then b ← is_valid_member_name descriptor id_len old_version false; Some (if b : bool then Some next else None)
      else if is_char c "/"%char then
        b ← is_valid_member_name descriptor id_len old_version false;
        if negb b then Some None else class_descriptor next 0 next old_version
      else class_descriptor descriptor (S id_len) next old_version
  end.

(** All but arrays; [Some None] is [false], otherwise [*next]. *)
Definition is_valid_base_descriptor (descriptor : string) (is_void_legal old_version : bool) : option (option string) :=
  match descriptor with
  | EmptyString => Some None
  | String c next =>
      if existsb (is_char c) ["B"; "C"; "D"; "F"; "I"; "J"; "S"; "Z"]%char then Some (Some next)
      else if is_char c "V"%char then Some (if is_void_legal then Some next else None)
      else if is_char c "L"%char then class_descriptor next 0 next old_version
      else Some None
  end.
(** [while( *(++descriptor) == '[')]: the number of brackets, and what follows them, which is
    not a bracket, so that the function calls itself once. *)
Fixpoint strip_brackets (s : string) : nat * string :=
  match s with
  | String c next => if is_char c "["%char then let '(n, s) := strip_brackets next in (S n, s) else (O, s)
  | EmptyString => (O, s)
  end.
Definition is_valid_member_descriptor (descriptor : string) (is_void_legal old_version : bool) : option (option string) :=
  let '(dim, next) := strip_brackets descriptor in
  if (255 <? dim)%nat then Some None else is_valid_base_descriptor next is_void_legal old_version.

(** The loop over the arguments, each of which has a character at least. *)
Fixpoint method_arguments (fuel : nat) (descriptor : string) (old_version : bool) : option (option string) :=
  match fuel with
  | O => Some None
  | S fuel =>
      if is_char (char_at descriptor 0) ")"%char then Some (Some descriptor)
      else
        r ← is_valid_member_descriptor descriptor false old_version;
        match r with
        | None | Some EmptyString => Some None
        | Some next => method_arguments fuel next old_version
        end
  end.
Definition check_method_descriptor (descriptor : string) (old_version : bool) : option bool :=
  match descriptor with
  | String c args =>
      if negb (is_char c "("%char) then Some false
      else
        r ← method_arguments (S (String.length args)) args old_version;
        match r with
        | Some (String _ ret) =>
            n ← is_valid_member_descriptor ret true old_version;
            Some (match n with Some EmptyString => true | _ => false end)
        | _ => Some false
        end
  | EmptyString => Some false
  end.

Fixpoint class_name_loop (name : string) (id_len : nat) (iterator : string) (old_version : bool) : option bool :=
  match iterator with
  | EmptyString => is_valid_member_name name id_len old_version false
  | String c next =>
      if negb (is_char c "/"%char) then class_name_loop name (S id_len) next old_version
      else
        b ← is_valid_member_name name id_len old_version false;
        if negb b then Some false else class_name_loop next 0 next old_version
  end.
Definition check_class_name (name : string) (old_version : bool) : option bool :=
  if (String.length name =? 0)%nat then Some false
  else if is_char (char_at name 0) "["%char then
    n ← is_valid_member_descriptor name false old_version;
    Some (match n with Some EmptyString => true | _ => false end)
  else class_name_loop name 0 name old_version.
End names.
