(* ===== verification/ClassNamesOk.v ===== *)
(** * Names and descriptors: what the checks accept, and that the verifier reads an
    accepted descriptor the way the loader does. *)
From Stdlib Require Import Ascii.
From stdpp Require Import strings.
From S2P Require Import Prelude ByteReader VerTypes ClassNames.

(** ** UTF-8 *)

Definition is_one (b : Z) : bool := Z.land b HIGH_NONZERO_BIT =? 0.
Definition is_two (b : Z) : bool := Z.land b HIGH_THREE_NONZERO_BITS =? HIGH_TWO_NONZERO_BITS.
Definition is_three (b : Z) : bool := Z.land b HIGH_FOUR_NONZERO_BITS =? HIGH_THREE_NONZERO_BITS.

(** Characters of one byte that is not NUL, of two bytes and of three. *)
Fixpoint valid_utf8 (l : list ascii) : bool :=
  match l with
  | [] => true
  | b :: l1 =>
      if is_one (byte_of b) then negb (byte_of b =? 0) && valid_utf8 l1
      else if is_two (byte_of b) then
        match l1 with c :: l2 => is_cont (byte_of c) && valid_utf8 l2 | _ => false end
      else if is_three (byte_of b) then
        match l1 with c :: d :: l3 => is_cont (byte_of c) && is_cont (byte_of d) && valid_utf8 l3 | _ => false end
      else false
  end.

(** What [utf8data] points at from [i] on. *)
Definition points_at (utf8data : Z -> option Z) (i : Z) (l : list ascii) : Prop :=
  forall j c, l !! j = Some c -> utf8data (i + Z.of_nat j) = Some (byte_of c).

Lemma points_at_cons utf8data i c l : points_at utf8data i (c :: l) -> utf8data i = Some (byte_of c) /\ points_at utf8data (i + 1) l.
Proof.
  intros H. split; [specialize (H O c eq_refl); by rewrite Z.add_0_r in H|].
  intros j d Hj. specialize (H (S j) d Hj). rewrite <- H. f_equal. lia.
Qed.

Lemma utf8_loop_ok fuel utf8data len i l : points_at utf8data i l -> len = i + Z.of_nat (length l) -> 0 <= i -> len < 65534 ->
  (length l <= fuel)%nat -> utf8_loop fuel utf8data len i i = Some (valid_utf8 l).
Proof.
  revert i l. induction fuel as [|fuel IH]; intros i l Hp Hlen Hi Hb Hf; [by destruct l; [|simpl in Hf; lia]|].
  destruct l as [|b l1]; simpl in Hlen |- *.
  { by rewrite (proj2 (Z.leb_le _ _)) by lia. }
  rewrite (proj2 (Z.leb_gt _ _)) by lia. apply points_at_cons in Hp as [Hd Hp]. rewrite Hd. simpl in Hf |- *.
  unfold is_one, is_two, is_three. destruct (Z.land (byte_of b) HIGH_NONZERO_BIT =? 0).
  { destruct (byte_of b =? 0); [done|]. rewrite ux_id by (unfold is_u; simpl; lia). simpl. apply IH; done || lia. }
  destruct (Z.land (byte_of b) HIGH_THREE_NONZERO_BITS =? HIGH_TWO_NONZERO_BITS).
  { rewrite ux_id by (unfold is_u; simpl; lia). destruct l1 as [|c l2]; simpl in Hlen, Hf.
    { by rewrite (proj2 (Z.ltb_lt _ _)) by lia. }
    rewrite (proj2 (Z.ltb_ge _ _)) by lia. apply points_at_cons in Hp as [Hc Hp]. rewrite Hc. simpl.
    destruct (is_cont (byte_of c)); [|done]. simpl. apply IH; try lia. by replace (i + 2) with (i + 1 + 1) by lia. }
  destruct (Z.land (byte_of b) HIGH_FOUR_NONZERO_BITS =? HIGH_THREE_NONZERO_BITS); [|done].
  rewrite ux_id by (unfold is_u; simpl; lia). destruct l1 as [|c [|d l3]]; simpl in Hlen, Hf; try by rewrite (proj2 (Z.ltb_lt _ _)) by lia.
  rewrite (proj2 (Z.ltb_ge _ _)) by lia. apply points_at_cons in Hp as [Hc Hp]. rewrite Hc. simpl.
  apply points_at_cons in Hp as [Hd2 Hp]. destruct (is_cont (byte_of c)); [|done]. simpl.
  replace (i + 1 + 1) with (i + 2) in Hd2 by lia. rewrite Hd2. simpl. destruct (is_cont (byte_of d)); [|done]. simpl.
  apply IH; try lia. by replace (i + 3) with (i + 1 + 1 + 1) by lia.
Qed.

(** An entry of fewer than 65534 bytes is accepted exactly when the bytes are there and
    are characters of one byte other than NUL, of two bytes and of three, and then its
    string is those bytes; the check reads no byte after them. *)
Lemma utf8data_spec len r : reader_ok r -> 0 <= len < 65534 ->
  class_file_parse_utf8data len r =
    if (len <=? Z.of_nat (length (rest r))) && valid_utf8 (take (Z.to_nat len) (rest r))
    then Done (String.string_of_list_ascii (take (Z.to_nat len) (rest r))) (move r len) else Fails.
Proof.
  intros Hr Hl. unfold class_file_parse_utf8data, get_and_skip. rewrite have_rest by (done || lia).
  destruct (Z.leb_spec len (Z.of_nat (length (rest r)))) as [Hle|]; [|done]. simpl.
  assert (Htake : take (Z.to_nat len) (drop (Z.to_nat (curr r)) (bytebuffer r)) = take (Z.to_nat len) (rest r)).
  { unfold rest. rewrite take_take. f_equal. rewrite (rest_length r Hr) in Hle. lia. }
  rewrite (utf8_loop_ok _ _ len 0 (take (Z.to_nat len) (rest r))).
  - rewrite Htake, sx_id by (unfold is_s; simpl; lia). by destruct (valid_utf8 _).
  - intros j c Hj. rewrite <- Htake in Hj. apply lookup_take_Some in Hj as [Hj Hlt]. rewrite lookup_drop in Hj.
    pose proof (ok_start r Hr). replace (Z.to_nat (curr r + (0 + Z.of_nat j))) with (Z.to_nat (curr r) + j)%nat by lia. by rewrite Hj.
  - rewrite length_take. lia.
  - lia.
  - lia.
  - rewrite length_take. lia.
Qed.

(** The loop over characters of one byte. *)
Lemma utf8_loop_ones fuel utf8data len i l : points_at utf8data i l -> Forall (fun c => is_one (byte_of c) = true /\ byte_of c <> 0) l ->
  i + Z.of_nat (length l) <= len -> 0 <= i -> len < 65536 ->
  utf8_loop (length l + fuel) utf8data len i i = utf8_loop fuel utf8data len (i + Z.of_nat (length l)) (i + Z.of_nat (length l)).
Proof.
  intros Hp Hl. revert i Hp. induction Hl as [|c l [Hc Hn] Hl IH]; intros i Hp Hlen Hi Hb; simpl in Hlen |- *.
  - by rewrite Z.add_0_r.
  - rewrite (proj2 (Z.leb_gt _ _)) by lia. apply points_at_cons in Hp as [Hd Hp]. rewrite Hd. simpl. unfold is_one in Hc. rewrite Hc.
    rewrite (proj2 (Z.eqb_neq _ _)) by done. rewrite ux_id by (unfold is_u; simpl; lia). rewrite IH by (done || lia).
    f_equal; lia.
Qed.

(** The length wraps to zero and passes. *)
Lemma utf8_loop_wraps fuel utf8data b : utf8data 65533 = Some b -> is_three b = true -> utf8data (65533 + 1) = None ->
  utf8_loop (S fuel) utf8data 65534 65533 65533 = None.
Proof.
  intros Hb H3 Hn. assert (H12 : is_one b = false /\ is_two b = false).
  { unfold is_one, is_two, is_three in *. apply Z.eqb_eq in H3. unfold HIGH_NONZERO_BIT, HIGH_TWO_NONZERO_BITS, HIGH_THREE_NONZERO_BITS, HIGH_FOUR_NONZERO_BITS in *.
    assert (Hland : forall m, Z.land b (Z.land 0xf0 m) = Z.land 0xe0 m) by (intros m; by rewrite Z.land_assoc, H3).
    pose proof (Hland 0x80 : Z.land b 0x80 = 0x80) as H1. pose proof (Hland 0xe0 : Z.land b 0xe0 = 0xe0) as H2. by rewrite H1, H2. }
  simpl. rewrite Hb. simpl. destruct H12 as [H1 H2]. unfold is_one, is_two, is_three in *. rewrite H1, H2, H3. simpl in Hn. by rewrite Hn.
Qed.

(** [read_len] has 16 bits: in an entry of 65534 bytes whose last byte begins a
    character of three bytes it wraps to zero, passes for not more than the length, and
    the check reads beyond the entry; with the entry at the end of the file it reads
    beyond the file. *)
Theorem utf8_overread l c : Z.of_nat (length l) = 65533 -> Forall (fun c => is_one (byte_of c) = true /\ byte_of c <> 0) l ->
  is_three (byte_of c) = true -> class_file_parse_utf8data 65534 (new_reader (l ++ [c]) 0 65534) = Wild.
Proof.
  intros Hl Hone Hc. set (r := new_reader (l ++ [c]) 0 65534).
  assert (Hlen : Z.of_nat (length (l ++ [c])) = 65534) by (rewrite length_app; simpl; lia).
  assert (Hr : reader_ok r) by (split; simpl; lia).
  unfold class_file_parse_utf8data, get_and_skip. rewrite have_rest by (done || lia).
  rewrite (proj2 (Z.leb_le 65534 _)) by (rewrite (rest_length r Hr); simpl; lia). cbn [negb]. cbv iota.
  replace (Z.to_nat 65534) with (length l + 1)%nat by lia.
  set (utf8data := fun i => byte_of <$> bytebuffer r !! Z.to_nat (curr r + i)).
  assert (Hp : points_at utf8data 0 (l ++ [c])).
  { intros j d Hj. unfold utf8data, r, new_reader. cbn [bytebuffer curr]. by rewrite !Z.add_0_l, Nat2Z.id, Hj. }
  rewrite utf8_loop_ones; [|by intros j d Hj; apply Hp; apply lookup_app_l_Some|done|lia..].
  rewrite Hl. change (0 + 65533) with 65533. rewrite (utf8_loop_wraps 0 utf8data (byte_of c)); [done| |done|].
  - specialize (Hp (length l) c). rewrite lookup_app_r, Nat.sub_diag, Hl in Hp by lia. by apply Hp.
  - unfold utf8data. simpl bytebuffer. simpl curr. rewrite (lookup_ge_None_2 (l ++ [c])); [done|lia].
Qed.

Lemma utf8_overread_witness : exists buf, class_file_parse_utf8data 65534 (new_reader buf 0 65534) = Wild.
Proof.
  exists (replicate (Z.to_nat 65533) "a"%char ++ [ascii_of_N 0xe0]).
  apply (utf8_overread (replicate (Z.to_nat 65533) "a"%char) (ascii_of_N 0xe0)); [rewrite length_replicate; lia| |by vm_compute].
  apply Forall_replicate. by vm_compute.
Defined.

(** ** Names *)

Abbreviation la := String.list_ascii_of_string (only parsing).

Lemma la_app s t : la (String.append s t) = la s ++ la t.
Proof. induction s as [|c s IH]; simpl; [done|]. by rewrite IH. Qed.
Lemma la_length s : length (la s) = String.length s.
Proof. induction s as [|c s IH]; simpl; [done|]. by rewrite IH. Qed.
Lemma char_at_la s i c : la s !! i = Some c -> char_at s i = c /\ (i < String.length s)%nat.
Proof.
  revert i. induction s as [|d s IH]; intros [|i] H; simpl in H; try done.
  - injection H as ->. split; [done|]. simpl. lia.
  - destruct (IH i H) as [H1 H2]. split; [done|]. simpl. lia.
Qed.

(** The characters of the ASCII set are no part of a longer one. *)
Lemma one_not_cont b : is_one b = true -> is_cont b = false.
Proof.
  unfold is_one, is_cont, HIGH_NONZERO_BIT, HIGH_TWO_NONZERO_BITS. intros H. apply Z.eqb_eq in H. apply Z.eqb_neq. intros Hc.
  assert (Z.land b (Z.land 0xc0 0x80) = Z.land 0x80 0x80) as H1 by (by rewrite Z.land_assoc, Hc). change (Z.land b 0x80 = 0x80) in H1. congruence.
Qed.

(** A string of characters ends where an ASCII character stands. *)
Lemma valid_utf8_split l c k : valid_utf8 (l ++ c :: k) = true -> is_one (byte_of c) = true ->
  valid_utf8 l = true /\ valid_utf8 k = true.
Proof.
  intros H Hc. pose proof (one_not_cont _ Hc) as Hn. revert H.
  induction l as [l IH] using (induction_ltof1 _ (@length ascii)). unfold ltof in IH. destruct l as [|b l1]; simpl.
  - rewrite Hc. intros H. by apply andb_prop in H as [_ H].
  - destruct (is_one (byte_of b)).
    { intros H. apply andb_prop in H as [H0 H]. apply IH in H as [H1 H2]; [|simpl; lia]. by rewrite H0, H1. }
    destruct (is_two (byte_of b)).
    { destruct l1 as [|d l2]; simpl; [by rewrite Hn|]. intros H. apply andb_prop in H as [H0 H].
      apply IH in H as [H1 H2]; [|simpl; lia]. by rewrite H0, H1. }
    destruct (is_three (byte_of b)); [|done]. destruct l1 as [|d [|e l3]]; simpl; [destruct k; [done|]; by rewrite Hn|by rewrite Hn, andb_false_r|].
    intros H. apply andb_prop in H as [H0 H]. apply IH in H as [H1 H2]; [|simpl; lia]. by rewrite H0, H1.
Qed.

(** What a name may not have. *)
Definition name_char (is_method : bool) (c : ascii) : bool :=
  negb (existsb (is_char c) ["."; ";"; "["; "/"]%char) && negb (is_method && existsb (is_char c) ["<"; ">"]%char).

(** The bits the code tests. *)
Lemma lead_bits b : is_one b = false -> is_two b = true \/ is_three b = true ->
  (Z.land b 0x40 =? 0) = false /\ (Z.land b 0x20 =? 0) = is_two b.
Proof.
  unfold is_one, is_two, is_three, HIGH_NONZERO_BIT, HIGH_TWO_NONZERO_BITS, HIGH_THREE_NONZERO_BITS, HIGH_FOUR_NONZERO_BITS.
  intros _ [H|H].
  - rewrite H. apply Z.eqb_eq in H. assert (forall m, Z.land b (Z.land 0xe0 m) = Z.land 0xc0 m) as Hm by (intros m; by rewrite Z.land_assoc, H).
    pose proof (Hm 0x40 : Z.land b 0x40 = 0x40) as ->. pose proof (Hm 0x20 : Z.land b 0x20 = 0) as ->. done.
  - apply Z.eqb_eq in H. assert (forall m, Z.land b (Z.land 0xf0 m) = Z.land 0xe0 m) as Hm by (intros m; by rewrite Z.land_assoc, H).
    pose proof (Hm 0x40 : Z.land b 0x40 = 0x40) as ->. pose proof (Hm 0x20 : Z.land b 0x20 = 0x20) as ->. pose proof (Hm 0xe0 : Z.land b 0xe0 = 0xe0) as ->. done.
Qed.

(** A byte of a longer character is no ASCII character. *)
Lemma high_name_char b m : is_one (byte_of b) = false -> name_char m b = true.
Proof. destruct b as [[] [] [] [] [] [] [] []]; vm_compute; destruct m; congruence. Qed.
Lemma cont_not_one b : is_cont b = true -> is_one b = false.
Proof. intros H. destruct (is_one b) eqn:E; [|done]. apply one_not_cont in E. congruence. Qed.

Lemma member_name_loop_spec fuel s len i is_method l : (forall j c, l !! j = Some c -> la s !! (i + j)%nat = Some c) ->
  (len = i + length l)%nat -> (length l <= fuel)%nat -> valid_utf8 l = true ->
  member_name_loop fuel s len i is_method = Some (forallb (name_char is_method) l).
Proof.
  revert i l. induction fuel as [|fuel IH]; intros i l Hp Hlen Hf Hv; [by destruct l; [|simpl in Hf; lia]|].
  cbn [member_name_loop]. destruct l as [|b l1]; simpl in Hlen, Hf.
  { by rewrite (proj2 (Nat.leb_le _ _)) by lia. }
  rewrite (proj2 (Nat.leb_gt _ _)) by lia.
  destruct (char_at_la s i b) as [Hb Hlt]. { rewrite <- (Hp O b eq_refl). f_equal. lia. }
  unfold name_byte. rewrite (proj2 (Nat.leb_le _ _)) by lia. rewrite Hb. cbn [mbind option_bind forallb].
  assert (Hshift : forall (n : nat) (l' : list ascii), (forall j c, l' !! j = Some c -> (b :: l1) !! (n + j)%nat = Some c) ->
    forall j c, l' !! j = Some c -> la s !! (i + n + j)%nat = Some c).
  { intros n l' Hl j c Hj. rewrite <- Nat.add_assoc. by apply Hp, Hl. }
  change (Z.land (byte_of b) 0x80 =? 0) with (is_one (byte_of b)).
  simpl in Hv. destruct (is_one (byte_of b)) eqn:E1.
  { apply andb_prop in Hv as [_ Hv]. unfold name_char at 1.
    destruct (existsb (is_char b) ["."%char; ";"%char; "["%char; "/"%char]); [done|].
    destruct (is_method && existsb (is_char b) ["<"%char; ">"%char]) eqn:Em; [done|]. cbn [negb andb].
    apply IH; [by apply (Hshift 1%nat l1)|lia|lia|done]. }
  rewrite (high_name_char b is_method E1). cbn [andb].
  destruct (is_two (byte_of b)) eqn:E2.
  { destruct (lead_bits _ E1 (or_introl E2)) as [-> ->]. rewrite E2. cbn [negb]. destruct l1 as [|c l2]; [done|]. simpl in Hlen, Hf. cbn [negb forallb].
    apply andb_prop in Hv as [Hc Hv]. rewrite (high_name_char c is_method (cont_not_one _ Hc)). cbn [andb].
    rewrite (proj2 (Nat.ltb_ge len (i + 2))) by lia. apply IH; [by apply (Hshift 2%nat l2)|lia|lia|done]. }
  destruct (is_three (byte_of b)) eqn:E3; [|done].
  destruct (lead_bits _ E1 (or_intror E3)) as [-> ->]. rewrite E2. cbn [negb]. destruct l1 as [|c [|d l3]]; [done..|]. simpl in Hlen, Hf. cbn [negb forallb].
  apply andb_prop in Hv as [Hcd Hv]. apply andb_prop in Hcd as [Hc Hd].
  rewrite (high_name_char c is_method (cont_not_one _ Hc)), (high_name_char d is_method (cont_not_one _ Hd)). cbn [andb].
  rewrite (proj2 (Nat.ltb_ge len (i + 3))) by lia. apply IH; [by apply (Hshift 3%nat l3)|lia|lia|done].
Qed.

(** The check of a name of a class file of Java 5 or later fails no assertion and accepts
    exactly the names without the forbidden characters, the empty name too. *)
Lemma is_valid_member_name_spec u_isalpha u_isalnum name k is_method : valid_utf8 (la name) = true ->
  is_valid_member_name u_isalpha u_isalnum (String.append name k) (String.length name) false is_method
    = Some (forallb (name_char is_method) (la name)).
Proof.
  intros Hv. unfold is_valid_member_name. apply member_name_loop_spec; try done; rewrite ?la_length; try lia.
  intros j c Hj. rewrite la_app. by apply lookup_app_l_Some.
Qed.
