(* ===== verification/VerContext.v ===== *)
(** * One instruction of the type checker:
    [verifier-3363/base/{instr_props.h,context_base.h,context_base.cpp,context_x.h,context_x.cpp}]

    The context of the verifier, the lengths of instructions, and [dataflow_instruction],
    which checks the types an instruction takes and makes those it leaves, with the
    operations of the Java 6 context ([java6/context_6.h]) the template is used with.
    An element of a map is one word; the stack has its top first.  [VUndef] is a
    failed assertion or a read outside the bytecode. *)
From Stdlib Require Import Ascii.
From stdpp Require Import gmap strings.
From S2P Require Import Prelude Frame Interp VerTypes.

Inductive vf_Result :=
  | VF_OK | VF_ErrorUnknown | VF_ErrorInstruction | VF_ErrorConstantPool | VF_ErrorLocals | VF_ErrorBranch
  | VF_ErrorStackOverflow | VF_ErrorStackDepth | VF_ErrorCodeEnd | VF_ErrorHandler | VF_ErrorDataFlow
  | VF_ErrorIncompatibleArgument | VF_ErrorInternal | VF_ErrorStackmap.
#[export] Instance vf_Result_eq_dec : EqDecision vf_Result.
Proof. solve_decision. Defined.

(** ** The state *)

(** A map: the locals, with one more element in a constructor, and the stack. *)
Record MapHead := MkMap { elements : list SmConstant; opstack : list SmConstant }.

(** What [dataflow_handlers] remembers between instructions. *)
Record handling := MkHandling {
  changed_locals : list bool;
  locals_changed : bool;
  no_locals_info : bool;
  loop_start : Z;
  loop_finish : Z;
  next_start_pc : Z;
}.

Record ctx := MkCtx {
  workmap : MapHead;
  hinfo : handling;
  return_type : SmConstant;
  tpool : pool;
  props : gmap Z MapHead;
}.

(** The method under verification. *)
Record Method_Info := MkInfo {
  method : Method;
  method_name : string;
  method_descriptor : string;
  method_is_static : bool;
  method_stackmaptable : option (list Z);
}.

Inductive vres (A : Type) := VOk (a : A) (c : ctx) | VErr (r : vf_Result) (c : ctx) | VUndef.
Arguments VOk {A} _ _.
Arguments VErr {A} _ _.
Arguments VUndef {A}.

Definition V (A : Type) : Type := ctx -> vres A.
#[export] Instance V_ret : MRet V := fun A a c => VOk a c.
#[export] Instance V_bind : MBind V := fun A B k m c =>
  match m c with VOk a c => k a c | VErr r c => VErr r c | VUndef => VUndef end.
Definition error {A} (r : vf_Result) : V A := fun c => VErr r c.
Definition undef {A} : V A := fun _ => VUndef.
Definition check (b : bool) (r : vf_Result) : V unit := if b then mret tt else error r.
Definition vassert (b : bool) : V unit := if b then mret tt else undef.
Definition of_opt {A} (o : option A) : V A := match o with Some a => mret a | None => undef end.
Definition get {A} (f : ctx -> A) : V A := fun c => VOk (f c) c.
(** A call whose result is not looked at. *)
Definition ignore (m : V unit) : V unit := fun c =>
  match m c with VOk _ c => VOk tt c | VErr _ c => VOk tt c | VUndef => VUndef end.
(** [&&] of two tests, the second one only if the first holds. *)
Definition vand (a b : V bool) : V bool := x ← a; if (x : bool) then b else mret false.

(** The pool is part of the context. *)
Definition pl {A} (m : P A) : V A := fun c =>
  match m (tpool c) with
  | Some (a, p) => VOk a (MkCtx (workmap c) (hinfo c) (return_type c) p (props c))
  | None => VUndef
  end.
Definition set_workmap (w : MapHead) : V unit := fun c =>
  VOk tt (MkCtx w (hinfo c) (return_type c) (tpool c) (props c)).
Definition set_hinfo (h : handling) : V unit := fun c =>
  VOk tt (MkCtx (workmap c) h (return_type c) (tpool c) (props c)).
Definition set_props (p : gmap Z MapHead) : V unit := fun c =>
  VOk tt (MkCtx (workmap c) (hinfo c) (return_type c) (tpool c) p).
Definition set_return_type (t : SmConstant) : V unit := fun c =>
  VOk tt (MkCtx (workmap c) (hinfo c) t (tpool c) (props c)).

(** ** Instructions *)

Definition PI_JUMP : Z := 1.
Definition PI_WIDEJUMP : Z := 2.
Definition PI_DIRECT : Z := 4.
Definition PI_SWITCH : Z := 8.
Definition PI_CANWIDE : Z := 16.

(** [parseTable]: the length and the flags. *)
Definition parseTable (opcode : Z) : Z * Z :=
  match opcode with
  | 0x10 | 0x12 | 0xbc => (2, 0)
  | 0x11 | 0x13 | 0x14 => (3, 0)
  | 0x15 | 0x16 | 0x17 | 0x18 | 0x19 | 0x36 | 0x37 | 0x38 | 0x39 | 0x3a => (2, PI_CANWIDE)
  | 0x84 => (3, PI_CANWIDE)
  | 0xa7 => (3, Z.lor PI_JUMP PI_DIRECT)
  | 0xa8 => (3, PI_JUMP)
  | 0xa9 => (2, Z.lor PI_DIRECT PI_CANWIDE)
  | 0xaa => (16, PI_SWITCH)
  | 0xab => (9, PI_SWITCH)
  | 0xac | 0xad | 0xae | 0xaf | 0xb0 | 0xb1 | 0xbf => (1, PI_DIRECT)
  | 0xb9 => (5, 0)
  | 0xba => (0, 0)
  | 0xc4 => (2, 0)
  | 0xc5 => (4, 0)
  | 0xc6 | 0xc7 => (3, PI_JUMP)
  | 0xc8 => (5, Z.lor PI_JUMP (Z.lor PI_DIRECT PI_WIDEJUMP))
  | 0xc9 => (5, Z.lor PI_JUMP PI_WIDEJUMP)
  | _ =>
      if (0x99 <=? opcode) && (opcode <=? 0xa6) then (3, PI_JUMP)
      else if ((0xb2 <=? opcode) && (opcode <=? 0xb8)) || (opcode =? 0xbb) || (opcode =? 0xbd)
              || (opcode =? 0xc0) || (opcode =? 0xc1) then (3, 0)
      else (1, 0)
  end.
Definition has_flag (pi : Z * Z) (f : Z) : bool := negb (Z.land pi.2 f =? 0).

Definition instr_is_jump (pi : Z * Z) : bool := has_flag pi PI_JUMP.
Definition instr_is_switch (pi : Z * Z) : bool := has_flag pi PI_SWITCH.
Definition instr_is_regular (pi : Z * Z) : bool := negb (has_flag pi (Z.lor PI_SWITCH (Z.lor PI_JUMP PI_DIRECT))).
Definition instr_is_compound (opcode : Z) (pi : Z * Z) : bool := has_flag pi PI_SWITCH || (opcode =? 0xc4).
Definition instr_is_jsr (opcode : Z) : bool := (opcode =? 0xa8) || (opcode =? 0xc9).
Definition instr_is_valid_bytecode (opcode : Z) : bool := (opcode <=? 0xc9) && negb (opcode =? 0xba).

Section context.
Context (vm : VM) (mi : Method_Info).
Abbreviation code := (byte_code (method mi)).

Definition m_code_length : Z := Z.of_nat (length code).
Definition m_max_locals : Z := Z.of_nat (max_locals (method mi)).
Definition m_max_stack : Z := Z.of_nat (max_stack (method mi)).
Definition m_handlecount : Z := Z.of_nat (length (bc_exception_handlers (method mi))).
Definition m_is_constructor : bool :=
  bool_decide (method_name mi = "<init>") && bool_decide (is_Some (class_get_super_class vm (k_class vm))).
Definition m_stack_start : Z := m_max_locals + (if m_is_constructor then 1 else 0).

Definition m_byte (addr : Z) : V Z := of_opt (byte code addr).
Definition vf_read_uint16 (addr : Z) : V Z := b0 ← m_byte addr; b1 ← m_byte (addr + 1); mret (Z.lor (Z.shiftl b0 8) b1).
(** [(ptr[0] << 24) | ...] as an unsigned word. *)
Definition vf_read_uint32 (addr : Z) : V Z :=
  b0 ← m_byte addr; b1 ← m_byte (addr + 1); b2 ← m_byte (addr + 2); b3 ← m_byte (addr + 3);
  mret (ux 32 (b0 * 2 ^ 24 + b1 * 2 ^ 16 + b2 * 2 ^ 8 + b3)).

(** Targets are truncated to the 16 bits of an [Address]. *)
Definition instr_get_int16_target (instr ptr : Z) : V Z := off ← vf_read_uint16 ptr; mret (ux 16 (instr + off)).
Definition instr_get_int32_target (instr ptr : Z) : V Z := off ← vf_read_uint32 ptr; mret (ux 16 (instr + off)).
Definition instr_get_jump_target (pi : Z * Z) (instr : Z) : V Z :=
  if has_flag pi PI_WIDEJUMP then instr_get_int32_target instr (instr + 1) else instr_get_int16_target instr (instr + 1).
Definition instr_direct (pi : Z * Z) (opcode instr : Z) : V bool :=
  if has_flag pi PI_DIRECT then mret true
  else if opcode =? 0xc4 then b ← m_byte (instr + 1); mret (b =? 0xa9)
  else mret false.

(** The keys of a [lookupswitch] must rise; the position after the pairs, or [None]. *)
Fixpoint sorted_keys (n : nat) (next old_value : Z) : V (option Z) :=
  match n with
  | O => mret (Some next)
  | S n =>
      new_value ← vf_read_uint32 next;
      if sx 32 new_value <=? old_value then mret None else sorted_keys n (next + 8) (sx 32 new_value)
  end.

Definition BIG_LENGTH : Z := 0x20000123.
Definition instr_get_len_compound (instr opcode : Z) : V Z :=
  if opcode =? 0xc4 then
    op ← m_byte (instr + 1);
    let pi := parseTable op in
    mret (if has_flag pi PI_CANWIDE then 2 * pi.1 else BIG_LENGTH)
  else
    let def_adr := Z.land instr (Z.lnot 3) + 4 in
    if opcode =? 0xaa then
      lo ← vf_read_uint32 (def_adr + 4); hi ← vf_read_uint32 (def_adr + 8);
      let lowbyte := sx 32 lo in
      let hibyte := sx 32 hi in
      mret (if (hibyte <? lowbyte) || (0x20000000 <? sx 32 (hibyte - lowbyte)) then BIG_LENGTH
            else sx 32 (def_adr + 12 + sx 32 (sx 32 (sx 32 (hibyte - lowbyte) + 1) * 4) - instr))
    else
      _ ← vassert (opcode =? 0xab);
      if m_code_length <? def_adr + 8 then mret BIG_LENGTH
      else
        npairs ← vf_read_uint32 (def_adr + 4);
        if 0x20000000 <? npairs then mret BIG_LENGTH
        else
          next ← (if npairs =? 0 then mret (Some (def_adr + 8))
                  else old_value ← vf_read_uint32 (def_adr + 8);
                       sorted_keys (Z.to_nat (npairs - 1)) (def_adr + 16) (sx 32 old_value));
          mret (match next with None => BIG_LENGTH | Some next => next - instr end).

(** ** The work map *)

Definition workmap_can_pop (number : Z) : V bool := get (fun c => number <=? Z.of_nat (length (opstack (workmap c)))).
Definition workmap_can_push (number : Z) : V bool :=
  get (fun c => Z.of_nat (length (opstack (workmap c))) + number <=? m_max_stack).
Definition workmap_pop : V SmConstant :=
  w ← get workmap;
  match opstack w with [] => undef | el :: st => _ ← set_workmap (MkMap (elements w) st); mret el end.
Definition workmap_push (el : SmConstant) : V unit :=
  b ← workmap_can_push 1; _ ← vassert b;
  w ← get workmap; set_workmap (MkMap (elements w) (el :: opstack w)).
Definition workmap_push_const : SmConstant -> V unit := workmap_push.
Definition workmap_2w_push_const (value : SmConstant) : V unit :=
  _ ← workmap_push_const value; workmap_push_const SM_HIGH_WORD.
Definition workmap_stackview (depth : Z) : V SmConstant :=
  _ ← vassert (0 <=? depth); w ← get workmap; of_opt (opstack w !! Z.to_nat depth).

Definition workmap_valid_local (idx : Z) : bool := idx <? m_max_locals.
Definition workmap_valid_2w_local (idx : Z) : bool := workmap_valid_local (idx + 1).
Definition workmap_get_local (idx : Z) : V SmConstant :=
  _ ← vassert (workmap_valid_local idx); w ← get workmap; of_opt (elements w !! Z.to_nat idx).
Definition workmap_set_local (idx : Z) (el : SmConstant) : V unit :=
  _ ← vassert (workmap_valid_local idx);
  h ← get hinfo; w ← get workmap;
  _ ← set_hinfo (MkHandling (<[Z.to_nat idx := true]> (changed_locals h)) true (no_locals_info h) (loop_start h) (loop_finish h) (next_start_pc h));
  set_workmap (MkMap (<[Z.to_nat idx := el]> (elements w)) (opstack w)).
Definition workmap_set_local_const : Z -> SmConstant -> V unit := workmap_set_local.
Definition workmap_set_2w_local_const (idx : Z) (value : SmConstant) : V unit :=
  _ ← vassert (workmap_valid_2w_local idx);
  _ ← workmap_set_local_const idx value; workmap_set_local_const (idx + 1) SM_HIGH_WORD.

(** *** Expectations, and constraints, which Java 6 checks at once *)

Definition workmap_expect_strict (el type : SmConstant) : V bool :=
  _ ← vassert (negb (type =? SM_BOGUS)); mret (type =? el).
Definition workmap_expect (el type : SmConstant) : V bool := pl (mustbe_assignable vm el type).
Definition add_incoming_value (new_value destination : SmConstant) : V unit :=
  b ← pl (mustbe_assignable vm new_value destination); check b VF_ErrorIncompatibleArgument.
Definition new_scalar_constraint : SmConstant -> SmConstant -> V unit := add_incoming_value.

(** A loop of constraints over two lists of elements. *)
Fixpoint scalar_constraints (from to : list SmConstant) : V unit :=
  match from, to with
  | f :: from, t :: to => _ ← new_scalar_constraint f t; scalar_constraints from to
  | [], _ => mret tt
  | _ :: _, [] => undef
  end.

Definition getStackmap (instr : Z) : V (option MapHead) := get (fun c => props c !! instr).

(** [new_generic_vector_constraint]: the current map must fit the one at the target;
    the loop goes from the first local to the top of the stack. *)
Definition new_generic_vector_constraint_impl (target : MapHead) : V unit :=
  w ← get workmap;
  _ ← check (bool_decide (length (opstack target) = length (opstack w))) VF_ErrorStackDepth;
  scalar_constraints (elements w ++ reverse (opstack w)) (elements target ++ reverse (opstack target)).
Definition new_generic_vector_constraint (target_instr : Z) : V unit :=
  target ← getStackmap target_instr;
  match target with Some target => new_generic_vector_constraint_impl target | None => error VF_ErrorBranch end.

Definition new_handler_vector_constraint (handler_instr : Z) : V unit :=
  handler ← getStackmap handler_instr;
  handler ← of_opt handler;
  w ← get workmap; scalar_constraints (elements w) (elements handler).

(** *** Exception handlers *)

(** The constraints of the locals that have changed. *)
Fixpoint changed_constraints (changed : list bool) (from to : list SmConstant) : V unit :=
  match changed, from, to with
  | b :: changed, f :: from, t :: to =>
      _ ← (if (b : bool) then new_scalar_constraint f t else mret tt); changed_constraints changed from to
  | _, [], _ => mret tt
  | _, _, _ => undef
  end.

(** The loop over the handlers from [idx]: whether to clean, and the new bounds. *)
Fixpoint handlers_loop (instr : Z) (hs : list Handler) (idx : Z) (clean : bool) (new_start new_finish : Z) : V (bool * Z * Z) :=
  match hs with
  | [] => mret (clean, new_start, new_finish)
  | h :: hs =>
      if instr <? start_pc h then
        i ← get hinfo;
        _ ← set_hinfo (MkHandling (changed_locals i) (locals_changed i) (no_locals_info i) (loop_start i) (loop_finish i)
              (if start_pc h <? next_start_pc i then start_pc h else next_start_pc i));
        handlers_loop instr hs (idx + 1) clean new_start new_finish
      else if instr <? end_pc h then
        let new_start := if idx <? new_start then idx else new_start in
        let new_finish := idx + 1 in
        i ← get hinfo;
        if no_locals_info i then
          _ ← new_handler_vector_constraint (handler_pc h);
          handlers_loop instr hs (idx + 1) true new_start new_finish
        else if locals_changed i then
          handler ← getStackmap (handler_pc h); handler ← of_opt handler;
          w ← get workmap;
          _ ← changed_constraints (changed_locals i) (elements w) (elements handler);
          handlers_loop instr hs (idx + 1) true new_start new_finish
        else handlers_loop instr hs (idx + 1) clean new_start new_finish
      else handlers_loop instr hs (idx + 1) clean new_start new_finish
  end.

(** The handlers with the indices from [a] to [b]. *)
Definition handler_range (a b : Z) : list Handler :=
  take (Z.to_nat (b - a)) (drop (Z.to_nat a) (bc_exception_handlers (method mi))).

Definition dataflow_handlers (instr : Z) : V unit :=
  h ← get hinfo;
  if (m_handlecount =? 0) || ((instr <? next_start_pc h) && negb (no_locals_info h) && negb (locals_changed h)) then mret tt
  else
    _ ← (if next_start_pc h <=? instr then
           set_hinfo (MkHandling (changed_locals h) (locals_changed h) true 0 m_handlecount m_code_length)
         else mret tt);
    h ← get hinfo;
    r ← handlers_loop instr (handler_range (loop_start h) (loop_finish h)) (loop_start h) false m_handlecount 0;
    h ← get hinfo;
    let '(clean_required, new_loop_start, new_loop_finish) := r in
    set_hinfo (if clean_required : bool then
        MkHandling (replicate (length (changed_locals h)) false) false false new_loop_start new_loop_finish (next_start_pc h)
      else MkHandling (changed_locals h) (locals_changed h) (no_locals_info h) new_loop_start new_loop_finish (next_start_pc h)).

(** [SM_BOGUS] comes to the handlers where a local is not initialised yet. *)
Fixpoint bogus_constraints (uninit_value : SmConstant) (from to : list SmConstant) : V unit :=
  match from, to with
  | f :: from, t :: to =>
      _ ← (if f =? uninit_value then add_incoming_value SM_BOGUS t else mret tt); bogus_constraints uninit_value from to
  | [], _ => mret tt
  | _ :: _, [] => undef
  end.
Fixpoint bogus_handlers (instr uninit_value : Z) (hs : list Handler) : V unit :=
  match hs with
  | [] => mret tt
  | h :: hs =>
      _ ← (if (instr <? end_pc h) && (start_pc h <=? instr) then
             handler ← getStackmap (handler_pc h); handler ← of_opt handler;
             w ← get workmap; bogus_constraints uninit_value (elements w) (elements handler)
           else mret tt);
      bogus_handlers instr uninit_value hs
  end.
Definition propagate_bogus_to_handlers (instr uninit_value : Z) : V unit :=
  if m_handlecount =? 0 then mret tt
  else h ← get hinfo; bogus_handlers instr uninit_value (handler_range (loop_start h) (loop_finish h)).

(** ** The macros *)

Definition can_pop (n : Z) : V unit := b ← workmap_can_pop n; check b VF_ErrorDataFlow.
Definition can_push (n : Z) : V unit := b ← workmap_can_push n; check b VF_ErrorDataFlow.

Definition POP_x (TYPE : SmConstant) : V unit :=
  _ ← can_pop 1; value ← workmap_pop;
  b ← workmap_expect_strict value TYPE; check b VF_ErrorIncompatibleArgument.
Definition POP_x_x (TYPE : SmConstant) : V unit :=
  _ ← can_pop 2; value1 ← workmap_pop; value2 ← workmap_pop;
  b ← vand (workmap_expect_strict value1 TYPE) (workmap_expect_strict value2 TYPE);
  check b VF_ErrorIncompatibleArgument.
Definition POP_xx (TYPE : SmConstant) : V unit :=
  _ ← can_pop 2; hi_word ← workmap_pop; low_word ← workmap_pop;
  b ← vand (workmap_expect_strict hi_word SM_HIGH_WORD) (workmap_expect_strict low_word TYPE);
  check b VF_ErrorIncompatibleArgument.
Definition POP_xx_xx (TYPE : SmConstant) : V unit :=
  _ ← can_pop 4; hi_word1 ← workmap_pop; low_word1 ← workmap_pop; hi_word2 ← workmap_pop; low_word2 ← workmap_pop;
  b ← vand (workmap_expect_strict hi_word1 SM_HIGH_WORD) (vand (workmap_expect_strict low_word1 TYPE)
        (vand (workmap_expect_strict hi_word2 SM_HIGH_WORD) (workmap_expect_strict low_word2 TYPE)));
  check b VF_ErrorIncompatibleArgument.
Definition POP_ref (TYPE : P SmConstant) : V unit :=
  _ ← can_pop 1; object_ref ← workmap_pop;
  TYPE ← pl TYPE; b ← workmap_expect object_ref TYPE; check b VF_ErrorIncompatibleArgument.
Definition POP_z (TYPE : SmConstant) : V unit := if isLongOrDouble TYPE then POP_xx TYPE else POP_ref (mret TYPE).

(** The words of an argument, and the depth after them. *)
Definition VIEW_z (TYPE : SmConstant) (depth : Z) : V Z :=
  value ← workmap_stackview (depth - 1);
  b ← workmap_expect value TYPE; _ ← check b VF_ErrorIncompatibleArgument;
  if isLongOrDouble TYPE then
    value ← workmap_stackview (depth - 2);
    b ← workmap_expect value SM_HIGH_WORD; _ ← check b VF_ErrorIncompatibleArgument;
    mret (depth - 2)
  else mret (depth - 1).
Definition PUSH_z (TYPE : SmConstant) : V unit :=
  if isLongOrDouble TYPE then b ← workmap_can_push 2; _ ← check b VF_ErrorStackOverflow; workmap_2w_push_const TYPE
  else b ← workmap_can_push 1; _ ← check b VF_ErrorStackOverflow; workmap_push_const TYPE.

Definition valid_local (idx : Z) : V unit := check (workmap_valid_local idx) VF_ErrorLocals.
Definition valid_2w_local (idx : Z) : V unit := check (workmap_valid_2w_local idx) VF_ErrorLocals.

Definition CHECK_xLOAD (idx : Z) (TYPE : SmConstant) : V unit :=
  _ ← valid_local idx; _ ← can_push 1; value ← workmap_get_local idx;
  b ← workmap_expect_strict value TYPE; _ ← check b VF_ErrorIncompatibleArgument;
  workmap_push_const TYPE.
Definition CHECK_xxLOAD (idx : Z) (TYPE : SmConstant) : V unit :=
  _ ← valid_2w_local idx; _ ← can_push 2; value_lo ← workmap_get_local idx; value_hi ← workmap_get_local (idx + 1);
  b ← vand (workmap_expect_strict value_lo TYPE) (workmap_expect_strict value_hi SM_HIGH_WORD);
  _ ← check b VF_ErrorIncompatibleArgument;
  workmap_2w_push_const TYPE.
Definition CHECK_ALOAD (idx : Z) : V unit :=
  _ ← valid_local idx; _ ← can_push 1; value ← workmap_get_local idx;
  b ← workmap_expect value SM_REF_OR_UNINIT; _ ← check b VF_ErrorIncompatibleArgument;
  workmap_push value.
Definition CHECK_xSTORE (idx : Z) (TYPE : SmConstant) : V unit :=
  _ ← valid_local idx; _ ← POP_x TYPE; workmap_set_local_const idx TYPE.
Definition CHECK_xxSTORE (idx : Z) (TYPE : SmConstant) : V unit :=
  _ ← valid_2w_local idx; _ ← POP_xx TYPE; workmap_set_2w_local_const idx TYPE.
Definition CHECK_ASTORE (idx : Z) : V unit :=
  _ ← valid_local idx; _ ← can_pop 1; ref ← workmap_pop;
  b ← workmap_expect ref SM_REF_OR_UNINIT_OR_RETADR; _ ← check b VF_ErrorIncompatibleArgument;
  workmap_set_local idx ref.

(** The array macros, with the test of the array. *)
Definition CHECK_zALOAD (CHECK : SmConstant -> V bool) : V SmConstant :=
  _ ← can_pop 2; index ← workmap_pop; arrayref ← workmap_pop;
  b ← workmap_expect_strict index SM_INTEGER; _ ← check b VF_ErrorIncompatibleArgument;
  b ← CHECK arrayref; _ ← check b VF_ErrorIncompatibleArgument; mret arrayref.
Definition CHECK_xASTORE (CHECK : SmConstant -> V bool) (TYPE : SmConstant) : V unit :=
  _ ← can_pop 3; value ← workmap_pop; index ← workmap_pop; arrayref ← workmap_pop;
  b ← vand (workmap_expect_strict value TYPE) (vand (workmap_expect_strict index SM_INTEGER) (CHECK arrayref));
  check b VF_ErrorIncompatibleArgument.
Definition CHECK_xxASTORE (CHECK : SmConstant -> V bool) (TYPE : SmConstant) : V unit :=
  _ ← can_pop 4; value_hi ← workmap_pop; value_lo ← workmap_pop; index ← workmap_pop; arrayref ← workmap_pop;
  b ← vand (workmap_expect_strict value_lo TYPE) (vand (workmap_expect_strict value_hi SM_HIGH_WORD)
        (vand (workmap_expect_strict index SM_INTEGER) (CHECK arrayref)));
  check b VF_ErrorIncompatibleArgument.

(** ** The cases of [dataflow_instruction] *)

(** The local an instruction names, in one byte or, after [wide], in two. *)
Definition local_idx (wide : bool) (instr : Z) : V Z :=
  if wide then vf_read_uint16 (instr + 2) else m_byte (instr + 1).
Definition array_of (type : P SmConstant) (arrayref : SmConstant) : V bool := t ← pl type; workmap_expect arrayref t.

Definition dataflow_AALOAD : V unit :=
  _ ← can_pop 2; index ← workmap_pop; arrayref ← workmap_pop;
  b ← vand (workmap_expect_strict index SM_INTEGER) (array_of sm_get_const_arrayref_of_object arrayref);
  _ ← check b VF_ErrorIncompatibleArgument;
  wme ← pl (get_ref_from_array arrayref); workmap_push wme.
Definition dataflow_AASTORE : V unit :=
  _ ← can_pop 3; value ← workmap_pop; index ← workmap_pop; arrayref ← workmap_pop;
  b ← vand (workmap_expect_strict index SM_INTEGER)
        (vand (array_of sm_get_const_object value) (array_of sm_get_const_arrayref_of_object arrayref));
  check b VF_ErrorIncompatibleArgument.
Definition dataflow_ACONST_NULL : V unit := _ ← can_push 1; workmap_push_const SM_NULL.
Definition dataflow_ANEWARRAY (instr : Z) : V unit :=
  _ ← can_pop 1; count ← workmap_pop;
  b ← workmap_expect_strict count SM_INTEGER; _ ← check b VF_ErrorIncompatibleArgument;
  cp_idx ← vf_read_uint16 (instr + 1); arrayref ← pl (cpool_get_array vm cp_idx);
  match arrayref with None => error VF_ErrorConstantPool | Some arrayref => workmap_push_const arrayref end.
Definition dataflow_ARETURN : V unit :=
  t ← get return_type; _ ← check (negb (t =? SM_BOGUS)) VF_ErrorDataFlow; POP_ref (mret t).
Definition dataflow_ARRAYLENGTH : V unit :=
  _ ← can_pop 1; arrayref ← workmap_pop;
  b ← workmap_expect arrayref SM_ANYARRAY; _ ← check b VF_ErrorIncompatibleArgument;
  workmap_push_const SM_INTEGER.
Definition dataflow_ATHROW : V unit := POP_ref sm_get_const_throwable.

(** [OP_BALOAD] and the other loads and stores of arrays of primitives. *)
Definition dataflow_array_load (type : P SmConstant) (push : V unit) : V unit :=
  type ← pl type; _ ← CHECK_zALOAD (fun arrayref => workmap_expect arrayref type); push.
Definition dataflow_array_store (type : P SmConstant) (TYPE : SmConstant) : V unit :=
  type ← pl type;
  (if isLongOrDouble TYPE then CHECK_xxASTORE else CHECK_xASTORE) (fun arrayref => workmap_expect arrayref type) TYPE.

Definition dataflow_push (TYPE : SmConstant) : V unit :=
  if isLongOrDouble TYPE then _ ← can_push 2; workmap_2w_push_const TYPE else _ ← can_push 1; workmap_push_const TYPE.
Definition dataflow_CHECKCAST (instr : Z) : V unit :=
  _ ← can_pop 1; inref ← workmap_pop;
  b ← array_of sm_get_const_object inref; _ ← check b VF_ErrorIncompatibleArgument;
  cp_idx ← vf_read_uint16 (instr + 1); outref ← pl (cpool_get_class vm cp_idx true 0);
  match outref with None => error VF_ErrorConstantPool | Some outref => workmap_push_const outref end.

(** The pops and the push of arithmetic instructions. *)
Definition push_word (TYPE : SmConstant) : V unit :=
  if isLongOrDouble TYPE then workmap_2w_push_const TYPE else workmap_push_const TYPE.
Definition dataflow_x_to (FROM TO : SmConstant) : V unit := _ ← POP_x FROM; push_word TO.
Definition dataflow_x_to_grow (FROM TO : SmConstant) : V unit := _ ← can_push 1; _ ← POP_x FROM; push_word TO.
Definition dataflow_xx_to (FROM TO : SmConstant) : V unit := _ ← POP_xx FROM; push_word TO.
Definition dataflow_x_x_to (FROM TO : SmConstant) : V unit := _ ← POP_x_x FROM; push_word TO.
Definition dataflow_xx_xx_to (FROM TO : SmConstant) : V unit := _ ← POP_xx_xx FROM; push_word TO.
Definition dataflow_LSHL : V unit := _ ← POP_x SM_INTEGER; _ ← POP_xx SM_LONG; workmap_2w_push_const SM_LONG.

Definition dataflow_return (TYPE : SmConstant) : V unit :=
  t ← get return_type; _ ← check (t =? TYPE) VF_ErrorDataFlow;
  if isLongOrDouble TYPE then POP_xx TYPE else POP_x TYPE.
Definition dataflow_RETURN : V unit :=
  t ← get return_type; _ ← check (t =? SM_BOGUS) VF_ErrorDataFlow;
  if m_is_constructor then
    w ← get workmap; flag ← of_opt (elements w !! Z.to_nat m_max_locals); this ← pl (sm_get_const_this vm);
    b ← workmap_expect_strict flag this; check b VF_ErrorIncompatibleArgument
  else mret tt.

(** *** Stack manipulation *)

Definition low (el : SmConstant) : V bool := workmap_expect el SM_LOW_WORD.
Definition pop_push (pops pushes : Z) : V unit :=
  b ← vand (workmap_can_pop pops) (workmap_can_push pushes); check b VF_ErrorDataFlow.
Fixpoint push_all (els : list SmConstant) : V unit :=
  match els with [] => mret tt | el :: els => _ ← workmap_push el; push_all els end.

Definition dataflow_DUP : V unit :=
  _ ← pop_push 1 1; value ← workmap_pop;
  b ← low value; _ ← check b VF_ErrorIncompatibleArgument; push_all [value; value].
Definition dataflow_DUP_X1 : V unit :=
  _ ← pop_push 2 1; value1 ← workmap_pop; value2 ← workmap_pop;
  b ← vand (low value1) (low value2); _ ← check b VF_ErrorIncompatibleArgument; push_all [value1; value2; value1].
Definition dataflow_DUP_X2 : V unit :=
  _ ← pop_push 3 1; value1 ← workmap_pop; value2 ← workmap_pop; value3 ← workmap_pop;
  b ← vand (low value1) (low value3); _ ← check b VF_ErrorIncompatibleArgument;
  push_all [value1; value3; value2; value1].
Definition dataflow_DUP2 : V unit :=
  _ ← pop_push 2 2; value1 ← workmap_pop; value2 ← workmap_pop;
  b ← low value2; _ ← check b VF_ErrorIncompatibleArgument; push_all [value2; value1; value2; value1].
Definition dataflow_DUP2_X1 : V unit :=
  _ ← pop_push 3 2; value1 ← workmap_pop; value2 ← workmap_pop; value3 ← workmap_pop;
  b ← vand (low value2) (low value3); _ ← check b VF_ErrorIncompatibleArgument;
  push_all [value2; value1; value3; value2; value1].
Definition dataflow_DUP2_X2 : V unit :=
  _ ← pop_push 4 2; value1 ← workmap_pop; value2 ← workmap_pop; value3 ← workmap_pop; value4 ← workmap_pop;
  b ← vand (low value2) (low value4); _ ← check b VF_ErrorIncompatibleArgument;
  push_all [value2; value1; value4; value3; value2; value1].
Definition dataflow_POP : V unit :=
  _ ← can_pop 1; value ← workmap_pop; b ← low value; check b VF_ErrorIncompatibleArgument.
Definition dataflow_POP2 : V unit :=
  _ ← can_pop 2; _ ← workmap_pop; lo_val ← workmap_pop; b ← low lo_val; check b VF_ErrorIncompatibleArgument.
Definition dataflow_SWAP : V unit :=
  _ ← can_pop 2; value1 ← workmap_pop; value2 ← workmap_pop;
  b ← vand (low value1) (low value2); _ ← check b VF_ErrorIncompatibleArgument; push_all [value1; value2].

(** *** Branches, tests and locals *)

Definition dataflow_IF_ACMP : V unit :=
  _ ← POP_ref sm_get_const_object; POP_ref sm_get_const_object.
Definition dataflow_IFNULL : V unit := POP_ref sm_get_const_object.
Definition dataflow_IINC (wide : bool) (instr : Z) : V unit :=
  local_idx ← local_idx wide instr;
  _ ← valid_local local_idx; value ← workmap_get_local local_idx;
  b ← workmap_expect_strict value SM_INTEGER; check b VF_ErrorIncompatibleArgument.
Definition dataflow_INSTANCEOF (instr : Z) : V unit :=
  cp_idx ← vf_read_uint16 (instr + 1); _ ← check (cpool_is_reftype vm cp_idx) VF_ErrorConstantPool;
  _ ← POP_ref sm_get_const_object; workmap_push_const SM_INTEGER.
Definition dataflow_LDC (cp_idx : Z) : V unit :=
  el ← pl (cpool_get_ldcarg vm cp_idx); _ ← check (negb (el =? SM_BOGUS)) VF_ErrorConstantPool;
  _ ← can_push 1; workmap_push_const el.
Definition dataflow_LDC2_W (instr : Z) : V unit :=
  cp_idx ← vf_read_uint16 (instr + 1);
  let el := cpool_get_ldc2arg vm cp_idx in
  _ ← check (negb (el =? SM_BOGUS)) VF_ErrorConstantPool; _ ← can_push 2; workmap_2w_push_const el.

Fixpoint pop_counts (n : nat) : V unit :=
  match n with
  | O => mret tt
  | S n => count ← workmap_pop; b ← workmap_expect_strict count SM_INTEGER; _ ← check b VF_ErrorIncompatibleArgument; pop_counts n
  end.
Definition dataflow_MULTIANEWARRAY (instr : Z) : V unit :=
  dims ← m_byte (instr + 3); _ ← check (negb (dims =? 0)) VF_ErrorConstantPool;
  _ ← can_pop dims; _ ← pop_counts (Z.to_nat dims);
  cp_idx ← vf_read_uint16 (instr + 1); arrayref ← pl (cpool_get_class vm cp_idx true dims);
  match arrayref with None => error VF_ErrorConstantPool | Some arrayref => workmap_push_const arrayref end.
Definition dataflow_NEW (instr : Z) : V unit :=
  cp_idx ← vf_read_uint16 (instr + 1); c ← pl (cpool_get_class vm cp_idx false (-1));
  _ ← check (bool_decide (is_Some c)) VF_ErrorConstantPool;
  _ ← can_push 1; workmap_push_const (getNewObject instr).
Definition dataflow_NEWARRAY (instr : Z) : V unit :=
  _ ← POP_x SM_INTEGER; array_type ← m_byte (instr + 1);
  _ ← check (negb ((array_type <? 4) || (11 <? array_type))) VF_ErrorInstruction;
  ref ← pl (sm_get_const_arrayref array_type); workmap_push_const ref.

(** *** Fields *)

(** [popFieldRef] and [popVirtualRef]: a protected member of a super class in another
    package needs an object of this class. *)
Definition expect_this_under (value : V SmConstant) (expected_ref : SmConstant) : V unit :=
  value ← value;
  this ← pl (sm_get_const_this vm);
  b ← workmap_expect value this; _ ← check b VF_ErrorIncompatibleArgument;
  this ← pl (sm_get_const_this vm); b ← pl (mustbe_assignable vm this expected_ref); check b VF_ErrorUnknown.
Definition popFieldRef (expected_ref : SmConstant) (cp_idx : Z) : V unit :=
  c ← pl (checkFieldAccess vm expected_ref cp_idx);
  match c with
  | C_FALSE => POP_ref (mret expected_ref)
  | C_TRUE => expect_this_under (_ ← can_pop 1; workmap_pop) expected_ref
  | C_CLONE => undef
  end.
Definition popVirtualRef (expected_ref : SmConstant) (cp_idx : Z) : V unit :=
  c ← pl (checkVirtualAccess vm expected_ref cp_idx);
  match c with
  | C_FALSE => POP_ref (mret expected_ref)
  | C_TRUE => expect_this_under (_ ← can_pop 1; workmap_pop) expected_ref
  | C_CLONE =>
      _ ← can_pop 1; value ← workmap_pop;
      is_array ← (if isReference value then nm ← pl (sm_get_refname value); mret (is_char (char_at nm 0) "["%char) else mret false);
      if is_array : bool then
        b ← workmap_expect value SM_ANYARRAY; _ ← check b VF_ErrorIncompatibleArgument;
        b ← workmap_expect value expected_ref; check b VF_ErrorIncompatibleArgument
      else expect_this_under (mret value) expected_ref
  end.

Definition dataflow_GETFIELD (instr : Z) : V unit :=
  cp_idx ← vf_read_uint16 (instr + 1); f ← pl (cpool_get_field vm cp_idx true);
  match f with
  | None => error VF_ErrorUnknown
  | Some (ref, value) => _ ← popFieldRef ref cp_idx; PUSH_z value
  end.
Definition dataflow_GETSTATIC (instr : Z) : V unit :=
  cp_idx ← vf_read_uint16 (instr + 1); f ← pl (cpool_get_field vm cp_idx false);
  match f with None => error VF_ErrorUnknown | Some (_, value) => PUSH_z value end.
Definition dataflow_PUTFIELD (instr : Z) : V unit :=
  cp_idx ← vf_read_uint16 (instr + 1); f ← pl (cpool_get_field vm cp_idx true);
  match f with
  | None => error VF_ErrorUnknown
  | Some (expected_ref, expected_val) =>
      _ ← POP_z expected_val;
      b ← workmap_can_pop 1; _ ← check b VF_ErrorUnknown;
      w0 ← workmap_stackview 0;
      if negb (w0 =? SM_THISUNINIT) then popFieldRef expected_ref cp_idx
      else
        this ← pl (sm_get_const_this vm);
        if expected_ref =? this then
          b ← workmap_expect_strict w0 SM_THISUNINIT; _ ← check b VF_ErrorUnknown; _ ← workmap_pop; mret tt
        else error VF_ErrorUnknown
  end.
Definition dataflow_PUTSTATIC (instr : Z) : V unit :=
  cp_idx ← vf_read_uint16 (instr + 1); f ← pl (cpool_get_field vm cp_idx false);
  match f with None => error VF_ErrorUnknown | Some (_, expected_val) => POP_z expected_val end.

(** *** Calls *)

(** [sm_convert_to_initialized] *)
Definition sm_convert_to_initialized (uninit_value : SmConstant) : V SmConstant :=
  if uninit_value =? SM_THISUNINIT then pl (sm_get_const_this vm)
  else
    addr ← of_opt (getNewInstr uninit_value);
    cp_idx ← vf_read_uint16 (addr + 1); c ← pl (cpool_get_class vm cp_idx true 0); of_opt c.

(** The loop over the arguments; a descriptor has fewer of them than characters. *)
Fixpoint view_args (fuel : nat) (state : option string) (arg_depth : Z) : V unit :=
  match state with
  | None => mret tt
  | Some s =>
      match fuel with
      | O => undef
      | S fuel =>
          a ← pl (cpool_method_next_arg s);
          arg_depth ← VIEW_z a.1 arg_depth; view_args fuel a.2 arg_depth
      end
  end.
Definition pop_args (state : option string) (args_sz : Z) : V unit :=
  if args_sz =? 0 then mret tt
  else
    _ ← can_pop args_sz;
    _ ← view_args (String.length (default EmptyString state)) state args_sz;
    w ← get workmap; set_workmap (MkMap (elements w) (drop (Z.to_nat args_sz) (opstack w))).

(** The elements that become initialised; the locals among them have changed. *)
Definition initialise (uninit_value init_val : SmConstant) : V unit :=
  let f el := if el =? uninit_value then init_val else el in
  w ← get workmap; h ← get hinfo;
  _ ← set_workmap (MkMap (map f (elements w)) (map f (opstack w)));
  set_hinfo (MkHandling (zip_with (fun el b => (el =? uninit_value) || b) (elements w) (changed_locals h)) true
    (no_locals_info h) (loop_start h) (loop_finish h) (next_start_pc h)).

(** A call of a constructor. *)
Definition invoke_init (instr : Z) (expected_ref : SmConstant) : V unit :=
  _ ← can_pop 1; uninit_value ← workmap_pop;
  b ← (if (uninit_value =? SM_THISUNINIT) || isNewObject uninit_value then workmap_expect_strict uninit_value uninit_value else mret false);
  _ ← check b VF_ErrorIncompatibleArgument;
  _ ← vassert (negb (uninit_value =? SM_NONE));
  init_val ← sm_convert_to_initialized uninit_value;
  _ ← ignore (propagate_bogus_to_handlers instr uninit_value);
  _ ← initialise uninit_value init_val;
  if uninit_value =? SM_THISUNINIT then
    _ ← vassert m_is_constructor;
    this ← pl (sm_get_const_this vm); object ← pl sm_get_const_object; _ ← vassert (negb (this =? object));
    if expected_ref =? this then mret tt
    else super ← pl (sm_get_const_super vm); check (expected_ref =? super) VF_ErrorUnknown
  else check (expected_ref =? init_val) VF_ErrorUnknown.

Definition OP_INVOKEVIRTUAL : Z := 0xb6.
Definition OP_INVOKESPECIAL : Z := 0xb7.
Definition OP_INVOKESTATIC : Z := 0xb8.
Definition OP_INVOKEINTERFACE : Z := 0xb9.

Definition dataflow_INVOKE (instr opcode : Z) : V unit :=
  cp_idx ← vf_read_uint16 (instr + 1);
  let is_interface := opcode =? OP_INVOKEINTERFACE in
  let has_class := (opcode =? OP_INVOKEVIRTUAL) || (opcode =? OP_INVOKESPECIAL) in
  s ← pl (cpool_method_start vm cp_idx is_interface has_class);
  match s with
  | None => error VF_ErrorUnknown
  | Some (descriptor, expected_ref, name_idx) =>
      r ← pl (cpool_method_get_rettype descriptor);
      match r with
      | None => error VF_ErrorUnknown
      | Some (expected_rettype, args_sz, state) =>
          _ ← vassert (Bool.eqb (negb (args_sz =? 0)) (bool_decide (is_Some state)));
          _ ← (if is_interface then
                 count ← m_byte (instr + 3); fourth ← m_byte (instr + 4);
                 check (negb (negb (count =? args_sz + 1) || negb (fourth =? 0))) VF_ErrorUnknown
               else mret tt);
          _ ← check (negb ((255 <? args_sz) || ((254 <? args_sz) && negb (opcode =? OP_INVOKESTATIC)))) VF_ErrorUnknown;
          _ ← pop_args state args_sz;
          is_init ← of_opt (cpool_method_is_constructor_call vm name_idx);
          _ ← (if is_init : bool then
                 _ ← check (opcode =? OP_INVOKESPECIAL) VF_ErrorUnknown;
                 _ ← vassert (expected_rettype =? SM_BOGUS);
                 invoke_init instr expected_ref
               else if opcode =? OP_INVOKESPECIAL then
                 _ ← POP_ref (sm_get_const_this vm);
                 this ← pl (sm_get_const_this vm); b ← pl (mustbe_assignable vm this expected_ref);
                 check b VF_ErrorUnknown
               else if opcode =? OP_INVOKEVIRTUAL then popVirtualRef expected_ref cp_idx
               else if negb (opcode =? OP_INVOKESTATIC) then POP_ref (mret expected_ref)
               else mret tt);
          if expected_rettype =? SM_BOGUS then mret tt else PUSH_z expected_rettype
      end
  end.

(** *** Subroutines, which Java 6 does not have: after the check [new_ret_vector_constraint]
    fails an assertion *)

Definition dataflow_JSR (instr opcode : Z) : V unit :=
  _ ← can_push 1;
  target ← (if opcode =? 0xc9 then instr_get_int32_target instr (instr + 1) else instr_get_int16_target instr (instr + 1));
  workmap_push_const (getRetAddr target).
Definition dataflow_RET (wide : bool) (instr : Z) : V unit :=
  local_idx ← local_idx wide instr; _ ← valid_local local_idx;
  retaddr ← workmap_get_local local_idx; _ ← vassert (negb (retaddr =? SM_NONE));
  b ← (if isRetAddr retaddr then workmap_expect_strict retaddr retaddr else mret false);
  _ ← check b VF_ErrorIncompatibleArgument; undef.

(** ** The switch of [dataflow_instruction] *)

Definition dataflow_opcode (wide : bool) (instr opcode : Z) : V unit :=
  match opcode with
  | 0x00 | 0xa7 | 0xc8 => mret tt
  | 0x01 => dataflow_ACONST_NULL
  | 0x02 | 0x03 | 0x04 | 0x05 | 0x06 | 0x07 | 0x08 => dataflow_push SM_INTEGER
  | 0x09 | 0x0a => dataflow_push SM_LONG
  | 0x0b | 0x0c | 0x0d => dataflow_push SM_FLOAT
  | 0x0e | 0x0f => dataflow_push SM_DOUBLE
  | 0x10 | 0x11 => dataflow_push SM_INTEGER
  | 0x12 => cp_idx ← m_byte (instr + 1); dataflow_LDC cp_idx
  | 0x13 => cp_idx ← vf_read_uint16 (instr + 1); dataflow_LDC cp_idx
  | 0x14 => dataflow_LDC2_W instr
  | 0x15 => idx ← local_idx wide instr; CHECK_xLOAD idx SM_INTEGER
  | 0x16 => idx ← local_idx wide instr; CHECK_xxLOAD idx SM_LONG
  | 0x17 => idx ← local_idx wide instr; CHECK_xLOAD idx SM_FLOAT
  | 0x18 => idx ← local_idx wide instr; CHECK_xxLOAD idx SM_DOUBLE
  | 0x19 => idx ← local_idx wide instr; CHECK_ALOAD idx
  | 0x1a | 0x1b | 0x1c | 0x1d => CHECK_xLOAD (opcode - 0x1a) SM_INTEGER
  | 0x1e | 0x1f | 0x20 | 0x21 => CHECK_xxLOAD (opcode - 0x1e) SM_LONG
  | 0x22 | 0x23 | 0x24 | 0x25 => CHECK_xLOAD (opcode - 0x22) SM_FLOAT
  | 0x26 | 0x27 | 0x28 | 0x29 => CHECK_xxLOAD (opcode - 0x26) SM_DOUBLE
  | 0x2a | 0x2b | 0x2c | 0x2d => CHECK_ALOAD (opcode - 0x2a)
  | 0x2e => dataflow_array_load sm_get_const_arrayref_of_integer (workmap_push_const SM_INTEGER)
  | 0x2f => dataflow_array_load sm_get_const_arrayref_of_long (workmap_2w_push_const SM_LONG)
  | 0x30 => dataflow_array_load sm_get_const_arrayref_of_float (workmap_push_const SM_FLOAT)
  | 0x31 => dataflow_array_load sm_get_const_arrayref_of_double (workmap_2w_push_const SM_DOUBLE)
  | 0x32 => dataflow_AALOAD
  | 0x33 => dataflow_array_load sm_get_const_arrayref_of_bb (workmap_push_const SM_INTEGER)
  | 0x34 => dataflow_array_load sm_get_const_arrayref_of_char (workmap_push_const SM_INTEGER)
  | 0x35 => dataflow_array_load sm_get_const_arrayref_of_short (workmap_push_const SM_INTEGER)
  | 0x36 => idx ← local_idx wide instr; CHECK_xSTORE idx SM_INTEGER
  | 0x37 => idx ← local_idx wide instr; CHECK_xxSTORE idx SM_LONG
  | 0x38 => idx ← local_idx wide instr; CHECK_xSTORE idx SM_FLOAT
  | 0x39 => idx ← local_idx wide instr; CHECK_xxSTORE idx SM_DOUBLE
  | 0x3a => idx ← local_idx wide instr; CHECK_ASTORE idx
  | 0x3b | 0x3c | 0x3d | 0x3e => CHECK_xSTORE (opcode - 0x3b) SM_INTEGER
  | 0x3f | 0x40 | 0x41 | 0x42 => CHECK_xxSTORE (opcode - 0x3f) SM_LONG
  | 0x43 | 0x44 | 0x45 | 0x46 => CHECK_xSTORE (opcode - 0x43) SM_FLOAT
  | 0x47 | 0x48 | 0x49 | 0x4a => CHECK_xxSTORE (opcode - 0x47) SM_DOUBLE
  | 0x4b | 0x4c | 0x4d | 0x4e => CHECK_ASTORE (opcode - 0x4b)
  | 0x4f => dataflow_array_store sm_get_const_arrayref_of_integer SM_INTEGER
  | 0x50 => dataflow_array_store sm_get_const_arrayref_of_long SM_LONG
  | 0x51 => dataflow_array_store sm_get_const_arrayref_of_float SM_FLOAT
  | 0x52 => dataflow_array_store sm_get_const_arrayref_of_double SM_DOUBLE
  | 0x53 => dataflow_AASTORE
  | 0x54 => dataflow_array_store sm_get_const_arrayref_of_bb SM_INTEGER
  | 0x55 => dataflow_array_store sm_get_const_arrayref_of_char SM_INTEGER
  | 0x56 => dataflow_array_store sm_get_const_arrayref_of_short SM_INTEGER
  | 0x57 => dataflow_POP
  | 0x58 => dataflow_POP2
  | 0x59 => dataflow_DUP
  | 0x5a => dataflow_DUP_X1
  | 0x5b => dataflow_DUP_X2
  | 0x5c => dataflow_DUP2
  | 0x5d => dataflow_DUP2_X1
  | 0x5e => dataflow_DUP2_X2
  | 0x5f => dataflow_SWAP
  | 0x60 | 0x64 | 0x68 | 0x6c | 0x70 | 0x78 | 0x7a | 0x7c | 0x7e | 0x80 | 0x82 => dataflow_x_x_to SM_INTEGER SM_INTEGER
  | 0x61 | 0x65 | 0x69 | 0x6d | 0x71 | 0x7f | 0x81 | 0x83 => dataflow_xx_xx_to SM_LONG SM_LONG
  | 0x62 | 0x66 | 0x6a | 0x6e | 0x72 => dataflow_x_x_to SM_FLOAT SM_FLOAT
  | 0x63 | 0x67 | 0x6b | 0x6f | 0x73 => dataflow_xx_xx_to SM_DOUBLE SM_DOUBLE
  | 0x74 => dataflow_x_to SM_INTEGER SM_INTEGER
  | 0x75 => dataflow_xx_to SM_LONG SM_LONG
  | 0x76 => dataflow_x_to SM_FLOAT SM_FLOAT
  | 0x77 => dataflow_xx_to SM_DOUBLE SM_DOUBLE
  | 0x79 | 0x7b | 0x7d => dataflow_LSHL
  | 0x84 => dataflow_IINC wide instr
  | 0x85 => dataflow_x_to_grow SM_INTEGER SM_LONG
  | 0x86 => dataflow_x_to SM_INTEGER SM_FLOAT
  | 0x87 => dataflow_x_to_grow SM_INTEGER SM_DOUBLE
  | 0x88 => dataflow_xx_to SM_LONG SM_INTEGER
  | 0x89 => dataflow_xx_to SM_LONG SM_FLOAT
  | 0x8a => dataflow_xx_to SM_LONG SM_DOUBLE
  | 0x8b => dataflow_x_to SM_FLOAT SM_INTEGER
  | 0x8c => dataflow_x_to_grow SM_FLOAT SM_LONG
  | 0x8d => dataflow_x_to_grow SM_FLOAT SM_DOUBLE
  | 0x8e => dataflow_xx_to SM_DOUBLE SM_INTEGER
  | 0x8f => dataflow_xx_to SM_DOUBLE SM_LONG
  | 0x90 => dataflow_xx_to SM_DOUBLE SM_FLOAT
  | 0x91 | 0x92 | 0x93 => dataflow_x_to SM_INTEGER SM_INTEGER
  | 0x94 => dataflow_xx_xx_to SM_LONG SM_INTEGER
  | 0x95 | 0x96 => dataflow_x_x_to SM_FLOAT SM_INTEGER
  | 0x97 | 0x98 => dataflow_xx_xx_to SM_DOUBLE SM_INTEGER
  | 0x99 | 0x9a | 0x9b | 0x9c | 0x9d | 0x9e | 0xaa | 0xab => POP_x SM_INTEGER
  | 0x9f | 0xa0 | 0xa1 | 0xa2 | 0xa3 | 0xa4 => POP_x_x SM_INTEGER
  | 0xa5 | 0xa6 => dataflow_IF_ACMP
  | 0xa8 | 0xc9 => dataflow_JSR instr opcode
  | 0xa9 => dataflow_RET wide instr
  | 0xac => dataflow_return SM_INTEGER
  | 0xad => dataflow_return SM_LONG
  | 0xae => dataflow_return SM_FLOAT
  | 0xaf => dataflow_return SM_DOUBLE
  | 0xb0 => dataflow_ARETURN
  | 0xb1 => dataflow_RETURN
  | 0xb2 => dataflow_GETSTATIC instr
  | 0xb3 => dataflow_PUTSTATIC instr
  | 0xb4 => dataflow_GETFIELD instr
  | 0xb5 => dataflow_PUTFIELD instr
  | 0xb6 | 0xb7 | 0xb8 | 0xb9 => dataflow_INVOKE instr opcode
  | 0xbb => dataflow_NEW instr
  | 0xbc => dataflow_NEWARRAY instr
  | 0xbd => dataflow_ANEWARRAY instr
  | 0xbe => dataflow_ARRAYLENGTH
  | 0xbf => dataflow_ATHROW
  | 0xc0 => dataflow_CHECKCAST instr
  | 0xc1 => dataflow_INSTANCEOF instr
  | 0xc2 | 0xc3 | 0xc6 | 0xc7 => dataflow_IFNULL
  | 0xc5 => dataflow_MULTIANEWARRAY instr
  | _ => undef
  end.

Definition dataflow_instruction (instr : Z) : V unit :=
  opcode ← m_byte instr;
  _ ← (if opcode =? 0xc4 then opcode ← m_byte (instr + 1); dataflow_opcode true instr opcode
       else dataflow_opcode false instr opcode);
  dataflow_handlers instr.

(** ** The map a method begins with *)

Fixpoint initial_args (fuel : nat) (state : option string) (local_idx : Z) : V Z :=
  match state with
  | None => mret local_idx
  | Some s =>
      match fuel with
      | O => undef
      | S fuel =>
          a ← pl (cpool_method_next_arg s);
          local_idx ←
            (if isLongOrDouble a.1 then _ ← workmap_set_2w_local_const local_idx a.1; mret (local_idx + 2)
             else _ ← workmap_set_local_const local_idx a.1; mret (local_idx + 1));
          _ ← vassert (local_idx <=? m_max_locals);
          initial_args fuel a.2 local_idx
      end
  end.
Fixpoint initial_rest (n : nat) (local_idx : Z) : V unit :=
  match n with O => mret tt | S n => _ ← workmap_set_local_const local_idx SM_BOGUS; initial_rest n (local_idx + 1) end.

(** The flag of a constructor, that another constructor has to be called. *)
Definition initial_flag : V unit :=
  w ← get workmap; h ← get hinfo;
  _ ← set_workmap (MkMap (<[Z.to_nat m_max_locals := SM_THISUNINIT]> (elements w)) (opstack w));
  set_hinfo (MkHandling (<[Z.to_nat m_max_locals := true]> (changed_locals h)) (locals_changed h) (no_locals_info h)
    (loop_start h) (loop_finish h) (next_start_pc h)).

Definition create_method_initial_workmap : V unit :=
  _ ← set_workmap (MkMap (replicate (Z.to_nat m_stack_start) SM_NONE) []);
  local_idx ←
    (if negb (method_is_static mi) then
       if m_is_constructor then _ ← workmap_set_local_const 0 SM_THISUNINIT; _ ← initial_flag; mret 1
       else this ← pl (sm_get_const_this vm); _ ← workmap_set_local_const 0 this; mret 1
     else mret 0);
  r ← pl (cpool_method_get_rettype (method_descriptor mi));
  match r with
  | None => error VF_ErrorUnknown
  | Some (rettype, args_sz, state) =>
      _ ← set_return_type rettype;
      _ ← vassert (Bool.eqb (negb (args_sz =? 0)) (bool_decide (is_Some state)));
      local_idx ← initial_args (String.length (method_descriptor mi)) state local_idx;
      initial_rest (Z.to_nat (m_max_locals - local_idx)) local_idx
  end.
End context.
