(* ===== verification/Verify6.v ===== *)
(** * Verification of a method and of a class: [verifier-3363/java6/context_6.cpp], [base/ver.cpp]

    The [StackMapTable] attribute is read into a map for every frame; one pass over the
    bytecode then checks each instruction from the map before it and compares the map
    after it with those of its successors.  The Java 5 verifier, which the class
    verifier falls back on, is a parameter. *)
From stdpp Require Import gmap strings.
From S2P Require Import Prelude Frame Interp VerTypes VerContext.

Section verify.
Context (vm : VM) (mi : Method_Info).
Abbreviation code := (byte_code (method mi)).

(** ** [load_stackmaptable] *)

Section table.
(** The bytes of the attribute, and its end. *)
Context (attr : list Z) (attribute_end : Z).

Definition a_byte (ptr : Z) : V Z := of_opt (byte attr ptr).
Definition a_uint16 (ptr : Z) : V Z := b0 ← a_byte ptr; b1 ← a_byte (ptr + 1); mret (Z.lor (Z.shiftl b0 8) b1).
Definition corrupted {A} : V A := error VF_ErrorStackmap.
Definition in_table (ptr : Z) : V unit := check (ptr <=? attribute_end) VF_ErrorStackmap.

(** [read_types] from [ptr]: [cnt] more types, of which two-word ones take two elements
    and count twice; [space] elements are left.  The elements read and the new
    position. *)
Fixpoint read_types (space : nat) (cnt ptr : Z) : V (list SmConstant * Z) :=
  if cnt <=? 0 then mret ([], ptr)
  else
    _ ← in_table ptr;
    match space with
    | O => corrupted
    | S space =>
        tag ← a_byte ptr;
        let one (c : SmConstant) (ptr : Z) := r ← read_types space (cnt - 1) ptr; mret (c :: r.1, r.2) in
        match tag with
        | 0 => one SM_BOGUS (ptr + 1)
        | 1 => one SM_INTEGER (ptr + 1)
        | 2 => one SM_FLOAT (ptr + 1)
        | 3 | 4 =>
            match space with
            | O => corrupted
            | S space =>
                r ← read_types space (cnt - 1) (ptr + 1);
                mret ((if tag =? 3 then SM_DOUBLE else SM_LONG) :: SM_HIGH_WORD :: r.1, r.2)
            end
        | 5 => one SM_NULL (ptr + 1)
        | 6 => one SM_THISUNINIT (ptr + 1)
        | 7 =>
            _ ← in_table (ptr + 3);
            cp_idx ← a_uint16 (ptr + 1); c ← pl (cpool_get_class vm cp_idx true 0);
            match c with None => corrupted | Some c => one c (ptr + 3) end
        | 8 =>
            _ ← in_table (ptr + 3);
            address ← a_uint16 (ptr + 1); one (getNewObject address) (ptr + 3)
        | _ => corrupted
        end
    end.

(** The working copy between frames: the locals, the stack, bottom first, the number of
    locals and the position. *)
Record frame_state := MkFrameState { lastWorkmap : list SmConstant; last_stack : list SmConstant; last_maxlocals : Z; read_ptr : Z }.

(** [chop] frames: [k] locals are missing, the two words of a long together. *)
Fixpoint chop (fuel : nat) (k : Z) (locals : list SmConstant) (last : Z) : V (list SmConstant * Z) :=
  if k =? 0 then mret (locals, last)
  else if last =? 0 then corrupted
  else match fuel with
    | O => undef
    | S fuel =>
        el ← of_opt (locals !! Z.to_nat (last - 1));
        let k := if el =? SM_HIGH_WORD then k + 1 else k in
        chop fuel (k - 1) (<[Z.to_nat (last - 1) := SM_BOGUS]> locals) (last - 1)
    end.

Definition read_offset (ptr : Z) : V Z := _ ← in_table (ptr + 2); a_uint16 ptr.
Abbreviation stack_space := (max_stack (method mi)).

(** One frame: its offset, and the copy after it.  After a reserved type the error is
    dropped and the offset is not set. *)
Definition read_frame (f : frame_state) : V (Z * frame_state) :=
  _ ← in_table (read_ptr f + 1);
  frame_type ← a_byte (read_ptr f);
  let ptr := read_ptr f + 1 in
  let locals := lastWorkmap f in
  let last := last_maxlocals f in
  if frame_type <=? 63 then mret (frame_type, MkFrameState locals [] last ptr)
  else if frame_type <=? 127 then
    r ← read_types stack_space 1 ptr; mret (frame_type - 64, MkFrameState locals r.1 last r.2)
  else if frame_type <=? 246 then undef
  else if frame_type =? 247 then
    offset ← read_offset ptr; r ← read_types stack_space 1 (ptr + 2);
    mret (offset, MkFrameState locals r.1 last r.2)
  else if frame_type <=? 250 then
    c ← chop (length locals) (251 - frame_type) locals last;
    offset ← read_offset ptr; mret (offset, MkFrameState c.1 [] c.2 (ptr + 2))
  else if frame_type =? 251 then
    offset ← read_offset ptr; mret (offset, MkFrameState locals [] last (ptr + 2))
  else if frame_type <=? 254 then
    offset ← read_offset ptr;
    r ← read_types (Z.to_nat (m_max_locals mi - last)) (frame_type - 251) (ptr + 2);
    let n := Z.to_nat last in
    mret (offset, MkFrameState (take n locals ++ r.1 ++ drop (n + length r.1) locals) [] (last + Z.of_nat (length r.1)) r.2)
  else
    _ ← in_table (ptr + 4);
    offset ← a_uint16 ptr; cnt ← a_uint16 (ptr + 2);
    r ← read_types (Z.to_nat (m_max_locals mi)) cnt (ptr + 4);
    let locals' := r.1 ++ replicate (length locals - length r.1) SM_BOGUS in
    _ ← in_table (r.2 + 2);
    depth ← a_uint16 r.2; s ← read_types stack_space depth (r.2 + 2);
    mret (offset, MkFrameState locals' s.1 (Z.of_nat (length r.1)) s.2).

(** The map recorded for a frame; in a constructor the flag says whether an
    uninitialised [this] is about. *)
Definition frame_map (f : frame_state) (this : SmConstant) : MapHead :=
  let locals := take (Z.to_nat (m_max_locals mi)) (lastWorkmap f) in
  let flag := if existsb (Z.eqb SM_THISUNINIT) (locals ++ last_stack f) then SM_THISUNINIT else this in
  MkMap (locals ++ (if m_is_constructor vm mi then [flag] else [])) (reverse (last_stack f)).

(** [setInstrProps] asserts that the instruction has no map yet. *)
Fixpoint read_frames (n : nat) (last_offset : Z) (f : frame_state) : V frame_state :=
  match n with
  | O => mret f
  | S n =>
      r ← read_frame f;
      let last_offset := if last_offset =? -1 then r.1 else last_offset + r.1 + 1 in
      this ← pl (sm_get_const_this vm);
      ps ← get props;
      let key := ux 16 last_offset in
      _ ← vassert (bool_decide (ps !! key = None));
      _ ← set_props (<[key := frame_map r.2 this]> ps);
      read_frames n last_offset r.2
  end.
End table.

(** The number of locals of the first map without the unused ones at the end. *)
Fixpoint used_locals (n : nat) (locals : list SmConstant) : Z :=
  match n with
  | O => 0
  | S n => if negb (default SM_BOGUS (locals !! n) =? SM_BOGUS) then Z.of_nat (S n) else used_locals n locals
  end.

Definition load_stackmaptable : V unit :=
  match method_stackmaptable mi with
  | None => mret tt
  | Some attr =>
      l3 ← a_byte attr 2; l2 ← a_byte attr 3; l1 ← a_byte attr 4; l0 ← a_byte attr 5;
      let attribute_end := ux 32 (l3 * 2 ^ 24 + l2 * 2 ^ 16 + l1 * 2 ^ 8 + l0) + 6 in
      _ ← in_table attribute_end 8;
      number_of_entries ← a_uint16 attr 6;
      w ← get workmap;
      f ← read_frames attr attribute_end (Z.to_nat number_of_entries) (-1)
            (MkFrameState (elements w) [] (used_locals (max_locals (method mi)) (elements w)) 8);
      check (negb (read_ptr f <? attribute_end)) VF_ErrorStackmap
  end.

(** ** [verify_method] *)

Definition checkHandlerStackmap (handler_pc : Z) (type : SmConstant) : V unit :=
  map ← getStackmap handler_pc;
  match map with
  | None => error VF_ErrorHandler
  | Some map =>
      match opstack map with
      | [el] => add_incoming_value vm type el
      | _ => error VF_ErrorHandler
      end
  end.

Fixpoint check_handlers (hs : list Handler) : V unit :=
  match hs with
  | [] => mret tt
  | h :: hs =>
      _ ← check (negb ((end_pc h <=? start_pc h) || (m_code_length mi <? end_pc h))) VF_ErrorHandler;
      handler_type ←
        (if negb (catch_type_index h =? 0) then
           c ← pl (cpool_get_class vm (catch_type_index h) true 0);
           match c with
           | None => error VF_ErrorHandler
           | Some c =>
               throwable ← pl sm_get_const_throwable;
               b ← pl (mustbe_assignable vm c throwable); _ ← check b VF_ErrorHandler; mret c
           end
         else pl sm_get_const_throwable);
      _ ← checkHandlerStackmap (handler_pc h) handler_type;
      check_handlers hs
  end.

(** The length of the instruction at [instr], with the checks that it is one. *)
Definition instr_length (instr opcode : Z) : V Z :=
  _ ← check (instr_is_valid_bytecode opcode && negb (instr_is_jsr opcode)) VF_ErrorInstruction;
  let pi := parseTable opcode in
  _ ← check (instr + pi.1 <=? m_code_length mi) VF_ErrorInstruction;
  if instr_is_compound opcode pi then
    len ← instr_get_len_compound mi instr opcode;
    let len := ux 32 len in
    _ ← check (ux 32 (instr + len) <=? m_code_length mi) VF_ErrorInstruction; mret len
  else mret pi.1.

(** No map in the middle of the instruction. *)
Fixpoint no_maps (n : nat) (i : Z) : V unit :=
  match n with
  | O => mret tt
  | S n => m ← getStackmap i; _ ← check (bool_decide (m = None)) VF_ErrorStackmap; no_maps n (i + 1)
  end.

(** The targets of a switch after the default one; the results are dropped. *)
Fixpoint switch_targets (n : nat) (instr next_target_adr shift : Z) : V unit :=
  match n with
  | O => mret tt
  | S n =>
      target ← instr_get_int32_target mi instr next_target_adr;
      _ ← ignore (new_generic_vector_constraint vm target);
      switch_targets n instr (next_target_adr + shift) shift
  end.

(** The successors of an instruction that are not the next one; whether the next one
    is after a jump. *)
Definition successors (instr opcode instr_len : Z) : V bool :=
  let pi := parseTable opcode in
  if instr_is_jump pi then
    afterJump ← instr_direct mi pi opcode instr;
    target ← instr_get_jump_target mi pi instr;
    _ ← new_generic_vector_constraint vm target; mret afterJump
  else
    direct ← instr_direct mi pi opcode instr;
    if direct : bool then mret true
    else if instr_is_switch pi then
      let next_target_adr := Z.land instr (Z.lnot 3) + 4 in
      target ← instr_get_int32_target mi instr next_target_adr;
      _ ← ignore (new_generic_vector_constraint vm target);
      let shift := if opcode =? 0xaa then 4 else 8 in
      let first := next_target_adr + 12 in
      _ ← switch_targets (Z.to_nat ((instr + instr_len - first + (shift - 1)) / shift)) instr first shift;
      mret true
    else _ ← vassert (instr_is_regular pi); mret false.

(** [fill_workmap] *)
Definition fill_workmap (map : MapHead) : V unit := set_workmap map.

(** The body of the pass: the next instruction, and whether it is after a jump. *)
Definition verify_instruction (instr : Z) (afterJump : bool) : V (Z * bool) :=
  opcode ← m_byte mi instr;
  instr_len ← instr_length instr opcode;
  _ ← no_maps (Z.to_nat (instr_len - 1)) (instr + 1);
  map ← getStackmap instr;
  _ ← (match map with
       | Some map =>
           _ ← (if negb afterJump then new_generic_vector_constraint vm instr else mret tt); fill_workmap map
       | None => check (negb afterJump) VF_ErrorBranch
       end);
  _ ← dataflow_instruction vm mi instr;
  afterJump ← successors instr opcode instr_len;
  mret (ux 16 (instr + instr_len), afterJump).

(** The pass; [None] is a pass that has not ended after [fuel] instructions.  An
    instruction has at least one byte, so the length of the code is enough
    ([VerLimits.verify_loop_fuel]). *)
Fixpoint verify_loop (fuel : nat) (instr : Z) (afterJump : bool) (c : ctx) : option (vres bool) :=
  if negb (instr <? m_code_length mi) then Some (VOk afterJump c)
  else match fuel with
    | O => None
    | S fuel =>
        match verify_instruction instr afterJump c with
        | VOk r c => verify_loop fuel r.1 r.2 c
        | VErr r c => Some (VErr r c)
        | VUndef => Some VUndef
        end
    end.
Definition verify_code : V bool := fun c => default VUndef (verify_loop (length code) 0 false c).

Definition verify_method : V unit :=
  if m_code_length mi =? 0 then mret tt
  else
    _ ← create_method_initial_workmap vm mi;
    _ ← load_stackmaptable;
    _ ← check_handlers (bc_exception_handlers (method mi));
    h ← get hinfo;
    _ ← set_hinfo (MkHandling (changed_locals h) (locals_changed h) (no_locals_info h) (loop_start h) (loop_finish h) 0);
    afterJump ← verify_code;
    check afterJump VF_ErrorCodeEnd.

(** [init]: a fresh context, with the pool of the class. *)
Definition init_ctx (p : pool) : ctx :=
  MkCtx (MkMap [] []) (MkHandling (replicate (Z.to_nat (m_stack_start vm mi)) false) false false 0 0 0) SM_NONE p ∅.
End verify.

(** ** [vf_verify6_class] *)

(** The result of a context and the pool it leaves; [None] for a failed assertion. *)
Definition outcome (r : vres unit) : option (vf_Result * pool) :=
  match r with VOk _ c => Some (VF_OK, tpool c) | VErr r c => Some (r, tpool c) | VUndef => None end.

Section verify_class.
Context (vm : VM) (verify5 : Method_Info -> pool -> option (vf_Result * pool)).

Definition verify6 (mi : Method_Info) (p : pool) : option (vf_Result * pool) := outcome (verify_method vm mi (init_ctx vm mi p)).

(** The loop over the methods: [skip] is [skip_java6_verification_attempt] and [result]
    the one of the method before. *)
Fixpoint verify6_methods (ms : list Method_Info) (skip : bool) (result : vf_Result) (p : pool) : option (vf_Result * pool) :=
  match ms with
  | [] => Some (result, p)
  | mi :: ms =>
      let attempt := negb skip || bool_decide (is_Some (method_stackmaptable mi)) in
      '(result, p) ← (if attempt then verify6 mi p else Some (result, p));
      if attempt && bool_decide (result = VF_ErrorStackmap) then Some (result, p)
      else
        let skip := skip || (attempt && negb (bool_decide (result = VF_OK))) in
        if negb (bool_decide (result = VF_OK)) then
          '(result, p) ← verify5 mi p;
          if negb (bool_decide (result = VF_OK)) then Some (result, p) else verify6_methods ms skip result p
        else verify6_methods ms skip result p
  end.
Definition vf_verify6_class (ms : list Method_Info) : option (vf_Result * pool) := verify6_methods ms false VF_OK new_pool.
End verify_class.
