(* ===== verification/VerTypesOk.v ===== *)
(** * What the verification types promise about values

    A word of a stack is a value of one word or a half of a value of two; [slot_ok] is
    the contract between a verification type and a word.  Assignability keeps it, for
    whatever class hierarchy: this is all of it that the typing of the machine needs.
    The tags of the types are separate, and their indices come back. *)
From stdpp Require Import gmap strings.
From S2P Require Import Prelude Frame FrameOk StackOk JavaMachine VerTypes.

(** ** Words *)

Inductive slot := SOne (v : jval) | SLow (v : jval) | SHigh (v : jval).

(** The words of a value and of a stack, top first. *)
Definition slots_of (v : jval) : list slot := if cat2 v then [SHigh v; SLow v] else [SOne v].
Definition slots (st : list jval) : list slot := flat_map slots_of st.

Definition is_ref (c : SmConstant) : bool := isReference c || isNewObject c || (c =? SM_NULL) || (c =? SM_THISUNINIT).

Inductive slot_ok : SmConstant -> slot -> Prop :=
  | ok_bogus s : slot_ok SM_BOGUS s
  | ok_int i : slot_ok SM_INTEGER (SOne (VInt i))
  | ok_float b : slot_ok SM_FLOAT (SOne (VFloat b))
  | ok_long i : slot_ok SM_LONG (SLow (VLong i))
  | ok_double b : slot_ok SM_DOUBLE (SLow (VDouble b))
  | ok_high v : slot_ok SM_HIGH_WORD (SHigh v)
  | ok_ref c r : is_ref c = true -> slot_ok c (SOne (VRef r)).

(** The types that describe words; the others are only expected. *)
Definition storable (c : SmConstant) : bool :=
  existsb (Z.eqb c) [SM_BOGUS; SM_INTEGER; SM_FLOAT; SM_LONG; SM_DOUBLE; SM_HIGH_WORD] || is_ref c.

(** ** Tags *)

Lemma getReference_tag idx : isReference (getReference idx) = true.
Proof.
  unfold isReference, getReference. apply negb_true_iff, Z.eqb_neq. intros H.
  apply (f_equal (fun z => Z.testbit z 26)) in H. rewrite Z.land_spec, !Z.lor_spec in H.
  change (Z.testbit TYPE_REFERENCE 26) with true in H. rewrite orb_true_l, orb_true_r in H. done.
Qed.
Lemma getNewObject_tag instr : isNewObject (getNewObject instr) = true.
Proof.
  unfold isNewObject, getNewObject. apply negb_true_iff, Z.eqb_neq. intros H.
  apply (f_equal (fun z => Z.testbit z 27)) in H. rewrite Z.land_spec, !Z.lor_spec in H.
  change (Z.testbit TYPE_NEWOBJECT 27) with true in H. rewrite orb_true_l, orb_true_r in H. done.
Qed.

Lemma getRetAddr_tag instr : isRetAddr (getRetAddr instr) = true.
Proof.
  unfold isRetAddr, getRetAddr. apply negb_true_iff, Z.eqb_neq. intros H.
  apply (f_equal (fun z => Z.testbit z 25)) in H. rewrite Z.land_spec, !Z.lor_spec in H.
  change (Z.testbit TYPE_RETADDR 25) with true in H. rewrite orb_true_l, orb_true_r in H. done.
Qed.

(** A tag and a number below it: shifting, tagging and untagging give the number back. *)
Lemma untag_tagged n k : 1 <= k < 31 -> 0 <= n < 2 ^ (k - 1) ->
  untag (Z.lor (Z.shiftl n 1) (Z.lor (2 ^ k) 1)) (2 ^ k) = n.
Proof.
  intros Hk Hn. unfold untag. apply Z.bits_inj'. intros i Hi.
  rewrite Z.shiftr_spec, Z.land_spec, !Z.lor_spec, Z.shiftl_spec by lia.
  replace (i + 1 - 1) with i by lia. rewrite Z.pow2_bits_eqb by lia.
  assert (Hone : Z.testbit 1 (i + 1) = false).
  { change 1 with (2 ^ 0). rewrite Z.pow2_bits_eqb by lia. apply Z.eqb_neq. lia. }
  rewrite Hone, orb_false_r, testbit_ux, Z.lnot_spec, Z.pow2_bits_eqb by lia.
  destruct (Z.ltb_spec (i + 1) 32) as [Hlt|Hge].
  - destruct (Z.eqb_spec k (i + 1)) as [->|]; [|by rewrite orb_false_r, andb_true_r].
    rewrite andb_false_r. symmetry. apply (testbit_high (i + 1 - 1)); lia.
  - rewrite andb_false_r. symmetry. apply (testbit_high (k - 1)); lia.
Qed.

(** the tagged types give back what they were made from: the index of a
    reference, the address of a [new] and the start of a subroutine, for every index
    below the tag and every address. *)
Theorem SmConstant_roundtrip idx instr : 0 <= idx < 2 ^ 25 -> is_u 16 instr ->
  getReferenceIdx (getReference idx) = Some idx /\ getNewInstr (getNewObject instr) = Some instr /\
  getRetInstr (getRetAddr instr) = Some instr.
Proof.
  intros Hidx Hi. unfold getReferenceIdx, getNewInstr, getRetInstr. rewrite getReference_tag, getNewObject_tag, getRetAddr_tag.
  unfold getReference, getNewObject, getRetAddr.
  change TYPE_REFERENCE with (2 ^ 26). change TYPE_NEWOBJECT with (2 ^ 27). change TYPE_RETADDR with (2 ^ 25).
  rewrite (untag_tagged idx 26), (untag_tagged instr 27), (untag_tagged instr 25) by (unfold is_u in *; lia).
  rewrite (ux_id 16 instr) by done. done.
Qed.
Lemma SmConstant_roundtrip_witness : getReferenceIdx (getReference 33554431) = Some 33554431 /\
  getNewInstr (getNewObject 65535) = Some 65535 /\ getRetInstr (getRetAddr 65535) = Some 65535.
Proof. apply SmConstant_roundtrip; [lia|]. unfold is_u. lia. Defined.

(** ** Assignability *)

(** Unfold the computations on the pool. *)
Ltac p_unfold := unfold mret, mbind, P_ret, P_bind, passert, plift, pfail in *.

(** The types of names are references. *)
Lemma get_ref_type_ref nm n p c p' : get_ref_type nm n p = Some (c, p') -> isReference c = true.
Proof.
  unfold get_ref_type. intros H.
  repeat (case_match; simplify_eq; try apply getReference_tag; simpl in H); injection H as <- _; apply getReference_tag.
Qed.

Lemma mustbe_cases vm from to p p' : mustbe_assignable vm from to p = Some (true, p') ->
  from = to \/ to = SM_NONE \/ to = SM_BOGUS \/ from <> SM_BOGUS /\ (
    (isReference to = true /\ (from = SM_NULL \/ isReference from = true)) \/
    (to = SM_LOW_WORD /\ from <> SM_HIGH_WORD) \/
    (to = SM_REF_OR_UNINIT_OR_RETADR /\ (from = SM_NULL \/ from = SM_THISUNINIT \/ isPrimitive from = false)) \/
    (to = SM_REF_OR_UNINIT /\ is_ref from = true) \/ (to = SM_ANYARRAY /\ is_ref from = true)).
Proof.
  unfold mustbe_assignable. intros H.
  destruct (Z.eqb_spec from to); [by left|]. right. destruct (Z.eqb_spec to SM_NONE); [by left|]. right.
  destruct (Z.eqb_spec to SM_BOGUS); [by left|]. right. cbn [orb] in H.
  destruct (Z.eqb_spec from SM_BOGUS); [done|]. split; [done|].
  destruct (isReference to) eqn:Hr.
  { left. split; [done|]. destruct (Z.eqb_spec from SM_NULL); [by left|]. destruct (isReference from); [by right|done]. }
  right. destruct (isPrimitive to); [|done]. cbn [negb] in H. p_unfold.
  destruct (forallb _ _); [|done].
  destruct (Z.eqb_spec to SM_LOW_WORD).
  { left. split; [done|]. injection H as H _. by apply negb_true_iff, Z.eqb_neq in H. }
  right. destruct (Z.eqb_spec to SM_REF_OR_UNINIT_OR_RETADR).
  { left. split; [done|]. injection H as H _. apply orb_true_iff in H as [H|H%negb_true_iff]; [|by auto].
    apply orb_true_iff in H as [H|H]; apply Z.eqb_eq in H; auto. }
  right. destruct (Z.eqb_spec to SM_REF_OR_UNINIT).
  { left. split; [done|]. injection H as H _. unfold is_ref.
    destruct (isReference from), (isNewObject from), (from =? SM_NULL), (from =? SM_THISUNINIT); done. }
  right. destruct (Z.eqb_spec to SM_ANYARRAY).
  { split; [done|]. unfold is_ref. destruct (from =? SM_NULL); [by rewrite orb_true_r|].
    destruct (isReference from); done. }
  by destruct (existsb _ _).
Qed.

Lemma slot_ok_ref c s : slot_ok c s -> is_ref c = true -> exists r, s = SOne (VRef r).
Proof. intros [] Hc; try done. by eexists. Qed.

Lemma storable_assignable vm from to p p' s : mustbe_assignable vm from to p = Some (true, p') ->
  storable to = true -> slot_ok from s -> slot_ok to s.
Proof.
  intros H Hto Hs. apply mustbe_cases in H as [->|[->|[->|[Hb [[Hr Hf]|[[-> _]|[[-> _]|[[-> _]|[-> _]]]]]]]]]; try done; try constructor.
  assert (is_ref from = true) as Hf'.
  { unfold is_ref. destruct Hf as [->| ->]; [by vm_compute|done]. }
  destruct (slot_ok_ref from s Hs Hf') as [r ->]. constructor. unfold is_ref. by rewrite Hr.
Qed.

(** What the tests of the opcodes say of a word. *)
Lemma low_assignable vm c p p' : mustbe_assignable vm c SM_LOW_WORD p = Some (true, p') ->
  forall v, ~ slot_ok c (SHigh v).
Proof.
  intros H v Hs. inversion Hs; subst; apply mustbe_cases in H as [H|[H|[H|[Hb [[H _]|[[_ H]|[[H _]|[[H _]|[H _]]]]]]]]]; done.
Qed.
Lemma ref_assignable vm c to p p' s : mustbe_assignable vm c to p = Some (true, p') ->
  isReference to = true \/ to = SM_REF_OR_UNINIT \/ to = SM_ANYARRAY -> slot_ok c s -> exists r, s = SOne (VRef r).
Proof.
  intros H Hto Hs. apply mustbe_cases in H.
  assert (is_ref c = true); [|by eapply slot_ok_ref].
  destruct H as [->|[->|[->|[Hb [[_ [-> | Hc]]|[[-> _]|[[-> _]|[[-> H]|[-> H]]]]]]]]]; try done.
  - destruct Hto as [Hto|[-> | ->]]; [unfold is_ref; by rewrite Hto| |]; inversion Hs; done.
  - by destruct Hto as [|[|]].
  - by destruct Hto as [|[|]].
  - unfold is_ref. by rewrite Hc.
  - by destruct Hto as [|[|]].
  - by destruct Hto as [|[|]].
Qed.
Lemma store_assignable vm c p p' s : mustbe_assignable vm c SM_REF_OR_UNINIT_OR_RETADR p = Some (true, p') ->
  slot_ok c s -> exists r, s = SOne (VRef r).
Proof.
  intros H Hs. apply mustbe_cases in H.
  assert (is_ref c = true \/ isPrimitive c = false) as Hp.
  { destruct H as [->|[H|[H|[Hb [[H _]|[[H _]|[[_ H]|[[H _]|[H _]]]]]]]]]; try done; try (by inversion Hs).
    all: by destruct H as [->|[->|H]]; auto. }
  destruct Hp as [|Hp]; [by eapply slot_ok_ref|].
  inversion Hs; subst; try done. by eexists.
Qed.

(** [aload] takes the references among the types that describe words. *)
Lemma uninit_assignable vm c p p' : mustbe_assignable vm c SM_REF_OR_UNINIT p = Some (true, p') -> storable c = true -> is_ref c = true.
Proof. intros H Hc. apply mustbe_cases in H as [->|[H|[H|[_ [[H _]|[[H _]|[[H _]|[[_ H]|[H _]]]]]]]]]; done. Qed.
Lemma slot_ok_storable c s : slot_ok c s -> storable c = true.
Proof. intros []; try done. unfold storable. by rewrite orb_true_iff; right. Qed.

(** ** Typed stacks *)

Definition typed_stack (ts : list SmConstant) (st : list jval) : Prop := Forall2 slot_ok ts (slots st).

Lemma slots_cons v st : slots (v :: st) = slots_of v ++ slots st.
Proof. reflexivity. Qed.

Lemma slots_length st : length (slots st) = depth st.
Proof.
  induction st as [|v st IH]; [done|]. rewrite slots_cons, length_app, IH. unfold depth, cells_of_stack. simpl.
  rewrite length_app. unfold slots_of. by destruct v.
Qed.
Lemma typed_depth ts st : typed_stack ts st -> depth st = length ts.
Proof. intros H. rewrite <- slots_length. symmetry. by eapply Forall2_length. Qed.

(** The top of a typed stack. *)
Lemma typed_top c ts st : typed_stack (c :: ts) st -> exists v st', st = v :: st' /\
  ((cat2 v = false /\ slot_ok c (SOne v) /\ typed_stack ts st') \/
   (cat2 v = true /\ slot_ok c (SHigh v) /\ exists c' ts', ts = c' :: ts' /\ slot_ok c' (SLow v) /\ typed_stack ts' st')).
Proof.
  intros H. destruct st as [|v st]; [by inversion H|]. exists v, st. split; [done|].
  unfold typed_stack in H. rewrite slots_cons in H. unfold slots_of in H. destruct (cat2 v); simpl in H.
  - right. inversion H as [|? ? ? ? H1 H2]; subst. inversion H2; subst. split; [done|]. split; [done|]. by eexists _, _.
  - left. inversion H; subst. done.
Qed.
Lemma typed_one c ts v st : cat2 v = false -> slot_ok c (SOne v) -> typed_stack ts st -> typed_stack (c :: ts) (v :: st).
Proof. intros Hc H1 H. unfold typed_stack. rewrite slots_cons. unfold slots_of. rewrite Hc. by constructor. Qed.
Lemma typed_two c c' ts v st : cat2 v = true -> slot_ok c (SHigh v) -> slot_ok c' (SLow v) -> typed_stack ts st ->
  typed_stack (c :: c' :: ts) (v :: st).
Proof. intros Hc H1 H2 H. unfold typed_stack. rewrite slots_cons. unfold slots_of. rewrite Hc. by repeat constructor. Qed.

(** The words of the primitive types. *)
Lemma one_int v : slot_ok SM_INTEGER (SOne v) -> exists i, v = VInt i.
Proof. intros H. inversion H; [by eexists|done]. Qed.
Lemma one_float v : slot_ok SM_FLOAT (SOne v) -> exists i, v = VFloat i.
Proof. intros H. inversion H; [by eexists|done]. Qed.
Lemma low_long v : slot_ok SM_LONG (SLow v) -> exists i, v = VLong i.
Proof. intros H. inversion H. by eexists. Qed.
Lemma low_double v : slot_ok SM_DOUBLE (SLow v) -> exists i, v = VDouble i.
Proof. intros H. inversion H. by eexists. Qed.

Lemma top_int ts st : typed_stack (SM_INTEGER :: ts) st -> exists i st', st = VInt i :: st' /\ typed_stack ts st'.
Proof. intros H. apply typed_top in H as (v & st' & -> & [(_ & H & ?)|(_ & H & _)]); inversion H; subst; try done; by eexists _, _. Qed.
Lemma top_float ts st : typed_stack (SM_FLOAT :: ts) st -> exists b st', st = VFloat b :: st' /\ typed_stack ts st'.
Proof. intros H. apply typed_top in H as (v & st' & -> & [(_ & H & ?)|(_ & H & _)]); inversion H; subst; try done; by eexists _, _. Qed.
Lemma top_long ts st : typed_stack (SM_HIGH_WORD :: SM_LONG :: ts) st -> exists i st', st = VLong i :: st' /\ typed_stack ts st'.
Proof.
  intros H. apply typed_top in H as (v & st' & -> & [(_ & H & _)|(_ & _ & c & ts' & [= <- <-] & H & ?)]); inversion H; subst; try done; by eexists _, _.
Qed.
Lemma top_double ts st : typed_stack (SM_HIGH_WORD :: SM_DOUBLE :: ts) st -> exists b st', st = VDouble b :: st' /\ typed_stack ts st'.
Proof.
  intros H. apply typed_top in H as (v & st' & -> & [(_ & H & _)|(_ & _ & c & ts' & [= <- <-] & H & ?)]); inversion H; subst; try done; by eexists _, _.
Qed.
(** A word that is not a high one is on top. *)
Lemma top_low c ts st : (forall v, ~ slot_ok c (SHigh v)) -> typed_stack (c :: ts) st ->
  exists v st', st = v :: st' /\ cat2 v = false /\ slot_ok c (SOne v) /\ typed_stack ts st'.
Proof. intros Hc H. apply typed_top in H as (v & st' & -> & [(? & ? & ?)|(_ & H & _)]); [by exists v, st'|]. by destruct (Hc v). Qed.
(** A reference on top: [Hc] is a test it has passed. *)
Lemma top_ref c ts st : (forall s, slot_ok c s -> exists r, s = SOne (VRef r)) -> typed_stack (c :: ts) st ->
  exists r st', st = VRef r :: st' /\ typed_stack ts st'.
Proof.
  intros Hc H. apply typed_top in H as (v & st' & -> & [(_ & H & ?)|(_ & H & _)]); destruct (Hc _ H) as [r [=]]; subst.
  by exists r, st'.
Qed.

(** ** Typed locals *)

Definition one_word (c : SmConstant) : bool := (c =? SM_INTEGER) || (c =? SM_FLOAT) || is_ref c.

(** Of the first [nl] variables those with a type of one word hold a value of it, and
    those with the two halves of a [long] or [double] hold it. *)
Record typed_locals (nl : nat) (els : list SmConstant) (L : Z -> option jval) : Prop := {
  tl_one : forall n c, (n < nl)%nat -> els !! n = Some c -> one_word c = true ->
    exists v, L (Z.of_nat n) = Some v /\ slot_ok c (SOne v) /\ cat2 v = false;
  tl_two : forall n c, (S n < nl)%nat -> els !! n = Some c -> isLongOrDouble c = true -> els !! S n = Some SM_HIGH_WORD ->
    exists v, L (Z.of_nat n) = Some v /\ slot_ok c (SLow v) /\ cat2 v = true;
}.

Lemma one_word_one c v : slot_ok c (SOne v) -> isLongOrDouble c = false /\ c <> SM_HIGH_WORD /\ (c = SM_BOGUS \/ cat2 v = false).
Proof.
  intros H. inversion H as [| | | | | |? r Hc]; subst; try by auto.
  split; [|split]; [| |by right].
  - destruct (isLongOrDouble c) eqn:E; [|done]. apply orb_true_iff in E as [->%Z.eqb_eq| ->%Z.eqb_eq]; done.
  - by intros ->.
Qed.
Lemma low_two c v : isLongOrDouble c = true -> slot_ok c (SLow v) -> cat2 v = true.
Proof. intros Hc H. inversion H; by subst. Qed.

Lemma assign_same L n v : assign L n v n = Some v.
Proof. unfold assign. by rewrite Z.eqb_refl. Qed.
Lemma assign_other L n v m u : L m = Some u -> m <> n -> m + width u <= n \/ n + width v <= m -> assign L n v m = Some u.
Proof. intros Hu Hm Hd. unfold assign. destruct (Z.eqb_spec m n); [done|]. rewrite Hu. simpl. by rewrite decide_True. Qed.

Lemma typed_set_one nl els L n c v : typed_locals nl els L -> slot_ok c (SOne v) -> cat2 v = false ->
  typed_locals nl (<[n := c]> els) (assign L (Z.of_nat n) v).
Proof.
  intros [H1 H2] Hc Hv. destruct (one_word_one c v Hc) as (Hnl & Hnh & _). split.
  - intros m d Hm Hd Hone. destruct (decide (m = n)) as [->|].
    + apply list_lookup_insert_Some in Hd as [(_ & -> & _)|[? _]]; [|done]. exists v. by rewrite assign_same.
    + rewrite list_lookup_insert_ne in Hd by done. destruct (H1 m d Hm Hd Hone) as (u & Hu & Hsl & Hcat).
      exists u. split; [|done]. apply assign_other; [done|lia|]. unfold width. rewrite Hcat, Hv. lia.
  - intros m d Hm Hd Hl Hh.
    assert (m <> n) as Hmn.
    { intros ->. apply list_lookup_insert_Some in Hd as [(_ & -> & _)|[? _]]; [by rewrite Hnl in Hl|done]. }
    assert (S m <> n) as Hsn.
    { intros <-. apply list_lookup_insert_Some in Hh as [(_ & E & _)|[? _]]; [by apply Hnh|done]. }
    rewrite list_lookup_insert_ne in Hd by done. rewrite list_lookup_insert_ne in Hh by done.
    destruct (H2 m d Hm Hd Hl Hh) as (u & Hu & Hsl & Hcat). exists u. split; [|done].
    apply assign_other; [done|lia|]. unfold width. rewrite Hcat, Hv. lia.
Qed.

Lemma typed_set_two nl els L n c v : typed_locals nl els L -> isLongOrDouble c = true -> slot_ok c (SLow v) ->
  typed_locals nl (<[S n := SM_HIGH_WORD]> (<[n := c]> els)) (assign L (Z.of_nat n) v).
Proof.
  intros [H1 H2] Hc Hsl. pose proof (low_two c v Hc Hsl) as Hv. split.
  - intros m d Hm Hd Hone.
    assert (m <> n /\ m <> S n) as [Hmn Hms].
    { split; intros ->.
      - rewrite list_lookup_insert_ne in Hd by lia. apply list_lookup_insert_Some in Hd as [(_ & <- & _)|[? _]]; [|done].
        apply orb_true_iff in Hc as [->%Z.eqb_eq| ->%Z.eqb_eq]; done.
      - apply list_lookup_insert_Some in Hd as [(_ & <- & _)|[? _]]; done. }
    rewrite !list_lookup_insert_ne in Hd by done. destruct (H1 m d Hm Hd Hone) as (u & Hu & Hsu & Hcat).
    exists u. split; [|done]. apply assign_other; [done|lia|]. unfold width. rewrite Hcat, Hv. lia.
  - intros m d Hm Hd Hl Hh. destruct (decide (m = n)) as [->|Hmn].
    + rewrite list_lookup_insert_ne in Hd by lia. apply list_lookup_insert_Some in Hd as [(_ & <- & _)|[? _]]; [|done].
      exists v. by rewrite assign_same.
    + assert (m <> S n) as Hms.
      { intros ->. apply list_lookup_insert_Some in Hd as [(_ & <- & _)|[? _]]; done. }
      assert (S m <> n) as Hsn.
      { intros <-. rewrite list_lookup_insert_ne in Hh by lia. apply list_lookup_insert_Some in Hh as [(_ & -> & _)|[? _]]; done. }
      rewrite !list_lookup_insert_ne in Hd by done. rewrite !list_lookup_insert_ne in Hh by lia.
      destruct (H2 m d Hm Hd Hl Hh) as (u & Hu & Hsu & Hcat). exists u. split; [|done].
      apply assign_other; [done|lia|]. unfold width. rewrite Hcat, Hv. lia.
Qed.

(** ** Merging: the map of a state fits another one *)

Section merge.
Context (vm : VM).

Definition assignable (a b : SmConstant) : Prop := exists p p', mustbe_assignable vm a b p = Some (true, p').

Lemma assignable_one a b : assignable a b -> storable b = true -> one_word b = true -> one_word a = true.
Proof.
  intros (p & p' & H) Hb H1. apply mustbe_cases in H as [->|[->|[->|[_ [[Hr Hf]|[[-> _]|[[-> _]|[[-> _]|[-> _]]]]]]]]]; try done.
  unfold one_word, is_ref. destruct Hf as [->|Hf]; [by vm_compute|]. by rewrite Hf, orb_true_r.
Qed.
Lemma assignable_exact a b : assignable a b -> isLongOrDouble b || (b =? SM_HIGH_WORD) = true -> a = b.
Proof.
  intros (p & p' & H) Hb.
  assert (Hc : b = SM_LONG \/ b = SM_DOUBLE \/ b = SM_HIGH_WORD).
  { unfold isLongOrDouble in Hb. repeat (apply orb_true_iff in Hb as [Hb|Hb]); apply Z.eqb_eq in Hb; auto. }
  apply mustbe_cases in H as [->|[->|[->|[_ [[Hr Hf]|[[-> _]|[[-> _]|[[-> _]|[-> _]]]]]]]]]; try done;
    try (by destruct Hc as [|[|]]).
  by destruct Hc as [->|[->| ->]].
Qed.

Lemma typed_locals_merge nl from to L : typed_locals nl from L -> Forall2 assignable from to -> Forall (fun c => storable c = true) to ->
  typed_locals nl to L.
Proof.
  intros [H1 H2] Hf Hs. split.
  - intros n c Hn Hc Hone. destruct (Forall2_lookup_r _ _ _ _ _ Hf Hc) as (a & Ha & Hac).
    pose proof (Forall_lookup_1 _ _ _ _ Hs Hc) as Hsc. simpl in Hsc.
    destruct (H1 n a Hn Ha (assignable_one a c Hac Hsc Hone)) as (v & Hv & Hok & Hcat).
    exists v. split; [done|]. split; [|done]. destruct Hac as (p & p' & Hac). by eapply storable_assignable.
  - intros n c Hn Hc Hl Hh.
    destruct (Forall2_lookup_r _ _ _ _ _ Hf Hc) as (a & Ha & Hac). destruct (Forall2_lookup_r _ _ _ _ _ Hf Hh) as (h & Hh' & Hhc).
    apply assignable_exact in Hac as ->; [|by rewrite Hl]. apply assignable_exact in Hhc as ->; [|done].
    by apply H2.
Qed.
Lemma typed_stack_merge from to st : typed_stack from st -> Forall2 assignable from to -> Forall (fun c => storable c = true) to ->
  typed_stack to st.
Proof.
  unfold typed_stack. generalize (slots st). intros ss H. revert to. induction H as [|c s cs ss Hc H IH]; intros to Hf Hs.
  - inversion Hf. by constructor.
  - inversion Hf as [|? d ? ds Hcd Hds]; subst. inversion Hs; subst. constructor; [|by apply IH].
    destruct Hcd as (p & p' & Hcd). by eapply storable_assignable.
Qed.
End merge.
