(* ===== verification/VerStepOk.v ===== *)
(** * One accepted instruction runs

    [vwp] reads a computation of the verifier backwards from its success.  For every
    instruction of the machine of [JavaMachine.v]: when [dataflow_instruction] accepts
    it from a map and a state has the types of the map, the machine can run it, and the
    new state has the types of the new map. *)
From Stdlib Require Import Ascii.
From stdpp Require Import gmap strings.
From S2P Require Import Prelude Floats JavaArith Frame FrameOk Opcodes OpcodesOk StackOk BranchOk Interp JavaMachine VerTypes VerTypesOk VerContext.

(** ** Success of a computation *)

Definition vwp {A} (m : V A) (c : ctx) (Q : A -> ctx -> Prop) : Prop :=
  match m c with VOk a c' => Q a c' | _ => True end.

Lemma vwp_elim {A} (m : V A) c Q a c' : vwp m c Q -> m c = VOk a c' -> Q a c'.
Proof. unfold vwp. intros H E. by rewrite E in H. Qed.
Lemma vwp_intro {A} (m : V A) c (Q : A -> ctx -> Prop) : (forall a c', m c = VOk a c' -> Q a c') -> vwp m c Q.
Proof. unfold vwp. intros H. destruct (m c) eqn:E; auto. Qed.
Lemma vwp_mono {A} (m : V A) c (Q R : A -> ctx -> Prop) : vwp m c Q -> (forall a c', Q a c' -> R a c') -> vwp m c R.
Proof. unfold vwp. intros H HR. destruct (m c); auto. Qed.

Lemma vwp_bind {A B} (m : V A) (k : A -> V B) c Q : vwp m c (fun a c' => vwp (k a) c' Q) -> vwp (m ≫= k) c Q.
Proof. unfold vwp, mbind, V_bind. destruct (m c); auto. Qed.
Lemma vwp_ret {A} (a : A) c (Q : A -> ctx -> Prop) : Q a c -> vwp (mret a) c Q.
Proof. done. Qed.
Lemma vwp_error {A} r c (Q : A -> ctx -> Prop) : vwp (error r) c Q.
Proof. done. Qed.
Lemma vwp_undef {A} c (Q : A -> ctx -> Prop) : vwp undef c Q.
Proof. done. Qed.
Lemma vwp_check b r c (Q : unit -> ctx -> Prop) : (b = true -> Q tt c) -> vwp (check b r) c Q.
Proof. unfold check. destruct b; [|done]. intros H. by apply H. Qed.
Lemma vwp_assert b c (Q : unit -> ctx -> Prop) : (b = true -> Q tt c) -> vwp (vassert b) c Q.
Proof. unfold vassert. destruct b; [|done]. intros H. by apply H. Qed.
Lemma vwp_of_opt {A} (o : option A) c (Q : A -> ctx -> Prop) : (forall a, o = Some a -> Q a c) -> vwp (of_opt o) c Q.
Proof. unfold of_opt. destruct o; [|done]. intros H. by apply H. Qed.
Lemma vwp_get {A} (f : ctx -> A) c (Q : A -> ctx -> Prop) : Q (f c) c -> vwp (get f) c Q.
Proof. done. Qed.
Lemma vwp_vand (a b : V bool) c (Q : bool -> ctx -> Prop) :
  vwp a c (fun x c' => if x then vwp b c' Q else Q false c') -> vwp (vand a b) c Q.
Proof.
  intros H. unfold vand. apply vwp_bind. eapply vwp_mono; [exact H|]. intros [] c' Hc; [done|]. exact Hc.
Qed.
Lemma vwp_if {A} (b : bool) (m1 m2 : V A) c Q : (b = true -> vwp m1 c Q) -> (b = false -> vwp m2 c Q) ->
  vwp (if b then m1 else m2) c Q.
Proof. destruct b; auto. Qed.
Lemma vwp_pl {A} (m : P A) w h t p ps (Q : A -> ctx -> Prop) :
  (forall a p', m p = Some (a, p') -> Q a (MkCtx w h t p' ps)) -> vwp (pl m) (MkCtx w h t p ps) Q.
Proof. unfold vwp, pl. cbn [tpool workmap hinfo return_type props]. destruct (m p) as [[a p']|] eqn:E; [|done]. intros H. by apply H. Qed.
Lemma vwp_ignore m c (Q : unit -> ctx -> Prop) : (forall c', Q tt c') -> vwp (ignore m) c Q.
Proof. unfold vwp, ignore. intros H. destruct (m c); auto. Qed.

Section primitives.
Context (vm : VM) (mi : Method_Info).
Abbreviation code := (byte_code (method mi)).
Abbreviation nl := (max_locals (method mi)).
Abbreviation ms := (max_stack (method mi)).

Section rules.
Context (els ts : list SmConstant) (h : handling) (t : SmConstant) (p : pool) (ps : gmap Z MapHead).
Abbreviation cx ts := (MkCtx (MkMap els ts) h t p ps).

Lemma vwp_can_pop n (Q : unit -> ctx -> Prop) : (n <= Z.of_nat (length ts) -> Q tt (cx ts)) -> vwp (can_pop n) (cx ts) Q.
Proof.
  intros H. unfold can_pop, workmap_can_pop. apply vwp_bind, vwp_get. apply vwp_check. intros Hb%Z.leb_le. by apply H.
Qed.
Lemma vwp_can_push n (Q : unit -> ctx -> Prop) :
  (Z.of_nat (length ts) + n <= Z.of_nat ms -> Q tt (cx ts)) -> vwp (can_push mi n) (cx ts) Q.
Proof.
  intros H. unfold can_push, workmap_can_push. apply vwp_bind, vwp_get. apply vwp_check. intros Hb%Z.leb_le. by apply H.
Qed.
Lemma vwp_pop (Q : SmConstant -> ctx -> Prop) : (forall el ts', ts = el :: ts' -> Q el (cx ts')) -> vwp workmap_pop (cx ts) Q.
Proof.
  intros H. unfold workmap_pop. apply vwp_bind, vwp_get. cbn [workmap opstack elements]. destruct ts as [|el ts']; [done|].
  apply vwp_bind. by apply (H el ts').
Qed.
Lemma vwp_push el (Q : unit -> ctx -> Prop) :
  (Z.of_nat (length ts) + 1 <= Z.of_nat ms -> Q tt (cx (el :: ts))) -> vwp (workmap_push mi el) (cx ts) Q.
Proof.
  intros H. unfold workmap_push, workmap_can_push. apply vwp_bind, vwp_get, vwp_bind, vwp_assert. intros Hb%Z.leb_le.
  apply vwp_bind, vwp_get. by apply H.
Qed.
Lemma vwp_push_2w el (Q : unit -> ctx -> Prop) :
  (Z.of_nat (length ts) + 2 <= Z.of_nat ms -> Q tt (cx (SM_HIGH_WORD :: el :: ts))) ->
  vwp (workmap_2w_push_const mi el) (cx ts) Q.
Proof.
  intros H. unfold workmap_2w_push_const, workmap_push_const, workmap_push, workmap_can_push.
  apply vwp_bind, vwp_bind, vwp_get, vwp_bind, vwp_assert. intros _. apply vwp_bind, vwp_get.
  apply vwp_bind, vwp_get, vwp_bind, vwp_assert. intros Hb%Z.leb_le. apply vwp_bind, vwp_get. apply H.
  cbn [workmap opstack length] in Hb. unfold m_max_stack in Hb. lia.
Qed.
Lemma vwp_strict el type (Q : bool -> ctx -> Prop) : Q (type =? el) (cx ts) -> vwp (workmap_expect_strict el type) (cx ts) Q.
Proof. intros H. unfold workmap_expect_strict. apply vwp_bind, vwp_assert. intros _. exact H. Qed.
Lemma vwp_expect el type (Q : bool -> ctx -> Prop) :
  (forall b p', mustbe_assignable vm el type p = Some (b, p') -> Q b (MkCtx (MkMap els ts) h t p' ps)) ->
  vwp (workmap_expect vm el type) (cx ts) Q.
Proof. apply vwp_pl. Qed.
Lemma vwp_get_local idx (Q : SmConstant -> ctx -> Prop) :
  (forall el, idx < Z.of_nat nl -> els !! Z.to_nat idx = Some el -> Q el (cx ts)) -> vwp (workmap_get_local mi idx) (cx ts) Q.
Proof.
  intros H. unfold workmap_get_local. apply vwp_bind, vwp_assert. intros Hi. apply vwp_bind, vwp_get, vwp_of_opt.
  intros el Hel. apply H; [|done]. unfold workmap_valid_local, m_max_locals in Hi. lia.
Qed.
Lemma vwp_set_local idx el (Q : unit -> ctx -> Prop) :
  (forall h', idx < Z.of_nat nl -> Q tt (MkCtx (MkMap (<[Z.to_nat idx := el]> els) ts) h' t p ps)) -> vwp (workmap_set_local mi idx el) (cx ts) Q.
Proof.
  intros H. unfold workmap_set_local. apply vwp_bind, vwp_assert. intros Hi. apply vwp_bind, vwp_get, vwp_bind, vwp_get, vwp_bind.
  apply H. unfold workmap_valid_local, m_max_locals in Hi. lia.
Qed.
Lemma vwp_valid_local idx (Q : unit -> ctx -> Prop) : (idx < Z.of_nat nl -> Q tt (cx ts)) -> vwp (valid_local mi idx) (cx ts) Q.
Proof. intros H. apply vwp_check. intros Hi. apply H. unfold workmap_valid_local, m_max_locals in Hi. lia. Qed.
Lemma vwp_valid_2w_local idx (Q : unit -> ctx -> Prop) : (idx + 1 < Z.of_nat nl -> Q tt (cx ts)) -> vwp (valid_2w_local mi idx) (cx ts) Q.
Proof. intros H. apply vwp_check. intros Hi. apply H. unfold workmap_valid_2w_local, workmap_valid_local, m_max_locals in Hi. lia. Qed.
Lemma vwp_byte addr (Q : Z -> ctx -> Prop) : (forall b, byte code addr = Some b -> Q b (cx ts)) -> vwp (m_byte mi addr) (cx ts) Q.
Proof. apply vwp_of_opt. Qed.
End rules.
End primitives.

(** ** Steps of a computation *)

Ltac eqs := repeat match goal with H : (_ =? _) = true |- _ => apply Z.eqb_eq in H; simplify_eq end.
Ltac words_of := repeat match goal with |- context [isLongOrDouble ?c] =>
  let b := eval vm_compute in (isLongOrDouble c) in change (isLongOrDouble c) with b; cbv iota end.
Ltac vstep :=
  lazymatch goal with
  | |- vwp (_ ≫= _) _ _ => apply vwp_bind
  | |- vwp (mret _) _ _ => apply vwp_ret
  | |- vwp (error _) _ _ => exact I
  | |- vwp undef _ _ => exact I
  | |- vwp (can_pop _) _ _ => apply vwp_can_pop; intros _
  | |- vwp (can_push _ _) _ _ => apply vwp_can_push; intros ?
  | |- vwp workmap_pop _ _ => apply vwp_pop; intros ? ? ?; simplify_eq
  | |- vwp (workmap_push_const _ _) _ _ => apply vwp_push; intros ?
  | |- vwp (workmap_push _ _) _ _ => apply vwp_push; intros ?
  | |- vwp (workmap_2w_push_const _ _) _ _ => apply vwp_push_2w; intros ?
  | |- vwp (workmap_expect_strict _ _) _ _ => apply vwp_strict
  | |- vwp (workmap_expect _ _ _) _ _ => apply vwp_expect; intros [] ? ?
  | |- vwp (pl _) _ _ => apply vwp_pl; intros ? ? ?
  | |- vwp (valid_local _ _) _ _ => apply vwp_valid_local; intros ?
  | |- vwp (valid_2w_local _ _) _ _ => apply vwp_valid_2w_local; intros ?
  | |- vwp (workmap_get_local _ _) _ _ => apply vwp_get_local; intros ? ? ?
  | |- vwp (workmap_set_local _ _ _) _ _ => apply vwp_set_local; intros ? ?
  | |- vwp (workmap_set_local_const _ _ _) _ _ => apply vwp_set_local; intros ? ?
  | |- vwp (m_byte _ _) _ _ => apply vwp_byte; intros ? ?
  | |- vwp (vand _ _) _ _ => apply vwp_vand
  | |- vwp (check _ _) _ _ => apply vwp_check; intros ?; eqs
  | |- vwp (vassert _) _ _ => apply vwp_assert; intros ?
  | |- vwp (get _) _ _ => apply vwp_get
  | |- if ?a =? ?b then _ else _ => destruct (Z.eqb_spec a b); simplify_eq
  | |- if ?b then _ else _ => destruct b eqn:?
  | |- vwp (if _ then _ else _) _ _ => apply vwp_if; intros ?
  end; cbv beta.
Ltac vsteps := repeat vstep; try discriminate.

(** The words of a type. *)
Definition words (c : SmConstant) : list SmConstant := if isLongOrDouble c then [SM_HIGH_WORD; c] else [c].

Section step.
Context (vm : VM) (mi : Method_Info).
Abbreviation code := (byte_code (method mi)).
Abbreviation nl := (max_locals (method mi)).
Abbreviation ms := (max_stack (method mi)).
Context (els : list SmConstant) (h : handling) (t : SmConstant) (p : pool) (ps : gmap Z MapHead).
Abbreviation cx ts p := (MkCtx (MkMap els ts) h t p ps).

(** ** Arithmetic *)

Definition prim_type (to : prim) : SmConstant :=
  match to with PByte | PChar | PShort | PInt => SM_INTEGER | PLong => SM_LONG | PFloat => SM_FLOAT | PDouble => SM_DOUBLE end.
Definition sm_type (t : ty) : SmConstant :=
  match t with TyInt => SM_INTEGER | TyLong => SM_LONG | TyFloat => SM_FLOAT | TyDouble => SM_DOUBLE end.

(** The words an instruction takes and the type it leaves. *)
Definition arith_ins (t : ty) (a : ainstr) : list SmConstant :=
  match a with
  | ALongShift _ => SM_INTEGER :: words SM_LONG
  | ANeg | AConv _ => words (sm_type t)
  | _ => words (sm_type t) ++ words (sm_type t)
  end.
Definition arith_out (t : ty) (a : ainstr) : SmConstant :=
  match a with
  | ALongShift _ => SM_LONG | ALcmp | AFcmp _ => SM_INTEGER | AConv to => prim_type to | _ => sm_type t
  end.

Lemma arith_dataflow op ty a wide instr ts (Q : unit -> ctx -> Prop) : (op, (ty, a)) ∈ arith_table ->
  (forall ts0, ts = arith_ins ty a ++ ts0 -> (length (words (arith_out ty a) ++ ts0) <= ms)%nat ->
     Q tt (cx (words (arith_out ty a) ++ ts0) p)) ->
  vwp (dataflow_opcode vm mi wide instr op) (cx ts p) Q.
Proof.
  intros Hin HQ. unfold arith_table in Hin.
  repeat (apply elem_of_cons in Hin as [[= -> -> ->]|Hin]; [
    lazy beta iota delta [dataflow_opcode];
    unfold dataflow_x_x_to, dataflow_xx_xx_to, dataflow_x_to, dataflow_xx_to, dataflow_x_to_grow, dataflow_LSHL,
      POP_x_x, POP_xx_xx, POP_x, POP_xx;
    vsteps;
    unfold push_word; words_of; vsteps; (eapply HQ; [reflexivity|simpl in *; lia])|]).
  by apply elem_of_nil in Hin.
Qed.

(** Take the words off a typed stack. *)
Ltac typed_pops := repeat match goal with
  | H : typed_stack (SM_INTEGER :: _) ?st |- _ => apply top_int in H as (? & ? & -> & H)
  | H : typed_stack (SM_FLOAT :: _) ?st |- _ => apply top_float in H as (? & ? & -> & H)
  | H : typed_stack (SM_HIGH_WORD :: SM_LONG :: _) ?st |- _ => apply top_long in H as (? & ? & -> & H)
  | H : typed_stack (SM_HIGH_WORD :: SM_DOUBLE :: _) ?st |- _ => apply top_double in H as (? & ? & -> & H)
  end.
Ltac typed_push := first [apply typed_two; [reflexivity|constructor|constructor|done] | apply typed_one; [reflexivity|constructor|done]].

Lemma arith_typed op ty a ts0 st : (op, (ty, a)) ∈ arith_table -> typed_stack (arith_ins ty a ++ ts0) st ->
  (exists v, head st = Some v /\ type_of v = Some ty) /\
  exists r, java_arith a st = Some r /\ forall st', r = Some st' -> typed_stack (words (arith_out ty a) ++ ts0) st'.
Proof.
  intros Hin Hst. unfold arith_table in Hin.
  repeat (apply elem_of_cons in Hin as [[= -> -> ->]|Hin]; [
    cbn [arith_ins arith_out sm_type prim_type] in *; unfold words in *;
    repeat match goal with H : context [isLongOrDouble ?c] |- _ =>
      let b := eval vm_compute in (isLongOrDouble c) in change (isLongOrDouble c) with b in H; cbv iota in H end;
    words_of; cbn [app] in *; typed_pops; (split; [by eexists|]); cbn [java_arith java_conv mbind option_bind];
    (eexists; split; [reflexivity|]); intros st' Hst';
    repeat match goal with H : (?m ≫= _) = Some _ |- _ => destruct m; [cbn [mbind option_bind] in H|done] end;
    simplify_eq; typed_push|]).
  by apply elem_of_nil in Hin.
Qed.
End step.

(** ** The groups of instructions *)

Inductive group := GNop | GConst | GLoad | GStore | GArith | GShuffle | GBranch | GSwitch | GIinc | GJsr | GRet.
#[export] Instance group_eq_dec : EqDecision group.
Proof. solve_decision. Defined.

Definition between (a op b : Z) : bool := (a <=? op) && (op <=? b).
Definition group_of (op : Z) : option group :=
  if op =? 0 then Some GNop else if between 1 op 17 then Some GConst
  else if between 21 op 45 then Some GLoad else if between 54 op 78 then Some GStore
  else if between 87 op 95 then Some GShuffle
  else if between 96 op 131 || between 133 op 152 then Some GArith
  else if op =? 0x84 then Some GIinc
  else if between 0x99 op 0xa7 || between 0xc6 op 0xc8 then Some GBranch
  else if (op =? 0xa8) || (op =? 0xc9) then Some GJsr
  else if op =? 0xa9 then Some GRet
  else if between 0xaa op 0xab then Some GSwitch
  else None.

(** The opcode at [pc], or the one after [wide]. *)
Definition opcode_at (code : list Z) (pc : Z) : option Z :=
  op ← byte code pc; if op =? 0xc4 then byte code (pc + 1) else Some op.

Section groups.
Context (code : list Z) (nl ms : nat) (s : jstate).

Definition step_of (g : group) : option jout :=
  match g with
  | GNop => step_nop code s | GConst => step_const code s | GLoad => step_load code s | GStore => step_store code nl s
  | GArith => step_arith code s | GShuffle => step_shuffle code s | GBranch => step_branch code s
  | GSwitch => step_switch code s | GIinc => step_iinc code s | GJsr => step_jsr code s | GRet => step_ret code s
  end.

(** A table with unique opcodes has only opcodes of its group. *)
Lemma assoc_group {A} op (t : list (Z * A)) a g : assoc op t = Some a -> Forall (fun e => group_of e.1 = Some g) t -> group_of op = Some g.
Proof.
  intros Ha Ht. induction t as [|[o b] t IH]; [done|]. simpl in Ha. inversion Ht as [|? ? Hg Ht']; subst.
  destruct (Z.eqb_spec op o) as [->|]; [done|]. by apply IH.
Qed.

Ltac group_ranges := unfold group_of, between;
  repeat (match goal with |- context [?a <=? ?b] => destruct (Z.leb_spec a b) | |- context [?a =? ?b] => destruct (Z.eqb_spec a b) end;
    try (exfalso; lia); cbn [andb orb]; try reflexivity).

Lemma local_instr_group base short g pc r : local_instr base short code pc = Some r ->
  (base = 21 /\ short = 26 /\ g = GLoad) \/ (base = 54 /\ short = 59 /\ g = GStore) ->
  exists op, opcode_at code pc = Some op /\ group_of op = Some g.
Proof.
  unfold local_instr, opcode_at. intros H Hb. destruct (byte code pc) as [op|]; [|done]. cbn [mbind option_bind] in *.
  destruct ((base <=? op) && (op <? base + 5)) eqn:E1.
  { apply andb_true_iff in E1 as [?%Z.leb_le ?%Z.ltb_lt]. exists op.
    rewrite (proj2 (Z.eqb_neq op 196)) by lia. split; [done|]. destruct Hb as [(-> & -> & ->)|(-> & -> & ->)]; group_ranges. }
  destruct ((short <=? op) && (op <? short + 20)) eqn:E2.
  { apply andb_true_iff in E2 as [?%Z.leb_le ?%Z.ltb_lt]. exists op.
    rewrite (proj2 (Z.eqb_neq op 196)) by lia. split; [done|]. destruct Hb as [(-> & -> & ->)|(-> & -> & ->)]; group_ranges. }
  destruct (op =? 196); [|done]. destruct (byte code (pc + 1)) as [op'|]; [|done]. cbn [mbind option_bind] in *.
  destruct ((base <=? op') && (op' <? base + 5)) eqn:E3; [|done].
  apply andb_true_iff in E3 as [?%Z.leb_le ?%Z.ltb_lt]. exists op'. split; [done|].
  destruct Hb as [(-> & -> & ->)|(-> & -> & ->)]; group_ranges.
Qed.

Lemma opcode_at_plain pc op : byte code pc = Some op -> op <> 196 -> opcode_at code pc = Some op.
Proof. intros H Hn. unfold opcode_at. rewrite H. simpl. by rewrite (proj2 (Z.eqb_neq op 196)). Qed.

Ltac first_byte H := match type of H with context [byte code ?pc] => destruct (byte code pc) as [op|] eqn:Hop; [|done]; cbn [mbind option_bind] in H end.

Lemma step_group g o : step_of g = Some o -> exists op, opcode_at code (jpc s) = Some op /\ group_of op = Some g.
Proof.
  intros H. destruct g; simpl in H.
  - unfold step_nop in H. first_byte H. destruct (Z.eqb_spec op 0) as [->|]; [|done]. exists 0. split; [by apply opcode_at_plain|done].
  - unfold step_const, java_const in H. first_byte H. exists op.
    assert (1 <= op <= 17) as Hr.
    { destruct (decide (1 <= op <= 17)) as [|Hn]; [done|exfalso]. revert H.
      destruct op as [|q|q]; [done| |done]. do 5 (destruct q as [q|q|]; try lia; try done). }
    split; [apply opcode_at_plain; [done|lia]|]. group_ranges.
  - unfold step_load, java_load in H. destruct (local_instr _ _ _ _) as [r|] eqn:E; [|done]. eapply (local_instr_group _ _ GLoad); [exact E|]. by left.
  - unfold step_store, java_store in H. destruct (local_instr _ _ _ _) as [r|] eqn:E; [|done]. eapply (local_instr_group _ _ GStore); [exact E|]. by right.
  - unfold step_arith in H. first_byte H. destruct (assoc op arith_table) as [a|] eqn:E; [|done]. exists op.
    assert (group_of op = Some GArith) as Hg by (eapply assoc_group; [exact E|]; repeat constructor).
    split; [|done]. apply opcode_at_plain; [done|]. intros ->. by vm_compute in Hg.
  - unfold step_shuffle in H. first_byte H. destruct (assoc op shuffle_table) as [a|] eqn:E; [|done]. exists op.
    assert (group_of op = Some GShuffle) as Hg by (eapply assoc_group; [exact E|]; repeat constructor).
    split; [|done]. apply opcode_at_plain; [done|]. intros ->. by vm_compute in Hg.
  - unfold step_branch, java_branch in H. first_byte H. exists op.
    assert (op = 200 \/ op = 167 \/ 153 <= op <= 166 \/ 198 <= op <= 199) as Hr.
    { destruct (Z.eqb_spec op 200); [by left|]. destruct (byte code (jpc s + 1)); [|done]. cbn [mbind option_bind] in H.
      destruct (byte code (jpc s + 2)); [|done]. cbn [mbind option_bind] in H.
      destruct (Z.eqb_spec op 167); [by right; left|]. right; right.
      destruct (java_taken op (jstack s)) as [r|] eqn:E; [|done]. unfold java_taken in E.
      repeat case_match; try done; lia. }
    split; [apply opcode_at_plain; [done|lia]|]. group_ranges.
  - unfold step_switch in H. destruct (jstack s) as [|[] ?]; try done.
    destruct (java_switch code (jpc s) i) as [r|] eqn:E; [|done]. unfold java_switch in E. first_byte E. exists op.
    destruct (read_int32 code (padded (jpc s))); [|done]. cbn [mbind option_bind] in E.
    destruct (Z.eqb_spec op 170) as [->|]; [split; [by apply opcode_at_plain|done]|].
    destruct (Z.eqb_spec op 171) as [->|]; [split; [by apply opcode_at_plain|done]|done].
  - unfold step_iinc in H. destruct (java_iinc code (jpc s)) as [r|] eqn:E; [|done]. unfold java_iinc in E. first_byte E.
    unfold opcode_at. rewrite Hop. cbn [mbind option_bind].
    destruct (Z.eqb_spec op 132) as [->|]; [by exists 132|]. destruct (op =? 196); [|done].
    destruct (byte code (jpc s + 1)) as [op'|]; [|done]. cbn [mbind option_bind] in E. exists op'. split; [done|].
    destruct (Z.eqb_spec op' 132) as [Heq|]; [by rewrite Heq|done].
  - unfold step_jsr in H. destruct (java_jsr code (jpc s)) as [r|] eqn:E; [|done]. unfold java_jsr in E. first_byte E. exists op.
    destruct (Z.eqb_spec op 168) as [->|]; [split; [by apply opcode_at_plain|done]|].
    destruct (Z.eqb_spec op 201) as [->|]; [split; [by apply opcode_at_plain|done]|done].
  - unfold step_ret in H. destruct (java_ret code (jpc s)) as [r|] eqn:E; [|done]. unfold java_ret in E. first_byte E.
    unfold opcode_at. rewrite Hop. cbn [mbind option_bind].
    destruct (Z.eqb_spec op 169) as [->|]; [by exists 169|]. destruct (op =? 196); [|done].
    destruct (byte code (jpc s + 1)) as [op'|]; [|done]. cbn [mbind option_bind] in E. exists op'. split; [done|].
    destruct (Z.eqb_spec op' 169) as [Heq|]; [by rewrite Heq|done].
Qed.

(** One group steps: the others do not. *)
Lemma java_step_of g o : step_of g = Some o ->
  java_step code nl ms s = (match o with
    | JNext s' => if decide (depth (jstack s') <= ms)%nat then Some o else None
    | JThrow _ => Some o
    end).
Proof.
  intros H. destruct (step_group g o H) as (op & Hop & Hg).
  assert (Hother : forall g', g' <> g -> step_of g' = None).
  { intros g' Hne. destruct (step_of g') as [o'|] eqn:E; [|done]. destruct (step_group g' o' E) as (op' & Hop' & Hg'). congruence. }
  assert (Hchain : forall g', step_of g' = Some o \/ (g' <> g /\ step_of g' = None)).
  { intros g'. destruct (decide (g' = g)) as [->|]; [by left|right]. split; [done|by apply Hother]. }
  unfold java_step, orelse.
  change (step_nop code s) with (step_of GNop). change (step_const code s) with (step_of GConst).
  change (step_load code s) with (step_of GLoad). change (step_store code nl s) with (step_of GStore).
  change (step_arith code s) with (step_of GArith). change (step_shuffle code s) with (step_of GShuffle).
  change (step_branch code s) with (step_of GBranch). change (step_switch code s) with (step_of GSwitch).
  change (step_iinc code s) with (step_of GIinc). change (step_jsr code s) with (step_of GJsr). change (step_ret code s) with (step_of GRet).
  repeat match goal with |- context [step_of ?g'] =>
    let E := fresh in destruct (Hchain g') as [E|[? E]]; rewrite E; [reflexivity|] end.
  exfalso. destruct g; done.
Qed.
End groups.

(** ** The state of the machine has the types of a map *)

Definition instr_len (wide : bool) (op : Z) : Z := if wide then 2 * (parseTable op).1 else (parseTable op).1.

(** What the constant instructions push. *)
Definition const_value (op : Z) (v : jval) : Prop :=
  op = 1 /\ v = VRef 0 \/ (2 <= op <= 8 \/ 16 <= op <= 17) /\ (exists i, v = VInt i) \/
  9 <= op <= 10 /\ (exists i, v = VLong i) \/ 11 <= op <= 13 /\ (exists i, v = VFloat i) \/ 14 <= op <= 15 /\ (exists i, v = VDouble i).
Section sound.
Context (vm : VM) (mi : Method_Info).
Abbreviation code := (byte_code (method mi)).
Abbreviation nl := (max_locals (method mi)).
Abbreviation ms := (max_stack (method mi)).

Record typed (w : MapHead) (s : jstate) : Prop := {
  ty_locals : typed_locals nl (elements w) (jvars s);
  ty_stack : typed_stack (opstack w) (jstack s);
  ty_depth : (depth (jstack s) <= ms)%nat;
  ty_storable : Forall (fun c => storable c = true) (elements w);
  ty_length : length (elements w) = nl;
}.

(** The machine runs the instruction; after it [Q] holds, unless it throws. *)
Definition runs (s : jstate) (Q : jstate -> Prop) : Prop :=
  exists o, java_step code nl ms s = Some o /\ match o with JNext s' => Q s' | JThrow _ => True end.

(** What the verifier's success promises: the rest of the context is the same, the
    machine runs, and the next state has the types of the new map. *)
Definition after (c : ctx) (s : jstate) (npc : Z -> Prop) (c' : ctx) : Prop :=
  props c' = props c /\ return_type c' = return_type c /\
  runs s (fun s' => typed (workmap c') s' /\ npc (jpc s')).

Context (Hbytes : Forall (is_u 8) code).
Context (els ts : list SmConstant) (h : handling) (t : SmConstant) (p : pool) (ps : gmap Z MapHead).
Abbreviation c0 := (MkCtx (MkMap els ts) h t p ps).
Context (wide : bool) (instr op : Z) (s : jstate).
Context (Hop : byte code instr = Some (if wide then 196 else op)) (Hwide : wide = true -> byte code (instr + 1) = Some op)
  (Hplain : wide = false -> op <> 196).
Context (Hin : 0 <= instr) (Hlen : instr + instr_len wide op <= Z.of_nat (length code)).
Context (Hty : typed (MkMap els ts) s) (Hpc : jpc s = instr).

Lemma after_set g s' els' ts' h' p' (npc : Z -> Prop) : step_of code nl s g = Some (JNext s') ->
  typed_locals nl els' (jvars s') -> Forall (fun c => storable c = true) els' -> length els' = length els ->
  typed_stack ts' (jstack s') -> (length ts' <= ms)%nat -> npc (jpc s') ->
  after c0 s npc (MkCtx (MkMap els' ts') h' t p' ps).
Proof.
  intros Hs Hl Hsto Hle Hst Hd Hn. split; [done|]. split; [done|]. exists (JNext s').
  rewrite (java_step_of code nl ms s g _ Hs). pose proof (typed_depth _ _ Hst) as He.
  rewrite decide_True by lia. split; [done|]. split; [|done]. destruct Hty as [_ _ _ _ Hnl]. simpl in Hnl. split; simpl; [done|done|lia|done|lia].
Qed.
(** The locals stay. *)
Lemma after_next g s' ts' p' (npc : Z -> Prop) : step_of code nl s g = Some (JNext s') ->
  typed_locals nl els (jvars s') -> typed_stack ts' (jstack s') -> (length ts' <= ms)%nat -> npc (jpc s') ->
  after c0 s npc (MkCtx (MkMap els ts') h t p' ps).
Proof. intros Hs Hl Hst Hd Hn. eapply after_set; try done. apply Hty. Qed.
Lemma after_throw g e npc c' : step_of code nl s g = Some (JThrow e) -> props c' = ps -> return_type c' = t -> after c0 s npc c'.
Proof.
  intros Hs Hp Ht. split; [done|]. split; [done|]. exists (JThrow e). by rewrite (java_step_of code nl ms s g _ Hs).
Qed.

Lemma stack_room : (length ts <= ms)%nat.
Proof. destruct Hty as [_ Hst Hd _ _]. apply typed_depth in Hst. simpl in Hst. lia. Qed.

Lemma byte_in a : 0 <= a < Z.of_nat (length code) -> exists b, byte code a = Some b /\ is_u 8 b.
Proof.
  intros Ha. unfold byte. rewrite (proj2 (Z.leb_le 0 a)) by lia.
  destruct (lookup_lt_is_Some_2 code (Z.to_nat a)) as [b Hb]; [lia|]. exists b. split; [done|].
  by apply (Forall_lookup_1 _ _ _ _ Hbytes Hb).
Qed.

(** *** Instructions without effect on the map, and constants *)

Lemma sound_nop : op = 0 -> wide = false -> after c0 s (fun pc => pc = instr + 1) c0.
Proof.
  intros -> ->. eapply (after_next GNop (JState (instr + 1) (jvars s) (jstack s))); try apply Hty; [|apply stack_room|done].
  simpl. unfold step_nop. rewrite Hpc, Hop. done.
Qed.

Lemma const_step v len : java_const code instr = Some (v, len) ->
  step_of code nl s GConst = Some (JNext (JState (instr + len) (jvars s) (v :: jstack s))).
Proof. intros H. simpl. unfold step_const. rewrite Hpc, H. done. Qed.

Lemma java_const_value : 1 <= op <= 17 -> wide = false ->
  exists v, java_const code instr = Some (v, instr_len wide op) /\ const_value op v.
Proof.
  intros Hr ->. unfold java_const, const_value. rewrite Hop. cbn [mbind option_bind].
    destruct (decide (op = 16)) as [->|]; [|destruct (decide (op = 17)) as [->|]].
    - change (instr_len false 16) with 2 in *. destruct (byte_in (instr + 1)) as (b & -> & _); [lia|]. simpl. eexists. split; [done|].
      right; left. split; [lia|by eexists].
    - change (instr_len false 17) with 3 in *. destruct (byte_in (instr + 1)) as (b & -> & _); [lia|]. destruct (byte_in (instr + 2)) as (b2 & -> & _); [lia|].
      simpl. eexists. split; [done|]. right; left. split; [lia|by eexists].
    - assert (Hcases : op = 1 \/ op = 2 \/ op = 3 \/ op = 4 \/ op = 5 \/ op = 6 \/ op = 7 \/ op = 8 \/ op = 9 \/ op = 10 \/
        op = 11 \/ op = 12 \/ op = 13 \/ op = 14 \/ op = 15 \/ False) by lia.
      repeat (destruct Hcases as [->|Hcases]; [simpl; eexists; split; [reflexivity|];
        first [by left; split | by right; left; split; [lia|by eexists] | by right; right; left; split; [lia|by eexists]
          | by right; right; right; left; split; [lia|by eexists] | by right; right; right; right; split; [lia|by eexists]]|]).
      done.
Qed.

Lemma sound_const : 1 <= op <= 17 -> wide = false ->
  vwp (dataflow_opcode vm mi wide instr op) c0 (fun _ c' => after c0 s (fun pc => pc = instr + instr_len wide op) c').
Proof.
  intros Hr Hw. destruct (java_const_value Hr Hw) as (v & Hc & Hv). pose proof (const_step v _ Hc) as Hstep. destruct Hty as [Hl Hst Hd _ _]. simpl in Hl, Hst.
  assert (Hpush : forall c, (c = SM_NULL /\ v = VRef 0 \/ c = SM_INTEGER /\ (exists i, v = VInt i) \/ c = SM_FLOAT /\ (exists i, v = VFloat i)) ->
    (length (c :: ts) <= ms)%nat -> forall p', after c0 s (fun pc => pc = instr + instr_len wide op) (MkCtx (MkMap els (c :: ts)) h t p' ps)).
  { intros c Hcv Hroom p'. eapply after_next; [exact Hstep|done| |done|done].
    destruct Hcv as [[-> ->]|[[-> [i ->]]|[-> [i ->]]]]; (apply typed_one; [done|by constructor|done]). }
  assert (Hpush2 : forall c, (c = SM_LONG /\ (exists i, v = VLong i) \/ c = SM_DOUBLE /\ (exists i, v = VDouble i)) ->
    (length (SM_HIGH_WORD :: c :: ts) <= ms)%nat -> forall p', after c0 s (fun pc => pc = instr + instr_len wide op) (MkCtx (MkMap els (SM_HIGH_WORD :: c :: ts)) h t p' ps)).
  { intros c Hcv Hroom p'. eapply after_next; [exact Hstep|done| |done|done].
    destruct Hcv as [[-> [i ->]]|[-> [i ->]]]; (apply typed_two; [done|constructor..|done]). }
  clear Hstep Hop.
  assert (Hcases : op = 1 \/ op = 2 \/ op = 3 \/ op = 4 \/ op = 5 \/ op = 6 \/ op = 7 \/ op = 8 \/ op = 16 \/ op = 17 \/ op = 9 \/ op = 10 \/
      op = 11 \/ op = 12 \/ op = 13 \/ op = 14 \/ op = 15 \/ False) by lia.
  repeat (destruct Hcases as [->|Hcases]; [
    lazy beta iota delta [dataflow_opcode]; unfold dataflow_ACONST_NULL, dataflow_push; words_of; vsteps;
    first [apply Hpush; [|simpl; lia] | apply Hpush2; [|simpl; lia]];
    destruct Hv as [[? ?]|[[? ?]|[[? ?]|[[? ?]|[? ?]]]]]; try lia; auto|]).
  done.
Qed.

(** *** Arithmetic *)

Lemma assoc_in {A} op' (a : A) tb : NoDup tb.*1 -> (op', a) ∈ tb -> assoc op' tb = Some a.
Proof.
  induction tb as [|[o b] tb IH]; intros Hn Hi; [by apply elem_of_nil in Hi|]. simpl in *. inversion Hn as [|? ? Hno Hn']; subst.
  apply elem_of_cons in Hi as [[= -> ->]|Hi]; [by rewrite Z.eqb_refl|].
  destruct (Z.eqb_spec op' o) as [->|]; [|by apply IH]. exfalso. apply Hno. by apply (list_elem_of_fmap_2 fst _ _ Hi).
Qed.

Lemma sound_arith ty a : (op, (ty, a)) ∈ arith_table -> wide = false ->
  vwp (dataflow_opcode vm mi wide instr op) c0 (fun _ c' => after c0 s (fun pc => pc = instr + 1) c').
Proof.
  intros Hi Hw. apply (arith_dataflow _ _ _ _ _ _ _ op ty a); [done|]. intros ts0 Hts Hroom. destruct Hty as [Hl Hst Hd _ _]. simpl in Hl, Hst.
  rewrite Hts in Hst. destruct (arith_typed op ty a ts0 _ Hi Hst) as [(v & Hv & Ht) (r & Hr & Hres)].
  assert (Hstep : step_of code nl s GArith = match r with Some st' => Some (JNext (JState (instr + 1) (jvars s) st')) | None => Some (JThrow ArithmeticException) end).
  { simpl. unfold step_arith. rewrite Hpc, Hop, Hw. cbn [mbind option_bind].
    rewrite (assoc_in op (ty, a) arith_table); [|by apply (bool_decide_unpack _); vm_compute|done].
    cbn [mbind option_bind]. rewrite Hv. cbn [mbind option_bind]. rewrite decide_True by done. rewrite Hr. cbn [mbind option_bind]. unfold next. by destruct r. }
  destruct r as [st'|]; [|by eapply after_throw; [exact Hstep| |]].
  eapply after_next; [exact Hstep|done|by apply Hres|done|done].
Qed.

(** *** Stack manipulation *)

(** Split a typed stack at its values: a word is one value or the upper half of one. *)
Ltac typed_cases := repeat match goal with
  | H : typed_stack (?c :: ?ts) ?st, Hc : forall v, ~ slot_ok ?c (SHigh v) |- _ =>
      apply (top_low c ts st Hc) in H as (? & ? & -> & ? & ? & H)
  | H : typed_stack (?c :: ?ts) ?st |- _ =>
      apply typed_top in H as (? & ? & -> & [(? & ? & H)|(? & ? & ? & ? & ? & ? & H)]); simplify_eq
  end.
Ltac typed_pushes := repeat first
  [ done
  | match goal with H1 : cat2 ?v = true, H2 : slot_ok ?c (SHigh ?v), H3 : slot_ok ?d (SLow ?v) |- typed_stack (?c :: ?d :: _) (?v :: _) =>
      apply (typed_two c d _ v _ H1 H2 H3) end
  | match goal with H1 : cat2 ?v = false, H2 : slot_ok ?c (SOne ?v) |- typed_stack (?c :: _) (?v :: _) =>
      apply (typed_one c _ v _ H1 H2) end ].

Lemma shuffle_typed i wide' instr' st (Q : unit -> ctx -> Prop) : (op, i) ∈ shuffle_table -> typed_stack ts st ->
  (forall ts' st' p', java_shuffle i st = Some st' -> typed_stack ts' st' -> (length ts' <= Nat.max ms (length ts))%nat ->
     Q tt (MkCtx (MkMap els ts') h t p' ps)) ->
  vwp (dataflow_opcode vm mi wide' instr' op) c0 Q.
Proof.
  intros Hi Hst HQ. unfold shuffle_table in Hi.
  repeat (apply elem_of_cons in Hi as [[= Heq ->]|Hi]; [
    rewrite Heq; lazy beta iota delta [dataflow_opcode];
    unfold dataflow_POP, dataflow_POP2, dataflow_DUP, dataflow_DUP_X1, dataflow_DUP_X2, dataflow_DUP2, dataflow_DUP2_X1,
      dataflow_DUP2_X2, dataflow_SWAP, pop_push, low, workmap_can_pop, workmap_can_push; cbn [push_all];
    vsteps;
    repeat match goal with H : mustbe_assignable _ _ SM_LOW_WORD _ = Some (true, _) |- _ => let H' := fresh in pose proof (low_assignable _ _ _ _ H) as H'; clear H end;
    typed_cases; try (eapply HQ; [cbn [java_shuffle]; repeat match goal with H : cat2 _ = _ |- _ => rewrite H end; reflexivity|typed_pushes|simpl in *; lia])|]).
  by apply elem_of_nil in Hi.
Qed.
Lemma sound_shuffle i : (op, i) ∈ shuffle_table -> wide = false ->
  vwp (dataflow_opcode vm mi wide instr op) c0 (fun _ c' => after c0 s (fun pc => pc = instr + 1) c').
Proof.
  intros Hi Hw. destruct Hty as [Hl Hst Hd _ _]. simpl in Hl, Hst. eapply (shuffle_typed i); [done|exact Hst|].
  intros ts' st' p' Hj Hst' Hroom. pose proof stack_room.
  eapply (after_next GShuffle (JState (instr + 1) (jvars s) st')); [|done|done|lia|done].
  simpl. unfold step_shuffle. rewrite Hpc, Hop, Hw. cbn [mbind option_bind].
  rewrite (assoc_in op i shuffle_table); [|by apply (bool_decide_unpack _); vm_compute|done]. cbn [mbind option_bind]. rewrite Hj. done.
Qed.

(** *** Loads and stores *)

(** A 16-bit operand, as the verifier and as the machine read it. *)
Lemma word_eq b0 b1 : is_u 8 b0 -> is_u 8 b1 -> Z.lor (Z.shiftl b0 8) b1 = b0 * 2 ^ 8 + b1.
Proof.
  intros H0 H1. apply Z.bits_inj'. intros i Hi. rewrite (Z.add_comm (b0 * _)), testbit_join by (done || lia).
  rewrite Z.lor_spec, Z.shiftl_spec by lia. case_decide.
  - by rewrite Z.testbit_neg_r by lia.
  - rewrite <- (ux_id 8 b1) by done. unfold ux. rewrite Z.mod_pow2_bits_high by lia. by rewrite orb_false_r.
Qed.

(** The local of a load or a store: the verifier and the machine read the same. *)
Definition local_is (n : Z) : Prop :=
  if wide then exists b0 b1, byte code (instr + 2) = Some b0 /\ byte code (instr + 3) = Some b1 /\ n = b0 * 2 ^ 8 + b1
  else byte code (instr + 1) = Some n.

Lemma vwp_local_idx c (Q : Z -> ctx -> Prop) : (forall n, local_is n -> 0 <= n -> Q n c) -> vwp (local_idx mi wide instr) c Q.
Proof.
  clear Hop Hwide Hplain Hlen. intros H. unfold local_idx, local_is in *. destruct wide.
  - unfold vf_read_uint16. apply vwp_bind, vwp_of_opt. intros b0 H0. apply vwp_bind, vwp_of_opt. intros b1 H1. apply vwp_ret.
    assert (is_u 8 b0) by (by eapply (byte_range code)). assert (is_u 8 b1) by (by eapply (byte_range code)).
    assert (0 <= b0 * 2 ^ 8 + b1) by (unfold is_u in *; clear - H2 H3; lia).
    rewrite word_eq by done. apply H; [|done]. exists b0, b1. replace (instr + 3) with (instr + 2 + 1) by lia. done.
  - apply vwp_of_opt. intros b Hb. apply H; [done|]. by eapply byte_nonneg.
Qed.

(** The opcodes of a range, one by one; [wide] does not come before a short form. *)
Ltac range_cases op a n := let H := fresh in
  assert (H : op ∈ seqZ a n) by (apply elem_of_seqZ; lia);
  let l := eval vm_compute in (seqZ a n) in change (seqZ a n) with l in H;
  repeat (apply elem_of_cons in H as [->|H]); [..|by apply elem_of_nil in H].

Context (Hcanwide : wide = true -> has_flag (parseTable op) PI_CANWIDE = true).

Definition check_load (k : kind) (n : Z) : V unit :=
  match k with
  | KInt => CHECK_xLOAD mi n SM_INTEGER | KLong => CHECK_xxLOAD mi n SM_LONG | KFloat => CHECK_xLOAD mi n SM_FLOAT
  | KDouble => CHECK_xxLOAD mi n SM_DOUBLE | KRef => CHECK_ALOAD vm mi n
  end.
Definition check_store (k : kind) (n : Z) : V unit :=
  match k with
  | KInt => CHECK_xSTORE mi n SM_INTEGER | KLong => CHECK_xxSTORE mi n SM_LONG | KFloat => CHECK_xSTORE mi n SM_FLOAT
  | KDouble => CHECK_xxSTORE mi n SM_DOUBLE | KRef => CHECK_ASTORE vm mi n
  end.

(** A form with an operand, and a short one, from what the case says of the machine. *)
Ltac local_operand HQ := lazy beta iota delta [dataflow_opcode]; apply vwp_bind, vwp_local_idx; intros n Hn H0;
  unfold local_is in Hn; destruct wide; [
    destruct Hn as (b0 & b1 & Hb0 & Hb1 & ->); rewrite (Hwide eq_refl) in HQ; cbn in HQ; rewrite Hb0 in HQ; cbn in HQ; rewrite Hb1 in HQ;
    exact (HQ _ _ eq_refl H0)
  | cbn in HQ; rewrite Hn in HQ; exact (HQ _ _ eq_refl H0)].
Ltac local_short HQ := destruct wide; [discriminate (Hcanwide eq_refl)|];
  let H := fresh in pose proof (HQ _ _ eq_refl) as H; exact (H ltac:(vm_compute; discriminate)).

Lemma vwp_load c (Q : unit -> ctx -> Prop) : 21 <= op <= 45 ->
  (forall k n, java_load code instr = Some (k, n, instr_len wide op) -> 0 <= n -> vwp (check_load k n) c Q) ->
  vwp (dataflow_opcode vm mi wide instr op) c Q.
Proof.
  intros Hr HQ. unfold java_load, local_instr, instr_len in HQ. rewrite Hop in HQ. cbn [mbind option_bind] in HQ.
  range_cases op 21 25; first [local_operand HQ|local_short HQ].
Qed.
Lemma vwp_store c (Q : unit -> ctx -> Prop) : 54 <= op <= 78 ->
  (forall k n, java_store code instr = Some (k, n, instr_len wide op) -> 0 <= n -> vwp (check_store k n) c Q) ->
  vwp (dataflow_opcode vm mi wide instr op) c Q.
Proof.
  intros Hr HQ. unfold java_store, local_instr, instr_len in HQ. rewrite Hop in HQ. cbn [mbind option_bind] in HQ.
  range_cases op 54 25; first [local_operand HQ|local_short HQ].
Qed.

Lemma next_load k n len c v p' : java_load code instr = Some (k, n, len) -> jvars s n = Some v -> has_kind v k false = true ->
  typed_stack (c ++ ts) (v :: jstack s) -> (length (c ++ ts) <= ms)%nat ->
  after c0 s (fun pc => pc = instr + len) (MkCtx (MkMap els (c ++ ts)) h t p' ps).
Proof.
  intros Hj Hv Hk Hst Hroom. destruct Hty as [Hl _ Hd _ _].
  apply (after_next GLoad (JState (instr + len) (jvars s) (v :: jstack s))); [|done..].
  simpl. unfold step_load. rewrite Hpc, Hj. cbn [mbind option_bind]. rewrite Hv. cbn [mbind option_bind]. by rewrite Hk.
Qed.

Lemma sound_load : 21 <= op <= 45 ->
  vwp (dataflow_opcode vm mi wide instr op) c0 (fun _ c' => after c0 s (fun pc => pc = instr + instr_len wide op) c').
Proof.
  intros Hr. apply vwp_load; [done|]. intros k n Hj Hn. destruct Hty as [[H1 H2] Hst Hd Hsto _]. simpl in H1, H2, Hst, Hsto.
  assert (H1' : forall c, n < Z.of_nat nl -> els !! Z.to_nat n = Some c -> one_word c = true ->
    exists v, jvars s n = Some v /\ slot_ok c (SOne v) /\ cat2 v = false).
  { intros c Hb Hc Ho. destruct (H1 (Z.to_nat n) c) as (v & Hv & ?); [lia|done|done|]. rewrite Z2Nat.id in Hv by done. by exists v. }
  assert (H2' : forall c, n + 1 < Z.of_nat nl -> els !! Z.to_nat n = Some c -> isLongOrDouble c = true -> els !! Z.to_nat (n + 1) = Some SM_HIGH_WORD ->
    exists v, jvars s n = Some v /\ slot_ok c (SLow v) /\ cat2 v = true).
  { intros c Hb Hc Ho Hh. destruct (H2 (Z.to_nat n) c) as (v & Hv & ?); [lia|done|done| |].
    - by replace (S (Z.to_nat n)) with (Z.to_nat (n + 1)) by lia.
    - rewrite Z2Nat.id in Hv by done. by exists v. }
  pose proof next_load as Hnext. clear H1 H2 Hpc.
  destruct k; cbn [check_load]; unfold CHECK_xLOAD, CHECK_xxLOAD, CHECK_ALOAD; vsteps.
  - destruct (H1' SM_INTEGER) as (v & Hv & Hok & _); [done..|]. apply one_int in Hok as [i ->].
    apply (Hnext KInt n _ [SM_INTEGER] _ _ Hj Hv); [done|apply typed_one; [done|constructor|done]|simpl; lia].
  - destruct (H2' SM_LONG) as (v & Hv & Hok & _); [done..|]. apply low_long in Hok as [i ->].
    apply (Hnext KLong n _ [SM_HIGH_WORD; SM_LONG] _ _ Hj Hv); [done|apply typed_two; [done|constructor|constructor|done]|simpl; lia].
  - destruct (H1' SM_FLOAT) as (v & Hv & Hok & _); [done..|]. apply one_float in Hok as [i ->].
    apply (Hnext KFloat n _ [SM_FLOAT] _ _ Hj Hv); [done|apply typed_one; [done|constructor|done]|simpl; lia].
  - destruct (H2' SM_DOUBLE) as (v & Hv & Hok & _); [done..|]. apply low_double in Hok as [i ->].
    apply (Hnext KDouble n _ [SM_HIGH_WORD; SM_DOUBLE] _ _ Hj Hv); [done|apply typed_two; [done|constructor|constructor|done]|simpl; lia].
  - match goal with H : els !! _ = Some ?c, Hm : mustbe_assignable _ ?c _ _ = _ |- _ => rename c into c1; rename H into Hel; rename Hm into Hass end.
    pose proof (uninit_assignable _ _ _ _ Hass (Forall_lookup_1 _ _ _ _ Hsto Hel)) as Hr1.
    destruct (H1' c1) as (v & Hv & Hok & Hc); [done|done|unfold one_word; by rewrite Hr1, orb_true_r|].
    pose proof Hok as Hok'. apply slot_ok_ref in Hok as [r [= ->]]; [|done].
    apply (Hnext KRef n _ [c1] _ _ Hj Hv); [done|by apply typed_one|simpl; lia].
Qed.

Lemma next_store k n len v st els' ts' h' p' : java_store code instr = Some (k, n, len) -> jstack s = v :: st ->
  has_kind v k true = true -> n + width v <= Z.of_nat nl ->
  typed_locals nl els' (assign (jvars s) n v) -> Forall (fun c => storable c = true) els' /\ length els' = length els ->
  typed_stack ts' st -> (length ts' <= ms)%nat ->
  after c0 s (fun pc => pc = instr + len) (MkCtx (MkMap els' ts') h' t p' ps).
Proof.
  intros Hj Hv Hk Hn Hl [Hsto Hle] Hst Hroom.
  apply (after_set GStore (JState (instr + len) (assign (jvars s) n v) st)); [|done..].
  simpl. unfold step_store. rewrite Hpc, Hj. cbn [mbind option_bind]. by rewrite Hv, Hk, (proj2 (Z.leb_le _ _)).
Qed.

Lemma sound_store : 54 <= op <= 78 ->
  vwp (dataflow_opcode vm mi wide instr op) c0 (fun _ c' => after c0 s (fun pc => pc = instr + instr_len wide op) c').
Proof.
  intros Hr. apply vwp_store; [done|]. intros k n Hj Hn. destruct Hty as [Hl Hst Hd Hsto _]. simpl in Hl, Hst, Hsto.
  pose proof stack_room as Hroom.
  assert (Hone : forall c v, slot_ok c (SOne v) -> cat2 v = false -> typed_locals nl (<[Z.to_nat n := c]> els) (assign (jvars s) n v) /\
    Forall (fun c => storable c = true) (<[Z.to_nat n := c]> els) /\ length (<[Z.to_nat n := c]> els) = length els).
  { intros c v Hc Hv. split; [rewrite <- (Z2Nat.id n) at 2 by done; by apply typed_set_one|].
    rewrite length_insert. split; [|done]. apply Forall_insert; [done|by eapply slot_ok_storable]. }
  assert (Htwo : forall c v, slot_ok c (SLow v) -> isLongOrDouble c = true ->
    typed_locals nl (<[Z.to_nat (n + 1) := SM_HIGH_WORD]> (<[Z.to_nat n := c]> els)) (assign (jvars s) n v) /\
    Forall (fun c => storable c = true) (<[Z.to_nat (n + 1) := SM_HIGH_WORD]> (<[Z.to_nat n := c]> els)) /\
    length (<[Z.to_nat (n + 1) := SM_HIGH_WORD]> (<[Z.to_nat n := c]> els)) = length els).
  { intros c v Hc Hv. replace (Z.to_nat (n + 1)) with (S (Z.to_nat n)) by lia. split; [rewrite <- (Z2Nat.id n) at 3 by done; by apply typed_set_two|].
    rewrite !length_insert. split; [|done]. apply Forall_insert; [|done]. apply Forall_insert; [done|by eapply slot_ok_storable]. }
  pose proof next_store as Hnext. clear Hpc Hop Hwide Hplain Hlen.
  destruct k; cbn [check_store]; unfold CHECK_xSTORE, CHECK_xxSTORE, CHECK_ASTORE, POP_x, POP_xx, workmap_set_2w_local_const; vsteps; simpl in Hroom.
  - apply top_int in Hst as (i & st & Hs & Hst). destruct (Hone SM_INTEGER (VInt i)); [by constructor|done|].
    apply (Hnext KInt n _ _ st _ _ _ _ Hj Hs); try done; unfold width; simpl; lia.
  - apply top_long in Hst as (i & st & Hs & Hst). destruct (Htwo SM_LONG (VLong i)); [by constructor|done|].
    apply (Hnext KLong n _ _ st _ _ _ _ Hj Hs); try done; unfold width; simpl; lia.
  - apply top_float in Hst as (i & st & Hs & Hst). destruct (Hone SM_FLOAT (VFloat i)); [by constructor|done|].
    apply (Hnext KFloat n _ _ st _ _ _ _ Hj Hs); try done; unfold width; simpl; lia.
  - apply top_double in Hst as (i & st & Hs & Hst). destruct (Htwo SM_DOUBLE (VDouble i)); [by constructor|done|].
    apply (Hnext KDouble n _ _ st _ _ _ _ Hj Hs); try done; unfold width; simpl; lia.
  - match goal with Hm : mustbe_assignable _ ?c _ _ = _ |- _ => rename c into c1; rename Hm into Hass end.
    apply typed_top in Hst as (v & st & Hs & [(Hc & Hok & Hst)|(_ & Hok & _)]);
      destruct (store_assignable _ _ _ _ _ Hass Hok) as [r [= ->]].
    destruct (Hone c1 (VRef r)); [done|done|].
    apply (Hnext KRef n _ _ st _ _ _ _ Hj Hs); try done; unfold width; simpl; lia.
Qed.

(** *** [iinc] *)

Lemma iinc_operands n : op = 132 -> local_is n -> exists c, java_iinc code instr = Some (n, c, instr_len wide op).
Proof.
  intros Ho Hn. unfold java_iinc, local_is, instr_len in *. rewrite Hop. destruct wide; cbn [mbind option_bind].
  - destruct Hn as (b0 & b1 & Hb0 & Hb1 & ->). rewrite (Hwide eq_refl), Ho in *. cbn [Z.eqb Pos.eqb mbind option_bind parseTable fst] in *. rewrite Hb0, Hb1. cbn [mbind option_bind].
    destruct (byte_in (instr + 4)) as (d0 & -> & _); [lia|]. destruct (byte_in (instr + 5)) as (d1 & -> & _); [lia|].
    by eexists.
  - rewrite Ho in *. cbn [Z.eqb Pos.eqb mbind option_bind parseTable fst] in *. rewrite Hn. cbn [mbind option_bind].
    destruct (byte_in (instr + 2)) as (d0 & -> & _); [lia|]. by eexists.
Qed.

Lemma sound_iinc : op = 132 ->
  vwp (dataflow_opcode vm mi wide instr op) c0 (fun _ c' => after c0 s (fun pc => pc = instr + instr_len wide op) c').
Proof.
  intros Ho. pose proof iinc_operands as Hi. rewrite Ho at 1. lazy beta iota delta [dataflow_opcode]. unfold dataflow_IINC.
  apply vwp_bind, vwp_local_idx. intros n Hn H0. destruct (Hi n Ho Hn) as [c Hj]. clear Hi.
  destruct Hty as [Hl Hst Hd Hsto _]. simpl in Hl, Hst, Hsto.
  apply vwp_bind, vwp_valid_local. intros Hb. apply vwp_bind, vwp_get_local. intros el _ Hel.
  apply vwp_bind, vwp_strict, vwp_check. intros <-%Z.eqb_eq.
  destruct (tl_one _ _ _ Hl (Z.to_nat n) SM_INTEGER) as (v & Hv & Hok & _); [lia|done|done|]. rewrite Z2Nat.id in Hv by done.
  apply one_int in Hok as [i ->].
  apply (after_next GIinc (JState (instr + instr_len wide op) (assign (jvars s) n (VInt (sx 32 (i + c)))) (jstack s))); [| |done|apply stack_room|done].
  - simpl. unfold step_iinc. rewrite Hpc, Hj. cbn [mbind option_bind]. by rewrite Hv.
  - pose proof (typed_set_one _ _ _ (Z.to_nat n) SM_INTEGER (VInt (sx 32 (i + c))) Hl ltac:(constructor) eq_refl) as H.
    by rewrite list_insert_id, Z2Nat.id in H by done.
Qed.

(** *** Branches *)

(** The target of a branch with a 16-bit offset. *)
Definition jump_pc (pc : Z) : Prop :=
  exists b0 b1, byte code (instr + 1) = Some b0 /\ byte code (instr + 2) = Some b1 /\ pc = instr + sx 16 (b0 * 2 ^ 8 + b1).
Definition branch_pc (pc : Z) : Prop := pc = instr + 3 /\ op <> 0xa7 \/ jump_pc pc.

Lemma next_branch st ts' p' : op <> 0xc8 -> wide = false -> instr + 3 <= Z.of_nat (length code) ->
  (op = 0xa7 /\ st = jstack s \/ op <> 0xa7 /\ exists t, java_taken op (jstack s) = Some (t, st)) ->
  typed_stack ts' st -> (length ts' <= ms)%nat -> after c0 s branch_pc (MkCtx (MkMap els ts') h t p' ps).
Proof.
  intros Ho Hw Hl3 Hst Hty' Hroom. destruct Hty as [Hl _ Hd _ _]. simpl in Hl.
  destruct (byte_in (instr + 1)) as (b0 & Hb0 & _); [lia|]. destruct (byte_in (instr + 2)) as (b1 & Hb1 & _); [lia|].
  assert (Hb : exists pc, java_branch code (jpc s) (jstack s) = Some (pc, st) /\ branch_pc pc).
  { unfold java_branch, branch_pc, jump_pc. rewrite Hpc, Hop, Hw, Hb0, Hb1. cbn [mbind option_bind].
    rewrite (proj2 (Z.eqb_neq _ _) Ho). destruct Hst as [[-> ->]|[Ho' [t' ->]]].
    - eexists. split; [reflexivity|]. right. by exists b0, b1.
    - rewrite (proj2 (Z.eqb_neq _ _) Ho'). cbn [mbind option_bind]. eexists. split; [reflexivity|].
      destruct t'; [right; by exists b0, b1|by left]. }
  destruct Hb as (pc & Hb & Hpc'). apply (after_next GBranch (JState pc (jvars s) st)); [|done..].
  simpl. unfold step_branch. by rewrite Hb.
Qed.

(** A reference, tested against a class. *)
Lemma vwp_POP_ref nm st ts1 p1 (Q : unit -> ctx -> Prop) : typed_stack ts1 st ->
  (forall r st' ts' p', st = VRef r :: st' -> typed_stack ts' st' -> (length ts' <= length ts1)%nat ->
     Q tt (MkCtx (MkMap els ts') h t p' ps)) ->
  vwp (POP_ref vm (ref_type nm)) (MkCtx (MkMap els ts1) h t p1 ps) Q.
Proof.
  intros Hst HQ. unfold POP_ref. apply vwp_bind, vwp_can_pop. intros _. apply vwp_bind, vwp_pop. intros el ts' ->.
  apply vwp_bind, vwp_pl. intros c p2 Hc. apply vwp_bind, vwp_expect. intros [] p3 Ha; [|done]. apply vwp_check. intros _.
  pose proof (fun s => ref_assignable _ _ _ _ _ s Ha (or_introl (get_ref_type_ref _ _ _ _ _ Hc))) as Hr.
  apply (top_ref el) in Hst as (r & st' & -> & Hst); [|done]. eapply HQ; [done|done|simpl; lia].
Qed.
Lemma branch_typed c (Q : unit -> ctx -> Prop) : 0x99 <= op <= 0xa7 \/ 0xc6 <= op <= 0xc7 -> c = c0 ->
  (forall ts' st p', (op = 0xa7 /\ st = jstack s \/ op <> 0xa7 /\ exists t, java_taken op (jstack s) = Some (t, st)) ->
     typed_stack ts' st -> (length ts' <= length ts)%nat -> Q tt (MkCtx (MkMap els ts') h t p' ps)) ->
  vwp (dataflow_opcode vm mi wide instr op) c Q.
Proof.
  intros Hr -> HQ. destruct Hty as [_ Hst _ _ _]. simpl in Hst. clear Hop Hwide Hplain Hlen Hcanwide Hpc Hty.
  assert (Hcond : forall c a b, 0 <= c <= 5 -> exists t, java_cond c a b = Some t).
  { intros c a b Hc. range_cases c 0 6; by eexists. }
  assert (Hr' : 0x99 <= op <= 0x9e \/ 0x9f <= op <= 0xa4 \/ 0xa5 <= op <= 0xa6 \/ op = 0xa7 \/ 0xc6 <= op <= 0xc7) by lia.
  clear Hr. destruct Hr' as [Hr|[Hr|[Hr|[->|Hr]]]].
  - assert (dataflow_opcode vm mi wide instr op = POP_x SM_INTEGER) as ->.
    { range_cases op 0x99 6; reflexivity. }
    unfold POP_x. vsteps. apply top_int in Hst as (i & st & Hs & Hst). eapply HQ; [|exact Hst|simpl; lia].
    right. split; [lia|]. rewrite Hs. unfold java_taken. rewrite (proj2 (Z.leb_le _ _)), (proj2 (Z.leb_le _ _)) by lia. cbn [andb].
    destruct (Hcond (op - 153) i 0) as [b ->]; [lia|]. by eexists.
  - assert (dataflow_opcode vm mi wide instr op = POP_x_x SM_INTEGER) as ->.
    { range_cases op 0x9f 6; reflexivity. }
    unfold POP_x_x. vsteps. apply top_int in Hst as (i & st & Hs & Hst). apply top_int in Hst as (i2 & st2 & -> & Hst).
    eapply HQ; [|exact Hst|simpl; lia].
    right. split; [lia|]. rewrite Hs. unfold java_taken. rewrite (proj2 (Z.leb_gt op 158)), andb_false_r by lia.
    rewrite (proj2 (Z.leb_le _ _)), (proj2 (Z.leb_le _ _)) by lia. cbn [andb].
    destruct (Hcond (op - 159) i2 i) as [b ->]; [lia|]. by eexists.
  - assert (dataflow_opcode vm mi wide instr op = dataflow_IF_ACMP vm) as ->.
    { range_cases op 0xa5 2; reflexivity. }
    unfold dataflow_IF_ACMP, sm_get_const_object. apply vwp_bind. apply (vwp_POP_ref _ (jstack s)); [done|].
    intros r st ts1 p1 Hs Hst1 Hn1. apply (vwp_POP_ref _ st); [done|]. intros r2 st2 ts2 p2 Hs2 Hst2 Hn2.
    eapply HQ; [|exact Hst2|lia]. right. split; [lia|]. rewrite Hs, Hs2. unfold java_taken.
    rewrite (proj2 (Z.leb_gt 198 op)) by lia. cbn [andb]. rewrite (proj2 (Z.leb_le _ _)), (proj2 (Z.leb_le _ _)) by lia. cbn [andb].
    destruct (Hcond (op - 165) r2 r) as [b ->]; [lia|]. by eexists.
  - eapply HQ; [by left|done|lia].
  - assert (dataflow_opcode vm mi wide instr op = dataflow_IFNULL vm) as ->.
    { range_cases op 0xc6 2; reflexivity. }
    unfold dataflow_IFNULL, sm_get_const_object. apply (vwp_POP_ref _ (jstack s)); [done|]. intros r st ts1 p1 Hs Hst1 Hn1.
    eapply HQ; [|exact Hst1|lia]. right. split; [lia|]. rewrite Hs. unfold java_taken.
    rewrite (proj2 (Z.leb_le _ _)), (proj2 (Z.leb_le _ _)) by lia. cbn [andb].
    destruct (Hcond (op - 198) r 0) as [b ->]; [lia|]. by eexists.
Qed.

Lemma sound_branch : 0x99 <= op <= 0xa7 \/ 0xc6 <= op <= 0xc7 -> wide = false ->
  vwp (dataflow_opcode vm mi wide instr op) c0 (fun _ c' => after c0 s branch_pc c').
Proof.
  intros Hr Hw. pose proof stack_room. apply branch_typed; [done|done|]. intros ts' st p' Hst Hty' Hn.
  apply (next_branch st); [lia|done| |done|done|lia].
  unfold instr_len in Hlen. rewrite Hw in Hlen.
  assert (Hl : (parseTable op).1 = 3).
  { clear Hop Hwide Hplain Hlen Hcanwide Hpc Hty Hst. destruct Hr; [range_cases op 0x99 15|range_cases op 0xc6 2]; reflexivity. }
  lia.
Qed.

(** *** All of them *)

(** The instructions of the machine that the lemmas are about. *)
Definition plain_op (op : Z) : bool :=
  between 0 op 17 || between 21 op 45 || between 54 op 78 || between 87 op 152 || between 0x99 op 0xa7 || between 0xc6 op 0xc7.

(** Where the instruction goes. *)
Definition next_pc (pc : Z) : Prop :=
  pc = instr + instr_len wide op /\ op <> 0xa7 \/ instr_is_jump (parseTable op) = true /\ wide = false /\ jump_pc pc.

Lemma after_mono c c' (P Q : Z -> Prop) : (forall pc, P pc -> Q pc) -> after c s P c' -> after c s Q c'.
Proof. intros H (? & ? & o & ? & Ho). split; [done|]. split; [done|]. exists o. split; [done|]. destruct o as [s'|]; [|done]. destruct Ho. split; [done|by apply H]. Qed.

Lemma wide_false : has_flag (parseTable op) PI_CANWIDE = false -> wide = false.
Proof. intros H. destruct wide; [|done]. by rewrite Hcanwide in H. Qed.

(** The properties of an opcode that hold of all opcodes in a range. *)
Lemma range_forall (P : Z -> bool) a n : forallb P (seqZ a n) = true -> a <= op < a + n -> P op = true.
Proof. intros H Ho. rewrite forallb_forall in H. apply H, list_elem_of_In, elem_of_seqZ. done. Qed.

Definition is_arith (op : Z) : bool := existsb (fun e => e.1 =? op) arith_table.
Definition is_shuffle (op : Z) : bool := existsb (fun e => e.1 =? op) shuffle_table.
Definition one_byte (op : Z) : bool := ((parseTable op).1 =? 1) && negb (has_flag (parseTable op) PI_CANWIDE) && negb (op =? 167).

Lemma table_entry {A} (tb : list (Z * A)) : existsb (fun e => e.1 =? op) tb = true -> exists a, (op, a) ∈ tb.
Proof.
  intros H. apply existsb_exists in H as ([o a] & Hi & Ho). apply Z.eqb_eq in Ho. simpl in Ho. rewrite <- Ho. exists a.
  by apply list_elem_of_In.
Qed.

Lemma sound_plain : plain_op op = true ->
  vwp (dataflow_opcode vm mi wide instr op) c0 (fun _ c' => after c0 s next_pc c').
Proof.
  intros Hp. assert (Hr : op = 0 \/ 1 <= op <= 17 \/ 21 <= op <= 45 \/ 54 <= op <= 78 \/ 87 <= op <= 95 \/
    (96 <= op <= 131 \/ 133 <= op <= 152) \/ op = 132 \/ (0x99 <= op <= 0xa7 \/ 0xc6 <= op <= 0xc7)).
  { unfold plain_op, between in Hp. lia. }
  clear Hp.
  assert (Hfall : forall c', op <> 0xa7 -> after c0 s (fun pc => pc = instr + instr_len wide op) c' -> after c0 s next_pc c').
  { intros c' Ho. apply after_mono. intros pc ->. by left. }
  assert (Hone : forall c', one_byte op = true -> wide = false -> after c0 s (fun pc => pc = instr + 1) c' -> after c0 s next_pc c').
  { intros c' Ho Hw. apply after_mono. intros pc ->. unfold one_byte in Ho. left. unfold instr_len. rewrite Hw. lia. }
  assert (Hnarrow : one_byte op = true -> wide = false).
  { intros Ho. apply wide_false. unfold one_byte in Ho. destruct (has_flag _ _); [|done]. by rewrite andb_false_r in Ho. }
  destruct Hr as [Hr|[Hr|[Hr|[Hr|[Hr|[Hr|[Hr|Hr]]]]]]].
  - assert (H1 : one_byte op = true) by (by rewrite Hr). specialize (Hnarrow H1).
    eapply vwp_mono; [|intros ? ? H; apply (Hone _ H1 Hnarrow H)].
    assert (dataflow_opcode vm mi wide instr op = mret tt) as -> by (by rewrite Hr). by apply sound_nop.
  - eapply vwp_mono; [apply sound_const; [done|]|intros ? ? H; apply Hfall; [lia|done]].
    apply wide_false. apply negb_true_iff, (range_forall (fun op => negb (has_flag (parseTable op) PI_CANWIDE)) 1 17); [done|lia].
  - eapply vwp_mono; [by apply sound_load|intros ? ? H; apply Hfall; [lia|done]].
  - eapply vwp_mono; [by apply sound_store|intros ? ? H; apply Hfall; [lia|done]].
  - assert (H1 : one_byte op = true) by (apply (range_forall one_byte 87 9); [done|lia]). specialize (Hnarrow H1).
    destruct (table_entry shuffle_table) as [i Hi]; [apply (range_forall is_shuffle 87 9); [done|lia]|].
    eapply vwp_mono; [by eapply sound_shuffle|intros ? ? H; apply (Hone _ H1 Hnarrow H)].
  - assert (H1 : one_byte op = true) by (destruct Hr; [apply (range_forall one_byte 96 36)|apply (range_forall one_byte 133 20)]; (done || lia)).
    specialize (Hnarrow H1).
    destruct (table_entry arith_table) as [[ty a] Hi];
      [destruct Hr; [apply (range_forall is_arith 96 36)|apply (range_forall is_arith 133 20)]; (done || lia)|].
    eapply vwp_mono; [by eapply sound_arith|intros ? ? H; apply (Hone _ H1 Hnarrow H)].
  - eapply vwp_mono; [by apply sound_iinc|intros ? ? H; apply Hfall; [lia|done]].
  - set (Q := fun op => ((parseTable op).1 =? 3) && instr_is_jump (parseTable op) && negb (has_flag (parseTable op) PI_CANWIDE)).
    assert (HQ : Q op = true) by (destruct Hr; [apply (range_forall Q 0x99 15)|apply (range_forall Q 0xc6 2)]; (done || lia)).
    unfold Q in HQ. apply andb_true_iff in HQ as [[Hl%Z.eqb_eq Hj]%andb_true_iff Hc%negb_true_iff].
    pose proof (wide_false Hc) as Hw.
    eapply vwp_mono; [by apply sound_branch|]. intros ? c' H. eapply after_mono; [|exact H].
    intros pc [[-> Ho]|Hpc']; [left; split; [|done]; unfold instr_len; rewrite Hw; lia|by right].
Qed.

(** *** Returns *)

(** The type of a method for the machine and for the verifier. *)
Definition returns_as (jt : Java_Type) (c : SmConstant) : Prop :=
  match jt with
  | JAVA_TYPE_VOID => c = SM_BOGUS
  | JAVA_TYPE_BOOLEAN | JAVA_TYPE_BYTE | JAVA_TYPE_CHAR | JAVA_TYPE_SHORT | JAVA_TYPE_INT => c = SM_INTEGER
  | JAVA_TYPE_LONG => c = SM_LONG
  | JAVA_TYPE_FLOAT => c = SM_FLOAT
  | JAVA_TYPE_DOUBLE => c = SM_DOUBLE
  | JAVA_TYPE_CLASS | JAVA_TYPE_ARRAY | JAVA_TYPE_STRING => isReference c = true
  end.

(** A value has a type. *)
Definition has_type (c : SmConstant) (v : jval) : Prop :=
  if isLongOrDouble c then slot_ok c (SLow v) else slot_ok c (SOne v) /\ cat2 v = false.

Lemma sound_return jt : 172 <= op <= 177 -> wide = false -> returns_as jt t -> (op = 176 -> isReference t = true) ->
  vwp (dataflow_opcode vm mi wide instr op) c0 (fun _ _ => exists v, returned op jt (jstack s) = Some v /\
    match v with Some v => t <> SM_BOGUS /\ has_type t v | None => t = SM_BOGUS end).
Proof.
  intros Hr Hw Ht Ha. destruct Hty as [_ Hst _ _ _]. simpl in Hst. clear Hop Hwide Hplain Hlen Hcanwide Hpc Hty Hw Hin.
  range_cases op 172 6; lazy beta iota delta [dataflow_opcode]; unfold dataflow_return, dataflow_ARETURN, dataflow_RETURN; clear Hr;
    apply vwp_bind, vwp_get, vwp_bind, vwp_check; cbn [return_type]; intros Hc.
  1, 2, 3, 4: apply Z.eqb_eq in Hc; subst t; unfold POP_x, POP_xx; words_of; vsteps;
    first [apply top_int in Hst as (i & st & Hs & Hst) | apply top_long in Hst as (i & st & Hs & Hst) | apply top_float in Hst as (i & st & Hs & Hst)
      | apply top_double in Hst as (i & st & Hs & Hst)]; rewrite Hs; destruct jt; try discriminate Ht;
    (eexists; split; [reflexivity|]; split; [done|]; unfold has_type; words_of; repeat constructor).
  - specialize (Ha eq_refl). unfold POP_ref. vsteps.
    match goal with H : mret t p = _ |- _ => injection H as <- _ end.
    match goal with H : mustbe_assignable _ ?c _ _ = _ |- _ => pose proof (fun s => ref_assignable _ _ _ _ _ s H (or_introl Ha)) as Hr; rename c into c1 end.
    apply (top_ref c1) in Hst as (r & st & Hs & Hst); [|done]. rewrite Hs.
    assert (Hok : has_type t (VRef r)).
    { unfold has_type. destruct (isLongOrDouble t) eqn:E; [|split; [|done]; constructor; unfold is_ref; by rewrite Ha].
      apply orb_true_iff in E as [E|E]; apply Z.eqb_eq in E; subst t; discriminate Ha. }
    assert (Hnb : t <> SM_BOGUS) by (by intros ->).
    destruct jt; simpl in Ht; try (subst t; discriminate Ha); by eexists.
  - apply Z.eqb_eq in Hc; subst t. destruct (m_is_constructor vm mi); apply vwp_intro; intros _ _ _; destruct jt; try discriminate Ht; by eexists.
Qed.
End sound.
