(* ===== verification/Verify6Ok.v ===== *)
(** * Methods the verifier accepts do not get stuck

    The pass over a method visits instructions with contexts; every one of them is
    accepted and hands its map to its successors.  Executions of the machine of
    [JavaMachine.v] therefore stay in states that have the types of a visited map, and
    with [CallOk.v] the interpreter runs the method to its end. *)
From Stdlib Require Import Ascii.
From stdpp Require Import gmap strings.
From S2P Require Import Prelude Floats JavaArith Frame FrameOk Opcodes OpcodesOk StackOk BranchOk Interp JavaMachine InterpOk CallOk VerTypes VerTypesOk VerContext VerStepOk Verify6.

(** ** What checking an instruction leaves alone *)

(** A computation keeps a relation between the context before and after it, also where
    it fails; the relations do not look at the pool. *)
Class Stays (R : ctx -> ctx -> Prop) := {
  stays_refl c : R c c;
  stays_trans c1 c2 c3 : R c1 c2 -> R c2 c3 -> R c1 c3;
  stays_pool w h t p p' ps : R (MkCtx w h t p ps) (MkCtx w h t p' ps);
}.
Definition keeping (R : ctx -> ctx -> Prop) {A} (m : V A) : Prop := forall c,
  match m c with VOk _ c' | VErr _ c' => R c c' | VUndef => True end.

Section stays.
Context (R : ctx -> ctx -> Prop) `{!Stays R}.

Lemma kept_elim {A} (m : V A) c a c' : keeping R m -> m c = VOk a c' -> R c c'.
Proof. intros Hm H. specialize (Hm c). by rewrite H in Hm. Qed.
Lemma kept_bind {A B} (m : V A) (k : A -> V B) : keeping R m -> (forall a, keeping R (k a)) -> keeping R (m ≫= k).
Proof.
  intros Hm Hk c. specialize (Hm c). unfold mbind, V_bind. destruct (m c) as [a c1|r c1|]; [|done|done].
  specialize (Hk a c1). destruct (k a c1); try done; by eapply stays_trans.
Qed.
Lemma kept_ret {A} (a : A) : keeping R (mret a).
Proof. intros c. apply stays_refl. Qed.
Lemma kept_error {A} r : keeping R (@error A r).
Proof. intros c. apply stays_refl. Qed.
Lemma kept_undef {A} : keeping R (@undef A).
Proof. done. Qed.
Lemma kept_check b r : keeping R (check b r).
Proof. intros c. destruct b; apply stays_refl. Qed.
Lemma kept_assert b : keeping R (vassert b).
Proof. intros c. destruct b; [apply stays_refl|done]. Qed.
Lemma kept_of_opt {A} (o : option A) : keeping R (of_opt o).
Proof. intros c. destruct o; [apply stays_refl|done]. Qed.
Lemma kept_get {A} (f : ctx -> A) : keeping R (get f).
Proof. intros c. apply stays_refl. Qed.
Lemma kept_pl {A} (m : P A) : keeping R (pl m).
Proof. intros [w h t p ps]. unfold pl. destruct (m _) as [[? ?]|]; [apply stays_pool|done]. Qed.
Lemma kept_if {A} (b : bool) (m1 m2 : V A) : keeping R m1 -> keeping R m2 -> keeping R (if b then m1 else m2).
Proof. by destruct b. Qed.
Lemma kept_ignore m : keeping R m -> keeping R (ignore m).
Proof. intros Hm c. specialize (Hm c). unfold ignore. by destruct (m c). Qed.
End stays.

(** The maps of the method and its return type; the map and the return type. *)
Definition same_maps (c c' : ctx) : Prop := props c' = props c /\ return_type c' = return_type c.
Definition same_map (c c' : ctx) : Prop := workmap c' = workmap c /\ return_type c' = return_type c.
#[export] Instance same_maps_stays : Stays same_maps.
Proof. unfold same_maps. split; simpl; intuition congruence. Qed.
#[export] Instance same_map_stays : Stays same_map.
Proof. unfold same_map. split; simpl; intuition congruence. Qed.
Abbreviation kept := (keeping same_maps).
Lemma kept_workmap w : kept (set_workmap w).
Proof. done. Qed.
Lemma kept_hinfo h : kept (set_hinfo h).
Proof. done. Qed.
Lemma kept_props ps : keeping same_map (set_props ps).
Proof. done. Qed.

Create HintDb kept.
#[export] Hint Extern 0 (Stays _) => typeclasses eauto : kept.
#[export] Hint Resolve kept_ret kept_error kept_undef kept_check kept_assert kept_of_opt kept_get kept_workmap kept_hinfo kept_props kept_pl : kept.
Ltac kept := repeat first
  [ solve [auto with kept]
  | apply kept_bind; [typeclasses eauto| |intros ?]
  | apply kept_ignore
  | apply kept_if
  | match goal with |- keeping _ (match ?x with _ => _ end) => destruct x end ].

Section kept.
Context (vm : VM) (mi : Method_Info).

Lemma kept_pop : kept workmap_pop.
Proof. unfold workmap_pop. kept. Qed.
Lemma kept_push el : kept (workmap_push mi el).
Proof. unfold workmap_push, workmap_can_push. kept. Qed.
Lemma kept_set_local i el : kept (workmap_set_local mi i el).
Proof. unfold workmap_set_local. kept. Qed.
Lemma kept_get_local i : kept (workmap_get_local mi i).
Proof. unfold workmap_get_local. kept. Qed.
Lemma kept_stackview d : kept (workmap_stackview d).
Proof. unfold workmap_stackview. kept. Qed.
Lemma kept_can_push n : kept (workmap_can_push mi n).
Proof. unfold workmap_can_push. kept. Qed.
Lemma kept_byte a : kept (m_byte mi a).
Proof. unfold m_byte. kept. Qed.
#[local] Hint Resolve kept_pop kept_push kept_set_local kept_get_local kept_stackview kept_can_push kept_byte : kept.

Lemma kept_word a : kept (vf_read_uint16 mi a).
Proof. unfold vf_read_uint16. kept. Qed.
Lemma kept_word32 a : kept (vf_read_uint32 mi a).
Proof. unfold vf_read_uint32. kept. Qed.
Lemma kept_scalar from to : kept (scalar_constraints vm from to).
Proof. revert to. induction from as [|f from IH]; intros [|t to]; simpl; unfold new_scalar_constraint, add_incoming_value; kept. Qed.
Lemma kept_changed ch from to : kept (changed_constraints vm ch from to).
Proof.
  revert from to. induction ch as [|b ch IH]; intros [|f from] [|t to]; simpl; unfold new_scalar_constraint, add_incoming_value; kept.
Qed.
Lemma kept_handlers instr hs idx cl a b : kept (handlers_loop vm instr hs idx cl a b).
Proof.
  revert idx cl a b. induction hs as [|h hs IH]; intros idx cl a b; simpl; unfold new_handler_vector_constraint, getStackmap.
  - kept.
  - pose proof kept_scalar. pose proof kept_changed. kept.
Qed.
Lemma kept_dataflow_handlers instr : kept (dataflow_handlers vm mi instr).
Proof. unfold dataflow_handlers. pose proof kept_handlers. kept. Qed.
Lemma kept_bogus u from to : kept (bogus_constraints vm u from to).
Proof. revert to. induction from as [|f from IH]; intros [|t to]; simpl; unfold add_incoming_value; kept. Qed.
Lemma kept_propagate instr u : kept (propagate_bogus_to_handlers vm mi instr u).
Proof.
  unfold propagate_bogus_to_handlers. apply kept_if; [kept|]. apply kept_bind; [typeclasses eauto|kept|]. intros h.
  generalize (handler_range mi (loop_start h) (loop_finish h)). intros hs. pose proof kept_bogus.
  induction hs as [|k hs IH]; simpl; unfold getStackmap; kept.
Qed.
Lemma kept_view n s d : kept (view_args vm n s d).
Proof. revert s d. induction n as [|n IH]; intros [s|] d; simpl; unfold VIEW_z, workmap_expect; kept. Qed.
Lemma kept_pop_counts n : kept (pop_counts n).
Proof. induction n as [|n IH]; simpl; unfold workmap_expect_strict; kept. Qed.
#[local] Hint Resolve kept_word kept_word32 kept_scalar kept_dataflow_handlers kept_propagate kept_view kept_pop_counts : kept.

Ltac kept_opcode := unfold dataflow_AALOAD, dataflow_AASTORE, dataflow_ACONST_NULL, dataflow_ANEWARRAY, dataflow_ARETURN, dataflow_ARRAYLENGTH, dataflow_ATHROW,
  dataflow_array_load, dataflow_array_store, dataflow_push, dataflow_CHECKCAST, dataflow_x_to, dataflow_x_to_grow, dataflow_xx_to,
  dataflow_x_x_to, dataflow_xx_xx_to, dataflow_LSHL, dataflow_return, dataflow_RETURN, dataflow_DUP, dataflow_DUP_X1,
  dataflow_DUP_X2, dataflow_DUP2, dataflow_DUP2_X1, dataflow_DUP2_X2, dataflow_POP, dataflow_POP2, dataflow_SWAP, dataflow_IF_ACMP,
  dataflow_IFNULL, dataflow_IINC, dataflow_INSTANCEOF, dataflow_LDC, dataflow_LDC2_W, dataflow_MULTIANEWARRAY, dataflow_NEW, dataflow_NEWARRAY,
  dataflow_GETFIELD, dataflow_GETSTATIC, dataflow_PUTFIELD, dataflow_PUTSTATIC, dataflow_INVOKE, dataflow_JSR, dataflow_RET,
  popFieldRef, popVirtualRef, expect_this_under, pop_args, invoke_init, initialise, sm_convert_to_initialized,
  CHECK_xLOAD, CHECK_xxLOAD, CHECK_ALOAD, CHECK_xSTORE, CHECK_xxSTORE, CHECK_ASTORE, CHECK_zALOAD, CHECK_xASTORE, CHECK_xxASTORE,
  instr_get_int16_target, instr_get_int32_target,
  POP_z, PUSH_z, POP_x, POP_x_x, POP_xx, POP_xx_xx, POP_ref, VIEW_z, push_word, pop_push, low, array_of, local_idx, vand, valid_local, valid_2w_local, can_pop, can_push,
  workmap_can_pop, workmap_can_push, workmap_expect, workmap_expect_strict, workmap_push_const, workmap_2w_push_const, workmap_set_local_const, workmap_set_2w_local_const; kept.

Lemma kept_opcode wide instr op : kept (dataflow_opcode vm mi wide instr op).
Proof.
  assert (Hpush : forall l, kept (push_all mi l)) by (induction l; simpl; kept).
  unfold dataflow_opcode. repeat case_match; kept_opcode.
Qed.
Lemma kept_instruction instr : kept (dataflow_instruction vm mi instr).
Proof. unfold dataflow_instruction. pose proof kept_opcode. kept. Qed.
Lemma kept_generic target : kept (new_generic_vector_constraint vm target).
Proof. unfold new_generic_vector_constraint, new_generic_vector_constraint_impl, getStackmap. kept. Qed.
End kept.

(** ** What a pass has checked *)

(** The instruction at a position: whether [wide] comes before it, and its opcode. *)
Definition op_at (code : list Z) (pc : Z) : option (bool * Z) :=
  op ← byte code pc; if op =? 196 then op ← byte code (pc + 1); Some (true, op) else Some (false, op).

Section pass.
Context (vm : VM) (mi : Method_Info).
Abbreviation code := (byte_code (method mi)).
Abbreviation nl := (max_locals (method mi)).

Definition is_reference_type (t : Java_Type) : bool :=
  match t with JAVA_TYPE_CLASS | JAVA_TYPE_ARRAY | JAVA_TYPE_STRING => true | _ => false end.

(** The instructions the theorems are about: those of the machine, and returns;
    [areturn] only from methods that return references. *)
Definition modelled_op (wide : bool) (op : Z) : bool :=
  plain_op op || (negb wide && between 172 op 177 && (negb (op =? 176) || is_reference_type (return_java_type (method mi)))).
Fixpoint modelled_code (fuel : nat) (pc : Z) : bool :=
  negb (pc <? m_code_length mi) ||
  match fuel with
  | O => false
  | S fuel =>
      match op_at code pc with
      | Some (wide, op) => modelled_op wide op && modelled_code fuel (pc + instr_len wide op)
      | None => false
      end
  end.

Context (ps : gmap Z MapHead) (rt : SmConstant).

(** A map goes over into another one. *)
Definition flows (w map : MapHead) : Prop :=
  length (opstack map) = length (opstack w) /\
  Forall2 (assignable vm) (elements w ++ reverse (opstack w)) (take (length (elements w ++ reverse (opstack w))) (elements map ++ reverse (opstack map))).
(** The map before the instruction at [pc], when [w] is the one after its predecessor. *)
Definition enters (w : MapHead) (pc : Z) (c : ctx) : Prop :=
  workmap c = w \/ ps !! pc = Some (workmap c) /\ flows w (workmap c).

(** The instruction at [pc] was accepted from the context; its successors are visited. *)
Definition accepted (K : Z -> ctx -> Prop) (pc : Z) (c : ctx) : Prop :=
  exists wide op c2, op_at code pc = Some (wide, op) /\ modelled_op wide op = true /\
    (wide = true -> has_flag (parseTable op) PI_CANWIDE = true) /\ 0 <= pc /\ pc + instr_len wide op <= m_code_length mi /\
    props c = ps /\ return_type c = rt /\ dataflow_opcode vm mi wide pc op c = VOk tt c2 /\
    (wide = false -> instr_is_jump (parseTable op) = true -> exists b0 b1 map,
       byte code (pc + 1) = Some b0 /\ byte code (pc + 2) = Some b1 /\
       ps !! ux 16 (pc + Z.lor (Z.shiftl b0 8) b1) = Some map /\ flows (workmap c2) map) /\
    (plain_op op = true -> op <> 0xa7 -> pc + instr_len wide op < m_code_length mi /\
       exists c3, K (pc + instr_len wide op) c3 /\ enters (workmap c2) (pc + instr_len wide op) c3).

Lemma accepted_mono (K1 K2 : Z -> ctx -> Prop) pc c : (forall pc c, K1 pc c -> K2 pc c) -> accepted K1 pc c -> accepted K2 pc c.
Proof. unfold accepted. intros HK (wide & op & c2 & H). exists wide, op, c2.
  destruct H as (? & ? & ? & ? & ? & ? & ? & ? & ? & Hn). repeat (split; [done|]). intros Hp Ho. destruct (Hn Hp Ho) as (? & c3 & ? & ?).
  split; [done|]. exists c3. auto.
Qed.

(** *** Constraints *)

Lemma scalar_flows from to c c' : scalar_constraints vm from to c = VOk tt c' ->
  Forall2 (assignable vm) from (take (length from) to) /\ workmap c' = workmap c.
Proof.
  revert to c. induction from as [|f from IH]; intros [|t to] c H; simpl in H; [by injection H as <-; split; [constructor|]..|done|].
  unfold new_scalar_constraint, add_incoming_value, pl, mbind, V_bind in H.
  destruct (mustbe_assignable vm f t (tpool c)) as [[b p]|] eqn:E; [|done]. destruct b; [|done]. simpl in H.
  apply IH in H as [H1 H2]. split; [|done]. constructor; [by exists (tpool c), p|done].
Qed.

Lemma generic_flows target c c' : new_generic_vector_constraint vm target c = VOk tt c' ->
  exists map, props c !! target = Some map /\ flows (workmap c) map /\ workmap c' = workmap c.
Proof.
  unfold new_generic_vector_constraint, new_generic_vector_constraint_impl, getStackmap, get, mbind, V_bind, check.
  destruct (props c !! target) as [map|]; [|done]. intros H. case_bool_decide as Hl; [|done]. simpl in H.
  apply scalar_flows in H as [H1 H2]. by exists map.
Qed.
Lemma generic_kept target c c' : new_generic_vector_constraint vm target c = VOk tt c' -> same_maps c c'.
Proof. apply (kept_elim same_maps), kept_generic. Qed.

(** *** The pass, instruction by instruction *)

Context (Hnoh : bc_exception_handlers (method mi) = []) (Hcode : m_code_length mi <= 2 ^ 15).

Lemma no_handlers instr c : dataflow_handlers vm mi instr c = VOk tt c.
Proof. unfold dataflow_handlers, m_handlecount. rewrite Hnoh. done. Qed.

Lemma no_maps_spec n i c c' : no_maps n i c = VOk tt c' -> c' = c /\ forall k, i <= k < i + Z.of_nat n -> props c !! k = None.
Proof.
  revert i. induction n as [|n IH]; intros i H; simpl in H.
  - injection H as <-. split; [done|]. lia.
  - unfold getStackmap, get, mbind, V_bind, check in H. case_bool_decide as Hi; [|done]. simpl in H.
    destruct (IH _ H) as [-> Hk]. split; [done|]. intros k Hr. destruct (decide (k = i)) as [->|]; [done|]. apply Hk. lia.
Qed.

(** The table, at the instructions the theorems are about. *)
Definition op_facts (op : Z) : bool :=
  let pi := parseTable op in
  negb (plain_op op || between 172 op 177) ||
  (negb (has_flag pi PI_SWITCH) && instr_is_valid_bytecode op && negb (instr_is_jsr op) && (1 <=? pi.1) && (pi.1 <=? 3) && negb (op =? 196) &&
   negb (has_flag pi PI_WIDEJUMP) && (negb (instr_is_jump pi) || plain_op op) && Bool.eqb (has_flag pi PI_DIRECT) ((op =? 0xa7) || between 172 op 177) &&
   (negb (op =? 0xa7) || instr_is_jump pi) && (has_flag pi PI_DIRECT || instr_is_jump pi || instr_is_regular pi) && negb (op =? 169)).
Lemma tame_facts wide op : modelled_op wide op = true -> op_facts op = true /\ plain_op op || between 172 op 177 = true.
Proof.
  intros H. assert (Ht : plain_op op || between 172 op 177 = true).
  { unfold modelled_op in H. destruct (plain_op op); [done|]. by destruct wide, (between 172 op 177). }
  split; [|done]. assert (Hr : 0 <= op < 0 + 200) by (unfold plain_op, between in Ht; lia). clear H Ht.
  assert (Hall : forallb op_facts (seqZ 0 200) = true) by (vm_compute; reflexivity).
  rewrite forallb_forall in Hall. by apply Hall, list_elem_of_In, elem_of_seqZ.
Qed.

Record tame (op : Z) : Prop := {
  t_switch : has_flag (parseTable op) PI_SWITCH = false;
  t_valid : instr_is_valid_bytecode op = true;
  t_jsr : instr_is_jsr op = false;
  t_len : 1 <= (parseTable op).1 <= 3;
  t_wide : op <> 196;
  t_widejump : has_flag (parseTable op) PI_WIDEJUMP = false;
  t_jump : instr_is_jump (parseTable op) = true -> plain_op op = true;
  t_direct : has_flag (parseTable op) PI_DIRECT = (op =? 0xa7) || between 172 op 177;
  t_goto : op = 0xa7 -> instr_is_jump (parseTable op) = true;
  t_regular : has_flag (parseTable op) PI_DIRECT = false -> instr_is_jump (parseTable op) = false -> instr_is_regular (parseTable op) = true;
  t_ret : op <> 169;
}.
Lemma modelled_tame wide op : modelled_op wide op = true -> tame op.
Proof.
  intros H. destruct (tame_facts _ _ H) as [Hf Ht]. unfold op_facts in Hf. rewrite Ht in Hf. cbn [negb orb] in Hf.
  repeat rewrite andb_true_iff in Hf. destruct Hf as [[[[[[[[[[[H1 H2] H3] H4] H5] H6] H7] H8] H9] H10] H11] H12].
  split; try (by apply negb_true_iff).
  - done.
  - lia.
  - lia.
  - intros Hj. by rewrite Hj in H8.
  - by apply Bool.eqb_prop.
  - intros ->. exact H10.
  - intros Hd Hj. by rewrite Hd, Hj in H11.
  - lia.
Qed.

Lemma instr_length_spec instr opcode wide op c len c' : byte code instr = Some opcode -> op_at code instr = Some (wide, op) ->
  modelled_op wide op = true -> instr_length mi instr opcode c = VOk len c' ->
  c' = c /\ len = instr_len wide op /\ instr + len <= m_code_length mi /\ (wide = true -> has_flag (parseTable op) PI_CANWIDE = true).
Proof.
  intros Hb Ho Hm H. pose proof (modelled_tame _ _ Hm) as Ht. pose proof (byte_bound _ _ _ Hb) as Hr.
  unfold op_at in Ho. rewrite Hb in Ho. cbn [mbind option_bind] in Ho. unfold instr_length, check, mbind, V_bind in H.
  destruct (Z.eqb_spec opcode 196) as [->|Hne].
  - destruct (byte code (instr + 1)) as [op'|] eqn:Hb1; [|done]. injection Ho as <- <-.
    cbn [instr_is_valid_bytecode instr_is_jsr andb] in H. change (instr_is_valid_bytecode 196 && negb (instr_is_jsr 196)) with true in H.
    cbv iota in H. unfold mret, V_ret in H.
    destruct (instr + (parseTable 196).1 <=? m_code_length mi); [|done]. change (instr_is_compound 196 (parseTable 196)) with true in H. cbv iota in H.
    unfold instr_get_len_compound, m_byte, of_opt, mbind, V_bind, mret, V_ret in H. cbn [Z.eqb Pos.eqb] in H. rewrite Hb1 in H.
    pose proof (t_len _ Ht) as Hl.
    destruct (has_flag (parseTable op') PI_CANWIDE).
    + rewrite (ux_id 32 (2 * _)), (ux_id 32 (instr + _)) in H by (unfold is_u, m_code_length in *; lia).
      destruct (Z.leb_spec (instr + 2 * (parseTable op').1) (m_code_length mi)); [|done]. by injection H as <- <-.
    + unfold BIG_LENGTH in H. rewrite (ux_id 32 0x20000123), (ux_id 32 (instr + _)) in H by (unfold is_u, m_code_length in *; lia).
      rewrite (proj2 (Z.leb_gt _ _)) in H by (unfold m_code_length in *; lia). done.
  - injection Ho as <- <-. rewrite (t_valid _ Ht), (t_jsr _ Ht) in H. cbn [negb andb] in H. unfold mret, V_ret, error in H.
    destruct (Z.leb_spec (instr + (parseTable opcode).1) (m_code_length mi)); [|done].
    unfold instr_is_compound in H. rewrite (t_switch _ Ht), (proj2 (Z.eqb_neq _ _) Hne) in H. cbn [orb] in H. by injection H as <- <-.
Qed.

Lemma instr_len_pos wide op : modelled_op wide op = true -> 0 < instr_len wide op.
Proof. intros H. pose proof (t_len _ (modelled_tame _ _ H)). unfold instr_len. destruct wide; lia. Qed.

(** The successors that are not the next instruction. *)
Lemma successors_spec wide op opcode instr c aj c' : byte code instr = Some opcode -> op_at code instr = Some (wide, op) ->
  modelled_op wide op = true -> (wide = true -> has_flag (parseTable op) PI_CANWIDE = true) -> successors vm mi instr opcode (instr_len wide op) c = VOk aj c' ->
  same_maps c c' /\ workmap c' = workmap c /\ (aj = false <-> plain_op op = true /\ op <> 0xa7) /\
  (wide = false -> instr_is_jump (parseTable op) = true -> exists b0 b1 map,
     byte code (instr + 1) = Some b0 /\ byte code (instr + 2) = Some b1 /\
     props c !! ux 16 (instr + Z.lor (Z.shiftl b0 8) b1) = Some map /\ flows (workmap c) map).
Proof.
  intros Hb Ho Hm Hcan H. pose proof (modelled_tame _ _ Hm) as Ht. destruct (tame_facts _ _ Hm) as [_ Hor].
  unfold op_at in Ho. rewrite Hb in Ho. cbn [mbind option_bind] in Ho. unfold successors in H.
  destruct (Z.eqb_spec opcode 196) as [->|Hne].
  - destruct (byte code (instr + 1)) as [op'|] eqn:Hb1; [|done]. injection Ho as <- <-.
    change (instr_is_jump (parseTable 196)) with false in H. cbv iota in H. unfold instr_direct in H.
    change (has_flag (parseTable 196) PI_DIRECT) with false in H. cbv iota in H. cbn [Z.eqb Pos.eqb] in H.
    unfold m_byte, of_opt, mbind, V_bind, mret, V_ret in H. rewrite Hb1 in H.
    rewrite (proj2 (Z.eqb_neq _ _) (t_ret _ Ht)) in H.
    change (instr_is_switch (parseTable 196)) with false in H. change (instr_is_regular (parseTable 196)) with true in H.
    injection H as <- <-. split; [done|]. split; [done|]. split; [|done]. split; [intros _|done].
    assert (Hp : plain_op op' = true).
    { unfold modelled_op in Hm. cbn [negb andb] in Hm. by rewrite orb_false_r in Hm. }
    split; [done|]. intros ->. discriminate (Hcan eq_refl).
  - injection Ho as <- <-.
    assert (Hdir : instr_direct mi (parseTable opcode) opcode instr = mret ((opcode =? 0xa7) || between 172 opcode 177)).
    { unfold instr_direct. rewrite (t_direct _ Ht), (proj2 (Z.eqb_neq _ _) Hne). by destruct ((opcode =? 0xa7) || between 172 opcode 177). }
    assert (Hiff : (opcode =? 0xa7) || between 172 opcode 177 = false <-> plain_op opcode = true /\ opcode <> 0xa7).
    { rewrite orb_false_iff, Z.eqb_neq. split; [intros [H1 H2]; rewrite H2, orb_false_r in Hor; done|].
      intros [H1 H2]. split; [done|]. unfold plain_op, between in *. lia. }
    rewrite Hdir in H. destruct (instr_is_jump (parseTable opcode)) eqn:Hj.
    + unfold instr_get_jump_target in H. rewrite (t_widejump _ Ht) in H. cbv iota in H.
      unfold instr_get_int16_target, vf_read_uint16, m_byte, of_opt, mbind, V_bind, mret, V_ret in H.
      destruct (byte code (instr + 1)) as [b0|]; [|done]. rewrite <- Z.add_assoc in H. change (1 + 1) with 2 in H.
      destruct (byte code (instr + 2)) as [b1|]; [|done].
      destruct (new_generic_vector_constraint vm _ c) as [[] c1| |] eqn:E; [|done..]. injection H as <- <-.
      pose proof (generic_kept _ _ _ E) as Hs. apply generic_flows in E as (map & Hmap & Hf & Hw).
      split; [done|]. split; [done|]. split; [done|]. intros _ _. by exists b0, b1, map.
    + unfold mbind, V_bind, mret, V_ret in H. destruct ((opcode =? 0xa7) || between 172 opcode 177) eqn:Ed.
      * injection H as <- <-. done.
      * unfold instr_is_switch in H. rewrite (t_switch _ Ht) in H. cbv iota in H. unfold vassert in H.
        rewrite (t_regular _ Ht) in H; [|by rewrite (t_direct _ Ht)|done]. injection H as <- <-. done.
Qed.

Lemma verify_instruction_spec instr wide op aj c next aj' c' : op_at code instr = Some (wide, op) -> modelled_op wide op = true ->
  props c = ps -> return_type c = rt -> verify_instruction vm mi instr aj c = VOk (next, aj') c' ->
  exists ck c2, props ck = ps /\ return_type ck = rt /\ dataflow_opcode vm mi wide instr op ck = VOk tt c2 /\
    (aj = false -> enters (workmap c) instr ck) /\ (forall map, ps !! instr = Some map -> workmap ck = map) /\
    (forall k, instr < k < instr + instr_len wide op -> ps !! k = None) /\
    next = instr + instr_len wide op /\ instr + instr_len wide op <= m_code_length mi /\
    (wide = true -> has_flag (parseTable op) PI_CANWIDE = true) /\
    props c' = ps /\ return_type c' = rt /\ workmap c' = workmap c2 /\ (aj' = false <-> plain_op op = true /\ op <> 0xa7) /\
    (wide = false -> instr_is_jump (parseTable op) = true -> exists b0 b1 map,
       byte code (instr + 1) = Some b0 /\ byte code (instr + 2) = Some b1 /\
       ps !! ux 16 (instr + Z.lor (Z.shiftl b0 8) b1) = Some map /\ flows (workmap c2) map).
Proof.
  intros Ho Hm Hps Hrt H. pose proof Ho as Ho'. unfold op_at in Ho'. destruct (byte code instr) as [opcode|] eqn:Hb; [|done]. clear Ho'.
  pose proof (byte_bound _ _ _ Hb) as Hr. unfold verify_instruction in H.
  assert (Hinv : forall A B (m : V A) (k : A -> V B) c b c', (m ≫= k) c = VOk b c' -> exists a c1, m c = VOk a c1 /\ k a c1 = VOk b c').
  { intros A B m k d b d' E. unfold mbind, V_bind in E. destruct (m d) as [a d1| |]; [by exists a, d1|done..]. }
  apply Hinv in H as (o & c1 & H1 & H). unfold m_byte, of_opt in H1. rewrite Hb in H1. injection H1 as <- <-.
  apply Hinv in H as (len & c1 & H1 & H). apply (instr_length_spec _ _ wide op) in H1 as (-> & -> & Hlen & Hcan); [|done..].
  apply Hinv in H as ([] & c1 & H1 & H). apply no_maps_spec in H1 as [-> Hno].
  apply Hinv in H as (map & c1 & H1 & H). injection H1 as <- <-. rewrite Hps in H, Hno.
  apply Hinv in H as ([] & ck & H1 & H).
  assert (Hck : props ck = ps /\ return_type ck = rt /\ (aj = false -> enters (workmap c) instr ck) /\ (forall map, ps !! instr = Some map -> workmap ck = map)).
  { destruct (ps !! instr) as [map|] eqn:Hmap.
    - apply Hinv in H1 as ([] & c1 & H1 & H2). injection H2 as <-.
      destruct aj; cbn [negb] in H1.
      + injection H1 as <-. split; [done|]. split; [done|]. split; [done|]. by intros ? [= <-].
      + pose proof (generic_kept _ _ _ H1) as [Hp1 Hp2]. apply generic_flows in H1 as (map' & Hmap' & Hf & Hw).
        rewrite Hps, Hmap in Hmap'. injection Hmap' as <-. cbn [props return_type workmap].
        split; [congruence|]. split; [congruence|]. split; [|by intros ? [= <-]]. intros _. right. done.
    - unfold check in H1. destruct aj; [done|]. injection H1 as <-. split; [done|]. split; [done|]. split; [|done]. intros _. by left. }
  destruct Hck as (Hkp & Hkr & Hent & Hkm). clear H1.
  apply Hinv in H as ([] & c1 & H1 & H). unfold dataflow_instruction in H1.
  apply Hinv in H1 as (o & c2 & H1 & H2). unfold m_byte, of_opt in H1. rewrite Hb in H1. injection H1 as <- <-.
  apply Hinv in H2 as ([] & c2 & H2 & H3). rewrite no_handlers in H3. injection H3 as <-.
  assert (Hdf : dataflow_opcode vm mi wide instr op ck = VOk tt c2).
  { unfold op_at in Ho. rewrite Hb in Ho. cbn [mbind option_bind] in Ho. destruct (opcode =? 196).
    - apply Hinv in H2 as (o & d & E & H2). unfold m_byte, of_opt in E. destruct (byte code (instr + 1)); [|done].
      injection E as <- <-. injection Ho as <- <-. done.
    - injection Ho as <- <-. done. }
  clear H2. pose proof (kept_elim same_maps _ _ _ _ (kept_opcode vm mi wide instr op) Hdf) as [Hp2 Hr2].
  apply Hinv in H as (aj1 & c3 & H1 & H). injection H as <- <- <-.
  apply (successors_spec wide op) in H1 as ([Hp3 Hr3] & Hw & Hiff & Hj); [|done..].
  exists ck, c2. repeat (split; [done|]). split.
  { intros k Hk. apply Hno. lia. }
  assert (0 < instr_len wide op) by (by eapply instr_len_pos).
  split; [apply ux_id; unfold is_u; lia|]. split; [done|]. split; [done|]. split; [congruence|]. split; [congruence|].
  split; [done|]. split; [done|]. intros H1 H2. destruct (Hj H1 H2) as (b0 & b1 & map & ? & ? & Hmap & ?).
  exists b0, b1, map. rewrite Hp2, Hkp in Hmap. done.
Qed.

(** A pass that succeeds: what it visited, every map from its start on among it. *)
Lemma pass_accepted fuel n instr aj c c' : verify_loop vm mi fuel instr aj c = Some (VOk true c') -> modelled_code n instr = true ->
  0 <= instr -> props c = ps -> return_type c = rt ->
  props c' = ps /\ exists K, (forall pc ck, K pc ck -> accepted K pc ck) /\
    (forall pc map, instr <= pc < m_code_length mi -> ps !! pc = Some map -> exists ck, K pc ck /\ workmap ck = map) /\
    (aj = false -> instr < m_code_length mi /\ exists ck, K instr ck /\ enters (workmap c) instr ck).
Proof.
  revert n instr aj c. induction fuel as [|fuel IH]; intros n instr aj c H Hm Hi Hps Hrt; simpl in H.
  { destruct (Z.ltb_spec instr (m_code_length mi)); [done|]. cbn [negb] in H. injection H as -> <-.
    split; [done|]. exists (fun _ _ => False). split; [done|]. split; [lia|done]. }
  destruct (Z.ltb_spec instr (m_code_length mi)) as [Hlt|Hge]; cbn [negb] in H.
  2: { injection H as -> <-. split; [done|]. exists (fun _ _ => False). split; [done|]. split; [lia|done]. }
  destruct n as [|n]; simpl in Hm; rewrite (proj2 (Z.ltb_lt _ _) Hlt) in Hm; [done|]. cbn [negb orb] in Hm.
  destruct (op_at code instr) as [[wide op]|] eqn:Ho; [|done]. apply andb_true_iff in Hm as [Hop Hm].
  destruct (verify_instruction vm mi instr aj c) as [[next aj'] c1| |] eqn:E; [|done..]. cbn [fst snd] in H.
  apply (verify_instruction_spec _ wide op) in E
    as (ck & c2 & Hk1 & Hk2 & Hdf & Hent & Hmap & Hno & -> & Hlen & Hcan & Hp1 & Hr1 & Hw1 & Haj & Hj); [|done..].
  pose proof (instr_len_pos _ _ Hop) as Hpos.
  destruct (IH n _ _ _ H Hm ltac:(lia) Hp1 Hr1) as (Hps' & K & HK & HKm & HKa). split; [done|].
  exists (fun pc d => pc = instr /\ d = ck \/ K pc d). split; [|split].
  - intros pc d [[-> ->]|Hd]; [|eapply accepted_mono; [|by apply HK]; by right].
    exists wide, op, c2. repeat (split; [done|]). intros Hp Hg. destruct (HKa (proj2 Haj (conj Hp Hg))) as (Hl & d & Hd & He).
    split; [done|]. exists d. split; [by right|]. by rewrite <- Hw1.
  - intros pc map Hpc Hm'. destruct (decide (pc = instr)) as [->|]; [exists ck; split; [by left|by apply Hmap]|].
    destruct (decide (pc < instr + instr_len wide op)); [rewrite Hno in Hm' by lia; done|].
    destruct (HKm pc map) as (d & Hd & He); [lia|done|]. exists d. split; [by right|done].
  - intros Haj'. split; [done|]. exists ck. split; [by left|by apply Hent].
Qed.

(** *** Executions *)

(** The maps describe words of values, and there are none outside the code. *)
Record maps_ok : Prop := {
  mo_length : forall pc map, ps !! pc = Some map -> length (elements map) = nl;
  mo_locals : forall pc map, ps !! pc = Some map -> Forall (fun c => storable c = true) (elements map);
  mo_stack : forall pc map, ps !! pc = Some map -> Forall (fun c => storable c = true) (opstack map);
  mo_inside : forall pc map, ps !! pc = Some map -> 0 <= pc < m_code_length mi;
}.

Lemma typed_flows w map s pc : maps_ok -> ps !! pc = Some map -> flows w map -> typed mi w s -> typed mi map s.
Proof.
  intros Hok Hmap [Hd Hf] [H1 H2 H3 H4 H5]. pose proof (mo_length Hok _ _ Hmap) as Hl.
  rewrite firstn_all2 in Hf by (rewrite !length_app, !length_reverse; lia).
  apply Forall2_app_inv in Hf as [Hf1 Hf2]; [|lia].
  split; [eapply typed_locals_merge; [done|done|by eapply mo_locals]| |done|by eapply mo_locals|done].
  eapply typed_stack_merge; [done| |by eapply mo_stack].
  apply Forall2_reverse in Hf2. by rewrite !reverse_involutive in Hf2.
Qed.
Lemma typed_enters w c pc s : maps_ok -> enters w pc c -> typed mi w s -> typed mi (workmap c) s.
Proof. intros Hok [->|[Hm Hf]] Ht; [done|by eapply typed_flows]. Qed.

(** The result of an execution: not stuck, and a value of the return type. *)
Definition safe_result (r : jres) : Prop :=
  match r with
  | JUndef => False
  | JReturn (Some v) => rt <> SM_BOGUS /\ has_type rt v
  | JReturn None => rt = SM_BOGUS
  | _ => True
  end.

Context (Hbytes : Forall (is_u 8) code) (Hmaps : maps_ok) (Hret : returns_as (return_java_type (method mi)) rt).

(** The verifier's target is the machine's, when it is inside the code. *)
Lemma jump_target instr b0 b1 pc map : 0 <= instr < m_code_length mi -> is_u 8 b0 -> is_u 8 b1 ->
  ps !! ux 16 (instr + Z.lor (Z.shiftl b0 8) b1) = Some map -> pc = instr + sx 16 (b0 * 2 ^ 8 + b1) ->
  ux 16 (instr + Z.lor (Z.shiftl b0 8) b1) = pc.
Proof.
  intros Hi H0 H1 Hmap ->. apply (mo_inside Hmaps) in Hmap. rewrite word_eq in * by done.
  set (w := b0 * 2 ^ 8 + b1) in *. pose proof (sx_range 16 w ltac:(lia)) as Hr. unfold is_s in Hr.
  destruct (eqm_ux 16 (instr + w)) as [a Ha]. destruct (eqm_sx 16 w) as [b Hb].
  change (2 ^ (16 - 1)) with 32768 in Hr. change (2 ^ 15) with 32768 in Hcode. change (2 ^ 16) with 65536 in Ha, Hb. lia.
Qed.

Section exec.
Context (resolve : Z -> Method + string) (catches : string -> Z -> option bool) (exn_ref : string -> Z) (sd : bool).
Context (K : Z -> ctx -> Prop) (HK : forall pc ck, K pc ck -> accepted K pc ck)
  (HKm : forall pc map, 0 <= pc < m_code_length mi -> ps !! pc = Some map -> exists ck, K pc ck /\ workmap ck = map).

Lemma no_handler pc e : java_handler catches sd (method mi) pc e = None.
Proof. unfold java_handler. rewrite Hnoh. by destruct sd. Qed.

Lemma exec_safe fuel s ck : K (jpc s) ck -> typed mi (workmap ck) s ->
  safe_result (java_exec resolve catches exn_ref sd fuel (method mi) s).
Proof.
  revert s ck. induction fuel as [|fuel IH]; intros s ck Hk Hty; [done|].
  destruct (HK _ _ Hk) as (wide & op & c2 & Ho & Hm & Hcan & Hpc0 & Hlen & Hp & Hr & Hdf & Hjump & Hnext).
  pose proof (modelled_tame _ _ Hm) as Ht. destruct ck as [[els ts] h t p ps']. simpl in Hp, Hr, Hty. subst ps' t.
  unfold op_at in Ho. destruct (byte code (jpc s)) as [opcode|] eqn:Hb; [|done]. cbn [mbind option_bind] in Ho.
  cbn [java_exec]. rewrite Hb.
  assert (Hdec : byte code (jpc s) = Some (if wide then 196 else op) /\ (wide = true -> byte code (jpc s + 1) = Some op)).
  { destruct (Z.eqb_spec opcode 196) as [->|]; [|injection Ho as <- <-; by rewrite Hb].
    destruct (byte code (jpc s + 1)); [|done]. injection Ho as <- <-. done. }
  destruct Hdec as [Hb' Hwop]. rewrite Hb in Hb'. injection Hb' as Hopc.
  destruct (plain_op op) eqn:Hplain.
  - assert (Hnr : (172 <=? opcode) && (opcode <=? 177) = false /\ (opcode =? 184) = false).
    { rewrite Hopc. destruct wide; [done|]. unfold plain_op, between in Hplain. lia. }
    destruct Hnr as [-> ->].
    assert (Hv := vwp_elim _ _ _ _ _ (sound_plain vm mi Hbytes els ts h rt p ps wide (jpc s) op s
      ltac:(by rewrite Hb, Hopc) Hwop (fun _ => t_wide _ Ht) Hpc0 Hlen Hty eq_refl Hcan Hplain) Hdf).
    destruct Hv as (_ & _ & o & Hstep & Hgo). rewrite Hstep. destruct o as [s'|e].
    + destruct Hgo as [Hty' [[Hpc Hne]|(Hj & Hw & b0 & b1 & Hb0 & Hb1 & Hpc)]].
      * destruct (Hnext eq_refl Hne) as (_ & c3 & Hk3 & He). apply (IH s' c3); [by rewrite Hpc|by eapply typed_enters].
      * destruct (Hjump Hw Hj) as (b0' & b1' & map & Hb0' & Hb1' & Hmap & Hf). simplify_eq.
        pose proof (jump_target (jpc s) b0 b1 _ _ ltac:(pose proof (byte_bound _ _ _ Hb); unfold m_code_length; lia)
          ltac:(by eapply (byte_range code)) ltac:(by eapply (byte_range code)) Hmap Hpc) as Heq.
        rewrite Heq in Hmap. destruct (HKm _ _ (mo_inside Hmaps _ _ Hmap) Hmap) as (c3 & Hk3 & Hw3).
        apply (IH s' c3); [done|]. rewrite Hw3. by eapply typed_flows.
    + by rewrite no_handler.
  - unfold modelled_op in Hm. rewrite Hplain in Hm. cbn [orb] in Hm.
    apply andb_true_iff in Hm as [[Hw%negb_true_iff Hrg]%andb_true_iff Ha]. subst wide. rewrite Hopc.
    assert (Hrange : 172 <= op <= 177) by (unfold between in Hrg; lia).
    rewrite (proj2 (Z.leb_le 172 op)), (proj2 (Z.leb_le op 177)) by lia. cbn [andb].
    assert (Hv := vwp_elim _ _ _ _ _ (sound_return vm mi els ts h rt p ps false (jpc s) op s Hty (return_java_type (method mi)) Hrange eq_refl Hret
      ltac:(intros ->; clear -Ha Hret; unfold returns_as in Hret; by destruct (return_java_type (method mi)))) Hdf).
    destruct Hv as (v & -> & Hv). by destruct v.
Qed.
End exec.
End pass.

(** ** The maps of the attribute *)

Section table.
Context (vm : VM) (mi : Method_Info) (attr : list Z) (attribute_end : Z) (Hctor : m_is_constructor vm mi = false).
Abbreviation nl := (max_locals (method mi)).
Abbreviation all_storable := (Forall (fun c => storable c = true)).

Lemma cpool_get_class_ref i dim p c p' : cpool_get_class vm i true dim p = Some (Some c, p') -> isReference c = true.
Proof.
  unfold cpool_get_class. p_unfold. intros H. destruct (class_name vm i) as [[nm|]|]; cbn [mbind option_bind] in H; [|done..].
  destruct (_ || (255 <? _)); [done|]. destruct (_ && (dim =? -1)); [done|].
  destruct (ref_type nm p) as [[d p1]|] eqn:E; [|done]. injection H as <- _. by eapply get_ref_type_ref.
Qed.

Lemma ref_storable c : is_ref c = true -> storable c = true.
Proof. intros H. unfold storable. by rewrite H, orb_true_r. Qed.

Lemma read_types_storable space cnt ptr :
  forall c, vwp (read_types vm attr attribute_end space cnt ptr) c (fun r _ => all_storable r.1 /\ (length r.1 <= space)%nat).
Proof.
  revert cnt ptr. induction space as [space IH] using lt_wf_ind. intros cnt ptr c.
  assert (Hone : forall sp d cnt ptr c, space = S sp -> storable d = true ->
    vwp (r ← read_types vm attr attribute_end sp cnt ptr; mret (d :: r.1, r.2)) c (fun r _ => all_storable r.1 /\ (length r.1 <= space)%nat)).
  { intros sp d cnt' ptr' c' -> Hd. apply vwp_bind. eapply vwp_mono; [apply (IH sp); lia|]. intros r c1 [H1 H2]. apply vwp_ret.
    split; [by constructor|simpl; lia]. }
  destruct space as [|sp].
  - simpl. apply vwp_if; intros _; [apply vwp_ret; split; [constructor|simpl; lia]|].
    unfold in_table. apply vwp_bind, vwp_check. intros _. done.
  - cbn [read_types]. apply vwp_if; intros _; [apply vwp_ret; split; [constructor|simpl; lia]|].
    unfold in_table. apply vwp_bind, vwp_check. intros _. apply vwp_bind. unfold a_byte. apply vwp_of_opt. intros tag _.
    assert (Htwo : forall d cnt ptr c, storable d = true ->
      vwp (match sp with O => corrupted | S sp => r ← read_types vm attr attribute_end sp cnt ptr; mret (d :: SM_HIGH_WORD :: r.1, r.2) end) c
        (fun r _ => all_storable r.1 /\ (length r.1 <= S sp)%nat)).
    { intros d cnt' ptr' c' Hd. destruct sp as [|sp]; [done|]. apply vwp_bind. eapply vwp_mono; [apply (IH sp); lia|].
      intros r c1 [H1 H2]. apply vwp_ret. split; [by repeat constructor|simpl; lia]. }
    assert (Hc : tag = 0 \/ tag = 1 \/ tag = 2 \/ tag = 3 \/ tag = 4 \/ tag = 5 \/ tag = 6 \/ tag = 7 \/ tag = 8 \/ tag < 0 \/ 8 < tag) by lia.
    repeat destruct Hc as [->|Hc].
    all: try (by apply (Hone sp)). all: try (by apply Htwo).
    + apply vwp_bind, vwp_check. intros _. apply vwp_bind, vwp_intro. intros idx c1 _. apply vwp_bind. destruct c1.
      apply vwp_pl. intros [d|] p' Hd; [|done]. apply (Hone sp); [done|]. apply ref_storable. unfold is_ref. by rewrite (cpool_get_class_ref _ _ _ _ _ Hd).
    + apply vwp_bind, vwp_check. intros _. apply vwp_bind, vwp_intro. intros idx c1 _. apply (Hone sp); [done|].
      apply ref_storable. unfold is_ref. by rewrite getNewObject_tag, orb_true_r.
    + destruct tag as [|tag|tag]; try lia; try done. repeat (destruct tag as [tag|tag|]; try done; try lia).
Qed.

(** The working copy: it describes words and has the length of the locals. *)
Record frame_ok (f : frame_state) : Prop := {
  fo_locals : all_storable (lastWorkmap f);
  fo_stack : all_storable (last_stack f);
  fo_length : length (lastWorkmap f) = nl;
  fo_last : 0 <= last_maxlocals f <= Z.of_nat nl;
}.

Lemma chop_ok fuel k locals last c : all_storable locals -> length locals = nl -> 0 <= last <= Z.of_nat nl ->
  vwp (chop fuel k locals last) c (fun r _ => all_storable r.1 /\ length r.1 = nl /\ 0 <= r.2 <= Z.of_nat nl).
Proof.
  revert k locals last. induction fuel as [|fuel IH]; intros k locals last Hl Hn Hr; simpl.
  - apply vwp_if; intros _; [by apply vwp_ret|]. by apply vwp_if.
  - apply vwp_if; intros _; [by apply vwp_ret|]. apply vwp_if; intros Hz; [done|].
    apply vwp_bind, vwp_of_opt. intros el _. apply IH; [by apply Forall_insert|by rewrite length_insert|lia].
Qed.

Lemma vwp_offset ptr c (Q : Z -> ctx -> Prop) : (forall off c', Q off c') -> vwp (read_offset attr attribute_end ptr) c Q.
Proof. intros H. apply vwp_intro. intros; apply H. Qed.

Lemma read_frame_ok f c : frame_ok f ->
  vwp (read_frame vm mi attr attribute_end f) c (fun r _ => frame_ok r.2).
Proof.
  intros [Hl Hs Hn Hr]. unfold read_frame.
  apply vwp_bind, vwp_check. intros _. apply vwp_bind, vwp_of_opt. intros ty _.
  assert (Hsame : forall st ptr, all_storable st -> frame_ok (MkFrameState (lastWorkmap f) st (last_maxlocals f) ptr)) by done.
  apply vwp_if; intros _; [by apply vwp_ret, Hsame|].
  apply vwp_if; intros _.
  { apply vwp_bind. eapply vwp_mono; [apply read_types_storable|]. intros r c1 [H1 _]. by apply vwp_ret, Hsame. }
  apply vwp_if; intros _; [done|]. apply vwp_if; intros _.
  { apply vwp_bind, vwp_offset. intros off c1. apply vwp_bind. eapply vwp_mono; [apply read_types_storable|]. intros r c2 [H1 _]. by apply vwp_ret, Hsame. }
  apply vwp_if; intros _.
  { apply vwp_bind. eapply vwp_mono; [by apply chop_ok|]. intros r c1 (H1 & H2 & H3). apply vwp_bind, vwp_offset. intros off c2.
    apply vwp_ret. split; simpl; done. }
  apply vwp_if; intros _; [apply vwp_bind, vwp_offset; intros off c1; by apply vwp_ret, Hsame|].
  apply vwp_if; intros _.
  - apply vwp_bind, vwp_offset. intros off c1. apply vwp_bind. eapply vwp_mono; [apply read_types_storable|]. intros r c2 [H1 H2].
    unfold m_max_locals in H2. apply vwp_ret. split; simpl.
    + apply Forall_app. split; [by apply Forall_take|]. apply Forall_app. split; [done|by apply Forall_drop].
    + constructor.
    + rewrite !length_app, length_take, length_drop. lia.
    + lia.
  - apply vwp_bind, vwp_check. intros _. apply vwp_bind, vwp_intro. intros off c1 _. apply vwp_bind, vwp_intro. intros cnt c2 _.
    apply vwp_bind. eapply vwp_mono; [apply read_types_storable|]. intros r c3 [H1 H2]. unfold m_max_locals in H2. rewrite Nat2Z.id in H2.
    apply vwp_bind, vwp_check. intros _. apply vwp_bind, vwp_intro. intros depth c4 _.
    apply vwp_bind. eapply vwp_mono; [apply read_types_storable|]. intros st c5 [H3 H4]. apply vwp_ret. split; simpl.
    + apply Forall_app. split; [done|]. by apply Forall_replicate.
    + done.
    + rewrite length_app, length_replicate. lia.
    + lia.
Qed.

Section kept_table.
Context (R : ctx -> ctx -> Prop) `{!Stays R}.
Lemma kept_types space cnt ptr : keeping R (read_types vm attr attribute_end space cnt ptr).
Proof.
  revert cnt ptr. induction space as [space IH] using lt_wf_ind. intros cnt ptr.
  destruct space as [|sp]; cbn [read_types]; unfold in_table, corrupted; [kept|].
  assert (H1 : forall cnt ptr, keeping R (read_types vm attr attribute_end sp cnt ptr)) by (intros; apply IH; lia).
  assert (H2 : forall n cnt ptr, sp = S n -> keeping R (read_types vm attr attribute_end n cnt ptr)) by (intros; apply IH; lia).
  unfold a_uint16, a_byte. destruct sp as [|n]; [kept|]. specialize (fun cnt ptr => H2 n cnt ptr eq_refl). kept.
Qed.
Lemma kept_chop fuel k locals last : keeping R (chop fuel k locals last).
Proof. revert k locals last. induction fuel as [|fuel IH]; intros; simpl; unfold corrupted; kept. Qed.
Lemma kept_read_frame f : keeping R (read_frame vm mi attr attribute_end f).
Proof.
  pose proof kept_types. pose proof kept_chop. unfold read_frame, read_offset, a_uint16, a_byte, in_table. kept.
Qed.

Lemma kept_read_frames n last f : (forall ps, keeping R (set_props ps)) -> keeping R (read_frames vm mi attr attribute_end n last f).
Proof.
  intros Hps. pose proof kept_read_frame. revert last f. induction n as [|n IH]; intros last f; simpl; kept.
Qed.
End kept_table.

(** Maps that describe words. *)
Definition maps_typed (ps : gmap Z MapHead) : Prop := forall pc map, ps !! pc = Some map ->
  0 <= pc /\ length (elements map) = nl /\ all_storable (elements map) /\ all_storable (opstack map).

Lemma read_frames_ok n last f c : frame_ok f -> maps_typed (props c) ->
  vwp (read_frames vm mi attr attribute_end n last f) c (fun _ c' => maps_typed (props c')).
Proof.
  revert last f c. induction n as [|n IH]; intros last f c Hf Hps; simpl; [done|].
  apply vwp_bind. pose proof (read_frame_ok f c Hf) as Hr. pose proof (kept_read_frame same_maps f c) as Hk.
  unfold vwp in *. destruct (read_frame vm mi attr attribute_end f c) as [r c1| |]; [|done..]. simpl in Hr.
  destruct Hk as [Hp _]. apply vwp_bind. destruct c1 as [w h t p ps]. simpl in Hp. apply vwp_pl. intros this p' _.
  apply vwp_bind, vwp_get. apply vwp_bind, vwp_assert. intros _. apply vwp_bind. cbn [props]. unfold set_props. hnf.
  apply IH; [exact Hr|]. cbn [props]. intros pc map Hm. destruct Hr as [H1 H2 H3 H4].
  apply lookup_insert_Some in Hm as [[<- <-]|[_ Hm]]; [|apply Hps; by rewrite <- Hp].
  unfold frame_map. rewrite Hctor, app_nil_r. cbn [elements opstack]. split; [apply ux_range; lia|].
  split; [unfold m_max_locals; rewrite length_take; lia|]. split; [by apply Forall_take|by apply Forall_reverse].
Qed.

Lemma used_locals_range n els : 0 <= used_locals n els <= Z.of_nat n.
Proof. induction n as [|n IH]; simpl used_locals; [lia|]. destruct (negb _); lia. Qed.

Lemma maps_typed_empty : maps_typed ∅.
Proof. intros pc map. by rewrite lookup_empty. Qed.
End table.

(** The attribute as a whole. *)
Lemma load_ok vm mi c : m_is_constructor vm mi = false ->
  Forall (fun c => storable c = true) (elements (workmap c)) -> length (elements (workmap c)) = max_locals (method mi) ->
  props c = ∅ ->
  vwp (load_stackmaptable vm mi) c (fun _ c' => same_map c c' /\ maps_typed mi (props c')).
Proof.
  intros Hctor Hsto Hlen Hps. unfold load_stackmaptable. destruct (method_stackmaptable mi) as [attr|].
  2: { apply vwp_ret. split; [apply stays_refl|]. rewrite Hps. apply maps_typed_empty. }
  unfold a_byte, a_uint16, in_table.
  do 4 (apply vwp_bind, vwp_of_opt; intros ? _). apply vwp_bind, vwp_check. intros _.
  apply vwp_bind, vwp_bind, vwp_of_opt. intros ? _. apply vwp_bind, vwp_of_opt. intros ? _. apply vwp_ret, vwp_bind, vwp_get, vwp_bind.
  match goal with |- vwp (read_frames _ _ ?a ?e ?n ?l ?f) _ _ =>
    pose proof (read_frames_ok vm mi a e Hctor n l f c) as H1; pose proof (kept_read_frames vm mi a e same_map n l f kept_props c) as H2 end.
  unfold vwp in *. destruct (read_frames _ _ _ _ _ _ _ c) as [f c'| |]; [|done..].
  assert (Hm : maps_typed mi (props c')).
  { apply H1; [|rewrite Hps; apply maps_typed_empty]. split; simpl; [done|constructor|done|apply used_locals_range]. }
  unfold check. by destruct (negb _).
Qed.

(** ** The map a method begins with *)

(** The types of the parameters and of the result, as the verifier reads them off the
    descriptor. *)
Fixpoint parameters (fuel : nat) (state : option string) : P (list SmConstant) :=
  match state with
  | None => mret []
  | Some s =>
      match fuel with
      | O => pfail
      | S fuel => a ← cpool_method_next_arg s; tys ← parameters fuel a.2; mret (a.1 :: tys)
      end
  end.
Definition signature (descriptor : string) : P (option (SmConstant * list SmConstant)) :=
  r ← cpool_method_get_rettype descriptor;
  match r with
  | None => mret None
  | Some (rettype, _, state) => tys ← parameters (String.length descriptor) state; mret (Some (rettype, tys))
  end.

Section initial.
Context (vm : VM) (mi : Method_Info).
Abbreviation nl := (max_locals (method mi)).

(** The types in the locals from [n] on. *)
Fixpoint put (n : nat) (tys : list SmConstant) (els : list SmConstant) : list SmConstant :=
  match tys with
  | [] => els
  | c :: tys => if isLongOrDouble c then put (n + 2) tys (<[S n := SM_HIGH_WORD]> (<[n := c]> els)) else put (n + 1) tys (<[n := c]> els)
  end.
Definition span (tys : list SmConstant) : nat := foldr (fun c n => ((if isLongOrDouble c then 2 else 1) + n)%nat) 0%nat tys.

Lemma initial_args_spec fuel state els ts h t p ps n tys p' : parameters fuel state p = Some (tys, p') ->
  vwp (initial_args mi fuel state (Z.of_nat n)) (MkCtx (MkMap els ts) h t p ps) (fun idx c' =>
    idx = Z.of_nat (n + span tys) /\ (tys <> [] -> idx <= Z.of_nat nl) /\ exists h', c' = MkCtx (MkMap (put n tys els) ts) h' t p' ps).
Proof.
  revert state els h p n tys. induction fuel as [|fuel IH]; intros state els h p n tys Hp.
  { destruct state; [done|]. injection Hp as <- <-. simpl. apply vwp_ret. split; [lia|]. split; [done|by eexists]. }
  destruct state as [s|]; simpl in Hp.
  2: { injection Hp as <- <-. simpl. apply vwp_ret. split; [lia|]. split; [done|by eexists]. }
  unfold mret, mbind, P_ret, P_bind in Hp. destruct (cpool_method_next_arg s p) as [[[c rest] p1]|] eqn:Ea; [|done]. cbn [mbind option_bind fst snd] in Hp.
  destruct (parameters fuel rest p1) as [[tys' p2]|] eqn:Ep; [|done]. injection Hp as <- <-.
  simpl. apply vwp_bind, vwp_pl. intros a q Hq. rewrite Ea in Hq. injection Hq as <- <-. cbn [fst snd].
  apply vwp_bind. apply vwp_if; intros Hc; simpl; rewrite Hc.
  - unfold workmap_set_2w_local_const. do 2 apply vwp_bind. apply vwp_assert. intros _. apply vwp_bind. apply vwp_set_local. intros h1 _.
    apply vwp_set_local. intros h2 _. apply vwp_ret. apply vwp_bind, vwp_assert. intros Hle%Z.leb_le.
    rewrite Nat2Z.id. replace (Z.to_nat (Z.of_nat n + 1)) with (S n) by lia. replace (Z.of_nat n + 2) with (Z.of_nat (n + 2)) in * by lia.
    eapply vwp_mono; [by apply IH|]. intros idx c' (-> & Hn & h' & ->). split; [lia|]. split; [|by exists h'].
    intros _. destruct tys'; [simpl; unfold m_max_locals in Hle; lia|by apply Hn].
  - apply vwp_bind. apply vwp_set_local. intros h1 _. apply vwp_ret. apply vwp_bind, vwp_assert. intros Hle%Z.leb_le.
    rewrite Nat2Z.id. replace (Z.of_nat n + 1) with (Z.of_nat (n + 1)) in * by lia.
    eapply vwp_mono; [by apply IH|]. intros idx c' (-> & Hn & h' & ->). split; [lia|]. split; [|by exists h'].
    intros _. destruct tys'; [simpl; unfold m_max_locals in Hle; lia|by apply Hn].
Qed.

Lemma initial_rest_spec k n els ts h t p ps : 
  vwp (initial_rest mi k (Z.of_nat n)) (MkCtx (MkMap els ts) h t p ps) (fun _ c' =>
    exists els' h', c' = MkCtx (MkMap els' ts) h' t p ps /\ length els' = length els /\
      forall i, els' !! i = if decide (n <= i < n + k)%nat then (if decide (i < length els)%nat then Some SM_BOGUS else None) else els !! i).
Proof.
  revert n els h. induction k as [|k IH]; intros n els h; simpl.
  - apply vwp_ret. exists els, h. split; [done|]. split; [done|]. intros i. by rewrite decide_False by lia.
  - apply vwp_bind. apply vwp_set_local. intros h1 _. rewrite Nat2Z.id. replace (Z.of_nat n + 1) with (Z.of_nat (n + 1)) by lia.
    eapply vwp_mono; [apply IH|]. intros [] c' (els' & h' & -> & Hl & He). exists els', h'. split; [done|].
    rewrite length_insert in *. split; [done|]. intros i. rewrite He. destruct (decide (i = n)) as [->|].
    + rewrite (decide_False (P := (n + 1 <= n < _)%nat)) by lia. rewrite (decide_True (P := (n <= n < _)%nat)) by lia.
      case_decide; [by apply list_lookup_insert_eq|]. apply lookup_ge_None_2. rewrite length_insert. lia.
    + rewrite list_lookup_insert_ne by done. repeat case_decide; (done || lia).
Qed.

Lemma put_length n tys els : length (put n tys els) = length els.
Proof. revert n els. induction tys as [|c tys IH]; intros n els; simpl; [done|]. destruct (isLongOrDouble c); rewrite IH, ?length_insert; done. Qed.
Lemma put_outside n tys els i : (i < n \/ n + span tys <= i)%nat -> put n tys els !! i = els !! i.
Proof.
  revert n els. induction tys as [|c tys IH]; intros n els Hi; [done|]. simpl in *. destruct (isLongOrDouble c).
  - rewrite IH by lia. by rewrite !list_lookup_insert_ne by lia.
  - rewrite IH by lia. by rewrite list_lookup_insert_ne by lia.
Qed.

Lemma has_type_cases c v : has_type c v -> storable c = true /\
  (isLongOrDouble c = true /\ slot_ok c (SLow v) /\ cat2 v = true \/ isLongOrDouble c = false /\ slot_ok c (SOne v) /\ cat2 v = false).
Proof.
  unfold has_type. destruct (isLongOrDouble c) eqn:E; intros H.
  - split; [by eapply slot_ok_storable|]. left. split; [done|]. split; [done|by eapply low_two].
  - destruct H as [H Hc]. split; [by eapply slot_ok_storable|by right].
Qed.

(** The words of the arguments in the locals, as the layout has their values. *)
Lemma put_typed tys args n els i c : Forall2 has_type tys args -> (n + span tys <= length els)%nat ->
  put n tys els !! i = Some c -> (n <= i < n + span tys)%nat ->
  storable c = true /\ (
    (exists v, layout (Z.of_nat n) args (Z.of_nat i) = Some v /\ (isLongOrDouble c = true /\ slot_ok c (SLow v) /\ cat2 v = true \/
       isLongOrDouble c = false /\ slot_ok c (SOne v) /\ cat2 v = false)) \/ c = SM_HIGH_WORD).
Proof.
  intros H. revert n els i. induction H as [|t v tys args Htv H IH]; intros n els i Hle Hi Hr; simpl in *; [lia|].
  destruct (has_type_cases t v Htv) as [Hst Hcase]. unfold width.
  destruct (isLongOrDouble t) eqn:Et.
  - destruct Hcase as [(_ & Hok & Hv)|(? & _)]; [|done]. rewrite Hv.
    destruct (decide (i = n)) as [->|]; [|destruct (decide (i = S n)) as [->|]].
    + rewrite put_outside, list_lookup_insert_ne, list_lookup_insert_eq in Hi by lia. injection Hi as <-.
      split; [done|]. left. exists v. rewrite Z.eqb_refl. auto.
    + rewrite put_outside, list_lookup_insert_eq in Hi by (rewrite ?length_insert; lia). injection Hi as <-. split; [done|by right].
    + rewrite (proj2 (Z.eqb_neq _ _)) by lia. replace (Z.of_nat n + 2) with (Z.of_nat (n + 2)) by lia.
      eapply IH; [|done|lia]. rewrite !length_insert. lia.
  - destruct Hcase as [(? & _)|(_ & Hok & Hv)]; [done|]. rewrite Hv.
    destruct (decide (i = n)) as [->|].
    + rewrite put_outside, list_lookup_insert_eq in Hi by lia. injection Hi as <-. split; [done|]. left. exists v. rewrite Z.eqb_refl. auto.
    + rewrite (proj2 (Z.eqb_neq _ _)) by lia. replace (Z.of_nat n + 1) with (Z.of_nat (n + 1)) by lia.
      eapply IH; [|done|lia]. rewrite !length_insert. lia.
Qed.

Context (Hstatic : method_is_static mi = true) (Hctor : m_is_constructor vm mi = false).

(** A static method begins with its arguments, and nothing on the stack. *)
Lemma initial_typed p rt tys p' args : signature (method_descriptor mi) p = Some (Some (rt, tys), p') -> Forall2 has_type tys args ->
  vwp (create_method_initial_workmap vm mi) (init_ctx vm mi p) (fun _ c =>
    typed mi (workmap c) (JState 0 (layout 0 args) []) /\ props c = ∅ /\ return_type c = rt).
Proof.
  intros Hsig Hargs. unfold create_method_initial_workmap. rewrite Hstatic. cbn [negb].
  apply vwp_bind. unfold set_workmap at 1. hnf. apply vwp_bind, vwp_ret.
  unfold signature, mret, mbind, P_ret, P_bind in Hsig.
  destruct (cpool_method_get_rettype (method_descriptor mi) p) as [[[[[rettype sz] state]|] p1]|] eqn:Er; [|done..].
  cbn [mbind option_bind] in Hsig. destruct (parameters (String.length (method_descriptor mi)) state p1) as [[tys' p2]|] eqn:Ep; [|done]. injection Hsig as -> -> ->.
  apply vwp_bind, vwp_pl. intros r q Hq. cbn [tpool init_ctx] in Hq. rewrite Er in Hq. injection Hq as <- <-.
  apply vwp_bind. unfold set_return_type. hnf. apply vwp_bind, vwp_assert. intros _.
  apply vwp_bind. unfold m_stack_start. rewrite Hctor, Z.add_0_r. unfold m_max_locals. rewrite Nat2Z.id.
  change 0 with (Z.of_nat 0) at 1. eapply vwp_mono; [by eapply initial_args_spec|].
  intros idx c (-> & Hle & h' & ->). simpl Nat.add in *.
  assert (Hfit : (span tys <= nl)%nat) by (destruct tys; [simpl; lia|specialize (Hle ltac:(done)); lia]).
  unfold m_max_locals. eapply vwp_mono; [apply initial_rest_spec|]. intros _ c (els & h2 & -> & Hl & He).
  rewrite put_length, length_replicate in *. cbn [workmap props return_type]. split; [|done].
  assert (Hloc : forall i c, (i < nl)%nat -> els !! i = Some c -> storable c = true /\ (
    (exists v, layout 0 args (Z.of_nat i) = Some v /\ (isLongOrDouble c = true /\ slot_ok c (SLow v) /\ cat2 v = true \/
       isLongOrDouble c = false /\ slot_ok c (SOne v) /\ cat2 v = false)) \/ c = SM_HIGH_WORD \/ c = SM_BOGUS)).
  { intros i c Hi Hc. rewrite He in Hc. destruct (decide (i < span tys)%nat).
    - rewrite decide_False in Hc by lia.
      destruct (put_typed tys args 0 (replicate nl SM_NONE) i c Hargs) as [Hs [Hv|Hv]];
        [rewrite length_replicate; lia|done|lia| |]; (split; [done|]); [by left|by right; left].
    - rewrite !decide_True in Hc by lia. injection Hc as <-. split; [done|]. by right; right. }
  split; simpl.
  - split.
    + intros i c Hi Hc Hone. destruct (Hloc i c Hi Hc) as [_ [(v & Hv & [(Hd & _)|(_ & Hok & Hcat)])|[->| ->]]]; [|by exists v|done|done].
      exfalso. unfold isLongOrDouble in Hd. apply orb_true_iff in Hd as [Hd|Hd]; apply Z.eqb_eq in Hd; subst c; discriminate Hone.
    + intros i c Hi Hc Hlong _. destruct (Hloc i c) as [_ [(v & Hv & [(Hd & Hok & Hcat)|(Hd & _)])|[->| ->]]]; [lia|done|by exists v|congruence|done|done].
  - constructor.
  - unfold depth, cells_of_stack. simpl. lia.
  - apply Forall_lookup_2. intros i c Hc. apply (Hloc i c); [|done]. apply lookup_lt_Some in Hc. lia.
  - done.
Qed.
End initial.

(** ** Accepted methods *)

(** The methods the theorems are about: static ones without handlers, of at most 32 K
    bytes, made of instructions of the machine. *)
Definition modelled_method (vm : VM) (mi : Method_Info) : bool :=
  method_is_static mi && negb (m_is_constructor vm mi) && bool_decide (bc_exception_handlers (method mi) = []) &&
  (0 <? m_code_length mi) && (m_code_length mi <=? 2 ^ 15) &&
  forallb (fun b => (0 <=? b) && (b <? 256)) (byte_code (method mi)) && modelled_code mi (length (byte_code (method mi))) 0.

(** No map of the attribute is outside the code; the code does not check this. *)
Definition maps_inside (mi : Method_Info) (c : ctx) : Prop :=
  forall pc map, props c !! pc = Some map -> pc < m_code_length mi.

Lemma returned_top op t st v : returned op t st = Some (Some v) -> exists st', st = v :: st'.
Proof. unfold returned. intros H. repeat (case_match; simplify_eq; try (by eexists)). Qed.

Section accepted.
Context (vm : VM) (mi : Method_Info) (p p' : pool) (c : ctx) (rt : SmConstant) (tys : list SmConstant).
Context (Hv : verify_method vm mi (init_ctx vm mi p) = VOk tt c) (Hm : modelled_method vm mi = true) (Hin : maps_inside mi c).
Context (Hsig : signature (method_descriptor mi) p = Some (Some (rt, tys), p')) (Hrt : returns_as (return_java_type (method mi)) rt).

Lemma modelled_parts : method_is_static mi = true /\ m_is_constructor vm mi = false /\ bc_exception_handlers (method mi) = [] /\
  0 < m_code_length mi <= 2 ^ 15 /\ Forall (is_u 8) (byte_code (method mi)) /\ modelled_code mi (length (byte_code (method mi))) 0 = true.
Proof.
  pose proof Hm as H. unfold modelled_method in H. repeat rewrite andb_true_iff in H. destruct H as [[[[[[H1 H2%negb_true_iff] H3] H4] H5] H6] H7].
  apply bool_decide_eq_true in H3. repeat (split; [done || lia|]). split; [|done].
  apply Forall_forall. intros b Hb. rewrite forallb_forall in H6. specialize (H6 b Hb). unfold is_u. change (2 ^ 8) with 256. lia.
Qed.

Lemma accepted_exec resolve catches exn_ref sd fuel args : Forall2 has_type tys args ->
  safe_result rt (java_exec resolve catches exn_ref sd fuel (method mi) (JState 0 (layout 0 args) [])).
Proof.
  intros Hargs. destruct modelled_parts as (Hst & Hctor & Hnoh & Hlen & Hbytes & Hcode).
  pose proof Hv as H. unfold verify_method in H. rewrite (proj2 (Z.eqb_neq _ _)) in H by lia.
  assert (Hinv : forall A B (m : V A) (k : A -> V B) c b c', (m ≫= k) c = VOk b c' -> exists a c1, m c = VOk a c1 /\ k a c1 = VOk b c').
  { intros A B m k d b d' E. unfold mbind, V_bind in E. destruct (m d) as [a d1| |]; [by exists a, d1|done..]. }
  apply Hinv in H as ([] & c1 & H1 & H). pose proof (vwp_elim _ _ _ _ _ (initial_typed vm mi Hst Hctor p rt tys p' args Hsig Hargs) H1) as (Hty & Hp1 & Hr1).
  apply Hinv in H as ([] & c2 & H2 & H). destruct Hty as [Ht1 Ht2 Ht3 Ht4 Ht5].
  pose proof (vwp_elim _ _ _ _ _ (load_ok vm mi c1 Hctor Ht4 Ht5 Hp1) H2) as ([Hw2 Hr2] & Hmaps).
  apply Hinv in H as ([] & c3 & H3 & H). rewrite Hnoh in H3. injection H3 as <-.
  apply Hinv in H as (h & c3 & H3 & H). injection H3 as <- <-.
  apply Hinv in H as ([] & c3 & H3 & H). injection H3 as <-.
  apply Hinv in H as (aj & c4 & H4 & H). unfold check in H. destruct aj; [|done]. injection H as <-.
  unfold verify_code in H4. destruct (verify_loop _ _ _ _ _ _) as [res|] eqn:Hpass; [|done]. simpl in H4. subst res.
  destruct (pass_accepted vm mi (props c2) rt Hnoh (proj2 Hlen) _ _ _ _ _ _ Hpass Hcode ltac:(lia) eq_refl ltac:(simpl; congruence))
    as (Hpc & K & HK & HKm & HKa).
  destruct (HKa eq_refl) as [_ (ck & Hk & He)]. cbn [workmap] in He.
  assert (Hok : maps_ok mi (props c2)).
  { split; intros pc map Hmap; destruct (Hmaps pc map Hmap) as (? & ? & ? & ?); try done. split; [done|]. apply (Hin pc map). by rewrite Hpc. }
  apply (exec_safe vm mi (props c2) rt Hnoh (proj2 Hlen) Hbytes Hok Hrt resolve catches exn_ref sd K HK HKm fuel (JState 0 (layout 0 args) []) ck Hk).
  eapply typed_enters; [done|exact He|]. by rewrite Hw2.
Qed.
End accepted.

(** C2: Type safety of what the Java 6 verifier accepts, for a static method of a class,
    not a constructor, of at most 32 K bytes and without exception handlers, made of
    constants, loads, stores, stack, arithmetic, conversion and comparison instructions,
    conditional branches, goto and returns (no ldc, calls, fields, arrays, switches or
    goto_w, and areturn only if it returns a reference). If the verifier accepts it and
    none of its stack maps is outside the code and the return type the loader gives is the
    one of its descriptor, no execution from arguments of the types of the descriptor gets
    stuck: none under- or overflows the stack, reads a variable that has no value of the
    type an instruction takes, or leaves the code. The execution returns a value of the
    return type, throws, or is still running after the given number of steps. VerLimits
    has methods outside these conditions that the verifier accepts and that do get stuck. *)
Theorem verify_method_safe vm mi p p' c rt tys resolve catches exn_ref sd fuel args :
  verify_method vm mi (init_ctx vm mi p) = VOk tt c -> modelled_method vm mi = true -> maps_inside mi c ->
  signature (method_descriptor mi) p = Some (Some (rt, tys), p') -> returns_as (return_java_type (method mi)) rt ->
  Forall2 has_type tys args ->
  match java_exec resolve catches exn_ref sd fuel (method mi) (JState 0 (layout 0 args) []) with
  | JUndef => False
  | JReturn (Some v) => rt <> SM_BOGUS /\ has_type rt v
  | JReturn None => rt = SM_BOGUS
  | JThrown _ | JFuel => True
  end.
Proof.
  intros Hv Hm Hin Hsig Hrt Hargs.
  pose proof (accepted_exec vm mi p p' c rt tys Hv Hm Hin Hsig Hrt resolve catches exn_ref sd fuel args Hargs) as H.
  unfold safe_result in H. by destruct (java_exec _ _ _ _ _ _ _).
Qed.

(** C3: The interpreter on verified methods, for a static method of a class, not a
    constructor, of at most 32 K bytes and without exception handlers, made of constants,
    loads, stores, stack, arithmetic, conversion and comparison instructions, conditional
    branches, goto and returns (no ldc, calls, fields, arrays, switches or goto_w, and
    areturn only if it returns a reference). If the Java 6 verifier accepts it and none of
    its stack maps is outside the code, then from a frame of the right sizes with
    arguments of the types of its descriptor no access of the interpreter to the stack, to
    the locals or to the bytecode fails, however many steps it runs: it has ended with an
    exception, or returned with a value of the return type on the stack, or is still
    running when the steps are used up. Build with [_EM64T_]; the return type the loader
    gives is the one of the descriptor, the methods that calls resolve to are arrays of
    bytes, and allocated frames have the size asked for. *)
Theorem verified_interpreter vm mi p p' c rt tys resolve catches exn_ref alloc sd fuel f args :
  (forall id m, resolve id = inl m -> method_ok m) -> (forall n, length (alloc n) = n) -> (forall e, is_u 32 (exn_ref e)) ->
  verify_method vm mi (init_ctx vm mi p) = VOk tt c -> modelled_method vm mi = true -> maps_inside mi c ->
  signature (method_descriptor mi) p = Some (Some (rt, tys), p') -> returns_as (return_java_type (method mi)) rt ->
  Forall2 has_type tys args -> frame_rep f (JState 0 (layout 0 args) []) -> sized (max_locals (method mi)) (max_stack (method mi)) f ->
  match interpreter true resolve catches exn_ref alloc sd fuel (method mi) f with
  | RStuck => False
  | RFuel => True
  | RDone f' => exn f' <> None \/ rt = SM_BOGUS \/ exists v st, rep f' (v :: st) /\ has_type rt v
  end.
Proof.
  intros Hres Halloc Href Hv Hm Hin Hsig Hrt Hargs Hf Hsz.
  pose proof (accepted_exec vm mi p p' c rt tys Hv Hm Hin Hsig Hrt resolve catches exn_ref sd fuel args Hargs) as H.
  destruct (modelled_parts vm mi Hm) as (_ & _ & _ & Hlen & Hbytes & _).
  assert (Hok : method_ok (method mi)) by (split; [done|unfold m_code_length in Hlen; lia]).
  pose proof (exec_agrees resolve catches exn_ref alloc sd Hres Halloc Href fuel (method mi) f _ Hok Hf Hsz) as Ha.
  unfold agrees, safe_result in *. destruct (java_exec _ _ _ _ _ _ _) as [v|e| |]; [|destruct Ha as (f' & -> & Hx); left; congruence|by rewrite Ha|done].
  destruct Ha as (f' & op & st & -> & _ & Hrep & Hret). destruct v as [v|]; [|by right; left]. right; right.
  destruct (returned_top _ _ _ _ Hret) as [st' ->]. exists v, st'. split; [done|apply H].
Qed.

(** ** An accepted method: [int sum = 0; while (n != 0) { sum += n; n--; } return sum;] *)

(** The class [A] that extends [Object]. *)
Definition vm_A : VM :=
  MkVM 1 50 [CP_Unknown; CP_Utf8 "A"; CP_Class 1] (fun c => if c =? 1 then "A"%string else "java/lang/Object"%string)
    (fun _ => false) (fun c => if c =? 1 then Some 2 else None) (fun _ => None) (fun _ _ => None) (fun _ _ => true)
    (fun _ => None) (fun _ => None) 5.
Definition static_method (code : list Z) (locals stack : nat) (desc : string) (ty : Java_Type) (table : option (list Z)) : Method_Info :=
  MkInfo (MkMethod code [] stack locals 0 ty) "m" desc true table.
Definition method_sum : Method_Info :=
  static_method [3; 0x3c; 0x1a; 0x99; 0; 13; 0x1b; 0x1a; 0x60; 0x3c; 0x84; 0; 0xff; 0xa7; 0xff; 0xf5; 0x1b; 0xac] 2 2 "(I)I" JAVA_TYPE_INT
    (Some [0; 0; 0; 0; 0; 7; 0; 2; 252; 0; 2; 1; 13]).
Definition final_ctx (mi : Method_Info) : ctx :=
  match verify_method vm_A mi (init_ctx vm_A mi new_pool) with VOk _ c | VErr _ c => c | VUndef => init_ctx vm_A mi new_pool end.
Definition inside (mi : Method_Info) (c : ctx) : bool := bool_decide (map_Forall (fun pc _ => pc < m_code_length mi) (props c)).
Lemma inside_ok mi c : inside mi c = true -> maps_inside mi c.
Proof. intros H%bool_decide_eq_true pc map Hm. by apply (H pc map). Qed.

Lemma verify_method_safe_witness :
  java_exec (fun _ => inr "none"%string) (fun _ _ => None) (fun _ => 0) false 60 (method method_sum) (JState 0 (layout 0 [VInt 4]) []) = JReturn (Some (VInt 10)) /\
  match java_exec (fun _ => inr "none"%string) (fun _ _ => None) (fun _ => 0) false 60 (method method_sum) (JState 0 (layout 0 [VInt 4]) []) with
  | JUndef => False
  | JReturn (Some v) => SM_INTEGER <> SM_BOGUS /\ has_type SM_INTEGER v
  | JReturn None => SM_INTEGER = SM_BOGUS
  | JThrown _ | JFuel => True
  end.
Proof.
  split; [vm_compute; reflexivity|].
  apply (verify_method_safe vm_A method_sum new_pool new_pool (final_ctx method_sum) SM_INTEGER [SM_INTEGER]).
  - vm_compute. reflexivity.
  - vm_compute. reflexivity.
  - apply inside_ok. vm_compute. reflexivity.
  - vm_compute. reflexivity.
  - reflexivity.
  - repeat constructor.
Defined.

Definition frame_sum : StackFrame := MkFrame 0 (Stack_init [1; 2]) (MkLocals [4; 0] [FLAG_NONE; FLAG_NONE]) None.
Lemma verified_interpreter_witness :
  match interpreter true (fun _ => inr "none"%string) (fun _ _ => None) (fun _ => 0) (fun n => replicate n 9) false 60 (method method_sum) frame_sum with
  | RStuck => False
  | RFuel => True
  | RDone f' => exn f' <> None \/ SM_INTEGER = SM_BOGUS \/ exists v st, rep f' (v :: st) /\ has_type SM_INTEGER v
  end.
Proof.
  apply (verified_interpreter vm_A method_sum new_pool new_pool (final_ctx method_sum) SM_INTEGER [SM_INTEGER]) with (args := [VInt 4]).
  - intros id m [=].
  - intros n. apply length_replicate.
  - intros e. split; [discriminate|reflexivity].
  - vm_compute. reflexivity.
  - vm_compute. reflexivity.
  - apply inside_ok. vm_compute. reflexivity.
  - vm_compute. reflexivity.
  - reflexivity.
  - repeat constructor.
  - split; [split; [constructor|by exists [1; 2]]|]. split; [reflexivity|]. split; [|reflexivity].
    split; [reflexivity|]. intros n v Hn. simpl in Hn. destruct (Z.eqb_spec n 0) as [->|]; [|discriminate Hn]. injection Hn as <-.
    split; [split; [discriminate|reflexivity]|split; reflexivity].
  - split; reflexivity.
Defined.
