(* ===== verification/VerLimits.v ===== *)
(** * Where the Java 6 verifier ends, and what it lets pass

    The pass over a method ends, for every method without a [tableswitch] whose bounds
    are too far apart; with one it need not.  Each hypothesis of the safety theorems of
    [Verify6Ok.v] stands for a check the code does not make: here are methods it
    accepts that the machine does not run. *)
From stdpp Require Import gmap strings.
From S2P Require Import Prelude Frame FrameOk StackOk BranchOk Interp JavaMachine VerTypes VerTypesOk VerContext VerStepOk Verify6 Verify6Ok.

(** ** The pass ends *)

Section ends.
Context (vm : VM) (mi : Method_Info).
Abbreviation code := (byte_code (method mi)).

(** The bounds of a [tableswitch] are less than [2^31] apart. *)
Definition sane_switches : Prop := forall instr lo hi c c1 c2,
  byte code instr = Some 0xaa ->
  vf_read_uint32 mi (Z.land instr (Z.lnot 3) + 8) c = VOk lo c1 -> vf_read_uint32 mi (Z.land instr (Z.lnot 3) + 12) c1 = VOk hi c2 ->
  sx 32 hi - sx 32 lo < 2 ^ 31.

Context (Hbytes : Forall (is_u 8) code) (Hcode : m_code_length mi < 2 ^ 16) (Hsane : sane_switches).

Lemma parse_len op : is_u 8 op -> op <> 0xba -> 1 <= (parseTable op).1 <= 16.
Proof.
  intros Ho Hne. unfold is_u in Ho. change (2 ^ 8) with 256 in Ho.
  assert (Hall : forallb (fun op => (op =? 0xba) || (1 <=? (parseTable op).1) && ((parseTable op).1 <=? 16)) (seqZ 0 256) = true) by (vm_compute; reflexivity).
  rewrite forallb_forall in Hall. specialize (Hall op ltac:(apply list_elem_of_In, elem_of_seqZ; lia)). simpl in Hall. lia.
Qed.

Lemma read_in a b c c' : vf_read_uint32 mi a c = VOk b c' -> c' = c /\ 0 <= a /\ a + 3 < m_code_length mi.
Proof.
  unfold vf_read_uint32, m_byte, of_opt, mbind, V_bind. intros H.
  destruct (byte code a) eqn:E0; [|done]. destruct (byte code (a + 1)); [|done]. destruct (byte code (a + 2)); [|done].
  destruct (byte code (a + 3)) eqn:E3; [|done]. injection H as _ <-.
  apply byte_bound in E0, E3. unfold m_code_length. split; [done|lia].
Qed.

Lemma sorted_keys_next n next old c r c' : 0 <= next -> sorted_keys mi n next old c = VOk (Some r) c' ->
  r = next + 8 * Z.of_nat n /\ (n <> 0%nat -> r < m_code_length mi + 8).
Proof.
  revert next old c. induction n as [|n IH]; intros next old c Hn H; simpl in H; [injection H as <- _; lia|].
  unfold mbind, V_bind in H. destruct (vf_read_uint32 mi next c) as [v c1| |] eqn:E; [|done..]. apply read_in in E as (-> & _ & Hr).
  destruct (_ <=? old); [done|]. apply IH in H as [-> Hb]; [|lia]. split; [lia|]. intros _. destruct n; [lia|]. specialize (Hb ltac:(done)). lia.
Qed.

Lemma land_low instr : 0 <= instr -> instr - 3 <= Z.land instr (Z.lnot 3) <= instr.
Proof.
  intros Hi. rewrite <- Z.ldiff_land. change 3 with (Z.ones 2) at 2. change 3 with (Z.ones 2) at 2. rewrite Z.ldiff_ones_r, Z.shiftl_mul_pow2, Z.shiftr_div_pow2 by lia.
  pose proof (Z.div_mod instr (2 ^ 2)). pose proof (Z.mod_pos_bound instr (2 ^ 2)). change (2 ^ 2) with 4 in *. change (Z.ones 2) with 3. lia.
Qed.

(** Whatever the instruction, its length is positive and it ends inside the code. *)
Lemma instr_length_pos instr opcode c len c' : 0 <= instr -> byte code instr = Some opcode ->
  instr_length mi instr opcode c = VOk len c' -> 0 < len /\ instr + len <= m_code_length mi.
Proof.
  intros Hi Hb H. pose proof (byte_range _ _ _ Hbytes Hb) as Ho. unfold instr_length, check, mbind, V_bind in H.
  destruct (instr_is_valid_bytecode opcode) eqn:Hval; [|done]. destruct (instr_is_jsr opcode); [done|]. cbn [negb andb] in H. unfold mret, V_ret, error in H.
  assert (Hne : opcode <> 0xba) by (intros ->; done).
  pose proof (parse_len opcode Ho Hne) as Hp.
  destruct (Z.leb_spec (instr + (parseTable opcode).1) (m_code_length mi)) as [Hle|]; [|done].
  destruct (instr_is_compound opcode (parseTable opcode)) eqn:Hc; [|injection H as <- _; lia].
  destruct (instr_get_len_compound mi instr opcode c) as [len0 c1| |] eqn:E; [|done..].
  destruct (Z.leb_spec (ux 32 (instr + ux 32 len0)) (m_code_length mi)) as [Hu|]; [|done]. injection H as <- _.
  assert (Hlen : 0 < ux 32 len0 < 2 ^ 31 + 2 ^ 17); [|rewrite ux_id in Hu by (unfold is_u; lia); lia].
  assert (Hpos : forall z, 0 < z < 2 ^ 31 + 2 ^ 17 -> 0 < ux 32 z < 2 ^ 31 + 2 ^ 17) by (intros z Hz; rewrite ux_id by (unfold is_u; lia); done).
  unfold instr_get_len_compound, BIG_LENGTH in E. pose proof (land_low instr Hi) as Hlow.
  destruct (Z.eqb_spec opcode 196) as [->|Hnw].
  { unfold m_byte, of_opt, mbind, V_bind in E. destruct (byte code (instr + 1)) as [op|] eqn:Hb1; [|done]. injection E as <- _. apply Hpos.
    destruct (has_flag (parseTable op) PI_CANWIDE) eqn:Hf; [|lia]. pose proof (byte_range _ _ _ Hbytes Hb1) as Ho1.
    assert (op <> 0xba) by (intros ->; done). pose proof (parse_len op Ho1 ltac:(done)). lia. }
  unfold mbind, V_bind in E. destruct (Z.eqb_spec opcode 170) as [->|Hnt].
  { destruct (vf_read_uint32 mi (_ + 4 + 4) c) as [lo d1| |] eqn:E1; [|done..]. destruct (vf_read_uint32 mi _ d1) as [hi d2| |] eqn:E2; [|done..].
    rewrite <- Z.add_assoc in E1, E2. pose proof (Hsane instr lo hi c d1 d2 Hb E1 E2) as Hs. injection E as <- _.
    destruct (Z.ltb_spec (sx 32 hi) (sx 32 lo)) as [|Hlo]; cbn [orb]; [apply Hpos; lia|].
    rewrite (sx_id 32 (sx 32 hi - _)) by (unfold is_s; lia). destruct (Z.ltb_spec 0x20000000 (sx 32 hi - sx 32 lo)); [apply Hpos; lia|].
    set (d := sx 32 hi - sx 32 lo) in *. rewrite (sx_id 32 (d + 1)) by (unfold is_s; lia).
    destruct (decide ((d + 1) * 4 < 2 ^ 31)).
    - rewrite (sx_id 32 ((d + 1) * 4)) by (unfold is_s; lia). destruct (decide (Z.land instr (Z.lnot 3) + 4 + 12 + (d + 1) * 4 - instr < 2 ^ 31)).
      + rewrite sx_id by (unfold is_s; lia). apply Hpos. lia.
      + rewrite ux_sx. apply Hpos. lia.
    - rewrite ux_sx. assert (He : (Z.land instr (Z.lnot 3) + 4 + 12 + sx 32 ((d + 1) * 4) - instr) ≡[32] (Z.land instr (Z.lnot 3) + 4 + 12 + (d + 1) * 4 - instr)).
      { destruct (eqm_sx 32 ((d + 1) * 4)) as [k Hk]. exists k. lia. }
      apply eqm_ux_iff in He. rewrite He. apply Hpos. lia. }
  destruct (opcode =? 171); [|done]. unfold vassert, mret, V_ret in E.
  destruct (m_code_length mi <? Z.land instr (Z.lnot 3) + 4 + 8); [injection E as <- _; apply Hpos; lia|].
  destruct (vf_read_uint32 mi (Z.land instr (Z.lnot 3) + 4 + 4) c) as [npairs d1| |] eqn:E1; [|done..].
  destruct (0x20000000 <? npairs); [injection E as <- _; apply Hpos; lia|].
  assert (Hkeys : forall n m d r d', sorted_keys mi n (Z.land instr (Z.lnot 3) + 4 + 16) m d = VOk (Some r) d' ->
    0 < r - instr < 2 ^ 31 + 2 ^ 17).
  { intros n m d r d' Hk. apply sorted_keys_next in Hk as [-> Hb']; [|lia]. destruct n; [lia|]. specialize (Hb' ltac:(done)). lia. }
  destruct (npairs =? 0); [injection E as <- _; apply Hpos; lia|].
  destruct (vf_read_uint32 mi _ d1) as [old d2| |]; [|done..].
  destruct (sorted_keys mi _ _ _ d2) as [[r|] d3| |] eqn:E3; [| |done..]; injection E as <- _; apply Hpos; [by eapply Hkeys|lia].
Qed.

Lemma verify_instruction_next instr aj c next aj' c' : 0 <= instr -> verify_instruction vm mi instr aj c = VOk (next, aj') c' ->
  instr < next <= m_code_length mi.
Proof.
  intros Hi H. unfold verify_instruction, mbind, V_bind, m_byte, of_opt in H. destruct (byte code instr) as [opcode|] eqn:Hb; [|done]. unfold mret, V_ret in H.
  destruct (instr_length mi instr opcode c) as [len c1| |] eqn:E; [|done..]. apply (instr_length_pos _ _ _ _ _ Hi Hb) in E as [Hl He].
  repeat match type of H with match ?m ?d with _ => _ end = _ => destruct (m d); [|done..] end.
  injection H as <- _ _. rewrite ux_id by (unfold is_u; lia). lia.
Qed.

(** C40: The pass over a method ends: in a method of bytes, of less than 64 K, whose
    tableswitches have bounds less than 2^31 apart, the pass from an instruction on has a
    result after at most as many instructions as there are bytes left, and keeps it with
    more fuel. With bounds further apart it need not have one
    ([VerLimits.verify_method_diverges]). *)
Theorem verify_loop_fuel fuel k instr aj c : 0 <= instr -> m_code_length mi - instr <= Z.of_nat fuel ->
  exists r, verify_loop vm mi fuel instr aj c = Some r /\ verify_loop vm mi (fuel + k) instr aj c = Some r.
Proof.
  revert instr aj c. induction fuel as [|fuel IH]; intros instr aj c Hi Hf.
  - assert (Hlt : (instr <? m_code_length mi) = false) by (apply Z.ltb_ge; lia). exists (VOk aj c). destruct k; simpl; by rewrite Hlt.
  - simpl. destruct (negb _) eqn:Hlt; [by eexists|]. apply negb_false_iff, Z.ltb_lt in Hlt.
    destruct (verify_instruction vm mi instr aj c) as [[next aj'] c'|r c'|] eqn:E; [|by eexists..].
    apply verify_instruction_next in E as Hn; [|done]. cbn [fst snd]. apply IH; lia.
Qed.
End ends.

(** The code of the example has no switch. *)
Lemma verify_loop_fuel_witness : let c := init_ctx vm_A method_sum new_pool in
  exists r, verify_loop vm_A method_sum 18 0 false c = Some r /\ verify_loop vm_A method_sum (18 + 5) 0 false c = Some r.
Proof.
  apply verify_loop_fuel.
  - by apply (bool_decide_unpack _); vm_compute.
  - reflexivity.
  - intros instr lo hi c c1 c2 Hb. exfalso. unfold byte in Hb. destruct (0 <=? instr); [|discriminate Hb]. revert Hb. generalize (Z.to_nat instr). intros n Hb.
    do 18 (destruct n as [|n]; [discriminate Hb|]). discriminate Hb.
  - done.
  - vm_compute. discriminate.
Defined.

(** A [tableswitch] from [-2^31] to [2^31-5] has length 0. *)
Definition method_loop : Method_Info :=
  static_method [3; 0; 0; 0; 0xaa; 0; 0; 0; 0; 0; 0; 0; 0x80; 0; 0; 0; 0x7f; 0xff; 0xff; 0xfb] 0 1 "()V" JAVA_TYPE_VOID
    (Some [0; 0; 0; 0; 0; 4; 0; 1; 68; 1]).

Definition before_pass (vm : VM) (mi : Method_Info) (p : pool) : ctx :=
  match (_ ← create_method_initial_workmap vm mi; load_stackmaptable vm mi) (init_ctx vm mi p) with VOk _ c => c | _ => init_ctx vm mi p end.

(** One instruction of the pass. *)
Lemma verify_loop_step vm mi n instr aj c next aj' c' : instr < m_code_length mi -> verify_instruction vm mi instr aj c = VOk (next, aj') c' ->
  verify_loop vm mi (S n) instr aj c = verify_loop vm mi n next aj' c'.
Proof. intros Hi H. cbn [verify_loop]. rewrite (proj2 (Z.ltb_lt _ _) Hi), H. done. Qed.
Lemma verify_loop_more vm mi n k instr aj c : verify_loop vm mi (n + k) instr aj c = None -> verify_loop vm mi n instr aj c = None.
Proof.
  revert instr aj c. induction n as [|n IH]; intros instr aj c H; cbn [Nat.add verify_loop] in *.
  - destruct k; cbn [verify_loop] in H; destruct (negb _); done.
  - destruct (negb _); [done|]. destruct (verify_instruction vm mi instr aj c) as [r c'|r c'|]; [by apply IH|done..].
Qed.

(** the verifier need not end.  The length of a [tableswitch] is computed in 32 bits
    after a test, [hibyte - lowbyte > 0x20000000], that itself overflows; with bounds far
    apart the instruction has length 0.  The pass then takes any number of steps on a
    method of 20 bytes and has no result. *)
Theorem verify_method_diverges n : verify_loop vm_A method_loop n 0 false (before_pass vm_A method_loop new_pool) = None.
Proof.
  assert (Hat4 : exists c1 c2 c3 c4 c, verify_instruction vm_A method_loop 0 false (before_pass vm_A method_loop new_pool) = VOk (1, false) c1 /\
    verify_instruction vm_A method_loop 1 false c1 = VOk (2, false) c2 /\ verify_instruction vm_A method_loop 2 false c2 = VOk (3, false) c3 /\
    verify_instruction vm_A method_loop 3 false c3 = VOk (4, false) c4 /\
    verify_instruction vm_A method_loop 4 false c4 = VOk (4, true) c /\ verify_instruction vm_A method_loop 4 true c = VOk (4, true) c).
  { do 5 eexists. do 5 (split; [vm_compute; reflexivity|]). vm_compute. reflexivity. }
  destruct Hat4 as (c1 & c2 & c3 & c4 & c & H0 & H1 & H2 & H3 & H4 & Hfix).
  assert (Hlen : m_code_length method_loop = 20) by done.
  assert (Hloop : forall k, verify_loop vm_A method_loop k 4 true c = None).
  { induction k as [|k IH]; [done|]. by rewrite (verify_loop_step vm_A method_loop _ 4 _ _ _ _ _ ltac:(lia) Hfix). }
  apply (verify_loop_more _ _ n 5). rewrite Nat.add_comm. cbn [Nat.add].
  rewrite (verify_loop_step vm_A method_loop _ 0 _ _ _ _ _ ltac:(lia) H0), (verify_loop_step vm_A method_loop _ 1 _ _ _ _ _ ltac:(lia) H1),
    (verify_loop_step vm_A method_loop _ 2 _ _ _ _ _ ltac:(lia) H2), (verify_loop_step vm_A method_loop _ 3 _ _ _ _ _ ltac:(lia) H3),
    (verify_loop_step vm_A method_loop _ 4 _ _ _ _ _ ltac:(lia) H4). apply Hloop.
Qed.

(** ** What is not checked *)

Definition accepts (vm : VM) (mi : Method_Info) : Prop := exists c, verify_method vm mi (init_ctx vm mi new_pool) = VOk tt c.
(** Some execution from arguments of the types of the descriptor gets stuck. *)
Definition gets_stuck (vm : VM) (mi : Method_Info) : Prop := exists rt tys p args fuel,
  signature (method_descriptor mi) new_pool = Some (Some (rt, tys), p) /\ Forall2 has_type tys args /\
  java_exec (fun _ => inr "none"%string) (fun _ _ => Some true) (fun _ => 0) false fuel (method mi) (JState 0 (layout 0 args) []) = JUndef.
Ltac stuck n args := split; [eexists; vm_compute; reflexivity|
  do 3 eexists; exists args, n; split; [vm_compute; reflexivity|split; [repeat constructor|vm_compute; reflexivity]]].

(** A [tableswitch] to an instruction whose map has an [int] on a stack that is empty. *)
Definition method_switch : Method_Info :=
  static_method [0x1a; 0xaa; 0; 0; 0; 0; 0; 19; 0; 0; 0; 0; 0; 0; 0; 0; 0; 0; 0; 19; 0xac] 1 1 "(I)I" JAVA_TYPE_INT
    (Some [0; 0; 0; 0; 0; 4; 0; 1; 84; 1]).
(** A [goto] to a map outside the code. *)
Definition method_outside : Method_Info := static_method [0xa7; 0; 100] 0 0 "()I" JAVA_TYPE_INT (Some [0; 0; 0; 0; 0; 5; 0; 1; 251; 0; 100]).
(** A [goto_w] by [2^16], which the verifier takes for one to itself. *)
Definition method_goto_w : Method_Info := static_method [0xc8; 0; 1; 0; 0] 0 0 "()I" JAVA_TYPE_INT (Some [0; 0; 0; 0; 0; 3; 0; 1; 0]).

(** the targets of jumps are not checked in full.  The verifier drops the results of
    its checks of the targets of a switch, takes maps outside the code, and truncates
    targets to 16 bits: it accepts these methods, and the machine gets stuck in them. *)
Theorem unchecked_targets : (accepts vm_A method_switch /\ gets_stuck vm_A method_switch) /\
  (accepts vm_A method_outside /\ gets_stuck vm_A method_outside) /\ (accepts vm_A method_goto_w /\ gets_stuck vm_A method_goto_w).
Proof. split; [stuck 5%nat [VInt 0]|split; [stuck 5%nat (@nil jval)|stuck 5%nat (@nil jval)]]. Qed.

(** An [int] comes into a handler as a [float]: at a map in the range of the handler the
    verifier only compares the locals the instructions after it change. *)
Definition vm_T : VM :=
  MkVM 1 50 [CP_Unknown; CP_Utf8 "A"; CP_Class 1; CP_Utf8 "java/lang/Throwable"; CP_Class 3] (class_get_name vm_A) (class_is_interface vm_A)
    (class_get_super_class vm_A) (fun _ => None) (fun _ _ => None) (fun _ _ => true) (fun _ => None) (fun _ => None) 5.
Definition method_handler : Method_Info :=
  MkInfo (MkMethod [0x0b; 0x43; 3; 0x99; 0; 8; 3; 0x3b; 0xa7; 0; 10; 3; 3; 0x6c; 0xac; 0x57; 0x1a; 0xac; 3; 0xac] [MkHandler 7 14 15 0] 2 2 0 JAVA_TYPE_INT)
    "m" "()I" true (Some [0; 0; 0; 0; 0; 28; 0; 3; 255; 0; 11; 0; 1; 2; 0; 0; 255; 0; 3; 0; 1; 1; 0; 1; 7; 0; 4; 255; 0; 2; 0; 0; 0; 0]).

(** the locals at a handler are not checked in full.  The Java 6 verifier fills its
    map from the attribute without noting that all locals may have changed, which the
    Java 5 verifier does: it accepts a method with a handler that reads an [int] where
    a [float] can be, and the machine gets stuck in it. *)
Theorem unchecked_handler : accepts vm_T method_handler /\ gets_stuck vm_T method_handler.
Proof. stuck 30%nat (@nil jval). Qed.

(** [areturn] is accepted in a method that returns an [int]. *)
Definition method_areturn : Method_Info := static_method [0x1a; 0xb0] 1 1 "(I)I" JAVA_TYPE_INT None.
Lemma areturn_of_int : accepts vm_A method_areturn /\ gets_stuck vm_A method_areturn.
Proof. stuck 5%nat [VInt 0]. Qed.

(** ** Classes *)

(** A method that Java 6 rejects and Java 5 accepts leaves [VF_OK] for the next one: if
    that has no [StackMapTable], neither verifier looks at it. *)
Definition method_bad : Method_Info := static_method [0xac] 0 1 "()I" JAVA_TYPE_INT None.
Definition method_branch : Method_Info := static_method [3; 0x99; 0; 4; 0; 0; 3; 0xac] 0 1 "()I" JAVA_TYPE_INT None.

(** If the Java 6 verifier rejects the first method of a class with another error than
    one in its stack map attribute, and the Java 5 verifier accepts it, then the class is
    accepted whatever its other methods are, if none of them has a StackMapTable: neither
    verifier looks at them. *)
Theorem skipped_methods vm verify5 mi ms p0 p1 p2 r : verify6 vm mi p0 = Some (r, p1) -> r <> VF_OK -> r <> VF_ErrorStackmap ->
  verify5 mi p1 = Some (VF_OK, p2) -> Forall (fun mi => method_stackmaptable mi = None) ms ->
  verify6_methods vm verify5 (mi :: ms) false VF_OK p0 = Some (VF_OK, p2).
Proof.
  intros H6 Hr Hs H5 Hms. assert (Hskip : verify6_methods vm verify5 ms true VF_OK p2 = Some (VF_OK, p2)).
  { induction Hms as [|m ms Hm Hms IH]; [done|]. simpl. rewrite Hm. simpl. exact IH. }
  simpl. rewrite H6. cbn [mbind option_bind]. rewrite !bool_decide_eq_false_2 by done. cbn [andb orb negb].
  rewrite H5. cbn [mbind option_bind]. exact Hskip.
Qed.

Lemma skipped_methods_witness : gets_stuck vm_A method_bad /\
  exists p, verify6_methods vm_A (fun _ p => Some (VF_OK, p)) [method_branch; method_bad] false VF_OK new_pool = Some (VF_OK, p).
Proof.
  split; [do 3 eexists; exists [], 5%nat; split; [vm_compute; reflexivity|split; [constructor|vm_compute; reflexivity]]|].
  eexists. eapply skipped_methods.
  - vm_compute. reflexivity.
  - discriminate.
  - discriminate.
  - reflexivity.
  - repeat constructor.
Defined.

(** The result of [propagate_bogus_to_handlers] is dropped as well: an object whose
    constructor throws comes into a handler as an initialised one.
    [A x = uninit; try { x.<init>(); } catch (Throwable t) { return x; }] *)
Definition vm_C : VM :=
  MkVM 1 50 [CP_Unknown; CP_Utf8 "A"; CP_Class 1; CP_Utf8 "java/lang/Throwable"; CP_Class 3; CP_Utf8 "<init>"; CP_Utf8 "()V";
      CP_NameAndType 5 6; CP_Methodref 2 7] (class_get_name vm_A) (class_is_interface vm_A)
    (class_get_super_class vm_A) (fun _ => None) (fun _ _ => None) (fun _ _ => true) (fun _ => None) (fun _ => None) 5.
Definition method_construct : Method_Info :=
  MkInfo (MkMethod [0xbb; 0; 2; 0x59; 0x4b; 0xb7; 0; 8; 0x2a; 0xb0; 0x57; 0x2a; 0xb0] [MkHandler 5 8 10 0] 2 1 0 JAVA_TYPE_CLASS)
    "m" "()LA;" true (Some [0; 0; 0; 0; 0; 15; 0; 1; 255; 0; 10; 0; 1; 7; 0; 2; 0; 1; 7; 0; 4]).
Lemma uninitialised_in_handler : accepts vm_C method_construct.
Proof. eexists. vm_compute. reflexivity. Qed.
