(* ===== verification/Descriptors.v ===== *)
(** * Descriptors: the grammar the loader accepts, and how the verifier reads them.

    A grammar with a printer, a reference parser for it, the theorem that the checks of
    [ClassNames] accept exactly the grammar, and the theorem that the functions of the
    type pool ([VerTypes]) read the types of an accepted descriptor one by one. *)
From Stdlib Require Import Ascii.
From stdpp Require Import strings.
From S2P Require Import Prelude ByteReader VerTypes ClassNames ClassNamesOk Verify6Ok.

#[local] Arguments String.append !_ _ / : simpl nomatch.

(** ** The grammar *)

Inductive elem := Prim (c : ascii) | Void | Object (name : string).
Record jtype := JType { dims : nat; elem_type : elem }.

Definition prims : list ascii := ["B"; "C"; "D"; "F"; "I"; "J"; "S"; "Z"]%char.
(** The characters of the name of a class. *)
Definition class_char (c : ascii) : bool := negb (existsb (is_char c) ["."; ";"; "["]%char).

Definition print_elem (e : elem) : string :=
  match e with
  | Prim c => String c EmptyString
  | Void => String "V" EmptyString
  | Object n => String "L" (String.append n (String ";" EmptyString))
  end.
Fixpoint brackets (n : nat) (s : string) : string :=
  match n with O => s | S n => String "[" (brackets n s) end.
Definition print_type (t : jtype) : string := brackets (dims t) (print_elem (elem_type t)).

Definition wf_elem (void : bool) (e : elem) : bool :=
  match e with
  | Prim c => existsb (is_char c) prims
  | Void => void
  | Object n => forallb class_char (la n)
  end.
(** An array of nothing is a type where [void] is one. *)
Definition wf_type (void : bool) (t : jtype) : bool := (dims t <=? 255)%nat && wf_elem void (elem_type t).

Fixpoint print_types (ts : list jtype) (k : string) : string :=
  match ts with [] => k | t :: ts => String.append (print_type t) (print_types ts k) end.
Definition print_method (args : list jtype) (ret : jtype) : string :=
  String "(" (print_types args (String ")" (print_type ret))).

(** ** The reference parser *)

(** What is before the first semicolon and what is after it. *)
Fixpoint split_semi (s : string) : option (string * string) :=
  match s with
  | EmptyString => None
  | String c s => if is_char c ";"%char then Some (EmptyString, s) else '(n, k) ← split_semi s; Some (String c n, k)
  end.
Definition read_elem (void : bool) (s : string) : option (elem * string) :=
  match s with
  | EmptyString => None
  | String c k =>
      if existsb (is_char c) prims then Some (Prim c, k)
      else if is_char c "V"%char then (if void then Some (Void, k) else None)
      else if is_char c "L"%char then
        '(n, k) ← split_semi k; if forallb class_char (la n) then Some (Object n, k) else None
      else None
  end.
Definition read_type (void : bool) (s : string) : option (jtype * string) :=
  let '(d, k) := strip_brackets s in
  if (255 <? d)%nat then None else '(e, k) ← read_elem void k; Some (JType d e, k).

Lemma is_char_eq a b : is_char a b = true <-> a = b.
Proof. unfold is_char. apply Ascii.eqb_eq. Qed.
Lemma is_char_refl a : is_char a a = true.
Proof. by apply is_char_eq. Qed.
Lemma append_assoc (s t u : string) : String.append (String.append s t) u = String.append s (String.append t u).
Proof. induction s as [|c s IH]; simpl; [done|]. by rewrite IH. Qed.
Lemma append_nil (s : string) : String.append s EmptyString = s.
Proof. induction s as [|c s IH]; simpl; [done|]. by rewrite IH. Qed.
Lemma append_length (s t : string) : String.length (String.append s t) = (String.length s + String.length t)%nat.
Proof. induction s as [|c s IH]; simpl; [done|]. by rewrite IH. Qed.

Lemma split_semi_sound s n k : split_semi s = Some (n, k) -> s = String.append n (String ";" k) /\ forallb (fun c => negb (is_char c ";"%char)) (la n) = true.
Proof.
  revert n. induction s as [|c s IH]; intros n H; [done|]. simpl in H. destruct (is_char c ";"%char) eqn:E.
  - apply is_char_eq in E as ->. by injection H as <- <-.
  - destruct (split_semi s) as [[n' k']|]; [|done]. injection H as <- <-. destruct (IH n' eq_refl) as [-> Hn].
    simpl. by rewrite E, Hn.
Qed.
Lemma split_semi_complete n k : forallb (fun c => negb (is_char c ";"%char)) (la n) = true -> split_semi (String.append n (String ";" k)) = Some (n, k).
Proof.
  induction n as [|c n IH]; simpl; [done|]. intros [Hc Hn]%andb_prop. apply negb_true_iff in Hc. by rewrite Hc, (IH Hn).
Qed.

Lemma class_char_no_semi l : forallb class_char l = true -> forallb (fun c => negb (is_char c ";"%char)) l = true.
Proof.
  induction l as [|c l IH]; simpl; [done|]. intros [Hc Hl]%andb_prop. rewrite (IH Hl). unfold class_char in Hc. simpl in Hc.
  destruct (is_char c ";"%char); [by rewrite orb_true_r in Hc|done].
Qed.

Lemma read_elem_iff void s e k : read_elem void s = Some (e, k) <-> wf_elem void e = true /\ s = String.append (print_elem e) k.
Proof.
  split.
  - destruct s as [|c s]; [done|]. unfold read_elem. destruct (existsb (is_char c) prims) eqn:Ep; [intros [= <- <-]; done|].
    destruct (is_char c "V"%char) eqn:Ev; [apply is_char_eq in Ev as ->; destruct void; [intros [= <- <-]; done|done]|].
    destruct (is_char c "L"%char) eqn:El; [apply is_char_eq in El as ->|done].
    destruct (split_semi s) as [[n k']|] eqn:Es; [|done]. simpl. destruct (forallb class_char (la n)) eqn:En; [|done].
    intros [= <- <-]. apply split_semi_sound in Es as [-> _]. simpl. split; [done|]. by rewrite append_assoc.
  - intros [Hw ->]. destruct e as [c| |n]; simpl in Hw |- *.
    + by rewrite Hw.
    + by rewrite Hw.
    + rewrite append_assoc. simpl. rewrite split_semi_complete by (by apply class_char_no_semi). simpl. by rewrite Hw.
Qed.

Lemma strip_brackets_sound s d k : strip_brackets s = (d, k) -> s = brackets d k /\ is_char (char_at k 0) "["%char = false.
Proof.
  revert d k. induction s as [|c s IH]; intros d k H; simpl in H; [by injection H as <- <-|].
  destruct (is_char c "["%char) eqn:E; [|by injection H as <- <-].
  apply is_char_eq in E as ->. destruct (strip_brackets s) as [d' k'] eqn:Es. injection H as <- <-. by destruct (IH _ _ eq_refl) as [-> Hk].
Qed.
Lemma strip_brackets_complete d k : is_char (char_at k 0) "["%char = false -> strip_brackets (brackets d k) = (d, k).
Proof.
  intros Hk. induction d as [|d IH]; simpl.
  - destruct k as [|c k]; [done|]. simpl. change (is_char c "["%char = false) in Hk. by rewrite Hk.
  - by rewrite IH.
Qed.

Lemma brackets_append d s k : String.append (brackets d s) k = brackets d (String.append s k).
Proof. induction d as [|d IH]; simpl; [done|]. by rewrite IH. Qed.

(** An element type does not begin with a bracket. *)
Lemma print_elem_head void e k : wf_elem void e = true -> is_char (char_at (String.append (print_elem e) k) 0) "["%char = false.
Proof.
  destruct e as [c| |n]; try done. simpl. intros Hc. unfold char_at. simpl.
  destruct (is_char c "["%char) eqn:E; [|done]. by apply is_char_eq in E as ->.
Qed.

(** The parser inverts the printer, whatever follows. *)
Lemma read_type_iff void s t k : read_type void s = Some (t, k) <-> wf_type void t = true /\ s = String.append (print_type t) k.
Proof.
  unfold read_type, wf_type, print_type. split.
  - destruct (strip_brackets s) as [d k'] eqn:Es. apply strip_brackets_sound in Es as [-> _].
    destruct (Nat.ltb_spec 255 d); [done|]. destruct (read_elem void k') as [[e k2]|] eqn:Ee; [|done].
    intros [= <- <-]. apply read_elem_iff in Ee as [Hw ->]. simpl. rewrite Hw, (proj2 (Nat.leb_le _ _)) by lia. by rewrite brackets_append.
  - intros [Hw ->]. apply andb_prop in Hw as [Hd%Nat.leb_le Hw]. rewrite brackets_append.
    rewrite strip_brackets_complete by (by apply (print_elem_head void)). rewrite (proj2 (Nat.ltb_ge _ _)) by lia.
    rewrite (proj2 (read_elem_iff void _ (elem_type t) k)) by done. by destruct t.
Qed.

(** ** The checks of the loader accept the grammar *)

Section accepted.
Context (u_isalpha u_isalnum : Z -> bool).

Lemma name_class_char l : forallb (fun c => negb (is_char c "/"%char)) l = true -> forallb (name_char false) l = forallb class_char l.
Proof.
  induction l as [|c l IH]; simpl; [done|]. intros [Hc Hl]%andb_prop. rewrite (IH Hl). f_equal.
  unfold name_char, class_char. simpl. apply negb_true_iff in Hc. rewrite Hc. by rewrite !orb_false_r, andb_true_r.
Qed.

Lemma class_descriptor_spec p it : valid_utf8 (la (String.append p it)) = true ->
  forallb (fun c => negb (is_char c "/"%char)) (la p) = true ->
  class_descriptor u_isalpha u_isalnum (String.append p it) (String.length p) it false
    = Some ('(n, k) ← split_semi it; if forallb class_char (la p ++ la n) then Some k else None).
Proof.
  revert p. induction it as [|c it IH]; intros p Hv Hp; [done|]. cbn [class_descriptor split_semi].
  assert (Hone : forall d, c = d -> is_one (byte_of d) = true -> valid_utf8 (la p) = true /\ valid_utf8 (la it) = true).
  { intros d -> Hd. rewrite la_app in Hv. by apply (valid_utf8_split _ d). }
  destruct (is_char c ";"%char) eqn:Es.
  { apply is_char_eq in Es. destruct (Hone _ Es eq_refl) as [Hvp _]. rewrite is_valid_member_name_spec by done. simpl.
    rewrite name_class_char by done. by rewrite app_nil_r. }
  destruct (is_char c "/"%char) eqn:Ec.
  { apply is_char_eq in Ec. destruct (Hone _ Ec eq_refl) as [Hvp Hvi]. rewrite is_valid_member_name_spec by done. simpl.
    rewrite name_class_char by done. specialize (IH EmptyString Hvi eq_refl). change (String.append EmptyString it) with it in IH.
    change (String.length EmptyString) with 0%nat in IH. destruct (forallb class_char (la p)) eqn:Hcp; simpl.
    - rewrite IH. destruct (split_semi it) as [[n k]|]; [|done]. simpl. rewrite forallb_app, Hcp. simpl. by subst c.
    - destruct (split_semi it) as [[n k]|]; [|done]. simpl. by rewrite forallb_app, Hcp. }
  specialize (IH (String.append p (String c EmptyString))). rewrite append_assoc, append_length in IH. simpl in IH.
  replace (String.length p + 1)%nat with (S (String.length p)) in IH by lia. rewrite IH; [|done|].
  - rewrite la_app. destruct (split_semi it) as [[n k]|]; [|done]. simpl. by rewrite <- app_assoc.
  - rewrite la_app, forallb_app, Hp. simpl. by rewrite Ec.
Qed.

Lemma base_descriptor_spec s void : valid_utf8 (la s) = true ->
  is_valid_base_descriptor u_isalpha u_isalnum s void false = Some (snd <$> read_elem void s).
Proof.
  intros Hv. destruct s as [|c s]; [done|]. unfold is_valid_base_descriptor, read_elem. fold prims.
  destruct (existsb (is_char c) prims); [done|]. destruct (is_char c "V"%char); [by destruct void|].
  destruct (is_char c "L"%char) eqn:El; [|done]. apply is_char_eq in El as ->.
  pose proof (class_descriptor_spec EmptyString s Hv eq_refl) as H.
  change (String.append EmptyString s) with s in H. change (String.length EmptyString) with 0%nat in H. rewrite H. f_equal.
  destruct (split_semi s) as [[n k]|]; [|done]. simpl. by destruct (forallb class_char (la n)).
Qed.

Lemma brackets_utf8 d s : valid_utf8 (la (brackets d s)) = valid_utf8 (la s).
Proof. induction d as [|d IH]; [done|]. exact IH. Qed.

Lemma member_descriptor_spec s void : valid_utf8 (la s) = true ->
  is_valid_member_descriptor u_isalpha u_isalnum s void false = Some (snd <$> read_type void s).
Proof.
  intros Hv. unfold is_valid_member_descriptor, read_type. destruct (strip_brackets s) as [d k] eqn:Es.
  apply strip_brackets_sound in Es as [-> _]. rewrite brackets_utf8 in Hv. destruct (255 <? d)%nat; [done|].
  rewrite base_descriptor_spec by done. by destruct (read_elem void k) as [[e k']|].
Qed.

(** What follows a type is made of characters. *)
Lemma print_elem_utf8 void e k : wf_elem void e = true -> valid_utf8 (la (String.append (print_elem e) k)) = true -> valid_utf8 (la k) = true.
Proof.
  destruct e as [c| |n]; simpl; intros Hw Hv.
  - assert (Hc : is_one (byte_of c) = true).
    { simpl in Hw. repeat (apply orb_prop in Hw as [Hw|Hw]; [by apply is_char_eq in Hw as ->|]). done. }
    rewrite Hc in Hv. by apply andb_prop in Hv as [_ Hv].
  - done.
  - change (valid_utf8 (la (String.append n (String ";" EmptyString) +:+ k)) = true) in Hv.
    rewrite append_assoc, la_app in Hv. by apply (valid_utf8_split _ ";"%char) in Hv as [_ Hv].
Qed.
Lemma read_type_utf8 void s t k : read_type void s = Some (t, k) -> valid_utf8 (la s) = true -> valid_utf8 (la k) = true.
Proof.
  intros [Hw ->]%read_type_iff Hv. apply andb_prop in Hw as [_ Hw]. unfold print_type in Hv.
  rewrite brackets_append, brackets_utf8 in Hv. by eapply print_elem_utf8.
Qed.

(** A type has a character at least. *)
Lemma print_type_length t : (1 <= String.length (print_type t))%nat.
Proof. unfold print_type. destruct t as [[|d] []]; simpl; lia. Qed.
Lemma print_type_not_paren void t k : wf_type void t = true -> is_char (char_at (String.append (print_type t) k) 0) ")"%char = false.
Proof.
  intros [_ Hw]%andb_prop. unfold print_type. destruct t as [[|d] e]; [|done]. simpl in *. destruct e as [c| |n]; [|done..].
  unfold char_at. simpl. destruct (is_char c ")"%char) eqn:E; [|done]. by apply is_char_eq in E as ->.
Qed.

(** The loop over the arguments stops before a parenthesis, after types without void. *)
Lemma method_arguments_spec fuel s : valid_utf8 (la s) = true -> (String.length s < fuel)%nat ->
  exists r, method_arguments u_isalpha u_isalnum fuel s false = Some r /\
    (forall k, r = Some k <-> exists ts k', Forall (fun t => wf_type false t = true) ts /\ k = String ")" k' /\ s = print_types ts k).
Proof.
  revert s. induction fuel as [|fuel IH]; intros s Hv Hf; [lia|]. cbn [method_arguments].
  destruct (is_char (char_at s 0) ")"%char) eqn:Ep.
  { exists (Some s). split; [done|]. destruct s as [|c s']; [done|]. change (is_char c ")"%char = true) in Ep.
    apply is_char_eq in Ep as ->. intros k. split.
    - intros [= <-]. by exists [], s'.
    - intros ([|t ts] & k' & Hts & -> & Hs); [by rewrite Hs|]. exfalso. apply Forall_inv in Hts. simpl in Hs.
      pose proof (print_type_not_paren false t (print_types ts (String ")" k')) Hts) as Hc. by rewrite <- Hs in Hc. }
  rewrite member_descriptor_spec by done. destruct (read_type false s) as [[t k1]|] eqn:Er; simpl.
  2: { exists None. split; [done|]. intros k. split; [done|]. intros ([|t ts] & k' & Hts & -> & ->); [by simpl in Ep|].
       apply Forall_inv in Hts. simpl in Er. by rewrite (proj2 (read_type_iff false _ t _) (conj Hts eq_refl)) in Er. }
  pose proof (read_type_utf8 _ _ _ _ Er Hv) as Hv1. pose proof (proj1 (read_type_iff _ _ _ _) Er) as [Hw Hs].
  assert (Hstep : forall k ts k', Forall (fun t => wf_type false t = true) ts -> k = String ")" k' -> s = print_types ts k ->
    exists ts', Forall (fun t => wf_type false t = true) ts' /\ k1 = print_types ts' k).
  { intros k [|t' ts] k' Hts -> Hs'; [by rewrite Hs' in Ep|]. apply Forall_cons_1 in Hts as [Ht Hts]. simpl in Hs'.
    assert (Hr := proj2 (read_type_iff false s t' _) (conj Ht Hs')). rewrite Er in Hr. injection Hr as -> ->. by exists ts. }
  destruct k1 as [|c k1].
  { exists None. split; [done|]. intros k. split; [done|]. intros (ts & k' & Hts & Hk & Hs'). destruct (Hstep k ts k' Hts Hk Hs') as (ts' & _ & He).
    subst k. destruct ts' as [|t' ts']; [done|]. simpl in He. apply (f_equal String.length) in He. rewrite append_length in He.
    pose proof (print_type_length t'). simpl in He. lia. }
  destruct (IH (String c k1) Hv1) as (r & Hr & Hk).
  { apply (f_equal String.length) in Hs. rewrite append_length in Hs. pose proof (print_type_length t). lia. }
  exists r. split; [done|]. intros k. rewrite Hk. split; intros (ts & k' & Hts & Hkk & Hs').
  - exists (t :: ts), k'. split; [by constructor|]. split; [done|]. simpl. by rewrite Hs, Hs'.
  - destruct (Hstep k ts k' Hts Hkk Hs') as (ts' & Hts' & He). by exists ts', k'.
Qed.

(** C19: For a string of characters the check of the descriptor of a method of a class file
    of Java 5 or later fails no assertion, and it accepts exactly the grammar: arguments in
    parentheses and a result, each with at most 255 brackets, only the result void or
    brackets before void, and names of classes made of any characters but the period, the
    semicolon and the opening bracket. *)
Theorem check_method_descriptor_spec s : valid_utf8 (la s) = true ->
  exists b, check_method_descriptor u_isalpha u_isalnum s false = Some b /\
    (b = true <-> exists args ret, Forall (fun t => wf_type false t = true) args /\ wf_type true ret = true /\ s = print_method args ret).
Proof.
  intros Hv. unfold print_method. destruct s as [|c s]; simpl; [exists false; split; [done|]; split; [done|]; by intros (? & ? & _ & _ & ?)|].
  destruct (is_char c "("%char) eqn:Ec; simpl.
  2: { exists false. split; [done|]. split; [done|]. intros (? & ? & _ & _ & [= -> _]). by rewrite is_char_refl in Ec. }
  apply is_char_eq in Ec as ->. change (valid_utf8 (la s) = true) in Hv.
  destruct (method_arguments_spec (S (String.length s)) s Hv ltac:(lia)) as (r & Hr & Hk). cbn [method_arguments] in Hr. rewrite Hr. simpl.
  assert (Hnone : forall args ret, Forall (fun t => wf_type false t = true) args -> s = print_types args (String ")" (print_type ret)) ->
    r = Some (String ")" (print_type ret))).
  { intros args ret Ha Hs. apply Hk. by exists args, (print_type ret). }
  destruct r as [[|d k]|].
  { exists false. split; [done|]. split; [done|]. intros (args & ret & Ha & _ & [= Hs]). by specialize (Hnone _ _ Ha Hs). }
  2: { exists false. split; [done|]. split; [done|]. intros (args & ret & Ha & _ & [= Hs]). by specialize (Hnone _ _ Ha Hs). }
  destruct (proj1 (Hk (String d k)) eq_refl) as (args & k' & Ha & [= -> ->] & Hs).
  assert (Hvk : valid_utf8 (la k') = true).
  { assert (exists l, la s = l ++ ")"%char :: la k') as [l Hl].
    { clear -Hs. revert s Hs. induction args as [|t args IH]; intros s ->; [by exists []|]. simpl.
      destruct (IH _ eq_refl) as [l Hl]. exists (la (print_type t) ++ l). by rewrite la_app, Hl, app_assoc. }
    rewrite Hl in Hv. by apply valid_utf8_split in Hv as [_ Hv]. }
  rewrite member_descriptor_spec by done. destruct (read_type true k') as [[t k]|] eqn:Er; simpl.
  - exists (match k with EmptyString => true | _ => false end). split; [done|]. destruct k as [|c k]; split; try done.
    + intros _. exists args, t. apply read_type_iff in Er as [Hw Hkk]. split; [done|]. split; [done|]. rewrite append_nil in Hkk. by rewrite Hs, Hkk.
    + intros (args' & ret & Ha' & Hw & [= Hs']). specialize (Hnone _ _ Ha' Hs'). injection Hnone as ->.
      assert (Hr2 := proj2 (read_type_iff true _ ret EmptyString) (conj Hw (eq_sym (append_nil _)))). by rewrite Er in Hr2.
  - exists false. split; [done|]. split; [done|]. intros (args' & ret & Ha' & Hw & [= Hs']). specialize (Hnone _ _ Ha' Hs'). injection Hnone as ->.
    assert (Hr2 := proj2 (read_type_iff true _ ret EmptyString) (conj Hw (eq_sym (append_nil _)))). by rewrite Er in Hr2.
Qed.
End accepted.

(** ** The verifier reads an accepted descriptor *)

(** The grammar with any names without a semicolon: what the loader accepts of any version. *)
Definition shape_elem (void : bool) (e : elem) : bool :=
  match e with
  | Prim c => existsb (is_char c) prims
  | Void => void
  | Object n => forallb (fun c => negb (is_char c ";"%char)) (la n)
  end.
Definition shape (void : bool) (t : jtype) : Prop := shape_elem void (elem_type t) = true.
Lemma shape_head void e k : shape_elem void e = true -> is_char (char_at (String.append (print_elem e) k) 0) "["%char = false.
Proof. destruct e as [c| |n]; [apply (print_elem_head true (Prim c))|done..]. Qed.
Lemma shape_not_paren void t k : shape void t -> is_char (char_at (String.append (print_type t) k) 0) ")"%char = false.
Proof.
  unfold shape, print_type. destruct t as [[|d] e]; [|done]. simpl. destruct e as [c| |n]; [|done..].
  unfold char_at. simpl. intros H. destruct (is_char c ")"%char) eqn:E; [|done]. by apply is_char_eq in E as ->.
Qed.

(** The words an argument has. *)
Definition arg_words (t : jtype) : Z :=
  match t with JType O (Prim c) => if is_char c "J"%char || is_char c "D"%char then 2 else 1 | _ => 1 end.
(** The verification type of a type of the grammar. *)
Definition type_of (t : jtype) : P SmConstant :=
  match t with
  | JType O (Prim c) => plift (get_primitive_type c)
  | JType O Void => mret SM_BOGUS
  | JType O (Object n) => ref_type n
  | _ => ref_type (print_type t)
  end.
(** The name of the class has no closing parenthesis, at which the verifier would stop. *)
Definition no_paren (t : jtype) : bool :=
  match elem_type t with Object n => forallb (fun c => negb (is_char c ")"%char)) (la n) | _ => true end.

Lemma get_append (s k : string) i : String.get (String.length s + i) (String.append s k) = String.get i k.
Proof. induction s as [|c s IH]; simpl; [done|]. exact IH. Qed.
Lemma char_at_append s k i : char_at (String.append s k) (String.length s + i) = char_at k i.
Proof. unfold char_at. by rewrite get_append. Qed.
Lemma char_at_end s k : char_at (String.append s k) (String.length s) = char_at k 0.
Proof. rewrite <- (char_at_append s k 0). f_equal. lia. Qed.
Lemma get_append_l (s k : string) i : (i < String.length s)%nat -> String.get i (String.append s k) = String.get i s.
Proof. revert i. induction s as [|c s IH]; intros [|i] H; simpl in *; try lia; [done|]. apply IH. lia. Qed.
Lemma char_at_append_l s k i : (i < String.length s)%nat -> char_at (String.append s k) i = char_at s i.
Proof. intros H. unfold char_at. by rewrite get_append_l. Qed.
Lemma str_take_append s k : str_take (String.append s k) (String.length s) = s.
Proof. unfold str_take. induction s as [|c s IH]; simpl; [by destruct k|]. by rewrite IH. Qed.
Lemma substring_whole s : String.substring 0 (String.length s) s = s.
Proof. induction s as [|c s IH]; simpl; [done|]. by rewrite IH. Qed.
Lemma str_from_append s k : str_from (String.append s k) (String.length s) = k.
Proof.
  unfold str_from. rewrite append_length. replace (_ + _ - _)%nat with (String.length k) by lia.
  induction s as [|c s IH]; simpl; [apply substring_whole|]. exact IH.
Qed.

(** Names are looked up by their characters alone. *)
Lemma get_ref_type_append s k : get_ref_type (String.append s k) (String.length s) = ref_type s.
Proof.
  assert (Hconv : is_bool_array_conv_needed (String.append s k) (String.length s) = is_bool_array_conv_needed s (String.length s)).
  { unfold is_bool_array_conv_needed. destruct (Nat.ltb_spec 1 (String.length s)); [|done]. by rewrite !char_at_append_l by lia. }
  assert (Htake : (1 <? String.length s)%nat = true -> str_take (String.append s k) (String.length s - 1) = str_take s (String.length s - 1)).
  { clear. unfold str_take. assert (Hle : (String.length s - 1 <= String.length s)%nat) by lia. revert Hle. generalize (String.length s - 1)%nat. intros n Hn _.
    revert n Hn. induction s as [|c s IH]; intros [|n] Hn; simpl in *; try lia; [by destruct k|done|]. rewrite IH; [done|lia]. }
  unfold ref_type, get_ref_type. rewrite Hconv, str_take_append.
  assert (Hs : str_take s (String.length s) = s) by apply substring_whole. rewrite Hs.
  destruct (is_bool_array_conv_needed s (String.length s)) eqn:Eb; [|done]. rewrite Htake; [done|].
  unfold is_bool_array_conv_needed in Eb. by apply andb_prop in Eb as [[Eb _]%andb_prop _].
Qed.

Lemma prim_type c : existsb (is_char c) prims = true -> is_Some (get_primitive_type c).
Proof.
  simpl. intros H. repeat (apply orb_prop in H as [H|H]; [apply is_char_eq in H as ->; by eexists|]). done.
Qed.

Lemma get_type_len_spec void t k : shape void t -> get_type_len (String.append (print_type t) k) (String.length (print_type t)) = type_of t.
Proof.
  unfold shape. intros Hw. destruct t as [[|d] e].
  - unfold print_type. simpl. destruct e as [c| |n]; [done|done|]. cbn [print_elem]. unfold get_type_len.
    assert (Hlen : String.length (String "L" (String.append n (String ";" EmptyString))) = (String.length n + 2)%nat).
    { simpl. rewrite append_length. simpl. lia. }
    rewrite Hlen, (proj2 (Nat.ltb_lt 1 _)) by lia. rewrite <- (get_ref_type_append n (String.append (String ";" EmptyString) k)).
    replace (String.length n + 2 - 2)%nat with (String.length n) by lia. cbn [char_at String.get].
    change (str_from (String.append (String "L" (String.append n (String ";" EmptyString))) k) 1)
      with (str_from (String.append (String "L" EmptyString) (String.append (String.append n (String ";" EmptyString)) k)) (String.length (String "L" EmptyString))).
    by rewrite str_from_append, append_assoc.
  - unfold print_type at 1 2. cbn [dims elem_type brackets]. unfold get_type_len.
    assert (1 < String.length (String "[" (brackets d (print_elem e))))%nat as Hlen.
    { simpl. pose proof (print_type_length (JType d e)). unfold print_type in *. simpl in *. lia. }
    rewrite (proj2 (Nat.ltb_lt 1 _)) by done. change (is_char (char_at (String.append (String "[" (brackets d (print_elem e))) k) 0) "["%char) with true.
    cbn [negb]. cbv iota. rewrite get_ref_type_append. by destruct e.
Qed.
Lemma get_type_spec void t : shape void t -> get_type (print_type t) = type_of t.
Proof. intros Hw. pose proof (get_type_len_spec void t EmptyString Hw) as H. by rewrite append_nil in H. Qed.

(** No name makes the pool fail. *)
Lemma ref_type_some nm p : is_Some (ref_type nm p).
Proof.
  unfold ref_type, get_ref_type. destruct (hash p !! _); [by eexists|]. destruct (is_bool_array_conv_needed nm _); [|by eexists].
  destruct (hash p !! _); by eexists.
Qed.
Lemma type_of_some void t p : shape void t -> is_Some (type_of t p).
Proof.
  unfold shape. intros Hw. destruct t as [[|d] [c| |n]]; simpl in *; try apply ref_type_some; [|by eexists].
  destruct (prim_type c Hw) as [x Hx]. unfold plift. rewrite Hx. by eexists.
Qed.

(** *** Counting *)

Lemma count_args_off prev n k z : forallb (fun c => negb (is_char c ")"%char)) (la n) = true -> forallb (fun c => negb (is_char c ";"%char)) (la n) = true ->
  count_args prev false (String.append n (String ";" k)) z = count_args ";"%char true k (z + 1).
Proof.
  revert prev. induction n as [|c n IH]; intros prev; [done|]. simpl. intros [Hp Hpn]%andb_prop [Hc Hcn]%andb_prop.
  apply negb_true_iff in Hp, Hc. rewrite Hp, Hc. replace (if is_char c "L"%char then false else false) with false by (by destruct (is_char c "L"%char)). simpl. by apply IH.
Qed.

(** The character before matters only if it is a bracket. *)
Definition bracket (c : ascii) : bool := is_char c "["%char.
Lemma count_args_elem prev void e k z : shape_elem void e = true -> void = false -> no_paren (JType 0 e) = true ->
  exists last, bracket last = false /\
    count_args prev true (String.append (print_elem e) k) z = count_args last true k (z + (if bracket prev then 1 else arg_words (JType 0 e))).
Proof.
  intros Hw -> Hp. destruct e as [c| |n]; [|done|].
  - exists c. simpl in Hw. unfold bracket. split.
    { destruct (is_char c "["%char) eqn:E; [|done]. by apply is_char_eq in E as ->. }
    repeat (apply orb_prop in Hw as [Hw|Hw]; [apply is_char_eq in Hw as ->; simpl; by destruct (is_char prev "["%char)|]). done.
  - exists ";"%char. split; [done|]. cbn [print_elem]. simpl. rewrite append_assoc. simpl. unfold no_paren in Hp. simpl in Hp, Hw.
    rewrite count_args_off by done. by destruct (bracket prev).
Qed.
Lemma count_args_brackets d prev s z : count_args prev true (brackets d s) z = count_args (match d with O => prev | S _ => "["%char end) true s z.
Proof. revert prev. induction d as [|d IH]; intros prev; [done|]. simpl. rewrite IH. by destruct d. Qed.
Lemma count_args_type prev t k z : shape false t -> no_paren t = true -> bracket prev = false ->
  exists last, bracket last = false /\ count_args prev true (String.append (print_type t) k) z = count_args last true k (z + arg_words t).
Proof.
  unfold shape. intros Hw Hp Hprev. destruct t as [d e]. unfold print_type. simpl in *. rewrite brackets_append, count_args_brackets.
  destruct (count_args_elem (match d with O => prev | S _ => "["%char end) false e k z Hw eq_refl Hp) as (last & Hl & H).
  exists last. split; [done|]. rewrite H. f_equal. destruct d; [by rewrite Hprev|done].
Qed.
Lemma count_args_types ts prev k z : Forall (fun t => shape false t /\ no_paren t = true) ts -> bracket prev = false ->
  count_args prev true (print_types ts (String ")" k)) z = Some (foldl (fun z t => z + arg_words t) z ts, k).
Proof.
  intros H. revert prev z. induction H as [|t ts [Hw Hp] _ IH]; intros prev z Hprev; simpl; [done|].
  destruct (count_args_type prev t (print_types ts (String ")" k)) z Hw Hp Hprev) as (last & Hl & ->). by apply IH.
Qed.

(** *** The arguments one by one *)

Lemma count_brackets_spec d s : is_char (char_at s 0) "["%char = false -> count_brackets (brackets d s) = d.
Proof.
  intros H. induction d as [|d IH]; [|simpl; by rewrite IH]. destruct s as [|c s]; [done|]. simpl. change (is_char c "["%char = false) in H. by rewrite H.
Qed.
Lemma brackets_prefix d s : brackets d s = String.append (brackets d EmptyString) s.
Proof. induction d as [|d IH]; [done|]. simpl. by rewrite IH. Qed.
Lemma brackets_length d : String.length (brackets d EmptyString) = d.
Proof. induction d as [|d IH]; [done|]. simpl. by rewrite IH. Qed.

Lemma find_semicolon_spec n a k fuel : forallb (fun c => negb (is_char c ";"%char)) (la n) = true -> (String.length n < fuel)%nat ->
  find_semicolon (String.append a (String.append n (String ";" k))) (String.length a) fuel = Some (String.length a + String.length n)%nat.
Proof.
  revert a fuel. induction n as [|c n IH]; intros a [|fuel]; intros Hn Hf; simpl in Hf; try lia.
  - simpl. rewrite char_at_end. simpl. f_equal. lia.
  - simpl in Hn. apply andb_prop in Hn as [Hc Hn]. apply negb_true_iff in Hc. cbn [find_semicolon].
    rewrite char_at_end. change (is_char (char_at (String.append (String c n) (String ";" k)) 0) ";"%char) with (is_char c ";"%char). rewrite Hc.
    specialize (IH (String.append a (String c EmptyString)) fuel Hn ltac:(lia)). rewrite append_length, append_assoc in IH. simpl in IH.
    replace (String.length a + 1)%nat with (S (String.length a)) in IH by lia. simpl. rewrite IH. f_equal. lia.
Qed.

(** The length the verifier finds is that of the type. *)
Lemma next_arg_length t k : shape false t ->
  plift (if is_char (char_at (String.append (print_type t) k) (count_brackets (String.append (print_type t) k))) "L"%char
    then find_semicolon (String.append (print_type t) k) (S (count_brackets (String.append (print_type t) k))) (String.length (String.append (print_type t) k))
    else Some (count_brackets (String.append (print_type t) k))) = plift (Some (String.length (print_type t) - 1)%nat).
Proof.
  unfold shape. intros Hw. destruct t as [d e]. unfold print_type. cbn [dims elem_type] in *. f_equal. rewrite brackets_append.
  rewrite count_brackets_spec by (by apply (shape_head false)). rewrite (brackets_prefix d (String.append (print_elem e) k)), (brackets_prefix d (print_elem e)).
  pose proof (brackets_length d) as Hb. set (a := brackets d EmptyString) in *.
  assert (Hhead : char_at (String.append a (String.append (print_elem e) k)) d = char_at (String.append (print_elem e) k) 0) by (rewrite <- Hb; apply char_at_end).
  rewrite Hhead, !append_length, Hb. destruct e as [c| |n]; simpl in Hw |- *; [|done|].
  - assert (Hc : is_char c "L"%char = false) by (destruct (is_char c "L"%char) eqn:E; [by apply is_char_eq in E as ->|done]).
    change (char_at (String c k) 0) with c. rewrite Hc. f_equal. lia.
  - change (is_char (char_at (String "L" _) 0) "L"%char) with true. cbv iota.
    pose proof (find_semicolon_spec n (String.append a (String "L" EmptyString)) k (d + S (String.length (String.append (String.append n (String ";" EmptyString)) k)))
      Hw) as H.
    rewrite !append_length, Hb in H. simpl in H. rewrite !append_assoc in H. simpl in H. rewrite ?append_assoc, ?append_length. simpl.
    replace (d + 1)%nat with (S d) in H by lia. rewrite H by lia. f_equal. lia.
Qed.

Lemma next_arg_spec t k p : shape false t ->
  cpool_method_next_arg (String.append (print_type t) k) p =
    (argument ← type_of t; mret (argument, if is_char (char_at k 0) ")"%char then None else Some k)) p.
Proof.
  intros Hw. unfold cpool_method_next_arg. rewrite next_arg_length by done. unfold mbind at 1, P_bind at 1. unfold plift at 1. simpl.
  pose proof (print_type_length t) as Hl. replace (S (String.length (print_type t) - 1))%nat with (String.length (print_type t)) by lia.
  by rewrite (get_type_len_spec false t k Hw), char_at_end, str_from_append.
Qed.

(** [tys] in order, the pool passed on from one to the next. *)
Fixpoint types_of (ts : list jtype) : P (list SmConstant) :=
  match ts with [] => mret [] | t :: ts => a ← type_of t; tys ← types_of ts; mret (a :: tys) end.

Lemma print_types_head ts k : Forall (shape false) ts ->
  is_char (char_at (print_types ts (String ")" k)) 0) ")"%char = match ts with [] => true | _ => false end.
Proof. intros H. destruct H as [|t ts Ht _]; [done|]. simpl. by apply (shape_not_paren false). Qed.

Lemma parameters_spec ts k fuel p : Forall (shape false) ts -> (length ts <= fuel)%nat ->
  parameters fuel (match ts with [] => None | _ => Some (print_types ts (String ")" k)) end) p = types_of ts p.
Proof.
  intros H. revert fuel p. induction H as [|t ts Ht H IH]; intros fuel p Hf; [by destruct fuel|].
  destruct fuel as [|fuel]; simpl in Hf; [lia|]. simpl. unfold mbind, P_bind. rewrite next_arg_spec by done.
  unfold mbind, P_bind. destruct (type_of t p) as [[c q]|]; [|done]. simpl. unfold mret, P_ret. simpl.
  rewrite print_types_head by done. specialize (IH fuel q ltac:(lia)).
  destruct ts as [|t' ts]; simpl in IH |- *; rewrite IH; done.
Qed.

Lemma types_of_some ts p : Forall (shape false) ts -> is_Some (types_of ts p).
Proof.
  intros H. revert p. induction H as [|t ts Ht _ IH]; intros p; simpl; [by eexists|]. unfold mbind, P_bind.
  destruct (type_of_some false t p Ht) as [[c q] ->]. simpl. destruct (IH q) as [[cs q'] ->]. by eexists.
Qed.

Lemma print_types_length ts k : (length ts + String.length k <= String.length (print_types ts k))%nat.
Proof. induction ts as [|t ts IH]; simpl; [lia|]. rewrite append_length. pose proof (print_type_length t). lia. Qed.

Lemma rettype_print args ret p rt q : Forall (fun t => shape false t /\ no_paren t = true) args -> shape true ret -> type_of ret p = Some (rt, q) ->
  cpool_method_get_rettype (print_method args ret) p = Some (Some (rt, foldl (fun z t => z + arg_words t) 0 args,
    match args with [] => None | _ => Some (print_types args (String ")" (print_type ret))) end), q).
Proof.
  intros Ha Hr Hrt. assert (Ha' : Forall (shape false) args) by (eapply Forall_impl, Ha; by intros ? []).
  unfold cpool_method_get_rettype, print_method. cbn [negb]. rewrite is_char_refl. cbn [negb]. cbv iota.
  rewrite count_args_types by done. unfold mbind, P_bind. rewrite (get_type_spec true) by done. rewrite Hrt. simpl.
  rewrite print_types_head by done. by destruct args.
Qed.
Lemma signature_print args ret p rt q tys q' : Forall (fun t => shape false t /\ no_paren t = true) args -> shape true ret ->
  type_of ret p = Some (rt, q) -> types_of args q = Some (tys, q') -> signature (print_method args ret) p = Some (Some (rt, tys), q').
Proof.
  intros Ha Hr Hrt Htys. assert (Ha' : Forall (shape false) args) by (eapply Forall_impl, Ha; by intros ? []).
  unfold signature, mbind, P_bind. rewrite (rettype_print args ret p rt q) by done. cbn [mbind option_bind].
  pose proof (parameters_spec args (print_type ret) (String.length (print_method args ret)) q Ha') as Hp. rewrite Hp; [by rewrite Htys|].
  unfold print_method. simpl. pose proof (print_types_length args (String ")" (print_type ret))). lia.
Qed.

(** C28: For a descriptor the loader accepts, of any version, in which no name of a class has a
    closing parenthesis, the verifier fails no assertion: it counts a word for each argument
    and two for each long and double, and takes the types of the result and of the arguments
    in their order, each as it takes the type alone. *)
Theorem verifier_reads_descriptor args ret p : Forall (fun t => shape false t /\ no_paren t = true) args -> shape true ret ->
  (exists rettype state q, cpool_method_get_rettype (print_method args ret) p = Some (Some (rettype, foldl (fun z t => z + arg_words t) 0 args, state), q)) /\
  (exists rettype tys q, signature (print_method args ret) p = Some (Some (rettype, tys), q) /\
     (r ← type_of ret; tys ← types_of args; mret (r, tys)) p = Some ((rettype, tys), q)).
Proof.
  intros Ha Hr. assert (Ha' : Forall (shape false) args) by (eapply Forall_impl, Ha; by intros ? []).
  destruct (type_of_some true ret p Hr) as [[rt q] Hrt]. destruct (types_of_some args q Ha') as [[tys q'] Htys].
  split; [by eexists _, _, _; apply rettype_print|]. exists rt, tys, q'. split; [by eapply signature_print|].
  unfold mbind, P_bind. rewrite Hrt. cbn [mbind option_bind]. by rewrite Htys.
Qed.

Lemma verifier_reads_descriptor_witness : exists rt state q,
  cpool_method_get_rettype (print_method [JType 0 (Prim "J"%char); JType 2 (Object "java/lang/String"); JType 0 (Object "A")] (JType 0 Void)) new_pool
    = Some (Some (rt, 4, state), q).
Proof.
  destruct (verifier_reads_descriptor [JType 0 (Prim "J"%char); JType 2 (Object "java/lang/String"); JType 0 (Object "A")] (JType 0 Void) new_pool)
    as [(rt & state & q & Hs) _]; [by repeat constructor|done|]. exists rt, state, q. exact Hs.
Defined.

(** A closing parenthesis is a character like others in the name of a class, but the
    verifier takes the first one for the end of the arguments.  A method that takes an
    object of class [a)LX] and returns nothing has a descriptor the loader accepts; the
    verifier takes it for one of no words of arguments that returns an object. *)
Theorem paren_in_name u_isalpha u_isalnum p : exists rettype q,
  check_method_descriptor u_isalpha u_isalnum (print_method [JType 0 (Object "a)LX")] (JType 0 Void)) false = Some true /\
  cpool_method_get_rettype (print_method [JType 0 (Object "a)LX")] (JType 0 Void)) p = Some (Some (rettype, 0, Some "La)LX;)V"), q) /\
  ref_type "X;)" p = Some (rettype, q).
Proof.
  assert (Hr := get_ref_type_append "X;)" "V"). destruct (ref_type_some "X;)" p) as [[c q] Hq]. exists c, q. split; [reflexivity|]. split; [|done].
  unfold cpool_method_get_rettype, print_method. cbn -[get_type]. unfold mbind, P_bind, get_type, get_type_len. cbn -[get_ref_type].
  change (get_ref_type "X;)V" 3) with (get_ref_type (String.append "X;)" "V") (String.length "X;)")). rewrite Hr, Hq. done.
Qed.
