(* ===== verification/ConstPool.v ===== *)
(** * The constant pool of a class: [ConstantPool] of [include/Class.h] and its parsing and
    checking in [class_support/Class_File_Loader.cpp].

    An entry has what its tag says is stored in it; the bit of the tag that says an entry
    is resolved goes with what it is resolved to.  Reading the wrong member of an entry is
    a failed assertion of the accessors.  Allocation does not fail. *)
From Stdlib Require Import Ascii.
From stdpp Require Import strings.
From S2P Require Import Prelude ByteReader VerTypes ClassNames.

(** ** Data *)

Definition CONSTANT_Utf8 : Z := 1.
Definition CONSTANT_Integer : Z := 3.
Definition CONSTANT_Float : Z := 4.
Definition CONSTANT_Long : Z := 5.
Definition CONSTANT_Double : Z := 6.
Definition CONSTANT_Class : Z := 7.
Definition CONSTANT_String : Z := 8.
Definition CONSTANT_Fieldref : Z := 9.
Definition CONSTANT_Methodref : Z := 10.
Definition CONSTANT_InterfaceMethodref : Z := 11.
Definition CONSTANT_NameAndType : Z := 12.
Definition CONSTANT_UnusedEntry : Z := 13.
Definition CONSTANT_Tags : Z := 0.

Inductive ref_kind := Fieldref | Methodref | InterfaceMethodref.
Inductive ConstPoolEntry :=
  | Tags | Unused (high_bytes low_bytes : Z)
  | Utf8 (str : string)
  | Integer (int_value : Z) | Float (int_value : Z)
  | Long (high_bytes low_bytes : Z) | Double (high_bytes low_bytes : Z)
  | ClassRef (name_index : Z) (resolved : bool)
  | StringRef (string_index : Z) (str : option string)
  | Ref (kind : ref_kind) (class_index name_and_type_index : Z)
  | NameAndType (name_index descriptor_index : Z) (resolved : option (string * string)).

(** The entries from the one of the tags; [m_size] is their number. *)
Definition ConstantPool : Type := list ConstPoolEntry.
Definition m_size (cp : ConstantPool) : Z := Z.of_nat (length cp).

Definition tag_of (e : ConstPoolEntry) : Z :=
  match e with
  | Tags => CONSTANT_Tags | Unused _ _ => CONSTANT_UnusedEntry
  | Utf8 _ => CONSTANT_Utf8 | Integer _ => CONSTANT_Integer | Float _ => CONSTANT_Float
  | Long _ _ => CONSTANT_Long | Double _ _ => CONSTANT_Double
  | ClassRef _ _ => CONSTANT_Class | StringRef _ _ => CONSTANT_String
  | Ref Fieldref _ _ => CONSTANT_Fieldref | Ref Methodref _ _ => CONSTANT_Methodref
  | Ref InterfaceMethodref _ _ => CONSTANT_InterfaceMethodref
  | NameAndType _ _ _ => CONSTANT_NameAndType
  end.

Definition is_valid_index (cp : ConstantPool) (index : Z) : bool := negb (index =? 0) && (index <? m_size cp).
(** The accessors, with their assertions. *)
Definition at_ (cp : ConstantPool) (index : Z) : option ConstPoolEntry := if is_valid_index cp index then cp !! Z.to_nat index else None.
Definition get_tag (cp : ConstantPool) (index : Z) : option Z := tag_of <$> at_ cp index.
Definition get_utf8_string (cp : ConstantPool) (index : Z) : option string :=
  match at_ cp index with Some (Utf8 s) => Some s | _ => None end.
Definition get_class_name_index (cp : ConstantPool) (index : Z) : option Z :=
  match at_ cp index with Some (ClassRef n _) => Some n | _ => None end.
Definition get_string_index (cp : ConstantPool) (index : Z) : option Z :=
  match at_ cp index with Some (StringRef n _) => Some n | _ => None end.
Definition get_ref_class_index (cp : ConstantPool) (index : Z) : option Z :=
  match at_ cp index with Some (Ref _ c _) => Some c | _ => None end.
Definition get_ref_name_and_type_index (cp : ConstantPool) (index : Z) : option Z :=
  match at_ cp index with Some (Ref _ _ n) => Some n | _ => None end.
Definition get_name_and_type_name_index (cp : ConstantPool) (index : Z) : option Z :=
  match at_ cp index with Some (NameAndType n _ _) => Some n | _ => None end.
Definition get_name_and_type_descriptor_index (cp : ConstantPool) (index : Z) : option Z :=
  match at_ cp index with Some (NameAndType _ d _) => Some d | _ => None end.
(** [resolve_entry] for strings, names and types, and classes. *)
Definition resolve_entry (cp : ConstantPool) (index : Z) (e : ConstPoolEntry) : ConstantPool := <[Z.to_nat index := e]> cp.

(** The tags are compared after both are known to exist. *)
Definition valid_cpi (cp : ConstantPool) (idx tag : Z) : R unit :=
  _ ← require (is_valid_index cp idx); t ← value (get_tag cp idx); require (t =? tag).

(** ** [ConstantPool::parse] *)

Definition parse_entry : R ConstPoolEntry :=
  tag ← parse_u1;
  if tag =? CONSTANT_Class then n ← parse_u2_be; mret (ClassRef n false)
  else if tag =? CONSTANT_Methodref then c ← parse_u2_be; n ← parse_u2_be; mret (Ref Methodref c n)
  else if tag =? CONSTANT_Fieldref then c ← parse_u2_be; n ← parse_u2_be; mret (Ref Fieldref c n)
  else if tag =? CONSTANT_InterfaceMethodref then c ← parse_u2_be; n ← parse_u2_be; mret (Ref InterfaceMethodref c n)
  else if tag =? CONSTANT_String then n ← parse_u2_be; mret (StringRef n None)
  else if tag =? CONSTANT_Float then v ← parse_u4_be; mret (Float v)
  else if tag =? CONSTANT_Integer then v ← parse_u4_be; mret (Integer v)
  else if tag =? CONSTANT_Double then h ← parse_u4_be; l ← parse_u4_be; mret (Double h l)
  else if tag =? CONSTANT_Long then h ← parse_u4_be; l ← parse_u4_be; mret (Long h l)
  else if tag =? CONSTANT_NameAndType then n ← parse_u2_be; d ← parse_u2_be; mret (NameAndType n d None)
  else if tag =? CONSTANT_Utf8 then s ← class_file_parse_utf8; mret (Utf8 s)
  else fail.

(** The entries from [i] on; an iteration takes an index at least. *)
Fixpoint parse_loop (fuel : nat) (i size : Z) : R (list ConstPoolEntry) :=
  match fuel with
  | O => wild
  | S fuel =>
      if size <=? i then mret []
      else
        e ← parse_entry;
        match e with
        | Long h l | Double h l =>
            es ← parse_loop fuel (i + 2) size;
            mret (e :: (if i + 1 <? size then [Unused h l] else []) ++ es)
        | _ => es ← parse_loop fuel (i + 1) size; mret (e :: es)
        end
  end.
(** [m_entries[0]] of no entries is outside the array. *)
Definition ConstantPool_parse : R ConstantPool :=
  size ← parse_u2_be;
  if size =? 0 then wild else es ← parse_loop (S (Z.to_nat size)) 1 size; mret (Tags :: es).

(** ** [ConstantPool::check] *)

Definition JAVA5_CLASS_FILE_VERSION : Z := 49.
Definition JAVA6_CLASS_FILE_VERSION : Z := 50.

Section check.
Context (u_isalpha u_isalnum : Z -> bool) (verify_all is_trusted_cl : bool) (version : Z).

Definition old_version : bool := version <? JAVA5_CLASS_FILE_VERSION.
Definition member_name_ok (name : string) (is_method : bool) : R bool :=
  value (is_valid_member_name u_isalpha u_isalnum name (String.length name) old_version is_method).
(** [... && !is_valid_member_name(...)] where the name is looked at. *)
Definition require_name (looked_at : bool) (name : string) (is_method : bool) : R unit :=
  if looked_at then b ← member_name_ok name is_method; require b else mret tt.
Definition require_method_descriptor (descriptor : string) : R unit :=
  b ← value (check_method_descriptor u_isalpha u_isalnum descriptor old_version); require b.
(** [is_valid_member_descriptor(...) && *next == '\0'] *)
Definition require_field_descriptor (descriptor : string) : R unit :=
  n ← value (is_valid_member_descriptor u_isalpha u_isalnum descriptor false old_version);
  require (match n with Some EmptyString => true | _ => false end).
Definition require_class_name (name : string) : R unit :=
  b ← value (check_class_name u_isalpha u_isalnum name old_version); require b.

Definition check_methodref (name descriptor : string) : R unit :=
  let init := bool_decide (name = "<init>") in
  _ ← (if is_trusted_cl then
         _ ← require_name (verify_all && negb init) name true;
         require (negb (is_char (char_at name 0) "<"%char && negb init))
       else require_name (negb init) name true);
  _ ← require_method_descriptor descriptor;
  if init then require (is_char (char_at descriptor (String.length descriptor - 1)) "V"%char) else mret tt.
Definition check_fieldref (name descriptor : string) : R unit :=
  _ ← require_name (if is_trusted_cl then verify_all else true) name false;
  require_field_descriptor descriptor.
Definition check_interface_methodref (name descriptor : string) : R unit :=
  _ ← require_name (if is_trusted_cl then verify_all && negb (bool_decide (name = "<clinit>")) else true) name true;
  require_method_descriptor descriptor.

Definition check_ref (cp : ConstantPool) (i : Z) (kind : ref_kind) : R unit :=
  class_index ← value (get_ref_class_index cp i);
  _ ← valid_cpi cp class_index CONSTANT_Class;
  name_type_index ← value (get_ref_name_and_type_index cp i);
  _ ← valid_cpi cp name_type_index CONSTANT_NameAndType;
  name_index ← value (get_name_and_type_name_index cp name_type_index);
  _ ← valid_cpi cp name_index CONSTANT_Utf8;
  descriptor_index ← value (get_name_and_type_descriptor_index cp name_type_index);
  _ ← valid_cpi cp descriptor_index CONSTANT_Utf8;
  name ← value (get_utf8_string cp name_index);
  descriptor ← value (get_utf8_string cp descriptor_index);
  match kind with
  | Methodref => check_methodref name descriptor
  | Fieldref => check_fieldref name descriptor
  | InterfaceMethodref => check_interface_methodref name descriptor
  end.

(** One entry: the pool after it. *)
Definition check_entry (cp : ConstantPool) (i : Z) (e : ConstPoolEntry) : R ConstantPool :=
  match e with
  | ClassRef name_index _ =>
      _ ← valid_cpi cp name_index CONSTANT_Utf8;
      name ← value (get_utf8_string cp name_index);
      _ ← require_class_name name; mret cp
  | Ref kind _ _ => _ ← check_ref cp i kind; mret cp
  | StringRef string_index _ =>
      _ ← valid_cpi cp string_index CONSTANT_Utf8;
      s ← value (get_utf8_string cp string_index);
      mret (resolve_entry cp i (StringRef string_index (Some s)))
  | Integer _ | Float _ | Utf8 _ => mret cp
  | Long _ _ | Double _ _ => _ ← require (negb (i + 1 =? m_size cp)); mret cp
  | NameAndType name_index descriptor_index _ =>
      _ ← valid_cpi cp name_index CONSTANT_Utf8;
      _ ← valid_cpi cp descriptor_index CONSTANT_Utf8;
      name ← value (get_utf8_string cp name_index);
      descriptor ← value (get_utf8_string cp descriptor_index);
      mret (resolve_entry cp i (NameAndType name_index descriptor_index (Some (name, descriptor))))
  | Tags | Unused _ _ => fail
  end.
Fixpoint check_loop (fuel : nat) (i : Z) (cp : ConstantPool) : R ConstantPool :=
  match fuel with
  | O => wild
  | S fuel =>
      if m_size cp <=? i then mret cp
      else
        e ← value (at_ cp i);
        cp ← check_entry cp i e;
        check_loop fuel (match e with Long _ _ | Double _ _ => i + 2 | _ => i + 1 end) cp
  end.
Definition ConstantPool_check (cp : ConstantPool) : R ConstantPool := check_loop (S (length cp)) 1 cp.
End check.
