(* ===== verification/Annotations.v ===== *)
(** * Attributes and annotations: [class_support/Class_File_Loader.cpp]

    Where the code returns a length and zero is a failure, the function fails.  The fuel
    bounds the nesting of values; out of fuel is [Wild]. *)
From Stdlib Require Import Ascii.
From stdpp Require Import strings.
From S2P Require Import Prelude ByteReader VerTypes ClassNames ConstPool.

(** ** Attributes *)

Inductive Attributes :=
  | ATTR_ConstantValue | ATTR_Synthetic | ATTR_Deprecated | ATTR_Signature
  | ATTR_RuntimeVisibleAnnotations | ATTR_RuntimeInvisibleAnnotations
  | ATTR_Code | ATTR_Exceptions | ATTR_RuntimeVisibleParameterAnnotations
  | ATTR_RuntimeInvisibleParameterAnnotations | ATTR_AnnotationDefault
  | ATTR_SourceFile | ATTR_InnerClasses | ATTR_SourceDebugExtension | ATTR_EnclosingMethod
  | ATTR_LineNumberTable | ATTR_LocalVariableTable | ATTR_LocalVariableTypeTable | ATTR_StackMapTable
  | ATTR_UNDEF.

Definition field_attrs : list (string * Attributes) :=
  [("ConstantValue", ATTR_ConstantValue); ("Synthetic", ATTR_Synthetic); ("Deprecated", ATTR_Deprecated);
   ("Signature", ATTR_Signature); ("RuntimeVisibleAnnotations", ATTR_RuntimeVisibleAnnotations);
   ("RuntimeInvisibleAnnotations", ATTR_RuntimeInvisibleAnnotations)].
Definition method_attrs : list (string * Attributes) :=
  [("Code", ATTR_Code); ("Exceptions", ATTR_Exceptions);
   ("RuntimeVisibleParameterAnnotations", ATTR_RuntimeVisibleParameterAnnotations);
   ("RuntimeInvisibleParameterAnnotations", ATTR_RuntimeInvisibleParameterAnnotations);
   ("AnnotationDefault", ATTR_AnnotationDefault); ("Synthetic", ATTR_Synthetic); ("Deprecated", ATTR_Deprecated);
   ("Signature", ATTR_Signature); ("RuntimeVisibleAnnotations", ATTR_RuntimeVisibleAnnotations);
   ("RuntimeInvisibleAnnotations", ATTR_RuntimeInvisibleAnnotations)].
Definition class_attrs : list (string * Attributes) :=
  [("SourceFile", ATTR_SourceFile); ("InnerClasses", ATTR_InnerClasses);
   ("SourceDebugExtension", ATTR_SourceDebugExtension); ("EnclosingMethod", ATTR_EnclosingMethod);
   ("Synthetic", ATTR_Synthetic); ("Deprecated", ATTR_Deprecated); ("Signature", ATTR_Signature);
   ("RuntimeVisibleAnnotations", ATTR_RuntimeVisibleAnnotations);
   ("RuntimeInvisibleAnnotations", ATTR_RuntimeInvisibleAnnotations)].
Definition code_attrs : list (string * Attributes) :=
  [("LineNumberTable", ATTR_LineNumberTable); ("LocalVariableTable", ATTR_LocalVariableTable);
   ("LocalVariableTypeTable", ATTR_LocalVariableTypeTable); ("StackMapTable", ATTR_StackMapTable)].

Section attributes.
Context (cp : ConstantPool).

(** An index of a string, and the string. *)
Definition utf8_at (idx : Z) : R string := _ ← valid_cpi cp idx CONSTANT_Utf8; value (get_utf8_string cp idx).
Definition parse_utf8_index : R string := idx ← parse_u2_be; utf8_at idx.
(** An index of a class, and the name of the class. *)
Definition class_name_at (idx : Z) : R string :=
  _ ← valid_cpi cp idx CONSTANT_Class; name_index ← value (get_class_name_index cp idx); utf8_at name_index.

Definition parse_signature_attr (attr_len : Z) : R string := _ ← require (attr_len =? 2); parse_utf8_index.

(** The attribute of the first entry with the name, and the length; [skip] takes it as an
    [int]. *)
Definition find_attribute (attrs : list (string * Attributes)) (attr_name : string) : option Attributes :=
  snd <$> List.find (fun a => bool_decide (fst a = attr_name)) attrs.
Definition parse_attribute (attrs : list (string * Attributes)) : R (Attributes * Z) :=
  attr_name_index ← parse_u2_be;
  attr_len ← parse_u4_be;
  attr_name ← utf8_at attr_name_index;
  match find_attribute attrs attr_name with
  | Some attr_id => mret (attr_id, attr_len)
  | None => _ ← skip attr_len; mret (ATTR_UNDEF, attr_len)
  end.

(** ** Annotations *)

Inductive AnnotationValue :=
  | AV_int (tag : ascii) (i : Z) | AV_float (f : Z) | AV_long (tag : ascii) (hi_bytes lo_bytes : Z)
  | AV_string (s : string) | AV_class (class_name : string) | AV_enum (type name : string)
  | AV_annotation (nested : string * list (string * AnnotationValue))
  | AV_array (items : list AnnotationValue).
(** The type and the elements. *)
Definition Annotation : Type := string * list (string * AnnotationValue).

(** [parse_annotation] with the function for the values. *)
Definition parse_annotation_with (parse_value : R AnnotationValue) : R Annotation :=
  type ← parse_utf8_index;
  num_elements ← parse_u2_be;
  elements ← times (Z.to_nat num_elements) (name ← parse_utf8_index; '(v, _) ← measured_ok parse_value; mret (name, v));
  mret (type, elements).

Definition parse_const (tag : ascii) : R AnnotationValue :=
  const_idx ← parse_u2_be;
  if existsb (is_char tag) ["Z"; "B"; "S"; "C"; "I"]%char then
    _ ← valid_cpi cp const_idx CONSTANT_Integer;
    i ← value (match at_ cp const_idx with Some (Integer i) => Some i | _ => None end); mret (AV_int tag i)
  else if is_char tag "F"%char then
    _ ← valid_cpi cp const_idx CONSTANT_Float;
    f ← value (match at_ cp const_idx with Some (Float f) => Some f | _ => None end); mret (AV_float f)
  else if is_char tag "J"%char then
    _ ← valid_cpi cp const_idx CONSTANT_Long;
    l ← value (match at_ cp const_idx with Some (Long h l) => Some (h, l) | _ => None end); mret (AV_long tag l.1 l.2)
  else if is_char tag "D"%char then
    _ ← valid_cpi cp const_idx CONSTANT_Double;
    l ← value (match at_ cp const_idx with Some (Double h l) => Some (h, l) | _ => None end); mret (AV_long tag l.1 l.2)
  else s ← utf8_at const_idx; mret (AV_string s).

Fixpoint parse_annotation_value (fuel : nat) : R AnnotationValue :=
  match fuel with
  | O => wild
  | S fuel =>
      t ← parse_u1;
      let tag := ascii_of_N (Z.to_N t) in
      if existsb (is_char tag) ["Z"; "B"; "S"; "C"; "I"; "J"; "F"; "D"; "s"]%char then parse_const tag
      else if is_char tag "c"%char then s ← parse_utf8_index; mret (AV_class s)
      else if is_char tag "e"%char then type ← parse_utf8_index; name ← parse_utf8_index; mret (AV_enum type name)
      else if is_char tag "@"%char then
        '(a, _) ← measured_ok (parse_annotation_with (parse_annotation_value fuel)); mret (AV_annotation a)
      else if is_char tag "["%char then
        num ← parse_u2_be;
        items ← times (Z.to_nat num) ('(v, _) ← measured_ok (parse_annotation_value fuel); mret v);
        mret (AV_array items)
      else fail
  end.
(** As much fuel as there are bytes to read. *)
Definition annotation_value : R AnnotationValue := fun r => parse_annotation_value (S (length (rest r))) r.
Definition parse_annotation : R Annotation := parse_annotation_with annotation_value.

(** [NULL] for no annotations. *)
Definition parse_annotation_table : R (list Annotation) :=
  num_annotations ← parse_u2_be;
  times (Z.to_nat num_annotations) ('(a, _) ← measured_ok parse_annotation; mret a).
Definition parse_parameter_annotations (num_annotations : Z) : R (list (list Annotation)) :=
  times (Z.to_nat num_annotations) ('(t, _) ← measured_ok parse_annotation_table; mret t).

(** Annotations of the length that was declared. *)
Definition annotations_of_length (attr_len : Z) : R (list Annotation) :=
  '(t, read_len) ← measured_ok parse_annotation_table; _ ← require (attr_len =? read_len); mret t.
End attributes.
