(* ===== verification/ClassMembers.v ===== *)
(** * Fields and methods of a class file: [include/class_member.h], [class_support/method.cpp],
    [class_support/Class_File_Loader.cpp]

    The descriptors of the types of fields, which [Field::parse] makes at its end, are left
    out; what [operator =] does not copy of a [Field] is lost in [ClassParse]. *)
From Stdlib Require Import Ascii.
From stdpp Require Import strings.
From S2P Require Import Prelude ByteReader VerTypes ClassNames ConstPool Annotations.

Definition ACC_PUBLIC : Z := 0x0001.
Definition ACC_PRIVATE : Z := 0x0002.
Definition ACC_PROTECTED : Z := 0x0004.
Definition ACC_STATIC : Z := 0x0008.
Definition ACC_FINAL : Z := 0x0010.
Definition ACC_SUPER : Z := 0x0020.
Definition ACC_SYNCHRONIZED : Z := 0x0020.
Definition ACC_BRIDGE : Z := 0x0040.
Definition ACC_VOLATILE : Z := 0x0040.
Definition ACC_VARARGS : Z := 0x0080.
Definition ACC_TRANSIENT : Z := 0x0080.
Definition ACC_NATIVE : Z := 0x0100.
Definition ACC_INTERFACE : Z := 0x0200.
Definition ACC_ABSTRACT : Z := 0x0400.
Definition ACC_STRICT : Z := 0x0800.
Definition ACC_SYNTHETIC : Z := 0x1000.
Definition ACC_ANNOTATION : Z := 0x2000.
Definition ACC_ENUM : Z := 0x4000.
Definition has_acc (flags acc : Z) : bool := negb (Z.land flags acc =? 0).
(** [flags & ~acc] of a [uint16]. *)
Definition clear_acc (flags acc : Z) : Z := Z.ldiff flags acc.
Definition acc_any (l : list Z) : Z := foldr Z.lor 0 l.

(** ** The arguments of a descriptor: [method.cpp] *)

(** After the parenthesis. *)
Fixpoint initialize_arg_list_iterator (descr : string) : option string :=
  match descr with
  | EmptyString => None
  | String c descr => if is_char c "("%char then Some descr else initialize_arg_list_iterator descr
  end.
Definition curr_arg (it : string) : ascii := char_at it 0.
(** After the first semicolon. *)
Fixpoint after_semicolon (iter : string) : option string :=
  match iter with EmptyString => None | String c iter => if is_char c ";"%char then Some iter else after_semicolon iter end.
Definition advance_arg_iterator (it : string) : option string :=
  let iter := (strip_brackets it).2 in
  if is_char (char_at iter 0) ")"%char then Some iter
  else if is_char (char_at iter 0) "L"%char then after_semicolon iter
  else match iter with String _ iter => Some iter | EmptyString => None end.

(** The loops over the arguments; a step that goes on takes a character. *)
Fixpoint fold_args (fuel : nat) (step : Z -> ascii -> Z) (it : string) (n : Z) : option Z :=
  match fuel with
  | O => None
  | S fuel =>
      if is_char (curr_arg it) ")"%char then Some n
      else it' ← advance_arg_iterator it; fold_args fuel step it' (step n (curr_arg it))
  end.
Definition over_args (step : Z -> ascii -> Z) (is_static : bool) (descriptor : string) : option Z :=
  it ← initialize_arg_list_iterator descriptor; fold_args (S (String.length it)) step it (if is_static then 0 else 1).
Definition calculate_arguments_slot_num : bool -> string -> option Z :=
  over_args (fun n typ => n + (if is_char typ "J"%char || is_char typ "D"%char then 2 else 1)).
Definition get_num_ref_args : bool -> string -> option Z :=
  over_args (fun n typ => n + (if is_char typ "L"%char || is_char typ "["%char then 1 else 0)).
Definition get_num_args : bool -> string -> option Z := over_args (fun n _ => n + 1).

(** The character after the first closing parenthesis. *)
Fixpoint get_return_java_type (descr : string) : option ascii :=
  match descr with
  | EmptyString => None
  | String c descr => if is_char c ")"%char then Some (char_at descr 0) else get_return_java_type descr
  end.

(** ** The world of the parser *)

Record Env := MkEnv {
  verify_all : bool; verify : bool; retain_invisible_annotations : bool; TI_enabled : bool;
  u_isalpha : Z -> bool; u_isalnum : Z -> bool;
}.

(** What fields and methods ask of their class. *)
Record Clss := MkClss { m_version : Z; m_access_flags : Z; m_name : string; m_const_pool : ConstantPool; is_trusted_cl : bool }.

Section members.
Context (env : Env) (clss : Clss).
Abbreviation cp := (m_const_pool clss).
Definition old : bool := old_version (m_version clss).
Definition clss_is_interface : bool := has_acc (m_access_flags clss) ACC_INTERFACE.
Definition name_ok (name : string) (is_method : bool) : R bool := member_name_ok (u_isalpha env) (u_isalnum env) (m_version clss) name is_method.

(** [Class_Member::parse] *)
Record Class_Member := MkMember { _access_flags : Z; _name : string; _descriptor : string }.
Definition Class_Member_parse : R Class_Member :=
  flags ← parse_u2_be;
  name_index ← parse_u2_be;
  descriptor_index ← parse_u2_be;
  _ ← valid_cpi cp name_index CONSTANT_Utf8;
  _ ← valid_cpi cp descriptor_index CONSTANT_Utf8;
  name ← value (get_utf8_string cp name_index);
  descriptor ← value (get_utf8_string cp descriptor_index);
  mret (MkMember flags name descriptor).

(** ** Fields *)

Inductive Const_Java_Value := CV_none | CV_i (i : Z) | CV_f (f : Z) | CV_l (hi_bytes lo_bytes : Z) | CV_string (s : option string).
Record Field := MkField {
  field_member : Class_Member;
  _const_value_index : Z; const_value : Const_Java_Value;
  field_deprecated : bool; field_signature : option string;
  field_annotations : list Annotation; field_invisible_annotations : list Annotation;
  _is_magic_type : bool; _is_injected : bool;
}.

Definition is_magic_type_name (name : string) : bool :=
  existsb (fun s => bool_decide (s = name))
    ["Lorg/vmmagic/unboxed/Address;"; "Lorg/vmmagic/unboxed/Offset;"; "Lorg/vmmagic/unboxed/Word;"; "Lorg/vmmagic/unboxed/Extent;"].

(** The access flags after the checks of [Field::parse]. *)
Definition field_flags (flags : Z) : option Z :=
  let has := has_acc flags in
  if clss_is_interface then
    if negb (has ACC_PUBLIC && has ACC_STATIC && has ACC_FINAL) then None
    else if negb (clear_acc flags (acc_any [ACC_FINAL; ACC_PUBLIC; ACC_STATIC; ACC_SYNTHETIC]) =? 0) then None
    else Some (if old then clear_acc flags (acc_any [ACC_SYNTHETIC; ACC_ENUM]) else flags)
  else if (has ACC_PUBLIC && has ACC_PROTECTED) || (has ACC_PROTECTED && has ACC_PRIVATE) || (has ACC_PUBLIC && has ACC_PRIVATE)
      || (has ACC_FINAL && has ACC_VOLATILE) then None
  else Some flags.
Definition require_some {A} (o : option A) : R A := match o with Some a => mret a | None => fail end.

(** The value of an entry for a field whose descriptor begins with [java_type]. *)
Definition constant_value (java_type : ascii) (idx : Z) : R Const_Java_Value :=
  e ← value (at_ cp idx);
  let type_is := is_char java_type in
  match e with
  | Long h l => _ ← require (type_is "J"%char); mret (CV_l h l)
  | Float f => _ ← require (type_is "F"%char); mret (CV_f f)
  | Double h l => _ ← require (type_is "D"%char); mret (CV_l h l)
  | Integer i => _ ← require (type_is "I" || type_is "S" || type_is "Z" || type_is "B" || type_is "C")%char; mret (CV_i i)
  | StringRef _ s => _ ← require (type_is "L"%char); mret (CV_string s)
  | Unused _ _ => mret CV_none
  | _ => fail
  end.

Record field_state := FS { fs_field : Field; numConstantValue : Z; fs_visible : Z; fs_invisible : Z }.
Definition is_static_member (m : Class_Member) : bool := has_acc (_access_flags m) ACC_STATIC.
Definition add_acc (m : Class_Member) (acc : Z) : Class_Member := MkMember (Z.lor (_access_flags m) acc) (_name m) (_descriptor m).
Definition set_field (s : field_state) (f : Field) : field_state := FS f (numConstantValue s) (fs_visible s) (fs_invisible s).

(** One attribute of a field. *)
Definition field_attribute (s : field_state) : R field_state :=
  '(cur_attr, attr_len) ← parse_attribute cp field_attrs;
  let f := fs_field s in
  match cur_attr with
  | ATTR_ConstantValue =>
      let n := numConstantValue s + 1 in
      _ ← require (negb (1 <? n));
      _ ← require (attr_len =? 2);
      let s := FS f n (fs_visible s) (fs_invisible s) in
      if negb (is_static_member (field_member f)) then _ ← skip attr_len; mret s
      else
        idx ← parse_u2_be;
        _ ← require (is_valid_index cp idx);
        v ← constant_value (char_at (_descriptor (field_member f)) 0) idx;
        mret (set_field s (MkField (field_member f) idx v (field_deprecated f) (field_signature f) (field_annotations f)
          (field_invisible_annotations f) (_is_magic_type f) (_is_injected f)))
  | ATTR_Synthetic =>
      _ ← require (attr_len =? 0);
      mret (set_field s (MkField (add_acc (field_member f) ACC_SYNTHETIC) (_const_value_index f) (const_value f) (field_deprecated f)
        (field_signature f) (field_annotations f) (field_invisible_annotations f) (_is_magic_type f) (_is_injected f)))
  | ATTR_Deprecated =>
      _ ← require (attr_len =? 0);
      mret (set_field s (MkField (field_member f) (_const_value_index f) (const_value f) true (field_signature f) (field_annotations f)
        (field_invisible_annotations f) (_is_magic_type f) (_is_injected f)))
  | ATTR_Signature =>
      _ ← require (match field_signature f with None => true | Some _ => false end);
      sig ← parse_signature_attr cp attr_len;
      mret (set_field s (MkField (field_member f) (_const_value_index f) (const_value f) (field_deprecated f) (Some sig) (field_annotations f)
        (field_invisible_annotations f) (_is_magic_type f) (_is_injected f)))
  | ATTR_RuntimeVisibleAnnotations =>
      let n := fs_visible s + 1 in
      _ ← require (negb (1 <? n));
      t ← annotations_of_length cp attr_len;
      mret (FS (MkField (field_member f) (_const_value_index f) (const_value f) (field_deprecated f) (field_signature f) t
        (field_invisible_annotations f) (_is_magic_type f) (_is_injected f)) (numConstantValue s) n (fs_invisible s))
  | ATTR_RuntimeInvisibleAnnotations =>
      let n := fs_invisible s + 1 in
      _ ← require (negb (1 <? n));
      if retain_invisible_annotations env then
        t ← annotations_of_length cp attr_len;
        mret (FS (MkField (field_member f) (_const_value_index f) (const_value f) (field_deprecated f) (field_signature f) (field_annotations f)
          t (_is_magic_type f) (_is_injected f)) (numConstantValue s) (fs_visible s) n)
      else _ ← skip attr_len; mret (FS f (numConstantValue s) (fs_visible s) n)
  | ATTR_UNDEF => mret s
  | _ => fail
  end.

Definition new_field (m : Class_Member) : Field := MkField m 0 CV_none false None [] [] false false.
Definition Field_parse : R Field :=
  m ← Class_Member_parse;
  b ← (if is_trusted_cl clss && negb (verify_all env) then mret true else name_ok (_name m) false);
  _ ← require b;
  _ ← require_field_descriptor (u_isalpha env) (u_isalnum env) (m_version clss) (_descriptor m);
  flags ← require_some (field_flags (_access_flags m));
  let m := MkMember flags (_name m) (_descriptor m) in
  let f := MkField m 0 CV_none false None [] [] (is_magic_type_name (_descriptor m)) false in
  attr_count ← parse_u2_be;
  s ← iterate (Z.to_nat attr_count) field_attribute (FS f 0 0 0);
  mret (fs_field s).

(** ** Handlers and the tables of a method *)

Record BcHandler := MkBcHandler { _start_pc : Z; _end_pc : Z; _handler_pc : Z; _catch_type_index : Z; _catch_type : option string }.
Definition Handler_parse (code_length : Z) : R BcHandler :=
  start ← parse_u2_be;
  _ ← require (negb (code_length <=? start));
  end_ ← parse_u2_be;
  _ ← require (negb (code_length <? end_));
  _ ← require (negb (end_ <=? start));
  handler ← parse_u2_be;
  _ ← require (negb (code_length <=? handler));
  catch_index ← parse_u2_be;
  if catch_index =? 0 then mret (MkBcHandler start end_ handler catch_index None)
  else nm ← class_name_at cp catch_index; mret (MkBcHandler start end_ handler catch_index (Some nm)).

Definition _parse_exceptions (attr_len : Z) : R (list string) :=
  n ← parse_u2_be;
  _ ← require (attr_len =? n * 2 + 2);
  times (Z.to_nat n) (index ← parse_u2_be; class_name_at cp index).

Record Line_Number_Entry := MkLine { line_start_pc : Z; line_number : Z }.
Definition _parse_line_numbers (attr_len byte_code_length : Z) : R (list Line_Number_Entry) :=
  n ← parse_u2_be;
  _ ← require (2 + n * 2 * 2 =? attr_len);
  times (Z.to_nat n) (
    start_pc ← parse_u2_be; _ ← require (negb (byte_code_length <=? start_pc));
    line_number ← parse_u2_be; mret (MkLine start_pc line_number)).
Definition get_line_number_entry (table : option (list Line_Number_Entry)) (index : Z) : option (Z * Z) :=
  match table with
  | Some t => if index <? Z.of_nat (length t) then (fun e => (line_start_pc e, line_number e)) <$> t !! Z.to_nat index else None
  | None => None
  end.

Record Local_Var_Entry := MkVar { lv_start_pc : Z; lv_length : Z; lv_index : Z; lv_name : string; lv_type : string; lv_generic_type : option string }.
Definition same_var (a b : Local_Var_Entry) : bool :=
  (lv_index a =? lv_index b) && bool_decide (lv_name a = lv_name b) && (lv_start_pc a =? lv_start_pc b) && (lv_length a =? lv_length b).
Definition get_local_var_entry (table : option (list Local_Var_Entry)) (index : Z) : option Local_Var_Entry :=
  match table with Some t => if index <? Z.of_nat (length t) then t !! Z.to_nat index else None | None => None end.

(** The fields of an entry at an offset. *)
Definition parse_local_var (max_locals byte_code_length : Z) (generic : bool) (off : Z) : R Local_Var_Entry :=
  _ ← go_to_offset off;
  start_pc ← parse_u2_be;
  len ← parse_u2_be;
  _ ← require (negb ((byte_code_length <=? start_pc) || (byte_code_length <? start_pc + len)));
  name_index ← parse_u2_be;
  descriptor_index ← parse_u2_be;
  name ← utf8_at cp name_index;
  b ← name_ok name false;
  _ ← require b;
  descriptor ← utf8_at cp descriptor_index;
  _ ← (if generic then mret tt else require_field_descriptor (u_isalpha env) (u_isalnum env) (m_version clss) descriptor);
  index ← parse_u2_be;
  let wide := is_char (char_at descriptor 0) "D"%char || is_char (char_at descriptor 0) "J"%char in
  _ ← require (negb (wide && (max_locals - 1 <=? index)));
  _ ← require (negb (max_locals <=? index));
  mret (MkVar start_pc len index name descriptor None).

(** [len] is [table->length], the entries so far are in [table]; the list of offsets is
    followed by [NULL]. *)
Fixpoint parse_local_vars_loop (max_locals byte_code_length : Z) (generic : bool) (offsets : list Z) (len : Z) (table : list Local_Var_Entry)
    : R (list Local_Var_Entry) :=
  if len <=? Z.of_nat (length table) then mret table
  else
    match offsets with
    | [] => wild
    | off :: offsets =>
        e ← parse_local_var max_locals byte_code_length generic off;
        if existsb (same_var e) table then
          if negb (verify env) || old then parse_local_vars_loop max_locals byte_code_length generic offsets (len - 1) table else fail
        else parse_local_vars_loop max_locals byte_code_length generic offsets len (table ++ [e])
    end.
(** The length of the table is a [uint16]. *)
Definition _parse_local_vars (max_locals byte_code_length : Z) (generic : bool) (offsets : list Z) : R (list Local_Var_Entry) :=
  parse_local_vars_loop max_locals byte_code_length generic offsets (ux 16 (Z.of_nat (length offsets))) [].

(** The type of a generic variable goes to the first entry that matches. *)
Fixpoint set_generic_type (g : Local_Var_Entry) (table : list Local_Var_Entry) : option (list Local_Var_Entry) :=
  match table with
  | [] => None
  | e :: table =>
      if same_var g e then Some (MkVar (lv_start_pc e) (lv_length e) (lv_index e) (lv_name e) (lv_type e) (Some (lv_type g)) :: table)
      else table ← set_generic_type g table; Some (e :: table)
  end.
Fixpoint set_generic_types (generic_vars table : list Local_Var_Entry) : R (list Local_Var_Entry) :=
  match generic_vars with
  | [] => mret table
  | g :: generic_vars =>
      match set_generic_type g table with
      | Some table => set_generic_types generic_vars table
      | None => if verify env then fail else set_generic_types generic_vars table
      end
  end.
End members.
