(* ===== verification/MethodParse.v ===== *)
(** * Methods of a class file: [Method::_parse_code] and [Method::parse] of
    [class_support/Class_File_Loader.cpp] *)
From Stdlib Require Import Ascii.
From stdpp Require Import strings.
From S2P Require Import Prelude ByteReader VerTypes ClassNames ConstPool Annotations ClassMembers.

Section methods.
Context (env : Env) (clss : Clss).
Abbreviation cp := (m_const_pool clss).

(** ** Code *)

Record Code := MkCode {
  _max_stack : Z; _max_locals : Z; _byte_codes : list Z; _handlers : list BcHandler;
  _line_number_table : option (list Line_Number_Entry);
  _local_vars_table : option (list Local_Var_Entry);
  m_stackmap : option (list Z);
}.

(** The locals of the function during the loop over the attributes: the offsets of the
    entries of the two tables of variables, whose numbers are the numbers of entries. *)
Record code_state := CS {
  line_table : option (list Line_Number_Entry);
  lvt : list Z; lvtt : list Z;
  numStackMap : Z; stackmap : option (list Z);
  real_code_attr_len : Z;
}.
Definition add_len (s : code_state) (attr_len : Z) : code_state :=
  CS (line_table s) (lvt s) (lvtt s) (numStackMap s) (stackmap s) (ux 32 (real_code_attr_len s + (6 + attr_len))).
Definition entry_offsets (off n : Z) : list Z := (fun j => off + 10 * Z.of_nat j) <$> seq 0 (Z.to_nat n).

(** The entries of a table of variables, looked at later. *)
Definition var_table (attr_len : Z) : R (list Z) :=
  n ← parse_u2_be;
  _ ← require (2 + n * 10 =? attr_len);
  if n =? 0 then mret []
  else off ← (fun r => Done (get_offset r) r); _ ← skip (10 * n); mret (entry_offsets off n).
(** The attribute with its head, once again. *)
Definition read_stackmap (attr_len : Z) : R (list Z) := _ ← skip (-6); times (Z.to_nat (ux 32 (attr_len + 6))) parse_u1.

Definition code_attribute (byte_code_length : Z) (s : code_state) : R code_state :=
  '(cur_attr, attr_len) ← parse_attribute cp code_attrs;
  s ← (match cur_attr with
    | ATTR_LineNumberTable =>
        t ← _parse_line_numbers attr_len byte_code_length;
        mret (CS (Some t) (lvt s) (lvtt s) (numStackMap s) (stackmap s) (real_code_attr_len s))
    | ATTR_LocalVariableTable =>
        l ← var_table attr_len;
        mret (CS (line_table s) (lvt s ++ l) (lvtt s) (numStackMap s) (stackmap s) (real_code_attr_len s))
    | ATTR_LocalVariableTypeTable =>
        if old clss then _ ← skip attr_len; mret s
        else
          l ← var_table attr_len;
          mret (CS (line_table s) (lvt s) (lvtt s ++ l) (numStackMap s) (stackmap s) (real_code_attr_len s))
    | ATTR_StackMapTable =>
        let n := numStackMap s + 1 in
        _ ← require (negb (1 <? n));
        b ← read_stackmap attr_len;
        mret (CS (line_table s) (lvt s) (lvtt s) n (Some b) (real_code_attr_len s))
    | ATTR_UNDEF => mret s
    | _ => fail
    end);
  mret (add_len s attr_len).

(** The tables of variables at the offsets, with [cfs] back where it was. *)
Definition local_variables (max_locals byte_code_length : Z) (lvt lvtt : list Z) : R (option (list Local_Var_Entry)) :=
  return_point ← (fun r => Done (get_offset r) r);
  _ ← require (old clss || negb (bool_decide (lvt = []) && negb (bool_decide (lvtt = []))));
  table ← (if bool_decide (lvt = []) then mret None
    else
      lv_table ← _parse_local_vars env clss max_locals byte_code_length false lvt;
      lv_table ← (if bool_decide (lvtt = []) then mret lv_table
        else generic_vars ← _parse_local_vars env clss max_locals byte_code_length true lvtt; set_generic_types env generic_vars lv_table);
      mret (if TI_enabled env then Some lv_table else None));
  _ ← go_to_offset return_point;
  mret table.

Definition _parse_code (arguments_slot_num code_attr_len : Z) : R Code :=
  max_stack ← parse_u2_be;
  max_locals ← parse_u2_be;
  _ ← require (negb (max_locals <? arguments_slot_num));
  byte_code_length ← parse_u4_be;
  _ ← require (negb ((byte_code_length =? 0) || (2 ^ 16 <=? byte_code_length)));
  byte_codes ← times (Z.to_nat byte_code_length) parse_u1;
  n_handlers ← parse_u2_be;
  handlers ← times (Z.to_nat n_handlers) (Handler_parse clss byte_code_length);
  n_attrs ← parse_u2_be;
  s ← iterate (Z.to_nat n_attrs) (code_attribute byte_code_length)
    (CS None [] [] 0 None (8 + byte_code_length + 2 + n_handlers * 8 + 2));
  _ ← require (code_attr_len =? real_code_attr_len s);
  table ← local_variables max_locals byte_code_length (lvt s) (lvtt s);
  mret (MkCode max_stack max_locals byte_codes handlers (line_table s) table (stackmap s)).

(** ** [Method::parse] *)

Record MethodInfo := MkMethodInfo {
  meth : Class_Member;
  _arguments_slot_num : Z;
  is_finalize : bool; is_init : bool; is_clinit : bool;
  meth_code : option Code; _exceptions : list string;
  meth_deprecated : bool; meth_signature : option string;
  meth_annotations : list Annotation; meth_invisible_annotations : list Annotation;
  _param_annotations : list (list Annotation); _invisible_param_annotations : list (list Annotation);
  _default_value : option AnnotationValue;
}.

(** The flags after the checks. *)
Definition method_flags (flags : Z) (is_init is_clinit : bool) : option Z :=
  let has := has_acc flags in
  if is_clinit then Some (Z.lor (Z.land flags ACC_STRICT) ACC_STATIC)
  else if clss_is_interface clss then
    if negb (has ACC_ABSTRACT && has ACC_PUBLIC) then None
    else if negb (clear_acc flags (acc_any [ACC_ABSTRACT; ACC_PUBLIC; ACC_VARARGS; ACC_BRIDGE; ACC_SYNTHETIC]) =? 0) then None
    else Some (if old clss then clear_acc flags (acc_any [ACC_BRIDGE; ACC_VARARGS; ACC_SYNTHETIC]) else flags)
  else if (has ACC_PRIVATE && has ACC_PROTECTED) || (has ACC_PRIVATE && has ACC_PUBLIC) || (has ACC_PROTECTED && has ACC_PUBLIC) then None
  else if has ACC_ABSTRACT && (has ACC_FINAL || has ACC_NATIVE || has ACC_PRIVATE || has ACC_STATIC || has ACC_STRICT || has ACC_SYNCHRONIZED) then None
  else if is_init && negb (clear_acc flags (acc_any [ACC_STRICT; ACC_VARARGS; ACC_SYNTHETIC; ACC_PUBLIC; ACC_PRIVATE; ACC_PROTECTED]) =? 0) then None
  else Some flags.

(** The method so far and how often an attribute was there. *)
Record method_state := MS { ms : MethodInfo; numCode : Z; numExceptions : Z; ms_visible : Z; ms_invisible : Z; ms_invisible_param : Z }.
Definition with_ms (s : method_state) (m : MethodInfo) : method_state :=
  MS m (numCode s) (numExceptions s) (ms_visible s) (ms_invisible s) (ms_invisible_param s).
Definition meth_has (m : MethodInfo) (acc : Z) : bool := has_acc (_access_flags (meth m)) acc.

(** Annotations of parameters of the length that was declared. *)
Definition param_annotations_of_length (attr_len : Z) : R (list (list Annotation)) :=
  n ← parse_u1;
  '(t, len) ← (if n =? 0 then mret ([], 0) else measured_ok (parse_parameter_annotations cp n));
  _ ← require (attr_len =? ux 32 (1 + len)); mret t.

Definition method_attribute (s : method_state) : R method_state :=
  '(cur_attr, attr_len) ← parse_attribute cp method_attrs;
  let m := ms s in
  match cur_attr with
  | ATTR_Code =>
      let n := numCode s + 1 in
      _ ← require (negb (1 <? n));
      _ ← require (negb (meth_has m ACC_ABSTRACT || meth_has m ACC_NATIVE));
      c ← _parse_code (_arguments_slot_num m) attr_len;
      mret (MS (MkMethodInfo (meth m) (_arguments_slot_num m) (is_finalize m) (is_init m) (is_clinit m) (Some c) (_exceptions m)
        (meth_deprecated m) (meth_signature m) (meth_annotations m) (meth_invisible_annotations m) (_param_annotations m)
        (_invisible_param_annotations m) (_default_value m)) n (numExceptions s) (ms_visible s) (ms_invisible s) (ms_invisible_param s))
  | ATTR_Exceptions =>
      let n := numExceptions s + 1 in
      _ ← require (negb (1 <? n));
      e ← _parse_exceptions clss attr_len;
      mret (MS (MkMethodInfo (meth m) (_arguments_slot_num m) (is_finalize m) (is_init m) (is_clinit m) (meth_code m) e
        (meth_deprecated m) (meth_signature m) (meth_annotations m) (meth_invisible_annotations m) (_param_annotations m)
        (_invisible_param_annotations m) (_default_value m)) (numCode s) n (ms_visible s) (ms_invisible s) (ms_invisible_param s))
  | ATTR_RuntimeInvisibleParameterAnnotations =>
      if retain_invisible_annotations env then
        let n := ms_invisible_param s + 1 in
        _ ← require (negb (1 <? n));
        t ← param_annotations_of_length attr_len;
        mret (MS (MkMethodInfo (meth m) (_arguments_slot_num m) (is_finalize m) (is_init m) (is_clinit m) (meth_code m) (_exceptions m)
          (meth_deprecated m) (meth_signature m) (meth_annotations m) (meth_invisible_annotations m) (_param_annotations m)
          t (_default_value m)) (numCode s) (numExceptions s) (ms_visible s) (ms_invisible s) n)
      else _ ← skip attr_len; mret s
  | ATTR_RuntimeVisibleParameterAnnotations =>
      _ ← require (bool_decide (_param_annotations m = []));
      t ← param_annotations_of_length attr_len;
      mret (with_ms s (MkMethodInfo (meth m) (_arguments_slot_num m) (is_finalize m) (is_init m) (is_clinit m) (meth_code m) (_exceptions m)
        (meth_deprecated m) (meth_signature m) (meth_annotations m) (meth_invisible_annotations m) t
        (_invisible_param_annotations m) (_default_value m)))
  | ATTR_AnnotationDefault =>
      _ ← require (match _default_value m with None => true | Some _ => false end);
      '(v, read_len) ← measured_ok (annotation_value cp);
      _ ← require (read_len =? attr_len);
      mret (with_ms s (MkMethodInfo (meth m) (_arguments_slot_num m) (is_finalize m) (is_init m) (is_clinit m) (meth_code m) (_exceptions m)
        (meth_deprecated m) (meth_signature m) (meth_annotations m) (meth_invisible_annotations m) (_param_annotations m)
        (_invisible_param_annotations m) (Some v)))
  | ATTR_Synthetic =>
      _ ← require (attr_len =? 0);
      mret (with_ms s (MkMethodInfo (add_acc (meth m) ACC_SYNTHETIC) (_arguments_slot_num m) (is_finalize m) (is_init m) (is_clinit m)
        (meth_code m) (_exceptions m) (meth_deprecated m) (meth_signature m) (meth_annotations m) (meth_invisible_annotations m)
        (_param_annotations m) (_invisible_param_annotations m) (_default_value m)))
  | ATTR_Deprecated =>
      _ ← require (attr_len =? 0);
      mret (with_ms s (MkMethodInfo (meth m) (_arguments_slot_num m) (is_finalize m) (is_init m) (is_clinit m) (meth_code m) (_exceptions m)
        true (meth_signature m) (meth_annotations m) (meth_invisible_annotations m) (_param_annotations m)
        (_invisible_param_annotations m) (_default_value m)))
  | ATTR_Signature =>
      _ ← require (match meth_signature m with None => true | Some _ => false end);
      sig ← parse_signature_attr cp attr_len;
      mret (with_ms s (MkMethodInfo (meth m) (_arguments_slot_num m) (is_finalize m) (is_init m) (is_clinit m) (meth_code m) (_exceptions m)
        (meth_deprecated m) (Some sig) (meth_annotations m) (meth_invisible_annotations m) (_param_annotations m)
        (_invisible_param_annotations m) (_default_value m)))
  | ATTR_RuntimeVisibleAnnotations =>
      let n := ms_visible s + 1 in
      _ ← require (negb (1 <? n));
      t ← annotations_of_length cp attr_len;
      mret (MS (MkMethodInfo (meth m) (_arguments_slot_num m) (is_finalize m) (is_init m) (is_clinit m) (meth_code m) (_exceptions m)
        (meth_deprecated m) (meth_signature m) t (meth_invisible_annotations m) (_param_annotations m)
        (_invisible_param_annotations m) (_default_value m)) (numCode s) (numExceptions s) n (ms_invisible s) (ms_invisible_param s))
  | ATTR_RuntimeInvisibleAnnotations =>
      let n := ms_invisible s + 1 in
      _ ← require (negb (1 <? n));
      if retain_invisible_annotations env then
        t ← annotations_of_length cp attr_len;
        mret (MS (MkMethodInfo (meth m) (_arguments_slot_num m) (is_finalize m) (is_init m) (is_clinit m) (meth_code m) (_exceptions m)
          (meth_deprecated m) (meth_signature m) (meth_annotations m) t (_param_annotations m)
          (_invisible_param_annotations m) (_default_value m)) (numCode s) (numExceptions s) (ms_visible s) n (ms_invisible_param s))
      else _ ← skip attr_len; mret (MS m (numCode s) (numExceptions s) (ms_visible s) n (ms_invisible_param s))
  | ATTR_UNDEF => mret s
  | _ => fail
  end.

(** The name is looked at in both branches of the test of the loader. *)
Definition Method_parse : R MethodInfo :=
  m ← Class_Member_parse clss;
  let nm := _name m in
  let init := bool_decide (nm = "<init>") in
  let clinit := bool_decide (nm = "<clinit>") in
  b ← (if init || clinit then mret true else name_ok env clss nm true);
  _ ← require b;
  _ ← require_method_descriptor (u_isalpha env) (u_isalnum env) (m_version clss) (_descriptor m);
  slots ← value (calculate_arguments_slot_num (is_static_member m) (_descriptor m));
  _ ← require (negb (255 <? slots));
  let finalize := bool_decide (nm = "finalize") && bool_decide (_descriptor m = "()V") in
  flags ← require_some (method_flags (_access_flags m) (negb finalize && init) (negb finalize && clinit));
  let m := MkMember flags nm (_descriptor m) in
  attr_count ← parse_u2_be;
  s ← iterate (Z.to_nat attr_count) method_attribute
    (MS (MkMethodInfo m slots finalize (negb finalize && init) (negb finalize && clinit) None [] false None [] [] [] [] None) 0 0 0 0 0);
  let m := ms s in
  _ ← require (negb (negb (meth_has m ACC_ABSTRACT || meth_has m ACC_NATIVE) && (numCode s =? 0)));
  mret m.
End methods.
