(* ===== verification/ClassParse.v ===== *)
(** * Class files: [Class::parse] and [class_extract_name] of
    [class_support/Class_File_Loader.cpp]

    Memory that is allocated is a list of its length, and a write outside it is [Wild]. *)
From Stdlib Require Import Ascii.
From stdpp Require Import strings.
From S2P Require Import Prelude ByteReader VerTypes ClassNames ConstPool Annotations ClassMembers MethodParse.

(** ** The name of a class without the rest: [class_extract_name] *)

(** One entry of the pool; an unknown tag has no contents. *)
Definition skip_entry : R Z :=
  tag ← parse_u1;
  _ ← (if tag =? CONSTANT_Class then skip 2
    else if (tag =? CONSTANT_Fieldref) || (tag =? CONSTANT_Methodref) || (tag =? CONSTANT_InterfaceMethodref) then skip 4
    else if tag =? CONSTANT_String then skip 2
    else if (tag =? CONSTANT_Integer) || (tag =? CONSTANT_Float) then skip 4
    else if (tag =? CONSTANT_Long) || (tag =? CONSTANT_Double) then skip 8
    else if tag =? CONSTANT_NameAndType then skip 4
    else if tag =? CONSTANT_Utf8 then len ← parse_u2_be; skip len
    else mret tt);
  mret tag.
(** [cp_index++], of a [uint16]: twice after a long or a double. *)
Definition next_index (tag cp_index : Z) : Z :=
  ux 16 ((if (tag =? CONSTANT_Long) || (tag =? CONSTANT_Double) then ux 16 (cp_index + 1) else cp_index) + 1).

(** The loops end with the file at the latest. *)
Fixpoint skip_pool (fuel : nat) (cp_index cp_count : Z) : R unit :=
  match fuel with
  | O => wild
  | S fuel => if cp_count <=? cp_index then mret tt else tag ← skip_entry; skip_pool fuel (next_index tag cp_index) cp_count
  end.
Fixpoint const_pool_find_entry (fuel : nat) (cp_index cp_count index : Z) : R unit :=
  match fuel with
  | O => wild
  | S fuel =>
      if cp_count <=? cp_index then fail
      else if cp_index =? index then mret tt
      else tag ← skip_entry; const_pool_find_entry fuel (next_index tag cp_index) cp_count index
  end.

Definition CLASSFILE_MAGIC : Z := 0xCAFEBABE.
Definition bytes_left : R nat := fun r => Done (length (rest r)) r.
(** The tag of an entry that is found is read and not looked at: the tests have [&&], and a
    tag that cannot be read is followed by a number that cannot. *)
Definition extract_name : R string :=
  magic ← parse_u4_be;
  _ ← require (magic =? CLASSFILE_MAGIC);
  _ ← skip 4;
  cp_count ← parse_u2_be;
  offset ← (fun r => Done (get_offset r) r);
  fuel ← bytes_left;
  _ ← skip_pool (S fuel) 1 cp_count;
  _ ← skip 2;
  this_class_idx ← parse_u2_be;
  _ ← go_to_offset offset;
  _ ← const_pool_find_entry (S fuel) 1 cp_count this_class_idx;
  _ ← attempt parse_u1;
  this_class_idx ← parse_u2_be;
  _ ← go_to_offset offset;
  _ ← const_pool_find_entry (S fuel) 1 cp_count this_class_idx;
  _ ← attempt parse_u1;
  class_file_parse_utf8.
Definition class_extract_name (buffer : list ascii) (offset length : Z) : outcome string := extract_name (new_reader buffer offset length).

(** ** [Class::parse] *)

Definition is_trusted_classloader (name : option string) : bool :=
  match name with None => true | Some n => String.prefix "java/" n end.

Section class_parse.
Context (env : Env) (loader_name given_name : option string).

(** The part before the fields. *)
Record ClassHead := MkHead {
  head_class : Clss;
  m_super_class : Z * option string;
  m_superinterfaces : list (string * Z);
}.

Definition class_flags (version flags : Z) : option Z :=
  let flags := if has_acc flags ACC_INTERFACE then Z.lor flags ACC_ABSTRACT else flags in
  let flags := if version <? JAVA5_CLASS_FILE_VERSION then clear_acc flags (acc_any [ACC_SYNTHETIC; ACC_ENUM; ACC_ANNOTATION]) else flags in
  let has := has_acc flags in
  if has ACC_FINAL && has ACC_INTERFACE then None
  else if ((version <=? JAVA5_CLASS_FILE_VERSION) && has ACC_INTERFACE && (has ACC_SYNTHETIC || has ACC_ENUM))
      || ((version =? JAVA6_CLASS_FILE_VERSION) && has ACC_INTERFACE && has ACC_ENUM) then None
  else if has ACC_FINAL && has ACC_ABSTRACT then None
  else if has ACC_ANNOTATION && negb (has ACC_INTERFACE) then None
  else Some flags.

Definition parse_interfaces (cp : ConstantPool) : R (list (string * Z)) :=
  n ← parse_u2_be;
  times (Z.to_nat n) (interface_index ← parse_u2_be; nm ← class_name_at cp interface_index; mret (nm, interface_index)).

(** The version. *)
Definition parse_version : R Z :=
  magic ← parse_u4_be;
  _ ← require (magic =? CLASSFILE_MAGIC);
  minor_version ← parse_u2_be;
  version ← parse_u2_be;
  _ ← require ((45 <=? version) && (version <=? 50));
  _ ← require (negb ((version =? JAVA5_CLASS_FILE_VERSION) && (0 <? minor_version)));
  mret version.
(** The name and the index of the super class. *)
Definition parse_super (version flags : Z) (nm : string) (cp : ConstantPool) : R (Z * option string) :=
  super_class ← parse_u2_be;
  if super_class =? 0 then _ ← require (bool_decide (nm = "java/lang/Object")); mret (super_class, None)
  else
    super_name ← class_name_at cp super_class;
    _ ← require_class_name (u_isalpha env) (u_isalnum env) version super_name;
    _ ← require (negb (has_acc flags ACC_INTERFACE && negb (bool_decide (super_name = "java/lang/Object"))));
    mret (super_class, Some super_name).

Definition parse_head : R ClassHead :=
  let trusted := is_trusted_classloader loader_name in
  version ← parse_version;
  cp ← ConstantPool_parse;
  cp ← ConstantPool_check (u_isalpha env) (u_isalnum env) (verify_all env) trusted version cp;
  flags ← parse_u2_be;
  flags ← require_some (class_flags version flags);
  this_class ← parse_u2_be;
  class_name ← class_name_at cp this_class;
  _ ← require (match given_name with Some n => bool_decide (class_name = n) | None => true end);
  name_index ← value (get_class_name_index cp this_class);
  let cp := resolve_entry cp this_class (ClassRef name_index true) in
  super ← parse_super version flags class_name cp;
  interfaces ← parse_interfaces cp;
  mret (MkHead (MkClss version flags class_name cp trusted) super interfaces).

(** ** Fields and methods *)

(** Two members with the name and the descriptor of each other. *)
Definition same_member (a b : Class_Member) : bool := bool_decide (_name a = _name b) && bool_decide (_descriptor a = _descriptor b).
Fixpoint has_duplicate (l : list Class_Member) : bool :=
  match l with [] => false | a :: l => existsb (same_member a) l || has_duplicate l end.

Definition vm_extra_fields : list (string * string * string * Z) :=
  [("java/lang/Thread", "vm_thread", "J", ACC_PRIVATE);
   ("java/lang/Throwable", "vm_stacktrace", "[J", Z.lor ACC_PRIVATE ACC_TRANSIENT);
   ("java/lang/Class", "vm_class", "J", ACC_PRIVATE)].
Definition extra_fields (class_name : string) : list (string * string * string * Z) :=
  List.filter (fun x => bool_decide (x.1.1.1 = class_name)) vm_extra_fields.
(** [operator =] of a [Field] does not copy the invisible annotations. *)
Definition assign_field (f : Field) : Field :=
  MkField (field_member f) (_const_value_index f) (const_value f) (field_deprecated f) (field_signature f) (field_annotations f) []
    (_is_magic_type f) (_is_injected f).
Definition injected_field (x : string * string * string * Z) : Field :=
  MkField (MkMember x.2 x.1.1.2 x.1.2) 0 CV_none false None [] [] false true.
(** [m_fields[i] = f] *)
Definition put_field (fields : list Field) (i : nat) (f : Field) : R (list Field) :=
  if (i <? length fields)%nat then mret (<[i := f]> fields) else wild.

(** The static fields go to the front, the others to the back. *)
Fixpoint fields_loop (clss : Clss) (n : nat) (fields : list Field) (m_num_static_fields last_nonstatic_field : nat) : R (list Field * nat) :=
  match n with
  | O => mret (fields, m_num_static_fields)
  | S n =>
      fd ← Field_parse env clss;
      if is_static_member (field_member fd) then
        fields ← put_field fields m_num_static_fields (assign_field fd);
        fields_loop clss n fields (S m_num_static_fields) last_nonstatic_field
      else
        fields ← put_field fields (last_nonstatic_field - 1) (assign_field fd);
        fields_loop clss n fields m_num_static_fields (last_nonstatic_field - 1)
  end.
Fixpoint add_extra_fields (l : list (string * string * string * Z)) (i : nat) (fields : list Field) : R (list Field) :=
  match l with
  | [] => mret fields
  | x :: l => fields ← put_field fields i (injected_field x); add_extra_fields l (S i) fields
  end.
(** The number of the fields is a [uint16]. *)
Definition parse_fields (clss : Clss) : R (list Field * nat) :=
  n ← parse_u2_be;
  let extra := extra_fields (m_name clss) in
  let m_num_fields := ux 16 (n + Z.of_nat (length extra)) in
  let num_fields_in_class_file := Z.to_nat n in
  '(fields, statics) ← fields_loop clss num_fields_in_class_file (replicate (Z.to_nat m_num_fields) (new_field (MkMember 0 "" ""))) 0 num_fields_in_class_file;
  _ ← require (negb (has_duplicate (field_member <$> take num_fields_in_class_file fields)));
  fields ← add_extra_fields extra num_fields_in_class_file fields;
  mret (fields, statics).

(** The methods, the index of the static initialiser and that of the default constructor. *)
Fixpoint methods_loop (clss : Clss) (n : nat) (methods : list MethodInfo) (m_static_initializer m_default_constructor : option nat)
    : R (list MethodInfo * option nat * option nat) :=
  match n with
  | O => mret (methods, m_static_initializer, m_default_constructor)
  | S n =>
      m ← Method_parse env clss;
      _ ← require (negb (is_clinit m && match m_static_initializer with Some _ => true | None => false end));
      let i := length methods in
      let init := if is_clinit m then Some i else m_static_initializer in
      let constructor := if bool_decide (_name (meth m) = "<init>") && bool_decide (_descriptor (meth m) = "()V") then Some i else m_default_constructor in
      methods_loop clss n (methods ++ [m]) init constructor
  end.
Definition parse_methods (clss : Clss) : R (list MethodInfo * option nat * option nat) :=
  n ← parse_u2_be;
  '(methods, init, constructor) ← methods_loop clss (Z.to_nat n) [] None None;
  _ ← require (negb (has_duplicate (meth <$> methods)));
  mret (methods, init, constructor).

(** ** The attributes of a class *)

Record ClassAttrs := MkAttrs {
  attr_access_flags : Z;
  m_src_file_name : option string; m_sourceDebugExtension : option string;
  m_innerclasses : option (list (Z * Z)); m_num_innerclasses : Z;
  m_declaring_class_index : Z; m_simple_name : option string;
  m_enclosing_class_index : Z; m_enclosing_method_index : Z;
  m_deprecated : bool; m_signature : option string;
  m_annotations : list Annotation; m_invisible_annotations : list Annotation;
}.

(** [strchr(m_name->bytes, '$')] *)
Definition has_dollar (s : string) : bool := existsb (is_char "$"%char) (String.list_ascii_of_string s).
(** The state of the loop over the inner classes. *)
Record inner_state := IS { found_myself : Z; inner_index : nat; inner_classes : list (Z * Z); is_flags : Z; is_declaring : Z; is_simple : option string }.
Definition put_inner (l : list (Z * Z)) (i : nat) (f : Z * Z -> Z * Z) : R (list (Z * Z)) :=
  match l !! i with Some x => mret (<[i := f x]> l) | None => wild end.

Definition inner_class (clss : Clss) (s : inner_state) : R inner_state :=
  let cp := m_const_pool clss in
  inner_clss_info_idx ← parse_u2_be;
  _ ← (if inner_clss_info_idx =? 0 then mret tt else valid_cpi cp inner_clss_info_idx CONSTANT_Class);
  found ← (if found_myself s =? 0 then
      name_index ← value (get_class_name_index cp inner_clss_info_idx);
      clssname ← utf8_at cp name_index;
      mret (if bool_decide (m_name clss = clssname) then 1 else found_myself s)
    else mret (found_myself s));
  l ← (if found =? 1 then mret (inner_classes s) else put_inner (inner_classes s) (inner_index s) (fun x => (inner_clss_info_idx, x.2)));
  outer_clss_info_idx ← parse_u2_be;
  _ ← (if outer_clss_info_idx =? 0 then mret tt else valid_cpi cp outer_clss_info_idx CONSTANT_Class);
  let declaring := if (found =? 1) && negb (outer_clss_info_idx =? 0) then outer_clss_info_idx else is_declaring s in
  inner_name_idx ← parse_u2_be;
  _ ← (if inner_name_idx =? 0 then mret tt else valid_cpi cp inner_name_idx CONSTANT_Utf8);
  simple ← (if found =? 1 then
      if inner_name_idx =? 0 then mret (Some EmptyString) else s ← value (get_utf8_string cp inner_name_idx); mret (Some s)
    else mret (is_simple s));
  inner_clss_access_flag ← parse_u2_be;
  if found =? 1 then mret (IS 2 (inner_index s) l inner_clss_access_flag declaring simple)
  else l ← put_inner l (inner_index s) (fun x => (x.1, inner_clss_access_flag)); mret (IS found (S (inner_index s)) l (is_flags s) declaring simple).

(** An array of twice the number of the classes. *)
Definition parse_inner_classes (clss : Clss) (attr_len : Z) (a : ClassAttrs) : R ClassAttrs :=
  _ ← require (negb (negb (m_declaring_class_index a =? 0) || match m_innerclasses a with Some _ => true | None => false end));
  let isinner := has_dollar (m_name clss) in
  num_of_classes ← parse_u2_be;
  let num := if isinner then ux 16 (num_of_classes - 1) else num_of_classes in
  s ← iterate (Z.to_nat num_of_classes) (inner_class clss)
    (IS (if isinner then 0 else 2) 0 (if num_of_classes =? 0 then [] else replicate (2 * Z.to_nat num) (0, 0)) (attr_access_flags a)
      (m_declaring_class_index a) (m_simple_name a));
  _ ← require (2 + num_of_classes * 8 =? attr_len);
  mret (MkAttrs (is_flags s) (m_src_file_name a) (m_sourceDebugExtension a)
    (if num_of_classes =? 0 then m_innerclasses a else Some (inner_classes s)) num (is_declaring s) (is_simple s)
    (m_enclosing_class_index a) (m_enclosing_method_index a) (m_deprecated a) (m_signature a) (m_annotations a) (m_invisible_annotations a)).

Record class_state := CST { cs_attrs : ClassAttrs; numSourceFile : Z; numSourceDebugExtensions : Z; numEnclosingMethods : Z; cs_visible : Z; cs_invisible : Z }.
Definition with_attrs (s : class_state) (a : ClassAttrs) : class_state :=
  CST a (numSourceFile s) (numSourceDebugExtensions s) (numEnclosingMethods s) (cs_visible s) (cs_invisible s).

Definition class_attribute (clss : Clss) (s : class_state) : R class_state :=
  let cp := m_const_pool clss in
  '(cur_attr, attr_len) ← parse_attribute cp class_attrs;
  let a := cs_attrs s in
  match cur_attr with
  | ATTR_SourceFile =>
      let n := numSourceFile s + 1 in
      _ ← require (negb (1 <? n));
      _ ← require (attr_len =? 2);
      f ← parse_utf8_index cp;
      mret (CST (MkAttrs (attr_access_flags a) (Some f) (m_sourceDebugExtension a) (m_innerclasses a) (m_num_innerclasses a)
        (m_declaring_class_index a) (m_simple_name a) (m_enclosing_class_index a) (m_enclosing_method_index a) (m_deprecated a)
        (m_signature a) (m_annotations a) (m_invisible_annotations a)) n (numSourceDebugExtensions s) (numEnclosingMethods s) (cs_visible s) (cs_invisible s))
  | ATTR_InnerClasses => a ← parse_inner_classes clss attr_len a; mret (with_attrs s a)
  | ATTR_SourceDebugExtension =>
      let n := numSourceDebugExtensions s + 1 in
      _ ← require (negb (1 <? n));
      e ← class_file_parse_utf8data (ux 16 attr_len);
      mret (CST (MkAttrs (attr_access_flags a) (m_src_file_name a) (Some e) (m_innerclasses a) (m_num_innerclasses a)
        (m_declaring_class_index a) (m_simple_name a) (m_enclosing_class_index a) (m_enclosing_method_index a) (m_deprecated a)
        (m_signature a) (m_annotations a) (m_invisible_annotations a)) (numSourceFile s) n (numEnclosingMethods s) (cs_visible s) (cs_invisible s))
  | ATTR_EnclosingMethod =>
      let n := numEnclosingMethods s + 1 in
      _ ← require (negb (1 <? n));
      _ ← require (attr_len =? 4);
      class_idx ← parse_u2_be;
      _ ← valid_cpi cp class_idx CONSTANT_Class;
      method_idx ← parse_u2_be;
      _ ← (if method_idx =? 0 then mret tt else valid_cpi cp method_idx CONSTANT_NameAndType);
      mret (CST (MkAttrs (attr_access_flags a) (m_src_file_name a) (m_sourceDebugExtension a) (m_innerclasses a) (m_num_innerclasses a)
        (m_declaring_class_index a) (m_simple_name a) class_idx method_idx (m_deprecated a)
        (m_signature a) (m_annotations a) (m_invisible_annotations a)) (numSourceFile s) (numSourceDebugExtensions s) n (cs_visible s) (cs_invisible s))
  | ATTR_Synthetic =>
      _ ← require (attr_len =? 0);
      mret (with_attrs s (MkAttrs (Z.lor (attr_access_flags a) ACC_SYNTHETIC) (m_src_file_name a) (m_sourceDebugExtension a) (m_innerclasses a)
        (m_num_innerclasses a) (m_declaring_class_index a) (m_simple_name a) (m_enclosing_class_index a) (m_enclosing_method_index a)
        (m_deprecated a) (m_signature a) (m_annotations a) (m_invisible_annotations a)))
  | ATTR_Deprecated =>
      _ ← require (attr_len =? 0);
      mret (with_attrs s (MkAttrs (attr_access_flags a) (m_src_file_name a) (m_sourceDebugExtension a) (m_innerclasses a)
        (m_num_innerclasses a) (m_declaring_class_index a) (m_simple_name a) (m_enclosing_class_index a) (m_enclosing_method_index a)
        true (m_signature a) (m_annotations a) (m_invisible_annotations a)))
  | ATTR_Signature =>
      _ ← require (match m_signature a with None => true | Some _ => false end);
      sig ← parse_signature_attr cp attr_len;
      mret (with_attrs s (MkAttrs (attr_access_flags a) (m_src_file_name a) (m_sourceDebugExtension a) (m_innerclasses a)
        (m_num_innerclasses a) (m_declaring_class_index a) (m_simple_name a) (m_enclosing_class_index a) (m_enclosing_method_index a)
        (m_deprecated a) (Some sig) (m_annotations a) (m_invisible_annotations a)))
  | ATTR_RuntimeVisibleAnnotations =>
      let n := cs_visible s + 1 in
      _ ← require (negb (1 <? n));
      t ← annotations_of_length cp attr_len;
      mret (CST (MkAttrs (attr_access_flags a) (m_src_file_name a) (m_sourceDebugExtension a) (m_innerclasses a) (m_num_innerclasses a)
        (m_declaring_class_index a) (m_simple_name a) (m_enclosing_class_index a) (m_enclosing_method_index a) (m_deprecated a)
        (m_signature a) t (m_invisible_annotations a)) (numSourceFile s) (numSourceDebugExtensions s) (numEnclosingMethods s) n (cs_invisible s))
  | ATTR_RuntimeInvisibleAnnotations =>
      if retain_invisible_annotations env then
        let n := cs_invisible s + 1 in
        _ ← require (negb (1 <? n));
        t ← annotations_of_length cp attr_len;
        mret (CST (MkAttrs (attr_access_flags a) (m_src_file_name a) (m_sourceDebugExtension a) (m_innerclasses a) (m_num_innerclasses a)
          (m_declaring_class_index a) (m_simple_name a) (m_enclosing_class_index a) (m_enclosing_method_index a) (m_deprecated a)
          (m_signature a) (m_annotations a) t) (numSourceFile s) (numSourceDebugExtensions s) (numEnclosingMethods s) (cs_visible s) n)
      else _ ← skip attr_len; mret s
  | ATTR_UNDEF => mret s
  | _ => fail
  end.

Record Class := MkClass {
  head : ClassHead;
  m_fields : list Field; m_num_static_fields : nat;
  m_methods : list MethodInfo; m_static_initializer : option nat; m_default_constructor : option nat;
  attrs : ClassAttrs;
}.

(** [Class::parse] but for the attributes of the class. *)
Definition parse_members : R (ClassHead * (list Field * nat) * (list MethodInfo * option nat * option nat)) :=
  h ← parse_head;
  fields ← parse_fields (head_class h);
  methods ← parse_methods (head_class h);
  mret (h, fields, methods).
Definition parse_class_attributes (clss : Clss) : R ClassAttrs :=
  n_attrs ← parse_u2_be;
  s ← iterate (Z.to_nat n_attrs) (class_attribute clss)
    (CST (MkAttrs (m_access_flags clss) None None None 0 0 None 0 0 false None [] []) 0 0 0 0 0);
  more ← (fun r => Done (have 1 r) r);
  _ ← require (negb more);
  mret (cs_attrs s).
Definition Class_parse : R Class :=
  '(h, (fields, statics), (methods, init, constructor)) ← parse_members;
  a ← parse_class_attributes (head_class h);
  mret (MkClass h fields statics methods init constructor a).
End class_parse.
