(* ===== verification/ClassFileOk.v ===== *)
(** * Parsing class files: no access outside the file and no failed assertion

    The names and descriptors of every version, the constant pool, annotations, fields,
    methods and the class, for files of fewer than 65534 bytes. *)
From Stdlib Require Import Ascii.
From stdpp Require Import strings.
From S2P Require Import Prelude ByteReader VerTypes ClassNames ClassNamesOk Descriptors ConstPool Annotations ClassMembers MethodParse ClassParse.

#[local] Arguments String.append !_ _ / : simpl nomatch.

(** ** Names and descriptors of every version *)

Definition str_ok (s : string) : Prop := valid_utf8 (la s) = true.

Section names.
Context (u_isalpha u_isalnum : Z -> bool).

Lemma name_byte_at s i c : la s !! i = Some c -> name_byte s i = Some (byte_of c).
Proof.
  intros H. destruct (char_at_la s i c H) as [Hc Hi]. unfold name_byte. rewrite (proj2 (Nat.leb_le _ _)) by lia. by rewrite Hc.
Qed.

(** The character may be refused. *)
Ltac name_char_ok := match goal with |- is_Some (if ?b then _ else _) => destruct b; [by eexists|] end.

Lemma identifier_loop_total fuel s len i l : (forall j c, l !! j = Some c -> la s !! (i + j)%nat = Some c) ->
  len = (i + length l)%nat -> valid_utf8 l = true -> is_Some (identifier_loop u_isalpha u_isalnum fuel s len i).
Proof.
  revert i l. induction fuel as [|fuel IH]; intros i l Hp Hlen Hv; [by eexists|]. cbn [identifier_loop].
  destruct l as [|b l1]; simpl in Hlen; [rewrite (proj2 (Nat.leb_le _ _)) by lia; by eexists|].
  rewrite (proj2 (Nat.leb_gt _ _)) by lia.
  assert (Hat : forall k c, (b :: l1) !! k = Some c -> name_byte s (i + k) = Some (byte_of c)) by (intros k c Hk; by apply name_byte_at, Hp).
  assert (Hshift : forall (n : nat) (l' : list ascii), (forall j c, l' !! j = Some c -> (b :: l1) !! (n + j)%nat = Some c) ->
    forall j c, l' !! j = Some c -> la s !! (i + n + j)%nat = Some c).
  { intros n l' Hl j c Hj. rewrite <- Nat.add_assoc. by apply Hp, Hl. }
  pose proof (Hat O b eq_refl) as Hb. rewrite Nat.add_0_r in Hb. rewrite Hb. cbn [mbind option_bind].
  change (Z.land (byte_of b) 0x80 =? 0) with (is_one (byte_of b)). simpl in Hv. destruct (is_one (byte_of b)) eqn:E1.
  { apply andb_prop in Hv as [_ Hv]. cbn [negb]. cbv iota. cbn [mbind option_bind]. name_char_ok. apply (IH (i + 1)%nat l1); [by apply (Hshift 1%nat)|lia|done]. }
  cbn [negb]. destruct (is_two (byte_of b)) eqn:E2.
  { destruct (lead_bits _ E1 (or_introl E2)) as [-> ->]. rewrite E2. cbn [negb]. destruct l1 as [|c l2]; [done|]. simpl in Hlen.
    apply andb_prop in Hv as [_ Hv]. rewrite (Hat 1%nat c eq_refl). cbn [mbind option_bind]. name_char_ok.
    apply (IH (i + 2)%nat l2); [by apply (Hshift 2%nat)|lia|done]. }
  destruct (is_three (byte_of b)) eqn:E3; [|done]. destruct (lead_bits _ E1 (or_intror E3)) as [-> ->]. rewrite E2. cbn [negb].
  destruct l1 as [|c [|d l3]]; [done..|]. simpl in Hlen. apply andb_prop in Hv as [_ Hv].
  rewrite (Hat 1%nat c eq_refl), (Hat 2%nat d eq_refl). cbn [mbind option_bind]. name_char_ok.
  apply (IH (i + 3)%nat l3); [by apply (Hshift 3%nat)|lia|done].
Qed.

Lemma member_name_total name k old is_method : str_ok name ->
  is_Some (is_valid_member_name u_isalpha u_isalnum (String.append name k) (String.length name) old is_method).
Proof.
  intros Hv. destruct old.
  - unfold is_valid_member_name, is_identifier. eapply (identifier_loop_total _ _ _ _ (la name)); [|by rewrite la_length|done].
    intros j c Hj. rewrite la_app. by apply lookup_app_l_Some.
  - rewrite is_valid_member_name_spec by done. by eexists.
Qed.
Lemma whole_name_total name old is_method : str_ok name -> is_Some (is_valid_member_name u_isalpha u_isalnum name (String.length name) old is_method).
Proof. intros Hv. pose proof (member_name_total name EmptyString old is_method Hv) as H. by rewrite append_nil in H. Qed.

(** The part of the name of a class that is looked at is a name of its own. *)
Lemma class_descriptor_total p it old : str_ok (String.append p it) ->
  exists r, class_descriptor u_isalpha u_isalnum (String.append p it) (String.length p) it old = Some r /\
    forall k, r = Some k -> exists n, split_semi it = Some (n, k).
Proof.
  revert p. induction it as [|c it IH]; intros p Hv; [by exists None|]. cbn [class_descriptor split_semi].
  assert (Hone : forall d, c = d -> is_one (byte_of d) = true -> str_ok p /\ str_ok it).
  { intros d -> Hd. unfold str_ok in *. rewrite la_app in Hv. by apply (valid_utf8_split _ d). }
  destruct (is_char c ";"%char) eqn:Es.
  { apply is_char_eq in Es. destruct (Hone _ Es eq_refl) as [Hvp _]. destruct (member_name_total p (String c it) old false Hvp) as [b ->]. simpl.
    exists (if b then Some it else None). split; [done|]. intros k Hk. destruct b; [|done]. injection Hk as <-. by exists EmptyString. }
  destruct (is_char c "/"%char) eqn:Ec.
  { apply is_char_eq in Ec. destruct (Hone _ Ec eq_refl) as [Hvp Hvi]. destruct (member_name_total p (String c it) old false Hvp) as [b ->]. simpl.
    destruct b; simpl; [|by exists None]. destruct (IH EmptyString Hvi) as (r & Hr & Hk). exists r. split; [exact Hr|].
    intros k Hrk. destruct (Hk k Hrk) as [n ->]. by exists (String c n). }
  specialize (IH (String.append p (String c EmptyString))). rewrite append_assoc, append_length in IH.
  replace (String.length p + String.length (String c EmptyString))%nat with (S (String.length p)) in IH by (simpl; lia).
  destruct (IH Hv) as (r & Hr & Hk). exists r. split; [exact Hr|]. intros k Hrk. destruct (Hk k Hrk) as [n ->]. by exists (String c n).
Qed.
End names.

(** *** The shape of descriptors *)

Section descriptors.
Context (u_isalpha u_isalnum : Z -> bool) (old : bool).

Lemma base_descriptor_total s void : str_ok s ->
  exists r, is_valid_base_descriptor u_isalpha u_isalnum s void old = Some r /\
    forall k, r = Some k -> exists e, shape_elem void e = true /\ s = String.append (print_elem e) k.
Proof.
  intros Hv. destruct s as [|c s]; [by exists None|]. unfold is_valid_base_descriptor. fold prims.
  destruct (existsb (is_char c) prims) eqn:Ep; [exists (Some s); split; [done|]; intros k [= <-]; by exists (Prim c)|].
  destruct (is_char c "V"%char) eqn:Ev.
  { apply is_char_eq in Ev as ->. destruct void; [exists (Some s); split; [done|]; intros k [= <-]; by exists Void|by exists None]. }
  destruct (is_char c "L"%char) eqn:El; [|by exists None]. apply is_char_eq in El as ->.
  destruct (class_descriptor_total u_isalpha u_isalnum EmptyString s old Hv) as (r & Hr & Hk). exists r. split; [exact Hr|].
  intros k Hrk. destruct (Hk k Hrk) as [n Hn]. apply split_semi_sound in Hn as [-> Hn]. exists (Object n). split; [done|].
  simpl. by rewrite append_assoc.
Qed.

Lemma member_descriptor_total s void : str_ok s ->
  exists r, is_valid_member_descriptor u_isalpha u_isalnum s void old = Some r /\
    forall k, r = Some k -> exists t, shape void t /\ s = String.append (print_type t) k.
Proof.
  intros Hv. unfold is_valid_member_descriptor. destruct (strip_brackets s) as [d k] eqn:Es.
  apply strip_brackets_sound in Es as [-> _]. unfold str_ok in Hv. rewrite brackets_utf8 in Hv. destruct (255 <? d)%nat; [by exists None|].
  destruct (base_descriptor_total k void Hv) as (r & Hr & Hk). exists r. split; [done|].
  intros k' Hk'. destruct (Hk k' Hk') as (e & He & ->). exists (JType d e). split; [done|]. unfold print_type. by rewrite brackets_append.
Qed.

Lemma shape_utf8 void t k : shape void t -> str_ok (String.append (print_type t) k) -> str_ok k.
Proof.
  unfold shape, str_ok, print_type. intros He. rewrite brackets_append, brackets_utf8. destruct (elem_type t) as [c| |n]; simpl in *.
  - apply (print_elem_utf8 true (Prim c) k He).
  - done.
  - change (valid_utf8 (la (String.append (String.append n (String ";" EmptyString)) k)) = true -> valid_utf8 (la k) = true).
    rewrite append_assoc, la_app. intros H. by apply (valid_utf8_split _ ";"%char) in H as [_ H].
Qed.

Lemma method_arguments_total fuel s : str_ok s -> (String.length s < fuel)%nat ->
  exists r, method_arguments u_isalpha u_isalnum fuel s old = Some r /\
    forall k, r = Some k -> exists ts k', Forall (shape false) ts /\ k = String ")" k' /\ s = print_types ts k.
Proof.
  revert s. induction fuel as [|fuel IH]; intros s Hv Hf; [lia|]. cbn [method_arguments].
  destruct (is_char (char_at s 0) ")"%char) eqn:Ep.
  { exists (Some s). split; [done|]. intros k [= <-]. destruct s as [|c s]; [done|]. change (is_char c ")"%char = true) in Ep.
    apply is_char_eq in Ep as ->. by exists [], s. }
  destruct (member_descriptor_total s false Hv) as (r & -> & Hk). simpl. destruct r as [[|c k1]|]; [by exists None| |by exists None].
  destruct (Hk _ eq_refl) as (t & Ht & Hs). assert (Hv1 : str_ok (String c k1)) by (subst s; by eapply shape_utf8).
  destruct (IH (String c k1) Hv1) as (r & Hr & Hk2).
  { apply (f_equal String.length) in Hs. rewrite append_length in Hs. pose proof (print_type_length t). lia. }
  exists r. split; [done|]. intros k Hrk. destruct (Hk2 k Hrk) as (ts & k' & Hts & -> & Heq). exists (t :: ts), k'.
  split; [by constructor|]. split; [done|]. simpl. by rewrite Hs, Heq.
Qed.

(** A descriptor of a method that is accepted is one of the grammar, whatever its names. *)
Lemma check_method_descriptor_total s : str_ok s ->
  exists b, check_method_descriptor u_isalpha u_isalnum s old = Some b /\
    (b = true -> exists args ret, Forall (shape false) args /\ shape true ret /\ s = print_method args ret).
Proof.
  intros Hv. unfold print_method. destruct s as [|c s]; simpl; [by exists false|].
  destruct (is_char c "("%char) eqn:Ec; simpl; [|by exists false]. apply is_char_eq in Ec as ->. change (str_ok s) in Hv.
  destruct (method_arguments_total (S (String.length s)) s Hv ltac:(lia)) as (r & Hr & Hk). cbn [method_arguments] in Hr. rewrite Hr. simpl.
  destruct r as [[|d k]|]; [by exists false| |by exists false]. destruct (Hk _ eq_refl) as (args & k' & Ha & [= -> ->] & Hs).
  assert (Hvk : str_ok k').
  { assert (exists l, la s = l ++ ")"%char :: la k') as [l Hl].
    { clear -Hs. revert s Hs. induction args as [|t args IH]; intros s ->; [by exists []|]. simpl.
      destruct (IH _ eq_refl) as [l Hl]. exists (la (print_type t) ++ l). by rewrite la_app, Hl, app_assoc. }
    unfold str_ok in *. rewrite Hl in Hv. by apply valid_utf8_split in Hv as [_ Hv]. }
  destruct (member_descriptor_total k' true Hvk) as (r & -> & Hk2). simpl. exists (match r with Some EmptyString => true | _ => false end). split; [done|].
  destruct r as [[|]|]; try done. intros _. destruct (Hk2 _ eq_refl) as (ret & Hret & ->). exists args, ret. rewrite append_nil in Hs. by rewrite Hs.
Qed.

Lemma class_name_loop_total p it : str_ok (String.append p it) ->
  is_Some (class_name_loop u_isalpha u_isalnum (String.append p it) (String.length p) it old).
Proof.
  revert p. induction it as [|c it IH]; intros p Hv; cbn [class_name_loop].
  { rewrite append_nil in *. rewrite <- (append_nil p) at 1. by apply member_name_total. }
  destruct (is_char c "/"%char) eqn:Ec; cbn [negb].
  - apply is_char_eq in Ec as ->. unfold str_ok in Hv. rewrite la_app in Hv. apply (valid_utf8_split _ "/"%char) in Hv as [Hvp Hvi]; [|done].
    destruct (member_name_total u_isalpha u_isalnum p (String "/" it) old false Hvp) as [b ->]. simpl. destruct b; simpl; [|by eexists].
    exact (IH EmptyString Hvi).
  - specialize (IH (String.append p (String c EmptyString))). rewrite append_assoc, append_length in IH.
    replace (String.length p + String.length (String c EmptyString))%nat with (S (String.length p)) in IH by (simpl; lia). exact (IH Hv).
Qed.
Lemma check_class_name_total s : str_ok s -> is_Some (check_class_name u_isalpha u_isalnum s old).
Proof.
  intros Hv. unfold check_class_name. destruct (String.length s =? 0)%nat; [by eexists|]. destruct (is_char _ _).
  - destruct (member_descriptor_total s false Hv) as (r & -> & _). by eexists.
  - exact (class_name_loop_total EmptyString s Hv).
Qed.
End descriptors.

(** *** The slots of the arguments *)

Lemma after_semicolon_spec n k : forallb (fun c => negb (is_char c ";"%char)) (la n) = true -> after_semicolon (String.append n (String ";" k)) = Some k.
Proof. induction n as [|c n IH]; simpl; [done|]. intros [Hc Hn]%andb_prop. apply negb_true_iff in Hc. rewrite Hc. by apply IH. Qed.
Lemma advance_arg_spec t k : shape false t -> advance_arg_iterator (String.append (print_type t) k) = Some k.
Proof.
  intros He. unfold advance_arg_iterator, print_type. rewrite brackets_append, strip_brackets_complete by (by apply (shape_head false)).
  cbn [snd]. unfold shape in He. destruct (elem_type t) as [c| |n]; simpl in He; [|done|].
  - cbn [print_elem]. change (String.append (String c EmptyString) k) with (String c k). change (char_at (String c k) 0) with c.
    repeat (apply orb_prop in He as [He|He]; [by apply is_char_eq in He as ->|]). done.
  - cbn [print_elem]. change (String.append (String "L" (String.append n (String ";" EmptyString))) k) with (String "L" (String.append (String.append n (String ";" EmptyString)) k)).
    change (char_at (String "L" _) 0) with "L"%char. cbn [is_char]. change (is_char "L" ")") with false. change (is_char "L" "L") with true. cbv iota.
    cbn [after_semicolon]. change (is_char "L" ";") with false. cbv iota. rewrite append_assoc. by apply after_semicolon_spec.
Qed.
Lemma curr_arg_head t k : shape false t -> is_char (curr_arg (String.append (print_type t) k)) ")"%char = false /\
  curr_arg (String.append (print_type t) k) = match t with JType (S _) _ => "["%char | JType O (Prim c) => c | JType O Void => "V"%char | JType O (Object _) => "L"%char end.
Proof.
  unfold shape, curr_arg, print_type. destruct t as [[|d] [c| |n]]; simpl; try done. intros He. split; [|done]. unfold char_at. simpl.
  destruct (is_char c ")"%char) eqn:E; [|done]. by apply is_char_eq in E as ->.
Qed.

Definition first_char (t : jtype) : ascii :=
  match t with JType (S _) _ => "["%char | JType O (Prim c) => c | JType O Void => "V"%char | JType O (Object _) => "L"%char end.
Lemma fold_args_spec step ts k fuel n : Forall (shape false) ts -> (length ts < fuel)%nat ->
  fold_args fuel step (print_types ts (String ")" k)) n = Some (foldl (fun n t => step n (first_char t)) n ts).
Proof.
  intros H. revert fuel n. induction H as [|t ts Ht _ IH]; intros [|fuel] n Hf; simpl in Hf; try lia; [done|].
  cbn [print_types fold_args]. destruct (curr_arg_head t (print_types ts (String ")" k)) Ht) as [H1 H2]. rewrite H1, H2, (advance_arg_spec t _ Ht).
  cbn [mbind option_bind foldl]. apply IH. lia.
Qed.
Lemma over_args_spec step st args ret : Forall (shape false) args ->
  over_args step st (print_method args ret) = Some (foldl (fun n t => step n (first_char t)) (if st then 0 else 1) args).
Proof.
  intros Ha. unfold over_args, print_method. cbn [initialize_arg_list_iterator]. rewrite is_char_refl. cbv iota. cbn [mbind option_bind].
  apply fold_args_spec; [done|]. pose proof (print_types_length args (String ")" (print_type ret))). lia.
Qed.
(** The slots are the words, and [this]. *)
Lemma slot_num_spec st args ret : Forall (shape false) args ->
  calculate_arguments_slot_num st (print_method args ret) = Some (foldl (fun n t => n + arg_words t) (if st then 0 else 1) args).
Proof.
  intros Ha. unfold calculate_arguments_slot_num. rewrite over_args_spec by done. f_equal. generalize (if st then 0 else 1).
  clear. induction args as [|t args IH]; intros z; [done|]. cbn [foldl]. rewrite IH. f_equal. by destruct t as [[|d] [c| |n]].
Qed.

(** ** The constant pool *)

(** Strings are strings of characters; indices are not negative. *)
Definition entry_ok (e : ConstPoolEntry) : Prop :=
  match e with
  | Utf8 s => str_ok s
  | ClassRef n _ | StringRef n _ => 0 <= n
  | Ref _ c n => 0 <= c /\ 0 <= n
  | NameAndType n d _ => 0 <= n /\ 0 <= d
  | _ => True
  end.
Definition pool_ok (cp : ConstantPool) : Prop := Forall entry_ok cp.

Lemma at_ok cp i e : pool_ok cp -> at_ cp i = Some e -> entry_ok e.
Proof.
  unfold at_. intros Hp H. destruct (is_valid_index cp i); [|done]. unfold pool_ok in Hp. rewrite Forall_lookup in Hp. by eapply Hp.
Qed.
Lemma at_valid cp i : 0 <= i -> is_valid_index cp i = true -> exists e, at_ cp i = Some e /\ cp !! Z.to_nat i = Some e.
Proof.
  intros Hi Hv. unfold at_. rewrite Hv. unfold is_valid_index, m_size in Hv. apply andb_prop in Hv as [_ Hlt%Z.ltb_lt].
  destruct (lookup_lt_is_Some_2 cp (Z.to_nat i)) as [e He]; [lia|]. by exists e.
Qed.

Lemma tag_utf8 e : tag_of e = CONSTANT_Utf8 -> exists s, e = Utf8 s.
Proof. destruct e as [| |s| | | | | | |[]|]; try done. by exists s. Qed.
Lemma tag_class e : tag_of e = CONSTANT_Class -> exists n r, e = ClassRef n r.
Proof. destruct e as [| | | | | | |n r| |[]|]; try done. by exists n, r. Qed.
Lemma tag_name_and_type e : tag_of e = CONSTANT_NameAndType -> exists n d r, e = NameAndType n d r.
Proof. destruct e as [| | | | | | | | |[]|n d r]; try done. by exists n, d, r. Qed.
Lemma tag_integer e : tag_of e = CONSTANT_Integer -> exists i, e = Integer i.
Proof. destruct e as [| | |i| | | | | |[]|]; try done. by exists i. Qed.
Lemma tag_float e : tag_of e = CONSTANT_Float -> exists i, e = Float i.
Proof. destruct e as [| | | |i| | | | |[]|]; try done. by exists i. Qed.
Lemma tag_long e : tag_of e = CONSTANT_Long -> exists h l, e = Long h l.
Proof. destruct e as [| | | | |h l| | | |[]|]; try done. by exists h, l. Qed.
Lemma tag_double e : tag_of e = CONSTANT_Double -> exists h l, e = Double h l.
Proof. destruct e as [| | | | | |h l| | |[]|]; try done. by exists h, l. Qed.

Lemma runs_valid_cpi cp i tag (Q : unit -> Prop) : 0 <= i -> (forall e, at_ cp i = Some e -> tag_of e = tag -> Q tt) -> runs (valid_cpi cp i tag) Q.
Proof.
  intros Hi HQ. unfold valid_cpi. eapply runs_bind; [apply (runs_require _ (fun _ => is_valid_index cp i = true)); auto|].
  intros [] Hv. destruct (at_valid cp i Hi Hv) as (e & He & _). eapply runs_bind.
  - apply (runs_value _ (fun t => t = tag_of e) (tag_of e)); [|done]. unfold get_tag. by rewrite He.
  - intros t ->. apply runs_require. intros Ht%Z.eqb_eq. by eapply HQ.
Qed.

Lemma runs_utf8_at cp i : pool_ok cp -> 0 <= i -> runs (utf8_at cp i) str_ok.
Proof.
  intros Hp Hi. unfold utf8_at. eapply runs_bind.
  - apply (runs_valid_cpi cp i _ (fun _ => exists s, at_ cp i = Some (Utf8 s))); [done|]. intros e He [s ->]%tag_utf8. by exists s.
  - intros [] [s Hs]. pose proof (at_ok _ _ _ Hp Hs) as Hok. apply (runs_value _ _ s); [|done]. unfold get_utf8_string. by rewrite Hs.
Qed.
Lemma runs_utf8_index cp : pool_ok cp -> runs (parse_utf8_index cp) str_ok.
Proof. intros Hp. eapply runs_bind; [apply runs_u2|]. cbv beta. intros i Hi. apply runs_utf8_at; [done|lia]. Qed.
Lemma runs_class_name_at cp i : pool_ok cp -> 0 <= i -> runs (class_name_at cp i) str_ok.
Proof.
  intros Hp Hi. unfold class_name_at. eapply runs_bind.
  - apply (runs_valid_cpi cp i _ (fun _ => exists n r, at_ cp i = Some (ClassRef n r))); [done|]. intros e He (n & r & ->)%tag_class. by exists n, r.
  - intros [] (n & r & Hn). pose proof (at_ok _ _ _ Hp Hn) as Hok. eapply runs_bind.
    + apply (runs_value _ (fun x => x = n) n); [|done]. unfold get_class_name_index. by rewrite Hn.
    + intros x ->. by apply runs_utf8_at.
Qed.

Lemma runs_utf8data len : 0 <= len < 2 ^ 16 -> runs (class_file_parse_utf8data len) str_ok.
Proof.
  intros Hl r Hr Hs. destruct (Z.ltb_spec len SMALL) as [Hlt|Hge].
  - rewrite utf8data_spec by (done || unfold SMALL in *; lia). destruct (Z.leb_spec len (Z.of_nat (length (rest r)))) as [Hle|]; [|done]. simpl.
    destruct (valid_utf8 _) eqn:Hv; [|done]. split; [apply move_ok; [done|lia]|]. split; [done|].
    unfold str_ok. by rewrite String.list_ascii_of_string_of_list_ascii.
  - unfold class_file_parse_utf8data. rewrite have_rest by (done || lia). rewrite (rest_length r Hr).
    destruct Hr as [[? ?] ? ?]. unfold SMALL in *. rewrite (proj2 (Z.leb_gt _ _)) by lia. done.
Qed.
Lemma runs_utf8 : runs class_file_parse_utf8 str_ok.
Proof. eapply runs_bind; [apply runs_u2|]. apply runs_utf8data. Qed.

(** A number and what is made of it. *)
Lemma runs_with {A B} (m : R A) (k : A -> R B) (P : A -> Prop) (Q : B -> Prop) : runs m P -> (forall a, P a -> runs (k a) Q) -> runs (m ≫= k) Q.
Proof. apply runs_bind. Qed.
#[local] Ltac step := eapply runs_bind; [first [apply runs_u2 | apply runs_u4 | apply runs_u1 | apply runs_utf8]|cbv beta; intros ? ?].

Lemma runs_parse_entry : runs parse_entry (fun e => entry_ok e /\ e <> Tags /\ (forall h l, e <> Unused h l)).
Proof.
  unfold parse_entry. step. repeat (apply runs_if; intros _; [repeat step; apply runs_ret; simpl; split_and!; (done || lia || auto)|]). apply runs_fail.
Qed.

Lemma runs_parse_loop fuel i size : 1 <= i -> Z.max 0 (size - i) < Z.of_nat fuel ->
  runs (parse_loop fuel i size) (fun es => Forall entry_ok es /\ Z.of_nat (length es) = Z.max 0 (size - i)).
Proof.
  revert i. induction fuel as [|fuel IH]; intros i Hi Hf.
  { lia. }
  cbn [parse_loop]. destruct (Z.leb_spec size i); [apply runs_ret; split; [done|]; simpl; lia|].
  eapply runs_bind; [apply runs_parse_entry|]. intros e (He & _ & _).
  assert (Hone : runs (es ← parse_loop fuel (i + 1) size; mret (e :: es)) (fun es => Forall entry_ok es /\ Z.of_nat (length es) = Z.max 0 (size - i))).
  { eapply runs_bind; [apply IH; lia|]. intros es [Hes Hl]. apply runs_ret. split; [by constructor|]. simpl. lia. }
  assert (Htwo : forall h l, runs (es ← parse_loop fuel (i + 2) size; mret (e :: (if i + 1 <? size then [Unused h l] else []) ++ es))
    (fun es => Forall entry_ok es /\ Z.of_nat (length es) = Z.max 0 (size - i))).
  { intros h l. eapply runs_bind; [apply IH; lia|]. intros es [Hes Hl]. apply runs_ret. split.
    - constructor; [done|]. apply Forall_app. split; [|done]. destruct (i + 1 <? size); by repeat constructor.
    - simpl. rewrite length_app. destruct (Z.ltb_spec (i + 1) size); simpl; lia. }
  destruct e; try apply Hone; apply Htwo.
Qed.

(** The number of entries is not zero. *)
Definition counts (r : ByteReader) : Prop := forall l, rest r <> "000"%char :: "000"%char :: l.
Lemma be2_zero c d : be [c; d] = 0 -> c = "000"%char /\ d = "000"%char.
Proof.
  unfold be. simpl. pose proof (byte_of_range c). pose proof (byte_of_range d). intros Hz.
  split; apply byte_of_inj; change (byte_of "000"%char) with 0; lia.
Qed.

(** [m] runs from this reader. *)
Definition runs_from {A} (r : ByteReader) (m : R A) (Q : A -> Prop) : Prop :=
  match m r with Done a r' => reader_ok r' /\ same_file r r' /\ Q a | Fails => True | Wild => False end.
Lemma runs_from_runs {A} r (m : R A) Q : reader_ok r -> end_ r - start r < SMALL -> runs m Q -> runs_from r m Q.
Proof. intros Hr Hs Hm. apply (Hm r Hr Hs). Qed.
Lemma runs_from_bind {A B} r (m : R A) (k : A -> R B) P Q : end_ r - start r < SMALL -> runs_from r m P -> (forall a, P a -> runs (k a) Q) -> runs_from r (m ≫= k) Q.
Proof.
  intros Hs Hm Hk. unfold runs_from in *. unfold mbind, R_bind. destruct (m r) as [a r'| |]; [|done..]. destruct Hm as (Hr' & Hsame & Ha).
  assert (end_ r' - start r' < SMALL) as Hs' by (destruct Hsame as (_ & -> & ->); done).
  specialize (Hk a Ha r' Hr' Hs'). destruct (k a r') as [b r2| |]; [|done..]. destruct Hk as (? & ? & ?). split_and!; [done|by eapply same_file_trans|done].
Qed.

Lemma runs_pool_parse r : reader_ok r -> end_ r - start r < SMALL -> counts r ->
  runs_from r ConstantPool_parse (fun cp => pool_ok cp /\ 1 <= m_size cp < 2 ^ 16).
Proof.
  intros Hr Hs Hc. unfold ConstantPool_parse. eapply (runs_from_bind r _ _ (fun n => 0 < n < 2 ^ 16)); [done| |].
  - pose proof (runs_u2 r Hr Hs) as Hu. unfold runs_from. rewrite parse_u2_rest in Hu |- * by done. destruct (rest r) as [|c [|d l]] eqn:El; [done..|].
    destruct Hu as (H1 & H2 & H3). split; [done|]. split; [done|]. destruct (Z.eq_dec (be [c; d]) 0) as [Hz|]; [|lia].
    apply be2_zero in Hz as [-> ->]. by apply Hc in El.
  - intros n Hn. rewrite (proj2 (Z.eqb_neq _ _)) by lia. eapply runs_bind; [apply (runs_parse_loop _ 1 n); lia|].
    intros es [Hes Hl]. apply runs_ret. split; [by constructor|]. unfold m_size. simpl. lia.
Qed.

Section check.
Context (u_isalpha u_isalnum : Z -> bool) (verify_all is_trusted_cl : bool) (version : Z).

Lemma runs_require_name b nm m : str_ok nm -> runs (require_name u_isalpha u_isalnum version b nm m) (fun _ => True).
Proof.
  intros Hn. unfold require_name, member_name_ok. destruct b; [|by apply runs_ret].
  destruct (whole_name_total u_isalpha u_isalnum nm (old_version version) m Hn) as [x Hx].
  eapply runs_bind; [apply (runs_value _ (fun _ => True) x); done|]. intros y _. by apply runs_require.
Qed.
Lemma append_empty s : String.append s EmptyString = s.
Proof. induction s as [|c s IH]; [done|]. simpl. by rewrite IH. Qed.
Lemma runs_require_field_descriptor s : str_ok s ->
  runs (require_field_descriptor u_isalpha u_isalnum version s) (fun _ => exists t, shape false t /\ s = print_type t).
Proof.
  intros Hs. unfold require_field_descriptor. destruct (member_descriptor_total u_isalpha u_isalnum (old_version version) s false Hs) as (x & Hx & Himp).
  eapply runs_bind; [apply (runs_value _ (fun y => y = x) x); done|]. intros y ->. apply runs_require.
  destruct x as [[|c k]|]; [|done..]. intros _. destruct (Himp _ eq_refl) as (t & Ht & ->). exists t. by rewrite append_empty.
Qed.
Lemma runs_require_method_descriptor s : str_ok s ->
  runs (require_method_descriptor u_isalpha u_isalnum version s) (fun _ => exists args ret, Forall (shape false) args /\ shape true ret /\ s = print_method args ret).
Proof.
  intros Hs. unfold require_method_descriptor. destruct (check_method_descriptor_total u_isalpha u_isalnum (old_version version) s Hs) as (b & Hb & Himp).
  eapply runs_bind; [apply (runs_value _ (fun x => x = b) b); done|]. intros y ->. by apply runs_require.
Qed.
Lemma runs_require_class_name s : str_ok s -> runs (require_class_name u_isalpha u_isalnum version s) (fun _ => True).
Proof.
  intros Hs. unfold require_class_name. destruct (check_class_name_total u_isalpha u_isalnum (old_version version) s Hs) as [x Hx].
  eapply runs_bind; [apply (runs_value _ (fun _ => True) x); done|]. intros y _. by apply runs_require.
Qed.

#[local] Ltac weaken := eapply runs_mono; [|done].
Lemma runs_check_kind kind nm d : str_ok nm -> str_ok d ->
  runs (match kind with
        | Methodref => check_methodref u_isalpha u_isalnum verify_all is_trusted_cl version nm d
        | Fieldref => check_fieldref u_isalpha u_isalnum verify_all is_trusted_cl version nm d
        | InterfaceMethodref => check_interface_methodref u_isalpha u_isalnum verify_all is_trusted_cl version nm d
        end) (fun _ => True).
Proof.
  intros Hn Hd. destruct kind.
  - eapply runs_bind; [by apply runs_require_name|]. intros _ _. eapply runs_mono; [by apply runs_require_field_descriptor|done].
  - unfold check_methodref. eapply runs_bind with (P := fun _ => True).
    { apply runs_if; intros _; [|by apply runs_require_name]. eapply runs_bind; [by apply runs_require_name|]. intros _ _. by apply runs_require. }
    intros _ _. eapply runs_bind; [by apply runs_require_method_descriptor|]. intros _ _. apply runs_if; intros _; [by apply runs_require|by apply runs_ret].
  - eapply runs_bind; [by apply runs_require_name|]. intros _ _. eapply runs_mono; [by apply runs_require_method_descriptor|done].
Qed.

Lemma runs_check_ref cp i kind c n : pool_ok cp -> at_ cp i = Some (Ref kind c n) ->
  runs (check_ref u_isalpha u_isalnum verify_all is_trusted_cl version cp i kind) (fun _ => True).
Proof.
  intros Hp Hi. pose proof (at_ok _ _ _ Hp Hi) as [Hc Hn]. unfold check_ref.
  eapply runs_bind; [apply (runs_value _ (fun x => x = c) c); [unfold get_ref_class_index; by rewrite Hi|done]|]. intros ? ->.
  eapply runs_bind; [apply (runs_valid_cpi _ _ _ (fun _ => True)); done|]. intros _ _.
  eapply runs_bind; [apply (runs_value _ (fun x => x = n) n); [unfold get_ref_name_and_type_index; by rewrite Hi|done]|]. intros ? ->.
  eapply runs_bind; [apply (runs_valid_cpi _ _ _ (fun _ => exists a b r, at_ cp n = Some (NameAndType a b r))); [done|]|].
  { intros e He (a & b & r & ->)%tag_name_and_type. by exists a, b, r. }
  intros [] (a & b & r & Hnt). pose proof (at_ok _ _ _ Hp Hnt) as [Ha Hb].
  eapply runs_bind; [apply (runs_value _ (fun x => x = a) a); [unfold get_name_and_type_name_index; by rewrite Hnt|done]|]. intros ? ->.
  eapply runs_bind; [apply (runs_valid_cpi _ _ _ (fun _ => exists s, at_ cp a = Some (Utf8 s))); [done|]|].
  { intros e He [s ->]%tag_utf8. by exists s. }
  intros [] [nm Hnm].
  eapply runs_bind; [apply (runs_value _ (fun x => x = b) b); [unfold get_name_and_type_descriptor_index; by rewrite Hnt|done]|]. intros ? ->.
  eapply runs_bind; [apply (runs_valid_cpi _ _ _ (fun _ => exists s, at_ cp b = Some (Utf8 s))); [done|]|].
  { intros e He [s ->]%tag_utf8. by exists s. }
  intros [] [d Hd].
  eapply runs_bind; [apply (runs_value _ (fun x => x = nm) nm); [unfold get_utf8_string; by rewrite Hnm|done]|]. intros ? ->.
  eapply runs_bind; [apply (runs_value _ (fun x => x = d) d); [unfold get_utf8_string; by rewrite Hd|done]|]. intros ? ->.
  apply runs_check_kind; [exact (at_ok _ _ _ Hp Hnm)|exact (at_ok _ _ _ Hp Hd)].
Qed.

Lemma runs_utf8_then {A} cp n (k : string -> R A) Q : pool_ok cp -> 0 <= n -> (forall s, str_ok s -> runs (k s) Q) ->
  runs (_ ← valid_cpi cp n CONSTANT_Utf8; s ← value (get_utf8_string cp n); k s) Q.
Proof.
  intros Hp Hn Hk. eapply runs_bind; [apply (runs_valid_cpi _ _ _ (fun _ => exists s, at_ cp n = Some (Utf8 s))); [done|]|].
  { intros e He [s ->]%tag_utf8. by exists s. }
  intros [] [s Hs]. eapply runs_bind; [apply (runs_value _ (fun x => x = s) s); [unfold get_utf8_string; by rewrite Hs|done]|].
  intros ? ->. apply Hk. exact (at_ok _ _ _ Hp Hs).
Qed.

Lemma resolve_ok cp i e : pool_ok cp -> entry_ok e -> pool_ok (resolve_entry cp i e) /\ m_size (resolve_entry cp i e) = m_size cp.
Proof. intros Hp He. unfold resolve_entry, m_size, ConstantPool in *. rewrite length_insert. split; [by apply Forall_insert|done]. Qed.

Lemma runs_check_entry cp i e : pool_ok cp -> at_ cp i = Some e ->
  runs (check_entry u_isalpha u_isalnum verify_all is_trusted_cl version cp i e) (fun cp' => pool_ok cp' /\ m_size cp' = m_size cp).
Proof.
  intros Hp Hi. pose proof (at_ok _ _ _ Hp Hi) as He. destruct e as [|h l|s|v|v|h l|h l|n r|n o|kind c n|n d o]; simpl in He |- *; try apply runs_fail;
    try (by apply runs_ret); try (eapply runs_bind; [apply (runs_require _ (fun _ => True)); done|]; intros _ _; by apply runs_ret).
  - apply runs_utf8_then; [done..|]. intros s Hs. eapply runs_bind; [by apply runs_require_class_name|]. intros _ _. by apply runs_ret.
  - apply runs_utf8_then; [done..|]. intros s Hs. apply runs_ret. by apply resolve_ok.
  - eapply runs_bind; [by eapply runs_check_ref|]. intros _ _. by apply runs_ret.
  - destruct He as [Hn Hd].
    eapply runs_bind; [apply (runs_valid_cpi _ _ _ (fun _ => exists s, at_ cp n = Some (Utf8 s))); [done|]|].
    { intros e He [s ->]%tag_utf8. by exists s. }
    intros [] [s Hs].
    eapply runs_bind; [apply (runs_valid_cpi _ _ _ (fun _ => exists s, at_ cp d = Some (Utf8 s))); [done|]|].
    { intros e He [s2 ->]%tag_utf8. by exists s2. }
    intros [] [s2 Hs2].
    eapply runs_bind; [apply (runs_value _ (fun _ => True) s); [unfold get_utf8_string; by rewrite Hs|done]|]. intros ? _.
    eapply runs_bind; [apply (runs_value _ (fun _ => True) s2); [unfold get_utf8_string; by rewrite Hs2|done]|]. intros ? _.
    apply runs_ret. by apply resolve_ok.
Qed.

Lemma runs_check_loop fuel i cp : pool_ok cp -> 1 <= i -> Z.max 0 (m_size cp - i) < Z.of_nat fuel ->
  runs (check_loop u_isalpha u_isalnum verify_all is_trusted_cl version fuel i cp) (fun cp' => pool_ok cp' /\ m_size cp' = m_size cp).
Proof.
  revert i cp. induction fuel as [|fuel IH]; intros i cp Hp Hi Hf; [lia|]. cbn [check_loop].
  destruct (Z.leb_spec (m_size cp) i); [by apply runs_ret|].
  assert (Hv : is_valid_index cp i = true) by (unfold is_valid_index; rewrite (proj2 (Z.eqb_neq _ _)), (proj2 (Z.ltb_lt _ _)) by lia; done).
  destruct (at_valid cp i ltac:(lia) Hv) as (e & He & _). eapply runs_bind; [apply (runs_value _ (fun x => x = e) e); done|]. intros ? ->.
  eapply runs_bind; [by apply runs_check_entry|]. intros cp' [Hp' Hl].
  eapply runs_mono; [apply IH; [done| |]; rewrite ?Hl; destruct e; lia|]. intros cp2 [Hp2 Hl2]. split; [done|congruence].
Qed.
Lemma runs_check cp : pool_ok cp -> 1 <= m_size cp ->
  runs (ConstantPool_check u_isalpha u_isalnum verify_all is_trusted_cl version cp) (fun cp' => pool_ok cp' /\ m_size cp' = m_size cp).
Proof. intros Hp Hs. apply runs_check_loop; [done|lia|]. unfold m_size in *. lia. Qed.
End check.

(** ** Annotations *)

(** [m] leaves the reader where it is. *)
Definition stays {A} (m : R A) : Prop := forall r, match m r with Done _ r' => r' = r | _ => True end.
Lemma stays_ret {A} (a : A) : stays (mret a).
Proof. done. Qed.
Lemma stays_require b : stays (require b).
Proof. by destruct b. Qed.
Lemma stays_value {A} (o : option A) : stays (value o).
Proof. intros r. unfold value. by destruct o. Qed.
Lemma stays_bind {A B} (m : R A) (k : A -> R B) : stays m -> (forall a, stays (k a)) -> stays (m ≫= k).
Proof.
  intros Hm Hk r. specialize (Hm r). unfold mbind, R_bind. destruct (m r) as [a r'| |]; [|done..]. subst r'. apply Hk.
Qed.
Lemma stays_utf8_at cp i : stays (utf8_at cp i).
Proof.
  unfold utf8_at, valid_cpi. repeat (apply stays_bind; [|intros ?]); auto using stays_require, stays_value.
  all: repeat (apply stays_bind; [|intros ?]); auto using stays_require, stays_value.
Qed.
Lemma stays_valid_cpi cp i t : stays (valid_cpi cp i t).
Proof. unfold valid_cpi. repeat (apply stays_bind; [|intros ?]); auto using stays_require, stays_value. Qed.

(** [m] runs where [N] bytes are left at most, and does not go back. *)
Definition goes {A} (N : nat) (m : R A) : Prop := forall r, reader_ok r -> end_ r - start r < SMALL -> (length (rest r) <= N)%nat ->
  match m r with
  | Done a r' => reader_ok r' /\ same_file r r' /\ (length (rest r') <= length (rest r))%nat
  | Fails => True
  | Wild => False
  end.
Lemma goes_stays {A} N (m : R A) Q : runs m Q -> stays m -> goes N m.
Proof.
  intros Hm Hstay r Hr Hs _. specialize (Hm r Hr Hs). specialize (Hstay r). destruct (m r) as [a r'| |]; [|done..]. subst r'. by destruct Hm as (? & ? & _).
Qed.
Lemma goes_advances {A} N (m : R A) : advances m -> goes N m.
Proof.
  intros Hm r Hr Hs _. specialize (Hm r Hr). destruct (m r) as [a r'| |]; [|done..]. destruct Hm as (Hr' & H1 & H2 & H3 & H4).
  split; [done|]. split; [done|]. pose proof (rest_length r Hr). pose proof (rest_length r' Hr'). lia.
Qed.
Lemma goes_ret {A} N (a : A) : goes N (mret a).
Proof. by eapply goes_advances, advances_ret. Qed.
Lemma goes_bind {A B} N (m : R A) (k : A -> R B) : goes N m -> (forall a, goes N (k a)) -> goes N (m ≫= k).
Proof.
  intros Hm Hk r Hr Hs Hl. specialize (Hm r Hr Hs Hl). unfold mbind, R_bind. destruct (m r) as [a r'| |]; [|done..].
  destruct Hm as (Hr' & Hsame & Hle). assert (end_ r' - start r' < SMALL) as Hs' by (destruct Hsame as (_ & -> & ->); done).
  specialize (Hk a r' Hr' Hs' ltac:(lia)). destruct (k a r') as [b r2| |]; [|done..]. destruct Hk as (? & ? & ?).
  split; [done|]. split; [by eapply same_file_trans|lia].
Qed.
(** A value begins with a byte. *)
Lemma goes_u1 {B} N (k : Z -> R B) : (forall a, 0 <= a < 256 -> goes N (k a)) -> goes (S N) (parse_u1 ≫= k).
Proof.
  intros Hk r Hr Hs Hl. pose proof (advances_u1 r Hr) as Ha. unfold mbind, R_bind. rewrite parse_u1_rest in Ha |- * by done.
  destruct (rest r) as [|c l] eqn:E; [done|]. destruct Ha as (Hr' & H1 & H2 & H3 & H4).
  assert (Hrest : rest (move r 1) = l) by (rewrite rest_move by (done || rewrite E; simpl; lia); by rewrite E).
  assert (end_ (move r 1) - start (move r 1) < SMALL) as Hs' by done.
  specialize (Hk (byte_of c) (byte_of_range c) _ Hr' Hs'). rewrite Hrest in Hk. simpl in Hl. specialize (Hk ltac:(lia)).
  destruct (k _ _) as [b r2| |]; [|done..]. destruct Hk as (? & ? & ?). split; [done|]. split; [by eapply same_file_trans|simpl; lia].
Qed.
Lemma goes_u2 {B} N (k : Z -> R B) : (forall a, 0 <= a < 2 ^ 16 -> goes N (k a)) -> goes N (parse_u2_be ≫= k).
Proof.
  intros Hk r Hr Hs Hl. pose proof (advances_u2 r Hr) as Ha. unfold mbind, R_bind. rewrite parse_u2_rest in Ha |- * by done.
  destruct (rest r) as [|c [|d l]] eqn:E; [done..|]. destruct Ha as (Hr' & H1 & H2 & H3 & H4).
  assert (Hrest : rest (move r 2) = l) by (rewrite rest_move by (done || rewrite E; simpl; lia); by rewrite E).
  assert (end_ (move r 2) - start (move r 2) < SMALL) as Hs' by done.
  specialize (Hk (be [c; d]) (be2_range c d) _ Hr' Hs'). rewrite Hrest in Hk. simpl in Hl. specialize (Hk ltac:(lia)).
  destruct (k _ _) as [b r2| |]; [|done..]. destruct Hk as (? & ? & ?). split; [done|]. split; [by eapply same_file_trans|simpl; lia].
Qed.
Lemma goes_times {A} N n (m : R A) : goes N m -> goes N (times n m).
Proof.
  intros Hm. induction n as [|n IH]; simpl; [apply goes_ret|]. apply goes_bind; [done|]. intros a. apply goes_bind; [done|]. intros l. apply goes_ret.
Qed.
Lemma goes_measured {A} N (m : R A) : goes N m -> goes N (measured_ok m).
Proof.
  intros Hm r Hr Hs Hl. specialize (Hm r Hr Hs Hl). unfold measured_ok, measured, mbind, R_bind. destruct (m r) as [a r'| |]; [|done..].
  by destruct (ux 32 _ =? 0).
Qed.
Lemma goes_runs {A} (m : R A) : (forall N, goes N m) -> runs m (fun _ => True).
Proof. intros Hm r Hr Hs. specialize (Hm _ r Hr Hs (Nat.le_refl _)). destruct (m r); [|done..]. by destruct Hm as (? & ? & _). Qed.

Section annotations.
Context (cp : ConstantPool) (Hcp : pool_ok cp).

Lemma goes_utf8_index N : goes N (parse_utf8_index cp).
Proof. apply goes_u2. intros i Hi. eapply goes_stays; [apply (runs_utf8_at cp i); [done|lia]|apply stays_utf8_at]. Qed.

Lemma goes_entry {A B} N i tag (f : ConstPoolEntry -> option A) (k : A -> R B) : 0 <= i ->
  (forall e, tag_of e = tag -> is_Some (f e)) -> (forall a, goes N (k a)) ->
  goes N (_ ← valid_cpi cp i tag; a ← value (e ← at_ cp i; f e); k a).
Proof.
  intros Hi Hf Hk r Hr Hs Hl. unfold mbind at 1, R_bind at 1.
  assert (Hv : runs (valid_cpi cp i tag) (fun _ => exists e, at_ cp i = Some e /\ tag_of e = tag)) by (apply runs_valid_cpi; eauto).
  specialize (Hv r Hr Hs).
  pose proof (stays_valid_cpi cp i tag r) as Hst. destruct (valid_cpi cp i tag r) as [[] r'| |]; [|done..]. subst r'.
  destruct Hv as (_ & _ & e & He & Ht). rewrite He. cbn [mbind option_bind]. destruct (Hf e Ht) as [a Ha]. rewrite Ha. exact (Hk a r Hr Hs Hl).
Qed.

Lemma goes_const N tag : goes N (parse_const cp tag).
Proof.
  unfold parse_const. apply goes_u2. intros i Hi. destruct (existsb _ _).
  { apply (goes_entry N i CONSTANT_Integer (fun e => match e with Integer i => Some i | _ => None end)); [lia| |intros a; apply goes_ret].
    intros e [v ->]%tag_integer. by eexists. }
  destruct (is_char tag "F"%char).
  { apply (goes_entry N i CONSTANT_Float (fun e => match e with Float i => Some i | _ => None end)); [lia| |intros a; apply goes_ret].
    intros e [v ->]%tag_float. by eexists. }
  destruct (is_char tag "J"%char).
  { apply (goes_entry N i CONSTANT_Long (fun e => match e with Long h l => Some (h, l) | _ => None end)); [lia| |intros a; apply goes_ret].
    intros e (h & l & ->)%tag_long. by eexists. }
  destruct (is_char tag "D"%char).
  { apply (goes_entry N i CONSTANT_Double (fun e => match e with Double h l => Some (h, l) | _ => None end)); [lia| |intros a; apply goes_ret].
    intros e (h & l & ->)%tag_double. by eexists. }
  apply goes_bind; [|intros s; apply goes_ret]. eapply goes_stays; [apply (runs_utf8_at cp i); [done|lia]|apply stays_utf8_at].
Qed.

Lemma goes_annotation_with N parse_value : goes N parse_value -> goes N (parse_annotation_with cp parse_value).
Proof.
  intros Hv. unfold parse_annotation_with. apply goes_bind; [apply goes_utf8_index|]. intros type. apply goes_u2. intros n _.
  apply goes_bind; [|intros l; apply goes_ret]. apply goes_times. apply goes_bind; [apply goes_utf8_index|]. intros nm.
  apply goes_bind; [by apply goes_measured|]. intros [v len]. apply goes_ret.
Qed.

(** The fuel is enough: a value nests in the bytes that are left. *)
Lemma goes_value fuel N : (N < fuel)%nat -> goes N (parse_annotation_value cp fuel).
Proof.
  revert N. induction fuel as [|fuel IH]; intros N Hf; [lia|]. cbn [parse_annotation_value].
  destruct N as [|N].
  { intros r Hr Hs Hl. unfold mbind, R_bind. rewrite parse_u1_rest by done. destruct (rest r); simpl in Hl; [done|lia]. }
  apply goes_u1. intros t _. cbv zeta. specialize (IH N ltac:(lia)). destruct (existsb _ _); [apply goes_const|].
  destruct (is_char _ _); [apply goes_bind; [apply goes_utf8_index|]; intros s; apply goes_ret|].
  destruct (is_char _ _); [apply goes_bind; [apply goes_utf8_index|]; intros s; apply goes_bind; [apply goes_utf8_index|]; intros s2; apply goes_ret|].
  destruct (is_char _ _).
  { apply goes_bind; [apply goes_measured; by apply goes_annotation_with|]. intros [a len]. apply goes_ret. }
  destruct (is_char _ _); [|by intros r Hr Hs Hl].
  apply goes_u2. intros n _. apply goes_bind; [|intros l; apply goes_ret]. apply goes_times. apply goes_bind; [by apply goes_measured|]. intros [v len]. apply goes_ret.
Qed.
Lemma goes_annotation_value N : goes N (annotation_value cp).
Proof. intros r Hr Hs Hl. unfold annotation_value. apply (goes_value (S (length (rest r))) (length (rest r))); [lia|done|done|done]. Qed.
Lemma runs_annotation_value : runs (annotation_value cp) (fun _ => True).
Proof. apply goes_runs. apply goes_annotation_value. Qed.
Lemma goes_annotation_table N : goes N (parse_annotation_table cp).
Proof.
  apply goes_u2. intros n _. apply goes_times. apply goes_bind; [|intros [a len]; apply goes_ret]. apply goes_measured.
  apply goes_annotation_with, goes_annotation_value.
Qed.
Lemma runs_annotation_table : runs (parse_annotation_table cp) (fun _ => True).
Proof. apply goes_runs, goes_annotation_table. Qed.
Lemma runs_parameter_annotations n : runs (parse_parameter_annotations cp n) (fun _ => True).
Proof.
  apply goes_runs. intros N. apply goes_times. apply goes_bind; [|intros [a len]; apply goes_ret]. apply goes_measured, goes_annotation_table.
Qed.
Lemma runs_annotations_of_length n : runs (annotations_of_length cp n) (fun _ => True).
Proof.
  eapply runs_bind; [by apply (runs_measured _ (fun _ => True)), runs_annotation_table|]. intros [t len] _.
  eapply runs_bind; [apply (runs_require _ (fun _ => True)); done|]. intros _ _. by apply runs_ret.
Qed.

Lemma runs_parse_attribute attrs : runs (parse_attribute cp attrs) (fun x => 0 <= x.2 < 2 ^ 32).
Proof.
  eapply runs_bind; [apply runs_u2|]. cbv beta. intros i Hi. eapply runs_bind; [apply runs_u4|]. cbv beta. intros len Hlen.
  eapply runs_bind; [apply runs_utf8_at; [done|lia]|]. intros nm _. destruct (find_attribute attrs nm) as [a|]; [by apply runs_ret|].
  eapply runs_bind; [by apply (runs_skip _ (fun _ => True))|]. intros _ _. by apply runs_ret.
Qed.
Lemma runs_signature_attr n : runs (parse_signature_attr cp n) str_ok.
Proof. eapply runs_bind; [by apply (runs_require _ (fun _ => True))|]. intros _ _. by apply runs_utf8_index. Qed.
End annotations.

(** ** Fields and methods *)

Section members.
Context (env : Env) (clss : Clss) (Hcp : pool_ok (m_const_pool clss)).
Abbreviation cp := (m_const_pool clss).

Lemma runs_name_ok nm m : str_ok nm -> runs (name_ok env clss nm m) (fun _ => True).
Proof.
  intros Hn. unfold name_ok, member_name_ok.
  destruct (whole_name_total (u_isalpha env) (u_isalnum env) nm (old_version (m_version clss)) m Hn) as [x Hx].
  by apply (runs_value _ (fun _ => True) x).
Qed.
Lemma runs_true b : runs (require b) (fun _ => b = true).
Proof. by apply runs_require. Qed.
Lemma runs_any_skip n : runs (skip n) (fun _ => True).
Proof. by apply runs_skip. Qed.

Definition member_ok (m : Class_Member) : Prop := 0 <= _access_flags m < 2 ^ 16 /\ str_ok (_name m) /\ str_ok (_descriptor m).
Lemma runs_member : runs (Class_Member_parse clss) member_ok.
Proof.
  unfold Class_Member_parse. eapply runs_bind; [apply runs_u2|]. cbv beta. intros flags Hf.
  eapply runs_bind; [apply runs_u2|]. cbv beta. intros n Hn. eapply runs_bind; [apply runs_u2|]. cbv beta. intros d Hd.
  eapply runs_bind; [apply (runs_valid_cpi cp n _ (fun _ => exists s, at_ cp n = Some (Utf8 s))); [lia|]|].
  { intros e He [s ->]%tag_utf8. by exists s. }
  intros [] [s Hs].
  eapply runs_bind; [apply (runs_valid_cpi cp d _ (fun _ => exists s, at_ cp d = Some (Utf8 s))); [lia|]|].
  { intros e He [s2 ->]%tag_utf8. by exists s2. }
  intros [] [s2 Hs2].
  eapply runs_bind; [apply (runs_value _ (fun x => x = s) s); [unfold get_utf8_string; by rewrite Hs|done]|]. intros ? ->.
  eapply runs_bind; [apply (runs_value _ (fun x => x = s2) s2); [unfold get_utf8_string; by rewrite Hs2|done]|]. intros ? ->.
  apply runs_ret. split; [done|]. split; [exact (at_ok _ _ _ Hcp Hs)|exact (at_ok _ _ _ Hcp Hs2)].
Qed.

Lemma runs_require_some {A} (o : option A) : runs (require_some o) (fun a => o = Some a).
Proof. destruct o; [by apply runs_ret|apply runs_fail]. Qed.

(** The values of a field whose descriptor begins with [c].  The second entry of a number of
    two words is taken for any. *)
Definition constant_of (c : ascii) (v : Const_Java_Value) : Prop :=
  match v with
  | CV_none => True
  | CV_i _ => existsb (is_char c) ["I"; "S"; "Z"; "B"; "C"]%char = true
  | CV_f _ => is_char c "F"%char = true
  | CV_l _ _ => existsb (is_char c) ["J"; "D"]%char = true
  | CV_string _ => is_char c "L"%char = true
  end.
Lemma runs_constant_value c i : 0 <= i -> is_valid_index cp i = true -> runs (constant_value clss c i) (constant_of c).
Proof.
  intros Hi Hv. destruct (at_valid cp i Hi Hv) as (e & He & _). unfold constant_value.
  eapply runs_bind; [apply (runs_value _ (fun x => x = e) e); done|]. intros ? ->. cbv zeta.
  destruct e; try apply runs_fail; try (by apply runs_ret); (eapply runs_bind; [apply runs_true|]; intros [] Hc; apply runs_ret; simpl; rewrite ?orb_false_r, ?orb_assoc; try done; rewrite Hc; by rewrite ?orb_true_r).
Qed.

(** What the attributes of a field do not change. *)
Definition same_field (m : Class_Member) (f : Field) : Prop :=
  _name (field_member f) = _name m /\ _descriptor (field_member f) = _descriptor m /\ is_static_member (field_member f) = is_static_member m /\
  (_const_value_index f <> 0 -> constant_of (char_at (_descriptor m) 0) (const_value f)) /\ _is_magic_type f = is_magic_type_name (_descriptor m).
Lemma land_lor_out x a b : Z.land a b = 0 -> Z.land (Z.lor x a) b = Z.land x b.
Proof. intros H. by rewrite Z.land_lor_distr_l, H, Z.lor_0_r. Qed.
Lemma synthetic_static m : is_static_member (add_acc m ACC_SYNTHETIC) = is_static_member m.
Proof. unfold is_static_member, has_acc. simpl. by rewrite land_lor_out. Qed.

Lemma runs_field_attribute m s : same_field m (fs_field s) -> runs (field_attribute env clss s) (fun s' => same_field m (fs_field s')).
Proof.
  intros Hs. unfold field_attribute. eapply runs_bind; [by apply runs_parse_attribute|]. intros [a len] Hlen. cbn [snd] in Hlen.
  destruct a; try apply runs_fail; cbv zeta; try (eapply runs_bind; [apply runs_true|]; intros [] _).
  - eapply runs_bind; [apply runs_true|]. intros [] _. apply runs_if; intros Hst.
    + eapply runs_bind; [apply runs_any_skip|]. intros _ _. by apply runs_ret.
    + eapply runs_bind; [apply runs_u2|]. cbv beta. intros i Hi. eapply runs_bind; [apply runs_true|]. intros [] Hv.
      eapply runs_bind; [apply runs_constant_value; [lia|done]|]. intros v Hv'. apply runs_ret. destruct Hs as (H1 & H2 & H3 & _ & H5). rewrite H2 in Hv'. by split_and!.
  - apply runs_ret. destruct Hs as (H1 & H2 & H3 & H4 & H5). split_and!; simpl; try done. by rewrite synthetic_static.
  - by apply runs_ret.
  - eapply runs_bind; [by apply runs_signature_attr|]. intros sig _. by apply runs_ret.
  - eapply runs_bind; [by apply runs_annotations_of_length|]. intros t _. by apply runs_ret.
  - apply runs_if; intros _.
    + eapply runs_bind; [by apply runs_annotations_of_length|]. intros t _. by apply runs_ret.
    + eapply runs_bind; [apply runs_any_skip|]. intros _ _. by apply runs_ret.
  - by apply runs_ret.
Qed.

(** Its descriptor is one of a field, and its constant one of that type. *)
Definition described (f : Field) : Prop := (exists t, shape false t /\ _descriptor (field_member f) = print_type t) /\
  (_const_value_index f <> 0 -> constant_of (char_at (_descriptor (field_member f)) 0) (const_value f)) /\
  _is_magic_type f = is_magic_type_name (_descriptor (field_member f)).
Lemma runs_Field_parse : runs (Field_parse env clss) described.
Proof.
  unfold Field_parse. eapply runs_bind; [apply runs_member|]. intros m (Hf & Hn & Hd).
  eapply runs_bind with (P := fun _ => True). { apply runs_if; intros _; [by apply runs_ret|by apply runs_name_ok]. }
  intros b _. eapply runs_bind; [apply runs_true|]. intros [] _.
  eapply runs_bind; [by apply runs_require_field_descriptor|]. intros _ (t & Ht & Hdt).
  eapply runs_bind; [apply runs_require_some|]. intros flags _. cbv zeta.
  eapply runs_bind; [apply runs_u2|]. cbv beta. intros n _.
  eapply runs_bind; [apply (runs_iterate _ _ (fun s => same_field (MkMember flags (_name m) (_descriptor m)) (fs_field s)))|].
  - intros s Hs. by apply runs_field_attribute.
  - done.
  - intros s (_ & Hs & _ & Hv & Hm). apply runs_ret. unfold described. rewrite Hs. split; [by exists t|done].
Qed.

(** *** Tables of a method *)

(** A handler inside the code; its class is in the pool. *)
Definition handler_ok (code_length : Z) (h : BcHandler) : Prop :=
  0 <= _start_pc h < _end_pc h /\ _end_pc h <= code_length /\ 0 <= _handler_pc h < code_length /\
  match _catch_type h with
  | None => _catch_type_index h = 0
  | Some s => str_ok s /\ exists n r, at_ cp (_catch_type_index h) = Some (ClassRef n r) /\ at_ cp n = Some (Utf8 s)
  end.

Lemma runs_class_name_at_exact i : 0 <= i ->
  runs (class_name_at cp i) (fun s => str_ok s /\ exists n r, at_ cp i = Some (ClassRef n r) /\ at_ cp n = Some (Utf8 s)).
Proof.
  intros Hi. unfold class_name_at, utf8_at. eapply runs_bind.
  - apply (runs_valid_cpi cp i _ (fun _ => exists n r, at_ cp i = Some (ClassRef n r))); [done|]. intros e He (n & r & ->)%tag_class. by exists n, r.
  - intros [] (n & r & Hn). pose proof (at_ok _ _ _ Hcp Hn) as Hok. eapply runs_bind.
    { apply (runs_value _ (fun x => x = n) n); [|done]. unfold get_class_name_index. by rewrite Hn. }
    intros x ->. eapply runs_bind; [apply (runs_valid_cpi cp n _ (fun _ => exists s, at_ cp n = Some (Utf8 s))); [done|]|].
    { intros e He [s ->]%tag_utf8. by exists s. }
    intros [] [s Hs]. apply (runs_value _ _ s); [unfold get_utf8_string; by rewrite Hs|]. split; [exact (at_ok _ _ _ Hcp Hs)|]. by exists n, r.
Qed.

Lemma runs_handler len : runs (Handler_parse clss len) (handler_ok len).
Proof.
  unfold Handler_parse. eapply runs_bind; [apply runs_u2|]. cbv beta. intros a Ha. eapply runs_bind; [apply runs_true|]. intros [] _.
  eapply runs_bind; [apply runs_u2|]. cbv beta. intros b Hb. eapply runs_bind; [apply runs_true|]. intros [] H2%negb_true_iff%Z.ltb_ge.
  eapply runs_bind; [apply runs_true|]. intros [] H3%negb_true_iff%Z.leb_gt.
  eapply runs_bind; [apply runs_u2|]. cbv beta. intros h Hh. eapply runs_bind; [apply runs_true|]. intros [] H4%negb_true_iff%Z.leb_gt.
  eapply runs_bind; [apply runs_u2|]. cbv beta. intros c Hc. destruct (Z.eqb_spec c 0) as [->|].
  - apply runs_ret. unfold handler_ok. simpl. split_and!; done || lia.
  - eapply runs_bind; [apply runs_class_name_at_exact; lia|]. intros s Hs. apply runs_ret. unfold handler_ok. simpl. split_and!; done || lia || apply Hs.
Qed.

Lemma runs_exceptions n : runs (_parse_exceptions clss n) (fun _ => True).
Proof.
  unfold _parse_exceptions. eapply runs_bind; [apply runs_u2|]. cbv beta. intros k _. eapply runs_bind; [apply runs_true|]. intros [] _.
  eapply runs_mono; [apply (runs_times _ _ (fun _ => True))|done]. eapply runs_bind; [apply runs_u2|]. cbv beta. intros i Hi.
  eapply runs_mono; [apply runs_class_name_at; [done|lia]|done].
Qed.
Lemma runs_line_numbers n len : runs (_parse_line_numbers n len) (Forall (fun e => line_start_pc e < len)).
Proof.
  unfold _parse_line_numbers. eapply runs_bind; [apply runs_u2|]. cbv beta. intros k _. eapply runs_bind; [apply runs_true|]. intros [] _.
  eapply runs_mono; [apply (runs_times _ _ (fun e => line_start_pc e < len))|by intros l []].
  eapply runs_bind; [apply runs_u2|]. cbv beta. intros a _. eapply runs_bind; [apply runs_true|]. intros [] H%negb_true_iff%Z.leb_gt.
  eapply runs_bind; [apply runs_u2|]. cbv beta. intros b _. by apply runs_ret.
Qed.

(** A variable inside the code, with its words among the locals. *)
Definition var_ok (max_locals len : Z) (e : Local_Var_Entry) : Prop :=
  0 <= lv_start_pc e < len /\ 0 <= lv_length e /\ lv_start_pc e + lv_length e <= len /\
  0 <= lv_index e < max_locals /\
  (is_char (char_at (lv_type e) 0) "D"%char || is_char (char_at (lv_type e) 0) "J"%char = true -> lv_index e + 1 < max_locals).

Lemma runs_local_var max_locals len generic off : runs (parse_local_var env clss max_locals len generic off) (var_ok max_locals len).
Proof.
  unfold parse_local_var. eapply runs_bind; [by apply (runs_go_to _ (fun _ => True))|]. intros _ _.
  eapply runs_bind; [apply runs_u2|]. cbv beta. intros a Ha. eapply runs_bind; [apply runs_u2|]. cbv beta. intros l Hl.
  eapply runs_bind; [apply runs_true|]. intros [] [H1%Z.leb_gt H2%Z.ltb_ge]%negb_true_iff%orb_false_iff.
  eapply runs_bind; [apply runs_u2|]. cbv beta. intros n Hn. eapply runs_bind; [apply runs_u2|]. cbv beta. intros d Hd.
  eapply runs_bind; [apply runs_utf8_at; [done|lia]|]. intros nm Hnm. eapply runs_bind; [by apply runs_name_ok|]. intros b _.
  eapply runs_bind; [apply runs_true|]. intros [] _. eapply runs_bind; [apply runs_utf8_at; [done|lia]|]. intros ds Hds.
  eapply runs_bind with (P := fun _ => True). { apply runs_if; intros _; [by apply runs_ret|]. eapply runs_mono; [by apply runs_require_field_descriptor|done]. }
  intros _ _. eapply runs_bind; [apply runs_u2|]. cbv beta. intros i Hi. cbv zeta.
  eapply runs_bind; [apply runs_true|]. intros [] H3%negb_true_iff. eapply runs_bind; [apply runs_true|]. intros [] H4%negb_true_iff%Z.leb_gt.
  apply runs_ret. unfold var_ok. simpl. split_and!; try lia. intros Hw. rewrite Hw in H3. simpl in H3. apply Z.leb_gt in H3. lia.
Qed.

(** There is an offset for each entry of the table. *)
Lemma runs_local_vars_loop max_locals len generic offsets n table : n <= Z.of_nat (length table + length offsets) ->
  Forall (var_ok max_locals len) table ->
  runs (parse_local_vars_loop env clss max_locals len generic offsets n table) (Forall (var_ok max_locals len)).
Proof.
  revert n table. induction offsets as [|off offsets IH]; intros n table Hn Ht; simpl in Hn |- *.
  - rewrite (proj2 (Z.leb_le _ _)) by lia. by apply runs_ret.
  - destruct (n <=? _); [by apply runs_ret|]. eapply runs_bind; [apply runs_local_var|]. intros e He.
    apply runs_if; intros _; [apply runs_if; intros _; [|apply runs_fail]|]; apply IH; rewrite ?length_app; simpl; try lia; [done|].
    apply Forall_app. split; [done|by constructor].
Qed.
Lemma runs_local_vars max_locals len generic offsets :
  runs (_parse_local_vars env clss max_locals len generic offsets) (Forall (var_ok max_locals len)).
Proof.
  apply runs_local_vars_loop; [|constructor]. simpl. unfold ux. pose proof (Z.mod_le (Z.of_nat (length offsets)) (2 ^ 16) ltac:(lia) ltac:(lia)). lia.
Qed.

Lemma set_generic_type_ok max_locals len g table table' : Forall (var_ok max_locals len) table -> set_generic_type g table = Some table' -> Forall (var_ok max_locals len) table'.
Proof.
  revert table'. induction table as [|e table IH]; intros table' Ht H; simpl in H; [done|]. apply Forall_cons_1 in Ht as [He Ht].
  destruct (same_var g e); [injection H as <-; by constructor|]. destruct (set_generic_type g table) as [t|]; [|done]. injection H as <-. constructor; [done|by apply IH].
Qed.
Lemma runs_set_generic_types max_locals len gs table : Forall (var_ok max_locals len) table -> runs (set_generic_types env gs table) (Forall (var_ok max_locals len)).
Proof.
  revert table. induction gs as [|g gs IH]; intros table Ht; simpl; [by apply runs_ret|].
  destruct (set_generic_type g table) as [t|] eqn:E; [apply IH; by eapply set_generic_type_ok|]. apply runs_if; intros _; [apply runs_fail|by apply IH].
Qed.
End members.

(** ** Methods and the class *)

Section methods.
Context (env : Env) (clss : Clss) (Hcp : pool_ok (m_const_pool clss)).
Abbreviation cp := (m_const_pool clss).

(** The code of a method with [slots] slots of arguments. *)
Definition code_ok (slots : Z) (c : Code) : Prop :=
  0 <= _max_stack c < 2 ^ 16 /\ slots <= _max_locals c < 2 ^ 16 /\ (0 < length (_byte_codes c))%nat /\
  Z.of_nat (length (_byte_codes c)) < 2 ^ 16 /\ Forall (is_u 8) (_byte_codes c) /\
  Forall (handler_ok clss (Z.of_nat (length (_byte_codes c)))) (_handlers c) /\
  (forall t, _local_vars_table c = Some t -> Forall (var_ok (_max_locals c) (Z.of_nat (length (_byte_codes c)))) t) /\
  (forall t, _line_number_table c = Some t -> Forall (fun e => line_start_pc e < Z.of_nat (length (_byte_codes c))) t) /\
  (forall m, m_stackmap c = Some m -> Forall (is_u 8) m).

Definition code_state_ok (len : Z) (s : code_state) : Prop :=
  (forall t, line_table s = Some t -> Forall (fun e => line_start_pc e < len) t) /\ (forall m, stackmap s = Some m -> Forall (is_u 8) m).

Lemma runs_var_table n : runs (var_table n) (fun _ => True).
Proof.
  unfold var_table. eapply runs_bind; [apply runs_u2|]. cbv beta. intros k _. eapply runs_bind; [apply runs_true|]. intros [] _.
  apply runs_if; intros _; [by apply runs_ret|]. eapply runs_bind; [by apply (runs_look _ (fun _ => True))|]. intros off _.
  eapply runs_bind; [apply runs_any_skip|]. intros _ _. by apply runs_ret.
Qed.
Lemma runs_read_stackmap n : runs (read_stackmap n) (Forall (is_u 8)).
Proof.
  unfold read_stackmap. eapply runs_bind; [apply runs_any_skip|]. intros _ _. eapply runs_mono; [apply runs_times, runs_u1|]. by intros l [].
Qed.

Lemma runs_code_attribute len s : code_state_ok len s -> runs (code_attribute clss len s) (code_state_ok len).
Proof.
  intros [Hlt Hst]. unfold code_attribute. eapply runs_bind; [by apply runs_parse_attribute|]. intros [a n] _.
  eapply runs_bind with (P := code_state_ok len); [|intros s' Hs'; by apply runs_ret]. destruct a; try apply runs_fail; cbv zeta.
  - eapply runs_bind; [apply runs_line_numbers|]. intros t Ht. apply runs_ret. split; [by intros ? [= <-]|done].
  - eapply runs_bind; [apply runs_var_table|]. intros t _. by apply runs_ret.
  - apply runs_if; intros _; [eapply runs_bind; [apply runs_any_skip|]; intros _ _; by apply runs_ret|].
    eapply runs_bind; [apply runs_var_table|]. intros t _. by apply runs_ret.
  - eapply runs_bind; [apply runs_true|]. intros [] _. eapply runs_bind; [apply runs_read_stackmap|]. intros b Hb. apply runs_ret.
    split; [done|by intros ? [= <-]].
  - by apply runs_ret.
Qed.

Lemma runs_local_variables max_locals len lvt lvtt :
  runs (local_variables env clss max_locals len lvt lvtt) (fun o => forall t, o = Some t -> Forall (var_ok max_locals len) t).
Proof.
  unfold local_variables. eapply runs_bind; [by apply (runs_look _ (fun _ => True))|]. intros p _. eapply runs_bind; [apply runs_true|]. intros [] _.
  eapply runs_bind with (P := fun o => forall t, o = Some t -> Forall (var_ok max_locals len) t).
  - apply runs_if; intros _; [by apply runs_ret|]. eapply runs_bind; [by apply runs_local_vars|]. intros t Ht.
    eapply runs_bind with (P := Forall (var_ok max_locals len)).
    + apply runs_if; intros _; [by apply runs_ret|]. eapply runs_bind; [by apply runs_local_vars|]. intros gs _. by apply runs_set_generic_types.
    + intros t' Ht'. apply runs_ret. destruct (TI_enabled env); [by intros ? [= <-]|done].
  - intros o Ho. eapply runs_bind; [by apply (runs_go_to _ (fun _ => True))|]. intros _ _. by apply runs_ret.
Qed.

Lemma runs_code slots n : 0 <= slots -> runs (_parse_code env clss slots n) (code_ok slots).
Proof.
  intros Hsl. unfold _parse_code. eapply runs_bind; [apply runs_u2|]. cbv beta. intros ms Hms. eapply runs_bind; [apply runs_u2|]. cbv beta. intros ml Hml.
  eapply runs_bind; [apply runs_true|]. intros [] H1%negb_true_iff%Z.ltb_ge. eapply runs_bind; [apply runs_u4|]. cbv beta. intros len Hlen.
  eapply runs_bind; [apply runs_true|]. intros [] [H2%Z.eqb_neq H3%Z.leb_gt]%negb_true_iff%orb_false_iff.
  eapply runs_bind; [apply runs_times, runs_u1|]. intros bs [Hbl Hbs]. assert (Hl : Z.of_nat (length bs) = len) by lia.
  eapply runs_bind; [apply runs_u2|]. cbv beta. intros nh _. eapply runs_bind; [apply runs_times; by apply runs_handler|]. intros hs [_ Hhs].
  eapply runs_bind; [apply runs_u2|]. cbv beta. intros na _.
  eapply runs_bind; [apply (runs_iterate _ _ (code_state_ok len)); [intros; by apply runs_code_attribute|done]|]. intros s [Hs1 Hs2].
  eapply runs_bind; [apply runs_true|]. intros [] _. eapply runs_bind; [apply runs_local_variables|]. intros t Ht.
  apply runs_ret. unfold code_ok. cbn [_max_stack _max_locals _byte_codes _handlers _line_number_table _local_vars_table m_stackmap]. rewrite Hl. split_and!; done || lia.
Qed.

(** A method: its descriptor is of the grammar and its slots are those of the arguments. *)
Definition method_ok (m : MethodInfo) : Prop :=
  (exists args ret, Forall (shape false) args /\ shape true ret /\ _descriptor (meth m) = print_method args ret) /\
  0 <= _arguments_slot_num m <= 255 /\
  (forall c, meth_code m = Some c -> code_ok (_arguments_slot_num m) c) /\
  (meth_code m = None -> meth_has m ACC_ABSTRACT || meth_has m ACC_NATIVE = true).
(** Before the last test. *)
Definition method_state_ok (s : method_state) : Prop :=
  (exists args ret, Forall (shape false) args /\ shape true ret /\ _descriptor (meth (ms s)) = print_method args ret) /\
  0 <= _arguments_slot_num (ms s) <= 255 /\
  (forall c, meth_code (ms s) = Some c -> code_ok (_arguments_slot_num (ms s)) c) /\
  (numCode s = 0 \/ meth_code (ms s) <> None) /\ 0 <= numCode s.

Lemma runs_param_annotations n : runs (param_annotations_of_length clss n) (fun _ => True).
Proof.
  unfold param_annotations_of_length. eapply runs_bind; [apply runs_u1|]. cbv beta. intros k _. eapply runs_bind with (P := fun _ => True).
  - apply runs_if; intros _; [by apply runs_ret|]. eapply runs_mono; [apply (runs_measured _ (fun _ => True)); by apply runs_parameter_annotations|done].
  - intros [t len] _. eapply runs_bind; [apply runs_true|]. intros [] _. by apply runs_ret.
Qed.

(** An attribute that leaves the invariant as it is. *)
#[local] Ltac keep Hd Hsl Hc Hn Hn0 := apply runs_ret; split; [exact Hd|split; [exact Hsl|split; [exact Hc|split; [exact Hn|exact Hn0]]]].
Lemma runs_method_attribute s : method_state_ok s -> runs (method_attribute env clss s) method_state_ok.
Proof.
  intros (Hd & Hsl & Hc & Hn & Hn0). unfold method_attribute. eapply runs_bind; [by apply runs_parse_attribute|]. intros [a len] _.
  destruct a; try apply runs_fail; cbv zeta; try (eapply runs_bind; [apply runs_true|]; intros [] _).
  - keep Hd Hsl Hc Hn Hn0.
  - keep Hd Hsl Hc Hn Hn0.
  - eapply runs_bind; [by apply runs_signature_attr|]. intros sig _. keep Hd Hsl Hc Hn Hn0.
  - eapply runs_bind; [by apply runs_annotations_of_length|]. intros t _. keep Hd Hsl Hc Hn Hn0.
  - apply runs_if; intros _.
    + eapply runs_bind; [by apply runs_annotations_of_length|]. intros t _. keep Hd Hsl Hc Hn Hn0.
    + eapply runs_bind; [apply runs_any_skip|]. intros _ _. keep Hd Hsl Hc Hn Hn0.
  - eapply runs_bind; [apply runs_true|]. intros [] _. eapply runs_bind; [apply (runs_code (_arguments_slot_num (ms s)))|]; [lia|]. intros c Hco. apply runs_ret.
    unfold method_state_ok. simpl. split_and!; try done; try lia; [by intros ? [= <-]|by right].
  - eapply runs_bind; [by apply runs_exceptions|]. intros e _. keep Hd Hsl Hc Hn Hn0.
  - eapply runs_bind; [apply runs_param_annotations|]. intros t _. keep Hd Hsl Hc Hn Hn0.
  - apply runs_if; intros _.
    + eapply runs_bind; [apply runs_true|]. intros [] _. eapply runs_bind; [apply runs_param_annotations|]. intros t _. keep Hd Hsl Hc Hn Hn0.
    + eapply runs_bind; [apply runs_any_skip|]. intros _ _. keep Hd Hsl Hc Hn Hn0.
  - eapply runs_bind; [apply (runs_measured _ (fun _ => True)); by apply runs_annotation_value|]. intros [v n] _.
    eapply runs_bind; [apply runs_true|]. intros [] _. keep Hd Hsl Hc Hn Hn0.
  - keep Hd Hsl Hc Hn Hn0.
Qed.

Lemma runs_Method_parse : runs (Method_parse env clss) method_ok.
Proof.
  unfold Method_parse. eapply runs_bind; [by apply runs_member|]. intros m (Hf & Hnm & Hd). cbv zeta.
  eapply runs_bind with (P := fun _ => True). { apply runs_if; intros _; [by apply runs_ret|by apply runs_name_ok]. }
  intros b _. eapply runs_bind; [apply runs_true|]. intros [] _.
  eapply runs_bind; [by apply runs_require_method_descriptor|]. intros [] (args & ret & Ha & Hr & Hdesc).
  assert (Hslots : calculate_arguments_slot_num (is_static_member m) (_descriptor m)
    = Some (foldl (fun n t => n + arg_words t) (if is_static_member m then 0 else 1) args)) by (rewrite Hdesc; by apply slot_num_spec).
  eapply runs_bind; [by apply (runs_value _ (fun n => n = foldl (fun n t => n + arg_words t) (if is_static_member m then 0 else 1) args) _ Hslots)|].
  cbv beta. intros slots Hs. assert (Hs0 : 0 <= slots).
  { subst slots. clear. assert (H : forall z, 0 <= z -> 0 <= foldl (fun n t => n + arg_words t) z args).
    { induction args as [|t args IH]; intros z Hz; [done|]. simpl. apply IH. destruct t as [[|d] [c| |n]]; simpl; try lia. destruct (_ || _); lia. }
    apply H. destruct (is_static_member m); lia. }
  eapply runs_bind; [apply runs_true|]. intros [] Hle%negb_true_iff%Z.ltb_ge.
  eapply runs_bind; [apply runs_require_some|]. intros flags _. eapply runs_bind; [apply runs_u2|]. cbv beta. intros n _.
  eapply runs_bind; [apply (runs_iterate _ _ method_state_ok); [apply runs_method_attribute|]|].
  - unfold method_state_ok. simpl. split_and!; try done; [by exists args, ret|by left].
  - intros s (H1 & H2 & H3 & H4 & H5). eapply runs_bind; [apply runs_true|]. intros [] H6%negb_true_iff. apply runs_ret.
    split; [done|]. split; [done|]. split; [done|]. intros Hnone. destruct H4 as [H4|H4]; [|done]. rewrite H4 in H6.
    destruct (_ || _); [done|]. by simpl in H6.
Qed.
End methods.

Section class.
Context (env : Env) (loader_name given_name : option string).

Lemma runs_parse_version : runs parse_version (fun v => 45 <= v <= 50).
Proof.
  unfold parse_version. eapply runs_bind; [apply runs_u4|]. cbv beta. intros m _. eapply runs_bind; [apply runs_true|]. intros [] _.
  eapply runs_bind; [apply runs_u2|]. cbv beta. intros a _. eapply runs_bind; [apply runs_u2|]. cbv beta. intros v _.
  eapply runs_bind; [apply runs_true|]. intros [] [H1%Z.leb_le H2%Z.leb_le]%andb_prop. eapply runs_bind; [apply runs_true|]. intros [] _.
  by apply runs_ret.
Qed.


Lemma runs_super version flags nm cp : pool_ok cp -> runs (parse_super env version flags nm cp) (fun x => x.2 = None -> nm = "java/lang/Object").
Proof.
  intros Hp. unfold parse_super. eapply runs_bind; [apply runs_u2|]. cbv beta. intros i Hi. apply runs_if; intros _.
  - eapply runs_bind; [apply runs_true|]. intros [] H%bool_decide_eq_true. by apply runs_ret.
  - eapply runs_bind; [apply runs_class_name_at; [done|lia]|]. intros s Hs. eapply runs_bind; [by apply runs_require_class_name|]. intros _ _.
    eapply runs_bind; [apply runs_true|]. intros [] _. by apply runs_ret.
Qed.
Lemma runs_interfaces cp : pool_ok cp -> runs (parse_interfaces cp) (fun _ => True).
Proof.
  intros Hp. unfold parse_interfaces. eapply runs_bind; [apply runs_u2|]. cbv beta. intros n _.
  eapply runs_mono; [apply (runs_times _ _ (fun _ => True))|done]. eapply runs_bind; [apply runs_u2|]. cbv beta. intros i Hi.
  eapply runs_bind; [apply runs_class_name_at; [done|lia]|]. intros s _. by apply runs_ret.
Qed.

(** What follows the pool. *)
Definition after_pool (version : Z) (cp : ConstantPool) : R ClassHead :=
  flags ← parse_u2_be;
  flags ← require_some (class_flags version flags);
  this_class ← parse_u2_be;
  class_name ← class_name_at cp this_class;
  _ ← require (match given_name with Some n => bool_decide (class_name = n) | None => true end);
  name_index ← value (get_class_name_index cp this_class);
  let cp := resolve_entry cp this_class (ClassRef name_index true) in
  super ← parse_super env version flags class_name cp;
  interfaces ← parse_interfaces cp;
  mret (MkHead (MkClss version flags class_name cp (is_trusted_classloader loader_name)) super interfaces).

Definition good_head (h : ClassHead) : Prop :=
  45 <= m_version (head_class h) <= 50 /\ pool_ok (m_const_pool (head_class h)) /\ str_ok (m_name (head_class h)) /\
  ((m_super_class h).2 = None -> m_name (head_class h) = "java/lang/Object").

Lemma runs_after_pool version cp : 45 <= version <= 50 -> pool_ok cp -> runs (after_pool version cp) good_head.
Proof.
  intros Hv Hp. unfold after_pool. eapply runs_bind; [apply runs_u2|]. cbv beta. intros f _. eapply runs_bind; [apply runs_require_some|]. intros flags _.
  eapply runs_bind; [apply runs_u2|]. cbv beta. intros this Hthis.
  eapply runs_bind; [apply (runs_class_name_at_exact (MkClss version flags EmptyString cp false) Hp); lia|]. intros nm (Hnm & n & r & Hn & _). cbn [m_const_pool] in Hn.
  eapply runs_bind; [apply runs_true|]. intros [] _.
  eapply runs_bind; [apply (runs_value _ (fun x => x = n) n); [unfold get_class_name_index; by rewrite Hn|done]|]. intros ? ->. cbv zeta.
  destruct (resolve_ok cp this (ClassRef n true) Hp (at_ok _ _ _ Hp Hn)) as [Hp' _].
  eapply runs_bind; [by apply runs_super|]. intros super Hs. eapply runs_bind; [by apply runs_interfaces|]. intros is_ _. apply runs_ret. done.
Qed.

(** The count of the pool, after the eight bytes of the magic and of the versions. *)
Definition has_entries (r : ByteReader) : Prop := forall l, drop 8 (rest r) <> "000"%char :: "000"%char :: l.

Lemma bind_done {A B} (m : R A) (k : A -> R B) r b r' : (m ≫= k) r = Done b r' -> exists a r1, m r = Done a r1 /\ k a r1 = Done b r'.
Proof. unfold mbind, R_bind. destruct (m r) as [a r1| |]; [|done..]. intros H. by exists a, r1. Qed.
Lemma require_done b r u r' : require b r = Done u r' -> b = true /\ r' = r.
Proof. destruct b; [|done]. by intros [= _ ->]. Qed.
Lemma u2_done r v r' : reader_ok r -> parse_u2_be r = Done v r' -> reader_ok r' /\ rest r' = drop 2 (rest r).
Proof.
  intros Hr. rewrite parse_u2_rest by done. destruct (rest r) as [|c [|d l]] eqn:E; [done..|]. intros [= _ <-].
  split; [apply move_ok; [done|rewrite E; simpl; lia]|]. rewrite rest_move by (done || rewrite E; simpl; lia). by rewrite E.
Qed.
Lemma u4_done r v r' : reader_ok r -> parse_u4_be r = Done v r' -> reader_ok r' /\ rest r' = drop 4 (rest r).
Proof.
  intros Hr. rewrite parse_u4_rest by done. destruct (rest r) as [|c [|d [|e [|f l]]]] eqn:E; [done..|]. intros [= _ <-].
  split; [apply move_ok; [done|rewrite E; simpl; lia]|]. rewrite rest_move by (done || rewrite E; simpl; lia). by rewrite E.
Qed.
Lemma parse_version_moves r v r' : reader_ok r -> parse_version r = Done v r' -> rest r' = drop 8 (rest r).
Proof.
  intros Hr H. unfold parse_version in H. apply bind_done in H as (m & r4 & H4 & H). apply (u4_done r) in H4 as [Hr4 E4]; [|done].
  apply bind_done in H as ([] & r5 & [_ ->]%require_done & H). apply bind_done in H as (n & r6 & H6 & H). apply (u2_done r4) in H6 as [Hr6 E6]; [|done].
  apply bind_done in H as (x & r8 & H8 & H). apply (u2_done r6) in H8 as [Hr8 E8]; [|done].
  apply bind_done in H as ([] & r9 & [_ ->]%require_done & H). apply bind_done in H as ([] & r9 & [_ ->]%require_done & H).
  injection H as _ <-. by rewrite E8, E6, E4, !drop_drop.
Qed.

Lemma runs_head r : reader_ok r -> end_ r - start r < SMALL -> has_entries r -> runs_from r (parse_head env loader_name given_name) good_head.
Proof.
  intros Hr Hs He. change (parse_head env loader_name given_name) with
    (version ← parse_version; cp ← ConstantPool_parse;
     cp ← ConstantPool_check (u_isalpha env) (u_isalnum env) (verify_all env) (is_trusted_classloader loader_name) version cp; after_pool version cp).
  pose proof (runs_parse_version r Hr Hs) as Hv. unfold runs_from, mbind at 1, R_bind at 1.
  destruct (parse_version r) as [v r1| |] eqn:E1; [|done..]. destruct Hv as (Hr1 & Hsame & Hv). apply parse_version_moves in E1; [|done].
  assert (Hs1 : end_ r1 - start r1 < SMALL) by (destruct Hsame as (_ & -> & ->); done).
  assert (Hpool : runs_from r1 (cp ← ConstantPool_parse;
     cp ← ConstantPool_check (u_isalpha env) (u_isalnum env) (verify_all env) (is_trusted_classloader loader_name) v cp; after_pool v cp) good_head).
  { eapply runs_from_bind; [done|apply runs_pool_parse; [done|done|]|].
    - intros l. rewrite E1. apply He.
    - intros cp [Hp Hsz]. eapply runs_bind; [apply runs_check; [done|lia]|]. intros cp' [Hp' _]. by apply runs_after_pool. }
  unfold runs_from in Hpool. destruct ((_ : R ClassHead) r1) as [h r2| |]; [|done..]. destruct Hpool as (? & ? & ?). split; [done|]. split; [by eapply same_file_trans|done].
Qed.
End class.

Section class_members.
Context (env : Env) (clss : Clss) (Hcp : pool_ok (m_const_pool clss)).

(** Of the first [num] fields the static ones are before [statics], the others from [last] on. *)
Definition parted (num statics last : nat) (fields : list Field) : Prop :=
  (forall i f, (i < statics)%nat -> fields !! i = Some f -> is_static_member (field_member f) = true /\ described f) /\
  (forall i f, (last <= i < num)%nat -> fields !! i = Some f -> is_static_member (field_member f) = false /\ described f).

Lemma runs_put_field fields i f : (i < length fields)%nat -> runs (put_field fields i f) (fun x => x = <[i := f]> fields).
Proof. intros Hi. unfold put_field. rewrite (proj2 (Nat.ltb_lt _ _)) by done. by apply runs_ret. Qed.

Lemma runs_fields_loop num n fields statics last : (statics + n = last)%nat -> (last <= num <= length fields)%nat -> parted num statics last fields ->
  runs (fields_loop env clss n fields statics last) (fun x => length x.1 = length fields /\ (x.2 <= num)%nat /\ parted num x.2 x.2 x.1).
Proof.
  revert fields statics last. induction n as [|n IH]; intros fields statics last Hn Hl [Hs Hns]; cbn [fields_loop].
  { apply runs_ret. simpl. replace last with statics in * by lia. split_and!; done || lia. }
  eapply runs_bind; [by apply runs_Field_parse|]. intros fd Hdesc.
  assert (Hfd : is_static_member (field_member (assign_field fd)) = is_static_member (field_member fd)) by done.
  destruct (is_static_member (field_member fd)) eqn:Es.
  - eapply runs_bind; [apply runs_put_field; lia|]. intros ? ->. eapply runs_mono; [apply (IH _ (S statics) last); rewrite ?length_insert; try lia|].
    + split; intros i f Hi Hf; destruct (Nat.eq_dec i statics) as [->|]; try lia.
      * rewrite list_lookup_insert_eq in Hf by lia. by injection Hf as <-.
      * rewrite list_lookup_insert_ne in Hf by done. apply (Hs i); [lia|done].
      * rewrite list_lookup_insert_ne in Hf by lia. by apply (Hns i).
    + intros x (H1 & H2 & H3). rewrite length_insert in H1. done.
  - eapply runs_bind; [apply runs_put_field; lia|]. intros ? ->. eapply runs_mono; [apply (IH _ statics (last - 1)%nat); rewrite ?length_insert; try lia|].
    + split; intros i f Hi Hf; destruct (Nat.eq_dec i (last - 1)%nat) as [->|]; try lia.
      * rewrite list_lookup_insert_ne in Hf by lia. by apply (Hs i).
      * rewrite list_lookup_insert_eq in Hf by lia. by injection Hf as <-.
      * rewrite list_lookup_insert_ne in Hf by done. apply (Hns i); [lia|done].
    + intros x (H1 & H2 & H3). rewrite length_insert in H1. done.
Qed.

(** Static fields, then the others, without two of the same name and descriptor. *)
Definition fields_ok (fields : list Field) (statics : nat) : Prop :=
  (statics <= length fields)%nat /\ parted (length fields) statics statics fields /\ has_duplicate (field_member <$> fields) = false /\
  Z.of_nat (length fields) < 2 ^ 16.

Lemma runs_parse_fields : extra_fields (m_name clss) = [] -> runs (parse_fields env clss) (fun x => fields_ok x.1 x.2).
Proof.
  intros Hx. unfold parse_fields. eapply runs_bind; [apply runs_u2|]. cbv beta. intros n Hn. rewrite Hx. cbv zeta. simpl length. rewrite Z.add_0_r, ux_id by (unfold is_u; done).
  eapply runs_bind; [apply (runs_fields_loop (Z.to_nat n)); rewrite ?length_replicate; try lia; by split; intros; lia|].
  intros [fields statics] (H1 & H2 & H3). cbn [fst snd] in *. rewrite length_replicate in H1.
  eapply runs_bind; [apply runs_true|]. intros [] Hd%negb_true_iff. cbn [add_extra_fields]. eapply runs_bind; [by apply (runs_ret _ (fun x => x = fields))|].
  intros ? ->. apply runs_ret. cbn [fst snd]. rewrite take_ge in Hd by lia. unfold fields_ok. rewrite H1. split_and!; done || lia.
Qed.

Lemma runs_methods_loop n methods si dc : Forall (method_ok clss) methods ->
  runs (methods_loop env clss n methods si dc) (fun x => Forall (method_ok clss) x.1.1).
Proof.
  revert methods si dc. induction n as [|n IH]; intros methods si dc Hm; cbn [methods_loop]; [by apply runs_ret|].
  eapply runs_bind; [by apply runs_Method_parse|]. intros m Hmo. eapply runs_bind; [apply runs_true|]. intros [] _. cbv zeta. apply IH.
  apply Forall_app. split; [done|by constructor].
Qed.
Definition methods_ok (methods : list MethodInfo) : Prop := Forall (method_ok clss) methods /\ has_duplicate (meth <$> methods) = false.
Lemma runs_parse_methods : runs (parse_methods env clss) (fun x => methods_ok x.1.1).
Proof.
  unfold parse_methods. eapply runs_bind; [apply runs_u2|]. cbv beta. intros n _. eapply runs_bind; [by apply runs_methods_loop|].
  intros [[methods si] dc] Hm. eapply runs_bind; [apply runs_true|]. intros [] Hd%negb_true_iff. by apply runs_ret.
Qed.

(** A class that is no inner class: room for every entry. *)
Lemma runs_inner_class n s : found_myself s <> 0 -> found_myself s <> 1 -> (inner_index s < n)%nat -> length (inner_classes s) = (2 * n)%nat ->
  runs (inner_class clss s) (fun s' => found_myself s' = found_myself s /\ inner_index s' = S (inner_index s) /\ length (inner_classes s') = (2 * n)%nat).
Proof.
  intros Hf0 Hf1 Hi Hl. unfold inner_class. cbv zeta. eapply runs_bind; [apply runs_u2|]. cbv beta. intros a Ha.
  eapply runs_bind with (P := fun _ => True). { apply runs_if; intros _; [by apply runs_ret|apply runs_valid_cpi; [lia|done]]. }
  intros _ _. rewrite (proj2 (Z.eqb_neq _ _)) by done. eapply runs_bind; [by apply (runs_ret _ (fun x => x = found_myself s))|]. intros ? ->.
  rewrite (proj2 (Z.eqb_neq (found_myself s) 1)) by done.
  assert (Hput : forall l f, length l = (2 * n)%nat -> runs (put_inner l (inner_index s) f) (fun l' => length l' = (2 * n)%nat)).
  { intros l f Hll. unfold put_inner. destruct (lookup_lt_is_Some_2 l (inner_index s)) as [x ->]; [lia|]. apply runs_ret. by rewrite length_insert. }
  eapply runs_bind; [by apply Hput|]. intros l Hll. eapply runs_bind; [apply runs_u2|]. cbv beta. intros b Hb.
  eapply runs_bind with (P := fun _ => True). { apply runs_if; intros _; [by apply runs_ret|apply runs_valid_cpi; [lia|done]]. }
  intros _ _. cbn [andb]. eapply runs_bind; [apply runs_u2|]. cbv beta. intros c Hc.
  eapply runs_bind with (P := fun _ => True). { apply runs_if; intros _; [by apply runs_ret|apply runs_valid_cpi; [lia|done]]. }
  intros _ _. eapply runs_bind; [by apply (runs_ret _ (fun _ => True))|]. intros sm _. eapply runs_bind; [apply runs_u2|]. cbv beta. intros d _.
  eapply runs_bind; [by apply Hput|]. intros l2 Hl2. by apply runs_ret.
Qed.
Lemma runs_inner_loop n k s : found_myself s = 2 -> (inner_index s + k <= n)%nat -> length (inner_classes s) = (2 * n)%nat ->
  runs (iterate k (inner_class clss) s) (fun _ => True).
Proof.
  revert s. induction k as [|k IH]; intros s Hf Hi Hl; simpl; [by apply runs_ret|].
  eapply runs_bind; [apply (runs_inner_class n s); rewrite ?Hf; done || lia|]. intros s' (H1 & H2 & H3). apply IH; [congruence|lia|done].
Qed.
Lemma runs_inner_classes len a : has_dollar (m_name clss) = false -> runs (parse_inner_classes clss len a) (fun _ => True).
Proof.
  intros Hd. unfold parse_inner_classes. eapply runs_bind; [apply runs_true|]. intros [] _. rewrite Hd. cbv zeta.
  eapply runs_bind; [apply runs_u2|]. cbv beta. intros n Hn. eapply runs_bind with (P := fun _ => True).
  - destruct (Z.eqb_spec n 0) as [->|]; [by apply runs_ret|]. apply (runs_inner_loop (Z.to_nat n)); simpl; [done|lia|]. rewrite length_replicate. lia.
  - intros s _. eapply runs_bind; [apply runs_true|]. intros [] _. by apply runs_ret.
Qed.

Lemma runs_class_attribute s : has_dollar (m_name clss) = false -> runs (class_attribute env clss s) (fun _ => True).
Proof.
  intros Hd. unfold class_attribute. cbv zeta. eapply runs_bind; [by apply runs_parse_attribute|]. intros [a len] Hlen. cbn [snd] in Hlen.
  destruct a; try apply runs_fail; try (eapply runs_bind; [apply runs_true|]; intros [] _).
  - by apply runs_ret.
  - by apply runs_ret.
  - eapply runs_bind; [by apply runs_signature_attr|]. intros sig _. by apply runs_ret.
  - eapply runs_bind; [by apply runs_annotations_of_length|]. intros t _. by apply runs_ret.
  - apply runs_if; intros _.
    + eapply runs_bind; [apply runs_true|]. intros [] _. eapply runs_bind; [by apply runs_annotations_of_length|]. intros t _. by apply runs_ret.
    + eapply runs_bind; [apply runs_any_skip|]. intros _ _. by apply runs_ret.
  - eapply runs_bind; [apply runs_true|]. intros [] _. eapply runs_bind; [by apply runs_utf8_index|]. intros f _. by apply runs_ret.
  - eapply runs_bind; [by apply runs_inner_classes|]. intros a _. by apply runs_ret.
  - eapply runs_bind; [apply runs_utf8data; apply ux_range; lia|]. intros e _. by apply runs_ret.
  - eapply runs_bind; [apply runs_true|]. intros [] _. eapply runs_bind; [apply runs_u2|]. cbv beta. intros i Hi.
    eapply runs_bind; [apply (runs_valid_cpi _ _ _ (fun _ => True)); [lia|done]|]. intros _ _. eapply runs_bind; [apply runs_u2|]. cbv beta. intros j Hj.
    eapply runs_bind with (P := fun _ => True). { apply runs_if; intros _; [by apply runs_ret|apply runs_valid_cpi; [lia|done]]. }
    intros _ _. by apply runs_ret.
  - by apply runs_ret.
Qed.
Lemma runs_class_attributes : has_dollar (m_name clss) = false -> runs (parse_class_attributes env clss) (fun _ => True).
Proof.
  intros Hd. unfold parse_class_attributes. eapply runs_bind; [apply runs_u2|]. cbv beta. intros n _.
  eapply runs_bind; [apply (runs_iterate _ _ (fun _ => True)); [|done]|].
  { intros s _. by apply runs_class_attribute. }
  intros s _. eapply runs_bind; [by apply (runs_look _ (fun _ => True))|]. intros more _. eapply runs_bind; [apply runs_true|]. intros [] _. by apply runs_ret.
Qed.
End class_members.

(** A class file that parses: the part before the fields, the fields and the methods. *)
Record class_ok (c : Class) : Prop := {
  co_head : good_head (head c);
  co_fields : fields_ok (m_fields c) (m_num_static_fields c);
  co_methods : methods_ok (head_class (head c)) (m_methods c);
}.
(** The classes in which the loader adds fields and the inner classes are left out. *)
Definition ordinary (nm : string) : bool := bool_decide (extra_fields nm = []) && negb (has_dollar nm).

Lemma class_parse_runs env loader_name given_name r : reader_ok r -> end_ r - start r < SMALL -> has_entries r ->
  (forall h r', parse_head env loader_name given_name r = Done h r' -> ordinary (m_name (head_class h)) = true) ->
  runs_from r (Class_parse env loader_name given_name) class_ok.
Proof.
  intros Hr Hs He Ho. pose proof (runs_head env loader_name given_name r Hr Hs He) as Hh. unfold runs_from, Class_parse, parse_members, mbind, R_bind in *.
  destruct (parse_head env loader_name given_name r) as [h r1| |] eqn:Eh; [|done..]. destruct Hh as (Hr1 & Hsame & Hgood).
  specialize (Ho h r1 eq_refl). apply andb_prop in Ho as [Hx%bool_decide_eq_true Hd%negb_true_iff].
  assert (Hs1 : end_ r1 - start r1 < SMALL) by (destruct Hsame as (_ & -> & ->); done). pose proof (proj1 (proj2 Hgood)) as Hp.
  assert (Hrest : runs (f ← parse_fields env (head_class h); m ← parse_methods env (head_class h); a ← parse_class_attributes env (head_class h);
    mret (MkClass h f.1 f.2 m.1.1 m.1.2 m.2 a)) class_ok).
  { eapply runs_bind; [by apply runs_parse_fields|]. intros f Hf. eapply runs_bind; [by apply runs_parse_methods|]. intros m Hm.
    eapply runs_bind; [by apply runs_class_attributes|]. intros a _. apply runs_ret. by split. }
  specialize (Hrest r1 Hr1 Hs1). unfold mbind, R_bind, mret, R_ret in Hrest |- *.
  destruct (parse_fields env (head_class h) r1) as [[f1 f2] r2| |]; [|done..].
  destruct (parse_methods env (head_class h) r2) as [[[m1 m2] m3] r3| |]; [|done..].
  destruct (parse_class_attributes env (head_class h) r3) as [a r4| |]; [|done..]. destruct Hrest as (? & ? & ?).
  split; [done|]. split; [by eapply same_file_trans|done].
Qed.
