(* ===== verification/LoaderOk.v ===== *)
(** * Loading a class file: the parser is safe, agrees with the functions that read parts
    of a class file, reads what is printed, and prepares methods for the verifier. *)
From Stdlib Require Import Ascii.
From stdpp Require Import strings.
From S2P Require Import Prelude ByteReader VerTypes ClassNames ClassNamesOk Descriptors ConstPool Annotations ClassMembers MethodParse ClassParse ClassFileOk.

#[local] Arguments String.append !_ _ / : simpl nomatch.

(** C5: The parser on a class file of fewer than 65534 bytes whose constant pool count is
    not zero, and whose class is not java.lang.Thread, Throwable or Class and has no
    dollar sign in its name (if its head parses): it does not read or write outside the
    file or what was allocated, fails no assertion and does not run out of fuel, and a
    class that comes out is well formed. [LoaderRuns.unchecked_class_files] and
    [LoaderOk.class_parse_wild] show that the code has no test for these bounds. *)
Theorem class_parse_safe env loader_name given_name r : reader_ok r -> end_ r - start r < 65534 -> has_entries r ->
  (forall h r', parse_head env loader_name given_name r = Done h r' -> ordinary (m_name (head_class h)) = true) ->
  match Class_parse env loader_name given_name r with
  | Done c r' => reader_ok r' /\ class_ok c
  | Fails => True
  | Wild => False
  end.
Proof.
  intros Hr Hs He Ho. pose proof (class_parse_runs env loader_name given_name r Hr Hs He Ho) as H. unfold runs_from in H.
  destruct (Class_parse _ _ _ _); [|done..]. destruct H as (? & ? & ?). done.
Qed.


(** ** The name alone *)

(** *** One entry *)

(** [m] takes [n] bytes when it is done. *)
Definition takes {A} (n : Z) (m : R A) : Prop := forall r a r', reader_ok r -> m r = Done a r' -> skip n r = Done tt r'.
Lemma skip_ok r n r' : reader_ok r -> 0 <= n < 2 ^ 31 -> skip n r = Done tt r' -> reader_ok r' /\ r' = move r n /\ (length (rest r') <= length (rest r))%nat.
Proof.
  intros Hr Hn. rewrite skip_rest by done. destruct (Z.leb_spec n (Z.of_nat (length (rest r)))); [|done]. intros [= <-].
  split; [by apply move_ok; [|lia]|]. split; [done|]. rewrite rest_move by (done || lia). rewrite length_drop. lia.
Qed.
Lemma skip_skip r a b r1 r2 : reader_ok r -> 0 <= a -> 0 <= b -> a + b < 2 ^ 31 -> skip a r = Done tt r1 -> skip b r1 = Done tt r2 -> skip (a + b) r = Done tt r2.
Proof.
  intros Hr Ha Hb Hab H1 H2. pose proof (skip_ok r a r1 Hr ltac:(lia) H1) as (Hr1 & -> & Hl). rewrite skip_rest in H1, H2 by (done || lia).
  destruct (Z.leb_spec a (Z.of_nat (length (rest r)))) as [Ha'|]; [|done]. rewrite rest_move, length_drop in H2 by (done || lia).
  destruct (Z.leb_spec b (Z.of_nat (length (rest r) - Z.to_nat a)%nat)); [|done]. injection H2 as <-.
  rewrite skip_rest by (done || lia). rewrite (proj2 (Z.leb_le _ _)) by lia. by rewrite move_move.
Qed.
Lemma takes_u2 : takes 2 parse_u2_be.
Proof.
  intros r v r' Hr H. rewrite parse_u2_rest in H by done. destruct (rest r) as [|c [|d l]] eqn:E; try done. injection H as _ <-.
  rewrite skip_rest by (done || lia). rewrite E. by rewrite (proj2 (Z.leb_le _ _)) by (simpl; lia).
Qed.
Lemma takes_u4 : takes 4 parse_u4_be.
Proof.
  intros r v r' Hr H. rewrite parse_u4_rest in H by done. destruct (rest r) as [|c [|d [|e [|f l]]]] eqn:E; try done. injection H as _ <-.
  rewrite skip_rest by (done || lia). rewrite E. by rewrite (proj2 (Z.leb_le _ _)) by (simpl; lia).
Qed.
Lemma takes_ret {A} (a : A) : takes 0 (mret a).
Proof.
  intros r b r' Hr [= _ <-]. rewrite skip_rest by (done || lia). rewrite (proj2 (Z.leb_le _ _)) by lia.
  unfold move. destruct r. simpl. by rewrite Z.add_0_r.
Qed.
Lemma takes_bind {A B} a b n (m : R A) (k : A -> R B) : 0 <= a -> 0 <= b -> n = a + b -> n < 2 ^ 31 -> takes a m -> (forall x, takes b (k x)) -> takes n (m ≫= k).
Proof.
  intros Ha Hb -> Hab Hm Hk r x r' Hr H. apply bind_done in H as (y & r1 & H1 & H2). apply Hm in H1; [|done].
  destruct (skip_ok r a r1 Hr ltac:(lia) H1) as (Hr1 & _ & _). apply Hk in H2; [|done]. by eapply skip_skip.
Qed.
Lemma u1_done r v r' : reader_ok r -> parse_u1 r = Done v r' -> reader_ok r' /\ (S (length (rest r')) = length (rest r))%nat.
Proof.
  intros Hr. rewrite parse_u1_rest by done. destruct (rest r) as [|c l] eqn:E; [done|]. intros [= _ <-].
  split; [apply move_ok; [done|rewrite E; simpl; lia]|]. rewrite rest_move by (done || rewrite E; simpl; lia). by rewrite E.
Qed.
Lemma utf8data_skip r len s r' : class_file_parse_utf8data len r = Done s r' -> skip len r = Done tt r'.
Proof.
  unfold class_file_parse_utf8data, get_and_skip, skip. destruct (have len r); [|done]. cbn [negb]. cbv iota.
  destruct (utf8_loop _ _ _ _ _) as [[|]|]; [|done..]. by intros [= _ <-].
Qed.

(** An entry after its tag. *)
Lemma takes_1 {A} (f : Z -> A) : takes 2 (n ← parse_u2_be; mret (f n)).
Proof. eapply (takes_bind 2 0); [lia..|apply takes_u2|]. intros n. apply takes_ret. Qed.
Lemma takes_2 {A} (f : Z -> Z -> A) : takes 4 (c ← parse_u2_be; n ← parse_u2_be; mret (f c n)).
Proof. eapply (takes_bind 2 2); [lia..|apply takes_u2|]. intros c. apply takes_1. Qed.
Lemma takes_4 {A} (f : Z -> A) : takes 4 (n ← parse_u4_be; mret (f n)).
Proof. eapply (takes_bind 4 0); [lia..|apply takes_u4|]. intros n. apply takes_ret. Qed.
Lemma takes_8 {A} (f : Z -> Z -> A) : takes 8 (c ← parse_u4_be; n ← parse_u4_be; mret (f c n)).
Proof. eapply (takes_bind 4 4); [lia..|apply takes_u4|]. intros c. apply takes_4. Qed.

(** The value of an entry, after its tag. *)
Definition entry_body (tag : Z) : R ConstPoolEntry :=
  if tag =? CONSTANT_Class then n ← parse_u2_be; mret (ClassRef n false)
  else if tag =? CONSTANT_Methodref then c ← parse_u2_be; n ← parse_u2_be; mret (Ref Methodref c n)
  else if tag =? CONSTANT_Fieldref then c ← parse_u2_be; n ← parse_u2_be; mret (Ref Fieldref c n)
  else if tag =? CONSTANT_InterfaceMethodref then c ← parse_u2_be; n ← parse_u2_be; mret (Ref InterfaceMethodref c n)
  else if tag =? CONSTANT_String then n ← parse_u2_be; mret (StringRef n None)
  else if tag =? CONSTANT_Float then v ← parse_u4_be; mret (Float v)
  else if tag =? CONSTANT_Integer then v ← parse_u4_be; mret (Integer v)
  else if tag =? CONSTANT_Double then h ← parse_u4_be; l ← parse_u4_be; mret (Double h l)
  else if tag =? CONSTANT_Long then h ← parse_u4_be; l ← parse_u4_be; mret (Long h l)
  else if tag =? CONSTANT_NameAndType then n ← parse_u2_be; d ← parse_u2_be; mret (NameAndType n d None)
  else if tag =? CONSTANT_Utf8 then s ← class_file_parse_utf8; mret (Utf8 s)
  else fail.
(** The number of bytes of an entry that is not a string. *)
Definition body_size (tag : Z) : option Z :=
  if tag =? CONSTANT_Class then Some 2 else if tag =? CONSTANT_Methodref then Some 4 else if tag =? CONSTANT_Fieldref then Some 4
  else if tag =? CONSTANT_InterfaceMethodref then Some 4 else if tag =? CONSTANT_String then Some 2
  else if tag =? CONSTANT_Float then Some 4 else if tag =? CONSTANT_Integer then Some 4
  else if tag =? CONSTANT_Double then Some 8 else if tag =? CONSTANT_Long then Some 8 else if tag =? CONSTANT_NameAndType then Some 4 else None.

Lemma entry_body_takes tag n : body_size tag = Some n -> 0 <= n < 2 ^ 31 /\ takes n (entry_body tag).
Proof.
  unfold body_size, entry_body. intros H. repeat (destruct (_ =? _); [injection H as <-; split; [lia|first [apply takes_1|apply takes_2|apply takes_4|apply takes_8]]|]). done.
Qed.
Lemma entry_body_tag tag r e r' : entry_body tag r = Done e r' -> tag_of e = tag.
Proof.
  unfold entry_body. intros H.
  repeat match type of H with (if ?a =? ?b then _ else _) _ = _ =>
    destruct (Z.eqb_spec a b) as [->|_]; [repeat (apply bind_done in H as (? & ? & _ & H)); by injection H as <- _|] end.
  done.
Qed.

(** What is parsed of an entry is what is skipped. *)
Lemma parse_entry_skip r e r' : reader_ok r -> parse_entry r = Done e r' ->
  skip_entry r = Done (tag_of e) r' /\ reader_ok r' /\ (length (rest r') < length (rest r))%nat.
Proof.
  intros Hr H. change parse_entry with (tag ← parse_u1; entry_body tag) in H. apply bind_done in H as (tag & r1 & H1 & H).
  pose proof (u1_done r tag r1 Hr H1) as [Hr1 Hl1]. pose proof (entry_body_tag _ _ _ _ H) as <-.
  unfold skip_entry, mbind, R_bind. rewrite H1. destruct (body_size (tag_of e)) as [n|] eqn:Eb.
  - destruct (entry_body_takes _ _ Eb) as [Hn Ht]. apply Ht in H; [|done]. destruct (skip_ok r1 n r' Hr1 Hn H) as (Hr' & _ & Hl).
    split; [|split; [done|lia]]. destruct e as [| | | | | | | | |[]|]; try done; injection Eb as <-; simpl; by rewrite H.
  - destruct e as [| | | | | | | | |[]|]; try done. unfold entry_body in H. simpl in H. apply bind_done in H as (s2 & r3 & H & [= <- <-]).
    apply bind_done in H as (len & r2 & H2 & H). apply utf8data_skip in H.
    assert (Hlen : 0 <= len < 2 ^ 16).
    { rewrite parse_u2_rest in H2 by done. destruct (rest r1) as [|c [|d l]]; try done. injection H2 as <- _. apply be2_range. }
    pose proof (takes_u2 r1 len r2 Hr1 H2) as Hs. destruct (skip_ok r1 2 r2 Hr1 ltac:(lia) Hs) as (Hr2 & _ & Hl2).
    destruct (skip_ok r2 len r3 Hr2 ltac:(lia) H) as (Hr' & _ & Hl). simpl. rewrite H2, H. split; [done|]. split; [done|lia].
Qed.

(** [m] stays in the file. *)
Definition remains {A} (m : R A) : Prop := forall r a r', m r = Done a r' -> same_file r r'.
Lemma remains_bind {A B} (m : R A) (k : A -> R B) : remains m -> (forall a, remains (k a)) -> remains (m ≫= k).
Proof. intros Hm Hk r b r' (a & r1 & H1 & H2)%bind_done. eapply same_file_trans; [by eapply Hm|by eapply Hk]. Qed.
Lemma remains_ret {A} (a : A) : remains (mret a).
Proof. by intros r b r' [= _ <-]. Qed.
Lemma remains_fail {A} : remains (@fail A).
Proof. done. Qed.
Lemma remains_skip n : remains (skip n).
Proof. intros r a r' H. unfold skip in H. destruct (have n r); [|done]. by injection H as _ <-. Qed.
Lemma remains_next : remains next_byte.
Proof. intros r a r' H. unfold next_byte in H. destruct (_ !! _); [|done]. destruct (0 <=? _); [|done]. by injection H as _ <-. Qed.
Lemma remains_be w n z : remains (read_be w n z).
Proof. revert z. induction n as [|n IH]; intros z; [apply remains_ret|]. apply remains_bind; [apply remains_next|]. intros x. apply IH. Qed.
Lemma remains_u1 : remains parse_u1.
Proof. intros r a r' H. unfold parse_u1 in H. destruct (have 1 r); [by eapply remains_next|done]. Qed.
Lemma remains_u2 : remains parse_u2_be.
Proof. intros r a r' H. unfold parse_u2_be in H. destruct (have 2 r); [by eapply remains_be|done]. Qed.
Lemma remains_u4 : remains parse_u4_be.
Proof. intros r a r' H. unfold parse_u4_be in H. destruct (have 4 r); [by eapply remains_be|done]. Qed.
Lemma remains_utf8 : remains class_file_parse_utf8.
Proof. apply remains_bind; [apply remains_u2|]. intros len r s r' H%utf8data_skip. by apply remains_skip in H. Qed.
#[local] Ltac keep := repeat (apply remains_bind; [first [apply remains_u2|apply remains_u4|apply remains_u1|apply remains_utf8]|intros ?]); apply remains_ret.
Lemma remains_entry : remains parse_entry.
Proof.
  unfold parse_entry. apply remains_bind; [apply remains_u1|]. intros tag. repeat (destruct (_ =? _); [keep|]). apply remains_fail.
Qed.
Lemma remains_loop fuel i size : remains (parse_loop fuel i size).
Proof.
  revert i. induction fuel as [|fuel IH]; intros i; [done|]. cbn [parse_loop]. destruct (size <=? i); [apply remains_ret|].
  apply remains_bind; [apply remains_entry|]. intros e. destruct e; (apply remains_bind; [apply IH|intros es; apply remains_ret]).
Qed.

(** *** The pool *)

Definition is_wide (e : ConstPoolEntry) : bool := match e with Long _ _ | Double _ _ => true | _ => false end.
Definition is_unused (e : ConstPoolEntry) : bool := match e with Unused _ _ => true | _ => false end.
(** After a long or a double the second half, which may be missing at the end if [last]. *)
Fixpoint laid_with (last : bool) (es : list ConstPoolEntry) : bool :=
  match es with
  | [] => true
  | e :: es1 =>
      if is_wide e then match es1 with [] => last | Unused _ _ :: es2 => laid_with last es2 | _ => false end
      else match e with Tags | Unused _ _ => false | _ => laid_with last es1 end
  end.
Definition laid : list ConstPoolEntry -> bool := laid_with false.

Lemma parse_loop_step fuel i size r es r' : parse_loop (S fuel) i size r = Done es r' -> i < size ->
  exists e r1 es1, parse_entry r = Done e r1 /\
    if is_wide e then parse_loop fuel (i + 2) size r1 = Done es1 r' /\ exists h l, es = e :: (if i + 1 <? size then [Unused h l] else []) ++ es1
    else parse_loop fuel (i + 1) size r1 = Done es1 r' /\ es = e :: es1.
Proof.
  intros H Hi. cbn [parse_loop] in H. rewrite (proj2 (Z.leb_gt _ _)) in H by done. apply bind_done in H as (e & r1 & He & H). exists e, r1.
  destruct e; apply bind_done in H as (es1 & r2 & H & [= <- <-]); exists es1; simpl; eauto 10.
Qed.
Lemma parse_loop_end fuel i size r es r' : parse_loop fuel i size r = Done es r' -> size <= i -> es = [] /\ r' = r.
Proof. destruct fuel; [done|]. simpl. intros H Hi. rewrite (proj2 (Z.leb_le _ _)) in H by done. by injection H as <- <-. Qed.
Lemma entry_kind r e r' : parse_entry r = Done e r' -> is_unused e = false /\ e <> Tags.
Proof.
  intros H. change parse_entry with (tag ← parse_u1; entry_body tag) in H. apply bind_done in H as (tag & r1 & _ & H).
  unfold entry_body in H. repeat match type of H with (if ?a =? ?b then _ else _) _ = _ =>
    destruct (Z.eqb_spec a b) as [->|_]; [repeat (apply bind_done in H as (? & ? & _ & H)); by injection H as <- _|] end.
  done.
Qed.

(** [next_index] counts the entries. *)
Lemma next_index_wide e i : 1 <= i -> i + 2 < 2 ^ 16 -> is_wide e = true -> next_index (tag_of e) i = i + 2.
Proof.
  intros Hi Hb He. unfold next_index. replace (_ || _) with true by (by destruct e). rewrite !ux_id; unfold is_u; try lia. rewrite ux_id; unfold is_u; lia.
Qed.
Lemma next_index_one e i : 1 <= i -> i + 1 < 2 ^ 16 -> is_wide e = false -> next_index (tag_of e) i = i + 1.
Proof.
  intros Hi Hb He. unfold next_index. replace (_ || _) with false by (by destruct e as [| | | | | | | | |[]|]). rewrite ux_id; unfold is_u; lia.
Qed.

Lemma skip_pool_spec fuel i size r es r' fuel' : reader_ok r -> parse_loop fuel i size r = Done es r' -> laid es = true -> 1 <= i -> size < 2 ^ 16 ->
  (length (rest r) < fuel')%nat -> skip_pool fuel' i size r = Done tt r' /\ reader_ok r'.
Proof.
  revert i r es fuel'. induction fuel as [|fuel IH]; intros i r es fuel' Hr H Hlaid Hi Hsz Hf; [done|].
  destruct fuel' as [|fuel']; [lia|]. cbn [skip_pool]. destruct (Z.leb_spec size i) as [Hle|Hlt].
  { apply parse_loop_end in H as [-> ->]; [|done]. done. }
  apply parse_loop_step in H as (e & r1 & es1 & He & H); [|done]. destruct (parse_entry_skip r e r1 Hr He) as (Hsk & Hr1 & Hl).
  unfold mbind, R_bind. rewrite Hsk. unfold laid in *. destruct (is_wide e) eqn:Ew.
  - destruct H as (H & h & l & ->). cbn [laid_with] in Hlaid. rewrite Ew in Hlaid. destruct (Z.ltb_spec (i + 1) size) as [Hn|Hn]; simpl in Hlaid.
    + rewrite next_index_wide by (done || lia). apply (IH (i + 2) r1 es1); done || lia.
    + apply parse_loop_end in H as [-> ->]; [done|lia].
  - destruct H as [H ->]. rewrite next_index_one by (done || lia). apply (IH (i + 1) r1 es1); try done; try lia.
    destruct (entry_kind _ _ _ He) as [Hu Ht]. cbn [laid_with] in Hlaid. rewrite Ew in Hlaid. by destruct e.
Qed.

Lemma find_entry_spec fuel i size r es r' fuel' j e : reader_ok r -> parse_loop fuel i size r = Done es r' -> laid es = true -> 1 <= i -> size < 2 ^ 16 ->
  (length (rest r) < fuel')%nat -> i <= j -> es !! Z.to_nat (j - i) = Some e -> is_unused e = false ->
  exists rj rj', const_pool_find_entry fuel' i size j r = Done tt rj /\ reader_ok rj /\ same_file r rj /\ parse_entry rj = Done e rj'.
Proof.
  revert i r es fuel'. induction fuel as [|fuel IH]; intros i r es fuel' Hr H Hlaid Hi Hsz Hf Hj He Hu; [done|].
  destruct fuel' as [|fuel']; [lia|]. cbn [const_pool_find_entry]. destruct (Z.leb_spec size i) as [Hle|Hlt].
  { apply parse_loop_end in H as [-> ->]; [|done]. done. }
  apply parse_loop_step in H as (e0 & r1 & es1 & He0 & H); [|done]. destruct (parse_entry_skip r e0 r1 Hr He0) as (Hsk & Hr1 & Hl).
  pose proof (remains_entry r e0 r1 He0) as Hsame.
  destruct (Z.eqb_spec i j) as [->|Hne].
  { rewrite Z.sub_diag in He. exists r, r1. split; [done|]. split; [done|]. split; [apply same_file_refl|].
    destruct (is_wide e0); [destruct H as (_ & h & l & ->)|destruct H as [_ ->]]; by injection He as <-. }
  unfold mbind, R_bind. rewrite Hsk. unfold laid in *. destruct (is_wide e0) eqn:Ew.
  - destruct H as (H & h & l & ->). cbn [laid_with] in Hlaid. rewrite Ew in Hlaid. destruct (Z.ltb_spec (i + 1) size) as [Hn|Hn]; simpl in Hlaid.
    + rewrite next_index_wide by (done || lia). assert (Hne1 : j <> i + 1).
      { intros ->. replace (Z.to_nat (i + 1 - i)) with 1%nat in He by lia. by injection He as <-. }
      replace (Z.to_nat (j - i)) with (S (S (Z.to_nat (j - (i + 2))))) in He by lia.
      destruct (IH (i + 2) r1 es1 fuel') as (rj & rj' & H1 & H2 & H3 & H4); try done; try lia.
      exists rj, rj'. split_and!; try done; by eapply same_file_trans.
    + apply parse_loop_end in H as [-> ->]; [done|lia].
  - destruct H as [H ->]. rewrite next_index_one by (done || lia).
    replace (Z.to_nat (j - i)) with (S (Z.to_nat (j - (i + 1)))) in He by lia.
    destruct (entry_kind _ _ _ He0) as [Hu0 Ht0]. cbn [laid_with] in Hlaid. rewrite Ew in Hlaid.
    destruct (IH (i + 1) r1 es1 fuel') as (rj & rj' & H1 & H2 & H3 & H4); try done; try lia; [by destruct e0|].
    exists rj, rj'. split; [done|]. split; [done|]. split; [by eapply same_file_trans|done].
Qed.

(** *** What the checks leave *)

Lemma parse_loop_laid fuel i size r es r' : 1 <= i -> parse_loop fuel i size r = Done es r' ->
  laid_with true es = true /\ Z.of_nat (length es) = Z.max 0 (size - i).
Proof.
  revert i r es. induction fuel as [|fuel IH]; intros i r es Hi H; [done|]. destruct (Z.leb_spec size i) as [Hle|Hlt].
  { apply parse_loop_end in H as [-> _]; [|done]. simpl. split; [done|lia]. }
  apply parse_loop_step in H as (e & r1 & es1 & He & H); [|done]. destruct (entry_kind _ _ _ He) as [Hu Ht]. destruct (is_wide e) eqn:Ew.
  - destruct H as (H & h & l & ->). destruct (IH (i + 2) r1 es1 ltac:(lia) H) as [H1 H2]. cbn [laid_with]. rewrite Ew.
    destruct (Z.ltb_spec (i + 1) size); simpl; [split; [done|lia]|]. destruct es1; simpl in H2 |- *; [split; [done|lia]|lia].
  - destruct H as [H ->]. destruct (IH (i + 1) r1 es1 ltac:(lia) H) as [H1 H2]. cbn [laid_with length]. rewrite Ew. split; [by destruct e|lia].
Qed.

(** The entries the checks resolve. *)
Definition resolvable (e : ConstPoolEntry) : bool := match e with StringRef _ _ | NameAndType _ _ _ => true | _ => false end.
Definition same_entries (cp cp' : ConstantPool) : Prop := forall j e, cp' !! j = Some e -> resolvable e = false -> cp !! j = Some e.

Section check.
Context (u_isalpha u_isalnum : Z -> bool) (verify_all is_trusted_cl : bool) (version : Z).

#[local] Ltac stay := repeat (apply stays_bind; [|intros ?]); auto using stays_require, stays_value, stays_valid_cpi, stays_ret.
Lemma stays_if {A} (b : bool) (m n : R A) : stays m -> stays n -> stays (if b then m else n).
Proof. by destruct b. Qed.
Lemma stays_require_name b nm m : stays (require_name u_isalpha u_isalnum version b nm m).
Proof. unfold require_name, member_name_ok. apply stays_if; stay. Qed.
Lemma stays_check_kind kind nm d : stays (match kind with
    | Methodref => check_methodref u_isalpha u_isalnum verify_all is_trusted_cl version nm d
    | Fieldref => check_fieldref u_isalpha u_isalnum verify_all is_trusted_cl version nm d
    | InterfaceMethodref => check_interface_methodref u_isalpha u_isalnum verify_all is_trusted_cl version nm d
    end).
Proof.
  destruct kind; unfold check_fieldref, check_methodref, check_interface_methodref, require_field_descriptor, require_method_descriptor.
  - stay. apply stays_require_name.
  - apply stays_bind; [apply stays_if; stay; apply stays_require_name|]. intros _. apply stays_bind; [stay|]. intros _. apply stays_if; stay.
  - stay. apply stays_require_name.
Qed.
Lemma stays_check_entry cp i e : stays (check_entry u_isalpha u_isalnum verify_all is_trusted_cl version cp i e).
Proof.
  destruct e; unfold check_entry; try apply stays_ret; try (by intros r); unfold require_class_name, check_ref; stay. apply stays_check_kind.
Qed.

Lemma check_entry_done cp i e cp' r r' : check_entry u_isalpha u_isalnum verify_all is_trusted_cl version cp i e r = Done cp' r' ->
  r' = r /\ (is_wide e = true -> i + 1 <> m_size cp) /\
  (cp' = cp \/ exists e', resolvable e = true /\ resolvable e' = true /\ cp' = resolve_entry cp i e').
Proof.
  intros H. pose proof (stays_check_entry cp i e r) as Hst. rewrite H in Hst. subst r'. split; [done|].
  destruct e as [|h l|s|v|v|h l|h l|n o|n o|kind c n|n d o]; cbn [check_entry] in H; try done.
  1-3: injection H as <-; split; [done|by left].
  1-2: apply bind_done in H as ([] & r1 & [Hq%negb_true_iff%Z.eqb_neq _]%require_done & [= <- _]); split; [done|by left].
  - apply bind_done in H as (? & ? & _ & H). apply bind_done in H as (? & ? & _ & H). apply bind_done in H as (? & ? & _ & [= <- _]). split; [done|by left].
  - apply bind_done in H as (? & ? & _ & H). apply bind_done in H as (s & ? & _ & [= <- _]). split; [done|right].
    by exists (StringRef n (Some s)).
  - apply bind_done in H as (? & ? & _ & [= <- _]). split; [done|by left].
  - apply bind_done in H as (? & ? & _ & H). apply bind_done in H as (? & ? & _ & H). apply bind_done in H as (s & ? & _ & H).
    apply bind_done in H as (t & ? & _ & [= <- _]). split; [done|right]. by exists (NameAndType n d (Some (s, t))).
Qed.

Lemma laid_resolve b l i e e' : resolvable e = true -> resolvable e' = true -> l !! i = Some e -> laid_with b (<[i := e']> l) = laid_with b l.
Proof.
  intros He He'. revert i. induction l as [l IH] using (induction_ltof1 _ (@length ConstPoolEntry)). unfold ltof in IH. intros i Hl.
  destruct l as [|x l]; [done|]. destruct i as [|i]; simpl in Hl.
  - injection Hl as ->. cbn. by destruct e, e'.
  - change (<[S i := e']> (x :: l)) with (x :: <[i := e']> l). cbn [laid_with]. destruct (is_wide x) eqn:Ew.
    + destruct l as [|y l]; [done|]. destruct i as [|i]; simpl in Hl; [injection Hl as ->; by destruct e, e'|].
      change (<[S i := e']> (y :: l)) with (y :: <[i := e']> l). destruct y; try done. apply IH; [simpl; lia|done].
    + destruct x; try done; (apply IH; [simpl; lia|done]).
Qed.

Lemma drop_step (cp : ConstantPool) i e : at_ cp i = Some e -> 1 <= i -> drop (Z.to_nat i) cp = e :: drop (Z.to_nat (i + 1)) cp.
Proof.
  unfold at_. destruct (is_valid_index cp i); [|done]. intros H Hi. rewrite (drop_S _ _ _ H). f_equal. f_equal. lia.
Qed.

Lemma check_loop_spec fuel i cp r cp' r' : check_loop u_isalpha u_isalnum verify_all is_trusted_cl version fuel i cp r = Done cp' r' -> 1 <= i ->
  laid_with true (drop (Z.to_nat i) cp) = true ->
  r' = r /\ same_entries cp cp' /\ length cp' = length cp /\ laid (drop (Z.to_nat i) cp) = true.
Proof.
  revert i cp r. induction fuel as [|fuel IH]; intros i cp r H Hi Hlaid; [done|]. cbn [check_loop] in H.
  destruct (Z.leb_spec (m_size cp) i) as [Hle|Hlt].
  { injection H as <- <-. split; [done|]. split; [by intros j e|]. split; [done|]. rewrite drop_ge; [done|]. unfold m_size in Hle. lia. }
  apply bind_done in H as (e & r0 & He & H). assert (Hat : at_ cp i = Some e /\ r0 = r) by (unfold value in He; destruct (at_ cp i); [by injection He as <- <-|done]).
  destruct Hat as [Hat ->]. apply bind_done in H as (cp1 & r1 & Hc & H). apply check_entry_done in Hc as (-> & Hw & Hcp1).
  rewrite (drop_step _ _ _ Hat Hi) in Hlaid |- *. assert (Hlook : cp !! Z.to_nat i = Some e) by (unfold at_ in Hat; by destruct (is_valid_index cp i)).
  assert (Hlen1 : length cp1 = length cp) by (destruct Hcp1 as [->|(e' & _ & _ & ->)]; [done|apply (length_insert (cp : list ConstPoolEntry))]).
  assert (Hdrop : forall k, i < k -> drop (Z.to_nat k) cp1 = drop (Z.to_nat k) cp).
  { intros k Hk. destruct Hcp1 as [->|(e' & _ & _ & ->)]; [done|]. unfold resolve_entry. apply (drop_insert_lt (cp : list ConstPoolEntry)). lia. }
  assert (Hsame1 : same_entries cp cp1).
  { destruct Hcp1 as [->|(e' & _ & He' & ->)]; [by intros j x|]. intros j x Hj Hx. unfold resolve_entry in Hj.
    destruct (Nat.eq_dec j (Z.to_nat i)) as [->|Hne].
    - rewrite (list_lookup_insert_eq (cp : list ConstPoolEntry)) in Hj by (by eapply lookup_lt_Some). injection Hj as ->. congruence.
    - by rewrite (list_lookup_insert_ne (cp : list ConstPoolEntry)) in Hj by done. }
  assert (Hnext : forall k, i < k -> laid_with true (drop (Z.to_nat k) cp) = true -> check_loop u_isalpha u_isalnum verify_all is_trusted_cl version fuel k cp1 r = Done cp' r' ->
    r' = r /\ same_entries cp cp' /\ length cp' = length cp /\ laid (drop (Z.to_nat k) cp) = true).
  { intros k Hk Hlk Hrun. destruct (IH k cp1 r Hrun ltac:(lia)) as (-> & Hs & Hl & Hd); [by rewrite Hdrop|].
    rewrite Hdrop in Hd by done. split; [done|]. split; [intros j x Hj Hx; apply Hsame1; [by apply Hs|done]|]. split; [congruence|done]. }
  unfold laid in *. cbn [laid_with] in Hlaid |- *. destruct (is_wide e) eqn:Ew.
  - specialize (Hw eq_refl). assert (Hi1 : (Z.to_nat (i + 1) < length cp)%nat) by (unfold m_size in *; lia).
    destruct (lookup_lt_is_Some_2 cp _ Hi1) as [e1 He1]. rewrite (drop_S _ _ _ He1) in Hlaid |- *. destruct e1; try done.
    replace (S (Z.to_nat (i + 1))) with (Z.to_nat (i + 2)) in * by lia. apply Hnext; [lia|done|]. by destruct e.
  - assert (Hl1 : laid_with true (drop (Z.to_nat (i + 1)) cp) = true) by (by destruct e).
    destruct (Hnext (i + 1) ltac:(lia) Hl1) as (H1 & H2 & H3 & H4); [by destruct e|]. split; [done|]. split; [done|]. split; [done|]. by destruct e.
Qed.
End check.

(** *** Agreement *)

Lemma go_back r0 r : reader_ok r0 -> reader_ok r -> same_file r0 r -> end_ r < 2 ^ 31 -> go_to_offset (get_offset r0) r = Done tt r0.
Proof.
  intros [[H1 H2] H3 H4] [[H5 H6] H7 H8] (E1 & E2 & E3) Hb. unfold go_to_offset, get_offset, skip, have. rewrite sx_id by (unfold is_s; simpl; lia).
  rewrite (proj2 (Z.ltb_ge _ _)), (proj2 (Z.ltb_ge _ _)) by lia. cbn [negb andb]. unfold move. destruct r0, r. simpl in *. subst. by rewrite Zplus_minus.
Qed.

Lemma class_name_at_done cp i nm r r' : class_name_at cp i r = Done nm r' -> r' = r /\ exists n b, at_ cp i = Some (ClassRef n b) /\ at_ cp n = Some (Utf8 nm).
Proof.
  unfold class_name_at, utf8_at. intros H. apply bind_done in H as ([] & r1 & H1 & H). pose proof (stays_valid_cpi cp i CONSTANT_Class r) as Hs. rewrite H1 in Hs. subst r1.
  apply bind_done in H as (n & r1 & H2 & H). unfold value, get_class_name_index in H2. destruct (at_ cp i) as [[]|] eqn:Ei; try done. injection H2 as -> <-.
  apply bind_done in H as ([] & r1 & H3 & H). pose proof (stays_valid_cpi cp n CONSTANT_Utf8 r) as Hs. rewrite H3 in Hs. subst r1.
  unfold value, get_utf8_string in H. destruct (at_ cp n) as [[]|] eqn:En; try done. injection H as -> <-. split; [done|]. by exists n, resolved.
Qed.

(** An entry in the pool that was checked is where it was read. *)
Lemma at_checked cp' es i e : same_entries (Tags :: es) cp' -> at_ cp' i = Some e -> resolvable e = false -> e <> Tags -> 1 <= i /\ es !! Z.to_nat (i - 1) = Some e.
Proof.
  unfold at_. intros Hs H Hr Ht. destruct (is_valid_index cp' i) eqn:Hv; [|done]. specialize (Hs _ _ H Hr).
  destruct (Z.to_nat i) as [|k] eqn:Ek; simpl in Hs; [by injection Hs as <-|]. split; [lia|]. by replace (Z.to_nat (i - 1)) with k by lia.
Qed.

Lemma entry_of_tag r e r' : parse_entry r = Done e r' -> exists r1, parse_u1 r = Done (tag_of e) r1 /\ entry_body (tag_of e) r1 = Done e r'.
Proof.
  intros H. change parse_entry with (tag ← parse_u1; entry_body tag) in H. apply bind_done in H as (tag & r1 & H1 & H).
  pose proof (entry_body_tag _ _ _ _ H) as <-. by exists r1.
Qed.

Lemma runs_done_u1 r v r' : reader_ok r -> parse_u1 r = Done v r' -> reader_ok r' /\ same_file r r'.
Proof. intros Hr H. split; [exact (proj1 (u1_done r v r' Hr H))|by eapply remains_u1]. Qed.

(** C18: When the head of a class file parses, [class_extract_name], which walks over the
    constant pool on its own and looks at no tag, gives the name the class has. *)
Theorem extract_name_agrees env loader_name given_name buffer offset length h r' :
  0 <= offset -> 0 <= length -> offset + length <= Z.of_nat (List.length buffer) -> offset + length < 2 ^ 31 ->
  parse_head env loader_name given_name (new_reader buffer offset length) = Done h r' ->
  exists r2, class_extract_name buffer offset length = Done (m_name (head_class h)) r2.
Proof.
  intros Ho Hl Hle Hb H. set (r := new_reader buffer offset length) in *. assert (Hr : reader_ok r) by (split; simpl; lia).
  assert (Hend : forall q, same_file r q -> end_ q < 2 ^ 31) by (intros q (_ & _ & ->); done).
  unfold parse_head in H. apply bind_done in H as (v & r8 & Hv & H). unfold parse_version in Hv.
  apply bind_done in Hv as (magic & r4 & H4 & Hv). destruct (u4_done r magic r4 Hr H4) as [Hr4 _].
  apply bind_done in Hv as ([] & rx & [Hmagic ->]%require_done & Hv). apply bind_done in Hv as (minor & r6 & H6 & Hv). destruct (u2_done r4 minor r6 Hr4 H6) as [Hr6 _].
  apply bind_done in Hv as (version & r8' & H8 & Hv). destruct (u2_done r6 version r8' Hr6 H8) as [Hr8 _].
  apply bind_done in Hv as ([] & rx & [_ ->]%require_done & Hv). apply bind_done in Hv as ([] & rx & [_ ->]%require_done & Hv). injection Hv as -> ->.
  pose proof (skip_skip r4 2 2 r6 r8 Hr4 ltac:(lia) ltac:(lia) ltac:(lia) (takes_u2 _ _ _ Hr4 H6) (takes_u2 _ _ _ Hr6 H8) : skip 4 r4 = Done tt r8) as Hskip4.
  assert (S8 : same_file r r8).
  { eapply same_file_trans; [by eapply remains_u4|]. eapply same_file_trans; [by eapply remains_u2|by eapply remains_u2]. }
  apply bind_done in H as (cp & rp & Hp & H). unfold ConstantPool_parse in Hp. apply bind_done in Hp as (size & r10 & H10 & Hp).
  destruct (u2_done r8 size r10 Hr8 H10) as [Hr10 _]. assert (S10 : same_file r r10) by (eapply same_file_trans; [exact S8|by eapply remains_u2]).
  assert (Hsize : 0 <= size < 2 ^ 16).
  { rewrite parse_u2_rest in H10 by done. destruct (rest r8) as [|c [|d l]]; try done. injection H10 as <- _. apply be2_range. }
  destruct (Z.eqb_spec size 0) as [|Hsz]; [done|]. apply bind_done in Hp as (es & rp' & Hes & [= <- ->]).
  destruct (parse_loop_laid _ 1 size r10 es rp ltac:(lia) Hes) as [Hlax _].
  apply bind_done in H as (cp' & rp' & Hc & H). unfold ConstantPool_check in Hc. apply check_loop_spec in Hc as (-> & Hsame & _ & Hlaid); [|lia|done].
  change (drop (Z.to_nat 1) (Tags :: es)) with es in Hlaid.
  destruct (skip_pool_spec _ 1 size r10 es rp (S (List.length (rest r10))) Hr10 Hes Hlaid ltac:(lia) ltac:(lia) ltac:(lia)) as [Hsp Hrp].
  assert (Sp : same_file r rp) by (eapply same_file_trans; [exact S10|by eapply remains_loop]).
  apply bind_done in H as (f & ra & Ha & H). destruct (u2_done rp f ra Hrp Ha) as [Hra _]. pose proof (remains_u2 _ _ _ Ha) as Sa.
  apply bind_done in H as (fl & rx & Hfl & H). assert (rx = ra) as -> by (unfold require_some in Hfl; destruct (class_flags v f); [by injection Hfl|done]).
  apply bind_done in H as (this & rb & Hthis & H). destruct (u2_done ra this rb Hra Hthis) as [Hrb _]. pose proof (remains_u2 _ _ _ Hthis) as Sb.
  apply bind_done in H as (nm & rx & Hnm & H). apply class_name_at_done in Hnm as (-> & n & b & Hcls & Hutf).
  assert (Hname : m_name (head_class h) = nm).
  { do 4 (apply bind_done in H as (? & ? & _ & H)). unfold mret, R_ret in H. by injection H as <-. }
  rewrite Hname. clear H Hname.
  destruct (at_checked cp' es this _ Hsame Hcls eq_refl ltac:(done)) as [Hthis1 Hat1]. destruct (at_checked cp' es n _ Hsame Hutf eq_refl ltac:(done)) as [Hn1 Hat2].
  assert (Hrb10 : same_file r10 rb).
  { eapply same_file_trans; [by eapply remains_loop|]. eapply same_file_trans; [exact Sa|exact Sb]. }
  assert (Hback : forall q, reader_ok q -> same_file r10 q -> go_to_offset (get_offset r10) q = Done tt r10).
  { intros q Hq Sq. apply go_back; [done..|]. apply Hend. eapply same_file_trans; [exact S10|exact Sq]. }
  destruct (find_entry_spec _ 1 size r10 es rp (S (List.length (rest r10))) this _ Hr10 Hes Hlaid ltac:(lia) ltac:(lia) ltac:(lia) Hthis1 Hat1 eq_refl) as (rj & rj' & Hf1 & Hrj & Sj & Hj).
  destruct (find_entry_spec _ 1 size r10 es rp (S (List.length (rest r10))) n _ Hr10 Hes Hlaid ltac:(lia) ltac:(lia) ltac:(lia) Hn1 Hat2 eq_refl) as (rk & rk' & Hf2 & Hrk & Sk & Hk).
  apply entry_of_tag in Hj as (rj1 & Hj1 & Hj). apply entry_of_tag in Hk as (rk1 & Hk1 & Hk). cbn [tag_of] in *.
  destruct (runs_done_u1 rj _ rj1 Hrj Hj1) as [Hrj1 Sj1].
  change (entry_body CONSTANT_Class) with (n ← parse_u2_be; mret (ClassRef n false)) in Hj. apply bind_done in Hj as (n' & rj2 & Hj2 & [= -> _ ->]).
  destruct (u2_done rj1 n rj' Hrj1 Hj2) as [Hrj2 _].
  change (entry_body CONSTANT_Utf8) with (s ← class_file_parse_utf8; mret (Utf8 s)) in Hk. apply bind_done in Hk as (s & rk2 & Hk2 & [= -> ->]).
  exists rk'. unfold class_extract_name, extract_name, mbind, R_bind. fold r. rewrite H4, Hmagic. cbn [require]. unfold mret at 1, R_ret at 1.
  rewrite Hskip4, H10. unfold bytes_left. rewrite Hsp. rewrite (takes_u2 _ _ _ Hrp Ha), Hthis, (Hback rb Hrb Hrb10), Hf1. unfold attempt. rewrite Hj1, Hj2.
  rewrite (Hback rj' Hrj2); [by rewrite Hf2, Hk1|]. eapply same_file_trans; [exact Sj|]. eapply same_file_trans; [exact Sj1|by eapply remains_u2].
Qed.

(** ** Printing a pool and reading it back *)

Definition chr (z : Z) : ascii := ascii_of_N (Z.to_N z).
Definition enc_u2 (z : Z) : list ascii := [chr (z / 256); chr (z mod 256)].
Definition enc_u4 (z : Z) : list ascii := enc_u2 (z / 2 ^ 16) ++ enc_u2 (z mod 2 ^ 16).
Definition print_body (e : ConstPoolEntry) : list ascii :=
  match e with
  | Tags | Unused _ _ => []
  | Utf8 s => enc_u2 (Z.of_nat (String.length s)) ++ la s
  | Integer v | Float v => enc_u4 v
  | Long h l | Double h l => enc_u4 h ++ enc_u4 l
  | ClassRef n _ | StringRef n _ => enc_u2 n
  | Ref _ c n => enc_u2 c ++ enc_u2 n
  | NameAndType n d _ => enc_u2 n ++ enc_u2 d
  end.
Definition print_entry (e : ConstPoolEntry) : list ascii := match e with Tags | Unused _ _ => [] | _ => chr (tag_of e) :: print_body e end.
Fixpoint print_entries (es : list ConstPoolEntry) : list ascii := match es with [] => [] | e :: es => print_entry e ++ print_entries es end.
Definition print_pool (es : list ConstPoolEntry) : list ascii := enc_u2 (1 + Z.of_nat (length es)) ++ print_entries es.

(** Entries as they are before the checks, with values of their widths. *)
Definition printable (e : ConstPoolEntry) : Prop :=
  match e with
  | Tags | Unused _ _ => True
  | Utf8 s => str_ok s /\ Z.of_nat (String.length s) < 65534
  | Integer v | Float v => is_u 32 v
  | Long h l | Double h l => is_u 32 h /\ is_u 32 l
  | ClassRef n b => is_u 16 n /\ b = false
  | StringRef n o => is_u 16 n /\ o = None
  | Ref _ c n => is_u 16 c /\ is_u 16 n
  | NameAndType n d o => is_u 16 n /\ is_u 16 d /\ o = None
  end.
(** The second half of a long has the value of the first. *)
Fixpoint halves (es : list ConstPoolEntry) : Prop :=
  match es with
  | Long h l :: ((Unused h' l' :: _) as es) | Double h l :: ((Unused h' l' :: _) as es) => h' = h /\ l' = l /\ halves es
  | _ :: es => halves es
  | [] => True
  end.

Lemma byte_of_chr z : 0 <= z < 256 -> byte_of (chr z) = z.
Proof. intros Hz. unfold byte_of, chr. rewrite N_ascii_embedding by lia. lia. Qed.

Lemma byte_pair z : 0 <= z < 65536 -> 0 <= z / 256 < 256 /\ 0 <= z mod 256 < 256 /\ z / 256 * 256 + z mod 256 = z.
Proof.
  intros Hz. split; [split; [apply Z.div_pos; lia|apply Z.div_lt_upper_bound; lia]|]. split; [apply Z.mod_pos_bound; lia|].
  pose proof (Z.div_mod z 256 ltac:(lia)). lia.
Qed.
Lemma be_enc_u2 z : 0 <= z < 65536 -> byte_of (chr (z / 256)) * 256 + byte_of (chr (z mod 256)) = z.
Proof. intros Hz. destruct (byte_pair z Hz) as (H1 & H2 & H3). by rewrite !byte_of_chr. Qed.

(** [m] reads [l] as [a], whatever follows. *)
Definition reads {A} (m : R A) (l : list ascii) (a : A) : Prop := forall r k, reader_ok r -> rest r = l ++ k ->
  exists r', m r = Done a r' /\ reader_ok r' /\ rest r' = k.
Lemma reads_ret {A} (a : A) : reads (mret a) [] a.
Proof. intros r k Hr Hk. by exists r. Qed.
Lemma reads_bind {A B} (m : R A) (k : A -> R B) l1 l2 a b : reads m l1 a -> reads (k a) l2 b -> reads (m ≫= k) (l1 ++ l2) b.
Proof.
  intros Hm Hk r rest2 Hr Hl. rewrite <- app_assoc in Hl. destruct (Hm r _ Hr Hl) as (r1 & H1 & Hr1 & E1).
  destruct (Hk r1 _ Hr1 E1) as (r2 & H2 & Hr2 & E2). exists r2. unfold mbind, R_bind. by rewrite H1.
Qed.
Lemma reads_bind_ret {A B} (m : R A) (f : A -> B) l a : reads m l a -> reads (x ← m; mret (f x)) l (f a).
Proof. intros Hm. rewrite <- (app_nil_r l). by apply (reads_bind m _ l [] a); [|apply reads_ret]. Qed.
Lemma reads_u1 z : 0 <= z < 256 -> reads parse_u1 [chr z] z.
Proof.
  intros Hz r k Hr Hl. exists (move r 1). rewrite parse_u1_rest, Hl by done. simpl. rewrite byte_of_chr by done.
  split; [done|]. split; [apply move_ok; [done|rewrite Hl; simpl; lia]|]. rewrite rest_move by (done || rewrite Hl; simpl; lia). by rewrite Hl.
Qed.
Lemma reads_u2 z : is_u 16 z -> reads parse_u2_be (enc_u2 z) z.
Proof.
  unfold is_u. change (2 ^ 16) with 65536. intros Hz r k Hr Hl. exists (move r 2). rewrite parse_u2_rest, Hl by done. simpl. unfold be. simpl.
  split; [f_equal; by apply be_enc_u2|]. split; [apply move_ok; [done|rewrite Hl; simpl; lia]|].
  rewrite rest_move by (done || rewrite Hl; simpl; lia). by rewrite Hl.
Qed.
Lemma reads_u4 z : is_u 32 z -> reads parse_u4_be (enc_u4 z) z.
Proof.
  unfold is_u. change (2 ^ 32) with 4294967296. intros Hz r k Hr Hl. exists (move r 4). unfold enc_u4 in *. change (2 ^ 16) with 65536 in *.
  pose proof (Z.mod_pos_bound z 65536 ltac:(lia)) as Hm. assert (Hd : 0 <= z / 65536 < 65536) by (split; [apply Z.div_pos; lia|apply Z.div_lt_upper_bound; lia]).
  rewrite parse_u4_rest, Hl by done. cbn [enc_u2 app]. unfold be. cbn [fold_left].
  pose proof (be_enc_u2 _ Hd) as H1. pose proof (be_enc_u2 _ Hm) as H2. split; [f_equal; pose proof (Z.div_mod z 65536 ltac:(lia)); lia|].
  split; [apply move_ok; [done|rewrite Hl; simpl; lia]|]. rewrite rest_move by (done || rewrite Hl; simpl; lia). by rewrite Hl.
Qed.
Lemma reads_utf8 s : str_ok s -> Z.of_nat (String.length s) < 65534 -> reads class_file_parse_utf8 (enc_u2 (Z.of_nat (String.length s)) ++ la s) s.
Proof.
  intros Hs Hlen. eapply reads_bind; [apply reads_u2; unfold is_u; simpl; lia|]. intros r k Hr Hl. exists (move r (Z.of_nat (String.length s))).
  rewrite utf8data_spec by (done || lia). rewrite Hl, Nat2Z.id, <- la_length, take_app_length.
  rewrite length_app, (proj2 (Z.leb_le _ _)) by lia. unfold str_ok in Hs. rewrite Hs. cbn [andb]. rewrite String.string_of_list_ascii_of_string.
  split; [done|]. split; [apply move_ok; [done|rewrite Hl, length_app; lia]|].
  rewrite rest_move by (done || rewrite Hl, length_app; lia). by rewrite Hl, Nat2Z.id, drop_app_length.
Qed.

Lemma reads_entry e : printable e -> is_unused e = false -> e <> Tags -> reads parse_entry (print_entry e) e.
Proof.
  intros Hp Hu Ht. change parse_entry with (tag ← parse_u1; entry_body tag).
  assert (Htag : print_entry e = [chr (tag_of e)] ++ print_body e) by (by destruct e). rewrite Htag.
  eapply reads_bind; [apply reads_u1; destruct e as [| | | | | | | | |[]|]; by vm_compute|].
  destruct e as [|h l|s|v|v|h l|h l|n b|n o|kind c n|n d o]; try done; cbn [printable print_body] in *.
  - apply (reads_bind_ret class_file_parse_utf8 Utf8). apply reads_utf8; apply Hp.
  - apply (reads_bind_ret parse_u4_be Integer). by apply reads_u4.
  - apply (reads_bind_ret parse_u4_be Float). by apply reads_u4.
  - destruct Hp as [Hh Hl]. eapply (reads_bind parse_u4_be); [by apply reads_u4|]. apply (reads_bind_ret parse_u4_be (Long h)). by apply reads_u4.
  - destruct Hp as [Hh Hl]. eapply (reads_bind parse_u4_be); [by apply reads_u4|]. apply (reads_bind_ret parse_u4_be (Double h)). by apply reads_u4.
  - destruct Hp as [Hn ->]. apply (reads_bind_ret parse_u2_be (fun n => ClassRef n false)). by apply reads_u2.
  - destruct Hp as [Hn ->]. apply (reads_bind_ret parse_u2_be (fun n => StringRef n None)). by apply reads_u2.
  - destruct Hp as [Hc Hn]. destruct kind; (eapply (reads_bind parse_u2_be); [by apply reads_u2|]).
    + apply (reads_bind_ret parse_u2_be (Ref Fieldref c)). by apply reads_u2.
    + apply (reads_bind_ret parse_u2_be (Ref Methodref c)). by apply reads_u2.
    + apply (reads_bind_ret parse_u2_be (Ref InterfaceMethodref c)). by apply reads_u2.
  - destruct Hp as (Hn & Hd & ->). eapply (reads_bind parse_u2_be); [by apply reads_u2|]. apply (reads_bind_ret parse_u2_be (fun d => NameAndType n d None)). by apply reads_u2.
Qed.

Lemma reads_loop fuel i es size : laid es = true -> halves es -> Forall printable es -> 1 <= i -> size = i + Z.of_nat (length es) -> (length es < fuel)%nat ->
  reads (parse_loop fuel i size) (print_entries es) es.
Proof.
  revert i es. induction fuel as [|fuel IH]; intros i es Hlaid Hh Hp Hi -> Hf; [lia|]. cbn [parse_loop].
  destruct es as [|e es]; [rewrite (proj2 (Z.leb_le _ _)) by (simpl; lia); apply reads_ret|].
  rewrite (proj2 (Z.leb_gt _ _)) by (simpl; lia). apply Forall_cons_1 in Hp as [He Hp]. unfold laid in *. cbn [laid_with] in Hlaid. simpl in Hf.
  assert (Hne : is_unused e = false /\ e <> Tags) by (by destruct e). destruct Hne as [Hu Ht]. cbn [print_entries].
  eapply reads_bind; [by apply reads_entry|]. destruct (is_wide e) eqn:Ew.
  - destruct es as [|e1 es]; [done|]. destruct e1 as [|h' l'| | | | | | | | |]; try done. apply Forall_cons_1 in Hp as [_ Hp]. simpl in Hf.
    assert (Hhl : exists h l, (e = Long h l \/ e = Double h l) /\ h' = h /\ l' = l /\ halves es).
    { destruct e; try done; simpl in Hh; destruct Hh as (-> & -> & Hh); eauto 10. }
    destruct Hhl as (h & l & Hel & -> & -> & Hhs). cbn [print_entries print_entry app].
    assert (Hgo : reads (es0 ← parse_loop fuel (i + 2) (i + Z.of_nat (length (e :: Unused h l :: es)));
      mret (e :: (if i + 1 <? i + Z.of_nat (length (e :: Unused h l :: es)) then [Unused h l] else []) ++ es0)) (print_entries es) (e :: Unused h l :: es)).
    { rewrite (proj2 (Z.ltb_lt _ _)) by (simpl; lia). apply (reads_bind_ret _ (fun es0 => e :: [Unused h l] ++ es0)). apply IH; try done; simpl; lia. }
    destruct Hel as [-> | ->]; exact Hgo.
  - assert (Hhs : halves es) by (destruct e; try done; exact Hh). assert (Hl1 : laid_with false es = true) by (by destruct e).
    assert (Hgo : reads (es0 ← parse_loop fuel (i + 1) (i + Z.of_nat (length (e :: es))); mret (e :: es0)) (print_entries es) (e :: es)).
    { apply (reads_bind_ret _ (cons e)). apply IH; try done; simpl; lia. }
    destruct e; done.
Qed.

(** C29: Parsing a constant pool gives back the entries it was printed from, up to the bytes
    that follow: any entries with values of their widths, strings of characters shorter
    than 65534 bytes and a second half, with the same value, after each long and double. *)
Theorem pool_roundtrip es r k : laid es = true -> halves es -> Forall printable es -> 1 + Z.of_nat (length es) < 2 ^ 16 ->
  reader_ok r -> rest r = print_pool es ++ k ->
  exists r', ConstantPool_parse r = Done (Tags :: es) r' /\ reader_ok r' /\ rest r' = k.
Proof.
  intros Hlaid Hh Hp Hlen. enough (H : reads ConstantPool_parse (print_pool es) (Tags :: es)) by (intros Hr Hrest; by apply H).
  unfold ConstantPool_parse, print_pool. eapply reads_bind; [apply reads_u2; unfold is_u; lia|]. rewrite (proj2 (Z.eqb_neq _ _)) by lia.
  apply (reads_bind_ret _ (cons Tags)). apply reads_loop; try done; lia.
Qed.
