(* ===== verification/LoadedOk.v ===== *)
(** * From the loader to the verifier and the interpreter: a method of a class that parses,
    as the interface of the core ([class_support/C_Interface.cpp], [class_impl.cpp]) gives
    it to the verifier, is safe to run when the verifier accepts it. *)
From Stdlib Require Import Ascii.
From stdpp Require Import strings.
From S2P Require Import Prelude ByteReader Interp JavaMachine VerTypes ClassNames ClassNamesOk VerContext Verify6 VerTypesOk VerStepOk Verify6Ok Descriptors ConstPool Annotations ClassMembers MethodParse ClassParse ClassFileOk.

#[local] Arguments String.append !_ _ / : simpl nomatch.

(** ** The interface *)

(** [VM_Data_Type] has the characters of descriptors for values. *)
Definition java_type (c : ascii) : option Java_Type :=
  if is_char c "B"%char then Some JAVA_TYPE_BYTE else if is_char c "C"%char then Some JAVA_TYPE_CHAR
  else if is_char c "D"%char then Some JAVA_TYPE_DOUBLE else if is_char c "F"%char then Some JAVA_TYPE_FLOAT
  else if is_char c "I"%char then Some JAVA_TYPE_INT else if is_char c "J"%char then Some JAVA_TYPE_LONG
  else if is_char c "S"%char then Some JAVA_TYPE_SHORT else if is_char c "Z"%char then Some JAVA_TYPE_BOOLEAN
  else if is_char c "L"%char then Some JAVA_TYPE_CLASS else if is_char c "["%char then Some JAVA_TYPE_ARRAY
  else if is_char c "V"%char then Some JAVA_TYPE_VOID else if is_char c "$"%char then Some JAVA_TYPE_STRING else None.
(** [method_get_exc_handler_info] *)
Definition exc_handler_info (h : BcHandler) : Handler := MkHandler (_start_pc h) (_end_pc h) (_handler_pc h) (_catch_type_index h).
(** A method with code as the functions [method_get_...] show it. *)
Definition method_handle (m : MethodInfo) (c : Code) : option Method_Info :=
  t ← get_return_java_type (_descriptor (meth m));
  jt ← java_type t;
  Some (MkInfo (MkMethod (_byte_codes c) (exc_handler_info <$> _handlers c) (Z.to_nat (_max_stack c)) (Z.to_nat (_max_locals c))
      (Z.to_nat (_arguments_slot_num m)) jt)
    (_name (meth m)) (_descriptor (meth m)) (is_static_member (meth m)) (m_stackmap c)).

(** ** Descriptors with one closing parenthesis *)

Definition parens (s : string) : nat := length (List.filter (fun c => is_char c ")"%char) (la s)).
Lemma parens_append s t : parens (String.append s t) = (parens s + parens t)%nat.
Proof. unfold parens. by rewrite la_app, List.filter_app, length_app. Qed.
Lemma parens_cons c s : parens (String c s) = ((if is_char c ")"%char then 1 else 0) + parens s)%nat.
Proof. unfold parens. simpl. by destruct (is_char c ")"%char). Qed.
Lemma parens_none s : parens s = 0%nat -> forallb (fun c => negb (is_char c ")"%char)) (la s) = true.
Proof. induction s as [|c s IH]; [done|]. rewrite parens_cons. simpl. by destruct (is_char c ")"%char). Qed.
Lemma parens_brackets d s : parens (brackets d s) = parens s.
Proof. induction d as [|d IH]; [done|]. exact IH. Qed.

(** A type whose text has no parenthesis has none in its name. *)
Lemma parens_type t : parens (print_type t) = 0%nat -> no_paren t = true.
Proof.
  unfold print_type, no_paren. rewrite parens_brackets. destruct (elem_type t) as [c| |n]; [done|done|]. cbn [print_elem].
  rewrite parens_cons, parens_append. intros H. apply parens_none. lia.
Qed.
Lemma one_paren_types args k : parens (print_types args (String ")" k)) = 1%nat -> Forall (fun t => no_paren t = true) args.
Proof.
  assert (Hr : forall args, (1 <= parens (print_types args (String ")" k)))%nat).
  { clear. intros args. induction args as [|t args IH]; [cbn [print_types]; rewrite parens_cons; simpl; lia|]. cbn [print_types]. rewrite parens_append. lia. }
  induction args as [|t args IH]; [constructor|]. cbn [print_types]. rewrite parens_append. intros H. specialize (Hr args).
  constructor; [apply parens_type|apply IH]; lia.
Qed.

(** The functions that look for the first parenthesis find the result. *)
Lemma return_type_types args ret : Forall (shape false) args -> Forall (fun t => no_paren t = true) args -> shape true ret ->
  get_return_java_type (print_types args (String ")" (print_type ret))) = Some (first_char ret).
Proof.
  intros Ha Hp Hret. induction Ha as [|t args Ht _ IH].
  { cbn [print_types get_return_java_type]. rewrite is_char_refl. f_equal. by destruct ret as [[|d] [c| |n]]. }
  apply Forall_cons_1 in Hp as [Hpt Hp]. specialize (IH Hp). cbn [print_types].
  assert (Hskip : forall s k, forallb (fun c => negb (is_char c ")"%char)) (la s) = true -> get_return_java_type (String.append s k) = get_return_java_type k).
  { induction s as [|c s IHs]; [done|]. simpl. intros k [Hc%negb_true_iff Hs]%andb_prop. by rewrite Hc, IHs. }
  rewrite Hskip; [exact IH|]. clear -Ht Hpt. unfold print_type, shape, no_paren in *. induction (dims t) as [|d IHd]; [|simpl; exact IHd].
  destruct (elem_type t) as [c| |n]; [|done|].
  - simpl in Ht |- *. repeat (apply orb_prop in Ht as [Ht|Ht]; [by apply is_char_eq in Ht as ->|]). done.
  - simpl. rewrite la_app, forallb_app. simpl. by rewrite Hpt.
Qed.

Lemma return_type_agrees t p rt q : shape true t -> type_of t p = Some (rt, q) -> exists jt, java_type (first_char t) = Some jt /\ returns_as jt rt.
Proof.
  unfold shape, ref_type. destruct t as [[|d] [c| |n]]; cbn [elem_type shape_elem type_of first_char]; intros Hs H.
  - simpl in Hs. unfold plift in H.
    repeat (apply orb_prop in Hs as [Hs|Hs]; [apply is_char_eq in Hs as ->; cbn in H; injection H as <- _; eexists; split; reflexivity|]). done.
  - injection H as <- _. by exists JAVA_TYPE_VOID.
  - exists JAVA_TYPE_CLASS. split; [done|]. by eapply get_ref_type_ref.
  - exists JAVA_TYPE_ARRAY. split; [done|]. by eapply get_ref_type_ref.
  - exists JAVA_TYPE_ARRAY. split; [done|]. by eapply get_ref_type_ref.
  - exists JAVA_TYPE_ARRAY. split; [done|]. by eapply get_ref_type_ref.
Qed.

(** What the verifier makes of a descriptor of the grammar with one closing parenthesis. *)
Lemma signature_read args ret p : Forall (shape false) args -> shape true ret -> parens (print_method args ret) = 1%nat ->
  exists jt rt tys p', (t ← get_return_java_type (print_method args ret); java_type t) = Some jt /\
    signature (print_method args ret) p = Some (Some (rt, tys), p') /\ length tys = length args /\ returns_as jt rt.
Proof.
  intros Ha Hr Hone. unfold print_method in Hone. rewrite parens_cons in Hone. simpl in Hone. apply one_paren_types in Hone.
  destruct (type_of_some true ret p Hr) as [[rt q] Hrt]. destruct (types_of_some args q Ha) as [[tys q'] Htys].
  destruct (return_type_agrees ret p rt q Hr Hrt) as (jt & Hjt & Hret). exists jt, rt, tys, q'. split.
  { unfold print_method. cbn [get_return_java_type]. change (is_char "(" ")") with false. cbv iota. rewrite return_type_types by done. exact Hjt. }
  split; [|split; [|done]].
  - apply (signature_print args ret p rt q tys q'); [|done..]. apply Forall_forall. intros t Ht. rewrite Forall_forall in Ha, Hone. split; [by apply Ha|by apply Hone].
  - clear -Htys. revert q tys q' Htys. induction args as [|t args IH]; intros q tys q'; [by intros [= <- _]|].
    cbn [types_of]. unfold mbind, P_bind. destruct (type_of t q) as [[a q1]|]; cbn [mbind option_bind]; [|done].
    destruct (types_of args q1) as [[tys1 q2]|] eqn:E; cbn [mbind option_bind]; [|done].
    intros [= <- _]. simpl. f_equal. by eapply IH.
Qed.

(** ** A method that is loaded, verified and run *)

Lemma parsed_head env loader_name given_name r cls r' : Class_parse env loader_name given_name r = Done cls r' ->
  exists r1, parse_head env loader_name given_name r = Done (head cls) r1.
Proof.
  unfold Class_parse, parse_members. intros H. apply bind_done in H as (x & r1 & H1 & H). apply bind_done in H1 as (h & r2 & H1 & H2).
  apply bind_done in H2 as (f & r3 & _ & H2). apply bind_done in H2 as (ms & r4 & _ & [= <- _]). destruct f as [f1 f2], ms as [[m1 m2] m3].
  apply bind_done in H as (a & r5 & _ & [= <- _]). by exists r2.
Qed.
Lemma parsed_class env loader_name given_name r cls r' : reader_ok r -> end_ r - start r < SMALL -> has_entries r ->
  Class_parse env loader_name given_name r = Done cls r' -> ordinary (m_name (head_class (head cls))) = true -> class_ok cls.
Proof.
  intros Hr Hs He H Ho. pose proof (class_parse_runs env loader_name given_name r Hr Hs He) as Hc. unfold runs_from in Hc. rewrite H in Hc.
  apply Hc. intros h r1 Hh. destruct (parsed_head _ _ _ _ _ _ H) as [r2 Hh2]. rewrite Hh in Hh2. by injection Hh2 as -> _.
Qed.

(** C4: The loader, the verifier and the machine fit together. Of a class file of fewer
    than 65534 bytes whose constant pool count is not zero, and whose class is not
    java.lang.Thread, Throwable or Class and has no dollar sign in its name, if it parses,
    take a method with code whose descriptor has exactly one closing parenthesis. Then it
    has the form the verifier takes and its descriptor has types; and if it is also a
    static method of a class, not a constructor, of at most 32 K bytes and without
    exception handlers, made of constants, loads, stores, stack, arithmetic, conversion
    and comparison instructions, conditional branches, goto and returns (no ldc, calls,
    fields, arrays, switches or goto_w, and areturn only if it returns a reference), the
    Java 6 verifier accepts it and no stack map is outside the code, then no execution
    from arguments of these types gets stuck: it returns a value of the return type,
    throws, or is still running when the steps are used up. *)
Theorem loaded_method_safe env loader_name given_name r cls r' m c p :
  reader_ok r -> end_ r - start r < SMALL -> has_entries r -> Class_parse env loader_name given_name r = Done cls r' ->
  ordinary (m_name (head_class (head cls))) = true -> In m (m_methods cls) -> meth_code m = Some c -> parens (_descriptor (meth m)) = 1%nat ->
  exists mi rt tys p', method_handle m c = Some mi /\ signature (method_descriptor mi) p = Some (Some (rt, tys), p') /\
    forall vm ctx, verify_method vm mi (init_ctx vm mi p) = VOk tt ctx -> modelled_method vm mi = true -> maps_inside mi ctx ->
    forall resolve catches exn_ref sd fuel args, Forall2 has_type tys args ->
    match java_exec resolve catches exn_ref sd fuel (method mi) (JState 0 (layout 0 args) []) with
    | JUndef => False
    | JReturn (Some v) => rt <> SM_BOGUS /\ has_type rt v
    | JReturn None => rt = SM_BOGUS
    | JThrown _ | JFuel => True
    end.
Proof.
  intros Hr Hs He H Ho Hm Hc Hone. destruct (parsed_class _ _ _ _ _ _ Hr Hs He H Ho) as [_ _ [Hms _]].
  rewrite List.Forall_forall in Hms. destruct (Hms m Hm) as ((args & ret & Ha & Hret & Hd) & _).
  rewrite Hd in Hone. destruct (signature_read args ret p Ha Hret Hone) as (jt & rt & tys & p' & Hjt & Hsig & _ & Hrt).
  unfold method_handle. rewrite Hd. destruct (get_return_java_type (print_method args ret)) as [t|]; [|done]. cbn [mbind option_bind] in Hjt |- *.
  rewrite Hjt. eexists _, rt, tys, p'. split; [reflexivity|]. split; [exact Hsig|].
  intros vm ctx Hv Hmm Hin resolve catches exn_ref sd fuel vals Hvals.
  pose proof (accepted_exec vm _ p p' ctx rt tys Hv Hmm Hin Hsig Hrt resolve catches exn_ref sd fuel vals Hvals) as Hx.
  unfold safe_result in Hx. by destruct (java_exec _ _ _ _ _ _ _).
Qed.
