(* ===== verification/LoaderRuns.v ===== *)
(** * Class files: witnesses, and class files the loader has no test for *)
From Stdlib Require Import Ascii.
From stdpp Require Import strings.
From S2P Require Import Prelude ByteReader FrameOk Interp JavaMachine VerTypes ClassNames ClassNamesOk VerContext Verify6 VerStepOk Verify6Ok Descriptors ConstPool Annotations ClassMembers MethodParse ClassParse ClassFileOk LoaderOk LoadedOk.

(** ** A class file *)

Definition bytes (l : list Z) : list ascii := chr <$> l.
Definition the_env : Env := MkEnv false true false false (fun _ => true) (fun _ => true).
(** A class of a version, with a pool, its name and its super class, and the rest. *)
Definition class_file (version : Z) (es : list ConstPoolEntry) (flags this super : Z) (rest : list ascii) : list ascii :=
  enc_u4 CLASSFILE_MAGIC ++ enc_u2 0 ++ enc_u2 version ++ print_pool es ++ enc_u2 flags ++ enc_u2 this ++ enc_u2 super ++ rest.
Definition read_file (l : list ascii) : ByteReader := new_reader l 0 (Z.of_nat (length l)).
Lemma read_file_ok l : reader_ok (read_file l).
Proof. split; simpl; lia. Qed.

(** A member with one attribute. *)
Definition member_with (flags name descriptor attr : Z) (contents : list ascii) : list ascii :=
  enc_u2 flags ++ enc_u2 name ++ enc_u2 descriptor ++ enc_u2 1 ++ enc_u2 attr ++ enc_u4 (Z.of_nat (length contents)) ++ contents.
(** Code without handlers; [attributes] follow the number of them. *)
Definition code_of (max_stack max_locals : Z) (code : list Z) (attributes : list ascii) : list ascii :=
  enc_u2 max_stack ++ enc_u2 max_locals ++ enc_u4 (Z.of_nat (length code)) ++ bytes code ++ enc_u2 0 ++ attributes.

Definition the_pool : list ConstPoolEntry :=
  [Utf8 "A"; ClassRef 1 false; Utf8 "java/lang/Object"; ClassRef 3 false; Utf8 "f"; Utf8 "(I)I"; Utf8 "Code"; Utf8 "StackMapTable";
   Utf8 "InnerClasses"].
(** [static int f(int x) { return x; }] *)
Definition the_class : list ascii :=
  class_file 50 the_pool 0x21 2 4 (enc_u2 0 ++ enc_u2 0 ++ enc_u2 1 ++ member_with 0x9 5 6 7 (code_of 1 1 [0x1a; 0xac] (enc_u2 0)) ++ enc_u2 0).

Definition the_reader : ByteReader := read_file the_class.
Lemma the_entries : has_entries the_reader.
Proof. intros l H. vm_compute in H. discriminate H. Qed.
Definition parsed (l : list ascii) : option Class := match Class_parse the_env None None (read_file l) with Done c _ => Some c | _ => None end.

(** The class [A] with its method. *)
Lemma class_parse_safe_witness :
  match Class_parse the_env None None the_reader with Done c r' => reader_ok r' /\ class_ok c | Fails => True | Wild => False end /\
  (fun c => (m_name (head_class (head c)), (fun m => (_name (meth m), _arguments_slot_num m)) <$> m_methods c)) <$> parsed the_class = Some ("A", [("f", 1)]).
Proof.
  split; [|vm_compute; reflexivity]. apply (class_parse_safe the_env None None the_reader).
  - apply read_file_ok.
  - vm_compute. reflexivity.
  - apply the_entries.
  - intros h r' H. vm_compute in H. injection H as <- _. reflexivity.
Defined.

Lemma extract_name_agrees_witness : exists r, class_extract_name the_class 0 (Z.of_nat (length the_class)) = Done "A" r.
Proof.
  destruct (parse_head the_env None None the_reader) as [h r'| |] eqn:E; [|vm_compute in E; discriminate E..].
  assert (Hn : m_name (head_class h) = "A") by (vm_compute in E; injection E as <- _; reflexivity). rewrite <- Hn.
  apply (extract_name_agrees the_env None None the_class 0 (Z.of_nat (length the_class)) h r'); [discriminate|discriminate|discriminate|reflexivity|exact E].
Defined.

Lemma pool_roundtrip_witness : exists r', ConstantPool_parse (read_file (print_pool (Long 1 2 :: Unused 1 2 :: the_pool) ++ bytes [1; 2; 3])) =
  Done (Tags :: Long 1 2 :: Unused 1 2 :: the_pool) r' /\ reader_ok r' /\ rest r' = bytes [1; 2; 3].
Proof.
  apply (pool_roundtrip (Long 1 2 :: Unused 1 2 :: the_pool)).
  - reflexivity.
  - repeat split.
  - repeat constructor; vm_compute; (reflexivity || discriminate).
  - reflexivity.
  - apply read_file_ok.
  - vm_compute. reflexivity.
Defined.

Lemma loaded_method_safe_witness : exists m c mi ctx, In m (default [] (m_methods <$> parsed the_class)) /\ meth_code m = Some c /\ method_handle m c = Some mi /\
  verify_method vm_A mi (init_ctx vm_A mi new_pool) = VOk tt ctx /\
  match java_exec (fun _ => inr "none"%string) (fun _ _ => None) (fun _ => 0) false 9 (method mi) (JState 0 (layout 0 [VInt 4]) []) with
  | JReturn (Some v) => has_type SM_INTEGER v
  | _ => False
  end.
Proof.
  destruct (Class_parse the_env None None the_reader) as [cls r'| |] eqn:E; [|vm_compute in E; discriminate E..].
  assert (Hp : parsed the_class = Some cls) by (unfold parsed; fold the_reader; by rewrite E).
  destruct (m_methods cls) as [|m ms] eqn:Em; [vm_compute in E; injection E as <- _; discriminate Em|].
  destruct (meth_code m) as [c|] eqn:Ec; [|vm_compute in E; injection E as <- _; injection Em as <- _; discriminate Ec].
  destruct (loaded_method_safe the_env None None the_reader cls r' m c new_pool) as (mi & rt & tys & p' & Hmi & Hsig & Hsafe).
  - apply read_file_ok.
  - vm_compute. reflexivity.
  - apply the_entries.
  - exact E.
  - vm_compute in E. injection E as <- _. reflexivity.
  - rewrite Em. by left.
  - exact Ec.
  - vm_compute in E. injection E as <- _. injection Em as <- _. reflexivity.
  - exists m, c, mi, (final_ctx mi). rewrite Hp. cbn [default fmap option_fmap option_map]. rewrite Em. split; [by left|]. split; [done|]. split; [done|].
    specialize (Hsafe vm_A (final_ctx mi)).
    assert (Hmi' : mi = MkInfo (MkMethod [0x1a; 0xac] [] 1 1 1 JAVA_TYPE_INT) "f" "(I)I" true None).
    { vm_compute in E. injection E as <- _. injection Em as <- _. injection Ec as <-. vm_compute in Hmi. injection Hmi as <-. reflexivity. }
    subst mi. split; [vm_compute; reflexivity|]. vm_compute in Hsig. injection Hsig as <- <- <-.
    specialize (Hsafe ltac:(vm_compute; reflexivity) ltac:(vm_compute; reflexivity) ltac:(apply inside_ok; vm_compute; reflexivity)
      (fun _ => inr "none"%string) (fun _ _ => None) (fun _ => 0) false 9%nat [VInt 4] ltac:(repeat constructor)).
    destruct (java_exec _ _ _ _ _ _ _) as [[v|]|e| |] eqn:Ex; [apply Hsafe|vm_compute in Ex; discriminate Ex..].
Defined.

Lemma check_method_descriptor_spec_witness :
  (exists b, check_method_descriptor (fun _ => true) (fun _ => true) "(I[J)La;" false = Some b /\
    (b = true <-> exists args ret, Forall (fun t => wf_type false t = true) args /\ wf_type true ret = true /\ "(I[J)La;"%string = print_method args ret)) /\
  check_method_descriptor (fun _ => true) (fun _ => true) "(I[J)La;" false = Some true.
Proof. split; [apply check_method_descriptor_spec; vm_compute; reflexivity|vm_compute; reflexivity]. Defined.

(** ** Class files the loader has no test for *)

(** A count of entries of zero. *)
Definition class_empty_pool : list ascii := enc_u4 CLASSFILE_MAGIC ++ enc_u2 0 ++ enc_u2 50 ++ enc_u2 0.
(** The pool of a class, with [InnerClasses] at 5 and the class [C] at 7. *)
Definition named_pool (nm : string) : list ConstPoolEntry :=
  [Utf8 nm; ClassRef 1 false; Utf8 "java/lang/Object"; ClassRef 3 false; Utf8 "InnerClasses"; Utf8 "C"; ClassRef 6 false; Utf8 "I"].
(** A class without members with an attribute for its inner classes. *)
Definition class_with_inner (nm : string) (classes : list Z) : list ascii :=
  class_file 50 (named_pool nm) 0x21 2 4 (enc_u2 0 ++ enc_u2 0 ++ enc_u2 0 ++ enc_u2 1 ++
    enc_u2 5 ++ enc_u4 (2 + 8 * Z.of_nat (length classes)) ++ enc_u2 (Z.of_nat (length classes)) ++
    List.concat ((fun i => enc_u2 i ++ enc_u2 0 ++ enc_u2 0 ++ enc_u2 0) <$> classes)).
(** [java.lang.Thread] with 65535 fields, of which the first one is there. *)
Definition class_many_fields : list ascii :=
  class_file 50 (named_pool "java/lang/Thread") 0x21 2 4 (enc_u2 0 ++ enc_u2 65535 ++ enc_u2 0 ++ enc_u2 6 ++ enc_u2 8 ++ enc_u2 0).


(** The bounds of [class_parse_safe] are bounds of the code.  A constant pool of no entries
    is written to at its first entry.  In a class with a dollar sign in its name, one inner
    class that is another class is written to an array of none, and an inner class of no
    index is looked up in the pool; of no inner classes 65535 are counted.  The number of the
    fields of a class with a field added wraps around, and the first field is written to an
    array of none. *)
Theorem unchecked_class_files :
  Class_parse the_env None None (read_file class_empty_pool) = Wild /\
  Class_parse the_env None None (read_file (class_with_inner "A$B" [7])) = Wild /\
  Class_parse the_env None None (read_file (class_with_inner "A$B" [0; 0])) = Wild /\
  (fun c => (m_num_innerclasses (attrs c), m_innerclasses (attrs c))) <$> parsed (class_with_inner "A$B" []) = Some (65535, None) /\
  Class_parse the_env None None (read_file class_many_fields) = Wild.
Proof. repeat split; vm_compute; reflexivity. Qed.

(** The same attribute in a class without a dollar sign. *)
Lemma inner_classes_parse : (fun c => (m_num_innerclasses (attrs c), m_innerclasses (attrs c))) <$> parsed (class_with_inner "A" [7]) = Some (1, Some [(7, 0); (0, 0)]).
Proof. vm_compute. reflexivity. Qed.

(** A static initialiser without the flag gets a slot for [this], and then the flag. *)
Definition class_clinit (max_locals : Z) : list ascii :=
  class_file 48 [Utf8 "A"; ClassRef 1 false; Utf8 "java/lang/Object"; ClassRef 3 false; Utf8 "<clinit>"; Utf8 "()V"; Utf8 "Code"] 0x21 2 4
    (enc_u2 0 ++ enc_u2 0 ++ enc_u2 1 ++ member_with 0 5 6 7 (code_of 0 max_locals [0xb1] (enc_u2 0)) ++ enc_u2 0).
Lemma clinit_slot : Class_parse the_env None None (read_file (class_clinit 0)) = Fails /\
  (fun c => (fun m => (_arguments_slot_num m, is_static_member (meth m))) <$> m_methods c) <$> parsed (class_clinit 1) = Some [(1, true)].
Proof. split; vm_compute; reflexivity. Qed.

(** The length of an attribute that is not known is taken for a signed number. *)
Lemma attribute_rewinds : let r := read_file (enc_u2 1 ++ enc_u4 0xFFFFFFFA ++ bytes [1; 2; 3]) in
  parse_attribute [Tags; Utf8 "Unknown"] class_attrs r = Done (ATTR_UNDEF, 0xFFFFFFFA) r.
Proof. vm_compute. reflexivity. Qed.

(** The name is taken from an entry that is no class. *)
Definition class_of_string : list ascii :=
  class_file 50 [Utf8 "A"; StringRef 1 None; Utf8 "java/lang/Object"; ClassRef 3 false] 0x21 2 4 (enc_u2 0 ++ enc_u2 0 ++ enc_u2 0 ++ enc_u2 0).
Lemma extract_name_any_tag : Class_parse the_env None None (read_file class_of_string) = Fails /\
  exists r, class_extract_name class_of_string 0 (Z.of_nat (length class_of_string)) = Done "A" r.
Proof. split; [vm_compute; reflexivity|]. eexists. vm_compute. reflexivity. Qed.
