(* ===== verification/FieldLayout.v ===== *)
(** * The layout of the fields of a class: [class_support/Prepare.cpp]

    A pointer to a field is its number in the array of the fields.  [None] is a failed
    assertion or a type descriptor that is not valid. *)
From Stdlib Require Import Ascii.
From stdpp Require Import strings.
From S2P Require Import Prelude ByteReader VerTypes ClassNames ConstPool Annotations ClassMembers.

(** What [Class] keeps of the layout, and the offsets of the fields that have one. *)
Record Layout := MkLayout {
  m_unpadded_instance_data_size : Z; m_num_field_padding_bytes : Z; m_num_instance_refs : Z; m_static_data_size : Z;
  offsets : list (option Z);
}.
Definition set_offset (c : Layout) (i : nat) (off : Z) : list (option Z) := <[i := Some off]> (offsets c).

Section layout.
(** The build, the options, and the fields with the static ones in front. *)
Context (POINTER64 compact_fields sort_fields : bool) (REF_SIZE : Z) (m_fields : list Field) (m_num_static_fields : nat).

Definition descriptor_char (f : Field) : ascii := char_at (_descriptor (field_member f)) 0.
Definition get_magic_type_size : Z := if POINTER64 then 8 else 4.
Definition sizeof_field_type (f : Field) (do_field_compaction : bool) : option Z :=
  let kind := is_char (descriptor_char f) in
  if kind "B"%char || kind "Z"%char then Some (if do_field_compaction then 1 else 4)
  else if kind "C"%char || kind "S"%char then Some (if do_field_compaction then 2 else 4)
  else if kind "F"%char || kind "I"%char then Some 4
  else if kind "L"%char || kind "["%char then Some (if _is_magic_type f then get_magic_type_size else REF_SIZE)
  else if kind "D"%char || kind "J"%char then Some 8
  else None.
Definition is_ref_kind (f : Field) : bool := is_char (descriptor_char f) "L"%char || is_char (descriptor_char f) "["%char.
Definition static_field (f : Field) : bool := is_static_member (field_member f).

(** ** Instance fields *)

Definition assign_offset_to_instance_field (i : nat) (c : Layout) : option Layout :=
  f ← m_fields !! i;
  o ← offsets c !! i;
  match o with
  | Some _ => Some c
  | None =>
      if static_field f then Some c
      else
        sz ← sizeof_field_type f compact_fields;
        let offset := sx 32 (m_unpadded_instance_data_size c) in
        let delta := Z.rem offset sz in
        let pad_bytes := if delta =? 0 then 0 else sz - delta in
        Some (MkLayout (ux 32 (m_unpadded_instance_data_size c + (sz + pad_bytes))) (ux 32 (m_num_field_padding_bytes c + pad_bytes))
          (if is_ref_kind f then ux 32 (m_num_instance_refs c + 1) else m_num_instance_refs c) (m_static_data_size c)
          (set_offset c i (ux 32 (offset + pad_bytes))))
  end.

(** The last of the [k] pointers after the static ones whose field has no offset, unless it
    is too big. *)
Fixpoint field_to_allocate (field_ptrs : list nat) (pad_bytes : Z) (c : Layout) (k : nat) : option (option nat) :=
  match k with
  | O => Some None
  | S k =>
      p ← field_ptrs !! (m_num_static_fields + k)%nat;
      f ← m_fields !! p;
      o ← offsets c !! p;
      match o with
      | None =>
          if static_field f then field_to_allocate field_ptrs pad_bytes c k
          else sz ← sizeof_field_type f compact_fields; Some (if pad_bytes <? sz then None else Some k)
      | Some _ => field_to_allocate field_ptrs pad_bytes c k
      end
  end.
(** Four bytes at most are filled. *)
Fixpoint fill_loop (fuel : nat) (field_ptrs : list nat) (k : nat) (pad_bytes : Z) (c : Layout) : option Layout :=
  match fuel with
  | O => None
  | S fuel =>
      if pad_bytes <=? 0 then Some c
      else
        r ← field_to_allocate field_ptrs pad_bytes c k;
        match r with
        | None =>
            Some (MkLayout (ux 32 (m_unpadded_instance_data_size c + pad_bytes)) (ux 32 (m_num_field_padding_bytes c + pad_bytes))
              (m_num_instance_refs c) (m_static_data_size c) (offsets c))
        | Some k =>
            p ← field_ptrs !! (m_num_static_fields + k)%nat;
            c ← assign_offset_to_instance_field p c;
            let delta := m_unpadded_instance_data_size c mod 4 in
            fill_loop fuel field_ptrs k (if 0 <? delta then 4 - delta else 0) c
        end
  end.
Fixpoint assign_all (ptrs : list nat) (c : Layout) : option Layout :=
  match ptrs with [] => Some c | p :: ptrs => c ← assign_offset_to_instance_field p c; assign_all ptrs c end.
Definition assign_offsets_to_instance_fields (field_ptrs : list nat) (c : Layout) : option Layout :=
  if (length m_fields =? 0)%nat then Some c
  else
    c ← (if sort_fields && compact_fields && negb (m_unpadded_instance_data_size c mod 4 =? 0) then
           fill_loop 5 field_ptrs (length m_fields - m_num_static_fields) (4 - m_unpadded_instance_data_size c mod 4) c
         else Some c);
    assign_all (drop m_num_static_fields field_ptrs) c.

(** ** Static fields *)

Definition assign_static (p : nat) (c : Layout) : option Layout :=
  f ← m_fields !! p;
  if negb (static_field f) then None
  else
    field_size ← sizeof_field_type f compact_fields;
    let aligned := if POINTER64 then field_size =? 8 else is_char (descriptor_char f) "D"%char in
    let off := if aligned && negb (m_static_data_size c mod 8 =? 0) then ux 32 (m_static_data_size c + 4) else m_static_data_size c in
    if aligned && negb (off mod 8 =? 0) then None
    else
      Some (MkLayout (m_unpadded_instance_data_size c) (m_num_field_padding_bytes c) (m_num_instance_refs c) (ux 32 (off + field_size))
        (set_offset c p off)).
Fixpoint assign_statics (ptrs : list nat) (c : Layout) : option Layout :=
  match ptrs with [] => Some c | p :: ptrs => c ← assign_static p c; assign_statics ptrs c end.
Definition assign_offsets_to_static_fields (field_ptrs : list nat) (c : Layout) : option Layout :=
  assign_statics (take m_num_static_fields field_ptrs) c.

(** ** Sorting *)

Definition field_size (f : Field) (doing_instance_flds : bool) : option Z :=
  if doing_instance_flds && static_field f then Some 0x7FFFFFFF else sizeof_field_type f true.
Definition is_greater (doing_instance_flds : bool) (p1 p2 : nat) : option bool :=
  f1 ← m_fields !! p1;
  f2 ← m_fields !! p2;
  f1_size ← field_size f1 doing_instance_flds;
  f2_size ← field_size f2 doing_instance_flds;
  Some (if f2_size <? f1_size then true else if f1_size <? f2_size then false else is_ref_kind f1 && negb (is_ref_kind f2)).

(** The inner loop carries the field it has moved last; whether it has swapped any. *)
Fixpoint bubble (gt : nat -> nat -> option bool) (a : nat) (l : list nat) : option (list nat * bool) :=
  match l with
  | [] => Some ([a], false)
  | b :: l =>
      g ← gt b a;
      if g : bool then r ← bubble gt a l; Some (b :: r.1, true)
      else r ← bubble gt b l; Some (a :: r.1, r.2)
  end.
Definition bubble_pass (gt : nat -> nat -> option bool) (l : list nat) : option (list nat * bool) :=
  match l with [] => Some ([], false) | a :: l => bubble gt a l end.
Fixpoint bubble_loop (fuel : nat) (gt : nat -> nat -> option bool) (l : list nat) : option (list nat) :=
  match fuel with
  | O => None
  | S fuel => r ← bubble_pass gt l; if r.2 : bool then bubble_loop fuel gt r.1 else Some r.1
  end.
(** A pass that swaps leaves fewer pairs in the wrong order. *)
Definition bubbleSort (doing_instance_flds : bool) (l : list nat) : option (list nat) :=
  bubble_loop (S (length l * length l)) (is_greater doing_instance_flds) l.

(** ** All fields *)

Definition assign_offsets_to_fields (c : Layout) : option Layout :=
  let field_ptrs := seq 0 (length m_fields) in
  field_ptrs ← (if sort_fields then s ← bubbleSort true (drop m_num_static_fields field_ptrs); Some (take m_num_static_fields field_ptrs ++ s)
                else Some field_ptrs);
  c ← assign_offsets_to_instance_fields field_ptrs c;
  field_ptrs ← (if sort_fields then s ← bubbleSort false (take m_num_static_fields field_ptrs); Some (s ++ drop m_num_static_fields field_ptrs)
                else Some field_ptrs);
  assign_offsets_to_static_fields field_ptrs c.
End layout.

(** No field has an offset. *)
Definition new_layout (unpadded padding refs : Z) (n : nat) : Layout := MkLayout unpadded padding refs 0 (replicate n None).

(** ** Sizes of objects and arrays *)

Section sizes.
Context (POINTER64 tag_pointer : bool).

Definition GC_OBJECT_ALIGNMENT : Z := if POINTER64 then 8 else 4.
(** [ManagedObject::get_size] *)
Definition managed_object_size : Z :=
  let pointer := if POINTER64 then 8 else 4 in 2 * pointer + (if tag_pointer then pointer else 0).
Definition align_object (size : Z) : Z := (size + (GC_OBJECT_ALIGNMENT - 1)) / GC_OBJECT_ALIGNMENT * GC_OBJECT_ALIGNMENT.

(** Where the fields of a class start: after those of its super class, except for
    [java.lang.Class]; an interface has none. *)
Definition start_layout (is_interface is_class_class : bool) (super : option Layout) (n : nat) : Layout :=
  if is_interface then new_layout 0 0 0 n
  else
    match super with
    | Some s =>
        new_layout (if is_class_class then align_object managed_object_size else m_unpadded_instance_data_size s)
          (m_num_field_padding_bytes s) (m_num_instance_refs s) n
    | None => new_layout managed_object_size 0 0 n
    end.
Definition NEXT_TO_HIGH_BIT_SET_MASK : Z := 2 ^ 30.
(** [m_allocated_size] before the bit of the constraints. *)
Definition allocated_size (c : Layout) : Z :=
  ux 32 (ux 32 (m_unpadded_instance_data_size c + (GC_OBJECT_ALIGNMENT - 1)) / GC_OBJECT_ALIGNMENT * GC_OBJECT_ALIGNMENT).
Definition set_instance_data_size_constraint_bit (size : Z) : Z := Z.lor size NEXT_TO_HIGH_BIT_SET_MASK.
Definition get_instance_data_size (size : Z) : Z := Z.land size (2 ^ 32 - 1 - NEXT_TO_HIGH_BIT_SET_MASK).

Definition shift_of_primitive_array_element (name : string) : option Z :=
  let elt := is_char (char_at name 1) in
  if elt "C"%char then Some 1 else if elt "B"%char then Some 0 else if elt "D"%char then Some 3 else if elt "F"%char then Some 2
  else if elt "I"%char then Some 2 else if elt "J"%char then Some 3 else if elt "S"%char then Some 1 else if elt "Z"%char then Some 0
  else if elt "["%char then (if POINTER64 then None else Some 2) else None.
Definition is_vector_of_primitives (name : string) (is_array_of_primitives : bool) : bool :=
  if is_char (char_at name 1) "["%char then false else if is_char (char_at name 1) "L"%char then false else is_array_of_primitives.
(** The shift and the size of the elements of an array class. *)
Definition array_element (heap_compressed : bool) (name : string) (is_array_of_primitives : bool) : option (Z * Z) :=
  if is_vector_of_primitives name is_array_of_primitives then
    shift ← shift_of_primitive_array_element name; Some (shift, Z.shiftl 1 shift)
  else
    let size := if heap_compressed then 4 else if POINTER64 then 8 else 4 in Some (if size =? 8 then 3 else 2, size).

Definition VM_VECTOR_RT_OVERHEAD : Z := managed_object_size + 4.
Definition VM_VECTOR_FIRST_ELEM_OFFSET_8 : Z := Z.land (VM_VECTOR_RT_OVERHEAD + 7) (2 ^ 32 - 1 - 7).
Definition VM_VECTOR_FIRST_ELEM_OFFSET_1_2_4 : Z := if POINTER64 then VM_VECTOR_FIRST_ELEM_OFFSET_8 else VM_VECTOR_RT_OVERHEAD.
Definition first_elem_offset (shift : Z) : Z := if shift <? 3 then VM_VECTOR_FIRST_ELEM_OFFSET_1_2_4 else VM_VECTOR_FIRST_ELEM_OFFSET_8.
(** Zero is an overflow. *)
Definition calculate_array_size (shift length : Z) : Z :=
  if length <? 0 then 0
  else
    let first := first_elem_offset shift in
    if Z.shiftr (ux 32 (NEXT_TO_HIGH_BIT_SET_MASK - GC_OBJECT_ALIGNMENT - first)) shift <=? ux 32 length then 0
    else
      let size := ux 32 (first + sx 32 (Z.shiftl length shift)) in
      Z.land (ux 32 (size + (GC_OBJECT_ALIGNMENT - 1))) (2 ^ 32 - 1 - (GC_OBJECT_ALIGNMENT - 1)).
End sizes.
