(* ===== verification/FieldLayoutOk.v ===== *)
(** * The layout of fields: no two overlap, each is aligned, and the sort ends *)
From Stdlib Require Import Ascii Sorted Permutation.
From stdpp Require Import strings.
From S2P Require Import Prelude ByteReader VerTypes ClassNames ConstPool Annotations ClassMembers FieldLayout.

(** ** The sort *)

Section sort.
Context (gt : nat -> nat -> option bool) (w : nat -> Z) (P : nat -> Prop).
(** The comparison is one of weights. *)
Context (Hgt : forall a b, P a -> P b -> gt a b = Some (w b <? w a)).

Definition wrong (a : nat) (l : list nat) : nat := length (List.filter (fun b => w a <? w b) l).
Fixpoint inversions (l : list nat) : nat := match l with [] => 0%nat | a :: l => (wrong a l + inversions l)%nat end.

Lemma wrong_perm a l l' : Permutation l l' -> wrong a l = wrong a l'.
Proof. unfold wrong. induction 1; simpl; repeat (destruct (_ <? _)); simpl; lia. Qed.
Lemma wrong_cons a b l : wrong a (b :: l) = ((if (w a <? w b)%Z then 1 else 0) + wrong a l)%nat.
Proof. unfold wrong. simpl. by destruct (_ <? _). Qed.
Lemma inversions_cons a l : inversions (a :: l) = (wrong a l + inversions l)%nat.
Proof. done. Qed.
Lemma wrong_length a l : (wrong a l <= length l)%nat.
Proof. unfold wrong. induction l as [|b l IH]; simpl; [lia|]. destruct (_ <? _); simpl; lia. Qed.
Lemma inversions_length l : (inversions l <= length l * length l)%nat.
Proof. induction l as [|a l IH]; simpl; [lia|]. pose proof (wrong_length a l). nia. Qed.

(** Two neighbours in the right order. *)
Definition ordered (a b : nat) : Prop := w b <= w a.

Lemma bubble_spec a l : Forall P (a :: l) -> exists l' ch, bubble gt a l = Some (l', ch) /\ Permutation (a :: l) l' /\
  (inversions l' <= inversions (a :: l))%nat /\
  (if ch : bool then (inversions l' < inversions (a :: l))%nat else l' = a :: l /\ Sorted ordered (a :: l)).
Proof.
  revert a. induction l as [|b l IH]; intros a HP; cbn [bubble].
  { exists [a], false. split; [done|]. split; [done|]. split; [done|]. split; [done|]. by repeat constructor. }
  apply Forall_cons_1 in HP as [Ha HP]. pose proof HP as [Hb Hl]%Forall_cons_1. rewrite (Hgt b a Hb Ha). cbn [mbind option_bind].
  destruct (Z.ltb_spec (w a) (w b)) as [Hab|Hab].
  - destruct (IH a) as (l' & ch & -> & Hp & Hi & _); [by constructor|]. cbn [mbind option_bind fst snd].
    exists (b :: l'), true. assert (Hperm : Permutation (a :: b :: l) (b :: l')) by (rewrite perm_swap; by constructor).
    rewrite !inversions_cons, wrong_cons in *. rewrite <- (wrong_perm b _ _ Hp), wrong_cons.
    rewrite (proj2 (Z.ltb_lt _ _) Hab), (proj2 (Z.ltb_ge (w b) (w a))) by lia.
    split; [done|]. split; [done|]. split; lia.
  - destruct (IH b HP) as (l' & ch & -> & Hp & Hi & Hch). cbn [mbind option_bind fst snd]. exists (a :: l'), ch.
    rewrite !inversions_cons. rewrite (wrong_perm a _ _ Hp). rewrite !inversions_cons in Hi, Hch.
    split; [done|]. split; [by constructor|]. split; [lia|]. destruct ch; [cbv iota in *; lia|].
    destruct Hch as [-> Hs]. split; [done|]. constructor; [done|]. constructor. exact Hab.
Qed.

Lemma bubble_loop_spec fuel l : Forall P l -> (inversions l < fuel)%nat -> exists l', bubble_loop fuel gt l = Some l' /\ Permutation l l' /\ Sorted ordered l'.
Proof.
  revert l. induction fuel as [|fuel IH]; intros l HP Hf; [lia|]. simpl. destruct l as [|a l].
  { exists []. split_and!; [done..|constructor]. }
  cbn [bubble_pass]. destruct (bubble_spec a l HP) as (l' & ch & -> & Hp & _ & Hch). cbn [mbind option_bind fst snd].
  destruct ch; [|destruct Hch as [-> Hs]; by exists (a :: l)].
  destruct (IH l') as (l2 & H1 & H2 & H3); [by rewrite <- Hp|lia|]. exists l2. split; [done|]. split; [by rewrite Hp|done].
Qed.

Lemma ordered_strong l : Sorted ordered l -> StronglySorted ordered l.
Proof. apply Sorted_StronglySorted. intros a b c. unfold ordered. lia. Qed.
End sort.

(** ** The layout *)

Section layout.
Context (POINTER64 compact_fields sort_fields : bool) (REF_SIZE : Z) (m_fields : list Field) (m_num_static_fields : nat).
Abbreviation fsize := (sizeof_field_type POINTER64 REF_SIZE).
Abbreviation assign_offset_to_instance_field := (assign_offset_to_instance_field POINTER64 compact_fields REF_SIZE m_fields).
Abbreviation assign_all := (assign_all POINTER64 compact_fields REF_SIZE m_fields).
Abbreviation field_to_allocate := (field_to_allocate POINTER64 compact_fields REF_SIZE m_fields m_num_static_fields).
Abbreviation fill_loop := (fill_loop POINTER64 compact_fields REF_SIZE m_fields m_num_static_fields).
Abbreviation assign_static := (assign_static POINTER64 compact_fields REF_SIZE m_fields).
Abbreviation assign_statics := (assign_statics POINTER64 compact_fields REF_SIZE m_fields).
Abbreviation is_greater := (is_greater POINTER64 REF_SIZE m_fields).

(** References are compressed or as wide as pointers. *)
Context (Href : REF_SIZE = 4 \/ (POINTER64 = true /\ REF_SIZE = 8)).
(** The descriptors are descriptors of fields. *)
Definition field_chars : list ascii := ["B"; "Z"; "C"; "S"; "F"; "I"; "L"; "["; "D"; "J"]%char.
Definition typed_field (f : Field) : Prop := existsb (is_char (descriptor_char f)) field_chars = true.
Context (Htyped : Forall typed_field m_fields).
(** The static fields are in front. *)
Context (Hstatics : (m_num_static_fields <= length m_fields)%nat).
Context (Hparted : forall i f, m_fields !! i = Some f -> static_field f = (i <? m_num_static_fields)%nat).

Definition power (s : Z) : Prop := s = 1 \/ s = 2 \/ s = 4 \/ s = 8.
Lemma fsize_some f compact : typed_field f -> exists s, fsize f compact = Some s /\ power s /\ (compact = false -> s = 4 \/ s = 8).
Proof.
  intros H. unfold typed_field in H. unfold sizeof_field_type, get_magic_type_size, power. simpl in H.
  repeat (apply orb_prop in H as [H|H]; [unfold is_char in H; apply Ascii.eqb_eq in H; rewrite H; simpl;
    destruct compact, (_is_magic_type f), POINTER64; eexists; (split; [reflexivity|]; lia)|]). done.
Qed.
Lemma field_at p : (p < length m_fields)%nat -> exists f, m_fields !! p = Some f /\ typed_field f.
Proof.
  intros Hp. destruct (lookup_lt_is_Some_2 m_fields p Hp) as [f Hf]. exists f. split; [done|]. rewrite Forall_lookup in Htyped. by eapply Htyped.
Qed.

(** *** Sorting the pointers *)

Definition weight (doing : bool) (p : nat) : Z :=
  match m_fields !! p with
  | Some f => 2 * default 0 (field_size POINTER64 REF_SIZE f doing) + (if is_ref_kind f then 1 else 0)
  | None => 0
  end.
Definition in_range (p : nat) : Prop := (p < length m_fields)%nat.
Lemma is_greater_weight doing a b : in_range a -> in_range b -> is_greater doing a b = Some (weight doing b <? weight doing a).
Proof.
  intros Ha Hb. destruct (field_at a Ha) as (f & Hf & Htf). destruct (field_at b Hb) as (h & Hh & Hth).
  unfold FieldLayout.is_greater, weight. rewrite Hf, Hh. cbn [mbind option_bind].
  assert (Hs : forall k, typed_field k -> exists s, field_size POINTER64 REF_SIZE k doing = Some s).
  { intros k Hk. unfold field_size. destruct (doing && static_field k); [by eexists|]. destruct (fsize_some k true Hk) as (s & Hs & _). by exists s. }
  destruct (Hs f Htf) as [sf ->]. destruct (Hs h Hth) as [sh ->]. cbn [mbind option_bind default]. f_equal.
  destruct (Z.ltb_spec sh sf), (Z.ltb_spec sf sh), (is_ref_kind f), (is_ref_kind h); simpl;
    match goal with |- _ = (?a <? ?b) => destruct (Z.ltb_spec a b) end; done || lia.
Qed.
Lemma bubbleSort_spec doing l : Forall in_range l -> exists l', bubbleSort POINTER64 REF_SIZE m_fields doing l = Some l' /\
  Permutation l l' /\ StronglySorted (ordered (weight doing)) l'.
Proof.
  intros Hl. unfold bubbleSort. pose proof (inversions_length (weight doing) l) as Hi.
  destruct (bubble_loop_spec (is_greater doing) (weight doing) in_range (is_greater_weight doing) (S (length l * length l)) l Hl ltac:(lia)) as (l' & H1 & H2 & H3).
  exists l'. split; [done|]. split; [done|]. by apply ordered_strong.
Qed.

(** *** Regions *)

(** What a kind of fields has of a region: each is within the region and aligned, and no two overlap. *)
Definition placed (st : bool) (offs : list (option Z)) (p : nat) (o s : Z) (f : Field) : Prop :=
  m_fields !! p = Some f /\ static_field f = st /\ offs !! p = Some (Some o) /\ fsize f compact_fields = Some s.
Definition packed (st : bool) (align : Field -> Z -> Z) (lo hi : Z) (offs : list (option Z)) : Prop :=
  (forall p o s f, placed st offs p o s f -> lo <= o /\ o + s <= hi /\ (align f s | o)) /\
  (forall p q o o' s s' f f', p <> q -> placed st offs p o s f -> placed st offs q o' s' f' -> o + s <= o' \/ o' + s' <= o).

Lemma packed_empty st align lo n : packed st align lo lo (replicate n None).
Proof. split; [intros p o s f (_ & _ & H & _)|intros p q o o' s s' f f' _ (_ & _ & H & _) _]; by apply lookup_replicate in H as [H _]. Qed.
Lemma packed_more st align lo hi hi' offs : hi <= hi' -> packed st align lo hi offs -> packed st align lo hi' offs.
Proof. intros H [H1 H2]. split; [|done]. intros p o s f Hp. destruct (H1 p o s f Hp) as (? & ? & ?). split_and!; [done|lia|done]. Qed.
Lemma placed_insert st offs p q o o' s f : placed st (<[p := Some o']> offs) q o s f -> (q = p /\ o = o') \/ placed st offs q o s f.
Proof.
  intros (Hf & Hst & Ho & Hs). destruct (decide (p = q)) as [<-|Hn].
  - left. split; [done|]. apply list_lookup_insert_Some in Ho as [(_ & Ho & _)|[? _]]; [by simplify_eq|done].
  - right. rewrite list_lookup_insert_ne in Ho by done. done.
Qed.
Lemma packed_insert st align lo hi offs p o s f : packed st align lo hi offs -> m_fields !! p = Some f -> fsize f compact_fields = Some s ->
  0 < s -> lo <= hi -> hi <= o -> (align f s | o) -> packed st align lo (o + s) (<[p := Some o]> offs).
Proof.
  intros [H1 H2] Hf Hs Hpos Hlo Ho Hal. split.
  - intros q o' s' f' Hq. pose proof Hq as (Hf' & _ & _ & Hs'). destruct (placed_insert _ _ _ _ _ _ _ _ Hq) as [[-> ->]|Hq'].
    + simplify_eq. split_and!; [lia|lia|done].
    + destruct (H1 _ _ _ _ Hq') as (? & ? & ?). split_and!; [lia|lia|done].
  - intros q r oq or sq sr fq fr Hn Hq Hr. pose proof Hq as (Hfq & _ & _ & Hsq). pose proof Hr as (Hfr & _ & _ & Hsr).
    destruct (placed_insert _ _ _ _ _ _ _ _ Hq) as [[-> ->]|Hq'], (placed_insert _ _ _ _ _ _ _ _ Hr) as [[-> ->]|Hr'].
    + done.
    + right. destruct (H1 _ _ _ _ Hr') as (? & ? & ?). lia.
    + left. destruct (H1 _ _ _ _ Hq') as (? & ? & ?). lia.
    + by apply (H2 q r oq or sq sr fq fr).
Qed.
Lemma packed_other st align lo hi offs p o f : packed st align lo hi offs -> m_fields !! p = Some f -> static_field f = negb st ->
  packed st align lo hi (<[p := Some o]> offs).
Proof.
  intros [H1 H2] Hf Hst.
  assert (Hp : forall q o' s f', placed st (<[p := Some o]> offs) q o' s f' -> placed st offs q o' s f').
  { intros q o' s f' Hq. destruct (placed_insert _ _ _ _ _ _ _ _ Hq) as [[-> _]|]; [|done].
    destruct Hq as (Hf' & Hst' & _). simplify_eq. by destruct (static_field f). }
  split; [intros * Hq; by eapply H1, Hp|]. intros * Hn Hq Hr. eapply H2; [done|by apply Hp..].
Qed.

(** *** Instance fields *)

(** The sum over the fields that have an offset. *)
Definition total (gs : list Z) (offs : list (option Z)) : Z :=
  foldr Z.add 0 (zip_with (fun g (o : option Z) => match o with Some _ => g | None => 0 end) gs offs).
Lemma total_new_offset gs offs p g o : gs !! p = Some g -> offs !! p = Some None -> total gs (<[p := Some o]> offs) = total gs offs + g.
Proof.
  unfold total. revert gs p. induction offs as [|x offs IH]; intros [|g' gs] [|p] Hg Ho; simplify_eq/=; [lia|].
  rewrite (IH gs p Hg Ho). lia.
Qed.
Lemma total_none gs n : total gs (replicate n None) = 0.
Proof. unfold total. revert gs. induction n as [|n IH]; intros [|g gs]; simpl; [done..|]. rewrite IH. lia. Qed.
Lemma total_bound gs offs : Forall (fun g => 0 <= g) gs -> 0 <= total gs offs <= foldr Z.add 0 gs.
Proof.
  unfold total. intros H. revert offs. induction H as [|g gs Hg H IH]; intros [|o offs]; simpl; try lia.
  - specialize (IH []). destruct gs; simpl in *; lia.
  - specialize (IH offs). destruct o; lia.
Qed.

Definition instance_size (f : Field) : Z := if static_field f then 0 else default 0 (fsize f compact_fields).
Definition instance_ref (f : Field) : Z := if static_field f then 0 else if is_ref_kind f then 1 else 0.
Definition instance_one (f : Field) : Z := if static_field f then 0 else 1.
Definition sum_of (g : Field -> Z) : Z := foldr Z.add 0 (map g m_fields).

(** The layout of the super class. *)
Context (u padding refs : Z) (Hu : 0 <= u).

(** The size is at most [lim] with the fields that have no offset yet. *)
Record inst_inv (lim : Z) (c : Layout) : Prop := MkInstInv {
  ii_length : length (offsets c) = length m_fields;
  ii_packed : packed false (fun _ s => s) u (m_unpadded_instance_data_size c) (offsets c);
  ii_low : u <= m_unpadded_instance_data_size c;
  ii_static : forall p f, m_fields !! p = Some f -> static_field f = true -> offsets c !! p = Some None;
  ii_bound : m_unpadded_instance_data_size c + 16 * (sum_of instance_one - total (map instance_one m_fields) (offsets c)) <= lim;
  ii_padding : m_num_field_padding_bytes c =
    ux 32 (padding + (m_unpadded_instance_data_size c - u - total (map instance_size m_fields) (offsets c)));
  ii_refs : m_num_instance_refs c = ux 32 (refs + total (map instance_ref m_fields) (offsets c));
  ii_statics : m_static_data_size c = 0;
}.
Lemma inst_inv_one (f : Field) : 0 <= instance_one f.
Proof. unfold instance_one. destruct (static_field f); lia. Qed.
Lemma inst_inv_room lim c : inst_inv lim c -> m_unpadded_instance_data_size c <= lim.
Proof.
  intros H. pose proof (ii_bound lim c H). pose proof (total_bound (map instance_one m_fields) (offsets c)) as Ht. unfold sum_of in *.
  enough (Forall (fun g => 0 <= g) (map instance_one m_fields)) by (specialize (Ht ltac:(done)); lia). apply Forall_fmap, Forall_true. intros f. apply inst_inv_one.
Qed.
(** What has an offset keeps it. *)
Definition keeps (c c' : Layout) : Prop := forall p o, offsets c !! p = Some (Some o) -> offsets c' !! p = Some (Some o).
Lemma keeps_refl c : keeps c c.
Proof. by intros p o. Qed.
Lemma keeps_trans c c' c2 : keeps c c' -> keeps c' c2 -> keeps c c2.
Proof. unfold keeps. eauto. Qed.
Definition done_with (c : Layout) (p : nat) : Prop :=
  forall f, m_fields !! p = Some f -> static_field f = false -> exists o, offsets c !! p = Some (Some o).
Lemma done_keeps c c' p : keeps c c' -> done_with c p -> done_with c' p.
Proof. intros Hk Hd f Hf Hst. destruct (Hd f Hf Hst) as [o Ho]. exists o. by apply Hk. Qed.

(** The next multiple of the size. *)
Lemma aligned_next x s : 0 <= x -> power s -> let pad := if x mod s =? 0 then 0 else s - x mod s in 0 <= pad < s /\ (s | x + pad).
Proof.
  intros Hx Hs. assert (0 < s) by (unfold power in Hs; lia). simpl. pose proof (Z.mod_pos_bound x s ltac:(lia)).
  pose proof (Z.div_mod x s ltac:(lia)). destruct (Z.eqb_spec (x mod s) 0).
  - split; [lia|]. exists (x / s). lia.
  - split; [lia|]. exists (x / s + 1). lia.
Qed.

Lemma eqm_eq w a b : a = b -> eqm w a b.
Proof. by intros ->. Qed.
Lemma step_keeps c p o : offsets c !! p = Some None -> forall q r, offsets c !! q = Some (Some r) -> set_offset c p o !! q = Some (Some r).
Proof. intros Hp q r Hq. unfold set_offset. rewrite list_lookup_insert_ne; [done|]. intros <-. by rewrite Hp in Hq. Qed.
Lemma assign_instance lim p c : lim < 2 ^ 31 -> inst_inv lim c -> (p < length m_fields)%nat -> exists c', assign_offset_to_instance_field p c = Some c' /\ inst_inv lim c' /\
  keeps c c' /\ done_with c' p /\
  (forall f s, m_fields !! p = Some f -> static_field f = false -> offsets c !! p = Some None -> fsize f compact_fields = Some s ->
    let pad := if m_unpadded_instance_data_size c mod s =? 0 then 0 else s - m_unpadded_instance_data_size c mod s in
    m_unpadded_instance_data_size c' = m_unpadded_instance_data_size c + (s + pad)).
Proof.
  intros Hlim Hc Hp. destruct (field_at p Hp) as (f & Hf & Htf). destruct (lookup_lt_is_Some_2 (offsets c) p) as [o Ho]; [by rewrite (ii_length lim c Hc)|].
  unfold FieldLayout.assign_offset_to_instance_field. rewrite Hf, Ho. cbn [mbind option_bind].
  destruct o as [o|].
  { exists c. split; [done|]. split; [done|]. split; [apply keeps_refl|]. split; [by intros f' _ _; exists o|]. by intros f' s' _ _ Hn. }
  destruct (static_field f) eqn:Hst.
  { exists c. split; [done|]. split; [done|]. split; [apply keeps_refl|].
    split; [intros f' Hf' Hst'|intros f' s' Hf' Hst' _ _]; simplify_eq; by rewrite Hst in Hst'. }
  destruct (fsize_some f compact_fields Htf) as (s & Hs & Hpow & _). rewrite Hs. cbn [mbind option_bind].
  pose proof (inst_inv_room lim c Hc) as Hroom. pose proof (ii_low lim c Hc) as Hlow.
  assert (Hone : sum_of instance_one - total (map instance_one m_fields) (set_offset c p 0) >= 0).
  { pose proof (total_bound (map instance_one m_fields) (set_offset c p 0)) as Ht. unfold sum_of.
    enough (Forall (fun g => 0 <= g) (map instance_one m_fields)) by (specialize (Ht ltac:(done)); lia).
    apply Forall_fmap, Forall_true. apply inst_inv_one. }
  assert (Htot : forall g o, total (map g m_fields) (set_offset c p o) = total (map g m_fields) (offsets c) + g f).
  { intros g o. apply total_new_offset; [|done]. change (map g m_fields) with (g <$> m_fields). by rewrite list_lookup_fmap, Hf. }
  rewrite Htot in Hone. assert (H1 : instance_one f = 1) by (unfold instance_one; by rewrite Hst).
  assert (H2 : instance_size f = s) by (unfold instance_size; by rewrite Hst, Hs).
  assert (H3 : instance_ref f = if is_ref_kind f then 1 else 0) by (unfold instance_ref; by rewrite Hst).
  pose proof (ii_bound lim c Hc) as Hb. set (x := m_unpadded_instance_data_size c) in *.
  rewrite (sx_id 32 x) by (unfold is_s; lia). rewrite (Z.rem_mod_nonneg x s) by (unfold power in Hpow; lia).
  destruct (aligned_next x s ltac:(lia) Hpow) as [Hpad Hal]. set (pad := if x mod s =? 0 then 0 else s - x mod s) in *. cbv zeta in Hpad, Hal.
  assert (Hs8 : s <= 8) by (unfold power in Hpow; lia).
  rewrite (ux_id 32 (x + (s + pad))), (ux_id 32 (x + pad)) by (unfold is_u; lia).
  eexists. split; [reflexivity|]. split; [|split_and!].
  - split; cbn [m_unpadded_instance_data_size m_num_field_padding_bytes m_num_instance_refs m_static_data_size offsets]; fold x.
    + unfold set_offset. by rewrite length_insert, (ii_length lim c Hc).
    + replace (x + (s + pad)) with ((x + pad) + s) by lia. apply (packed_insert false _ u x _ p (x + pad) s f); try done; try lia. apply (ii_packed lim c Hc).
    + lia.
    + intros q h Hq Hsq. unfold set_offset. rewrite list_lookup_insert_ne; [by eapply (ii_static lim c Hc)|]. intros <-. rewrite Hf in Hq. simplify_eq. by rewrite Hst in Hsq.
    + rewrite Htot. lia.
    + rewrite (ii_padding lim c Hc), Htot. apply eqm_ux_iff. rewrite eqm_ux. fold x. apply eqm_eq. lia.
    + rewrite (ii_refs lim c Hc), Htot, H3. destruct (is_ref_kind f); [|f_equal; lia]. apply eqm_ux_iff. rewrite eqm_ux. apply eqm_eq. lia.
    + apply (ii_statics lim c Hc).
  - intros q r. by apply step_keeps.
  - intros f' _ _. exists (x + pad). cbn [offsets]. unfold set_offset. apply list_lookup_insert_eq. by rewrite (ii_length lim c Hc).
  - intros f' s' Hf' _ _ Hs'. simplify_eq. done.
Qed.

Lemma assign_all_ok lim ptrs c : lim < 2 ^ 31 -> inst_inv lim c -> Forall in_range ptrs -> exists c', assign_all ptrs c = Some c' /\ inst_inv lim c' /\
  keeps c c' /\ forall p, p ∈ ptrs -> done_with c' p.
Proof.
  intros Hlim. revert c. induction ptrs as [|p ptrs IH]; intros c Hc Hr; cbn [FieldLayout.assign_all].
  { exists c. split; [done|]. split; [done|]. split; [apply keeps_refl|]. intros p Hp. by apply elem_of_nil in Hp. }
  apply Forall_cons_1 in Hr as [Hp Hr]. destruct (assign_instance lim p c Hlim Hc Hp) as (c1 & -> & H1 & H2 & H3 & _). cbn [mbind option_bind].
  destruct (IH c1 H1 Hr) as (c2 & H4 & H5 & H6 & H7). exists c2. split; [done|]. split; [done|]. split; [by eapply keeps_trans|].
  intros q Hq. apply elem_of_cons in Hq as [->|Hq]; [by eapply done_keeps|auto].
Qed.

Lemma field_to_allocate_ok ptrs pad c k : Forall in_range ptrs -> (m_num_static_fields + k <= length ptrs)%nat -> length (offsets c) = length m_fields ->
  exists r, field_to_allocate ptrs pad c k = Some r /\
    match r with
    | None => True
    | Some j => (j < k)%nat /\ exists p f s, ptrs !! (m_num_static_fields + j)%nat = Some p /\ m_fields !! p = Some f /\ static_field f = false /\
        offsets c !! p = Some None /\ fsize f compact_fields = Some s /\ s <= pad
    end.
Proof.
  intros Hr Hk Hlen. induction k as [|k IH]; cbn [FieldLayout.field_to_allocate]; [by exists None|].
  destruct (lookup_lt_is_Some_2 ptrs (m_num_static_fields + k)) as [p Hp]; [lia|]. rewrite Hp. cbn [mbind option_bind].
  pose proof (Forall_lookup_1 _ _ _ _ Hr Hp) as Hpr. unfold in_range in Hpr.
  destruct (field_at p Hpr) as (f & Hf & Htf). rewrite Hf. cbn [mbind option_bind].
  destruct (lookup_lt_is_Some_2 (offsets c) p) as [o Ho]; [lia|]. rewrite Ho. cbn [mbind option_bind].
  destruct (IH ltac:(lia)) as (r & IHr & IHs).
  assert (Hskip : exists r, field_to_allocate ptrs pad c k = Some r /\
    match r with
    | None => True
    | Some j => (j < S k)%nat /\ exists p f s, ptrs !! (m_num_static_fields + j)%nat = Some p /\ m_fields !! p = Some f /\ static_field f = false /\
        offsets c !! p = Some None /\ fsize f compact_fields = Some s /\ s <= pad
    end).
  { exists r. split; [done|]. destruct r; [|done]. destruct IHs as [? ?]. split; [lia|done]. }
  destruct o as [o|]; [done|]. destruct (static_field f) eqn:Hst; [done|].
  destruct (fsize_some f compact_fields Htf) as (s & Hs & _). rewrite Hs. cbn [mbind option_bind].
  destruct (Z.ltb_spec pad s); [by exists None|]. exists (Some k). split; [done|]. split; [lia|]. by exists p, f, s.
Qed.

Definition pad4 (x : Z) : Z := if 0 <? x mod 4 then 4 - x mod 4 else 0.
Lemma pad4_range x : 0 <= pad4 x <= 3.
Proof. unfold pad4. pose proof (Z.mod_pos_bound x 4 ltac:(lia)). destruct (Z.ltb_spec 0 (x mod 4)); lia. Qed.
(** A field that is not bigger than what is to fill leaves less to fill. *)
Lemma pad4_less x s : 0 <= x -> power s -> s <= pad4 x -> pad4 (x + (s + if x mod s =? 0 then 0 else s - x mod s)) < pad4 x.
Proof.
  intros Hx Hs. unfold pad4, power in *. intros Hle. pose proof (Z.mod_pos_bound x 4 ltac:(lia)).
  assert (Hcase : s = 1 \/ s = 2) by (destruct (Z.ltb_spec 0 (x mod 4)); lia). destruct Hcase as [-> | ->];
    repeat match goal with
    | H : context [if ?a <? ?b then _ else _] |- _ => destruct (Z.ltb_spec a b)
    | |- context [if ?a =? ?b then _ else _] => destruct (Z.eqb_spec a b)
    | |- context [if ?a <? ?b then _ else _] => destruct (Z.ltb_spec a b)
    end; Z.div_mod_to_equations; lia.
Qed.

Lemma inst_inv_more lim lim' c : lim <= lim' -> inst_inv lim c -> inst_inv lim' c.
Proof. intros H [H1 H2 H3 H4 H5 H6 H7 H8]. split; [done..|lia|done|done|done]. Qed.
Lemma inst_inv_fill lim c pad : 0 <= pad <= 3 -> lim + 4 < 2 ^ 31 -> inst_inv lim c -> inst_inv (lim + 4)
  (MkLayout (ux 32 (m_unpadded_instance_data_size c + pad)) (ux 32 (m_num_field_padding_bytes c + pad)) (m_num_instance_refs c)
     (m_static_data_size c) (offsets c)).
Proof.
  intros Hpad Hlim Hc. pose proof (inst_inv_room lim c Hc). pose proof (ii_low lim c Hc). pose proof (ii_bound lim c Hc) as Hb.
  rewrite ux_id by (unfold is_u; lia).
  split; cbn [m_unpadded_instance_data_size m_num_field_padding_bytes m_num_instance_refs m_static_data_size offsets]; try apply Hc; try lia.
  - eapply packed_more; [|apply (ii_packed lim c Hc)]. lia.
  - rewrite (ii_padding lim c Hc). apply eqm_ux_iff. rewrite eqm_ux. apply eqm_eq. lia.
Qed.

Lemma fill_loop_ok lim fuel ptrs k c pad : lim + 4 < 2 ^ 31 -> Forall in_range ptrs -> (m_num_static_fields + k <= length ptrs)%nat ->
  inst_inv lim c -> pad = pad4 (m_unpadded_instance_data_size c) -> pad < Z.of_nat fuel ->
  exists c', fill_loop fuel ptrs k pad c = Some c' /\ inst_inv (lim + 4) c' /\ keeps c c'.
Proof.
  intros Hlim Hr. revert k c pad. induction fuel as [|fuel IH]; intros k c pad Hk Hc Hpad Hfuel.
  { pose proof (pad4_range (m_unpadded_instance_data_size c)). lia. }
  cbn [FieldLayout.fill_loop]. destruct (Z.leb_spec pad 0).
  { exists c. split; [done|]. split; [|apply keeps_refl]. eapply inst_inv_more; [|done]. lia. }
  pose proof (pad4_range (m_unpadded_instance_data_size c)) as Hrange.
  destruct (field_to_allocate_ok ptrs pad c k Hr Hk (ii_length lim c Hc)) as (r & -> & Hs). cbn [mbind option_bind].
  destruct r as [j|].
  - destruct Hs as (Hj & p & f & s & Hp & Hf & Hst & Ho & Hs & Hle). rewrite Hp. cbn [mbind option_bind].
    pose proof (Forall_lookup_1 _ _ _ _ Hr Hp) as Hpr.
    destruct (assign_instance lim p c ltac:(lia) Hc Hpr) as (c1 & -> & H1 & H2 & H3 & H4). cbn [mbind option_bind].
    specialize (H4 f s Hf Hst Ho Hs). cbv zeta in H4.
    destruct (fsize_some f compact_fields) as (s' & Hs' & Hpow & _).
    { destruct (field_at p Hpr) as (f' & Hf' & Htf). by simplify_eq. }
    assert (s' = s) as -> by congruence.
    pose proof (pad4_less (m_unpadded_instance_data_size c) s) as Hless. rewrite <- H4 in Hless. pose proof (ii_low lim c Hc).
    destruct (IH j c1 (pad4 (m_unpadded_instance_data_size c1))) as (c2 & H5 & H6 & H7); [lia|done|done| |].
    { rewrite Hpad in Hle. specialize (Hless ltac:(lia) Hpow Hle). lia. }
    exists c2. split; [exact H5|]. split; [done|]. by eapply keeps_trans.
  - eexists. split; [reflexivity|]. split; [|by intros q o]. apply inst_inv_fill; [lia|done|done].
Qed.

Lemma assign_instance_fields_ok lim ptrs c : lim + 4 < 2 ^ 31 -> Forall in_range ptrs -> length ptrs = length m_fields -> inst_inv lim c ->
  exists c', assign_offsets_to_instance_fields POINTER64 compact_fields sort_fields REF_SIZE m_fields m_num_static_fields ptrs c = Some c' /\
    inst_inv (lim + 4) c' /\ forall p, p ∈ drop m_num_static_fields ptrs -> done_with c' p.
Proof.
  intros Hlim Hr Hlen Hc. unfold assign_offsets_to_instance_fields.
  assert (Hrd : Forall in_range (drop m_num_static_fields ptrs)) by by apply Forall_drop.
  destruct (Nat.eqb_spec (length m_fields) 0) as [Hz|_].
  { exists c. split; [done|]. split; [eapply inst_inv_more; [|done]; lia|]. rewrite Hz in Hlen. apply length_zero_iff_nil in Hlen as ->.
    rewrite drop_nil. intros p Hp. by apply elem_of_nil in Hp. }
  assert (Hfill : exists c1, (if sort_fields && compact_fields && negb (m_unpadded_instance_data_size c mod 4 =? 0) then
      fill_loop 5 ptrs (length m_fields - m_num_static_fields) (4 - m_unpadded_instance_data_size c mod 4) c else Some c) = Some c1 /\
      inst_inv (lim + 4) c1).
  { destruct (sort_fields && compact_fields); cbn [andb]; [|exists c; split; [done|]; eapply inst_inv_more; [|done]; lia].
    pose proof (Z.mod_pos_bound (m_unpadded_instance_data_size c) 4 ltac:(lia)).
    destruct (Z.eqb_spec (m_unpadded_instance_data_size c mod 4) 0); cbn [negb]; [exists c; split; [done|]; eapply inst_inv_more; [|done]; lia|].
    destruct (fill_loop_ok lim 5 ptrs (length m_fields - m_num_static_fields) c (4 - m_unpadded_instance_data_size c mod 4)) as (c1 & H1 & H2 & _);
      [done|done|lia|done| |lia|by exists c1].
    unfold pad4. destruct (Z.ltb_spec 0 (m_unpadded_instance_data_size c mod 4)); lia. }
  destruct Hfill as (c1 & -> & H1). cbn [mbind option_bind].
  destruct (assign_all_ok (lim + 4) (drop m_num_static_fields ptrs) c1 Hlim H1 Hrd) as (c2 & H2 & H3 & _ & H4).
  exists c2. by split.
Qed.

(** *** Static fields *)

(** On 32-bit machines only [double]s are aligned to eight bytes. *)
Definition static_align (f : Field) (s : Z) : Z := if POINTER64 || is_char (descriptor_char f) "D"%char then s else Z.min s 4.
(** The next fields fit where the static data ends. *)
Definition fits (m : Z) (ptrs : list nat) : Prop :=
  if compact_fields then
    StronglySorted (ordered (weight false)) ptrs /\
    Forall (fun p => forall f s, m_fields !! p = Some f -> fsize f true = Some s -> (s | m)) ptrs
  else (4 | m).
Lemma power_divide a b : power a -> power b -> a <= b -> (a | b).
Proof. unfold power. intros Ha Hb H. exists (b / a). destruct Ha as [->|[->|[->| ->]]], Hb as [->|[->|[->| ->]]]; done || lia. Qed.
Lemma double_size f : is_char (descriptor_char f) "D"%char = true -> fsize f compact_fields = Some 8.
Proof. unfold is_char. intros H. apply Ascii.eqb_eq in H. unfold sizeof_field_type. by rewrite H. Qed.
Lemma weight_sizes p q f h s t : m_fields !! p = Some f -> m_fields !! q = Some h -> fsize f true = Some s -> fsize h true = Some t ->
  ordered (weight false) p q -> t <= s.
Proof.
  unfold ordered, weight. intros -> ->. unfold field_size. cbn [andb]. intros -> ->. simpl.
  destruct (is_ref_kind f), (is_ref_kind h); lia.
Qed.

(** Where [assign_static] puts a field: [off], given [m] bytes before. *)
Lemma static_offset f s m ptrs p : fits m (p :: ptrs) -> 0 <= m -> m_fields !! p = Some f -> typed_field f -> fsize f compact_fields = Some s ->
  let aligned := if POINTER64 then s =? 8 else is_char (descriptor_char f) "D"%char in
  let off := if aligned && negb (m mod 8 =? 0) then m + 4 else m in
  (aligned && negb (off mod 8 =? 0) = false) /\ m <= off <= m + 4 /\ (static_align f s | off) /\ fits (off + s) ptrs.
Proof.
  intros Hfits Hm Hf Htf Hs. destruct (fsize_some f compact_fields Htf) as (s' & Hs' & Hpow & Hnc). assert (s' = s) as -> by congruence. cbv zeta.
  assert (Hal8 : (if POINTER64 then s =? 8 else is_char (descriptor_char f) "D"%char) = true -> s = 8).
  { pose proof (double_size f) as Hd. rewrite Hs in Hd. destruct POINTER64; [lia|]. intros Hc. specialize (Hd Hc). congruence. }
  unfold fits in *. destruct compact_fields eqn:Hcf.
  - destruct Hfits as [Hsort Hdiv]. apply Forall_cons_1 in Hdiv as [Hdp Hdiv]. specialize (Hdp f s Hf Hs).
    apply StronglySorted_inv in Hsort as [Hsort Hord].
    assert (Hoff : (if (if POINTER64 then s =? 8 else is_char (descriptor_char f) "D"%char) && negb (m mod 8 =? 0) then m + 4 else m) = m /\
      (if POINTER64 then s =? 8 else is_char (descriptor_char f) "D"%char) && negb (m mod 8 =? 0) = false).
    { destruct (if POINTER64 then _ else _); [|done]. rewrite (Hal8 eq_refl) in Hdp. apply Z.mod_divide in Hdp; [|lia]. by rewrite Hdp. }
    destruct Hoff as [-> Hoff]. split; [done|]. split; [lia|]. split.
    + unfold static_align. destruct (POINTER64 || _); [done|]. apply (Z.divide_trans _ s); [|done].
      apply power_divide; [|done|lia]. unfold power in *. lia.
    + split; [done|]. apply Forall_forall. intros q Hq h t Hh Ht. rewrite Forall_forall in Hord, Hdiv.
      apply Z.divide_add_r; [by eapply Hdiv|]. apply power_divide; [|done|].
      * destruct (fsize_some h true) as (t' & Ht' & Hpt & _); [|congruence].
        destruct (field_at q) as (h' & Hh' & Hth'); [by eapply lookup_lt_Some|congruence].
      * by apply (weight_sizes p q f h s t Hf Hh Hs Ht), Hord.
  - specialize (Hnc eq_refl). destruct Hfits as [k Hk].
    assert (Hs4 : (4 | s)) by (destruct Hnc as [-> | ->]; [by exists 1|by exists 2]).
    destruct (if POINTER64 then s =? 8 else is_char (descriptor_char f) "D"%char) eqn:Hal; cbn [andb].
    + rewrite (Hal8 eq_refl) in *. assert (Hoff : (8 | if negb (m mod 8 =? 0) then m + 4 else m) /\ m <= (if negb (m mod 8 =? 0) then m + 4 else m) <= m + 4).
      { destruct (Z.eqb_spec (m mod 8) 0) as [H0|H0]; cbn [negb]; (split; [|lia]); apply Z.mod_divide; [lia|lia|lia|]. Z.div_mod_to_equations; lia. }
      destruct Hoff as [Hoff ?]. split; [apply Z.mod_divide in Hoff; [by rewrite Hoff|lia]|]. split; [done|]. split.
      * unfold static_align. destruct (POINTER64 || _); [done|]. apply (Z.divide_trans _ 8); [by exists 2|done].
      * apply Z.divide_add_r; [|by exists 2]. apply (Z.divide_trans _ 8); [by exists 2|done].
    + split; [done|]. split; [lia|]. split; [|apply Z.divide_add_r; [by exists k|done]].
      unfold static_align. destruct Hnc as [-> | ->]; [destruct (POINTER64 || _); by exists k|].
      destruct POINTER64; [done|]. cbn [orb]. rewrite Hal. by exists k.
Qed.

Record static_inv (c0 : Layout) (lim : Z) (n : nat) (c : Layout) : Prop := MkStaticInv {
  si_length : length (offsets c) = length m_fields;
  si_packed : packed true static_align 0 (m_static_data_size c) (offsets c);
  si_instance : packed false (fun _ s => s) u (m_unpadded_instance_data_size c0) (offsets c);
  si_bound : 0 <= m_static_data_size c /\ m_static_data_size c + 12 * Z.of_nat n <= lim;
  si_same : m_unpadded_instance_data_size c = m_unpadded_instance_data_size c0 /\
    m_num_field_padding_bytes c = m_num_field_padding_bytes c0 /\ m_num_instance_refs c = m_num_instance_refs c0;
}.
Definition has_offset (c : Layout) (p : nat) : Prop := exists o, offsets c !! p = Some (Some o).

Lemma assign_statics_ok c0 lim ptrs c : lim < 2 ^ 31 -> static_inv c0 lim (length ptrs) c -> fits (m_static_data_size c) ptrs ->
  Forall (fun p => (p < m_num_static_fields)%nat) ptrs -> exists c', assign_statics ptrs c = Some c' /\ static_inv c0 lim 0 c' /\
  (forall p, has_offset c p -> has_offset c' p) /\ Forall (has_offset c') ptrs.
Proof.
  intros Hlim. revert c. induction ptrs as [|p ptrs IH]; intros c Hc Hfits Hr; cbn [FieldLayout.assign_statics].
  { by exists c. }
  apply Forall_cons_1 in Hr as [Hp Hr]. destruct (field_at p ltac:(lia)) as (f & Hf & Htf).
  pose proof (Hparted p f Hf) as Hst. rewrite (proj2 (Nat.ltb_lt _ _) Hp) in Hst.
  destruct (fsize_some f compact_fields Htf) as (s & Hs & Hpow & _). destruct (si_bound _ _ _ _ Hc) as [Hm Hb]. cbn [length] in Hb.
  destruct (static_offset f s _ ptrs p Hfits Hm Hf Htf Hs) as (Hok & Hoff & Hal & Hnext).
  unfold FieldLayout.assign_static. rewrite Hf. cbn [mbind option_bind]. rewrite Hst. cbn [negb]. rewrite Hs. cbn [mbind option_bind].
  unfold power in Hpow. rewrite (ux_id 32 (m_static_data_size c + 4)) by (unfold is_u; lia).
  set (off := if (if POINTER64 then s =? 8 else is_char (descriptor_char f) "D"%char) && negb (m_static_data_size c mod 8 =? 0)
    then m_static_data_size c + 4 else m_static_data_size c) in *. rewrite Hok. rewrite (ux_id 32 (off + s)) by (unfold is_u; lia). cbn [mbind option_bind].
  set (c1 := MkLayout _ _ _ _ _).
  assert (Hc1 : static_inv c0 lim (length ptrs) c1).
  { split; subst c1; cbn [m_unpadded_instance_data_size m_num_field_padding_bytes m_num_instance_refs m_static_data_size offsets].
    - unfold set_offset. rewrite length_insert. apply (si_length _ _ _ _ Hc).
    - eapply packed_insert; [apply (si_packed _ _ _ _ Hc)|done|done|lia|lia|lia|done].
    - eapply packed_other; [apply (si_instance _ _ _ _ Hc)|done|done].
    - lia.
    - apply (si_same _ _ _ _ Hc). }
  assert (Hkeep : forall q, has_offset c q \/ q = p -> has_offset c1 q).
  { intros q Hq. unfold has_offset, c1, set_offset. cbn [offsets]. destruct (decide (p = q)) as [<-|Hn].
    - exists off. apply list_lookup_insert_eq. rewrite (si_length _ _ _ _ Hc). lia.
    - rewrite list_lookup_insert_ne by done. by destruct Hq as [Hq| ->]. }
  destruct (IH c1 Hc1 Hnext Hr) as (c2 & H1 & H2 & H3 & H4). exists c2. split; [done|]. split; [done|]. split; [auto|].
  constructor; auto.
Qed.

(** *** The whole layout *)

Definition final (c : Layout) : Prop :=
  (forall p, in_range p -> has_offset c p) /\
  packed false (fun _ s => s) u (m_unpadded_instance_data_size c) (offsets c) /\
  packed true static_align 0 (m_static_data_size c) (offsets c) /\
  m_num_field_padding_bytes c = ux 32 (padding + (m_unpadded_instance_data_size c - u - sum_of instance_size)) /\
  m_num_instance_refs c = ux 32 (refs + sum_of instance_ref) /\
  u <= m_unpadded_instance_data_size c < 2 ^ 31 /\ 0 <= m_static_data_size c < 2 ^ 31.

Lemma total_all g (offs : list (option Z)) : (forall f, static_field f = true -> g f = 0) -> length offs = length m_fields ->
  (forall p f, m_fields !! p = Some f -> static_field f = false -> exists o, offs !! p = Some (Some o)) -> total (map g m_fields) offs = sum_of g.
Proof.
  unfold total, sum_of. clear. intros Hg. revert offs. induction m_fields as [|f fs IH]; intros [|o offs] Hlen Hall; simplify_eq/=; [done|].
  rewrite IH; [|done|intros p h; apply (Hall (S p) h)]. destruct (static_field f) eqn:Hst.
  - rewrite (Hg f Hst). by destruct o.
  - destruct (Hall 0%nat f eq_refl Hst) as [o' Ho]. by simplify_eq/=.
Qed.
Lemma bubble_part doing (l : list nat) : Forall in_range l -> exists l',
  (if sort_fields then s ← bubbleSort POINTER64 REF_SIZE m_fields doing l; Some s else Some l) = Some l' /\ Permutation l l' /\
  (sort_fields = true -> StronglySorted (ordered (weight doing)) l').
Proof.
  intros Hl. destruct sort_fields; [|by exists l]. destruct (bubbleSort_spec doing l Hl) as (l' & -> & H1 & H2). by exists l'.
Qed.

Context (Hopt : compact_fields = true -> sort_fields = true).
Context (Hsmall : u + 16 * Z.of_nat (length m_fields) + 4 < 2 ^ 31).
Abbreviation assign_offsets_to_fields := (assign_offsets_to_fields POINTER64 compact_fields sort_fields REF_SIZE m_fields m_num_static_fields).

Lemma all_pointers : exists A B, seq 0 (length m_fields) = A ++ B /\ length A = m_num_static_fields /\
  Forall (fun p => (p < m_num_static_fields)%nat) A /\ Forall in_range A /\ Forall in_range B /\ (forall p, in_range p -> if (p <? m_num_static_fields)%nat then p ∈ A else p ∈ B).
Proof.
  exists (seq 0 m_num_static_fields), (seq m_num_static_fields (length m_fields - m_num_static_fields)).
  assert (Heq : seq 0 (length m_fields) = seq 0 m_num_static_fields ++ seq m_num_static_fields (length m_fields - m_num_static_fields)).
  { pose proof (seq_app m_num_static_fields (length m_fields - m_num_static_fields) 0) as Happ. rewrite Nat.add_0_l in Happ. rewrite <- Happ. f_equal. lia. }
  split; [done|]. split; [apply length_seq|]. unfold in_range. rewrite !list.Forall_forall.
  split; [intros p Hp; apply elem_of_seq in Hp; lia|]. split; [intros p Hp; apply elem_of_seq in Hp; lia|].
  split; [intros p Hp; apply elem_of_seq in Hp; lia|]. intros p Hp. destruct (Nat.ltb_spec p m_num_static_fields); rewrite elem_of_seq; lia.
Qed.
Lemma new_layout_inv : inst_inv (u + 16 * Z.of_nat (length m_fields)) (new_layout u (ux 32 padding) (ux 32 refs) (length m_fields)).
Proof.
  assert (Hone : 0 <= sum_of instance_one <= Z.of_nat (length m_fields)).
  { unfold sum_of. clear. induction m_fields as [|f fs IH]; simpl; [lia|]. unfold instance_one at 1 3. destruct (static_field f); lia. }
  split; cbn [new_layout m_unpadded_instance_data_size m_num_field_padding_bytes m_num_instance_refs m_static_data_size offsets].
  - apply length_replicate.
  - apply packed_empty.
  - lia.
  - intros p f Hf _. apply lookup_replicate_2. by eapply lookup_lt_Some.
  - rewrite total_none. lia.
  - rewrite total_none. f_equal. lia.
  - rewrite total_none. f_equal. lia.
  - done.
Qed.
Lemma instance_offsets lim c : inst_inv lim c -> (forall p, in_range p -> (m_num_static_fields <= p)%nat -> done_with c p) ->
  m_num_field_padding_bytes c = ux 32 (padding + (m_unpadded_instance_data_size c - u - sum_of instance_size)) /\
  m_num_instance_refs c = ux 32 (refs + sum_of instance_ref).
Proof.
  intros Hc Hd. assert (Hall : forall p f, m_fields !! p = Some f -> static_field f = false -> exists o, offsets c !! p = Some (Some o)).
  { intros p f Hf Hst. refine (Hd p _ _ f Hf Hst); [by eapply lookup_lt_Some|]. rewrite (Hparted p f Hf) in Hst. by apply Nat.ltb_ge in Hst. }
  rewrite (ii_padding _ c Hc), (ii_refs _ c Hc). rewrite !total_all; [done| |apply Hc|done| |apply Hc|done]; intros f Hf.
  - unfold instance_ref. by rewrite Hf.
  - unfold instance_size. by rewrite Hf.
Qed.
Lemma static_start lim c : 0 <= lim -> inst_inv lim c -> static_inv c (12 * Z.of_nat m_num_static_fields) m_num_static_fields c.
Proof.
  intros Hlim Hc. split; [apply Hc| |apply Hc|rewrite (ii_statics _ c Hc); lia|done]. rewrite (ii_statics _ c Hc).
  assert (Hno : forall p o s f, ~ placed true (offsets c) p o s f).
  { intros p o s f (Hf & Hst & Ho & _). rewrite (ii_static _ c Hc p f Hf Hst) in Ho. done. }
  split; [intros p o s f H|intros p q o o' s s' f f' _ H _]; by destruct (Hno _ _ _ _ H).
Qed.
Lemma fits_start l : (sort_fields = true -> StronglySorted (ordered (weight false)) l) -> fits 0 l.
Proof.
  intros Hs. unfold fits. destruct compact_fields eqn:Hc; [|by exists 0]. split; [auto|]. apply Forall_true. intros p f s _ _. by exists 0.
Qed.

Lemma layout_ok : exists c', assign_offsets_to_fields (new_layout u (ux 32 padding) (ux 32 refs) (length m_fields)) = Some c' /\ final c'.
Proof.
  destruct all_pointers as (A & B & Hseq & HA & HAs & HAr & HBr & Hin). unfold FieldLayout.assign_offsets_to_fields. rewrite Hseq.
  rewrite !(drop_app_length' A B), !(take_app_length' A B) by done.
  destruct (bubble_part true B HBr) as (B' & HB' & HBp & _).
  assert (HBr' : Forall in_range B') by by rewrite <- HBp.
  assert (E1 : (if sort_fields then s ← bubbleSort POINTER64 REF_SIZE m_fields true B; Some (A ++ s) else Some (A ++ B)) = Some (A ++ B')).
  { destruct sort_fields; [|by simplify_eq]. destruct (bubbleSort _ _ _ _ _); by simplify_eq/=. }
  rewrite E1. cbn [mbind option_bind].
  assert (Hlen : length (A ++ B') = length m_fields) by (rewrite length_app, <- HBp, <- length_app, <- Hseq; apply length_seq).
  destruct (assign_instance_fields_ok (u + 16 * Z.of_nat (length m_fields)) (A ++ B')
    (new_layout u (ux 32 padding) (ux 32 refs) (length m_fields)) Hsmall) as (c1 & -> & H1 & H2); [by apply Forall_app|done|apply new_layout_inv|].
  cbn [mbind option_bind]. rewrite (drop_app_length' A B') in * by done. rewrite (take_app_length' A B') by done.
  destruct (bubble_part false A HAr) as (A' & HA' & HAp & HAsort).
  assert (E2 : (if sort_fields then s ← bubbleSort POINTER64 REF_SIZE m_fields false A; Some (s ++ B') else Some (A ++ B')) = Some (A' ++ B')).
  { clear -HA'. destruct sort_fields; [|by simplify_eq]. destruct (bubbleSort _ _ _ _ _); by simplify_eq/=. }
  rewrite E2. cbn [mbind option_bind]. unfold assign_offsets_to_static_fields.
  assert (HlA : length A' = m_num_static_fields) by by rewrite <- HAp.
  rewrite (take_app_length' A' B') by done.
  destruct (assign_statics_ok c1 (12 * Z.of_nat m_num_static_fields) A' c1) as (c2 & -> & H3 & H4 & H5);
    [lia|rewrite HlA; by eapply static_start; [|done]; lia|rewrite (ii_statics _ c1 H1); by apply fits_start|by rewrite <- HAp|].
  assert (Hinst : forall p, in_range p -> (m_num_static_fields <= p)%nat -> done_with c1 p).
  { intros p Hp Hge. apply H2. rewrite <- HBp. pose proof (Hin p Hp) as Hi. by rewrite (proj2 (Nat.ltb_ge _ _) Hge) in Hi. }
  destruct (instance_offsets _ c1 H1 Hinst) as [Hpad Hrefs]. destruct (si_same _ _ _ _ H3) as (Hs1 & Hs2 & Hs3).
  exists c2. split; [done|]. unfold final. rewrite Hs1, Hs2, Hs3.
  pose proof (si_bound _ _ _ _ H3). pose proof (ii_low _ c1 H1). pose proof (inst_inv_room _ c1 H1).
  split; [|split; [apply (si_instance _ _ _ _ H3)|split; [apply (si_packed _ _ _ _ H3)|split_and!; done || lia]]].
  intros p Hp. pose proof (Hin p Hp) as Hi. destruct (Nat.ltb_spec p m_num_static_fields) as [Hlt|Hge].
  - rewrite list.Forall_forall in H5. apply H5. by rewrite <- HAp.
  - apply H4. destruct (field_at p Hp) as (f & Hf & _). apply (Hinst p Hp Hge f Hf). rewrite (Hparted p f Hf). by apply Nat.ltb_ge.
Qed.
End layout.

(** ** Sizes *)

Lemma land_align k x : 0 <= k <= 32 -> is_u 32 x -> Z.land x (2 ^ 32 - 1 - (2 ^ k - 1)) = x / 2 ^ k * 2 ^ k.
Proof.
  intros Hk Hx. replace (2 ^ 32 - 1 - (2 ^ k - 1)) with (Z.shiftl (Z.ones (32 - k)) k).
  2:{ rewrite Z.shiftl_mul_pow2, Z.ones_equiv, <- Z.sub_1_r, Z.mul_sub_distr_r, <- Z.pow_add_r by lia. replace (32 - k + k) with 32 by lia. lia. }
  rewrite <- Z.shiftr_div_pow2, <- Z.shiftl_mul_pow2 by lia. apply Z.bits_inj'. intros i Hi. rewrite Z.land_spec, !Z.shiftl_spec by done.
  destruct (Z.ltb_spec i k); [rewrite !(Z.testbit_neg_r _ (i - k)) by lia; by rewrite andb_false_r|].
  rewrite Z.shiftr_spec by lia. replace (i - k + k) with i by lia. destruct (Z.ltb_spec i 32).
  - rewrite Z.ones_spec_low by lia. apply andb_true_r.
  - replace (Z.testbit x i) with false; [done|]. symmetry. destruct (Z.eqb_spec x 0) as [->|]; [apply Z.bits_0|].
    apply Z.bits_above_log2; [unfold is_u in Hx; lia|]. apply Z.log2_lt_pow2; [unfold is_u in Hx; lia|].
    apply Z.lt_le_trans with (2 ^ 32); [apply Hx|]. apply Z.pow_le_mono_r; lia.
Qed.
Lemma alignment_pow POINTER64 : GC_OBJECT_ALIGNMENT POINTER64 = 2 ^ (if POINTER64 then 3 else 2).
Proof. by destruct POINTER64. Qed.
Lemma first_elem POINTER64 tag shift : 0 <= shift <= 3 -> 0 < first_elem_offset POINTER64 tag shift <= 32 /\ (2 ^ shift | first_elem_offset POINTER64 tag shift).
Proof.
  intros Hs. assert (shift = 0 \/ shift = 1 \/ shift = 2 \/ shift = 3) as [->|[->|[->| ->]]] by lia; destruct POINTER64, tag;
    (split; [by vm_compute|apply Z.mod_divide; [done|by vm_compute]]).
Qed.

(** C31: The size of an array of any 32-bit length, of elements of 1, 2, 4 or 8 bytes. The
    first element is aligned. If the offset of the first element, the bytes of one element
    more than there are and the alignment of objects add up to at most 2^30, the size is
    the least multiple of the alignment of objects with room for the elements, and below
    2^30; otherwise, and for a negative length, it is zero. *)
Theorem array_size_exact POINTER64 tag shift length : 0 <= shift <= 3 -> is_s 32 length ->
  let first := first_elem_offset POINTER64 tag shift in
  let align := GC_OBJECT_ALIGNMENT POINTER64 in
  let size := calculate_array_size POINTER64 tag shift length in
  (2 ^ shift | first) /\
  if (0 <=? length) && (first + (length + 1) * 2 ^ shift + align <=? 2 ^ 30)
  then first + length * 2 ^ shift <= size < first + length * 2 ^ shift + align /\ (align | size) /\ size < 2 ^ 30
  else size = 0.
Proof.
  intros Hs Hl. cbv zeta. destruct (first_elem POINTER64 tag shift Hs) as [Hf Hdiv]. split; [done|]. unfold calculate_array_size.
  set (first := first_elem_offset POINTER64 tag shift) in *. destruct (Z.leb_spec 0 length) as [H0|H0]; cbn [andb]; [|by rewrite (proj2 (Z.ltb_lt _ _))].
  rewrite (proj2 (Z.ltb_ge length 0)) by lia.
  assert (Ha : 4 <= GC_OBJECT_ALIGNMENT POINTER64 <= 8) by (destruct POINTER64; done).
  unfold NEXT_TO_HIGH_BIT_SET_MASK. unfold is_s in Hl. rewrite (ux_id 32 (_ - _ - _)), (ux_id 32 length) by (unfold is_u; lia).
  rewrite Z.shiftr_div_pow2, Z.shiftl_mul_pow2 by lia. assert (Hp : 0 < 2 ^ shift) by lia.
  destruct (Z.leb_spec ((2 ^ 30 - GC_OBJECT_ALIGNMENT POINTER64 - first) / 2 ^ shift) length) as [Hle|Hgt].
  - pose proof (Z.mul_succ_div_gt (2 ^ 30 - GC_OBJECT_ALIGNMENT POINTER64 - first) (2 ^ shift) Hp). rewrite (proj2 (Z.leb_gt _ _)) by nia. done.
  - pose proof (Z.mul_div_le (2 ^ 30 - GC_OBJECT_ALIGNMENT POINTER64 - first) (2 ^ shift) Hp) as Hd.
    assert (Hroom : length * 2 ^ shift <= 2 ^ 30 - GC_OBJECT_ALIGNMENT POINTER64 - first - 1) by nia.
    rewrite (proj2 (Z.leb_le _ _)) by nia.
    assert (0 <= length * 2 ^ shift) by nia. set (n := length * 2 ^ shift) in *.
    rewrite (sx_id 32 n) by (unfold is_s; lia). rewrite (ux_id 32 (first + n)) by (unfold is_u; lia).
    rewrite (ux_id 32 (first + n + _)) by (unfold is_u; lia). rewrite alignment_pow in *. rewrite land_align by (unfold is_u; destruct POINTER64; lia).
    set (al := 2 ^ (if POINTER64 then 3 else 2)) in *. pose proof (Z.div_mod (first + n + (al - 1)) al ltac:(lia)).
    pose proof (Z.mod_pos_bound (first + n + (al - 1)) al ltac:(lia)).
    split; [lia|]. split; [by exists ((first + n + (al - 1)) / al)|lia].
Qed.
