(* ===== verification/StaticData.v ===== *)
(** * The values of static final fields: step 20 of [Class::prepare]

    The static data of a class is a block of bytes.  The outer [None] is a failed assertion,
    a [DIE], or a read of bytes of a union that were never written; the inner one is the
    [false] the code returns when a string cannot be made. *)
From Stdlib Require Import Ascii.
From stdpp Require Import strings.
From S2P Require Import Prelude ByteReader VerTypes ClassNames ConstPool Annotations ClassMembers FieldLayout.

(** The bytes of a word, the lowest first. *)
Fixpoint le_bytes (n : nat) (z : Z) : list Z :=
  match n with O => [] | S n => z mod 256 :: le_bytes n (z / 256) end.
(** The first [n] bytes of the union. *)
Definition cvalue_bytes (cvalue : Const_Java_Value) (n : nat) : option (list Z) :=
  match cvalue with
  | CV_i i | CV_f i => if (n <=? 4)%nat then Some (le_bytes n i) else None
  | CV_l hi lo => if (n <=? 8)%nat then Some (take n (le_bytes 4 lo ++ le_bytes 4 hi)) else None
  | CV_none | CV_string _ => None
  end.
(** [memmove] into the block. *)
Definition write_block (block : list Z) (off : Z) (bs : list Z) : option (list Z) :=
  if (0 <=? off) && (off + Z.of_nat (length bs) <=? Z.of_nat (length block)) then
    Some (take (Z.to_nat off) block ++ bs ++ drop (Z.to_nat off + length bs) block)
  else None.

Section statics.
Context (POINTER64 compact_fields compress_references : bool) (REF_SIZE : Z) (m_fields : list Field).
(** The string of a constant, or nothing when there is no memory, and a reference as bytes. *)
Context (vm_instantiate_cp_string_resolved : string -> option Z) (ref_bytes : Z -> list Z).

Definition jlstring_desc_string : string := "Ljava/lang/String;".
(** [REF_INIT_BY_ADDR(field_addr, 0)] *)
Definition init_null (off : Z) (block : list Z) : option (list Z) :=
  if compress_references then write_block block off (replicate 4 0) else Some block.
Definition assign_static_value (c : Layout) (i : nat) (block : list Z) : option (option (list Z)) :=
  field ← m_fields !! i;
  if negb (static_field field) then Some (Some block)
  else
    o ← offsets c !! i;
    off ← o;
    if negb (_const_value_index field =? 0) then
      if is_ref_kind field then
        match const_value field with
        | CV_string None => b ← init_null off block; Some (Some b)
        | CV_string (Some s) =>
            if bool_decide (_descriptor (field_member field) = jlstring_desc_string) then
              match vm_instantiate_cp_string_resolved s with
              | None => Some None
              | Some str => b ← write_block block off (ref_bytes str); Some (Some b)
              end
            else None
        | _ => None
        end
      else
        field_size ← sizeof_field_type POINTER64 REF_SIZE field compact_fields;
        bs ← cvalue_bytes (const_value field) (Z.to_nat field_size);
        b ← write_block block off bs;
        Some (Some b)
    else if is_ref_kind field then b ← init_null off block; Some (Some b)
    else Some (Some block).
Fixpoint assign_values (c : Layout) (fields : list nat) (block : list Z) : option (option (list Z)) :=
  match fields with
  | [] => Some (Some block)
  | i :: fields =>
      r ← assign_static_value c i block;
      match r with None => Some None | Some block => assign_values c fields block end
  end.
Definition assign_values_to_class_static_final_fields (c : Layout) (block : list Z) : option (option (list Z)) :=
  assign_values c (seq 0 (length m_fields)) block.
(** The block of the static data, all zero, with the values. *)
Definition static_data_block (c : Layout) : option (option (list Z)) :=
  assign_values_to_class_static_final_fields c (replicate (Z.to_nat (m_static_data_size c)) 0).
End statics.
