(* ===== verification/PreparedOk.v ===== *)
(** * Prepared classes: the fields of a class the loader has read, and the values of its constants *)
From Stdlib Require Import Ascii.
From stdpp Require Import strings.
From S2P Require Import Prelude ByteReader VerTypes ClassNames Descriptors ConstPool Annotations ClassMembers ClassParse ClassFileOk LoaderOk LoadedOk LoaderRuns FieldLayout FieldLayoutOk StaticData.

(** ** Blocks *)

(** The bytes of the block from [o] on. *)
Definition slot (block : list Z) (o : Z) (bs : list Z) : Prop :=
  forall k, (k < length bs)%nat -> block !! (Z.to_nat o + k)%nat = bs !! k.
Definition same_slot (o s : Z) (block block' : list Z) : Prop :=
  forall k, (k < Z.to_nat s)%nat -> block' !! (Z.to_nat o + k)%nat = block !! (Z.to_nat o + k)%nat.
Lemma same_slot_slot o bs block block' : same_slot o (Z.of_nat (length bs)) block block' -> slot block o bs -> slot block' o bs.
Proof. intros H Hs k Hk. rewrite H by lia. by apply Hs. Qed.

Lemma write_block_ok block off bs : 0 <= off -> off + Z.of_nat (length bs) <= Z.of_nat (length block) ->
  exists b, write_block block off bs = Some b /\ length b = length block /\ slot b off bs /\
    forall o s, 0 <= o -> o + s <= off \/ off + Z.of_nat (length bs) <= o -> same_slot o s block b.
Proof.
  intros Ho Hl. unfold write_block. rewrite (proj2 (Z.leb_le _ _) Ho), (proj2 (Z.leb_le _ _) Hl). cbn [andb]. eexists. split; [reflexivity|].
  split; [rewrite !length_app, length_take, length_drop; lia|]. split.
  - intros k Hk. rewrite lookup_app_r; rewrite length_take; [|lia]. replace (Z.to_nat off + k - _)%nat with k by lia. by rewrite lookup_app_l.
  - intros o s H0 [Hd|Hd] k Hk.
    + rewrite lookup_app_l by (rewrite length_take; lia). apply lookup_take_lt. lia.
    + rewrite !lookup_app_r by (rewrite ?length_app, ?length_take; lia). rewrite lookup_drop, length_take. f_equal. lia.
Qed.
Lemma slot_zeros n o s : 0 <= o -> o + s <= Z.of_nat n -> slot (replicate n 0) o (replicate (Z.to_nat s) 0).
Proof. intros Ho Hs k Hk. rewrite length_replicate in Hk. rewrite !lookup_replicate_2 by lia. done. Qed.
Lemma le_bytes_length n z : length (le_bytes n z) = n.
Proof. revert z. induction n as [|n IH]; intros z; simpl; [done|]. by rewrite IH. Qed.

(** ** The values *)

Section values.
Context (POINTER64 compact_fields compress_references : bool) (REF_SIZE : Z) (m_fields : list Field).
Context (instantiate : string -> option Z) (ref_bytes : Z -> list Z).
Context (Href : REF_SIZE = 4 \/ (POINTER64 = true /\ REF_SIZE = 8)).
(** A reference has its size in bytes. *)
Context (Hbytes : forall r, Z.of_nat (length (ref_bytes r)) = REF_SIZE).
Context (Hdesc : Forall described m_fields).
Abbreviation fsize := (sizeof_field_type POINTER64 REF_SIZE).
Abbreviation assign_static_value := (assign_static_value POINTER64 compact_fields compress_references REF_SIZE m_fields instantiate ref_bytes).
Abbreviation assign_values := (assign_values POINTER64 compact_fields compress_references REF_SIZE m_fields instantiate ref_bytes).
Abbreviation placed := (placed POINTER64 compact_fields REF_SIZE m_fields true).

(** The constant of a field is a constant, and a string only for a field of the class of
    strings.  The loader tests neither. *)
Definition settled (f : Field) : Prop :=
  _const_value_index f <> 0 ->
  match const_value f with CV_none => False | CV_string (Some _) => _descriptor (field_member f) = jlstring_desc_string | _ => True end.
Context (Hsettled : Forall settled m_fields).

(** The string a field is initialised with, and the bytes of a field of [s] bytes. *)
Definition string_constant (f : Field) : option string :=
  if _const_value_index f =? 0 then None else match const_value f with CV_string v => v | _ => None end.
Definition initial_value (f : Field) (s : Z) : list Z :=
  if _const_value_index f =? 0 then replicate (Z.to_nat s) 0
  else
    match const_value f with
    | CV_string (Some str) => match instantiate str with Some r => ref_bytes r | None => [] end
    | CV_string None => replicate (Z.to_nat s) 0
    | v => default [] (cvalue_bytes v (Z.to_nat s))
    end.

Lemma described_typed f : described f -> typed_field f.
Proof.
  intros [(t & Ht & Hd) _]. unfold typed_field, descriptor_char. rewrite Hd. unfold shape, print_type in *.
  destruct t as [[|d] [c| |n]]; try done. simpl in Ht |- *. unfold char_at. simpl. rewrite !orb_false_r in *.
  repeat (apply orb_prop in Ht as [Ht|Ht]; [rewrite Ht, ?orb_true_r; done|]). rewrite Ht. by rewrite ?orb_true_r.
Qed.
Lemma sizes f s : described f -> fsize f compact_fields = Some s ->
  (s = 1 \/ s = 2 \/ s = 4 \/ s = 8) /\ (is_ref_kind f = true -> s = if _is_magic_type f then get_magic_type_size POINTER64 else REF_SIZE).
Proof.
  intros Hd Hs. split.
  - destruct (fsize_some POINTER64 REF_SIZE [] 0 Href ltac:(simpl; lia) f compact_fields (described_typed f Hd)) as (s' & Hs' & Hp & _).
    assert (s' = s) as -> by congruence. exact Hp.
  - unfold is_ref_kind, sizeof_field_type in *. intros Hk. apply orb_prop in Hk as [Hk|Hk]; apply Ascii.eqb_eq in Hk; rewrite Hk in Hs; simpl in Hs; by injection Hs as <-.
Qed.
(** The constant of a field that is no reference is in its bytes. *)
Lemma constant_bytes f s : described f -> settled f -> fsize f compact_fields = Some s -> _const_value_index f <> 0 -> is_ref_kind f = false ->
  exists bs, cvalue_bytes (const_value f) (Z.to_nat s) = Some bs /\ length bs = Z.to_nat s /\ initial_value f s = bs.
Proof.
  intros Hd Hse Hs Hi Hk. unfold initial_value. rewrite (proj2 (Z.eqb_neq _ _) Hi). destruct Hd as (_ & Hc & _). specialize (Hc Hi). specialize (Hse Hi).
  unfold is_ref_kind, sizeof_field_type, descriptor_char in *. set (c := char_at _ 0) in *.
  destruct (const_value f) as [|i|i|hi lo|str]; [done| | | |simpl in Hc; by rewrite Hc in Hk]; simpl in Hc;
    repeat (apply orb_prop in Hc as [Hc|Hc]); try done; apply Ascii.eqb_eq in Hc; rewrite Hc in Hs; simpl in Hs; injection Hs as <-;
    try destruct compact_fields; (eexists; split; [reflexivity|split; [reflexivity|reflexivity]]).
Qed.

Context (c : Layout).
Context (Hhas : forall p, in_range m_fields p -> has_offset c p).
Context (Hpacked : packed POINTER64 compact_fields REF_SIZE m_fields true (static_align POINTER64) 0 (m_static_data_size c) (offsets c)).

Definition string_made (f : Field) : Prop := forall str, string_constant f = Some str -> instantiate str <> None.
(** The fields before [n] have their values, the others are zero. *)
Definition values_inv (n : nat) (block : list Z) : Prop :=
  length block = Z.to_nat (m_static_data_size c) /\
  (forall p o s f, placed (offsets c) p o s f -> slot block o (if (p <? n)%nat then initial_value f s else replicate (Z.to_nat s) 0)) /\
  (forall q f, (q < n)%nat -> m_fields !! q = Some f -> static_field f = true -> string_made f).

Lemma at_field i : (i < length m_fields)%nat -> exists f, m_fields !! i = Some f /\ described f /\ settled f.
Proof.
  intros Hi. destruct (lookup_lt_is_Some_2 m_fields i Hi) as [f Hf]. exists f.
  split; [done|]. split; [exact (Forall_lookup_1 _ _ _ _ Hdesc Hf)|exact (Forall_lookup_1 _ _ _ _ Hsettled Hf)].
Qed.
Lemma string_size f s str : described f -> settled f -> fsize f compact_fields = Some s -> string_constant f = Some str -> s = REF_SIZE.
Proof.
  intros Hd Hse Hs Hc. unfold string_constant in Hc. destruct (Z.eqb_spec (_const_value_index f) 0) as [|Hi]; [done|].
  destruct (const_value f) as [| | | |v] eqn:Ev; try done. subst v. specialize (Hse Hi). rewrite Ev in Hse.
  destruct (sizes f s Hd Hs) as [_ Hk]. destruct Hd as (_ & _ & Hm). rewrite Hse in Hm. rewrite Hm in Hk. apply Hk.
  unfold is_ref_kind, descriptor_char. by rewrite Hse.
Qed.
Lemma initial_length f s : described f -> settled f -> fsize f compact_fields = Some s -> string_made f -> length (initial_value f s) = Z.to_nat s.
Proof.
  intros Hd Hse Hs Hmade. destruct (Z.eq_dec (_const_value_index f) 0) as [Hi|Hi].
  { unfold initial_value. rewrite Hi. apply length_replicate. }
  destruct (is_ref_kind f) eqn:Hk.
  - pose proof (Hse Hi) as Hst. pose proof (proj1 (proj2 Hd) Hi) as Hc. unfold is_ref_kind, initial_value in *.
    pose proof (string_size f s) as Hsz. unfold string_made, string_constant in *. rewrite (proj2 (Z.eqb_neq _ _) Hi) in *.
    unfold descriptor_char in Hk. set (ch := char_at _ 0) in *.
    destruct (const_value f) as [|i|i|hi lo|[str|]] eqn:Ev; [done| | | | |apply length_replicate];
      try (simpl in Hc; exfalso; apply orb_prop in Hk as [Hk|Hk]; apply Ascii.eqb_eq in Hk; rewrite Hk in Hc; discriminate Hc).
    rewrite (Hsz str Hd Hse Hs eq_refl). specialize (Hmade str eq_refl). destruct (instantiate str) as [r|]; [|done]. rewrite <- (Hbytes r). lia.
  - destruct (constant_bytes f s Hd Hse Hs Hi Hk) as (bs & _ & Hl & ->). exact Hl.
Qed.
Lemma slot_other p q o o' s s' f f' b b' : p <> q -> placed (offsets c) p o s f -> placed (offsets c) q o' s' f' -> 0 <= o' ->
  (forall a t, 0 <= a -> a + t <= o \/ o + s <= a -> same_slot a t b b') -> same_slot o' s' b b'.
Proof. intros Hn Hp Hq Ho Hsame. apply Hsame; [done|]. destruct (proj2 Hpacked _ _ _ _ _ _ _ _ Hn Hp Hq); lia. Qed.
(** A block that has the value of field [i], and differs from a good one there only. *)
Lemma values_step i o s f b b' : values_inv i b -> placed (offsets c) i o s f -> length b' = length b -> slot b' o (initial_value f s) ->
  string_made f -> (forall a t, 0 <= a -> a + t <= o \/ o + s <= a -> same_slot a t b b') -> values_inv (S i) b'.
Proof.
  intros (Hl & Hv & Hm) Hi Hl' Hslot Hmade Hsame. split; [by rewrite Hl'|]. split.
  - intros q o' s' f' Hq. destruct (decide (i = q)) as [<-|Hn].
    + rewrite (proj2 (Nat.ltb_lt i (S i))) by lia. destruct Hi as (Hf & _ & Ho & Hs), Hq as (Hf' & _ & Ho' & Hs'). by simplify_eq.
    + pose proof (proj1 Hpacked _ _ _ _ Hq) as (H0 & _). specialize (Hv _ _ _ _ Hq). pose proof (slot_other _ _ _ _ _ _ _ _ b b' Hn Hi Hq H0 Hsame) as Hs.
      destruct (Nat.ltb_spec q i), (Nat.ltb_spec q (S i)); try lia; (eapply same_slot_slot; [|exact Hv]).
      * destruct Hq as (Hf' & Hst' & _ & Hs'). destruct (at_field q) as (f2 & Hf2 & Hd2 & Hse2); [by eapply lookup_lt_Some|].
        assert (f2 = f') as -> by congruence. rewrite initial_length by eauto. intros k Hk. apply Hs. lia.
      * rewrite length_replicate. intros k Hk. apply Hs. lia.
  - intros q f' Hq Hf' Hst. destruct (decide (q = i)) as [->|Hn]; [|apply (Hm q); [lia|done..]]. destruct Hi as (Hf & _). by simplify_eq.
Qed.

(** A field that is not written is zero. *)
Lemma values_kept i o s f b : values_inv i b -> placed (offsets c) i o s f -> initial_value f s = replicate (Z.to_nat s) 0 -> string_made f -> values_inv (S i) b.
Proof.
  intros Hb Hi Hz Hm. apply (values_step i o s f b b Hb Hi); [done| |done|by intros a t _ _ k _].
  pose proof (proj1 (proj2 Hb) _ _ _ _ Hi) as H. rewrite (proj2 (Nat.ltb_ge i i)) in H by lia. by rewrite Hz.
Qed.
Lemma values_null i o s f b : values_inv i b -> placed (offsets c) i o s f -> initial_value f s = replicate (Z.to_nat s) 0 -> string_made f -> 4 <= s ->
  exists b', init_null compress_references o b = Some b' /\ values_inv (S i) b'.
Proof.
  intros Hb Hi Hz Hm Hs. unfold init_null. destruct compress_references; [|exists b; split; [done|by eapply values_kept]].
  pose proof (proj1 Hpacked _ _ _ _ Hi) as (H0 & H1 & _). pose proof Hb as (Hl & Hv & _).
  destruct (write_block_ok b o (replicate 4 0)) as (b' & Hw & Hl' & Hslot & Hsame); [done|rewrite length_replicate; lia|].
  exists b'. split; [done|]. apply (values_step i o s f b b' Hb Hi Hl'); [|done|].
  - rewrite Hz. specialize (Hv _ _ _ _ Hi). rewrite (proj2 (Nat.ltb_ge i i)) in Hv by lia. intros k Hk. rewrite length_replicate in Hk.
    destruct (decide (k < 4)%nat) as [Hk4|Hk4].
    + rewrite (Hslot k) by (rewrite length_replicate; lia). by rewrite !lookup_replicate_2 by lia.
    + pose proof (Hsame (o + 4) (s - 4) ltac:(lia) ltac:(right; rewrite length_replicate; lia) (k - 4)%nat ltac:(lia)) as He.
      replace (Z.to_nat (o + 4) + (k - 4))%nat with (Z.to_nat o + k)%nat in He by lia. rewrite He. apply Hv. by rewrite length_replicate.
  - intros a t Ha Hd. apply Hsame; [done|]. rewrite length_replicate. lia.
Qed.
Lemma values_write i o s f b bs : values_inv i b -> placed (offsets c) i o s f -> initial_value f s = bs -> length bs = Z.to_nat s -> 0 < s -> string_made f ->
  exists b', write_block b o bs = Some b' /\ values_inv (S i) b'.
Proof.
  intros Hb Hi Hz Hlen Hs Hm. pose proof (proj1 Hpacked _ _ _ _ Hi) as (H0 & H1 & _). pose proof Hb as (Hl & _).
  destruct (write_block_ok b o bs) as (b' & Hw & Hl' & Hslot & Hsame); [done|lia|]. exists b'. split; [done|].
  apply (values_step i o s f b b' Hb Hi Hl'); [by rewrite Hz|done|]. intros a t Ha Hd. apply Hsame; [done|]. lia.
Qed.

Lemma values_skip i f b : values_inv i b -> m_fields !! i = Some f -> static_field f = false -> values_inv (S i) b.
Proof.
  intros (Hl & Hv & Hm) Hf Hst. split; [done|]. split.
  - intros q o s f' Hq. assert (q <> i) by (intros ->; destruct Hq as (Hf' & Hst' & _); simplify_eq; by rewrite Hst in Hst').
    specialize (Hv _ _ _ _ Hq). destruct (Nat.ltb_spec q i), (Nat.ltb_spec q (S i)); done || lia.
  - intros q f' Hq Hf' Hst'. destruct (decide (q = i)) as [->|]; [simplify_eq; by rewrite Hst in Hst'|]. apply (Hm q); [lia|done..].
Qed.
Definition out_of_memory (f : Field) : Prop := exists str, string_constant f = Some str /\ instantiate str = None.
Lemma assign_value_ok i f b : m_fields !! i = Some f -> values_inv i b -> exists r, assign_static_value c i b = Some r /\
  match r with None => out_of_memory f | Some b' => values_inv (S i) b' end.
Proof.
  intros Hf Hb. pose proof (lookup_lt_Some _ _ _ Hf) as Hi. destruct (at_field i Hi) as (f' & Hf' & Hd & Hse). rewrite Hf in Hf'. injection Hf' as <-. unfold StaticData.assign_static_value. rewrite Hf. cbn [mbind option_bind].
  destruct (static_field f) eqn:Hst; cbn [negb]; [|exists (Some b); split; [done|by eapply values_skip]].
  destruct (Hhas i Hi) as [o Ho]. rewrite Ho. cbn [mbind option_bind].
  destruct (fsize_some POINTER64 REF_SIZE [] 0 Href ltac:(simpl; lia) f compact_fields (described_typed f Hd)) as (s & Hs & _).
  assert (Hp : placed (offsets c) i o s f) by done. destruct (sizes f s Hd Hs) as [Hpow Hk].
  assert (Hk4 : is_ref_kind f = true -> 4 <= s).
  { intros H. rewrite (Hk H). unfold get_magic_type_size. destruct (_is_magic_type f), POINTER64; lia. }
  assert (Hnull : initial_value f s = replicate (Z.to_nat s) 0 -> string_made f -> is_ref_kind f = true ->
    exists r, (b' ← init_null compress_references o b; Some (Some b')) = Some r /\
      match r with None => out_of_memory f | Some b' => values_inv (S i) b' end).
  { intros Hz Hm Hr. destruct (values_null i o s f b Hb Hp Hz Hm (Hk4 Hr)) as (b' & -> & Hb'). by exists (Some b'). }
  destruct (Z.eqb_spec (_const_value_index f) 0) as [Hi0|Hi0]; cbn [negb].
  - assert (Hz : initial_value f s = replicate (Z.to_nat s) 0) by (unfold initial_value; by rewrite Hi0).
    assert (Hm : string_made f) by (intros str; unfold string_constant; by rewrite Hi0).
    destruct (is_ref_kind f) eqn:Hr; [by apply Hnull|]. exists (Some b). split; [done|]. by eapply values_kept.
  - destruct (is_ref_kind f) eqn:Hr.
    + assert (Hstr : exists v, const_value f = CV_string v).
      { pose proof (Hse Hi0) as H1. pose proof (proj1 (proj2 Hd) Hi0) as H2. unfold is_ref_kind, descriptor_char in Hr. set (ch := char_at _ 0) in *.
        destruct (const_value f) as [|x|x|x y|v] eqn:Ev; [done| | | |by exists v]; simpl in H2; exfalso;
          apply orb_prop in Hr as [Hr|Hr]; apply Ascii.eqb_eq in Hr; rewrite Hr in H2; discriminate H2. }
      destruct Hstr as [v Hv]. rewrite Hv. pose proof (Hse Hi0) as Hset. rewrite Hv in Hset.
      assert (Hc : string_constant f = v) by (unfold string_constant; by rewrite (proj2 (Z.eqb_neq _ _) Hi0), Hv).
      assert (Hval : initial_value f s = match v with Some str => match instantiate str with Some r => ref_bytes r | None => [] end | None => replicate (Z.to_nat s) 0 end)
        by (unfold initial_value; by rewrite (proj2 (Z.eqb_neq _ _) Hi0), Hv).
      destruct v as [str|]; [|apply Hnull; [done|intros str' Hs'; by rewrite Hc in Hs'|done]].
      rewrite bool_decide_true by done. destruct (instantiate str) as [r|] eqn:Hin; [|exists None; split; [done|]; by exists str].
      destruct (values_write i o s f b (ref_bytes r) Hb Hp) as (b' & -> & Hb'); [done| | | |by exists (Some b')].
      * rewrite (string_size f s str Hd Hse Hs Hc). rewrite <- (Hbytes r). lia.
      * lia.
      * intros str' Hs'. rewrite Hc in Hs'. injection Hs' as <-. congruence.
    + rewrite Hs. cbn [mbind option_bind]. destruct (constant_bytes f s Hd Hse Hs Hi0 Hr) as (bs & Hbs & Hl & Hv). rewrite Hbs. cbn [mbind option_bind].
      destruct (values_write i o s f b bs Hb Hp Hv Hl ltac:(lia)) as (b' & -> & Hb'); [|by exists (Some b')].
      intros str Hs'. unfold string_constant in Hs'. rewrite (proj2 (Z.eqb_neq _ _) Hi0) in Hs'. exfalso.
      by destruct (const_value f).
Qed.
Lemma assign_values_ok k i b : (i + k = length m_fields)%nat -> values_inv i b -> exists r, assign_values c (seq i k) b = Some r /\
  match r with None => exists f, f ∈ m_fields /\ out_of_memory f | Some b' => values_inv (length m_fields) b' end.
Proof.
  revert i b. induction k as [|k IH]; intros i b Hik Hb; cbn [seq StaticData.assign_values].
  { exists (Some b). split; [done|]. by replace (length m_fields) with i by lia. }
  destruct (at_field i ltac:(lia)) as (f & Hf & _). destruct (assign_value_ok i f b Hf Hb) as (r & -> & Hr). cbn [mbind option_bind]. destruct r as [b'|].
  - by apply IH; [lia|].
  - exists None. split; [done|]. exists f. split; [by eapply list_elem_of_lookup_2|done].
Qed.
Lemma static_block_ok : 0 <= m_static_data_size c ->
  exists r, static_data_block POINTER64 compact_fields compress_references REF_SIZE m_fields instantiate ref_bytes c = Some r /\
  match r with
  | None => exists f, f ∈ m_fields /\ out_of_memory f
  | Some b => Z.of_nat (length b) = m_static_data_size c /\ forall p o s f, placed (offsets c) p o s f -> slot b o (initial_value f s)
  end.
Proof.
  intros Hsize. unfold static_data_block, assign_values_to_class_static_final_fields.
  destruct (assign_values_ok (length m_fields) 0 (replicate (Z.to_nat (m_static_data_size c)) 0)) as (r & -> & Hr); [lia| |].
  - split; [apply length_replicate|]. split; [|intros; lia]. intros p o s f Hp. cbn [Nat.ltb Nat.leb].
    destruct (proj1 Hpacked _ _ _ _ Hp) as (H0 & H1 & _). apply slot_zeros; lia.
  - exists r. split; [done|]. destruct r as [b|]; [|done]. destruct Hr as (Hl & Hv & _). split; [lia|]. intros p o s f Hp.
    specialize (Hv _ _ _ _ Hp). destruct Hp as (Hf & _). apply lookup_lt_Some in Hf. by rewrite (proj2 (Nat.ltb_lt _ _) Hf) in Hv.
Qed.
End values.

(** ** A class the loader has read *)

(** The build and the options of a machine that lays its classes out. *)
Definition build_ok (POINTER64 compact_fields sort_fields : bool) (REF_SIZE : Z) : Prop :=
  (REF_SIZE = 4 \/ (POINTER64 = true /\ REF_SIZE = 8)) /\ (compact_fields = true -> sort_fields = true).
(** A layout fields may follow. *)
Definition start_ok (c : Layout) : Prop :=
  0 <= m_unpadded_instance_data_size c < 2 ^ 30 /\ is_u 32 (m_num_field_padding_bytes c) /\ is_u 32 (m_num_instance_refs c).

Section loaded.
Context (POINTER64 compact_fields sort_fields : bool) (REF_SIZE : Z) (tag_pointer is_interface is_class_class : bool) (super : option Layout).
Context (env : Env) (loader_name given_name : option string) (r r' : ByteReader) (cls : Class).
Abbreviation fields := (m_fields cls).
Abbreviation start := (start_layout POINTER64 tag_pointer is_interface is_class_class super (length fields)).

Lemma start_shape : start = new_layout (m_unpadded_instance_data_size start) (m_num_field_padding_bytes start) (m_num_instance_refs start) (length fields).
Proof. unfold start_layout. by destruct is_interface, super. Qed.
Lemma loaded_fields : class_ok cls -> Forall described fields /\ (m_num_static_fields cls <= length fields)%nat /\
  (forall i f, fields !! i = Some f -> static_field f = (i <? m_num_static_fields cls)%nat) /\ Z.of_nat (length fields) < 2 ^ 16.
Proof.
  intros [_ (Hle & [Hs Hi] & _ & Hn) _]. split; [|split; [done|split; [|done]]].
  - apply Forall_lookup. intros i f Hf. destruct (decide (i < m_num_static_fields cls)%nat) as [Hlt|Hge]; [by apply (Hs i f)|].
    apply (Hi i f); [|done]. apply lookup_lt_Some in Hf. lia.
  - intros i f Hf. unfold static_field. destruct (Nat.ltb_spec i (m_num_static_fields cls)) as [Hlt|Hge]; [by apply (Hs i f)|].
    apply (Hi i f); [|done]. apply lookup_lt_Some in Hf. lia.
Qed.
Lemma loaded_layout : class_ok cls -> build_ok POINTER64 compact_fields sort_fields REF_SIZE -> start_ok start ->
  exists c, assign_offsets_to_fields POINTER64 compact_fields sort_fields REF_SIZE fields (m_num_static_fields cls) start = Some c /\
    final POINTER64 compact_fields REF_SIZE fields (m_unpadded_instance_data_size start) (m_num_field_padding_bytes start) (m_num_instance_refs start) c.
Proof.
  intros Hcls [Href Hopt] (Hu & Hp & Hr). destruct (loaded_fields Hcls) as (Hd & Hle & Hparted & Hn).
  assert (Htyped : Forall typed_field fields) by (eapply List.Forall_impl; [|exact Hd]; intros f; apply described_typed).
  pose proof (layout_ok POINTER64 compact_fields sort_fields REF_SIZE fields (m_num_static_fields cls) Href Htyped Hle Hparted
    (m_unpadded_instance_data_size start) (m_num_field_padding_bytes start) (m_num_instance_refs start) ltac:(lia) Hopt ltac:(lia)) as H.
  rewrite (ux_id 32 (m_num_field_padding_bytes start)), (ux_id 32 (m_num_instance_refs start)), <- start_shape in H by done. exact H.
Qed.
End loaded.

(** C8: The layout of the fields of a class file of fewer than 65534 bytes whose constant
    pool count is not zero, and whose class is not java.lang.Thread, Throwable or Class
    and has no dollar sign in its name, when it parses. References have 4 bytes, or 8 on a
    64-bit build, the option [compact_fields] comes with [sort_fields], and the data of
    the super class is below 2^30 bytes. Then every field gets an offset; those of the
    instance fields are behind the data of the super class, within the data of the class,
    multiples of the sizes of the fields, and no two fields overlap; the same holds of
    static fields in the static data, where on 32-bit builds only doubles are aligned to
    eight bytes. The sizes are below 2^31, and the numbers of padding bytes and of
    references of an instance are right modulo 2^32. Without [sort_fields],
    [compact_fields] fails an assertion ([PreparedOk.unprepared_classes]). *)
Theorem fields_laid_out POINTER64 compact_fields sort_fields REF_SIZE tag_pointer is_interface is_class_class super
    env loader_name given_name r cls r' :
  reader_ok r -> end_ r - start r < SMALL -> has_entries r -> Class_parse env loader_name given_name r = Done cls r' ->
  ordinary (m_name (head_class (head cls))) = true -> build_ok POINTER64 compact_fields sort_fields REF_SIZE ->
  let fields := m_fields cls in
  let c0 := start_layout POINTER64 tag_pointer is_interface is_class_class super (length fields) in
  start_ok c0 ->
  exists c, assign_offsets_to_fields POINTER64 compact_fields sort_fields REF_SIZE fields (m_num_static_fields cls) c0 = Some c /\
    (forall p, (p < length fields)%nat -> exists o, offsets c !! p = Some (Some o)) /\
    packed POINTER64 compact_fields REF_SIZE fields false (fun _ size => size)
      (m_unpadded_instance_data_size c0) (m_unpadded_instance_data_size c) (offsets c) /\
    packed POINTER64 compact_fields REF_SIZE fields true (static_align POINTER64) 0 (m_static_data_size c) (offsets c) /\
    m_num_field_padding_bytes c = ux 32 (m_num_field_padding_bytes c0 + (m_unpadded_instance_data_size c - m_unpadded_instance_data_size c0 -
      sum_of fields (instance_size POINTER64 compact_fields REF_SIZE))) /\
    m_num_instance_refs c = ux 32 (m_num_instance_refs c0 + sum_of fields instance_ref) /\
    m_unpadded_instance_data_size c0 <= m_unpadded_instance_data_size c < 2 ^ 31 /\ 0 <= m_static_data_size c < 2 ^ 31.
Proof.
  intros Hr Hs He H Ho Hb fields c0 Hc0. pose proof (parsed_class _ _ _ _ _ _ Hr Hs He H Ho) as Hcls.
  exact (loaded_layout _ _ _ _ _ _ _ _ _ Hcls Hb Hc0).
Qed.

(** C11: The static data of a class file of fewer than 65534 bytes whose constant pool
    count is not zero, and whose class is not java.lang.Thread, Throwable or Class and has
    no dollar sign in its name, when it parses and its fields are laid out under the
    conditions of [fields_laid_out]. If each constant of a field is one the loader has
    set, not the unused half of a long or double, and a string only for a field of type
    String, then every static field has its initial value, the constant or zero, in the
    bytes at its offset, whatever the order of the fields; unless there is no memory for
    one of the strings, when preparation gives up. The loader tests neither condition
    ([PreparedOk.unprepared_classes]). *)
Theorem constants_stored POINTER64 compact_fields sort_fields compress_references REF_SIZE tag_pointer is_interface is_class_class super
    instantiate ref_bytes env loader_name given_name r cls r' c :
  reader_ok r -> end_ r - start r < SMALL -> has_entries r -> Class_parse env loader_name given_name r = Done cls r' ->
  ordinary (m_name (head_class (head cls))) = true -> build_ok POINTER64 compact_fields sort_fields REF_SIZE ->
  (forall x, Z.of_nat (length (ref_bytes x)) = REF_SIZE) -> Forall settled (m_fields cls) ->
  let fields := m_fields cls in
  let c0 := start_layout POINTER64 tag_pointer is_interface is_class_class super (length fields) in
  start_ok c0 -> assign_offsets_to_fields POINTER64 compact_fields sort_fields REF_SIZE fields (m_num_static_fields cls) c0 = Some c ->
  match static_data_block POINTER64 compact_fields compress_references REF_SIZE fields instantiate ref_bytes c with
  | None => False
  | Some None => exists f, f ∈ fields /\ out_of_memory instantiate f
  | Some (Some block) => Z.of_nat (length block) = m_static_data_size c /\
      forall p f o size, fields !! p = Some f -> static_field f = true -> offsets c !! p = Some (Some o) ->
      sizeof_field_type POINTER64 REF_SIZE f compact_fields = Some size -> slot block o (initial_value instantiate ref_bytes f size)
  end.
Proof.
  intros Hr Hs He H Ho Hb Hbytes Hsettled fields c0 Hc0 Hc. pose proof (parsed_class _ _ _ _ _ _ Hr Hs He H Ho) as Hcls.
  destruct (loaded_layout _ _ _ _ _ _ _ _ _ Hcls Hb Hc0) as (c' & Hc' & Hfinal). assert (c' = c) as -> by (unfold c0, fields in Hc; congruence).
  destruct Hfinal as (Hhas & _ & Hpacked & _ & _ & _ & Hsize). destruct (loaded_fields cls Hcls) as (Hd & _).
  destruct (static_block_ok POINTER64 compact_fields compress_references REF_SIZE fields instantiate ref_bytes (proj1 Hb) Hbytes Hd Hsettled c Hhas Hpacked) as (x & -> & Hx); [lia|].
  destruct x as [b|]; [|done]. destruct Hx as [Hl Hx]. split; [done|]. intros p f o size H1 H2 H3 H4. by apply (Hx p o size f).
Qed.

(** ** A class with constants *)

Definition field_with (flags name descriptor : Z) (attrs : list (Z * Z)) : list ascii :=
  enc_u2 flags ++ enc_u2 name ++ enc_u2 descriptor ++ enc_u2 (Z.of_nat (length attrs)) ++
  concat (map (fun a => enc_u2 a.1 ++ enc_u4 2 ++ enc_u2 a.2) attrs).
Definition fields_class (fields : list (list ascii)) : list ascii :=
  class_file 50
    [Utf8 "A"; ClassRef 1 false; Utf8 "java/lang/Object"; ClassRef 3 false; Utf8 "ConstantValue"; Utf8 "I"; Utf8 "J"; Utf8 "B"; Utf8 "Ljava/lang/String;";
     Utf8 "Ljava/lang/Object;"; Integer 0x01020304; Long 5 6; Unused 5 6; StringRef 1 None; Utf8 "a"; Utf8 "b"; Utf8 "c"; Utf8 "d"; Utf8 "e"; Utf8 "f"]
    0x21 2 4 (enc_u2 0 ++ enc_u2 (Z.of_nat (length fields)) ++ concat fields ++ enc_u2 0 ++ enc_u2 0).
(** [static final int a = 0x01020304; byte b; static final long c = ...; static final byte d = 4;
    Object e; static final String f = "A";] *)
Definition constants_class : list ascii := fields_class
  [field_with 0x18 15 6 [(5, 11)]; field_with 0 16 8 []; field_with 0x18 17 7 [(5, 12)]; field_with 0x18 18 8 [(5, 11)]; field_with 0 19 10 [];
   field_with 0x18 20 9 [(5, 14)]].
Definition after_parse {A} (l : list ascii) (k : Class -> A) (none : A) : A :=
  match Class_parse the_env None None (read_file l) with Done c _ => k c | _ => none end.
Definition object_layout : Layout := MkLayout 16 0 0 0 [].
Definition laid_out (POINTER64 compact sort : bool) (REF_SIZE : Z) (cls : Class) : option Layout :=
  assign_offsets_to_fields POINTER64 compact sort REF_SIZE (m_fields cls) (m_num_static_fields cls)
    (start_layout POINTER64 false false false (Some object_layout) (length (m_fields cls))).
Definition block_of (POINTER64 compact sort compressed : bool) (REF_SIZE : Z) (cls : Class) : option (option (list Z)) :=
  c ← laid_out POINTER64 compact sort REF_SIZE cls;
  static_data_block POINTER64 compact compressed REF_SIZE (m_fields cls) (fun _ => Some 77) (le_bytes (Z.to_nat REF_SIZE)) c.

Definition constants_reader : ByteReader := read_file constants_class.
Lemma constants_entries : has_entries constants_reader.
Proof. intros l H. vm_compute in H. discriminate H. Qed.
Lemma constants_parse : exists cls r', Class_parse the_env None None constants_reader = Done cls r' /\ ordinary (m_name (head_class (head cls))) = true /\
  Forall settled (m_fields cls) /\ laid_out true false false 8 cls = Some (MkLayout 28 0 1 32 [Some 0; Some 8; Some 16; Some 24; Some 16; Some 24]).
Proof.
  destruct (Class_parse the_env None None constants_reader) as [cls r'| |] eqn:E; [|vm_compute in E; discriminate E..].
  exists cls, r'. split; [done|]. vm_compute in E. injection E as <- <-. split; [reflexivity|]. split; [|vm_compute; reflexivity].
  unfold settled. repeat constructor; simpl; try done.
Qed.

Lemma object_start n : start_ok (start_layout true false false false (Some object_layout) n).
Proof. unfold start_ok, is_u, start_layout, new_layout, object_layout. cbn [m_unpadded_instance_data_size m_num_field_padding_bytes m_num_instance_refs]. lia. Qed.
Lemma fields_laid_out_witness : exists cls r' c, Class_parse the_env None None constants_reader = Done cls r' /\ laid_out true false false 8 cls = Some c /\
  packed true false 8 (m_fields cls) false (fun _ size => size) 16 28 (offsets c) /\
  packed true false 8 (m_fields cls) true (static_align true) 0 32 (offsets c) /\ m_num_instance_refs c = 1.
Proof.
  destruct constants_parse as (cls & r' & H & Ho & _ & Hl).
  destruct (fields_laid_out true false false 8 false false false (Some object_layout) the_env None None constants_reader cls r') as (c & Hc & _ & Hi & Hs & _).
  - apply read_file_ok.
  - vm_compute. reflexivity.
  - apply constants_entries.
  - exact H.
  - exact Ho.
  - split; [right; by split|discriminate].
  - apply object_start.
  - change (laid_out true false false 8 cls = Some c) in Hc. rewrite Hl in Hc. injection Hc as <-. exists cls, r', (MkLayout 28 0 1 32 [Some 0; Some 8; Some 16; Some 24; Some 16; Some 24]).
    split; [exact H|]. split; [exact Hl|]. split; [exact Hi|]. split; [exact Hs|reflexivity].
Defined.

(** The block: the integer, the long, four bytes for the byte, and the string. *)
Lemma constants_stored_witness : exists cls r' block, Class_parse the_env None None constants_reader = Done cls r' /\
  block_of true false false false 8 cls = Some (Some block) /\ Z.of_nat (length block) = 32 /\ slot block 8 [6; 0; 0; 0; 5; 0; 0; 0] /\ slot block 24 (le_bytes 8 77).
Proof.
  destruct constants_parse as (cls & r' & H & Ho & Hse & Hl).
  pose proof (constants_stored true false false false 8 false false false (Some object_layout) (fun _ => Some 77) (le_bytes 8) the_env None None
    constants_reader cls r' _ (read_file_ok _) ltac:(vm_compute; reflexivity) constants_entries H Ho
    ltac:(split; [right; by split|discriminate]) (fun x => f_equal Z.of_nat (le_bytes_length 8 x)) Hse
    (object_start _) Hl) as Hx.
  destruct (block_of true false false false 8 cls) as [[b|]|] eqn:Hb; unfold block_of in Hb; rewrite Hl in Hb; change (Z.to_nat 8) with 8%nat in Hb;
    cbn [mbind option_bind] in Hb; rewrite Hb in Hx; [|destruct Hx as (f & _ & s & _ & Hn); discriminate Hn|destruct Hx].
  destruct Hx as [Hlen Hx]. exists cls, r', b. split; [exact H|].
  split; [unfold block_of; rewrite Hl; exact Hb|]. split; [exact Hlen|].
  vm_compute in H. injection H as <- <-. split; [exact (Hx 1%nat _ 8 8 eq_refl eq_refl eq_refl eq_refl)|exact (Hx 3%nat _ 24 8 eq_refl eq_refl eq_refl eq_refl)].
Defined.

Lemma array_size_exact_witness : calculate_array_size false false 2 0 = 12 /\ calculate_array_size true false 3 3 = 48 /\
  calculate_array_size true true 3 (2 ^ 27) = 0 /\ 112 <= calculate_array_size false false 0 100 < 116.
Proof.
  split; [reflexivity|]. split; [reflexivity|]. split; [exact (proj2 (array_size_exact true true 3 (2 ^ 27) ltac:(lia) ltac:(unfold is_s; lia)))|].
  exact (proj1 (proj2 (array_size_exact false false 0 100 ltac:(lia) ltac:(unfold is_s; lia)))).
Defined.

(** What the loader has no test for.  A constant that is the second entry of a number of two
    words is read from a union that was not written; a string for a field of another class
    stops the machine.  And an option alone: with [compact_fields] and without [sort_fields]
    a field of eight bytes after one of one byte fails the assertion that it is aligned. *)
Theorem unprepared_classes :
  after_parse (fields_class [field_with 0x18 17 7 [(5, 13)]]) (block_of true false false false 8) (Some None) = None /\
  after_parse (fields_class [field_with 0x18 19 10 [(5, 14)]]) (block_of true false false false 8) (Some None) = None /\
  after_parse (fields_class [field_with 0x8 16 8 []; field_with 0x8 17 7 []]) (laid_out true true false 8) (Some object_layout) = None /\
  is_Some (after_parse (fields_class [field_with 0x8 16 8 []; field_with 0x8 17 7 []]) (laid_out true true true 8) None).
Proof. vm_compute. do 3 (split; [reflexivity|]). by eexists. Qed.
