(* ===== verification/ClassTables.v ===== *)
(** * The tables of a class: virtual methods, interfaces, and tests of types

    [class_support/Prepare.cpp], [class_support/Class.cpp], [jit/jit_runtime_support.cpp].  A
    pointer to a class is its number among the loaded classes, a pointer to a method that of
    its class and its place in it.  [None] is a failed assertion, a null pointer that is read,
    an order [std::sort] is not defined for, or too little fuel. *)
From stdpp Require Import gmap strings.
From S2P Require Import Prelude ByteReader VerTypes ClassNames ConstPool Annotations ClassMembers.

(** A class that is linked. *)
Record LClass := MkLClass {
  m_id : Z; class_flags_ : Z; m_package : nat;
  m_super_class : option nat; m_superinterfaces : list nat; class_methods : list Class_Member;
  m_is_array : bool; m_array_element_class : option nat;
}.
Definition class_has (c : LClass) (acc : Z) : bool := has_acc (class_flags_ c) acc.
Definition is_interface (c : LClass) : bool := class_has c ACC_INTERFACE.
Definition is_abstract_class (c : LClass) : bool := class_has c ACC_ABSTRACT.

Definition has (m : Class_Member) (acc : Z) : bool := has_acc (_access_flags m) acc.
Definition init_method (m : Class_Member) : bool := bool_decide (_name m = "<init>").
Definition clinit_method (m : Class_Member) : bool := bool_decide (_name m = "<clinit>").
Definition finalize_method (m : Class_Member) : bool := bool_decide (_name m = "finalize") && bool_decide (_descriptor m = "()V").
(** [!(is_public() || is_protected() || is_public())] *)
Definition is_package_private (m : Class_Member) : bool := negb (has m ACC_PUBLIC || has m ACC_PROTECTED || has m ACC_PUBLIC).
Definition same_signature (name desc : string) (m : Class_Member) : bool := bool_decide (_name m = name) && bool_decide (_descriptor m = desc).

Abbreviation MethodRef := (nat * nat)%type.
(** What an entry of a table points to: the code of a method, or the stubs that throw
    [AbstractMethodError] and [IllegalAccessError]. *)
Inductive Entry := CodeOf (m : MethodRef) | AbstractMethodError (intfc_method : MethodRef) | IllegalAccessError (m : MethodRef).

(** What preparation stores in a class and its virtual table. *)
Record Prepared := MkPrepared {
  p_methods : list Class_Member;                (** with the fake ones *)
  positions : list (option (nat * Z));          (** the index and the offset of each *)
  m_num_virtual_method_entries : nat;
  m_vtable_descriptors : list (option MethodRef);
  m_depth : nat; superclasses : list (option nat); m_is_suitable_for_fast_instanceof : bool;
  vtable_methods : list (option Entry);
  intfc_table : list (nat * nat);               (** the interface and where its table begins *)
  m_has_finalizer : bool;
  overridden : list MethodRef;                  (** the methods of super classes it marks *)
}.

Definition MAX_FAST_INSTOF_DEPTH : nat := 5.

(** The methods of interfaces count from zero, those of classes behind the head of the table. *)
Record Tables := MkTables { POINTER_SIZE : Z; VTABLE_OVERHEAD : Z; JavaLangObject_Class : nat; java_io_Serializable_Class : nat; java_lang_Cloneable_Class : nat }.

Section tables.
Context (env : Tables) (classes : list LClass).
(** The classes that are prepared. *)
Context (prepared : gmap nat Prepared).

Definition methods_of (c : nat) : option (list Class_Member) :=
  match prepared !! c with Some p => Some (p_methods p) | None => class_methods <$> classes !! c end.
Definition method_at (r : MethodRef) : option Class_Member := ms ← methods_of r.1; ms !! r.2.
Definition position_of (r : MethodRef) : option (nat * Z) := p ← prepared !! r.1; o ← positions p !! r.2; o.

(** ** Fake methods of abstract classes *)

(** [Class::lookup_method] *)
Fixpoint lookup_in (ms : list Class_Member) (name desc : string) (i : nat) : option nat :=
  match ms with
  | [] => None
  | m :: ms => if same_signature name desc m then Some i else lookup_in ms name desc (S i)
  end.
Definition lookup_method (c : nat) (name desc : string) : option (option MethodRef) :=
  ms ← methods_of c; Some ((fun i => (c, i)) <$> lookup_in ms name desc 0).
(** The class itself has the methods [own]. *)
Fixpoint find_method_impl (fuel : nat) (own : list Class_Member) (this : option nat) (c : option nat) (name desc : string) : option bool :=
  match c, fuel with
  | None, _ => Some false
  | Some _, O => None
  | Some c, S fuel =>
      k ← classes !! c;
      ms ← (if bool_decide (this = Some c) then Some own else methods_of c);
      match lookup_in ms name desc 0 with
      | Some _ => Some true
      | None => find_method_impl fuel own this (m_super_class k) name desc
      end
  end.
Definition fake_method (m : Class_Member) : Class_Member := MkMember (Z.lor ACC_PUBLIC ACC_ABSTRACT) (_name m) (_descriptor m).
(** The methods of an interface that [own] and the super classes lack. *)
Fixpoint fakes_of (fuel : nat) (this : nat) (methods : list Class_Member) (own : list Class_Member) : option (list Class_Member) :=
  match methods with
  | [] => Some own
  | m :: methods =>
      if clinit_method m then fakes_of fuel this methods own
      else
        impl ← find_method_impl fuel own (Some this) (Some this) (_name m) (_descriptor m);
        fakes_of fuel this methods (if impl : bool then own else own ++ [fake_method m])
  end.
Fixpoint add_new_fake_method (fuel : nat) (this : nat) (interfaces : list nat) (own : list Class_Member) : option (list Class_Member) :=
  match fuel with
  | O => None
  | S fuel =>
      (fix go (interfaces : list nat) (own : list Class_Member) : option (list Class_Member) :=
         match interfaces with
         | [] => Some own
         | i :: interfaces =>
             k ← classes !! i;
             own ← add_new_fake_method fuel this (m_superinterfaces k) own;
             ms ← methods_of i;
             own ← fakes_of (S (length classes)) this ms own;
             go interfaces own
         end) interfaces own
  end.

(** ** Slots of virtual methods *)

(** The first entry of a signature. *)
Fixpoint find_descriptor (table : list (option MethodRef)) (name desc : string) (j : nat) : option (option (nat * MethodRef)) :=
  match table with
  | [] => Some None
  | r :: table =>
      r ← r;
      m ← method_at r;
      if same_signature name desc m then Some (Some (j, r)) else find_descriptor table name desc (S j)
  end.
(** The package of the class of a method. *)
Definition package_of (r : MethodRef) : option nat := m_package <$> classes !! r.1.

Record assign_state := AS {
  next_vtable_offset : Z; num_entries : nat; slots : list (option (nat * Z)); finalizer : bool; marked : list MethodRef;
}.
(** [None] is a [VerifyError]. *)
Definition assign_offset_to_method (this : nat) (super_table : list (option MethodRef)) (m : Class_Member) (s : assign_state)
    : option (option assign_state) :=
  k ← classes !! this;
  if has m ACC_STATIC || init_method m then
    Some (Some (AS (next_vtable_offset s) (num_entries s) (slots s ++ [None]) (finalizer s) (marked s)))
  else
    let final := finalizer s || (finalize_method m && negb (bool_decide (this = JavaLangObject_Class env))) in
    found ← find_descriptor super_table (_name m) (_descriptor m) 0;
    let new_entry marks :=
      AS (ux 32 (next_vtable_offset s + POINTER_SIZE env)) (S (num_entries s)) (slots s ++ [Some (num_entries s, next_vtable_offset s)]) final marks in
    match found with
    | None => Some (Some (new_entry (marked s)))
    | Some (_, r) =>
        o ← method_at r;
        pkg ← package_of r;
        if has o ACC_FINAL && negb (has o ACC_PRIVATE || (is_package_private o && negb (bool_decide (pkg = m_package k)))) then Some None
        else if bool_decide (m_package k = pkg) || has o ACC_PUBLIC || has o ACC_PROTECTED || has o ACC_PRIVATE then
          pos ← position_of r;
          let s' := marked s ++ [r] in
          Some (Some (if bool_decide (pos.2 = 0) || is_interface k then new_entry s'
                      else AS (next_vtable_offset s) (num_entries s) (slots s ++ [Some pos]) final s'))
        else Some (Some (new_entry (marked s)))
    end.
Fixpoint assign_methods (this : nat) (super_table : list (option MethodRef)) (ms : list Class_Member) (s : assign_state) : option (option assign_state) :=
  match ms with
  | [] => Some (Some s)
  | m :: ms =>
      r ← assign_offset_to_method this super_table m s;
      match r with None => Some None | Some s => assign_methods this super_table ms s end
  end.
(** The super class, prepared. *)
Definition super_prepared (k : LClass) : option (option Prepared) :=
  match m_super_class k with None => Some None | Some s => p ← prepared !! s; Some (Some p) end.
(** The methods of a class and where they are.  [inherited] is the number of entries the
    class starts with. *)
Definition assign_offsets_to_methods (this : nat) (inherited : nat) (has_final : bool) : option (option (list Class_Member * assign_state)) :=
  k ← classes !! this;
  ms ← (if is_abstract_class k && negb (is_interface k) then
          add_new_fake_method (S (length classes)) this (m_superinterfaces k) (class_methods k)
        else Some (class_methods k));
  super ← super_prepared k;
  let super_table := match super with None => [] | Some p => take (m_num_virtual_method_entries p) (m_vtable_descriptors p) end in
  let start := ux 32 (Z.of_nat inherited * POINTER_SIZE env + (if is_interface k then 0 else VTABLE_OVERHEAD env)) in
  r ← assign_methods this super_table ms (AS start inherited [] has_final []);
  Some (match r with None => None | Some s => Some (ms, s) end).

(** ** The interfaces of a class *)

Definition class_weight (c : nat) : option Z :=
  k ← classes !! c; Some (sx 32 (Z.of_nat (length (class_methods k)) * 2 ^ 16 + m_id k)).
(** [class_comparator] on different classes; those of one weight have no order. *)
Fixpoint insert_class (c : nat) (l : list nat) : option (list nat) :=
  match l with
  | [] => Some [c]
  | d :: l =>
      if bool_decide (c = d) then Some (c :: d :: l)
      else
        wc ← class_weight c;
        wd ← class_weight d;
        if wc =? wd then None
        else if wd <? wc then Some (c :: d :: l)
        else l ← insert_class c l; Some (d :: l)
  end.
Fixpoint sort_classes (l : list nat) : option (list nat) :=
  match l with [] => Some [] | c :: l => l ← sort_classes l; insert_class c l end.
(** [std::unique] *)
Fixpoint unique (l : list nat) : list nat :=
  match l with
  | [] => []
  | c :: l => match l with d :: _ => if bool_decide (c = d) then unique l else c :: unique l | [] => [c] end
  end.
Fixpoint superinterfaces_of (fuel : nat) (c : nat) : option (list nat) :=
  match fuel with
  | O => None
  | S fuel =>
      k ← classes !! c;
      l ← (fix go (ifs : list nat) : option (list nat) :=
             match ifs with [] => Some [] | i :: ifs => a ← superinterfaces_of fuel i; b ← go ifs; Some (a ++ b) end) (m_superinterfaces k);
      Some (l ++ (if is_interface k then [c] else []))
  end.
Definition build_interface_table_descriptors (this : nat) : option (list nat) :=
  k ← classes !! this;
  super ← super_prepared k;
  let inherited := match super with None => [] | Some p => fst <$> intfc_table p end in
  own ← superinterfaces_of (S (length classes)) this;
  l ← sort_classes (inherited ++ own);
  Some (unique l).

(** ** The table *)

Definition non_clinit (ms : list Class_Member) : list nat :=
  List.filter (fun k => match ms !! k with Some m => negb (clinit_method m) | None => false end) (seq 0 (length ms)).
(** The methods of the interfaces in the order of the table. *)
Fixpoint interface_methods (ifs : list nat) : option (list MethodRef) :=
  match ifs with
  | [] => Some []
  | i :: ifs => ms ← methods_of i; rest ← interface_methods ifs; Some (((fun k => (i, k)) <$> non_clinit ms) ++ rest)
  end.
(** All methods but the static initialiser. *)
Definition num_methods (ms : list Class_Member) : nat := (length ms - (if existsb clinit_method ms then 1 else 0))%nat.
(** Where the table of each interface begins, from [from] on. *)
Fixpoint interface_starts (ifs : list nat) (from : nat) : option (list (nat * nat)) :=
  match ifs with
  | [] => Some []
  | i :: ifs =>
      ms ← methods_of i;
      rest ← interface_starts ifs (from + num_methods ms); Some ((i, from) :: rest)
  end.
(** The methods of the class in their slots. *)
Fixpoint override_methods (this : nat) (i : nat) (pos : list (option (nat * Z))) (table : list (option MethodRef)) : option (list (option MethodRef)) :=
  match pos with
  | [] => Some table
  | None :: pos => override_methods this (S i) pos table
  | Some (index, _) :: pos =>
      if (index <? length table)%nat then override_methods this (S i) pos (<[index := Some (this, i)]> table) else None
  end.
(** The methods of the super class, then those of the class, and for each method of an
    interface the first entry of its signature. *)
Definition interface_descriptor (virtual : list (option MethodRef)) (r : MethodRef) : option (option MethodRef) :=
  m ← method_at r;
  found ← find_descriptor virtual (_name m) (_descriptor m) 0;
  Some (match found with None => None | Some (_, d) => Some d end).
Definition populate_vtable_descriptors (this : nat) (pos : list (option (nat * Z))) (n : nat) (intfc_methods : list MethodRef)
    : option (list (option MethodRef)) :=
  k ← classes !! this;
  super ← super_prepared k;
  let inherited := match super with None => [] | Some p => take (m_num_virtual_method_entries p) (m_vtable_descriptors p) end in
  virtual ← override_methods this 0 pos (inherited ++ replicate (n - length inherited) None);
  intfc ← mapM (interface_descriptor virtual) intfc_methods;
  Some (virtual ++ intfc).

(** The first free place of five. *)
Fixpoint put_superclass (l : list (option nat)) (this : nat) : list (option nat) :=
  match l with
  | [] => []
  | None :: l => Some this :: l
  | Some c :: l => Some c :: put_superclass l this
  end.
(** The depth, the super classes, and whether they decide a test of type. *)
Definition create_vtable (this : nat) : option (nat * list (option nat) * bool) :=
  k ← classes !! this;
  super ← super_prepared k;
  let '(depth, supers) :=
    match super with
    | None => (0%nat, replicate MAX_FAST_INSTOF_DEPTH None)
    | Some p => (S (m_depth p), put_superclass (superclasses p) this)
    end in
  Some (depth, supers, (0 <? depth)%nat && (depth <? MAX_FAST_INSTOF_DEPTH)%nat && negb (m_is_array k) && negb (is_interface k)).

(** The slot of each virtual method gets its code. *)
Fixpoint point_vtable_entries (pos : MethodRef -> option (nat * Z)) (table : list (option MethodRef)) (code : list (option Entry))
    : option (list (option Entry)) :=
  match table with
  | [] => Some code
  | r :: table =>
      r ← r;
      m ← method_at r;
      p ← pos r;
      if has m ACC_STATIC then None
      else if negb ((p.2 - VTABLE_OVERHEAD env) / POINTER_SIZE env =? Z.of_nat p.1) then None
      else if (p.1 <? length code)%nat then point_vtable_entries pos table (<[p.1 := Some (CodeOf r)]> code) else None
  end.
Definition interface_entry (r : MethodRef) (d : option MethodRef) : option Entry :=
  match d with
  | None => Some (AbstractMethodError r)
  | Some d =>
      m ← method_at d;
      Some (if has m ACC_ABSTRACT then AbstractMethodError r else if has m ACC_PUBLIC then CodeOf d else IllegalAccessError d)
  end.
Fixpoint interface_entries (rs : list MethodRef) (ds : list (option MethodRef)) : option (list (option Entry)) :=
  match rs, ds with
  | r :: rs, d :: ds => e ← interface_entry r d; es ← interface_entries rs ds; Some (Some e :: es)
  | _, _ => Some []
  end.

(** ** Tests of types *)

(** Some interface of a list is a subtype. *)
Fixpoint any_subtype (rec : nat -> nat -> option bool) (ifs : list nat) (t : nat) : option bool :=
  match ifs with
  | [] => Some false
  | i :: ifs => b ← rec i t; if b : bool then Some true else any_subtype rec ifs t
  end.
(** The class and its super classes, or their interfaces. *)
Fixpoint up (rec : nat -> nat -> option bool) (n : nat) (c : option nat) (t : nat) (t_interface : bool) : option bool :=
  match c, n with
  | None, _ => Some false
  | Some _, O => None
  | Some c, S n =>
      k ← classes !! c;
      if negb t_interface then (if bool_decide (c = t) then Some true else up rec n (m_super_class k) t t_interface)
      else b ← any_subtype rec (m_superinterfaces k) t; if b : bool then Some true else up rec n (m_super_class k) t t_interface
  end.
Definition array_subtype (rec : nat -> nat -> option bool) (ks kt : LClass) (t : nat) : option bool :=
  if bool_decide (t = JavaLangObject_Class env) || bool_decide (t = java_io_Serializable_Class env) || bool_decide (t = java_lang_Cloneable_Class env)
  then Some true
  else if negb (m_is_array kt) then Some false
  else es ← m_array_element_class ks; et ← m_array_element_class kt; rec es et.
Fixpoint class_is_subtype (fuel : nat) (s t : nat) : option bool :=
  match fuel with
  | O => None
  | S fuel =>
      if bool_decide (s = t) then Some true
      else
        ks ← classes !! s;
        kt ← classes !! t;
        if m_is_array ks then array_subtype (class_is_subtype fuel) ks kt t
        else up (class_is_subtype fuel) (S (length classes)) (Some s) t (is_interface kt)
  end.
(** [Class::is_instanceof], of a class that is prepared. *)
Definition is_instanceof (fuel : nat) (s t : nat) : option bool :=
  ks ← classes !! s;
  kt ← classes !! t;
  if is_interface ks then None
  else if bool_decide (s = t) then Some true
  else if m_is_array ks then array_subtype (class_is_subtype fuel) ks kt t
  else if default false (m_is_suitable_for_fast_instanceof <$> prepared !! t) then
    pt ← prepared !! t;
    ps ← prepared !! s;
    e ← superclasses ps !! (m_depth pt - 1)%nat;
    Some (bool_decide (e = Some t))
  else up (class_is_subtype fuel) (S (length classes)) (Some s) t (is_interface kt).
(** [Class::helper_get_interface_vtable] *)
Fixpoint find_intfc (table : list (nat * nat)) (iid : nat) : option nat :=
  match table with
  | [] => None
  | (i, start) :: table => if bool_decide (i = iid) then Some start else find_intfc table iid
  end.
End tables.

(** ** Preparation *)

(** Steps 4, 6, 7 and 10 to 14 of [Class::prepare], and what an interface keeps of them. *)
Definition prepare_class (env : Tables) (classes : list LClass) (prepared : gmap nat Prepared) (this : nat) : option (option Prepared) :=
  k ← classes !! this;
  super ← super_prepared prepared k;
  let '(inherited, has_final) :=
    match super with
    | Some p => if is_interface k then (0%nat, false) else (m_num_virtual_method_entries p, m_has_finalizer p)
    | None => (0%nat, false)
    end in
  intfc ← build_interface_table_descriptors classes prepared this;
  r ← assign_offsets_to_methods env classes prepared this inherited has_final;
  match r with
  | None => Some None
  | Some (ms, st) =>
      let n := num_entries st in
      let with_methods := MkPrepared ms (slots st) n [] 0 [] false [] [] (finalizer st) (marked st) in
      if is_interface k then Some (Some with_methods)
      else
        let own := <[this := with_methods]> prepared in
        intfc_methods ← interface_methods classes prepared intfc;
        counts ← mapM (fun i => num_methods <$> methods_of classes prepared i) intfc;
        if (sum_list counts <? length intfc_methods)%nat then None
        else
          descriptors ← populate_vtable_descriptors classes own this (slots st) n intfc_methods;
          '(depth, supers, fast) ← create_vtable classes prepared this;
          code ← point_vtable_entries env classes own (position_of own) (take n descriptors) (replicate (n + sum_list counts) None);
          entries ← interface_entries classes own intfc_methods (drop n descriptors);
          starts ← interface_starts classes prepared intfc n;
          Some (Some (MkPrepared ms (slots st) n descriptors depth supers fast (take n code ++ entries) starts (finalizer st) (marked st)))
  end.

(** The classes that are prepared, and those in the state of an error. *)
Record PrepState := MkPrepState { done_ : gmap nat Prepared; errors : list nat }.
(** A class or an interface that must be prepared first.  When it has raised an exception the
    class reports its own, and [ClassLoader::ReportFailedClass] asserts that none is pending. *)
Definition needed (x : option (PrepState * bool)) : option PrepState := '(s, ok) ← x; if ok : bool then Some s else None.
(** [Class::prepare]; [false] is an exception. *)
Fixpoint prepare (env : Tables) (classes : list LClass) (fuel : nat) (s : PrepState) (this : nat) : option (PrepState * bool) :=
  match fuel with
  | O => None
  | S fuel =>
      if bool_decide (is_Some (done_ s !! this)) || bool_decide (this ∈ errors s) then Some (s, true)
      else
        k ← classes !! this;
        s ← (fix go (ifs : list nat) (s : PrepState) : option PrepState :=
               match ifs with
               | [] => Some s
               | i :: ifs =>
                   ki ← classes !! i;
                   if negb (is_interface ki) then None
                   else s ← needed (prepare env classes fuel s i); go ifs s
               end) (m_superinterfaces k) s;
        s ← match m_super_class k with
            | Some super => if negb (is_interface k) then needed (prepare env classes fuel s super) else Some s
            | None => Some s
            end;
        r ← prepare_class env classes (done_ s) this;
        match r with
        | None => Some (MkPrepState (done_ s) (this :: errors s), false)
        | Some p => Some (MkPrepState (<[this := p]> (done_ s)) (errors s), true)
        end
  end.
