(* ===== verification/SubtypeOk.v ===== *)
(** * Tests of types: the walk over super classes and interfaces decides the relation of subtypes *)
From stdpp Require Import gmap strings.
From S2P Require Import Prelude ByteReader ClassMembers ClassTables.

Section types.
Context (env : Tables) (classes : list LClass).
Abbreviation obj := (JavaLangObject_Class env).
Abbreviation serializable := (java_io_Serializable_Class env).
Abbreviation cloneable := (java_lang_Cloneable_Class env).

(** ** The relation *)

Inductive subtype : nat -> nat -> Prop :=
| subtype_refl c k : classes !! c = Some k -> subtype c c
| subtype_super s t k c : classes !! s = Some k -> m_super_class k = Some c -> subtype c t -> subtype s t
| subtype_interface s t k i : classes !! s = Some k -> In i (m_superinterfaces k) -> subtype i t -> subtype s t
| subtype_array s t ks kt es et : classes !! s = Some ks -> classes !! t = Some kt -> m_is_array ks = true -> m_is_array kt = true ->
    m_array_element_class ks = Some es -> m_array_element_class kt = Some et -> subtype es et -> subtype s t.

(** ** Loaded classes *)

(** What loading and linking make sure of: the class of objects is the root, super classes
    are classes, interfaces extend the class of objects, arrays extend it and have two
    interfaces, and nothing is above itself. *)
Record types_ok (rank : nat -> nat) : Prop := MkTypesOk {
  ty_rank : forall c, (rank c < length classes)%nat;
  ty_object : exists k, classes !! obj = Some k /\ m_super_class k = None /\ is_interface k = false;
  ty_root : forall c k, classes !! c = Some k -> m_super_class k = None -> m_superinterfaces k = [] /\ m_is_array k = false /\ is_interface k = false;
  ty_super : forall s k c, classes !! s = Some k -> m_super_class k = Some c ->
    exists kc, classes !! c = Some kc /\ is_interface kc = false /\ m_is_array kc = false /\ (m_super_class kc = None -> c = obj) /\ (rank c < rank s)%nat;
  ty_interface : forall s k i, classes !! s = Some k -> In i (m_superinterfaces k) ->
    exists ki, classes !! i = Some ki /\ is_interface ki = true /\ (rank i < rank s)%nat;
  ty_is_interface : forall i k, classes !! i = Some k -> is_interface k = true -> m_super_class k = Some obj /\ m_is_array k = false;
  ty_array : forall a k, classes !! a = Some k -> m_is_array k = true ->
    m_super_class k = Some obj /\ m_superinterfaces k = [cloneable; serializable] /\
    exists e ke, m_array_element_class k = Some e /\ classes !! e = Some ke /\ (rank e < rank a)%nat;
  ty_marker : forall i k, i = cloneable \/ i = serializable -> classes !! i = Some k -> m_superinterfaces k = [];
}.
Context (rank : nat -> nat) (Hok : types_ok rank).

(** The class is an ancestor by super classes, or the class itself. *)
Inductive above : nat -> nat -> Prop :=
| above_refl c : above c c
| above_super s k c t : classes !! s = Some k -> m_super_class k = Some c -> above c t -> above s t.
(** A class above has an interface that is a subtype. *)
Definition by_interface (s t : nat) : Prop := exists c k i, above s c /\ classes !! c = Some k /\ In i (m_superinterfaces k) /\ subtype i t.

Lemma subtype_known s t : subtype s t -> exists k, classes !! s = Some k.
Proof. intros H. destruct H; eauto. Qed.
Lemma object_top t : subtype obj t -> t = obj.
Proof.
  destruct (ty_object _ Hok) as (k & Hk & Hs & Hi). destruct (ty_root _ Hok _ _ Hk Hs) as (Hn & Ha & _).
  intros H. inversion H as [|s2 t2 k2 c2 H2 Hs2|s2 t2 k2 i2 H2 Hi2|s2 t2 k2 k3 e2 e3 H2 _ Ha2]; subst; simplify_eq; [done| |congruence].
  rewrite Hn in Hi2. destruct Hi2.
Qed.
Lemma interface_class i k t kt : classes !! i = Some k -> is_interface k = true -> subtype i t -> classes !! t = Some kt -> is_interface kt = false -> t = obj.
Proof.
  intros Hk Hi H. revert k Hk Hi. induction H as [c k0 H0|s t k0 c H0 Hs H IH|s t k0 j H0 Hj H IH|s t ks kt' es et H0 H1 Ha _ _ _ _ _]; intros k Hk Hi Ht Hf.
  - simplify_eq. congruence.
  - simplify_eq. destruct (ty_is_interface _ Hok _ _ H0 Hi) as [Hs' _]. simplify_eq. by apply object_top.
  - simplify_eq. destruct (ty_interface _ Hok _ _ _ H0 Hj) as (kj & Hkj & Hij & _). by apply (IH kj).
  - simplify_eq. destruct (ty_is_interface _ Hok _ _ H0 Hi) as [_ Hn]. congruence.
Qed.
Lemma reaches_object n s k : (rank s < n)%nat -> classes !! s = Some k -> is_Some (m_super_class k) -> above s obj.
Proof.
  revert s k. induction n as [|n IH]; intros s k Hr Hk [c Hc]; [lia|].
  destruct (ty_super _ Hok _ _ _ Hk Hc) as (kc & Hkc & _ & _ & Hroot & Hrank).
  destruct (m_super_class kc) as [c'|] eqn:E.
  - apply (above_super s k c obj Hk Hc). apply (IH c kc); [lia|done|by exists c'].
  - rewrite (Hroot eq_refl) in Hc. by apply (above_super s k obj obj Hk Hc), above_refl.
Qed.
Lemma above_subtype s t k : classes !! t = Some k -> above s t -> subtype s t.
Proof. intros Hk H. induction H; [by eapply subtype_refl|by eapply subtype_super; eauto]. Qed.
Lemma by_interface_subtype s t : by_interface s t -> subtype s t.
Proof.
  intros (c & k & i & Hab & Hk & Hi & Ht). induction Hab as [c|s k' c' t' Hs Hc _ IH].
  - by eapply subtype_interface.
  - eapply subtype_super; eauto.
Qed.

(** For a class that is no array: of another class it is above, of an interface it has one. *)
Lemma subtype_class s t ks kt : subtype s t -> classes !! s = Some ks -> m_is_array ks = false -> classes !! t = Some kt -> is_interface kt = false -> above s t.
Proof.
  intros H. revert ks. induction H as [c k0 H0|s t k0 c H0 Hs H IH|s t k0 j H0 Hj H IH|s t k0 kt' es et H0 H1 Ha _ _ _ _ _]; intros ks Hks Hna Ht Hf; try (assert (k0 = ks) as -> by congruence).
  - apply above_refl.
  - destruct (ty_super _ Hok _ _ _ H0 Hs) as (kc & Hkc & _ & Hca & _). eapply above_super; eauto.
  - destruct (ty_interface _ Hok _ _ _ H0 Hj) as (kj & Hkj & Hij & _). rewrite (interface_class j kj t kt Hkj Hij H Ht Hf).
    apply (reaches_object (S (rank s)) s ks); [lia|done|]. destruct (m_super_class ks) as [c|] eqn:E; [by exists c|].
    destruct (ty_root _ Hok _ _ H0 E) as (Hn & _). by rewrite Hn in Hj.
  - congruence.
Qed.
Lemma subtype_to_interface s t ks kt : subtype s t -> classes !! s = Some ks -> m_is_array ks = false -> classes !! t = Some kt -> is_interface kt = true ->
  s = t \/ by_interface s t.
Proof.
  intros H. revert ks. induction H as [c k0 H0|s t k0 c H0 Hs H IH|s t k0 j H0 Hj H IH|s t k0 kt' es et H0 H1 Ha _ _ _ _ _]; intros ks Hks Hna Ht Hf; try (assert (k0 = ks) as -> by congruence).
  - by left.
  - right. destruct (ty_super _ Hok _ _ _ H0 Hs) as (kc & Hkc & Hci & Hca & _).
    destruct (IH kc Hkc Hca Ht Hf) as [->|(c' & k' & i & Hab & Hk' & Hi & Hsub)]; [congruence|].
    exists c', k', i. split_and!; try done. eapply above_super; eauto.
  - right. exists s, ks, j. split_and!; try done. apply above_refl.
  - congruence.
Qed.
Lemma subtype_of_array s t ks kt : subtype s t -> classes !! s = Some ks -> m_is_array ks = true -> classes !! t = Some kt -> s <> t ->
  t = obj \/ t = serializable \/ t = cloneable \/
  (m_is_array kt = true /\ exists es et, m_array_element_class ks = Some es /\ m_array_element_class kt = Some et /\ subtype es et).
Proof.
  intros H Hks Ha Ht Hn. destruct (ty_array _ Hok _ _ Hks Ha) as (Hsup & Hifs & _).
  inversion H as [|s' t' k c H0 Hs Hsub|s' t' k i H0 Hi Hsub|s' t' k1 k2 es et H0 H1 Ha1 Ha2 He1 He2 Hsub]; subst; simplify_eq.
  - left. by apply object_top.
  - rewrite Hifs in Hi. assert (Hi' : i = cloneable \/ i = serializable) by (destruct Hi as [<-|[<-|[]]]; auto).
    destruct (ty_interface _ Hok s ks i Hks) as (ki & Hki & Hii & _); [rewrite Hifs; destruct Hi as [<-|[<-|[]]]; simpl; auto|].
    inversion Hsub as [|s2 t2 k2 c2 H2 Hs2 Hsub2|s2 t2 k2 i2 H2 Hi2 _|s2 t2 k2 k3 e2 e3 H2 _ Ha2 _ _ _ _]; subst; simplify_eq.
    + destruct Hi' as [->| ->]; auto.
    + left. destruct (ty_is_interface _ Hok _ _ Hki Hii) as [Hso _]. simplify_eq. by apply object_top.
    + rewrite (ty_marker _ Hok _ _ Hi' Hki) in Hi2. destruct Hi2.
    + destruct (ty_is_interface _ Hok _ _ Hki Hii) as [_ Hna]. congruence.
  - do 3 right. split; [done|]. by exists es, et.
Qed.

(** ** The code decides the relation *)

(** [rec] decides the relation for what is below [n]. *)
Definition decides (rec : nat -> nat -> option bool) (n : nat) : Prop :=
  forall s t, (rank s < n)%nat -> is_Some (classes !! s) -> is_Some (classes !! t) -> exists b, rec s t = Some b /\ (b = true <-> subtype s t).

Lemma any_subtype_ok rec n ifs t : decides rec n -> is_Some (classes !! t) ->
  (forall i, In i ifs -> (rank i < n)%nat /\ is_Some (classes !! i)) ->
  exists b, any_subtype rec ifs t = Some b /\ (b = true <-> exists i, In i ifs /\ subtype i t).
Proof.
  intros Hrec Ht. induction ifs as [|i ifs IH]; intros Hifs; cbn [any_subtype].
  { exists false. split; [done|]. split; [done|]. by intros (? & [] & _). }
  destruct (Hifs i) as [Hr Hi]; [by left|]. destruct (Hrec i t Hr Hi Ht) as (b & -> & Hb). cbn [mbind option_bind].
  destruct b.
  - exists true. split; [done|]. split; [|done]. intros _. exists i. split; [by left|by apply Hb].
  - destruct IH as (b & Hbe & Hb'); [intros j Hj; apply Hifs; by right|]. exists b. split; [done|]. rewrite Hb'.
    split; intros (j & Hj & Hs); exists j; (split; [|done]).
    + by right.
    + destruct Hj as [->|Hj]; [|done]. by apply Hb in Hs.
Qed.
Lemma up_ok rec n c k t kt m : decides rec n -> classes !! c = Some k -> (rank c <= n)%nat -> (rank c < m)%nat -> classes !! t = Some kt ->
  exists b, up classes rec m (Some c) t (is_interface kt) = Some b /\ (b = true <-> if is_interface kt then by_interface c t else above c t).
Proof.
  intros Hrec. revert c k. induction m as [|m IH]; intros c k Hk Hn Hm Ht; [lia|]. cbn [up]. rewrite Hk. cbn [mbind option_bind].
  assert (Hnext : exists b, up classes rec m (m_super_class k) t (is_interface kt) = Some b /\
    (b = true <-> exists c', m_super_class k = Some c' /\ if is_interface kt then by_interface c' t else above c' t)).
  { destruct (m_super_class k) as [c'|] eqn:Es.
    - destruct (ty_super _ Hok _ _ _ Hk Es) as (kc & Hkc & _ & _ & _ & Hr). destruct (IH c' kc Hkc) as (b & Hb & Hb'); [lia|lia|done|].
      exists b. split; [done|]. rewrite Hb'. split; [intros H; by exists c'|]. intros (c2 & [= <-] & H). exact H.
    - exists false. split; [by destruct m|]. split; [done|]. by intros (c' & ? & _). }
  destruct (is_interface kt) eqn:Ei; cbn [negb].
  - destruct (any_subtype_ok rec n (m_superinterfaces k) t Hrec ltac:(by eexists)) as (b & -> & Hb).
    { intros i Hi. destruct (ty_interface _ Hok _ _ _ Hk Hi) as (ki & Hki & _ & Hr). split; [lia|by exists ki]. }
    cbn [mbind option_bind]. destruct b.
    + exists true. split; [done|]. split; [|done]. intros _. destruct Hb as [Hb _]. destruct (Hb eq_refl) as (i & Hi & Hs).
      exists c, k, i. split_and!; try done. apply above_refl.
    + destruct Hnext as (b & Hbe & Hb'). exists b. split; [done|]. rewrite Hb'. split.
      * intros (c' & Hc' & (d & kd & i & Hab & Hrest)). exists d, kd, i. split; [by eapply above_super|done].
      * intros (d & kd & i & Hab & Hkd & Hi & Hs). inversion Hab as [|s' k' c' t' Hk' Hc' Hab']; subst.
        -- simplify_eq. destruct Hb as [_ Hb]. discriminate Hb. by exists i.
        -- simplify_eq. exists c'. split; [done|]. exists d, kd, i. done.
  - destruct (bool_decide_reflect (c = t)) as [->|Hne].
    + exists true. split; [done|]. split; [intros _; apply above_refl|done].
    + destruct Hnext as (b & Hbe & Hb'). exists b. split; [done|]. rewrite Hb'. split.
      * intros (c' & Hc' & Hab). by eapply above_super.
      * intros Hab. inversion Hab as [|s' k' c' t' Hk' Hc' Hab']; subst; [done|]. simplify_eq. by exists c'.
Qed.
Lemma array_subtype_ok rec n s t ks kt : decides rec n -> classes !! s = Some ks -> m_is_array ks = true -> classes !! t = Some kt -> s <> t -> (rank s <= n)%nat ->
  exists b, array_subtype env rec ks kt t = Some b /\ (b = true <-> subtype s t).
Proof.
  intros Hrec Hks Ha Ht Hn Hr. destruct (ty_array _ Hok _ _ Hks Ha) as (Hsup & Hifs & e & ke & He & Hke & Hre).
  destruct (ty_object _ Hok) as (ko & Hko & _). unfold array_subtype.
  assert (Hmark : forall i, In i [cloneable; serializable] -> subtype s i).
  { intros i Hi. destruct (ty_interface _ Hok s ks i Hks) as (ki & Hki & _); [by rewrite Hifs|]. eapply subtype_interface; [done|by rewrite Hifs|by eapply subtype_refl]. }
  destruct (bool_decide_reflect (t = obj)) as [->|Ho]; cbn [orb].
  { exists true. split; [done|]. split; [|done]. intros _. eapply subtype_super; [done|done|by eapply subtype_refl]. }
  destruct (bool_decide_reflect (t = serializable)) as [->|Hs]; cbn [orb].
  { exists true. split; [done|]. split; [|done]. intros _. apply Hmark. simpl. auto. }
  destruct (bool_decide_reflect (t = cloneable)) as [->|Hc]; cbn [orb].
  { exists true. split; [done|]. split; [|done]. intros _. apply Hmark. simpl. auto. }
  destruct (m_is_array kt) eqn:Eat; cbn [negb].
  - rewrite He. cbn [mbind option_bind]. destruct (ty_array _ Hok _ _ Ht Eat) as (_ & _ & e' & ke' & He' & Hke' & _). rewrite He'. cbn [mbind option_bind].
    destruct (Hrec e e') as (b & -> & Hb); [lia|by exists ke|by exists ke'|]. exists b. split; [done|]. rewrite Hb. split.
    + intros H. by eapply subtype_array.
    + intros H. destruct (subtype_of_array s t ks kt H Hks Ha Ht Hn) as [?|[?|[?|(_ & es & et & H1 & H2 & H3)]]]; [done..|]. by simplify_eq.
  - exists false. split; [done|]. split; [done|]. intros H.
    destruct (subtype_of_array s t ks kt H Hks Ha Ht Hn) as [?|[?|[?|(H1 & _)]]]; [done..|]. congruence.
Qed.

(** Where the relation holds of different classes. *)
Lemma subtype_up s t ks kt : classes !! s = Some ks -> m_is_array ks = false -> classes !! t = Some kt -> s <> t ->
  (subtype s t <-> if is_interface kt then by_interface s t else above s t).
Proof.
  intros Hks Ha Hkt Hn. destruct (is_interface kt) eqn:Ei.
  - split; [|apply by_interface_subtype]. intros H. by destruct (subtype_to_interface s t ks kt H Hks Ha Hkt Ei).
  - split; [|by eapply above_subtype]. intros H. by apply (subtype_class s t ks kt).
Qed.
Lemma class_is_subtype_decides fuel : decides (class_is_subtype env classes fuel) fuel.
Proof.
  induction fuel as [|fuel IH]; intros s t Hr [ks Hks] [kt Hkt]; [lia|]. cbn [class_is_subtype].
  destruct (bool_decide_reflect (s = t)) as [->|Hn].
  { exists true. split; [done|]. split; [|done]. intros _. by eapply subtype_refl. }
  rewrite Hks, Hkt. cbn [mbind option_bind]. destruct (m_is_array ks) eqn:Ea.
  - apply (array_subtype_ok _ fuel); done || lia.
  - destruct (up_ok _ fuel s ks t kt (S (length classes)) IH Hks) as (b & Hb & Hb'); [lia|pose proof (ty_rank _ Hok s); lia|done|].
    exists b. split; [done|]. rewrite Hb'. symmetry. by eapply subtype_up.
Qed.
End types.

(** [class_is_subtype] decides the relation of subtypes: reflexive, closed under super
    classes and interfaces, and covariant in the elements of arrays.  With as much fuel as
    there are classes it always answers. *)
Theorem class_is_subtype_spec env classes rank s t : types_ok env classes rank -> is_Some (classes !! s) -> is_Some (classes !! t) ->
  exists b, class_is_subtype env classes (S (length classes)) s t = Some b /\ (b = true <-> subtype classes s t).
Proof.
  intros Hok Hs Ht. apply (class_is_subtype_decides env classes rank Hok); [|done..]. pose proof (ty_rank _ _ _ Hok s). lia.
Qed.

(** ** Preparation step by step *)

(** Super classes and interfaces are below. *)
Definition acyclic (classes : list LClass) (rank : nat -> nat) : Prop :=
  forall c k d, classes !! c = Some k -> m_super_class k = Some d \/ In d (m_superinterfaces k) -> (rank d < rank c)%nat.
(** [s'] has what [s] has, and nothing new from [n] on. *)
Definition grows (rank : nat -> nat) (n : nat) (s s' : gmap nat Prepared) : Prop :=
  (forall c p, s !! c = Some p -> s' !! c = Some p) /\ (forall c, (n <= rank c)%nat -> s' !! c = s !! c).
Lemma grows_refl rank n s : grows rank n s s.
Proof. by split. Qed.
Lemma grows_trans rank n m s s1 s2 : (m <= n)%nat -> grows rank m s s1 -> grows rank n s1 s2 -> grows rank n s s2.
Proof. intros Hm [H1 H2] [H3 H4]. split; [eauto|]. intros c Hc. rewrite H4 by done. apply H2. lia. Qed.
Lemma grows_more rank n m s s1 : (m <= n)%nat -> grows rank m s s1 -> grows rank n s s1.
Proof. intros Hm [H1 H2]. split; [done|]. intros c Hc. apply H2. lia. Qed.

(** What every class that gets prepared keeps true is true afterwards. *)
Lemma prepare_inv env classes rank (I : gmap nat Prepared -> Prop) : acyclic classes rank ->
  (forall st this p, I st -> st !! this = None -> prepare_class env classes st this = Some (Some p) -> I (<[this := p]> st)) ->
  forall fuel s this s' ok, prepare env classes fuel s this = Some (s', ok) -> I (done_ s) -> I (done_ s') /\ grows rank (S (rank this)) (done_ s) (done_ s').
Proof.
  intros Hac Hstep. induction fuel as [|fuel IH]; intros s this s' ok H Hs; [done|]. cbn [prepare] in H.
  destruct (bool_decide_reflect (is_Some (done_ s !! this))) as [|Hnew]; [injection H as <- _; split; [done|apply grows_refl]|]. cbn [orb] in H.
  destruct (bool_decide (this ∈ errors s)); [injection H as <- _; split; [done|apply grows_refl]|].
  destruct (classes !! this) as [k|] eqn:Hk; [|done]. cbn [mbind option_bind] in H.
  set (go := fix go (ifs : list nat) (s : PrepState) := _) in H.
  assert (Hgo : forall ifs a a2, (forall i, In i ifs -> (rank i < rank this)%nat) -> go ifs a = Some a2 -> I (done_ a) ->
    I (done_ a2) /\ grows rank (rank this) (done_ a) (done_ a2)).
  { induction ifs as [|i ifs IHifs]; intros a a2 Hr Ha Hia; simpl in Ha; [injection Ha as <-; split; [done|apply grows_refl]|].
    destruct (classes !! i) as [ki|]; [|done]. cbn [mbind option_bind] in Ha. destruct (is_interface ki); [|done]. cbn [negb] in Ha.
    destruct (prepare env classes fuel a i) as [[a1 [|]]|] eqn:E; [|done..]. cbn [needed mbind option_bind] in Ha. apply IH in E as [E1 E2]; [|done].
    specialize (Hr i (or_introl eq_refl)) as Hri. apply (grows_more _ (rank this)) in E2; [|lia].
    destruct (IHifs a1 a2) as [E3 E4]; [intros j Hj; apply Hr; by right|done|done|]. split; [done|]. eapply grows_trans; [|exact E2|exact E4]; lia. }
  destruct (go (m_superinterfaces k) s) as [s1|] eqn:E1; [|done]. cbn [mbind option_bind] in H. apply Hgo in E1 as [E1 G1]; [| |done].
  2:{ intros i Hi. eapply Hac; [exact Hk|by right]. }
  set (up1 := match m_super_class k with Some super => _ | None => _ end) in H.
  destruct up1 as [s2|] eqn:E2; [|done]. cbn [mbind option_bind] in H.
  assert (Hs2 : I (done_ s2) /\ grows rank (rank this) (done_ s1) (done_ s2)).
  { subst up1. destruct (m_super_class k) as [c|] eqn:Ec; [|injection E2 as <-; split; [done|apply grows_refl]].
    destruct (negb (is_interface k)); [|injection E2 as <-; split; [done|apply grows_refl]].
    destruct (prepare env classes fuel s1 c) as [[s3 [|]]|] eqn:E; [|done..]. injection E2 as ->.
    apply IH in E as [? G]; [|done]. split; [done|]. eapply grows_more; [|exact G]. assert (rank c < rank this)%nat by (eapply Hac; [exact Hk|by left]). lia. }
  destruct Hs2 as [Hs2 G2]. assert (G : grows rank (rank this) (done_ s) (done_ s2)) by (eapply grows_trans; [|exact G1|exact G2]; lia).
  destruct (prepare_class env classes (done_ s2) this) as [[p|]|] eqn:E3; [| |done]; cbn [mbind option_bind] in H; injection H as <- _;
    [|split; [done|eapply grows_more; [|eassumption]; simpl; lia]].
  assert (Hn : done_ s2 !! this = None) by (rewrite (proj2 G this) by lia; by apply eq_None_not_Some).
  split; [by apply Hstep|]. simpl. split.
  - intros c p' Hc. rewrite lookup_insert_ne; [by apply (proj1 G)|]. intros <-. apply Hnew. by exists p'.
  - intros c Hc. rewrite lookup_insert_ne by (intros <-; lia). apply (proj2 G). lia.
Qed.

(** ** The fast test *)

Section fast.
Context (env : Tables) (classes : list LClass) (rank : nat -> nat) (Hok : types_ok env classes rank).

(** The super classes below the root, and the class. *)
Inductive line : nat -> list nat -> Prop :=
| line_root c k : classes !! c = Some k -> m_super_class k = None -> line c []
| line_step s k c l : classes !! s = Some k -> m_super_class k = Some c -> line c l -> line s (l ++ [s]).
Lemma line_unique c l l' : line c l -> line c l' -> l = l'.
Proof.
  intros H. revert l'. induction H as [c k Hk Hn|s k c l Hk Hs _ IH]; intros l' H'; inversion H' as [c' k' Hk' Hn'|s' k' c' l2 Hk' Hs' H2]; subst; simplify_eq; [done|].
  f_equal. by apply IH.
Qed.
Lemma line_above c l : line c l -> forall t, t ∈ l -> above classes c t.
Proof.
  induction 1 as [c k Hk Hn|s k c l Hk Hs _ IH]; intros t Ht; [by apply elem_of_nil in Ht|].
  apply elem_of_app in Ht as [Ht|Ht]; [eapply above_super; eauto|]. apply list_elem_of_singleton in Ht as ->. apply above_refl.
Qed.
Lemma above_line s t : above classes s t -> forall l lt, line s l -> line t lt -> exists r, l = lt ++ r.
Proof.
  induction 1 as [c|s k c t Hk Hs _ IH]; intros l lt Hl Ht.
  - exists []. rewrite app_nil_r. by eapply line_unique.
  - inversion Hl as [c' k' Hk' Hn'|s' k' c' l2 Hk' Hs' H2]; subst; simplify_eq. destruct (IH l2 lt H2 Ht) as [r ->]. exists (r ++ [s]). by rewrite app_assoc.
Qed.

Definition display (l : list nat) : list (option nat) := take MAX_FAST_INSTOF_DEPTH ((Some <$> l) ++ replicate MAX_FAST_INSTOF_DEPTH None).
Lemma put_padded n m l this : (n <= m)%nat ->
  put_superclass (take n ((Some <$> l) ++ replicate m None)) this = take n ((Some <$> l ++ [this]) ++ replicate m None).
Proof.
  revert n m. induction l as [|c l IH]; intros [|n] m Hm; try done; simpl.
  - destruct m as [|m]; [lia|]. simpl. f_equal. rewrite !take_replicate, !Nat.min_l by lia.
    change (take n (None :: replicate m None)) with (take n (replicate (S m) (@None nat))). rewrite take_replicate. f_equal. lia.
  - f_equal. apply IH. lia.
Qed.

(** What preparation knows of a class that is no interface. *)
Definition display_ok (c : nat) (k : LClass) (p : Prepared) : Prop :=
  if is_interface k then m_is_suitable_for_fast_instanceof p = false
  else exists l, line c l /\ m_depth p = length l /\ superclasses p = display l /\
    m_is_suitable_for_fast_instanceof p = (0 <? length l)%nat && (length l <? MAX_FAST_INSTOF_DEPTH)%nat && negb (m_is_array k).
Definition displays (st : gmap nat Prepared) : Prop := forall c k p, st !! c = Some p -> classes !! c = Some k -> display_ok c k p.

Lemma prepare_class_display st this p : displays st -> prepare_class env classes st this = Some (Some p) -> displays (<[this := p]> st).
Proof.
  intros Hst H c k q Hc Hk. destruct (decide (this = c)) as [->|Hn]; [rewrite lookup_insert_eq in Hc; injection Hc as <-|rewrite lookup_insert_ne in Hc by done; by eapply Hst].
  unfold prepare_class in H. rewrite Hk in H. cbn [mbind option_bind] in H. destruct (super_prepared st k) as [super|] eqn:Esup; [|done]. cbn [mbind option_bind] in H.
  destruct (match super with Some _ => _ | None => _ end) as [inh hf] in H.
  destruct (build_interface_table_descriptors classes st c) as [intfc|]; [|done]. cbn [mbind option_bind] in H.
  destruct (assign_offsets_to_methods env classes st c inh hf) as [[[ms a]|]|]; [|done..]. cbn [mbind option_bind] in H.
  unfold display_ok. destruct (is_interface k) eqn:Ei; [by injection H as <-|].
  destruct (interface_methods classes st intfc) as [ims|]; [|done]. cbn [mbind option_bind] in H.
  destruct (mapM _ intfc) as [counts|]; [|done]. cbn [mbind option_bind] in H. destruct (_ <? _)%nat; [done|].
  destruct (populate_vtable_descriptors _ _ _ _ _ _) as [ds|]; [|done]. cbn [mbind option_bind] in H.
  unfold create_vtable in H. rewrite Hk in H. cbn [mbind option_bind] in H. rewrite Esup in H. cbn [mbind option_bind] in H.
  assert (Hline : exists l, line c l /\ match super with None => (0%nat, replicate MAX_FAST_INSTOF_DEPTH None) | Some ps => (S (m_depth ps), put_superclass (superclasses ps) c) end = (length l, display l)).
  { unfold super_prepared in Esup. destruct (m_super_class k) as [d|] eqn:Ed.
    - destruct (st !! d) as [ps|] eqn:Eps; [|done]. injection Esup as <-. destruct (ty_super _ _ _ Hok _ _ _ Hk Ed) as (kd & Hkd & Hid & _).
      pose proof (Hst d kd ps Eps Hkd) as Hd. unfold display_ok in Hd. rewrite Hid in Hd. destruct Hd as (l & Hl & Hdepth & Hsup & _).
      exists (l ++ [c]). split; [by eapply line_step|]. rewrite Hdepth, Hsup, length_app. unfold display. rewrite put_padded by done. f_equal. simpl. lia.
    - injection Esup as <-. exists []. split; [by eapply line_root|done]. }
  destruct Hline as (l & Hl & Heq). rewrite Heq in H. cbn [mbind option_bind] in H.
  destruct (point_vtable_entries _ _ _ _ _ _) as [code|]; [|done]. cbn [mbind option_bind] in H.
  destruct (interface_entries _ _ _ _) as [es|]; [|done]. cbn [mbind option_bind] in H.
  destruct (interface_starts _ _ _ _) as [starts|]; [|done]. cbn [mbind option_bind] in H. injection H as <-.
  exists l. cbn [m_depth superclasses m_is_suitable_for_fast_instanceof]. rewrite Ei. cbn [negb]. rewrite andb_true_r. done.
Qed.

Lemma fast_test st s t ks ps kt pt : displays st -> classes !! s = Some ks -> is_interface ks = false -> st !! s = Some ps ->
  classes !! t = Some kt -> st !! t = Some pt -> m_is_suitable_for_fast_instanceof pt = true ->
  is_interface kt = false /\ exists e, superclasses ps !! (m_depth pt - 1)%nat = Some e /\ (e = Some t <-> above classes s t).
Proof.
  intros Hst Hks Hi Hps Hkt Hpt Hf. pose proof (Hst s ks ps Hps Hks) as Hs. pose proof (Hst t kt pt Hpt Hkt) as Ht. unfold display_ok in Hs, Ht.
  rewrite Hi in Hs. destruct (is_interface kt); [congruence|]. split; [done|]. destruct Hs as (l & Hl & _ & Hsup & _), Ht as (lt & Hlt & Hd & _ & Hflag).
  rewrite Hf in Hflag. symmetry in Hflag. apply andb_prop in Hflag as [Hflag _]. apply andb_prop in Hflag as [H0%Nat.ltb_lt H5%Nat.ltb_lt].
  rewrite Hsup, Hd. unfold display. rewrite lookup_take_lt by lia.
  assert (Hlast : exists l0, lt = l0 ++ [t]).
  { inversion Hlt as [c' k' Hk' Hn'|s' k' c' l2 Hk' Hs' H2]; subst; [simpl in H0; lia|by exists l2]. }
  destruct Hlast as [l0 ->]. rewrite length_app in *. cbn [length] in *. replace (length l0 + 1 - 1)%nat with (length l0) by lia.
  destruct (decide (length l0 < length l)%nat) as [Hin|Hout].
  - destruct (lookup_lt_is_Some_2 l (length l0) Hin) as [x Hx]. exists (Some x). rewrite lookup_app_l by (by rewrite length_fmap).
    rewrite list_lookup_fmap, Hx. split; [done|]. split.
    + intros [= ->]. apply (line_above s l Hl). by eapply list_elem_of_lookup_2.
    + intros Hab. destruct (above_line s t Hab l (l0 ++ [t]) Hl Hlt) as [r ->]. rewrite <- app_assoc in Hx. simpl in Hx. rewrite list_lookup_middle in Hx by done. congruence.
  - exists None. rewrite lookup_app_r by (rewrite length_fmap; lia). rewrite length_fmap, lookup_replicate_2 by (unfold MAX_FAST_INSTOF_DEPTH in *; lia).
    split; [done|]. split; [done|]. intros Hab. destruct (above_line s t Hab l (l0 ++ [t]) Hl Hlt) as [r ->]. rewrite !length_app in Hout. simpl in Hout. lia.
Qed.
End fast.

Lemma types_acyclic env classes rank : types_ok env classes rank -> acyclic classes rank.
Proof.
  intros Hok c k d Hk [Hs|Hi].
  - destruct (ty_super _ _ _ Hok _ _ _ Hk Hs) as (kd & _ & _ & _ & _ & H). done.
  - destruct (ty_interface _ _ _ Hok _ _ _ Hk Hi) as (kd & _ & _ & H). done.
Qed.

(** One class after the other is prepared, whatever comes of it. *)
Fixpoint prepare_each (env : Tables) (classes : list LClass) (fuel : nat) (s : PrepState) (cs : list nat) : option PrepState :=
  match cs with [] => Some s | c :: cs => '(s, _) ← prepare env classes fuel s c; prepare_each env classes fuel s cs end.
Definition unprepared : PrepState := MkPrepState ∅ [].
Lemma prepare_each_inv env classes rank (I : gmap nat Prepared -> Prop) : acyclic classes rank ->
  (forall st this p, I st -> st !! this = None -> prepare_class env classes st this = Some (Some p) -> I (<[this := p]> st)) ->
  forall fuel cs s s', prepare_each env classes fuel s cs = Some s' -> I (done_ s) -> I (done_ s').
Proof.
  intros Hac Hstep fuel. induction cs as [|c cs IH]; intros s s' H Hs; cbn [prepare_each] in H; [by injection H as <-|].
  destruct (prepare env classes fuel s c) as [[s1 ok]|] eqn:E; [|done]. cbn [mbind option_bind] in H.
  eapply IH; [exact H|]. by eapply (prepare_inv env classes rank I Hac Hstep) in E as [E _].
Qed.

(** C10: The test of an instance: whatever classes were prepared and in whatever order, for a
    prepared class that is no interface [is_instanceof] decides the relation of subtypes
    too, though for most classes it reads one entry of the super classes in the virtual
    table. *)
Theorem is_instanceof_spec env classes rank fuel order st s t ks : types_ok env classes rank ->
  prepare_each env classes fuel unprepared order = Some st -> classes !! s = Some ks -> is_interface ks = false -> is_Some (done_ st !! s) ->
  is_Some (classes !! t) -> exists b, is_instanceof env classes (done_ st) (S (length classes)) s t = Some b /\ (b = true <-> subtype classes s t).
Proof.
  intros Hok Hprep Hks Hi [ps Hps] [kt Hkt]. pose proof (prepare_each_inv env classes rank (displays classes) (types_acyclic _ _ _ Hok)
    (fun st this p Hst _ H => prepare_class_display env classes rank Hok st this p Hst H) _ _ _ _ Hprep ltac:(by intros c k p Hc)) as Hst.
  pose proof (class_is_subtype_decides env classes rank Hok (S (length classes))) as Hrec. pose proof (ty_rank _ _ _ Hok s) as Hr.
  unfold is_instanceof. rewrite Hks, Hkt. cbn [mbind option_bind]. rewrite Hi. destruct (bool_decide_reflect (s = t)) as [->|Hn].
  { exists true. split; [done|]. split; [|done]. intros _. by eapply subtype_refl. }
  destruct (m_is_array ks) eqn:Ea; [by eapply (array_subtype_ok env classes rank Hok); eauto; lia|].
  destruct (default false (m_is_suitable_for_fast_instanceof <$> done_ st !! t)) eqn:Ef.
  - destruct (done_ st !! t) as [pt|] eqn:Ept; [|done]. simpl in Ef. cbn [mbind option_bind]. rewrite Hps. cbn [mbind option_bind].
    destruct (fast_test classes (done_ st) s t ks ps kt pt Hst Hks Hi Hps Hkt Ept Ef) as (Hkti & e & He & Hiff). rewrite He. cbn [mbind option_bind].
    exists (bool_decide (e = Some t)). split; [done|]. rewrite bool_decide_eq_true, Hiff. pose proof (subtype_up env classes rank Hok s t ks kt Hks Ea Hkt Hn) as Hup.
    rewrite Hkti in Hup. by rewrite Hup.
  - destruct (up_ok env classes rank Hok _ (S (length classes)) s ks t kt (S (length classes)) Hrec Hks) as (b & Hb & Hb'); [lia|lia|done|].
    exists b. split; [done|]. rewrite Hb'. symmetry. by apply (subtype_up env classes rank Hok s t ks kt).
Qed.
