(* ===== verification/VTablesOk.v ===== *)
(** * The tables of a class: slots *)
From stdpp Require Import gmap strings.
From S2P Require Import Prelude ByteReader ClassMembers ClassTables SubtypeOk.

Definition virtual (m : Class_Member) : bool := negb (has m ACC_STATIC || init_method m).
Definition same_sig (m m' : Class_Member) : Prop := _name m = _name m' /\ _descriptor m = _descriptor m'.
Lemma same_signature_true name desc m : same_signature name desc m = true <-> _name m = name /\ _descriptor m = desc.
Proof. unfold same_signature. rewrite andb_true_iff, !bool_decide_eq_true. done. Qed.
Lemma same_sig_true m m' : same_signature (_name m) (_descriptor m) m' = true <-> same_sig m m'.
Proof. rewrite same_signature_true. unfold same_sig. split; intros [-> ->]; done. Qed.
(** No two methods of one signature. *)
Definition distinct (ms : list Class_Member) : Prop :=
  forall i j m m', ms !! i = Some m -> ms !! j = Some m' -> same_sig m m' -> i = j.

Lemma above_cases classes c t : above classes c t -> c = t \/ exists k d, classes !! c = Some k /\ m_super_class k = Some d /\ above classes d t.
Proof. destruct 1 as [c|s k c t Hk Hs H]; [by left|right; by exists k, c]. Qed.

(** ** Which method a class has *)

(** The first virtual method of a signature in the class and its super classes. *)
Inductive selected (classes : list LClass) (st : gmap nat Prepared) : nat -> string -> string -> MethodRef -> Prop :=
| selected_here c i m name desc : method_at classes st (c, i) = Some m -> virtual m = true -> same_signature name desc m = true ->
    selected classes st c name desc (c, i)
| selected_super c k d name desc r : classes !! c = Some k -> m_super_class k = Some d ->
    (forall i m, method_at classes st (c, i) = Some m -> virtual m = true -> same_signature name desc m = false) ->
    selected classes st d name desc r -> selected classes st c name desc r.

Section slots.
Context (env : Tables) (classes : list LClass) (st : gmap nat Prepared).
Context (Hptr : 0 < POINTER_SIZE env) (Hhead : 0 < VTABLE_OVERHEAD env).
Definition offset_of (interface : bool) (j : nat) : Z := (if interface then 0 else VTABLE_OVERHEAD env) + Z.of_nat j * POINTER_SIZE env.

(** ** A table of virtual methods *)

(** What an entry at [j] points to. *)
Definition entry_at (T : list (option MethodRef)) (j : nat) (r : MethodRef) (m : Class_Member) : Prop :=
  T !! j = Some (Some r) /\ method_at classes st r = Some m.
Definition table_ok (T : list (option MethodRef)) : Prop :=
  forall j, (j < length T)%nat -> exists r m, entry_at T j r m /\ virtual m = true /\ position_of st r = Some (j, offset_of false j) /\
    is_Some (st !! r.1) /\ is_Some (classes !! r.1).
Lemma entry_fun T j r m r' m' : entry_at T j r m -> entry_at T j r' m' -> r = r' /\ m = m'.
Proof. intros [H1 H2] [H3 H4]. rewrite H1 in H3. injection H3 as <-. rewrite H2 in H4. by injection H4 as <-. Qed.

Lemma find_descriptor_gen (P : nat -> MethodRef -> Class_Member -> Prop) T name desc j0 :
  (forall j, (j < length T)%nat -> exists r m, entry_at T j r m /\ P (j0 + j)%nat r m) ->
  exists res, find_descriptor classes st T name desc j0 = Some res /\
  match res with
  | None => forall j r m, entry_at T j r m -> same_signature name desc m = false
  | Some (j, r) => exists q m, j = (j0 + q)%nat /\ entry_at T q r m /\ same_signature name desc m = true /\ P j r m /\
      forall i r' m', (i < q)%nat -> entry_at T i r' m' -> same_signature name desc m' = false
  end.
Proof.
  revert j0. induction T as [|x T IH]; intros j0 HT; cbn [find_descriptor].
  { exists None. split; [done|]. intros j r m [H _]. by rewrite lookup_nil in H. }
  destruct (HT 0%nat) as (r & m & [H1 H2] & HP); [simpl; lia|]. simpl in H1. injection H1 as ->. cbn [mbind option_bind]. rewrite H2. cbn [mbind option_bind].
  rewrite Nat.add_0_r in HP. destruct (same_signature name desc m) eqn:Es.
  - exists (Some (j0, r)). split; [done|]. exists 0%nat, m. rewrite Nat.add_0_r. split_and!; try done. intros i r' m' Hi. lia.
  - destruct (IH (S j0)) as (res & -> & Hres).
    { intros j Hj. destruct (HT (S j)) as (r' & m' & Hr' & HP'); [simpl; lia|]. exists r', m'. split; [done|]. by replace (S j0 + j)%nat with (j0 + S j)%nat by lia. }
    exists res. split; [done|]. destruct res as [[j r']|].
    + destruct Hres as (q & m' & -> & H3 & H4 & H5 & H6). exists (S q), m'. split; [lia|]. split_and!; try done.
      intros [|i] r2 m2 Hi [H7 H8]; [|by apply (H6 i r2 m2); [lia|]]. simpl in H7. injection H7 as <-. rewrite H2 in H8. by injection H8 as <-.
    + intros [|j] r' m' [H3 H4]; [simpl in H3; injection H3 as <-; rewrite H2 in H4; by injection H4 as <-|by apply (Hres j r')].
Qed.
Lemma find_descriptor_ok T name desc : table_ok T -> exists res, find_descriptor classes st T name desc 0 = Some res /\
  match res with
  | None => forall j r m, entry_at T j r m -> same_signature name desc m = false
  | Some (j, r) => exists m, entry_at T j r m /\ same_signature name desc m = true /\ position_of st r = Some (j, offset_of false j) /\ is_Some (classes !! r.1)
  end.
Proof.
  intros HT. destruct (find_descriptor_gen (fun j r _ => position_of st r = Some (j, offset_of false j) /\ is_Some (classes !! r.1)) T name desc 0) as (res & -> & H).
  { intros j Hj. destruct (HT j Hj) as (r & m & ? & ? & ? & ? & ?). by exists r, m. }
  exists res. split; [done|]. destruct res as [[j r]|]; [|done]. destruct H as (q & m & -> & H1 & H2 & [H3 H4] & _). by exists m.
Qed.
(** Two entries of a signature are one. *)
Definition table_distinct (T : list (option MethodRef)) : Prop :=
  forall i j r r' m m', entry_at T i r m -> entry_at T j r' m' -> same_sig m m' -> i = j.

(** ** Slots for the methods of a class *)

Section assign.
Context (this : nat) (k : LClass) (Hk : classes !! this = Some k) (T : list (option MethodRef)) (HT : table_ok T) (HTd : table_distinct T).
(** The class starts with the slots of its super class, an interface with none. *)
Definition first_slot : nat := if is_interface k then 0%nat else length T.
Definition overrides (r : MethodRef) (o : Class_Member) : bool :=
  bool_decide (Some (m_package k) = package_of classes r) || has o ACC_PUBLIC || has o ACC_PROTECTED || has o ACC_PRIVATE.
(** A method nothing may override. *)
Definition sealed (r : MethodRef) (o : Class_Member) : bool :=
  has o ACC_FINAL && negb (has o ACC_PRIVATE || (is_package_private o && negb (bool_decide (package_of classes r = Some (m_package k))))).

Record assigned (pre : list Class_Member) (s : assign_state) : Prop := MkAssigned {
  as_length : length (slots s) = length pre;
  as_count : (first_slot <= num_entries s <= first_slot + length pre)%nat;
  as_next : next_vtable_offset s = offset_of (is_interface k) (num_entries s);
  as_each : forall i m, pre !! i = Some m ->
    (virtual m = false /\ slots s !! i = Some None) \/
    (virtual m = true /\ exists idx, slots s !! i = Some (Some (idx, offset_of (is_interface k) idx)) /\ (idx < num_entries s)%nat /\
      ((idx < first_slot)%nat -> exists r o, entry_at T idx r o /\ same_sig m o));
  as_new : forall idx, (first_slot <= idx < num_entries s)%nat -> exists i off, slots s !! i = Some (Some (idx, off));
  as_once : forall i i' idx off off', (first_slot <= idx)%nat -> slots s !! i = Some (Some (idx, off)) -> slots s !! i' = Some (Some (idx, off')) -> i = i';
  as_override : forall i m idx off j r o, pre !! i = Some m -> slots s !! i = Some (Some (idx, off)) -> is_interface k = false ->
    entry_at T j r o -> same_sig m o -> overrides r o = true -> idx = j;
  as_rank : is_interface k = true -> num_entries s = length (List.filter virtual pre) /\
    forall i idx off, slots s !! i = Some (Some (idx, off)) -> idx = length (List.filter virtual (take i pre));
}.

Lemma snoc_lookup {A} (l : list A) x i y : (l ++ [x]) !! i = Some y -> ((i < length l)%nat /\ l !! i = Some y) \/ (i = length l /\ y = x).
Proof.
  intros H. destruct (decide (i < length l)%nat) as [Hi|Hi].
  - left. rewrite lookup_app_l in H by done. done.
  - right. rewrite lookup_app_r in H by lia. apply list_lookup_singleton_Some in H as [H1 H2]. split; [lia|done].
Qed.
Lemma lookup_snoc_old {A} (l : list A) x i y : l !! i = Some y -> (l ++ [x]) !! i = Some y.
Proof. intros H. rewrite lookup_app_l; [done|]. by eapply lookup_lt_Some. Qed.

(** A method without a slot, one in a slot of the super class, and one in a new slot. *)
Lemma assigned_none pre s m fin mk : assigned pre s -> virtual m = false ->
  assigned (pre ++ [m]) (AS (next_vtable_offset s) (num_entries s) (slots s ++ [None]) fin mk).
Proof.
  intros [H1 H2 H3 H4 H5 H6 H7 H8] Hv. split; cbn [slots num_entries next_vtable_offset]; rewrite ?length_app; simpl length; try lia; try done.
  - intros i m' Hi. apply snoc_lookup in Hi as [[Hi Hm]|[-> ->]].
    + destruct (H4 i m' Hm) as [[? Hs]|[? (idx & Hs & ? & ?)]]; [left; split; [done|by apply lookup_snoc_old]|].
      right. split; [done|]. exists idx. split; [by apply lookup_snoc_old|done].
    + left. split; [done|]. by rewrite <- H1, list_lookup_middle.
  - intros idx Hidx. destruct (H5 idx Hidx) as (i & off & Hs). exists i, off. by apply lookup_snoc_old.
  - intros i i' idx off off' Hidx Hs Hs'. apply snoc_lookup in Hs as [[_ Hs]|[_ ?]], Hs' as [[_ Hs']|[_ ?]]; [by eapply H6|done..].
  - intros i m' idx off j r o Hi Hs. apply snoc_lookup in Hi as [[Hi Hm]|[-> ->]]; apply snoc_lookup in Hs as [[Hl Hs]|[_ ?]]; [by eapply H7|done|lia|done].
  - intros Hi. destruct (H8 Hi) as [H9 H10]. rewrite List.filter_app. simpl. rewrite Hv, app_nil_r. split; [done|]. intros i idx off Hs.
    apply snoc_lookup in Hs as [[Hl Hs]|[_ ?]]; [|done]. rewrite take_app_le by lia. by apply (H10 i idx off).
Qed.
Lemma assigned_old pre s m fin mk j r o : assigned pre s -> virtual m = true -> is_interface k = false -> entry_at T j r o -> same_sig m o ->
  assigned (pre ++ [m]) (AS (next_vtable_offset s) (num_entries s) (slots s ++ [Some (j, offset_of false j)]) fin mk).
Proof.
  intros [H1 H2 H3 H4 H5 H6 H7 H8] Hv Hi He Hsig. assert (Hf : first_slot = length T) by (unfold first_slot; by rewrite Hi).
  assert (Hj : (j < length T)%nat) by (destruct He as [He _]; by apply lookup_lt_Some in He).
  split; cbn [slots num_entries next_vtable_offset]; rewrite ?length_app; simpl length; try lia; try done.
  - intros i m' Hi'. apply snoc_lookup in Hi' as [[Hi' Hm]|[-> ->]].
    + destruct (H4 i m' Hm) as [[? Hs]|[? (idx & Hs & ? & ?)]]; [left; split; [done|by apply lookup_snoc_old]|].
      right. split; [done|]. exists idx. split; [by apply lookup_snoc_old|done].
    + right. split; [done|]. exists j. rewrite <- H1, list_lookup_middle, Hi by done. split; [done|]. split; [lia|]. intros _. by exists r, o.
  - intros idx Hidx. destruct (H5 idx Hidx) as (i & off & Hs). exists i, off. by apply lookup_snoc_old.
  - intros i i' idx off off' Hidx Hs Hs'. apply snoc_lookup in Hs as [[_ Hs]|[-> E1]], Hs' as [[_ Hs']|[-> E2]]; [by eapply H6| | |done];
      [injection E2 as -> _|injection E1 as -> _]; lia.
  - intros i m' idx off j' r' o' Hi' Hs Hni He' Hsig' Hov. apply snoc_lookup in Hi' as [[Hi' Hm]|[-> ->]]; apply snoc_lookup in Hs as [[Hl Hs]|[Hl E]]; [by eapply H7|lia|lia|].
    injection E as -> _. apply (HTd j j' r r' o o' He He'). unfold same_sig in *. by destruct Hsig as [<- <-].
  - intros Hi2. congruence.
Qed.
Lemma assigned_new pre s m fin mk : assigned pre s -> virtual m = true ->
  (forall j r o, entry_at T j r o -> same_sig m o -> is_interface k = false -> overrides r o = false) ->
  offset_of (is_interface k) (S (num_entries s)) < 2 ^ 32 ->
  assigned (pre ++ [m]) (AS (ux 32 (next_vtable_offset s + POINTER_SIZE env)) (S (num_entries s)) (slots s ++ [Some (num_entries s, next_vtable_offset s)]) fin mk).
Proof.
  intros [H1 H2 H3 H4 H5 H6 H7 H8] Hv Hno Hsmall. split; cbn [slots num_entries next_vtable_offset]; rewrite ?length_app; simpl length; try lia.
  - rewrite H3. unfold offset_of in *. rewrite ux_id; [lia|]. unfold is_u. destruct (is_interface k); lia.
  - intros i m' Hi'. apply snoc_lookup in Hi' as [[Hi' Hm]|[-> ->]].
    + destruct (H4 i m' Hm) as [[? Hs]|[? (idx & Hs & ? & ?)]]; [left; split; [done|by apply lookup_snoc_old]|].
      right. split; [done|]. exists idx. split; [by apply lookup_snoc_old|]. split; [lia|done].
    + right. split; [done|]. exists (num_entries s). rewrite <- H1, list_lookup_middle by done. split; [by rewrite H3|]. split; [lia|]. intros ?. lia.
  - intros idx Hidx. destruct (decide (idx = num_entries s)) as [->|].
    + exists (length (slots s)), (next_vtable_offset s). by apply list_lookup_middle.
    + destruct (H5 idx ltac:(lia)) as (i & off & Hs). exists i, off. by apply lookup_snoc_old.
  - assert (Hfresh : forall i off, slots s !! i <> Some (Some (num_entries s, off))).
    { intros i off Hs. destruct (pre !! i) as [m'|] eqn:E; [|apply lookup_lt_Some in Hs; apply lookup_ge_None in E; lia].
      destruct (H4 i m' E) as [[_ Hs']|[_ (idx & Hs' & Hlt & _)]]; rewrite Hs in Hs'; [done|]. injection Hs' as <- _. lia. }
    intros i i' idx off off' Hidx Hs Hs'. apply snoc_lookup in Hs as [[_ Hs]|[-> E1]], Hs' as [[_ Hs']|[-> E2]]; [by eapply H6| | |done];
      [injection E2 as -> ->; by destruct (Hfresh i off)|injection E1 as -> ->; by destruct (Hfresh i' off')].
  - intros i m' idx off j r o Hi' Hs Hni He Hsig Hov. apply snoc_lookup in Hi' as [[Hi' Hm]|[-> ->]]; apply snoc_lookup in Hs as [[Hl Hs]|[Hl E]]; [by eapply H7|lia|lia|].
    rewrite (Hno j r o He Hsig Hni) in Hov. done.
  - intros Hi. destruct (H8 Hi) as [H9 H10]. rewrite List.filter_app. simpl. rewrite Hv, length_app. simpl. split; [lia|]. intros i idx off Hs.
    apply snoc_lookup in Hs as [[Hl Hs]|[-> E]].
    + rewrite take_app_le by lia. by apply (H10 i idx off).
    + injection E as -> _. rewrite H9, H1. rewrite take_app_length. done.
Qed.

Lemma assign_step pre s m : assigned pre s -> offset_of (is_interface k) (S (num_entries s)) < 2 ^ 32 ->
  exists x, assign_offset_to_method env classes st this T m s = Some x /\
  match x with
  | None => virtual m = true /\ exists j r o, entry_at T j r o /\ same_sig m o /\ sealed r o = true
  | Some s' => assigned (pre ++ [m]) s' /\ (forall j r o, virtual m = true -> entry_at T j r o -> same_sig m o -> sealed r o = false)
  end.
Proof.
  intros Hs Hsmall. unfold assign_offset_to_method. rewrite Hk. cbn [mbind option_bind].
  destruct (has m ACC_STATIC || init_method m) eqn:Ev.
  { eexists. split; [reflexivity|]. split; [|intros; unfold virtual in *; by rewrite Ev in *].
    apply assigned_none; [done|]. unfold virtual. by rewrite Ev. }
  assert (Hv : virtual m = true) by (unfold virtual; by rewrite Ev). cbv zeta.
  destruct (find_descriptor_ok T (_name m) (_descriptor m) HT) as (res & -> & Hres). cbn [mbind option_bind].
  destruct res as [[j r]|].
  - destruct Hres as (o & He & Hsig & Hpos & [kr Hkr]). apply same_sig_true in Hsig. destruct He as [He1 He2]. rewrite He2. cbn [mbind option_bind].
    assert (Hpkg : package_of classes r = Some (m_package kr)) by (unfold package_of; by rewrite Hkr). rewrite Hpkg. cbn [mbind option_bind].
    assert (Hse : sealed r o = has o ACC_FINAL && negb (has o ACC_PRIVATE || (is_package_private o && negb (bool_decide (m_package kr = m_package k))))).
    { unfold sealed. rewrite Hpkg. do 5 f_equal. apply bool_decide_ext. split; [by intros [= ->]|by intros ->]. }
    assert (Hov : overrides r o = bool_decide (m_package k = m_package kr) || has o ACC_PUBLIC || has o ACC_PROTECTED || has o ACC_PRIVATE).
    { unfold overrides. rewrite Hpkg. do 3 f_equal. apply bool_decide_ext. split; [by intros [= ->]|by intros ->]. }
    rewrite <- Hse, <- Hov. destruct (sealed r o) eqn:Es.
    { exists None. split; [done|]. split; [done|]. by exists j, r, o. }
    assert (Hopen : forall j r o, virtual m = true -> entry_at T j r o -> same_sig m o -> sealed r o = false).
    { intros j' r' o' _ He' Hsig'. assert (j' = j) as ->.
      { apply (HTd j' j r' r o' o He'); [done|]. unfold same_sig in *. destruct Hsig' as [<- <-]. done. }
      destruct (entry_fun T j r o r' o' (conj He1 He2) He') as [<- <-]. done. }
    destruct (overrides r o) eqn:Eo.
    + rewrite Hpos. cbn [mbind option_bind snd fst]. assert (H0 : offset_of false j <> 0) by (unfold offset_of; lia).
      rewrite (bool_decide_false _ H0). cbn [orb]. destruct (is_interface k) eqn:Ei.
      * eexists. split; [reflexivity|]. split; [|done]. pose proof (assigned_new pre s m (finalizer s || (finalize_method m && negb (bool_decide (this = JavaLangObject_Class env)))) (marked s ++ [r]) Hs Hv) as Hn.
        rewrite Ei in Hn. apply Hn; [done|done].
      * eexists. split; [reflexivity|]. split; [|done]. by eapply assigned_old.
    + eexists. split; [reflexivity|]. split; [|done]. apply assigned_new; [done|done| |done]. intros j' r' o' He' Hsig' _.
      assert (j' = j) as ->. { apply (HTd j' j r' r o' o He'); [done|]. unfold same_sig in *. destruct Hsig' as [<- <-]. done. }
      destruct (entry_fun T j r o r' o' (conj He1 He2) He') as [<- <-]. done.
  - assert (Hnone : forall j r o, entry_at T j r o -> same_sig m o -> False).
    { intros j r o He Hsig. apply same_sig_true in Hsig. by rewrite (Hres j r o He) in Hsig. }
    eexists. split; [reflexivity|]. split; [|intros j r o _ He Hsig; by destruct (Hnone j r o He Hsig)]. apply assigned_new; [done|done| |done].
    intros j r o He Hsig _. by destruct (Hnone j r o He Hsig).
Qed.
Lemma assign_methods_ok ms pre s : assigned pre s -> offset_of (is_interface k) (first_slot + length pre + length ms) < 2 ^ 32 ->
  exists x, assign_methods env classes st this T ms s = Some x /\
  match x with
  | None => exists m j r o, m ∈ ms /\ virtual m = true /\ entry_at T j r o /\ same_sig m o /\ sealed r o = true
  | Some s' => assigned (pre ++ ms) s' /\ (forall m j r o, m ∈ ms -> virtual m = true -> entry_at T j r o -> same_sig m o -> sealed r o = false)
  end.
Proof.
  revert pre s. induction ms as [|m ms IH]; intros pre s Hs Hsmall; cbn [assign_methods].
  { exists (Some s). rewrite app_nil_r. split; [done|]. split; [done|]. intros m j r o Hm. by apply elem_of_nil in Hm. }
  simpl length in Hsmall. pose proof (as_count _ _ Hs) as Hc.
  assert (Hmono : forall a b, (a <= b)%nat -> offset_of (is_interface k) a <= offset_of (is_interface k) b) by (intros; unfold offset_of; nia).
  destruct (assign_step pre s m Hs) as (x & -> & Hx).
  { eapply Z.le_lt_trans; [|exact Hsmall]. apply Hmono. lia. }
  cbn [mbind option_bind]. destruct x as [s'|].
  - destruct Hx as [Hs' Hopen]. destruct (IH (pre ++ [m]) s' Hs') as (y & Hy & Hy').
    { rewrite length_app. simpl. eapply Z.le_lt_trans; [|exact Hsmall]. apply Hmono. lia. }
    exists y. split; [done|]. destruct y as [s2|].
    + rewrite <- app_assoc in Hy'. destruct Hy' as [Hy1 Hy2]. split; [done|]. intros m' j r o Hm. apply elem_of_cons in Hm as [->|Hm]; [by eapply Hopen|by eapply Hy2].
    + destruct Hy' as (m' & j & r & o & Hm & Hrest). exists m', j, r, o. split; [by right|done].
  - exists None. split; [done|]. destruct Hx as (Hv & j & r & o & Hrest). exists m, j, r, o. split; [by left|done].
Qed.
Lemma assigned_start fin mk : assigned [] (AS (offset_of (is_interface k) first_slot) first_slot [] fin mk).
Proof.
  split; cbn [slots num_entries next_vtable_offset]; try done; simpl; try lia.
  intros Hi. unfold first_slot. by rewrite Hi.
Qed.
End assign.
End slots.

(** ** The table of the class *)

Lemma override_ok this pos V i0 : (forall i idx off, pos !! i = Some (Some (idx, off)) -> (idx < length V)%nat) ->
  exists V', override_methods this i0 pos V = Some V' /\ length V' = length V /\
  forall j, (exists i off, pos !! i = Some (Some (j, off)) /\ V' !! j = Some (Some (this, (i0 + i)%nat))) \/
    ((forall i off, pos !! i <> Some (Some (j, off))) /\ V' !! j = V !! j).
Proof.
  revert V i0. induction pos as [|x pos IH]; intros V i0 Hpos; cbn [override_methods].
  { exists V. split; [done|]. split; [done|]. intros j. right. by split. }
  destruct x as [[idx off]|].
  - pose proof (Hpos 0%nat idx off eq_refl) as Hidx. rewrite (proj2 (Nat.ltb_lt _ _) Hidx).
    destruct (IH (<[idx := Some (this, i0)]> V) (S i0)) as (V' & HV & Hl & Hj).
    { intros i idx' off' Hi. rewrite length_insert. by apply (Hpos (S i) idx' off'). }
    rewrite length_insert in Hl. exists V'. split; [done|]. split; [done|]. intros j. destruct (Hj j) as [(i & off' & Hi & Hv)|[Hno Hv]].
    + left. exists (S i), off'. split; [done|]. rewrite Hv. do 3 f_equal. lia.
    + destruct (decide (idx = j)) as [->|Hn].
      * left. exists 0%nat, off. split; [done|]. rewrite Hv, list_lookup_insert_eq by done. do 3 f_equal. lia.
      * right. rewrite Hv, list_lookup_insert_ne by done. split; [|done]. intros [|i] off' Hi; [simpl in Hi; congruence|by apply (Hno i off')].
  - destruct (IH V (S i0)) as (V' & HV & Hl & Hj); [intros i idx off Hi; by apply (Hpos (S i) idx off)|].
    exists V'. split; [done|]. split; [done|]. intros j. destruct (Hj j) as [(i & off' & Hi & Hv)|[Hno Hv]].
    + left. exists (S i), off'. split; [done|]. rewrite Hv. do 3 f_equal. lia.
    + right. split; [|done]. intros [|i] off' Hi; [done|by apply (Hno i off')].
Qed.

Section own.
Context (env : Tables) (classes : list LClass) (st : gmap nat Prepared).
Context (Hptr : 0 < POINTER_SIZE env) (Hhead : 0 < VTABLE_OVERHEAD env).
Abbreviation entry_at := (entry_at classes).
Abbreviation table_ok := (table_ok env classes).
Abbreviation offset_of := (offset_of env).
Context (this : nat) (k : LClass) (Hk : classes !! this = Some k) (Hclass : is_interface k = false).
Context (T : list (option MethodRef)) (HT : table_ok st T) (HTd : table_distinct classes st T) (Hnew : st !! this = None).
Context (ms : list Class_Member) (Hms : distinct ms) (s : assign_state) (Hs : assigned env classes st k T ms s).
Context (Hover : forall m j r o, m ∈ ms -> virtual m = true -> entry_at st T j r o -> same_sig m o -> overrides classes k r o = true).
(** The state with the methods and the positions of the class. *)
Context (own : gmap nat Prepared) (q : Prepared) (Hq : own !! this = Some q) (Hqm : p_methods q = ms) (Hqp : positions q = slots s).
Context (Hown : forall c, c <> this -> own !! c = st !! c).

Lemma own_method i : method_at classes own (this, i) = ms !! i.
Proof. unfold method_at, methods_of. simpl. by rewrite Hq, Hqm. Qed.
Lemma other_method r : is_Some (st !! r.1) -> method_at classes own r = method_at classes st r /\ position_of own r = position_of st r /\ is_Some (own !! r.1).
Proof.
  intros [p Hp]. assert (r.1 <> this) by (intros H; rewrite H in Hp; by rewrite Hnew in Hp).
  unfold method_at, methods_of, position_of. rewrite Hown by done. rewrite Hp. by split_and!.
Qed.
Lemma slot_of i m : ms !! i = Some m -> virtual m = true -> exists idx, slots s !! i = Some (Some (idx, offset_of false idx)) /\ (idx < num_entries s)%nat /\
  ((idx < length T)%nat -> exists r o, entry_at st T idx r o /\ same_sig m o).
Proof.
  intros Hi Hv. destruct (as_each _ _ _ _ _ _ _ Hs i m Hi) as [[Hn _]|[_ (idx & Hidx & Hlt & Hold)]]; [congruence|].
  exists idx. rewrite Hclass in Hidx. unfold first_slot in Hold. rewrite Hclass in Hold. done.
Qed.
Lemma method_of_slot i idx off : slots s !! i = Some (Some (idx, off)) -> exists m, ms !! i = Some m /\ virtual m = true /\ off = offset_of false idx /\ (idx < num_entries s)%nat.
Proof.
  intros Hi. destruct (lookup_lt_is_Some_2 ms i) as [m Hm]; [rewrite <- (as_length _ _ _ _ _ _ _ Hs); by eapply lookup_lt_Some|].
  exists m. split; [done|]. destruct (as_each _ _ _ _ _ _ _ Hs i m Hm) as [[_ Hn]|[Hv (idx' & Hidx & Hlt & _)]]; [congruence|].
  rewrite Hclass in Hidx. rewrite Hi in Hidx. by injection Hidx as <- <-.
Qed.

Lemma count_entries : (length T <= num_entries s)%nat.
Proof. pose proof (as_count _ _ _ _ _ _ _ Hs) as H. unfold first_slot in H. rewrite Hclass in H. lia. Qed.
(** A table that has each virtual method of the class in its slot, and the rest of [T]. *)
Context (V : list (option MethodRef)) (HVl : length V = num_entries s).
Context (HV : forall j, (exists i off, slots s !! i = Some (Some (j, off)) /\ V !! j = Some (Some (this, i))) \/
  ((forall i off, slots s !! i <> Some (Some (j, off))) /\ V !! j = (T ++ replicate (num_entries s - length T) None) !! j)).

Lemma own_entry j : (j < num_entries s)%nat ->
  (exists i m, ms !! i = Some m /\ virtual m = true /\ slots s !! i = Some (Some (j, offset_of false j)) /\ V !! j = Some (Some (this, i))) \/
  ((j < length T)%nat /\ (forall i off, slots s !! i <> Some (Some (j, off))) /\ V !! j = T !! j).
Proof.
  intros Hj. destruct (HV j) as [(i & off & Hi & Hv)|[Hno Hv]].
  - left. destruct (method_of_slot i j off Hi) as (m & Hm & Hvm & -> & _). by exists i, m.
  - right. destruct (decide (j < length T)%nat) as [Hlt|Hge].
    + split; [done|]. split; [done|]. rewrite Hv. by rewrite lookup_app_l.
    + exfalso. destruct (as_new _ _ _ _ _ _ _ Hs j) as (i & off & Hi); [unfold first_slot; rewrite Hclass; lia|]. by apply (Hno i off).
Qed.
Lemma own_table_ok : table_ok own V.
Proof.
  intros j Hj. rewrite HVl in Hj. destruct (own_entry j Hj) as [(i & m & Hm & Hv & Hi & HVj)|(Hlt & _ & HVj)].
  - exists (this, i), m. split; [split; [done|by rewrite own_method]|]. split; [done|]. split; [|split; [by exists q|by exists k]].
    unfold position_of. simpl. rewrite Hq. cbn [mbind option_bind]. by rewrite Hqp, Hi.
  - destruct (HT j Hlt) as (r & m & [H1 H2] & Hv & Hp & Hst & Hc). destruct (other_method r Hst) as (E1 & E2 & E3).
    exists r, m. split; [split; [by rewrite HVj|by rewrite E1]|]. by rewrite E2.
Qed.
Lemma own_table_distinct : table_distinct classes own V.
Proof.
  assert (Hcase : forall j r m, entry_at own V j r m -> (exists i, r = (this, i) /\ ms !! i = Some m /\ virtual m = true /\ slots s !! i = Some (Some (j, offset_of false j))) \/
    (entry_at st T j r m /\ forall i off, slots s !! i <> Some (Some (j, off)))).
  { intros j r m [H1 H2]. assert (Hj : (j < num_entries s)%nat) by (rewrite <- HVl; by eapply lookup_lt_Some).
    destruct (own_entry j Hj) as [(i & m' & Hm & Hv & Hi & HVj)|(Hlt & Hno & HVj)].
    - left. rewrite H1 in HVj. injection HVj as ->. exists i. rewrite own_method in H2. split; [done|]. split; [done|].
      assert (m' = m) as -> by congruence. done.
    - right. rewrite H1 in HVj. destruct (HT j Hlt) as (r' & m' & [H3 H4] & _ & _ & Hst & _). assert (r' = r) as -> by congruence.
      destruct (other_method r Hst) as (E1 & _). rewrite E1 in H2. done. }
  assert (Hmixed : forall a i j m r o, ms !! a = Some m -> virtual m = true -> slots s !! a = Some (Some (i, offset_of false i)) -> entry_at st T j r o -> same_sig m o -> i = j).
  { intros a i j m r o Ha Hv Hi He Hsig. apply (as_override _ _ _ _ _ _ _ Hs a m i (offset_of false i) j r o Ha Hi Hclass He Hsig).
    apply (Hover m j r o); try done. by eapply list_elem_of_lookup_2. }
  intros i j r r' m m' Hi Hj Hsig. destruct (Hcase i r m Hi) as [(a & -> & Ha & Hva & Hsa)|[Hti Hno]], (Hcase j r' m' Hj) as [(b & -> & Hb & Hvb & Hsb)|[Htj Hno']].
  - assert (a = b) as -> by (by eapply Hms). congruence.
  - exfalso. apply (Hno' a (offset_of false i)). assert (i = j) as -> by (by eapply Hmixed). exact Hsa.
  - exfalso. apply (Hno b (offset_of false j)). assert (j = i) as -> by (eapply Hmixed; eauto; unfold same_sig in *; by destruct Hsig as [-> ->]). exact Hsb.
  - by eapply HTd.
Qed.

(** *** The methods it selects *)

Lemma own_slot a i j m r o : ms !! a = Some m -> virtual m = true -> slots s !! a = Some (Some (i, offset_of false i)) ->
  entry_at st T j r o -> same_sig m o -> i = j.
Proof.
  intros Ha Hv Hi He Hsig. apply (as_override _ _ _ _ _ _ _ Hs a m i (offset_of false i) j r o Ha Hi Hclass He Hsig).
  apply (Hover m j r o); try done. by eapply list_elem_of_lookup_2.
Qed.
(** The super class, if there is one, has the table [T], and selects its entries. *)
Context (Hsuper : match m_super_class k with
  | None => T = []
  | Some d => is_Some (st !! d) /\
      (forall j r m, entry_at st T j r m -> selected classes own d (_name m) (_descriptor m) r) /\
      (forall a i m, above classes d a -> method_at classes own (a, i) = Some m -> virtual m = true ->
         exists j, position_of own (a, i) = Some (j, offset_of false j) /\ exists r o, entry_at st T j r o /\ same_sig m o)
  end).

Lemma own_selected j r m : entry_at own V j r m -> selected classes own this (_name m) (_descriptor m) r.
Proof.
  intros [H1 H2]. assert (Hj : (j < num_entries s)%nat) by (rewrite <- HVl; by eapply lookup_lt_Some).
  destruct (own_entry j Hj) as [(i & m' & Hm & Hv & Hi & HVj)|(Hlt & Hno & HVj)].
  - rewrite H1 in HVj. injection HVj as ->. assert (m' = m) as -> by (rewrite own_method in H2; congruence).
    eapply selected_here; [exact H2|done|by apply same_sig_true].
  - rewrite H1 in HVj. destruct (HT j Hlt) as (r' & m' & [H3 H4] & _ & _ & Hst & _). assert (r' = r) as -> by congruence.
    destruct (other_method r Hst) as (E1 & _). rewrite E1 in H2. assert (m' = m) as -> by congruence.
    destruct (m_super_class k) as [d|] eqn:Ed; [|rewrite Hsuper in Hlt; simpl in Hlt; lia]. destruct Hsuper as (_ & Hsel & _).
    eapply selected_super; [exact Hk|exact Ed| |by apply (Hsel j r m)].
    intros i m2 Hi Hv2. rewrite own_method in Hi. destruct (same_signature (_name m) (_descriptor m) m2) eqn:Es; [|done]. apply same_sig_true in Es.
    destruct (slot_of i m2 Hi Hv2) as (idx & Hidx & _). exfalso. apply (Hno i (offset_of false idx)).
    assert (idx = j) as <-; [|done]. apply (own_slot i idx j m2 r m Hi Hv2 Hidx); [done|]. unfold same_sig in *. by destruct Es as [-> ->].
Qed.
Lemma own_position a i m : above classes this a -> method_at classes own (a, i) = Some m -> virtual m = true ->
  exists j, position_of own (a, i) = Some (j, offset_of false j) /\ exists r o, entry_at own V j r o /\ same_sig m o.
Proof.
  intros Hab Hm Hv. destruct (above_cases _ _ _ Hab) as [<-|(k' & d & Hk' & Hd & Hab')].
  - rewrite own_method in Hm. destruct (slot_of i m Hm Hv) as (idx & Hidx & Hlt & _). exists idx. split.
    + unfold position_of. simpl. rewrite Hq. cbn [mbind option_bind]. by rewrite Hqp, Hidx.
    + destruct (own_entry idx Hlt) as [(i' & m' & Hm' & Hv' & Hi' & HVj)|(_ & Hno & _)]; [|by destruct (Hno i _ Hidx)].
      exists (this, i'), m'. split; [split; [done|by rewrite own_method]|].
      destruct (decide (idx < length T)%nat) as [Hin|Hout].
      * destruct (slot_of i m Hm Hv) as (x & Hx & _ & Hold). assert (x = idx) as -> by congruence. destruct (Hold Hin) as (r & o & He & Hso).
        destruct (slot_of i' m' Hm' Hv') as (x' & Hx' & _ & Hold'). assert (x' = idx) as -> by congruence. destruct (Hold' Hin) as (r' & o' & He' & Hso').
        destruct (entry_fun _ _ _ _ _ _ _ _ He He') as [<- <-]. unfold same_sig in *. by destruct Hso as [-> ->], Hso' as [-> ->].
      * assert (i = i') as -> by (eapply (as_once _ _ _ _ _ _ _ Hs); [|exact Hidx|exact Hi']; unfold first_slot; rewrite Hclass; lia).
        assert (m' = m) as -> by congruence. done.
  - assert (k' = k) as -> by congruence. rewrite Hd in Hsuper. destruct Hsuper as (_ & _ & Hpos).
    destruct (Hpos a i m Hab' Hm Hv) as (j & Hj & r & o & He & Hso). exists j. split; [done|].
    assert (Hlt : (j < length T)%nat) by (destruct He as [He _]; by apply lookup_lt_Some in He). pose proof count_entries.
    destruct (own_entry j ltac:(lia)) as [(i' & m' & Hm' & Hv' & Hi' & HVj)|(_ & _ & HVj)].
    + exists (this, i'), m'. split; [split; [done|by rewrite own_method]|].
      destruct (slot_of i' m' Hm' Hv') as (x' & Hx' & _ & Hold'). assert (x' = j) as -> by congruence. destruct (Hold' Hlt) as (r' & o' & He' & Hso').
      destruct (entry_fun _ _ _ _ _ _ _ _ He He') as [<- <-]. unfold same_sig in *. by destruct Hso as [-> ->], Hso' as [-> ->].
    + exists r, o. split; [|done]. destruct (HT j Hlt) as (r2 & m2 & [H3 H4] & _ & _ & Hst & _). destruct He as [He1 He2].
      assert (r2 = r) as -> by congruence. split; [by rewrite HVj|]. by rewrite (proj1 (other_method r Hst)).
Qed.
End own.
