(* ===== verification/PrepareOk.v ===== *)
(** * Preparation of classes: it ends, no assertion fails, and the tables are right *)
From Stdlib Require Import Sorted Permutation.
From stdpp Require Import gmap strings.
From S2P Require Import Prelude ByteReader ClassMembers ClassTables SubtypeOk VTablesOk.

(** ** Fake methods *)

Section fakes.
Context (env : Tables) (classes : list LClass) (rank : nat -> nat) (Hok : types_ok env classes rank) (st : gmap nat Prepared).

Lemma methods_known c k : classes !! c = Some k -> exists ms, methods_of classes st c = Some ms.
Proof. intros Hk. unfold methods_of. destruct (st !! c); [by eexists|]. rewrite Hk. by eexists. Qed.
(** All the methods of the class, which has [own], and its super classes. *)
Definition methods_above (this : nat) (own : list Class_Member) (a : nat) : option (list Class_Member) :=
  if decide (a = this) then Some own else methods_of classes st a.
Definition no_method (this : nat) (own : list Class_Member) (c : nat) (m : Class_Member) : Prop :=
  forall a ms o, above classes c a -> methods_above this own a = Some ms -> o ∈ ms -> ~ same_sig m o.

Lemma lookup_in_none ms name desc i : lookup_in ms name desc i = None -> forall o, o ∈ ms -> same_signature name desc o = false.
Proof.
  revert i. induction ms as [|m ms IH]; intros i H o Ho; [by apply elem_of_nil in Ho|]. cbn [lookup_in] in H.
  destruct (same_signature name desc m) eqn:E; [done|]. apply elem_of_cons in Ho as [->|Ho]; [done|by eapply IH].
Qed.
Lemma find_method_impl_ok fuel own this c k m : classes !! c = Some k -> (rank c < fuel)%nat ->
  exists b, find_method_impl classes st fuel own (Some this) (Some c) (_name m) (_descriptor m) = Some b /\ (b = false -> no_method this own c m).
Proof.
  revert c k. induction fuel as [|fuel IH]; intros c k Hk Hr; [lia|]. cbn [find_method_impl]. rewrite Hk. cbn [mbind option_bind].
  assert (Hms : exists ms, (if bool_decide (Some this = Some c) then Some own else methods_of classes st c) = Some ms /\ methods_above this own c = Some ms).
  { unfold methods_above. destruct (decide (c = this)) as [->|Hn].
    - rewrite bool_decide_true by done. by exists own.
    - rewrite bool_decide_false by congruence. destruct (methods_known c k Hk) as [ms Hms]. by exists ms. }
  destruct Hms as (ms & -> & Hab). cbn [mbind option_bind]. destruct (lookup_in ms (_name m) (_descriptor m) 0) as [i|] eqn:El; [by exists true|].
  assert (Hhere : forall o, o ∈ ms -> ~ same_sig m o).
  { intros o Ho Hs. apply same_sig_true in Hs. by rewrite (lookup_in_none _ _ _ _ El o Ho) in Hs. }
  destruct (m_super_class k) as [d|] eqn:Ed.
  - destruct (ty_super _ _ _ Hok _ _ _ Hk Ed) as (kd & Hkd & _ & _ & _ & Hrd). destruct (IH d kd Hkd) as (b & -> & Hb); [lia|]. exists b. split; [done|].
    intros Hf a ms' o Habv Hm Ho. destruct (above_cases _ _ _ Habv) as [<-|(k' & d' & Hk' & Hd' & Habv')].
    + rewrite Hab in Hm. injection Hm as <-. by apply Hhere.
    + assert (k' = k) as -> by congruence. assert (d' = d) as -> by congruence. by apply (Hb Hf a ms' o).
  - exists false. split; [by destruct fuel|]. intros _ a ms' o Habv Hm Ho. destruct (above_cases _ _ _ Habv) as [<-|(k' & d' & Hk' & Hd' & Habv')]; [|congruence].
    rewrite Hab in Hm. injection Hm as <-. by apply Hhere.
Qed.

(** What is added: public methods of interfaces that no super class has. *)
Definition fake_ok (this : nat) (f : Class_Member) : Prop :=
  (exists i ki m, classes !! i = Some ki /\ is_interface ki = true /\ m ∈ class_methods ki /\ f = fake_method m) /\
  forall a ms o, above classes this a -> a <> this -> methods_of classes st a = Some ms -> o ∈ ms -> ~ same_sig f o.
Definition extends (this : nat) (own own' : list Class_Member) : Prop := distinct own' /\ exists fs, own' = own ++ fs /\ Forall (fake_ok this) fs.
Lemma methods_extend_refl this own : distinct own -> extends this own own.
Proof. intros H. split; [done|]. exists []. by rewrite app_nil_r. Qed.
Lemma methods_extend_trans this own own1 own2 : extends this own own1 -> extends this own1 own2 -> extends this own own2.
Proof. intros [_ (f1 & -> & H1)] [Hd (f2 & -> & H2)]. split; [done|]. exists (f1 ++ f2). rewrite app_assoc. split; [done|]. by apply Forall_app. Qed.
Lemma distinct_snoc ms m : distinct ms -> (forall o, o ∈ ms -> ~ same_sig m o) -> distinct (ms ++ [m]).
Proof.
  intros Hd Hno i j a b Hi Hj Hs. apply snoc_lookup in Hi as [[Hil Hi]|[-> ->]], Hj as [[Hjl Hj]|[-> ->]]; [by eapply Hd| | |done]; exfalso.
  - apply (Hno a); [by eapply list_elem_of_lookup_2|]. unfold same_sig in *. by destruct Hs.
  - apply (Hno b); [by eapply list_elem_of_lookup_2|done].
Qed.
Lemma fakes_of_ok this k i ki ms own : classes !! this = Some k -> classes !! i = Some ki -> is_interface ki = true -> (forall m, m ∈ ms -> m ∈ class_methods ki) ->
  distinct own -> exists own', fakes_of classes st (S (length classes)) this ms own = Some own' /\ extends this own own'.
Proof.
  intros Hk Hki Hi. revert own. induction ms as [|m ms IH]; intros own Hms Hd; cbn [fakes_of]; [exists own; split; [done|by apply methods_extend_refl]|].
  destruct (clinit_method m); [apply IH; [|done]; intros x Hx; apply Hms; by right|].
  destruct (find_method_impl_ok (S (length classes)) own this this k m Hk) as (b & -> & Hb); [pose proof (ty_rank _ _ _ Hok this); lia|]. cbn [mbind option_bind].
  destruct b; [apply IH; [|done]; intros x Hx; apply Hms; by right|]. specialize (Hb eq_refl).
  assert (Hno : forall o, o ∈ own -> ~ same_sig (fake_method m) o).
  { intros o Ho. apply (Hb this own o); [apply above_refl| |done]. unfold methods_above. by rewrite decide_True. }
  assert (Hd' : distinct (own ++ [fake_method m])) by (by apply distinct_snoc).
  destruct (IH (own ++ [fake_method m])) as (own' & H1 & H2); [intros x Hx; apply Hms; by right|done|]. exists own'. split; [done|].
  eapply methods_extend_trans; [|exact H2]. split; [done|]. exists [fake_method m]. split; [done|]. constructor; [|constructor]. split.
  - exists i, ki, m. split_and!; try done. apply Hms. by left.
  - intros a ms' o Ha Hn Hms' Ho. apply (Hb a ms' o Ha); [|done]. unfold methods_above. by rewrite decide_False.
Qed.
(** An interface keeps its methods. *)
Definition interfaces_keep : Prop := forall i k p, st !! i = Some p -> classes !! i = Some k -> is_interface k = true -> p_methods p = class_methods k.
Lemma interface_methods_of i k : interfaces_keep -> classes !! i = Some k -> is_interface k = true -> methods_of classes st i = Some (class_methods k).
Proof. intros Hkeep Hk Hi. unfold methods_of. destruct (st !! i) as [p|] eqn:E; [by rewrite (Hkeep i k p E Hk Hi)|by rewrite Hk]. Qed.
Lemma add_fakes_ok fuel this k ifs own : interfaces_keep -> classes !! this = Some k -> distinct own ->
  (forall i, In i ifs -> (rank i < fuel)%nat /\ exists ki, classes !! i = Some ki /\ is_interface ki = true) ->
  exists own', add_new_fake_method classes st (S fuel) this ifs own = Some own' /\ extends this own own'.
Proof.
  intros Hkeep Hk. revert ifs own. induction fuel as [|fuel IH]; intros ifs own Hd Hifs.
  { destruct ifs as [|i ifs]; [|destruct (Hifs i (or_introl eq_refl)); lia]. exists own. split; [done|by apply methods_extend_refl]. }
  cbn [add_new_fake_method]. revert own Hd Hifs. induction ifs as [|i ifs IHi]; intros own Hd Hifs; [exists own; split; [done|by apply methods_extend_refl]|].
  destruct (Hifs i (or_introl eq_refl)) as (Hr & ki & Hki & Hii). rewrite Hki. cbn [mbind option_bind].
  destruct (IH (m_superinterfaces ki) own Hd) as (o1 & H1 & E1).
  { intros j Hj. destruct (ty_interface _ _ _ Hok _ _ _ Hki Hj) as (kj & Hkj & Hij & Hrj). split; [lia|]. by exists kj. }
  cbn [add_new_fake_method] in H1. rewrite H1. cbn [mbind option_bind]. rewrite (interface_methods_of i ki Hkeep Hki Hii). cbn [mbind option_bind].
  destruct (fakes_of_ok this k i ki (class_methods ki) o1 Hk Hki Hii) as (o2 & -> & E2); [done|apply E1|]. cbn [mbind option_bind].
  destruct (IHi o2) as (o3 & H3 & E3); [apply E2|intros j Hj; apply Hifs; by right|]. exists o3. split; [exact H3|].
  eapply methods_extend_trans; [exact E1|]. by eapply methods_extend_trans.
Qed.
End fakes.

(** ** The interfaces of a class *)

Section interfaces.
Context (env : Tables) (classes : list LClass) (rank : nat -> nat) (Hok : types_ok env classes rank) (st : gmap nat Prepared).
(** Classes have weights of their own. *)
Definition weights_ok : Prop := forall c d, is_Some (classes !! c) -> is_Some (classes !! d) -> class_weight classes c = class_weight classes d -> c = d.
Context (Hweights : weights_ok).
Abbreviation wt := (fun c => default 0 (class_weight classes c)).
Definition heavier (a b : nat) : Prop := a = b \/ wt b < wt a.
Definition known (c : nat) : Prop := is_Some (classes !! c).

Lemma weight_known c : known c -> class_weight classes c = Some (wt c).
Proof. intros [k Hk]. unfold class_weight. by rewrite Hk. Qed.
Lemma insert_class_ok c l : known c -> Forall known l -> StronglySorted heavier l ->
  exists l', insert_class classes c l = Some l' /\ Permutation (c :: l) l' /\ StronglySorted heavier l'.
Proof.
  intros Hc. induction l as [|d l IH]; intros Hl Hs; cbn [insert_class].
  { exists [c]. split; [done|]. split; [done|]. by repeat constructor. }
  apply Forall_cons_1 in Hl as [Hd Hl]. apply StronglySorted_inv in Hs as [Hs Hf].
  destruct (bool_decide_reflect (c = d)) as [->|Hn].
  { exists (d :: d :: l). split; [done|]. split; [done|]. constructor; [by constructor|]. constructor; [by left|done]. }
  rewrite (weight_known c Hc), (weight_known d Hd). cbn [mbind option_bind].
  destruct (Z.eqb_spec (wt c) (wt d)) as [He|Hne].
  { exfalso. apply Hn, Hweights; [done..|]. rewrite (weight_known c Hc), (weight_known d Hd). by f_equal. }
  destruct (Z.ltb_spec (wt d) (wt c)).
  - exists (c :: d :: l). split; [done|]. split; [done|]. constructor; [by constructor|]. constructor; [by right|].
    eapply list.Forall_impl; [exact Hf|]. intros e [<-|He]; right; [done|lia].
  - destruct (IH Hl Hs) as (l' & -> & Hp & Hs'). cbn [mbind option_bind]. exists (d :: l'). split; [done|]. split; [rewrite perm_swap; by constructor|].
    constructor; [done|]. rewrite <- Hp. constructor; [right; lia|done].
Qed.
Lemma sort_classes_ok l : Forall known l -> exists l', sort_classes classes l = Some l' /\ Permutation l l' /\ StronglySorted heavier l'.
Proof.
  induction l as [|c l IH]; intros Hl; cbn [sort_classes]; [exists []; split; [done|]; split; [done|constructor]|].
  apply Forall_cons_1 in Hl as [Hc Hl]. destruct (IH Hl) as (l' & -> & Hp & Hs). cbn [mbind option_bind].
  destruct (insert_class_ok c l' Hc) as (l2 & -> & Hp2 & Hs2); [by rewrite <- Hp|done|]. exists l2. split; [done|]. split; [by rewrite Hp|done].
Qed.
Lemma unique_ok l : StronglySorted heavier l -> NoDup (unique l) /\ forall x, x ∈ unique l <-> x ∈ l.
Proof.
  induction l as [|c l IH]; intros Hs; [split; [constructor|done]|]. apply StronglySorted_inv in Hs as [Hs Hf]. destruct (IH Hs) as [Hn Hx].
  cbn [unique]. destruct l as [|d l]; [split; [by apply NoDup_singleton|done]|]. destruct (bool_decide_reflect (c = d)) as [->|Hne].
  - split; [done|]. intros x. rewrite Hx. rewrite !elem_of_cons. tauto.
  - split.
    2:{ intros x. specialize (Hx x). set (u := unique (d :: l)) in *. rewrite !elem_of_cons in *. tauto. }
    constructor; [|done]. rewrite Hx. intros Hin. apply StronglySorted_inv in Hs as [_ Hf2]. apply Forall_cons_1 in Hf as [[|Hd] _]; [done|].
    apply elem_of_cons in Hin as [->|Hin]; [done|]. rewrite list.Forall_forall in Hf2. destruct (Hf2 c Hin) as [->|He]; [done|lia].
Qed.

(** *** What is above *)

Definition interface_of (c x : nat) : Prop := (exists k, classes !! x = Some k /\ is_interface k = true) /\ subtype classes c x.
Lemma interface_of_cases c k x : classes !! c = Some k -> interface_of c x ->
  (x = c /\ is_interface k = true) \/ (exists d, m_super_class k = Some d /\ is_interface k = false /\ interface_of d x) \/ (exists i, In i (m_superinterfaces k) /\ interface_of i x).
Proof.
  intros Hk [Hx Hs]. inversion Hs as [c' k0 H0|s t k0 d H0 Hd Hsub|s t k0 i H0 Hi Hsub|s t ks kt es et H0 H1 Ha Hb _ _ _]; subst.
  - left. destruct Hx as (kx & Hkx & Hi). by simplify_eq.
  - assert (k0 = k) as -> by congruence. destruct (is_interface k) eqn:Ei; [|right; left; by exists d].
    destruct (ty_is_interface _ _ _ Hok _ _ Hk Ei) as [Hso _]. rewrite Hso in Hd. injection Hd as <-. apply (object_top env classes rank Hok) in Hsub as ->.
    destruct Hx as (kx & Hkx & Hi). destruct (ty_object _ _ _ Hok) as (ko & Hko & _ & Hio). congruence.
  - assert (k0 = k) as -> by congruence. right. right. by exists i.
  - destruct Hx as (kx & Hkx & Hi). assert (kt = kx) as -> by congruence. destruct (ty_is_interface _ _ _ Hok _ _ Hkx Hi) as [_ Hna]. congruence.
Qed.
Lemma superinterfaces_ok fuel c k : classes !! c = Some k -> (rank c < fuel)%nat ->
  exists l, superinterfaces_of classes fuel c = Some l /\ Forall known l /\
    forall x, x ∈ l <-> (x = c /\ is_interface k = true) \/ exists i, In i (m_superinterfaces k) /\ interface_of i x.
Proof.
  revert c k. induction fuel as [|fuel IH]; intros c k Hk Hr; [lia|]. cbn [superinterfaces_of]. rewrite Hk. cbn [mbind option_bind].
  set (go := fix go (ifs : list nat) : option (list nat) := _).
  assert (Hgo : forall ifs, (forall i, In i ifs -> In i (m_superinterfaces k)) -> exists l, go ifs = Some l /\ Forall known l /\
    forall x, x ∈ l <-> exists i, In i ifs /\ interface_of i x).
  { induction ifs as [|i ifs IHi]; intros Hsub; simpl.
    - exists []. split; [done|]. split; [constructor|]. intros x. split; [by intros ?%elem_of_nil|by intros (? & [] & _)].
    - destruct (ty_interface _ _ _ Hok _ _ _ Hk (Hsub i (or_introl eq_refl))) as (ki & Hki & Hii & Hri).
      destruct (IH i ki Hki) as (a & -> & Ha & Hax); [lia|]. cbn [mbind option_bind].
      destruct IHi as (b & -> & Hb & Hbx); [intros j Hj; apply Hsub; by right|]. cbn [mbind option_bind]. exists (a ++ b). split; [done|].
      split; [by apply Forall_app|]. intros x. rewrite elem_of_app, Hax, Hbx. split.
      + intros [Hx|(j & Hj & Hx)]; [|exists j; split; [by right|done]]. exists i. split; [by left|].
        destruct Hx as [[-> _]|(j & Hj & Hx & Hs)]; [split; [by exists ki|by eapply subtype_refl]|]. split; [done|]. by eapply subtype_interface.
      + intros (j & [<-|Hj] & Hx); [|right; by exists j]. left.
        destruct (interface_of_cases _ _ _ Hki Hx) as [?|[(d & _ & Hf & _)|?]]; [by left|congruence|by right]. }
  destruct (Hgo (m_superinterfaces k)) as (l & -> & Hl & Hx); [done|]. cbn [mbind option_bind]. eexists. split; [reflexivity|]. split.
  - apply Forall_app. split; [done|]. destruct (is_interface k); constructor; [by exists k|constructor].
  - intros x. rewrite elem_of_app, Hx. destruct (is_interface k).
    + rewrite list_elem_of_singleton. tauto.
    + rewrite elem_of_nil. split; [tauto|]. intros [[_ ?]|?]; [done|by left].
Qed.
(** The interfaces of a class, given those of its super class. *)
Lemma build_interfaces_ok this k super : classes !! this = Some k -> super_prepared st k = Some super ->
  (forall p, super = Some p -> Forall known (fst <$> intfc_table p)) ->
  exists l, build_interface_table_descriptors classes st this = Some l /\ NoDup l /\ Forall known l /\
    forall x, x ∈ l <-> (exists p, super = Some p /\ x ∈ fst <$> intfc_table p) \/ (x = this /\ is_interface k = true) \/ exists i, In i (m_superinterfaces k) /\ interface_of i x.
Proof.
  intros Hk Hsup Hknown. unfold build_interface_table_descriptors. rewrite Hk. cbn [mbind option_bind]. rewrite Hsup. cbn [mbind option_bind]. cbv zeta.
  destruct (superinterfaces_ok (S (length classes)) this k Hk) as (own & -> & Hown & Hx); [pose proof (ty_rank _ _ _ Hok this); lia|]. cbn [mbind option_bind].
  set (inh := match super with None => [] | Some p => fst <$> intfc_table p end).
  assert (Hinh : Forall known inh) by (subst inh; destruct super; [by apply Hknown|constructor]).
  destruct (sort_classes_ok (inh ++ own)) as (l & -> & Hp & Hs); [by apply Forall_app|]. cbn [mbind option_bind].
  destruct (unique_ok l Hs) as [Hnd Hux]. exists (unique l). split; [done|]. split; [done|].
  assert (Hall : forall x, x ∈ unique l <-> x ∈ inh \/ x ∈ own) by (intros x; rewrite Hux, <- Hp, elem_of_app; done).
  split.
  - apply list.Forall_forall. intros x Hxl. apply Hall in Hxl as [Hxl|Hxl]; [rewrite list.Forall_forall in Hinh; auto|rewrite list.Forall_forall in Hown; auto].
  - intros x. rewrite Hall, Hx. subst inh. destruct super as [p|].
    + split; [intros [?|?]; [left; by exists p|by right]|]. intros [(p' & [= <-] & ?)|?]; [by left|by right].
    + rewrite elem_of_nil. split; [intros [[]|?]; by right|]. intros [(p' & ? & _)|?]; [done|by right].
Qed.
End interfaces.

(** ** What is true of prepared classes *)

Section invariant.
Context (env : Tables) (classes : list LClass) (rank : nat -> nat).
Definition all_methods : list Class_Member := concat (class_methods <$> classes).
(** The world of classes: those the loader has checked, of tables that are not too large, in
    which no method of a package hides one of another package. *)
Record world_ok : Prop := MkWorldOk {
  wo_types : types_ok env classes rank;
  wo_weights : weights_ok classes;
  wo_pointer : 0 < POINTER_SIZE env;
  wo_head : 0 < VTABLE_OVERHEAD env;
  wo_distinct : forall c k, classes !! c = Some k -> distinct (class_methods k);
  wo_clinit : forall c k, classes !! c = Some k -> num_methods (class_methods k) = length (non_clinit (class_methods k));
  wo_interface_methods : forall c k m, classes !! c = Some k -> is_interface k = true -> m ∈ class_methods k -> virtual m = negb (clinit_method m);
  wo_packages : forall c k a ka m o, above classes c a -> classes !! c = Some k -> classes !! a = Some ka -> m ∈ class_methods k -> o ∈ class_methods ka ->
    virtual m = true -> virtual o = true -> same_sig m o -> m_package k = m_package ka \/ has o ACC_PUBLIC || has o ACC_PROTECTED || has o ACC_PRIVATE = true;
  wo_small : offset_of env false (length classes * length all_methods) < 2 ^ 32;
}.
Context (Hw : world_ok).
Abbreviation Hok := (wo_types Hw).

Definition virtual_table (p : Prepared) : list (option MethodRef) := take (m_num_virtual_method_entries p) (m_vtable_descriptors p).
(** What a call through an interface finds for the method [m] at [r]. *)
Definition entry_right (st : gmap nat Prepared) (c : nat) (r : MethodRef) (m : Class_Member) (e : Entry) : Prop :=
  match e with
  | CodeOf d => selected classes st c (_name m) (_descriptor m) d /\
      exists o, method_at classes st d = Some o /\ has o ACC_ABSTRACT = false /\ has o ACC_PUBLIC = true
  | IllegalAccessError d => selected classes st c (_name m) (_descriptor m) d /\
      exists o, method_at classes st d = Some o /\ has o ACC_ABSTRACT = false /\ has o ACC_PUBLIC = false
  | AbstractMethodError r' => r' = r /\
      forall d, selected classes st c (_name m) (_descriptor m) d -> exists o, method_at classes st d = Some o /\ has o ACC_ABSTRACT = true
  end.
Record class_inv (st : gmap nat Prepared) (c : nat) (k : LClass) (p : Prepared) : Prop := MkClassInv {
  ci_length : length (virtual_table p) = m_num_virtual_method_entries p;
  ci_table : table_ok env classes st (virtual_table p);
  ci_distinct : table_distinct classes st (virtual_table p);
  ci_selected : forall j r m, entry_at classes st (virtual_table p) j r m -> selected classes st c (_name m) (_descriptor m) r;
  ci_position : forall a i m, above classes c a -> method_at classes st (a, i) = Some m -> virtual m = true ->
    exists j, position_of st (a, i) = Some (j, offset_of env false j) /\ exists r o, entry_at classes st (virtual_table p) j r o /\ same_sig m o;
  ci_code : forall j r, virtual_table p !! j = Some (Some r) -> vtable_methods p !! j = Some (Some (CodeOf r));
  ci_super : forall d, m_super_class k = Some d -> is_Some (st !! d);
  ci_methods : extends classes st c (class_methods k) (p_methods p);
  ci_bound : (m_num_virtual_method_entries p <= S (rank c) * length all_methods)%nat;
  ci_interfaces : NoDup (fst <$> intfc_table p) /\ Forall (known classes) (fst <$> intfc_table p) /\ forall x, x ∈ fst <$> intfc_table p <-> interface_of classes c x;
  ci_entries : forall i first ki q ik m, (i, first) ∈ intfc_table p -> classes !! i = Some ki -> non_clinit (class_methods ki) !! q = Some ik ->
    class_methods ki !! ik = Some m -> exists e, vtable_methods p !! (first + q)%nat = Some (Some e) /\ entry_right st c (i, ik) m e;
}.
Record interface_inv (k : LClass) (p : Prepared) : Prop := MkInterfaceInv {
  ii_methods : p_methods p = class_methods k;
  ii_position : forall ik m, class_methods k !! ik = Some m -> virtual m = true ->
    exists q off, positions p !! ik = Some (Some (q, off)) /\ non_clinit (class_methods k) !! q = Some ik;
}.
Definition inv (st : gmap nat Prepared) : Prop := forall c k p, st !! c = Some p -> classes !! c = Some k ->
  if is_interface k then interface_inv k p else class_inv st c k p.
Lemma inv_class st c k p : inv st -> st !! c = Some p -> classes !! c = Some k -> is_interface k = false -> class_inv st c k p.
Proof. intros H Hp Hk Hi. specialize (H c k p Hp Hk). by rewrite Hi in H. Qed.
Lemma inv_keep st : inv st -> interfaces_keep classes st.
Proof. intros H i k p Hp Hk Hi. specialize (H i k p Hp Hk). rewrite Hi in H. apply H. Qed.

(** *** More classes *)

Definition ext (st st' : gmap nat Prepared) : Prop := forall c p, st !! c = Some p -> st' !! c = Some p.
Context (st st' : gmap nat Prepared) (Hext : ext st st').
Lemma ext_method r : is_Some (st !! r.1) -> method_at classes st' r = method_at classes st r /\ position_of st' r = position_of st r /\ is_Some (st' !! r.1).
Proof. intros [p Hp]. unfold method_at, methods_of, position_of. rewrite Hp, (Hext _ _ Hp). split_and!; [done..|by eexists]. Qed.
Lemma ext_entry T j r m : table_ok env classes st T -> entry_at classes st' T j r m <-> entry_at classes st T j r m.
Proof.
  intros HT. assert (Hsame : T !! j = Some (Some r) -> method_at classes st' r = method_at classes st r).
  { intros H. destruct (HT j) as (r' & m' & [H1 _] & _ & _ & H2 & _); [by eapply lookup_lt_Some|]. assert (r' = r) as -> by congruence. by apply ext_method. }
  unfold entry_at. split; intros [H1 H2]; (split; [done|]); [by rewrite <- Hsame|by rewrite Hsame].
Qed.
Lemma ext_table T : table_ok env classes st T -> table_ok env classes st' T.
Proof.
  intros HT j Hj. destruct (HT j Hj) as (r & m & He & Hv & Hp & Hs & Hc). exists r, m. destruct (ext_method r Hs) as (_ & E & E').
  split; [by apply ext_entry|]. split_and!; [done|by rewrite E|done|done].
Qed.
Lemma ext_distinct T : table_ok env classes st T -> table_distinct classes st T -> table_distinct classes st' T.
Proof. intros HT Hd i j r r' m m' H1 H2. rewrite ext_entry in H1, H2 by done. by eapply Hd. Qed.
Lemma above_prepared c a p k : inv st -> st !! c = Some p -> classes !! c = Some k -> is_interface k = false -> above classes c a -> is_Some (st !! a).
Proof.
  intros Hinv Hp Hk Hi Hab. revert p k Hp Hk Hi. induction Hab as [c|s k0 d t Hk0 Hd _ IH]; intros p k Hp Hk Hi; [by exists p|].
  assert (k0 = k) as -> by congruence. destruct (ci_super _ _ _ _ (inv_class _ _ _ _ Hinv Hp Hk Hi) d Hd) as [pd Hpd].
  destruct (ty_super _ _ _ Hok _ _ _ Hk Hd) as (kd & Hkd & Hid & _). by apply (IH pd kd).
Qed.
Lemma ext_selected c name desc r : (forall a, above classes c a -> is_Some (st !! a)) ->
  selected classes st' c name desc r <-> selected classes st c name desc r.
Proof.
  intros Hall. split; intros H.
  - induction H as [c i m name desc Hm Hv Hs|c k d name desc r Hk Hd Hno _ IH].
    + eapply selected_here; [|done|done]. rewrite <- (proj1 (ext_method (c, i) (Hall c (above_refl _ c)))). exact Hm.
    + eapply selected_super; [done|done| |apply IH; intros a Ha; apply Hall; by eapply above_super].
      intros i m Hm. apply (Hno i m). by rewrite (proj1 (ext_method (c, i) (Hall c (above_refl _ c)))).
  - induction H as [c i m name desc Hm Hv Hs|c k d name desc r Hk Hd Hno _ IH].
    + eapply selected_here; [|done|done]. by rewrite (proj1 (ext_method (c, i) (Hall c (above_refl _ c)))).
    + eapply selected_super; [done|done| |apply IH; intros a Ha; apply Hall; by eapply above_super].
      intros i m Hm. apply (Hno i m). by rewrite <- (proj1 (ext_method (c, i) (Hall c (above_refl _ c)))).
Qed.
Lemma selected_above c name desc r : selected classes st c name desc r -> above classes c r.1 /\ exists m, method_at classes st r = Some m /\ virtual m = true /\ same_signature name desc m = true.
Proof.
  induction 1 as [c i m name desc Hm Hv Hs|c k d name desc r Hk Hd Hno _ [IH IH']]; [split; [apply above_refl|by exists m]|].
  split; [by eapply above_super|done].
Qed.
Lemma ext_right c r m e : (forall a, above classes c a -> is_Some (st !! a)) -> entry_right st c r m e -> entry_right st' c r m e.
Proof.
  intros Hall. assert (Hm : forall d name desc, selected classes st c name desc d -> method_at classes st' d = method_at classes st d).
  { intros d name desc Hd. destruct (selected_above _ _ _ _ Hd) as [Ha _]. apply ext_method. by apply Hall. }
  destruct e as [d|r'|d]; simpl; rewrite ?ext_selected by done.
  - intros [H1 (o & H2 & H3)]. split; [done|]. exists o. by rewrite (Hm d _ _ H1).
  - intros [-> H]. split; [done|]. intros d Hd. rewrite ext_selected in Hd by done. destruct (H d Hd) as (o & H2 & H3). exists o. by rewrite (Hm d _ _ Hd).
  - intros [H1 (o & H2 & H3)]. split; [done|]. exists o. by rewrite (Hm d _ _ H1).
Qed.
Lemma ext_class_inv c k p : inv st -> st !! c = Some p -> classes !! c = Some k -> is_interface k = false -> class_inv st' c k p.
Proof.
  intros Hinv Hp Hk Hi. pose proof (inv_class _ _ _ _ Hinv Hp Hk Hi) as H. assert (Hall : forall a, above classes c a -> is_Some (st !! a)) by (intros a; by eapply above_prepared).
  split.
  - apply (ci_length _ _ _ _ H).
  - apply ext_table, H.
  - apply ext_distinct; apply H.
  - intros j r m He. rewrite ext_entry in He by apply H. rewrite ext_selected by done. by apply (ci_selected _ _ _ _ H j).
  - intros a i m Hab Hm Hv. destruct (ext_method (a, i) (Hall a Hab)) as (E1 & E2 & _). rewrite E1 in Hm. rewrite E2.
    destruct (ci_position _ _ _ _ H a i m Hab Hm Hv) as (j & Hj & r & o & He & Hs). exists j. split; [done|]. exists r, o. rewrite ext_entry by apply H. done.
  - apply (ci_code _ _ _ _ H).
  - intros d Hd. destruct (ci_super _ _ _ _ H d Hd) as [pd Hpd]. exists pd. by apply Hext.
  - destruct (ci_methods _ _ _ _ H) as [Hd (fs & Hfs & Hf)]. split; [done|]. exists fs. split; [done|]. eapply list.Forall_impl; [exact Hf|].
    intros f [Hi' Ha]. split; [done|]. intros a ms o Hab Hn Hms. apply (Ha a ms o Hab Hn). destruct (Hall a Hab) as [pa Hpa].
    unfold methods_of in *. rewrite (Hext _ _ Hpa) in Hms. by rewrite Hpa.
  - apply (ci_bound _ _ _ _ H).
  - apply (ci_interfaces _ _ _ _ H).
  - intros i first ki q ik m H1 H2 H3 H4. destruct (ci_entries _ _ _ _ H i first ki q ik m H1 H2 H3 H4) as (e & He & Hr). exists e. split; [done|]. by apply ext_right.
Qed.
End invariant.

Lemma prepared_inv_insert env classes rank (Hw : world_ok env classes rank) st this k p : inv env classes rank st -> st !! this = None -> classes !! this = Some k ->
  (if is_interface k then interface_inv k p else class_inv env classes rank (<[this := p]> st) this k p) -> inv env classes rank (<[this := p]> st).
Proof.
  intros Hinv Hnew Hk Hp c kc pc Hc Hkc. destruct (decide (this = c)) as [->|Hn].
  - rewrite lookup_insert_eq in Hc. injection Hc as <-. assert (kc = k) as -> by congruence. exact Hp.
  - rewrite lookup_insert_ne in Hc by done. destruct (is_interface kc) eqn:Ei.
    + pose proof (Hinv c kc pc Hc Hkc) as H. by rewrite Ei in H.
    + apply (ext_class_inv env classes rank Hw st); try done. intros d q Hd. rewrite lookup_insert_ne; [done|]. intros <-. congruence.
Qed.

(** ** How many methods a class has *)

Section count.
Context (env : Tables) (classes : list LClass) (rank : nat -> nat) (st : gmap nat Prepared).
Definition signature (m : Class_Member) : string * string := (_name m, _descriptor m).
Lemma distinct_signatures ms : distinct ms -> NoDup (signature <$> ms).
Proof.
  intros Hd. apply NoDup_alt. intros i j s Hi Hj. rewrite list_lookup_fmap in Hi, Hj.
  destruct (ms !! i) as [m|] eqn:Ei, (ms !! j) as [m'|] eqn:Ej; try done. simpl in *. injection Hi as <-. injection Hj as Hs1 Hs2.
  by apply (Hd i j m m').
Qed.
Lemma all_methods_in c k m : classes !! c = Some k -> m ∈ class_methods k -> m ∈ all_methods classes.
Proof.
  intros Hk Hm. unfold all_methods. rewrite list_elem_of_In, in_concat. exists (class_methods k). split; [|by apply list_elem_of_In].
  apply list_elem_of_In, list_elem_of_fmap. exists k. split; [done|]. by eapply list_elem_of_lookup_2.
Qed.
Lemma few_methods this k ms : classes !! this = Some k -> extends classes st this (class_methods k) ms -> (length ms <= length (all_methods classes))%nat.
Proof.
  intros Hk [Hd (fs & -> & Hf)]. rewrite <- (length_fmap signature (class_methods k ++ fs)), <- (length_fmap signature (all_methods classes)).
  apply submseteq_length, NoDup_submseteq; [by apply distinct_signatures|]. intros s Hs. apply list_elem_of_fmap in Hs as (m & -> & Hm).
  apply elem_of_app in Hm as [Hm|Hm].
  - apply list_elem_of_fmap. exists m. split; [done|]. by eapply all_methods_in.
  - rewrite list.Forall_forall in Hf. destruct (Hf m Hm) as [(i & ki & o & Hki & _ & Ho & ->) _].
    apply list_elem_of_fmap. exists o. split; [done|]. by eapply all_methods_in.
Qed.
End count.

(** ** The entries of the table *)

Section entries.
Context (env : Tables) (classes : list LClass) (st : gmap nat Prepared) (Hptr : 0 < POINTER_SIZE env).

Lemma point_ok V code : table_ok env classes st V -> (length V <= length code)%nat -> forall j0, (j0 <= length V)%nat ->
  exists code', point_vtable_entries env classes st (position_of st) (drop j0 V) code = Some code' /\ length code' = length code /\
  forall j, ((j < j0)%nat -> code' !! j = code !! j) /\ ((j0 <= j)%nat -> forall r, V !! j = Some (Some r) -> code' !! j = Some (Some (CodeOf r))).
Proof.
  intros HV Hl j0 Hj0. remember (length V - j0)%nat as n eqn:Hn. revert j0 code Hj0 Hn Hl. induction n as [|n IH]; intros j0 code Hj0 Hn Hl.
  - rewrite drop_ge by lia. exists code. split; [done|]. split; [done|]. intros j. split; [done|]. intros Hj r Hr. apply lookup_lt_Some in Hr. lia.
  - destruct (HV j0 ltac:(lia)) as (r & m & [Hr Hm] & Hv & Hp & _). rewrite (drop_S _ _ _ Hr). cbn [point_vtable_entries mbind option_bind]. rewrite Hm.
    cbn [mbind option_bind]. rewrite Hp. cbn [mbind option_bind fst snd].
    assert (Hst : has m ACC_STATIC = false) by (unfold virtual in Hv; apply negb_true_iff, orb_false_iff in Hv; apply Hv). rewrite Hst.
    assert (Hd : (offset_of env false j0 - VTABLE_OVERHEAD env) / POINTER_SIZE env = Z.of_nat j0).
    { unfold offset_of. replace (VTABLE_OVERHEAD env + Z.of_nat j0 * POINTER_SIZE env - VTABLE_OVERHEAD env) with (Z.of_nat j0 * POINTER_SIZE env) by lia. apply Z.div_mul. lia. }
    rewrite Hd, Z.eqb_refl. cbn [negb]. rewrite (proj2 (Nat.ltb_lt _ _)) by lia.
    destruct (IH (S j0) (<[j0 := Some (CodeOf r)]> code)) as (code' & Hc & Hlen & Hj); [lia|lia|by rewrite length_insert|].
    rewrite length_insert in Hlen. exists code'. split; [done|]. split; [done|]. intros j. destruct (Hj j) as [H1 H2]. split.
    + intros Hlt. rewrite H1 by lia. apply list_lookup_insert_ne. lia.
    + intros Hge r' Hr'. destruct (decide (j = j0)) as [->|]; [|by apply H2; [lia|]]. assert (r' = r) as -> by congruence.
      rewrite H1 by lia. apply list_lookup_insert_eq. lia.
Qed.
(** The methods of the interfaces, and where those of each begin. *)
Definition plain_interface (i : nat) (ki : LClass) : Prop :=
  classes !! i = Some ki /\ is_interface ki = true /\ methods_of classes st i = Some (class_methods ki) /\ num_methods (class_methods ki) = length (non_clinit (class_methods ki)).
Lemma interface_lists l from : Forall (fun i => exists ki, plain_interface i ki) l ->
  exists ims starts counts, interface_methods classes st l = Some ims /\ interface_starts classes st l from = Some starts /\
    mapM (fun i => num_methods <$> methods_of classes st i) l = Some counts /\ sum_list counts = length ims /\ fst <$> starts = l /\
    (forall x r, ims !! x = Some r -> exists ki m, plain_interface r.1 ki /\ class_methods ki !! r.2 = Some m) /\
    forall i first ki q ik, (i, first) ∈ starts -> plain_interface i ki -> non_clinit (class_methods ki) !! q = Some ik ->
      (from <= first)%nat /\ ims !! (first - from + q)%nat = Some (i, ik).
Proof.
  revert from. induction l as [|i l IH]; intros from Hl.
  { exists [], [], []. split_and!; try done. intros i first ki q ik H. by apply elem_of_nil in H. }
  apply Forall_cons_1 in Hl as [(ki & Hki & Hii & Hms & Hnum) Hl]. destruct (IH (from + num_methods (class_methods ki))%nat Hl) as (ims & starts & counts & H1 & H2 & H3 & H4 & H5 & H6 & H7).
  exists (((fun k => (i, k)) <$> non_clinit (class_methods ki)) ++ ims), ((i, from) :: starts), (num_methods (class_methods ki) :: counts).
  cbn [interface_methods interface_starts]. rewrite Hms, H1. cbn [mbind option_bind]. rewrite H2. cbn [mbind option_bind].
  split; [done|]. split; [done|]. split; [cbn [mapM]; rewrite Hms; cbn [fmap option_fmap option_map mbind option_bind]; rewrite H3; done|].
  split; [rewrite length_app, length_fmap, <- Hnum; simpl; lia|]. split; [by rewrite fmap_cons, H5|]. split.
  - intros x r Hx. apply lookup_app_Some in Hx as [Hx|[_ Hx]]; [|by apply (H6 _ r Hx)].
    apply list_lookup_fmap_Some in Hx as (ik & -> & Hik). exists ki. unfold non_clinit in Hik. apply list_elem_of_lookup_2 in Hik.
    apply list_elem_of_In, filter_In in Hik as [_ Hik]. simpl. destruct (class_methods ki !! ik) as [m|]; [|done]. exists m. done.
  - intros i' first ki' q ik Hin Hpl Hq. pose proof (lookup_lt_Some _ _ _ Hq) as Hlt. apply elem_of_cons in Hin as [[= -> ->]|Hin].
    + destruct Hpl as (Hki' & _). assert (ki' = ki) as -> by congruence. split; [lia|]. rewrite Nat.sub_diag, Nat.add_0_l. rewrite lookup_app_l by (by rewrite length_fmap).
      by rewrite list_lookup_fmap, Hq.
    + destruct (H7 i' first ki' q ik Hin Hpl Hq) as [Hf Hx]. split; [lia|]. rewrite lookup_app_r by (rewrite length_fmap; lia). rewrite length_fmap, <- Hnum.
      rewrite <- Hx. f_equal. lia.
Qed.
Lemma descriptors_ok V ims : table_ok env classes st V -> (forall x r, ims !! x = Some r -> exists m, method_at classes st r = Some m) ->
  exists ids, mapM (interface_descriptor classes st V) ims = Some ids /\ length ids = length ims /\
  forall x r, ims !! x = Some r -> exists m d, ids !! x = Some d /\ method_at classes st r = Some m /\
    match d with
    | None => forall j r' o, entry_at classes st V j r' o -> ~ same_sig m o
    | Some d => exists j o, entry_at classes st V j d o /\ same_sig m o
    end.
Proof.
  intros HV. induction ims as [|r ims IH]; intros Hims; [by exists []|].
  destruct (Hims 0%nat r eq_refl) as [m Hm]. destruct IH as (ids & H1 & H2 & H3); [intros x r' Hx; by apply (Hims (S x))|].
  destruct (find_descriptor_ok env classes st V (_name m) (_descriptor m) HV) as (res & Hres & Hspec).
  assert (Hd : interface_descriptor classes st V r = Some (match res with None => None | Some (_, d) => Some d end)).
  { unfold interface_descriptor. rewrite Hm. cbn [mbind option_bind]. rewrite Hres. cbn [mbind option_bind]. done. }
  exists (match res with None => None | Some (_, d) => Some d end :: ids). cbn [mapM]. rewrite Hd. cbn [mbind option_bind]. rewrite H1.
  split; [done|]. split; [simpl; lia|]. intros [|x] r' Hx; [|by apply H3]. simpl in Hx. injection Hx as <-. exists m. eexists. split; [reflexivity|]. split; [done|].
  destruct res as [[j d]|].
  - destruct Hspec as (o & He & Hs & _). exists j, o. split; [done|by apply same_sig_true].
  - intros j r' o He Hs. apply same_sig_true in Hs. by rewrite (Hspec j r' o He) in Hs.
Qed.
Lemma interface_entries_ok rs ds : length ds = length rs -> (forall x d, ds !! x = Some (Some d) -> exists o, method_at classes st d = Some o) ->
  exists es, interface_entries classes st rs ds = Some es /\
  forall x r d, rs !! x = Some r -> ds !! x = Some d -> exists e, es !! x = Some (Some e) /\
    match d with
    | None => e = AbstractMethodError r
    | Some d => exists o, method_at classes st d = Some o /\
        e = if has o ACC_ABSTRACT then AbstractMethodError r else if has o ACC_PUBLIC then CodeOf d else IllegalAccessError d
    end.
Proof.
  revert ds. induction rs as [|r rs IH]; intros [|d ds] Hl Hds; try done; [by exists []|]. simpl in Hl.
  destruct (IH ds) as (es & H1 & H2); [lia|intros x d' Hx; by apply (Hds (S x))|]. cbn [interface_entries].
  assert (He : exists e, interface_entry classes st r d = Some e /\ match d with
    | None => e = AbstractMethodError r
    | Some d => exists o, method_at classes st d = Some o /\
        e = if has o ACC_ABSTRACT then AbstractMethodError r else if has o ACC_PUBLIC then CodeOf d else IllegalAccessError d
    end).
  { destruct d as [d|]; [|by eexists]. destruct (Hds 0%nat d eq_refl) as [o Ho]. unfold interface_entry. rewrite Ho. cbn [mbind option_bind].
    eexists. split; [reflexivity|]. by exists o. }
  destruct He as (e & -> & He). cbn [mbind option_bind]. rewrite H1. cbn [mbind option_bind]. exists (Some e :: es). split; [done|].
  intros [|x] r' d' Hr Hd; [|by apply H2]. simpl in Hr, Hd. injection Hr as <-. injection Hd as <-. by exists e.
Qed.
End entries.

(** ** Places of methods *)

Lemma filter_positions (P : Class_Member -> bool) ms n : (n <= length ms)%nat ->
  length (List.filter (fun j => match ms !! j with Some m => P m | None => false end) (seq 0 n)) = length (List.filter P (take n ms)).
Proof.
  induction n as [|n IH]; intros Hn; [done|]. rewrite seq_S, List.filter_app, length_app, IH by lia. simpl.
  destruct (lookup_lt_is_Some_2 ms n) as [m Hm]; [lia|]. rewrite (take_S_r _ _ _ Hm), List.filter_app, length_app. simpl. rewrite Hm. by destruct (P m).
Qed.
Lemma non_clinit_at ms i m : ms !! i = Some m -> (forall m, m ∈ ms -> virtual m = negb (clinit_method m)) -> virtual m = true ->
  non_clinit ms !! length (List.filter virtual (take i ms)) = Some i.
Proof.
  intros Hm Hall Hv. pose proof (lookup_lt_Some _ _ _ Hm) as Hi.
  assert (Hf : List.filter virtual (take i ms) = List.filter (fun m => negb (clinit_method m)) (take i ms)).
  { apply filter_ext_in. intros a Ha. apply Hall. apply list_elem_of_In in Ha. apply elem_of_take in Ha as (j & Hj & _). by eapply list_elem_of_lookup_2. }
  rewrite Hf, <- (filter_positions (fun m => negb (clinit_method m)) ms i) by lia. unfold non_clinit.
  replace (length ms) with (i + (length ms - i))%nat by lia. rewrite seq_app, List.filter_app. simpl.
  destruct (length ms - i)%nat as [|r] eqn:E; [lia|]. simpl. rewrite Hm, <- (Hall m), Hv by (by eapply list_elem_of_lookup_2). by rewrite list_lookup_middle.
Qed.
Lemma selected_fun classes st c name desc r r' : (forall a i j m m', above classes c a -> method_at classes st (a, i) = Some m -> method_at classes st (a, j) = Some m' -> same_sig m m' -> i = j) ->
  selected classes st c name desc r -> selected classes st c name desc r' -> r = r'.
Proof.
  intros Hd H. revert r'. induction H as [c i m name desc Hm Hv Hs|c k d name desc r Hk Hd' Hno _ IH]; intros r' H'.
  - inversion H' as [c2 i2 m2 n2 d2 Hm2 Hv2 Hs2|c2 k2 d2 n2 ds2 r2 Hk2 Hd2 Hno2 H2]; subst.
    + f_equal. apply (Hd c i i2 m m2); [apply above_refl|done|done|]. apply same_signature_true in Hs as [<- <-], Hs2 as [E1 E2]. by split.
    + by rewrite (Hno2 i m Hm Hv) in Hs.
  - inversion H' as [c2 i2 m2 n2 d2 Hm2 Hv2 Hs2|c2 k2 d2 n2 ds2 r2 Hk2 Hd2 Hno2 H2]; subst.
    + by rewrite (Hno i2 m2 Hm2 Hv2) in Hs2.
    + assert (k2 = k) as -> by congruence. assert (d2 = d) as -> by congruence. apply IH; [|done]. intros a i j m m' Ha. apply Hd. by eapply above_super.
Qed.

(** ** One class *)

Section step.
Context (env : Tables) (classes : list LClass) (rank : nat -> nat) (Hw : world_ok env classes rank).
Context (st : gmap nat Prepared) (Hinv : inv env classes rank st).
Context (this : nat) (k : LClass) (Hk : classes !! this = Some k) (Hnew : st !! this = None).
Abbreviation Hok := (wo_types _ _ _ Hw).
(** The super class is prepared. *)
Context (super : option Prepared) (Hsup : super_prepared st k = Some super).
Definition super_table : list (option MethodRef) := match super with None => [] | Some p => virtual_table p end.

Lemma super_is d : m_super_class k = Some d -> exists p kd, super = Some p /\ st !! d = Some p /\ classes !! d = Some kd /\ is_interface kd = false /\
  class_inv env classes rank st d kd p /\ (rank d < rank this)%nat.
Proof.
  intros Hd. unfold super_prepared in Hsup. rewrite Hd in Hsup. destruct (st !! d) as [p|] eqn:Ep; [|done]. injection Hsup as <-.
  destruct (ty_super _ _ _ Hok _ _ _ Hk Hd) as (kd & Hkd & Hi & _ & _ & Hr). exists p, kd. split_and!; try done. by eapply (inv_class env classes rank).
Qed.
Lemma super_none : m_super_class k = None -> super = None.
Proof. intros Hd. unfold super_prepared in Hsup. rewrite Hd in Hsup. by injection Hsup as <-. Qed.
Lemma super_table_ok : table_ok env classes st super_table /\ table_distinct classes st super_table /\ (length super_table <= rank this * length (all_methods classes))%nat.
Proof.
  unfold super_table. destruct (m_super_class k) as [d|] eqn:Ed.
  - destruct (super_is d Ed) as (p & kd & -> & Hp & Hkd & Hi & Hc & Hr). split; [apply Hc|]. split; [apply Hc|].
    rewrite (ci_length _ _ _ _ _ _ _ Hc). pose proof (ci_bound _ _ _ _ _ _ _ Hc). nia.
  - rewrite (super_none Ed). split; [intros j Hj; simpl in Hj; lia|]. split; [|simpl; lia]. intros i j r r' m m' [H _]. by rewrite lookup_nil in H.
Qed.
Lemma class_extends a ka pa : st !! a = Some pa -> classes !! a = Some ka -> is_interface ka = false -> extends classes st a (class_methods ka) (p_methods pa).
Proof. intros H1 H2 H3. apply (ci_methods _ _ _ _ _ _ _ (inv_class env classes rank st a ka pa Hinv H1 H2 H3)). Qed.
Lemma fake_public f : has (fake_method f) ACC_PUBLIC = true.
Proof. reflexivity. Qed.
Lemma above_class d a kd : above classes d a -> classes !! d = Some kd -> is_interface kd = false -> exists ka, classes !! a = Some ka /\ is_interface ka = false.
Proof.
  intros H. revert kd. induction H as [c|s k0 c t Hk0 Hc _ IH]; intros kd Hkd Hi; [by exists kd|].
  destruct (ty_super _ _ _ Hok _ _ _ Hk0 Hc) as (kc & Hkc & Hic & _). by apply (IH kc).
Qed.

(** Every entry of the super class is one a method of the signature overrides. *)
Lemma overridable ms m j r o : extends classes st this (class_methods k) ms -> m ∈ ms -> virtual m = true ->
  entry_at classes st super_table j r o -> same_sig m o -> overrides classes k r o = true.
Proof.
  intros [_ (fs & -> & Hf)] Hm Hv He Hs. unfold super_table in He. destruct (m_super_class k) as [d|] eqn:Ed.
  2:{ rewrite (super_none Ed) in He. destruct He as [He _]. by rewrite lookup_nil in He. }
  destruct (super_is d Ed) as (p & kd & Hsp & Hp & Hkd & Hi & Hc & _). rewrite Hsp in He.
  pose proof (ci_selected _ _ _ _ _ _ _ Hc j r o He) as Hsel. apply selected_above in Hsel as (Hab & o' & Ho' & Hvo & _).
  assert (o' = o) as -> by (destruct He as [_ He]; congruence).
  assert (Habt : above classes this r.1) by (by eapply above_super).
  destruct (above_class d r.1 kd Hab Hkd Hi) as (ka & Hka & Hia).
  destruct (above_prepared env classes rank Hw st d r.1 p kd Hinv Hp Hkd Hi Hab) as [pa Hpa].
  assert (Hne : r.1 <> this) by (intros E; rewrite E in Hpa; congruence).
  unfold method_at, methods_of in Ho'. rewrite Hpa in Ho'. cbn [mbind option_bind] in Ho'. apply list_elem_of_lookup_2 in Ho'.
  apply elem_of_app in Hm as [Hm|Hm].
  - destruct (class_extends r.1 ka pa Hpa Hka Hia) as [_ (fa & Hfa & Hff)]. rewrite Hfa in Ho'. apply elem_of_app in Ho' as [Ho'|Ho'].
    + unfold overrides, package_of. rewrite Hka. change (m_package <$> Some ka) with (Some (m_package ka)). destruct (wo_packages _ _ _ Hw this k r.1 ka m o Habt Hk Hka Hm Ho' Hv Hvo Hs) as [Hp1|Hfl].
      * by rewrite bool_decide_true by congruence.
      * by destruct (bool_decide _).
    + rewrite list.Forall_forall in Hff. destruct (Hff o Ho') as [(_ & _ & f & _ & _ & _ & ->) _]. unfold overrides. rewrite fake_public. by rewrite orb_true_r.
  - rewrite list.Forall_forall in Hf. destruct (Hf m Hm) as [_ Hno]. exfalso. apply (Hno r.1 (p_methods pa) o Habt Hne); [|done|done].
    unfold methods_of. by rewrite Hpa.
Qed.

Definition inherited_slots : nat := if is_interface k then 0%nat else length super_table.
Lemma count_room ms : extends classes st this (class_methods k) ms -> (inherited_slots + length ms <= S (rank this) * length (all_methods classes))%nat /\
  offset_of env (is_interface k) (inherited_slots + length ms) < 2 ^ 32.
Proof.
  intros He. pose proof (few_methods classes st this k ms Hk He) as Hl. destruct super_table_ok as (_ & _ & Ht). pose proof (ty_rank _ _ _ Hok this) as Hr.
  assert (Hb : (inherited_slots + length ms <= S (rank this) * length (all_methods classes))%nat) by (unfold inherited_slots; destruct (is_interface k); lia).
  split; [done|]. pose proof (wo_small _ _ _ Hw) as Hs. pose proof (wo_pointer _ _ _ Hw). pose proof (wo_head _ _ _ Hw). unfold offset_of in *.
  assert ((inherited_slots + length ms <= length classes * length (all_methods classes))%nat) by nia. destruct (is_interface k); nia.
Qed.
Lemma assign_offsets_ok fin : exists x, assign_offsets_to_methods env classes st this inherited_slots fin = Some x /\
  match x with
  | None => exists m j r o, virtual m = true /\ entry_at classes st super_table j r o /\ same_sig m o /\ sealed classes k r o = true
  | Some (ms, s) => extends classes st this (class_methods k) ms /\ (is_interface k = true -> ms = class_methods k) /\ assigned env classes st k super_table ms s
  end.
Proof.
  unfold assign_offsets_to_methods. rewrite Hk. cbn [mbind option_bind].
  assert (Hms : exists ms, (if is_abstract_class k && negb (is_interface k) then add_new_fake_method classes st (S (length classes)) this (m_superinterfaces k) (class_methods k)
    else Some (class_methods k)) = Some ms /\ extends classes st this (class_methods k) ms /\ (is_interface k = true -> ms = class_methods k)).
  { pose proof (wo_distinct _ _ _ Hw this k Hk) as Hd. destruct (is_abstract_class k && negb (is_interface k)) eqn:E.
    - destruct (add_fakes_ok env classes rank Hok st (length classes) this k (m_superinterfaces k) (class_methods k)) as (ms & -> & He); try done.
      + by eapply inv_keep.
      + intros i Hi. destruct (ty_interface _ _ _ Hok _ _ _ Hk Hi) as (ki & Hki & Hii & _). split; [apply (ty_rank _ _ _ Hok)|]. by exists ki.
      + exists ms. split; [done|]. split; [done|]. intros Hi. rewrite Hi in E. by rewrite andb_false_r in E.
    - exists (class_methods k). split; [done|]. split; [by apply methods_extend_refl|done]. }
  destruct Hms as (ms & -> & Hext & Hint). cbn [mbind option_bind]. rewrite Hsup. cbn [mbind option_bind]. cbv zeta.
  destruct super_table_ok as (Ht & Htd & _). destruct (count_room ms Hext) as [_ Hroom].
  assert (Hstart : ux 32 (Z.of_nat inherited_slots * POINTER_SIZE env + (if is_interface k then 0 else VTABLE_OVERHEAD env)) = offset_of env (is_interface k) inherited_slots).
  { pose proof (wo_pointer _ _ _ Hw). pose proof (wo_head _ _ _ Hw). unfold offset_of in *. rewrite ux_id; [lia|]. unfold is_u. destruct (is_interface k); nia. }
  rewrite Hstart. change (match super with Some p => take (m_num_virtual_method_entries p) (m_vtable_descriptors p) | None => [] end) with super_table.
  destruct (assign_methods_ok env classes st (wo_pointer _ _ _ Hw) (wo_head _ _ _ Hw) this k Hk super_table Ht Htd ms [] _ (assigned_start env classes st k super_table fin [])) as (x & Hx & Hx').
  { simpl. rewrite Nat.add_0_r. exact Hroom. }
  change (first_slot k super_table) with inherited_slots in Hx. rewrite Hx. cbn [mbind option_bind]. destruct x as [s|].
  - exists (Some (ms, s)). split; [done|]. split; [done|]. split; [done|]. apply Hx'.
  - exists None. split; [done|]. destruct Hx' as (m & j & r & o & _ & H1 & H2 & H3 & H4). by exists m, j, r, o.
Qed.

Lemma super_inherited : (match super with Some p => if is_interface k then (0%nat, false) else (m_num_virtual_method_entries p, m_has_finalizer p) | None => (0%nat, false) end).1 = inherited_slots.
Proof.
  unfold inherited_slots, super_table. destruct (m_super_class k) as [d|] eqn:Ed.
  - destruct (super_is d Ed) as (p & kd & -> & _ & _ & _ & Hc & _). destruct (is_interface k); [done|]. by rewrite (ci_length _ _ _ _ _ _ _ Hc).
  - rewrite (super_none Ed). by destruct (is_interface k).
Qed.
Lemma interface_positions ms s : is_interface k = true -> ms = class_methods k -> assigned env classes st k super_table ms s ->
  forall ik m, class_methods k !! ik = Some m -> virtual m = true ->
  exists q off, slots s !! ik = Some (Some (q, off)) /\ non_clinit (class_methods k) !! q = Some ik.
Proof.
  intros Hi -> Hs ik m Hm Hv. destruct (as_each _ _ _ _ _ _ _ Hs ik m Hm) as [[? _]|[_ (idx & Hidx & _)]]; [congruence|].
  exists idx, (offset_of env (is_interface k) idx). split; [done|]. destruct (as_rank _ _ _ _ _ _ _ Hs Hi) as [_ Hr]. rewrite (Hr ik idx _ Hidx).
  apply (non_clinit_at (class_methods k) ik m Hm); [|done]. intros o Ho. by apply (wo_interface_methods _ _ _ Hw this k).
Qed.

(** The interfaces it has entries for. *)
Lemma interfaces_ok : is_interface k = false -> exists l, build_interface_table_descriptors classes st this = Some l /\ NoDup l /\ Forall (known classes) l /\
  forall x, x ∈ l <-> interface_of classes this x.
Proof.
  intros Hi. destruct (build_interfaces_ok env classes rank Hok st (wo_weights _ _ _ Hw) this k super Hk Hsup) as (l & Hl & Hnd & Hkn & Hx).
  { intros p Hp. destruct (m_super_class k) as [d|] eqn:Ed; [|by rewrite (super_none Ed) in Hp].
    destruct (super_is d Ed) as (p' & kd & E & _ & _ & _ & Hc & _). assert (p' = p) as -> by congruence. apply (ci_interfaces _ _ _ _ _ _ _ Hc). }
  exists l. split; [done|]. split; [done|]. split; [done|]. intros x. rewrite Hx. split.
  - intros [(p & Hp & Hin)|[[_ ?]|(i & Hin & [Hxi Hs])]]; [|congruence|split; [done|by eapply subtype_interface]].
    destruct (m_super_class k) as [d|] eqn:Ed; [|by rewrite (super_none Ed) in Hp].
    destruct (super_is d Ed) as (p' & kd & E & _ & _ & _ & Hc & _). assert (p' = p) as -> by congruence.
    apply (proj2 (proj2 (ci_interfaces _ _ _ _ _ _ _ Hc))) in Hin as Hin. destruct Hin as [Hy1 Hy2]. split; [exact Hy1|]. eapply subtype_super; [exact Hk|exact Ed|exact Hy2].
  - intros Hif. destruct (interface_of_cases env classes rank Hok this k x Hk Hif) as [[_ ?]|[(d & Hd & _ & Hd')|?]]; [congruence| |by right; right].
    left. destruct (super_is d Hd) as (p & kd & E & _ & _ & _ & Hc & _). exists p. split; [done|]. by apply (proj2 (proj2 (ci_interfaces _ _ _ _ _ _ _ Hc))).
Qed.
Lemma all_interfaces_ok : is_interface k = true -> exists l, build_interface_table_descriptors classes st this = Some l.
Proof.
  intros Hi. destruct (build_interfaces_ok env classes rank Hok st (wo_weights _ _ _ Hw) this k super Hk Hsup) as (l & Hl & _); [|by exists l].
  intros p Hp. destruct (m_super_class k) as [d|] eqn:Ed; [|by rewrite (super_none Ed) in Hp].
  destruct (super_is d Ed) as (p' & kd & E & _ & _ & _ & Hc & _). assert (p' = p) as -> by congruence. apply (ci_interfaces _ _ _ _ _ _ _ Hc).
Qed.
(** What there is about an interface. *)
Lemma interface_known l : (forall x, x ∈ l <-> interface_of classes this x) -> Forall (fun i => exists ki, plain_interface classes st i ki) l.
Proof.
  intros Hx. apply list.Forall_forall. intros i Hi. apply Hx in Hi as [(ki & Hki & Hii) _]. exists ki. split; [done|]. split; [done|].
  split; [|by apply (wo_clinit _ _ _ Hw i)]. apply (interface_methods_of classes st i ki); [by eapply inv_keep|done|done].
Qed.

(** *** The table and its entries *)

Section built.
Context (Hclass : is_interface k = false).
Context (ms : list Class_Member) (s : assign_state) (Hext : extends classes st this (class_methods k) ms) (Hs : assigned env classes st k super_table ms s).
Abbreviation n := (num_entries s).

(** Any state that has the methods of the class and their positions. *)
Definition has_methods (own : gmap nat Prepared) : Prop :=
  (exists q, own !! this = Some q /\ p_methods q = ms /\ positions q = slots s) /\ forall c, c <> this -> own !! c = st !! c.
Lemma ext_own own : has_methods own -> ext st own.
Proof. intros [_ H] c p Hc. rewrite H; [done|]. intros ->. congruence. Qed.
Lemma super_own own : has_methods own -> super_prepared own k = Some super.
Proof.
  intros [_ H]. pose proof Hsup as Hs'. unfold super_prepared in Hs' |- *. destruct (m_super_class k) as [d|] eqn:Ed; [|exact Hs']. rewrite H; [exact Hs'|].
  intros ->. destruct (super_is this Ed) as (p & kd & _ & Hp & _). congruence.
Qed.
Lemma same_methods own own' r : has_methods own -> has_methods own' -> method_at classes own r = method_at classes own' r /\ position_of own r = position_of own' r.
Proof.
  intros [(q & H1 & H2 & H3) H4] [(q' & H1' & H2' & H3') H4']. unfold method_at, methods_of, position_of.
  destruct (decide (r.1 = this)) as [->|Hn]; [rewrite H1, H1'; cbn [mbind option_bind]; by rewrite H2, H2', H3, H3'|by rewrite H4, H4'].
Qed.

(** The table with the methods of the class in their slots. *)
Definition right_table (V : list (option MethodRef)) : Prop := length V = n /\
  forall j, (exists i off, slots s !! i = Some (Some (j, off)) /\ V !! j = Some (Some (this, i))) \/
    ((forall i off, slots s !! i <> Some (Some (j, off))) /\ V !! j = (super_table ++ replicate (n - length super_table) None) !! j).
Lemma right_table_exists : exists V, override_methods this 0 (slots s) (super_table ++ replicate (n - length super_table) None) = Some V /\ right_table V.
Proof.
  pose proof (as_count _ _ _ _ _ _ _ Hs) as Hc. unfold first_slot in Hc. rewrite Hclass in Hc.
  assert (Hl : length (super_table ++ replicate (n - length super_table) None) = n) by (rewrite length_app, length_replicate; lia).
  destruct (override_ok this (slots s) (super_table ++ replicate (n - length super_table) None) 0) as (V & HV & HVl & Hj).
  { intros i idx off Hi. rewrite Hl. destruct (lookup_lt_is_Some_2 ms i) as [m Hm]; [rewrite <- (as_length _ _ _ _ _ _ _ Hs); by eapply lookup_lt_Some|].
    destruct (as_each _ _ _ _ _ _ _ Hs i m Hm) as [[_ ?]|[_ (idx' & Hidx & Hlt & _)]]; [congruence|]. rewrite Hi in Hidx. by injection Hidx as <- _. }
  exists V. split; [done|]. split; [congruence|exact Hj].
Qed.
Context (V : list (option MethodRef)) (HV : right_table V).
Context (own : gmap nat Prepared) (Hown : has_methods own).
Abbreviation Hover := (fun m j r o Hm Hv He Hsig => overridable ms m j r o Hext Hm Hv He Hsig).
Lemma built_table : table_ok env classes own V.
Proof. destruct Hown as [(q & H1 & H2 & H3) H4], super_table_ok as (Ht & Htd & _), HV as [Hl Hj]. by eapply (own_table_ok env classes st this k). Qed.
Lemma built_distinct : table_distinct classes own V.
Proof.
  destruct Hown as [(q & H1 & H2 & H3) H4], super_table_ok as (Ht & Htd & _), HV as [Hl Hj].
  eapply (own_table_distinct env classes st this k); try done; [apply Hext|]. intros m j r o Hm Hv He Hsig. by eapply overridable.
Qed.
Lemma super_facts : match m_super_class k with
  | None => super_table = []
  | Some d => is_Some (st !! d) /\
      (forall j r m, entry_at classes st super_table j r m -> selected classes own d (_name m) (_descriptor m) r) /\
      (forall a i m, above classes d a -> method_at classes own (a, i) = Some m -> virtual m = true ->
         exists j, position_of own (a, i) = Some (j, offset_of env false j) /\ exists r o, entry_at classes st super_table j r o /\ same_sig m o)
  end.
Proof.
  destruct (m_super_class k) as [d|] eqn:Ed; [|unfold super_table; by rewrite (super_none Ed)].
  destruct (super_is d Ed) as (p & kd & E & Hp & Hkd & Hi & Hc & _). pose proof (ext_own own Hown) as He.
  assert (Hall : forall a, above classes d a -> is_Some (st !! a)) by (intros a; by eapply (above_prepared env classes rank Hw)).
  assert (Hst : super_table = virtual_table p) by (unfold super_table; by rewrite E). rewrite Hst. split; [by exists p|]. split.
  - intros j r m Hent. apply (ext_selected classes st own He); [done|]. by apply (ci_selected _ _ _ _ _ _ _ Hc j).
  - intros a i m Hab Hm Hv. destruct (ext_method classes st own He (a, i) (Hall a Hab)) as (E1 & E2 & _). rewrite E1 in Hm. rewrite E2.
    by apply (ci_position _ _ _ _ _ _ _ Hc).
Qed.
Lemma built_selected j r m : entry_at classes own V j r m -> selected classes own this (_name m) (_descriptor m) r.
Proof.
  pose proof super_facts as Hsf. destruct Hown as [(q & H1 & H2 & H3) H4], super_table_ok as (Ht & Htd & _), HV as [Hl Hj].
  eapply (own_selected env classes st this k); try done. intros m' j' r' o Hm Hv He Hsig. by eapply overridable.
Qed.
Lemma built_position a i m : above classes this a -> method_at classes own (a, i) = Some m -> virtual m = true ->
  exists j, position_of own (a, i) = Some (j, offset_of env false j) /\ exists r o, entry_at classes own V j r o /\ same_sig m o.
Proof.
  pose proof super_facts as Hsf. destruct Hown as [(q & H1 & H2 & H3) H4], super_table_ok as (Ht & Htd & _), HV as [Hl Hj].
  eapply (own_position env classes st this k); done.
Qed.
Lemma built_above a : above classes this a -> a = this \/ is_Some (st !! a).
Proof.
  intros Hab. destruct (above_cases _ _ _ Hab) as [<-|(k' & d & Hk' & Hd & Hab')]; [by left|right]. assert (k' = k) as -> by congruence.
  destruct (super_is d Hd) as (p & kd & _ & Hp & Hkd & Hi & _). by eapply (above_prepared env classes rank Hw).
Qed.
Lemma built_unique name desc r r' : selected classes own this name desc r -> selected classes own this name desc r' -> r = r'.
Proof.
  apply selected_fun. intros a i j m m' Hab Hm Hm' Hsig. destruct (decide (a = this)) as [->|Hn].
  - destruct Hown as [(q & H1 & H2 & H3) H4]. unfold method_at, methods_of in Hm, Hm'. simpl in *. rewrite H1 in Hm, Hm'. cbn [mbind option_bind] in Hm, Hm'. rewrite H2 in *.
    by apply (proj1 Hext i j m m').
  - destruct (built_above a Hab) as [?|[pa Hpa]]; [done|]. unfold method_at, methods_of in Hm, Hm'. simpl in *.
    rewrite (ext_own own Hown _ _ Hpa) in Hm, Hm'. cbn [mbind option_bind] in Hm, Hm'.
    destruct (above_class this a k Hab Hk Hclass) as (ka & Hka & Hia). by apply (proj1 (class_extends a ka pa Hpa Hka Hia) i j m m').
Qed.

(** What the entry for a method of an interface is. *)
Lemma entry_is_right r m d e : method_at classes own r = Some m ->
  match d with None => forall j r' o, entry_at classes own V j r' o -> ~ same_sig m o | Some d => exists j o, entry_at classes own V j d o /\ same_sig m o end ->
  match d with
  | None => e = AbstractMethodError r
  | Some d => exists o, method_at classes own d = Some o /\
      e = if has o ACC_ABSTRACT then AbstractMethodError r else if has o ACC_PUBLIC then CodeOf d else IllegalAccessError d
  end -> entry_right classes own this r m e.
Proof.
  intros Hm Hd He. destruct d as [d|].
  - destruct Hd as (j & o & Hent & Hsig), He as (o' & Ho' & ->). assert (o' = o) as -> by (destruct Hent; congruence).
    pose proof (built_selected j d o Hent) as Hsel. unfold same_sig in Hsig. destruct Hsig as [E1 E2]. rewrite <- E1, <- E2 in Hsel.
    destruct (has o ACC_ABSTRACT) eqn:Ea; [|destruct (has o ACC_PUBLIC) eqn:Ep].
    + split; [done|]. intros d' Hd'. rewrite (built_unique _ _ _ _ Hd' Hsel). by exists o.
    + split; [done|]. by exists o.
    + split; [done|]. by exists o.
  - subst e. split; [done|]. intros d' Hd'. exfalso. destruct (selected_above _ _ _ _ _ _ Hd') as (Hab & m' & Hm' & Hv' & Hs'). destruct d' as [a i].
    destruct (built_position a i m' Hab Hm' Hv') as (j & _ & r' & o & Hent & Hso). apply (Hd j r' o Hent). apply same_signature_true in Hs' as [E1 E2]. unfold same_sig in *. by rewrite <- E1, <- E2.
Qed.
End built.

(** The class has a method that overrides one nothing may override. *)
Definition rejected : Prop := exists m j r o, virtual m = true /\ entry_at classes st super_table j r o /\ same_sig m o /\ sealed classes k r o = true.
Lemma populate_ok own V ims ids n0 pos : super_prepared own k = Some super -> override_methods this 0 pos (super_table ++ replicate (n0 - length super_table) None) = Some V ->
  mapM (interface_descriptor classes own V) ims = Some ids -> populate_vtable_descriptors classes own this pos n0 ims = Some (V ++ ids).
Proof.
  intros H1 H2 H3. unfold populate_vtable_descriptors. rewrite Hk. cbn [mbind option_bind]. rewrite H1. cbn [mbind option_bind]. cbv zeta.
  change (match super with Some p => take (m_num_virtual_method_entries p) (m_vtable_descriptors p) | None => [] end) with super_table.
  rewrite H2. cbn [mbind option_bind]. rewrite H3. done.
Qed.
Lemma create_vtable_some : exists x, create_vtable classes st this = Some x.
Proof.
  unfold create_vtable. rewrite Hk. cbn [mbind option_bind]. rewrite Hsup. cbn [mbind option_bind]. destruct super; by eexists.
Qed.
Lemma prepare_class_ok : exists x, prepare_class env classes st this = Some x /\
  match x with None => rejected | Some p => inv env classes rank (<[this := p]> st) end.
Proof.
  unfold prepare_class. rewrite Hk. cbn [mbind option_bind]. rewrite Hsup. cbn [mbind option_bind].
  pose proof super_inherited as Hinh. destruct (match super with Some _ => _ | None => _ end) as [inh hf]. simpl in Hinh. subst inh.
  assert (Hbuild : exists l, build_interface_table_descriptors classes st this = Some l /\
    (is_interface k = false -> NoDup l /\ Forall (known classes) l /\ forall x, x ∈ l <-> interface_of classes this x)).
  { destruct (is_interface k) eqn:Ei; [destruct (all_interfaces_ok Ei) as [l Hl]; by exists l|destruct (interfaces_ok Ei) as (l & Hl & H); by exists l]. }
  destruct Hbuild as (intfc & -> & Hintfc). cbn [mbind option_bind].
  destruct (assign_offsets_ok hf) as (x & -> & Hx). cbn [mbind option_bind]. destruct x as [[ms s]|]; [|exists None; split; [done|exact Hx]].
  destruct Hx as (Hext & Hms & Hs). cbv zeta. destruct (is_interface k) eqn:Ei.
  { eexists. split; [reflexivity|]. apply (prepared_inv_insert env classes rank Hw st this k _ Hinv Hnew Hk). rewrite Ei. split; [by apply Hms|].
    cbn [positions]. by eapply interface_positions; [|apply Hms|]. }
  destruct (Hintfc eq_refl) as (Hnd & Hkn & Hin). pose proof (interface_known intfc Hin) as Hplain.
  set (q := MkPrepared ms (slots s) (num_entries s) [] 0 [] false [] [] (finalizer s) (marked s)). set (own := <[this := q]> st).
  assert (Hown : has_methods ms s own).
  { split; [exists q; split; [apply lookup_insert_eq|done]|]. intros c Hc. unfold own. by rewrite lookup_insert_ne. }
  destruct (interface_lists classes st intfc (num_entries s)) as (ims & starts & counts & H1 & H2 & H3 & H4 & H5 & H6 & H7).
  { exact Hplain. }
  rewrite H1. cbn [mbind option_bind]. rewrite H3. cbn [mbind option_bind]. rewrite H4. rewrite (proj2 (Nat.ltb_ge _ _)) by lia.
  destruct (right_table_exists Ei ms s Hs) as (V & HVo & HV).
  assert (Hims : forall own', has_methods ms s own' -> forall x r, ims !! x = Some r -> exists ki m, plain_interface classes st r.1 ki /\ class_methods ki !! r.2 = Some m /\ method_at classes own' r = Some m).
  { intros own' Hown' x r Hx. destruct (H6 x r Hx) as (ki & m & Hp & Hm). exists ki, m. split; [done|]. split; [done|]. destruct Hp as (Hki & Hii & Hmo & _).
    unfold method_at, methods_of in *. assert (Hr : r.1 <> this).
    { intros E. rewrite E in Hki. congruence. }
    rewrite (proj2 Hown' r.1 Hr), Hmo. done. }
  pose proof (built_table Ei ms s Hs V HV own Hown) as HVt. destruct HV as [HVl HVj] eqn:EHV. clear EHV.
  destruct (descriptors_ok env classes own V ims HVt) as (ids & Hids & Hidl & Hid).
  { intros x r Hx. destruct (Hims own Hown x r Hx) as (_ & m & _ & _ & Hm). by exists m. }
  rewrite (populate_ok own V ims ids (num_entries s) (slots s) (super_own ms s own Hown) HVo Hids). cbn [mbind option_bind].
  destruct create_vtable_some as [[[depth supers] fast] ->]. cbn [mbind option_bind]. rewrite (take_app_length' V ids), (drop_app_length' V ids) by done.
  destruct (point_ok env classes own (wo_pointer _ _ _ Hw) V (replicate (num_entries s + length ims) None) HVt) with (j0 := 0%nat) as (code & Hcode & Hcl & Hcj); [rewrite length_replicate; lia|lia|].
  rewrite drop_0 in Hcode. rewrite Hcode. cbn [mbind option_bind]. rewrite length_replicate in Hcl.
  destruct (interface_entries_ok classes own ims ids Hidl) as (es & -> & Hes).
  { intros x d Hx. destruct (lookup_lt_is_Some_2 ims x) as [r Hr]; [rewrite <- Hidl; by eapply lookup_lt_Some|].
    destruct (Hid x r Hr) as (m & d' & Hd' & _ & Hspec). assert (d' = Some d) as -> by congruence. destruct Hspec as (j & o & [_ Ho] & _). by exists o. }
  cbn [mbind option_bind]. rewrite H2. cbn [mbind option_bind]. eexists. split; [reflexivity|].
  set (p := MkPrepared _ _ _ _ _ _ _ _ _ _ _). set (own2 := <[this := p]> st).
  assert (Hown2 : has_methods ms s own2).
  { split; [exists p; split; [apply lookup_insert_eq|done]|]. intros c Hc. unfold own2. by rewrite lookup_insert_ne. }
  assert (Hvt : virtual_table p = V) by (unfold virtual_table; simpl; by rewrite take_app_length').
  assert (Hsame : forall r, method_at classes own r = method_at classes own2 r) by (intros r; by apply (same_methods ms s)).
  apply (prepared_inv_insert env classes rank Hw st this k p Hinv Hnew Hk). rewrite Ei. fold own2.
  split; rewrite ?Hvt.
  - done.
  - by eapply built_table.
  - by eapply built_distinct.
  - intros j r m. by eapply built_selected.
  - intros a i m. by eapply built_position.
  - intros j r Hj. pose proof (lookup_lt_Some _ _ _ Hj) as Hlt. simpl. rewrite lookup_app_l by (rewrite length_take; lia). rewrite lookup_take_lt by lia.
    apply (Hcj j); [lia|done].
  - intros d Hd. destruct (super_is d Hd) as (pd & _ & _ & Hpd & _). exists pd. by apply (ext_own ms s own2 Hown2).
  - split; [apply Hext|]. destruct Hext as [Hd (fs & Hfs & Hf)]. exists fs. split; [exact Hfs|]. eapply list.Forall_impl; [exact Hf|].
    intros f [Hfi Hfa]. split; [done|]. intros a ms' o Hab Hn Hms'. apply (Hfa a ms' o Hab Hn). unfold methods_of in *.
    by rewrite (proj2 Hown2 a Hn) in Hms'.
  - destruct (count_room ms Hext) as [Hc _]. pose proof (as_count _ _ _ _ _ _ _ Hs) as Hc2. unfold inherited_slots, first_slot in *. rewrite Ei in *. simpl. lia.
  - simpl. rewrite H5. done.
  - intros i first ki q' ik m Hst Hki Hq Hm. simpl in Hst |- *.
    assert (Hpl : plain_interface classes st i ki).
    { assert (Hil : i ∈ intfc) by (rewrite <- H5; apply list_elem_of_fmap; by exists (i, first)). rewrite list.Forall_forall in Hplain.
      destruct (Hplain i Hil) as (ki' & Hp'). assert (ki' = ki) as -> by (destruct Hp'; congruence). done. }
    destruct (H7 i first ki q' ik Hst Hpl Hq) as [Hge Hx]. destruct (Hid _ _ Hx) as (m' & d & Hd & Hm' & Hspec).
    destruct (Hes _ _ _ Hx Hd) as (e & He & Hde). exists e. rewrite lookup_app_r by (rewrite length_take; lia).
    replace (first + q' - length (take (num_entries s) code))%nat with (first - num_entries s + q')%nat by (rewrite length_take; lia). split; [done|].
    assert (Hmm : method_at classes own2 (i, ik) = Some m).
    { destruct (Hims own2 Hown2 _ _ Hx) as (ki2 & m2 & (Hki2 & _) & Hm2 & Hmo). simpl in *. assert (ki2 = ki) as -> by congruence. congruence. }
    assert (m' = m) as -> by (rewrite Hsame in Hm'; congruence).
    eapply (entry_is_right Ei ms s Hext Hs V (conj HVl HVj) own2 Hown2 (i, ik) m d e Hmm).
    + destruct d as [d|].
      * destruct Hspec as (j & o & [Hv Ho] & Hsig). exists j, o. split; [split; [done|by rewrite <- Hsame]|done].
      * intros j r' o [Hv Ho]. apply (Hspec j r' o). split; [done|by rewrite Hsame].
    + destruct d as [d|]; [|done]. destruct Hde as (o & Ho & ->). exists o. by rewrite <- Hsame.
Qed.
End step.

(** ** Preparing *)

Section run.
Context (env : Tables) (classes : list LClass) (rank : nat -> nat) (Hw : world_ok env classes rank).
Abbreviation Hok := (wo_types _ _ _ Hw).

Lemma prepare_class_inv st this p : inv env classes rank st -> st !! this = None -> prepare_class env classes st this = Some (Some p) ->
  inv env classes rank (<[this := p]> st).
Proof.
  intros Hinv Hnew H. destruct (classes !! this) as [k|] eqn:Hk; [|unfold prepare_class in H; by rewrite Hk in H].
  destruct (super_prepared st k) as [super|] eqn:Hs; [|unfold prepare_class in H; rewrite Hk in H; cbn [mbind option_bind] in H; by rewrite Hs in H].
  destruct (prepare_class_ok env classes rank Hw st Hinv this k Hk Hnew super Hs) as (x & Hx & Hx'). rewrite H in Hx. by injection Hx as <-.
Qed.
Lemma run_inv fuel order s : prepare_each env classes fuel unprepared order = Some s -> inv env classes rank (done_ s).
Proof.
  intros H. apply (prepare_each_inv env classes rank (inv env classes rank) (types_acyclic _ _ _ Hok) prepare_class_inv _ _ _ _ H).
  by intros c k p Hc.
Qed.

End run.

(** ** What the tables are for *)

Lemma find_intfc_ok table i first : NoDup (fst <$> table) -> (i, first) ∈ table -> find_intfc table i = Some first.
Proof.
  induction table as [|[j f] table IH]; intros Hnd Hin; [by apply elem_of_nil in Hin|]. rewrite fmap_cons in Hnd. inversion Hnd as [|x l Hj Hnd' E1]. subst x l.
  cbn [find_intfc]. apply elem_of_cons in Hin as [[= -> ->]|Hin]; [by rewrite bool_decide_true|]. rewrite bool_decide_false; [by apply IH|].
  intros ->. apply Hj. apply list_elem_of_fmap. by exists (i, first).
Qed.


(** C6: Virtual calls. The classes are linked as loading leaves them ([types_ok], no class
    with two methods of one signature, and no method of an interface static but its
    initialiser), their tables are small enough for 32-bit offsets, no two have the same
    weight in the comparator of interfaces, and no class has a virtual method of the
    signature of a package-private one of a class above it in another package
    ([world_ok]). Then, after any classes were prepared in any order, the virtual table of
    a prepared class that is no interface has, at the index of a virtual method of the
    class or of a class above it, the code of the method the class has of this signature:
    the first one in the class and its super classes. Without the condition on packages it
    does not ([PrepareRuns.preparation_errors]). *)
Theorem virtual_dispatch env classes rank fuel order s c k p a i m : world_ok env classes rank ->
  prepare_each env classes fuel unprepared order = Some s -> done_ s !! c = Some p -> classes !! c = Some k -> is_interface k = false ->
  above classes c a -> method_at classes (done_ s) (a, i) = Some m -> virtual m = true ->
  exists index off r, position_of (done_ s) (a, i) = Some (index, off) /\ vtable_methods p !! index = Some (Some (CodeOf r)) /\
    selected classes (done_ s) c (_name m) (_descriptor m) r.
Proof.
  intros Hw Hrun Hp Hk Hi Hab Hm Hv. pose proof (run_inv _ _ _ Hw _ _ _ Hrun) as Hinv. pose proof (inv_class _ _ _ _ _ _ _ Hinv Hp Hk Hi) as Hc.
  destruct (ci_position _ _ _ _ _ _ _ Hc a i m Hab Hm Hv) as (j & Hj & r & o & He & Hs). exists j, (offset_of env false j), r. split; [done|].
  split; [apply (ci_code _ _ _ _ _ _ _ Hc), He|]. pose proof (ci_selected _ _ _ _ _ _ _ Hc j r o He) as Hsel.
  unfold same_sig in Hs. destruct Hs as [-> ->]. exact Hsel.
Qed.

(** C7: Calls through an interface. The classes are linked as loading leaves them
    ([types_ok], no class with two methods of one signature, and no method of an interface
    static but its initialiser), their tables are small enough for 32-bit offsets, no two
    have the same weight in the comparator of interfaces, and no class has a virtual
    method of the signature of a package-private one of a class above it in another
    package ([world_ok]). Then, after any classes were prepared in any order, a prepared
    class that is no interface has a table for a prepared interface if and only if it is a
    subtype of it. In that table, at the index of a virtual method of the interface, is
    the code of the method the class has of this signature (the first one in the class and
    its super classes) if that is public and not abstract, [IllegalAccessError] if it is
    neither public nor abstract, and [AbstractMethodError] if it is abstract or there is
    none. Without the condition on packages the first method found can be another one. *)
Theorem interface_dispatch env classes rank fuel order s c k p i ki pi ik m : world_ok env classes rank ->
  prepare_each env classes fuel unprepared order = Some s -> done_ s !! c = Some p -> classes !! c = Some k -> is_interface k = false ->
  classes !! i = Some ki -> is_interface ki = true -> done_ s !! i = Some pi -> class_methods ki !! ik = Some m -> virtual m = true ->
  (subtype classes c i -> exists first index off e, find_intfc (intfc_table p) i = Some first /\ position_of (done_ s) (i, ik) = Some (index, off) /\
     vtable_methods p !! (first + index)%nat = Some (Some e) /\ entry_right classes (done_ s) c (i, ik) m e) /\
  (~ subtype classes c i -> find_intfc (intfc_table p) i = None).
Proof.
  intros Hw Hrun Hp Hk Hi Hki Hii Hpi Hm Hv. pose proof (run_inv _ _ _ Hw _ _ _ Hrun) as Hinv. pose proof (inv_class _ _ _ _ _ _ _ Hinv Hp Hk Hi) as Hc.
  destruct (ci_interfaces _ _ _ _ _ _ _ Hc) as (Hnd & _ & Hx). split.
  - intros Hsub. assert (Hin : i ∈ fst <$> intfc_table p) by (apply Hx; split; [by exists ki|done]).
    apply list_elem_of_fmap in Hin as ([i' first] & E & Hin). simpl in E. subst i'.
    pose proof (Hinv i ki pi Hpi Hki) as Hint. rewrite Hii in Hint. destruct (ii_position _ _ Hint ik m Hm Hv) as (q & off & Hpos & Hq).
    destruct (ci_entries _ _ _ _ _ _ _ Hc i first ki q ik m Hin Hki Hq Hm) as (e & He & Hr). exists first, q, off, e.
    split; [by apply find_intfc_ok|]. split; [|done]. unfold position_of. simpl. rewrite Hpi. cbn [mbind option_bind]. by rewrite Hpos.
  - intros Hno. destruct (find_intfc (intfc_table p) i) as [first|] eqn:E; [|done]. exfalso. apply Hno.
    assert (Hin : i ∈ fst <$> intfc_table p); [|by apply Hx in Hin as [_ ?]].
    clear -E. induction (intfc_table p) as [|[j f] l IH]; [done|]. cbn [find_intfc] in E. rewrite fmap_cons. simpl.
    destruct (bool_decide_reflect (j = i)) as [->|]; [by left|right; by apply IH].
Qed.
