(* ===== verification/PrepareRuns.v ===== *)
(** * Preparation on concrete classes, and where it goes wrong *)
From stdpp Require Import gmap strings.
From S2P Require Import Prelude ByteReader VerTypes ClassNames ConstPool Annotations ClassMembers ClassTables SubtypeOk VTablesOk PrepareOk.

Definition env0 : Tables := MkTables 8 64 0 1 2.
Definition void_method (flags : Z) (name : string) : Class_Member := MkMember flags name "()V".
Definition class_of (id flags : Z) (package : nat) (super : option nat) (ifs : list nat) (ms : list Class_Member) : LClass :=
  MkLClass id flags package super ifs ms false None.
Definition array_class (id : Z) (element : nat) : LClass := MkLClass id 0x411 0 (Some 0%nat) [2; 1]%nat [] true (Some element).

(** The class of objects, the interfaces of arrays, an interface [I], an abstract class [A]
    that implements it in part, a class [B] of the same package below it, a class [C] of
    another package below [B], the arrays of [B], and a class of constants with a static
    initialiser. *)
Definition world : list LClass := [
  class_of 1 1 0 None [] [void_method 1 "<init>"; void_method 1 "hashCode"; void_method 4 "finalize"];
  class_of 2 0x601 0 (Some 0%nat) [] [];
  class_of 3 0x601 0 (Some 0%nat) [] [];
  class_of 4 0x601 0 (Some 0%nat) [] [void_method 8 "<clinit>"; void_method 0x401 "run"; void_method 0x401 "stop"];
  class_of 5 0x401 1 (Some 0%nat) [3]%nat [void_method 1 "<init>"; void_method 1 "run"; void_method 0 "foo"];
  class_of 6 1 1 (Some 4%nat) [] [void_method 1 "hashCode"; void_method 1 "foo"; void_method 4 "stop"];
  class_of 7 1 2 (Some 5%nat) [] [void_method 1 "hashCode"; void_method 8 "main"; void_method 4 "finalize"];
  array_class 8 5].
Definition depth_of (c : nat) : nat := nth c [0; 1; 1; 1; 2; 3; 4; 4]%nat 0%nat.

(** ** It is a world *)

(** What a test says of each class. *)
Lemma every_class {A} (l : list A) (f : nat -> A -> bool) : forallb id (imap f l) = true -> forall c k, l !! c = Some k -> f c k = true.
Proof.
  intros H c k Hk. rewrite forallb_forall in H. apply H. apply list_elem_of_In, list_elem_of_lookup. exists c.
  by rewrite list_lookup_imap, Hk.
Qed.
Lemma distinct_test ms : NoDup ((fun m => (_name m, _descriptor m)) <$> ms) -> distinct ms.
Proof.
  intros H i j m m' Hi Hj [Hn Hd]. eapply NoDup_lookup; [exact H| |]; rewrite list_lookup_fmap; [by rewrite Hi|rewrite Hj; simpl; congruence].
Qed.
Lemma weights_test classes : NoDup (imap (fun c _ => class_weight classes c) classes) -> weights_ok classes.
Proof.
  intros H c d [kc Hc] [kd Hd] E. eapply NoDup_lookup; [exact H| |]; rewrite list_lookup_imap; [by rewrite Hc|rewrite Hd; simpl; congruence].
Qed.
(** No method hides one of its signature from another package. *)
Definition hides (k ka : LClass) : bool :=
  existsb (fun m => existsb (fun o => same_signature (_name m) (_descriptor m) o && negb (has o ACC_PUBLIC || has o ACC_PROTECTED || has o ACC_PRIVATE))
    (class_methods ka)) (class_methods k) && negb (m_package k =? m_package ka)%nat.
Lemma hides_test classes : forallb (fun k => forallb (fun ka => negb (hides k ka)) classes) classes = true ->
  forall c k a ka m o, classes !! c = Some k -> classes !! a = Some ka -> m ∈ class_methods k -> o ∈ class_methods ka -> same_sig m o ->
  m_package k = m_package ka \/ has o ACC_PUBLIC || has o ACC_PROTECTED || has o ACC_PRIVATE = true.
Proof.
  intros H c k a ka m o Hk Hka Hm Ho Hs. rewrite forallb_forall in H. specialize (H k ltac:(apply list_elem_of_In; by eapply list_elem_of_lookup_2)).
  rewrite forallb_forall in H. specialize (H ka ltac:(apply list_elem_of_In; by eapply list_elem_of_lookup_2)). apply negb_true_iff in H.
  unfold hides in H. apply andb_false_iff in H as [H|H]; [|left; by apply negb_false_iff, Nat.eqb_eq in H].
  right. destruct (has o ACC_PUBLIC || has o ACC_PROTECTED || has o ACC_PRIVATE) eqn:E; [done|]. exfalso.
  assert (Hex : existsb (fun m => existsb (fun o => same_signature (_name m) (_descriptor m) o && negb (has o ACC_PUBLIC || has o ACC_PROTECTED || has o ACC_PRIVATE))
    (class_methods ka)) (class_methods k) = true); [|congruence].
  apply existsb_exists. exists m. split; [by apply list_elem_of_In|]. apply existsb_exists. exists o. split; [by apply list_elem_of_In|].
  apply andb_true_iff. split; [by apply same_sig_true|by rewrite E].
Qed.

(** Each class of a list of [n]. *)
Ltac each_class n c H :=
  lazymatch n with
  | O => destruct c; done
  | S ?n => destruct c as [|c]; [simpl in H; simplify_eq|each_class n c H]
  end.
Lemma world_types : types_ok env0 world depth_of.
Proof.
  split.
  - intros c. unfold depth_of. do 8 (destruct c as [|c]; [simpl; lia|]). destruct c; simpl; lia.
  - eexists. split; [reflexivity|]. by vm_compute.
  - intros c k Hk Hs. each_class 8%nat c Hk; done.
  - intros c k d Hk Hd. each_class 8%nat c Hk; try done; simpl in Hd; simplify_eq; eexists; (split; [reflexivity|]); vm_compute; split_and!; auto; try done; try lia.
  - intros c k i Hk Hi. each_class 8%nat c Hk; try done; simpl in Hi; repeat (destruct Hi as [<-|Hi]; [eexists; split; [reflexivity|]; vm_compute; split; [done|lia]|]); done.
  - intros c k Hk Hi. each_class 8%nat c Hk; done.
  - intros c k Hk Ha. each_class 8%nat c Hk; try done. split; [done|]. split; [done|]. do 2 eexists. split; [reflexivity|]. split; [reflexivity|]. vm_compute; lia.
  - intros c k Hc Hk. destruct Hc as [-> | ->]; simpl in Hk; by simplify_eq.
Qed.
Lemma world_world : world_ok env0 world depth_of.
Proof.
  split.
  - exact world_types.
  - apply weights_test. apply (bool_decide_unpack _). by vm_compute.
  - done.
  - done.
  - intros c k Hk. apply distinct_test. revert c k Hk.
    enough (H : forall c k, world !! c = Some k -> bool_decide (NoDup ((fun m => (_name m, _descriptor m)) <$> class_methods k)) = true)
      by (intros; eapply bool_decide_eq_true_1; eauto).
    apply (every_class world (fun _ k => bool_decide (NoDup ((fun m => (_name m, _descriptor m)) <$> class_methods k)))). by vm_compute.
  - intros c k Hk. apply Nat.eqb_eq. revert c k Hk. apply (every_class world (fun _ k => (num_methods (class_methods k) =? length (non_clinit (class_methods k)))%nat)). by vm_compute.
  - intros c k m Hk Hi Hm. enough (H : negb (is_interface k) || forallb (fun m => Bool.eqb (virtual m) (negb (clinit_method m))) (class_methods k) = true).
    { rewrite Hi in H. simpl in H. rewrite forallb_forall in H. apply eqb_prop, H. by apply list_elem_of_In. }
    clear Hi m Hm. revert c k Hk. apply (every_class world (fun _ k => negb (is_interface k) || forallb (fun m => Bool.eqb (virtual m) (negb (clinit_method m))) (class_methods k))). by vm_compute.
  - intros c k a ka m o _ Hk Hka Hm Ho _ _ Hs. by apply (hides_test world eq_refl c k a ka m o).
  - by vm_compute.
Qed.

(** ** The theorems there *)

Definition final0 : PrepState := default unprepared (prepare_each env0 world 9 unprepared [0; 7; 6]%nat).
Lemma final0_run : prepare_each env0 world 9 unprepared [0; 7; 6]%nat = Some final0.
Proof. by vm_compute. Qed.
Definition prepared0 (c : nat) : Prepared := default (MkPrepared [] [] 0 [] 0 [] false [] [] false []) (done_ final0 !! c).

(** The arrays of [B] are arrays of what [A] is. *)
Lemma class_is_subtype_witness : types_ok env0 world depth_of /\
  exists b, class_is_subtype env0 world 9 7 3 = Some b /\ (b = true <-> subtype world 7 3).
Proof. split; [exact world_types|]. apply (class_is_subtype_spec env0 world depth_of 7 3 world_types); by eexists. Defined.
Lemma is_instanceof_witness : types_ok env0 world depth_of /\ prepare_each env0 world 9 unprepared [0; 7; 6]%nat = Some final0 /\
  exists b, is_instanceof env0 world (done_ final0) 9 6 4 = Some b /\ (b = true <-> subtype world 6 4).
Proof.
  split; [exact world_types|]. split; [exact final0_run|].
  eapply (is_instanceof_spec env0 world depth_of 9 [0; 7; 6]%nat final0 6 4); [exact world_types|exact final0_run|reflexivity|reflexivity| |by eexists].
  exists (prepared0 6). by vm_compute.
Defined.
(** [hashCode] of the class of objects in [C]. *)
Lemma virtual_dispatch_witness : world_ok env0 world depth_of /\ above world 6 0 /\
  exists index off r, position_of (done_ final0) (0, 1)%nat = Some (index, off) /\ vtable_methods (prepared0 6) !! index = Some (Some (CodeOf r)) /\
    selected world (done_ final0) 6 "hashCode" "()V" r.
Proof.
  assert (Hab : above world 6 0) by (do 3 (eapply above_super; [reflexivity|reflexivity|]); apply above_refl).
  split; [exact world_world|]. split; [exact Hab|].
  eapply (virtual_dispatch env0 world depth_of 9 [0; 7; 6]%nat final0 6 _ (prepared0 6) 0 1 (void_method 1 "hashCode"));
    [exact world_world|exact final0_run|by vm_compute|reflexivity|reflexivity|exact Hab|by vm_compute|by vm_compute].
Defined.
(** [stop] of [I] in [C], which has it from [B], where it is not public. *)
Lemma interface_dispatch_witness : world_ok env0 world depth_of /\
  (subtype world 6 3 -> exists first index off e, find_intfc (intfc_table (prepared0 6)) 3 = Some first /\
     position_of (done_ final0) (3, 2)%nat = Some (index, off) /\ vtable_methods (prepared0 6) !! (first + index)%nat = Some (Some e) /\
     entry_right world (done_ final0) 6 (3, 2)%nat (void_method 0x401 "stop") e) /\
  (~ subtype world 6 3 -> find_intfc (intfc_table (prepared0 6)) 3 = None).
Proof.
  split; [exact world_world|].
  eapply (interface_dispatch env0 world depth_of 9 [0; 7; 6]%nat final0 6 _ (prepared0 6) 3 _ (prepared0 3) 2 (void_method 0x401 "stop"));
    [exact world_world|exact final0_run|by vm_compute|reflexivity|reflexivity|reflexivity|reflexivity|by vm_compute|reflexivity|by vm_compute].
Defined.
(** What it finds. *)
Example tables_of_C : vtable_methods (prepared0 6) =
    Some <$> [CodeOf (6, 0)%nat; CodeOf (6, 2)%nat; CodeOf (4, 1)%nat; CodeOf (5, 1)%nat; CodeOf (5, 2)%nat; CodeOf (4, 1)%nat; IllegalAccessError (5, 2)%nat] /\
  intfc_table (prepared0 6) = [(3, 5)]%nat /\ vtable_methods (prepared0 4) !! 6%nat = Some (Some (AbstractMethodError (3, 2)%nat)).
Proof. by vm_compute. Qed.

(** ** Where it goes wrong *)

(** [A.foo] is of one package; [B] and [C] are of another, and their [foo] is public. *)
Definition hiding_world : list LClass := [
  class_of 1 1 0 None [] []; class_of 2 0x601 0 (Some 0%nat) [] []; class_of 3 0x601 0 (Some 0%nat) [] [];
  class_of 4 1 1 (Some 0%nat) [] [void_method 0 "foo"];
  class_of 5 1 2 (Some 3%nat) [] [void_method 1 "foo"];
  class_of 6 1 2 (Some 4%nat) [] [void_method 1 "foo"]].
Definition hidden : PrepState := default unprepared (prepare_each env0 hiding_world 9 unprepared [5]%nat).
(** [B] overrides the sealed method of [A], [C] is below [B]. *)
Definition sealed_world : list LClass := [
  class_of 1 1 0 None [] []; class_of 2 0x601 0 (Some 0%nat) [] []; class_of 3 0x601 0 (Some 0%nat) [] [];
  class_of 4 1 1 (Some 0%nat) [] [void_method 0x11 "foo"];
  class_of 5 1 1 (Some 3%nat) [] [void_method 1 "foo"];
  class_of 6 1 1 (Some 4%nat) [] []].
Definition refused : PrepState := default unprepared (fst <$> prepare env0 sealed_world 9 unprepared 4).
(** Two interfaces, of 0 methods and the number 65539, of 1 method and the number 3; and a
    class with both. *)
Definition heavy_world : list LClass := [
  class_of 1 1 0 None [] []; class_of 2 0x601 0 (Some 0%nat) [] []; class_of 5 0x601 0 (Some 0%nat) [] [];
  class_of 65539 0x601 0 (Some 0%nat) [] []; class_of 3 0x601 0 (Some 0%nat) [] [void_method 0x401 "run"];
  class_of 65540 1 1 (Some 0%nat) [3; 4]%nat [void_method 1 "run"]].

(** Where preparation goes wrong.  A method of a super class that another package cannot
    see hides the ones below it from the search for a slot: [C.foo] overrides [B.foo], but a
    call of [B.foo] on a [C] runs [B.foo].  A class with an error is refused once, the next
    time it counts as prepared; what needs it then reads a virtual table that is not there,
    as it fails an assertion if it is the first to need it.  And the order the interfaces
    are sorted by is none for two of different numbers of methods whose class numbers differ
    by 65536. *)
Theorem preparation_errors :
  (done_ hidden !! 5%nat <> None /\ position_of (done_ hidden) (4, 0)%nat = Some (1%nat, 72) /\
   (p ← done_ hidden !! 5%nat; vtable_methods p !! 1%nat) = Some (Some (CodeOf (4, 0)%nat)) /\
   selected hiding_world (done_ hidden) 5 "foo" "()V" (5, 0)%nat) /\
  (prepare env0 sealed_world 9 unprepared 4 = Some (refused, false) /\ prepare env0 sealed_world 9 refused 4 = Some (refused, true) /\
   done_ refused !! 4%nat = None /\ prepare env0 sealed_world 9 refused 5 = None /\ prepare env0 sealed_world 9 unprepared 5 = None) /\
  (class_weight heavy_world 3 = class_weight heavy_world 4 /\ sort_classes heavy_world [3; 4]%nat = None /\
   prepare env0 heavy_world 9 unprepared 5 = None).
Proof.
  split; [split_and!; [by vm_compute..|]|split; split_and!; by vm_compute].
  apply (selected_here _ _ 5 0 (void_method 1 "foo")); by vm_compute.
Qed.
